(* ===== verification/_CoqProject ===== *)
-Q . S2P
Prelude.v
Intset.v
Util.v
Listpack.v
ListpackNav.v
ListpackEdit.v
ListpackBulk.v
Dict.v
DictInv.v
DictExt.v
DictOps.v
DictScan.v
DictIter.v
Zskiplist.v
Double.v
ZslInv.v
ZslOps.v
ZslRange.v
Zset.v
Zzl.v
ZzlOps.v
ZzlRange.v
ZsetType.v
ZsetRefine.v
SetType.v
SetRefine.v
Glob.v
KeySlot.v
Cluster.v
ClusterInv.v
ClusterOps.v
ClusterUpdate.v
ClusterCalm.v
ClusterRun.v
ClusterNodes.v
ClusterCmd.v
ClusterCmdInv.v
ClusterSteps.v
ClusterHealth.v
ClusterVote.v
Lzf.v
LzfFormat.v
LzfRound.v
Bitops.v
Bits.v
BitFields.v
BitRanges.v
BitopCmd.v
Sds.v
SdsOk.v
Rio.v
Rdb.v
RdbRound.v
Adlist.v
AdlistOk.v
AdlistRun.v
SdsRun.v
SdsText.v
SdsFmt.v
Crc64.v
