(* ===== verification/Prelude.v ===== *)
(** * Verification of the data structures and the cluster state of Redis 7.2.3

    The repository carries Redis 7.2.3 (src/redis-cluster/redis/redis-7.2.3/src,
    the directory all file names below are relative to).  Redis is a server
    around a few data structures that it implements itself: compact byte
    encodings for small values and pointer structures for large ones, between
    which an object is converted as it grows.  This library models these
    structures as executable Rocq functions, translated from the C code function
    by function, and proves that each implements the mathematical object it
    stands for: a set, a list of strings, a finite map, a sorted set, an array
    of bits, a pattern.  It also models how strings get to disk and back: LZF
    compression, streams, and the string encodings of RDB files.
    A Redis cluster is a set of servers that each keep their own view of who
    owns which hash slot and who replicates whom, and that change it by messages,
    timers and commands.  The library models that state and its handlers, and
    proves that it stays consistent and that elections are safe.

    *** Conventions

    - A C integer is a [Z] kept in the range of its type with [u32], [s64], ...
      wherever the code may wrap.  A block of memory is the list of its bytes, a
      pointer into it an offset.  Reads and writes outside a block, failed
      assertions and NULL dereferences give [None]; a NULL pointer that is a
      result of a function is an inner [None].  So a theorem that says that a
      function returns [Some] also says that no access is out of bounds and that
      no assertion fails.
    - Nodes of linked structures live in a finite map from addresses (a heap);
      sharing and aliasing are explicit.
    - Loops are structural recursions, on fuel where the C loop has no bound in
      its text.  The fuel is computed from the state (the length of a block, the
      length of a list), and the theorems say that the function returns, so it
      is always enough.
    - The allocator (class [Allocator] below), random numbers (the list of the
      numbers that random() returns), strtod, fpconv_dtoa, the hash functions,
      the clock and the callbacks of a dict are parameters.  What is assumed of
      them is in classes or hypotheses next to their use ([Allocator],
      [ScoreText], [TypeOk], [TypeOn], [Limits], [SetLimits], [BackendLaws],
      [ReliableBackend]), and every theorem that needs one has a witness with a
      concrete instance.  Memory that the code reads before it is written (the
      hash table of LZF) is an argument too, so a theorem holds for any content.
    - The machine is the one Redis supports: little endian, 64 bit pointers,
      32 bit int, signed char, IEEE 754 doubles.

    *** The parts

    - Prelude: machine integers, memory, the allocator, tactics, lemmas.
    - Intset (intset.c, intset.h): the sorted array of integers with an encoding
      of 2, 4 or 8 bytes.  C1, C4, C5, C7: addition and removal are those of a
      set, upgrading the encoding only when needed; the integrity check of
      untrusted bytes accepts exactly the representations, and fails to answer
      only on more than 2^31 elements; a 32 bit byte count that wraps for very
      large sets.
    - Util (util.c): decimal conversions.  Printing stays within the buffer; C10:
      parsing accepts exactly the canonical numbers.
    - Listpack, ListpackNav, ListpackEdit, ListpackBulk (listpack.c): lists of
      strings and integers in one block.  C12: every entry encoding is
      decoded to what was encoded, forwards and backwards.  C17, C18: the
      integrity check is complete, and sound on arbitrary bytes: what it accepts
      can be walked safely.  C21: insertion, replacement and deletion in any
      sequence refine the operations on a list of strings.  Merge,
      batch deletion and search are lemmas of ListpackBulk.
    - Dict, DictInv, DictExt, DictOps, DictScan, DictIter (dict.c, dict.h): chained
      hash tables with incremental rehashing.  C25, C26: any sequence of
      operations, with resizing and rehashing at any moment between them, refines
      a finite map; rehashing ends, whatever the clock and the resize policy.
      DictExt extends the invariant to types whose comparison is right on some
      keys only.  C28, C29: the stateless cursor of dictScan:
      an iteration during which the table changes size emits every key that is
      present throughout, and ends.  C8: iterators visit every entry once, also
      when entries are deleted on the way.
    - Zskiplist, ZslInv, ZslOps, ZslRange (t_zset.c): the skiplist.  [zsl_ok]
      relates the heap to the sorted list of items; every forward pointer, span
      and backward pointer is determined by it.  C30, C34, C36: insertion,
      score and lexicographic ranges, parsing of range bounds; deletion, score
      updates and ranks are lemmas that the sorted set type uses.
    - Zset (t_zset.c, server.c): the skiplist together with the dict that finds
      elements, whose comparison keeps lengths in an int.  C35: range deletion
      keeps the two in step.  The file also states
      what a sorted set promises: [zadd], [zrank] on a finite map from elements
      to scores.
    - Double: which [spec_float]s are doubles, and that arithmetic stays there.
    - Zzl, ZzlOps, ZzlRange (t_zset.c, util.c, sds.c): the listpack encoding of
      sorted sets, scores as integers or text.  C38: ranges.
    - ZsetType, ZsetRefine (t_zset.c, object.c): the API over both encodings and
      the conversions.  C37 is the theorem of the sorted set component: any
      sequence of calls refines the same calls on a finite map, whichever
      encoding the object has and however often it is converted.  It uses the
      theorems on listpacks, dicts and skiplists through their invariants.
    - SetType, SetRefine (t_set.c, object.c, server.c): the set type over intset,
      listpack and dict.  C40: any sequence of calls refines the same calls on a
      finite set of strings, across the conversions between the encodings.
    - KeySlot (crc16.c, cluster.c): the hash slot of a key.  C13: it is the CRC16 of
      the hash tag, the remainder of a polynomial division over GF(2).
    - Cluster (cluster.c, cluster.h): the state of a cluster node and its
      handlers: slots and their bitmaps, replicas and shards, roles, failure
      reports, configuration epochs, the slot configurations of other nodes,
      votes, the state of the cluster, failover, messages.  ClusterCmd: start,
      gossip, time outs, manual failover, migration of replicas, the periodic
      work and the CLUSTER command.  A handler is a computation on a heap of
      nodes and the state; what it asks of the rest of the server (messages to
      send, keys to delete, replication to start) is added to a list of effects.
      The clock and random() are functions of the number of reads, the
      configuration is a record [server_t], and a node that the code looks up by
      its name is an argument.
    - ClusterInv states the invariant [cluster_ok] (slot table, bitmaps and
      counters agree; replicas own no slots; master pointers and replica lists
      are inverse; no dangling pointer) and the rules of the program logic [wp];
      ClusterOps, ClusterCalm, ClusterRun, ClusterNodes and ClusterCmdInv show
      that the handlers keep it.  ClusterSteps, C3: from [clusterInit] on any
      sequence of messages, timers and commands keeps the invariant, and no step
      fails an assertion or uses a freed node, as long as no replica is given
      slots with ADDSLOTS, which the code accepts and which makes a later
      REPLICATE fail an assertion.  ClusterUpdate, C6: what a slot
      configuration of another node changes, slot by slot.  ClusterHealth, C16:
      the state of the cluster settles on what the node knows.  ClusterVote, C15:
      a master votes once in an epoch, so at most one replica gets a majority.
    - Glob (util.c): pattern matching.  C39: stringmatchlen returns and decides
      the declarative meaning of a pattern, the flag that cuts the backtracking
      included.
    - Sds, SdsOk, SdsRun (sds.c, sds.h): dynamic strings on the bytes of their
      block, with the five types of headers.  SdsOk relates the block to a string
      ([rep]).  C24: any program over a string refines the same operations on a
      list of bytes, for every allocator.  C9: the exception, growing with
      [sdsResize] under jemalloc, overflows the heap.  SdsText: quoting,
      splitting, joining.  C23: what sdscatrepr quotes is what sdssplitargs reads.
      SdsFmt: sdscatfmt appends the expansion of its format.
    - Adlist, AdlistOk, AdlistRun (adlist.c, adlist.h): doubly linked lists whose
      nodes share a heap.  AdlistOk: what an operation does to the list ([rep])
      and that it touches no other node ([local]).  C33: programs over two lists
      refine programs over two sequences, deletion under an iterator and a copy
      that fails half way included; no node is lost, shared or used when freed.
    - Lzf, LzfFormat, LzfRound (lzf_c.c, lzf_d.c): compression.  LzfFormat is the
      format: a list of literals and references and its expansion.  C2:
      decompression of any bytes stays in its buffers and is the expansion or an
      error.  C11: what the compressor writes is restored.
    - Bitops, Bits, BitFields, BitRanges, BitopCmd (bitops.c): strings as arrays
      of bits ([Bits] states the abstract array).  C20, C27: BITFIELD refines reads
      and increments of integers in the array with its three overflow policies,
      on all operations that the argument parser gives, a saturation to the wrong
      end included; its replies are in range, its offsets below the limit.
      C31: BITCOUNT and BITPOS by words equal counting and searching bit by bit.
      C32: BITOP by words equals the bytewise operation.
    - Rio (rio.c, rio.h): streams over an interface of backends ([Backend]), the
      memory buffer as an instance.  Rdb, RdbRound (rdb.c): lengths, integers and
      strings of RDB files over any backend.  C22: what is saved is loaded, from
      any reliable backend; C14: loading of arbitrary bytes from a backend that
      may fail at any time stays in bounds, and ends the process only by the
      report of a corrupt file or, for lengths close to 2^64, by the assertion of
      the string allocation ([load_outcome]).  Both use C2's and C11's lemmas on LZF.
    - Crc64 (crc64.c, crcspeed.c): the checksum of RDB files.  C19: with tables and
      eight bytes at a time it equals the bitwise definition, and a stream has
      the checksum of the bytes that went through it.

    *** Bounds

    Sizes are bounded by what the C types hold: 2^32-1 bytes for a listpack (the
    functions return NULL beyond, which is modelled), 2^60 entries for a dict and
    a skiplist, far beyond memory.  An intset has fewer than 2^29 elements, where
    the byte count that C7 is about starts to wrap; its integrity check is for
    any size.  Members of sets and sorted sets are shorter than 2^31 bytes, the
    lengths that dictSdsKeyCompare keeps in an int.  The
    limits of the compact encodings ([Limits], [SetLimits]) are those of the configuration
    and are constant during a sequence of calls.  A linked list has at most
    2^64-1 nodes, a dynamic string at most 2^62 bytes.

    *** Not modelled

    - Of the files above: the random selection functions of listpack.c; entry
      metadata, the fingerprint of unsafe iterators, random entries and
      statistics of dict.c; zsetDup, random members, set operations and the
      commands of t_zset.c and t_set.c; memory sizes, paths and random
      identifiers of util.c.
    - Of cluster.c: links, the encoding of packets, handshakes, addresses and
      host names, the configuration file, the replies of read-only subcommands,
      the redirection of clients, DUMP, RESTORE and MIGRATE.
    - Of crcspeed.c: the routines for big endian machines and for 16 bits.
    - Of sds.c, bitops.c, rio.c and rdb.c: printf and templates, the lookup and
      replies of the commands, the file, socket and descriptor backends, the
      other object types of RDB files.
    - The other structures (quicklist.c, rax.c, ziplist.c), HyperLogLog:
      candidates for later work, in this order.  The models of the set, sorted
      set and RDB components take a dynamic string as the list of its bytes,
      which C24 justifies.
    - Networking, the event loop, AOF, replication, sentinel, scripting and most
      commands: I/O and glue around the structures.
    - deps/ (vendored code) and the Java projects of the repository. *)

From stdpp Require Export prelude strings list list_numbers gmap sorting.
From Stdlib Require Export ZArith Zbitwise Lia.

#[export] Set Default Goal Selector "!".
#[global] Open Scope Z_scope.

(** ** Machine integers

    A [w]-bit C integer is a [Z]; [wrapu w] and [wraps w] are the conversions
    to the unsigned and to the signed (two's complement) type of that width. *)

Definition wrapu (w z : Z) : Z := z mod 2 ^ w.
Definition wraps (w z : Z) : Z := (z + 2 ^ (w - 1)) mod 2 ^ w - 2 ^ (w - 1).

Abbreviation u8 := (wrapu 8) (only parsing).
Abbreviation u16 := (wrapu 16) (only parsing).
Abbreviation u32 := (wrapu 32) (only parsing).
Abbreviation u64 := (wrapu 64) (only parsing).
Abbreviation s8 := (wraps 8) (only parsing).
Abbreviation s16 := (wraps 16) (only parsing).
Abbreviation s32 := (wraps 32) (only parsing).
Abbreviation s64 := (wraps 64) (only parsing).

Definition INT16_MIN : Z := - 2 ^ 15.
Definition INT16_MAX : Z := 2 ^ 15 - 1.
Definition INT32_MIN : Z := - 2 ^ 31.
Definition INT32_MAX : Z := 2 ^ 31 - 1.
Definition INT64_MIN : Z := - 2 ^ 63.
Definition INT64_MAX : Z := 2 ^ 63 - 1.
Definition UINT16_MAX : Z := 2 ^ 16 - 1.
Definition UINT32_MAX : Z := 2 ^ 32 - 1.
Definition UINT64_MAX : Z := 2 ^ 64 - 1.

(** The range of the signed [w]-bit type, as a decidable predicate. *)
Definition sfits (w z : Z) : Prop := - 2 ^ (w - 1) ≤ z < 2 ^ (w - 1).
Definition ufits (w z : Z) : Prop := 0 ≤ z < 2 ^ w.
#[export] Instance sfits_dec w z : Decision (sfits w z).
Proof. unfold sfits. apply _. Defined.
#[export] Instance ufits_dec w z : Decision (ufits w z).
Proof. unfold ufits. apply _. Defined.

Lemma wrapu_small w z : 0 ≤ z < 2 ^ w → wrapu w z = z.
Proof. intros. unfold wrapu. by rewrite Z.mod_small. Qed.

Lemma wrapu_range w z : 0 ≤ w → 0 ≤ wrapu w z < 2 ^ w.
Proof. intros. apply Z.mod_pos_bound. apply Z.pow_pos_nonneg; lia. Qed.

Lemma pow2_split w : 0 < w → 2 ^ w = 2 * 2 ^ (w - 1).
Proof. intros. rewrite <- Z.pow_succ_r by lia. f_equal. lia. Qed.

Lemma wraps_small w z : 0 < w → sfits w z → wraps w z = z.
Proof.
  unfold sfits, wraps. intros Hw Hz. pose proof (pow2_split w Hw).
  rewrite Z.mod_small by lia. lia.
Qed.

Lemma wraps_range w z : 0 < w → sfits w (wraps w z).
Proof.
  unfold sfits, wraps. intros Hw. pose proof (pow2_split w Hw).
  pose proof (Z.pow_pos_nonneg 2 (w - 1) ltac:(lia) ltac:(lia)).
  pose proof (Z.mod_pos_bound (z + 2 ^ (w - 1)) (2 ^ w) ltac:(lia)). lia.
Qed.

(** Converting to unsigned and back to signed of the same width. *)
Lemma wraps_mod w z : 0 < w → wraps w (z mod 2 ^ w) = wraps w z.
Proof.
  intros Hw. unfold wraps. rewrite Zplus_mod_idemp_l. done.
Qed.

(** ** Byte buffers

    A block of memory is the list of its bytes.  An access outside the block
    is undefined behaviour in C; here the access returns [None], so a theorem
    that an operation returns [Some _] says that it stays inside its blocks. *)

Abbreviation zlen l := (Z.of_nat (length l)).

Definition load (b : list Z) (off n : Z) : option (list Z) :=
  if decide (0 ≤ off ∧ 0 ≤ n ∧ off + n ≤ zlen b)
  then Some (take (Z.to_nat n) (drop (Z.to_nat off) b)) else None.

Definition store (b : list Z) (off : Z) (bs : list Z) : option (list Z) :=
  if decide (0 ≤ off ∧ off + zlen bs ≤ zlen b)
  then Some (take (Z.to_nat off) b ++ bs ++ drop (Z.to_nat (off + zlen bs)) b) else None.

Definition load8 (b : list Z) (off : Z) : option Z :=
  if decide (0 ≤ off) then b !! Z.to_nat off else None.

(** [memmove(b+dst, b+src, n)] inside one block. *)
Definition memmove (b : list Z) (dst src n : Z) : option (list Z) :=
  bs ← load b src n; store b dst bs.

(** [assert(e)]: the process stops when [e] is false. *)
Definition assert (e : bool) : option unit := if e then Some tt else None.

(** The bytes of a C string literal, without the terminator. *)
Definition bytes_of (s : string) : list Z :=
  (λ c, Z.of_N (Ascii.N_of_ascii c)) <$> String.list_ascii_of_string s.
Arguments bytes_of _%_string.

(** ** The allocator

    [zmalloc] and [zrealloc] (zmalloc.c) sit on libc or jemalloc, whose code
    is a parameter: a block of [n] requested bytes has [usable n ≥ n] bytes,
    and the bytes it gains are indeterminate ([junk]).  Out of memory stops
    the process and is not modelled. *)
Class Allocator := {
  usable : nat → nat;
  usable_ge : ∀ n, (n ≤ usable n)%nat;
  junk : nat → Z;
}.

Definition fresh `{Allocator} (n : nat) : list Z := junk <$> seq 0 n.
Arguments fresh : simpl never.

(** Resizing a block to exactly [n] bytes of payload. *)
Definition resize `{Allocator} (n : nat) (b : list Z) : list Z :=
  take n b ++ fresh (n - length b).

(** [zrealloc]: the block keeps its first bytes and has a usable size. *)
Definition realloc `{Allocator} (n : nat) (b : list Z) : list Z :=
  resize (usable n) (take n b).

(** The allocator that returns exact blocks of zero bytes. *)
Definition exact_allocator : Allocator :=
  {| usable := id; usable_ge n := Nat.le_refl n; junk := λ _, 0 |}.

(** ** Automation *)

Create Rewrite HintDb lens.
#[export] Hint Rewrite @length_app @length_cons @length_nil @length_take @length_drop
  @length_fmap @length_replicate @length_insert @length_reverse @length_seq : lens.

(** Normalise list lengths everywhere and call [lia]. *)
Ltac llia := autorewrite with lens in *; lia.

(** [lia] with the bounds of the integer types unfolded. *)
Ltac ilia :=
  unfold sfits, ufits, INT16_MIN, INT16_MAX, INT32_MIN, INT32_MAX, INT64_MIN, INT64_MAX,
    UINT16_MAX, UINT32_MAX, UINT64_MAX in *; lia.

(** [lia] with quotients and remainders turned into equations. *)
Ltac dlia := Z.to_euclidean_division_equations; lia.

(** Split on the boolean comparisons of an executable definition. *)
Ltac zcase :=
  repeat match goal with
  | |- context [Z.ltb ?a ?b] => destruct (Z.ltb_spec a b)
  | |- context [Z.leb ?a ?b] => destruct (Z.leb_spec a b)
  | |- context [Z.gtb ?a ?b] => rewrite (Z.gtb_ltb a b)
  | |- context [Z.geb ?a ?b] => rewrite (Z.geb_leb a b)
  | |- context [Z.eqb ?a ?b] => destruct (Z.eqb_spec a b)
  end.

(** Open the binds of a successful monadic computation. *)
Ltac obind H :=
  repeat match type of H with
  | mbind _ _ = Some _ =>
      let x := fresh "x" in let E := fresh "E" in
      apply bind_Some in H as (x & E & H); simpl in H
  end.

(** ** Lemmas on buffers *)

Lemma length_fresh `{Allocator} n : length (fresh n) = n.
Proof. unfold fresh. llia. Qed.
#[export] Hint Rewrite @length_fresh : lens.

Lemma length_resize `{Allocator} n b : length (resize n b) = n.
Proof. unfold resize. llia. Qed.
#[export] Hint Rewrite @length_resize : lens.

Lemma length_realloc `{Allocator} n b : length (realloc n b) = usable n.
Proof. apply length_resize. Qed.

Lemma resize_grow `{Allocator} n b :
  (length b ≤ n)%nat → resize n b = b ++ fresh (n - length b).
Proof. intros. unfold resize. by rewrite take_ge. Qed.

Lemma resize_shrink `{Allocator} n b : (n ≤ length b)%nat → resize n b = take n b.
Proof.
  intros. unfold resize. replace (n - length b)%nat with 0%nat by lia.
  unfold fresh. simpl. by rewrite app_nil_r.
Qed.

Lemma load_app a b c off n :
  off = zlen a → n = zlen b → load (a ++ b ++ c) off n = Some b.
Proof.
  intros -> ->. unfold load. rewrite decide_True by llia.
  rewrite !Nat2Z.id, drop_app_length, take_app_length. done.
Qed.

Lemma load_head b c n : n = zlen b → load (b ++ c) 0 n = Some b.
Proof. by apply (load_app []). Qed.

Lemma store_app a old c off bs :
  off = zlen a → length old = length bs →
  store (a ++ old ++ c) off bs = Some (a ++ bs ++ c).
Proof.
  intros -> Hl. unfold store. rewrite decide_True by llia.
  rewrite !Nat2Z.id, take_app_length.
  replace (Z.to_nat (zlen a + zlen bs)) with (length (a ++ old)) by llia.
  rewrite (app_assoc a old c), drop_app_length. done.
Qed.

Lemma store_head old c bs : length old = length bs → store (old ++ c) 0 bs = Some (bs ++ c).
Proof. by apply (store_app []). Qed.

Lemma load8_app a x c off : off = zlen a → load8 (a ++ x :: c) off = Some x.
Proof.
  intros ->. unfold load8. rewrite decide_True by lia.
  rewrite Nat2Z.id. by rewrite lookup_app_r, Nat.sub_diag by lia.
Qed.

Lemma load_Some b off n bs :
  load b off n = Some bs →
  ∃ a c, b = a ++ bs ++ c ∧ off = zlen a ∧ n = zlen bs.
Proof.
  unfold load. case_decide as H; [|done]. intros [= <-].
  exists (take (Z.to_nat off) b), (drop (Z.to_nat (off + n)) b).
  replace (Z.to_nat (off + n)) with (Z.to_nat off + Z.to_nat n)%nat by lia.
  rewrite <- drop_drop, take_drop, take_drop.
  split_and!; [done|llia..].
Qed.

Lemma length_store b off bs b' : store b off bs = Some b' → length b' = length b.
Proof. unfold store. case_decide; [|done]. intros [= <-]. llia. Qed.

(** ** Little-endian integers *)

Fixpoint le_bytes (n : nat) (z : Z) : list Z :=
  match n with
  | O => []
  | S n => z mod 256 :: le_bytes n (z / 256)
  end.

Fixpoint le_val (bs : list Z) : Z :=
  match bs with
  | [] => 0
  | b :: bs => b + 256 * le_val bs
  end.

Definition is_byte (b : Z) : Prop := 0 ≤ b < 256.
#[export] Instance is_byte_dec b : Decision (is_byte b).
Proof. unfold is_byte. apply _. Defined.

Lemma length_le_bytes n z : length (le_bytes n z) = n.
Proof. revert z. induction n; intros; simpl; auto. Qed.
#[export] Hint Rewrite length_le_bytes : lens.

Lemma le_bytes_byte n z : Forall is_byte (le_bytes n z).
Proof.
  revert z. induction n; intros; simpl; constructor; auto.
  unfold is_byte. apply Z.mod_pos_bound. lia.
Qed.

Lemma le_val_bytes n z : le_val (le_bytes n z) = z mod 2 ^ (8 * Z.of_nat n).
Proof.
  revert z. induction n as [|n IH]; intros; cbn [le_bytes le_val].
  { by rewrite Z.mod_1_r. }
  rewrite IH. replace (8 * Z.of_nat (S n)) with (8 + 8 * Z.of_nat n) by lia.
  rewrite Z.pow_add_r by lia. change (2 ^ 8) with 256.
  rewrite Z.rem_mul_r; [done|lia|]. apply Z.pow_pos_nonneg; lia.
Qed.

Lemma le_bytes_val bs :
  Forall is_byte bs → le_bytes (length bs) (le_val bs) = bs.
Proof.
  induction 1 as [|b bs Hb _ IH]; simpl; [done|]. unfold is_byte in Hb.
  rewrite (Z.mul_comm 256), Z.mod_add, Z.div_add by lia.
  rewrite Z.mod_small, Z.div_small by lia. rewrite Z.add_0_l. by rewrite IH.
Qed.

Lemma le_bytes_val' n bs :
  Forall is_byte bs → length bs = n → le_bytes n (le_val bs) = bs.
Proof. intros ? <-. by apply le_bytes_val. Qed.

Lemma le_val_range bs : Forall is_byte bs → 0 ≤ le_val bs < 2 ^ (8 * zlen bs).
Proof.
  intros H. rewrite <- (le_bytes_val bs H), le_val_bytes.
  rewrite length_le_bytes. apply Z.mod_pos_bound, Z.pow_pos_nonneg; lia.
Qed.

Lemma le_bytes_mod n z : le_bytes n (z mod 2 ^ (8 * Z.of_nat n)) = le_bytes n z.
Proof.
  rewrite <- le_val_bytes. rewrite <- (length_le_bytes n z) at 1.
  apply le_bytes_val, le_bytes_byte.
Qed.

(** Reading back a signed integer of [n] bytes. *)
Lemma wraps_le_val n z :
  (0 < n)%nat → sfits (8 * Z.of_nat n) z →
  wraps (8 * Z.of_nat n) (le_val (le_bytes n z)) = z.
Proof.
  intros Hn Hz. rewrite le_val_bytes, wraps_mod by lia. apply wraps_small; [lia|done].
Qed.

(** ** Bit operations as arithmetic *)

Lemma land_low x k : 0 ≤ k → Z.land x (2 ^ k - 1) = x mod 2 ^ k.
Proof. intros. rewrite <- Z.land_ones, Z.ones_equiv by done. done. Qed.

Lemma land_255 x : Z.land x 255 = x mod 256.
Proof. apply (land_low x 8). lia. Qed.
Lemma land_127 x : Z.land x 127 = x mod 128.
Proof. apply (land_low x 7). lia. Qed.

(** Disjoint bits: [lor] is addition. *)
Lemma lor_shiftl_add a b n : 0 ≤ n → 0 ≤ a < 2 ^ n → Z.lor a (Z.shiftl b n) = a + b * 2 ^ n.
Proof.
  intros Hn Ha. rewrite <- Z.shiftl_mul_pow2, <- Z.add_lor_land by done.
  replace (Z.land a (Z.shiftl b n)) with 0; [lia|]. symmetry. apply Z.bits_inj'. intros i Hi.
  rewrite Z.land_spec, Z.shiftl_spec, Z.bits_0 by done.
  destruct (Z.lt_ge_cases i n) as [Hlt|Hge].
  - rewrite (Z.testbit_neg_r b) by lia. apply andb_false_r.
  - destruct (decide (a = 0)) as [->|]; [by rewrite Z.bits_0|].
    rewrite (Z.bits_above_log2 a i); [done|lia|].
    apply Z.log2_lt_pow2; [lia|]. pose proof (Z.pow_le_mono_r 2 n i). lia.
Qed.

(** Big-end first: high bits [or] low bits. *)
Lemma shiftl_lor_add a b n : 0 ≤ n → 0 ≤ b < 2 ^ n → Z.lor (Z.shiftl a n) b = a * 2 ^ n + b.
Proof. intros. rewrite Z.lor_comm, lor_shiftl_add by done. lia. Qed.

(** Little-endian combination with [|] and [<<], as the sources write it. *)
Fixpoint le_or (bs : list Z) : Z :=
  match bs with
  | [] => 0
  | b :: bs => Z.lor b (Z.shiftl (le_or bs) 8)
  end.

Lemma le_or_val bs : Forall is_byte bs → le_or bs = le_val bs.
Proof.
  induction 1 as [|b bs Hb _ IH]; simpl; [done|]. unfold is_byte in Hb.
  rewrite IH, lor_shiftl_add by lia. change (2 ^ 8) with 256. lia.
Qed.

(** Facts about one byte, decided by enumeration. *)
Lemma byte_forall (P : Z → bool) :
  forallb P (Z.of_nat <$> seq 0 256) = true → ∀ b, is_byte b → P b = true.
Proof.
  intros H b Hb. rewrite forallb_forall in H. apply H. apply list_elem_of_In.
  apply list_elem_of_fmap. exists (Z.to_nat b). unfold is_byte in Hb. split; [lia|].
  apply elem_of_seq. lia.
Qed.

(** ** Framing: reads inside one part of a block *)

Lemma load8_frame a e c k b :
  load8 e k = Some b → load8 (a ++ e ++ c) (zlen a + k) = Some b.
Proof.
  unfold load8. case_decide; [|done]. intros Hb. rewrite decide_True by lia.
  pose proof (lookup_lt_Some _ _ _ Hb).
  rewrite lookup_app_r by lia. rewrite lookup_app_l by lia. rewrite <- Hb. f_equal. lia.
Qed.

Lemma load_frame a e c k n bs :
  load e k n = Some bs → load (a ++ e ++ c) (zlen a + k) n = Some bs.
Proof.
  intros (x & y & -> & -> & ->)%load_Some.
  rewrite <- !app_assoc, (app_assoc a). apply load_app; [llia|done].
Qed.

Lemma load8_Some b off x : load8 b off = Some x → 0 ≤ off < zlen b.
Proof.
  unfold load8. case_decide; [|done]. intros ?%lookup_lt_Some. lia.
Qed.

Lemma load8_byte b off x : Forall is_byte b → load8 b off = Some x → is_byte x.
Proof. unfold load8. case_decide; [|done]. intros. by eapply Forall_lookup_1. Qed.

Lemma load8_total b off : 0 ≤ off < zlen b → ∃ x, load8 b off = Some x.
Proof. intros. unfold load8. rewrite decide_True by lia. apply lookup_lt_is_Some_2. lia. Qed.

Lemma load_total b off n : 0 ≤ off → 0 ≤ n → off + n ≤ zlen b → ∃ bs, load b off n = Some bs.
Proof. intros. unfold load. rewrite decide_True by lia. eauto. Qed.

Lemma lxor_range w a b : 0 ≤ w → 0 ≤ a < 2 ^ w → 0 ≤ b < 2 ^ w → 0 ≤ Z.lxor a b < 2 ^ w.
Proof.
  intros Hw Ha Hb. split; [by rewrite Z.lxor_nonneg; lia|]. rewrite <- (Z.mod_small a (2 ^ w)), <- (Z.mod_small b (2 ^ w)) by done. assert (Z.lxor (a mod 2 ^ w) (b mod 2 ^ w) = Z.lxor a b mod 2 ^ w) as ->; [|apply Z.mod_pos_bound; lia].
  apply Z.bits_inj'. intros i Hi. rewrite Z.lxor_spec. destruct (Z.ltb_spec i w); [by rewrite !Z.mod_pow2_bits_low, Z.lxor_spec by lia|by rewrite !Z.mod_pow2_bits_high by lia].
Qed.
Lemma lor_range w a b : 0 ≤ w → 0 ≤ a < 2 ^ w → 0 ≤ b < 2 ^ w → 0 ≤ Z.lor a b < 2 ^ w.
Proof.
  intros Hw Ha Hb. assert (0 ≤ Z.lor a b) by (apply Z.lor_nonneg; lia). split; [done|].
  destruct (decide (Z.lor a b = 0)) as [->|]; [lia|]. apply Z.log2_lt_pow2; [lia|].
  rewrite Z.log2_lor by lia. destruct (decide (w = 0)) as [->|].
  { replace a with 0 in * by lia. replace b with 0 in * by lia. done. }
  assert (∀ x, 0 ≤ x < 2 ^ w → Z.log2 x < w) as Hlog; [|pose proof (Hlog a Ha); pose proof (Hlog b Hb); lia].
  intros x Hx. destruct (decide (x = 0)) as [->|]; [simpl; lia|]. apply Z.log2_lt_pow2; lia.
Qed.

(** ** Moving the tail of a block *)

Lemma realloc_grow `{Allocator} n b :
  (length b ≤ n)%nat → realloc n b = b ++ fresh (usable n - length b).
Proof.
  intros Hn. unfold realloc. pose proof (usable_ge n). rewrite take_ge by done.
  apply resize_grow. lia.
Qed.

Lemma realloc_trunc `{Allocator} n b s :
  n = length b → realloc n (b ++ s) = b ++ fresh (usable n - n).
Proof.
  intros ->. unfold realloc. pose proof (usable_ge (length b)). rewrite take_app_length.
  by apply resize_grow.
Qed.

(** Moving [t] so that [k] bytes lie between [a] and [t]. *)
Lemma memmove_splice a m t s k dst src n :
  dst = zlen a + k → src = zlen a + zlen m → n = zlen t → 0 ≤ k →
  k + zlen t ≤ zlen m + zlen t + zlen s →
  ∃ y s', memmove (a ++ m ++ t ++ s) dst src n = Some (a ++ y ++ t ++ s') ∧ zlen y = k.
Proof.
  intros -> -> -> Hk Hfit. unfold memmove. rewrite (app_assoc a m).
  rewrite load_app by llia. cbn [mbind option_bind]. rewrite <- app_assoc.
  unfold store. rewrite decide_True by llia.
  exists (take (Z.to_nat k) (m ++ t ++ s)), (drop (Z.to_nat (zlen a + k + zlen t)) (a ++ m ++ t ++ s)).
  split; [|llia]. f_equal. rewrite Z2Nat.inj_add, Nat2Z.id by lia.
  rewrite take_app_add. by rewrite <- app_assoc.
Qed.

(** Growing keeps the first bytes and has room for the request. *)
Lemma realloc_keep `{Allocator} n b s :
  (length b ≤ n)%nat → ∃ s', realloc n (b ++ s) = b ++ s' ∧ (n ≤ length (b ++ s'))%nat.
Proof.
  intros Hn. unfold realloc, resize. pose proof (usable_ge n). rewrite take_take, Nat.min_r by done.
  rewrite take_app_ge by done. rewrite <- app_assoc. eexists; split; [done|]. llia.
Qed.

(** Moving [b] to the left over [x]: what follows stays in place. *)
Lemma memmove_left a x b c dst src n :
  dst = zlen a → src = zlen a + zlen x → n = zlen b →
  ∃ x', memmove (a ++ x ++ b ++ c) dst src n = Some (a ++ b ++ x' ++ c) ∧ length x' = length x.
Proof.
  intros -> -> ->. unfold memmove. rewrite (app_assoc a x), load_app by llia.
  cbn [mbind option_bind]. rewrite <- app_assoc, (app_assoc x b).
  exists (drop (length b) (x ++ b)). split; [|llia].
  rewrite <- (take_drop (length b) (x ++ b)) at 1. rewrite <- !app_assoc.
  apply store_app; [done|llia].
Qed.

Lemma elem_of_concat {A} (x : A) (ls : list (list A)) : x ∈ concat ls ↔ ∃ l, x ∈ l ∧ l ∈ ls.
Proof. induction ls as [|l ls IH]; simpl; [set_solver|]. rewrite elem_of_app, IH. set_solver. Qed.
