(* ===== verification/Intset.v ===== *)
(** * intset.c: the sorted, compactly encoded set of integers

    [intset] is the C struct, its flexible array member [contents] the byte
    list after the header.  The host is little endian, so [intrev32ifbe] and
    [memrev*ifbe] are the identity.  Operations that may touch memory outside
    [contents] return [None] there. *)

From S2P Require Import Prelude.

Module Intset.

Record intset := mk_intset {
  is_encoding : Z;      (* uint32_t encoding *)
  is_length : Z;        (* uint32_t length *)
  is_contents : list Z; (* int8_t contents[] *)
}.

Definition sizeof_intset : Z := 8.
Definition INTSET_ENC_INT16 : Z := 2.
Definition INTSET_ENC_INT32 : Z := 4.
Definition INTSET_ENC_INT64 : Z := 8.

Definition _intsetValueEncoding (v : Z) : Z :=
  if (v <? INT32_MIN) || (v >? INT32_MAX) then INTSET_ENC_INT64
  else if (v <? INT16_MIN) || (v >? INT16_MAX) then INTSET_ENC_INT32
  else INTSET_ENC_INT16.

Definition _intsetGetEncoded (iset : intset) (pos enc : Z) : option Z :=
  if enc =? INTSET_ENC_INT64 then
    v64 ← load (is_contents iset) (pos * 8) 8; Some (wraps 64 (le_val v64))
  else if enc =? INTSET_ENC_INT32 then
    v32 ← load (is_contents iset) (pos * 4) 4; Some (wraps 32 (le_val v32))
  else
    v16 ← load (is_contents iset) (pos * 2) 2; Some (wraps 16 (le_val v16)).

(** The [int pos] parameter converts what the callers pass. *)
Definition _intsetGet (iset : intset) (pos : Z) : option Z :=
  _intsetGetEncoded iset (s32 pos) (is_encoding iset).

Definition set_contents (iset : intset) (c : list Z) : intset :=
  mk_intset (is_encoding iset) (is_length iset) c.
Definition set_length (iset : intset) (n : Z) : intset :=
  mk_intset (is_encoding iset) n (is_contents iset).
Definition set_encoding (iset : intset) (e : Z) : intset :=
  mk_intset e (is_length iset) (is_contents iset).

Definition _intsetSet (iset : intset) (pos value : Z) : option intset :=
  let pos := s32 pos in
  let encoding := is_encoding iset in
  c ← (if encoding =? INTSET_ENC_INT64 then
         store (is_contents iset) (pos * 8) (le_bytes 8 value)
       else if encoding =? INTSET_ENC_INT32 then
         store (is_contents iset) (pos * 4) (le_bytes 4 value)
       else store (is_contents iset) (pos * 2) (le_bytes 2 value));
  Some (set_contents iset c).

Definition intsetNew : intset := mk_intset INTSET_ENC_INT16 0 [].

Definition intsetResize `{Allocator} (iset : intset) (len : Z) : option intset :=
  let size := u64 (u32 len * is_encoding iset) in
  _ ← assert (size <=? UINT64_MAX - sizeof_intset);
  Some (set_contents iset (resize (Z.to_nat size) (is_contents iset))).

(** The [while(max >= min)] loop: [None] when the fuel runs out or a read is
    out of bounds, otherwise the final [min], [mid] and [cur]. *)
Fixpoint search_loop (fuel : nat) (iset : intset) (value min max mid cur : Z)
    : option (Z * Z * Z) :=
  if max >=? min then
    match fuel with
    | O => None
    | S fuel =>
        let mid := s32 (Z.shiftr (u32 (u32 min + u32 max)) 1) in
        cur ← _intsetGet iset mid;
        if value >? cur then search_loop fuel iset value (s32 (mid + 1)) max mid cur
        else if value <? cur then search_loop fuel iset value min (s32 (mid - 1)) mid cur
        else Some (min, mid, cur)
    end
  else Some (min, mid, cur).

(** Returns the C result and the value stored in [*pos]. *)
Definition intsetSearch (iset : intset) (value : Z) : option (bool * Z) :=
  let min := 0 in
  let max := s32 (u32 (is_length iset - 1)) in
  if is_length iset =? 0 then Some (false, 0)
  else
    last ← _intsetGet iset max;
    if value >? last then Some (false, is_length iset)
    else
      first ← _intsetGet iset 0;
      if value <? first then Some (false, 0)
      else
        '(min, mid, cur) ← search_loop (Z.to_nat (is_length iset)) iset value min max (-1) (-1);
        if value =? cur then Some (true, u32 mid) else Some (false, u32 min).

(** [while(length--) _intsetSet(is, length+prepend, _intsetGetEncoded(is, length, curenc))] *)
Fixpoint upgrade_loop (length : nat) (iset : intset) (prepend curenc : Z) : option intset :=
  match length with
  | O => Some iset
  | S length =>
      v ← _intsetGetEncoded iset (Z.of_nat length) curenc;
      iset ← _intsetSet iset (Z.of_nat length + prepend) v;
      upgrade_loop length iset prepend curenc
  end.

Definition intsetUpgradeAndAdd `{Allocator} (iset : intset) (value : Z) : option intset :=
  let curenc := is_encoding iset in
  let newenc := _intsetValueEncoding value in
  let length := s32 (is_length iset) in
  let prepend := if value <? 0 then 1 else 0 in
  let iset := set_encoding iset newenc in
  iset ← intsetResize iset (is_length iset + 1);
  _ ← assert (0 <=? length); (* a negative counter would walk below the block *)
  iset ← upgrade_loop (Z.to_nat length) iset prepend curenc;
  iset ← (if prepend =? 1 then _intsetSet iset 0 value else _intsetSet iset (is_length iset) value);
  Some (set_length iset (u32 (is_length iset + 1))).

Definition intsetMoveTail (iset : intset) (from to : Z) : option intset :=
  let bytes := u32 (is_length iset - from) in
  let encoding := is_encoding iset in
  let w := if encoding =? INTSET_ENC_INT64 then 8
           else if encoding =? INTSET_ENC_INT32 then 4 else 2 in
  let bytes := u32 (bytes * w) in
  c ← memmove (is_contents iset) (to * w) (from * w) bytes;
  Some (set_contents iset c).

(** Returns the new set and [*success]. *)
Definition intsetAdd `{Allocator} (iset : intset) (value : Z) : option (intset * bool) :=
  let valenc := _intsetValueEncoding value in
  if valenc >? is_encoding iset then
    iset ← intsetUpgradeAndAdd iset value; Some (iset, true)
  else
    '(found, pos) ← intsetSearch iset value;
    if (found : bool) then Some (iset, false)
    else
      iset ← intsetResize iset (is_length iset + 1);
      iset ← (if pos <? is_length iset then intsetMoveTail iset pos (u32 (pos + 1)) else Some iset);
      iset ← _intsetSet iset pos value;
      Some (set_length iset (u32 (is_length iset + 1)), true).

Definition intsetRemove `{Allocator} (iset : intset) (value : Z) : option (intset * bool) :=
  let valenc := _intsetValueEncoding value in
  if valenc <=? is_encoding iset then
    '(found, pos) ← intsetSearch iset value;
    if (found : bool) then
      let len := is_length iset in
      iset ← (if pos <? u32 (len - 1) then intsetMoveTail iset (u32 (pos + 1)) pos else Some iset);
      iset ← intsetResize iset (len - 1);
      Some (set_length iset (u32 (len - 1)), true)
    else Some (iset, false)
  else Some (iset, false).

Definition intsetFind (iset : intset) (value : Z) : option bool :=
  let valenc := _intsetValueEncoding value in
  if valenc <=? is_encoding iset then fst <$> intsetSearch iset value else Some false.

(** [r] is what [rand()] returns. *)
Definition intsetRandom (r : Z) (iset : intset) : option Z :=
  let len := is_length iset in
  _ ← assert (negb (len =? 0));
  _intsetGet iset (u32 r mod len).

Definition intsetMax (iset : intset) : option Z := _intsetGet iset (u32 (is_length iset - 1)).
Definition intsetMin (iset : intset) : option Z := _intsetGet iset 0.

(** [Some None] is the return value 0, [Some (Some v)] is 1 with [*value = v]. *)
Definition intsetGet (iset : intset) (pos : Z) : option (option Z) :=
  if pos <? is_length iset then Some <$> _intsetGet iset pos else Some None.

Definition intsetLen (iset : intset) : Z := is_length iset.
Definition intsetBlobLen (iset : intset) : Z :=
  u64 (sizeof_intset + u64 (is_length iset * is_encoding iset)).

(** The struct that the pointer cast [(intset * )p] sees in a byte string. *)
Definition intset_of_bytes (p : list Z) : intset :=
  mk_intset (le_val (take 4 p)) (le_val (take 4 (drop 4 p))) (drop 8 p).

Fixpoint validate_loop (n : nat) (iset : intset) (i prev : Z) : option bool :=
  match n with
  | O => Some true
  | S n =>
      cur ← _intsetGet iset i;
      if cur <=? prev then Some false else validate_loop n iset (i + 1) cur
  end.

Definition intsetValidateIntegrity (p : list Z) (size : Z) (deep : bool) : option bool :=
  if size <? sizeof_intset then Some false
  else
    let iset := intset_of_bytes p in
    let encoding := is_encoding iset in
    if negb ((encoding =? INTSET_ENC_INT64) || (encoding =? INTSET_ENC_INT32)
             || (encoding =? INTSET_ENC_INT16)) then Some false
    else
      let record_size := encoding in
      let count := is_length iset in
      if negb (u64 (sizeof_intset + u64 (count * record_size)) =? size) then Some false
      else if count =? 0 then Some false
      else if negb deep then Some true
      else
        prev ← _intsetGet iset 0;
        validate_loop (Z.to_nat (count - 1)) iset 1 prev.

(** ** Representation invariant *)

Definition layout (e : nat) (xs : list Z) : list Z := concat (le_bytes e <$> xs).

Definition enc_ok (e : Z) : Prop :=
  e = INTSET_ENC_INT16 ∨ e = INTSET_ENC_INT32 ∨ e = INTSET_ENC_INT64.

(** [is] stores the strictly increasing list [xs], every element at the
    width of the current encoding. *)
Record intset_rep (iset : intset) (xs : list Z) : Prop := {
  rep_enc : enc_ok (is_encoding iset);
  rep_len : is_length iset = zlen xs;
  rep_contents : is_contents iset = layout (Z.to_nat (is_encoding iset)) xs;
  rep_fits : Forall (sfits (8 * is_encoding iset)) xs;
  rep_sorted : StronglySorted Z.lt xs;
}.

(** The abstract value of an intset: a finite set of integers. *)
Definition intset_models (iset : intset) (S : gset Z) : Prop :=
  ∃ xs, intset_rep iset xs ∧ S = list_to_set xs.

(** ** Encoded arrays *)

Lemma layout_app e xs ys : layout e (xs ++ ys) = layout e xs ++ layout e ys.
Proof. unfold layout. by rewrite fmap_app, concat_app. Qed.

Lemma layout_cons e x xs : layout e (x :: xs) = le_bytes e x ++ layout e xs.
Proof. done. Qed.

Lemma length_layout e xs : length (layout e xs) = (length xs * e)%nat.
Proof.
  induction xs as [|x xs IH]; [done|]. rewrite layout_cons. llia.
Qed.
#[local] Hint Rewrite length_layout : lens.

(** Arithmetic on the three encodings. *)
Lemma value_encoding_fits v e :
  sfits 64 v → enc_ok e → _intsetValueEncoding v ≤ e ↔ sfits (8 * e) v.
Proof.
  unfold _intsetValueEncoding, enc_ok, sfits, INTSET_ENC_INT16, INTSET_ENC_INT32,
    INTSET_ENC_INT64, INT32_MIN, INT32_MAX, INT16_MIN, INT16_MAX.
  intros Hv [-> | [-> | ->]]; cbn [Z.mul Z.pow Z.sub Z.add Z.opp] in *;
    zcase; simpl in *; lia.
Qed.

Lemma value_encoding_ok v : enc_ok (_intsetValueEncoding v).
Proof. unfold _intsetValueEncoding, enc_ok. repeat case_match; auto. Qed.

Lemma enc_range e : enc_ok e → 2 ≤ e ≤ 8.
Proof. intros [-> | [-> | ->]]; unfold INTSET_ENC_INT16, INTSET_ENC_INT32, INTSET_ENC_INT64; lia. Qed.

Lemma sfits_mono e e' v : 0 < e → e ≤ e' → sfits (8 * e) v → sfits (8 * e') v.
Proof.
  unfold sfits. intros. pose proof (Z.pow_le_mono_r 2 (8 * e - 1) (8 * e' - 1)). lia.
Qed.

(** The three branches of an access are one access at the width [enc]. *)
Lemma getEncoded_eq iset pos enc :
  enc_ok enc →
  _intsetGetEncoded iset pos enc =
    bs ← load (is_contents iset) (pos * enc) enc; Some (wraps (8 * enc) (le_val bs)).
Proof. by intros [-> | [-> | ->]]. Qed.

Lemma intsetSet_eq iset pos v :
  enc_ok (is_encoding iset) → sfits 32 pos →
  _intsetSet iset pos v =
    c ← store (is_contents iset) (pos * is_encoding iset)
          (le_bytes (Z.to_nat (is_encoding iset)) v);
    Some (set_contents iset c).
Proof.
  unfold _intsetSet. intros He Hp. rewrite wraps_small by done.
  by destruct He as [-> | [-> | ->]].
Qed.

Lemma getEncoded_split iset enc l x r t :
  enc_ok enc → sfits (8 * enc) x →
  is_contents iset = layout (Z.to_nat enc) (l ++ x :: r) ++ t →
  _intsetGetEncoded iset (zlen l) enc = Some x.
Proof.
  intros He Hx Hc. pose proof (enc_range enc He).
  rewrite getEncoded_eq, Hc, layout_app, layout_cons, <- !app_assoc by done.
  rewrite load_app by (autorewrite with lens; lia). simpl.
  rewrite <- (Z2Nat.id enc) at 1 by lia.
  rewrite wraps_le_val; [done|lia|]. by rewrite Z2Nat.id by lia.
Qed.

Lemma set_split iset l old r v :
  enc_ok (is_encoding iset) → sfits 32 (zlen l) →
  length old = Z.to_nat (is_encoding iset) →
  is_contents iset = layout (Z.to_nat (is_encoding iset)) l ++ old ++ r →
  _intsetSet iset (zlen l) v =
    Some (set_contents iset (layout (Z.to_nat (is_encoding iset)) (l ++ [v]) ++ r)).
Proof.
  intros He Hl Ho Hc. pose proof (enc_range _ He). rewrite intsetSet_eq, Hc by done.
  rewrite store_app by (autorewrite with lens; lia). simpl.
  rewrite layout_app, layout_cons, <- !app_assoc. done.
Qed.

(** Reading element [i] of a represented set. *)
Lemma rep_get iset xs i x :
  intset_rep iset xs → zlen xs ≤ INT32_MAX →
  xs !! i = Some x → _intsetGet iset (Z.of_nat i) = Some x.
Proof.
  intros [He _ Hc Hf _] Hn Hi. unfold INT32_MAX in Hn.
  pose proof (lookup_lt_Some _ _ _ Hi).
  apply list_elem_of_split_length in Hi as (l & r & -> & ->).
  unfold _intsetGet. rewrite wraps_small by (unfold sfits; lia).
  apply getEncoded_split with (r := r) (t := []); [done| |by rewrite app_nil_r].
  apply Forall_app in Hf as [_ Hf]. by inv Hf.
Qed.

Lemma rep_getZ iset xs p x :
  intset_rep iset xs → zlen xs ≤ INT32_MAX → 0 ≤ p →
  xs !! Z.to_nat p = Some x → _intsetGet iset p = Some x.
Proof. intros ?? Hp Hx. rewrite <- (Z2Nat.id p) by done. by eapply rep_get. Qed.

(** ** Binary search *)

Lemma mid_value min max :
  0 ≤ min → min ≤ max → max ≤ INT32_MAX →
  s32 (Z.shiftr (u32 (u32 min + u32 max)) 1) = (min + max) / 2 ∧ min ≤ (min + max) / 2 ≤ max.
Proof.
  unfold INT32_MAX. intros. rewrite (wrapu_small 32 min), (wrapu_small 32 max), (wrapu_small 32 (min + max)) by lia.
  rewrite Z.shiftr_div_pow2 by lia. change (2 ^ 1) with 2.
  assert (min ≤ (min + max) / 2 ≤ max) by dlia.
  rewrite wraps_small by (unfold sfits; lia). done.
Qed.

(** Everything left of [i] is below [v], everything from [i] on is above. *)
Definition splits_at (xs : list Z) (v : Z) (i : Z) : Prop :=
  (∀ j x, xs !! j = Some x → Z.of_nat j < i → x < v) ∧
  (∀ j x, xs !! j = Some x → i ≤ Z.of_nat j → v < x).

Lemma sorted_lookup_lt xs i j x y :
  StronglySorted Z.lt xs → xs !! i = Some x → xs !! j = Some y → (i < j)%nat → x < y.
Proof.
  intros Hs. revert i j. induction Hs as [|a xs _ IH Hall]; intros i j Hi Hj Hlt; [done|].
  destruct j as [|j]; [lia|]. destruct i as [|i]; simplify_eq/=.
  - by eapply Forall_lookup_1 in Hall.
  - eapply IH; eauto. lia.
Qed.

Lemma search_loop_spec iset xs v fuel min max mid cur :
  intset_rep iset xs → zlen xs ≤ INT32_MAX →
  0 ≤ min → min ≤ max + 1 → max < zlen xs → max - min < Z.of_nat fuel →
  (∀ j x, xs !! j = Some x → Z.of_nat j < min → x < v) →
  (∀ j x, xs !! j = Some x → max < Z.of_nat j → v < x) →
  (min ≤ max ∨ cur ≠ v) →
  ∃ min' mid' cur', search_loop fuel iset v min max mid cur = Some (min', mid', cur') ∧
    ((cur' = v ∧ 0 ≤ mid' ∧ xs !! Z.to_nat mid' = Some v) ∨
     (cur' ≠ v ∧ 0 ≤ min' ≤ zlen xs ∧ splits_at xs v min')).
Proof.
  intros Hrep Hn. revert min max mid cur.
  induction fuel as [|fuel IH]; intros min max mid cur Hmin Hmm Hmax Hf Hlo Hhi Hcur;
    simpl; rewrite Z.geb_leb; destruct (Z.leb_spec min max) as [Hle|Hlt]; [lia| |..].
  1, 3: do 3 eexists; split; [done|]; right; split_and!; [destruct Hcur; [lia|done]|lia..|];
    split; intros j x ??; [eapply Hlo|eapply Hhi]; eauto; lia.
  destruct (mid_value min max) as [-> Hmid]; [lia..|].
  set (m := (min + max) / 2) in *.
  destruct (lookup_lt_is_Some_2 xs (Z.to_nat m)) as [c Hc]; [lia|].
  rewrite (rep_getZ iset xs m c) by (done || lia). simpl.
  rewrite Z.gtb_ltb. unfold INT32_MAX in Hn.
  destruct (Z.ltb_spec c v); [|destruct (Z.ltb_spec v c)].
  - rewrite wraps_small by (unfold sfits; lia). apply IH; [lia..| |done|lia].
    intros j x Hj ?. destruct (decide (j = Z.to_nat m)) as [->|]; [congruence|].
    enough (x < c) by lia. eapply sorted_lookup_lt; eauto using rep_sorted. lia.
  - rewrite wraps_small by (unfold sfits; lia). apply IH; [lia..|done| |lia].
    intros j x Hj ?. destruct (decide (j = Z.to_nat m)) as [->|]; [congruence|].
    enough (c < x) by lia. eapply sorted_lookup_lt; eauto using rep_sorted. lia.
  - do 3 eexists; split; [done|]. left. split_and!; [lia..|]. rewrite Hc. f_equal. lia.
Qed.

(** What [intsetSearch] returns, as a split of the stored list. *)
Definition search_result (xs : list Z) (v : Z) (found : bool) (pos : Z) : Prop :=
  ∃ l r, pos = zlen l ∧ Forall (λ x, x < v) l ∧ Forall (λ x, v < x) r ∧
    xs = if found then l ++ v :: r else l ++ r.

Lemma splits_result xs v i :
  0 ≤ i ≤ zlen xs → splits_at xs v i → search_result xs v false i.
Proof.
  intros Hi [Hlo Hhi]. exists (take (Z.to_nat i) xs), (drop (Z.to_nat i) xs).
  split_and!; [llia| | |by rewrite take_drop]; apply Forall_lookup_2; intros j x Hj.
  - apply lookup_take_Some in Hj as [Hj ?]. eapply Hlo; [done|lia].
  - rewrite lookup_drop in Hj. eapply Hhi; [done|lia].
Qed.

Lemma found_result xs v i :
  StronglySorted Z.lt xs → xs !! i = Some v → search_result xs v true (Z.of_nat i).
Proof.
  intros Hs Hi. exists (take i xs), (drop (S i) xs).
  pose proof (lookup_lt_Some _ _ _ Hi).
  split_and!; [llia| | |by rewrite take_drop_middle]; apply Forall_lookup_2; intros j x Hj.
  - apply lookup_take_Some in Hj as [Hj ?]. eapply sorted_lookup_lt; eauto.
  - rewrite lookup_drop in Hj. eapply (sorted_lookup_lt xs i (S i + j)); eauto. lia.
Qed.

Lemma search_spec iset xs v :
  intset_rep iset xs → zlen xs ≤ INT32_MAX →
  ∃ found pos, intsetSearch iset v = Some (found, pos) ∧ search_result xs v found pos.
Proof.
  intros Hrep Hn. pose proof (rep_len _ _ Hrep) as Hl. pose proof (rep_sorted _ _ Hrep) as Hs.
  unfold intsetSearch. rewrite Hl. destruct (Z.eqb_spec (zlen xs) 0) as [H0|H0].
  { destruct xs; [|simpl in *; lia]. do 2 eexists; split; [done|]. by exists [], []. }
  unfold INT32_MAX in *. rewrite wrapu_small, wraps_small by (unfold sfits; lia).
  destruct (lookup_lt_is_Some_2 xs (length xs - 1)) as [z Hz]; [lia|].
  destruct (lookup_lt_is_Some_2 xs 0) as [a Ha]; [lia|].
  replace (length xs - 1)%nat with (Z.to_nat (zlen xs - 1)) in Hz by lia.
  rewrite (rep_getZ iset xs (zlen xs - 1) z), (rep_getZ iset xs 0 a) by (done || exact Ha || ilia).
  cbn [mbind option_bind]. rewrite Z.gtb_ltb.
  destruct (Z.ltb_spec z v); [|destruct (Z.ltb_spec v a)].
  - do 2 eexists; split; [done|]. apply splits_result; [lia|]. split; intros j x Hj ?.
    + destruct (decide (j = Z.to_nat (zlen xs - 1))) as [->|]; [congruence|].
      enough (x < z) by lia. eapply sorted_lookup_lt; eauto.
      apply lookup_lt_Some in Hj. lia.
    + apply lookup_lt_Some in Hj. lia.
  - do 2 eexists; split; [done|]. apply splits_result; [lia|]. split; intros j x Hj ?; [lia|].
    destruct j; [congruence|]. enough (a < x) by lia. eapply sorted_lookup_lt; eauto. lia.
  - edestruct (search_loop_spec iset xs v (Z.to_nat (zlen xs)) 0 (zlen xs - 1) (-1) (-1))
      as (min' & mid' & cur' & -> & Hcase); [done|done|lia..| |lia|].
    { intros j x Hj ?. apply lookup_lt_Some in Hj. lia. }
    simpl. destruct Hcase as [(-> & Hm & Hv)|(Hne & Hm & Hsp)].
    + rewrite Z.eqb_refl. do 2 eexists; split; [done|].
      pose proof (lookup_lt_Some _ _ _ Hv). rewrite wrapu_small by lia.
      rewrite <- (Z2Nat.id mid') by lia. by apply found_result.
    + destruct (Z.eqb_spec v cur'); [congruence|]. do 2 eexists; split; [done|].
      rewrite wrapu_small by lia. by apply splits_result.
Qed.


(** ** Re-encoding in place

    Before the loop handles index [length l - 1], the block holds [l] at the
    old width, a gap, the already converted [r] at the new width, and [slack]
    (the slot of an appended value). *)
Lemma upgrade_loop_spec iset cur p l r gap slack :
  enc_ok cur → enc_ok (is_encoding iset) → cur ≤ is_encoding iset →
  zlen l + Z.of_nat p ≤ INT32_MAX → Forall (sfits (8 * cur)) l →
  is_contents iset = layout (Z.to_nat cur) l ++ gap ++ layout (Z.to_nat (is_encoding iset)) r ++ slack →
  length (layout (Z.to_nat cur) l ++ gap) = ((length l + p) * Z.to_nat (is_encoding iset))%nat →
  ∃ gap', upgrade_loop (length l) iset (Z.of_nat p) cur =
    Some (set_contents iset (gap' ++ layout (Z.to_nat (is_encoding iset)) (l ++ r) ++ slack)) ∧
    length gap' = (p * Z.to_nat (is_encoding iset))%nat.
Proof.
  intros Hcur. revert iset r gap. induction l as [|x l IH] using rev_ind;
    intros iset r gap He Hle Hn Hf Hc Hg; simpl.
  { exists gap. split; [|simpl in *; lia]. destruct iset; simpl in *. by rewrite Hc. }
  pose proof (enc_range _ Hcur). pose proof (enc_range _ He).
  set (e := Z.to_nat (is_encoding iset)) in *. set (c := Z.to_nat cur) in *.
  apply Forall_app in Hf as [Hf Hx]. inv Hx.
  rewrite length_app, Nat.add_comm. simpl.
  rewrite (getEncoded_split iset cur l x [] (gap ++ layout e r ++ slack)) by done. simpl.
  autorewrite with lens in Hg, Hn. simpl in Hg, Hn.
  rewrite intsetSet_eq by (done || ilia). fold e.
  (* the write covers the last [e] bytes of [x]'s old cell and the gap *)
  set (cell := le_bytes c x ++ gap).
  assert (Hcell : length cell = ((length l + p) * e - length l * c + e)%nat).
  { subst cell. autorewrite with lens. nia. }
  set (k := ((length l + p) * e - length l * c)%nat) in *.
  rewrite Hc, layout_app, layout_cons. unfold layout at 2. cbn [fmap list_fmap concat].
  rewrite app_nil_r, <- !app_assoc, (app_assoc (le_bytes c x)). fold cell.
  rewrite <- (take_drop k cell), <- app_assoc, (app_assoc (layout c l)).
  rewrite store_app; [|autorewrite with lens; nia|autorewrite with lens; lia]. simpl.
  edestruct (IH (set_contents iset ((layout c l ++ take k cell) ++ le_bytes e x ++ layout e r ++ slack))
    (x :: r) (take k cell)) as (gap' & Heq & Hgap'); simpl; [done..| |done| | |].
  { lia. }
  { rewrite <- app_assoc, layout_cons, <- app_assoc. done. }
  { autorewrite with lens. fold e. nia. }
  exists gap'. rewrite Heq. split; [|done]. rewrite <- app_assoc. done.
Qed.

Lemma resize_spec `{Allocator} iset n :
  0 ≤ n < 2 ^ 32 → enc_ok (is_encoding iset) →
  intsetResize iset n =
    Some (set_contents iset (resize (Z.to_nat n * Z.to_nat (is_encoding iset)) (is_contents iset))).
Proof.
  intros Hn He. pose proof (enc_range _ He). unfold intsetResize, sizeof_intset, UINT64_MAX.
  rewrite (wrapu_small 32), (wrapu_small 64) by nia.
  destruct (Z.leb_spec (n * is_encoding iset) (2 ^ 64 - 1 - 8)); [|nia]. simpl.
  by rewrite Z2Nat.inj_mul by lia.
Qed.

Lemma moveTail_eq iset from to n :
  enc_ok (is_encoding iset) → is_length iset = from + n → 0 ≤ n < 2 ^ 32 →
  n * is_encoding iset < 2 ^ 32 →
  intsetMoveTail iset from to =
    c ← memmove (is_contents iset) (to * is_encoding iset) (from * is_encoding iset)
          (n * is_encoding iset);
    Some (set_contents iset c).
Proof.
  intros He Hl Hn Hb. pose proof (enc_range _ He). unfold intsetMoveTail.
  replace (is_length iset - from) with n by lia. rewrite (wrapu_small 32 n) by lia.
  destruct He as [E|[E|E]]; rewrite E in *; simpl;
    unfold INTSET_ENC_INT16, INTSET_ENC_INT32, INTSET_ENC_INT64 in *;
    by rewrite wrapu_small by lia.
Qed.

(** Opening a slot at [zlen l] of a block that has one spare cell [J]. *)
Lemma moveTail_up iset l r J :
  enc_ok (is_encoding iset) → is_length iset = zlen (l ++ r) →
  zlen r < 2 ^ 32 → zlen r * is_encoding iset < 2 ^ 32 →
  length J = Z.to_nat (is_encoding iset) →
  is_contents iset = layout (Z.to_nat (is_encoding iset)) l ++
                   layout (Z.to_nat (is_encoding iset)) r ++ J →
  ∃ old, length old = Z.to_nat (is_encoding iset) ∧
    intsetMoveTail iset (zlen l) (zlen l + 1) =
      Some (set_contents iset (layout (Z.to_nat (is_encoding iset)) l ++ old ++
                             layout (Z.to_nat (is_encoding iset)) r)).
Proof.
  intros He Hl Hr Hb HJ Hc. pose proof (enc_range _ He).
  set (e := Z.to_nat (is_encoding iset)) in *.
  exists (take e (layout e r ++ J)). split; [llia|].
  rewrite (moveTail_eq _ _ _ (zlen r)) by (done || llia). unfold memmove. rewrite Hc.
  rewrite load_app by (autorewrite with lens; lia). simpl.
  rewrite <- (take_drop e (layout e r ++ J)), app_assoc.
  rewrite <- (app_nil_r (drop e _)).
  rewrite store_app; [|autorewrite with lens; lia..]. simpl.
  by rewrite !app_nil_r, take_drop, <- app_assoc.
Qed.

(** Closing the slot of [x]: the last cell [J] of the block becomes spare. *)
Lemma moveTail_down iset l x r :
  enc_ok (is_encoding iset) → is_length iset = zlen (l ++ x :: r) →
  zlen r < 2 ^ 32 → zlen r * is_encoding iset < 2 ^ 32 →
  is_contents iset = layout (Z.to_nat (is_encoding iset)) (l ++ x :: r) →
  ∃ J, length J = Z.to_nat (is_encoding iset) ∧
    intsetMoveTail iset (zlen l + 1) (zlen l) =
      Some (set_contents iset (layout (Z.to_nat (is_encoding iset)) (l ++ r) ++ J)).
Proof.
  intros He Hl Hr Hb Hc. pose proof (enc_range _ He).
  set (e := Z.to_nat (is_encoding iset)) in *.
  rewrite layout_app, layout_cons in Hc.
  set (t := le_bytes e x ++ layout e r) in *.
  assert (Ht : length t = (length r * e + e)%nat) by (subst t; llia).
  exists (drop (length r * e) t). split; [llia|].
  rewrite (moveTail_eq _ _ _ (zlen r)) by (done || llia). unfold memmove. rewrite Hc at 1.
  subst t. rewrite app_assoc, <- (app_nil_r (layout e r)).
  rewrite load_app by (autorewrite with lens; lia). simpl. rewrite Hc, app_nil_r.
  set (t := le_bytes e x ++ layout e r) in *.
  rewrite <- (take_drop (length r * e) t) at 1.
  rewrite store_app by (autorewrite with lens; lia). simpl.
  by rewrite layout_app, <- app_assoc.
Qed.


(** ** Sorted lists as sets *)

Lemma sorted_mid l v r :
  StronglySorted Z.lt (l ++ r) → Forall (λ x, x < v) l → Forall (λ x, v < x) r →
  StronglySorted Z.lt (l ++ v :: r).
Proof.
  intros (Hlr & Hl & Hr)%StronglySorted_app Hlv Hrv.
  rewrite Forall_forall in Hlv. apply StronglySorted_app. split_and!; [|done|].
  - intros x y Hx [->|Hy]%elem_of_cons; auto.
  - by constructor.
Qed.

Lemma sorted_del l v r :
  StronglySorted Z.lt (l ++ v :: r) → StronglySorted Z.lt (l ++ r).
Proof.
  intros (Hlr & Hl & Hr)%StronglySorted_app. inv Hr. apply StronglySorted_app.
  split_and!; [|done..]. intros. apply Hlr; set_solver.
Qed.

Lemma sorted_NoDup xs : StronglySorted Z.lt xs → NoDup xs.
Proof.
  induction 1 as [|x xs _ IH Hall]; constructor; [|done]. intros Hx.
  eapply Forall_forall in Hall; [|done]. lia.
Qed.

Lemma models_size iset (S : gset Z) xs : intset_rep iset xs → S = list_to_set xs → size S = length xs.
Proof. intros Hr ->. apply size_list_to_set, sorted_NoDup, (rep_sorted _ _ Hr). Qed.

(** The sign of a value that does not fit decides the end it belongs to. *)
Lemma out_of_range_end iset xs v :
  intset_rep iset xs → sfits 64 v → is_encoding iset < _intsetValueEncoding v →
  if v <? 0 then Forall (λ x, v < x) xs else Forall (λ x, x < v) xs.
Proof.
  intros Hr Hv Hgt. pose proof (rep_enc _ _ Hr) as He. pose proof (enc_range _ He).
  assert (Hnf : ¬ sfits (8 * is_encoding iset) v).
  { rewrite <- value_encoding_fits by done. lia. }
  destruct (Z.ltb_spec v 0); eapply Forall_impl; try apply (rep_fits _ _ Hr);
    intros x Hx; unfold sfits in *; simpl; lia.
Qed.

Lemma upgrade_spec `{Allocator} iset xs v :
  intset_rep iset xs → sfits 64 v → zlen xs < INT32_MAX →
  is_encoding iset < _intsetValueEncoding v →
  ∃ iset', intsetUpgradeAndAdd iset v = Some iset' ∧
    is_encoding iset' = _intsetValueEncoding v ∧
    intset_rep iset' (if v <? 0 then v :: xs else xs ++ [v]).
Proof.
  intros Hr Hv Hn Hgt. pose proof Hr as [He Hl Hc Hf Hs].
  pose proof (out_of_range_end _ _ _ Hr Hv Hgt) as Hend.
  pose proof (value_encoding_ok v) as He'. set (e' := _intsetValueEncoding v) in *.
  pose proof (enc_range _ He). pose proof (enc_range _ He').
  assert (Hvf : sfits (8 * e') v) by (by apply value_encoding_fits).
  assert (Hf' : Forall (sfits (8 * e')) xs).
  { eapply Forall_impl; [done|]. intros x. apply sfits_mono; lia. }
  unfold intsetUpgradeAndAdd. fold e'. rewrite Hl. unfold INT32_MAX in *.
  rewrite (resize_spec (set_encoding iset e')) by (simpl; rewrite ?Hl; done || lia).
  rewrite (wraps_small 32) by (unfold sfits; lia). cbn [mbind option_bind].
  destruct (Z.leb_spec 0 (zlen xs)); [|lia]. cbn [assert mbind option_bind].
  set (p := if v <? 0 then 1%nat else 0%nat).
  replace (if v <? 0 then 1 else 0) with (Z.of_nat p) by (by subst p; destruct (v <? 0)).
  rewrite Nat2Z.id. simpl. rewrite Hl, resize_grow by (rewrite Hc, length_layout; nia).
  set (junk := fresh _).
  assert (Hj : length junk = (S (length xs) * Z.to_nat e' - length xs * Z.to_nat (is_encoding iset))%nat).
  { subst junk. rewrite length_fresh, Hc, length_layout. lia. }
  edestruct (upgrade_loop_spec
    (set_contents (set_encoding iset e') (is_contents iset ++ junk)) (is_encoding iset) p xs []
    (take (length junk - (1 - p) * Z.to_nat e') junk)
    (drop (length junk - (1 - p) * Z.to_nat e') junk)) as (gap' & -> & Hg);
    simpl; [done|done|lia|destruct (v <? 0); simpl in *; ilia|done| | |].
  { rewrite Hc. f_equal. unfold layout. simpl. by rewrite take_drop. }
  { autorewrite with lens. destruct (v <? 0); simpl in *; nia. }
  simpl in Hg |- *. rewrite app_nil_r. destruct (v <? 0) eqn:Hneg; subst p; simpl in *.
  - erewrite (set_split _ [] gap' _); [|done|unfold sfits; simpl; lia|simpl; lia|done].
    simpl. eexists; split; [done|]. split; [done|].
    rewrite wrapu_small by (rewrite Hl; lia).
    constructor; simpl; [done|rewrite Hl; lia| |by constructor|by constructor].
    rewrite drop_ge by lia. rewrite app_nil_r, !layout_cons. by rewrite app_nil_r.
  - destruct gap'; [|done]. simpl. rewrite Hl.
    rewrite (set_split _ xs (drop (length junk - (Z.to_nat e' + 0)) junk) []);
      [|done|unfold sfits; lia|simpl; autorewrite with lens; nia|simpl; by rewrite app_nil_r].
    simpl. eexists; split; [done|]. split; [done|].
    rewrite wrapu_small by (rewrite Hl; lia).
    constructor; simpl; [done|rewrite Hl; llia|by rewrite app_nil_r| |].
    + apply Forall_app. split; [done|]. by apply Forall_singleton.
    + apply sorted_mid; [by rewrite app_nil_r|done|done].
Qed.


Lemma rep_mid iset l v r :
  intset_rep iset (l ++ r) → sfits (8 * is_encoding iset) v →
  Forall (λ x, x < v) l → Forall (λ x, v < x) r →
  intset_rep (mk_intset (is_encoding iset) (zlen (l ++ v :: r))
    (layout (Z.to_nat (is_encoding iset)) (l ++ v :: r))) (l ++ v :: r).
Proof.
  intros [He _ _ Hf Hs] Hv Hl Hr. constructor; simpl; [done..| |by apply sorted_mid].
  apply Forall_app in Hf as [??]. apply Forall_app. split; [done|]. by constructor.
Qed.

(** Adding an absent value that fits the current encoding. *)
Lemma add_in_place `{Allocator} iset l v r :
  intset_rep iset (l ++ r) → sfits (8 * is_encoding iset) v → zlen (l ++ r) < 2 ^ 29 →
  Forall (λ x, x < v) l → Forall (λ x, v < x) r →
  (is1 ← intsetResize iset (is_length iset + 1);
   is2 ← (if zlen l <? is_length is1 then intsetMoveTail is1 (zlen l) (u32 (zlen l + 1))
          else Some is1);
   is3 ← _intsetSet is2 (zlen l) v;
   Some (set_length is3 (u32 (is_length is3 + 1)), true)) =
  Some (mk_intset (is_encoding iset) (zlen (l ++ v :: r))
          (layout (Z.to_nat (is_encoding iset)) (l ++ v :: r)), true).
Proof.
  intros Hr Hv Hn Hl Hrr. pose proof Hr as [He Hlen Hc Hf Hs].
  pose proof (enc_range _ He). autorewrite with lens in Hn, Hlen.
  set (e := Z.to_nat (is_encoding iset)) in *.
  rewrite resize_spec by (done || lia). cbn [mbind option_bind]. fold e.
  rewrite resize_grow by (rewrite Hc; autorewrite with lens; nia).
  rewrite Hc. set (J := fresh _).
  assert (HJ : length J = e).
  { subst J. autorewrite with lens. replace (Z.to_nat (is_length iset + 1)) with (S (length l + length r)) by lia. nia. }
  set (is1 := set_contents iset (layout e (l ++ r) ++ J)).
  assert (∃ old, length old = e ∧
    (if zlen l <? is_length is1 then intsetMoveTail is1 (zlen l) (u32 (zlen l + 1))
     else Some is1) = Some (set_contents is1 (layout e l ++ old ++ layout e r)))
    as (old & Ho & ->).
  { simpl. destruct (Z.ltb_spec (zlen l) (is_length iset)).
    - rewrite wrapu_small by lia. apply (moveTail_up is1 l r J); simpl; try done.
      + llia.
      + lia.
      + nia.
      + by rewrite layout_app, <- app_assoc.
    - destruct r; [|simpl in *; lia]. exists J. split; [done|].
      unfold is1, set_contents. simpl. by rewrite !app_nil_r. }
  cbn [mbind option_bind].
  erewrite (set_split _ l old (layout e r)); [|done|unfold sfits; lia|done|done].
  simpl. do 2 f_equal. unfold set_length, set_contents. simpl.
  rewrite wrapu_small, <- layout_app, <- (app_assoc l) by lia. simpl. f_equal. llia.
Qed.

(** Removing a present value. *)
Lemma remove_in_place `{Allocator} iset l v r :
  intset_rep iset (l ++ v :: r) → zlen (l ++ v :: r) < 2 ^ 29 →
  let len := is_length iset in
  (is1 ← (if zlen l <? u32 (len - 1) then intsetMoveTail iset (u32 (zlen l + 1)) (zlen l)
          else Some iset);
   is2 ← intsetResize is1 (len - 1);
   Some (set_length is2 (u32 (len - 1)), true)) =
  Some (mk_intset (is_encoding iset) (zlen (l ++ r))
          (layout (Z.to_nat (is_encoding iset)) (l ++ r)), true).
Proof.
  intros Hr Hn. pose proof Hr as [He Hlen Hc Hf Hs]. pose proof (enc_range _ He).
  autorewrite with lens in Hn, Hlen. cbv zeta.
  set (e := Z.to_nat (is_encoding iset)) in *. rewrite !(wrapu_small 32) by lia.
  assert (∃ J, length J = e ∧
    (if zlen l <? is_length iset - 1 then intsetMoveTail iset (zlen l + 1) (zlen l)
     else Some iset) = Some (set_contents iset (layout e (l ++ r) ++ J))) as (J & HJ & ->).
  { destruct (Z.ltb_spec (zlen l) (is_length iset - 1)).
    - apply moveTail_down with (x := v); [done|llia|lia|nia|done].
    - destruct r; [|simpl in *; lia]. exists (le_bytes e v). split; [llia|].
      destruct iset; simpl in *. unfold set_contents. simpl. subst is_contents0.
      by rewrite app_nil_r, layout_app, layout_cons, app_nil_r. }
  cbn [mbind option_bind]. rewrite resize_spec by (done || lia). simpl. fold e.
  assert (Hd : length (layout e (l ++ r)) = (Z.to_nat (is_length iset - 1) * e)%nat).
  { rewrite length_layout. autorewrite with lens. f_equal. lia. }
  rewrite resize_shrink by (rewrite length_app; lia). rewrite <- Hd, take_app_length.
  do 2 f_equal. unfold set_length, set_contents. simpl. f_equal. llia.
Qed.

(** ** Correctness of the operations *)

(** The list-level behaviour of [intsetAdd]; [list_to_set] turns it into the
    set-level claim. *)
Lemma add_rep `{Allocator} iset xs v :
  intset_rep iset xs → sfits 64 v → zlen xs < 2 ^ 29 →
  ∃ iset' ys, intsetAdd iset v = Some (iset', bool_decide (v ∉ xs)) ∧
    intset_rep iset' ys ∧ (∀ x, x ∈ ys ↔ x = v ∨ x ∈ xs) ∧
    is_encoding iset' = Z.max (is_encoding iset) (_intsetValueEncoding v).
Proof.
  intros Hr Hv Hsz. unfold intsetAdd. rewrite Z.gtb_ltb.
  destruct (Z.ltb_spec (is_encoding iset) (_intsetValueEncoding v)) as [Hgt|Hle].
  - destruct (upgrade_spec iset xs v) as (iset' & -> & He & Hr'); [done|done|ilia|done|].
    pose proof (out_of_range_end _ _ _ Hr Hv Hgt) as Hend.
    assert (Hni : v ∉ xs).
    { intros Hin. destruct (v <? 0); eapply Forall_forall in Hend; eauto; lia. }
    rewrite bool_decide_true by done. do 2 eexists; split; [done|]. split; [done|].
    split; [|lia]. intros x. destruct (v <? 0); set_solver.
  - destruct (search_spec iset xs v) as (found & pos & -> & l & r & -> & Hlo & Hhi & Hxs);
      [done|ilia|]. simpl. destruct found.
    + rewrite bool_decide_false by set_solver. do 2 eexists; split; [done|].
      split; [done|]. split; [|lia]. set_solver.
    + subst xs. assert (sfits (8 * is_encoding iset) v).
      { apply value_encoding_fits; [done|apply (rep_enc _ _ Hr)|lia]. }
      rewrite (add_in_place iset l v r) by done. rewrite bool_decide_true.
      2: { rewrite elem_of_app. rewrite Forall_forall in Hlo, Hhi.
           intros [?%Hlo|?%Hhi]; lia. }
      do 2 eexists; split; [done|]. split; [by apply rep_mid|]. split; [|simpl; lia].
      set_solver.
Qed.

Lemma remove_rep `{Allocator} iset xs v :
  intset_rep iset xs → sfits 64 v → zlen xs < 2 ^ 29 →
  ∃ iset' ys, intsetRemove iset v = Some (iset', bool_decide (v ∈ xs)) ∧
    intset_rep iset' ys ∧ (∀ x, x ∈ ys ↔ x ≠ v ∧ x ∈ xs) ∧
    is_encoding iset' = is_encoding iset.
Proof.
  intros Hr Hv Hsz. pose proof Hr as [He Hlen Hc Hf Hs]. unfold intsetRemove.
  assert (Habsent : v ∉ xs → ∃ iset' ys, Some (iset, false) = Some (iset', bool_decide (v ∈ xs)) ∧
    intset_rep iset' ys ∧ (∀ x, x ∈ ys ↔ x ≠ v ∧ x ∈ xs) ∧ is_encoding iset' = is_encoding iset).
  { intros Hni. rewrite bool_decide_false by done. do 2 eexists; split; [done|].
    split; [done|]. split; [|done]. intros x. split; [|tauto]. split; [|done]. by intros ->. }
  destruct (Z.leb_spec (_intsetValueEncoding v) (is_encoding iset)).
  2: { apply Habsent. intros Hin.
       eapply Forall_forall in Hf; [|done]. apply value_encoding_fits in Hf; [lia|done..]. }
  destruct (search_spec iset xs v) as (found & pos & -> & l & r & -> & Hlo & Hhi & Hxs);
    [done|ilia|]. simpl. rewrite Forall_forall in Hlo, Hhi. destruct found.
  2: { apply Habsent. subst. rewrite elem_of_app. intros [?%Hlo|?%Hhi]; lia. }
  subst xs. rewrite bool_decide_true by set_solver.
  rewrite (remove_in_place iset l v r) by done.
  exists (mk_intset (is_encoding iset) (zlen (l ++ r)) (layout (Z.to_nat (is_encoding iset)) (l ++ r))), (l ++ r).
  split; [done|]. split; [|split; [|done]].
  - constructor; simpl; [done..| |by eapply sorted_del].
    apply Forall_app in Hf as [? Hf]. inv Hf. by apply Forall_app.
  - assert (v ∉ l) by (intros ?%Hlo; lia). assert (v ∉ r) by (intros ?%Hhi; lia).
    set_solver.
Qed.

(** C1: [intsetAdd] never leaves its block, inserts the value into the set the
    intset stores, reports whether the value was new, and only widens the
    encoding as far as the value needs. *)
Theorem intsetAdd_correct `{Allocator} iset (X : gset Z) v :
  intset_models iset X → sfits 64 v → Z.of_nat (size X) < 2 ^ 29 →
  ∃ iset', intsetAdd iset v = Some (iset', bool_decide (v ∉ X)) ∧
    intset_models iset' ({[v]} ∪ X) ∧
    is_encoding iset' = Z.max (is_encoding iset) (_intsetValueEncoding v).
Proof.
  intros (xs & Hr & HX) Hv Hsz. rewrite (models_size _ _ _ Hr HX) in Hsz.
  destruct (add_rep iset xs v) as (iset' & ys & -> & Hr' & Hys & He); [done..|].
  exists iset'. split_and!; [|eexists; split; [done|]|done]; subst X.
  - do 2 f_equal. apply bool_decide_ext. by rewrite elem_of_list_to_set.
  - set_solver.
Qed.

(** [intsetRemove] deletes exactly the value and reports whether it was
    present; the encoding never shrinks. *)
Lemma intsetRemove_correct `{Allocator} iset (X : gset Z) v :
  intset_models iset X → sfits 64 v → Z.of_nat (size X) < 2 ^ 29 →
  ∃ iset', intsetRemove iset v = Some (iset', bool_decide (v ∈ X)) ∧
    intset_models iset' (X ∖ {[v]}) ∧ is_encoding iset' = is_encoding iset.
Proof.
  intros (xs & Hr & HX) Hv Hsz. rewrite (models_size _ _ _ Hr HX) in Hsz.
  destruct (remove_rep iset xs v) as (iset' & ys & -> & Hr' & Hys & He); [done..|].
  exists iset'. split_and!; [|eexists; split; [done|]|done]; subst X.
  - do 2 f_equal. apply bool_decide_ext. by rewrite elem_of_list_to_set.
  - set_solver.
Qed.

Lemma find_rep iset xs v :
  intset_rep iset xs → sfits 64 v → zlen xs ≤ INT32_MAX → intsetFind iset v = Some (bool_decide (v ∈ xs)).
Proof.
  intros Hr Hv Hsz. pose proof Hr as [He _ _ Hf _]. unfold intsetFind.
  destruct (Z.leb_spec (_intsetValueEncoding v) (is_encoding iset)).
  - destruct (search_spec iset xs v) as (found & pos & -> & l & r & -> & Hlo & Hhi & Hxs);
      [done|done|]. simpl. f_equal. rewrite Forall_forall in Hlo, Hhi. symmetry.
    destruct found; [apply bool_decide_true|apply bool_decide_false]; subst; [set_solver|].
    rewrite elem_of_app. intros [?%Hlo|?%Hhi]; lia.
  - f_equal. symmetry. apply bool_decide_false.
    intros Hin. eapply Forall_forall in Hf; [|done]. apply value_encoding_fits in Hf; [lia|done..].
Qed.

(** [intsetFind] decides membership. *)
Lemma intsetFind_correct iset (X : gset Z) v :
  intset_models iset X → sfits 64 v → Z.of_nat (size X) ≤ INT32_MAX →
  intsetFind iset v = Some (bool_decide (v ∈ X)).
Proof.
  intros (xs & Hr & ->) Hv Hsz. rewrite (models_size _ _ _ Hr eq_refl) in Hsz. rewrite (find_rep iset xs v) by done.
  f_equal. apply bool_decide_ext. by rewrite elem_of_list_to_set.
Qed.

(** ** Sequences of updates *)

Inductive op := Add (v : Z) | Remove (v : Z).

Definition run_op `{Allocator} (iset : intset) (o : op) : option intset :=
  match o with
  | Add v => fst <$> intsetAdd iset v
  | Remove v => fst <$> intsetRemove iset v
  end.

Fixpoint run_ops `{Allocator} (iset : intset) (os : list op) : option intset :=
  match os with
  | [] => Some iset
  | o :: os => iset ← run_op iset o; run_ops iset os
  end.

Definition op_value (o : op) : Z := match o with Add v | Remove v => v end.

Definition spec_op (X : gset Z) (o : op) : gset Z :=
  match o with Add v => {[v]} ∪ X | Remove v => X ∖ {[v]} end.

Lemma spec_op_size X o : (size (spec_op X o) ≤ S (size X))%nat.
Proof.
  destruct o as [v|v]; simpl.
  - rewrite size_union_alt, size_singleton.
    pose proof (subseteq_size (X ∖ {[v]}) X ltac:(set_solver)). lia.
  - pose proof (subseteq_size (X ∖ {[v]}) X ltac:(set_solver)). lia.
Qed.

Lemma run_op_models `{Allocator} iset X o :
  intset_models iset X → sfits 64 (op_value o) → Z.of_nat (size X) < 2 ^ 29 →
  ∃ iset', run_op iset o = Some iset' ∧ intset_models iset' (spec_op X o).
Proof.
  intros (xs & Hr & HX) Hv Hsz. rewrite (models_size _ _ _ Hr HX) in Hsz.
  destruct o as [v|v]; simpl in *.
  - destruct (add_rep iset xs v) as (iset' & ys & -> & ? & ? & _); [done..|].
    exists iset'. split; [done|]. exists ys. split; [done|]. subst. set_solver.
  - destruct (remove_rep iset xs v) as (iset' & ys & -> & ? & ? & _); [done..|].
    exists iset'. split; [done|]. exists ys. split; [done|]. subst. set_solver.
Qed.

(** C4: starting from [intsetNew], every sequence of fewer than 2^29 additions
    and removals of 64 bit integers runs without leaving memory and ends in an
    intset that stores what the same sequence does to a mathematical set. *)
Theorem intset_run_refines `{Allocator} os :
  Forall (λ o, sfits 64 (op_value o)) os → zlen os < 2 ^ 29 →
  ∃ iset, run_ops intsetNew os = Some iset ∧ intset_models iset (foldl spec_op ∅ os).
Proof.
  intros Hf Hn.
  assert (Hgen : ∀ iset X, intset_models iset X → Z.of_nat (size X + length os) < 2 ^ 29 →
    ∃ iset', run_ops iset os = Some iset' ∧ intset_models iset' (foldl spec_op X os)).
  { clear Hn. induction Hf as [|o os Ho Hf IH]; intros iset X Hm Hsz; simpl in *; [eauto|].
    pose proof (spec_op_size X o).
    destruct (run_op_models iset X o) as (iset' & -> & Hm'); [done|done|lia|].
    simpl. apply IH; [done|lia]. }
  apply Hgen; [|done]. exists []. split; [|done].
  constructor; simpl; [by left|done|done|done|constructor].
Qed.

(** ** Reading a serialized intset back *)

Lemma le_bytes_wraps e z : (0 < e)%nat → le_bytes e (wraps (8 * Z.of_nat e) z) = le_bytes e z.
Proof.
  intros He. rewrite <- (le_bytes_mod e (wraps _ z)), <- (le_bytes_mod e z). f_equal.
  unfold wraps. rewrite Zminus_mod_idemp_l. f_equal. lia.
Qed.

(** Every byte string of [n] cells is the layout of [n] integers. *)
Lemma layout_surj e n c :
  (0 < e)%nat → Forall is_byte c → length c = (n * e)%nat →
  ∃ xs, length xs = n ∧ Forall (sfits (8 * Z.of_nat e)) xs ∧ c = layout e xs.
Proof.
  intros He. revert c. induction n as [|n IH]; intros c Hc Hl.
  { destruct c; [|done]. by exists []. }
  destruct (IH (drop e c)) as (xs & Hn & Hf & Hd).
  { by apply Forall_drop. }
  { llia. }
  exists (wraps (8 * Z.of_nat e) (le_val (take e c)) :: xs). split_and!; [simpl; lia| |].
  - constructor; [|done]. apply wraps_range. lia.
  - rewrite layout_cons, le_bytes_wraps, <- Hd by done.
    assert (length (take e c) = e) as Ht by (simpl in Hl; llia).
    rewrite le_bytes_val' by (done || by apply Forall_take). by rewrite take_drop.
Qed.

Fixpoint chain (p : Z) (ys : list Z) : bool :=
  match ys with [] => true | y :: ys => (p <? y) && chain y ys end.

Lemma chain_sorted p ys : chain p ys = true ↔ StronglySorted Z.lt (p :: ys).
Proof.
  revert p. induction ys as [|y ys IH]; intros p; simpl.
  { split; [|done]. intros _. by repeat constructor. }
  rewrite andb_true_iff, IH, Z.ltb_lt. split.
  - intros [Hlt Hs]. constructor; [done|]. inv Hs. constructor; [done|].
    eapply Forall_impl; [done|]. intros z Hz. simpl in *. lia.
  - intros Hs. inv Hs. split; [|done]. by match goal with H : Forall _ (_ :: _) |- _ => inv H end.
Qed.

(** [int pos] is negative from the element 2^31 on. *)
Lemma validate_loop_spec iset l ys prev :
  enc_ok (is_encoding iset) → zlen l ≤ 2 ^ 31 →
  Forall (sfits (8 * is_encoding iset)) (l ++ ys) →
  is_contents iset = layout (Z.to_nat (is_encoding iset)) (l ++ ys) →
  validate_loop (length ys) iset (zlen l) prev =
    if chain prev (take (Z.to_nat (2 ^ 31 - zlen l)) ys) then if zlen (l ++ ys) <=? 2 ^ 31 then Some true else None else Some false.
Proof.
  intros He. revert l prev. induction ys as [|y ys IH]; intros l prev Hn Hf Hc.
  { rewrite take_nil, app_nil_r. cbn [length validate_loop chain]. by destruct (Z.leb_spec (zlen l) (2 ^ 31)); [|lia]. }
  cbn [length validate_loop]. unfold _intsetGet. pose proof (enc_range _ He). destruct (decide (zlen l = 2 ^ 31)) as [E|E].
  - rewrite E, Z.sub_diag. cbn [Z.to_nat take chain]. destruct (Z.leb_spec (zlen (l ++ y :: ys)) (2 ^ 31)); [llia|].
    assert (Hw : s32 (2 ^ 31) = - 2 ^ 31) by reflexivity. rewrite Hw. unfold _intsetGetEncoded, load. repeat case_match; done || lia.
  - rewrite wraps_small by ilia. rewrite (getEncoded_split _ _ l y ys []); [|done| |by rewrite app_nil_r].
    2: { apply Forall_app in Hf as [_ Hf]. by inv Hf. }
    replace (Z.to_nat (2 ^ 31 - zlen l)) with (S (Z.to_nat (2 ^ 31 - zlen (l ++ [y])))) by llia.
    cbn [mbind option_bind take chain]. destruct (Z.leb_spec y prev); destruct (Z.ltb_spec prev y); try lia; [done|]. cbn [andb].
    replace (zlen l + 1) with (zlen (l ++ [y])) by llia. rewrite (IH (l ++ [y])); rewrite <- ?(app_assoc l); [done|llia|done|done].
Qed.

Lemma layout_inj e xs ys :
  (0 < e)%nat → Forall (sfits (8 * Z.of_nat e)) xs → Forall (sfits (8 * Z.of_nat e)) ys →
  layout e xs = layout e ys → xs = ys.
Proof.
  intros He Hxs. revert ys. induction Hxs as [|x xs Hx Hxs IH]; intros ys Hys Heq.
  - pose proof (f_equal length Heq) as Hl. rewrite !length_layout in Hl.
    destruct ys; [done|simpl in Hl; lia].
  - destruct Hys as [|y ys Hy Hys].
    { pose proof (f_equal length Heq) as Hl. rewrite !length_layout in Hl. simpl in Hl. lia. }
    rewrite !layout_cons in Heq. apply app_inj_1 in Heq as [H1 H2]; [|llia].
    f_equal; [|by apply IH]. rewrite <- (wraps_le_val e x), <- (wraps_le_val e y) by done.
    by rewrite H1.
Qed.

(** What the header checks of [intsetValidateIntegrity] establish. *)
Definition header_ok (iset : intset) (size : Z) : Prop :=
  enc_ok (is_encoding iset) ∧ sizeof_intset + is_length iset * is_encoding iset = size ∧
  is_length iset ≠ 0.

Lemma validate_header p deep :
  Forall is_byte p → 8 ≤ zlen p →
  let iset := intset_of_bytes p in
  (¬ header_ok iset (zlen p) ∧ intsetValidateIntegrity p (zlen p) deep = Some false) ∨
  (header_ok iset (zlen p) ∧ 0 < is_length iset ∧
   intsetValidateIntegrity p (zlen p) deep =
     if deep then prev ← _intsetGet iset 0; validate_loop (Z.to_nat (is_length iset - 1)) iset 1 prev
     else Some true).
Proof.
  intros Hp H8 iset. unfold header_ok.
  assert (Hlen : 0 ≤ is_length iset < 2 ^ 32).
  { pose proof (le_val_range (take 4 (drop 4 p)) (Forall_take _ _ _ (Forall_drop _ _ _ Hp))).
    rewrite length_take, length_drop in *.
    replace (4 `min` (length p - 4))%nat with 4%nat in * by lia. subst iset. simpl. lia. }
  unfold intsetValidateIntegrity, sizeof_intset. fold iset.
  destruct (Z.ltb_spec (zlen p) 8) as [|_]; [lia|].
  destruct (negb _) eqn:Henc.
  { left. split; [|done]. intros ([E|[E|E]] & _); rewrite E in Henc; done. }
  assert (He : enc_ok (is_encoding iset)).
  { apply negb_false_iff in Henc. rewrite !orb_true_iff, !Z.eqb_eq in Henc.
    unfold enc_ok. tauto. }
  pose proof (enc_range _ He). rewrite (wrapu_small 64 (is_length iset * _)), wrapu_small by nia.
  destruct (Z.eqb_spec (8 + is_length iset * is_encoding iset) (zlen p)) as [Hsz|Hsz];
    cbn [negb]; [|left; split; [tauto|done]].
  destruct (Z.eqb_spec (is_length iset) 0) as [H0|H0]; [left; split; [tauto|done]|].
  right. split; [done|]. split; [lia|]. by destruct deep.
Qed.

Lemma rep_header p xs :
  8 ≤ zlen p → xs ≠ [] → intset_rep (intset_of_bytes p) xs → header_ok (intset_of_bytes p) (zlen p).
Proof.
  intros H8 Hne Hr. pose proof (rep_enc _ _ Hr) as He. pose proof (enc_range _ He).
  pose proof (f_equal length (rep_contents _ _ Hr)) as Hc. rewrite length_layout in Hc.
  pose proof (rep_len _ _ Hr) as Hl. split; [done|]. unfold sizeof_intset.
  simpl in Hc, Hl. rewrite length_drop in Hc. destruct xs; [done|]. simpl in *. nia.
Qed.

(** The header of [p] is that of an intset and [xs] are the elements behind it. *)
Definition laid_out (p xs : list Z) : Prop :=
  let iset := intset_of_bytes p in
  header_ok iset (zlen p) ∧ is_length iset = zlen xs ∧ Forall (sfits (8 * is_encoding iset)) xs ∧
  is_contents iset = layout (Z.to_nat (is_encoding iset)) xs.

Lemma laid_out_total p : Forall is_byte p → 8 ≤ zlen p → header_ok (intset_of_bytes p) (zlen p) → 0 < is_length (intset_of_bytes p) → ∃ x xs, laid_out p (x :: xs).
Proof.
  intros Hp H8 Hh Hlen. pose proof Hh as (He & Hsz & _). set (iset := intset_of_bytes p) in *. pose proof (enc_range _ He). unfold sizeof_intset in Hsz.
  destruct (layout_surj (Z.to_nat (is_encoding iset)) (Z.to_nat (is_length iset)) (is_contents iset))
    as (xs & Hxl & Hf & Hc); [lia|by apply Forall_drop| |].
  { change (is_contents iset) with (drop 8 p). rewrite length_drop, <- Z2Nat.inj_mul by lia. lia. }
  rewrite Z2Nat.id in Hf by lia. destruct xs as [|x xs]; [cbn [length] in Hxl; lia|].
  exists x, xs. unfold laid_out. fold iset. split_and!; [done|lia|done|done].
Qed.
Lemma laid_out_inj p xs ys : laid_out p xs → laid_out p ys → xs = ys.
Proof.
  intros ((He & _) & _ & Hf & Hc) (_ & _ & Hf' & Hc'). pose proof (enc_range _ He).
  apply (layout_inj (Z.to_nat (is_encoding (intset_of_bytes p)))); rewrite ?Z2Nat.id by lia; [lia|done|done|congruence].
Qed.
Lemma laid_out_rep p xs : 8 ≤ zlen p → xs ≠ [] → intset_rep (intset_of_bytes p) xs ↔ laid_out p xs ∧ StronglySorted Z.lt xs.
Proof.
  intros H8 Hne. split.
  - intros Hr. pose proof (rep_header p xs H8 Hne Hr). by destruct Hr.
  - intros [((He & _) & Hl & Hf & Hc) Hs]. by constructor.
Qed.
Lemma validate_laid_out p x xs :
  8 ≤ zlen p → laid_out p (x :: xs) → _intsetGet (intset_of_bytes p) 0 = Some x ∧
  validate_loop (Z.to_nat (is_length (intset_of_bytes p) - 1)) (intset_of_bytes p) 1 x =
    if chain x (take (Z.to_nat (2 ^ 31 - 1)) xs) then if zlen (x :: xs) <=? 2 ^ 31 then Some true else None else Some false.
Proof.
  intros H8 ((He & _) & Hl & Hf & Hc). split.
  - unfold _intsetGet. rewrite wraps_small by (unfold sfits; lia).
    apply (getEncoded_split _ _ [] x xs []); [done|by apply (Forall_inv Hf)|by rewrite app_nil_r].
  - replace (Z.to_nat (is_length (intset_of_bytes p) - 1)) with (length xs) by (cbn [length] in Hl; lia).
    exact (validate_loop_spec _ [x] xs x He ltac:(cbn [length]; lia) Hf Hc).
Qed.
(** Strictly increasing numbers of a range are at most as many as it has. *)
Lemma sorted_count lo hi xs : lo ≤ hi → StronglySorted Z.lt xs → Forall (λ x, lo ≤ x < hi) xs → zlen xs ≤ hi - lo.
Proof.
  revert lo. induction xs as [|x xs IH]; intros lo Hlo Hs Hf; [cbn [length]; lia|]. inversion Hs as [|? ? Hs' Hlt]; subst. apply Forall_cons in Hf as [Hx Hf].
  assert (zlen xs ≤ hi - (x + 1)); [|cbn [length]; lia]. apply IH; [lia|done|]. apply Forall_forall. intros y Hy.
  pose proof (proj1 (Forall_forall _ _) Hlt y Hy). pose proof (proj1 (Forall_forall _ _) Hf y Hy). cbv beta in *. lia.
Qed.

(** C5: the deep integrity check of a serialized intset (DUMP payloads and RDB
    files go through it), for any bytes of any number.  An answer is yes exactly
    for the representations of at least one element.  The check fails to answer
    exactly when there are more than 2^31 elements of which the first 2^31 are
    increasing: the position is an [int] and the next access is in front of the
    block.  That takes more than 8 GB, so up to this size the check always
    answers. *)
Theorem intsetValidateIntegrity_correct p :
  Forall is_byte p →
  let res := intsetValidateIntegrity p (zlen p) true in
  (∀ b, res = Some b → b = true ↔ 8 ≤ zlen p ∧ ∃ xs, xs ≠ [] ∧ intset_rep (intset_of_bytes p) xs) ∧
  (res = None ↔ ∃ xs, laid_out p xs ∧ 2 ^ 31 < zlen xs ∧ StronglySorted Z.lt (take (Z.to_nat (2 ^ 31)) xs)) ∧
  (zlen p ≤ sizeof_intset + 2 ^ 33 → res ≠ None).
Proof.
  intros Hp. cbv zeta. assert (Hcount : ∀ xs, laid_out p xs → 2 ^ 31 < zlen xs → StronglySorted Z.lt (take (Z.to_nat (2 ^ 31)) xs) → sizeof_intset + 2 ^ 33 < zlen p).
  { intros xs ((He & Hsz & _) & Hl & Hf & _) Hn Hs. rewrite <- Hsz. destruct He as [E|[E|E]]; rewrite E in *; unfold INTSET_ENC_INT16, INTSET_ENC_INT32, INTSET_ENC_INT64 in *; [|nia..].
    pose proof (sorted_count (- 2 ^ 15) (2 ^ 15) _ ltac:(lia) Hs (Forall_take _ _ _ Hf)) as Hc. llia. }
  destruct (Z.lt_ge_cases (zlen p) 8) as [Hlt|H8].
  { assert (intsetValidateIntegrity p (zlen p) true = Some false) as -> by (unfold intsetValidateIntegrity, sizeof_intset; by destruct (Z.ltb_spec (zlen p) 8); [|lia]).
    split_and!; [by intros b [= <-]; split; [|lia]| |done]. split; [done|]. intros (xs & H & Hn & Hs). pose proof (Hcount xs H Hn Hs). unfold sizeof_intset in *. lia. }
  destruct (validate_header p true Hp H8) as [(Hh & ->)|(Hh & Hlen & ->)].
  { split_and!; [|split; [done|]|done].
    - intros b [= <-]. split; [done|]. intros (_ & xs & Hne & Hr). by destruct (Hh (rep_header p xs H8 Hne Hr)).
    - intros (xs & (? & _) & _). done. }
  destruct (laid_out_total p Hp H8 Hh Hlen) as (x & xs & Hlo). destruct (validate_laid_out p x xs H8 Hlo) as [-> Hv]. cbn [mbind option_bind]. rewrite Hv. clear Hv.
  assert (Htake : take (Z.to_nat (2 ^ 31)) (x :: xs) = x :: take (Z.to_nat (2 ^ 31 - 1)) xs) by (replace (Z.to_nat (2 ^ 31)) with (S (Z.to_nat (2 ^ 31 - 1))) by lia; done).
  assert (Hnone : (if chain x (take (Z.to_nat (2 ^ 31 - 1)) xs) then if zlen (x :: xs) <=? 2 ^ 31 then Some true else None else Some false) = None ↔ ∃ xs, laid_out p xs ∧ 2 ^ 31 < zlen xs ∧ StronglySorted Z.lt (take (Z.to_nat (2 ^ 31)) xs)).
  { split.
    - destruct (chain _ _) eqn:Ec; [|done]. destruct (Z.leb_spec (zlen (x :: xs)) (2 ^ 31)); [done|]. intros _. exists (x :: xs). rewrite Htake. split_and!; [done|done|by apply chain_sorted].
    - intros (ys & Hys & Hn & Hs). rewrite (laid_out_inj p ys (x :: xs) Hys Hlo), Htake in *. apply chain_sorted in Hs. rewrite Hs. by destruct (Z.leb_spec (zlen (x :: xs)) (2 ^ 31)); [lia|]. }
  split_and!; [|done|].
  - intros b Hb. assert (Hle : b = true → zlen (x :: xs) ≤ 2 ^ 31) by (intros ->; destruct (chain _ _); [|done]; by destruct (Z.leb_spec (zlen (x :: xs)) (2 ^ 31))).
    split.
    + intros Et. specialize (Hle Et). subst b. split; [done|]. exists (x :: xs). split; [done|]. apply laid_out_rep; [done..|]. split; [done|]. apply chain_sorted.
      rewrite take_ge in Hb by (cbn [length] in Hle; lia). by destruct (chain x xs).
    + intros (_ & ys & Hne & Hr). apply laid_out_rep in Hr as [Hys Hs]; [|done..]. rewrite (laid_out_inj p ys (x :: xs) Hys Hlo) in Hs.
      destruct b; [done|]. assert (StronglySorted Z.lt (take (Z.to_nat (2 ^ 31)) (x :: xs))) as Ht by (rewrite <- (take_drop (Z.to_nat (2 ^ 31)) (x :: xs)) in Hs; by apply StronglySorted_app_1_l in Hs).
      rewrite Htake in Ht. apply chain_sorted in Ht. rewrite Ht in Hb. by destruct (_ <=? _).
  - intros Hsz Hx. apply Hnone in Hx as (ys & Hys & Hn & Hs). pose proof (Hcount ys Hys Hn Hs). lia.
Qed.

(** The read-only accessors on a represented, non-empty set: the smallest
    and the largest element, a random member for every value of [rand()], and
    positional access with its out-of-range answer. *)
Lemma intset_accessors iset x xs r pos :
  intset_rep iset (x :: xs) → zlen (x :: xs) ≤ INT32_MAX → 0 ≤ pos →
  intsetMin iset = Some x ∧
  intsetMax iset = last (x :: xs) ∧
  (∃ y, intsetRandom r iset = Some y ∧ y ∈ x :: xs) ∧
  intsetGet iset pos = Some ((x :: xs) !! Z.to_nat pos) ∧
  intsetBlobLen iset = sizeof_intset + zlen (is_contents iset).
Proof.
  intros Hr Hn Hpos. pose proof Hr as [He Hl Hc _ _]. pose proof (enc_range _ He).
  cbn [length] in Hn, Hl. split_and!.
  - by eapply rep_getZ.
  - unfold intsetMax. rewrite wrapu_small by ilia. rewrite last_lookup.
    destruct (lookup_lt_is_Some_2 (x :: xs) (pred (length (x :: xs)))) as [z Hz]; [simpl; lia|].
    rewrite Hz. eapply rep_getZ; [done..|lia|]. rewrite <- Hz. f_equal. simpl. lia.
  - unfold intsetRandom. destruct (Z.eqb_spec (is_length iset) 0); [lia|]. simpl.
    pose proof (Z.mod_pos_bound (u32 r) (is_length iset) ltac:(lia)).
    destruct (lookup_lt_is_Some_2 (x :: xs) (Z.to_nat (u32 r mod is_length iset))) as [y Hy];
      [simpl; lia|].
    exists y. split; [|by eapply list_elem_of_lookup_2]. by eapply rep_getZ; [..|lia|].
  - unfold intsetGet. destruct (Z.ltb_spec pos (is_length iset)).
    + destruct (lookup_lt_is_Some_2 (x :: xs) (Z.to_nat pos)) as [y Hy]; [simpl; lia|].
      by rewrite Hy, (rep_getZ iset (x :: xs) pos y).
    + rewrite lookup_ge_None_2; [done|simpl; lia].
  - unfold intsetBlobLen, sizeof_intset. rewrite Hl, Hc, length_layout. cbn [length].
    unfold INT32_MAX in *. rewrite !wrapu_small by (rewrite ?wrapu_small; nia). nia.
Qed.

(** C7: the byte count of [intsetMoveTail] is a [uint32_t]: with 64 bit
    elements a tail of exactly 2^29 of them is not moved at all.  The limit
    of 2^29 elements in the theorems above is therefore not slack. *)
Theorem intsetMoveTail_overflow iset from to :
  is_encoding iset = INTSET_ENC_INT64 → is_length iset = from + 2 ^ 29 →
  0 ≤ from → 0 ≤ to → from * 8 ≤ zlen (is_contents iset) → to * 8 ≤ zlen (is_contents iset) →
  intsetMoveTail iset from to = Some iset.
Proof.
  intros He Hl Hf Ht Hfb Htb. unfold intsetMoveTail. rewrite He, Hl.
  cbn [INTSET_ENC_INT64 Z.eqb Pos.eqb].
  replace (from + 2 ^ 29 - from) with (2 ^ 29) by lia.
  change (u32 (u32 (2 ^ 29) * 8)) with 0. unfold memmove, load.
  rewrite decide_True by lia. cbn [mbind option_bind]. rewrite take_0. unfold store.
  rewrite decide_True by (cbn [length]; lia). cbn [length mbind option_bind app].
  rewrite Z.add_0_r, take_drop. by destruct iset.
Qed.

(** ** Witnesses *)

Definition ex_set : intset := mk_intset 2 3 [1; 0; 5; 0; 9; 0].
Definition ex_X : gset Z := {[1; 5; 9]}.

Lemma ex_set_rep : intset_rep ex_set [1; 5; 9].
Proof.
  constructor; [by left|done|reflexivity| |].
  - repeat constructor; unfold sfits; simpl; lia.
  - repeat constructor; lia.
Qed.

Lemma ex_set_models : intset_models ex_set ex_X.
Proof. exists [1; 5; 9]. split; [apply ex_set_rep|]. unfold ex_X. set_solver. Qed.

Lemma intsetAdd_witness :
  ∃ iset', @intsetAdd exact_allocator ex_set 70000 =
      Some (iset', bool_decide (70000 ∉ ex_X)) ∧
    intset_models iset' ({[70000]} ∪ ex_X) ∧ 
    is_encoding iset' = Z.max (is_encoding ex_set) (_intsetValueEncoding 70000).
Proof.
  apply (@intsetAdd_correct exact_allocator ex_set ex_X 70000).
  - apply ex_set_models.
  - unfold sfits. lia.
  - reflexivity.
Defined.

Lemma intset_run_witness :
  ∃ iset, @run_ops exact_allocator intsetNew [Add 5; Add (-70000); Remove 5; Add (2 ^ 40)] = Some iset ∧
    intset_models iset (foldl spec_op ∅ [Add 5; Add (-70000); Remove 5; Add (2 ^ 40)]).
Proof.
  apply (@intset_run_refines exact_allocator).
  - repeat constructor; unfold sfits; simpl; lia.
  - reflexivity.
Defined.

Lemma intsetValidate_witness :
  let p := [2; 0; 0; 0; 2; 0; 0; 0; 1; 0; 7; 0] in
  Forall is_byte p ∧ (8 ≤ zlen p ∧ ∃ xs, xs ≠ [] ∧ intset_rep (intset_of_bytes p) xs).
Proof.
  intros p. assert (Hp : Forall is_byte p) by (repeat constructor; unfold is_byte; lia). split; [done|].
  exact (proj1 (proj1 (intsetValidateIntegrity_correct p Hp) true eq_refl) eq_refl).
Defined.

Lemma intsetMoveTail_overflow_witness :
  intsetMoveTail (mk_intset 8 (2 ^ 29) (replicate 8 7)) 0 1 =
  Some (mk_intset 8 (2 ^ 29) (replicate 8 7)).
Proof. apply intsetMoveTail_overflow; simpl; reflexivity || lia. Defined.


End Intset.

