(* ===== verification/Util.v ===== *)
(** * util.c: conversions between integers and decimal strings

    [digits10], [sdigits10], [ull2string], [ll2string], [string2ll] and
    [string2l].  A destination buffer is a byte list of at least [dstlen]
    bytes; a write outside it gives [None].  A source string is the list of
    its [slen] bytes. *)

From S2P Require Import Prelude.

Module Util.

Definition LONG_STR_SIZE : Z := 21.
Definition LLONG_MIN : Z := INT64_MIN.
Definition LLONG_MAX : Z := INT64_MAX.
Definition ULLONG_MAX : Z := UINT64_MAX.

Definition b2z (b : bool) : Z := if b then 1 else 0.

(** One call consumes twelve digits, so a 64 bit value needs one nested call;
    [digits10] allows twenty. *)
Fixpoint digits10_rec (fuel : nat) (v : Z) : Z :=
  match fuel with
  | O => 0
  | S fuel =>
      if v <? 10 then 1
      else if v <? 100 then 2
      else if v <? 1000 then 3
      else if v <? 1000000000000 then
        if v <? 100000000 then
          if v <? 1000000 then
            if v <? 10000 then 4 else 5 + b2z (v >=? 100000)
          else 7 + b2z (v >=? 10000000)
        else if v <? 10000000000 then 9 + b2z (v >=? 1000000000)
        else 11 + b2z (v >=? 100000000000)
      else 12 + digits10_rec fuel (v / 1000000000000)
  end.
Definition digits10 (v : Z) : Z := digits10_rec 20 v.

Definition sdigits10 (v : Z) : Z :=
  if v <? 0 then
    let uv := if negb (v =? LLONG_MIN) then u64 (- v) else u64 (LLONG_MAX + 1) in
    digits10 uv + 1
  else digits10 v.

Definition digit_pairs : list Z := bytes_of
  "00010203040506070809101112131415161718192021222324252627282930313233343536373839404142434445464748495051525354555657585960616263646566676869707172737475767778798081828384858687888990919293949596979899".

Definition store8 (b : list Z) (off x : Z) : option (list Z) := store b off [u8 x].

(** The [while (value >= 100)] loop; returns the buffer, [value] and [next]. *)
Fixpoint ull2string_loop (fuel : nat) (dst : list Z) (value next : Z)
    : option (list Z * Z * Z) :=
  if value >=? 100 then
    match fuel with
    | O => None
    | S fuel =>
        let i := (value mod 100) * 2 in
        let value := value / 100 in
        d1 ← load8 digit_pairs (i + 1);
        dst ← store8 dst next d1;
        d0 ← load8 digit_pairs i;
        dst ← store8 dst (u32 (next - 1)) d0;
        ull2string_loop fuel dst value (u32 (next - 2))
    end
  else Some (dst, value, next).

(** Returns the buffer and the C result. *)
Definition ull2string (dst : list Z) (dstlen value : Z) : option (list Z * Z) :=
  let length := digits10 value in
  if length >=? dstlen then
    dst ← (if dstlen >? 0 then store8 dst 0 0 else Some dst);
    Some (dst, 0)
  else
    let next := u32 (length - 1) in
    dst ← store8 dst (u32 (next + 1)) 0;
    '(dst, value, next) ← ull2string_loop 20 dst value next;
    dst ← (if value <? 10 then store8 dst next (48 + value)
           else
             let i := value * 2 in
             d1 ← load8 digit_pairs (i + 1);
             dst ← store8 dst next d1;
             d0 ← load8 digit_pairs i;
             store8 dst (u32 (next - 1)) d0);
    Some (dst, length).

(** The minus sign is written at [dst[0]] and [ull2string] continues at
    [dst+1]; [store8]/[drop] express the pointer increment. *)
Definition ll2string (dst : list Z) (dstlen svalue : Z) : option (list Z * Z) :=
  if svalue <? 0 then
    let value := if negb (svalue =? LLONG_MIN) then u64 (- svalue) else u64 (LLONG_MAX + 1) in
    if dstlen <? 2 then
      dst ← (if dstlen >? 0 then store8 dst 0 0 else Some dst);
      Some (dst, 0)
    else
      dst ← store8 dst 0 45;
      '(rest, length) ← ull2string (drop 1 dst) (dstlen - 1) value;
      let dst := take 1 dst ++ rest in
      if length =? 0 then Some (dst, 0) else Some (dst, length + 1)
  else
    '(dst, length) ← ull2string dst dstlen svalue;
    if length =? 0 then Some (dst, 0) else Some (dst, length + 0).

Definition is_digit (c : Z) : bool := (c >=? 48) && (c <=? 57).

(** [while (plen < slen && isdigit(p[0]))]: [None] on overflow, otherwise the
    value and the bytes that are left. *)
Fixpoint parse_digits (p : list Z) (v : Z) : option (Z * list Z) :=
  match p with
  | [] => Some (v, [])
  | c :: p' =>
      if is_digit c then
        if v >? ULLONG_MAX / 10 then None
        else
          let v := u64 (v * 10) in
          if v >? ULLONG_MAX - (c - 48) then None
          else parse_digits p' (u64 (v + (c - 48)))
      else Some (v, p)
  end.

(** [None] is the return value 0. *)
Definition string2ll (s : list Z) : option Z :=
  let slen := zlen s in
  if (0 =? slen) || (slen >=? LONG_STR_SIZE) then None
  else
    match s with
    | [] => None
    | c0 :: _ =>
        if (slen =? 1) && (c0 =? 48) then Some 0
        else
          let negative := c0 =? 45 in
          let p := if negative then tail s else s in
          match p with
          | [] => None
          | c :: p =>
              if (c >=? 49) && (c <=? 57) then
                '(v, rest) ← parse_digits p (c - 48);
                match rest with
                | _ :: _ => None
                | [] =>
                    if negative then
                      if v >? u64 (- (LLONG_MIN + 1)) + 1 then None else Some (s64 (- v))
                    else if v >? LLONG_MAX then None else Some v
                end
              else None
          end
    end.

(** [long] has 64 bits. *)
Definition string2l (s : list Z) : option Z :=
  llval ← string2ll s;
  if (llval <? INT64_MIN) || (llval >? INT64_MAX) then None else Some llval.

(** ** Reference: decimal notation *)

(** The digits of [v], most significant first. *)
Fixpoint dec_rec (fuel : nat) (v : Z) : list Z :=
  match fuel with
  | O => []
  | S fuel => if v <? 10 then [48 + v] else dec_rec fuel (v / 10) ++ [48 + v mod 10]
  end.
Definition dec (v : Z) : list Z := dec_rec 20 v.

(** The canonical decimal notation of a signed integer. *)
Definition sdec (v : Z) : list Z := if v <? 0 then 45 :: dec (- v) else dec v.

Definition dec_val (a : Z) (s : list Z) : Z := foldl (λ a c, 10 * a + (c - 48)) a s.

Example ll2string_ex :
  ll2string (replicate 21 120) 21 (-9223372036854775808) =
    Some (bytes_of "-9223372036854775808" ++ [0], 20).
Proof. reflexivity. Qed.
Example string2ll_ex : string2ll (bytes_of "-9223372036854775808") = Some LLONG_MIN.
Proof. reflexivity. Qed.

(** ** Lemmas on the reference notation *)

Definition digitp (c : Z) : Prop := 48 ≤ c ≤ 57.

Lemma is_digit_spec c : is_digit c = bool_decide (digitp c).
Proof. unfold is_digit, digitp. case_bool_decide; lia. Qed.

Lemma dec_rec_fuel n m v :
  (1 ≤ n)%nat → (n ≤ m)%nat → 0 ≤ v < 10 ^ Z.of_nat n → dec_rec m v = dec_rec n v.
Proof.
  intros Hn. revert m v. induction n as [|n IH]; intros m v Hm Hv; [lia|].
  destruct m as [|m]; [lia|]. simpl. destruct (Z.ltb_spec v 10); [done|].
  rewrite Nat2Z.inj_succ, Z.pow_succ_r in Hv by lia.
  destruct n as [|n]; [simpl in Hv; lia|]. f_equal. apply IH; [lia|lia|dlia].
Qed.

Lemma dec_small v : 0 ≤ v < 10 → dec v = [48 + v].
Proof. intros. unfold dec. cbn [dec_rec]. destruct (Z.ltb_spec v 10); [done|lia]. Qed.

Lemma dec_snoc w d :
  0 < w → 0 ≤ d < 10 → 10 * w + d < 10 ^ 20 → dec (10 * w + d) = dec w ++ [48 + d].
Proof.
  intros Hw Hd Hlt. unfold dec at 1. cbn [dec_rec].
  destruct (Z.ltb_spec (10 * w + d) 10); [lia|].
  replace ((10 * w + d) / 10) with w by dlia. replace ((10 * w + d) mod 10) with d by dlia.
  unfold dec. rewrite (dec_rec_fuel 19 20 w); [reflexivity|lia..|].
  change (Z.of_nat 19) with 19. lia.
Qed.

Lemma dec_val_app a s t : dec_val a (s ++ t) = dec_val (dec_val a s) t.
Proof. apply foldl_app. Qed.

Lemma dec_val_snoc a s d : dec_val a (s ++ [d]) = 10 * dec_val a s + (d - 48).
Proof. by rewrite dec_val_app. Qed.

Lemma dec_val_mono a b s :
  0 ≤ a ≤ b → Forall digitp s → a ≤ dec_val a s ≤ dec_val b s.
Proof.
  intros Hab Hs. revert a b Hab.
  induction Hs as [|c s Hc _ IH]; intros a b Hab; simpl; [lia|].
  specialize (IH (10 * a + (c - 48)) (10 * b + (c - 48))).
  unfold digitp, dec_val in *. lia.
Qed.

(** Positive numbers: no leading zero, only digits, and the value reads back. *)
Lemma dec_shape v :
  0 < v < 10 ^ 20 →
  ∃ c p, dec v = c :: p ∧ 49 ≤ c ≤ 57 ∧ Forall digitp p ∧
    dec_val (c - 48) p = v.
Proof.
  induction v as [v IH] using (well_founded_induction (Z.lt_wf 0)). intros Hv.
  destruct (Z.lt_ge_cases v 10).
  - rewrite dec_small by lia. exists (48 + v), []. split_and!; [done|lia..|done|simpl; lia].
  - destruct (IH (v / 10)) as (c & p & E & Hc & Hp & Hval); [dlia..|].
    replace v with (10 * (v / 10) + v mod 10) by dlia.
    rewrite dec_snoc, E by dlia. exists c, (p ++ [48 + v mod 10]).
    split_and!; [done|lia..| |].
    + apply Forall_app. split; [done|]. apply Forall_singleton. unfold digitp. dlia.
    + rewrite dec_val_snoc, Hval. dlia.
Qed.

Lemma dec_of_digits c p :
  49 ≤ c ≤ 57 → Forall digitp p → dec_val (c - 48) p < 10 ^ 20 →
  dec (dec_val (c - 48) p) = c :: p.
Proof.
  intros Hc. induction p as [|d p IH] using rev_ind; intros Hp Hlt.
  - simpl. rewrite dec_small by lia. f_equal. lia.
  - apply Forall_app in Hp as [Hp Hd]. rewrite Forall_singleton in Hd.
    pose proof (dec_val_mono (c - 48) (c - 48) p ltac:(lia) Hp).
    rewrite dec_val_snoc in *. unfold digitp in Hd.
    rewrite dec_snoc, IH by (done || lia). simpl. do 2 f_equal. f_equal. lia.
Qed.

Lemma dec_length_bounds v :
  0 ≤ v < 10 ^ 20 → v < 10 ^ zlen (dec v) ∧ (zlen (dec v) = 1 ∨ 10 ^ (zlen (dec v) - 1) ≤ v).
Proof.
  induction v as [v IH] using (well_founded_induction (Z.lt_wf 0)). intros Hv.
  destruct (Z.lt_ge_cases v 10).
  - rewrite dec_small by lia. simpl. lia.
  - replace v with (10 * (v / 10) + v mod 10) by dlia. rewrite dec_snoc by dlia.
    destruct (IH (v / 10)) as [Hlt Hge]; [dlia..|]. autorewrite with lens. simpl.
    rewrite Nat2Z.inj_add. change (Z.of_nat 1) with 1.
    replace (zlen (dec (v / 10)) + 1 - 1) with (Z.succ (zlen (dec (v / 10)) - 1)) by lia.
    assert (0 < zlen (dec (v / 10))).
    { destruct (dec_shape (v / 10)) as (c & p & -> & _); [dlia|]. simpl. lia. }
    rewrite Z.pow_add_r, Z.pow_succ_r by lia. split; [dlia|].
    right. destruct Hge as [->|Hge]; [simpl; dlia|dlia].
Qed.

(** The number of digits is determined by the powers of ten around it. *)
Lemma digits_unique v d e :
  1 ≤ d → 1 ≤ e → 0 ≤ v → v < 10 ^ d → v < 10 ^ e →
  (d = 1 ∨ 10 ^ (d - 1) ≤ v) → (e = 1 ∨ 10 ^ (e - 1) ≤ v) → d = e.
Proof.
  intros Hd He Hv Hvd Hve Hd' He'.
  destruct (Z.lt_trichotomy d e) as [H|[H|H]]; [|done|].
  - destruct He' as [->|He']; [lia|].
    pose proof (Z.pow_le_mono_r 10 d (e - 1) ltac:(lia) ltac:(lia)). lia.
  - destruct Hd' as [->|Hd']; [lia|].
    pose proof (Z.pow_le_mono_r 10 e (d - 1) ltac:(lia) ltac:(lia)). lia.
Qed.

(** [v] has [d] decimal digits. *)
Definition ndigits (v d : Z) : Prop := 1 ≤ d ∧ v < 10 ^ d ∧ (d = 1 ∨ 10 ^ (d - 1) ≤ v).

Lemma digits10_rec_small n v : 0 ≤ v < 10 ^ 12 → ndigits v (digits10_rec (S n) v).
Proof.
  intros Hv. cbn [digits10_rec]. unfold b2z.
  repeat match goal with
  | |- context [if Z.ltb ?a ?b then _ else _] => destruct (Z.ltb_spec a b); [|try lia]
  | |- context [if Z.geb ?a ?b then _ else _] => rewrite (Z.geb_leb a b); destruct (Z.leb_spec b a)
  end; try lia; unfold ndigits; simpl; lia.
Qed.

Lemma digits10_bounds v : 0 ≤ v < 2 ^ 64 → ndigits v (digits10 v).
Proof.
  intros Hv. unfold digits10. destruct (Z.lt_ge_cases v (10 ^ 12)) as [Hlt|Hge].
  { apply (digits10_rec_small 19). lia. }
  pose proof (digits10_rec_small 18 (v / 10 ^ 12)) as (H1 & H2 & H3); [dlia|].
  set (d := digits10_rec 19 (v / 10 ^ 12)) in *.
  replace (digits10_rec 20 v) with (12 + d).
  2: { subst d. change (10 ^ 12) with 1000000000000 in *. cbn [digits10_rec].
       repeat (match goal with |- context [if Z.ltb v ?b then _ else _] =>
         destruct (Z.ltb_spec v b); [lia|] end). reflexivity. }
  unfold ndigits. replace (12 + d - 1) with (12 + (d - 1)) by lia.
  rewrite !Z.pow_add_r by lia. pose proof (Z.div_mod v (10 ^ 12) ltac:(lia)).
  pose proof (Z.mod_pos_bound v (10 ^ 12) ltac:(lia)). split; [lia|].
  split; [nia|]. right. destruct H3 as [->|H3]; [simpl; lia|nia].
Qed.

Lemma digits10_dec v : 0 ≤ v < 2 ^ 64 → digits10 v = zlen (dec v).
Proof.
  intros Hv. destruct (digits10_bounds v Hv) as (H1 & H2 & H3).
  destruct (dec_length_bounds v) as [H4 H5]; [lia|].
  apply (digits_unique v); try done; [|lia].
  destruct (decide (v = 0)) as [->|]; [simpl; lia|].
  destruct (dec_shape v) as (c & p & -> & _); [lia|]. simpl. lia.
Qed.


(** ** Printing *)

Lemma store8_app a x c off y :
  off = zlen a → is_byte y → store8 (a ++ x :: c) off y = Some (a ++ y :: c).
Proof.
  intros -> Hy. unfold store8. rewrite wrapu_small by done.
  by rewrite (store_app a [x] c).
Qed.

Lemma store8_head x c y : is_byte y → store8 (x :: c) 0 y = Some (y :: c).
Proof. intros. by apply (store8_app [] x c). Qed.

Lemma digit_pairs_spec i :
  0 ≤ i < 100 →
  load8 digit_pairs (i * 2) = Some (48 + i / 10) ∧
  load8 digit_pairs (i * 2 + 1) = Some (48 + i mod 10).
Proof.
  intros Hi.
  assert (Hall : Forall (λ k : nat,
    load8 digit_pairs (Z.of_nat k * 2) = Some (48 + Z.of_nat k / 10) ∧
    load8 digit_pairs (Z.of_nat k * 2 + 1) = Some (48 + Z.of_nat k mod 10)) (seq 0 100)).
  { refine (bool_decide_eq_true_1 _ _). vm_compute. reflexivity. }
  rewrite Forall_forall in Hall. specialize (Hall (Z.to_nat i)).
  rewrite Z2Nat.id in Hall by lia. apply Hall, elem_of_seq. lia.
Qed.

(** Two digits at a time. *)
Lemma dec_pair w i :
  0 < w → 0 ≤ i < 100 → 100 * w + i < 10 ^ 20 →
  dec (100 * w + i) = dec w ++ [48 + i / 10; 48 + i mod 10].
Proof.
  intros. replace (100 * w + i) with (10 * (10 * w + i / 10) + i mod 10) by dlia.
  rewrite dec_snoc, dec_snoc by dlia. by rewrite <- app_assoc.
Qed.

(** The last two cells of a buffer prefix. *)
Lemma snoc2 (old : list Z) :
  2 ≤ zlen old → ∃ old' a b, old = old' ++ [a; b].
Proof.
  intros H. destruct old as [|b old _] using rev_ind; [simpl in H; lia|].
  destruct old as [|a old _] using rev_ind; [simpl in H; lia|].
  exists old, a, b. by rewrite <- app_assoc.
Qed.

(** The two table lookups and the two stores of one digit pair. *)
Lemma store_pair old' a b post i next :
  0 ≤ i < 100 → next = zlen old' + 1 → zlen old' < 2 ^ 31 →
  ∃ d1 dst1 d0,
    load8 digit_pairs (i * 2 + 1) = Some d1 ∧
    store8 (old' ++ [a; b] ++ post) next d1 = Some dst1 ∧
    load8 digit_pairs (i * 2) = Some d0 ∧
    store8 dst1 (u32 (next - 1)) d0 = Some (old' ++ [48 + i / 10; 48 + i mod 10] ++ post).
Proof.
  intros Hi -> Hl. destruct (digit_pairs_spec i Hi) as [-> ->].
  exists (48 + i mod 10), (old' ++ [a; 48 + i mod 10] ++ post), (48 + i / 10).
  split_and!; [done| |done|].
  - replace (old' ++ [a; b] ++ post) with ((old' ++ [a]) ++ b :: post) by (by rewrite <- app_assoc).
    rewrite store8_app; [|llia|unfold is_byte; dlia]. by rewrite <- app_assoc.
  - rewrite wrapu_small by lia. cbn [app]. by rewrite store8_app by (lia || unfold is_byte; dlia).
Qed.

Lemma dec_pos_length v : 0 ≤ v < 10 ^ 20 → 1 ≤ zlen (dec v) ≤ 20.
Proof.
  intros Hv. destruct (dec_length_bounds v Hv) as [H1 H2].
  destruct (dec v) as [|c p] eqn:E; [|split; [simpl; lia|]].
  { destruct (decide (v < 10)); [rewrite dec_small in E by lia; done|].
    destruct (dec_shape v) as (? & ? & ? & _); [lia|congruence]. }
  destruct (Z.le_gt_cases (zlen (c :: p)) 20); [done|].
  destruct H2 as [H2|H2]; [lia|].
  pose proof (Z.pow_le_mono_r 10 20 (zlen (c :: p) - 1) ltac:(lia) ltac:(lia)). lia.
Qed.

Lemma ull2string_loop_spec fuel v old post next :
  0 ≤ v < 10 ^ 20 → v < 100 ^ Z.of_nat (S fuel) → zlen old = zlen (dec v) → next = zlen old - 1 →
  ∃ v' old' post', ull2string_loop fuel (old ++ post) v next = Some (old' ++ post', v', zlen old' - 1) ∧
    0 ≤ v' < 100 ∧ zlen old' = zlen (dec v') ∧ dec v' ++ post' = dec v ++ post.
Proof.
  revert v old post next. induction fuel as [|fuel IH]; intros v old post next Hv Hf Ho ->;
    cbn [ull2string_loop]; rewrite Z.geb_leb; destruct (Z.leb_spec 100 v) as [Hge|Hlt].
  { simpl in Hf. lia. }
  1, 3: exists v, old, post; split_and!; done || lia.
  assert (Hdec : dec v = dec (v / 100) ++ [48 + v mod 100 / 10; 48 + v mod 100 mod 10]).
  { rewrite <- dec_pair by dlia. f_equal. dlia. }
  pose proof (dec_pos_length (v / 100) ltac:(dlia)).
  pose proof (dec_pos_length v Hv).
  rewrite Hdec in Ho. autorewrite with lens in Ho. simpl in Ho.
  destruct (snoc2 old) as (old' & a & b & ->); [lia|]. autorewrite with lens in Ho. simpl in Ho.
  rewrite Nat2Z.inj_succ, Z.pow_succ_r in Hf by lia.
  edestruct (IH (v / 100) old' ([48 + v mod 100 / 10; 48 + v mod 100 mod 10] ++ post) (zlen old' - 1))
    as (v' & old2 & post2 & Hloop & Hv' & Hl' & Heq); [dlia|dlia|lia|done|].
  exists v', old2, post2. split_and!; [|lia..|done|].
  - rewrite <- Hloop, <- app_assoc.
    destruct (store_pair old' a b post (v mod 100) (zlen (old' ++ [a; b]) - 1))
      as (d1 & dst1 & d0 & -> & E1 & -> & E0); [dlia|llia|lia|].
    cbn [mbind option_bind]. rewrite E1. cbn [mbind option_bind]. rewrite E0.
    cbn [mbind option_bind]. f_equal. autorewrite with lens. simpl.
    rewrite wrapu_small by lia. lia.
  - rewrite Heq, Hdec, <- app_assoc. done.
Qed.

Lemma ull2string_fits v old x post dstlen :
  0 ≤ v < 2 ^ 64 → digits10 v < dstlen → zlen old = zlen (dec v) →
  ull2string (old ++ x :: post) dstlen v = Some (dec v ++ 0 :: post, zlen (dec v)).
Proof.
  intros Hv Hd Ho. unfold ull2string. rewrite Z.geb_leb.
  destruct (Z.leb_spec dstlen (digits10 v)); [lia|]. rewrite digits10_dec by done.
  pose proof (dec_pos_length v ltac:(lia)).
  rewrite (wrapu_small 32 (_ - 1)), wrapu_small by lia.
  rewrite store8_app; [|lia|unfold is_byte; lia]. cbn [mbind option_bind].
  edestruct (ull2string_loop_spec 20 v old (0 :: post)) as (v' & old' & post' & -> & Hv' & Ho' & Heq);
    [lia| |done|by rewrite Ho|].
  { change (Z.of_nat 21) with 21. lia. }
  cbn [mbind option_bind]. rewrite <- Heq.
  destruct (Z.ltb_spec v' 10).
  - rewrite (dec_small v') in Ho' |- * by lia. destruct old' as [|y [|]]; simpl in Ho'; try lia.
    cbn [app length]. change (Z.of_nat 1 - 1) with 0.
    rewrite store8_head by (unfold is_byte; lia).
    done.
  - assert (Hdec : dec v' = [48 + v' / 10; 48 + v' mod 10]).
    { replace v' with (10 * (v' / 10) + v' mod 10) at 1 by dlia.
      rewrite dec_snoc, dec_small by dlia. done. }
    rewrite Hdec in Ho' |- *. destruct old' as [|a [|b [|]]]; simpl in Ho'; try lia.
    destruct (store_pair [] a b post' v' 1) as (d1 & dst1 & d0 & E1 & E2 & E3 & E4);
      [lia|done|simpl; lia|].
    rewrite E1. cbn [mbind option_bind app length]. change (Z.of_nat 2 - 1) with 1.
    cbn [app] in E2. rewrite E2. cbn [mbind option_bind]. rewrite E3. cbn [mbind option_bind].
    rewrite E4. done.
Qed.


Lemma ull2string_spec dst dstlen v :
  0 ≤ v < 2 ^ 64 → zlen (dec v) < dstlen ≤ zlen dst →
  ull2string dst dstlen v =
    Some (dec v ++ 0 :: drop (S (length (dec v))) dst, zlen (dec v)).
Proof.
  intros Hv Hd. pose proof (digits10_dec v Hv).
  destruct (lookup_lt_is_Some_2 dst (length (dec v))) as [x Hx]; [lia|].
  rewrite <- (take_drop_middle dst _ x Hx) at 1. apply ull2string_fits; [done|lia|llia].
Qed.

Lemma ull2string_short dst dstlen v :
  0 ≤ v < 2 ^ 64 → 0 ≤ dstlen ≤ zlen (dec v) → dstlen ≤ zlen dst →
  ∃ dst', ull2string dst dstlen v = Some (dst', 0) ∧ length dst' = length dst.
Proof.
  intros Hv Hd Hl. unfold ull2string. rewrite digits10_dec, Z.geb_leb by done.
  destruct (Z.leb_spec dstlen (zlen (dec v))); [|lia]. rewrite Z.gtb_ltb.
  destruct (Z.ltb_spec 0 dstlen); [|by eexists].
  destruct dst as [|x dst]; [simpl in Hl; lia|].
  rewrite store8_head by (unfold is_byte; lia). by eexists.
Qed.

Lemma sdec_pos_length v : sfits 64 v → 1 ≤ zlen (sdec v) ≤ 20.
Proof.
  unfold sfits, sdec. intros Hv. destruct (Z.ltb_spec v 0).
  - pose proof (dec_length_bounds (- v) ltac:(lia)) as [_ H2].
    pose proof (dec_pos_length (- v) ltac:(lia)).
    cbn [length]. destruct (Z.le_gt_cases (zlen (dec (- v))) 19); [lia|].
    assert (zlen (dec (- v)) = 20) as E by lia. rewrite E in H2. simpl in H2. lia.
  - pose proof (dec_pos_length v ltac:(lia)). lia.
Qed.

(** [(uint64_t)-v], with the special case of the most negative value. *)
Lemma neg_magnitude v :
  sfits 64 v → v < 0 →
  (if negb (v =? LLONG_MIN) then u64 (- v) else u64 (LLONG_MAX + 1)) = - v.
Proof.
  unfold LLONG_MIN, LLONG_MAX. intros Hv Hn. destruct (Z.eqb_spec v INT64_MIN) as [->|]; [done|].
  simpl. apply wrapu_small. ilia.
Qed.

(** [sdigits10] is the exact length of the decimal notation, minus sign
    included, for every 64 bit integer. *)
Lemma sdigits10_correct v : sfits 64 v → sdigits10 v = zlen (sdec v).
Proof.
  intros Hv. unfold sdigits10, sdec. destruct (Z.ltb_spec v 0).
  - rewrite neg_magnitude, digits10_dec by (done || ilia). cbn [length]. lia.
  - rewrite digits10_dec by ilia. done.
Qed.

(** [ll2string] into a buffer that is large enough. *)
Lemma ll2string_spec dst dstlen v :
  sfits 64 v → zlen (sdec v) < dstlen ≤ zlen dst →
  ll2string dst dstlen v =
    Some (sdec v ++ 0 :: drop (S (length (sdec v))) dst, zlen (sdec v)).
Proof.
  intros Hv Hd. unfold ll2string, sdec in *. destruct (Z.ltb_spec v 0).
  - cbn [length] in Hd. destruct dst as [|x dst]; [simpl in Hd; lia|]. cbn [length] in Hd.
    pose proof (dec_pos_length (- v) ltac:(ilia)).
    destruct (Z.ltb_spec dstlen 2); [lia|].
    rewrite store8_head by (unfold is_byte; lia).
    cbn [mbind option_bind]. rewrite neg_magnitude by done. change (drop 1 (45 :: dst)) with dst.
    rewrite ull2string_spec by ilia. cbn [mbind option_bind].
    destruct (Z.eqb_spec (zlen (dec (- v))) 0); [lia|]. cbn [length app take].
    by rewrite Nat2Z.inj_succ.
  - pose proof (dec_pos_length v ltac:(ilia)). rewrite ull2string_spec by ilia.
    cbn [mbind option_bind]. destruct (Z.eqb_spec (zlen (dec v)) 0); [lia|]. by rewrite Z.add_0_r.
Qed.

(** [ll2string] writes the decimal notation and a terminator when the
    buffer has room for both, and otherwise returns 0; in both cases it
    writes only inside the [dstlen] bytes it was given. *)
Lemma ll2string_correct dst dstlen v :
  sfits 64 v → 0 ≤ dstlen ≤ zlen dst →
  if decide (zlen (sdec v) < dstlen) then
    ll2string dst dstlen v =
      Some (sdec v ++ 0 :: drop (S (length (sdec v))) dst, zlen (sdec v))
  else ∃ dst', ll2string dst dstlen v = Some (dst', 0) ∧ length dst' = length dst.
Proof.
  intros Hv Hd. case_decide as Hf; [apply ll2string_spec; [done|lia]|].
  unfold ll2string, sdec in *. destruct (Z.ltb_spec v 0).
  - cbn [length] in Hf. destruct (Z.ltb_spec dstlen 2).
    + rewrite Z.gtb_ltb. destruct (Z.ltb_spec 0 dstlen); [|by eexists].
      destruct dst as [|x dst]; [simpl in Hd; lia|].
      rewrite store8_head by (unfold is_byte; lia). by eexists.
    + destruct dst as [|x dst]; [simpl in Hd; lia|]. cbn [length] in Hd.
      rewrite store8_head by (unfold is_byte; lia).
      cbn [mbind option_bind]. rewrite neg_magnitude by done. change (drop 1 (45 :: dst)) with dst.
      destruct (ull2string_short dst (dstlen - 1) (- v)) as (d' & -> & Hl); [ilia|lia|lia|].
      cbn [mbind option_bind]. eexists; split; [done|]. simpl. by rewrite Hl.
  - destruct (ull2string_short dst dstlen v) as (d' & -> & Hl); [ilia|lia|lia|]. by eexists.
Qed.

(** ** Parsing *)

Lemma parse_digits_spec p v :
  0 ≤ v ≤ ULLONG_MAX → Forall digitp p →
  parse_digits p v = if decide (dec_val v p ≤ ULLONG_MAX) then Some (dec_val v p, []) else None.
Proof.
  intros Hv Hp. revert v Hv. unfold ULLONG_MAX, UINT64_MAX.
  induction Hp as [|c p Hc Hp IH]; intros v Hv; cbn [parse_digits].
  { by rewrite decide_True by (simpl; lia). }
  rewrite is_digit_spec, bool_decide_true by done. unfold digitp in Hc.
  pose proof (dec_val_mono (10 * v + (c - 48)) (10 * v + (c - 48)) p ltac:(lia) Hp).
  change (dec_val v (c :: p)) with (dec_val (10 * v + (c - 48)) p).
  unfold ULLONG_MAX, UINT64_MAX. rewrite !Z.gtb_ltb.
  destruct (Z.ltb_spec ((2 ^ 64 - 1) / 10) v) as [Hov|Hov]; [rewrite decide_False by dlia; done|].
  rewrite (wrapu_small 64 (v * 10)) by dlia.
  destruct (Z.ltb_spec (2 ^ 64 - 1 - (c - 48)) (v * 10)); [rewrite decide_False by lia; done|].
  rewrite wrapu_small by lia. replace (v * 10 + (c - 48)) with (10 * v + (c - 48)) by lia.
  apply IH. lia.
Qed.

(** A successful parse consumed digits only. *)
Lemma parse_digits_inv p v w : parse_digits p v = Some (w, []) → Forall digitp p.
Proof.
  revert v. induction p as [|c p IH]; intros v; cbn [parse_digits]; [done|].
  rewrite is_digit_spec. case_bool_decide; [|done]. repeat case_match; [done..|].
  intros H'. constructor; eauto.
Qed.


(** The digit loop accepts exactly the decimal notation of a positive
    [unsigned long long]. *)
Lemma parse_magnitude c p w :
  49 ≤ c ≤ 57 →
  parse_digits p (c - 48) = Some (w, []) ↔ 0 < w ≤ ULLONG_MAX ∧ dec w = c :: p.
Proof.
  unfold ULLONG_MAX, UINT64_MAX. intros Hc. split.
  - intros H. pose proof (parse_digits_inv _ _ _ H) as Hp.
    pose proof (dec_val_mono (c - 48) (c - 48) p ltac:(lia) Hp).
    rewrite parse_digits_spec in H by (unfold ULLONG_MAX, UINT64_MAX; done || lia).
    unfold ULLONG_MAX, UINT64_MAX in H. case_decide; [|done]. simplify_eq.
    split; [lia|]. apply dec_of_digits; [done..|lia].
  - intros [Hw Hd]. destruct (dec_shape w) as (c' & p' & E & _ & Hp & Hval); [lia|].
    rewrite Hd in E. simplify_eq.
    rewrite parse_digits_spec by (unfold ULLONG_MAX, UINT64_MAX; done || lia).
    unfold ULLONG_MAX, UINT64_MAX. rewrite decide_True by lia. congruence.
Qed.

Lemma dec_zero_head w c p : 0 ≤ w < 10 ^ 20 → dec w = c :: p → (w = 0 ∧ c = 48 ∧ p = []) ∨ 49 ≤ c ≤ 57.
Proof.
  intros Hw E. destruct (decide (w = 0)) as [->|].
  - rewrite dec_small in E by lia. simplify_eq. auto.
  - destruct (dec_shape w) as (c' & p' & E' & ? & _); [lia|]. rewrite E in E'. simplify_eq. auto.
Qed.

Lemma string2ll_sound s v : string2ll s = Some v → sfits 64 v ∧ s = sdec v.
Proof.
  unfold string2ll. case_match; [done|]. destruct s as [|c0 s]; [done|].
  destruct (_ && _) eqn:E0.
  { rewrite andb_true_iff, !Z.eqb_eq in E0. destruct E0 as [Hl ->]. intros [= <-].
    destruct s; [|cbn [length] in Hl; lia]. split; [unfold sfits; lia|done]. }
  destruct (Z.eqb_spec c0 45) as [->|Hc0].
  - cbn [tail]. destruct s as [|c p]; [done|]. destruct ((c >=? 49) && (c <=? 57)) eqn:Ec; [|done].
    rewrite andb_true_iff, Z.geb_le, Z.leb_le in Ec. intros H'. obind H'.
    destruct x as [w rest]. destruct rest; [|done].
    apply parse_magnitude in E as [Hw Hd]; [|lia]. revert H'. rewrite Z.gtb_ltb.
    change (u64 (- (LLONG_MIN + 1)) + 1) with (2 ^ 63).
    destruct (Z.ltb_spec (2 ^ 63) w); [done|]. rewrite wraps_small by (unfold sfits; lia).
    intros [= <-]. split; [unfold sfits; lia|]. unfold sdec.
    destruct (Z.ltb_spec (- w) 0); [|lia]. by rewrite Z.opp_involutive, Hd.
  - destruct ((c0 >=? 49) && (c0 <=? 57)) eqn:Ec; [|done].
    rewrite andb_true_iff, Z.geb_le, Z.leb_le in Ec. intros H'. obind H'.
    destruct x as [w rest]. destruct rest; [|done].
    apply parse_magnitude in E as [Hw Hd]; [|lia]. revert H'. rewrite Z.gtb_ltb.
    destruct (Z.ltb_spec LLONG_MAX w); [done|]. intros [= <-]. unfold LLONG_MAX in *.
    split; [ilia|]. unfold sdec. destruct (Z.ltb_spec w 0); [lia|]. done.
Qed.

Lemma string2ll_complete v : sfits 64 v → string2ll (sdec v) = Some v.
Proof.
  intros Hv. pose proof (sdec_pos_length v Hv). unfold string2ll, LONG_STR_SIZE.
  destruct (Z.eqb_spec 0 (zlen (sdec v))); [lia|]. rewrite Z.geb_leb.
  destruct (Z.leb_spec 21 (zlen (sdec v))); [lia|]. cbn [orb]. unfold sdec, sfits in *.
  destruct (Z.ltb_spec v 0).
  - rewrite andb_false_r. cbn [Z.eqb Pos.eqb tail].
    destruct (dec_shape (- v)) as (c & p & Hd & Hc & _); [lia|]. rewrite Hd.
    destruct (Z.geb_spec c 49); [|lia]. destruct (Z.leb_spec c 57); [|lia]. cbn [andb].
    rewrite (proj2 (parse_magnitude c p (- v) ltac:(lia))) by (unfold ULLONG_MAX, UINT64_MAX; split; [lia|done]).
    cbn [mbind option_bind]. change (u64 (- (LLONG_MIN + 1)) + 1) with (2 ^ 63).
    rewrite Z.gtb_ltb. destruct (Z.ltb_spec (2 ^ 63) (- v)); [lia|].
    rewrite Z.opp_involutive, wraps_small by (unfold sfits; lia). done.
  - destruct (decide (v = 0)) as [->|]; [done|].
    destruct (dec_shape v) as (c & p & Hd & Hc & _); [lia|]. rewrite Hd.
    destruct (Z.eqb_spec c 48); [lia|]. rewrite andb_false_r.
    destruct (Z.eqb_spec c 45); [lia|].
    destruct (Z.geb_spec c 49); [|lia]. destruct (Z.leb_spec c 57); [|lia]. cbn [andb].
    rewrite (proj2 (parse_magnitude c p v ltac:(lia))) by (unfold ULLONG_MAX, UINT64_MAX; split; [lia|done]).
    cbn [mbind option_bind]. rewrite Z.gtb_ltb.
    unfold LLONG_MAX, INT64_MAX. destruct (Z.ltb_spec (2 ^ 63 - 1) v); [lia|done].
Qed.

(** C10: [string2ll] accepts exactly the canonical decimal notations of 64 bit
    integers and returns the integer: no leading zeros, no sign but a minus,
    no other byte, no overflow.  So a string that converts is recovered from
    the integer without loss, as the comment on the function promises. *)
Theorem string2ll_correct s v : string2ll s = Some v ↔ sfits 64 v ∧ s = sdec v.
Proof.
  split; [apply string2ll_sound|]. intros [Hv ->]. by apply string2ll_complete.
Qed.

Lemma sdec_inj v w : sfits 64 v → sfits 64 w → sdec v = sdec w → v = w.
Proof.
  intros Hv Hw E. apply (f_equal string2ll) in E. rewrite !string2ll_complete in E by done. congruence.
Qed.

Lemma dec_rec_bytes fuel v : 0 ≤ v → Forall is_byte (dec_rec fuel v).
Proof.
  revert v. induction fuel as [|fuel IH]; intros v Hv; [constructor|]. cbn [dec_rec].
  unfold is_byte. destruct (Z.ltb_spec v 10).
  - repeat constructor; lia.
  - apply Forall_app. split; [apply IH; dlia|]. apply Forall_singleton. dlia.
Qed.

Lemma sdec_bytes v : Forall is_byte (sdec v).
Proof.
  unfold sdec, dec. destruct (Z.ltb_spec v 0).
  - constructor; [unfold is_byte; lia|]. apply dec_rec_bytes. lia.
  - by apply dec_rec_bytes.
Qed.

(** A buffer of [LONG_STR_SIZE] bytes holds every [long long], and parsing
    the bytes that [ll2string] reports returns the number it printed. *)
Lemma ll2string_string2ll dst v :
  sfits 64 v → LONG_STR_SIZE ≤ zlen dst →
  ∃ dst' n, ll2string dst LONG_STR_SIZE v = Some (dst', n) ∧ 0 < n < LONG_STR_SIZE ∧
    string2ll (take (Z.to_nat n) dst') = Some v ∧ load8 dst' n = Some 0.
Proof.
  unfold LONG_STR_SIZE. intros Hv Hd. pose proof (sdec_pos_length v Hv).
  rewrite ll2string_spec by (done || lia). do 2 eexists; split; [done|].
  split; [lia|]. rewrite Nat2Z.id, take_app_length. split; [by apply string2ll_complete|].
  by apply load8_app.
Qed.

(** ** Witnesses *)

End Util.
