(* ===== verification/Listpack.v ===== *)
(** * listpack.c: entry encodings

    A listpack is one block of memory: a six byte header (total bytes, number
    of elements), the entries and an end marker.  An entry is an encoding
    byte, optional length bytes, the payload, and the length of all this again
    in a form that is read backwards.  This file holds the encoders and
    decoders of a single entry; [ListpackNav] has the traversal and the
    integrity checks, [ListpackEdit] the operations that change a listpack.

    [lp] is the whole allocation and a pointer into it is its offset. *)

From S2P Require Import Prelude Util.
Import Util.

Module Listpack.

Definition LP_HDR_SIZE : Z := 6.
Definition LP_HDR_NUMELE_UNKNOWN : Z := UINT16_MAX.
Definition LP_MAX_INT_ENCODING_LEN : Z := 9.
Definition LP_MAX_BACKLEN_SIZE : Z := 5.
Definition LP_EOF : Z := 255.
Definition LP_INTBUF_SIZE : Z := 21.

Definition LP_ENCODING_IS_7BIT_UINT (b : Z) : bool := Z.land b 0x80 =? 0.
Definition LP_ENCODING_IS_6BIT_STR (b : Z) : bool := Z.land b 0xC0 =? 0x80.
Definition LP_ENCODING_IS_13BIT_INT (b : Z) : bool := Z.land b 0xE0 =? 0xC0.
Definition LP_ENCODING_IS_12BIT_STR (b : Z) : bool := Z.land b 0xF0 =? 0xE0.
Definition LP_ENCODING_IS_16BIT_INT (b : Z) : bool := Z.land b 0xFF =? 0xF1.
Definition LP_ENCODING_IS_24BIT_INT (b : Z) : bool := Z.land b 0xFF =? 0xF2.
Definition LP_ENCODING_IS_32BIT_INT (b : Z) : bool := Z.land b 0xFF =? 0xF3.
Definition LP_ENCODING_IS_64BIT_INT (b : Z) : bool := Z.land b 0xFF =? 0xF4.
Definition LP_ENCODING_IS_32BIT_STR (b : Z) : bool := Z.land b 0xFF =? 0xF0.

Definition LP_ENCODING_6BIT_STR_LEN (lp : list Z) (p : Z) : option Z :=
  b ← load8 lp p; Some (Z.land b 0x3F).
Definition LP_ENCODING_12BIT_STR_LEN (lp : list Z) (p : Z) : option Z :=
  b0 ← load8 lp p; b1 ← load8 lp (p + 1);
  Some (Z.lor (Z.shiftl (Z.land b0 0xF) 8) b1).
(** [p[1] | p[2]<<8 | ... | p[n]<<8*(n-1)] *)
Definition lp_le (lp : list Z) (p n : Z) : option Z :=
  bs ← load lp (p + 1) n; Some (le_or bs).
Definition LP_ENCODING_32BIT_STR_LEN (lp : list Z) (p : Z) : option Z := lp_le lp p 4.

(** The same algorithm as [string2ll], restated in listpack.c. *)
Definition lpStringToInt64 (s : list Z) : option Z :=
  let slen := zlen s in
  if (slen =? 0) || (slen >=? LONG_STR_SIZE) then None
  else
    match s with
    | [] => None
    | c0 :: _ =>
        if (slen =? 1) && (c0 =? 48) then Some 0
        else
          let negative := c0 =? 45 in
          let p := if negative then tail s else s in
          match p with
          | [] => None
          | c :: p =>
              if (c >=? 49) && (c <=? 57) then
                '(v, rest) ← parse_digits p (c - 48);
                match rest with
                | _ :: _ => None
                | [] =>
                    if negative then
                      if v >? u64 (- (INT64_MIN + 1)) + 1 then None else Some (s64 (- v))
                    else if v >? INT64_MAX then None else Some v
                end
              else None
          end
    end.

(** The bytes stored in [intenc]; [*enclen] is their number. *)
Definition lpEncodeIntegerGetType (v : Z) : list Z :=
  if (v >=? 0) && (v <=? 127) then [u8 v]
  else if (v >=? -4096) && (v <=? 4095) then
    let v := if v <? 0 then Z.shiftl 1 13 + v else v in
    [u8 (Z.lor (Z.shiftr v 8) 0xC0); Z.land v 0xff]
  else if (v >=? -32768) && (v <=? 32767) then
    let v := if v <? 0 then Z.shiftl 1 16 + v else v in
    [0xF1; Z.land v 0xff; u8 (Z.shiftr v 8)]
  else if (v >=? -8388608) && (v <=? 8388607) then
    let v := if v <? 0 then Z.shiftl 1 24 + v else v in
    [0xF2; Z.land v 0xff; Z.land (Z.shiftr v 8) 0xff; u8 (Z.shiftr v 16)]
  else if (v >=? -2147483648) && (v <=? 2147483647) then
    let v := if v <? 0 then Z.shiftl 1 32 + v else v in
    [0xF3; Z.land v 0xff; Z.land (Z.shiftr v 8) 0xff; Z.land (Z.shiftr v 16) 0xff;
     u8 (Z.shiftr v 24)]
  else
    let uv := u64 v in
    [0xF4; Z.land uv 0xff; Z.land (Z.shiftr uv 8) 0xff; Z.land (Z.shiftr uv 16) 0xff;
     Z.land (Z.shiftr uv 24) 0xff; Z.land (Z.shiftr uv 32) 0xff; Z.land (Z.shiftr uv 40) 0xff;
     Z.land (Z.shiftr uv 48) 0xff; u8 (Z.shiftr uv 56)].

(** [inl intenc] is [LP_ENCODING_INT], [inr enclen] is [LP_ENCODING_STRING];
    for the former [*enclen] is the length of [intenc]. *)
Definition lpEncodeGetType (ele : list Z) : list Z + Z :=
  let size := zlen ele in
  match lpStringToInt64 ele with
  | Some v => inl (lpEncodeIntegerGetType v)
  | None =>
      inr (if size <? 64 then 1 + size else if size <? 4096 then 2 + size else 5 + size)
  end.

(** The bytes written to [buf]; the return value is their number. *)
Definition lpEncodeBacklen (l : Z) : list Z :=
  if l <=? 127 then [u8 l]
  else if l <? 16383 then [u8 (Z.shiftr l 7); Z.lor (Z.land l 127) 128]
  else if l <? 2097151 then
    [u8 (Z.shiftr l 14); Z.lor (Z.land (Z.shiftr l 7) 127) 128; Z.lor (Z.land l 127) 128]
  else if l <? 268435455 then
    [u8 (Z.shiftr l 21); Z.lor (Z.land (Z.shiftr l 14) 127) 128;
     Z.lor (Z.land (Z.shiftr l 7) 127) 128; Z.lor (Z.land l 127) 128]
  else
    [u8 (Z.shiftr l 28); Z.lor (Z.land (Z.shiftr l 21) 127) 128;
     Z.lor (Z.land (Z.shiftr l 14) 127) 128; Z.lor (Z.land (Z.shiftr l 7) 127) 128;
     Z.lor (Z.land l 127) 128].

(** The [do ... while(1)] loop: it leaves after at most five rounds. *)
Fixpoint decode_backlen_loop (fuel : nat) (lp : list Z) (p val shift : Z) : option Z :=
  match fuel with
  | O => None
  | S fuel =>
      b ← load8 lp p;
      let val := Z.lor val (u64 (Z.shiftl (Z.land b 127) shift)) in
      if Z.land b 128 =? 0 then Some val
      else
        let shift := shift + 7 in
        if shift >? 28 then Some UINT64_MAX
        else decode_backlen_loop fuel lp (p - 1) val shift
  end.
Definition lpDecodeBacklen (lp : list Z) (p : Z) : option Z :=
  decode_backlen_loop 5 lp p 0 0.

(** The bytes written to [buf]. *)
Definition lpEncodeString (s : list Z) : list Z :=
  let len := zlen s in
  if len <? 64 then u8 (Z.lor len 0x80) :: s
  else if len <? 4096 then u8 (Z.lor (Z.shiftr len 8) 0xE0) :: Z.land len 0xff :: s
  else 0xF0 :: Z.land len 0xff :: Z.land (Z.shiftr len 8) 0xff ::
       Z.land (Z.shiftr len 16) 0xff :: Z.land (Z.shiftr len 24) 0xff :: s.

Definition lpCurrentEncodedSizeUnsafe (lp : list Z) (p : Z) : option Z :=
  b ← load8 lp p;
  if LP_ENCODING_IS_7BIT_UINT b then Some 1
  else if LP_ENCODING_IS_6BIT_STR b then n ← LP_ENCODING_6BIT_STR_LEN lp p; Some (u32 (1 + n))
  else if LP_ENCODING_IS_13BIT_INT b then Some 2
  else if LP_ENCODING_IS_16BIT_INT b then Some 3
  else if LP_ENCODING_IS_24BIT_INT b then Some 4
  else if LP_ENCODING_IS_32BIT_INT b then Some 5
  else if LP_ENCODING_IS_64BIT_INT b then Some 9
  else if LP_ENCODING_IS_12BIT_STR b then n ← LP_ENCODING_12BIT_STR_LEN lp p; Some (u32 (2 + n))
  else if LP_ENCODING_IS_32BIT_STR b then n ← LP_ENCODING_32BIT_STR_LEN lp p; Some (u32 (5 + n))
  else if b =? LP_EOF then Some 1
  else Some 0.

Definition lpCurrentEncodedSizeBytes (lp : list Z) (p : Z) : option Z :=
  b ← load8 lp p;
  Some (if LP_ENCODING_IS_7BIT_UINT b then 1
        else if LP_ENCODING_IS_6BIT_STR b then 1
        else if LP_ENCODING_IS_13BIT_INT b then 1
        else if LP_ENCODING_IS_16BIT_INT b then 1
        else if LP_ENCODING_IS_24BIT_INT b then 1
        else if LP_ENCODING_IS_32BIT_INT b then 1
        else if LP_ENCODING_IS_64BIT_INT b then 1
        else if LP_ENCODING_IS_12BIT_STR b then 2
        else if LP_ENCODING_IS_32BIT_STR b then 5
        else if b =? LP_EOF then 1
        else 0).

(** What [lpGetWithSize] returns: a pointer into the listpack with [*count],
    the integer in [*count] with a NULL result, or the caller's [intbuf] with
    the string representation and its length in [*count]. *)
Inductive lp_ret :=
  | RetPtr (off count : Z)
  | RetInt (count : Z)
  | RetBuf (buf : list Z) (count : Z).

(** The unsigned to signed conversion at the end of [lpGetWithSize]. *)
Definition lp_signed (uval negstart negmax : Z) : Z :=
  if uval >=? negstart then
    let val := s64 (u64 (negmax - uval)) in s64 (- val - 1)
  else s64 uval.

(** The common exit of the integer encodings. *)
Definition lp_ret_int (intbuf : option (list Z)) (uval negstart negmax : Z) : option lp_ret :=
  let val := lp_signed uval negstart negmax in
  match intbuf with
  | Some buf => '(buf, count) ← ll2string buf LP_INTBUF_SIZE val; Some (RetBuf buf count)
  | None => Some (RetInt val)
  end.

(** Returns the result and [*entry_size] when the branch stores it. *)
Definition lpGetWithSize (lp : list Z) (p : Z) (intbuf : option (list Z))
    : option (lp_ret * option Z) :=
  let ptr hdr n := Some (RetPtr (p + hdr) n, Some (hdr + n + zlen (lpEncodeBacklen (n + hdr)))) in
  let int uval negstart negmax size :=
    r ← lp_ret_int intbuf uval negstart negmax; Some (r, size) in
  b ← load8 lp p;
  if LP_ENCODING_IS_7BIT_UINT b then int (Z.land b 0x7f) UINT64_MAX 0 (Some 2)
  else if LP_ENCODING_IS_6BIT_STR b then n ← LP_ENCODING_6BIT_STR_LEN lp p; ptr 1 n
  else if LP_ENCODING_IS_13BIT_INT b then
    b1 ← load8 lp (p + 1);
    int (Z.lor (Z.shiftl (Z.land b 0x1f) 8) b1) (2 ^ 12) 8191 (Some 3)
  else if LP_ENCODING_IS_16BIT_INT b then v ← lp_le lp p 2; int v (2 ^ 15) UINT16_MAX (Some 4)
  else if LP_ENCODING_IS_24BIT_INT b then
    v ← lp_le lp p 3; int v (2 ^ 23) (Z.shiftr UINT32_MAX 8) (Some 5)
  else if LP_ENCODING_IS_32BIT_INT b then v ← lp_le lp p 4; int v (2 ^ 31) UINT32_MAX (Some 6)
  else if LP_ENCODING_IS_64BIT_INT b then v ← lp_le lp p 8; int v (2 ^ 63) UINT64_MAX (Some 10)
  else if LP_ENCODING_IS_12BIT_STR b then n ← LP_ENCODING_12BIT_STR_LEN lp p; ptr 2 n
  else if LP_ENCODING_IS_32BIT_STR b then n ← LP_ENCODING_32BIT_STR_LEN lp p; ptr 5 n
  else int (12345678900000000 + b) UINT64_MAX 0 None.

Definition lpGet (lp : list Z) (p : Z) (intbuf : option (list Z)) : option lp_ret :=
  fst <$> lpGetWithSize lp p intbuf.

(** [inl slen] with the pointer, or [inr lval]. *)
Definition lpGetValue (lp : list Z) (p : Z) : option (Z * Z + Z) :=
  r ← lpGet lp p None;
  match r with
  | RetPtr off n => Some (inl (off, u32 n))
  | RetInt v => Some (inr v)
  | RetBuf _ _ => None
  end.

(** ** The encoding byte *)

Lemma byte_eqb (f g : Z → bool) :
  forallb (λ b, Bool.eqb (f b) (g b)) (Z.of_nat <$> seq 0 256) = true →
  ∀ b, is_byte b → f b = g b.
Proof. intros H b Hb. by apply Bool.eqb_prop, (byte_forall _ H). Qed.

Lemma is_7bit_uint b : is_byte b → LP_ENCODING_IS_7BIT_UINT b = (b <? 128).
Proof. apply (byte_eqb _ (λ b, b <? 128)). reflexivity. Qed.
Lemma is_6bit_str b : is_byte b → LP_ENCODING_IS_6BIT_STR b = (128 <=? b) && (b <? 192).
Proof. apply (byte_eqb _ (λ b, (128 <=? b) && (b <? 192))). reflexivity. Qed.
Lemma is_13bit_int b : is_byte b → LP_ENCODING_IS_13BIT_INT b = (192 <=? b) && (b <? 224).
Proof. apply (byte_eqb _ (λ b, (192 <=? b) && (b <? 224))). reflexivity. Qed.
Lemma is_12bit_str b : is_byte b → LP_ENCODING_IS_12BIT_STR b = (224 <=? b) && (b <? 240).
Proof. apply (byte_eqb _ (λ b, (224 <=? b) && (b <? 240))). reflexivity. Qed.

Lemma is_tag b t : is_byte b → (Z.land b 0xFF =? t) = (b =? t).
Proof. intros Hb. unfold is_byte in Hb. by rewrite land_255, Z.mod_small by lia. Qed.

(** Normalise all the tests of an encoding byte and settle them by its range. *)
Ltac classify b :=
  unfold LP_ENCODING_IS_16BIT_INT, LP_ENCODING_IS_24BIT_INT, LP_ENCODING_IS_32BIT_INT,
    LP_ENCODING_IS_64BIT_INT, LP_ENCODING_IS_32BIT_STR;
  rewrite ?is_7bit_uint, ?is_6bit_str, ?is_13bit_int, ?is_12bit_str, ?is_tag by done;
  repeat match goal with
  | |- context [b <? ?k] => destruct (Z.ltb_spec b k); [try lia|try lia]
  | |- context [?k <=? b] => destruct (Z.leb_spec k b); [try lia|try lia]
  | |- context [b =? ?k] => destruct (Z.eqb_spec b k); [try lia|try lia]
  end; cbn [andb].

(** ** The backward length *)

(** [k+1] base-128 digits, most significant first; all but the first carry the
    continuation bit. *)
Fixpoint enc7 (k : nat) (l : Z) : list Z :=
  match k with
  | O => [u8 l]
  | S k => enc7 k (Z.shiftr l 7) ++ [Z.lor (Z.land l 127) 128]
  end.

Lemma length_enc7 k l : length (enc7 k l) = S k.
Proof. revert l. induction k; intros; simpl; [done|]. rewrite length_app, IHk. simpl. lia. Qed.

(** How many digits [lpEncodeBacklen] uses. *)
Definition backlen_digits (l : Z) : nat :=
  if l <=? 127 then 0 else if l <? 16383 then 1 else if l <? 2097151 then 2
  else if l <? 268435455 then 3 else 4.

Lemma lpEncodeBacklen_enc7 l : lpEncodeBacklen l = enc7 (backlen_digits l) l.
Proof.
  unfold lpEncodeBacklen, backlen_digits.
  repeat (match goal with |- context [if ?b then _ else _] => destruct b end; try done);
    simpl; rewrite ?Z.shiftr_shiftr by lia; done.
Qed.

Lemma backlen_digits_range l : 0 ≤ l < 2 ^ 35 → 0 ≤ l < 2 ^ (7 * (Z.of_nat (backlen_digits l) + 1)).
Proof. intros. unfold backlen_digits. zcase; simpl; lia. Qed.

Lemma backlen_digits_le l : (backlen_digits l ≤ 4)%nat.
Proof. unfold backlen_digits. repeat case_match; lia. Qed.

Lemma cont_byte x :
  let y := Z.lor (Z.land x 127) 128 in
  Z.land y 127 = x mod 128 ∧ (Z.land y 128 =? 0) = false ∧ is_byte y.
Proof.
  cbv zeta. pose proof (Z.mod_pos_bound x 128 ltac:(lia)).
  pose proof (lor_shiftl_add (x mod 128) 1 7 ltac:(lia) ltac:(lia)) as E.
  change (Z.shiftl 1 7) with 128 in E. rewrite (land_127 x), E. change (1 * 2 ^ 7) with 128.
  set (y := x mod 128 + 128). assert (is_byte y) as Hb by (unfold is_byte; lia).
  assert ((y <? 128) || negb (Z.land y 128 =? 0) = true) as Hy.
  { by apply (byte_forall (λ b, (b <? 128) || negb (Z.land b 128 =? 0))). }
  split_and!; [|destruct (Z.ltb_spec y 128); [lia|]; by apply negb_true_iff|apply Hb..].
  rewrite land_127. subst y. dlia.
Qed.

Lemma first_byte x :
  0 ≤ x < 128 → u8 x = x ∧ Z.land x 127 = x ∧ (Z.land x 128 =? 0) = true.
Proof.
  intros Hx. rewrite wrapu_small, land_127, Z.mod_small by lia. split_and!; [done..|].
  assert ((128 <=? x) || (Z.land x 128 =? 0) = true) as E.
  { apply (byte_forall (λ b, (128 <=? b) || (Z.land b 128 =? 0))); [done|unfold is_byte; lia]. }
  destruct (Z.leb_spec 128 x); [lia|done].
Qed.

Lemma decode_enc7 k : ∀ fuel a c l val shift,
  (k < fuel)%nat → 0 ≤ l < 2 ^ (7 * (Z.of_nat k + 1)) → 0 ≤ val < 2 ^ shift →
  0 ≤ shift → shift + 7 * Z.of_nat k ≤ 28 →
  decode_backlen_loop fuel (a ++ enc7 k l ++ c) (zlen a + Z.of_nat k) val shift =
    Some (val + l * 2 ^ shift).
Proof.
  assert (Hu : ∀ m sh, 0 ≤ m < 128 → 0 ≤ sh ≤ 28 → u64 (Z.shiftl m sh) = Z.shiftl m sh).
  { intros m sh Hm Hs. apply wrapu_small. rewrite Z.shiftl_mul_pow2 by lia.
    pose proof (Z.pow_le_mono_r 2 sh 28 ltac:(lia) ltac:(lia)).
    pose proof (Z.pow_pos_nonneg 2 sh ltac:(lia) ltac:(lia)). nia. }
  induction k as [|k IH]; intros fuel a c l val shift Hf Hl Hval Hs Hs';
    (destruct fuel as [|fuel]; [lia|]); cbn [decode_backlen_loop enc7].
  - cbn [app]. rewrite load8_app by lia. cbn [mbind option_bind].
    destruct (first_byte l) as (-> & -> & ->); [simpl in Hl; lia|].
    by rewrite Hu, lor_shiftl_add by (simpl in Hl; lia).
  - rewrite <- (app_assoc (enc7 k _)), (app_assoc a). cbn [app].
    rewrite load8_app by (rewrite length_app, length_enc7; lia). cbn [mbind option_bind].
    destruct (cont_byte l) as (-> & -> & _). rewrite Z.gtb_ltb.
    destruct (Z.ltb_spec 28 (shift + 7)); [lia|].
    rewrite <- app_assoc. replace (zlen a + Z.of_nat (S k) - 1) with (zlen a + Z.of_nat k) by lia.
    pose proof (Z.mod_pos_bound l 128 ltac:(lia)).
    rewrite Hu, lor_shiftl_add by lia.
    replace (7 * (Z.of_nat (S k) + 1)) with (7 + 7 * (Z.of_nat k + 1)) in Hl by lia.
    rewrite Z.pow_add_r in Hl by lia. rewrite Z.shiftr_div_pow2 by lia. change (2 ^ 7) with 128 in *.
    pose proof (Z.pow_pos_nonneg 2 shift ltac:(lia) ltac:(lia)).
    rewrite IH; [|lia|split; [dlia|apply Z.div_lt_upper_bound; lia]| |lia..].
    + f_equal. rewrite Z.pow_add_r by lia. change (2 ^ 7) with 128.
      pose proof (Z.div_mod l 128 ltac:(lia)). nia.
    + rewrite Z.pow_add_r by lia. change (2 ^ 7) with 128. nia.
Qed.

(** Decoding reads back what was encoded, from the last byte of the field. *)
Lemma decode_backlen a l c :
  0 ≤ l < 2 ^ 35 →
  lpDecodeBacklen (a ++ lpEncodeBacklen l ++ c) (zlen (a ++ lpEncodeBacklen l) - 1) = Some l.
Proof.
  intros Hl. rewrite lpEncodeBacklen_enc7. unfold lpDecodeBacklen.
  replace (zlen (a ++ enc7 (backlen_digits l) l) - 1) with (zlen a + Z.of_nat (backlen_digits l))
    by (rewrite length_app, length_enc7; lia).
  pose proof (backlen_digits_le l).
  rewrite decode_enc7; [f_equal; lia|lia|by apply backlen_digits_range|lia..].
Qed.

(** ** Payloads

    A payload is an entry without its backward length.  It is valid when the
    length read from its first bytes is its own length; canonical payloads are
    those the encoders produce. *)

Definition valid_payload (e : list Z) : Prop :=
  Forall is_byte e ∧ 0 < zlen e ∧ head e ≠ Some LP_EOF ∧
  lpCurrentEncodedSizeUnsafe e 0 = Some (zlen e).

(** The value stored in a payload. *)
Inductive lp_elem := EInt (v : Z) | EStr (s : list Z).
#[export] Instance lp_elem_eq_dec : EqDecision lp_elem.
Proof. solve_decision. Defined.

Definition payload_value (e : list Z) : option lp_elem :=
  r ← lpGet e 0 None;
  match r with
  | RetInt v => Some (EInt v)
  | RetPtr off n => EStr <$> load e off n
  | RetBuf _ _ => None
  end.

(** The element seen as a string, as every command of Redis sees it. *)
Definition elem_string (x : lp_elem) : list Z :=
  match x with EInt v => sdec v | EStr s => s end.

Definition ret_shift (d : Z) (r : lp_ret) : lp_ret :=
  match r with RetPtr off n => RetPtr (d + off) n | _ => r end.

Ltac framed :=
  repeat match goal with
  | E : load8 ?e ?k = Some ?b |- context [load8 (?a ++ ?e ++ ?c) ?p] =>
      replace p with (zlen a + k) by lia; rewrite (load8_frame a e c k b E)
  | E : load ?e ?k ?n = Some ?b |- context [load (?a ++ ?e ++ ?c) ?p ?n] =>
      replace p with (zlen a + k) by lia; rewrite (load_frame a e c k n b E)
  end; cbn [mbind option_bind].

Lemma lp_le_frame a e c n v : lp_le e 0 n = Some v → lp_le (a ++ e ++ c) (zlen a) n = Some v.
Proof. unfold lp_le. intros H. obind H. framed. done. Qed.

Lemma len12_frame a e c v :
  LP_ENCODING_12BIT_STR_LEN e 0 = Some v → LP_ENCODING_12BIT_STR_LEN (a ++ e ++ c) (zlen a) = Some v.
Proof.
  unfold LP_ENCODING_12BIT_STR_LEN. intros H. obind H. simplify_eq.
  rewrite (load8_frame a e c 1 _ E0 : load8 _ (zlen a + 1) = _).
  rewrite <- (Z.add_0_r (zlen a)), (load8_frame a e c 0 _ E). done.
Qed.

Lemma len6_frame a e c v :
  LP_ENCODING_6BIT_STR_LEN e 0 = Some v → LP_ENCODING_6BIT_STR_LEN (a ++ e ++ c) (zlen a) = Some v.
Proof.
  unfold LP_ENCODING_6BIT_STR_LEN. intros H. obind H. simplify_eq.
  rewrite <- (Z.add_0_r (zlen a)), (load8_frame a e c 0 _ E). done.
Qed.

Lemma sizeUnsafe_frame a e c n :
  lpCurrentEncodedSizeUnsafe e 0 = Some n →
  lpCurrentEncodedSizeUnsafe (a ++ e ++ c) (zlen a) = Some n.
Proof.
  unfold lpCurrentEncodedSizeUnsafe. intros H. apply bind_Some in H as (b & E & H).
  apply (load8_frame a e c) in E. rewrite Z.add_0_r in E. rewrite E. cbn [mbind option_bind].
  repeat (match goal with |- context [if ?t then _ else _] => destruct t end; [by first
    [done
    |apply bind_Some in H as (m & Em & H); rewrite (len6_frame a e c m Em)
    |apply bind_Some in H as (m & Em & H); rewrite (len12_frame a e c m Em)
    |apply bind_Some in H as (m & Em & H); unfold LP_ENCODING_32BIT_STR_LEN in *;
     rewrite (lp_le_frame a e c 4 m Em)]|]). done.
Qed.

Lemma sizeBytes_frame a e c n :
  lpCurrentEncodedSizeBytes e 0 = Some n →
  lpCurrentEncodedSizeBytes (a ++ e ++ c) (zlen a) = Some n.
Proof.
  unfold lpCurrentEncodedSizeBytes. intros H. apply bind_Some in H as (b & E & H).
  apply (load8_frame a e c) in E. rewrite Z.add_0_r in E. by rewrite E.
Qed.

Lemma get_frame a e c r sz :
  lpGetWithSize e 0 None = Some (r, sz) →
  lpGetWithSize (a ++ e ++ c) (zlen a) None = Some (ret_shift (zlen a) r, sz).
Proof.
  unfold lpGetWithSize, lp_ret_int. intros H. apply bind_Some in H as (b & E & H).
  apply (load8_frame a e c) in E. rewrite Z.add_0_r in E. rewrite E. cbn [mbind option_bind].
  repeat (match goal with |- context [if ?t then _ else _] => destruct t end; [first
    [by simplify_eq/=
    |apply bind_Some in H as (m & Em & H); first
       [rewrite (len6_frame a e c m Em)|rewrite (load8_frame a e c 1 m Em)
       |rewrite (len12_frame a e c m Em)|rewrite (lp_le_frame a e c _ m Em)]; by simplify_eq/=
    |unfold LP_ENCODING_32BIT_STR_LEN in *; apply bind_Some in H as (m & Em & H);
     rewrite (lp_le_frame a e c _ m Em); by simplify_eq/=]|]).
  by simplify_eq/=.
Qed.


(** ** Integer payloads *)

Lemma lp_signed_spec w v :
  0 < w ≤ 64 → sfits w v → lp_signed (v mod 2 ^ w) (2 ^ (w - 1)) (2 ^ w - 1) = v.
Proof.
  intros Hw Hv. pose proof (pow2_split w ltac:(lia)) as Hp.
  pose proof (Z.pow_le_mono_r 2 w 64 ltac:(lia) ltac:(lia)).
  pose proof (Z.pow_pos_nonneg 2 (w - 1) ltac:(lia) ltac:(lia)).
  unfold sfits in Hv. unfold lp_signed. rewrite Z.geb_leb.
  destruct (Z.lt_ge_cases v 0).
  - replace (v mod 2 ^ w) with (v + 2 ^ w).
    2: { rewrite <- (Z.mod_add v 1) by lia. rewrite Z.mul_1_l, Z.mod_small by lia. done. }
    destruct (Z.leb_spec (2 ^ (w - 1)) (v + 2 ^ w)); [|lia].
    rewrite wrapu_small by lia. rewrite !wraps_small by (unfold sfits; rewrite ?wraps_small; unfold sfits; lia).
    lia.
  - rewrite Z.mod_small by lia. destruct (Z.leb_spec (2 ^ (w - 1)) v); [lia|].
    apply wraps_small; [lia|]. unfold sfits. lia.
Qed.

(** [if (v < 0) v = (1<<w)+v] *)
Lemma neg_offset w v :
  0 < w → sfits w v → (if v <? 0 then Z.shiftl 1 w + v else v) = v mod 2 ^ w.
Proof.
  intros Hw Hv. unfold sfits in Hv. pose proof (pow2_split w Hw).
  rewrite Z.shiftl_1_l. destruct (Z.ltb_spec v 0).
  - rewrite <- (Z.mod_add v 1) by lia. rewrite Z.mul_1_l, Z.mod_small by lia. lia.
  - rewrite Z.mod_small by lia. done.
Qed.

Ltac le_norm :=
  cbn [le_bytes]; rewrite ?land_255, ?Z.shiftr_div_pow2, ?Z.div_div by lia; reflexivity.

Lemma le2_bytes x : [Z.land x 0xff; u8 (Z.shiftr x 8)] = le_bytes 2 x.
Proof. le_norm. Qed.
Lemma le3_bytes x :
  [Z.land x 0xff; Z.land (Z.shiftr x 8) 0xff; u8 (Z.shiftr x 16)] = le_bytes 3 x.
Proof. le_norm. Qed.
Lemma le4_bytes x :
  [Z.land x 0xff; Z.land (Z.shiftr x 8) 0xff; Z.land (Z.shiftr x 16) 0xff; u8 (Z.shiftr x 24)]
  = le_bytes 4 x.
Proof. le_norm. Qed.
Lemma le8_bytes x :
  [Z.land x 0xff; Z.land (Z.shiftr x 8) 0xff; Z.land (Z.shiftr x 16) 0xff;
   Z.land (Z.shiftr x 24) 0xff; Z.land (Z.shiftr x 32) 0xff; Z.land (Z.shiftr x 40) 0xff;
   Z.land (Z.shiftr x 48) 0xff; u8 (Z.shiftr x 56)] = le_bytes 8 x.
Proof. le_norm. Qed.

(** The encodings with a tag byte and [n] little-endian bytes. *)
Lemma lp_le_tag t n v :
  lp_le (t :: le_bytes n v) 0 (Z.of_nat n) = Some (v mod 2 ^ (8 * Z.of_nat n)).
Proof.
  unfold lp_le.
  assert (load (t :: le_bytes n v) (0 + 1) (Z.of_nat n) = Some (le_bytes n v)) as ->.
  { rewrite <- (app_nil_r (le_bytes n v)) at 1. apply (load_app [t]); [done|llia]. }
  cbn [mbind option_bind]. by rewrite le_or_val, le_val_bytes by apply le_bytes_byte.
Qed.


(** The shapes of integer payloads. *)
Lemma enc_int_cases v :
  sfits 64 v →
  (0 ≤ v ≤ 127 ∧ lpEncodeIntegerGetType v = [v]) ∨
  (sfits 13 v ∧ lpEncodeIntegerGetType v =
     [192 + v mod 2 ^ 13 / 256; v mod 2 ^ 13 mod 256]) ∨
  (∃ t n, (t, n) ∈ [(0xF1, 2%nat); (0xF2, 3%nat); (0xF3, 4%nat); (0xF4, 8%nat)] ∧
     sfits (8 * Z.of_nat n) v ∧ lpEncodeIntegerGetType v = t :: le_bytes n v).
Proof.
  intros Hv. unfold lpEncodeIntegerGetType. rewrite !Z.geb_leb.
  destruct (Z.leb_spec 0 v), (Z.leb_spec v 127); cbn [andb];
    [left; rewrite wrapu_small by lia; done|right..].
  all: destruct (Z.leb_spec (-4096) v), (Z.leb_spec v 4095); cbn [andb]; try lia;
    try (left; split; [unfold sfits; lia|]; rewrite neg_offset by (unfold sfits; lia);
         pose proof (Z.mod_pos_bound v (2 ^ 13) ltac:(lia));
         rewrite land_255, Z.shiftr_div_pow2 by lia; f_equal; change (2 ^ 8) with 256;
         rewrite (lor_shiftl_add (v mod 2 ^ 13 / 256) 6 5 ltac:(lia) ltac:(dlia) : Z.lor _ 0xC0 = _);
         rewrite wrapu_small by dlia; dlia).
  all: right.
  all: destruct (Z.leb_spec (-32768) v), (Z.leb_spec v 32767); cbn [andb]; try lia;
    try (exists 0xF1, 2%nat; split; [set_solver|]; split; [unfold sfits; lia|];
         rewrite neg_offset, le2_bytes by (unfold sfits; lia); by rewrite (le_bytes_mod 2)).
  all: destruct (Z.leb_spec (-8388608) v), (Z.leb_spec v 8388607); cbn [andb]; try lia;
    try (exists 0xF2, 3%nat; split; [set_solver|]; split; [unfold sfits; lia|];
         rewrite neg_offset, le3_bytes by (unfold sfits; lia); by rewrite (le_bytes_mod 3)).
  all: destruct (Z.leb_spec (-2147483648) v), (Z.leb_spec v 2147483647); cbn [andb]; try lia;
    try (exists 0xF3, 4%nat; split; [set_solver|]; split; [unfold sfits; lia|];
         rewrite neg_offset, le4_bytes by (unfold sfits; lia); by rewrite (le_bytes_mod 4)).
  all: exists 0xF4, 8%nat; split; [set_solver|]; split; [unfold sfits in *; lia|];
    rewrite le8_bytes; unfold wrapu; by rewrite (le_bytes_mod 8).
Qed.


Lemma enc_int_get v :
  sfits 64 v →
  let e := lpEncodeIntegerGetType v in
  lpGetWithSize e 0 None = Some (RetInt v, Some (zlen e + zlen (lpEncodeBacklen (zlen e)))).
Proof.
  intros Hv. cbv zeta.
  destruct (enc_int_cases v Hv) as [[Hr ->]|[[Hs ->]|(t & n & Htn & Hs & ->)]].
  - unfold lpGetWithSize. change (load8 [v] 0) with (Some v). cbn [mbind option_bind].
    rewrite is_7bit_uint by (unfold is_byte; lia). destruct (Z.ltb_spec v 128); [|lia].
    unfold lp_ret_int, lp_signed. cbn [mbind option_bind]. rewrite land_127, Z.mod_small by lia.
    rewrite Z.geb_leb. destruct (Z.leb_spec UINT64_MAX v); [ilia|].
    by rewrite wraps_small by (unfold sfits; lia).
  - pose proof (Z.mod_pos_bound v (2 ^ 13) ltac:(lia)). set (x := v mod 2 ^ 13) in *.
    assert (is_byte (192 + x / 256)) as Hb by (unfold is_byte; dlia).
    assert (0 ≤ x / 256 < 32) by dlia.
    unfold lpGetWithSize. change (load8 [192 + x / 256; x mod 256] 0) with (Some (192 + x / 256)).
    cbn [mbind option_bind]. rewrite is_7bit_uint, is_6bit_str, is_13bit_int by done.
    destruct (Z.ltb_spec (192 + x / 256) 128); [lia|].
    destruct (Z.ltb_spec (192 + x / 256) 192); [lia|]. rewrite andb_false_r.
    destruct (Z.leb_spec 192 (192 + x / 256)); [|dlia].
    destruct (Z.ltb_spec (192 + x / 256) 224); [|lia]. cbn [andb].
    change (load8 [192 + x / 256; x mod 256] (0 + 1)) with (Some (x mod 256)).
    cbn [mbind option_bind]. change 0x1f with (2 ^ 5 - 1). rewrite land_low by lia.
    replace ((192 + x / 256) mod 2 ^ 5) with (x / 256) by dlia.
    rewrite shiftl_lor_add by dlia. change (2 ^ 8) with 256.
    replace (x / 256 * 256 + x mod 256) with x by dlia.
    unfold lp_ret_int. subst x. by rewrite (lp_signed_spec 13).
  - unfold lpGetWithSize. change (load8 (t :: le_bytes n v) 0) with (Some t).
    cbn [mbind option_bind].
    repeat (apply elem_of_cons in Htn as [[= -> ->]|Htn]); [..|by apply elem_of_nil in Htn];
      cbn [LP_ENCODING_IS_7BIT_UINT LP_ENCODING_IS_6BIT_STR LP_ENCODING_IS_13BIT_INT
           LP_ENCODING_IS_16BIT_INT LP_ENCODING_IS_24BIT_INT LP_ENCODING_IS_32BIT_INT
           LP_ENCODING_IS_64BIT_INT Z.land Pos.land Z.eqb Pos.eqb Pos.Nsucc_double Pos.Ndouble
           N.succ_double N.double Z.of_N].
    + rewrite (lp_le_tag _ 2). unfold lp_ret_int. cbn [mbind option_bind].
      by rewrite (lp_signed_spec 16).
    + rewrite (lp_le_tag _ 3). unfold lp_ret_int. cbn [mbind option_bind].
      by rewrite (lp_signed_spec 24).
    + rewrite (lp_le_tag _ 4). unfold lp_ret_int. cbn [mbind option_bind].
      by rewrite (lp_signed_spec 32).
    + rewrite (lp_le_tag _ 8). unfold lp_ret_int. cbn [mbind option_bind].
      by rewrite (lp_signed_spec 64).
Qed.

Lemma enc_int_valid v :
  sfits 64 v → valid_payload (lpEncodeIntegerGetType v) ∧ zlen (lpEncodeIntegerGetType v) ≤ 9.
Proof.
  intros Hv. unfold valid_payload, LP_EOF.
  destruct (enc_int_cases v Hv) as [[Hr ->]|[[Hs ->]|(t & n & Htn & Hs & ->)]].
  - split; [|done]. split_and!; [by repeat constructor; lia|done|naive_solver lia|].
    unfold lpCurrentEncodedSizeUnsafe. change (load8 [v] 0) with (Some v). cbn [mbind option_bind].
    rewrite is_7bit_uint by (unfold is_byte; lia). by destruct (Z.ltb_spec v 128); [|lia].
  - pose proof (Z.mod_pos_bound v (2 ^ 13) ltac:(lia)). set (x := v mod 2 ^ 13) in *.
    assert (is_byte (192 + x / 256)) as Hb by (unfold is_byte; dlia).
    assert (0 ≤ x / 256 < 32) by dlia.
    split; [|done]. split_and!; [by repeat constructor; unfold is_byte in *; dlia|done|naive_solver dlia|].
    unfold lpCurrentEncodedSizeUnsafe.
    change (load8 [192 + x / 256; x mod 256] 0) with (Some (192 + x / 256)). cbn [mbind option_bind].
    rewrite is_7bit_uint, is_6bit_str, is_13bit_int by done.
    destruct (Z.ltb_spec (192 + x / 256) 128); [lia|].
    destruct (Z.ltb_spec (192 + x / 256) 192); [lia|]. rewrite andb_false_r.
    destruct (Z.leb_spec 192 (192 + x / 256)); [|dlia].
    by destruct (Z.ltb_spec (192 + x / 256) 224); [|lia].
  - pose proof (le_bytes_byte n v).
    repeat (apply elem_of_cons in Htn as [[= -> ->]|Htn]); [..|by apply elem_of_nil in Htn];
      (split; [|done]; split_and!; [by constructor; [unfold is_byte; lia|]|done|done|done]).
Qed.


(** ** String payloads *)

Definition str_hdr (len : Z) : Z := if len <? 64 then 1 else if len <? 4096 then 2 else 5.

(** The header bytes that precede the string. *)
Lemma enc_str_shape s :
  zlen s < 2 ^ 32 →
  ∃ h, lpEncodeString s = h ++ s ∧ zlen h = str_hdr (zlen s) ∧
    ((zlen s < 64 ∧ h = [128 + zlen s]) ∨
     (64 ≤ zlen s < 4096 ∧ h = [224 + zlen s / 256; zlen s mod 256]) ∨
     (4096 ≤ zlen s ∧ h = 0xF0 :: le_bytes 4 (zlen s))).
Proof.
  intros Hs. unfold lpEncodeString, str_hdr. set (n := zlen s) in *.
  destruct (Z.ltb_spec n 64); [|destruct (Z.ltb_spec n 4096)].
  - exists [128 + n]. split_and!; [|done|by left]. cbn [app]. f_equal.
    rewrite (lor_shiftl_add n 2 6 ltac:(lia) ltac:(lia) : Z.lor n 0x80 = _).
    rewrite wrapu_small by lia. lia.
  - exists [224 + n / 256; n mod 256]. split_and!; [|done|by auto]. cbn [app].
    rewrite land_255, Z.shiftr_div_pow2 by lia. change (2 ^ 8) with 256. f_equal.
    rewrite (lor_shiftl_add (n / 256) 14 4 ltac:(lia) ltac:(dlia) : Z.lor _ 0xE0 = _).
    rewrite wrapu_small by dlia. lia.
  - exists (0xF0 :: le_bytes 4 n). split_and!; [|done|by auto]. cbn [app le_bytes].
    rewrite !land_255, !Z.shiftr_div_pow2, !Z.div_div by lia. done.
Qed.

(** The two decoders on the string encodings. *)
Lemma str_branch e b hdr n :
  load8 e 0 = Some b → is_byte b →
  (128 ≤ b < 192 ∧ hdr = 1 ∧ LP_ENCODING_6BIT_STR_LEN e 0 = Some n) ∨
  (224 ≤ b < 240 ∧ hdr = 2 ∧ LP_ENCODING_12BIT_STR_LEN e 0 = Some n) ∨
  (b = 0xF0 ∧ hdr = 5 ∧ LP_ENCODING_32BIT_STR_LEN e 0 = Some n) →
  lpCurrentEncodedSizeUnsafe e 0 = Some (u32 (hdr + n)) ∧
  lpGetWithSize e 0 None = Some (RetPtr hdr n, Some (hdr + n + zlen (lpEncodeBacklen (hdr + n)))).
Proof.
  unfold lpCurrentEncodedSizeUnsafe, lpGetWithSize. intros Hl Hb Hcase. rewrite Hl.
  cbn [mbind option_bind].
  destruct Hcase as [(Hr & -> & Hn)|[(Hr & -> & Hn)|(Hr & -> & Hn)]]; classify b;
    rewrite Hn; cbn [mbind option_bind]; rewrite (Z.add_comm n); done.
Qed.

Lemma enc_str_get s :
  Forall is_byte s → zlen s < 2 ^ 32 - 5 →
  let e := lpEncodeString s in let h := str_hdr (zlen s) in
  zlen e = h + zlen s ∧ valid_payload e ∧
  lpGetWithSize e 0 None =
    Some (RetPtr h (zlen s), Some (zlen e + zlen (lpEncodeBacklen (zlen e)))) ∧
  load e h (zlen s) = Some s.
Proof.
  intros Hs Hn. cbv zeta.
  destruct (enc_str_shape s) as (h & -> & Hh & Hcase); [lia|]. unfold valid_payload, LP_EOF.
  assert (Hload : load (h ++ s) (str_hdr (zlen s)) (zlen s) = Some s).
  { rewrite <- (app_nil_r s) at 1. by apply load_app. }
  assert (Hlen : zlen (h ++ s) = str_hdr (zlen s) + zlen s) by llia. rewrite Hlen.
  assert (str_hdr (zlen s) ≤ 5 ∧ 0 < str_hdr (zlen s)) by (unfold str_hdr; repeat case_match; lia).
  assert (∃ b h', h = b :: h' ∧ Forall is_byte h ∧ b ≠ 255 ∧
    ((128 ≤ b < 192 ∧ str_hdr (zlen s) = 1 ∧ LP_ENCODING_6BIT_STR_LEN (h ++ s) 0 = Some (zlen s)) ∨
     (224 ≤ b < 240 ∧ str_hdr (zlen s) = 2 ∧ LP_ENCODING_12BIT_STR_LEN (h ++ s) 0 = Some (zlen s)) ∨
     (b = 0xF0 ∧ str_hdr (zlen s) = 5 ∧ LP_ENCODING_32BIT_STR_LEN (h ++ s) 0 = Some (zlen s))))
    as (b & h' & -> & Hbytes & H255 & Hc).
  { rewrite <- Hh. destruct Hcase as [[Hl ->]|[[Hl ->]|[Hl ->]]].
    - exists (128 + zlen s), []. split_and!; [done|by repeat constructor; lia|lia|left].
      split_and!; [lia..|done|]. unfold LP_ENCODING_6BIT_STR_LEN.
      change (load8 (_ ++ s) 0) with (Some (128 + zlen s)). cbn [mbind option_bind]. f_equal.
      change 0x3F with (2 ^ 6 - 1). rewrite land_low by lia. dlia.
    - assert (0 ≤ zlen s / 256 < 16) by dlia. pose proof (Z.mod_pos_bound (zlen s) 256 ltac:(lia)).
      exists (224 + zlen s / 256), [zlen s mod 256].
      split_and!; [done|by repeat constructor; lia|lia|right; left].
      split_and!; [lia..|done|]. unfold LP_ENCODING_12BIT_STR_LEN.
      change (load8 (_ ++ s) 0) with (Some (224 + zlen s / 256)).
      change (load8 (_ ++ s) (0 + 1)) with (Some (zlen s mod 256)).
      cbn [mbind option_bind]. f_equal. change 0xF with (2 ^ 4 - 1).
      rewrite land_low, shiftl_lor_add by dlia. change (2 ^ 8) with 256.
      replace ((224 + zlen s / 256) mod 2 ^ 4) with (zlen s / 256) by dlia. dlia.
    - exists 0xF0, (le_bytes 4 (zlen s)).
      split_and!; [done|constructor; [unfold is_byte; lia|apply le_bytes_byte]|done|right; right].
      split_and!; [done|done|]. unfold LP_ENCODING_32BIT_STR_LEN, lp_le.
      rewrite (load_app [0xF0] (le_bytes 4 (zlen s)) s) by done. cbn [mbind option_bind].
      rewrite le_or_val, le_val_bytes, Z.mod_small by (apply le_bytes_byte || simpl; lia). done. }
  cbn [app] in *. inv Hbytes.
  destruct (str_branch (b :: h' ++ s) b (str_hdr (zlen s)) (zlen s)) as [Hsz Hg]; [done..|].
  split_and!; [done|constructor; [done|by apply Forall_app]|lia|naive_solver|..|done|done].
  rewrite Hsz, wrapu_small by lia. done.
Qed.

(** ** Elements *)

Lemma lpStringToInt64_string2ll s : lpStringToInt64 s = string2ll s.
Proof. unfold lpStringToInt64, string2ll. by rewrite (Z.eqb_sym (zlen s)). Qed.

(** The payload [lpInsert] stores for the string [s]. *)
Definition lp_encode (s : list Z) : list Z :=
  match lpEncodeGetType s with inl intenc => intenc | inr _ => lpEncodeString s end.

Lemma lp_encode_cases s :
  (∃ v, sfits 64 v ∧ s = sdec v ∧ lpEncodeGetType s = inl (lpEncodeIntegerGetType v) ∧
     lp_encode s = lpEncodeIntegerGetType v) ∨
  (string2ll s = None ∧ lpEncodeGetType s = inr (str_hdr (zlen s) + zlen s) ∧
   lp_encode s = lpEncodeString s).
Proof.
  unfold lp_encode, lpEncodeGetType. rewrite lpStringToInt64_string2ll.
  destruct (string2ll s) as [v|] eqn:E; [left|right].
  - apply string2ll_sound in E as [Hv ->]. eauto.
  - split_and!; [done| |done]. unfold str_hdr. repeat case_match; done.
Qed.

Lemma lp_encode_valid s :
  Forall is_byte s → zlen s < 2 ^ 32 - 5 →
  valid_payload (lp_encode s) ∧ elem_string <$> payload_value (lp_encode s) = Some s.
Proof.
  intros Hs Hn. unfold payload_value, lpGet.
  destruct (lp_encode_cases s) as [(v & Hv & -> & _ & ->)|(_ & _ & ->)].
  - rewrite (enc_int_get v Hv). split; [apply (enc_int_valid v Hv)|done].
  - destruct (enc_str_get s Hs Hn) as (_ & Hval & -> & Hload). split; [done|].
    cbn. by rewrite Hload.
Qed.

(** The string a caller of [lpGet] with an [intbuf] sees. *)
Definition ret_string (lp : list Z) (r : lp_ret) : option (list Z) :=
  match r with
  | RetPtr off n => load lp off n
  | RetBuf buf n => load buf 0 n
  | RetInt _ => None
  end.

(** Passing an [intbuf] changes only how an integer is returned. *)
Lemma get_intbuf lp p buf r sz :
  lpGetWithSize lp p None = Some (r, sz) →
  lpGetWithSize lp p (Some buf) =
    match r with
    | RetInt v => '(buf, count) ← ll2string buf LP_INTBUF_SIZE v; Some (RetBuf buf count, sz)
    | _ => Some (r, sz)
    end.
Proof.
  unfold lpGetWithSize, lp_ret_int. intros H. apply bind_Some in H as (b & -> & H).
  cbn [mbind option_bind] in *.
  repeat (match type of H with context [if ?t then _ else _] => destruct t end;
    [try (apply bind_Some in H as (m & -> & H)); cbn [mbind option_bind] in *; simplify_eq;
     cbn [mbind option_bind]; try done; by destruct (ll2string _ _ _) as [[]|]|]).
  simplify_eq/=. by destruct (ll2string _ _ _) as [[]|].
Qed.

Lemma element_read a s c buf :
  Forall is_byte s → zlen s < 2 ^ 32 - 5 → LP_INTBUF_SIZE ≤ zlen buf →
  let e := lp_encode s in let lp := a ++ e ++ c in
  ∃ r, lpGetWithSize lp (zlen a) (Some buf) =
         Some (r, Some (zlen e + zlen (lpEncodeBacklen (zlen e)))) ∧
    ret_string lp r = Some s.
Proof.
  intros Hs Hn Hbuf e lp. subst e lp. unfold LP_INTBUF_SIZE in *.
  destruct (lp_encode_cases s) as [(v & Hv & -> & _ & ->)|(_ & _ & ->)].
  - erewrite get_intbuf by (apply get_frame, enc_int_get, Hv). cbn [ret_shift].
    pose proof (sdec_pos_length v Hv). unfold LP_INTBUF_SIZE.
    rewrite ll2string_spec by (done || lia). cbn [mbind option_bind].
    eexists; split; [done|]. by apply (load_app []).
  - destruct (enc_str_get s Hs Hn) as (_ & _ & Hg & Hload).
    erewrite get_intbuf by (apply get_frame, Hg). cbn [ret_shift].
    eexists; split; [done|]. by apply load_frame.
Qed.

(** C12: whatever the surrounding bytes, an element stored in a listpack reads
    back as the same byte string through [lpGet] with an [intbuf], whether it
    was packed as an integer or as a string, and [entry_size] is the size of
    the whole entry. *)
Theorem lp_element_roundtrip a s c buf :
  Forall is_byte s → zlen s < 2 ^ 32 - 5 → LP_INTBUF_SIZE ≤ zlen buf →
  let e := lp_encode s in let lp := a ++ e ++ c in
  ∃ r, lpGetWithSize lp (zlen a) (Some buf) =
         Some (r, Some (zlen e + zlen (lpEncodeBacklen (zlen e)))) ∧
    ret_string lp r = Some s.
Proof. apply element_read. Qed.

(** The length field at the end of an entry is read backwards from its
    last byte alone and gives the payload length, whatever precedes it. *)
Lemma lpDecodeBacklen_correct a l c :
  0 ≤ l < 2 ^ 35 →
  lpDecodeBacklen (a ++ lpEncodeBacklen l ++ c) (zlen a + zlen (lpEncodeBacklen l) - 1) = Some l ∧
  1 ≤ zlen (lpEncodeBacklen l) ≤ LP_MAX_BACKLEN_SIZE.
Proof.
  intros Hl. split.
  - rewrite <- (decode_backlen a l c Hl). f_equal. llia.
  - rewrite lpEncodeBacklen_enc7, length_enc7. pose proof (backlen_digits_le l).
    unfold LP_MAX_BACKLEN_SIZE. lia.
Qed.

(** ** Witnesses *)

Lemma lp_element_witness :
  ∃ r, lpGetWithSize ([1; 2] ++ lp_encode (bytes_of "-4097") ++ [255]) 2 (Some (replicate 21 0)) =
         Some (r, Some 4) ∧
    ret_string ([1; 2] ++ lp_encode (bytes_of "-4097") ++ [255]) r = Some (bytes_of "-4097").
Proof.
  apply (lp_element_roundtrip [1; 2] (bytes_of "-4097") [255] (replicate 21 0)).
  - repeat constructor; unfold is_byte; lia.
  - reflexivity.
  - vm_compute. discriminate.
Defined.

Lemma lpDecodeBacklen_witness :
  lpDecodeBacklen ([9] ++ lpEncodeBacklen 20000 ++ [255]) 3 = Some 20000 ∧
  1 ≤ zlen (lpEncodeBacklen 20000) ≤ LP_MAX_BACKLEN_SIZE.
Proof. apply (lpDecodeBacklen_correct [9] 20000 [255]). lia. Defined.


End Listpack.
