(* ===== verification/ListpackNav.v ===== *)
(** * listpack.c: traversal and integrity checks

    A [Some None] result is the NULL pointer, [None] is a failed assertion or
    an access outside the block. *)

From S2P Require Import Prelude Util Listpack.
Import Util Listpack.

Module ListpackNav.

Definition lpGetTotalBytes (lp : list Z) : option Z := bs ← load lp 0 4; Some (le_or bs).
Definition lpGetNumElements (lp : list Z) : option Z := bs ← load lp 4 2; Some (le_or bs).

Definition lpSetTotalBytes (lp : list Z) (v : Z) : option (list Z) :=
  store lp 0 [Z.land v 0xff; Z.land (Z.shiftr v 8) 0xff; Z.land (Z.shiftr v 16) 0xff;
              Z.land (Z.shiftr v 24) 0xff].
Definition lpSetNumElements (lp : list Z) (v : Z) : option (list Z) :=
  store lp 4 [Z.land v 0xff; Z.land (Z.shiftr v 8) 0xff].

Definition lpBytes (lp : list Z) : option Z := lpGetTotalBytes lp.

Definition LISTPACK_MAX_SAFETY_SIZE : Z := Z.shiftl 1 30.
Definition lpSafeToAdd (lp : option (list Z)) (add : Z) : option bool :=
  len ← match lp with Some lp => lpGetTotalBytes lp | None => Some 0 end;
  Some (negb (u64 (len + add) >? LISTPACK_MAX_SAFETY_SIZE)).

Definition lpNew `{Allocator} (capacity : Z) : option (list Z) :=
  let n := if capacity >? LP_HDR_SIZE + 1 then capacity else LP_HDR_SIZE + 1 in
  let lp := fresh (usable (Z.to_nat n)) in
  lp ← lpSetTotalBytes lp (LP_HDR_SIZE + 1);
  lp ← lpSetNumElements lp 0;
  store lp LP_HDR_SIZE [LP_EOF].

Definition lpSkip (lp : list Z) (p : Z) : option Z :=
  entrylen ← lpCurrentEncodedSizeUnsafe lp p;
  let entrylen := entrylen + zlen (lpEncodeBacklen entrylen) in
  Some (p + entrylen).

(** Returns the C result and the new [*pp]. *)
Definition lpValidateNext (lp : list Z) (pp : option Z) (lpbytes : Z)
    : option (bool * option Z) :=
  let out_of_range p := (p <? LP_HDR_SIZE) || (p >? lpbytes - 1) in
  match pp with
  | None => Some (false, pp)
  | Some p =>
      if out_of_range p then Some (false, pp)
      else
        b ← load8 lp p;
        if b =? LP_EOF then Some (true, None)
        else
          lenbytes ← lpCurrentEncodedSizeBytes lp p;
          if lenbytes =? 0 then Some (false, pp)
          else if out_of_range (p + lenbytes) then Some (false, pp)
          else
            entrylen ← lpCurrentEncodedSizeUnsafe lp p;
            let encodedBacklen := zlen (lpEncodeBacklen entrylen) in
            let entrylen := entrylen + encodedBacklen in
            if out_of_range (p + entrylen) then Some (false, pp)
            else
              let p := p + entrylen in
              prevlen ← lpDecodeBacklen lp (p - 1);
              if negb (u64 (prevlen + encodedBacklen) =? entrylen) then Some (false, pp)
              else Some (true, Some p)
  end.

Definition lpAssertValidEntry (lp : list Z) (lpbytes p : Z) : option unit :=
  '(ok, _) ← lpValidateNext lp (Some p) lpbytes; assert ok.

Definition lpNext (lp : list Z) (p : Z) : option (option Z) :=
  p ← lpSkip lp p;
  b ← load8 lp p;
  if b =? LP_EOF then Some None
  else
    bytes ← lpBytes lp;
    _ ← lpAssertValidEntry lp bytes p;
    Some (Some p).

Definition lpPrev (lp : list Z) (p : Z) : option (option Z) :=
  if p =? LP_HDR_SIZE then Some None
  else
    let p := p - 1 in
    prevlen ← lpDecodeBacklen lp p;
    let prevlen := u64 (prevlen + zlen (lpEncodeBacklen prevlen)) in
    let p := p - (prevlen - 1) in
    bytes ← lpBytes lp;
    _ ← lpAssertValidEntry lp bytes p;
    Some (Some p).

Definition lpFirst (lp : list Z) : option (option Z) :=
  let p := LP_HDR_SIZE in
  b ← load8 lp p;
  if b =? LP_EOF then Some None
  else
    bytes ← lpBytes lp;
    _ ← lpAssertValidEntry lp bytes p;
    Some (Some p).

Definition lpLast (lp : list Z) : option (option Z) :=
  bytes ← lpGetTotalBytes lp;
  lpPrev lp (bytes - 1).

(** [while(p) { count++; p = lpNext(lp,p); }] *)
Fixpoint length_loop (fuel : nat) (lp : list Z) (p : option Z) (count : Z) : option Z :=
  match p with
  | None => Some count
  | Some p =>
      match fuel with
      | O => None
      | S fuel => p ← lpNext lp p; length_loop fuel lp p (u32 (count + 1))
      end
  end.

(** Returns the listpack, whose header may change, and the count. *)
Definition lpLength (lp : list Z) : option (list Z * Z) :=
  numele ← lpGetNumElements lp;
  if negb (numele =? LP_HDR_NUMELE_UNKNOWN) then Some (lp, numele)
  else
    p ← lpFirst lp;
    count ← length_loop (length lp) lp p 0;
    lp ← (if count <? LP_HDR_NUMELE_UNKNOWN then lpSetNumElements lp count else Some lp);
    Some (lp, count).

Fixpoint seek_fwd (fuel : nat) (lp : list Z) (index : Z) (ele : option Z) : option (option Z) :=
  match ele with
  | Some p =>
      if index >? 0 then
        match fuel with
        | O => None
        | S fuel => ele ← lpNext lp p; seek_fwd fuel lp (index - 1) ele
        end
      else Some ele
  | None => Some None
  end.

Fixpoint seek_bwd (fuel : nat) (lp : list Z) (index : Z) (ele : option Z) : option (option Z) :=
  match ele with
  | Some p =>
      if index <? -1 then
        match fuel with
        | O => None
        | S fuel => ele ← lpPrev lp p; seek_bwd fuel lp (index + 1) ele
        end
      else Some ele
  | None => Some None
  end.

Definition lpSeek (lp : list Z) (index : Z) : option (option Z) :=
  numele ← lpGetNumElements lp;
  let scan (forward : bool) (index : Z) :=
    if forward then ele ← lpFirst lp; seek_fwd (length lp) lp index ele
    else ele ← lpLast lp; seek_bwd (length lp) lp index ele in
  if negb (numele =? LP_HDR_NUMELE_UNKNOWN) then
    let index := if index <? 0 then numele + index else index in
    if index <? 0 then Some None
    else if index >=? numele then Some None
    else if index >? Z.quot numele 2 then scan false (index - numele)
    else scan true index
  else if index <? 0 then scan false index else scan true index.

Definition lpValidateFirst (lp : list Z) : option (option Z) :=
  let p := LP_HDR_SIZE in
  b ← load8 lp p;
  Some (if b =? LP_EOF then None else Some p).

Section validate.
(** [entry_cb(p, numele, cb_userdata)] returns its verdict and updates the
    user data; [None] is a NULL callback. *)
Context {U : Type} (entry_cb : option (Z → Z → U → bool * U)).

(** [while(p && p[0] != LP_EOF)]: the verdict, the final [p], [count] and
    the user data. *)
Fixpoint validate_entries (fuel : nat) (lp : list Z) (bytes numele : Z)
    (p : option Z) (count : Z) (u : U) : option (bool * option Z * Z * U) :=
  match p with
  | None => Some (true, None, count, u)
  | Some q =>
      b ← load8 lp q;
      if b =? LP_EOF then Some (true, p, count, u)
      else
        match fuel with
        | O => None
        | S fuel =>
            '(ok, p') ← lpValidateNext lp p bytes;
            if negb ok then Some (false, p', count, u)
            else
              let '(accept, u) :=
                match entry_cb with Some cb => cb q numele u | None => (true, u) end in
              if negb accept then Some (false, p', count, u)
              else validate_entries fuel lp bytes numele p' (u32 (count + 1)) u
        end
  end.

Definition lpValidateIntegrity (lp : list Z) (size : Z) (deep : bool) (u : U)
    : option (bool * U) :=
  if size <? LP_HDR_SIZE + 1 then Some (false, u)
  else
    bytes ← lpGetTotalBytes lp;
    if negb (bytes =? size) then Some (false, u)
    else
      last ← load8 lp (size - 1);
      if negb (last =? LP_EOF) then Some (false, u)
      else if negb deep then Some (true, u)
      else
        numele ← lpGetNumElements lp;
        '(ok, p, count, u) ← validate_entries (length lp) lp bytes numele (Some LP_HDR_SIZE) 0 u;
        if negb ok then Some (false, u)
        else if negb (bool_decide (p = Some (size - 1))) then Some (false, u)
        else if negb (numele =? LP_HDR_NUMELE_UNKNOWN) && negb (numele =? count)
             then Some (false, u)
        else Some (true, u).
End validate.

(** ** Representation: a listpack holds a list of payloads *)

Definition entry (e : list Z) : list Z := e ++ lpEncodeBacklen (zlen e).
Definition cat (es : list (list Z)) : list Z := concat (entry <$> es).
(** Offset of the entry that follows the entries [l]. *)
Definition pos (l : list (list Z)) : Z := LP_HDR_SIZE + zlen (cat l).
Definition total (es : list (list Z)) : Z := pos es + 1.

(** The bytes of a listpack with header count [n], and unused bytes behind. *)
Definition lp_image (n : Z) (es : list (list Z)) (slack : list Z) : list Z :=
  le_bytes 4 (total es) ++ le_bytes 2 n ++ cat es ++ LP_EOF :: slack.

(** The header count is exact or "unknown". *)
Definition numele_ok (n : Z) (es : list (list Z)) : Prop :=
  n = LP_HDR_NUMELE_UNKNOWN ∨ (n = zlen es ∧ n < LP_HDR_NUMELE_UNKNOWN).

Definition lp_rep (lp : list Z) (es : list (list Z)) : Prop :=
  Forall valid_payload es ∧ total es ≤ UINT32_MAX ∧
  ∃ n slack, numele_ok n es ∧ lp = lp_image n es slack.

Lemma cat_app l r : cat (l ++ r) = cat l ++ cat r.
Proof. unfold cat. by rewrite fmap_app, concat_app. Qed.
Lemma cat_cons e r : cat (e :: r) = entry e ++ cat r.
Proof. done. Qed.

Lemma pos_snoc l e : pos (l ++ [e]) = pos l + zlen e + zlen (lpEncodeBacklen (zlen e)).
Proof. unfold pos. rewrite cat_app, cat_cons. unfold entry. llia. Qed.

Lemma pos_app_cons l e r : pos (l ++ [e]) ≤ pos (l ++ e :: r).
Proof. unfold pos. rewrite !cat_app, !cat_cons. llia. Qed.

Lemma pos_ge l : 6 ≤ pos l.
Proof. unfold pos, LP_HDR_SIZE. lia. Qed.

(** The image around the entry at position [pos l]. *)
Lemma image_at n l e r slack :
  ∃ a, lp_image n (l ++ e :: r) slack =
         a ++ e ++ lpEncodeBacklen (zlen e) ++ cat r ++ LP_EOF :: slack ∧ zlen a = pos l.
Proof.
  exists (le_bytes 4 (total (l ++ e :: r)) ++ le_bytes 2 n ++ cat l). split.
  - unfold lp_image. rewrite cat_app, cat_cons. unfold entry. by rewrite <- !app_assoc.
  - unfold pos, LP_HDR_SIZE. llia.
Qed.

Lemma image_end n es slack :
  ∃ a, lp_image n es slack = a ++ LP_EOF :: slack ∧ zlen a = pos es.
Proof.
  exists (le_bytes 4 (total es) ++ le_bytes 2 n ++ cat es). split.
  - unfold lp_image. by rewrite <- !app_assoc.
  - unfold pos, LP_HDR_SIZE. llia.
Qed.

Lemma image_total n es slack :
  total es ≤ UINT32_MAX → lpGetTotalBytes (lp_image n es slack) = Some (total es).
Proof.
  intros Ht. unfold lpGetTotalBytes, lp_image. rewrite load_head by done.
  cbn [mbind option_bind]. rewrite le_or_val, le_val_bytes, Z.mod_small; [done| |apply le_bytes_byte].
  pose proof (pos_ge es). unfold total, UINT32_MAX in *. simpl. lia.
Qed.

Lemma image_numele n es slack :
  0 ≤ n ≤ UINT16_MAX → lpGetNumElements (lp_image n es slack) = Some n.
Proof.
  intros Hn. unfold lpGetNumElements, lp_image. rewrite load_app by done.
  cbn [mbind option_bind]. rewrite le_or_val, le_val_bytes, Z.mod_small; [done| |apply le_bytes_byte].
  unfold UINT16_MAX in *. simpl. lia.
Qed.

Lemma numele_range n es : numele_ok n es → 0 ≤ n ≤ UINT16_MAX.
Proof. unfold numele_ok, LP_HDR_NUMELE_UNKNOWN. ilia. Qed.

(** ** Valid payloads in place *)

Lemma valid_payload_head e :
  valid_payload e → ∃ b t, e = b :: t ∧ is_byte b ∧ b ≠ LP_EOF.
Proof.
  intros (Hb & Hl & Hh & _). destruct e as [|b t]; [simpl in Hl; lia|].
  inv Hb. exists b, t. split_and!; [done|done|]. intros ->. done.
Qed.

Lemma valid_sizeBytes e :
  valid_payload e → ∃ m, lpCurrentEncodedSizeBytes e 0 = Some m ∧ 0 < m ≤ zlen e.
Proof.
  intros Hv. destruct (valid_payload_head e Hv) as (b & t & -> & Hb & Hne).
  destruct Hv as (_ & _ & _ & Hs). revert Hs.
  unfold lpCurrentEncodedSizeUnsafe, lpCurrentEncodedSizeBytes, LP_ENCODING_12BIT_STR_LEN,
    LP_ENCODING_32BIT_STR_LEN, lp_le.
  change (load8 (b :: t) 0) with (Some b). cbn [mbind option_bind].
  intros Hs. eexists; split; [done|]. unfold LP_EOF in *. cbn [length] in *.
  repeat (match goal with |- context [if ?c then _ else _] => destruct c eqn:? end;
    [try (simplify_eq; lia)|]).
  - apply bind_Some in Hs as (n & E & _). apply bind_Some in E as (b1 & E & _).
    apply load8_Some in E. cbn [length] in E. lia.
  - apply bind_Some in Hs as (n & E & _). apply bind_Some in E as (bs & E & _).
    apply load_Some in E as (x & y & E & Hx & Hbs). apply (f_equal length) in E.
    rewrite !length_app in E. cbn [length] in E. lia.
  - simplify_eq.
Qed.

Lemma skip_spec n l e r slack :
  valid_payload e →
  lpSkip (lp_image n (l ++ e :: r) slack) (pos l) = Some (pos (l ++ [e])).
Proof.
  intros (_ & _ & _ & Hs). destruct (image_at n l e r slack) as (a & -> & Ha).
  unfold lpSkip. rewrite <- Ha, (sizeUnsafe_frame _ _ _ _ Hs). cbn [mbind option_bind].
  rewrite pos_snoc, Ha. f_equal. lia.
Qed.

(** The entry checks succeed on every entry and on the end marker. *)
Lemma validateNext_entry n l e r slack :
  valid_payload e → total (l ++ e :: r) ≤ UINT32_MAX →
  lpValidateNext (lp_image n (l ++ e :: r) slack) (Some (pos l)) (total (l ++ e :: r)) =
    Some (true, Some (pos (l ++ [e]))).
Proof.
  intros Hv Ht. pose proof (valid_payload_head e Hv) as (b & t & Hbt & Hb & Hne).
  pose proof (valid_sizeBytes e Hv) as (m & Hm & Hmr). destruct Hv as (_ & Hpos & _ & Hs).
  pose proof (pos_app_cons l e r) as Hle. rewrite pos_snoc in Hle |- *. pose proof (pos_ge l).
  unfold total in *. set (T := pos (l ++ e :: r)) in *.
  destruct (image_at n l e r slack) as (a & -> & Ha).
  set (c := cat r ++ LP_EOF :: slack). set (bl := lpEncodeBacklen (zlen e)) in *.
  assert (Hbl : 1 ≤ zlen bl) by (subst bl; rewrite lpEncodeBacklen_enc7, length_enc7; lia).
  assert (H8 : load8 (a ++ e ++ bl ++ c) (pos l) = Some b).
  { rewrite Hbt, <- Ha. by apply (load8_app a b (t ++ bl ++ c)). }
  unfold lpValidateNext, LP_HDR_SIZE. rewrite !Z.gtb_ltb.
  destruct (Z.ltb_spec (pos l) 6); [lia|]. destruct (Z.ltb_spec (T + 1 - 1) (pos l)); [lia|].
  cbn [orb]. rewrite H8. cbn [mbind option_bind]. destruct (Z.eqb_spec b LP_EOF); [done|].
  rewrite <- Ha, (sizeBytes_frame _ _ _ _ Hm). cbn [mbind option_bind]. rewrite Ha.
  destruct (Z.eqb_spec m 0); [lia|].
  destruct (Z.ltb_spec (pos l + m) 6); [lia|].
  destruct (Z.gtb_spec (pos l + m) (T + 1 - 1)); [lia|]. cbn [orb].
  rewrite <- Ha, (sizeUnsafe_frame _ _ _ _ Hs). cbn [mbind option_bind]. rewrite Ha. fold bl.
  destruct (Z.ltb_spec (pos l + (zlen e + zlen bl)) 6); [lia|].
  destruct (Z.gtb_spec (pos l + (zlen e + zlen bl)) (T + 1 - 1)); [lia|]. cbn [orb].
  rewrite (app_assoc a e).
  replace (pos l + (zlen e + zlen bl) - 1) with (zlen ((a ++ e) ++ bl) - 1) by llia.
  subst bl. rewrite decode_backlen by ilia. cbn [mbind option_bind].
  rewrite wrapu_small by ilia. rewrite Z.eqb_refl. cbn [negb]. do 3 f_equal. lia.
Qed.

Lemma validateNext_end n es slack :
  lpValidateNext (lp_image n es slack) (Some (pos es)) (total es) = Some (true, None).
Proof.
  unfold lpValidateNext, total, LP_HDR_SIZE. pose proof (pos_ge es). rewrite Z.gtb_ltb.
  destruct (Z.ltb_spec (pos es) 6); [lia|]. destruct (Z.ltb_spec (pos es + 1 - 1) (pos es)); [lia|].
  cbn [orb]. destruct (image_end n es slack) as (a & -> & Ha).
  rewrite load8_app by done. done.
Qed.


(** ** Cursors: the position of the [i]-th entry *)

Definition at_ (es : list (list Z)) (i : nat) : option Z :=
  if decide (i < length es)%nat then Some (pos (take i es)) else None.

(** The position before cursor [i]. *)
Definition before (es : list (list Z)) (i : nat) : option Z :=
  match i with O => None | S j => Some (pos (take j es)) end.

Section image.
Context (n : Z) (es : list (list Z)) (slack : list Z).
Context (Hes : Forall valid_payload es) (Ht : total es ≤ UINT32_MAX).
Let lp := lp_image n es slack.

Lemma split_at i :
  (i < length es)%nat →
  ∃ e r, es = take i es ++ e :: r ∧ valid_payload e ∧ take (S i) es = take i es ++ [e] ∧
    r = drop (S i) es.
Proof.
  intros Hi. destruct (lookup_lt_is_Some_2 es i Hi) as [e He].
  exists e, (drop (S i) es). split_and!; [by rewrite take_drop_middle|
    by eapply Forall_lookup_1|by apply take_S_r|done].
Qed.

Lemma pos_le_total i : pos (take i es) ≤ pos es.
Proof.
  rewrite <- (take_drop i es) at 2. unfold pos. rewrite cat_app, length_app. lia.
Qed.

Lemma entry_head i :
  (i < length es)%nat → ∃ b, load8 lp (pos (take i es)) = Some b ∧ b ≠ LP_EOF.
Proof.
  intros (e & r & Hs & Hv & _ & _)%split_at.
  destruct (valid_payload_head e Hv) as (b & t & -> & _ & Hb). exists b. split; [|done].
  unfold lp. rewrite Hs at 1. destruct (image_at n (take i es) (b :: t) r slack) as (a & -> & Ha).
  by apply load8_app.
Qed.

Lemma end_head : load8 lp (pos es) = Some LP_EOF.
Proof. unfold lp. destruct (image_end n es slack) as (a & -> & Ha). by apply load8_app. Qed.

Lemma next_pos i :
  (i < length es)%nat →
  lpSkip lp (pos (take i es)) = Some (pos (take (S i) es)) ∧
  lpValidateNext lp (Some (pos (take i es))) (total es) = Some (true, Some (pos (take (S i) es))).
Proof.
  intros (e & r & Hs & Hv & -> & _)%split_at.
  pose proof (skip_spec n (take i es) e r slack Hv) as Hk.
  pose proof (validateNext_entry n (take i es) e r slack Hv) as Hn.
  rewrite <- Hs in Hk, Hn. auto.
Qed.

Lemma assert_entry i :
  (i ≤ length es)%nat → lpAssertValidEntry lp (total es) (pos (take i es)) = Some tt.
Proof.
  intros Hi. unfold lpAssertValidEntry. destruct (decide (i < length es)%nat).
  - by destruct (next_pos i) as [_ ->].
  - rewrite take_ge by lia. unfold lp. by rewrite validateNext_end.
Qed.

(** Landing on cursor [i]: the end marker or a checked entry. *)
Lemma land_at i :
  (i ≤ length es)%nat →
  (b ← load8 lp (pos (take i es));
   if b =? LP_EOF then Some None
   else bytes ← lpBytes lp; _ ← lpAssertValidEntry lp bytes (pos (take i es));
        Some (Some (pos (take i es)))) = Some (at_ es i).
Proof.
  intros Hi. unfold at_. case_decide as Hlt.
  - destruct (entry_head i Hlt) as (b & -> & Hb). cbn [mbind option_bind].
    destruct (Z.eqb_spec b LP_EOF); [done|].
    unfold lpBytes, lp. rewrite image_total by done. cbn [mbind option_bind].
    fold lp. by rewrite assert_entry.
  - rewrite take_ge by lia. by rewrite end_head.
Qed.

Lemma next_at i :
  (i < length es)%nat → lpNext lp (pos (take i es)) = Some (at_ es (S i)).
Proof.
  intros Hi. unfold lpNext. destruct (next_pos i Hi) as [-> _]. cbn [mbind option_bind].
  apply land_at. lia.
Qed.

Lemma first_at : lpFirst lp = Some (at_ es 0).
Proof. exact (land_at 0 ltac:(lia)). Qed.

Lemma prev_at i :
  (i ≤ length es)%nat → lpPrev lp (pos (take i es)) = Some (before es i).
Proof.
  intros Hi. unfold lpPrev. destruct i as [|i]; [done|].
  destruct (split_at i) as (e & r & Hs & Hv & Hsnoc & _); [lia|].
  pose proof (pos_ge (take i es)). destruct Hv as (_ & Hpos & _).
  pose proof (pos_le_total (S i)) as Hpt. unfold total in *.
  rewrite Hsnoc, pos_snoc in Hpt |- *. set (bl := lpEncodeBacklen (zlen e)) in *.
  unfold LP_HDR_SIZE. destruct (Z.eqb_spec (pos (take i es) + zlen e + zlen bl) 6); [lia|].
  assert (lpDecodeBacklen lp (pos (take i es) + zlen e + zlen bl - 1) = Some (zlen e)) as ->.
  { unfold lp. rewrite Hs at 1. destruct (image_at n (take i es) e r slack) as (a & -> & Ha).
    rewrite (app_assoc a e), <- Ha.
    replace (zlen a + zlen e + zlen bl - 1) with (zlen ((a ++ e) ++ bl) - 1) by llia.
    apply decode_backlen. ilia. }
  cbn [mbind option_bind]. fold bl. rewrite wrapu_small by ilia.
  replace (_ - 1 - (zlen e + zlen bl - 1)) with (pos (take i es)) by lia.
  unfold lpBytes, lp. rewrite image_total by done. cbn [mbind option_bind].
  fold lp. by rewrite assert_entry by lia.
Qed.

Lemma last_at : lpLast lp = Some (before es (length es)).
Proof.
  unfold lpLast, lp. rewrite image_total by done. cbn [mbind option_bind]. fold lp.
  unfold total. replace (pos es + 1 - 1) with (pos (take (length es) es)).
  - by apply prev_at.
  - rewrite take_ge by lia. lia.
Qed.

(** Each entry takes at least two bytes. *)
Lemma count_le_cat : 2 * zlen es ≤ zlen (cat es).
Proof.
  clear Ht lp. induction es as [|e r IH]; [done|]. inv Hes as [|?? Hv Hr]. specialize (IH Hr). rewrite cat_cons. unfold entry.
  destruct Hv as (_ & Hl & _).
  rewrite lpEncodeBacklen_enc7. autorewrite with lens. rewrite length_enc7. lia.
Qed.

Lemma count_bounds : zlen es < 2 ^ 31 ∧ (length es ≤ length lp)%nat.
Proof.
  pose proof count_le_cat. revert Ht. unfold total, pos, LP_HDR_SIZE, lp, lp_image.
  split; [ilia|llia].
Qed.
End image.


Section loops.
Context (n : Z) (es : list (list Z)) (slack : list Z).
Context (Hes : Forall valid_payload es) (Ht : total es ≤ UINT32_MAX).
Let lp := lp_image n es slack.

Lemma length_loop_at fuel : ∀ i count,
  (i ≤ length es)%nat → (length es - i ≤ fuel)%nat →
  0 ≤ count → count + zlen es - Z.of_nat i < 2 ^ 32 →
  length_loop fuel lp (at_ es i) count = Some (count + zlen es - Z.of_nat i).
Proof.
  induction fuel as [|fuel IH]; intros i count Hi Hf Hc Hsum; simpl; unfold at_;
    case_decide; try lia; try (f_equal; lia).
  unfold lp. rewrite next_at by done. cbn [mbind option_bind].
  fold lp. rewrite wrapu_small by lia. rewrite IH by lia. f_equal. lia.
Qed.

Lemma seek_fwd_at fuel : ∀ i index,
  (i ≤ length es)%nat → (length es - i ≤ fuel)%nat → 0 ≤ index →
  seek_fwd fuel lp index (at_ es i) = Some (at_ es (i + Z.to_nat index)).
Proof.
  induction fuel as [|fuel IH]; intros i index Hi Hf H0; simpl; unfold at_ at 1;
    case_decide; try lia; rewrite ?Z.gtb_ltb.
  1,3: by unfold at_; rewrite decide_False by lia.
  destruct (Z.ltb_spec 0 index).
  - unfold lp. rewrite next_at by done. cbn [mbind option_bind]. fold lp.
    rewrite IH by lia. do 2 f_equal. lia.
  - replace (i + Z.to_nat index)%nat with i by lia. unfold at_. by rewrite decide_True by done.
Qed.

(** [before es i] moved back by [k] entries. *)
Lemma seek_bwd_at fuel : ∀ i k,
  (i ≤ length es)%nat → (i ≤ fuel)%nat →
  seek_bwd fuel lp (- Z.of_nat (S k)) (before es i) = Some (before es (i - k)).
Proof.
  induction fuel as [|fuel IH]; intros i k Hi Hf; (destruct i as [|i]; [done|]); [lia|].
  cbn [seek_bwd before]. destruct (Z.ltb_spec (- Z.of_nat (S k)) (-1)).
  - destruct k as [|k]; [lia|]. unfold lp. rewrite prev_at by (done || lia).
    cbn [mbind option_bind]. fold lp.
    replace (- Z.of_nat (S (S k)) + 1) with (- Z.of_nat (S k)) by lia.
    by rewrite IH by lia.
  - by replace k with 0%nat by lia.
Qed.

Lemma before_at i : (i < length es)%nat → before es (S i) = at_ es i.
Proof. intros. unfold at_. by rewrite decide_True. Qed.
End loops.

(** The entry a Redis style index names: negative from the tail. *)
Definition seek_spec (es : list (list Z)) (index : Z) : option Z :=
  let i := if index <? 0 then zlen es + index else index in
  if i <? 0 then None else at_ es (Z.to_nat i).

(** [lpSeek] finds the entry an index names, negative indexes from the
    tail, NULL when out of range, whether or not the header count is known and
    whichever end it starts from. *)
Lemma seek_rep lp es index :
  lp_rep lp es → lpSeek lp index = Some (seek_spec es index).
Proof.
  intros (Hes & Ht & n & slack & Hn & ->). unfold lpSeek.
  rewrite image_numele by (by eapply numele_range). cbn [mbind option_bind].
  destruct (count_bounds n es slack Hes Ht) as [Hcnt Hfuel].
  assert (Hfwd : ∀ i, 0 ≤ i → (ele ← lpFirst (lp_image n es slack);
    seek_fwd (length (lp_image n es slack)) (lp_image n es slack) i ele) = Some (at_ es (Z.to_nat i))).
  { intros i Hi. rewrite first_at by done. cbn [mbind option_bind].
    by rewrite seek_fwd_at by (done || lia). }
  assert (Hbwd : ∀ i, i < 0 → (ele ← lpLast (lp_image n es slack);
    seek_bwd (length (lp_image n es slack)) (lp_image n es slack) i ele) =
      Some (if zlen es + i <? 0 then None else at_ es (Z.to_nat (zlen es + i)))).
  { intros i Hi. rewrite last_at by done. cbn [mbind option_bind].
    replace i with (- Z.of_nat (S (Z.to_nat (- i - 1)))) at 1 by lia.
    rewrite seek_bwd_at by (done || lia). f_equal. destruct (Z.ltb_spec (zlen es + i) 0).
    - by replace (length es - _)%nat with 0%nat by lia.
    - replace (length es - _)%nat with (S (Z.to_nat (zlen es + i))) by lia.
      apply before_at; lia. }
  unfold seek_spec. destruct Hn as [->|[-> Hlt]].
  - rewrite Z.eqb_refl. cbn [negb]. destruct (Z.ltb_spec index 0); [by apply Hbwd|].
    rewrite Hfwd by done. destruct (Z.ltb_spec index 0); [lia|done].
  - destruct (Z.eqb_spec (zlen es) LP_HDR_NUMELE_UNKNOWN); [lia|]. cbn [negb].
    set (i := if index <? 0 then zlen es + index else index).
    destruct (Z.ltb_spec i 0); [done|]. rewrite Z.geb_leb.
    destruct (Z.leb_spec (zlen es) i).
    + unfold at_. by rewrite decide_False by lia.
    + destruct (_ >? _); [|by apply Hfwd].
      rewrite Hbwd by lia. destruct (Z.ltb_spec (zlen es + (i - zlen es)) 0); [lia|].
      do 3 f_equal. lia.
Qed.

Lemma traversal_rep lp es :
  lp_rep lp es →
  lpFirst lp = Some (at_ es 0) ∧
  lpLast lp = Some (before es (length es)) ∧
  (∀ i, (i < length es)%nat → lpNext lp (pos (take i es)) = Some (at_ es (S i))) ∧
  (∀ i, (i ≤ length es)%nat → lpPrev lp (pos (take i es)) = Some (before es i)).
Proof.
  intros (Hes & Ht & n & slack & Hn & ->). split_and!.
  - by apply first_at.
  - by apply last_at.
  - intros. by apply next_at.
  - intros. by apply prev_at.
Qed.

(** On every listpack that represents entries [es], [lpFirst], [lpNext],
    [lpPrev] and [lpLast] walk the entries in order in both directions and
    return NULL past either end; no assertion fails and no read leaves the
    block. *)
Lemma lp_traversal lp es :
  lp_rep lp es →
  lpFirst lp = Some (at_ es 0) ∧
  lpLast lp = Some (before es (length es)) ∧
  (∀ i, (i < length es)%nat → lpNext lp (pos (take i es)) = Some (at_ es (S i))) ∧
  (∀ i, (i ≤ length es)%nat → lpPrev lp (pos (take i es)) = Some (before es i)).
Proof. apply traversal_rep. Qed.

(** ** Header updates *)

Lemma le4_land v :
  [Z.land v 0xff; Z.land (Z.shiftr v 8) 0xff; Z.land (Z.shiftr v 16) 0xff;
   Z.land (Z.shiftr v 24) 0xff] = le_bytes 4 v.
Proof. cbn [le_bytes]. by rewrite !land_255, !Z.shiftr_div_pow2, !Z.div_div by lia. Qed.
Lemma le2_land v : [Z.land v 0xff; Z.land (Z.shiftr v 8) 0xff] = le_bytes 2 v.
Proof. cbn [le_bytes]. by rewrite !land_255, !Z.shiftr_div_pow2 by lia. Qed.

Lemma setTotalBytes_app old rest v :
  zlen old = 4 → lpSetTotalBytes (old ++ rest) v = Some (le_bytes 4 v ++ rest).
Proof. intros. unfold lpSetTotalBytes. rewrite le4_land. apply (store_app []); [done|llia]. Qed.

Lemma setNumElements_app t old rest v :
  zlen t = 4 → zlen old = 2 →
  lpSetNumElements (t ++ old ++ rest) v = Some (t ++ le_bytes 2 v ++ rest).
Proof. intros. unfold lpSetNumElements. rewrite le2_land. apply store_app; [done|llia]. Qed.

Lemma setNumElements_image n n' es slack :
  lpSetNumElements (lp_image n es slack) n' = Some (lp_image n' es slack).
Proof. apply setNumElements_app; by rewrite length_le_bytes. Qed.

Lemma lpNew_rep `{Allocator} capacity :
  ∃ lp, lpNew capacity = Some lp ∧ lp_rep lp [] ∧ capacity ≤ zlen lp.
Proof.
  unfold lpNew, LP_HDR_SIZE. set (c := if _ >? _ then _ else _).
  assert (Hc : 7 ≤ c ∧ capacity ≤ c).
  { subst c. rewrite Z.gtb_ltb. destruct (Z.ltb_spec (6 + 1) capacity); lia. }
  pose proof (usable_ge (Z.to_nat c)) as Hu. set (m := usable (Z.to_nat c)) in *.
  pose proof (length_fresh m) as Hf. set (f := fresh m) in *.
  assert (∃ t o x s, f = t ++ o ++ [x] ++ s ∧ zlen t = 4 ∧ zlen o = 2) as (t & o & x & s & E & Et & Eo).
  { exists (take 4 f), (take 2 (drop 4 f)).
    destruct (drop 6 f) as [|x s] eqn:Ex.
    { apply (f_equal length) in Ex. rewrite length_drop in Ex. simpl in Ex. lia. }
    exists x, s. split_and!; [|llia..].
    change ([x] ++ s) with (x :: s). rewrite <- Ex. change 6%nat with (4 + 2)%nat.
    rewrite <- drop_drop, take_drop, take_drop. done. }
  rewrite E, setTotalBytes_app by done. cbn [mbind option_bind].
  rewrite setNumElements_app by llia. cbn [mbind option_bind].
  rewrite app_assoc, (store_app (le_bytes 4 (6 + 1) ++ le_bytes 2 0) [x]) by done.
  eexists; split; [done|]. split.
  - split_and!; [done|done|]. exists 0, s. split; [by right|]. done.
  - rewrite E in Hf. llia.
Qed.

(** [lpLength] is the number of entries; the listpack it leaves represents
    the same entries and its header holds the count whenever the count fits. *)
Lemma length_rep lp es :
  lp_rep lp es →
  ∃ lp', lpLength lp = Some (lp', zlen es) ∧ lp_rep lp' es ∧
    lpGetNumElements lp' = Some (Z.min (zlen es) LP_HDR_NUMELE_UNKNOWN).
Proof.
  intros (Hes & Ht & n & slack & Hn & ->). unfold lpLength.
  rewrite image_numele by (by eapply numele_range). cbn [mbind option_bind].
  destruct (count_bounds n es slack Hes Ht) as [Hcnt Hfuel].
  pose proof (numele_range _ _ Hn). unfold LP_HDR_NUMELE_UNKNOWN in *.
  destruct Hn as [->|[-> Hlt]].
  - rewrite Z.eqb_refl. cbn [negb]. rewrite first_at by done. cbn [mbind option_bind].
    rewrite length_loop_at by (done || lia). cbn [mbind option_bind].
    replace (0 + zlen es - Z.of_nat 0) with (zlen es) by lia.
    unfold LP_HDR_NUMELE_UNKNOWN. destruct (Z.ltb_spec (zlen es) UINT16_MAX).
    + rewrite setNumElements_image. cbn [mbind option_bind]. eexists; split; [done|]. split.
      * split_and!; [done..|]. do 2 eexists; split; [|done]. by right.
      * rewrite image_numele by ilia. f_equal. lia.
    + cbn [mbind option_bind]. eexists; split; [done|]. split.
      * split_and!; [done..|]. do 2 eexists; split; [|done]. by left.
      * rewrite image_numele by ilia. f_equal. lia.
  - unfold LP_HDR_NUMELE_UNKNOWN in *. destruct (Z.eqb_spec (zlen es) UINT16_MAX); [lia|].
    cbn [negb]. eexists; split; [done|]. split.
    + split_and!; [done..|]. do 2 eexists; split; [|done]. by right.
    + rewrite image_numele by ilia. f_equal. lia.
Qed.

(** ** Validation of a well-formed listpack *)

Definition positions (es : list (list Z)) : list Z :=
  (λ i, pos (take i es)) <$> seq 0 (length es).

Section validate_rep.
Context {U : Type} (entry_cb : option (Z → Z → U → bool * U)).

(** The callback on successive entries, until it rejects one. *)
Fixpoint run_cb (numele : Z) (ps : list Z) (u : U) : bool * U :=
  match ps with
  | [] => (true, u)
  | p :: ps =>
      let '(ok, u) := match entry_cb with Some cb => cb p numele u | None => (true, u) end in
      if ok then run_cb numele ps u else (false, u)
  end.

Lemma validate_entries_at n es slack fuel :
  Forall valid_payload es → total es ≤ UINT32_MAX →
  ∀ i count u, (i ≤ length es)%nat → (length es - i ≤ fuel)%nat →
  0 ≤ count → count + zlen es - Z.of_nat i < 2 ^ 32 →
  ∃ ok p c u',
    validate_entries entry_cb fuel (lp_image n es slack) (total es) n (Some (pos (take i es))) count u =
      Some (ok, p, c, u') ∧
    run_cb n ((λ i, pos (take i es)) <$> seq i (length es - i)) u = (ok, u') ∧
    (ok = true → p = Some (pos es) ∧ c = count + zlen es - Z.of_nat i).
Proof.
  intros Hes Ht. induction fuel as [|fuel IH]; intros i count u Hi Hf Hc Hsum;
    (destruct (decide (i = length es)) as [->|Hne];
     [cbn [validate_entries]; rewrite take_ge, end_head, Nat.sub_diag by lia;
      cbn; do 4 eexists; split_and!; [done..|]; intros _; split; [done|lia]|]); [lia|].
  cbn [validate_entries]. destruct (entry_head n es slack Hes i ltac:(lia)) as (b & -> & Hb).
  cbn [mbind option_bind]. destruct (Z.eqb_spec b LP_EOF); [done|].
  destruct (next_pos n es slack Hes Ht i ltac:(lia)) as [_ ->]. cbn [mbind option_bind negb].
  replace (length es - i)%nat with (S (length es - S i)) by lia. cbn [seq fmap list_fmap run_cb].
  destruct (match entry_cb with Some cb => _ | None => _ end) as [[|] u'] eqn:E; cbn [negb].
  - rewrite wrapu_small by lia.
    destruct (IH (S i) (count + 1) u') as (ok & p & c & u'' & -> & -> & Hok); [lia..|].
    do 4 eexists; split_and!; [done..|]. intros ?. destruct (Hok ltac:(done)). split; [done|lia].
  - do 4 eexists; split_and!; done.
Qed.

Lemma validate_rep_gen lp es u :
  lp_rep lp es →
  lpValidateIntegrity entry_cb lp (total es) false u = Some (true, u) ∧
  ∃ n, lpGetNumElements lp = Some n ∧
    lpValidateIntegrity entry_cb lp (total es) true u = Some (run_cb n (positions es) u).
Proof.
  intros (Hes & Ht & n & slack & Hn & ->). unfold lpValidateIntegrity.
  pose proof (pos_ge es). destruct (count_bounds n es slack Hes Ht) as [Hcnt Hfuel].
  unfold LP_HDR_SIZE. destruct (Z.ltb_spec (total es) (6 + 1)); [unfold total in *; lia|].
  rewrite image_total by done. cbn [mbind option_bind]. rewrite Z.eqb_refl. cbn [negb].
  replace (total es - 1) with (pos es) by (unfold total; lia).
  rewrite end_head. cbn [mbind option_bind negb]. rewrite Z.eqb_refl. cbn [negb].
  split; [done|]. exists n. rewrite image_numele by (by eapply numele_range).
  cbn [mbind option_bind]. split; [done|].
  destruct (validate_entries_at n es slack (length (lp_image n es slack)) Hes Ht 0 0 u)
    as (ok & p & c & u' & Hv & Hrun & Hok); [lia..|].
  rewrite Nat.sub_0_r in Hrun. unfold positions. rewrite Hrun.
  change (pos (take 0 es)) with 6 in Hv. rewrite Hv. cbn [mbind option_bind].
  destruct ok; cbn [negb]; [|done]. destruct (Hok eq_refl) as [-> ->].
  rewrite bool_decide_true by done. cbn [negb].
  destruct Hn as [->|[-> _]]; [done|].
  replace (0 + zlen es - Z.of_nat 0) with (zlen es) by lia. rewrite Z.eqb_refl.
  cbn [negb]. by rewrite andb_false_r.
Qed.
End validate_rep.

(** C17: [lpValidateIntegrity] accepts every well-formed listpack, shallow and
    deep; with a callback the deep check runs it on the entries in order and
    returns its verdict. *)
Theorem lpValidateIntegrity_complete {U} (entry_cb : option (Z → Z → U → bool * U)) lp es u :
  lp_rep lp es →
  lpValidateIntegrity entry_cb lp (total es) false u = Some (true, u) ∧
  ∃ n, lpGetNumElements lp = Some n ∧
    lpValidateIntegrity entry_cb lp (total es) true u = Some (run_cb entry_cb n (positions es) u).
Proof. apply validate_rep_gen. Qed.


(** ** What an accepted block guarantees *)

Lemma lor_high_mod val x s :
  7 ≤ s → 0 ≤ x → (Z.lor val (u64 (Z.shiftl x s))) mod 128 = val mod 128.
Proof.
  intros Hs Hx. rewrite <- !land_127, Z.land_lor_distr_l, !land_127.
  unfold wrapu. rewrite Z.shiftl_mul_pow2 by lia.
  assert (((x * 2 ^ s) mod 2 ^ 64) mod 128 = 0) as ->; [|by rewrite Z.lor_0_r].
  change 128 with (2 ^ 7). rewrite Z.mod_mod_divide by (exists (2 ^ 57); lia).
  replace s with (s - 7 + 7) by lia. rewrite Z.pow_add_r, Z.mul_assoc by lia.
  by rewrite Z.mod_mul by lia.
Qed.

Lemma decode_loop_total lp fuel : Forall is_byte lp → ∀ p val shift,
  shift = 7 * (5 - Z.of_nat fuel) → (0 < fuel ≤ 5)%nat →
  Z.of_nat fuel - 1 ≤ p < zlen lp → 0 ≤ val < 2 ^ 64 →
  ∃ v, decode_backlen_loop fuel lp p val shift = Some v ∧ 0 ≤ v < 2 ^ 64 ∧
    (7 ≤ shift → v = UINT64_MAX ∨ v mod 128 = val mod 128).
Proof.
  intros Hb. induction fuel as [|fuel IH]; intros p val shift Hs Hf Hp Hv; [lia|].
  cbn [decode_backlen_loop]. destruct (load8_total lp p ltac:(lia)) as [b E]. rewrite E.
  cbn [mbind option_bind]. pose proof (load8_byte _ _ _ Hb E).
  assert (0 ≤ Z.land b 127) by (rewrite land_127; apply Z.mod_pos_bound; lia).
  set (val' := Z.lor val _). assert (0 ≤ val' < 2 ^ 64).
  { apply lor_range; [lia|done|]. apply wrapu_range. lia. }
  assert (7 ≤ shift → val' mod 128 = val mod 128) by (intros; by apply lor_high_mod).
  case_match; [eexists; split_and!; [done|lia..|]; intros; right; auto|].
  rewrite Z.gtb_ltb. destruct (Z.ltb_spec 28 (shift + 7)).
  { eexists. split; [done|]. split; [ilia|]. by left. }
  destruct (IH (p - 1) val' (shift + 7)) as (v & -> & Hr & Hm); [lia..|].
  exists v. split_and!; [done|lia..|]. intros Hs7. destruct Hm as [?|Hm]; [lia|by left|right].
  rewrite Hm. auto.
Qed.

Lemma decode_total lp p b :
  Forall is_byte lp → 4 ≤ p → load8 lp p = Some b →
  ∃ v, lpDecodeBacklen lp p = Some v ∧ 0 ≤ v < 2 ^ 64 ∧ (v = UINT64_MAX ∨ v mod 128 = b mod 128).
Proof.
  intros Hb Hp E. pose proof (load8_Some _ _ _ E). unfold lpDecodeBacklen.
  pose (f := 4%nat). change 5%nat with (S f). cbn [decode_backlen_loop]. rewrite E. cbn [mbind option_bind].
  rewrite Z.shiftl_0_r, Z.lor_0_l, land_127. rewrite wrapu_small by dlia.
  case_match; [eexists; split_and!; [done|dlia..|right; dlia]|].
  destruct (decode_loop_total lp 4 Hb (p - 1) (b mod 128) 7) as (v & Hv & Hr & Hm); [dlia..|].
  change (0 + 7 >? 28) with false. cbv iota. change (0 + 7) with 7. subst f. rewrite Hv.
  exists v. split_and!; [done|lia..|]. destruct Hm as [?|Hm]; [lia|by left|right; dlia].
Qed.

(** One checked step from the entry at [p] to what follows it at [q]. *)
Definition step_ok (lp : list Z) (bytes p q : Z) : Prop :=
  6 ≤ p < q ∧ q ≤ bytes - 1 ∧
  lpValidateNext lp (Some p) bytes = Some (true, Some q) ∧
  (∃ b m, load8 lp p = Some b ∧ b ≠ LP_EOF ∧ lpCurrentEncodedSizeBytes lp p = Some m ∧
     m ≠ 0 ∧ p + m ≤ bytes - 1) ∧
  ∃ L, lpCurrentEncodedSizeUnsafe lp p = Some L ∧ 0 ≤ L < 2 ^ 32 ∧
    q = p + (L + zlen (lpEncodeBacklen L)) ∧ lpDecodeBacklen lp (q - 1) = Some L.

Lemma backlen_size L : 1 ≤ zlen (lpEncodeBacklen L) ≤ 5.
Proof. rewrite lpEncodeBacklen_enc7, length_enc7. pose proof (backlen_digits_le L). lia. Qed.

Lemma sizeUnsafe_total lp p b m :
  Forall is_byte lp → load8 lp p = Some b → lpCurrentEncodedSizeBytes lp p = Some m →
  p + m < zlen lp → ∃ L, lpCurrentEncodedSizeUnsafe lp p = Some L ∧ 0 ≤ L < 2 ^ 32.
Proof.
  unfold lpCurrentEncodedSizeBytes, lpCurrentEncodedSizeUnsafe, LP_ENCODING_6BIT_STR_LEN,
    LP_ENCODING_12BIT_STR_LEN, LP_ENCODING_32BIT_STR_LEN, lp_le.
  intros Hb E. pose proof (load8_Some _ _ _ E). rewrite E. cbn [mbind option_bind].
  intros [= <-] Hm.
  assert (∀ x, 0 ≤ wrapu 32 x < 2 ^ 32) by (intros; by apply wrapu_range).
  repeat (case_match; [try (eexists; split; [done|]; auto; lia)|]).
  - destruct (load8_total lp (p + 1) ltac:(lia)) as [b1 ->]. cbn [mbind option_bind]. eauto.
  - destruct (load_total lp (p + 1) 4) as [bs ->]; [lia..|]. cbn [mbind option_bind]. eauto.
  - eexists; split; [done|lia].
Qed.


(** The entry check never leaves the block, and when it passes it is one step. *)
Lemma validateNext_total lp bytes p :
  Forall is_byte lp → bytes ≤ zlen lp → bytes ≤ UINT32_MAX → 6 ≤ p ≤ bytes - 1 →
  ∃ ok pp, lpValidateNext lp (Some p) bytes = Some (ok, pp) ∧
    (ok = true → load8 lp p ≠ Some LP_EOF → ∃ q, pp = Some q ∧ step_ok lp bytes p q).
Proof.
  intros Hb Hlen Hmax Hp. unfold step_ok, lpValidateNext, LP_HDR_SIZE.
  destruct (Z.ltb_spec p 6); [lia|]. destruct (Z.gtb_spec p (bytes - 1)); [lia|]. cbn [orb].
  destruct (load8_total lp p ltac:(lia)) as [b E]. rewrite E. cbn [mbind option_bind].
  destruct (Z.eqb_spec b LP_EOF) as [->|Hne]; [by do 2 eexists|].
  assert (∃ m, lpCurrentEncodedSizeBytes lp p = Some m ∧ 0 ≤ m) as (m & Em & Hm0).
  { unfold lpCurrentEncodedSizeBytes. rewrite E. cbn [mbind option_bind].
    eexists; split; [done|]. repeat case_match; lia. }
  rewrite Em. cbn [mbind option_bind].
  destruct (Z.eqb_spec m 0) as [|Hm]; [by do 2 eexists|].
  destruct (Z.ltb_spec (p + m) 6); [lia|].
  destruct (Z.gtb_spec (p + m) (bytes - 1)); cbn [orb]; [by do 2 eexists|].
  destruct (sizeUnsafe_total lp p b m) as (L & EL & HL); [done..|lia|].
  rewrite EL. cbn [mbind option_bind]. pose proof (backlen_size L) as Hk.
  set (k := zlen (lpEncodeBacklen L)) in *.
  destruct (Z.ltb_spec (p + (L + k)) 6); [lia|].
  destruct (Z.gtb_spec (p + (L + k)) (bytes - 1)); cbn [orb]; [by do 2 eexists|].
  destruct (load8_total lp (p + (L + k) - 1) ltac:(lia)) as [c Ec].
  destruct (decode_total lp (p + (L + k) - 1) c Hb ltac:(lia) Ec) as (v & Hv & Hvr & _). rewrite Hv.
  cbn [mbind option_bind].
  destruct (Z.eqb_spec (wrapu 64 (v + k)) (L + k)) as [Heq|]; cbn [negb]; [|by do 2 eexists].
  assert (v = L) as ->.
  { unfold wrapu in Heq. destruct (decide (v + k < 2 ^ 64)); [rewrite Z.mod_small in Heq; lia|].
    replace (v + k) with (v + k - 2 ^ 64 + 1 * 2 ^ 64) in Heq by lia.
    rewrite Z.mod_add, Z.mod_small in Heq; lia. }
  do 2 eexists. split; [done|]. intros _ _. eexists. split; [done|].
  split_and!; [lia..|done| |]; eauto 10.
Qed.

(** A listpack string whose 32-bit length wraps is refused: the length bytes
    cannot double as the backward length. *)
Lemma wrapped_length_rejected lp p bs L v :
  Forall is_byte lp → 6 ≤ p → load8 lp p = Some 0xF0 → load lp (p + 1) 4 = Some bs →
  L = u32 (5 + le_val bs) → 2 ^ 32 ≤ 5 + le_val bs → zlen (lpEncodeBacklen L) = 1 →
  lpDecodeBacklen lp (p + L) = Some v → v ≠ L.
Proof.
  intros Hb Hp E0 Ebs HL Hov Hk Hd ->.
  apply load_Some in Ebs as (x & y & -> & Hx & Hbs).
  pose proof Hb as Hall. apply Forall_app in Hb as [Hbx Hb]. apply Forall_app in Hb as [Hbb Hby].
  pose proof (le_val_range bs Hbb) as Hr. rewrite <- Hbs in Hr. change (2 ^ (8 * 4)) with (2 ^ 32) in Hr.
  rewrite HL in Hd. pose proof (le_bytes_val bs Hbb) as Hle.
  destruct bs as [|b1 [|b2 [|b3 [|b4 [|b5 bs]]]]]; simpl in Hbs; try lia.
  assert (∃ j, 0 ≤ j ≤ 4 ∧ le_val [b1; b2; b3; b4] = 2 ^ 32 - 5 + j) as (j & Hj & Hjv).
  { exists (le_val [b1; b2; b3; b4] - (2 ^ 32 - 5)). lia. }
  rewrite Hjv in *. replace (wrapu 32 (5 + (2 ^ 32 - 5 + j))) with j in Hd
    by (unfold wrapu; dlia).
  assert (∃ c, load8 (x ++ [b1; b2; b3; b4] ++ y) (p + j) = Some c ∧ c mod 128 ≠ j mod 128)
    as (c & Ec & Hc).
  { assert (j = 0 ∨ j = 1 ∨ j = 2 ∨ j = 3 ∨ j = 4) as Hcase by lia.
    destruct Hcase as [-> | [-> | [-> | [-> | ->]]]]; vm_compute in Hle; injection Hle as <- <- <- <-.
    1: by exists 0xF0; rewrite Z.add_0_r.
    all: match goal with |- ∃ _, load8 (?x ++ _) (?p + ?k) = _ ∧ _ =>
           replace (p + k) with (zlen x + (k - 1)) by lia end;
         eexists; (split; [apply load8_frame; reflexivity|done]). }
  destruct (decode_total _ (p + j) c Hall ltac:(lia) Ec)
    as (v' & Hv' & _ & Hcase).
  rewrite Hv' in Hd. injection Hd as ->. destruct Hcase as [Hcase|Hcase].
  - ilia.
  - congruence.
Qed.


(** Where [lpGet] may point for the entry that spans [p, q). *)
Definition inside (p q : Z) (r : lp_ret) : Prop :=
  match r with
  | RetPtr off len => p < off ∧ 0 ≤ len ∧ off + len < q
  | RetInt _ => True
  | RetBuf _ _ => False
  end.

Lemma step_get lp bytes p q :
  Forall is_byte lp → bytes ≤ zlen lp → step_ok lp bytes p q →
  ∃ r, lpGet lp p None = Some r ∧ inside p q r.
Proof.
  intros Hb Hlen (Hp & Hq & _ & (b & m & E & Hne & Em & Hm & Hpm) & L & EL & HL & Hqe & Hd).
  pose proof (backlen_size L) as Hk. pose proof (load8_byte _ _ _ Hb E) as Hbb.
  unfold lpGet, lpGetWithSize, lp_ret_int. rewrite E. cbn [mbind option_bind].
  unfold lpCurrentEncodedSizeUnsafe in EL. unfold lpCurrentEncodedSizeBytes in Em.
  rewrite E in EL, Em. cbn [mbind option_bind] in EL, Em. injection Em as <-.
  assert (Hint : ∀ n, 0 ≤ n → n < L → ∃ v, lp_le lp p n = Some v).
  { intros n Hn HnL. unfold lp_le. destruct (load_total lp (p + 1) n) as [bs ->]; [lia..|]. by eexists. }
  destruct (LP_ENCODING_IS_7BIT_UINT b); [by eexists|].
  destruct (LP_ENCODING_IS_6BIT_STR b).
  { unfold LP_ENCODING_6BIT_STR_LEN in *. rewrite E in EL |- *. cbn [mbind option_bind] in *.
    eexists. split; [done|]. simpl. change 63 with (2 ^ 6 - 1) in *. rewrite land_low in EL |- * by lia.
    pose proof (Z.mod_pos_bound b (2 ^ 6) ltac:(lia)). rewrite wrapu_small in EL by lia.
    injection EL as <-. lia. }
  destruct (LP_ENCODING_IS_13BIT_INT b).
  { injection EL as <-. destruct (load8_total lp (p + 1) ltac:(lia)) as [b1 ->]. by eexists. }
  destruct (LP_ENCODING_IS_16BIT_INT b).
  { injection EL as <-. destruct (Hint 2) as [v ->]; [lia..|by eexists]. }
  destruct (LP_ENCODING_IS_24BIT_INT b).
  { injection EL as <-. destruct (Hint 3) as [v ->]; [lia..|by eexists]. }
  destruct (LP_ENCODING_IS_32BIT_INT b).
  { injection EL as <-. destruct (Hint 4) as [v ->]; [lia..|by eexists]. }
  destruct (LP_ENCODING_IS_64BIT_INT b).
  { injection EL as <-. destruct (Hint 8) as [v ->]; [lia..|by eexists]. }
  destruct (LP_ENCODING_IS_12BIT_STR b).
  { unfold LP_ENCODING_12BIT_STR_LEN in *. rewrite E in EL |- *.
    destruct (load8_total lp (p + 1) ltac:(lia)) as [b1 E1]. rewrite E1 in EL |- *.
    pose proof (load8_byte _ _ _ Hb E1) as Hb1. unfold is_byte in Hb1. cbn [mbind option_bind] in *.
    eexists. split; [done|]. simpl. change 15 with (2 ^ 4 - 1) in *.
    rewrite land_low, shiftl_lor_add in EL |- * by lia.
    pose proof (Z.mod_pos_bound b (2 ^ 4) ltac:(lia)). rewrite wrapu_small in EL by lia.
    injection EL as <-. lia. }
  destruct (LP_ENCODING_IS_32BIT_STR b) eqn:Etag.
  - unfold LP_ENCODING_32BIT_STR_LEN, lp_le in *.
    destruct (load_total lp (p + 1) 4) as [bs Ebs]; [lia..|]. rewrite Ebs in EL |- *.
    cbn [mbind option_bind] in *. assert (Hbs : Forall is_byte bs).
    { pose proof Ebs as (x & y & -> & _)%load_Some. apply Forall_app in Hb as [_ Hb].
      by apply Forall_app in Hb as [? _]. }
    rewrite le_or_val in EL |- * by done. pose proof (le_val_range bs Hbs) as Hr.
    apply load_Some in Ebs as Ebs'. destruct Ebs' as (_ & _ & _ & _ & H4).
    rewrite <- H4 in Hr. change (2 ^ (8 * 4)) with (2 ^ 32) in Hr. injection EL as HLe.
    destruct (decide (2 ^ 32 ≤ 5 + le_val bs)) as [Hov|Hno].
    + exfalso. assert (b = 0xF0) as ->.
      { unfold LP_ENCODING_IS_32BIT_STR in Etag. rewrite is_tag in Etag by done. by apply Z.eqb_eq. }
      assert (HL4 : L ≤ 4).
      { rewrite <- HLe. unfold wrapu. replace (5 + le_val bs) with (5 + le_val bs - 2 ^ 32 + 1 * 2 ^ 32) by lia.
        rewrite Z.mod_add, Z.mod_small; lia. }
      assert (Hk1 : zlen (lpEncodeBacklen L) = 1).
      { unfold lpEncodeBacklen. destruct (Z.leb_spec L 127); [done|lia]. }
      eapply (wrapped_length_rejected lp p bs L L); eauto; [lia|].
      rewrite <- Hd. f_equal. lia.
    + rewrite wrapu_small in HLe by lia. eexists. split; [done|]. simpl. lia.
  - by eexists.
Qed.

(** The entries found by successive steps from [p] to the end marker. *)
Fixpoint walk (lp : list Z) (bytes p : Z) (ps : list Z) : Prop :=
  match ps with
  | [] => p = bytes - 1
  | x :: ps => x = p ∧ ∃ q, step_ok lp bytes p q ∧ walk lp bytes q ps
  end.

Lemma validate_entries_sound {U} (cb : option (Z → Z → U → bool * U)) lp bytes numele fuel :
  Forall is_byte lp → bytes ≤ zlen lp → bytes ≤ UINT32_MAX → load8 lp (bytes - 1) = Some LP_EOF →
  ∀ p count u, 6 ≤ p ≤ bytes - 1 → bytes - p ≤ Z.of_nat fuel → 0 ≤ count → count + (bytes - p) < 2 ^ 32 →
  ∃ ok pp c u', validate_entries cb fuel lp bytes numele (Some p) count u = Some (ok, pp, c, u') ∧
    (ok = true → pp = Some (bytes - 1) → ∃ ps, walk lp bytes p ps ∧ c = count + zlen ps).
Proof.
  intros Hb Hlen Hmax Hend. induction fuel as [|fuel IH]; intros p count u Hp Hf Hc Hsum; [lia|].
  cbn [validate_entries]. destruct (load8_total lp p ltac:(lia)) as [b E]. rewrite E.
  cbn [mbind option_bind]. destruct (Z.eqb_spec b LP_EOF) as [->|Hne].
  { do 4 eexists; split; [done|]. intros _ [= ->]. exists []. split; [done|simpl; lia]. }
  destruct (validateNext_total lp bytes p Hb Hlen Hmax Hp) as (ok & pp & -> & Hstep).
  cbn [mbind option_bind]. destruct ok; cbn [negb]; [|by do 4 eexists].
  destruct Hstep as (q & -> & Hs); [done|congruence|].
  destruct (match cb with Some _ => _ | None => _ end) as [[|] u1]; cbn [negb]; [|by do 4 eexists].
  pose proof Hs as (? & ? & _). rewrite wrapu_small by lia.
  destruct (IH q (count + 1) u1) as (ok & pp & c & u' & -> & Hok); [lia..|].
  do 4 eexists; split; [done|]. intros ? ?. destruct (Hok ltac:(done) ltac:(done)) as (ps & Hw & ->).
  exists (p :: ps). split; [by simpl; eauto|]. simpl. lia.
Qed.


Section walks.
Context (lp : list Z) (bytes : Z).
Context (Hbytes : lpGetTotalBytes lp = Some bytes) (Hend : load8 lp (bytes - 1) = Some LP_EOF).
Context (Hmin : 7 ≤ bytes).

(** [p] is a checked entry or the end marker. *)
Definition landing (p : Z) : Prop := p = bytes - 1 ∨ ∃ q, step_ok lp bytes p q.

Lemma landing_result p :
  landing p →
  (b ← load8 lp p;
   if b =? LP_EOF then Some None
   else n ← lpBytes lp; _ ← lpAssertValidEntry lp n p; Some (Some p)) =
  Some (if decide (p = bytes - 1) then None else Some p).
Proof.
  intros [->|(q & Hp & Hq & Hv & (b & m & E & Hne & _) & _)].
  - rewrite Hend, decide_True by done. done.
  - rewrite E, decide_False by lia. cbn [mbind option_bind].
    destruct (Z.eqb_spec b LP_EOF); [done|]. unfold lpBytes. rewrite Hbytes.
    cbn [mbind option_bind]. unfold lpAssertValidEntry. by rewrite Hv.
Qed.

Lemma step_next p q :
  step_ok lp bytes p q → landing q →
  lpNext lp p = Some (if decide (q = bytes - 1) then None else Some q).
Proof.
  intros (_ & _ & _ & _ & L & EL & _ & -> & _) Hl. unfold lpNext, lpSkip. rewrite EL.
  cbn [mbind option_bind]. by apply landing_result.
Qed.

Lemma step_prev p q : bytes ≤ UINT32_MAX → step_ok lp bytes p q → lpPrev lp q = Some (Some p).
Proof.
  intros Hmax (Hp & Hq & Hv & _ & L & _ & HL & Hqe & Hd). pose proof (backlen_size L).
  unfold lpPrev, LP_HDR_SIZE. destruct (Z.eqb_spec q 6); [lia|]. rewrite Hd.
  cbn [mbind option_bind]. rewrite wrapu_small by ilia. unfold lpBytes. rewrite Hbytes.
  cbn [mbind option_bind]. replace (q - 1 - _) with p by lia.
  unfold lpAssertValidEntry. by rewrite Hv.
Qed.

Lemma walk_landing p ps : walk lp bytes p ps → landing p.
Proof. destruct ps as [|x ps]; [by left|]. intros [_ (q & Hs & _)]. right. eauto. Qed.

Lemma walk_head p ps : 6 ≤ p → walk lp bytes p ps →
  (if decide (p = bytes - 1) then None else Some p) = ps !! 0%nat.
Proof.
  intros Hp. destruct ps as [|x ps]; simpl; [intros ->; by rewrite decide_True|].
  intros [-> (q & (H1 & H2 & _) & _)]. by rewrite decide_False by lia.
Qed.

Lemma walk_lookup ps : ∀ p i x, walk lp bytes p ps → ps !! i = Some x →
  ∃ q, step_ok lp bytes x q ∧ walk lp bytes q (drop (S i) ps).
Proof.
  induction ps as [|y ps IH]; intros p [|i] x Hw Hx; simplify_eq/=.
  - destruct Hw as [-> (q & ? & ?)]. eauto.
  - destruct Hw as [-> (q & ? & ?)]. eauto.
Qed.

Lemma walk_prev ps : ∀ p, bytes ≤ UINT32_MAX → walk lp bytes p ps →
  (∀ i x, ps !! S i = Some x → lpPrev lp x = Some (ps !! i)) ∧
  (ps ≠ [] → lpPrev lp (bytes - 1) = Some (last ps)).
Proof.
  induction ps as [|y ps IH]; intros p Hmax Hw; [done|]. destruct Hw as [-> (q & Hs & Hw)].
  destruct (IH q Hmax Hw) as [IH1 IH2]. pose proof (step_prev p q Hmax Hs) as Hprev. split.
  - intros [|i] x Hx; [|by apply IH1]. simpl in *. destruct ps as [|z ps]; [done|].
    destruct Hw as [-> _]. by simplify_eq/=.
  - intros _. destruct ps as [|z ps]; [|by apply IH2]. simpl in Hw. by subst q.
Qed.
End walks.

Lemma getTotalBytes_total lp :
  Forall is_byte lp → 4 ≤ zlen lp → ∃ n, lpGetTotalBytes lp = Some n ∧ 0 ≤ n ≤ UINT32_MAX.
Proof.
  intros Hb Hl. unfold lpGetTotalBytes. destruct (load_total lp 0 4) as [bs E]; [lia..|]. rewrite E.
  cbn [mbind option_bind]. apply load_Some in E as (x & y & -> & _ & Hbs).
  apply Forall_app in Hb as [_ Hb]. apply Forall_app in Hb as [Hb _].
  rewrite le_or_val by done. pose proof (le_val_range bs Hb) as Hr. rewrite <- Hbs in Hr.
  change (2 ^ (8 * 4)) with (2 ^ 32) in Hr. eexists; split; [done|ilia].
Qed.

(** C18: [lpValidateIntegrity] reads only the [size] bytes it is given and
    terminates, whatever they hold.  When the deep check accepts, the block can
    be walked safely with the unchecked operations: the entries are found in
    the same order from both ends, no assertion fails, every element
    [lpGet] returns lies between its entry and the end marker, and a known
    header count is the number of entries. *)
Theorem lpValidateIntegrity_sound {U} (entry_cb : option (Z → Z → U → bool * U)) lp size u :
  Forall is_byte lp → size ≤ zlen lp →
  ∃ ok u', lpValidateIntegrity entry_cb lp size true u = Some (ok, u') ∧
    (ok = true → ∃ ps,
       lpFirst lp = Some (ps !! 0%nat) ∧ lpLast lp = Some (last ps) ∧
       (∀ i p, ps !! i = Some p →
          6 ≤ p < size - 1 ∧ lpNext lp p = Some (ps !! S i) ∧
          lpPrev lp p = Some (match i with O => None | S j => ps !! j end) ∧
          ∃ r, lpGet lp p None = Some r ∧ inside p (size - 1) r) ∧
       ∃ n, lpGetNumElements lp = Some n ∧ (n = LP_HDR_NUMELE_UNKNOWN ∨ n = zlen ps)).
Proof.
  intros Hb Hlen. unfold lpValidateIntegrity, LP_HDR_SIZE.
  destruct (Z.ltb_spec size (6 + 1)); [by do 2 eexists|].
  destruct (getTotalBytes_total lp Hb ltac:(lia)) as (bytes & Ebytes & Hmax). rewrite Ebytes.
  cbn [mbind option_bind]. destruct (Z.eqb_spec bytes size) as [->|]; cbn [negb]; [|by do 2 eexists].
  destruct (load8_total lp (size - 1) ltac:(lia)) as [last_ Eend]. rewrite Eend.
  cbn [mbind option_bind]. destruct (Z.eqb_spec last_ LP_EOF) as [->|]; cbn [negb]; [|by do 2 eexists].
  destruct (load_total lp 4 2) as [nb Enb]; [lia..|]. unfold lpGetNumElements. rewrite Enb.
  cbn [mbind option_bind]. set (n := le_or nb).
  destruct (validate_entries_sound entry_cb lp size n (length lp) Hb Hlen ltac:(lia) Eend 6 0 u)
    as (ok & pp & c & u' & -> & Hok); [ilia..|]. cbn [mbind option_bind].
  destruct ok; cbn [negb]; [|by do 2 eexists].
  case_bool_decide as Hpp; cbn [negb]; [|by do 2 eexists]. subst pp.
  destruct (Hok eq_refl eq_refl) as (ps & Hw & ->). clear Hok.
  set (guard := _ && _). destruct guard eqn:Eg; [by do 2 eexists|]. subst guard.
  do 2 eexists. split; [done|]. intros _. exists ps. split_and!.
  - rewrite <- (walk_head lp size 6 ps) by (done || lia).
    unfold lpFirst, LP_HDR_SIZE.
    exact (landing_result lp size Ebytes Eend 6 (walk_landing lp size 6 ps Hw)).
  - unfold lpLast. rewrite Ebytes. cbn [mbind option_bind]. destruct ps as [|x ps].
    + simpl in Hw. unfold lpPrev, LP_HDR_SIZE. by rewrite <- Hw.
    + by apply (walk_prev lp size Ebytes (x :: ps) 6 (proj2 Hmax) Hw).
  - intros i p Hi. destruct (walk_lookup lp size ps 6 i p Hw Hi) as (q & Hs & Hwq).
    pose proof Hs as (H1 & H2 & _). split_and!; [lia..| | |].
    + rewrite (step_next lp size Ebytes Eend p q Hs (walk_landing _ _ _ _ Hwq)).
      rewrite (walk_head lp size q _ ltac:(lia) Hwq), lookup_drop. do 2 f_equal. lia.
    + destruct i as [|i]; [|by apply (walk_prev lp size Ebytes ps 6 (proj2 Hmax) Hw)].
      destruct ps as [|x ps]; simplify_eq/=. destruct Hw as [-> _].
      unfold lpPrev, LP_HDR_SIZE. done.
    + destruct (step_get lp size p q Hb Hlen Hs) as (r & Hr & Hin). exists r. split; [done|].
      destruct r; simpl in *; [lia|done..].
  - exists n. split; [done|]. rewrite Z.add_0_l in Eg.
    destruct (Z.eqb_spec n LP_HDR_NUMELE_UNKNOWN); [by left|].
    destruct (Z.eqb_spec n (zlen ps)); [by right|done].
Qed.


(** ** Witnesses *)

Definition demo_elements : list (list Z) :=
  lp_encode <$> [bytes_of "hello"; bytes_of "1024"; bytes_of "-3"].
Definition demo : list Z := lp_image 3 demo_elements [0; 0].

Lemma demo_rep : lp_rep demo demo_elements.
Proof.
  split_and!.
  - repeat apply Forall_cons_2; [..|by apply Forall_nil_2]; apply lp_encode_valid;
      by apply (bool_decide_unpack _).
  - by vm_compute.
  - exists 3, [0; 0]. split; [by right|done].
Qed.

(** Counting the entries with the callback. *)
Definition count_cb : option (Z → Z → Z → bool * Z) := Some (λ _ _ c, (true, c + 1)).

Lemma lpValidateIntegrity_complete_witness :
  lpValidateIntegrity count_cb demo (total demo_elements) false 0 = Some (true, 0) ∧
  ∃ n, lpGetNumElements demo = Some n ∧
    lpValidateIntegrity count_cb demo (total demo_elements) true 0 =
      Some (run_cb count_cb n (positions demo_elements) 0).
Proof. apply (lpValidateIntegrity_complete count_cb demo demo_elements 0). apply demo_rep. Defined.

Lemma lpValidateIntegrity_sound_witness :
  ∃ ok u', lpValidateIntegrity count_cb demo 20 true 0 = Some (ok, u') ∧
    (ok = true → ∃ ps,
       lpFirst demo = Some (ps !! 0%nat) ∧ lpLast demo = Some (last ps) ∧
       (∀ i p, ps !! i = Some p →
          6 ≤ p < 20 - 1 ∧ lpNext demo p = Some (ps !! S i) ∧
          lpPrev demo p = Some (match i with O => None | S j => ps !! j end) ∧
          ∃ r, lpGet demo p None = Some r ∧ inside p (20 - 1) r) ∧
       ∃ n, lpGetNumElements demo = Some n ∧ (n = LP_HDR_NUMELE_UNKNOWN ∨ n = zlen ps)).
Proof.
  apply (lpValidateIntegrity_sound count_cb demo 20 0).
  - apply (bool_decide_unpack _). vm_compute. exact I.
  - by vm_compute.
Defined.

(** The block of the last witness is accepted. *)
Example demo_accepted : lpValidateIntegrity count_cb demo 20 true 0 = Some (true, 3).
Proof. reflexivity. Qed.

End ListpackNav.
