(* ===== verification/ListpackEdit.v ===== *)
(** * listpack.c: operations that change a listpack

    Everything that changes a listpack goes through [lpInsert], which inserts,
    replaces or deletes one entry, or through the range operations.  The inner
    [None] of a result is a NULL pointer: the listpack would exceed 2^32-1
    bytes. *)

From S2P Require Import Prelude Util Listpack ListpackNav.
Import Util Listpack ListpackNav.

Module ListpackEdit.

Inductive lp_where := LP_BEFORE | LP_AFTER | LP_REPLACE.

Section ops.
Context `{Allocator}.

Definition ASSERT_INTEGRITY (lp : list Z) (p : Z) : option unit :=
  n ← lpGetTotalBytes lp; assert ((p >=? LP_HDR_SIZE) && (p <? n)).
Definition ASSERT_INTEGRITY_LEN (lp : list Z) (p len : Z) : option unit :=
  n ← lpGetTotalBytes lp; assert ((p >=? LP_HDR_SIZE) && (p + len <? n)).

(** [lp_malloc_size] is the size of the block. *)
Definition lpShrinkToFit (lp : list Z) : option (list Z) :=
  size ← lpGetTotalBytes lp;
  Some (if size <? zlen lp then realloc (Z.to_nat size) lp else lp).

(** The middle of [lpInsert]: reallocate and relocate the tail so that
    [room] bytes replace the [replaced_len] bytes at [poff]. *)
Definition lp_make_room (lp : list Z) (poff replaced_len room old new : Z) : option (list Z) :=
  let lp := if (new >? old) && (new >? zlen lp) then realloc (Z.to_nat new) lp else lp in
  lp ← memmove lp (poff + room) (poff + replaced_len) (old - poff - replaced_len);
  Some (if new <? old then realloc (Z.to_nat new) lp else lp).

(** A parameter [uint32_t slen] (or [size]) converts the length that callers
    pass; only the first [slen] bytes of the string are looked at. *)
Definition first_slen (s : list Z) : list Z := take (Z.to_nat (u32 (zlen s))) s.

Definition lpInsert (lp : list Z) (elestr eleint : option (list Z)) (p : Z)
    (where_ : lp_where) (newp : bool) : option (option (list Z * option Z)) :=
  let delete := match elestr, eleint with None, None => true | _, _ => false end in
  let where_ := if delete then LP_REPLACE else where_ in
  '(p, before) ←
    match where_ with
    | LP_AFTER => p ← lpSkip lp p; _ ← ASSERT_INTEGRITY lp p; Some (p, true)
    | LP_BEFORE => Some (p, true)
    | LP_REPLACE => Some (p, false)
    end;
  let poff := p in
  (* the bytes to store: an integer encoding or a string with its [enclen] *)
  let ele :=
    match elestr with
    | Some s =>
        let s := first_slen s in
        match lpEncodeGetType s with
        | inl intenc => Some (inl intenc)
        | inr enclen => Some (inr (s, enclen))
        end
    | None => inl <$> eleint
    end in
  let enclen :=
    match ele with
    | Some (inl intenc) => zlen intenc
    | Some (inr (_, enclen)) => enclen
    | None => 0
    end in
  let backlen := if delete then [] else lpEncodeBacklen enclen in
  old_listpack_bytes ← lpGetTotalBytes lp;
  replaced_len ←
    (if before then Some 0
     else
       replaced_len ← lpCurrentEncodedSizeUnsafe lp p;
       let replaced_len := u32 (replaced_len + zlen (lpEncodeBacklen replaced_len)) in
       _ ← ASSERT_INTEGRITY_LEN lp p replaced_len;
       Some replaced_len);
  let new_listpack_bytes :=
    u64 (old_listpack_bytes + enclen + zlen backlen - replaced_len) in
  if new_listpack_bytes >? UINT32_MAX then Some None
  else
    lp ← lp_make_room lp poff replaced_len (enclen + zlen backlen)
           old_listpack_bytes new_listpack_bytes;
    let dst := poff in
    newp ←
      (if newp then
         if delete then b ← load8 lp dst; Some (if b =? LP_EOF then None else Some dst)
         else Some (Some dst)
       else Some None);
    lp ←
      match ele with
      | None => Some lp
      | Some e =>
          lp ← store lp dst (match e with inl intenc => intenc | inr (s, _) => lpEncodeString s end);
          store lp (dst + enclen) backlen
      end;
    lp ←
      (if before || delete then
         num_elements ← lpGetNumElements lp;
         if negb (num_elements =? LP_HDR_NUMELE_UNKNOWN) then
           if negb delete then lpSetNumElements lp (u32 (num_elements + 1))
           else lpSetNumElements lp (u32 (num_elements - 1))
         else Some lp
       else Some lp);
    lp ← lpSetTotalBytes lp new_listpack_bytes;
    Some (Some (lp, newp)).

Definition lpInsertString lp (s : list Z) p where_ newp := lpInsert lp (Some s) None p where_ newp.
Definition lpInsertInteger lp (lval p : Z) where_ newp :=
  lpInsert lp None (Some (lpEncodeIntegerGetType lval)) p where_ newp.

(** A call with a NULL [newp]. *)
Definition no_newp (r : option (option (list Z * option Z))) : option (option (list Z)) :=
  option_map fst <$> r.

Definition lpAppend (lp s : list Z) : option (option (list Z)) :=
  listpack_bytes ← lpGetTotalBytes lp;
  let eofptr := listpack_bytes - 1 in
  no_newp (lpInsert lp (Some s) None eofptr LP_BEFORE false).
Definition lpAppendInteger (lp : list Z) (lval : Z) : option (option (list Z)) :=
  listpack_bytes ← lpGetTotalBytes lp;
  let eofptr := listpack_bytes - 1 in
  no_newp (lpInsertInteger lp lval eofptr LP_BEFORE false).

Definition lpPrepend (lp s : list Z) : option (option (list Z)) :=
  p ← lpFirst lp;
  match p with
  | None => lpAppend lp s
  | Some p => no_newp (lpInsert lp (Some s) None p LP_BEFORE false)
  end.
Definition lpPrependInteger (lp : list Z) (lval : Z) : option (option (list Z)) :=
  p ← lpFirst lp;
  match p with
  | None => lpAppendInteger lp lval
  | Some p => no_newp (lpInsertInteger lp lval p LP_BEFORE false)
  end.

Definition lpReplace (lp : list Z) (p : Z) (s : list Z) := lpInsert lp (Some s) None p LP_REPLACE true.
Definition lpReplaceInteger (lp : list Z) (p lval : Z) := lpInsertInteger lp lval p LP_REPLACE true.
Definition lpDelete (lp : list Z) (p : Z) (newp : bool) := lpInsert lp None None p LP_REPLACE newp.

(** [while (num--)]: the tail pointer and [deleted]. *)
Fixpoint delete_range_loop (fuel : nat) (lp : list Z) (bytes num tail deleted : Z)
    : option (Z * Z) :=
  if num =? 0 then Some (tail, deleted)
  else
    match fuel with
    | O => None
    | S fuel =>
        let deleted := u64 (deleted + 1) in
        tail ← lpSkip lp tail;
        b ← load8 lp tail;
        if b =? LP_EOF then Some (tail, deleted)
        else _ ← lpAssertValidEntry lp bytes tail;
             delete_range_loop fuel lp bytes (num - 1) tail deleted
    end.

(** Returns the listpack and the new [*p]. *)
Definition lpDeleteRangeWithEntry (lp : list Z) (p num : Z) : option (list Z * option Z) :=
  bytes ← lpBytes lp;
  let eofptr := bytes - 1 in
  let first := p in
  if num =? 0 then Some (lp, Some p)
  else
    '(tail, deleted) ← delete_range_loop (length lp) lp bytes num p 0;
    let poff := first in
    lp ← memmove lp first tail (eofptr - tail + 1);
    lp ← lpSetTotalBytes lp (bytes - (tail - first));
    numele ← lpGetNumElements lp;
    lp ← (if negb (numele =? LP_HDR_NUMELE_UNKNOWN)
          then lpSetNumElements lp (u64 (numele - deleted)) else Some lp);
    lp ← lpShrinkToFit lp;
    b ← load8 lp poff;
    Some (lp, if b =? LP_EOF then None else Some poff).

Definition lpDeleteRange (lp : list Z) (index num : Z) : option (list Z) :=
  numele ← lpGetNumElements lp;
  if num =? 0 then Some lp
  else
    p ← lpSeek lp index;
    match p with
    | None => Some lp
    | Some p =>
        let known := negb (numele =? LP_HDR_NUMELE_UNKNOWN) in
        let index := if known && (index <? 0) then numele + index else index in
        if known && (u64 (numele - u64 index) <=? num) then
          lp ← store lp p [LP_EOF];
          lp ← lpSetTotalBytes lp (p + 1);
          lp ← lpSetNumElements lp index;
          lpShrinkToFit lp
        else fst <$> lpDeleteRangeWithEntry lp p num
    end.
End ops.

(** ** Relocation *)

Section edit.
Context `{Allocator}.

Lemma make_room_spec a m t s poff replaced k old new :
  poff = zlen a → replaced = zlen m → 0 ≤ k →
  old = zlen a + zlen m + zlen t → new = zlen a + k + zlen t →
  ∃ y s', lp_make_room (a ++ m ++ t ++ s) poff replaced k old new =
            Some (a ++ y ++ t ++ s') ∧ zlen y = k.
Proof.
  intros -> -> Hk -> ->. unfold lp_make_room. rewrite !Z.gtb_ltb.
  set (new := zlen a + k + zlen t). set (old := zlen a + zlen m + zlen t).
  assert (∃ s1, (if (old <? new) && (zlen (a ++ m ++ t ++ s) <? new)
     then realloc (Z.to_nat new) (a ++ m ++ t ++ s) else a ++ m ++ t ++ s) = a ++ m ++ t ++ s1 ∧
     k + zlen t ≤ zlen m + zlen t + zlen s1) as (s1 & -> & Hfit).
  { destruct (Z.ltb_spec old new), (Z.ltb_spec (zlen (a ++ m ++ t ++ s)) new); cbn [andb].
    - pose proof (usable_ge (Z.to_nat new)).
      exists (s ++ fresh (usable (Z.to_nat new) - length (a ++ m ++ t ++ s))).
      rewrite realloc_grow by lia. split; [by rewrite <- !app_assoc|].
      subst new. llia.
    - exists s. split; [done|]. subst new. llia.
    - exists s. split; [done|]. lia.
    - exists s. split; [done|]. lia. }
  destruct (memmove_splice a m t s1 k (zlen a + k) (zlen a + zlen m) (old - zlen a - zlen m))
    as (y & s' & -> & Hy); [lia..|]. cbn [mbind option_bind].
  destruct (Z.ltb_spec new old); [|by eauto]. rewrite !(app_assoc _ _ s'), !(app_assoc a).
  rewrite realloc_trunc by llia. eexists y, _. split; [|done]. by rewrite <- !app_assoc.
Qed.
End edit.


(** ** [lpInsert] as one splice of the list of payloads *)

(** The payload a call of [lpInsert] stores; [None] deletes. *)
Definition arg_payload (elestr eleint : option (list Z)) : option (list Z) :=
  match elestr with Some s => Some (lp_encode s) | None => eleint end.

Section core.
Context `{Allocator}.

(** [lpInsert] from the computation of [poff] on, given the bytes to store. *)
Definition insert_core (lp : list Z) (e : option (list Z)) (p : Z) (before newp : bool)
    : option (option (list Z * option Z)) :=
  let enclen := match e with Some e => zlen e | None => 0 end in
  let backlen := match e with Some e => lpEncodeBacklen (zlen e) | None => [] end in
  old ← lpGetTotalBytes lp;
  replaced_len ←
    (if before then Some 0
     else
       replaced_len ← lpCurrentEncodedSizeUnsafe lp p;
       let replaced_len := u32 (replaced_len + zlen (lpEncodeBacklen replaced_len)) in
       _ ← ASSERT_INTEGRITY_LEN lp p replaced_len;
       Some replaced_len);
  let new := u64 (old + enclen + zlen backlen - replaced_len) in
  if new >? UINT32_MAX then Some None
  else
    lp ← lp_make_room lp p replaced_len (enclen + zlen backlen) old new;
    np ←
      (if newp then
         match e with
         | None => b ← load8 lp p; Some (if b =? LP_EOF then None else Some p)
         | Some _ => Some (Some p)
         end
       else Some None);
    lp ← match e with
         | None => Some lp
         | Some e => lp ← store lp p e; store lp (p + zlen e) (lpEncodeBacklen (zlen e))
         end;
    lp ←
      (if before || (match e with None => true | _ => false end) then
         num ← lpGetNumElements lp;
         if negb (num =? LP_HDR_NUMELE_UNKNOWN) then
           match e with
           | Some _ => lpSetNumElements lp (u32 (num + 1))
           | None => lpSetNumElements lp (u32 (num + -1))
           end
         else Some lp
       else Some lp);
    lp ← lpSetTotalBytes lp new;
    Some (Some (lp, np)).

Lemma enc_str_length s : zlen s < 2 ^ 32 → zlen (lpEncodeString s) = str_hdr (zlen s) + zlen s.
Proof. intros (h & -> & Hh & _)%enc_str_shape. llia. Qed.

Lemma first_slen_all s : zlen s < 2 ^ 32 → first_slen s = s.
Proof. intros Hs. unfold first_slen. rewrite wrapu_small by lia. by rewrite Nat2Z.id, take_ge. Qed.

Lemma lpInsert_core lp elestr eleint p w newp :
  (∀ s, elestr = Some s → zlen s < 2 ^ 32) →
  lpInsert lp elestr eleint p w newp =
    let e := arg_payload elestr eleint in
    '(p, before) ←
      match (match e with None => LP_REPLACE | _ => w end) with
      | LP_AFTER => p ← lpSkip lp p; _ ← ASSERT_INTEGRITY lp p; Some (p, true)
      | LP_BEFORE => Some (p, true)
      | LP_REPLACE => Some (p, false)
      end;
    insert_core lp e p before newp.
Proof.
  intros Hs. unfold lpInsert, insert_core, arg_payload, entry.
  destruct elestr as [s|]; [specialize (Hs s eq_refl)|destruct eleint as [i|]].
  - cbv zeta. set (pb := match w with LP_BEFORE => _ | _ => _ end).
    destruct pb as [[q before]|]; [|done]. cbn [mbind option_bind]. rewrite (first_slen_all s Hs).
    destruct (lp_encode_cases s) as [(v & _ & _ & -> & ->)|(_ & -> & ->)].
    + done.
    + by rewrite (enc_str_length s Hs).
  - cbv zeta. set (pb := match w with LP_BEFORE => _ | _ => _ end).
    destruct pb as [[q before]|]; [|done]. cbn [mbind option_bind].
    done.
  - done.
Qed.
End core.


Definition opt_list {A} (o : option A) : list A := match o with Some x => [x] | None => [] end.

(** The header count after inserting ([d = 1]) or deleting ([d = -1]). *)
Definition bump (n d : Z) : Z := if n =? LP_HDR_NUMELE_UNKNOWN then n else n + d.

Lemma getNumElements_app t n rest :
  zlen t = 4 → 0 ≤ n ≤ UINT16_MAX → lpGetNumElements (t ++ le_bytes 2 n ++ rest) = Some n.
Proof.
  intros Ht Hn. unfold lpGetNumElements. rewrite load_app by llia.
  cbn [mbind option_bind]. rewrite le_or_val, le_val_bytes, Z.mod_small; [done| |apply le_bytes_byte].
  unfold UINT16_MAX in *. simpl. lia.
Qed.

(** Writing the header of a block whose entries are already in place. *)
Lemma update_header t n es s d (upd : bool) :
  zlen t = 4 → 0 ≤ n ≤ UINT16_MAX → 0 ≤ n + d →
  let lp := t ++ le_bytes 2 n ++ cat es ++ LP_EOF :: s in
  ∃ lp1,
    (if upd then
       num ← lpGetNumElements lp;
       if negb (num =? LP_HDR_NUMELE_UNKNOWN) then lpSetNumElements lp (u32 (num + d)) else Some lp
     else Some lp) = Some lp1 ∧
    lpSetTotalBytes lp1 (total es) = Some (lp_image (if upd then bump n d else n) es s).
Proof.
  intros Ht Hn Hd lp. subst lp. unfold bump, lp_image.
  destruct upd; [|eexists; split; [done|by apply setTotalBytes_app]].
  rewrite getNumElements_app by done. cbn [mbind option_bind].
  destruct (Z.eqb_spec n LP_HDR_NUMELE_UNKNOWN); cbn [negb mbind option_bind];
    [eexists; split; [done|by apply setTotalBytes_app]|].
  rewrite setNumElements_app by llia. eexists; split; [done|].
  rewrite setTotalBytes_app by done. do 3 f_equal. unfold wrapu.
  rewrite <- (le_bytes_mod 2 ((n + d) mod 2 ^ 32)), <- (le_bytes_mod 2 (n + d)).
  f_equal. by rewrite Z.mod_mod_divide by (exists (2 ^ 16); done).
Qed.

Lemma total_cat l x r : total (l ++ x ++ r) = pos l + zlen (cat x) + zlen (cat r) + 1.
Proof. unfold total, pos. rewrite !cat_app. llia. Qed.

Section splice.
Context `{Allocator}.

(** The result of [insert_core]: NULL when the block would be too large. *)
Definition splice_result (n : Z) (l m r : list (list Z)) (e : option (list Z)) (newp : bool)
    (res : option (option (list Z * option Z))) : Prop :=
  if total (l ++ opt_list e ++ r) >? UINT32_MAX then res = Some None
  else ∃ s', res = Some (Some
    (lp_image
       (match m, e with [], Some _ => bump n 1 | _, None => bump n (-1) | _, _ => n end)
       (l ++ opt_list e ++ r) s',
     if newp then match e, r with None, [] => None | _, _ => Some (pos l) end else None)).

Lemma entry_head_not_eof r :
  Forall valid_payload r → r ≠ [] → ∃ b t, cat r = b :: t ∧ b ≠ LP_EOF.
Proof.
  intros Hr Hne. destruct Hr as [|e r Hv _]; [done|].
  destruct (valid_payload_head e Hv) as (b & t & -> & _ & Hb).
  rewrite cat_cons. unfold entry. cbn [app]. eauto.
Qed.

Lemma opt_list_cat (e : option (list Z)) :
  zlen (cat (opt_list e)) =
    (match e with Some e => zlen e | None => 0 end) +
    zlen (match e with Some e => lpEncodeBacklen (zlen e) | None => [] end).
Proof. destruct e; [|done]. simpl. rewrite cat_cons. unfold entry. simpl. llia. Qed.

(** The bytes [lpInsert] replaces. *)
Lemma replaced_spec n l m0 r slack :
  valid_payload m0 → total (l ++ m0 :: r) ≤ UINT32_MAX →
  let lp := lp_image n (l ++ m0 :: r) slack in
  (replaced_len ← lpCurrentEncodedSizeUnsafe lp (pos l);
   let replaced_len := u32 (replaced_len + zlen (lpEncodeBacklen replaced_len)) in
   _ ← ASSERT_INTEGRITY_LEN lp (pos l) replaced_len;
   Some replaced_len) = Some (zlen (entry m0)).
Proof.
  intros (_ & Hl & _ & Hs) Ht lp. pose proof (total_cat l [m0] r) as Htc. simpl in Htc.
  rewrite cat_cons in Htc. change (cat []) with (@nil Z) in Htc. rewrite app_nil_r in Htc.
  pose proof (pos_ge l). unfold ASSERT_INTEGRITY_LEN. subst lp. rewrite image_total by done.
  destruct (image_at n l m0 r slack) as (a & -> & Ha). rewrite <- Ha.
  rewrite (sizeUnsafe_frame _ _ _ _ Hs). cbn [mbind option_bind]. rewrite Ha.
  replace (zlen m0 + zlen (lpEncodeBacklen (zlen m0))) with (zlen (entry m0))
    by (unfold entry; llia).
  rewrite wrapu_small by ilia. unfold LP_HDR_SIZE. rewrite Z.geb_leb.
  destruct (Z.leb_spec 6 (pos l)); [|lia].
  destruct (Z.ltb_spec (pos l + zlen (entry m0)) (total (l ++ m0 :: r))); [done|].
  exfalso. lia.
Qed.

(** [*newp] after the relocation. *)
Lemma newp_spec a r s' y (e : option (list Z)) (newp : bool) p :
  Forall valid_payload r → zlen a = p → zlen y = zlen (cat (opt_list e)) →
  (if newp then match e with
     | None => b ← load8 (a ++ y ++ (cat r ++ [LP_EOF]) ++ s') p;
               Some (if b =? LP_EOF then None else Some p)
     | Some _ => Some (Some p) end else Some None) =
  Some (if newp then match e, r with None, [] => None | _, _ => Some p end else None).
Proof.
  intros Hv Ha Hy. destruct newp; [|done]. destruct e as [x|]; [done|].
  destruct y; [|simpl in Hy; lia]. cbn [app]. destruct (decide (r = [])) as [->|Hr].
  - change (cat [] ++ [LP_EOF]) with [LP_EOF]. cbn [app]. by rewrite load8_app.
  - destruct (entry_head_not_eof r Hv Hr) as (b & t & -> & Hb).
    cbn [app]. rewrite load8_app by done. cbn [mbind option_bind].
    destruct (Z.eqb_spec b LP_EOF); [done|]. by destruct r.
Qed.

(** Storing the entry in the room made for it. *)
Lemma store_entry_spec a y t (e : option (list Z)) p :
  zlen a = p → zlen y = zlen (cat (opt_list e)) →
  match e with
  | None => Some (a ++ y ++ t)
  | Some e => lp ← store (a ++ y ++ t) p e; store lp (p + zlen e) (lpEncodeBacklen (zlen e))
  end = Some (a ++ cat (opt_list e) ++ t).
Proof.
  intros Ha Hy. destruct e as [x|]; [|by destruct y; [|simpl in Hy; lia]].
  rewrite opt_list_cat in Hy. set (bl := lpEncodeBacklen (zlen x)) in *.
  rewrite <- (take_drop (length x) y), <- app_assoc.
  rewrite store_app by llia. cbn [mbind option_bind].
  rewrite (app_assoc a x), store_app by llia. rewrite <- app_assoc.
  simpl. rewrite cat_cons, app_nil_r. unfold entry. by rewrite <- app_assoc.
Qed.

Lemma core_spec n l m r slack e before newp :
  Forall valid_payload (l ++ m ++ r) → total (l ++ m ++ r) ≤ UINT32_MAX →
  numele_ok n (l ++ m ++ r) → (∀ x, e = Some x → zlen x < 2 ^ 40) →
  (before = true ∧ m = [] ∧ is_Some e ∨ before = false ∧ ∃ m0, m = [m0]) →
  splice_result n l m r e newp
    (insert_core (lp_image n (l ++ m ++ r) slack) e (pos l) before newp).
Proof.
  intros Hv Ht Hn He Hm. unfold insert_core, splice_result. rewrite image_total by done.
  cbn [mbind option_bind].
  match goal with |- context [if before then ?x else ?y] =>
    assert ((if before then x else y) = Some (zlen (cat m))) as -> end.
  { destruct Hm as [(-> & -> & _)|(-> & m0 & ->)]; [done|].
    apply Forall_app in Hv as [_ Hv]. inv Hv. rewrite cat_cons, app_nil_r.
    by apply replaced_spec. }
  cbn [mbind option_bind]. pose proof (pos_ge l). pose proof (total_cat l m r) as Hold.
  rewrite <- (Z.add_assoc (total _)), <- opt_list_cat.
  assert (zlen (cat (opt_list e)) < 2 ^ 41).
  { rewrite opt_list_cat. destruct e as [x|]; [|done]. pose proof (He x eq_refl).
    pose proof (backlen_size (zlen x)). lia. }
  pose proof (total_cat l (opt_list e) r) as Hnew. rewrite wrapu_small by ilia.
  replace (total (l ++ m ++ r) + _ - _) with (total (l ++ opt_list e ++ r)) by lia.
  destruct (_ >? UINT32_MAX); [done|].
  set (h := le_bytes 4 (total (l ++ m ++ r)) ++ le_bytes 2 n).
  assert (Ha : zlen (h ++ cat l) = pos l) by (unfold h, pos, LP_HDR_SIZE; llia).
  assert (lp_image n (l ++ m ++ r) slack = (h ++ cat l) ++ cat m ++ (cat r ++ [LP_EOF]) ++ slack) as ->.
  { unfold lp_image, h. rewrite !cat_app, <- !app_assoc. done. }
  destruct (make_room_spec (h ++ cat l) (cat m) (cat r ++ [LP_EOF]) slack (pos l) (zlen (cat m))
    (zlen (cat (opt_list e))) (total (l ++ m ++ r)) (total (l ++ opt_list e ++ r)))
    as (y & s' & -> & Hy); [clear Ht; llia..|]. cbn [mbind option_bind].
  rewrite newp_spec by (done || rewrite !Forall_app in Hv; tauto). cbn [mbind option_bind].
  rewrite store_entry_spec by done. cbn [mbind option_bind].
  assert ((h ++ cat l) ++ cat (opt_list e) ++ (cat r ++ [LP_EOF]) ++ s' =
    le_bytes 4 (total (l ++ m ++ r)) ++ le_bytes 2 n ++ cat (l ++ opt_list e ++ r) ++ LP_EOF :: s')
    as -> by (unfold h; rewrite !cat_app, <- !app_assoc; done).
  pose proof (numele_range _ _ Hn) as Hr. set (t4 := le_bytes 4 (total (l ++ m ++ r))).
  pose proof (λ d upd H, update_header t4 n (l ++ opt_list e ++ r) s' d upd eq_refl Hr H) as Hup.
  exists s'. destruct e as [x|].
  - destruct (Hup 1 before) as (lp1 & E1 & E2); [lia|]. rewrite orb_false_r.
    rewrite E1. cbn [mbind option_bind]. rewrite E2.
    by destruct Hm as [(-> & -> & _)|(-> & m0 & ->)].
  - assert (m ≠ []) as Hm0 by (destruct Hm as [(_ & _ & [? ?])|(_ & m0 & ->)]; done).
    destruct (Hup (-1) true) as (lp1 & E1 & E2).
    { destruct Hn as [->|[-> _]]; [done|]. destruct m; [done|]. llia. }
    rewrite orb_true_r. rewrite E1. cbn [mbind option_bind]. rewrite E2. by destruct m.
Qed.
End splice.


(** ** The operations on lists of payloads *)

Definition index_ok (es : list (list Z)) (i : nat) (w : lp_where) : Prop :=
  match w with LP_BEFORE => (i ≤ length es)%nat | _ => (i < length es)%nat end.

(** The list after the call, and where the new entry is. *)
Definition insert_spec (es : list (list Z)) (i : nat) (w : lp_where) (e : list Z) : list (list Z) :=
  match w with
  | LP_BEFORE => take i es ++ [e] ++ drop i es
  | LP_AFTER => take (S i) es ++ [e] ++ drop (S i) es
  | LP_REPLACE => take i es ++ [e] ++ drop (S i) es
  end.
Definition new_index (i : nat) (w : lp_where) : nat :=
  match w with LP_AFTER => S i | _ => i end.

Lemma bump_ok n d es es' :
  numele_ok n es → zlen es' = zlen es + d → d ≤ 1 → numele_ok (bump n d) es'.
Proof.
  unfold numele_ok, bump, LP_HDR_NUMELE_UNKNOWN. intros [->|[-> Hlt]] Hl Hd.
  - rewrite Z.eqb_refl. by left.
  - destruct (Z.eqb_spec (zlen es) UINT16_MAX); [lia|].
    destruct (decide (zlen es + d = UINT16_MAX)); [by left|right]. lia.
Qed.

Section insert.
Context `{Allocator}.

Lemma rep_image n es slack :
  Forall valid_payload es → total es ≤ UINT32_MAX → numele_ok n es → lp_rep (lp_image n es slack) es.
Proof. intros. split_and!; [done..|]. by exists n, slack. Qed.

(** [splice_result] read as a result on represented lists. *)
Lemma splice_rep n l m r e newp res es' :
  splice_result n l m r e newp res →
  Forall valid_payload (l ++ m ++ r) → numele_ok n (l ++ m ++ r) → (length m ≤ 1)%nat →
  es' = l ++ opt_list e ++ r → (total es' ≤ UINT32_MAX → ∀ x, e = Some x → valid_payload x) →
  (m ≠ [] ∨ is_Some e) →
  if total es' >? UINT32_MAX then res = Some None
  else ∃ lp', res = Some (Some (lp', if newp then match e, r with None, [] => None | _, _ => Some (pos l) end else None)) ∧
    lp_rep lp' es'.
Proof.
  unfold splice_result. intros Hres Hv Hn Hm -> He Hne. rewrite Z.gtb_ltb in *.
  destruct (Z.ltb_spec UINT32_MAX (total (l ++ opt_list e ++ r))) as [|Hle]; [done|].
  destruct Hres as [s' ->]. eexists; split; [done|]. specialize (He ltac:(lia)).
  apply rep_image; [|lia|].
  - rewrite !Forall_app in Hv |- *. split_and!; [tauto| |tauto].
    destruct e as [x|]; simpl; [|done]. by apply Forall_singleton, He.
  - destruct m as [|m0 [|]], e as [x|]; simpl in *; [..|lia|lia].
    + apply (bump_ok _ _ _ _ Hn); [llia|lia].
    + by destruct Hne as [?|[? ?]].
    + destruct Hn as [->|[-> Hlt]]; [by left|right]. split; [llia|done].
    + apply (bump_ok _ _ _ _ Hn); [llia|lia].
Qed.

Lemma insert_rep lp es i w elestr eleint e newp :
  lp_rep lp es → index_ok es i w → arg_payload elestr eleint = Some e →
  (∀ s, elestr = Some s → zlen s < 2 ^ 32) → zlen e < 2 ^ 40 →
  let es' := insert_spec es i w e in
  (total es' ≤ UINT32_MAX → valid_payload e) →
  let res := lpInsert lp elestr eleint (pos (take i es)) w newp in
  if total es' >? UINT32_MAX then res = Some None
  else ∃ lp', res = Some (Some (lp', if newp then Some (pos (take (new_index i w) es')) else None)) ∧
    lp_rep lp' es'.
Proof.
  intros (Hes & Ht & n & slack & Hn & ->) Hi He Hs Hlen es' Hval res. subst res.
  rewrite (lpInsert_core _ _ _ _ _ _ Hs). cbv zeta. rewrite He.
  assert (Hbefore : ∀ j, (j ≤ length es)%nat → es' = take j es ++ [e] ++ drop j es →
    let res := insert_core (lp_image n es slack) (Some e) (pos (take j es)) true newp in
    if total es' >? UINT32_MAX then res = Some None
    else ∃ lp', res = Some (Some (lp', if newp then Some (pos (take j es')) else None)) ∧ lp_rep lp' es').
  { intros j Hj Ees. pose proof (core_spec n (take j es) [] (drop j es) slack (Some e) true newp) as Hc.
    cbn [app] in Hc. rewrite (take_drop j es) in Hc.
    replace (take j es') with (take j es)
      by (rewrite Ees, take_app_le, take_take by llia; f_equal; lia).
    apply (splice_rep n (take j es) [] (drop j es) (Some e) newp); cbn [app];
      rewrite ?take_drop; [apply Hc|..]; try done; try lia; naive_solver. }
  destruct w; simpl in Hi; cbn [mbind option_bind new_index].
  - by apply (Hbefore i).
  - destruct (next_pos n es slack Hes Ht i Hi) as [-> _]. cbn [mbind option_bind].
    unfold ASSERT_INTEGRITY. rewrite image_total by done. cbn [mbind option_bind].
    pose proof (pos_ge (take (S i) es)). pose proof (pos_le_total es (S i)).
    unfold LP_HDR_SIZE. rewrite Z.geb_leb.
    destruct (Z.leb_spec 6 (pos (take (S i) es))); [|lia].
    destruct (Z.ltb_spec (pos (take (S i) es)) (total es)); [|unfold total in *; lia].
    apply (Hbefore (S i)); [lia|done].
  - destruct (split_at es Hes i Hi) as (m0 & r & Esplit & Hm0 & _ & Er).
    pose proof (core_spec n (take i es) [m0] r slack (Some e) false newp) as Hc.
    cbn [app] in Hc. rewrite <- Esplit in Hc. subst es'. unfold insert_spec in *. rewrite <- Er in *.
    rewrite take_app_le, take_take, Nat.min_id by llia.
    apply (splice_rep n (take i es) [m0] r (Some e) newp); cbn [app]; rewrite <- ?Esplit;
      [apply Hc|..]; try done; try lia; naive_solver.
Qed.
End insert.


(** What the callers insert: a string of at most [UINT32_MAX] bytes or a
    [long long]. *)
Inductive lp_arg := AStr (s : list Z) | AInt (v : Z).
Definition arg_ok (x : lp_arg) : Prop :=
  match x with AStr s => Forall is_byte s ∧ zlen s ≤ UINT32_MAX | AInt v => sfits 64 v end.
Definition arg_bytes (x : lp_arg) : list Z :=
  match x with AStr s => lp_encode s | AInt v => lpEncodeIntegerGetType v end.
Definition arg_string (x : lp_arg) : list Z :=
  match x with AStr s => s | AInt v => sdec v end.
Definition lpInsertArg `{Allocator} lp x p w newp :=
  match x with
  | AStr s => lpInsertString lp s p w newp
  | AInt v => lpInsertInteger lp v p w newp
  end.

Lemma lp_encode_length s : zlen s ≤ UINT32_MAX → zlen s ≤ zlen (lp_encode s) + 20 ∧ zlen (lp_encode s) ≤ zlen s + 9.
Proof.
  intros Hs. destruct (lp_encode_cases s) as [(v & Hv & -> & _ & ->)|(_ & _ & ->)].
  - destruct (enc_int_valid v Hv) as [(_ & ? & _) ?]. pose proof (sdec_pos_length v Hv). lia.
  - rewrite enc_str_length by ilia. unfold str_hdr. repeat case_match; lia.
Qed.

(** Only strings that fit can be stored. *)
Lemma arg_fits x es i w :
  arg_ok x → total (insert_spec es i w (arg_bytes x)) ≤ UINT32_MAX →
  Forall is_byte (arg_string x) ∧ zlen (arg_string x) < 2 ^ 32 - 5.
Proof.
  destruct x as [s|v]; cbn [arg_ok arg_bytes arg_string]; [|intros Hv _].
  - intros [Hs Hl] Ht. split; [done|].
    assert (Hle : zlen (lp_encode s) + 8 ≤ UINT32_MAX).
    { pose proof (backlen_size (zlen (lp_encode s))). pose proof (opt_list_cat (Some (lp_encode s))) as Hc.
      change (opt_list (Some (lp_encode s))) with [lp_encode s] in Hc.
      destruct w; cbn [insert_spec] in Ht; rewrite total_cat in Ht;
        match type of Ht with context [pos ?l] => pose proof (pos_ge l) end; lia. }
    destruct (lp_encode_cases s) as [(v & Hv & -> & _ & _)|(_ & _ & E)].
    + pose proof (sdec_pos_length v Hv). ilia.
    + rewrite E, enc_str_length in Hle by ilia.
      assert (1 ≤ str_hdr (zlen s)) by (unfold str_hdr; repeat case_match; lia). ilia.
  - pose proof (sdec_pos_length v Hv). split; [apply sdec_bytes|lia].
Qed.

(** Integers are stored as the strings they print to. *)
Lemma arg_bytes_encode x : arg_ok x → arg_bytes x = lp_encode (arg_string x).
Proof.
  destruct x as [s|v]; [done|]. cbn [arg_ok arg_bytes arg_string]. intros Hv.
  destruct (lp_encode_cases (sdec v)) as [(v' & Hv' & E & _ & ->)|(E & _)].
  - by rewrite (sdec_inj v v').
  - by rewrite string2ll_complete in E.
Qed.

Lemma arg_payload_valid x es i w :
  arg_ok x → total (insert_spec es i w (arg_bytes x)) ≤ UINT32_MAX →
  valid_payload (arg_bytes x) ∧ elem_string <$> payload_value (arg_bytes x) = Some (arg_string x).
Proof.
  intros Hx Ht. destruct (arg_fits x es i w Hx Ht).
  rewrite arg_bytes_encode by done. by apply lp_encode_valid.
Qed.

Section claims.
Context `{Allocator}.

Lemma insert_arg_rep lp es i w x newp :
  lp_rep lp es → index_ok es i w → arg_ok x →
  let es' := insert_spec es i w (arg_bytes x) in
  let res := lpInsertArg lp x (pos (take i es)) w newp in
  if total es' >? UINT32_MAX then res = Some None
  else ∃ lp', res = Some (Some (lp', if newp then Some (pos (take (new_index i w) es')) else None)) ∧
    lp_rep lp' es' ∧ elem_string <$> payload_value (arg_bytes x) = Some (arg_string x).
Proof.
  intros Hrep Hi Hx es' res.
  assert (Hins : if total es' >? UINT32_MAX then res = Some None
    else ∃ lp', res = Some (Some (lp', if newp then Some (pos (take (new_index i w) es')) else None)) ∧
      lp_rep lp' es').
  { subst res. destruct x as [s|v]; simpl; unfold lpInsertString, lpInsertInteger.
    - destruct Hx as [Hs Hl]. pose proof (lp_encode_length s Hl).
      apply insert_rep; [done..|intros ? [= <-]; ilia|simpl; ilia|].
      intros. by apply (arg_payload_valid (AStr s) es i w).
    - destruct (enc_int_valid v Hx). apply insert_rep; [done..|simpl; lia|done]. }
  rewrite Z.gtb_ltb in *. destruct (Z.ltb_spec UINT32_MAX (total es')); [done|].
  destruct Hins as (lp' & ? & ?). exists lp'. split_and!; [done..|].
  by apply (arg_payload_valid x es i w).
Qed.

(** Inserting a string or an integer before, after or in place of the
    entry at cursor [i] returns NULL exactly when the result would exceed
    2^32-1 bytes, and otherwise a listpack of the expected entries in which
    the new entry reads back as the value given; [newp] points to it. *)
Lemma lpInsert_correct lp es i w x newp :
  lp_rep lp es → index_ok es i w → arg_ok x →
  let es' := insert_spec es i w (arg_bytes x) in
  let res := lpInsertArg lp x (pos (take i es)) w newp in
  if total es' >? UINT32_MAX then res = Some None
  else ∃ lp', res = Some (Some (lp', if newp then Some (pos (take (new_index i w) es')) else None)) ∧
    lp_rep lp' es' ∧ elem_string <$> payload_value (arg_bytes x) = Some (arg_string x).
Proof. apply insert_arg_rep. Qed.

Lemma total_delete l m r : total (l ++ r) ≤ total (l ++ m ++ r).
Proof. rewrite (total_cat l m r), (total_cat l [] r : total (l ++ r) = _). simpl. lia. Qed.

Lemma delete_rep lp es i newp :
  lp_rep lp es → (i < length es)%nat →
  let es' := take i es ++ drop (S i) es in
  ∃ lp', lpDelete lp (pos (take i es)) newp =
           Some (Some (lp', if newp then at_ es' i else None)) ∧ lp_rep lp' es'.
Proof.
  intros (Hes & Ht & n & slack & Hn & ->) Hi es'.
  destruct (split_at es Hes i Hi) as (m0 & r & Esplit & Hm0 & _ & Er).
  unfold lpDelete. rewrite lpInsert_core by done. cbn [mbind option_bind arg_payload].
  pose proof (core_spec n (take i es) [m0] r slack None false newp) as Hc.
  cbn [app] in Hc. rewrite <- Esplit in Hc. subst es'. rewrite <- Er.
  pose proof (total_delete (take i es) [m0] r) as Hle. cbn [app] in Hle. rewrite <- Esplit in Hle.
  apply (splice_rep _ _ _ _ _ _ _ (take i es ++ r)) in Hc; cbn [app] in *; rewrite <- ?Esplit;
    try done; try lia; [|naive_solver..].
  rewrite Z.gtb_ltb in Hc. destruct (Z.ltb_spec UINT32_MAX (total (take i es ++ r))); [lia|].
  destruct Hc as (lp' & -> & Hrep). exists lp'. split; [|done]. do 4 f_equal.
  assert (length (take i es) = i) by llia. destruct newp; [|done]. unfold at_.
  rewrite take_app_le, take_take, Nat.min_id by lia.
  destruct r; [rewrite decide_False by llia|rewrite decide_True by llia]; done.
Qed.
End claims.


(** ** Ranges *)

Section ranges.
Context `{Allocator}.

Lemma shrink_image n es s :
  total es ≤ UINT32_MAX → ∃ s', lpShrinkToFit (lp_image n es s) = Some (lp_image n es s').
Proof.
  intros Ht. unfold lpShrinkToFit. rewrite image_total by done. cbn [mbind option_bind].
  destruct (_ <? _); [|by eauto].
  assert (lp_image n es s = lp_image n es [] ++ s) as ->.
  { unfold lp_image. by rewrite <- !app_assoc, <- app_comm_cons. }
  rewrite realloc_trunc.
  - exists (fresh (usable (Z.to_nat (total es)) - Z.to_nat (total es))). f_equal.
    unfold lp_image. by rewrite <- !app_assoc, <- app_comm_cons.
  - unfold lp_image, total, pos, LP_HDR_SIZE. llia.
Qed.

Lemma range_loop_at n es slack fuel : Forall valid_payload es → total es ≤ UINT32_MAX →
  ∀ j num deleted, (j < length es)%nat → (length es - j ≤ fuel)%nat → 0 < num →
  0 ≤ deleted → deleted + zlen es - Z.of_nat j < 2 ^ 64 →
  let k := Z.min num (zlen es - Z.of_nat j) in
  delete_range_loop fuel (lp_image n es slack) (total es) num (pos (take j es)) deleted =
    Some (pos (take (j + Z.to_nat k) es), deleted + k).
Proof.
  intros Hes Ht. induction fuel as [|fuel IH]; intros j num deleted Hj Hf Hnum Hd Hsum k; [lia|].
  cbn [delete_range_loop]. destruct (Z.eqb_spec num 0); [lia|].
  destruct (next_pos n es slack Hes Ht j Hj) as [-> _]. cbn [mbind option_bind].
  rewrite wrapu_small by lia. destruct (decide (S j = length es)) as [He|Hne].
  - rewrite (take_ge es (S j)), end_head by lia. cbn [mbind option_bind]. rewrite Z.eqb_refl.
    subst k. rewrite take_ge by lia. do 2 f_equal. lia.
  - destruct (entry_head n es slack Hes (S j)) as (b & -> & Hb); [lia|]. cbn [mbind option_bind].
    destruct (Z.eqb_spec b LP_EOF); [done|]. rewrite assert_entry by (done || lia).
    cbn [mbind option_bind]. destruct (decide (num = 1)) as [->|].
    + subst k. destruct fuel; cbn [delete_range_loop Z.eqb Z.sub];
        (f_equal; f_equal; [|lia]); do 2 f_equal; lia.
    + rewrite IH by lia. subst k. f_equal. f_equal; [|lia]. do 2 f_equal. lia.
Qed.

(** Closing the gap at cursor [i]: total, count and shrinking. *)
Lemma close_gap n l r t4 s d :
  zlen t4 = 4 → 0 ≤ n ≤ UINT16_MAX → 0 ≤ d → (n ≠ LP_HDR_NUMELE_UNKNOWN → d ≤ n) →
  total (l ++ r) ≤ UINT32_MAX →
  ∃ s', (lp ← lpSetTotalBytes (t4 ++ le_bytes 2 n ++ cat (l ++ r) ++ LP_EOF :: s) (total (l ++ r));
         numele ← lpGetNumElements lp;
         lp ← (if negb (numele =? LP_HDR_NUMELE_UNKNOWN)
               then lpSetNumElements lp (u64 (numele - d)) else Some lp);
         lpShrinkToFit lp) = Some (lp_image (bump n (- d)) (l ++ r) s').
Proof.
  intros H4 Hn Hd Hdn Ht. rewrite setTotalBytes_app by done. cbn [mbind option_bind].
  fold (lp_image n (l ++ r) s). rewrite image_numele by done. cbn [mbind option_bind].
  unfold bump. destruct (Z.eqb_spec n LP_HDR_NUMELE_UNKNOWN); cbn [negb mbind option_bind].
  - by apply shrink_image.
  - rewrite setNumElements_image. cbn [mbind option_bind].
    rewrite wrapu_small by ilia. rewrite Z.add_opp_r. by apply shrink_image.
Qed.

(** Moving the tail over the entries [m]. *)
Lemma remove_mid n l m r slack :
  numele_ok n (l ++ m ++ r) → total (l ++ m ++ r) ≤ UINT32_MAX →
  ∃ s', (lp ← memmove (lp_image n (l ++ m ++ r) slack) (pos l) (pos (l ++ m))
                (total (l ++ m ++ r) - 1 - pos (l ++ m) + 1);
         lp ← lpSetTotalBytes lp (total (l ++ m ++ r) - (pos (l ++ m) - pos l));
         numele ← lpGetNumElements lp;
         lp ← (if negb (numele =? LP_HDR_NUMELE_UNKNOWN)
               then lpSetNumElements lp (u64 (numele - zlen m)) else Some lp);
         lpShrinkToFit lp) = Some (lp_image (bump n (- zlen m)) (l ++ r) s').
Proof.
  intros Hn Ht. pose proof (total_cat l m r) as Htot.
  pose proof (total_cat l [] r : total (l ++ r) = _) as Htot'.
  change (zlen (cat [])) with 0 in Htot'.
  assert (Hpos : pos (l ++ m) = pos l + zlen (cat m)) by (unfold pos; rewrite cat_app; llia).
  set (h := le_bytes 4 (total (l ++ m ++ r)) ++ le_bytes 2 n).
  assert (lp_image n (l ++ m ++ r) slack = (h ++ cat l) ++ cat m ++ (cat r ++ [LP_EOF]) ++ slack) as ->.
  { unfold lp_image, h. rewrite !cat_app, <- !app_assoc. done. }
  assert (Hh : zlen (h ++ cat l) = pos l) by (unfold h, pos, LP_HDR_SIZE; llia).
  destruct (memmove_splice (h ++ cat l) (cat m) (cat r ++ [LP_EOF]) slack 0
    (pos l) (pos (l ++ m)) (total (l ++ m ++ r) - 1 - pos (l ++ m) + 1))
    as (y & s' & -> & Hy); [clear Ht; llia..|]. cbn [mbind option_bind].
  destruct y; [|simpl in Hy; lia]. cbn [app].
  replace (total (l ++ m ++ r) - _) with (total (l ++ r)) by lia.
  assert ((h ++ cat l) ++ (cat r ++ [LP_EOF]) ++ s' =
    le_bytes 4 (total (l ++ m ++ r)) ++ le_bytes 2 n ++ cat (l ++ r) ++ LP_EOF :: s') as ->.
  { unfold h. rewrite cat_app, <- !app_assoc. done. }
  apply close_gap; [by rewrite length_le_bytes|by eapply numele_range|lia| |lia].
  intros Hk. destruct Hn as [->|[-> _]]; [done|]. llia.
Qed.

Lemma removed_ok n l m r :
  numele_ok n (l ++ m ++ r) → numele_ok (bump n (- zlen m)) (l ++ r).
Proof. intros Hn. apply (bump_ok _ _ _ _ Hn); [llia|lia]. Qed.

(** Splitting a list around the entries [i..j). *)
Lemma range_split {A} (es : list A) i j :
  (i ≤ j ≤ length es)%nat →
  ∃ m, es = take i es ++ m ++ drop j es ∧ take j es = take i es ++ m ∧ length m = (j - i)%nat.
Proof.
  intros Hij. exists (drop i (take j es)). assert (Ht : take j es = take i es ++ drop i (take j es)).
  { rewrite <- (take_drop i (take j es)) at 1. rewrite take_take. do 2 f_equal. lia. }
  split_and!; [|done|llia]. rewrite app_assoc, <- Ht. by rewrite take_drop.
Qed.

Lemma deleteRangeWithEntry_rep lp es i num :
  lp_rep lp es → (i < length es)%nat → 0 ≤ num →
  let es' := take i es ++ drop (i + Z.to_nat num) es in
  ∃ lp', lpDeleteRangeWithEntry lp (pos (take i es)) num = Some (lp', at_ es' i) ∧ lp_rep lp' es'.
Proof.
  intros (Hes & Ht & n & slack & Hn & ->) Hi Hnum es'. unfold lpDeleteRangeWithEntry, lpBytes.
  rewrite image_total by done. cbn [mbind option_bind].
  destruct (count_bounds n es slack Hes Ht) as [Hcnt Hfuel].
  destruct (Z.eqb_spec num 0) as [->|].
  { assert (es' = es) as -> by (subst es'; rewrite Nat.add_0_r; apply take_drop).
    unfold at_. rewrite decide_True by done. eexists; split; [done|]. by apply rep_image. }
  rewrite range_loop_at by (done || lia). cbn [mbind option_bind].
  set (k := Z.min num (zlen es - Z.of_nat i)). set (j := (i + Z.to_nat k)%nat).
  assert (Ees : es' = take i es ++ drop j es).
  { subst es' j k. f_equal. destruct (decide (num ≤ zlen es - Z.of_nat i)).
    - do 2 f_equal. lia.
    - rewrite !drop_ge by lia. done. }
  destruct (range_split es i j) as (m & Hs & Hj & Hm); [lia|]. rewrite Hj, Ees.
  replace (0 + k) with (zlen m) by lia.
  destruct (remove_mid n (take i es) m (drop j es) slack) as (s' & Hrm); [by rewrite <- Hs..|].
  pose proof (removed_ok n (take i es) m (drop j es)) as Hok. rewrite <- Hs in Hrm, Hok.
  obind Hrm. rewrite E. cbn [mbind option_bind]. rewrite E0. cbn [mbind option_bind].
  rewrite E1. cbn [mbind option_bind]. rewrite E2. cbn [mbind option_bind].
  rewrite Hrm. cbn [mbind option_bind].
  assert (Hes' : Forall valid_payload (take i es ++ drop j es)).
  { apply Forall_app. split; [by apply Forall_take|by apply Forall_drop]. }
  assert (Ht' : total (take i es ++ drop j es) ≤ UINT32_MAX).
  { pose proof (total_delete (take i es) m (drop j es)) as Hd. rewrite <- Hs in Hd. lia. }
  exists (lp_image (bump n (- zlen m)) (take i es ++ drop j es) s').
  split; [|by apply rep_image; auto].
  pose proof (land_at (bump n (- zlen m)) _ s' Hes' Ht' i ltac:(llia)) as Hl.
  rewrite take_app_le, take_take, Nat.min_id in Hl by llia.
  apply bind_Some in Hl as (b & -> & Hl). cbn [mbind option_bind].
  revert Hl. destruct (b =? LP_EOF); intros Hl; [congruence|]. obind Hl. congruence.
Qed.

(** Cutting the listpack at cursor [i]. *)
Lemma truncate_image n es slack i :
  Forall valid_payload es → total es ≤ UINT32_MAX → (i < length es)%nat →
  Z.of_nat i < LP_HDR_NUMELE_UNKNOWN →
  ∃ lp', (lp ← store (lp_image n es slack) (pos (take i es)) [LP_EOF];
          lp ← lpSetTotalBytes lp (pos (take i es) + 1);
          lp ← lpSetNumElements lp (Z.of_nat i);
          lpShrinkToFit lp) = Some lp' ∧ lp_rep lp' (take i es).
Proof.
  intros Hes Ht Hi Hlt. destruct (split_at es Hes i Hi) as (e & r & Hs & Hv & _ & _).
  destruct (valid_payload_head e Hv) as (b & t & -> & _ & _).
  set (h := le_bytes 4 (total es) ++ le_bytes 2 n).
  assert (lp_image n es slack = (h ++ cat (take i es)) ++ [b] ++
    (t ++ lpEncodeBacklen (zlen (b :: t)) ++ cat r ++ LP_EOF :: slack)) as ->.
  { unfold lp_image, h. rewrite Hs at 2. rewrite cat_app, cat_cons. unfold entry.
    by rewrite <- !app_assoc. }
  assert (Hh : zlen (h ++ cat (take i es)) = pos (take i es)) by (unfold h, pos, LP_HDR_SIZE; llia).
  rewrite store_app by (done || lia). cbn [mbind option_bind]. unfold h. rewrite <- !app_assoc.
  rewrite setTotalBytes_app by (by rewrite length_le_bytes). cbn [mbind option_bind].
  rewrite setNumElements_app by (by rewrite length_le_bytes). cbn [mbind option_bind app].
  change (pos (take i es) + 1) with (total (take i es)).
  set (s' := t ++ _). fold (lp_image (Z.of_nat i) (take i es) s').
  pose proof (pos_le_total es i). assert (total (take i es) ≤ UINT32_MAX) by (unfold total in *; lia).
  destruct (shrink_image (Z.of_nat i) (take i es) s') as [s'' ->]; [done|].
  eexists; split; [done|]. apply rep_image; [by apply Forall_take|done|]. right. split; [llia|done].
Qed.

(** What [lpDeleteRange] leaves. *)
Definition range_spec (es : list (list Z)) (index num : Z) : list (list Z) :=
  let i := if index <? 0 then zlen es + index else index in
  if (i <? 0) || (zlen es <=? i) then es
  else take (Z.to_nat i) es ++ drop (Z.to_nat (i + num)) es.

Lemma deleteRange_rep lp es index num :
  lp_rep lp es → 0 ≤ num →
  ∃ lp', lpDeleteRange lp index num = Some lp' ∧ lp_rep lp' (range_spec es index num).
Proof.
  intros Hrep Hnum. pose proof (seek_rep lp es index Hrep) as Hseek.
  pose proof Hrep as (Hes & Ht & n & slack & Hn & ->).
  destruct (count_bounds n es slack Hes Ht) as [Hcnt Hfuel].
  pose proof (numele_range _ _ Hn) as Hnr. unfold lpDeleteRange.
  rewrite image_numele by done. cbn [mbind option_bind]. unfold range_spec.
  set (i := if index <? 0 then zlen es + index else index).
  destruct (Z.eqb_spec num 0) as [->|].
  { eexists; split; [done|]. case_match; [done|]. by rewrite Z.add_0_r, take_drop. }
  rewrite Hseek. unfold seek_spec. fold i. cbn [mbind option_bind]. clear Hseek.
  destruct (Z.ltb_spec i 0); [by eexists|]. cbn [orb]. unfold at_.
  case_decide as Hi; (destruct (Z.leb_spec (zlen es) i); [try lia|try lia]); [|by eexists].
  assert (Hwith : ∃ lp', fst <$> lpDeleteRangeWithEntry (lp_image n es slack)
    (pos (take (Z.to_nat i) es)) num = Some lp' ∧
    lp_rep lp' (take (Z.to_nat i) es ++ drop (Z.to_nat (i + num)) es)).
  { destruct (deleteRangeWithEntry_rep _ _ (Z.to_nat i) num Hrep Hi Hnum) as (lp' & -> & Hr).
    eexists; split; [done|]. by replace (Z.to_nat (i + num)) with (Z.to_nat i + Z.to_nat num)%nat by lia. }
  destruct (Z.eqb_spec n LP_HDR_NUMELE_UNKNOWN) as [|Hk]; cbn [negb andb]; [done|].
  destruct Hn as [|[-> Hlt]]; [done|]. fold i.
  rewrite (wrapu_small 64 i), wrapu_small by ilia. destruct (Z.leb_spec (zlen es - i) num); [|done].
  rewrite (drop_ge es) by lia. rewrite app_nil_r.
  pose proof (truncate_image (zlen es) es slack (Z.to_nat i) Hes Ht Hi ltac:(lia)) as Htr.
  by rewrite Z2Nat.id in Htr.
Qed.

End ranges.


Section deletions.
Context `{Allocator}.

(** [lpDelete], [lpDeleteRangeWithEntry] and [lpDeleteRange] remove
    exactly the entries they name, ranges reaching past the end included, and
    leave a well-formed listpack; the cursor they return is the entry that
    followed the removed ones, or NULL. *)
Lemma lpDelete_correct lp es :
  lp_rep lp es →
  (∀ i newp, (i < length es)%nat →
     let es' := take i es ++ drop (S i) es in
     ∃ lp', lpDelete lp (pos (take i es)) newp =
              Some (Some (lp', if newp then at_ es' i else None)) ∧ lp_rep lp' es') ∧
  (∀ i num, (i < length es)%nat → 0 ≤ num →
     let es' := take i es ++ drop (i + Z.to_nat num) es in
     ∃ lp', lpDeleteRangeWithEntry lp (pos (take i es)) num = Some (lp', at_ es' i) ∧
       lp_rep lp' es') ∧
  (∀ index num, 0 ≤ num →
     ∃ lp', lpDeleteRange lp index num = Some lp' ∧ lp_rep lp' (range_spec es index num)).
Proof.
  intros Hrep. split_and!; intros.
  - by apply delete_rep.
  - by apply deleteRangeWithEntry_rep.
  - by apply deleteRange_rep.
Qed.
End deletions.

(** ** Sequences of operations *)

Inductive lp_op :=
  | OAppend (x : lp_arg)
  | OPrepend (x : lp_arg)
  | OInsert (index : Z) (w : lp_where) (x : lp_arg)
  | ODelete (index : Z)
  | ODeleteRange (index num : Z)
  | OGet (index : Z)
  | OLength.

Inductive lp_out :=
  | OutDone           (* the listpack was changed *)
  | OutFull           (* NULL: too large, nothing changed *)
  | OutNone           (* no such entry *)
  | OutString (s : list Z)
  | OutLength (n : Z).

Section run.
Context `{Allocator}.

Definition lpAppendArg lp x :=
  match x with AStr s => lpAppend lp s | AInt v => lpAppendInteger lp v end.
Definition lpPrependArg lp x :=
  match x with AStr s => lpPrepend lp s | AInt v => lpPrependInteger lp v end.

Definition null_or (lp : list Z) (r : option (list Z)) : list Z * lp_out :=
  match r with Some lp' => (lp', OutDone) | None => (lp, OutFull) end.

Definition lp_step (lp : list Z) (o : lp_op) : option (list Z * lp_out) :=
  match o with
  | OAppend x => null_or lp <$> lpAppendArg lp x
  | OPrepend x => null_or lp <$> lpPrependArg lp x
  | OInsert index w x =>
      p ← lpSeek lp index;
      match p with
      | None => Some (lp, OutNone)
      | Some p => null_or lp <$> no_newp (lpInsertArg lp x p w false)
      end
  | ODelete index =>
      p ← lpSeek lp index;
      match p with
      | None => Some (lp, OutNone)
      | Some p => null_or lp <$> no_newp (lpDelete lp p false)
      end
  | ODeleteRange index num => lp ← lpDeleteRange lp index num; Some (lp, OutDone)
  | OGet index =>
      p ← lpSeek lp index;
      match p with
      | None => Some (lp, OutNone)
      | Some p =>
          r ← lpGet lp p (Some (replicate (Z.to_nat LP_INTBUF_SIZE) 0));
          s ← ret_string lp r; Some (lp, OutString s)
      end
  | OLength => '(lp, n) ← lpLength lp; Some (lp, OutLength n)
  end.

Fixpoint lp_run (lp : list Z) (os : list lp_op) : option (list lp_out) :=
  match os with
  | [] => Some []
  | o :: os => '(lp, out) ← lp_step lp o; outs ← lp_run lp os; Some (out :: outs)
  end.
End run.

(** The abstract listpack: a list of strings and the bytes they need. *)
Definition lp_size (xs : list (list Z)) : Z := total (lp_encode <$> xs).

Definition resolve (xs : list (list Z)) (index : Z) : option nat :=
  let i := if index <? 0 then zlen xs + index else index in
  if (i <? 0) || (zlen xs <=? i) then None else Some (Z.to_nat i).

Definition abs_update (xs xs' : list (list Z)) : list (list Z) * lp_out :=
  if lp_size xs' >? UINT32_MAX then (xs, OutFull) else (xs', OutDone).

Definition abs_step (xs : list (list Z)) (o : lp_op) : list (list Z) * lp_out :=
  match o with
  | OAppend x => abs_update xs (xs ++ [arg_string x])
  | OPrepend x => abs_update xs (arg_string x :: xs)
  | OInsert index w x =>
      match resolve xs index with
      | Some i => abs_update xs (insert_spec xs i w (arg_string x))
      | None => (xs, OutNone)
      end
  | ODelete index =>
      match resolve xs index with
      | Some i => (take i xs ++ drop (S i) xs, OutDone)
      | None => (xs, OutNone)
      end
  | ODeleteRange index num => (range_spec xs index num, OutDone)
  | OGet index =>
      match resolve xs index with
      | Some i => (xs, OutString (default [] (xs !! i)))
      | None => (xs, OutNone)
      end
  | OLength => (xs, OutLength (zlen xs))
  end.

Fixpoint abs_run (xs : list (list Z)) (os : list lp_op) : list lp_out :=
  match os with
  | [] => []
  | o :: os => let '(xs, out) := abs_step xs o in out :: abs_run xs os
  end.

Definition op_ok (o : lp_op) : Prop :=
  match o with
  | OAppend x | OPrepend x | OInsert _ _ x => arg_ok x
  | ODeleteRange _ num => 0 ≤ num
  | _ => True
  end.


(** A listpack that holds the strings [xs]. *)
Definition str_ok (s : list Z) : Prop := Forall is_byte s ∧ zlen s < 2 ^ 32 - 5.
Definition lp_strings (lp : list Z) (xs : list (list Z)) : Prop :=
  lp_rep lp (lp_encode <$> xs) ∧ Forall str_ok xs.

Lemma insert_spec_fmap xs i w s :
  insert_spec (lp_encode <$> xs) i w (lp_encode s) = lp_encode <$> insert_spec xs i w s.
Proof. destruct w; cbn [insert_spec]; by rewrite !fmap_app, ?fmap_take, ?fmap_drop. Qed.

Lemma insert_spec_Forall P xs i w s : Forall P xs → P s → Forall P (insert_spec xs i w s).
Proof.
  intros Hxs Hs. destruct w; cbn [insert_spec];
    (repeat apply Forall_app_2; [by apply Forall_take|by apply Forall_singleton|by apply Forall_drop]).
Qed.

Lemma range_spec_fmap xs index num :
  range_spec (lp_encode <$> xs) index num = lp_encode <$> range_spec xs index num.
Proof.
  unfold range_spec. rewrite length_fmap. case_match; [done|]. by rewrite fmap_app, fmap_take, fmap_drop.
Qed.

Lemma range_spec_Forall P xs index num : Forall P xs → Forall P (range_spec xs index num).
Proof.
  intros. unfold range_spec. case_match; [done|].
  apply Forall_app_2; [by apply Forall_take|by apply Forall_drop].
Qed.

(** [lpSeek] on strings. *)
Lemma seek_strings lp xs index :
  lp_strings lp xs →
  lpSeek lp index = Some ((λ i, pos (take i (lp_encode <$> xs))) <$> resolve xs index).
Proof.
  intros [Hrep _]. rewrite (seek_rep _ _ index Hrep). unfold seek_spec, resolve.
  rewrite length_fmap. set (i := if index <? 0 then _ else _).
  destruct (Z.ltb_spec i 0); [done|]. cbn [orb]. unfold at_. rewrite length_fmap.
  destruct (Z.leb_spec (zlen xs) i); [rewrite decide_False by lia|rewrite decide_True by lia]; done.
Qed.

Lemma resolve_lt xs index i : resolve xs index = Some i → (i < length xs)%nat.
Proof.
  unfold resolve. set (k := if index <? 0 then _ else _).
  destruct (Z.ltb_spec k 0), (Z.leb_spec (zlen xs) k); cbn [orb]; intros; simplify_eq; lia.
Qed.

Section refinement.
Context `{Allocator}.

Lemma insert_strings lp xs i w x :
  lp_strings lp xs → index_ok (lp_encode <$> xs) i w → arg_ok x →
  let '(xs', out) := abs_update xs (insert_spec xs i w (arg_string x)) in
  ∃ lp', null_or lp <$> no_newp (lpInsertArg lp x (pos (take i (lp_encode <$> xs))) w false) =
           Some (lp', out) ∧ lp_strings lp' xs'.
Proof.
  intros [Hrep Hxs] Hi Hx. pose proof (insert_arg_rep lp _ i w x false Hrep Hi Hx) as Hins.
  cbv zeta in Hins. pose proof (arg_fits x (lp_encode <$> xs) i w Hx) as Hfit.
  rewrite arg_bytes_encode, insert_spec_fmap in Hins, Hfit by done.
  unfold abs_update, lp_size. rewrite Z.gtb_ltb in *. 
  destruct (Z.ltb_spec UINT32_MAX (total (lp_encode <$> insert_spec xs i w (arg_string x)))).
  - rewrite Hins. by exists lp.
  - destruct Hins as (lp' & -> & Hrep' & _). exists lp'. split; [done|]. split; [done|].
    by apply insert_spec_Forall, Hfit.
Qed.

Lemma append_insert lp es x :
  lp_rep lp es →
  lpAppendArg lp x = no_newp (lpInsertArg lp x (pos (take (length es) es)) LP_BEFORE false).
Proof.
  intros (Hes & Ht & n & slack & Hn & ->). rewrite take_ge by lia.
  destruct x; unfold lpAppendArg, lpInsertArg, lpAppend, lpAppendInteger; rewrite image_total by done;
    cbn [mbind option_bind]; unfold total; by replace (pos es + 1 - 1) with (pos es) by lia.
Qed.

Lemma prepend_insert lp es x :
  lp_rep lp es → lpPrependArg lp x = no_newp (lpInsertArg lp x (pos (take 0 es)) LP_BEFORE false).
Proof.
  intros Hrep. pose proof (append_insert lp es x Hrep) as Happ.
  destruct Hrep as (Hes & Ht & n & slack & Hn & ->).
  destruct es as [|e es]; destruct x; unfold lpPrependArg, lpPrepend, lpPrependInteger;
    rewrite first_at by done; cbn [mbind option_bind]; done.
Qed.

Lemma get_strings lp xs i s :
  lp_strings lp xs → xs !! i = Some s →
  (r ← lpGet lp (pos (take i (lp_encode <$> xs))) (Some (replicate (Z.to_nat LP_INTBUF_SIZE) 0));
   ret_string lp r) = Some s.
Proof.
  intros [(Hes & Ht & n & slack & Hn & ->) Hxs] Hi.
  destruct (split_at _ Hes i) as (e & r & Hs & _ & _ & _).
  { rewrite length_fmap. by eapply lookup_lt_Some. }
  assert (e = lp_encode s) as ->.
  { apply (f_equal (.!! i)) in Hs. rewrite list_lookup_fmap, Hi in Hs. simpl in Hs.
    apply lookup_lt_Some in Hi.
    rewrite lookup_app_r in Hs by (rewrite length_take, length_fmap; lia).
    rewrite length_take, length_fmap in Hs. replace (i - _)%nat with 0%nat in Hs by lia.
    by injection Hs. }
  eapply Forall_lookup_1 in Hxs as [Hb Hl]; [|done].
  destruct (image_at n (take i (lp_encode <$> xs)) (lp_encode s) r slack) as (a & Ea & Ha).
  rewrite <- Hs in Ea. rewrite Ea, <- Ha.
  destruct (element_read a s (lpEncodeBacklen (zlen (lp_encode s)) ++ cat r ++ LP_EOF :: slack)
    (replicate (Z.to_nat LP_INTBUF_SIZE) 0)) as (ret & Hr & Hstr); [done..|].
  unfold lpGet. rewrite Hr. done.
Qed.

Lemma step_refines lp xs o :
  lp_strings lp xs → op_ok o →
  ∃ lp', lp_step lp o = Some (lp', snd (abs_step xs o)) ∧ lp_strings lp' (fst (abs_step xs o)).
Proof.
  intros Hst Ho. pose proof Hst as [Hrep Hxs].
  destruct o as [x|x|index w x|index|index num|index|]; cbn [lp_step abs_step op_ok] in *.
  - pose proof (insert_strings lp xs (length xs) LP_BEFORE x Hst) as Hins.
    rewrite (append_insert _ _ x Hrep), length_fmap. simpl in Hins.
    rewrite length_fmap, (firstn_all xs), drop_ge in Hins by lia.
    specialize (Hins ltac:(lia) Ho). by destruct (abs_update _ _).
  - pose proof (insert_strings lp xs 0 LP_BEFORE x Hst) as Hins.
    rewrite (prepend_insert _ _ x Hrep). simpl in Hins. specialize (Hins ltac:(lia) Ho).
    by destruct (abs_update _ _).
  - rewrite (seek_strings _ _ index Hst). cbn [mbind option_bind].
    destruct (resolve xs index) as [i|] eqn:Ei; [|by exists lp]. simpl.
    apply resolve_lt in Ei. pose proof (insert_strings lp xs i w x Hst) as Hins.
    specialize (Hins ltac:(unfold index_ok; destruct w; rewrite length_fmap; lia) Ho).
    by destruct (abs_update _ _).
  - rewrite (seek_strings _ _ index Hst). cbn [mbind option_bind].
    destruct (resolve xs index) as [i|] eqn:Ei; [|by exists lp]. simpl.
    apply resolve_lt in Ei.
    destruct (delete_rep lp _ i false Hrep) as (lp' & -> & Hrep'); [by rewrite length_fmap|].
    exists lp'. split; [done|]. split; simpl.
    + by rewrite fmap_app, fmap_take, fmap_drop.
    + apply Forall_app_2; [by apply Forall_take|by apply Forall_drop].
  - destruct (deleteRange_rep lp _ index num Hrep Ho) as (lp' & -> & Hrep').
    exists lp'. split; [done|].
    split; simpl; [by rewrite <- range_spec_fmap|by apply range_spec_Forall].
  - rewrite (seek_strings _ _ index Hst). cbn [mbind option_bind].
    destruct (resolve xs index) as [i|] eqn:Ei; [|by exists lp]. cbn [fmap option_fmap option_map].
    apply resolve_lt in Ei. destruct (lookup_lt_is_Some_2 xs i Ei) as [s Hs].
    pose proof (get_strings lp xs i s Hst Hs) as Hg. apply bind_Some in Hg as (r & -> & Hg).
    cbn [mbind option_bind]. rewrite Hg, Hs. cbn [mbind option_bind default]. by exists lp.
  - destruct (length_rep lp _ Hrep) as (lp' & -> & Hrep' & _). cbn [mbind option_bind].
    exists lp'. by rewrite length_fmap.
Qed.

Lemma run_refines os : ∀ lp xs,
  lp_strings lp xs → Forall op_ok os → lp_run lp os = Some (abs_run xs os).
Proof.
  induction os as [|o os IH]; intros lp xs Hst Hos; [done|]. inv Hos. cbn [lp_run abs_run].
  destruct (step_refines lp xs o) as (lp' & -> & Hst'); [done..|].
  destruct (abs_step xs o) as [xs' out]. cbn [mbind option_bind]. simpl in *.
  by rewrite (IH lp' xs').
Qed.

(** C21: from an empty listpack of any capacity, every sequence of appends,
    prepends, inserts, replacements, deletions, range deletions, reads and
    length queries answers like the same sequence on a list of strings; a
    change is refused exactly when the listpack would exceed 2^32-1 bytes,
    and nothing leaves its block or fails an assertion. *)
Theorem lp_run_refines capacity os :
  Forall op_ok os → (lp ← lpNew capacity; lp_run lp os) = Some (abs_run [] os).
Proof.
  intros Hos. destruct (lpNew_rep capacity) as (lp & -> & Hrep & _). cbn [mbind option_bind].
  by apply run_refines.
Qed.
End refinement.


(** ** Witnesses *)

Definition demo_ops : list lp_op :=
  [OAppend (AStr (bytes_of "b")); OPrepend (AInt (-70000)); OInsert (-1) LP_AFTER (AStr (bytes_of "12"));
   OLength; OGet 0; OInsert 1 LP_REPLACE (AInt 7); ODelete 0; OGet (-1); ODeleteRange 0 1; OGet 5].

Lemma lp_run_witness :
  (lp ← lpNew (H := exact_allocator) 0; lp_run (H := exact_allocator) lp demo_ops) =
    Some (abs_run [] demo_ops).
Proof.
  apply (lp_run_refines (H := exact_allocator) 0 demo_ops).
  unfold demo_ops. repeat apply Forall_cons_2; try apply Forall_nil_2; simpl;
    try done; try (unfold sfits; lia); try (split; [by apply (bool_decide_unpack _)|by vm_compute]).
Defined.

Example demo_run : abs_run [] demo_ops =
  [OutDone; OutDone; OutDone; OutLength 3; OutString (bytes_of "-70000"); OutDone; OutDone;
   OutString (bytes_of "12"); OutDone; OutNone].
Proof. reflexivity. Qed.

End ListpackEdit.
