(* ===== verification/ListpackBulk.v ===== *)
(** * listpack.c: batch deletion, merging, copying and searching *)

From S2P Require Import Prelude Util Listpack ListpackNav ListpackEdit.
Import Util Listpack ListpackNav ListpackEdit.

Module ListpackBulk.

Section ops.
Context `{Allocator}.

(** The [for] loop of [lpBatchDelete] over [ps], returning [dst]. *)
Fixpoint batch_delete_loop (lp : list Z) (lp_end : Z) (ps : list Z) (dst : Z)
    : option (list Z * Z) :=
  match ps with
  | [] => Some (lp, dst)
  | skip :: ps =>
      b ← load8 lp skip;
      _ ← assert (negb (b =? LP_EOF));
      keep_start ← lpSkip lp skip;
      let keep_end := match ps with next :: _ => next | [] => lp_end end in
      if (match ps with [] => false | _ => true end) && (keep_start =? keep_end)
      then batch_delete_loop lp lp_end ps dst
      else
        _ ← assert (keep_end >? keep_start);
        let bytes_to_keep := keep_end - keep_start in
        lp ← memmove lp dst keep_start bytes_to_keep;
        batch_delete_loop lp lp_end ps (dst + bytes_to_keep)
  end.

Definition lpBatchDelete (lp : list Z) (ps : list Z) : option (list Z) :=
  let count := zlen ps in
  match ps with
  | [] => Some lp
  | dst :: _ =>
      total_bytes ← lpGetTotalBytes lp;
      let lp_end := total_bytes in
      b ← load8 lp (lp_end - 1);
      _ ← assert (b =? LP_EOF);
      '(lp, dst) ← batch_delete_loop lp lp_end ps dst;
      let deleted_bytes := lp_end - dst in
      let total_bytes := u64 (total_bytes - deleted_bytes) in
      b ← load8 lp (total_bytes - 1);
      _ ← assert (b =? LP_EOF);
      lp ← lpSetTotalBytes lp total_bytes;
      numele ← lpGetNumElements lp;
      lp ← (if negb (numele =? LP_HDR_NUMELE_UNKNOWN)
            then lpSetNumElements lp (u64 (numele - count)) else Some lp);
      lpShrinkToFit lp
  end.

(** [same] is [*first == *second].  The result says which of the two was
    kept; the other one is freed and its pointer set to NULL. *)
Definition lpMerge (first second : option (list Z)) (same : bool)
    : option (option (list Z * bool)) :=
  match first, second with
  | Some first, Some second =>
  if same then Some None else
  first_bytes ← lpBytes first;
  '(first, first_len) ← lpLength first;
  second_bytes ← lpBytes second;
  '(second, second_len) ← lpLength second;
  let append := first_bytes >=? second_bytes in
  let '(target, target_bytes, source, source_bytes) :=
    if append then (first, first_bytes, second, second_bytes)
    else (second, second_bytes, first, first_bytes) in
  let lpbytes := u64 (first_bytes + second_bytes - LP_HDR_SIZE - 1) in
  _ ← assert (lpbytes <? UINT32_MAX);
  let lplength := first_len + second_len in
  let lplength := if lplength <? UINT16_MAX then lplength else UINT16_MAX in
  let target := realloc (Z.to_nat lpbytes) target in
  target ←
    (if append then
       bs ← load source LP_HDR_SIZE (source_bytes - LP_HDR_SIZE);
       store target (target_bytes - 1) bs
     else
       target ← memmove target (source_bytes - 1) LP_HDR_SIZE (target_bytes - LP_HDR_SIZE);
       bs ← load source 0 (source_bytes - 1);
       store target 0 bs);
  target ← lpSetNumElements target lplength;
  target ← lpSetTotalBytes target lpbytes;
  Some (Some (target, append))
  | _, _ => Some None
  end.

Definition lpDup (lp : list Z) : option (list Z) :=
  lpbytes ← lpBytes lp;
  let newlp := fresh (usable (Z.to_nat lpbytes)) in
  bs ← load lp 0 lpbytes;
  store newlp 0 bs.
End ops.

Definition lpEstimateBytesRepeatedInteger (lval rep : Z) : Z :=
  let enclen := zlen (lpEncodeIntegerGetType lval) in
  let backlen := zlen (lpEncodeBacklen enclen) in
  u64 (LP_HDR_SIZE + (enclen + backlen) * rep + 1).

(** ** Searching *)

(** [vencoding]: 0 is not tried, 1 carries [vll], UCHAR_MAX is not an integer. *)
Inductive vencoding_t := VUnknown | VInt (vll : Z) | VNotInt.

Fixpoint find_loop (fuel : nat) (lp : list Z) (lp_bytes : Z) (s : list Z) (skip : Z)
    (p skipcnt : Z) (vencoding : vencoding_t) (entry_size : Z) : option (option Z) :=
  match fuel with
  | O => None
  | S fuel =>
      let slen := zlen s in
      (* the checks at the bottom of the loop *)
      let next p skipcnt vencoding entry_size :=
        _ ← (if p + 8 >=? lp_bytes then lpAssertValidEntry lp lp_bytes p
             else assert ((p >=? LP_HDR_SIZE) && (p <? lp_bytes)));
        b ← load8 lp p;
        if b =? LP_EOF then Some None
        else find_loop fuel lp lp_bytes s skip p skipcnt vencoding entry_size in
      if skipcnt =? 0 then
        '(value, size) ← lpGetWithSize lp p None;
        let entry_size := default entry_size size in
        match value with
        | RetPtr off ll =>
            _ ← assert ((p >=? LP_HDR_SIZE) && (p + entry_size <? lp_bytes));
            (* memcmp is evaluated only when the lengths agree *)
            equal ← (if slen =? ll then bs ← load lp off slen; Some (bool_decide (bs = s))
                     else Some false);
            if equal : bool then Some (Some p)
            else next (p + entry_size) (s32 skip) vencoding entry_size
        | RetInt ll =>
            let vencoding :=
              match vencoding with
              | VUnknown =>
                  if (slen >=? 32) || (slen =? 0) then VNotInt
                  else match lpStringToInt64 s with Some vll => VInt vll | None => VNotInt end
              | _ => vencoding
              end in
            if (match vencoding with VInt vll => ll =? vll | _ => false end) then Some (Some p)
            else next (p + entry_size) (s32 skip) vencoding entry_size
        | RetBuf _ _ => None
        end
      else
        p ← lpSkip lp p;
        next p (s32 (skipcnt - 1)) vencoding entry_size
  end.

Definition lpFind (lp : list Z) (p : Z) (s : list Z) (skip : Z) : option (option Z) :=
  let s := first_slen s in
  lp_bytes ← lpBytes lp;
  find_loop (length lp) lp lp_bytes s skip p 0 VUnknown 123456789.

Definition lpCompare (lp : list Z) (p : Z) (s : list Z) : option bool :=
  let s := first_slen s in
  b ← load8 lp p;
  if b =? LP_EOF then Some false
  else
    value ← lpGet lp p None;
    match value with
    | RetPtr off sz =>
        if zlen s =? sz then bs ← load lp off (zlen s); Some (bool_decide (bs = s))
        else Some false
    | RetInt sz =>
        Some (match lpStringToInt64 s with Some sval => sz =? sval | None => false end)
    | RetBuf _ _ => None
    end.


(** ** Searching *)

Section find.
Context (lp : list Z) (xs : list (list Z)).
Context (Hst : lp_strings lp xs).
Let es := lp_encode <$> xs.

(** What [lpGetWithSize] says about the string stored at cursor [i]. *)
Inductive stored (p : Z) (x : list Z) : lp_ret → Prop :=
  | stored_int v : sfits 64 v → x = sdec v → stored p x (RetInt v)
  | stored_str off : load lp off (zlen x) = Some x → string2ll x = None →
      stored p x (RetPtr off (zlen x)).

Lemma get_stored i x :
  xs !! i = Some x →
  ∃ r size, lpGetWithSize lp (pos (take i es)) None = Some (r, Some size) ∧
    stored (pos (take i es)) x r ∧ pos (take i es) + size = pos (take (S i) es).
Proof.
  intros Hi. destruct Hst as [(Hes & Ht & n & slack & Hn & Elp) Hxs]. fold es in Hes, Ht, Hn, Elp.
  assert (Hil : (i < length es)%nat) by (unfold es; rewrite length_fmap; by eapply lookup_lt_Some).
  destruct (split_at es Hes i Hil) as (e & r & Hs & _ & Hsnoc & _).
  assert (e = lp_encode x) as ->.
  { assert (es !! i = Some (lp_encode x)) as Hx by (unfold es; by rewrite list_lookup_fmap, Hi).
    rewrite Hs in Hx. rewrite lookup_app_r in Hx by llia.
    replace (i - _)%nat with 0%nat in Hx by llia. by injection Hx. }
  eapply Forall_lookup_1 in Hxs as [Hb Hl]; [|done].
  destruct (image_at n (take i es) (lp_encode x) r slack) as (a & Ea & Ha).
  rewrite <- Hs, <- Elp in Ea. rewrite Hsnoc, pos_snoc, Ea, <- Ha.
  destruct (lp_encode_cases x) as [(v & Hv & -> & _ & ->)|(Hnone & _ & Ee)].
  - do 2 eexists. split; [apply get_frame, enc_int_get, Hv|]. split; [by constructor|lia].
  - rewrite Ee in Ea |- *. destruct (enc_str_get x Hb Hl) as (_ & _ & Hg & Hload).
    do 2 eexists. split; [apply get_frame, Hg|]. split; [|lia]. simpl. constructor; [|done].
    rewrite Ea. by apply load_frame.
Qed.

(** The check at the bottom of the loop. *)
Lemma bottom_check i bytes :
  lpGetTotalBytes lp = Some bytes → (i ≤ length xs)%nat →
  let p := pos (take i es) in
  (_ ← (if p + 8 >=? bytes then lpAssertValidEntry lp bytes p
        else assert ((p >=? LP_HDR_SIZE) && (p <? bytes))); load8 lp p) = load8 lp p ∧
  ∃ b, load8 lp p = Some b ∧ (b =? LP_EOF) = bool_decide (i = length xs).
Proof.
  intros Hbytes Hi p. subst p. destruct Hst as [(Hes & Ht & n & slack & Hn & Elp) _]. fold es in Hes, Ht, Hn, Elp.
  assert (length es = length xs) as Hl by (unfold es; by rewrite length_fmap).
  rewrite Elp, image_total in Hbytes by done. injection Hbytes as <-.
  pose proof (pos_ge (take i es)). pose proof (pos_le_total es i). subst lp. split.
  - rewrite !Z.geb_leb. destruct (Z.leb_spec (total es) (pos (take i es) + 8)).
    + by rewrite assert_entry by (done || lia).
    + unfold LP_HDR_SIZE. destruct (Z.leb_spec 6 (pos (take i es))); [|lia].
      destruct (Z.ltb_spec (pos (take i es)) (total es)); [done|unfold total in *; lia].
  - case_bool_decide as Hc.
    + exists LP_EOF. rewrite take_ge by lia. by rewrite end_head.
    + destruct (entry_head n es slack Hes i) as (b & Hb & Hne); [lia|]. exists b.
      split; [done|]. by apply Z.eqb_neq.
Qed.

(** [vencoding] is what is known of [s] as an integer. *)
Definition venc_ok (s : list Z) (v : vencoding_t) : Prop :=
  match v with
  | VUnknown => True
  | VInt vll => string2ll s = Some vll
  | VNotInt => string2ll s = None
  end.

(** The search on the strings: [c] entries are skipped first. *)
Fixpoint find_from (s : list Z) (skip : nat) (ys : list (list Z)) (c i : nat) : option nat :=
  match ys with
  | [] => None
  | y :: ys =>
      match c with
      | O => if decide (y = s) then Some i else find_from s skip ys skip (S i)
      | S c => find_from s skip ys c (S i)
      end
  end.

Lemma string2ll_guard s :
  (if (zlen s >=? 32) || (zlen s =? 0) then VNotInt
   else match lpStringToInt64 s with Some vll => VInt vll | None => VNotInt end) =
  match string2ll s with Some vll => VInt vll | None => VNotInt end.
Proof.
  rewrite lpStringToInt64_string2ll. destruct (string2ll s) as [v|] eqn:E.
  - apply string2ll_sound in E as [Hv ->]. pose proof (sdec_pos_length v Hv).
    rewrite Z.geb_leb. destruct (Z.leb_spec 32 (zlen (sdec v))); [lia|].
    destruct (Z.eqb_spec (zlen (sdec v)) 0); [lia|done].
  - by destruct (_ || _).
Qed.

(** An integer entry equals [s] when [s] parses to it. *)
Lemma int_match s v vll :
  sfits 64 v → string2ll s = vll →
  match vll with Some w => v =? w | None => false end = bool_decide (sdec v = s).
Proof.
  intros Hv <-. destruct (string2ll s) as [w|] eqn:E.
  - apply string2ll_sound in E as [Hw ->]. case_bool_decide as Hc.
    + apply Z.eqb_eq. by apply sdec_inj.
    + apply Z.eqb_neq. congruence.
  - case_bool_decide as Hc; [|done]. subst s. by rewrite string2ll_complete in E.
Qed.

Lemma find_loop_at fuel bytes s skip :
  lpGetTotalBytes lp = Some bytes → 0 ≤ skip < 2 ^ 31 →
  ∀ i c v size, (i < length xs)%nat → (length xs - i ≤ fuel)%nat → (c ≤ Z.to_nat skip)%nat →
  venc_ok s v →
  find_loop fuel lp bytes s skip (pos (take i es)) (Z.of_nat c) v size =
    Some ((λ j, pos (take j es)) <$> find_from s (Z.to_nat skip) (drop i xs) c i).
Proof.
  intros Hbytes Hskip. induction fuel as [|fuel IH]; intros i c v size Hi Hf Hc Hv; [lia|].
  destruct (lookup_lt_is_Some_2 xs i Hi) as [x Hx]. rewrite (drop_S _ _ _ Hx).
  assert (Hnext : ∀ c' v' size', (c' ≤ Z.to_nat skip)%nat → venc_ok s v' →
    (_ ← (if pos (take (S i) es) + 8 >=? bytes then lpAssertValidEntry lp bytes (pos (take (S i) es))
          else assert ((pos (take (S i) es) >=? LP_HDR_SIZE) && (pos (take (S i) es) <? bytes)));
     b ← load8 lp (pos (take (S i) es));
     if b =? LP_EOF then Some None
     else find_loop fuel lp bytes s skip (pos (take (S i) es)) (Z.of_nat c') v' size') =
    Some ((λ j, pos (take j es)) <$> find_from s (Z.to_nat skip) (drop (S i) xs) c' (S i))).
  { intros c' v' size' Hc' Hv'. destruct (bottom_check (S i) bytes Hbytes) as [Hchk (b & Hb & Heof)]; [lia|].
    cbv zeta in Hchk. rewrite Hb in Hchk. apply bind_Some in Hchk as ([] & -> & _).
    cbn [mbind option_bind]. rewrite Hb. cbn [mbind option_bind]. rewrite Heof.
    case_bool_decide as Hlen; [rewrite drop_ge by lia; done|]. apply IH; (done || lia). }
  cbn [find_loop find_from]. destruct c as [|c].
  - destruct (get_stored i x Hx) as (r & sz & Hg & Hr & Hsz). change (Z.of_nat 0 =? 0) with true.
    cbv iota zeta beta. rewrite Hg. cbn [mbind option_bind from_option]. unfold id. rewrite Hsz.
    assert (Hs32 : s32 skip = Z.of_nat (Z.to_nat skip)) by (rewrite wraps_small; unfold sfits; lia).
    rewrite Hs32. destruct Hr as [w Hw ->|off Hload Hnone].
    + rewrite string2ll_guard. set (v' := match v with VUnknown => _ | _ => _ end).
      assert (v' = match string2ll s with Some vll => VInt vll | None => VNotInt end) as ->
        by (subst v'; destruct v; simpl in Hv; by rewrite ?Hv).
      assert (venc_ok s (match string2ll s with Some vll => VInt vll | None => VNotInt end))
        by (by destruct (string2ll s) eqn:E; simpl).
      assert ((match (match string2ll s with Some vll => VInt vll | None => VNotInt end) with
               | VInt vll => w =? vll | _ => false end) = bool_decide (sdec w = s)) as ->
        by (rewrite <- (int_match s w (string2ll s)) by done; by destruct (string2ll s)).
      case_bool_decide; [by rewrite decide_True|rewrite decide_False by done]. by apply Hnext.
    + assert (Hchk : pos (take (S i) es) < bytes ∧ 6 ≤ pos (take i es)).
      { destruct Hst as [(Hes & Ht & n & slack & Hn & Elp) _]. fold es in Ht, Elp.
        rewrite Elp, image_total in Hbytes by done. injection Hbytes as <-.
        pose proof (pos_ge (take i es)). pose proof (pos_le_total es (S i)). unfold total. lia. }
      assert ((pos (take i es) >=? LP_HDR_SIZE) && (pos (take (S i) es) <? bytes) = true) as ->
        by (unfold LP_HDR_SIZE; apply andb_true_iff; rewrite Z.geb_leb, Z.leb_le, Z.ltb_lt; lia).
      cbn [assert mbind option_bind].
      assert ((if zlen s =? zlen x then bs ← load lp off (zlen s); Some (bool_decide (bs = s))
               else Some false) = Some (bool_decide (x = s))) as ->.
      { destruct (Z.eqb_spec (zlen s) (zlen x)) as [->|]; [by rewrite Hload|].
        by rewrite bool_decide_false by congruence. }
      cbn [mbind option_bind]. case_bool_decide; [by rewrite decide_True|rewrite decide_False by done].
      by apply Hnext.
  - destruct (Z.eqb_spec (Z.of_nat (S c)) 0) as [|Hc0]; [lia|].
    assert (lpSkip lp (pos (take i es)) = Some (pos (take (S i) es))) as ->.
    { destruct Hst as [(Hes & Ht & n & slack & Hn & Elp) _]. fold es in Hes, Ht, Elp. rewrite Elp.
      apply next_pos; [done..|]. unfold es. by rewrite length_fmap. }
    cbn [mbind option_bind].
    replace (s32 (Z.of_nat (S c) - 1)) with (Z.of_nat c) by (rewrite wraps_small; unfold sfits; lia).
    apply Hnext; [lia|done].
Qed.
End find.


(** The first hit among the entries [c], [c + (skip+1)], [c + 2(skip+1)], ... *)
Lemma find_from_spec s skip ys : ∀ c i,
  match find_from s skip ys c i with
  | Some j => ∃ m, j = (i + (c + m * S skip))%nat ∧ ys !! (c + m * S skip)%nat = Some s ∧
      ∀ m', (m' < m)%nat → ys !! (c + m' * S skip)%nat ≠ Some s
  | None => ∀ m, ys !! (c + m * S skip)%nat ≠ Some s
  end.
Proof.
  induction ys as [|y ys IH]; intros c i; [done|]. cbn [find_from]. destruct c as [|c].
  - destruct (decide (y = s)) as [->|Hne].
    { exists 0%nat. split_and!; [lia|done|intros; lia]. }
    assert (H0 : ∀ m, (y :: ys) !! (0 + S m * S skip)%nat = ys !! (skip + m * S skip)%nat) by done.
    pose proof (IH skip (S i)) as Hf. destruct (find_from s skip ys skip (S i)) as [j|].
    + destruct Hf as (m & -> & Hm & Hlt). exists (S m). rewrite H0. split_and!; [lia|done|].
      intros [|m'] Hm'; [simpl; congruence|]. rewrite H0. apply Hlt. lia.
    + intros [|m]; [simpl; congruence|]. rewrite H0. apply Hf.
  - pose proof (IH c (S i)) as Hf. destruct (find_from s skip ys c (S i)) as [j|].
    + destruct Hf as (m & -> & Hm & Hlt). exists m. split_and!; [lia|done|done].
    + done.
Qed.

Lemma compare_strings lp xs i s :
  lp_strings lp xs → (i < length xs)%nat → zlen s < 2 ^ 32 →
  lpCompare lp (pos (take i (lp_encode <$> xs))) s = Some (bool_decide (xs !! i = Some s)).
Proof.
  intros Hst Hi Hsl. pose proof Hst as [(Hes & Ht & n & slack & Hn & Elp) _].
  destruct (lookup_lt_is_Some_2 xs i Hi) as [x Hx]. rewrite Hx.
  destruct (bottom_check lp xs Hst i (total (lp_encode <$> xs))) as [_ (b & Hb & Heof)];
    [by rewrite Elp, image_total|lia|].
  unfold lpCompare. rewrite (first_slen_all s Hsl), Hb. cbn [mbind option_bind]. rewrite Heof, bool_decide_false by lia.
  destruct (get_stored lp xs Hst i x Hx) as (r & sz & Hg & Hr & _). unfold lpGet. rewrite Hg.
  cbn [mbind option_bind fmap option_fmap option_map fst].
  destruct Hr as [w Hw ->|off Hload Hnone].
  - rewrite lpStringToInt64_string2ll, (int_match s w _ Hw eq_refl).
    f_equal. apply bool_decide_ext. naive_solver.
  - destruct (Z.eqb_spec (zlen s) (zlen x)) as [El|El].
    + rewrite El, Hload. cbn [mbind option_bind]. f_equal. apply bool_decide_ext. naive_solver.
    + by rewrite bool_decide_false by congruence.
Qed.

Lemma find_strings lp xs i s skip :
  lp_strings lp xs → (i < length xs)%nat → 0 ≤ skip < 2 ^ 31 → zlen s < 2 ^ 32 →
  let ptr j := pos (take j (lp_encode <$> xs)) in
  let probe m := (i + m * S (Z.to_nat skip))%nat in
  ∃ r, lpFind lp (ptr i) s skip = Some (ptr <$> r) ∧
    match r with
    | Some j => ∃ m, j = probe m ∧ xs !! j = Some s ∧ ∀ m', (m' < m)%nat → xs !! probe m' ≠ Some s
    | None => ∀ m, xs !! probe m ≠ Some s
    end.
Proof.
  intros Hst Hi Hskip Hsl ptr probe. pose proof Hst as [(Hes & Ht & n & slack & Hn & Elp) _].
  pose proof (count_bounds n _ slack Hes Ht) as [_ Hfuel]. rewrite length_fmap, <- Elp in Hfuel.
  assert (lpGetTotalBytes lp = Some (total (lp_encode <$> xs))) as Hb by (by rewrite Elp, image_total).
  unfold lpFind, lpBytes. rewrite (first_slen_all s Hsl), Hb. cbn [mbind option_bind].
  pose proof (find_loop_at lp xs Hst (length lp) _ s skip Hb Hskip i 0 VUnknown 123456789) as Hf.
  change (Z.of_nat 0) with 0 in Hf. change (ptr i) with (pos (take i (lp_encode <$> xs))).
  rewrite Hf by (done || lia). eexists; split; [done|].
  pose proof (find_from_spec s (Z.to_nat skip) (drop i xs) 0 i) as Hspec.
  destruct (find_from _ _ _ _ _) as [j|].
  - destruct Hspec as (m & -> & Hm & Hlt). exists m. subst probe. cbn [Nat.add] in *.
    split_and!; [done|by rewrite <- lookup_drop|].
    intros m' Hm'. rewrite <- lookup_drop. by apply Hlt.
  - intros m. subst probe. cbn [Nat.add] in *. by rewrite <- lookup_drop.
Qed.

(** [lpFind] from cursor [i], looking at one entry in [skip+1], returns
    the first of them that equals [s] as a string, however the entries are
    encoded, and NULL when there is none; [lpCompare] is that equality.  The
    string is shorter than 2^32 bytes. *)
Lemma lpFind_correct lp xs i s skip :
  lp_strings lp xs → (i < length xs)%nat → 0 ≤ skip < 2 ^ 31 → zlen s < 2 ^ 32 →
  let ptr j := pos (take j (lp_encode <$> xs)) in
  let probe m := (i + m * S (Z.to_nat skip))%nat in
  (∃ r, lpFind lp (ptr i) s skip = Some (ptr <$> r) ∧
    match r with
    | Some j => ∃ m, j = probe m ∧ xs !! j = Some s ∧ ∀ m', (m' < m)%nat → xs !! probe m' ≠ Some s
    | None => ∀ m, xs !! probe m ≠ Some s
    end) ∧
  lpCompare lp (ptr i) s = Some (bool_decide (xs !! i = Some s)).
Proof.
  intros Hst Hi Hskip Hsl ptr probe. split; [by apply find_strings|by apply compare_strings].
Qed.


(** ** Merging and copying *)

Section merge.
Context `{Allocator}.

(** Writing the header last. *)
Lemma write_header t4 n2 es s n :
  zlen t4 = 4 → zlen n2 = 2 →
  (target ← lpSetNumElements (t4 ++ n2 ++ cat es ++ LP_EOF :: s) n;
   lpSetTotalBytes target (total es)) = Some (lp_image n es s).
Proof.
  intros H4 H2. rewrite setNumElements_app by done. cbn [mbind option_bind].
  by rewrite setTotalBytes_app.
Qed.

(** Bytes of a listpack without the end marker, and from the entries on. *)
Lemma image_parts n es s :
  lp_image n es s = (le_bytes 4 (total es) ++ le_bytes 2 n ++ cat es) ++ [LP_EOF] ++ s ∧
  zlen (le_bytes 4 (total es) ++ le_bytes 2 n ++ cat es) = total es - 1.
Proof.
  split; [unfold lp_image; by rewrite <- !app_assoc|]. unfold total, pos, LP_HDR_SIZE. llia.
Qed.

Lemma total_app es1 es2 : total (es1 ++ es2) = total es1 + total es2 - LP_HDR_SIZE - 1.
Proof. unfold total, pos, LP_HDR_SIZE. rewrite cat_app. llia. Qed.

(** Appending the entries of [source] to [target]. *)
Lemma merge_append n1 es1 s1 n2 es2 s2 :
  ∃ s, (bs ← load (lp_image n2 es2 s2) LP_HDR_SIZE (total es2 - LP_HDR_SIZE);
        store (realloc (Z.to_nat (total (es1 ++ es2))) (lp_image n1 es1 s1)) (total es1 - 1) bs) =
       Some (le_bytes 4 (total es1) ++ le_bytes 2 n1 ++ cat (es1 ++ es2) ++ LP_EOF :: s).
Proof.
  assert (load (lp_image n2 es2 s2) LP_HDR_SIZE (total es2 - LP_HDR_SIZE) = Some (cat es2 ++ [LP_EOF])) as ->.
  { unfold lp_image. rewrite (app_assoc (le_bytes 4 _)).
    replace (cat es2 ++ LP_EOF :: s2) with ((cat es2 ++ [LP_EOF]) ++ s2) by (by rewrite <- app_assoc).
    apply load_app; unfold total, pos, LP_HDR_SIZE; llia. }
  cbn [mbind option_bind]. destruct (image_parts n1 es1 s1) as [-> Hl].
  set (b := le_bytes 4 (total es1) ++ le_bytes 2 n1 ++ cat es1) in *.
  pose proof (total_app es1 es2) as Htot. pose proof (pos_ge es2). unfold total at 3 in Htot.
  destruct (realloc_keep (Z.to_nat (total (es1 ++ es2))) b ([LP_EOF] ++ s1)) as (s' & -> & Hlen);
    [unfold LP_HDR_SIZE in *; lia|].
  set (bs := cat es2 ++ [LP_EOF]).
  assert (Hbs : zlen b + zlen bs = total (es1 ++ es2)).
  { unfold bs. rewrite Htot. unfold pos, LP_HDR_SIZE in *. llia. }
  exists (drop (length bs) s'). rewrite <- (take_drop (length bs) s') at 1.
  rewrite store_app by (try lia; llia).
  unfold b, bs. rewrite cat_app, <- !app_assoc. done.
Qed.

(** Moving the entries of [target] behind those of [source]. *)
Lemma merge_prepend n1 es1 s1 n2 es2 s2 :
  ∃ s, (target ← memmove (realloc (Z.to_nat (total (es1 ++ es2))) (lp_image n2 es2 s2))
                   (total es1 - 1) LP_HDR_SIZE (total es2 - LP_HDR_SIZE);
        bs ← load (lp_image n1 es1 s1) 0 (total es1 - 1);
        store target 0 bs) =
       Some (le_bytes 4 (total es1) ++ le_bytes 2 n1 ++ cat (es1 ++ es2) ++ LP_EOF :: s).
Proof.
  set (h2 := le_bytes 4 (total es2) ++ le_bytes 2 n2). assert (Hh2 : zlen h2 = 6) by (unfold h2; llia).
  pose proof (total_app es1 es2) as Htot. pose proof (pos_ge es1).
  assert (lp_image n2 es2 s2 = (h2 ++ cat es2 ++ [LP_EOF]) ++ s2) as ->
    by (unfold lp_image, h2; by rewrite <- !app_assoc).
  assert (Hb : zlen (h2 ++ cat es2 ++ [LP_EOF]) = total es2) by (unfold total, pos, LP_HDR_SIZE; llia).
  destruct (realloc_keep (Z.to_nat (total (es1 ++ es2))) (h2 ++ cat es2 ++ [LP_EOF]) s2)
    as (s' & -> & Hlen); [unfold total, LP_HDR_SIZE in *; lia|]. rewrite <- app_assoc.
  destruct (memmove_splice h2 [] (cat es2 ++ [LP_EOF]) s' (total es1 - 1 - 6)
    (total es1 - 1) LP_HDR_SIZE (total es2 - LP_HDR_SIZE)) as (y & s & Hm & Hy);
    [unfold total, LP_HDR_SIZE in *; llia..|].
  cbn [app] in Hm. rewrite Hm. cbn [mbind option_bind].
  destruct (image_parts n1 es1 s1) as [-> Hl]. rewrite load_head by lia. cbn [mbind option_bind].
  exists s. rewrite (app_assoc h2 y). rewrite store_head by llia. rewrite cat_app, <- !app_assoc. done.
Qed.
End merge.


Section merge_claim.
Context `{Allocator}.

(** [lpMerge] of two distinct listpacks yields the entries of the first
    followed by those of the second, in the larger of the two blocks; it
    stops the process exactly when the result would not stay below 2^32-1
    bytes, and returns NULL when an argument is NULL or both are the same. *)
Lemma lpMerge_correct first second es1 es2 :
  lp_rep first es1 → lp_rep second es2 →
  (if total (es1 ++ es2) <? UINT32_MAX
   then ∃ lp', lpMerge (Some first) (Some second) false = Some (Some (lp', total es2 <=? total es1)) ∧
          lp_rep lp' (es1 ++ es2)
   else lpMerge (Some first) (Some second) false = None) ∧
  lpMerge (Some first) (Some second) true = Some None ∧
  lpMerge None (Some second) false = Some None ∧
  lpMerge (Some first) None false = Some None.
Proof.
  intros H1 H2. split_and!; [|done..]. unfold lpMerge.
  destruct (length_rep _ _ H1) as (f' & Hf' & (Hes1 & Ht1 & n1 & s1 & Hn1 & Ef) & _).
  destruct (length_rep _ _ H2) as (g' & Hg' & (Hes2 & Ht2 & n2 & s2 & Hn2 & Eg) & _).
  destruct H1 as (_ & _ & m1 & t1 & _ & E1). destruct H2 as (_ & _ & m2 & t2 & _ & E2).
  assert (Hb1 : lpGetTotalBytes first = Some (total es1)) by (by rewrite E1, image_total).
  assert (Hb2 : lpGetTotalBytes second = Some (total es2)) by (by rewrite E2, image_total).
  unfold lpBytes. rewrite Hb1, Hb2. cbn [mbind option_bind]. rewrite Hf'. cbn [mbind option_bind]. rewrite Hg'. cbn [mbind option_bind].
  pose proof (total_app es1 es2) as Htot. pose proof (pos_ge es1). pose proof (pos_ge es2).
  replace (u64 (total es1 + total es2 - LP_HDR_SIZE - 1)) with (total (es1 ++ es2))
    by (unfold total, LP_HDR_SIZE in *; rewrite wrapu_small by ilia; lia).
  rewrite Z.geb_leb. destruct (total (es1 ++ es2) <? UINT32_MAX) eqn:Hlt; [|by destruct (_ <=? _)].
  apply Z.ltb_lt in Hlt. set (n := if _ <? UINT16_MAX then _ else _).
  assert (Hn : numele_ok n (es1 ++ es2)).
  { subst n. unfold numele_ok, LP_HDR_NUMELE_UNKNOWN. rewrite length_app.
    destruct (Z.ltb_spec (zlen es1 + zlen es2) UINT16_MAX); [right|left]; lia. }
  assert (Hall : Forall valid_payload (es1 ++ es2)) by (by apply Forall_app).
  assert (Hfin : ∀ s, (target ← lpSetNumElements (le_bytes 4 (total es1) ++ le_bytes 2 n1 ++
      cat (es1 ++ es2) ++ LP_EOF :: s) n; lpSetTotalBytes target (total (es1 ++ es2))) =
      Some (lp_image n (es1 ++ es2) s)).
  { intros s. by rewrite write_header by (by rewrite length_le_bytes). }
  rewrite Ef, Eg. destruct (total es2 <=? total es1); cbn [assert mbind option_bind].
  - destruct (merge_append n1 es1 s1 n2 es2 s2) as [s ->]. cbn [mbind option_bind].
    specialize (Hfin s). apply bind_Some in Hfin as (lp1 & -> & Hfin). cbn [mbind option_bind].
    rewrite Hfin. eexists; split; [done|]. apply rep_image; [done|lia|done].
  - destruct (merge_prepend n1 es1 s1 n2 es2 s2) as [s ->]. cbn [mbind option_bind].
    specialize (Hfin s). apply bind_Some in Hfin as (lp1 & -> & Hfin). cbn [mbind option_bind].
    rewrite Hfin. eexists; split; [done|]. apply rep_image; [done|lia|done].
Qed.

Lemma dup_rep lp es : lp_rep lp es → ∃ lp', lpDup lp = Some lp' ∧ lp_rep lp' es.
Proof.
  intros (Hes & Ht & n & slack & Hn & ->). unfold lpDup, lpBytes. rewrite image_total by done.
  cbn [mbind option_bind].
  assert (lp_image n es slack = lp_image n es [] ++ slack) as ->
    by (unfold lp_image; by rewrite <- !app_assoc).
  assert (Hl : zlen (lp_image n es []) = total es).
  { unfold lp_image, total, pos, LP_HDR_SIZE. llia. }
  rewrite load_head by done. cbn [mbind option_bind].
  pose proof (usable_ge (Z.to_nat (total es))). set (f := fresh _).
  assert (length f = usable (Z.to_nat (total es))) by (unfold f; llia).
  rewrite <- (take_drop (length (lp_image n es [])) f). rewrite store_head by llia.
  eexists; split; [done|].
  assert (lp_image n es [] ++ drop (length (lp_image n es [])) f =
    lp_image n es (drop (length (lp_image n es [])) f)) as ->
    by (unfold lp_image at 1 3; by rewrite <- !app_assoc).
  by apply rep_image.
Qed.
End merge_claim.


(** The estimate is the exact size of a listpack of equal integers. *)
Lemma lpEstimate_exact v rep :
  sfits 64 v → (Z.of_nat rep < 2 ^ 32) →
  lpEstimateBytesRepeatedInteger v (Z.of_nat rep) = total (replicate rep (lpEncodeIntegerGetType v)).
Proof.
  intros Hv Hr. unfold lpEstimateBytesRepeatedInteger. set (e := lpEncodeIntegerGetType v).
  assert (Hc : zlen (cat (replicate rep e)) = (zlen e + zlen (lpEncodeBacklen (zlen e))) * Z.of_nat rep).
  { clear Hr. induction rep as [|rep IH]; [simpl; lia|]. cbn [replicate]. rewrite cat_cons. unfold entry. llia. }
  pose proof (backlen_size (zlen e)). pose proof (enc_int_valid v Hv) as [_ He]. fold e in He.
  unfold total, pos, LP_HDR_SIZE. rewrite Hc, wrapu_small by nia. lia.
Qed.

(** ** Batch deletion *)

(** The entries from cursor [j] on that are not at the increasing cursors [is_]. *)
Fixpoint kept (es : list (list Z)) (j : nat) (is_ : list nat) : list (list Z) :=
  match is_ with
  | [] => drop j es
  | i :: is_ => drop j (take i es) ++ kept es (S i) is_
  end.

(** Increasing cursors from [j] on. *)
Fixpoint increasing (n j : nat) (is_ : list nat) : Prop :=
  match is_ with
  | [] => True
  | i :: is_ => (j ≤ i < n)%nat ∧ increasing n (S i) is_
  end.


Section batch.
Context `{Allocator} (es : list (list Z)) (Hes : Forall valid_payload es).

Lemma skip_frame a e c :
  valid_payload e → lpSkip (a ++ e ++ c) (zlen a) = Some (zlen a + zlen (entry e)).
Proof.
  intros (_ & _ & _ & Hs). unfold lpSkip. rewrite (sizeUnsafe_frame _ _ _ _ Hs).
  cbn [mbind option_bind]. unfold entry. f_equal. llia.
Qed.

Lemma pos_drop_take i j :
  (i ≤ j)%nat → pos (take j es) = pos (take i es) + zlen (cat (drop i (take j es))).
Proof.
  intros Hij. assert (take j es = take i es ++ drop i (take j es)) as E.
  { rewrite <- (take_drop i (take j es)) at 1. rewrite take_take. do 2 f_equal. lia. }
  rewrite E at 1. unfold pos. rewrite cat_app. llia.
Qed.

Lemma pos_lt i j : (i < j ≤ length es)%nat → pos (take i es) < pos (take j es).
Proof.
  intros Hij. rewrite (pos_drop_take i j) by lia.
  pose proof (count_le_cat (drop i (take j es))) as Hc.
  rewrite length_drop, length_take in Hc.
  specialize (Hc ltac:(by apply Forall_drop, Forall_take)). lia.
Qed.

Lemma drop_split i j : (i ≤ j)%nat → drop i es = drop i (take j es) ++ drop j es.
Proof.
  intros Hij. rewrite <- (take_drop j es) at 1. destruct (decide (j ≤ length es)%nat).
  - rewrite drop_app_le by llia. done.
  - rewrite (drop_ge es j), !app_nil_r by lia. done.
Qed.

(** The entry the loop looks at. *)
Lemma batch_entry i a j rest :
  (i < length es)%nat → zlen a + zlen j = pos (take i es) →
  ∃ e, drop i es = e :: drop (S i) es ∧ pos (take (S i) es) = pos (take i es) + zlen (entry e) ∧
    (b ← load8 (a ++ j ++ cat (drop i es) ++ rest) (pos (take i es)); assert (negb (b =? LP_EOF))) = Some () ∧
    lpSkip (a ++ j ++ cat (drop i es) ++ rest) (pos (take i es)) = Some (pos (take (S i) es)).
Proof.
  intros Hi Ha. destruct (lookup_lt_is_Some_2 es i Hi) as [e He]. exists e.
  pose proof (drop_S _ _ _ He) as Hd. rewrite Hd, cat_cons.
  eapply Forall_lookup_1 in Hes as Hv; [|done].
  assert (Hp : pos (take (S i) es) = pos (take i es) + zlen (entry e)).
  { rewrite (take_S_r _ _ _ He), pos_snoc. unfold entry. llia. }
  split_and!; [done|done| |].
  - destruct (valid_payload_head e Hv) as (b & t & -> & _ & Hb). unfold entry. cbn [app].
    rewrite app_assoc, load8_app by llia. cbn [mbind option_bind].
    by destruct (Z.eqb_spec b LP_EOF).
  - rewrite Hp, app_assoc, <- Ha. unfold entry at 1. rewrite <- !app_assoc, (app_assoc a j).
    replace (zlen a + zlen j) with (zlen (a ++ j)) by llia. by apply skip_frame.
Qed.

Lemma batch_loop_spec is_ : ∀ i a j slack,
  increasing (length es) i (i :: is_) → zlen a + zlen j = pos (take i es) →
  ∃ s', batch_delete_loop (a ++ j ++ cat (drop i es) ++ LP_EOF :: slack) (total es)
          ((λ i, pos (take i es)) <$> i :: is_) (zlen a) =
        Some (a ++ cat (kept es (S i) is_) ++ LP_EOF :: s',
              zlen a + zlen (cat (kept es (S i) is_)) + 1).
Proof.
  induction is_ as [|i2 is_ IH]; intros i a j slack [Hi Hinc] Ha;
    (destruct (batch_entry i a j (LP_EOF :: slack)) as (e & Hd & Hp & Hhead & Hskip); [lia|done|]);
    cbn [fmap list_fmap batch_delete_loop kept];
    (apply bind_Some in Hhead as (b & -> & Hb)); cbn [mbind option_bind];
    rewrite Hb; cbn [mbind option_bind]; rewrite Hskip; cbn [mbind option_bind andb].
  - pose proof (pos_le_total es (S i)).
    assert (Hlen : zlen (cat (drop (S i) es)) = pos es - pos (take (S i) es)).
    { rewrite <- (take_drop (S i) es) at 2. unfold pos. rewrite cat_app. llia. }
    destruct (Z.gtb_spec (total es) (pos (take (S i) es))); [|unfold total in *; lia].
    cbn [assert mbind option_bind]. rewrite Hd, cat_cons.
    destruct (memmove_splice a (j ++ entry e) (cat (drop (S i) es) ++ [LP_EOF]) slack 0
      (zlen a) (pos (take (S i) es)) (total es - pos (take (S i) es))) as (y & s' & Hm & Hy);
      [unfold total; llia..|].
    destruct y; [|simpl in Hy; lia]. rewrite <- !app_assoc. rewrite <- !app_assoc in Hm. cbn [app] in Hm.
    rewrite Hm. cbn [mbind option_bind batch_delete_loop]. exists s'.
    rewrite Hlen. unfold total. do 2 f_equal. lia.
  - destruct Hinc as [Hi2 Hinc]. pose proof (pos_drop_take (S i) i2 ltac:(lia)) as Hp2.
    set (B := drop (S i) (take i2 es)) in *. rewrite cat_app.
    destruct (Z.eqb_spec (pos (take (S i) es)) (pos (take i2 es))) as [Heq|Hne].
    + destruct (decide (i2 = S i)) as [->|]; [|pose proof (pos_lt (S i) i2 ltac:(lia)); lia].
      destruct (cat B) as [|] eqn:EB; [|simpl in Hp2; lia]. rewrite Hd, cat_cons.
      destruct (IH (S i) a (j ++ entry e) slack) as (s' & Hs'); [done|llia|].
      exists s'. rewrite <- !app_assoc. rewrite <- !app_assoc in Hs'. exact Hs'.
    + pose proof (pos_lt (S i) i2) as Hlt. destruct (decide (i2 = S i)) as [->|]; [done|].
      destruct (Z.gtb_spec (pos (take i2 es)) (pos (take (S i) es))); [|lia].
      cbn [assert mbind option_bind]. rewrite Hd, cat_cons, (drop_split (S i) i2), cat_app by lia.
      fold B. destruct (memmove_left a (j ++ entry e) (cat B) (cat (drop i2 es) ++ LP_EOF :: slack)
        (zlen a) (pos (take (S i) es)) (pos (take i2 es) - pos (take (S i) es)))
        as (x' & Hm & Hx'); [llia..|].
      rewrite <- !app_assoc. rewrite <- !app_assoc in Hm. rewrite Hm. cbn [mbind option_bind].
      destruct (IH i2 (a ++ cat B) x' slack) as (s' & Hs'); [by split; [lia|]|llia|].
      exists s'. rewrite <- !app_assoc in Hs'. cbn [fmap list_fmap] in Hs'.
      replace (zlen a + (pos (take i2 es) - pos (take (S i) es))) with (zlen (a ++ cat B)) by llia.
      etransitivity; [exact Hs'|]. do 2 f_equal; [by rewrite <- app_assoc|llia].
Qed.

Lemma kept_length is_ : ∀ j,
  increasing (length es) j is_ → (j ≤ length es)%nat →
  (length (kept es j is_) + length is_ = length es - j)%nat.
Proof.
  induction is_ as [|i is_ IH]; intros j Hinc Hj; simpl; [llia|]. destruct Hinc as [Hi Hinc].
  specialize (IH (S i) Hinc ltac:(lia)). llia.
Qed.

Lemma kept_valid is_ j : Forall valid_payload (kept es j is_).
Proof.
  revert j. induction is_ as [|i is_ IH]; intros j; simpl; [by apply Forall_drop|].
  apply Forall_app_2; [by apply Forall_drop, Forall_take|apply IH].
Qed.

Lemma kept_total is_ : ∀ j, increasing (length es) j is_ →
  zlen (cat (kept es j is_)) ≤ zlen (cat (drop j es)).
Proof.
  induction is_ as [|i is_ IH]; intros j Hinc; simpl; [lia|]. destruct Hinc as [Hi Hinc].
  specialize (IH (S i) Hinc). rewrite (drop_split j i), !cat_app by lia.
  pose proof (drop_split i (S i) ltac:(lia)) as E. rewrite E, cat_app. llia.
Qed.
End batch.

(** Given the pointers of any increasing selection of entries,
    [lpBatchDelete] leaves exactly the other entries, in order, in a
    well-formed listpack. *)
Lemma lpBatchDelete_correct `{Allocator} lp es is_ :
  lp_rep lp es → increasing (length es) 0 is_ →
  ∃ lp', lpBatchDelete lp ((λ i, pos (take i es)) <$> is_) = Some lp' ∧ lp_rep lp' (kept es 0 is_).
Proof.
  intros Hrep Hinc. destruct is_ as [|i is_]; [by exists lp; cbn [kept]; rewrite drop_0|].
  destruct Hrep as (Hes & Ht & n & slack & Hn & ->). pose proof Hinc as [Hi Hinc'].
  pose proof (kept_valid es Hes (i :: is_) 0) as Hval.
  pose proof (kept_length es (i :: is_) 0 Hinc ltac:(lia)) as Hcount.
  pose proof (kept_total es (i :: is_) 0 Hinc) as Hsize. rewrite drop_0 in Hsize.
  assert (Htot : total (kept es 0 (i :: is_)) ≤ total es) by (unfold total, pos; lia).
  assert (Hlast : load8 (lp_image n es slack) (total es - 1) = Some LP_EOF).
  { unfold total. replace (pos es + 1 - 1) with (pos es) by lia. apply end_head. }
  unfold lpBatchDelete. cbn [fmap list_fmap]. rewrite image_total by done. cbn [mbind option_bind].
  rewrite Hlast. cbn [mbind option_bind assert Z.eqb Pos.eqb LP_EOF].
  set (h := le_bytes 4 (total es) ++ le_bytes 2 n).
  assert (lp_image n es slack = (h ++ cat (take i es)) ++ [] ++ cat (drop i es) ++ LP_EOF :: slack) as ->.
  { unfold lp_image, h. rewrite <- (take_drop i es) at 2. rewrite cat_app, <- !app_assoc. done. }
  assert (Ha : zlen (h ++ cat (take i es)) = pos (take i es)) by (unfold h, pos, LP_HDR_SIZE; llia).
  destruct (batch_loop_spec es Hes is_ i (h ++ cat (take i es)) [] slack) as (s' & Hloop);
    [by split; [lia|]|rewrite Ha; simpl; lia|]. cbn [fmap list_fmap] in Hloop. rewrite Ha in Hloop.
  rewrite Hloop. cbn [mbind option_bind]. clear Hloop.
  assert (Hk : pos (take i es) + zlen (cat (kept es (S i) is_)) + 1 = total (kept es 0 (i :: is_))).
  { cbn [kept]. rewrite drop_0. unfold total, pos. rewrite cat_app. llia. }
  rewrite Hk. pose proof (pos_ge (kept es 0 (i :: is_))).
  replace (u64 (total es - (total es - total (kept es 0 (i :: is_)))))
    with (total (kept es 0 (i :: is_))) by (unfold total in *; rewrite wrapu_small by ilia; lia).
  assert ((h ++ cat (take i es)) ++ cat (kept es (S i) is_) ++ LP_EOF :: s' =
    le_bytes 4 (total es) ++ le_bytes 2 n ++ cat (kept es 0 (i :: is_)) ++ LP_EOF :: s') as ->.
  { cbn [kept]. rewrite drop_0. unfold h. rewrite cat_app, <- !app_assoc. done. }
  set (es' := kept es 0 (i :: is_)) in *.
  assert (load8 (le_bytes 4 (total es) ++ le_bytes 2 n ++ cat es' ++ LP_EOF :: s') (total es' - 1) =
    Some LP_EOF) as ->.
  { rewrite !app_assoc. apply load8_app. unfold total, pos, LP_HDR_SIZE. llia. }
  cbn [mbind option_bind assert Z.eqb Pos.eqb LP_EOF].
  replace (zlen (pos (take i es) :: ((λ i, pos (take i es)) <$> is_))) with (zlen (i :: is_)) by llia.
  destruct (close_gap n es' [] (le_bytes 4 (total es)) s' (zlen (i :: is_))) as (s'' & Hgap);
    [by rewrite length_le_bytes|by eapply numele_range|lia| |by rewrite app_nil_r; lia|].
  { intros Hne. destruct Hn as [->|[-> _]]; [done|]. lia. }
  rewrite app_nil_r in Hgap. rewrite Hgap. eexists; split; [done|].
  apply rep_image; [done|lia|]. apply (bump_ok _ _ _ _ Hn); lia.
Qed.

(** ** Witnesses *)

Definition demo_strings : list (list Z) := [bytes_of "hello"; bytes_of "1024"; bytes_of "-3"].

Lemma demo_str : lp_strings demo demo_strings.
Proof. split; [apply demo_rep|]. by apply (bool_decide_unpack _). Qed.

Example lpFind_ex : lpFind demo 6 (bytes_of "-3") 1 = Some (Some 16).
Proof. reflexivity. Qed.

End ListpackBulk.
