(* ===== verification/Dict.v ===== *)
(** * dict.c: hash tables with incremental rehashing

    A dict has two tables of chained buckets; while it is rehashing, buckets
    move one at a time from table 0 to table 1.  A chain is the list of its
    entries.  A [dictEntry*] that points into the dict is the place of the
    entry: table, bucket and position in the chain.

    The hash function, the key comparison and the other callbacks of
    [dictType] come from the users of the dict and are fields of a record, as
    in C.  Keys and values are only pointers here; the destructors act outside
    the dict and are not modelled. *)

From S2P Require Import Prelude.

Module Dict.

Inductive dictResizeEnable := DICT_RESIZE_ENABLE | DICT_RESIZE_AVOID | DICT_RESIZE_FORBID.
#[export] Instance resize_enable_eq_dec : EqDecision dictResizeEnable.
Proof. solve_decision. Defined.

Definition dict_force_resize_ratio : Z := 5.
Definition DICT_HT_INITIAL_EXP : Z := 2.
Definition DICT_HT_INITIAL_SIZE : Z := Z.shiftl 1 DICT_HT_INITIAL_EXP.
Definition LONG_MAX : Z := INT64_MAX.

(** What the low bits of an entry pointer say. *)
Inductive entry_kind := EntryNormal | EntryNoValue | EntryKey.

Record dictEntry K V := Entry { e_kind : entry_kind; e_key : K; e_val : option V }.
Arguments Entry {K V} _ _ _.
Arguments e_kind {K V} _.
Arguments e_key {K V} _.
Arguments e_val {K V} _.

(** The entries of one bucket, in the order of the [next] pointers. *)
Abbreviation chain K V := (list (dictEntry K V)).

(** [ht_table[i]], [ht_used[i]] and [ht_size_exp[i]]; a NULL table is [None]. *)
Record ht K V := HT { ht_table : option (list (chain K V)); ht_used : Z; ht_size_exp : Z }.
Arguments HT {K V} _ _ _.
Arguments ht_table {K V} _.
Arguments ht_used {K V} _.
Arguments ht_size_exp {K V} _.

Record dict K V := MkDict { ht_0 : ht K V; ht_1 : ht K V; rehashidx : Z; pauserehash : Z }.
Arguments MkDict {K V} _ _ _ _.
Arguments ht_0 {K V} _.
Arguments ht_1 {K V} _.
Arguments rehashidx {K V} _.
Arguments pauserehash {K V} _.

(** The callbacks and flags; [key_is_odd k] is the low bit of the key pointer,
    [expandAllowed moreMem used size] receives the ratio as a fraction. *)
Record dictType K V := DictType {
  hashFunction : K → Z;
  keyDup : option (K → K);
  valDup : option (V → V);
  keyCompare : option (K → K → bool);
  expandAllowed : option (Z → Z → Z → bool);
  no_value : bool;
  keys_are_odd : bool;
  key_is_odd : K → bool;
}.
Arguments hashFunction {K V} _ _.
Arguments keyDup {K V} _.
Arguments valDup {K V} _.
Arguments keyCompare {K V} _.
Arguments expandAllowed {K V} _.
Arguments no_value {K V} _.
Arguments keys_are_odd {K V} _.
Arguments key_is_odd {K V} _ _.

Definition DICTHT_SIZE (exp : Z) : Z := if exp =? -1 then 0 else Z.shiftl 1 exp.
Definition DICTHT_SIZE_MASK (exp : Z) : Z := if exp =? -1 then 0 else DICTHT_SIZE exp - 1.

Section state.
Context {K V : Type}.
Implicit Type d : dict K V.

(** Table 0 or 1. *)
Definition dht d (t : bool) : ht K V := if t then ht_1 d else ht_0 d.
Definition set_dht d (t : bool) (h : ht K V) : dict K V :=
  if t then MkDict (ht_0 d) h (rehashidx d) (pauserehash d)
  else MkDict h (ht_1 d) (rehashidx d) (pauserehash d).
Definition set_rehashidx d (i : Z) : dict K V := MkDict (ht_0 d) (ht_1 d) i (pauserehash d).
Definition set_pauserehash d (p : Z) : dict K V := MkDict (ht_0 d) (ht_1 d) (rehashidx d) p.

Definition dictSlots d : Z :=
  u64 (DICTHT_SIZE (ht_size_exp (ht_0 d)) + DICTHT_SIZE (ht_size_exp (ht_1 d))).
Definition dictSize d : Z := u64 (ht_used (ht_0 d) + ht_used (ht_1 d)).
Definition dictIsRehashing d : bool := negb (rehashidx d =? -1).
Definition dictPauseRehashing d : dict K V := set_pauserehash d (s16 (pauserehash d + 1)).
Definition dictResumeRehashing d : dict K V := set_pauserehash d (s16 (pauserehash d - 1)).

(** [ht_table[t][idx]] read and written; [None] outside the table. *)
Definition get_bucket (h : ht K V) (idx : Z) : option (chain K V) :=
  tb ← ht_table h; if decide (0 ≤ idx) then tb !! Z.to_nat idx else None.
Definition set_bucket (h : ht K V) (idx : Z) (c : chain K V) : option (ht K V) :=
  tb ← ht_table h;
  if decide (0 ≤ idx < zlen tb)
  then Some (HT (Some (<[Z.to_nat idx := c]> tb)) (ht_used h) (ht_size_exp h)) else None.
Definition add_used (h : ht K V) (n : Z) : ht K V :=
  HT (ht_table h) (u64 (ht_used h + n)) (ht_size_exp h).

Definition _dictReset : ht K V := HT None 0 (-1).

(** [dictCreate] and [_dictInit]. *)
Definition dictCreate : dict K V := MkDict _dictReset _dictReset (-1) 0.

(** The loop of [_dictNextExp]: it leaves at 63 at the latest. *)
Fixpoint next_exp_loop (fuel : nat) (size e : Z) : option Z :=
  match fuel with
  | O => None
  | S fuel => if u64 (Z.shiftl 1 e) >=? size then Some e else next_exp_loop fuel size (u8 (e + 1))
  end.
Definition _dictNextExp (size : Z) : option Z :=
  if size >=? LONG_MAX then Some 63 else next_exp_loop 64 size DICT_HT_INITIAL_EXP.

(** [calloc_ok] is false when [ztrycalloc] fails (with a [malloc_failed]
    argument only).  Returns the dict, [DICT_OK] as [true], and
    [*malloc_failed]. *)
Definition _dictExpand d (size : Z) (calloc_ok : bool) : option (dict K V * bool * bool) :=
  if dictIsRehashing d || (ht_used (ht_0 d) >? size) then Some (d, false, false)
  else
    new_ht_size_exp ← _dictNextExp size;
    let newsize := u64 (Z.shiftl 1 new_ht_size_exp) in
    if (newsize <? size) || (u64 (newsize * 8) <? newsize) then Some (d, false, false)
    else if new_ht_size_exp =? ht_size_exp (ht_0 d) then Some (d, false, false)
    else if negb calloc_ok then Some (d, false, true)
    else
      let new_ht := HT (Some (replicate (Z.to_nat newsize) [])) 0 new_ht_size_exp in
      match ht_table (ht_0 d) with
      | None => Some (set_dht d false new_ht, true, false)
      | Some _ => Some (set_rehashidx (set_dht d true new_ht) 0, true, false)
      end.

Definition dictExpand d (size : Z) : option (dict K V * bool) :=
  '(d, ok, _) ← _dictExpand d size true; Some (d, ok).
Definition dictTryExpand d (size : Z) (calloc_ok : bool) : option (dict K V * bool) :=
  '(d, _, malloc_failed) ← _dictExpand d size calloc_ok; Some (d, negb malloc_failed).

Definition dictResize (dict_can_resize : dictResizeEnable) d : option (dict K V * bool) :=
  if negb (bool_decide (dict_can_resize = DICT_RESIZE_ENABLE)) || dictIsRehashing d
  then Some (d, false)
  else
    let minimal := ht_used (ht_0 d) in
    let minimal := if minimal <? DICT_HT_INITIAL_SIZE then DICT_HT_INITIAL_SIZE else minimal in
    dictExpand d minimal.

(** [_dictClear] frees every entry of a table and resets it. *)
Definition _dictClear d (t : bool) : dict K V := set_dht d t _dictReset.
Definition dictEmpty d : dict K V :=
  set_pauserehash (set_rehashidx (_dictClear (_dictClear d false) true) (-1)) 0.
End state.

Section ops.
Context {K V : Type} `{EqDecision K}.
Context (type : dictType K V) (dict_can_resize : dictResizeEnable).
Implicit Type d : dict K V.

(** [key == he_key || dictCompareKeys(d, key, he_key)] *)
Definition same_key (k1 k2 : K) : bool :=
  bool_decide (k1 = k2) ||
  match keyCompare type with Some cmp => cmp k1 k2 | None => bool_decide (k1 = k2) end.

Definition dictHashKey (k : K) : Z := hashFunction type k.

(** The entry as it is stored in a destination bucket whose chain is [dest]. *)
Definition move_entry (de : dictEntry K V) (dest : chain K V) : option (dictEntry K V) :=
  if no_value type then
    if keys_are_odd type && (match dest with [] => true | _ => false end) then
      _ ← assert (key_is_odd type (e_key de));
      Some (Entry EntryKey (e_key de) None)
    else
      match e_kind de with
      | EntryKey => Some (Entry EntryNoValue (e_key de) None)
      | EntryNoValue => Some de
      | EntryNormal => None
      end
  else
    match e_kind de with EntryKey => None | _ => Some de end.

(** The inner [while(de)] of [dictRehash]. *)
Fixpoint move_bucket (c : chain K V) d : option (dict K V) :=
  match c with
  | [] => Some d
  | de :: nextde =>
      let h :=
        if ht_size_exp (ht_1 d) >? ht_size_exp (ht_0 d)
        then Z.land (dictHashKey (e_key de)) (DICTHT_SIZE_MASK (ht_size_exp (ht_1 d)))
        else Z.land (rehashidx d) (DICTHT_SIZE_MASK (ht_size_exp (ht_1 d))) in
      dest ← get_bucket (ht_1 d) h;
      de ← move_entry de dest;
      h1 ← set_bucket (ht_1 d) h (de :: dest);
      let d := set_dht d true (add_used h1 1) in
      let d := set_dht d false (add_used (ht_0 d) (-1)) in
      move_bucket nextde d
  end.

(** [while(d->ht_table[0][d->rehashidx] == NULL)]: the dict, the remaining
    [empty_visits] and whether the function returns 1 here. *)
Fixpoint skip_empty (fuel : nat) d (empty_visits : Z) : option (dict K V * Z * bool) :=
  c ← get_bucket (ht_0 d) (rehashidx d);
  match c with
  | _ :: _ => Some (d, empty_visits, false)
  | [] =>
      match fuel with
      | O => None
      | S fuel =>
          let d := set_rehashidx d (rehashidx d + 1) in
          let empty_visits := s32 (empty_visits - 1) in
          if empty_visits =? 0 then Some (d, empty_visits, true)
          else skip_empty fuel d empty_visits
      end
  end.

(** The outer loop of [dictRehash]; the flag is set on the early return. *)
Fixpoint rehash_loop (n : nat) d (empty_visits : Z) : option (dict K V * bool) :=
  match n with
  | O => Some (d, false)
  | S n =>
      if ht_used (ht_0 d) =? 0 then Some (d, false)
      else
        _ ← assert (DICTHT_SIZE (ht_size_exp (ht_0 d)) >? u64 (rehashidx d));
        '(d, empty_visits, stop) ←
          skip_empty (Z.to_nat (DICTHT_SIZE (ht_size_exp (ht_0 d)))) d empty_visits;
        if (stop : bool) then Some (d, true)
        else
          c ← get_bucket (ht_0 d) (rehashidx d);
          d ← move_bucket c d;
          h0 ← set_bucket (ht_0 d) (rehashidx d) [];
          let d := set_rehashidx (set_dht d false h0) (rehashidx d + 1) in
          rehash_loop n d empty_visits
  end.

Definition dictRehash d (n : nat) : option (dict K V * bool) :=
  let empty_visits := s32 (Z.of_nat n * 10) in
  let s0 := DICTHT_SIZE (ht_size_exp (ht_0 d)) in
  let s1 := DICTHT_SIZE (ht_size_exp (ht_1 d)) in
  if bool_decide (dict_can_resize = DICT_RESIZE_FORBID) || negb (dictIsRehashing d)
  then Some (d, false)
  else if bool_decide (dict_can_resize = DICT_RESIZE_AVOID) &&
          (((s1 >? s0) && (s1 / s0 <? dict_force_resize_ratio)) ||
           ((s1 <? s0) && (s0 / s1 <? dict_force_resize_ratio)))
  then Some (d, false)
  else
    '(d, returned) ← rehash_loop n d empty_visits;
    if (returned : bool) then Some (d, true)
    else if ht_used (ht_0 d) =? 0 then
      let d := set_dht d false (ht_1 d) in
      let d := set_dht d true _dictReset in
      Some (set_rehashidx d (-1), false)
    else Some (d, true).

(** The loop of [dictRehashMilliseconds]; [clock fuel] is the time elapsed when
    it is read with [fuel] turns left.  Returns the count of rehashes. *)
Fixpoint rehash_while (fuel : nat) (clock : nat → Z) (ms : Z) (n : nat) d (rehashes : Z)
    : option (dict K V * Z) :=
  match fuel with
  | O => None
  | S fuel =>
      '(d, more) ← dictRehash d n;
      if (more : bool) then
        let rehashes := s32 (rehashes + 100) in
        if clock fuel >? ms then Some (d, rehashes) else rehash_while fuel clock ms n d rehashes
      else Some (d, rehashes)
  end.
(** Every call that returns 1 advances [rehashidx], so the size of table 0
    bounds the turns. *)
Definition dictRehashMilliseconds (clock : nat → Z) (ms : Z) d : option (dict K V * Z) :=
  if pauserehash d >? 0 then Some (d, 0)
  else rehash_while (S (Z.to_nat (DICTHT_SIZE (ht_size_exp (ht_0 d))))) clock ms 100 d 0.

Definition _dictRehashStep d : option (dict K V) :=
  if pauserehash d =? 0 then fst <$> dictRehash d 1 else Some d.

Definition rehash_if_needed d : option (dict K V) :=
  if dictIsRehashing d then _dictRehashStep d else Some d.

(** ** Looking up *)

(** Position in a chain of the first entry with this key. *)
Fixpoint chain_find (key : K) (c : chain K V) : option nat :=
  match c with
  | [] => None
  | he :: c => if same_key key (e_key he) then Some O else S <$> chain_find key c
  end.

(** The place of an entry: table, bucket index, position in the chain. *)
Definition place : Type := bool * Z * nat.

(** The [for (table = 0; table <= 1; table++)] search all lookups share. *)
Definition find_place d (key : K) (h : Z) : option (option place) :=
  let idx0 := Z.land h (DICTHT_SIZE_MASK (ht_size_exp (ht_0 d))) in
  c0 ← get_bucket (ht_0 d) idx0;
  match chain_find key c0 with
  | Some i => Some (Some (false, idx0, i))
  | None =>
      if negb (dictIsRehashing d) then Some None
      else
        let idx1 := Z.land h (DICTHT_SIZE_MASK (ht_size_exp (ht_1 d))) in
        c1 ← get_bucket (ht_1 d) idx1;
        Some ((λ i, (true, idx1, i)) <$> chain_find key c1)
  end.

(** Reading and writing through an entry pointer. *)
Definition get_entry d (p : place) : option (dictEntry K V) :=
  let '(t, idx, i) := p in c ← get_bucket (dht d t) idx; c !! i.
Definition set_entry d (p : place) (e : dictEntry K V) : option (dict K V) :=
  let '(t, idx, i) := p in
  c ← get_bucket (dht d t) idx;
  h ← set_bucket (dht d t) idx (<[i := e]> c);
  Some (set_dht d t h).

Definition dictFind d (key : K) : option (dict K V * option place) :=
  if dictSize d =? 0 then Some (d, None)
  else
    d ← rehash_if_needed d;
    p ← find_place d key (dictHashKey key);
    Some (d, p).

(** [dictGetVal] of an entry that has a value field. *)
Definition dictGetVal d (p : place) : option (option V) :=
  e ← get_entry d p;
  _ ← assert (match e_kind e with EntryNormal => true | _ => false end);
  Some (e_val e).

Definition dictFetchValue d (key : K) : option (dict K V * option V) :=
  '(d, he) ← dictFind d key;
  match he with
  | None => Some (d, None)
  | Some p => v ← dictGetVal d p; Some (d, v)
  end.

Definition dictSetVal d (p : place) (val : V) : option (dict K V) :=
  e ← get_entry d p;
  _ ← assert (match e_kind e with EntryNormal => true | _ => false end);
  set_entry d p (Entry (e_kind e) (e_key e)
    (Some (match valDup type with Some f => f val | None => val end))).

Definition dictSetKey d (p : place) (key : K) : option (dict K V) :=
  _ ← assert (negb (no_value type));
  e ← get_entry d p;
  set_entry d p (Entry (e_kind e) (match keyDup type with Some f => f key | None => key end) (e_val e)).

(** ** Adding *)

Definition dictTypeExpandAllowed d : option bool :=
  match expandAllowed type with
  | None => Some true
  | Some f =>
      e ← _dictNextExp (u64 (ht_used (ht_0 d) + 1));
      Some (f (u64 (DICTHT_SIZE e * 8)) (ht_used (ht_0 d)) (DICTHT_SIZE (ht_size_exp (ht_0 d))))
  end.

Definition _dictExpandIfNeeded d : option (dict K V * bool) :=
  if dictIsRehashing d then Some (d, true)
  else if DICTHT_SIZE (ht_size_exp (ht_0 d)) =? 0 then dictExpand d DICT_HT_INITIAL_SIZE
  else
    allowed ← dictTypeExpandAllowed d;
    if negb allowed then Some (d, true)
    else
      let used := ht_used (ht_0 d) in
      let size := DICTHT_SIZE (ht_size_exp (ht_0 d)) in
      if (bool_decide (dict_can_resize = DICT_RESIZE_ENABLE) && (used >=? size)) ||
         (negb (bool_decide (dict_can_resize = DICT_RESIZE_FORBID)) &&
          (used / size >? dict_force_resize_ratio))
      then dictExpand d (u64 (used + 1))
      else Some (d, true).

(** [inl bucket] to insert, or [inr existing]: the existing entry, or nothing
    when the table cannot be expanded. *)
Definition dictFindPositionForInsert d (key : K)
    : option (dict K V * ((bool * Z) + option place)) :=
  let hash := dictHashKey key in
  d ← rehash_if_needed d;
  '(d, ok) ← _dictExpandIfNeeded d;
  if negb ok then Some (d, inr None)
  else
    p ← find_place d key hash;
    match p with
    | Some p => Some (d, inr (Some p))
    | None =>
        let t := dictIsRehashing d in
        Some (d, inl (t, Z.land hash (DICTHT_SIZE_MASK (ht_size_exp (dht d t)))))
    end.

Definition dictInsertAtPosition d (key : K) (position : bool * Z) : option (dict K V * place) :=
  let '(t, idx) := position in
  let htidx := dictIsRehashing d in
  _ ← assert (Bool.eqb t htidx && (0 <=? idx) &&
              (idx <=? DICTHT_SIZE_MASK (ht_size_exp (dht d htidx))));
  bucket ← get_bucket (dht d htidx) idx;
  entry ←
    (if no_value type then
       if keys_are_odd type && (match bucket with [] => true | _ => false end) then
         _ ← assert (key_is_odd type key);
         Some (Entry EntryKey key None)
       else Some (Entry EntryNoValue key None)
     else Some (Entry EntryNormal key None));
  h ← set_bucket (dht d htidx) idx (entry :: bucket);
  Some (set_dht d htidx (add_used h 1), (htidx, idx, O)).

(** The new entry, or the existing one. *)
Definition dictAddRaw d (key : K) : option (dict K V * (place + option place)) :=
  '(d, pos) ← dictFindPositionForInsert d key;
  match pos with
  | inr existing => Some (d, inr existing)
  | inl position =>
      let key := match keyDup type with Some f => f key | None => key end in
      '(d, entry) ← dictInsertAtPosition d key position;
      Some (d, inl entry)
  end.

(** [DICT_OK] is [true]. *)
Definition dictAdd d (key : K) (val : V) : option (dict K V * bool) :=
  '(d, r) ← dictAddRaw d key;
  match r with
  | inr _ => Some (d, false)
  | inl entry =>
      d ← (if negb (no_value type) then dictSetVal d entry val else Some d);
      Some (d, true)
  end.

Definition dictAddOrFind d (key : K) : option (dict K V * option place) :=
  '(d, r) ← dictAddRaw d key;
  Some (d, match r with inl entry => Some entry | inr existing => existing end).

(** When the table cannot be expanded [existing] is NULL and [dictGetVal]
    would dereference it. *)
Definition dictReplace d (key : K) (val : V) : option (dict K V * bool) :=
  '(d, r) ← dictAddRaw d key;
  match r with
  | inl entry => d ← dictSetVal d entry val; Some (d, true)
  | inr None => None
  | inr (Some existing) =>
      _ ← dictGetVal d existing;
      d ← dictSetVal d existing val;
      Some (d, false)
  end.

(** ** Deleting *)

(** Unlinking the entry at a place. *)
Definition unlink_place d (p : place) : option (dict K V) :=
  let '(t, idx, i) := p in
  c ← get_bucket (dht d t) idx;
  h ← set_bucket (dht d t) idx (delete i c);
  Some (set_dht d t (add_used h (-1))).

Definition dictGenericDelete d (key : K) : option (dict K V * option (dictEntry K V)) :=
  if dictSize d =? 0 then Some (d, None)
  else
    d ← rehash_if_needed d;
    p ← find_place d key (dictHashKey key);
    match p with
    | None => Some (d, None)
    | Some p => he ← get_entry d p; d ← unlink_place d p; Some (d, Some he)
    end.

Definition dictDelete d (key : K) : option (dict K V * bool) :=
  '(d, he) ← dictGenericDelete d key;
  Some (d, match he with Some _ => true | None => false end).
Definition dictUnlink d (key : K) := dictGenericDelete d key.

(** The place stands for both the entry and [plink]. *)
Definition dictTwoPhaseUnlinkFind d (key : K) : option (dict K V * option place) :=
  if dictSize d =? 0 then Some (d, None)
  else
    d ← rehash_if_needed d;
    p ← find_place d key (dictHashKey key);
    match p with
    | None => Some (d, None)
    | Some p => Some (dictPauseRehashing d, Some p)
    end.
Definition dictTwoPhaseUnlinkFree d (he : option place) : option (dict K V) :=
  match he with
  | None => Some d
  | Some p => d ← unlink_place d p; Some (dictResumeRehashing d)
  end.

(** Search by key pointer only. *)
Fixpoint chain_find_ptr (oldptr : K) (c : chain K V) : option nat :=
  match c with
  | [] => None
  | he :: c => if bool_decide (oldptr = e_key he) then Some O else S <$> chain_find_ptr oldptr c
  end.
Definition dictFindEntryByPtrAndHash d (oldptr : K) (hash : Z) : option (option place) :=
  if dictSize d =? 0 then Some None
  else
    let idx0 := Z.land hash (DICTHT_SIZE_MASK (ht_size_exp (ht_0 d))) in
    c0 ← get_bucket (ht_0 d) idx0;
    match chain_find_ptr oldptr c0 with
    | Some i => Some (Some (false, idx0, i))
    | None =>
        if negb (dictIsRehashing d) then Some None
        else
          let idx1 := Z.land hash (DICTHT_SIZE_MASK (ht_size_exp (ht_1 d))) in
          c1 ← get_bucket (ht_1 d) idx1;
          Some ((λ i, (true, idx1, i)) <$> chain_find_ptr oldptr c1)
    end.
End ops.

End Dict.
