(* ===== verification/DictInv.v ===== *)
(** * dict.c: the invariant of a dict and the finite map it stores *)

From S2P Require Import Prelude Dict.
Import Dict.

Module DictInv.

Section inv.
Context {K V I : Type} `{EqDecision K} `{Countable I}.
Context (type : dictType K V) (kid : K → I).

(** What a dict relies on from its [dictType]: the comparison decides equality
    of key identities, equal keys hash equally, hashes are 64 bit, duplicating
    a key keeps its identity, and the [keys_are_odd] flag is honest. *)
Class TypeOk := {
  same_key_kid : ∀ k1 k2, same_key type k1 k2 = bool_decide (kid k1 = kid k2);
  hash_kid : ∀ k1 k2, kid k1 = kid k2 → hashFunction type k1 = hashFunction type k2;
  hash_range : ∀ k, 0 ≤ hashFunction type k < 2 ^ 64;
  dup_kid : ∀ f k, keyDup type = Some f → kid (f k) = kid k;
  odd_keys : ∀ k, keys_are_odd type = true → key_is_odd type k = true;
}.

(** ** Tables *)

Definition entry_ok (en : dictEntry K V) : Prop :=
  if no_value type then e_kind en ≠ EntryNormal ∧ e_val en = None else e_kind en = EntryNormal.

(** Only the last entry of a chain can be a bare key: it has no [next]. *)
Fixpoint chain_ok (c : chain K V) : Prop :=
  match c with
  | [] => True
  | en :: c => entry_ok en ∧ (e_kind en = EntryKey → c = []) ∧ chain_ok c
  end.

Record tbl_ok (e : Z) (tb : list (chain K V)) : Prop := {
  tbl_exp : 0 ≤ e ≤ 60;
  tbl_len : zlen tb = 2 ^ e;
  tbl_chain : ∀ i c, tb !! i = Some c → chain_ok c;
  tbl_place : ∀ i c en, tb !! i = Some c → en ∈ c →
    Z.of_nat i = hashFunction type (e_key en) mod 2 ^ e;
}.

Definition ht_empty (h : ht K V) : Prop := h = _dictReset.
Definition ht_ok (h : ht K V) (tb : list (chain K V)) : Prop :=
  ht_table h = Some tb ∧ tbl_ok (ht_size_exp h) tb ∧ ht_used h = zlen (concat tb).

(** The entries of a dict. *)
Definition ht_entries (h : ht K V) : chain K V :=
  match ht_table h with Some tb => concat tb | None => [] end.
Definition dict_entries (d : dict K V) : chain K V := ht_entries (ht_0 d) ++ ht_entries (ht_1 d).

(** What an entry stores: the key identity, the key and the value. *)
Definition kv (en : dictEntry K V) : I * (K * option V) := (kid (e_key en), (e_key en, e_val en)).
Definition dict_kvs (d : dict K V) : list (I * (K * option V)) := kv <$> dict_entries d.

(** While rehashing both tables are there and the buckets before [rehashidx]
    are empty; otherwise there is at most table 0. *)
Definition tables_ok (d : dict K V) : Prop :=
  if dictIsRehashing d then
    ∃ tb0 tb1, ht_ok (ht_0 d) tb0 ∧ ht_ok (ht_1 d) tb1 ∧ 0 ≤ rehashidx d ≤ zlen tb0 ∧
      (∀ i, (i < Z.to_nat (rehashidx d))%nat → tb0 !! i = Some [])
  else ht_empty (ht_1 d) ∧ (ht_empty (ht_0 d) ∨ ∃ tb0, ht_ok (ht_0 d) tb0).

Record dict_ok (d : dict K V) : Prop := {
  ok_tables : tables_ok d;
  ok_nodup : NoDup (dict_kvs d).*1;
  ok_small : zlen (dict_entries d) < 2 ^ 60;
}.

(** The finite map a dict stores. *)
Definition dict_map (d : dict K V) : gmap I (K * option V) := list_to_map (dict_kvs d).

(** ** Arithmetic of the masks *)

Lemma size_pow e : 0 ≤ e → DICTHT_SIZE e = 2 ^ e.
Proof. intros. unfold DICTHT_SIZE. destruct (Z.eqb_spec e (-1)); [lia|]. rewrite Z.shiftl_mul_pow2 by done. lia. Qed.

Lemma land_mask h e : 0 ≤ e → Z.land h (DICTHT_SIZE_MASK e) = h mod 2 ^ e.
Proof.
  intros. unfold DICTHT_SIZE_MASK. destruct (Z.eqb_spec e (-1)); [lia|].
  rewrite size_pow by done. by apply land_low.
Qed.

Lemma mod_bucket h e : 0 ≤ e → 0 ≤ h mod 2 ^ e < 2 ^ e.
Proof. intros. apply Z.mod_pos_bound, Z.pow_pos_nonneg; lia. Qed.

(** ** Buckets *)

Lemma concat_insert {A} (tb : list (list A)) i c :
  tb !! i = Some c →
  ∃ l r, concat tb = l ++ c ++ r ∧ ∀ c', concat (<[i := c']> tb) = l ++ c' ++ r.
Proof.
  intros Hi. exists (concat (take i tb)), (concat (drop (S i) tb)).
  pose proof (lookup_lt_Some _ _ _ Hi). split.
  - rewrite <- (take_drop_middle tb i c Hi) at 1. by rewrite concat_app.
  - intros c'. rewrite insert_take_drop by done. by rewrite concat_app.
Qed.

Lemma get_bucket_ok (h : ht K V) tb idx :
  ht_table h = Some tb → 0 ≤ idx < zlen tb → ∃ c, get_bucket h idx = Some c ∧ tb !! Z.to_nat idx = Some c.
Proof.
  intros Htb Hi. unfold get_bucket. rewrite Htb. cbn [mbind option_bind]. rewrite decide_True by lia.
  destruct (lookup_lt_is_Some_2 tb (Z.to_nat idx)) as [c Hc]; [lia|]. eauto.
Qed.

Lemma set_bucket_ok (h : ht K V) tb idx c :
  ht_table h = Some tb → 0 ≤ idx < zlen tb →
  set_bucket h idx c = Some (HT (Some (<[Z.to_nat idx := c]> tb)) (ht_used h) (ht_size_exp h)).
Proof.
  intros Htb Hi. unfold set_bucket. rewrite Htb. cbn [mbind option_bind]. by rewrite decide_True by lia.
Qed.

(** Replacing a chain keeps the table well formed. *)
Lemma tbl_insert e tb i c c' :
  tbl_ok e tb → tb !! i = Some c → chain_ok c' →
  (∀ en, en ∈ c' → Z.of_nat i = hashFunction type (e_key en) mod 2 ^ e) →
  tbl_ok e (<[i := c']> tb).
Proof.
  intros [He Hl Hch Hpl] Hi Hc' Hpl'. split; [done|by rewrite length_insert|..].
  - intros j cj. destruct (decide (i = j)) as [->|].
    + rewrite list_lookup_insert_eq by (by eapply lookup_lt_Some). intros [= <-]. done.
    + rewrite list_lookup_insert_ne by done. apply Hch.
  - intros j cj en. destruct (decide (i = j)) as [->|].
    + rewrite list_lookup_insert_eq by (by eapply lookup_lt_Some). intros [= <-]. apply Hpl'.
    + rewrite list_lookup_insert_ne by done. apply Hpl.
Qed.

Lemma chain_ok_app l c : chain_ok (l ++ c) → chain_ok c.
Proof. induction l as [|x l IH]; [done|]. intros (_ & _ & Hc). auto. Qed.

Lemma chain_delete i c : chain_ok c → chain_ok (delete i c).
Proof.
  revert i. induction c as [|x c IH]; intros [|i] Hc; simpl; try done; destruct Hc as (Hx & Hk & Hc); [done|].
  split_and!; [done| |by apply IH]. intros Hkey. by rewrite (Hk Hkey).
Qed.

Lemma chain_ok_entry c en : chain_ok c → en ∈ c → entry_ok en.
Proof.
  induction c as [|x c IH]; [by intros _ ?%elem_of_nil|]. intros (Hx & _ & Hc) [->|Hin]%elem_of_cons; auto.
Qed.

(** ** Rehashing *)

Context {Hty : TypeOk}.

Lemma move_entry_ok de dest :
  entry_ok de →
  ∃ de', move_entry type de dest = Some de' ∧ entry_ok de' ∧ kv de' = kv de ∧
    e_key de' = e_key de ∧ (e_kind de' = EntryKey → dest = []).
Proof.
  unfold entry_ok, move_entry, kv. destruct (no_value type) eqn:Env.
  - intros [Hk Hv]. destruct (keys_are_odd type) eqn:Eodd; cbn [andb]; [destruct dest as [|x dest]|].
    + rewrite (odd_keys _ Eodd). cbn [assert mbind option_bind]. eexists; split; [done|].
      cbn. rewrite Hv. by split_and!.
    + destruct (e_kind de) eqn:Ek; [done|..]; (eexists; split; [done|]; cbn; rewrite ?Ek, ?Hv; by split_and!).
    + destruct (e_kind de) eqn:Ek; [done|..]; (eexists; split; [done|]; cbn; rewrite ?Ek, ?Hv; by split_and!).
  - intros Hk. rewrite Hk. eexists; split; [done|]. rewrite Hk. by split_and!.
Qed.

(** The destination bucket is that of the full hash, growing or shrinking. *)
Lemma move_index e0 e1 h ri :
  0 ≤ e0 → 0 ≤ e1 → ri = h mod 2 ^ e0 →
  (if e1 >? e0 then Z.land h (DICTHT_SIZE_MASK e1) else Z.land ri (DICTHT_SIZE_MASK e1)) = h mod 2 ^ e1.
Proof.
  intros H0 H1 ->. rewrite !land_mask by done. destruct (Z.gtb_spec e1 e0); [done|].
  apply Z.mod_mod_divide. exists (2 ^ (e0 - e1)). rewrite <- Z.pow_add_r by lia. f_equal. lia.
Qed.

Lemma move_bucket_spec c : ∀ tb0 u0 e0 tb1 u1 e1 ri pa,
  tbl_ok e1 tb1 → 0 ≤ e0 → chain_ok c →
  (∀ en, en ∈ c → ri = hashFunction type (e_key en) mod 2 ^ e0) →
  zlen c ≤ u0 < 2 ^ 64 → 0 ≤ u1 → u1 + zlen c < 2 ^ 64 →
  ∃ tb1',
    move_bucket type c (MkDict (HT (Some tb0) u0 e0) (HT (Some tb1) u1 e1) ri pa) =
      Some (MkDict (HT (Some tb0) (u0 - zlen c) e0) (HT (Some tb1') (u1 + zlen c) e1) ri pa) ∧
    tbl_ok e1 tb1' ∧ kv <$> concat tb1' ≡ₚ (kv <$> c) ++ (kv <$> concat tb1) ∧
    zlen (concat tb1') = zlen c + zlen (concat tb1).
Proof.
  induction c as [|de c IH]; intros tb0 u0 e0 tb1 u1 e1 ri pa Htb He0 Hc Hri Hu0 Hu1 Hsum.
  { exists tb1. cbn [move_bucket length]. rewrite Z.sub_0_r, Z.add_0_r. by split_and!. }
  destruct Hc as (Hde & _ & Hc). pose proof (tbl_exp _ _ Htb) as He1.
  pose proof (tbl_len _ _ Htb) as Hlen.
  assert (Hri' : ri = hashFunction type (e_key de) mod 2 ^ e0) by (apply Hri; set_solver).
  cbn [move_bucket ht_1 ht_0 ht_size_exp rehashidx]. unfold dictHashKey.
  rewrite (move_index e0 e1 (hashFunction type (e_key de)) ri) by (done || lia).
  set (i := hashFunction type (e_key de) mod 2 ^ e1).
  pose proof (mod_bucket (hashFunction type (e_key de)) e1 ltac:(lia)) as Hi. fold i in Hi.
  destruct (get_bucket_ok (HT (Some tb1) u1 e1) tb1 i) as (dest & -> & Hdest); [done|lia|].
  cbn [mbind option_bind].
  destruct (move_entry_ok de dest Hde) as (de' & -> & Hok' & Hkv & Hkey & Hk).
  cbn [mbind option_bind]. rewrite (set_bucket_ok _ tb1) by (done || lia). cbn [mbind option_bind].
  cbn [length] in Hu0, Hsum. cbn [set_dht add_used ht_0 ht_1 ht_table ht_used ht_size_exp rehashidx pauserehash].
  unfold add_used. cbn [ht_table ht_used ht_size_exp]. rewrite !wrapu_small by lia.
  assert (Htb' : tbl_ok e1 (<[Z.to_nat i := de' :: dest]> tb1)).
  { apply (tbl_insert _ _ _ dest); [done..| |].
    - split_and!; [done|done|]. by eapply tbl_chain.
    - intros en [->|Hen]%elem_of_cons.
      + rewrite Hkey. fold i. lia.
      + by eapply tbl_place. }
  destruct (IH tb0 (u0 + -1) e0 (<[Z.to_nat i := de' :: dest]> tb1) (u1 + 1) e1 ri pa)
    as (tb1' & -> & Htb1' & Hperm & Hl); [done..| |lia|lia|lia|].
  { intros en Hen. apply Hri. by right. }
  destruct (concat_insert tb1 (Z.to_nat i) dest Hdest) as (l & r & Econ & Eins).
  exists tb1'. split_and!.
  - replace (u0 + -1 - zlen c) with (u0 - zlen (de :: c)) by (cbn [length]; lia).
    by replace (u1 + 1 + zlen c) with (u1 + zlen (de :: c)) by (cbn [length]; lia).
  - done.
  - rewrite Hperm, Eins, Econ. cbn [fmap list_fmap app]. rewrite !fmap_app. cbn [fmap list_fmap app].
    by rewrite Hkv, <- !Permutation_middle, fmap_app.
  - rewrite Hl, Eins, Econ. llia.
Qed.


(** A dict in the middle of rehashing. *)
Record rehashing (d : dict K V) (tb0 tb1 : list (chain K V)) : Prop := {
  rh_0 : ht_ok (ht_0 d) tb0;
  rh_1 : ht_ok (ht_1 d) tb1;
  rh_idx : 0 ≤ rehashidx d ≤ zlen tb0;
  rh_done : ∀ i, (i < Z.to_nat (rehashidx d))%nat → tb0 !! i = Some [];
  rh_small : zlen (concat tb0) + zlen (concat tb1) < 2 ^ 60;
}.

(** Empty buckets up to [i] leave the entries behind. *)
Lemma concat_empty_prefix {A} (tb : list (list A)) n :
  (∀ i, (i < n)%nat → tb !! i = Some []) → concat tb = concat (drop n tb).
Proof.
  revert tb. induction n as [|n IH]; intros tb Hn; [by rewrite drop_0|].
  destruct tb as [|c tb]; [done|]. pose proof (Hn 0%nat ltac:(lia)) as [= ->]. simpl.
  apply IH. intros i Hi. apply (Hn (S i)). lia.
Qed.

(** While table 0 has entries, there is a bucket to move at or after [rehashidx]. *)
Lemma rehashing_more d tb0 tb1 :
  rehashing d tb0 tb1 → ht_used (ht_0 d) ≠ 0 → rehashidx d < zlen tb0.
Proof.
  intros [(Ht0 & _ & Hu0) _ Hidx Hdone _] Hu. destruct (decide (rehashidx d < zlen tb0)); [done|].
  rewrite (concat_empty_prefix tb0 (Z.to_nat (rehashidx d)) Hdone), drop_ge in Hu0 by lia. done.
Qed.

Lemma skip_empty_spec fuel : ∀ d tb0 tb1 ev,
  rehashing d tb0 tb1 → ht_used (ht_0 d) ≠ 0 → (length tb0 - Z.to_nat (rehashidx d) ≤ fuel)%nat →
  ∃ i ev' stop, skip_empty fuel d ev = Some (set_rehashidx d i, ev', stop) ∧
    rehashing (set_rehashidx d i) tb0 tb1 ∧ rehashidx d + (if stop then 1 else 0) ≤ i ∧
    (stop = false → ∃ c, c ≠ [] ∧ tb0 !! Z.to_nat i = Some c).
Proof.
  induction fuel as [|fuel IH]; intros d tb0 tb1 ev Hrh Hu Hf;
    pose proof (rehashing_more d tb0 tb1 Hrh Hu) as Hlt; pose proof Hrh as [H0 H1 Hidx Hdone Hs];
    (destruct (get_bucket_ok (ht_0 d) tb0 (rehashidx d)) as (c & Hg & Hc); [apply H0|lia|]); [lia|].
  cbn [skip_empty]. rewrite Hg. cbn [mbind option_bind]. destruct c as [|en c].
  - assert (Hrh' : rehashing (set_rehashidx d (rehashidx d + 1)) tb0 tb1).
    { split; [done|done|cbn; lia| |done]. intros i Hi. cbn in Hi.
      destruct (decide (i = Z.to_nat (rehashidx d))) as [->|]; [done|]. apply Hdone. lia. }
    destruct (_ =? 0).
    { do 3 eexists. split; [done|]. split_and!; [done|lia|done]. }
    destruct (IH _ tb0 tb1 (s32 (ev - 1)) Hrh') as (i & ev' & stop & -> & Hrh2 & Hi & Hstop); [done|cbn; lia|].
    exists i, ev', stop. split_and!; [done|done|cbn in Hi; lia|done].
  - exists (rehashidx d), ev, false. destruct d. split_and!; [done|done|cbn; lia|].
    intros _. by exists (en :: c).
Qed.

(** Moving the bucket at [rehashidx]. *)
Lemma move_step d tb0 tb1 c :
  rehashing d tb0 tb1 → tb0 !! Z.to_nat (rehashidx d) = Some c →
  ∃ d' tb0' tb1', (c ← get_bucket (ht_0 d) (rehashidx d);
      d ← move_bucket type c d;
      h0 ← set_bucket (ht_0 d) (rehashidx d) [];
      Some (set_rehashidx (set_dht d false h0) (rehashidx d + 1))) = Some d' ∧
    rehashing d' tb0' tb1' ∧ kv <$> concat tb0' ++ concat tb1' ≡ₚ kv <$> concat tb0 ++ concat tb1 ∧
    pauserehash d' = pauserehash d ∧ rehashidx d' = rehashidx d + 1 ∧ length tb0' = length tb0.
Proof.
  intros [(Et0 & Htb0 & Eu0) (Et1 & Htb1 & Eu1) Hidx Hdone Hs] Hc.
  destruct d as [[t0 u0 e0] [t1 u1 e1] ri pa].
  cbn [ht_0 ht_1 rehashidx ht_table ht_used ht_size_exp] in *. subst t0 t1 u0 u1.
  pose proof (lookup_lt_Some _ _ _ Hc) as Hlt.
  destruct (concat_insert tb0 (Z.to_nat ri) c Hc) as (l & r & Econ & Eins).
  destruct (get_bucket_ok (HT (Some tb0) (zlen (concat tb0)) e0) tb0 ri) as (c' & -> & Hc'); [done|lia|].
  assert (c' = c) as -> by congruence. cbn [mbind option_bind].
  destruct (move_bucket_spec c tb0 (zlen (concat tb0)) e0 tb1 (zlen (concat tb1)) e1 ri pa)
    as (tb1' & -> & Htb1' & Hperm & Hl); [done|apply Htb0|exact (tbl_chain _ _ Htb0 _ _ Hc)|..].
  { intros en Hen. pose proof (tbl_place _ _ Htb0 _ _ _ Hc Hen). lia. }
  { rewrite Econ in *. split; [llia|llia]. }
  { lia. }
  { rewrite Econ in Hs. llia. }
  cbn [mbind option_bind ht_0 rehashidx]. rewrite (set_bucket_ok _ tb0) by (done || lia).
  unfold set_rehashidx, set_dht.
  cbn [mbind option_bind ht_0 ht_1 rehashidx pauserehash ht_used ht_size_exp].
  pose proof (Eins []) as Eins0. cbn [app] in Eins0.
  do 3 eexists. split; [done|]. split_and!; [|..|done|done|by rewrite length_insert].
  - split; cbn [ht_0 ht_1 rehashidx].
    + split; [done|]. cbn [ht_size_exp ht_used]. split.
      * apply (tbl_insert _ _ _ c); [done|done|done|]. by intros ? ?%elem_of_nil.
      * rewrite Eins0, Econ. llia.
    + split; [done|]. split; [done|]. cbn [ht_used]. lia.
    + rewrite length_insert. lia.
    + intros i Hi. destruct (decide (i = Z.to_nat ri)) as [->|Hne].
      * by rewrite list_lookup_insert_eq.
      * rewrite list_lookup_insert_ne by done. apply Hdone. lia.
    + rewrite Eins0, Hl. rewrite Econ in Hs. llia.
  - rewrite !fmap_app, Hperm, Eins0, Econ, !fmap_app. solve_Permutation.
Qed.


Lemma rehash_loop_spec n : ∀ d tb0 tb1 ev,
  rehashing d tb0 tb1 →
  ∃ d' tb0' tb1' ret, rehash_loop type n d ev = Some (d', ret) ∧ rehashing d' tb0' tb1' ∧
    kv <$> concat tb0' ++ concat tb1' ≡ₚ kv <$> concat tb0 ++ concat tb1 ∧
    pauserehash d' = pauserehash d ∧ length tb0' = length tb0 ∧
    rehashidx d ≤ rehashidx d' ∧
    (ht_used (ht_0 d) ≠ 0 → n ≠ O → rehashidx d < rehashidx d') ∧
    (ht_used (ht_0 d) = 0 → d' = d ∧ ret = false).
Proof.
  induction n as [|n IH]; intros d tb0 tb1 ev Hrh; [by exists d, tb0, tb1, false|].
  cbn [rehash_loop]. destruct (Z.eqb_spec (ht_used (ht_0 d)) 0) as [|Hu]; [by exists d, tb0, tb1, false|].
  pose proof (rehashing_more d tb0 tb1 Hrh Hu) as Hlt.
  pose proof Hrh as [(Et0 & Htb0 & _) _ Hidx _ _]. pose proof (tbl_exp _ _ Htb0) as He.
  pose proof (tbl_len _ _ Htb0) as Hl. rewrite size_pow by lia.
  pose proof (Z.pow_le_mono_r 2 (ht_size_exp (ht_0 d)) 60 ltac:(lia) ltac:(lia)).
  rewrite wrapu_small by lia. destruct (Z.gtb_spec (2 ^ ht_size_exp (ht_0 d)) (rehashidx d)); [|lia].
  cbn [assert mbind option_bind].
  destruct (skip_empty_spec (Z.to_nat (2 ^ ht_size_exp (ht_0 d))) d tb0 tb1 ev Hrh Hu)
    as (i & ev' & stop & -> & Hrh1 & Hi & Hstop); [lia|]. cbn [mbind option_bind].
  destruct stop.
  - exists (set_rehashidx d i), tb0, tb1, true. unfold set_rehashidx in *. cbn [rehashidx] in *.
    split_and!; [done..|lia|intros; lia|done].
  - destruct (Hstop eq_refl) as (c & Hc & Hci).
    destruct (move_step (set_rehashidx d i) tb0 tb1 c Hrh1 Hci)
      as (d2 & tb2 & tb3 & Hmove & Hrh2 & Hperm & Hp & Hri & Hlen).
    apply bind_Some in Hmove as (c1 & -> & Hmove). cbn [mbind option_bind].
    apply bind_Some in Hmove as (d1 & -> & Hmove). cbn [mbind option_bind].
    apply bind_Some in Hmove as (h0 & -> & Hmove). cbn [mbind option_bind].
    assert (d2 = set_rehashidx (set_dht d1 false h0) (rehashidx d1 + 1)) as <- by congruence.
    destruct (IH _ tb2 tb3 ev' Hrh2) as (d' & tb0' & tb1' & ret & -> & Hrh' & Hperm' & Hp' & Hlen' & Hle & _).
    exists d', tb0', tb1', ret. rewrite Hri in Hle. unfold set_rehashidx in Hp, Hri, Hle. cbn [rehashidx pauserehash] in Hp, Hri, Hle.
    split_and!; [done|done|by rewrite Hperm'|by rewrite Hp'|lia|lia|intros; lia|done].
Qed.


Lemma rehashing_entries d tb0 tb1 :
  rehashing d tb0 tb1 → dict_entries d = concat tb0 ++ concat tb1.
Proof. intros [(E0 & _) (E1 & _) _ _ _]. unfold dict_entries, ht_entries. by rewrite E0, E1. Qed.

Lemma rehashing_flag d tb0 tb1 : rehashing d tb0 tb1 → dictIsRehashing d = true.
Proof. intros [_ _ Hi _ _]. unfold dictIsRehashing. destruct (Z.eqb_spec (rehashidx d) (-1)); [lia|done]. Qed.

Lemma ok_rehashing d :
  dict_ok d → dictIsRehashing d = true → ∃ tb0 tb1, rehashing d tb0 tb1.
Proof.
  intros [Ht _ Hs] Hr. unfold tables_ok in Ht. rewrite Hr in Ht. destruct Ht as (tb0 & tb1 & H0 & H1 & Hi & Hd).
  exists tb0, tb1. split; [done..|]. destruct H0 as (E0 & _), H1 as (E1 & _).
  unfold dict_entries, ht_entries in Hs. rewrite E0, E1 in Hs. llia.
Qed.

Lemma rehashing_ok d tb0 tb1 :
  rehashing d tb0 tb1 → NoDup (dict_kvs d).*1 → dict_ok d.
Proof.
  intros Hrh Hnd. pose proof Hrh as [H0 H1 Hi Hd Hs]. split; [|done|].
  - unfold tables_ok. rewrite (rehashing_flag _ _ _ Hrh). by exists tb0, tb1.
  - rewrite (rehashing_entries _ _ _ Hrh). llia.
Qed.

(** A dict whose entries are a permutation stores the same map. *)
Lemma perm_nodup (l l' : list (I * (K * option V))) : l ≡ₚ l' → NoDup l.*1 → NoDup l'.*1.
Proof. intros Hp. by rewrite Hp. Qed.

Lemma dict_map_perm d d' :
  dict_kvs d' ≡ₚ dict_kvs d → NoDup (dict_kvs d).*1 → dict_map d' = dict_map d.
Proof. intros Hp Hnd. unfold dict_map. apply list_to_map_proper; [|done]. by eapply perm_nodup. Qed.

(** What a background operation may change: nothing that can be observed. *)
Record same_content (d d' : dict K V) : Prop := {
  sc_ok : dict_ok d';
  sc_perm : dict_kvs d' ≡ₚ dict_kvs d;
  sc_pause : pauserehash d' = pauserehash d;
}.

Lemma same_content_refl d : dict_ok d → same_content d d.
Proof. by split. Qed.
Lemma same_content_trans d1 d2 d3 : same_content d1 d2 → same_content d2 d3 → same_content d1 d3.
Proof. intros [? H1 ?] [? H2 ?]. split; [done|by rewrite H2|congruence]. Qed.

Lemma same_entries d d' :
  dict_ok d → tables_ok d' → dict_entries d' = dict_entries d → pauserehash d' = pauserehash d →
  same_content d d'.
Proof.
  intros [_ Hnd Hs] Ht He Hp. unfold dict_kvs in Hnd.
  split; [split; [done|unfold dict_kvs; by rewrite He|by rewrite He]|unfold dict_kvs; by rewrite He|done].
Qed.

(** Table 1 becomes table 0 when the old table is empty. *)
Lemma finish_same d d' tb0 tb1 :
  same_content d d' → rehashing d' tb0 tb1 → ht_used (ht_0 d') = 0 →
  same_content d (set_rehashidx (set_dht (set_dht d' false (ht_1 d')) true _dictReset) (-1)).
Proof.
  intros [Hok Hperm Hp] Hrh Hz. set (d'' := set_rehashidx _ _).
  pose proof Hrh as [(_ & _ & Hu) H1 _ _ Hs]. pose proof H1 as (E1 & _).
  assert (concat tb0 = []) as E0 by (apply nil_length_inv; lia).
  assert (He : dict_entries d'' = dict_entries d').
  { rewrite (rehashing_entries _ _ _ Hrh), E0. unfold dict_entries, ht_entries. cbn. rewrite E1.
    by rewrite app_nil_r. }
  apply (same_content_trans d d'); [done|]. apply same_entries; [done| |done|done].
  split; [done|]. right. eauto.
Qed.

(** Rehashing never resizes the two tables. *)
Definition exps (d : dict K V) : Z * Z := (ht_size_exp (ht_0 d), ht_size_exp (ht_1 d)).
Lemma set_bucket_exp (h h' : ht K V) i c : set_bucket h i c = Some h' → ht_size_exp h' = ht_size_exp h.
Proof. unfold set_bucket. destruct (ht_table h); [|done]. cbn [mbind option_bind]. case_decide; [|done]. by intros [= <-]. Qed.
Lemma move_exps c : ∀ d d', move_bucket type c d = Some d' → exps d' = exps d.
Proof.
  induction c as [|de c IH]; intros d d'; cbn [move_bucket]; [by intros [= <-]|].
  intros (dest & _ & (de' & _ & (h1 & Hset & Hm)%bind_Some)%bind_Some)%bind_Some. rewrite (IH _ _ Hm). unfold exps. cbn. by rewrite (set_bucket_exp _ _ _ _ Hset).
Qed.
Lemma skip_exps fuel : ∀ d ev d' ev' stop, skip_empty fuel d ev = Some (d', ev', stop) → exps d' = exps d.
Proof.
  induction fuel as [|fuel IH]; intros d ev d' ev' stop; cbn [skip_empty]; intros (c & _ & Hs)%bind_Some; (destruct c; [|by injection Hs as <-]); [done|].
  destruct (_ =? 0); [by injection Hs as <-|]. by apply IH in Hs.
Qed.
Lemma loop_exps n : ∀ d ev d' ret, rehash_loop type n d ev = Some (d', ret) → exps d' = exps d.
Proof.
  induction n as [|n IH]; intros d ev d' ret; cbn [rehash_loop]; [by intros [= <-]|]. destruct (_ =? 0); [by intros [= <-]|].
  intros (_ & _ & ([[d1 ev1] stop] & Hsk & Hs)%bind_Some)%bind_Some. apply skip_exps in Hsk. destruct stop; [by injection Hs as <-|].
  apply bind_Some in Hs as (c & _ & (d2 & Hm & (h0 & Hset & Hs)%bind_Some)%bind_Some). apply IH in Hs. apply move_exps in Hm.
  rewrite Hs, <- Hsk, <- Hm. unfold exps. cbn. by rewrite (set_bucket_exp _ _ _ _ Hset).
Qed.

(** The resize policy holds the rehashing of [d]: it is forbidden, or to be
    avoided and the sizes of the tables do not differ enough to force it. *)
Definition held (cr : dictResizeEnable) (d : dict K V) : bool :=
  let s0 := DICTHT_SIZE (ht_size_exp (ht_0 d)) in
  let s1 := DICTHT_SIZE (ht_size_exp (ht_1 d)) in
  bool_decide (cr = DICT_RESIZE_FORBID) ||
  bool_decide (cr = DICT_RESIZE_AVOID) && (((s1 >? s0) && (s1 / s0 <? dict_force_resize_ratio)) || ((s1 <? s0) && (s0 / s1 <? dict_force_resize_ratio))).
Lemma held_exps cr d d' : exps d' = exps d → held cr d' = held cr d.
Proof. unfold exps, held. by intros [= -> ->]. Qed.

Lemma rehash_spec cr d n :
  dict_ok d →
  ∃ d' more, dictRehash type cr d n = Some (d', more) ∧ same_content d d' ∧
    (held cr d = true → d' = d ∧ more = false) ∧
    (held cr d = false → n ≠ O → dictIsRehashing d = true →
     if dictIsRehashing d' then more = true ∧ rehashidx d < rehashidx d' ≤ 2 ^ ht_size_exp (ht_0 d)
       ∧ exps d' = exps d else more = false).
Proof.
  intros Hok. unfold dictRehash, held. destruct (bool_decide (cr = DICT_RESIZE_FORBID)); cbn [orb].
  { do 2 eexists. split; [done|]. split; [by apply same_content_refl|done]. }
  destruct (dictIsRehashing d) eqn:Er; cbn [negb].
  2: { do 2 eexists. split; [done|]. split; [by apply same_content_refl|done]. }
  destruct (bool_decide (cr = DICT_RESIZE_AVOID) && _).
  { do 2 eexists. split; [done|]. split; [by apply same_content_refl|done]. }
  destruct (ok_rehashing d Hok Er) as (tb0 & tb1 & Hrh). pose proof (ok_nodup _ Hok) as Hnd.
  destruct (rehash_loop_spec n d tb0 tb1 (s32 (Z.of_nat n * 10)) Hrh)
    as (d' & tb0' & tb1' & ret & Hloop & Hrh' & Hperm & Hp & Hlen & Hle & Hprog & Hz0).
  pose proof (loop_exps _ _ _ _ _ Hloop) as Hexps. rewrite Hloop. cbn [mbind option_bind].
  assert (Hkvs : dict_kvs d' ≡ₚ dict_kvs d).
  { unfold dict_kvs. by rewrite (rehashing_entries _ _ _ Hrh), (rehashing_entries _ _ _ Hrh'). }
  assert (Hnd' : NoDup (dict_kvs d').*1) by (by eapply perm_nodup).
  assert (Hsame : same_content d d') by (by split; [by eapply rehashing_ok|..]).
  assert (Hexp : ht_size_exp (ht_0 d') = ht_size_exp (ht_0 d) ∧ zlen tb0 = 2 ^ ht_size_exp (ht_0 d)).
  { pose proof Hrh as [(_ & Ht0 & _) _ _ _ _]. pose proof Hrh' as [(_ & Ht0' & _) _ _ _ _].
    pose proof (tbl_len _ _ Ht0) as L1. pose proof (tbl_len _ _ Ht0') as L2.
    pose proof (tbl_exp _ _ Ht0). pose proof (tbl_exp _ _ Ht0'). split; [|done].
    rewrite Hlen, L1 in L2. apply Z.pow_inj_r in L2; lia. }
  assert (Hmore : ht_used (ht_0 d') ≠ 0 ∨ ret = true → n ≠ O →
    rehashidx d < rehashidx d' ≤ 2 ^ ht_size_exp (ht_0 d)).
  { intros Hm Hn. destruct (decide (ht_used (ht_0 d) = 0)) as [Hz|Hnz].
    - destruct (Hz0 Hz) as [-> ->]. by destruct Hm.
    - pose proof (rh_idx _ _ _ Hrh'). specialize (Hprog Hnz Hn). lia. }
  destruct ret.
  - do 2 eexists. split; [done|]. split; [done|]. split; [done|]. intros _ Hn _. rewrite (rehashing_flag _ _ _ Hrh').
    split_and!; [done|..]; [by apply Hmore; auto..|done].
  - destruct (Z.eqb_spec (ht_used (ht_0 d')) 0) as [Hz|Hnz].
    + do 2 eexists. split; [done|]. split; [by eapply finish_same|done].
    + do 2 eexists. split; [done|]. split; [done|]. split; [done|]. intros _ Hn _. rewrite (rehashing_flag _ _ _ Hrh').
      split_and!; [done|..]; [by apply Hmore; auto..|done].
Qed.


(** ** Updating one chain *)

Lemma ok_used d : dict_ok d → 0 ≤ ht_used (ht_0 d) ∧ 0 ≤ ht_used (ht_1 d) ∧
  ht_used (ht_0 d) + ht_used (ht_1 d) = zlen (dict_entries d).
Proof.
  intros [Ht _ _]. unfold dict_entries, ht_entries. unfold tables_ok in Ht.
  destruct (dictIsRehashing d).
  - destruct Ht as (tb0 & tb1 & (-> & _ & ->) & (-> & _ & ->) & _). llia.
  - destruct Ht as [-> [->|(tb0 & -> & _ & ->)]]; cbn; [lia|llia].
Qed.

(** The table [t] of a dict, when it is there. *)
Lemma ok_table d t idx c :
  dict_ok d → get_bucket (dht d t) idx = Some c →
  ∃ tb, ht_ok (dht d t) tb ∧ tb !! Z.to_nat idx = Some c ∧ 0 ≤ idx < zlen tb.
Proof.
  intros [Ht _ _] Hg. unfold tables_ok in Ht. unfold get_bucket in Hg. destruct (ht_table (dht d t)) as [tb|] eqn:E; [|done].
  cbn [mbind option_bind] in Hg. case_decide as Hdec; [|done]. exists tb. split.
  - destruct (dictIsRehashing d).
    + destruct Ht as (tb0 & tb1 & H0 & H1 & _). pose proof H0 as (E0 & _). pose proof H1 as (E1 & _).
      destruct t; cbn in *; congruence.
    + destruct Ht as [H1 H0]. destruct t; cbn in *; [by rewrite H1 in E|].
      destruct H0 as [H0|(tb0 & H0)]; [by rewrite H0 in E|]. pose proof H0 as (E0 & _). congruence.
  - split; [done|]. apply lookup_lt_Some in Hg. lia.
Qed.

(** Replacing the chain of one bucket and adjusting the count. *)
Lemma put_chain d t idx c c' :
  dict_ok d → get_bucket (dht d t) idx = Some c → chain_ok c' →
  (∀ en, en ∈ c' → idx = hashFunction type (e_key en) mod 2 ^ ht_size_exp (dht d t)) →
  (t = false → c = [] → dictIsRehashing d = true → c' = []) →
  let tb' := λ tb : list (chain K V), <[Z.to_nat idx := c']> tb in
  ∃ tb L R, ht_table (dht d t) = Some tb ∧ 0 ≤ idx < zlen tb ∧
    dict_entries d = L ++ c ++ R ∧
    let d' := set_dht d t (HT (Some (tb' tb)) (ht_used (dht d t) + zlen c' - zlen c) (ht_size_exp (dht d t))) in
    dict_entries d' = L ++ c' ++ R ∧
    (NoDup (kv <$> L ++ c' ++ R).*1 → zlen (L ++ c' ++ R) < 2 ^ 60 → dict_ok d').
Proof.
  intros Hok Hg Hc' Hpl Hempty tb'.
  destruct (ok_table d t idx c Hok Hg) as (tb & (Etb & Htb & Hu) & Hi & Hidx).
  destruct (concat_insert tb _ _ Hi) as (l & r & Econ & Eins).
  assert (Hh : ht_ok (HT (Some (tb' tb)) (ht_used (dht d t) + zlen c' - zlen c) (ht_size_exp (dht d t))) (tb' tb)).
  { split; [done|]. split.
    - apply (tbl_insert _ _ _ c); [done|done|done|]. intros en Hen. cbn [ht_size_exp]. rewrite <- (Hpl en Hen). lia.
    - cbn [ht_used]. unfold tb'. rewrite Eins, Hu, Econ. llia. }
  assert (Hlen : length (tb' tb) = length tb) by apply length_insert.
  exists tb. pose proof Hok as [Htabs _ _]. unfold tables_ok in Htabs. destruct t; cbn [dht] in *.
  - exists (ht_entries (ht_0 d) ++ l), r. split; [done|]. split; [done|].
    assert (He : ∀ h x, ht_entries h = l ++ x ++ r → dict_entries (set_dht d true h) = (ht_entries (ht_0 d) ++ l) ++ x ++ r).
    { intros h x Hx. unfold dict_entries. cbn. by rewrite Hx, <- app_assoc. }
    split.
    { unfold dict_entries. assert (ht_entries (ht_1 d) = l ++ c ++ r) as -> by (unfold ht_entries; by rewrite Etb).
      by rewrite <- app_assoc. }
    cbv zeta. rewrite (He _ c') by (unfold ht_entries; cbn; apply Eins). split; [done|].
    intros Hnd Hsm. split.
    + unfold tables_ok. destruct (dictIsRehashing d) eqn:Er; unfold dictIsRehashing in *; cbn; rewrite Er.
      * destruct Htabs as (tb0 & tb1 & H0 & H1 & Hri & Hd). exists tb0, (tb' tb). split_and!; [done|done|lia..|done].
      * destruct Htabs as [H1 _]. by rewrite H1 in Etb.
    + unfold dict_kvs. by rewrite (He _ c') by (unfold ht_entries; cbn; apply Eins).
    + by rewrite (He _ c') by (unfold ht_entries; cbn; apply Eins).
  - exists l, (r ++ ht_entries (ht_1 d)). split; [done|]. split; [done|].
    assert (He : ∀ h x, ht_entries h = l ++ x ++ r → dict_entries (set_dht d false h) = l ++ x ++ r ++ ht_entries (ht_1 d)).
    { intros h x Hx. unfold dict_entries. cbn. by rewrite Hx, <- !app_assoc. }
    split.
    { unfold dict_entries. assert (ht_entries (ht_0 d) = l ++ c ++ r) as -> by (unfold ht_entries; by rewrite Etb).
      by rewrite <- !app_assoc. }
    cbv zeta. rewrite (He _ c') by (unfold ht_entries; cbn; apply Eins). split; [done|].
    intros Hnd Hsm. split.
    + unfold tables_ok. destruct (dictIsRehashing d) eqn:Er; unfold dictIsRehashing in *; cbn; rewrite Er.
      * destruct Htabs as (tb0 & tb1 & H0 & H1 & Hri & Hd). exists (tb' tb), tb1.
        pose proof H0 as (E0 & _). assert (tb0 = tb) as -> by congruence.
        split_and!; [done|done|lia|lia|]. intros i Hlt.
        destruct (decide (i = Z.to_nat idx)) as [->|].
        -- pose proof (Hd _ Hlt) as Hnil. rewrite Hi in Hnil. injection Hnil as ->.
           unfold tb'. rewrite (Hempty eq_refl eq_refl eq_refl). apply list_lookup_insert_eq. lia.
        -- unfold tb'. rewrite list_lookup_insert_ne by done. by apply Hd.
      * destruct Htabs as [H1 _]. split; [done|]. right. by exists (tb' tb).
    + unfold dict_kvs. by rewrite (He _ c') by (unfold ht_entries; cbn; apply Eins).
    + by rewrite (He _ c') by (unfold ht_entries; cbn; apply Eins).
Qed.


(** ** Looking up *)

Lemma chain_find_spec key c :
  match chain_find type key c with
  | Some i => ∃ en, c !! i = Some en ∧ kid (e_key en) = kid key
  | None => ∀ en, en ∈ c → kid (e_key en) ≠ kid key
  end.
Proof.
  induction c as [|en c IH]; [by intros ? ?%elem_of_nil|]. cbn [chain_find]. rewrite same_key_kid.
  case_bool_decide as Hk; [by exists en|]. destruct (chain_find type key c) as [i|].
  - done.
  - intros en' [->|Hin]%elem_of_cons; [done|]. by apply IH.
Qed.

(** An entry of a table is in the bucket of its hash. *)
Lemma entry_bucket h tb en :
  ht_ok h tb → en ∈ concat tb →
  ∃ c, get_bucket h (Z.land (hashFunction type (e_key en)) (DICTHT_SIZE_MASK (ht_size_exp h))) = Some c ∧
    en ∈ c.
Proof.
  intros (Etb & Htb & _) Hin. pose proof (tbl_exp _ _ Htb). rewrite land_mask by lia.
  apply elem_of_concat in Hin as (c & Hen & Hc). apply list_elem_of_lookup in Hc as [i Hi].
  exists c. split; [|done]. unfold get_bucket. rewrite Etb. cbn [mbind option_bind].
  rewrite <- (tbl_place _ _ Htb i c en Hi Hen). rewrite decide_True by lia. by rewrite Nat2Z.id.
Qed.

Lemma bucket_at h tb key :
  ht_ok h tb →
  ∃ c, get_bucket h (Z.land (hashFunction type key) (DICTHT_SIZE_MASK (ht_size_exp h))) = Some c.
Proof.
  intros (Etb & Htb & _). pose proof (tbl_exp _ _ Htb). rewrite land_mask by lia.
  pose proof (mod_bucket (hashFunction type key) (ht_size_exp h) ltac:(lia)).
  destruct (get_bucket_ok h tb (hashFunction type key mod 2 ^ ht_size_exp h)) as (c & -> & _); [done| |by eexists].
  by rewrite (tbl_len _ _ Htb).
Qed.

Lemma not_in_bucket h tb key c :
  ht_ok h tb →
  get_bucket h (Z.land (hashFunction type key) (DICTHT_SIZE_MASK (ht_size_exp h))) = Some c →
  (∀ en, en ∈ c → kid (e_key en) ≠ kid key) → ∀ en, en ∈ concat tb → kid (e_key en) ≠ kid key.
Proof.
  intros Hh Hg Hc en Hin Hk. destruct (entry_bucket h tb en Hh Hin) as (c' & Hg' & Hen).
  rewrite (hash_kid _ _ Hk), Hg in Hg'. injection Hg' as ->. by eapply Hc.
Qed.

(** The entry at a place has the key searched for. *)
Definition place_holds (d : dict K V) (key : K) (p : place) : Prop :=
  let '(t, idx, i) := p in
  ∃ c en, get_bucket (dht d t) idx = Some c ∧ c !! i = Some en ∧ kid (e_key en) = kid key.

Lemma find_place_spec d key tb0 :
  dict_ok d → ht_ok (ht_0 d) tb0 →
  ∃ p, find_place type d key (dictHashKey type key) = Some p ∧
    match p with
    | Some p => place_holds d key p
    | None => kid key ∉ (dict_kvs d).*1
    end.
Proof.
  intros Hok H0. unfold find_place, dictHashKey.
  destruct (bucket_at _ _ key H0) as [c0 Hc0]. rewrite Hc0. cbn [mbind option_bind].
  pose proof (chain_find_spec key c0) as Hf0. destruct (chain_find type key c0) as [i|].
  { destruct Hf0 as (en & Hi & Hk). eexists; split; [done|]. by exists c0, en. }
  assert (Hnot : ∀ en, en ∈ dict_entries d → (∀ en', en' ∈ ht_entries (ht_1 d) → kid (e_key en') ≠ kid key) →
    kid (e_key en) ≠ kid key).
  { intros en Hin H1. unfold dict_entries in Hin. apply elem_of_app in Hin as [Hin|Hin]; [|by apply H1].
    unfold ht_entries in Hin. pose proof H0 as (E0 & _). rewrite E0 in Hin.
    by eapply not_in_bucket. }
  assert (Hnone : (∀ en', en' ∈ ht_entries (ht_1 d) → kid (e_key en') ≠ kid key) → kid key ∉ (dict_kvs d).*1).
  { intros H1 Hin. unfold dict_kvs in Hin. rewrite <- list_fmap_compose in Hin.
    apply list_elem_of_fmap in Hin as (en & Hk & Hen). by eapply Hnot. }
  destruct (dictIsRehashing d) eqn:Er; cbn [negb].
  - destruct (ok_rehashing d Hok Er) as (tb0' & tb1 & Hrh). pose proof Hrh as [_ H1 _ _ _].
    destruct (bucket_at _ _ key H1) as [c1 Hc1]. rewrite Hc1. cbn [mbind option_bind].
    pose proof (chain_find_spec key c1) as Hf1. destruct (chain_find type key c1) as [i|]; cbn.
    + destruct Hf1 as (en & Hi & Hk). eexists; split; [done|]. by exists c1, en.
    + eexists; split; [done|]. apply Hnone. unfold ht_entries. pose proof H1 as (E1 & _). rewrite E1.
      by eapply not_in_bucket.
  - eexists; split; [done|]. apply Hnone. destruct Hok as [Ht _ _]. unfold tables_ok in Ht. rewrite Er in Ht.
    destruct Ht as [-> _]. by intros ? ?%elem_of_nil.
Qed.

(** What is at a place: the entry splits the list of entries. *)
Lemma place_entry d key t idx i c en :
  dict_ok d → get_bucket (dht d t) idx = Some c → c !! i = Some en → kid (e_key en) = kid key →
  dict_map d !! kid key = Some (e_key en, e_val en).
Proof.
  intros Hok Hg Hi Hk. destruct (ok_table d t idx c Hok Hg) as (tb & (Etb & _) & Htb & _).
  unfold dict_map. apply elem_of_list_to_map_1; [apply Hok|]. unfold dict_kvs.
  apply list_elem_of_fmap. exists en. split; [unfold kv; by rewrite Hk|].
  unfold dict_entries, ht_entries. apply elem_of_app.
  assert (en ∈ concat tb).
  { apply elem_of_concat. exists c. split; [by eapply list_elem_of_lookup_2|by eapply list_elem_of_lookup_2]. }
  destruct t; cbn in Etb; rewrite Etb; tauto.
Qed.

Lemma not_in_map d key : kid key ∉ (dict_kvs d).*1 → dict_map d !! kid key = None.
Proof. intros. by apply not_elem_of_list_to_map. Qed.


(** ** Expanding *)

Lemma next_exp_loop_spec fuel size : ∀ e,
  0 ≤ e ≤ 63 → size ≤ 2 ^ 63 → 64 - e ≤ Z.of_nat fuel →
  ∃ e', next_exp_loop fuel size e = Some e' ∧ e ≤ e' ≤ 63 ∧ size ≤ 2 ^ e' ∧ (e < e' → 2 ^ (e' - 1) < size).
Proof.
  induction fuel as [|fuel IH]; intros e He Hs Hf; [lia|]. cbn [next_exp_loop].
  rewrite Z.shiftl_mul_pow2, Z.mul_1_l by lia.
  pose proof (Z.pow_le_mono_r 2 e 63 ltac:(lia) ltac:(lia)).
  pose proof (Z.pow_pos_nonneg 2 e ltac:(lia) ltac:(lia)).
  rewrite wrapu_small by lia. rewrite Z.geb_leb. destruct (Z.leb_spec size (2 ^ e)).
  - exists e. split_and!; [done|lia..].
  - destruct (decide (e = 63)) as [->|]; [lia|]. rewrite wrapu_small by lia.
    destruct (IH (e + 1)) as (e' & -> & He' & Hle & Hgt); [lia..|]. exists e'. split_and!; [done|lia..|].
    intros _. destruct (decide (e' = e + 1)) as [->|]; [|by apply Hgt; lia].
    by replace (e + 1 - 1) with e by lia.
Qed.

Lemma nextExp_spec size :
  0 ≤ size ≤ 2 ^ 63 → ∃ e, _dictNextExp size = Some e ∧ 2 ≤ e ≤ 63 ∧ size ≤ 2 ^ e ∧ (2 < e → 2 ^ (e - 1) < size ∨ size = LONG_MAX).
Proof.
  intros Hs. unfold _dictNextExp, LONG_MAX in *. rewrite Z.geb_leb. destruct (Z.leb_spec INT64_MAX size).
  - exists 63. split_and!; [done|ilia..|]. intros _. destruct (decide (size = INT64_MAX)); [by right|left; ilia].
  - destruct (next_exp_loop_spec 64 size 2) as (e & He & Hr & Hle & Hgt); [lia|lia|lia|].
    exists e. split_and!; [done|lia..|]. intros. left. apply Hgt. lia.
Qed.

Lemma concat_replicate_nil {A} n : concat (replicate n (@nil A)) = [].
Proof. induction n; [done|]. simpl. done. Qed.

Lemma tbl_empty e : 0 ≤ e ≤ 60 → tbl_ok e (replicate (Z.to_nat (2 ^ e)) []).
Proof.
  intros He. split; [done| |..].
  - rewrite length_replicate. pose proof (Z.pow_pos_nonneg 2 e). lia.
  - intros i c [-> _]%lookup_replicate. done.
  - intros i c en [-> _]%lookup_replicate. by intros ?%elem_of_nil.
Qed.

Lemma new_exp_small e :
  2 ≤ e ≤ 63 →
  (u64 (u64 (Z.shiftl 1 e) * 8) <? u64 (Z.shiftl 1 e)) = bool_decide (60 < e) ∧ u64 (Z.shiftl 1 e) = 2 ^ e.
Proof.
  intros He. rewrite Z.shiftl_mul_pow2, Z.mul_1_l by lia.
  pose proof (Z.pow_le_mono_r 2 e 63 ltac:(lia) ltac:(lia)).
  pose proof (Z.pow_pos_nonneg 2 e ltac:(lia) ltac:(lia)). rewrite !(wrapu_small 64 (2 ^ e)) by lia.
  split; [|done]. replace (2 ^ e * 8) with (2 ^ (e + 3)) by (rewrite Z.pow_add_r by lia; done).
  case_bool_decide as Hc.
  - apply Z.ltb_lt. unfold wrapu. replace (2 ^ (e + 3)) with (2 ^ (e - 61) * 2 ^ 64)
      by (rewrite <- Z.pow_add_r by lia; f_equal; lia). rewrite Z.mod_mul by lia. lia.
  - pose proof (Z.pow_le_mono_r 2 (e + 3) 63 ltac:(lia) ltac:(lia)).
    pose proof (Z.pow_le_mono_r 2 e (e + 3) ltac:(lia) ltac:(lia)).
    rewrite wrapu_small by lia. apply Z.ltb_ge. lia.
Qed.

Lemma expand_spec d size calloc_ok :
  dict_ok d → 0 ≤ size →
  ∃ d' ok mf, _dictExpand d size calloc_ok = Some (d', ok, mf) ∧ same_content d d' ∧
    (ok = true → ∃ tb0, ht_ok (ht_0 d') tb0) ∧
    (calloc_ok = true → dictIsRehashing d = false → ht_used (ht_0 d) ≤ size ≤ 2 ^ 60 →
     DICTHT_SIZE (ht_size_exp (ht_0 d)) < size → ok = true).
Proof.
  intros Hok Hpos. unfold _dictExpand.
  assert (Hstop : ∀ mf : bool, (calloc_ok = true → dictIsRehashing d = false →
      ht_used (ht_0 d) ≤ size ≤ 2 ^ 60 → DICTHT_SIZE (ht_size_exp (ht_0 d)) < size → False) →
    ∃ d' ok mf', Some (d, false, mf) = Some (d', ok, mf') ∧ same_content d d' ∧
    (ok = true → ∃ tb0, ht_ok (ht_0 d') tb0) ∧
    (calloc_ok = true → dictIsRehashing d = false → ht_used (ht_0 d) ≤ size ≤ 2 ^ 60 →
     DICTHT_SIZE (ht_size_exp (ht_0 d)) < size → ok = true)).
  { intros mf Hf. do 3 eexists. split; [done|]. split_and!; [by apply same_content_refl|done|].
    intros. exfalso. auto. }
  destruct (dictIsRehashing d) eqn:Er; cbn [orb]; [by apply Hstop|].
  destruct (Z.gtb_spec (ht_used (ht_0 d)) size) as [|Hused]; [apply Hstop; lia|].
  destruct (Z.le_gt_cases size (2 ^ 63)) as [Hmax|Hbig].
  2:{ unfold _dictNextExp. rewrite Z.geb_leb, (proj2 (Z.leb_le _ _)) by (unfold LONG_MAX; ilia).
      cbn [mbind option_bind]. rewrite (proj2 (Z.ltb_lt _ size)) by done. apply Hstop. lia. }
  destruct (nextExp_spec size) as (e & -> & He & Hle & Hmin); [done|]. cbn [mbind option_bind].
  destruct (new_exp_small e He) as [-> ->]. destruct (Z.ltb_spec (2 ^ e) size) as [|_]; [lia|]. cbn [orb].
  case_bool_decide as H60.
  { apply Hstop. intros _ _ Hs _. destruct (Hmin ltac:(lia)) as [Hlt | ->]; [|unfold LONG_MAX in *; ilia].
    pose proof (Z.pow_le_mono_r 2 60 (e - 1)). lia. }
  destruct (Z.eqb_spec e (ht_size_exp (ht_0 d))) as [Heq|Hne].
  { apply Hstop. intros _ _ _. rewrite <- Heq, size_pow by lia. lia. }
  destruct calloc_ok; cbn [negb]; [|by apply Hstop].
  pose proof (tbl_empty e ltac:(lia)) as Hnew. set (nt := replicate _ []) in *.
  assert (Hnil : concat nt = []) by apply concat_replicate_nil.
  pose proof Hok as [Ht Hnd Hsm]. unfold tables_ok in Ht. rewrite Er in Ht. destruct Ht as [H1 H0].
  destruct (ht_table (ht_0 d)) as [tb0|] eqn:E0.
  - destruct H0 as [H0|(tb & H0)]; [by rewrite H0 in E0|]. pose proof H0 as (E0' & _).
    assert (tb = tb0) as -> by congruence.
    set (d' := set_rehashidx _ 0). assert (He' : dict_entries d' = dict_entries d).
    { unfold dict_entries, ht_entries. cbn. rewrite H1. cbn. by rewrite Hnil. }
    do 3 eexists. split; [done|]. split_and!; [|by eauto|done]. apply same_entries; [done| |done|done].
    exists tb0, nt. split; [done|]. split; [by split_and!; cbn; rewrite ?Hnil|].
    split; [cbn; lia|]. intros i Hi. cbn in Hi. lia.
  - set (d' := set_dht d false _). assert (He' : dict_entries d' = dict_entries d).
    { unfold dict_entries, ht_entries. cbn. by rewrite E0, Hnil. }
    assert (Hn : ht_ok (ht_0 d') nt) by (by split_and!; cbn; rewrite ?Hnil).
    do 3 eexists. split; [done|]. split_and!; [|by eauto|done]. apply same_entries; [done| |done|done].
    unfold tables_ok, dictIsRehashing in *. cbn. rewrite Er. split; [done|]. right. eauto.
Qed.


(** ** Operations *)

Lemma dictSize_entries d : dict_ok d → dictSize d = zlen (dict_entries d).
Proof.
  intros Hok. destruct (ok_used d Hok) as (? & ? & ?). pose proof (ok_small _ Hok).
  unfold dictSize. rewrite wrapu_small by lia. lia.
Qed.

Lemma nonempty_table d : dict_ok d → dict_entries d ≠ [] → ∃ tb0, ht_ok (ht_0 d) tb0.
Proof.
  intros Hok Hne. destruct (dictIsRehashing d) eqn:Er.
  - destruct (ok_rehashing d Hok Er) as (tb0 & tb1 & [? _ _ _ _]). eauto.
  - destruct Hok as [Ht _ _]. unfold tables_ok in Ht. rewrite Er in Ht.
    destruct Ht as [H1 [H0|?]]; [|done]. exfalso. apply Hne. unfold dict_entries, ht_entries.
    by rewrite H0, H1.
Qed.

Context (cr : dictResizeEnable).

Lemma rehash_if_needed_spec d :
  dict_ok d → ∃ d', rehash_if_needed type cr d = Some d' ∧ same_content d d'.
Proof.
  intros Hok. unfold rehash_if_needed, _dictRehashStep. pose proof (same_content_refl d Hok).
  destruct (dictIsRehashing d); [|by eauto]. destruct (_ =? 0); [|by eauto].
  destruct (rehash_spec cr d 1 Hok) as (d' & more & -> & Hs & _). by exists d'.
Qed.

Lemma same_kvs_nil d d' : same_content d d' → dict_entries d' = [] ↔ dict_entries d = [].
Proof.
  intros [_ Hp _]. apply Permutation_length in Hp. unfold dict_kvs in Hp. rewrite !length_fmap in Hp.
  split; intros E; rewrite E in Hp; apply nil_length_inv; simpl in Hp; lia.
Qed.

(** The common prefix of the lookups: empty, or a rehash step and a search. *)
Lemma lookup_spec d key :
  dict_ok d → dictSize d ≠ 0 →
  ∃ d' p, rehash_if_needed type cr d = Some d' ∧ same_content d d' ∧
    find_place type d' key (dictHashKey type key) = Some p ∧
    match p with Some p => place_holds d' key p | None => kid key ∉ (dict_kvs d').*1 end.
Proof.
  intros Hok Hsz. rewrite dictSize_entries in Hsz by done.
  destruct (rehash_if_needed_spec d Hok) as (d' & Hr & Hs).
  destruct (nonempty_table d') as [tb0 H0].
  { apply Hs. }
  { rewrite (same_kvs_nil d d' Hs). intros E. by rewrite E in Hsz. }
  destruct (find_place_spec d' key tb0) as (p & Hf & Hp); [apply Hs|done|]. eauto 10.
Qed.

Lemma empty_map d : dict_ok d → dictSize d = 0 → dict_map d = ∅ ∧ dict_entries d = [].
Proof.
  intros Hok Hsz. rewrite dictSize_entries in Hsz by done.
  assert (dict_entries d = []) as E by (apply nil_length_inv; lia).
  unfold dict_map, dict_kvs. by rewrite E.
Qed.

Lemma same_map d d' : dict_ok d → same_content d d' → dict_map d' = dict_map d.
Proof. intros Hok [_ Hp _]. apply dict_map_perm; [done|]. apply Hok. Qed.

(** Pulling one binding out of a list of bindings. *)
Lemma map_mid (l r : list (I * (K * option V))) k x :
  NoDup (l ++ (k, x) :: r).*1 →
  list_to_map (M := gmap I (K * option V)) (l ++ (k, x) :: r) = <[k := x]> (list_to_map (l ++ r)) ∧
  list_to_map (M := gmap I (K * option V)) (l ++ r) !! k = None.
Proof.
  intros Hnd. assert (Hp : l ++ (k, x) :: r ≡ₚ (k, x) :: l ++ r) by (by rewrite Permutation_middle).
  pose proof (perm_nodup _ _ Hp Hnd) as Hnd'. split.
  - by rewrite (list_to_map_proper _ _ Hnd Hp).
  - apply not_elem_of_list_to_map. rewrite fmap_cons in Hnd'. by inv Hnd'.
Qed.

(** [p] is where the key is, if it is anywhere. *)
Definition found (d : dict K V) (key : K) (p : option place) : Prop :=
  match p with
  | Some p => place_holds d key p
  | None => dict_map d !! kid key = None
  end.

Lemma find_spec d key :
  dict_ok d → ∃ d' p, dictFind type cr d key = Some (d', p) ∧ same_content d d' ∧ found d' key p.
Proof.
  intros Hok. unfold dictFind. destruct (Z.eqb_spec (dictSize d) 0) as [Hz|Hnz].
  - exists d, None. split; [done|]. split; [by apply same_content_refl|].
    unfold found. by rewrite (proj1 (empty_map d Hok Hz)).
  - destruct (lookup_spec d key Hok Hnz) as (d' & p & -> & Hs & Hf & Hp). cbn [mbind option_bind].
    rewrite Hf. exists d', p. split; [done|]. split; [done|]. destruct p; [done|]. by apply not_in_map.
Qed.

(** The key stored where [key] was found, and its value. *)
Lemma place_lookup d key p :
  dict_ok d → place_holds d key p →
  ∃ en, get_entry d p = Some en ∧ kid (e_key en) = kid key ∧ entry_ok en ∧
    dict_map d !! kid key = Some (e_key en, e_val en).
Proof.
  destruct p as [[t idx] i]. intros Hok (c & en & Hg & Hi & Hk). exists en.
  cbn [get_entry]. rewrite Hg. cbn [mbind option_bind]. split_and!; [done|done| |by eapply place_entry].
  destruct (ok_table d t idx c Hok Hg) as (tb & (_ & Htb & _) & Hc & _).
  eapply chain_ok_entry; [exact (tbl_chain _ _ Htb _ _ Hc)|]. by eapply list_elem_of_lookup_2.
Qed.

(** Replacing an entry by one with the same key identity and hash. *)
Lemma set_entry_spec d key p en en' :
  dict_ok d → place_holds d key p → get_entry d p = Some en → kid (e_key en') = kid (e_key en) →
  entry_ok en' → e_kind en' = e_kind en →
  ∃ d', set_entry d p en' = Some d' ∧ dict_ok d' ∧ pauserehash d' = pauserehash d ∧
    dict_map d' = <[kid key := (e_key en', e_val en')]> (dict_map d).
Proof.
  destruct p as [[t idx] i]. intros Hok (c & en0 & Hg & Hi & Hk) He Hkid Hok' Hkind.
  cbn [get_entry] in He. rewrite Hg in He. cbn [mbind option_bind] in He.
  assert (en0 = en) as -> by congruence.
  destruct (ok_table d t idx c Hok Hg) as (tb & (Etb & Htb & Hu) & Hc & Hidx).
  pose proof (tbl_chain _ _ Htb _ _ Hc) as Hch. pose proof (take_drop_middle _ _ _ Hi) as Hsplit.
  set (l := take i c) in *. set (r := drop (S i) c) in *.
  assert (Hins : <[i := en']> c = l ++ en' :: r) by (apply insert_take_drop; by eapply lookup_lt_Some).
  destruct (put_chain d t idx c (<[i := en']> c)) as (tb' & L & R & Etb' & _ & Hent & Hent' & Hput); [done|done|..].
  - rewrite Hins. rewrite <- Hsplit in Hch. clear -Hch Hok' Hkind. induction l as [|x l IH]; simpl in *.
    + destruct Hch as (_ & Hk & Hr). split_and!; [done| |done]. by rewrite Hkind.
    + destruct Hch as (Hx & Hk & Hr). split_and!; [done| |by apply IH].
      intros Hxk. specialize (Hk Hxk). by destruct l.
  - rewrite Hins. intros x Hx. assert (Hpl : ∀ y, y ∈ c → idx = hashFunction type (e_key y) mod 2 ^ ht_size_exp (dht d t)).
    { intros y Hy. pose proof (tbl_place _ _ Htb _ _ _ Hc Hy). lia. }
    apply elem_of_app in Hx as [Hx|[->|Hx]%elem_of_cons].
    + apply Hpl. rewrite <- Hsplit. set_solver.
    + rewrite (hash_kid _ _ Hkid). apply Hpl. by eapply list_elem_of_lookup_2.
    + apply Hpl. rewrite <- Hsplit. set_solver.
  - intros _ -> _. by rewrite lookup_nil in Hi.
  - assert (tb' = tb) as -> by congruence.
    exists (set_dht d t (HT (Some (<[Z.to_nat idx := <[i := en']> c]> tb))
      (ht_used (dht d t) + zlen (<[i := en']> c) - zlen c) (ht_size_exp (dht d t)))).
    rewrite length_insert, Z.add_simpl_r in Hput, Hent' |- *.
    split.
    { cbn [set_entry]. rewrite Hg. cbn [mbind option_bind]. by rewrite (set_bucket_ok _ tb). }
    cbv zeta in Hput, Hent'. rewrite Hins in *.
    assert (Hkvs : dict_kvs d = (kv <$> L ++ l) ++ kv en :: (kv <$> r ++ R)).
    { unfold dict_kvs. rewrite Hent, <- Hsplit. by rewrite !fmap_app, !fmap_cons, <- !app_assoc. }
    assert (Hkvs' : kv <$> L ++ (l ++ en' :: r) ++ R = (kv <$> L ++ l) ++ kv en' :: (kv <$> r ++ R)).
    { by rewrite !fmap_app, !fmap_cons, <- !app_assoc. }
    pose proof (ok_nodup _ Hok) as Hnd. pose proof (ok_small _ Hok) as Hsm.
    assert (Hk1 : (kv en').1 = (kv en).1) by (cbn; congruence).
    split_and!.
    + apply Hput.
      * rewrite Hkvs'. rewrite Hkvs in Hnd. rewrite fmap_app, fmap_cons in *. by rewrite Hk1.
      * rewrite Hent in Hsm. rewrite <- Hsplit in Hsm. llia.
    + by destruct t.
    + unfold dict_map, dict_kvs. rewrite Hent', Hkvs'. fold (dict_kvs d). rewrite Hkvs.
      rewrite Hkvs in Hnd. destruct (map_mid _ _ (kv en).1 (kv en).2 Hnd) as [Hm _].
      rewrite <- surjective_pairing in Hm. rewrite Hm.
      assert (Hnd' : NoDup ((kv <$> L ++ l) ++ kv en' :: (kv <$> r ++ R)).*1)
        by (rewrite fmap_app, fmap_cons in *; by rewrite Hk1).
      destruct (map_mid _ _ (kv en').1 (kv en').2 Hnd') as [Hm' _].
      rewrite <- surjective_pairing in Hm'. rewrite Hm', Hk1. cbn [kv fst snd].
      by rewrite Hk, insert_insert_eq.
Qed.


Lemma unlink_spec d key p :
  dict_ok d → place_holds d key p →
  ∃ d', unlink_place d p = Some d' ∧ dict_ok d' ∧ pauserehash d' = pauserehash d ∧
    dict_map d' = delete (kid key) (dict_map d).
Proof.
  destruct p as [[t idx] i]. intros Hok (c & en & Hg & Hi & Hk).
  destruct (ok_table d t idx c Hok Hg) as (tb & (Etb & Htb & Hu) & Hc & Hidx).
  pose proof (tbl_chain _ _ Htb _ _ Hc) as Hch. pose proof (take_drop_middle _ _ _ Hi) as Hsplit.
  pose proof (delete_take_drop c i) as Hdel.
  set (l := take i c) in *. set (r := drop (S i) c) in *.
  destruct (put_chain d t idx c (delete i c)) as (tb' & L & R & Etb' & _ & Hent & Hent' & Hput); [done|done|..].
  - by apply chain_delete.
  - rewrite Hdel. intros x Hx. pose proof (tbl_place _ _ Htb _ _ x Hc) as Hpl.
    rewrite <- Hsplit in Hpl. specialize (Hpl ltac:(set_solver)). lia.
  - intros _ -> _. by rewrite lookup_nil in Hi.
  - assert (tb' = tb) as -> by congruence. cbv zeta in Hput, Hent'.
    assert (Hlen : zlen c = zlen (delete i c) + 1) by (rewrite Hdel, <- Hsplit; llia).
    pose proof (ok_used d Hok) as (Hu0 & Hu1 & Hsum). pose proof (ok_small _ Hok) as Hsm.
    assert (Hrange : 1 ≤ ht_used (dht d t) < 2 ^ 60).
    { assert (zlen c ≤ ht_used (dht d t)).
      { destruct (concat_insert tb _ _ Hc) as (l' & r' & Econ & _). rewrite Hu, Econ. llia. }
      destruct t; cbn [dht] in *; lia. }
    exists (set_dht d t (HT (Some (<[Z.to_nat idx := delete i c]> tb))
      (ht_used (dht d t) + zlen (delete i c) - zlen c) (ht_size_exp (dht d t)))). split.
    { cbn [unlink_place]. rewrite Hg. cbn [mbind option_bind]. rewrite (set_bucket_ok _ tb) by done.
      cbn [mbind option_bind]. unfold add_used. cbn [ht_used ht_table ht_size_exp].
      rewrite wrapu_small by lia. do 3 f_equal. lia. }
    rewrite Hdel in *.
    assert (Hkvs : dict_kvs d = (kv <$> L ++ l) ++ kv en :: (kv <$> r ++ R)).
    { unfold dict_kvs. rewrite Hent, <- Hsplit. by rewrite !fmap_app, !fmap_cons, <- !app_assoc. }
    assert (Hkvs' : kv <$> L ++ (l ++ r) ++ R = (kv <$> L ++ l) ++ (kv <$> r ++ R)).
    { by rewrite !fmap_app, <- !app_assoc. }
    pose proof (ok_nodup _ Hok) as Hnd. rewrite Hkvs in Hnd. split_and!.
    + apply Hput.
      * rewrite Hkvs'. rewrite fmap_app, fmap_cons in Hnd. rewrite fmap_app.
        apply NoDup_app in Hnd as (? & Hd & Hr). inv Hr. apply NoDup_app. split_and!; [done| |done].
        intros x Hx Hx'. apply (Hd x Hx). by right.
      * rewrite Hent in Hsm. rewrite <- Hsplit in Hsm. llia.
    + by destruct t.
    + destruct (map_mid _ _ (kv en).1 (kv en).2 Hnd) as [Hm Hnone]. rewrite <- surjective_pairing in Hm.
      unfold dict_map. rewrite Hkvs, Hm. unfold dict_kvs. rewrite Hent', Hkvs'. cbn [kv fst] in *.
      rewrite Hk in *. by rewrite delete_insert_id.
Qed.

(** [dictInsertAtPosition] in the bucket of a key that is absent. *)
Lemma insertAt_spec d key tb :
  let t := dictIsRehashing d in
  dict_ok d → ht_ok (dht d t) tb → kid key ∉ (dict_kvs d).*1 → zlen (dict_entries d) + 1 < 2 ^ 60 →
  let idx := Z.land (hashFunction type key) (DICTHT_SIZE_MASK (ht_size_exp (dht d t))) in
  ∃ d', dictInsertAtPosition type d key (t, idx) = Some (d', (t, idx, O)) ∧ dict_ok d' ∧
    pauserehash d' = pauserehash d ∧ place_holds d' key (t, idx, O) ∧
    dict_map d' = <[kid key := (key, None)]> (dict_map d).
Proof.
  intros t Hok Htab Hnew Hsm idx. pose proof Htab as (Etb & Htb & Hu).
  pose proof (tbl_exp _ _ Htb) as He. pose proof (tbl_len _ _ Htb) as Hl.
  assert (Hidx : idx = hashFunction type key mod 2 ^ ht_size_exp (dht d t)) by (by apply land_mask; lia).
  pose proof (mod_bucket (hashFunction type key) (ht_size_exp (dht d t)) ltac:(lia)) as Hr. rewrite <- Hidx in Hr.
  unfold dictInsertAtPosition. fold t. rewrite Bool.eqb_reflx. cbn [andb].
  destruct (Z.leb_spec 0 idx) as [_|]; [|lia].
  assert (DICTHT_SIZE_MASK (ht_size_exp (dht d t)) = 2 ^ ht_size_exp (dht d t) - 1) as Hmask.
  { unfold DICTHT_SIZE_MASK. destruct (Z.eqb_spec (ht_size_exp (dht d t)) (-1)); [lia|]. by rewrite size_pow by lia. }
  rewrite Hmask. destruct (Z.leb_spec idx (2 ^ ht_size_exp (dht d t) - 1)) as [_|]; [|lia].
  cbn [assert mbind option_bind].
  destruct (get_bucket_ok (dht d t) tb idx Etb) as (c & Hg & Hc); [lia|]. rewrite Hg. cbn [mbind option_bind].
  assert (∃ kind, (if no_value type then
       if keys_are_odd type && (match c with [] => true | _ => false end) then
         _ ← assert (key_is_odd type key); Some (Entry EntryKey key None)
       else Some (Entry EntryNoValue key None)
     else Some (Entry EntryNormal key None)) = Some (Entry kind key (@None V)) ∧
     entry_ok (Entry kind key None) ∧ (kind = EntryKey → c = [])) as (kind & -> & Hek & Hlast).
  { unfold entry_ok. destruct (no_value type); [|by exists EntryNormal].
    destruct (keys_are_odd type) eqn:Eo; cbn [andb]; [destruct c|by exists EntryNoValue; split_and!].
    - rewrite (odd_keys _ Eo). by exists EntryKey.
    - by exists EntryNoValue. }
  cbn [mbind option_bind]. rewrite (set_bucket_ok _ tb) by (done || lia). cbn [mbind option_bind].
  set (en := Entry kind key None) in *.
  destruct (put_chain d t idx c (en :: c)) as (tb' & L & R & Etb' & _ & Hent & Hent' & Hput); [done|done|..].
  - split_and!; [done|done|]. exact (tbl_chain _ _ Htb _ _ Hc).
  - intros x [->|Hx]%elem_of_cons; [done|]. pose proof (tbl_place _ _ Htb _ _ _ Hc Hx). lia.
  - intros E. unfold t in E. congruence.
  - assert (tb' = tb) as -> by congruence. cbv zeta in Hput, Hent'.
    pose proof (ok_used d Hok) as (Hu0 & Hu1 & Hsum).
    assert (Hrange : 0 ≤ ht_used (dht d t) < 2 ^ 60) by (destruct t; cbn [dht]; lia).
    eexists. split; [done|]. unfold add_used. cbn [ht_used ht_table ht_size_exp].
    rewrite wrapu_small by lia.
    replace (ht_used (dht d t) + 1) with (ht_used (dht d t) + zlen (en :: c) - zlen c) by (cbn [length]; lia).
    assert (Hkvs : dict_kvs d ≡ₚ kv <$> L ++ c ++ R) by (unfold dict_kvs; by rewrite Hent).
    assert (Hkvs' : kv <$> L ++ (en :: c) ++ R ≡ₚ kv en :: dict_kvs d).
    { rewrite Hkvs. rewrite <- app_comm_cons, <- Permutation_middle. done. }
    assert (Hnd' : NoDup (kv en :: dict_kvs d).*1).
    { rewrite fmap_cons. apply NoDup_cons. split; [done|apply Hok]. }
    split_and!.
    + apply Hput; [by rewrite Hkvs'|]. rewrite Hent in Hsm. llia.
    + by destruct t.
    + exists (en :: c), en. split; [|done]. unfold get_bucket.
      assert (∀ h : ht K V, dht (set_dht d t h) t = h) as -> by (intros; by destruct t).
      cbn [ht_table mbind option_bind]. rewrite decide_True by lia. apply list_lookup_insert_eq. lia.
    + unfold dict_map. unfold dict_kvs at 1. rewrite Hent'.
      by rewrite (list_to_map_proper _ (kv en :: dict_kvs d)); [|by rewrite Hkvs'|done].
Qed.


Lemma expandIfNeeded_spec d :
  dict_ok d → zlen (dict_entries d) + 1 < 2 ^ 60 →
  ∃ d', _dictExpandIfNeeded type cr d = Some (d', true) ∧ same_content d d' ∧ ∃ tb0, ht_ok (ht_0 d') tb0.
Proof.
  intros Hok Hsm. unfold _dictExpandIfNeeded, dictExpand.
  destruct (ok_used d Hok) as (Hu0 & Hu1 & Hsum). pose proof (same_content_refl d Hok) as Hrefl.
  destruct (dictIsRehashing d) eqn:Er.
  { exists d. split_and!; [done|done|]. destruct (ok_rehashing d Hok Er) as (tb0 & tb1 & [? _ _ _ _]). eauto. }
  pose proof (ok_tables _ Hok) as Ht. unfold tables_ok in Ht. rewrite Er in Ht.
  assert (Hexp : ∀ size, 0 ≤ size ≤ 2 ^ 60 → ht_used (ht_0 d) ≤ size →
    DICTHT_SIZE (ht_size_exp (ht_0 d)) < size →
    ∃ d', ('(d, ok, _) ← _dictExpand d size true; Some (d, ok)) = Some (d', true) ∧ same_content d d' ∧
      ∃ tb0, ht_ok (ht_0 d') tb0).
  { intros size Hs Hus Hlt. destruct (expand_spec d size true Hok) as (d' & ok & mf & -> & Hs' & Htab & Hyes); [lia|].
    rewrite (Hyes eq_refl Er ltac:(lia) Hlt) in *. exists d'. split_and!; [done|done|by apply Htab]. }
  destruct (Z.eqb_spec (DICTHT_SIZE (ht_size_exp (ht_0 d))) 0) as [Hz|Hnz].
  { destruct Ht as [H1 H0]. apply Hexp; unfold DICT_HT_INITIAL_SIZE, DICT_HT_INITIAL_EXP; [done| |by rewrite Hz].
    destruct H0 as [->|(tb0 & (_ & Htb & _))]; [done|]. pose proof (tbl_exp _ _ Htb).
    rewrite size_pow in Hz by lia. pose proof (Z.pow_pos_nonneg 2 (ht_size_exp (ht_0 d))). lia. }
  destruct Ht as [H1 [H0|(tb0 & H0)]]; [by rewrite H0 in Hnz|].
  assert (Hsame : ∃ d', Some (d, true) = Some (d', true) ∧ same_content d d' ∧ ∃ tb0, ht_ok (ht_0 d') tb0)
    by (exists d; eauto).
  assert (Hal : ∃ b, dictTypeExpandAllowed type d = Some b).
  { unfold dictTypeExpandAllowed. destruct (expandAllowed type) as [f|]; [|by eexists].
    rewrite wrapu_small by lia. destruct (nextExp_spec (ht_used (ht_0 d) + 1)) as (e & -> & _); [lia|].
    by eexists. }
  destruct Hal as [b ->]. cbn [mbind option_bind]. destruct b; cbn [negb]; [|done].
  pose proof H0 as (_ & Htb & _). pose proof (tbl_exp _ _ Htb). rewrite size_pow by lia.
  pose proof (Z.pow_pos_nonneg 2 (ht_size_exp (ht_0 d)) ltac:(lia) ltac:(lia)) as Hpos.
  destruct (_ || _) eqn:Ec; [|done]. rewrite wrapu_small by lia. apply Hexp; [lia|lia|]. rewrite size_pow by lia.
  apply orb_true_iff in Ec as [Ec|Ec]; apply andb_true_iff in Ec as [_ Ec].
  - rewrite Z.geb_leb, Z.leb_le in Ec. lia.
  - unfold dict_force_resize_ratio in Ec. rewrite Z.gtb_ltb, Z.ltb_lt in Ec.
    pose proof (Z.mul_div_le (ht_used (ht_0 d)) _ Hpos). nia.
Qed.

Lemma position_spec d key :
  dict_ok d → zlen (dict_entries d) + 1 < 2 ^ 60 →
  ∃ d' r, dictFindPositionForInsert type cr d key = Some (d', r) ∧ same_content d d' ∧
    match r with
    | inr (Some p) => place_holds d' key p
    | inr None => False
    | inl (t, idx) => (kid key ∉ (dict_kvs d').*1) ∧ t = dictIsRehashing d' ∧
        idx = Z.land (hashFunction type key) (DICTHT_SIZE_MASK (ht_size_exp (dht d' t))) ∧
        ∃ tb, ht_ok (dht d' t) tb
    end.
Proof.
  intros Hok Hsm. unfold dictFindPositionForInsert.
  destruct (rehash_if_needed_spec d Hok) as (d1 & -> & Hs1). cbn [mbind option_bind].
  assert (Hlen : zlen (dict_entries d1) = zlen (dict_entries d)).
  { destruct Hs1 as [_ Hp _]. apply Permutation_length in Hp. unfold dict_kvs in Hp. rewrite !length_fmap in Hp. lia. }
  destruct (expandIfNeeded_spec d1) as (d2 & -> & Hs2 & tb0 & H0); [apply Hs1|lia|].
  cbn [mbind option_bind negb].
  destruct (find_place_spec d2 key tb0) as (p & -> & Hp); [apply Hs2|done|]. cbn [mbind option_bind].
  pose proof (same_content_trans _ _ _ Hs1 Hs2) as Hs. destruct p as [p|].
  - do 2 eexists. split; [done|]. by split.
  - do 2 eexists. split; [done|]. split; [done|]. split_and!; [done..|].
    destruct (dictIsRehashing d2) eqn:Er; [|by exists tb0].
    destruct (ok_rehashing d2 (sc_ok _ _ Hs2) Er) as (tb & tb1 & [_ ? _ _ _]). by exists tb1.
Qed.

Definition dup_key (key : K) : K := match keyDup type with Some f => f key | None => key end.
Definition dup_val (val : V) : V := match valDup type with Some f => f val | None => val end.

Lemma dup_key_kid key : kid (dup_key key) = kid key.
Proof. unfold dup_key. destruct (keyDup type) as [f|] eqn:E; [by eapply dup_kid|done]. Qed.

Lemma addRaw_spec d key :
  dict_ok d → zlen (dict_entries d) + 1 < 2 ^ 60 →
  ∃ d' r, dictAddRaw type cr d key = Some (d', r) ∧ dict_ok d' ∧ pauserehash d' = pauserehash d ∧
    match r with
    | inl p => dict_map d !! kid key = None ∧ place_holds d' key p ∧
        dict_map d' = <[kid key := (dup_key key, None)]> (dict_map d)
    | inr (Some p) => place_holds d' key p ∧ dict_map d' = dict_map d
    | inr None => False
    end.
Proof.
  intros Hok Hsm. unfold dictAddRaw.
  destruct (position_spec d key Hok Hsm) as (d1 & r & -> & Hs & Hr). cbn [mbind option_bind].
  pose proof (same_map d d1 Hok Hs) as Hm. pose proof (sc_ok _ _ Hs) as Hok1.
  destruct r as [[t idx]|[p|]]; [|..|done].
  - destruct Hr as (Hnew & -> & -> & tb & Htab). fold (dup_key key).
    assert (hashFunction type key = hashFunction type (dup_key key)) as -> by (by apply hash_kid; rewrite dup_key_kid).
    rewrite <- (dup_key_kid key) in *.
    assert (Hlen : zlen (dict_entries d1) = zlen (dict_entries d)).
    { destruct Hs as [_ Hp _]. apply Permutation_length in Hp. unfold dict_kvs in Hp. rewrite !length_fmap in Hp. lia. }
    destruct (insertAt_spec d1 (dup_key key) tb Hok1 Htab Hnew) as (d' & -> & Hok' & Hp & Hpl & Hm'); [lia|].
    cbn [mbind option_bind]. do 2 eexists. split; [done|]. split_and!; [done|by rewrite Hp; apply Hs|..].
    + rewrite <- Hm. by apply not_in_map.
    + destruct Hpl as (c & en & Hg & Hc & Hk). exists c, en. by rewrite dup_key_kid in Hk.
    + by rewrite Hm', Hm.
  - do 2 eexists. split; [done|]. split_and!; [done|apply Hs|done|done].
Qed.

(** ** The operations on keys *)

Lemma entries_map_size d : dict_ok d → zlen (dict_entries d) = Z.of_nat (size (dict_map d)).
Proof.
  intros Hok. unfold dict_map. rewrite map_size_list_to_map by apply Hok. unfold dict_kvs. by rewrite !length_fmap.
Qed.

Lemma setVal_spec d key p val :
  dict_ok d → no_value type = false → place_holds d key p →
  ∃ d' k0 old, dictSetVal type d p val = Some d' ∧ dict_ok d' ∧ pauserehash d' = pauserehash d ∧
    dictGetVal d p = Some old ∧ dict_map d !! kid key = Some (k0, old) ∧
    dict_map d' = <[kid key := (k0, Some (dup_val val))]> (dict_map d).
Proof.
  intros Hok Hv Hp. destruct (place_lookup d key p Hok Hp) as (en & He & Hk & Hen & Hm).
  unfold dictSetVal, dictGetVal. rewrite He. cbn [mbind option_bind].
  pose proof Hen as Hkind. unfold entry_ok in Hkind. rewrite Hv in Hkind. rewrite Hkind.
  cbn [mbind option_bind assert]. fold (dup_val val).
  destruct (set_entry_spec d key p en (Entry EntryNormal (e_key en) (Some (dup_val val))))
    as (d' & -> & Hok' & Hpa & Hm'); [done|done|done|done| |done|].
  { unfold entry_ok. by rewrite Hv. }
  do 3 eexists. by split_and!.
Qed.

(** What the operations mean on the finite map. *)
Definition stored (key : K) (val : V) : K * option V :=
  (dup_key key, if no_value type then None else Some (dup_val val)).
Definition map_add (m : gmap I (K * option V)) (key : K) (val : V) : gmap I (K * option V) * bool :=
  match m !! kid key with
  | Some _ => (m, false)
  | None => (<[kid key := stored key val]> m, true)
  end.
(** An existing key keeps its first pointer. *)
Definition map_replace (m : gmap I (K * option V)) (key : K) (val : V) : gmap I (K * option V) * bool :=
  match m !! kid key with
  | Some (k0, _) => (<[kid key := (k0, Some (dup_val val))]> m, false)
  | None => (<[kid key := stored key val]> m, true)
  end.

(** An operation that ends in a good dict holding [m], with result [r]. *)
Definition yields {A} (d : dict K V) (res : option (dict K V * A)) (mr : gmap I (K * option V) * A) : Prop :=
  ∃ d', res = Some (d', mr.2) ∧ dict_ok d' ∧ dict_map d' = mr.1 ∧ pauserehash d' = pauserehash d.

Lemma add_spec d key val :
  dict_ok d → Z.of_nat (size (dict_map d)) + 1 < 2 ^ 60 →
  yields d (dictAdd type cr d key val) (map_add (dict_map d) key val).
Proof.
  intros Hok Hsm. rewrite <- entries_map_size in Hsm by done. unfold yields, dictAdd, map_add.
  destruct (addRaw_spec d key Hok Hsm) as (d1 & r & -> & Hok1 & Hpa & Hr). cbn [mbind option_bind].
  destruct r as [p|[p|]]; [|..|done].
  - destruct Hr as (-> & Hp & Hm). destruct (no_value type) eqn:Hv; cbn [negb mbind option_bind].
    + exists d1. unfold stored. by rewrite Hv.
    + destruct (setVal_spec d1 key p val Hok1 Hv Hp) as (d2 & k0 & old & -> & Hok2 & Hp2 & _ & Hk0 & Hm2).
      exists d2. cbn [mbind option_bind]. split_and!; [done|done| |by rewrite Hp2].
      rewrite Hm, lookup_insert_eq in Hk0. injection Hk0 as <- <-.
      unfold stored. rewrite Hv. by rewrite Hm2, Hm, insert_insert_eq.
  - destruct Hr as [Hp Hm]. destruct (place_lookup d1 key p Hok1 Hp) as (en & _ & _ & _ & He).
    rewrite Hm in He. rewrite He. by exists d1.
Qed.

Lemma replace_spec d key val :
  dict_ok d → no_value type = false → Z.of_nat (size (dict_map d)) + 1 < 2 ^ 60 →
  yields d (dictReplace type cr d key val) (map_replace (dict_map d) key val).
Proof.
  intros Hok Hv Hsm. rewrite <- entries_map_size in Hsm by done. unfold yields, dictReplace, map_replace.
  destruct (addRaw_spec d key Hok Hsm) as (d1 & r & -> & Hok1 & Hpa & Hr). cbn [mbind option_bind].
  destruct r as [p|[p|]]; [|..|done].
  - destruct Hr as (-> & Hp & Hm).
    destruct (setVal_spec d1 key p val Hok1 Hv Hp) as (d2 & k0 & old & -> & Hok2 & Hp2 & _ & Hk0 & Hm2).
    exists d2. cbn [mbind option_bind]. split_and!; [done|done| |by rewrite Hp2].
    rewrite Hm, lookup_insert_eq in Hk0. injection Hk0 as <- <-.
    unfold stored. rewrite Hv. by rewrite Hm2, Hm, insert_insert_eq.
  - destruct Hr as [Hp Hm].
    destruct (setVal_spec d1 key p val Hok1 Hv Hp) as (d2 & k0 & old & -> & Hok2 & Hp2 & -> & Hk0 & Hm2).
    rewrite Hm in Hk0, Hm2. rewrite Hk0. exists d2. cbn [mbind option_bind].
    split_and!; [done|done|done|by rewrite Hp2].
Qed.

Lemma fetch_spec d key :
  dict_ok d → no_value type = false →
  yields d (dictFetchValue type cr d key) (dict_map d, dict_map d !! kid key ≫= snd).
Proof.
  intros Hok Hv. unfold yields, dictFetchValue.
  destruct (find_spec d key Hok) as (d1 & p & -> & Hs & Hp). cbn [mbind option_bind].
  pose proof (same_map d d1 Hok Hs) as Hm. destruct p as [p|]; cbn [found] in Hp.
  - destruct (place_lookup d1 key p (sc_ok _ _ Hs) Hp) as (en & He & _ & Hen & Hl).
    unfold dictGetVal. rewrite He. cbn [mbind option_bind].
    unfold entry_ok in Hen. rewrite Hv in Hen. rewrite Hen. cbn [mbind option_bind assert].
    rewrite <- Hm, Hl. exists d1. split_and!; [done|apply Hs|done|apply Hs].
  - rewrite <- Hm, Hp. exists d1. split_and!; [done|apply Hs|done|apply Hs].
Qed.

(** The entry removed is the one the map held. *)
Lemma genericDelete_spec d key :
  dict_ok d →
  ∃ d' he, dictGenericDelete type cr d key = Some (d', he) ∧ dict_ok d' ∧ pauserehash d' = pauserehash d ∧
    dict_map d' = delete (kid key) (dict_map d) ∧
    (λ en, (e_key en, e_val en)) <$> he = dict_map d !! kid key.
Proof.
  intros Hok. unfold dictGenericDelete. destruct (Z.eqb_spec (dictSize d) 0) as [Hz|Hnz].
  - exists d, None. split_and!; [done..| |]; rewrite (proj1 (empty_map d Hok Hz)); [by rewrite delete_empty|done].
  - destruct (lookup_spec d key Hok Hnz) as (d1 & p & -> & Hs & Hf & Hp). cbn [mbind option_bind].
    rewrite Hf. cbn [mbind option_bind]. rewrite <- (same_map d d1 Hok Hs). destruct p as [p|].
    + destruct (place_lookup d1 key p (sc_ok _ _ Hs) Hp) as (en & He & _ & _ & Hl). rewrite He. cbn [mbind option_bind].
      destruct (unlink_spec d1 key p (sc_ok _ _ Hs) Hp) as (d2 & -> & Hok2 & Hpa & Hm). cbn [mbind option_bind].
      do 2 eexists. split_and!; [done|done|by rewrite Hpa; apply Hs|done|]. by rewrite Hl.
    + apply not_in_map in Hp. exists d1, None. split_and!; [done|apply Hs|apply Hs| |done].
      by rewrite delete_id.
Qed.

(** ** Resizing, emptying and pausing *)

Lemma dictExpand_spec d size :
  dict_ok d → 0 ≤ size → ∃ d' ok, dictExpand d size = Some (d', ok) ∧ same_content d d'.
Proof.
  intros Hok Hs. unfold dictExpand.
  destruct (expand_spec d size true Hok Hs) as (d' & ok & mf & -> & Hsc & _). by exists d', ok.
Qed.

Lemma dictResize_spec d :
  dict_ok d → ∃ d' ok, dictResize cr d = Some (d', ok) ∧ same_content d d'.
Proof.
  intros Hok. unfold dictResize. destruct (_ || _); [by do 2 eexists; split; [|apply same_content_refl]|].
  pose proof (ok_used d Hok). pose proof (ok_small d Hok). apply dictExpand_spec; [done|].
  destruct (_ <? _); [done|lia].
Qed.

Lemma empty_ok d : dict_ok (dictEmpty d) ∧ dict_map (dictEmpty d) = ∅.
Proof.
  split; [|done]. split; [|by apply NoDup_nil|done]. unfold tables_ok. cbn. split; [done|by left].
Qed.

Lemma create_ok : dict_ok dictCreate ∧ dict_map dictCreate = ∅.
Proof. apply (empty_ok dictCreate). Qed.

Lemma pause_ok d p : dict_ok (set_pauserehash d p) ↔ dict_ok d.
Proof. split; intros [H1 H2 H3]; by split. Qed.

(** A paused dict is not changed by a lookup. *)
Lemma find_paused d key :
  dict_ok d → pauserehash d ≠ 0 → ∃ p, dictFind type cr d key = Some (d, p) ∧ found d key p.
Proof.
  intros Hok Hp. destruct (find_spec d key Hok) as (d' & p & Hf & _ & Hfound).
  assert (d' = d) as ->; [|by exists p]. revert Hf. unfold dictFind.
  destruct (_ =? _); [by intros [= ->]|].
  assert (rehash_if_needed type cr d = Some d) as ->.
  { unfold rehash_if_needed, _dictRehashStep. destruct (dictIsRehashing d); [|done].
    by rewrite (proj2 (Z.eqb_neq _ _) Hp). }
  cbn [mbind option_bind]. destruct (find_place _ _ _ _); [|done]. by intros [= ->].
Qed.

(** ** Rehashing to the end *)

Lemma rehash_while_spec fuel : ∀ d n ms clock rehashes,
  dict_ok d → held cr d = false → n ≠ O → dictIsRehashing d = true →
  2 ^ ht_size_exp (ht_0 d) - rehashidx d < Z.of_nat fuel →
  ∃ d' r, rehash_while type cr fuel clock ms n d rehashes = Some (d', r) ∧ same_content d d' ∧
    ((∀ i, clock i ≤ ms) → dictIsRehashing d' = false).
Proof.
  induction fuel as [|fuel IH]; intros d n ms clock rh Hok Hcr Hn Hr Hf.
  { destruct (ok_rehashing d Hok Hr) as (tb0 & tb1 & [(_ & Htb & _) _ Hi _ _]). pose proof (tbl_len _ _ Htb). lia. }
  cbn [rehash_while]. destruct (rehash_spec cr d n Hok) as (d1 & more & -> & Hs & _ & Hprog).
  specialize (Hprog Hcr Hn Hr). cbn [mbind option_bind]. destruct (dictIsRehashing d1) eqn:Er.
  - destruct Hprog as (-> & Hlt & Hexp). destruct (Z.gtb_spec (clock fuel) ms) as [Hgt|Hle].
    + do 2 eexists. split; [done|]. split; [done|]. intros Hclock. specialize (Hclock fuel). lia.
    + rewrite <- (held_exps cr d d1 Hexp) in Hcr. injection Hexp as He _.
      destruct (IH d1 n ms clock (s32 (rh + 100)) (sc_ok _ _ Hs) Hcr Hn Er) as (d2 & r & -> & Hs2 & Hdone); [rewrite He; lia|].
      do 2 eexists. split; [done|]. split; [by eapply same_content_trans|done].
  - subst more. do 2 eexists. split; [done|]. by split.
Qed.

End inv.

End DictInv.
