(* ===== verification/DictExt.v ===== *)
(** * dict.c: types whose comparison is right on some keys only

    The comparison of a dict type may convert lengths to narrower integers, so
    that it decides equality for keys of moderate size only.  A dict whose keys
    are all of this kind behaves as one with an exact comparison, for which DictInv
    gives the specifications. *)

From S2P Require Import Prelude Dict DictInv.
Import Dict DictInv.

Module DictExt.

Section on.
Context {K V I : Type} `{EqDecision K} `{Countable I} (type : dictType K V) (kid : K → I).

(** The type with an exact comparison. *)
Definition ideal : dictType K V :=
  DictType K V (hashFunction type) (keyDup type) (valDup type) (Some (λ k1 k2, bool_decide (kid k1 = kid k2)))
    (expandAllowed type) (no_value type) (keys_are_odd type) (key_is_odd type).

(** What a dict relies on from its type when all keys satisfy [P]. *)
Class TypeOn (P : K → Prop) : Prop := {
  on_ideal :: TypeOk ideal kid;
  on_same : ∀ k1 k2, P k1 → P k2 → same_key type k1 k2 = bool_decide (kid k1 = kid k2);
}.

(** A type that is right on all keys. *)
Lemma all_on {Hty : TypeOk type kid} : TypeOn (λ _, True).
Proof.
  destruct Hty as [Hsame Hh Hr Hd Ho]. split; [split; [|exact Hh|exact Hr|exact Hd|exact Ho]|intros k1 k2 _ _; apply Hsame]. intros k1 k2. unfold same_key. cbn [keyCompare ideal].
  destruct (bool_decide_reflect (k1 = k2)) as [->|]; [|done]. by rewrite bool_decide_eq_true_2.
Qed.

(** The invariants do not depend on the comparison. *)
Lemma tbl_ideal e (tb : list (chain K V)) : tbl_ok ideal e tb ↔ tbl_ok type e tb.
Proof using Type. split; intros []; by split. Qed.
Lemma ht_ideal (h : ht K V) tb : ht_ok ideal h tb ↔ ht_ok type h tb.
Proof using Type. unfold ht_ok. by rewrite tbl_ideal. Qed.
Lemma ok_ideal d : dict_ok ideal kid d ↔ dict_ok type kid d.
Proof using Type.
  assert (Ht : tables_ok ideal d ↔ tables_ok type d); [|split; intros []; (split; [by apply Ht|done|done])].
  unfold tables_ok. destruct (dictIsRehashing d); setoid_rewrite ht_ideal; done.
Qed.
Lemma same_ideal d d' : same_content ideal kid d d' ↔ same_content type kid d d'.
Proof using Type. split; intros []; (split; [by apply ok_ideal|done|done]). Qed.

Context {P : K → Prop} {Hon : TypeOn P} (cr : dictResizeEnable).
Implicit Type d : dict K V.

(** The keys of a dict. *)
Definition keys_on d : Prop := map_Forall (λ _ kv, P (fst kv)) (dict_map kid d).

Lemma entries_on d : dict_ok type kid d → keys_on d → Forall (λ en, P (e_key en)) (dict_entries d).
Proof using Type.
  intros Hok Hk. apply Forall_forall. intros en Hin. refine (Hk (kid (e_key en)) (e_key en, e_val en) _). unfold dict_map.
  apply elem_of_list_to_map_1; [apply Hok|]. unfold dict_kvs. change (kid (e_key en), (e_key en, e_val en)) with (kv kid en). by apply list_elem_of_fmap_2.
Qed.
Lemma same_on d d' : dict_ok type kid d → same_content type kid d d' → keys_on d → keys_on d'.
Proof using Type. intros Hok Hs. unfold keys_on. by rewrite (same_map type kid d d' Hok Hs). Qed.

Lemma chain_on key c : P key → Forall (λ en, P (e_key en)) c → chain_find type key c = chain_find ideal key c.
Proof using Hon.
  intros Hk Hc. induction Hc as [|en c Hen Hc IH]; [done|]. cbn [chain_find]. rewrite on_same by done. rewrite (same_key_kid ideal kid). by rewrite IH.
Qed.
Lemma bucket_on d t idx c : Forall (λ en, P (e_key en)) (dict_entries d) → get_bucket (dht d t) idx = Some c → Forall (λ en, P (e_key en)) c.
Proof using Type.
  intros Hd. unfold get_bucket. destruct (ht_table (dht d t)) as [tb|] eqn:E; [|done]. cbn [mbind option_bind]. case_decide; [|done]. intros Hc. apply list_elem_of_lookup_2 in Hc.
  apply Forall_forall. intros en Hin. refine (proj1 (Forall_forall _ _) Hd en _). unfold dict_entries, ht_entries. assert (en ∈ concat tb) by (apply elem_of_concat; eauto). apply elem_of_app. destruct t; cbn [dht] in E; rewrite E; auto.
Qed.
Lemma place_on d key h : P key → Forall (λ en, P (e_key en)) (dict_entries d) → find_place type d key h = find_place ideal d key h.
Proof using Hon.
  intros Hk Hd. unfold find_place. destruct (get_bucket (ht_0 d) _) as [c0|] eqn:E0; [|done]. cbn [mbind option_bind].
  rewrite (chain_on key c0 Hk) by (by apply (bucket_on d false _ _ Hd E0)). destruct (chain_find ideal key c0); [done|]. destruct (negb _); [done|].
  destruct (get_bucket (ht_1 d) _) as [c1|] eqn:E1; [|done]. cbn [mbind option_bind]. by rewrite (chain_on key c1 Hk) by (by apply (bucket_on d true _ _ Hd E1)).
Qed.
(** After a rehashing step. *)
Lemma step_on d key : dict_ok type kid d → keys_on d → P key →
  ∃ d', rehash_if_needed type cr d = Some d' ∧ rehash_if_needed ideal cr d = Some d' ∧ same_content type kid d d' ∧
    find_place type d' key (dictHashKey type key) = find_place ideal d' key (dictHashKey ideal key).
Proof using Hon.
  intros Hok Hd Hk. destruct (rehash_if_needed_spec ideal kid cr d (proj2 (ok_ideal d) Hok)) as (d' & Hr & Hs%same_ideal). exists d'. split_and!; [exact Hr|exact Hr|exact Hs|].
  change (dictHashKey ideal key) with (dictHashKey type key). apply place_on; [done|]. apply entries_on; [exact (sc_ok _ _ _ _ Hs)|]. by apply (same_on d d').
Qed.

Lemma find_on d key : dict_ok type kid d → keys_on d → P key → dictFind type cr d key = dictFind ideal cr d key.
Proof using Hon. intros Hok Hd Hk. unfold dictFind. destruct (_ =? 0); [done|]. destruct (step_on d key Hok Hd Hk) as (d' & -> & -> & _ & E). cbn [mbind option_bind]. by rewrite E. Qed.
Lemma delete_on d key : dict_ok type kid d → keys_on d → P key → dictGenericDelete type cr d key = dictGenericDelete ideal cr d key.
Proof using Hon. intros Hok Hd Hk. unfold dictGenericDelete. destruct (_ =? 0); [done|]. destruct (step_on d key Hok Hd Hk) as (d' & -> & -> & _ & E). cbn [mbind option_bind]. by rewrite E. Qed.
Lemma add_on d key val : dict_ok type kid d → keys_on d → P key → Z.of_nat (size (dict_map kid d)) + 1 < 2 ^ 60 → dictAdd type cr d key val = dictAdd ideal cr d key val.
Proof using Hon.
  intros Hok Hd Hk Hsm. assert (E : dictFindPositionForInsert type cr d key = dictFindPositionForInsert ideal cr d key); [|unfold dictAdd, dictAddRaw; by rewrite E].
  unfold dictFindPositionForInsert. destruct (step_on d key Hok Hd Hk) as (d1 & -> & -> & Hs & _). cbn [mbind option_bind].
  change (_dictExpandIfNeeded type cr d1) with (_dictExpandIfNeeded ideal cr d1). pose proof (sc_ok _ _ _ _ Hs) as Hok1. apply ok_ideal in Hok1. destruct (expandIfNeeded_spec ideal kid cr d1 Hok1) as (d2 & -> & Hs2%same_ideal & _); [rewrite (entries_map_size ideal kid d1 Hok1), (same_map type kid d d1 Hok Hs); lia|]. cbn [mbind option_bind negb]. change (dictHashKey ideal key) with (dictHashKey type key). rewrite (place_on d2); [done|done|]. apply entries_on; [exact (sc_ok _ _ _ _ Hs2)|]. apply (same_on d1 d2); [exact (sc_ok _ _ _ _ Hs)|exact Hs2|]. by apply (same_on d d1).
Qed.

(** *** The specifications of DictInv *)

Lemma on_find_spec d key : dict_ok type kid d → keys_on d → P key →
  ∃ d' p, dictFind type cr d key = Some (d', p) ∧ same_content type kid d d' ∧ found kid d' key p.
Proof using Hon. intros Hok Hd Hk. rewrite find_on by done. apply ok_ideal in Hok. destruct (find_spec ideal kid cr d key Hok) as (d' & p & E & Hs%same_ideal & Hf). by exists d', p. Qed.
Lemma on_add_spec d key val : dict_ok type kid d → keys_on d → P key → Z.of_nat (size (dict_map kid d)) + 1 < 2 ^ 60 →
  yields type kid d (dictAdd type cr d key val) (map_add type kid (dict_map kid d) key val).
Proof using Hon. intros Hok Hd Hk Hsm. rewrite add_on by done. apply ok_ideal in Hok. destruct (add_spec ideal kid cr d key val Hok Hsm) as (d' & E & Hd'%ok_ideal & Hr). by exists d'. Qed.
Lemma on_delete_spec d key : dict_ok type kid d → keys_on d → P key →
  ∃ d' he, dictGenericDelete type cr d key = Some (d', he) ∧ dict_ok type kid d' ∧ pauserehash d' = pauserehash d ∧
    dict_map kid d' = delete (kid key) (dict_map kid d) ∧ (λ en, (e_key en, e_val en)) <$> he = dict_map kid d !! kid key.
Proof using Hon. intros Hok Hd Hk. rewrite delete_on by done. apply ok_ideal in Hok. destruct (genericDelete_spec ideal kid cr d key Hok) as (d' & he & E & Hd'%ok_ideal & Hr). by exists d', he. Qed.
Lemma on_setVal_spec d key p val : dict_ok type kid d → no_value type = false → place_holds kid d key p →
  ∃ d' k0 old, dictSetVal type d p val = Some d' ∧ dict_ok type kid d' ∧ pauserehash d' = pauserehash d ∧
    dictGetVal d p = Some old ∧ dict_map kid d !! kid key = Some (k0, old) ∧ dict_map kid d' = <[kid key := (k0, Some (dup_val type val))]> (dict_map kid d).
Proof using Hon. intros Hok Hn Hp. apply ok_ideal in Hok. destruct (setVal_spec ideal kid d key p val Hok Hn Hp) as (d' & k0 & old & E & Hd'%ok_ideal & Hr). by exists d', k0, old. Qed.
Lemma on_place_lookup d key p : dict_ok type kid d → place_holds kid d key p →
  ∃ en, get_entry d p = Some en ∧ kid (e_key en) = kid key ∧ entry_ok type en ∧ dict_map kid d !! kid key = Some (e_key en, e_val en).
Proof using Hon. intros Hok. apply ok_ideal in Hok. exact (place_lookup ideal kid d key p Hok). Qed.
Lemma on_expand_spec d size : dict_ok type kid d → 0 ≤ size → ∃ d' ok, dictExpand d size = Some (d', ok) ∧ same_content type kid d d'.
Proof using Hon. intros Hok Hs. apply ok_ideal in Hok. destruct (dictExpand_spec ideal kid d size Hok Hs) as (d' & ok & E & Hc%same_ideal). by exists d', ok. Qed.
Lemma on_resize_spec d : dict_ok type kid d → ∃ d' ok, dictResize cr d = Some (d', ok) ∧ same_content type kid d d'.
Proof using Hon. intros Hok. apply ok_ideal in Hok. destruct (dictResize_spec ideal kid cr d Hok) as (d' & ok & E & Hc%same_ideal). by exists d', ok. Qed.
End on.
End DictExt.
