(* ===== verification/DictOps.v ===== *)
(** * dict.c: a dict implements a finite map

    Sequences of operations on a dict against the same operations on a finite
    map, rehashing to the end, and unlinking in two phases. *)

From S2P Require Import Prelude Dict DictInv.
Import Dict DictInv.

Module DictOps.

Section run.
Context {K V I : Type} `{EqDecision K} `{Countable I}.
Context (type : dictType K V) (kid : K → I) (cr : dictResizeEnable).
Implicit Type (d : dict K V) (m : gmap I (K * option V)).

(** The abstraction relation: a well-formed dict that holds [m]. *)
Definition represents d m : Prop := dict_ok type kid d ∧ dict_map kid d = m.

(** The interface of a dict; [dictExpand], [dictResize] and [dictRehash] can be
    called at any moment. *)
Inductive dict_op :=
  | OpAdd (key : K) (val : V)
  | OpReplace (key : K) (val : V)
  | OpDelete (key : K)
  | OpFetch (key : K)
  | OpExpand (size : Z)
  | OpResize
  | OpRehash (n : nat)
  | OpEmpty.
Inductive dict_res := ResCode (ok : bool) | ResVal (v : option V) | ResNone.

Definition dict_do (op : dict_op) d : option (dict K V * dict_res) :=
  match op with
  | OpAdd key val => prod_map id ResCode <$> dictAdd type cr d key val
  | OpReplace key val => prod_map id ResCode <$> dictReplace type cr d key val
  | OpDelete key => prod_map id ResCode <$> dictDelete type cr d key
  | OpFetch key => prod_map id ResVal <$> dictFetchValue type cr d key
  | OpExpand size => '(d, _) ← dictExpand d size; Some (d, ResNone)
  | OpResize => '(d, _) ← dictResize cr d; Some (d, ResNone)
  | OpRehash n => '(d, _) ← dictRehash type cr d n; Some (d, ResNone)
  | OpEmpty => Some (dictEmpty d, ResNone)
  end.
Fixpoint dict_run (ops : list dict_op) d : option (dict K V * list dict_res) :=
  match ops with
  | [] => Some (d, [])
  | op :: ops => '(d, r) ← dict_do op d; '(d, rs) ← dict_run ops d; Some (d, r :: rs)
  end.

(** The same on the finite map. *)
Definition map_do (op : dict_op) m : gmap I (K * option V) * dict_res :=
  match op with
  | OpAdd key val => prod_map id ResCode (map_add type kid m key val)
  | OpReplace key val => prod_map id ResCode (map_replace type kid m key val)
  | OpDelete key => (delete (kid key) m, ResCode (bool_decide (is_Some (m !! kid key))))
  | OpFetch key => (m, ResVal (m !! kid key ≫= snd))
  | OpExpand _ | OpResize | OpRehash _ => (m, ResNone)
  | OpEmpty => (∅, ResNone)
  end.
Fixpoint map_run (ops : list dict_op) m : gmap I (K * option V) * list dict_res :=
  match ops with
  | [] => (m, [])
  | op :: ops => let '(m, r) := map_do op m in let '(m, rs) := map_run ops m in (m, r :: rs)
  end.

(** Values are only read and replaced in dicts that have them. *)
Definition op_ok (op : dict_op) : bool :=
  match op with
  | OpReplace _ _ | OpFetch _ => negb (no_value type)
  | OpExpand size => 0 <=? size
  | _ => true
  end.

Context {Hty : TypeOk type kid}.

Lemma map_do_size op m : (size (map_do op m).1 ≤ S (size m))%nat.
Proof.
  assert (Hins : ∀ i x, (size (<[i := x]> m) ≤ S (size m))%nat)
    by (intros; rewrite map_size_insert; case_match; unfold id; lia).
  destruct op; cbn [map_do fst]; unfold map_add, map_replace; repeat case_match; subst; cbn [prod_map fst id];
    rewrite ?map_size_empty, ?map_size_delete; try case_match; unfold id; first [apply Hins | lia].
Qed.

Lemma dict_do_refines op d :
  dict_ok type kid d → op_ok op = true → Z.of_nat (size (dict_map kid d)) + 1 < 2 ^ 60 →
  ∃ d', dict_do op d = Some (d', (map_do op (dict_map kid d)).2) ∧ dict_ok type kid d' ∧
    dict_map kid d' = (map_do op (dict_map kid d)).1.
Proof.
  intros Hok Hop Hsm.
  assert (Hy : ∀ {A} (f : A → dict_res) res mr, yields type kid d res mr →
    ∃ d', prod_map id f <$> res = Some (d', (prod_map id f mr).2) ∧ dict_ok type kid d' ∧
      dict_map kid d' = (prod_map id f mr).1).
  { intros A f res [m r] (d' & -> & Hok' & Hm & _). by exists d'. }
  assert (Hs : ∀ {A} (res : option (dict K V * A)), (∃ d' r, res = Some (d', r) ∧ same_content type kid d d') →
    ∃ d', ('(d, _) ← res; Some (d, ResNone)) = Some (d', ResNone) ∧ dict_ok type kid d' ∧
      dict_map kid d' = dict_map kid d).
  { intros A res (d' & r & -> & Hsc). exists d'. split_and!; [done|apply Hsc|by eapply same_map]. }
  destruct op as [key val|key val|key|key|sz| |n|]; cbn [dict_do map_do op_ok] in *.
  - by apply Hy, add_spec.
  - apply Hy, replace_spec; [done|done|by apply negb_true_iff|done].
  - destruct (genericDelete_spec type kid cr d key Hok) as (d' & he & Hdel & Hok' & _ & Hm & Hhe).
    unfold dictDelete. rewrite Hdel. exists d'. split_and!; [|done|done]. rewrite <- Hhe. by destruct he.
  - apply (Hy _ ResVal _ (_, _)), fetch_spec; [done|done|by apply negb_true_iff].
  - apply Hs. eapply dictExpand_spec; [done|]. by apply Z.leb_le.
  - by apply Hs, dictResize_spec.
  - apply Hs. destruct (rehash_spec type kid cr d n Hok) as (d' & more & ? & ? & _). eauto.
  - exists (dictEmpty d). split; [done|]. apply empty_ok.
Qed.

Lemma dict_runs ops : ∀ d,
  dict_ok type kid d → Forall (λ op, op_ok op = true) ops →
  Z.of_nat (size (dict_map kid d)) + zlen ops < 2 ^ 60 →
  ∃ d', dict_run ops d = Some (d', (map_run ops (dict_map kid d)).2) ∧ dict_ok type kid d' ∧
    dict_map kid d' = (map_run ops (dict_map kid d)).1.
Proof.
  induction ops as [|op ops IH]; intros d Hok Hops Hsm; [by exists d|].
  apply Forall_cons in Hops as [Hop Hops].
  cbn [length] in Hsm. destruct (dict_do_refines op d Hok Hop) as (d1 & Hdo & Hok1 & Hm1); [lia|].
  pose proof (map_do_size op (dict_map kid d)) as Hsz. cbn [dict_run map_run]. rewrite Hdo.
  cbn [mbind option_bind]. rewrite <- Hm1 in Hsz. destruct (IH d1 Hok1) as (d2 & -> & Hok2 & Hm2); [done|lia|].
  cbn [mbind option_bind]. rewrite Hm1 in Hm2 |- *. exists d2.
  destruct (map_do op (dict_map kid d)) as [m1 r1]. cbn [fst snd] in *.
  by destruct (map_run ops m1) as [m2 rs].
Qed.

(** C25: a dict implements a finite map.  Any sequence of additions,
    replacements, deletions, lookups, expansions, shrinkings, rehashing steps
    and clearings, whatever the resize policy and whichever the moment at which
    rehashing happens, never gets stuck, keeps the invariant, and returns the
    results of the same operations on the finite map from key identities to
    keys and values. *)
Theorem dict_run_refines ops d m :
  represents d m → Forall (λ op, op_ok op = true) ops → Z.of_nat (size m) + zlen ops < 2 ^ 60 →
  ∃ d', dict_run ops d = Some (d', (map_run ops m).2) ∧ represents d' (map_run ops m).1.
Proof. intros [Hok <-]. by apply dict_runs. Qed.

(** C26: [dictRehashMilliseconds] ends, whatever the clock and the resize
    policy say: the size of table 0 bounds its turns.  It never changes the
    content.  A dict whose rehashing is paused, or held by the resize policy
    ([held]: forbidden, or to be avoided while the sizes of the tables differ by
    less than the factor that forces it), is left as it is; any other dict is
    completely rehashed when the time does not run out. *)
Theorem dictRehashMilliseconds_correct clock ms d m :
  represents d m →
  ∃ d' r, dictRehashMilliseconds type cr clock ms d = Some (d', r) ∧ represents d' m ∧
    if (pauserehash d >? 0) || held cr d || negb (dictIsRehashing d) then d' = d ∧ r = 0
    else (∀ i, clock i ≤ ms) → dictIsRehashing d' = false.
Proof.
  intros [Hok <-]. unfold dictRehashMilliseconds. destruct (pauserehash d >? 0); cbn [orb]; [by exists d, 0|].
  destruct (held cr d || negb (dictIsRehashing d)) eqn:E.
  - cbn [rehash_while]. assert (dictRehash type cr d 100 = Some (d, false)) as ->; [|by exists d, 0].
    destruct (held cr d) eqn:Eh; [|unfold dictRehash; cbn [orb] in E; by rewrite E, orb_true_r].
    destruct (rehash_spec type kid cr d 100 Hok) as (d' & more & -> & _ & Hh & _). by destruct (Hh Eh) as [-> ->].
  - apply orb_false_elim in E as [Eh Hr%negb_false_iff].
    destruct (ok_rehashing type kid d Hok Hr) as (tb0 & tb1 & [(_ & Htb & _) _ Hi _ _]).
    pose proof (tbl_exp _ _ _ Htb). rewrite size_pow by lia.
    destruct (rehash_while_spec type kid cr (S (Z.to_nat (2 ^ ht_size_exp (ht_0 d)))) d 100 ms clock 0)
      as (d' & r & -> & Hs & Hdone); [done..|lia|].
    exists d', r. split_and!; [done| |done]. split; [apply Hs|by eapply same_map].
Qed.

(** Unlinking in two phases.  [dictTwoPhaseUnlinkFind] keeps the content
    and pauses rehashing when it finds the key: until the second phase lookups
    leave the dict as it is, so the entry stays where it was found.
    [dictTwoPhaseUnlinkFree] then removes this key only and resumes
    rehashing. *)
Lemma dictTwoPhaseUnlink_correct d m key :
  represents d m → 0 ≤ pauserehash d < INT16_MAX →
  ∃ d1 he, dictTwoPhaseUnlinkFind type cr d key = Some (d1, he) ∧ represents d1 m ∧
    match he with
    | None => m !! kid key = None
    | Some p =>
        (∃ en, get_entry d1 p = Some en ∧ m !! kid key = Some (e_key en, e_val en)) ∧
        (∀ key', ∃ p', dictFind type cr d1 key' = Some (d1, p') ∧ found kid d1 key' p') ∧
        ∃ d2, dictTwoPhaseUnlinkFree d1 he = Some d2 ∧ represents d2 (delete (kid key) m) ∧
          pauserehash d2 = pauserehash d
    end.
Proof.
  intros [Hok <-] Hpa. unfold dictTwoPhaseUnlinkFind. destruct (Z.eqb_spec (dictSize d) 0) as [Hz|Hnz].
  { exists d, None. split_and!; [done|done|]. by rewrite (proj1 (empty_map type kid d Hok Hz)). }
  destruct (lookup_spec type kid cr d key Hok Hnz) as (d1 & p & -> & Hs & Hf & Hp). cbn [mbind option_bind].
  rewrite Hf. cbn [mbind option_bind]. pose proof (same_map type kid d d1 Hok Hs) as Hm.
  pose proof (sc_ok _ _ _ _ Hs) as Hok1. destruct p as [p|].
  2:{ exists d1, None. split_and!; [done|done|]. rewrite <- Hm. by apply not_in_map. }
  assert (Hpa1 : pauserehash d1 = pauserehash d) by apply Hs.
  assert (Hpause : pauserehash (dictPauseRehashing d1) = pauserehash d + 1).
  { unfold dictPauseRehashing. cbn. rewrite Hpa1. apply wraps_small; [lia|]. ilia. }
  do 2 eexists. split; [done|]. split_and!; [by split; [apply pause_ok|]| |..].
  - destruct (place_lookup type kid d1 key p Hok1 Hp) as (en & He & _ & _ & Hl). exists en.
    split; [by destruct p as [[[] ?] ?]|]. by rewrite <- Hm.
  - intros key'. apply find_paused; [done|by apply pause_ok|lia].
  - unfold dictTwoPhaseUnlinkFree. set (d1' := dictPauseRehashing d1) in *.
    destruct (unlink_spec type kid d1' key p) as (d2 & -> & Hok2 & Hpa2 & Hm2);
      [by apply pause_ok|by destruct p as [[[] ?] ?]|].
    eexists. split; [done|]. split; [split; [by apply pause_ok|by rewrite <- Hm]|].
    unfold dictResumeRehashing. cbn. rewrite Hpa2, Hpause. rewrite wraps_small; [lia|lia|ilia].
Qed.
End run.

(** ** An example: integer keys that hash to themselves *)

Definition ex_type : dictType Z Z :=
  DictType Z Z (λ k, k mod 2 ^ 64) None None None None false false (λ _, false).
#[export] Instance ex_type_ok : TypeOk ex_type id.
Proof.
  split; try done; cbn.
  - intros k1 k2. unfold same_key. cbn. by destruct (bool_decide _).
  - by intros k1 k2 ->.
  - intros k. apply Z.mod_pos_bound. lia.
Qed.

(** Keys 3 and 7 share a bucket; adding the fifth key starts a rehashing. *)
Definition ex_ops : list dict_op :=
  [OpAdd 3 30; OpAdd 7 70; OpAdd 12 120; OpAdd 7 71; OpAdd 5 50; OpAdd 21 210;
   OpReplace 3 31; OpDelete 12; OpFetch 3; OpFetch 12].

(** The dict after the first [n] of them; rehashing has just started at 6. *)
Definition ex_state (n : nat) : dict Z Z :=
  match dict_run ex_type DICT_RESIZE_ENABLE (take n ex_ops) dictCreate with Some (d, _) => d | None => dictCreate end.
Definition ex_dict : dict Z Z := Eval vm_compute in ex_state 6.

Lemma ex_state_ok n : dict_ok ex_type id (ex_state n).
Proof.
  unfold ex_state. destruct (dict_runs ex_type id DICT_RESIZE_ENABLE (take n ex_ops) dictCreate) as (d & -> & Hok & _).
  - apply create_ok.
  - apply Forall_take. repeat constructor.
  - rewrite length_take. change (dict_map id dictCreate) with (∅ : gmap Z (Z * option Z)). rewrite map_size_empty.
    change (length ex_ops) with 10%nat. lia.
  - done.
Qed.

Lemma ex_dict_ok : dict_ok ex_type id ex_dict.
Proof. assert (ex_dict = ex_state 6) as -> by (vm_compute; reflexivity). apply ex_state_ok. Qed.

Lemma dict_run_refines_witness :
  ∃ d', dict_run ex_type DICT_RESIZE_ENABLE ex_ops dictCreate =
      Some (d', [ResCode true; ResCode true; ResCode true; ResCode false; ResCode true; ResCode true;
                 ResCode false; ResCode true; ResVal (Some 31); ResVal None]) ∧
    dict_map (V := Z) id d' = {[3 := (3, Some 31); 5 := (5, Some 50); 7 := (7, Some 70); 21 := (21, Some 210)]}.
Proof.
  destruct (dict_run_refines ex_type id DICT_RESIZE_ENABLE ex_ops dictCreate ∅) as (d & Hrun & _ & Hm);
    [apply create_ok|repeat constructor|vm_compute; done|].
  exists d. split; [rewrite Hrun; vm_compute; reflexivity|rewrite Hm; vm_compute; reflexivity].
Defined.

Lemma dictRehashMilliseconds_correct_witness :
  dictIsRehashing ex_dict = true ∧
  ∃ d' r, dictRehashMilliseconds ex_type DICT_RESIZE_ENABLE (λ _, 0) 1 ex_dict = Some (d', r) ∧
    dictIsRehashing d' = false.
Proof.
  split; [vm_compute; reflexivity|].
  destruct (dictRehashMilliseconds_correct ex_type id DICT_RESIZE_ENABLE (λ _, 0) 1 ex_dict (dict_map id ex_dict))
    as (d' & r & Hr & _ & Hdone); [split; [apply ex_dict_ok|reflexivity]|].
  exists d', r. split; [exact Hr|]. apply Hdone. intros _. lia.
Defined.

End DictOps.
