(* ===== verification/DictScan.v ===== *)
(** * dict.c: dictScan

    The stateless cursor of SCAN: its reversed-binary increment, what one call
    emits, and the guarantee over a whole iteration during which the dict is
    resized and rehashed between the calls. *)

From S2P Require Import Prelude Dict DictInv DictOps.
Import Dict DictInv DictOps.

Module DictScan.

(** The [while ((s >>= 1) > 0)] of [rev]. *)
Fixpoint rev_loop (fuel : nat) (s mask v : Z) : Z :=
  match fuel with
  | O => v
  | S fuel =>
      let s := Z.shiftr s 1 in
      if s >? 0 then
        let mask := Z.lxor mask (u64 (Z.shiftl mask s)) in
        let v := Z.lor (Z.land (Z.shiftr v s) mask) (Z.land (u64 (Z.shiftl v s)) (u64 (Z.lnot mask))) in
        rev_loop fuel s mask v
      else v
  end.
(** 64 bits: [s] is 32, 16, 8, 4, 2, 1 and then 0. *)
Definition rev (v : Z) : Z := rev_loop 7 64 (u64 (Z.lnot 0)) v.

(** [v |= ~m; v = rev(v); v++; v = rev(v)] *)
Definition next_cursor (v m : Z) : Z := rev (u64 (rev (Z.lor v (u64 (Z.lnot m))) + 1)).

Section scan.
Context {K V : Type}.
Implicit Type d : dict K V.

(** The [do ... while] over the expansions of the cursor in the larger table. *)
Fixpoint scan_expand (fuel : nat) (h1 : ht K V) (v m0 m1 : Z) : option (Z * chain K V) :=
  match fuel with
  | O => None
  | S fuel =>
      c ← get_bucket h1 (Z.land v m1);
      let v := next_cursor v m1 in
      if negb (Z.land v (Z.lxor m0 m1) =? 0)
      then '(v, em) ← scan_expand fuel h1 v m0 m1; Some (v, c ++ em)
      else Some (v, c)
  end.

(** The dict, the next cursor and the entries passed to [fn], in order.  The
    callback only reads the dict. *)
Definition dictScan d (v : Z) : option (dict K V * Z * chain K V) :=
  if dictSize d =? 0 then Some (d, 0, [])
  else
    let d := dictPauseRehashing d in
    '(v, em) ←
      (if negb (dictIsRehashing d) then
         let m0 := DICTHT_SIZE_MASK (ht_size_exp (ht_0 d)) in
         c ← get_bucket (ht_0 d) (Z.land v m0);
         Some (next_cursor v m0, c)
       else
         let swap := DICTHT_SIZE (ht_size_exp (ht_0 d)) >? DICTHT_SIZE (ht_size_exp (ht_1 d)) in
         let h0 := dht d swap in
         let h1 := dht d (negb swap) in
         let m0 := DICTHT_SIZE_MASK (ht_size_exp h0) in
         let m1 := DICTHT_SIZE_MASK (ht_size_exp h1) in
         c ← get_bucket h0 (Z.land v m0);
         '(v, em) ← scan_expand (Z.to_nat (DICTHT_SIZE (ht_size_exp h1))) h1 v m0 m1;
         Some (v, c ++ em));
    Some (dictResumeRehashing d, v, em).

(** A client iterating until the cursor is 0; the dict is [ds !! k] at the
    [k]-th call.  Returns the last cursor and everything emitted. *)
Fixpoint scan_until (ds : list (dict K V)) (v : Z) : option (Z * chain K V) :=
  match ds with
  | [] => Some (v, [])
  | d :: ds =>
      '(_, v, em) ← dictScan d v;
      if v =? 0 then Some (0, em)
      else '(v, em') ← scan_until ds v; Some (v, em ++ em')
  end.
End scan.

(** ** The bit reversal *)

(** Where bit [i] of the result of a loop comes from. *)
Fixpoint rev_source (fuel : nat) (s mask : Z) (i : Z) : Z :=
  match fuel with
  | O => i
  | S fuel =>
      let s := Z.shiftr s 1 in
      if s >? 0 then
        let mask := Z.lxor mask (u64 (Z.shiftl mask s)) in
        let j := rev_source fuel s mask i in
        if Z.testbit mask j then j + s else j - s
      else i
  end.
(** No source is outside the word. *)
Fixpoint rev_inside (fuel : nat) (s mask : Z) (i : Z) : bool :=
  match fuel with
  | O => true
  | S fuel =>
      let s := Z.shiftr s 1 in
      if s >? 0 then
        let mask := Z.lxor mask (u64 (Z.shiftl mask s)) in
        let j := rev_source fuel s mask i in
        let j' := if Z.testbit mask j then j + s else j - s in
        (0 <=? j) && (j <? 64) && (0 <=? j') && (j' <? 64) && rev_inside fuel s mask i
      else true
  end.

Lemma u64_bit v i : 0 ≤ i < 64 → Z.testbit (u64 v) i = Z.testbit v i.
Proof. intros Hi. unfold wrapu. by rewrite Z.mod_pow2_bits_low by lia. Qed.

Lemma u64_range v : 0 ≤ u64 v < 2 ^ 64.
Proof. apply Z.mod_pos_bound. lia. Qed.

Lemma rev_step_bit v s mask j :
  0 < s → 0 ≤ j < 64 → 0 ≤ (if Z.testbit mask j then j + s else j - s) < 64 →
  Z.testbit (Z.lor (Z.land (Z.shiftr v s) mask) (Z.land (u64 (Z.shiftl v s)) (u64 (Z.lnot mask)))) j =
  Z.testbit v (if Z.testbit mask j then j + s else j - s).
Proof.
  intros Hs Hj Hin. rewrite Z.lor_spec, !Z.land_spec, !u64_bit, Z.lnot_spec, Z.shiftr_spec, Z.shiftl_spec by lia.
  destruct (Z.testbit mask j); cbn [negb]; [by rewrite andb_true_r, andb_false_r, orb_false_r|].
  by rewrite andb_false_r, andb_true_r.
Qed.

Lemma rev_loop_bit fuel : ∀ s mask v i,
  rev_inside fuel s mask i = true →
  Z.testbit (rev_loop fuel s mask v) i = Z.testbit v (rev_source fuel s mask i).
Proof.
  induction fuel as [|fuel IH]; intros s mask v i Hin; [done|]. cbn [rev_loop rev_source rev_inside] in *.
  destruct (Z.gtb_spec (Z.shiftr s 1) 0) as [Hs|]; [|done].
  apply andb_true_iff in Hin as [Hin Hrest]. rewrite IH by done. apply rev_step_bit; [done|..]; lia.
Qed.

Lemma rev_bit v i : 0 ≤ i < 64 → Z.testbit (rev v) i = Z.testbit v (63 - i).
Proof.
  intros Hi. unfold rev. set (mask := u64 (Z.lnot 0)).
  assert (Hall : forallb (λ i, rev_inside 7 64 mask i && (rev_source 7 64 mask i =? 63 - i)) (seqZ 0 64) = true)
    by (vm_compute; done).
  rewrite forallb_forall in Hall. specialize (Hall i).
  assert (In i (seqZ 0 64)) as Hin by (apply list_elem_of_In, elem_of_seqZ; lia).
  apply Hall, andb_true_iff in Hin as [Hin Hsrc]. rewrite rev_loop_bit by done. f_equal. lia.
Qed.

Lemma land_mask_range a m : 0 ≤ m < 2 ^ 64 → 0 ≤ Z.land a m < 2 ^ 64.
Proof.
  intros Hm. assert (0 ≤ Z.land a m) by (apply Z.land_nonneg; lia). split; [done|].
  replace (Z.land a m) with (Z.land (Z.land a m) (2 ^ 64 - 1)).
  - rewrite land_low by lia. apply Z.mod_pos_bound. lia.
  - rewrite <- Z.land_assoc. f_equal. rewrite land_low by lia. by apply Z.mod_small.
Qed.

Lemma rev_loop_range fuel : ∀ s mask v,
  0 ≤ mask < 2 ^ 64 → 0 ≤ v < 2 ^ 64 → 0 ≤ rev_loop fuel s mask v < 2 ^ 64.
Proof.
  induction fuel as [|fuel IH]; intros s mask v Hm Hv; [done|]. cbn [rev_loop].
  destruct (_ >? 0); [|done]. apply IH.
  - apply lxor_range; [done|done|apply u64_range].
  - apply lor_range; [done| |apply land_mask_range, u64_range].
    apply land_mask_range. apply lxor_range; [done|done|apply u64_range].
Qed.

Lemma rev_range v : 0 ≤ v < 2 ^ 64 → 0 ≤ rev v < 2 ^ 64.
Proof. apply rev_loop_range, u64_range. Qed.

(** Two words are equal when their bits are. *)
Lemma bits_eq w a b :
  0 ≤ w → 0 ≤ a < 2 ^ w → 0 ≤ b < 2 ^ w → (∀ i, 0 ≤ i < w → Z.testbit a i = Z.testbit b i) → a = b.
Proof.
  intros Hw Ha Hb Heq. rewrite <- (Z.mod_small a (2 ^ w)), <- (Z.mod_small b (2 ^ w)) by done.
  apply Z.bits_inj'. intros i Hi. destruct (decide (i < w)).
  - rewrite !Z.mod_pow2_bits_low by lia. apply Heq. lia.
  - by rewrite !Z.mod_pow2_bits_high by lia.
Qed.

Lemma rev_involutive v : 0 ≤ v < 2 ^ 64 → rev (rev v) = v.
Proof.
  intros Hv. apply (bits_eq 64); [lia|by apply rev_range, rev_range|done|].
  intros i Hi. rewrite !rev_bit by lia. f_equal. lia.
Qed.

#[local] Opaque rev.

(** The low [e] bits of a word are the high [e] bits of its reverse. *)
Lemma rev_low v w e :
  0 ≤ e ≤ 64 → 0 ≤ v < 2 ^ 64 → 0 ≤ w < 2 ^ 64 →
  v mod 2 ^ e = w mod 2 ^ e ↔ rev v / 2 ^ (64 - e) = rev w / 2 ^ (64 - e).
Proof.
  intros He Hv Hw. pose proof (rev_range v Hv) as Hrv. pose proof (rev_range w Hw) as Hrw.
  rewrite <- !Z.shiftr_div_pow2 by lia. split; intros Heq.
  - apply Z.bits_inj'. intros i Hi. rewrite !Z.shiftr_spec by lia. destruct (decide (i < e)).
    + rewrite !rev_bit by lia. apply (f_equal (λ x, Z.testbit x (e - 1 - i))) in Heq.
      rewrite !Z.mod_pow2_bits_low in Heq by lia.
      by replace (63 - (i + (64 - e))) with (e - 1 - i) by lia.
    + rewrite <- (Z.mod_small (rev v) (2 ^ 64)), <- (Z.mod_small (rev w) (2 ^ 64)) by done.
      by rewrite !Z.mod_pow2_bits_high by lia.
  - apply Z.bits_inj'. intros i Hi. destruct (decide (i < e)); [|by rewrite !Z.mod_pow2_bits_high by lia].
    rewrite !Z.mod_pow2_bits_low by lia. apply (f_equal (λ x, Z.testbit x (e - 1 - i))) in Heq.
    rewrite !Z.shiftr_spec, !rev_bit in Heq by lia.
    by replace (63 - (e - 1 - i + (64 - e))) with i in Heq by lia.
Qed.

(** Setting the bits above the mask sets the low bits of the reverse. *)
Lemma rev_unmasked v e :
  0 ≤ e ≤ 64 → 0 ≤ v < 2 ^ 64 →
  rev (Z.lor v (u64 (Z.lnot (2 ^ e - 1)))) = rev v / 2 ^ (64 - e) * 2 ^ (64 - e) + (2 ^ (64 - e) - 1).
Proof.
  intros He Hv. pose proof (rev_range v Hv). pose proof (u64_range (Z.lnot (2 ^ e - 1))).
  replace (2 ^ (64 - e) - 1) with (Z.ones (64 - e)) by (rewrite Z.ones_equiv; lia).
  rewrite <- Z.shiftr_div_pow2, <- Z.shiftl_mul_pow2, <- Z.ldiff_ones_r by lia.
  rewrite Z.add_nocarry_lxor by (apply Z.bits_inj'; intros i Hi; rewrite Z.land_spec, Z.ldiff_spec, Z.bits_0; by
    destruct (Z.testbit (Z.ones _) i); rewrite ?andb_false_r).
  apply Z.bits_inj'. intros i Hi. rewrite Z.lxor_spec, Z.ldiff_spec. destruct (decide (i < 64)).
  - rewrite rev_bit, Z.lor_spec, u64_bit, Z.lnot_spec, rev_bit by lia.
    replace (2 ^ e - 1) with (Z.ones e) by (rewrite Z.ones_equiv; lia).
    rewrite !Z.testbit_ones_nonneg by lia. destruct (Z.testbit v (63 - i)), (Z.ltb_spec (63 - i) e), (Z.ltb_spec i (64 - e));
      try lia; done.
  - assert (0 ≤ Z.lor v (u64 (Z.lnot (2 ^ e - 1))) < 2 ^ 64) as Hr by (by apply lor_range).
    apply rev_range in Hr. rewrite <- (Z.mod_small _ _ Hr), <- (Z.mod_small (rev v) (2 ^ 64)) by done.
    rewrite !Z.mod_pow2_bits_high, Z.testbit_ones_nonneg by lia. destruct (Z.ltb_spec i (64 - e)); [lia|done].
Qed.

(** Start of the block of size [2 ^ (64 - e)] after the one of [p]. *)
Definition next_block (e p : Z) : Z := (p / 2 ^ (64 - e) + 1) * 2 ^ (64 - e).

(** The next cursor: the reverse goes to the next multiple of the block. *)
Lemma rev_next v e :
  0 ≤ e ≤ 64 → 0 ≤ v < 2 ^ 64 →
  rev (next_cursor v (2 ^ e - 1)) = next_block e (rev v) mod 2 ^ 64.
Proof.
  intros He Hv. unfold next_cursor. rewrite rev_unmasked by done. rewrite rev_involutive by apply u64_range.
  unfold wrapu, next_block. f_equal. lia.
Qed.

(** The entries whose reversed hash is in a block are those of one bucket. *)
Lemma rev_mod v e :
  0 ≤ e ≤ 64 → 0 ≤ v < 2 ^ 64 → rev (v mod 2 ^ e) = rev v / 2 ^ (64 - e) * 2 ^ (64 - e).
Proof.
  intros He Hv. pose proof (rev_range v Hv) as Hr. pose proof (Z.mod_pos_bound v (2 ^ e)) as Hm.
  assert (0 ≤ v mod 2 ^ e < 2 ^ 64) as Hm'.
  { pose proof (Z.pow_pos_nonneg 2 e). pose proof (Z.pow_le_mono_r 2 e 64). lia. }
  rewrite <- Z.shiftr_div_pow2, <- Z.shiftl_mul_pow2, <- Z.ldiff_ones_r by lia.
  apply Z.bits_inj'. intros i Hi. rewrite Z.ldiff_spec, Z.testbit_ones_nonneg by lia.
  destruct (decide (i < 64)).
  - rewrite !rev_bit by lia. destruct (Z.ltb_spec i (64 - e)); cbn [negb].
    + by rewrite Z.mod_pow2_bits_high, andb_false_r by lia.
    + by rewrite Z.mod_pow2_bits_low, andb_true_r by lia.
  - rewrite <- (Z.mod_small (rev v) (2 ^ 64)), <- (Z.mod_small (rev (v mod _)) (2 ^ 64)) by (try apply rev_range; done).
    by rewrite !Z.mod_pow2_bits_high by lia.
Qed.

Lemma mod_pow2_bit x e i : 0 ≤ e → 0 ≤ i → Z.testbit (x mod 2 ^ e) i = (i <? e) && Z.testbit x i.
Proof.
  intros. destruct (Z.ltb_spec i e); [by rewrite Z.mod_pow2_bits_low by lia|by rewrite Z.mod_pow2_bits_high by lia].
Qed.

(** The test of the inner loop. *)
Lemma land_masks v e0 e1 :
  0 ≤ e0 ≤ e1 → Z.land v (Z.lxor (2 ^ e0 - 1) (2 ^ e1 - 1)) = 0 ↔ v mod 2 ^ e1 = v mod 2 ^ e0.
Proof.
  intros He. assert (∀ e, 0 ≤ e → 2 ^ e - 1 = Z.ones e) as Hones by (intros; rewrite Z.ones_equiv; lia).
  rewrite !Hones by lia. split; intros Heq; apply Z.bits_inj'; intros i Hi.
  - apply (f_equal (λ x, Z.testbit x i)) in Heq.
    rewrite Z.land_spec, Z.lxor_spec, !Z.testbit_ones_nonneg, Z.bits_0 in Heq by lia.
    rewrite !mod_pow2_bit by lia.
    destruct (Z.ltb_spec i e0), (Z.ltb_spec i e1); try lia; cbn in *; try done. by rewrite andb_true_r in Heq.
  - apply (f_equal (λ x, Z.testbit x i)) in Heq. rewrite !mod_pow2_bit in Heq by lia.
    rewrite Z.land_spec, Z.lxor_spec, !Z.testbit_ones_nonneg, Z.bits_0 by lia.
    destruct (Z.ltb_spec i e0), (Z.ltb_spec i e1); try lia; cbn in *; rewrite ?andb_false_r, ?andb_true_r; done.
Qed.

(** ** Moving through the blocks *)

Lemma next_block_bounds e p :
  0 ≤ e ≤ 64 → 0 ≤ p < 2 ^ 64 → p < next_block e p ≤ 2 ^ 64 ∧ next_block e p ≤ p + 2 ^ (64 - e).
Proof.
  intros He Hp. unfold next_block. set (B := 2 ^ (64 - e)).
  assert (2 ^ 64 = 2 ^ e * B) as H64 by (unfold B; rewrite <- Z.pow_add_r by lia; f_equal; lia).
  assert (0 < B) by (apply Z.pow_pos_nonneg; lia).
  pose proof (Z.mul_div_le p B ltac:(lia)). pose proof (Z.mul_succ_div_gt p B ltac:(lia)).
  assert (p / B < 2 ^ e) by (apply Z.div_lt_upper_bound; lia). nia.
Qed.

(** Blocks of the larger table nest in those of the smaller one. *)
Lemma next_block_nested e0 e1 p :
  0 ≤ e0 ≤ e1 → e1 ≤ 64 → 0 ≤ p < 2 ^ 64 →
  let q := next_block e1 p in
  q = next_block e0 p ∨ (q < next_block e0 p ∧ next_block e0 q = next_block e0 p).
Proof.
  intros He He1 Hp q. unfold q, next_block in *. clear q.
  set (B := 2 ^ (64 - e1)). set (k := 2 ^ (e1 - e0)).
  assert (2 ^ (64 - e0) = k * B) as -> by (unfold B, k; rewrite <- Z.pow_add_r by lia; f_equal; lia).
  assert (0 < B) by (apply Z.pow_pos_nonneg; lia). assert (0 < k) by (apply Z.pow_pos_nonneg; lia).
  rewrite (Z.mul_comm k B), <- !Z.div_div by lia. set (a := p / B).
  rewrite Z.div_mul by lia. rewrite !(Z.mul_comm B k), !Z.mul_assoc.
  pose proof (Z.mul_div_le a k ltac:(lia)). pose proof (Z.mul_succ_div_gt a k ltac:(lia)).
  destruct (decide (a + 1 = (a / k + 1) * k)) as [Heq|Hne]; [left; by rewrite Heq|right].
  assert (a + 1 < (a / k + 1) * k) by lia. split; [nia|].
  replace ((a + 1) / k) with (a / k); [done|]. apply (Z.div_unique_pos _ _ _ (a + 1 - k * (a / k))); lia.
Qed.

Lemma next_block_first e p q :
  0 ≤ e ≤ 64 → 0 ≤ p < 2 ^ 64 → p < q → q < next_block e p → q mod 2 ^ (64 - e) = 0 → False.
Proof.
  intros He Hp Hlt Hq Hm. unfold next_block in Hq. set (B := 2 ^ (64 - e)) in *.
  assert (0 < B) by (apply Z.pow_pos_nonneg; lia). pose proof (Z.div_mod q B ltac:(lia)).
  pose proof (Z.mul_div_le p B ltac:(lia)).
  rewrite Hm in *. clearbody B. generalize dependent (q / B). generalize dependent (p / B). intros c ? ? j ?.
  assert (j < c + 1) by (apply (Z.mul_lt_mono_pos_l B); lia).
  assert (c < j) by (apply (Z.mul_lt_mono_pos_l B); lia). lia.
Qed.

(** The inner loop stops exactly at the end of the block of the smaller table. *)
Lemma stop_block e0 e1 v :
  0 ≤ e0 ≤ e1 → e1 ≤ 64 → 0 ≤ v < 2 ^ 64 →
  let v' := next_cursor v (2 ^ e1 - 1) in
  Z.land v' (Z.lxor (2 ^ e0 - 1) (2 ^ e1 - 1)) = 0 ↔ next_block e1 (rev v) = next_block e0 (rev v).
Proof.
  intros He He1 Hv v'. assert (Hv' : 0 ≤ v' < 2 ^ 64) by (apply rev_range, u64_range).
  pose proof (rev_range v Hv) as Hr. rewrite land_masks by done.
  assert (v' mod 2 ^ e0 = (v' mod 2 ^ e0) mod 2 ^ e1) as ->.
  { symmetry. apply Z.mod_small. pose proof (Z.mod_pos_bound v' (2 ^ e0)). pose proof (Z.pow_pos_nonneg 2 e0).
    pose proof (Z.pow_le_mono_r 2 e0 e1). lia. }
  assert (0 ≤ v' mod 2 ^ e0 < 2 ^ 64).
  { pose proof (Z.mod_pos_bound v' (2 ^ e0)). pose proof (Z.pow_pos_nonneg 2 e0).
    pose proof (Z.pow_le_mono_r 2 e0 64). lia. }
  rewrite rev_low by (try done; lia). rewrite rev_mod by (try done; lia). unfold v'. rewrite rev_next by (try done; lia).
  destruct (next_block_nested e0 e1 (rev v)) as [Heq|[Hlt Hsame]]; [done..| |].
  - split; [done|]. intros _. rewrite Heq. unfold next_block. set (B := 2 ^ (64 - e0)).
    assert (2 ^ 64 = 2 ^ e0 * B) as -> by (unfold B; rewrite <- Z.pow_add_r by lia; f_equal; lia).
    assert (0 < B) by (apply Z.pow_pos_nonneg; lia). pose proof (Z.pow_pos_nonneg 2 e0).
    rewrite Z.mul_mod_distr_r by lia. rewrite Z.div_mul by lia. done.
  - split; [|intros; lia]. intros Hq.
    destruct (next_block_bounds e0 (rev v)) as [[_ ?] _]; [lia|done|].
    destruct (next_block_bounds e1 (rev v)) as [[? _] _]; [lia|done|].
    rewrite Z.mod_small in Hq by lia. exfalso. eapply (next_block_first e0 (rev v)); [lia|done| |exact Hlt|].
    { lia. }
    set (B1 := 2 ^ (64 - e1)) in *. set (B0 := 2 ^ (64 - e0)) in *. set (q := next_block e1 (rev v)) in *.
    assert (0 < B1) by (apply Z.pow_pos_nonneg; lia).
    assert (B0 = 2 ^ (e1 - e0) * B1) as HB by (unfold B0, B1; rewrite <- Z.pow_add_r by lia; f_equal; lia).
    rewrite HB, Z.mul_assoc, Z.div_mul, <- HB in Hq by lia.
    assert (q = q / B1 * B1) as -> by (unfold q, next_block; fold B1; rewrite Z.div_mul by lia; done).
    rewrite Hq, <- Z.mul_assoc, <- HB. apply Z.mod_mul. lia.
Qed.

Lemma next_block_next e p : e ≤ 64 → next_block e (next_block e p) = next_block e p + 2 ^ (64 - e).
Proof.
  intros He. unfold next_block at 1. unfold next_block at 1. pose proof (Z.pow_pos_nonneg 2 (64 - e)).
  rewrite Z.div_mul by lia. unfold next_block. lia.
Qed.

(** ** One call *)

Section guarantee.
Context {K V I : Type} `{EqDecision K} `{Countable I}.
Context (type : dictType K V) (kid : K → I) {Hty : TypeOk type kid}.
Implicit Type d : dict K V.

(** The place of an entry in the order of the scan. *)
Definition scan_pos (en : dictEntry K V) : Z := rev (hashFunction type (e_key en)).

(** A bucket holds the entries of its table in one block. *)
Lemma scan_bucket h tb v :
  ht_ok type h tb → 0 ≤ v < 2 ^ 64 →
  ∃ c, get_bucket h (Z.land v (DICTHT_SIZE_MASK (ht_size_exp h))) = Some c ∧
    (∀ en, en ∈ c → en ∈ concat tb) ∧
    ∀ en, en ∈ concat tb → rev v ≤ scan_pos en < next_block (ht_size_exp h) (rev v) → en ∈ c.
Proof.
  intros Hh Hv. pose proof Hh as (Etb & Htb & _). pose proof (tbl_exp _ _ _ Htb) as He.
  pose proof (tbl_len _ _ _ Htb) as Hl. rewrite land_mask by lia.
  pose proof (mod_bucket v (ht_size_exp h) ltac:(lia)) as Hb.
  destruct (get_bucket_ok h tb (v mod 2 ^ ht_size_exp h)) as (c & Hg & Hc); [done|by rewrite Hl|].
  exists c. split; [done|]. split.
  - intros en Hen. apply elem_of_concat. exists c. split; [done|]. by eapply list_elem_of_lookup_2.
  - intros en Hin Hpos. destruct (entry_bucket type h tb en Hh Hin) as (c' & Hg' & Hen).
    rewrite land_mask in Hg' by lia. enough (hashFunction type (e_key en) mod 2 ^ ht_size_exp h = v mod 2 ^ ht_size_exp h)
      as Heq by (rewrite Heq, Hg in Hg'; by injection Hg' as ->).
    pose proof (hash_range type kid (e_key en)) as Hhash. apply rev_low; [lia|done|done|].
    unfold next_block, scan_pos in Hpos. set (B := 2 ^ (64 - ht_size_exp h)) in *.
    assert (0 < B) by (apply Z.pow_pos_nonneg; lia). symmetry.
    apply (Z.div_unique_pos _ _ _ (rev (hashFunction type (e_key en)) - B * (rev v / B)));
      pose proof (Z.mul_div_le (rev v) B ltac:(lia)); lia.
Qed.

(** The inner loop emits the rest of the block of the smaller table. *)
Lemma scan_expand_spec fuel : ∀ h1 tb1 v e0,
  ht_ok type h1 tb1 → 0 ≤ e0 ≤ ht_size_exp h1 → 0 ≤ v < 2 ^ 64 →
  next_block e0 (rev v) - next_block (ht_size_exp h1) (rev v) < Z.of_nat fuel * 2 ^ (64 - ht_size_exp h1) →
  ∃ v' em, scan_expand fuel h1 v (2 ^ e0 - 1) (2 ^ ht_size_exp h1 - 1) = Some (v', em) ∧ 0 ≤ v' < 2 ^ 64 ∧
    rev v' = next_block e0 (rev v) mod 2 ^ 64 ∧ (∀ en, en ∈ em → en ∈ concat tb1) ∧
    ∀ en, en ∈ concat tb1 → rev v ≤ scan_pos en < next_block e0 (rev v) → en ∈ em.
Proof.
  induction fuel as [|fuel IH]; intros h1 tb1 v e0 Hh He Hv Hf.
  { destruct Hh as (_ & Htb & _). pose proof (tbl_exp _ _ _ Htb).
    destruct (next_block_nested e0 (ht_size_exp h1) (rev v)) as [|[]]; [lia|lia|by apply rev_range|lia|lia]. }
  pose proof Hh as (_ & Htb & _). pose proof (tbl_exp _ _ _ Htb) as He1. cbn [scan_expand].
  destruct (scan_bucket h1 tb1 v Hh Hv) as (c & Hg & Hsub & Hcov).
  unfold DICTHT_SIZE_MASK in Hg. destruct (Z.eqb_spec (ht_size_exp h1) (-1)); [lia|]. rewrite size_pow in Hg by lia.
  rewrite Hg. cbn [mbind option_bind]. set (v1 := next_cursor v (2 ^ ht_size_exp h1 - 1)).
  assert (Hv1 : 0 ≤ v1 < 2 ^ 64) by (apply rev_range, u64_range).
  assert (Hr1 : rev v1 = next_block (ht_size_exp h1) (rev v) mod 2 ^ 64) by (apply rev_next; [lia|done]).
  pose proof (rev_range v Hv) as Hr. destruct (Z.eqb_spec (Z.land v1 (Z.lxor (2 ^ e0 - 1) (2 ^ ht_size_exp h1 - 1))) 0) as [Hz|Hnz]; cbn [negb].
  - apply stop_block in Hz; [|lia..]. do 2 eexists. split; [done|]. rewrite <- Hz. split_and!; [lia|lia|done..].
  - destruct (next_block_nested e0 (ht_size_exp h1) (rev v)) as [Heq|[Hlt Hsame]]; [lia..| |].
    { exfalso. apply Hnz, stop_block; [lia..|done]. }
    destruct (next_block_bounds e0 (rev v)) as [[_ ?] _]; [lia|done|].
    destruct (next_block_bounds (ht_size_exp h1) (rev v)) as [[? _] ?]; [lia|done|].
    rewrite Z.mod_small in Hr1 by lia.
    destruct (IH h1 tb1 v1 e0 Hh He Hv1) as (v' & em & -> & Hv' & Hr' & Hsub' & Hcov'); [rewrite Hr1, Hsame, next_block_next; lia|].
    rewrite Hr1, Hsame in Hr', Hcov'. cbn [mbind option_bind]. do 2 eexists. split; [done|].
    split_and!; [lia|lia|done| |].
    + intros en [?|?]%elem_of_app; auto.
    + intros en Hen Hpos. apply elem_of_app.
      destruct (decide (scan_pos en < next_block (ht_size_exp h1) (rev v))); [left|right]; [apply Hcov|apply Hcov']; auto; lia.
Qed.

(** The exponent of the table whose buckets a call goes through. *)
Definition scan_exp d : Z :=
  if dictIsRehashing d then Z.min (ht_size_exp (ht_0 d)) (ht_size_exp (ht_1 d)) else ht_size_exp (ht_0 d).

(** What a call promises: it emits entries of the dict only, all those from
    the cursor to the next one in the reversed order. *)
Record scan_covers d (v v' : Z) (em : chain K V) : Prop := {
  sv_range : 0 ≤ v' < 2 ^ 64;
  sv_only : ∀ en, en ∈ em → en ∈ dict_entries d;
  sv_exp : 0 ≤ scan_exp d ≤ 60;
  sv_next : rev v' = next_block (scan_exp d) (rev v) mod 2 ^ 64;
  sv_all : ∀ en, en ∈ dict_entries d → rev v ≤ scan_pos en < next_block (scan_exp d) (rev v) → en ∈ em;
}.

Lemma mask_pow e : 0 ≤ e → DICTHT_SIZE_MASK e = 2 ^ e - 1.
Proof. intros. unfold DICTHT_SIZE_MASK. destruct (Z.eqb_spec e (-1)); [lia|]. by rewrite size_pow. Qed.

(** The two tables while rehashing, the smaller first. *)
Lemma scan_two d s tb0 tb1 v :
  ht_ok type (dht d s) tb0 → ht_ok type (dht d (negb s)) tb1 → 0 ≤ v < 2 ^ 64 →
  ht_size_exp (dht d s) ≤ ht_size_exp (dht d (negb s)) →
  let e0 := ht_size_exp (dht d s) in let e1 := ht_size_exp (dht d (negb s)) in
  ∃ c v' em, get_bucket (dht d s) (Z.land v (DICTHT_SIZE_MASK e0)) = Some c ∧
    scan_expand (Z.to_nat (DICTHT_SIZE e1)) (dht d (negb s)) v (DICTHT_SIZE_MASK e0) (DICTHT_SIZE_MASK e1)
      = Some (v', em) ∧ 0 ≤ v' < 2 ^ 64 ∧ rev v' = next_block e0 (rev v) mod 2 ^ 64 ∧
    (∀ en, en ∈ c ++ em → en ∈ concat tb0 ++ concat tb1) ∧
    ∀ en, en ∈ concat tb0 ++ concat tb1 → rev v ≤ scan_pos en < next_block e0 (rev v) → en ∈ c ++ em.
Proof.
  intros H0 H1 Hv Hle e0 e1. destruct (scan_bucket _ tb0 v H0 Hv) as (c & Hg & Hsub & Hcov). exists c. fold e0 in Hg.
  pose proof H0 as (_ & Ht0 & _). pose proof H1 as (_ & Ht1 & _).
  pose proof (tbl_exp _ _ _ Ht0) as He0. pose proof (tbl_exp _ _ _ Ht1) as He1. fold e0 in He0, Hle.
  fold e1 in He1, Hle. rewrite mask_pow in Hg by lia. rewrite !mask_pow, size_pow by lia. pose proof (rev_range v Hv) as Hr.
  destruct (scan_expand_spec (Z.to_nat (2 ^ e1)) _ tb1 v e0 H1 ltac:(lia) Hv) as (v' & em & Hx & Hv' & Hr' & Hs' & Hc').
  { fold e1. pose proof (Z.pow_pos_nonneg 2 e1). rewrite Z2Nat.id by lia. rewrite <- Z.pow_add_r by lia.
    replace (e1 + (64 - e1)) with 64 by lia. destruct (next_block_bounds e0 (rev v)); [lia|done|].
    destruct (next_block_bounds e1 (rev v)); [lia|done|]. lia. }
  exists v', em. split_and!; [exact Hg|exact Hx|lia|lia|done|..].
  - intros en. rewrite !elem_of_app. intros [?|?]; auto.
  - intros en. rewrite !elem_of_app. intros [?|?] ?; auto.
Qed.

Lemma scan_call d v :
  dict_ok type kid d → 0 ≤ v < 2 ^ 64 →
  if decide (dict_entries d = []) then dictScan d v = Some (d, 0, [])
  else ∃ v' em, dictScan d v = Some (dictResumeRehashing (dictPauseRehashing d), v', em) ∧ scan_covers d v v' em.
Proof.
  intros Hok Hv. unfold dictScan. rewrite (dictSize_entries type kid) by done. case_decide as Hnil.
  { by rewrite Hnil. }
  destruct (Z.eqb_spec (zlen (dict_entries d)) 0) as [Hz|_]; [exfalso; apply Hnil, nil_length_inv; lia|].
  change (dictIsRehashing (dictPauseRehashing d)) with (dictIsRehashing d).
  change (ht_0 (dictPauseRehashing d)) with (ht_0 d). change (ht_1 (dictPauseRehashing d)) with (ht_1 d).
  destruct (dictIsRehashing d) eqn:Er; cbn [negb].
  - destruct (ok_rehashing type kid d Hok Er) as (tb0 & tb1 & [H0 H1 _ _ _]).
    pose proof H0 as (E0 & Ht0 & _). pose proof H1 as (E1 & Ht1 & _).
    pose proof (tbl_exp _ _ _ Ht0). pose proof (tbl_exp _ _ _ Ht1).
    rewrite (size_pow (ht_size_exp (ht_0 d))), (size_pow (ht_size_exp (ht_1 d))) by lia.
    set (s := 2 ^ ht_size_exp (ht_0 d) >? 2 ^ ht_size_exp (ht_1 d)).
    change (dht (dictPauseRehashing d)) with (dht d).
    assert (Hent : ∀ en, en ∈ dict_entries d ↔ en ∈ concat (if s then tb1 else tb0) ++ concat (if s then tb0 else tb1)).
    { intros en. unfold dict_entries, ht_entries. rewrite E0, E1. destruct s; [|done]. rewrite !elem_of_app. tauto. }
    destruct (scan_two d s (if s then tb1 else tb0) (if s then tb0 else tb1) v) as (c & v' & em & -> & Hx & Hv' & Hr & Hsub & Hcov);
      [by destruct s|by destruct s|done| |].
    { unfold s. destruct (Z.gtb_spec (2 ^ ht_size_exp (ht_0 d)) (2 ^ ht_size_exp (ht_1 d))) as [Hgt|Hle]; cbn.
      - apply Z.pow_lt_mono_r_iff in Hgt; lia.
      - apply Z.pow_le_mono_r_iff in Hle; lia. }
    assert (Hexp : scan_exp d = ht_size_exp (dht d s)).
    { unfold scan_exp, s. rewrite Er. destruct (Z.gtb_spec (2 ^ ht_size_exp (ht_0 d)) (2 ^ ht_size_exp (ht_1 d))) as [Hgt|Hle]; cbn.
      - apply Z.pow_lt_mono_r_iff in Hgt; lia.
      - apply Z.pow_le_mono_r_iff in Hle; lia. }
    cbn [mbind option_bind]. rewrite Hx. cbn [mbind option_bind]. do 2 eexists. split; [done|].
    split; [done|intros en Hen; by apply Hent, Hsub|unfold scan_exp; rewrite Er; lia|by rewrite Hexp|].
    intros en Hen. rewrite Hexp. by apply Hcov, Hent.
  - destruct (nonempty_table type kid d Hok Hnil) as (tb0 & H0). pose proof H0 as (E0 & Ht0 & _).
    pose proof (tbl_exp _ _ _ Ht0). pose proof (ok_tables _ _ _ Hok) as Ht. unfold tables_ok in Ht. rewrite Er in Ht.
    assert (Hent : dict_entries d = concat tb0).
    { unfold dict_entries, ht_entries. rewrite E0, (proj1 Ht). by rewrite app_nil_r. }
    destruct (scan_bucket _ tb0 v H0 Hv) as (c & -> & Hsub & Hcov). cbn [mbind option_bind].
    do 2 eexists. split; [done|]. assert (scan_exp d = ht_size_exp (ht_0 d)) as He by (unfold scan_exp; by rewrite Er).
    rewrite mask_pow by lia. split; rewrite ?He, ?Hent; [apply rev_range, u64_range|done|done|apply rev_next; lia|done].
Qed.

Lemma in_entries d key :
  is_Some (dict_map kid d !! kid key) → ∃ en, en ∈ dict_entries d ∧ kid (e_key en) = kid key.
Proof.
  intros [x Hx]. unfold dict_map in Hx. apply elem_of_list_to_map_2 in Hx. unfold dict_kvs in Hx.
  apply list_elem_of_fmap in Hx as (en & Heq & Hen). exists en. split; [done|].
  unfold kv in Heq. by injection Heq.
Qed.

(** Everything from the cursor on is emitted before the cursor is 0. *)
Lemma scan_until_all ds : ∀ v em key,
  Forall (dict_ok type kid) ds → 0 ≤ v < 2 ^ 64 → ds ≠ [] → scan_until ds v = Some (0, em) →
  (∀ d, d ∈ ds → is_Some (dict_map kid d !! kid key)) → rev v ≤ rev (hashFunction type key) →
  ∃ en, en ∈ em ∧ kid (e_key en) = kid key.
Proof.
  induction ds as [|d ds IH]; intros v em key Hok Hv Hne Hrun Hin Hpos; [done|].
  apply Forall_cons in Hok as [Hokd Hok]. cbn [scan_until] in Hrun.
  destruct (in_entries d key) as (en & Hen & Hk); [by apply Hin, list_elem_of_here|].
  pose proof (scan_call d v Hokd Hv) as Hcall. case_decide as Hnil; [rewrite Hnil in Hen; by apply elem_of_nil in Hen|].
  destruct Hcall as (v1 & em1 & Hs & [Hv1 _ He Hnext Hall]). rewrite Hs in Hrun. cbn [mbind option_bind] in Hrun.
  assert (Hhash : scan_pos en = rev (hashFunction type key)) by (unfold scan_pos; by rewrite (hash_kid type kid _ _ Hk)).
  pose proof (rev_range v Hv) as Hr. pose proof (rev_range _ (hash_range type kid key)) as Hrk.
  destruct (next_block_bounds (scan_exp d) (rev v)) as [Hb _]; [lia|done|].
  destruct (Z.eqb_spec v1 0) as [->|Hnz].
  - injection Hrun as <-. exists en. split; [|done]. apply Hall; [done|]. rewrite Hhash. split; [done|].
    change (rev 0) with 0 in Hnext. destruct (decide (next_block (scan_exp d) (rev v) = 2 ^ 64)); [lia|].
    rewrite Z.mod_small in Hnext by lia. lia.
  - destruct (scan_until ds v1) as [[v2 em2]|] eqn:Hrest; [|done]. cbn [mbind option_bind] in Hrun.
    injection Hrun as -> <-. destruct (decide (rev (hashFunction type key) < next_block (scan_exp d) (rev v))) as [Hlt|Hge].
    + exists en. split; [|done]. apply elem_of_app. left. apply Hall; [done|]. lia.
    + destruct (IH v1 em2 key) as (en' & Hen' & Hk'); [done|lia| |done|..].
      * intros ->. cbn in Hrest. congruence.
      * intros d' Hd'. apply Hin. by apply list_elem_of_further.
      * rewrite Hnext, Z.mod_small by lia. lia.
      * exists en'. split; [|done]. apply elem_of_app. by right.
Qed.

Lemma scan_until_only ds : ∀ v v' em,
  Forall (dict_ok type kid) ds → 0 ≤ v < 2 ^ 64 → scan_until ds v = Some (v', em) →
  ∀ en, en ∈ em → ∃ d, d ∈ ds ∧ en ∈ dict_entries d.
Proof.
  induction ds as [|d ds IH]; intros v v' em Hok Hv Hrun en Hen; cbn [scan_until] in Hrun.
  { injection Hrun as <- <-. by apply elem_of_nil in Hen. }
  apply Forall_cons in Hok as [Hokd Hok]. pose proof (scan_call d v Hokd Hv) as Hcall. case_decide as Hnil.
  { rewrite Hcall in Hrun. cbn in Hrun. injection Hrun as <- <-. by apply elem_of_nil in Hen. }
  destruct Hcall as (v1 & em1 & Hs & [Hv1 Honly _ _ _]). rewrite Hs in Hrun. cbn [mbind option_bind] in Hrun.
  destruct (v1 =? 0).
  { injection Hrun as <- <-. exists d. split; [apply list_elem_of_here|auto]. }
  destruct (scan_until ds v1) as [[v2 em2]|] eqn:Hrest; [|done]. cbn [mbind option_bind] in Hrun.
  injection Hrun as <- <-. apply elem_of_app in Hen as [Hen|Hen].
  - exists d. split; [apply list_elem_of_here|auto].
  - destruct (IH v1 v2 em2 Hok Hv1 Hrest en Hen) as (d' & Hd' & ?). exists d'. split; [by apply list_elem_of_further|done].
Qed.

(** Every call moves the cursor by at least the smallest block. *)
Lemma scan_until_ends e ds : ∀ v,
  Forall (dict_ok type kid) ds → 0 ≤ e ≤ 60 → Forall (λ d, scan_exp d ≤ e) ds → 0 ≤ v < 2 ^ 64 →
  rev v mod 2 ^ (64 - e) = 0 → 2 ^ 64 - rev v ≤ zlen ds * 2 ^ (64 - e) →
  ∃ em, scan_until ds v = Some (0, em).
Proof.
  induction ds as [|d ds IH]; intros v Hok He Hexp Hv Hmul Hlen; pose proof (rev_range v Hv) as Hr.
  { cbn [length] in Hlen. lia. }
  apply Forall_cons in Hok as [Hokd Hok]. apply Forall_cons in Hexp as [Hexpd Hexp]. cbn [scan_until].
  pose proof (scan_call d v Hokd Hv) as Hcall. case_decide as Hnil; [rewrite Hcall; by eexists|].
  destruct Hcall as (v1 & em1 & -> & [Hv1 _ He1 Hnext _]). cbn [mbind option_bind].
  destruct (Z.eqb_spec v1 0) as [->|Hnz]; [by eexists|].
  destruct (next_block_bounds (scan_exp d) (rev v)) as [Hb _]; [lia|done|].
  assert (Hlt : next_block (scan_exp d) (rev v) < 2 ^ 64).
  { destruct (decide (next_block (scan_exp d) (rev v) = 2 ^ 64)) as [E|]; [|lia]. exfalso. apply Hnz.
    rewrite E, Z.mod_same in Hnext by lia. rewrite <- (rev_involutive v1), Hnext by done. done. }
  rewrite Z.mod_small in Hnext by lia.
  assert (HB : (2 ^ (64 - e) | 2 ^ (64 - scan_exp d))).
  { exists (2 ^ (e - scan_exp d)). rewrite <- Z.pow_add_r by lia. f_equal. lia. }
  pose proof (Z.pow_pos_nonneg 2 (64 - e) ltac:(lia) ltac:(lia)).
  assert (Hmul1 : rev v1 mod 2 ^ (64 - e) = 0).
  { rewrite Hnext. apply Z.mod_divide; [lia|]. unfold next_block. by apply Z.divide_mul_r. }
  destruct (IH v1) as (em & ->); [done..| |by eexists]. rewrite Hnext. cbn [length] in Hlen.
  rewrite <- Hnext in *. apply Z.mod_divide in Hmul, Hmul1; [|lia..].
  destruct Hmul as [a Ha], Hmul1 as [b Hb']. rewrite Ha, Hb' in *.
  assert (a < b) by (apply (Z.mul_lt_mono_pos_r (2 ^ (64 - e))); lia). nia.
Qed.

Lemma resume_pause p : sfits 16 p → s16 (s16 (p + 1) - 1) = p.
Proof. intros Hp. unfold sfits, wraps in *. dlia. Qed.

(** C28: the guarantee of SCAN.  Whatever happens to the dict between the calls
    (additions, deletions, expansions, shrinkings, rehashing steps), an iteration
    from cursor 0 until a call returns cursor 0 emits every key that is in the
    dict at all of its calls, and only entries that were in the dict at one of
    them.  A call leaves the dict as it was. *)
Theorem dictScan_complete ds em :
  Forall (dict_ok type kid) ds → Forall (λ d, sfits 16 (pauserehash d)) ds → ds ≠ [] →
  scan_until ds 0 = Some (0, em) →
  (∀ key, (∀ d, d ∈ ds → is_Some (dict_map kid d !! kid key)) → ∃ en, en ∈ em ∧ kid (e_key en) = kid key) ∧
  (∀ en, en ∈ em → ∃ d, d ∈ ds ∧ en ∈ dict_entries d) ∧
  (∀ d v, d ∈ ds → 0 ≤ v < 2 ^ 64 → ∃ v' em', dictScan d v = Some (d, v', em')).
Proof.
  intros Hok Hpause Hne Hrun. split_and!.
  - intros key Hin. apply (scan_until_all ds 0 em key); [done|lia|done|done|done|].
    change (rev 0) with 0. pose proof (rev_range _ (hash_range type kid key)). lia.
  - intros en Hen. apply (scan_until_only ds 0 0 em); [done|lia|done|done].
  - intros d v Hd Hv. rewrite Forall_forall in Hok, Hpause. specialize (Hok d Hd). specialize (Hpause d Hd).
    pose proof (scan_call d v Hok Hv) as Hcall. case_decide; [by do 2 eexists|].
    destruct Hcall as (v' & em' & -> & _). exists v', em'. do 3 f_equal.
    unfold dictResumeRehashing, dictPauseRehashing. destruct d as [h0 h1 ri pa]. cbn in *. unfold set_pauserehash. cbn.
    f_equal. apply resume_pause. done.
Qed.

(** C29: an iteration ends.  If no table the iteration goes through has more
    than [2 ^ e] buckets, the cursor is 0 again after at most [2 ^ e] calls. *)
Theorem dictScan_terminates ds e :
  Forall (dict_ok type kid) ds → 0 ≤ e ≤ 60 → Forall (λ d, scan_exp d ≤ e) ds → zlen ds = 2 ^ e →
  ∃ em, scan_until ds 0 = Some (0, em).
Proof.
  intros Hok He Hexp Hlen. apply (scan_until_ends e ds 0); [done|done|done|lia|done|].
  change (rev 0) with 0. rewrite Hlen, <- Z.pow_add_r by lia. replace (e + (64 - e)) with 64 by lia. lia.
Qed.
End guarantee.

(** ** Examples: a scan during which the dict starts to rehash *)

Definition ex_scan : list (dict Z Z) := ex_state <$> [5; 6; 7; 7]%nat.

Lemma ex_scan_ok : Forall (dict_ok ex_type id) ex_scan.
Proof. apply Forall_fmap, Forall_forall. intros n _. apply ex_state_ok. Qed.

Lemma ex_scan_pause : Forall (λ d, sfits 16 (pauserehash d)) ex_scan.
Proof. apply Forall_fmap. rewrite !Forall_cons, Forall_nil. vm_compute. repeat split; congruence. Qed.

Lemma ex_scan_exp : Forall (λ d, scan_exp d ≤ 2) ex_scan.
Proof. apply Forall_fmap. rewrite !Forall_cons, Forall_nil. vm_compute. repeat split; congruence. Qed.

Lemma dictScan_complete_witness :
  ∃ em, scan_until ex_scan 0 = Some (0, em) ∧ ∃ en, en ∈ em ∧ e_key en = 7.
Proof.
  destruct (scan_until ex_scan 0) as [[v em]|] eqn:Hrun; [|vm_compute in Hrun; discriminate].
  assert (v = 0) as -> by (vm_compute in Hrun; congruence). exists em. split; [done|].
  destruct (dictScan_complete ex_type id ex_scan em ex_scan_ok ex_scan_pause) as [Hall _];
    [discriminate|exact Hrun|].
  apply (Hall 7). intros d Hd. unfold ex_scan in Hd. apply list_elem_of_fmap in Hd as (n & -> & Hn).
  rewrite !elem_of_cons, elem_of_nil in Hn. destruct Hn as [-> | [-> | [-> | [-> | []]]]]; vm_compute; eexists; reflexivity.
Defined.

Lemma dictScan_terminates_witness : ∃ em, scan_until ex_scan 0 = Some (0, em).
Proof.
  apply (dictScan_terminates ex_type id ex_scan 2);
    [apply ex_scan_ok|lia|apply ex_scan_exp|vm_compute; reflexivity].
Defined.

End DictScan.
