(* ===== verification/DictIter.v ===== *)
(** * dict.c: iterators

    [dictNext] walks the buckets of both tables.  The entry an iterator points
    to is known with the entries after it in its chain, which it saves before
    the caller sees the entry.  The fingerprint that an unsafe iterator checks
    at the end hashes addresses and is not modelled: the dict is passed along
    unchanged instead. *)

From S2P Require Import Prelude Dict DictInv DictOps.
Import Dict DictInv DictOps.

Module DictIter.

Section model.
Context {K V : Type}.
Implicit Type d : dict K V.

Record dictIterator := Iter {
  it_table : bool;
  it_index : Z;
  it_safe : bool;
  it_entry : option (dictEntry K V);
  it_nextEntry : chain K V;
}.

Definition dictInitIterator : dictIterator := Iter false (-1) false None [].
Definition dictInitSafeIterator : dictIterator := Iter false (-1) true None [].
Definition dictResetIterator d (iter : dictIterator) : dict K V :=
  if negb ((it_index iter =? -1) && negb (it_table iter)) && it_safe iter then dictResumeRehashing d else d.

(** [while (1)]: one turn per bucket. *)
Fixpoint next_loop (fuel : nat) d (iter : dictIterator) : option (dict K V * dictIterator * option (dictEntry K V)) :=
  match fuel with
  | O => None
  | S fuel =>
      let visit d table index (c : chain K V) :=
        match c with
        | e :: nextEntry => Some (d, Iter table index (it_safe iter) (Some e) nextEntry, Some e)
        | [] => next_loop fuel d (Iter table index (it_safe iter) None (it_nextEntry iter))
        end in
      match it_entry iter with
      | Some _ => visit d (it_table iter) (it_index iter) (it_nextEntry iter)
      | None =>
          let d := if (it_index iter =? -1) && negb (it_table iter) && it_safe iter then dictPauseRehashing d else d in
          let index := it_index iter + 1 in
          if index >=? s64 (DICTHT_SIZE (ht_size_exp (dht d (it_table iter)))) then
            if dictIsRehashing d && negb (it_table iter) then
              c ← get_bucket (dht d true) 0; visit d true 0 c
            else Some (d, Iter (it_table iter) index (it_safe iter) None (it_nextEntry iter), None)
          else c ← get_bucket (dht d (it_table iter)) index; visit d (it_table iter) index c
      end
  end.
(** A turn that does not return goes to the next bucket. *)
Definition dictNext d (iter : dictIterator) : option (dict K V * dictIterator * option (dictEntry K V)) :=
  next_loop (S (S (Z.to_nat (DICTHT_SIZE (ht_size_exp (ht_0 d)) + DICTHT_SIZE (ht_size_exp (ht_1 d)))))) d iter.

(** A whole iteration: [while ((de = dictNext(&iter)) != NULL) ...] and
    [dictResetIterator]; it ends after [dictSize] entries. *)
Fixpoint iterate_loop (fuel : nat) d (iter : dictIterator) : option (dict K V * chain K V) :=
  match fuel with
  | O => None
  | S fuel =>
      '(d, iter, de) ← dictNext d iter;
      match de with
      | None => Some (dictResetIterator d iter, [])
      | Some e => '(d, es) ← iterate_loop fuel d iter; Some (d, e :: es)
      end
  end.
Definition dict_iterate d (iter : dictIterator) : option (dict K V * chain K V) :=
  iterate_loop (S (Z.to_nat (dictSize d))) d iter.
End model.
Arguments dictIterator : clear implicits.

Section iteration.
Context {K V I : Type} `{EqDecision K} `{Countable I} (type : dictType K V) (kid : K → I) {Hty : TypeOk type kid}.
Implicit Type (d : dict K V) (iter : dictIterator K V).

(** The buckets of a table. *)
Definition buckets (h : ht K V) : list (chain K V) := default [] (ht_table h).

(** What an iterator has still to visit. *)
Definition rest_of d iter : chain K V :=
  match it_entry iter with Some _ => it_nextEntry iter | None => [] end ++
  concat (drop (Z.to_nat (it_index iter + 1)) (buckets (dht d (it_table iter)))) ++
  (if it_table iter then [] else concat (buckets (ht_1 d))).

Record iter_ok d iter : Prop := {
  io_index : -1 ≤ it_index iter;
  io_start : it_index iter = -1 → it_entry iter = None;
  io_table : it_table iter = true → dictIsRehashing d = true ∧ 0 ≤ it_index iter;
}.

(** The first call of a safe iterator pauses rehashing. *)
Definition started d iter : dict K V :=
  if (it_index iter =? -1) && negb (it_table iter) && it_safe iter then dictPauseRehashing d else d.

Lemma started_tables d iter t : dht (started d iter) t = dht d t.
Proof. unfold started. by destruct (_ && _), t. Qed.
Lemma started_rehashing d iter : dictIsRehashing (started d iter) = dictIsRehashing d.
Proof. unfold started. by destruct (_ && _). Qed.
Lemma started_rest d iter iter' : rest_of (started d iter) iter' = rest_of d iter'.
Proof. unfold rest_of. rewrite started_tables. change (ht_1 ?d) with (dht d true). by rewrite started_tables. Qed.
Lemma started_ok d iter : dict_ok type kid (started d iter) ↔ dict_ok type kid d.
Proof. unfold started. destruct (_ && _); [apply pause_ok|done]. Qed.

Lemma buckets_ok d t : dict_ok type kid d → zlen (buckets (dht d t)) = DICTHT_SIZE (ht_size_exp (dht d t)) ∧ zlen (buckets (dht d t)) ≤ 2 ^ 60.
Proof.
  intros [Ht _ _]. unfold tables_ok in Ht.
  assert (Hone : ∀ h tb, ht_ok type h tb → zlen (buckets h) = DICTHT_SIZE (ht_size_exp h) ∧ zlen (buckets h) ≤ 2 ^ 60).
  { intros h tb (Htb & [He Hl _ _] & _). unfold buckets. rewrite Htb. cbn [default]. rewrite size_pow by lia.
    split; [done|]. cbn. rewrite Hl. apply Z.pow_le_mono_r; lia. }
  assert (Hnone : ∀ h : ht K V, ht_empty h → zlen (buckets h) = DICTHT_SIZE (ht_size_exp h) ∧ zlen (buckets h) ≤ 2 ^ 60) by (intros h ->; done).
  destruct (dictIsRehashing d), t; cbn [dht].
  - destruct Ht as (tb0 & tb1 & _ & Ht1 & _). by eapply Hone.
  - destruct Ht as (tb0 & tb1 & Ht0 & _). by eapply Hone.
  - apply Hnone, Ht.
  - destruct Ht as (_ & [?|[tb0 ?]]); [by apply Hnone|by eapply Hone].
Qed.

Lemma get_bucket_at d t i : 0 ≤ i < zlen (buckets (dht d t)) → get_bucket (dht d t) i = buckets (dht d t) !! Z.to_nat i.
Proof.
  unfold get_bucket, buckets. destruct (ht_table (dht d t)) as [tb|]; cbn; [|lia]. intros Hi. by rewrite decide_True by lia.
Qed.

(** Turns that a call may still need. *)
Definition turns d iter : nat :=
  (match it_entry iter with Some _ => 1 | None => 0 end + length (drop (Z.to_nat (it_index iter + 1)) (buckets (dht d (it_table iter)))) +
   if it_table iter then 0 else length (buckets (ht_1 d)))%nat.

Lemma not_rehashing d : dict_ok type kid d → dictIsRehashing d = false → buckets (ht_1 d) = [].
Proof. intros [Ht _ _] Hr. unfold tables_ok in Ht. rewrite Hr in Ht. by destruct Ht as [-> _]. Qed.
Lemma rehashing_buckets d : dict_ok type kid d → dictIsRehashing d = true → buckets (ht_1 d) ≠ [].
Proof.
  intros [Ht _ _] Hr. unfold tables_ok in Ht. rewrite Hr in Ht. destruct Ht as (tb0 & tb1 & _ & (Htb & [He Hl _ _] & _) & _).
  unfold buckets. rewrite Htb. cbn. intros ->. cbn in Hl. assert (0 < 2 ^ ht_size_exp (ht_1 d)) by (apply Z.pow_pos_nonneg; lia). lia.
Qed.

Lemma next_loop_spec fuel : ∀ d iter,
  dict_ok type kid d → iter_ok d iter → (turns d iter < fuel)%nat →
  ∃ iter', next_loop fuel d iter = Some (started d iter, iter', head (rest_of d iter)) ∧ rest_of d iter' = tail (rest_of d iter) ∧
    iter_ok d iter' ∧ it_safe iter' = it_safe iter ∧ 0 ≤ it_index iter'.
Proof.
  induction fuel as [|fuel IH]; intros d iter Hok Hio Hf; [lia|]. pose proof Hio as [Hidx Hstart Htab]. cbn [next_loop].
  (* one bucket *)
  assert (Hvisit : ∀ t i c, rest_of d iter = c ++ rest_of d (Iter t i (it_safe iter) None (it_nextEntry iter)) →
    0 ≤ i → (t = true → dictIsRehashing d = true) → (turns d (Iter t i (it_safe iter) None (it_nextEntry iter)) < fuel)%nat →
    ∃ iter', match c with
      | e :: nextEntry => Some (started d iter, Iter t i (it_safe iter) (Some e) nextEntry, Some e)
      | [] => next_loop fuel (started d iter) (Iter t i (it_safe iter) None (it_nextEntry iter))
      end = Some (started d iter, iter', head (rest_of d iter)) ∧ rest_of d iter' = tail (rest_of d iter) ∧
      iter_ok d iter' ∧ it_safe iter' = it_safe iter ∧ 0 ≤ it_index iter').
  { intros t i c Hrest Hi Ht Hturns. destruct c as [|e c].
    - cbn [app] in Hrest. rewrite Hrest. set (iter1 := Iter t i (it_safe iter) None (it_nextEntry iter)) in *.
      destruct (IH (started d iter) iter1) as (iter' & -> & Hr & Hio' & Hs & Hi').
      + by apply started_ok.
      + split; cbn; [lia|lia|]. rewrite started_rehashing. intros E. split; [by apply Ht|lia].
      + unfold turns in *. rewrite started_tables. change (ht_1 ?d) with (dht d true). by rewrite started_tables.
      + rewrite !started_rest in *. assert (Hst : started (started d iter) iter1 = started d iter).
        { unfold started at 1. cbn. destruct (Z.eqb_spec i (-1)); [lia|done]. }
        rewrite Hst. exists iter'. split_and!; [done|done| |done|done]. destruct Hio' as [? ? Htb']. split; [done|done|]. by rewrite started_rehashing in Htb'.
    - rewrite Hrest. exists (Iter t i (it_safe iter) (Some e) c). split_and!; [done|done| |done|cbn; lia]. split; cbn; [lia|lia|]. intros E. split; [by apply Ht|lia]. }
  destruct (it_entry iter) as [e|] eqn:He.
  - assert (Hnst : started d iter = d).
    { unfold started. destruct (Z.eqb_spec (it_index iter) (-1)) as [E|]; [|done]. discriminate (Hstart E). }
    rewrite Hnst in *. apply (Hvisit (it_table iter) (it_index iter) (it_nextEntry iter)).
    + unfold rest_of. by rewrite He.
    + destruct (decide (it_index iter = -1)) as [E|]; [discriminate (Hstart E)|lia].
    + intros E. by apply Htab.
    + unfold turns in *. rewrite He in Hf. cbn in *. lia.
  - cbv zeta. change (if (it_index iter =? -1) && negb (it_table iter) && it_safe iter then dictPauseRehashing d else d) with (started d iter). rewrite started_tables, started_rehashing.
    destruct (buckets_ok d (it_table iter) Hok) as [Hlen Hsm]. rewrite <- Hlen, wraps_small by (try lia; unfold sfits; lia).
    set (bs := buckets (dht d (it_table iter))) in *. rewrite Z.geb_leb. destruct (Z.leb_spec (zlen bs) (it_index iter + 1)) as [Hend|Hin].
    + assert (Hdrop : drop (Z.to_nat (it_index iter + 1)) bs = []) by (apply drop_ge; lia).
      destruct (dictIsRehashing d) eqn:Hr, (it_table iter) eqn:Ht; cbn [negb andb].
      2:{ pose proof (rehashing_buckets d Hok Hr) as Hne. change (ht_1 d) with (dht d true) in Hne.
          destruct (buckets (dht d true)) as [|c cs] eqn:Hb; [done|]. rewrite started_tables, get_bucket_at by (rewrite Hb; cbn; lia). rewrite Hb.
          cbn [mbind option_bind lookup list_lookup Z.to_nat]. apply (Hvisit true 0 c); [|lia|done|].
          - unfold rest_of. rewrite He, Ht. fold bs. rewrite Hdrop. change (ht_1 d) with (dht d true). cbn [it_entry it_table it_index app]. by rewrite Hb, app_nil_r.
          - unfold turns in Hf |- *. rewrite He, Ht in Hf. change (ht_1 d) with (dht d true) in Hf. rewrite Hb in Hf. cbn [length] in Hf.
            cbn [it_entry it_table it_index]. rewrite Hb. change (Z.to_nat (0 + 1)) with 1%nat. cbn [skipn]. rewrite drop_0. lia. }
      all: assert (Hnil : rest_of d iter = []) by (unfold rest_of; rewrite He, Ht; fold bs; rewrite Hdrop; rewrite ?(not_rehashing d Hok Hr); done).
      all: rewrite Hnil; eexists; (split; [done|]); cbn [it_index it_safe]; (split_and!; [| |done|lia]).
      all: try (split; cbn; [lia|lia|intros ?; split; [done || by destruct (Htab eq_refl)|lia]]).
      all: unfold rest_of; cbn [it_entry it_table it_index app]; rewrite drop_ge by (unfold bs in *; cbn [dht] in *; lia); rewrite ?(not_rehashing d Hok Hr); done.
    + rewrite get_bucket_at by (fold bs; lia). fold bs. destruct (lookup_lt_is_Some_2 bs (Z.to_nat (it_index iter + 1))) as [c Hc]; [lia|].
      rewrite Hc. cbn [mbind option_bind]. assert (Hd : drop (Z.to_nat (it_index iter + 1)) bs = c :: drop (Z.to_nat (it_index iter + 1 + 1)) bs).
      { rewrite (drop_S _ _ _ Hc). do 2 f_equal. lia. }
      apply (Hvisit (it_table iter) (it_index iter + 1) c); [|lia|intros E; by apply Htab|].
      * unfold rest_of. rewrite He. cbn [it_entry it_table it_index app]. fold bs. rewrite Hd. cbn [concat]. by rewrite <- app_assoc.
      * unfold turns in *. rewrite He in Hf. cbn [it_entry it_table it_index] in *. fold bs in Hf |- *. rewrite Hd in Hf. cbn [length] in Hf. lia.
Qed.

Lemma dictNext_spec d iter :
  dict_ok type kid d → iter_ok d iter →
  ∃ iter', dictNext d iter = Some (started d iter, iter', head (rest_of d iter)) ∧ rest_of d iter' = tail (rest_of d iter) ∧
    iter_ok d iter' ∧ it_safe iter' = it_safe iter ∧ 0 ≤ it_index iter'.
Proof.
  intros Hok Hio. apply next_loop_spec; [done|done|]. unfold turns. rewrite length_drop.
  destruct (buckets_ok d false Hok) as [H0 _]. destruct (buckets_ok d true Hok) as [H1 _]. cbn [dht] in H0, H1. rewrite <- H0, <- H1.
  destruct (it_table iter), (it_entry iter); cbn [dht]; lia.
Qed.

Lemma iterate_spec fuel : ∀ d iter,
  dict_ok type kid d → iter_ok d iter → 0 ≤ it_index iter → (length (rest_of d iter) < fuel)%nat →
  iterate_loop fuel d iter = Some (if it_safe iter then dictResumeRehashing d else d, rest_of d iter).
Proof.
  induction fuel as [|fuel IH]; intros d iter Hok Hio Hi Hf; [lia|]. cbn [iterate_loop].
  destruct (dictNext_spec d iter Hok Hio) as (iter' & -> & Hr & Hio' & Hs & Hi'). cbn [mbind option_bind].
  assert (Hst : started d iter = d) by (unfold started; destruct (Z.eqb_spec (it_index iter) (-1)); [lia|done]). rewrite Hst.
  destruct (rest_of d iter) as [|e es]; cbn [head tail] in *.
  - unfold dictResetIterator. destruct (Z.eqb_spec (it_index iter') (-1)); [lia|]. cbn [negb andb]. by rewrite Hs.
  - rewrite (IH d iter' Hok Hio' Hi') by (rewrite Hr; cbn in Hf; lia). cbn [mbind option_bind]. by rewrite Hs, Hr.
Qed.

Lemma rest_init d (safe : bool) : rest_of d (if safe then dictInitSafeIterator else dictInitIterator) = dict_entries d.
Proof. unfold rest_of, dict_entries, ht_entries, buckets. destruct safe; cbn; by destruct (ht_table (ht_0 d)), (ht_table (ht_1 d)). Qed.

(** An iteration from the start visits the entries of both tables in order and
    leaves the dict as it was. *)
Lemma iterate_entries d (safe : bool) :
  dict_ok type kid d → sfits 16 (pauserehash d) →
  dict_iterate d (if safe then dictInitSafeIterator else dictInitIterator) = Some (d, dict_entries d).
Proof.
  intros Hok Hp. unfold dict_iterate. set (iter := (if safe then dictInitSafeIterator else dictInitIterator) : dictIterator K V).
  assert (Hio : iter_ok d iter) by (unfold iter; destruct safe; split; cbn; [lia|done|done|lia|done|done]).
  assert (Hsafe : it_safe iter = safe) by (unfold iter; by destruct safe).
  assert (Hrest : rest_of d iter = dict_entries d) by apply rest_init.
  cbn [iterate_loop]. destruct (dictNext_spec d iter Hok Hio) as (iter' & -> & Hr & Hio' & Hs & Hi'). cbn [mbind option_bind].
  assert (Hst : started d iter = if safe then dictPauseRehashing d else d) by (unfold iter; by destruct safe).
  assert (Hback : (if safe then dictResumeRehashing (started d iter) else started d iter) = d).
  { rewrite Hst. destruct safe; [|done]. destruct d as [h0 h1 ri p]. unfold dictResumeRehashing, dictPauseRehashing, set_pauserehash. cbn in *. f_equal.
    destruct (decide (p = 32767)) as [->|]; [done|]. unfold sfits in Hp. rewrite (wraps_small 16 (p + 1)) by (unfold sfits; lia).
    rewrite wraps_small by (unfold sfits; lia). lia. }
  rewrite Hrest in Hr |- *. rewrite (dictSize_entries type kid d Hok), Nat2Z.id. destruct (dict_entries d) as [|e es]; cbn [head tail length] in *.
  - unfold dictResetIterator. destruct (Z.eqb_spec (it_index iter') (-1)); [lia|]. cbn [negb andb]. rewrite Hs, Hsafe. by rewrite Hback.
  - rewrite iterate_spec; [|by apply started_ok|destruct Hio' as [? ? Ht]; split; [done|done|by rewrite started_rehashing]|done|rewrite started_rest, Hr; lia].
    cbn [mbind option_bind]. rewrite Hs, Hsafe, Hback, started_rest, Hr. done.
Qed.
End iteration.

(** ** Deleting while iterating *)

Section deleting.
Context {K V I : Type} `{EqDecision K} `{Countable I} (type : dictType K V) (kid : K → I) {Hty : TypeOk type kid} (cr : dictResizeEnable).
Implicit Type (d : dict K V) (iter : dictIterator K V).

(** [while ((de = dictNext(di)) != NULL) if (cond(key)) dictDelete(d, key)] with
    a safe iterator: the entries visited. *)
Fixpoint iterate_delete (fuel : nat) (cond : K → bool) d iter : option (dict K V * chain K V) :=
  match fuel with
  | O => None
  | S fuel =>
      '(d, iter, de) ← dictNext d iter;
      match de with
      | None => Some (dictResetIterator d iter, [])
      | Some e =>
          d ← (if cond (e_key e) then '(d, _) ← dictDelete type cr d (e_key e); Some d else Some d);
          '(d, es) ← iterate_delete fuel cond d iter;
          Some (d, e :: es)
      end
  end.

Lemma paused_rehash d : pauserehash d ≠ 0 → rehash_if_needed type cr d = Some d.
Proof.
  intros Hp. unfold rehash_if_needed, _dictRehashStep. destruct (dictIsRehashing d); [|done]. by rewrite (proj2 (Z.eqb_neq _ _) Hp).
Qed.

Lemma elem_concat {A} (l : list A) ls x : l ∈ ls → x ∈ l → x ∈ concat ls.
Proof. rewrite !list_elem_of_In, in_concat. by exists l. Qed.

(** Entries of a bucket that an iterator has not reached. *)
Lemma rest_bucket d iter t idx c e :
  get_bucket (dht d t) idx = Some c → e ∈ c → e ∉ rest_of d iter →
  (t = it_table iter → idx ≤ it_index iter) ∧ (t = true → it_table iter = true).
Proof.
  intros Hg He Hni. unfold get_bucket in Hg. apply bind_Some in Hg as (tb & Htb & Hg). case_decide as Hidx; [|done].
  assert (Hb : buckets (dht d t) !! Z.to_nat idx = Some c) by (unfold buckets; by rewrite Htb).
  unfold rest_of in Hni. rewrite !not_elem_of_app in Hni. destruct Hni as (_ & Hni1 & Hni2). split.
  - intros ->. destruct (decide (idx ≤ it_index iter)) as [|Hgt]; [done|]. destruct Hni1. apply (elem_concat c); [|done].
    apply (list_elem_of_lookup_2 _ (Z.to_nat idx - Z.to_nat (it_index iter + 1))). rewrite lookup_drop. rewrite <- Hb. f_equal. lia.
  - intros ->. destruct (it_table iter); [done|]. destruct Hni2. apply (elem_concat c); [|done]. by eapply list_elem_of_lookup_2.
Qed.

Lemma rest_set_bucket d iter t idx c h :
  (t = it_table iter → idx ≤ it_index iter) → (t = true → it_table iter = true) → -1 ≤ it_index iter →
  set_bucket (dht d t) idx c = Some h → rest_of (set_dht d t (add_used h (-1))) iter = rest_of d iter.
Proof.
  intros Hidx Ht Hi Hs. unfold set_bucket in Hs. apply bind_Some in Hs as (tb & Htb & Hs). case_decide as Hr; [|done]. injection Hs as <-.
  unfold rest_of. f_equal.
  assert (Hd : ∀ n, (Z.to_nat idx < n)%nat → drop n (<[Z.to_nat idx := c]> tb) = drop n tb) by (intros n Hn; by apply drop_insert_lt).
  destruct t, (it_table iter); cbn [set_dht dht buckets add_used ht_table ht_0 ht_1] in *; unfold buckets; cbn [add_used ht_table].
  - rewrite Htb. cbn [default from_option]. rewrite Hd by lia. done.
  - by discriminate (Ht eq_refl).
  - done.
  - rewrite Htb. cbn [default from_option]. rewrite Hd by lia. done.
Qed.
(** Deleting a key that the iterator has passed does not disturb it. *)
Lemma delete_passed d iter key :
  dict_ok type kid d → iter_ok d iter → pauserehash d ≠ 0 → kid key ∉ kid ∘ e_key <$> rest_of d iter →
  ∃ d' ok, dictDelete type cr d key = Some (d', ok) ∧ dict_ok type kid d' ∧ pauserehash d' = pauserehash d ∧
    dict_map kid d' = delete (kid key) (dict_map kid d) ∧ rest_of d' iter = rest_of d iter ∧ iter_ok d' iter.
Proof.
  intros Hok Hio Hp Hni. destruct (genericDelete_spec type kid cr d key Hok) as (d' & he & Hg & Hok' & Hpa & Hm & _).
  unfold dictDelete. rewrite Hg. cbn [mbind option_bind]. do 2 eexists. split_and!; [done|done|done|done|..].
  all: unfold dictGenericDelete in Hg; destruct (Z.eqb_spec (dictSize d) 0) as [|Hnz]; [by injection Hg as <- _|].
  all: destruct (lookup_spec type kid cr d key Hok Hnz) as (d1 & p & Hr & _ & Hf & Hp1); rewrite paused_rehash in Hr, Hg by done; injection Hr as <-.
  all: cbn [mbind option_bind] in Hg; rewrite Hf in Hg; cbn [mbind option_bind] in Hg; destruct p as [[[t idx] i]|]; [|by injection Hg as <- _].
  all: destruct Hp1 as (c & en & Hb & Hi & Hk); unfold get_entry, unlink_place in Hg; rewrite Hb in Hg; cbn [mbind option_bind] in Hg;
    rewrite Hi in Hg; cbn [mbind option_bind] in Hg.
  all: destruct (set_bucket (dht d t) idx (delete i c)) as [h|] eqn:Hs; [|done]; cbn [mbind option_bind] in Hg; injection Hg as <- _.
  - destruct (rest_bucket d iter t idx c en Hb) as [H1 H2]; [by eapply list_elem_of_lookup_2| |].
    + intros Hin. apply Hni. rewrite <- Hk. by apply (list_elem_of_fmap_2 (kid ∘ e_key)).
    + eapply rest_set_bucket; [done|done|apply Hio|done].
  - destruct Hio as [? ? ?]. split; [done|done|]. by destruct t.
Qed.

#[local] Abbreviation remove_if cond := (λ m (e : dictEntry K V), if (cond (e_key e) : bool) then delete (kid (e_key e)) m else m).

Lemma started_late d iter : 0 ≤ it_index iter → started d iter = d.
Proof. intros Hi. unfold started. destruct (Z.eqb_spec (it_index iter) (-1)); [lia|done]. Qed.

Lemma iterate_delete_spec fuel cond : ∀ d iter,
  dict_ok type kid d → iter_ok d iter → it_safe iter = true → pauserehash (started d iter) ≠ 0 →
  (length (rest_of d iter) < fuel)%nat → NoDup (kid ∘ e_key <$> rest_of d iter) →
  ∃ d', iterate_delete fuel cond d iter = Some (dictResumeRehashing d', rest_of d iter) ∧ dict_ok type kid d' ∧
    pauserehash d' = pauserehash (started d iter) ∧ dict_map kid d' = foldl (remove_if cond) (dict_map kid d) (rest_of d iter).
Proof.
  induction fuel as [|fuel IH]; intros d iter Hok Hio Hsafe Hp Hf Hnd; [lia|]. cbn [iterate_delete].
  destruct (dictNext_spec type kid d iter Hok Hio) as (iter' & -> & Hr & Hio' & Hs & Hi'). cbn [mbind option_bind].
  assert (Hms : dict_map kid (started d iter) = dict_map kid d) by (unfold started; by destruct (_ && _)). rewrite <- Hms.
  apply (started_ok type kid d iter) in Hok. rewrite <- (started_rest d iter iter') in Hr.
  assert (Hio1 : iter_ok (started d iter) iter') by (destruct Hio' as [? ? Ht]; split; [done|done|by rewrite started_rehashing]). clear Hio'.
  set (d0 := started d iter) in *. destruct (rest_of d iter) as [|e es]; cbn [head tail foldl] in *.
  - exists d0. unfold dictResetIterator. destruct (Z.eqb_spec (it_index iter') (-1)); [lia|]. cbn [negb andb]. by rewrite Hs, Hsafe.
  - cbn [fmap list_fmap] in Hnd. apply NoDup_cons in Hnd as [Hni Hnd]. rewrite <- Hr in Hni, Hnd. cbn [length] in Hf.
    assert (Hdel : ∃ d1, (if cond (e_key e) then '(d, _) ← dictDelete type cr d0 (e_key e); Some d else Some d0) = Some d1 ∧ dict_ok type kid d1 ∧
      pauserehash d1 = pauserehash d0 ∧ dict_map kid d1 = remove_if cond (dict_map kid d0) e ∧ rest_of d1 iter' = es ∧ iter_ok d1 iter').
    { destruct (cond (e_key e)); [|by exists d0]. destruct (delete_passed d0 iter' (e_key e)) as (d1 & ok & -> & ? & ? & ? & ? & ?); [done..|].
      exists d1. cbn [mbind option_bind]. rewrite <- Hr. by split_and!. }
    destruct Hdel as (d1 & -> & Hok1 & Hp1 & Hm1 & Hr1 & Hio2). cbn [mbind option_bind]. pose proof (started_late d1 iter' Hi') as Hst.
    destruct (IH d1 iter') as (d2 & -> & Hok2 & Hp2 & Hm2); [done|done|by rewrite Hs|by rewrite Hst, Hp1|rewrite Hr1; lia|by rewrite Hr1, <- Hr|].
    rewrite Hst in Hp2. cbn [mbind option_bind]. exists d2. rewrite Hr1 in *. split_and!; [done|done|by rewrite Hp2|]. by rewrite Hm2, Hm1.
Qed.

Lemma remove_if_lookup cond es : ∀ (m : gmap I (K * option V)) i,
  foldl (remove_if cond) m es !! i = if bool_decide (Exists (λ e, cond (e_key e) = true ∧ kid (e_key e) = i) es) then None else m !! i.
Proof.
  induction es as [|e es IH]; intros m i; cbn [foldl]; [rewrite bool_decide_eq_false_2; [done|inversion 1]|]. rewrite IH.
  destruct (decide (Exists (λ e, cond (e_key e) = true ∧ kid (e_key e) = i) es)) as [Hex|Hex].
  - rewrite !bool_decide_eq_true_2; [done|by right|done].
  - rewrite (bool_decide_eq_false_2 _ Hex). destruct (cond (e_key e)) eqn:Hc; [destruct (decide (kid (e_key e) = i)) as [<-|Hne]|].
    + rewrite bool_decide_eq_true_2 by (by left). apply lookup_delete_eq.
    + rewrite bool_decide_eq_false_2 by (intros [[_ ?]|?]%Exists_cons; done). by rewrite lookup_delete_ne.
    + rewrite bool_decide_eq_false_2; [done|]. intros [[? _]|?]%Exists_cons; congruence.
Qed.

Lemma remove_if_filter cond d :
  dict_ok type kid d → foldl (remove_if cond) (dict_map kid d) (dict_entries d) = filter (λ x, cond x.2.1 = false) (dict_map kid d).
Proof.
  intros Hok. apply map_eq. intros i. rewrite remove_if_lookup, map_lookup_filter. destruct (dict_map kid d !! i) as [[k v]|] eqn:Hi; cbn [mbind option_bind].
  2:{ by destruct (bool_decide _). }
  assert (Hel : (i, (k, v)) ∈ dict_kvs kid d) by (by apply elem_of_list_to_map_2). unfold dict_kvs in Hel.
  apply list_elem_of_fmap in Hel as (e & [= -> -> ->] & He). destruct (cond (e_key e)) eqn:Hc.
  - rewrite bool_decide_eq_true_2 by (apply Exists_exists; by exists e). case_guard; [cbn in *; congruence|done].
  - case_guard; [|done]. rewrite bool_decide_eq_false_2; [done|]. intros (e' & He' & Hc' & Hk)%Exists_exists.
    assert (Hi' : dict_map kid d !! kid (e_key e') = Some (e_key e', e_val e')).
    { apply elem_of_list_to_map_1; [apply Hok|]. unfold dict_kvs. by apply (list_elem_of_fmap_2 (λ e, (kid (e_key e), (e_key e, e_val e)))). }
    rewrite Hk, Hi in Hi'. congruence.
Qed.
(** C8.  Iterators visit every entry exactly once.  A whole iteration with a
    safe or an unsafe iterator returns the entries of both tables, in the order
    of the buckets, whether or not the dict is being rehashed, and leaves the
    dict as it was.  With a safe iterator the caller may delete entries while it
    iterates: every entry is still visited, none twice, and the dict is left
    with exactly the entries that were not deleted. *)
Theorem dict_iteration_correct d (cond : K → bool) :
  dict_ok type kid d → 0 ≤ pauserehash d < 32767 →
  NoDup (kid ∘ e_key <$> dict_entries d) ∧
  (∀ safe : bool, dict_iterate d (if safe then dictInitSafeIterator else dictInitIterator) = Some (d, dict_entries d)) ∧
  ∃ d', iterate_delete (S (Z.to_nat (dictSize d))) cond d dictInitSafeIterator = Some (d', dict_entries d) ∧
    dict_ok type kid d' ∧ pauserehash d' = pauserehash d ∧ dict_map kid d' = filter (λ x, cond x.2.1 = false) (dict_map kid d).
Proof.
  intros Hok Hp. assert (Hnd : NoDup (kid ∘ e_key <$> dict_entries d)).
  { pose proof (ok_nodup _ _ _ Hok) as Hnd. unfold dict_kvs in Hnd. by rewrite <- list_fmap_compose in Hnd. }
  split; [done|]. split; [intros safe; apply (iterate_entries type kid); [done|unfold sfits; lia]|].
  pose proof (rest_init d true) as Hrest. cbv iota in Hrest.
  assert (Hps : pauserehash (started d dictInitSafeIterator) = pauserehash d + 1) by (cbn; rewrite wraps_small by (unfold sfits; lia); done).
  destruct (iterate_delete_spec (S (Z.to_nat (dictSize d))) cond d dictInitSafeIterator) as (d' & Hrun & Hok' & Hp' & Hm').
  - done.
  - split; cbn; [lia|done|done].
  - done.
  - rewrite Hps. lia.
  - rewrite Hrest, (dictSize_entries type kid d Hok). lia.
  - by rewrite Hrest.
  - exists (dictResumeRehashing d'). rewrite Hrest in *. split_and!; [done|by apply pause_ok| |].
    + cbn. rewrite Hp', Hps. rewrite wraps_small by (unfold sfits; lia). lia.
    + transitivity (dict_map kid d'); [done|]. rewrite Hm'. by apply remove_if_filter.
Qed.
End deleting.
(** A dict that is being rehashed. *)
Lemma dict_iteration_witness :
  dictIsRehashing ex_dict = true ∧
  ∃ d', iterate_delete ex_type DICT_RESIZE_ENABLE (S (Z.to_nat (dictSize ex_dict))) Z.even ex_dict dictInitSafeIterator =
      Some (d', dict_entries ex_dict) ∧
    dict_map id d' = filter (λ x, Z.even x.2.1 = false) (dict_map id ex_dict).
Proof.
  split; [by vm_compute|].
  destruct (dict_iteration_correct ex_type id DICT_RESIZE_ENABLE ex_dict Z.even) as (_ & _ & d' & Hrun & _ & _ & Hm).
  - apply ex_dict_ok.
  - vm_compute. split; congruence.
  - exists d'. split; [exact Hrun|exact Hm].
Defined.
End DictIter.
