(* ===== verification/Zskiplist.v ===== *)
(** * t_zset.c: the skiplist of sorted sets

    Nodes live in a heap and point to each other: a node has an element, a
    score, a backward pointer and an array of levels, each a forward pointer
    with the number of level 0 links it crosses.  Dereferencing NULL or an
    address that is not allocated, and reading a level a node does not have,
    give [None].

    A [double] is a [spec_float] of the Standard Library, whose comparisons are
    those of IEEE 754.  [zmalloc] returns an address that is not in use. *)

From S2P Require Import Prelude Dict.
From Stdlib Require Export SpecFloat.
Import Dict.

Module Zskiplist.

Abbreviation double := spec_float (only parsing).
Definition sds : Type := list Z.
Definition ptr : Type := positive.

Definition isnan (x : double) : bool := match x with S754_nan => true | _ => false end.

(** ** sds.c: comparison *)

Fixpoint memcmp (s1 s2 : sds) (n : nat) : Z :=
  match n, s1, s2 with
  | S n, c1 :: s1, c2 :: s2 => if c1 <? c2 then -1 else if c2 <? c1 then 1 else memcmp s1 s2 n
  | _, _, _ => 0
  end.
Definition sdscmp (s1 s2 : sds) : Z :=
  let l1 := length s1 in
  let l2 := length s2 in
  let minlen := if (l1 <? l2)%nat then l1 else l2 in
  let cmp := memcmp s1 s2 minlen in
  if cmp =? 0 then (if (l2 <? l1)%nat then 1 else if (l1 <? l2)%nat then -1 else 0) else cmp.

(** ** Nodes and lists *)

Definition ZSKIPLIST_MAXLEVEL : nat := 32.
(** [ZSKIPLIST_P*RAND_MAX] as an [int]. *)
Definition ZSKIPLIST_THRESHOLD : Z := (2 ^ 31 - 1) / 4.

(** The element of the header is NULL. *)
Record zskiplistNode := Node {
  zn_ele : option sds;
  zn_score : double;
  zn_backward : option ptr;
  zn_level : list (option ptr * Z);
}.
Abbreviation heap := (gmap ptr zskiplistNode).
Record zskiplist := Zsl {
  zsl_heap : heap;
  zsl_header : ptr;
  zsl_tail : option ptr;
  zsl_length : Z;
  zsl_level : nat;
}.

(** [p->level[i]] read and written. *)
Definition get_level (h : heap) (p : ptr) (i : nat) : option (option ptr * Z) :=
  n ← h !! p; zn_level n !! i.
Definition set_level (h : heap) (p : ptr) (i : nat) (v : option ptr * Z) : option heap :=
  n ← h !! p;
  if decide (i < length (zn_level n))%nat
  then Some (<[p := Node (zn_ele n) (zn_score n) (zn_backward n) (<[i := v]> (zn_level n))]> h) else None.
Definition set_backward (h : heap) (p : ptr) (b : option ptr) : option heap :=
  n ← h !! p; Some (<[p := Node (zn_ele n) (zn_score n) b (zn_level n)]> h).

(** The levels of a new node are not initialized. *)
Definition zslCreateNode (h : heap) (level : nat) (score : double) (ele : option sds) : heap * ptr :=
  let p := base.fresh (dom h) in
  (<[p := Node ele score None (replicate level (None, 0))]> h, p).

Definition zslCreate : zskiplist :=
  let '(h, header) := zslCreateNode ∅ ZSKIPLIST_MAXLEVEL (S754_zero false) None in
  Zsl h header None 0 1.

Definition zslFreeNode (h : heap) (p : ptr) : heap := delete p h.

(** [while(node)] over level 0; [fuel] bounds the number of nodes. *)
Fixpoint free_loop (fuel : nat) (h : heap) (node : option ptr) : option heap :=
  match node with
  | None => Some h
  | Some p =>
      match fuel with
      | O => None
      | S fuel => '(next, _) ← get_level h p O; free_loop fuel (zslFreeNode h p) next
      end
  end.
(** The heap that is left. *)
Definition zslFree (zsl : zskiplist) : option heap :=
  '(node, _) ← get_level (zsl_heap zsl) (zsl_header zsl) O;
  free_loop (Z.to_nat (zsl_length zsl)) (delete (zsl_header zsl) (zsl_heap zsl)) node.

(** [random()] returns the numbers of [rs]; gives the rest of them. *)
Fixpoint random_level (rs : list Z) (level : nat) : option (nat * list Z) :=
  match rs with
  | [] => None
  | r :: rs => if r <? ZSKIPLIST_THRESHOLD then random_level rs (S level) else Some (level, rs)
  end.
Definition zslRandomLevel (rs : list Z) : option (nat * list Z) :=
  '(level, rs) ← random_level rs 1;
  Some (if (level <? ZSKIPLIST_MAXLEVEL)%nat then level else ZSKIPLIST_MAXLEVEL, rs).

(** ** Walking *)

(** [while (x->level[i].forward && go) { rank += x->level[i].span; x =
    x->level[i].forward; }]: [go] sees the next node and the new rank.  A list
    of [length] nodes is left after that many turns. *)
Fixpoint walk (fuel : nat) (h : heap) (go : zskiplistNode → Z → bool) (i : nat) (x : ptr) (rank : Z)
    : option (ptr * Z) :=
  match fuel with
  | O => None
  | S fuel =>
      '(forward, span) ← get_level h x i;
      match forward with
      | None => Some (x, rank)
      | Some y =>
          n ← h !! y;
          let rank' := u64 (rank + span) in
          if go n rank' then walk fuel h go i y rank' else Some (x, rank)
      end
  end.

(** [for (i = level-1; i >= 0; i--)] with a walk in each turn; the results are
    [update[]] and [rank[]], by level. *)
Fixpoint descend (fuel : nat) (h : heap) (go : zskiplistNode → Z → bool) (level : nat) (x : ptr) (rank : Z)
    : option (list (ptr * Z)) :=
  match level with
  | O => Some []
  | S i =>
      '(x, rank) ← walk fuel h go i x rank;
      rest ← descend fuel h go i x rank;
      Some (rest ++ [(x, rank)])
  end.
Definition zsl_fuel (zsl : zskiplist) : nat := S (Z.to_nat (zsl_length zsl)).
Definition zsl_search (zsl : zskiplist) (go : zskiplistNode → Z → bool) : option (list (ptr * Z)) :=
  descend (zsl_fuel zsl) (zsl_heap zsl) go (zsl_level zsl) (zsl_header zsl) 0.

(** [n->score < score || (n->score == score && sdscmp(n->ele,ele) < 0)], and
    with [<= 0]. *)
Definition node_cmp (test : Z → bool) (score : double) (ele : sds) (n : zskiplistNode) (_ : Z) : bool :=
  SFltb (zn_score n) score ||
  (SFeqb (zn_score n) score && match zn_ele n with Some e => test (sdscmp e ele) | None => false end).
Definition node_lt := node_cmp (λ c, c <? 0).
Definition node_le := node_cmp (λ c, c <=? 0).
(** [score == n->score && sdscmp(n->ele,ele) == 0] *)
Definition node_eq (score : double) (ele : sds) (n : zskiplistNode) : bool :=
  match zn_ele n with Some e => SFeqb (zn_score n) score && (sdscmp e ele =? 0) | None => false end.

(** ** Insertion *)

(** [update[i]->level[i].span = zsl->length] for the new levels. *)
Fixpoint raise_levels (n i : nat) (h : heap) (header : ptr) (len : Z) : option heap :=
  match n with
  | O => Some h
  | S n =>
      '(forward, _) ← get_level h header i;
      h ← set_level h header i (forward, len);
      raise_levels n (S i) h header len
  end.
(** [for (i = 0; i < level; i++)]: link [x] after [update[i]]. *)
Fixpoint link_levels (n i : nat) (h : heap) (x : ptr) (update : list (ptr * Z)) (rank0 : Z) : option heap :=
  match n with
  | O => Some h
  | S n =>
      '(u, rank) ← update !! i;
      '(forward, span) ← get_level h u i;
      h ← set_level h x i (forward, u64 (span - u64 (rank0 - rank)));
      h ← set_level h u i (Some x, u64 (u64 (rank0 - rank) + 1));
      link_levels n (S i) h x update rank0
  end.
(** [for (i = level; i < zsl->level; i++) update[i]->level[i].span++] *)
Fixpoint incr_spans (n i : nat) (h : heap) (update : list (ptr * Z)) : option heap :=
  match n with
  | O => Some h
  | S n =>
      '(u, _) ← update !! i;
      '(forward, span) ← get_level h u i;
      h ← set_level h u i (forward, u64 (span + 1));
      incr_spans n (S i) h update
  end.

Definition zslInsert (zsl : zskiplist) (score : double) (ele : sds) (rs : list Z)
    : option (zskiplist * ptr * list Z) :=
  _ ← assert (negb (isnan score));
  update ← zsl_search zsl (node_lt score ele);
  '(level, rs) ← zslRandomLevel rs;
  let new := (level - zsl_level zsl)%nat in
  h ← raise_levels new (zsl_level zsl) (zsl_heap zsl) (zsl_header zsl) (zsl_length zsl);
  let update := update ++ replicate new (zsl_header zsl, 0) in
  let zlevel := (zsl_level zsl + new)%nat in
  let '(h, x) := zslCreateNode h level score (Some ele) in
  '(update0, rank0) ← update !! O;
  h ← link_levels level O h x update rank0;
  h ← incr_spans (zlevel - level) level h update;
  h ← set_backward h x (if decide (update0 = zsl_header zsl) then None else Some update0);
  '(forward, _) ← get_level h x O;
  match forward with
  | Some y =>
      h ← set_backward h y (Some x);
      Some (Zsl h (zsl_header zsl) (zsl_tail zsl) (u64 (zsl_length zsl + 1)) zlevel, x, rs)
  | None => Some (Zsl h (zsl_header zsl) (Some x) (u64 (zsl_length zsl + 1)) zlevel, x, rs)
  end.

(** ** Deletion *)

Fixpoint unlink_levels (n i : nat) (h : heap) (x : ptr) (update : list (ptr * Z)) : option heap :=
  match n with
  | O => Some h
  | S n =>
      '(u, _) ← update !! i;
      '(forward, span) ← get_level h u i;
      h ← (if decide (forward = Some x) then
             '(xforward, xspan) ← get_level h x i;
             set_level h u i (xforward, u64 (span + (xspan - 1)))
           else set_level h u i (forward, u64 (span - 1)));
      unlink_levels n (S i) h x update
  end.
(** [while(zsl->level > 1 && zsl->header->level[zsl->level-1].forward == NULL)] *)
Fixpoint lower_level (level : nat) (h : heap) (header : ptr) : option nat :=
  match level with
  | S (S _ as l) =>
      '(forward, _) ← get_level h header l;
      match forward with None => lower_level l h header | Some _ => Some level end
  | _ => Some level
  end.

Definition zslDeleteNode (zsl : zskiplist) (x : ptr) (update : list (ptr * Z)) : option zskiplist :=
  h ← unlink_levels (zsl_level zsl) O (zsl_heap zsl) x update;
  nx ← h !! x;
  '(forward, _) ← get_level h x O;
  '(h, tail) ←
    match forward with
    | Some y => h ← set_backward h y (zn_backward nx); Some (h, zsl_tail zsl)
    | None => Some (h, zn_backward nx)
    end;
  level ← lower_level (zsl_level zsl) h (zsl_header zsl);
  Some (Zsl h (zsl_header zsl) tail (u64 (zsl_length zsl - 1)) level).

Definition free_node (zsl : zskiplist) (x : ptr) : zskiplist :=
  Zsl (zslFreeNode (zsl_heap zsl) x) (zsl_header zsl) (zsl_tail zsl) (zsl_length zsl) (zsl_level zsl).

(** [x = x->level[0].forward] after a search. *)
Definition after_search (zsl : zskiplist) (update : list (ptr * Z)) : option (option ptr) :=
  '(u, _) ← update !! O;
  '(forward, _) ← get_level (zsl_heap zsl) u O;
  Some forward.

(** The result is the node that was deleted; it is freed unless [keep]. *)
Definition zslDelete (zsl : zskiplist) (score : double) (ele : sds) (keep : bool)
    : option (zskiplist * option ptr) :=
  update ← zsl_search zsl (node_lt score ele);
  x ← after_search zsl update;
  match x with
  | None => Some (zsl, None)
  | Some x =>
      n ← zsl_heap zsl !! x;
      if node_eq score ele n then
        zsl ← zslDeleteNode zsl x update;
        Some (if keep then zsl else free_node zsl x, Some x)
      else Some (zsl, None)
  end.

Definition set_score (zsl : zskiplist) (x : ptr) (score : double) : option zskiplist :=
  n ← zsl_heap zsl !! x;
  Some (Zsl (<[x := Node (zn_ele n) score (zn_backward n) (zn_level n)]> (zsl_heap zsl))
    (zsl_header zsl) (zsl_tail zsl) (zsl_length zsl) (zsl_level zsl)).

Definition zslUpdateScore (zsl : zskiplist) (curscore : double) (ele : sds) (newscore : double) (rs : list Z)
    : option (zskiplist * ptr * list Z) :=
  update ← zsl_search zsl (node_lt curscore ele);
  xo ← after_search zsl update;
  x ← xo;
  n ← zsl_heap zsl !! x;
  _ ← assert (node_eq curscore ele n);
  before ←
    match zn_backward n with
    | None => Some true
    | Some b => nb ← zsl_heap zsl !! b; Some (SFltb (zn_score nb) newscore)
    end;
  '(forward, _) ← get_level (zsl_heap zsl) x O;
  after ←
    match forward with
    | None => Some true
    | Some f => nf ← zsl_heap zsl !! f; Some (SFltb newscore (zn_score nf))
    end;
  if (before : bool) && (after : bool) then
    zsl ← set_score zsl x newscore;
    Some (zsl, x, rs)
  else
    zsl ← zslDeleteNode zsl x update;
    e ← zn_ele n;
    '(zsl, newnode, rs) ← zslInsert zsl newscore e rs;
    Some (free_node zsl x, newnode, rs).

(** ** Ranks *)

(** The loop over the levels stops as soon as [found] holds of the node and
    the rank reached. *)
Fixpoint descend_until (fuel : nat) (h : heap) (go : zskiplistNode → Z → bool)
    (found : zskiplistNode → Z → bool) (level : nat) (x : ptr) (rank : Z) : option (option (ptr * Z)) :=
  match level with
  | O => Some None
  | S i =>
      '(x, rank) ← walk fuel h go i x rank;
      n ← h !! x;
      if found n rank then Some (Some (x, rank)) else descend_until fuel h go found i x rank
  end.

Definition zslGetRank (zsl : zskiplist) (score : double) (ele : sds) : option Z :=
  r ← descend_until (zsl_fuel zsl) (zsl_heap zsl) (node_le score ele) (λ n _, node_eq score ele n)
        (zsl_level zsl) (zsl_header zsl) 0;
  Some (match r with Some (_, rank) => rank | None => 0 end).

Definition zslGetElementByRank (zsl : zskiplist) (rank : Z) : option (option ptr) :=
  r ← descend_until (zsl_fuel zsl) (zsl_heap zsl) (λ _ traversed, traversed <=? rank)
        (λ _ traversed, traversed =? rank) (zsl_level zsl) (zsl_header zsl) 0;
  Some (match r with Some (x, _) => Some x | None => None end).

(** ** Ranges *)

Record zrangespec := Zrange { zr_min : double; zr_max : double; zr_minex : bool; zr_maxex : bool }.

Definition zslValueGteMin (value : double) (spec : zrangespec) : bool :=
  if zr_minex spec then SFltb (zr_min spec) value else SFleb (zr_min spec) value.
Definition zslValueLteMax (value : double) (spec : zrangespec) : bool :=
  if zr_maxex spec then SFltb value (zr_max spec) else SFleb value (zr_max spec).

(** shared.minstring, shared.maxstring or a string. *)
Inductive lexbound := LexMin | LexMax | LexStr (s : sds).
Record zlexrangespec := Zlexrange { zl_min : lexbound; zl_max : lexbound; zl_minex : bool; zl_maxex : bool }.

(** The case [a == b] of two strings is the one where [sdscmp] gives 0. *)
Definition sdscmplex (a b : lexbound) : Z :=
  match a, b with
  | LexMin, LexMin | LexMax, LexMax => 0
  | LexMin, _ => -1
  | _, LexMax => -1
  | LexMax, _ => 1
  | _, LexMin => 1
  | LexStr a, LexStr b => sdscmp a b
  end.
Definition zslLexValueGteMin (value : sds) (spec : zlexrangespec) : bool :=
  if zl_minex spec then sdscmplex (LexStr value) (zl_min spec) >? 0
  else sdscmplex (LexStr value) (zl_min spec) >=? 0.
Definition zslLexValueLteMax (value : sds) (spec : zlexrangespec) : bool :=
  if zl_maxex spec then sdscmplex (LexStr value) (zl_max spec) <? 0
  else sdscmplex (LexStr value) (zl_max spec) <=? 0.

(** An argument: an integer ([OBJ_ENCODING_INT]) or a string. *)
Inductive robj := ObjInt (v : Z) | ObjStr (s : sds).
(** [s[i]]; the terminator follows the bytes of the string. *)
Definition char_at (s : sds) (i : nat) : Z := default 0 (s !! i).

(** The conversion of a [long long] to a [double]. *)
Definition ll2double (v : Z) : double := binary_normalize 53 1024 v 0 false.

Section parse.
(** [strtod] gives the number and how many characters it has read. *)
Context (strtod : sds → double * nat).

(** One end of a score range: the value and whether it is exclusive. *)
Definition parse_bound (o : robj) : option (double * bool) :=
  match o with
  | ObjInt v => Some (ll2double v, false)
  | ObjStr s =>
      let ex := char_at s 0 =? 40 in
      let s := if ex then drop 1 s else s in
      let '(v, n) := strtod s in
      if negb (char_at s n =? 0) || isnan v then None else Some (v, ex)
  end.
Definition zslParseRange (min max : robj) : option zrangespec :=
  '(vmin, minex) ← parse_bound min;
  '(vmax, maxex) ← parse_bound max;
  Some (Zrange vmin vmax minex maxex).
End parse.

Definition zslParseLexRangeItem (s : sds) : option (lexbound * bool) :=
  let c := char_at s 0 in
  if c =? 43 then if negb (char_at s 1 =? 0) then None else Some (LexMax, true)
  else if c =? 45 then if negb (char_at s 1 =? 0) then None else Some (LexMin, true)
  else if c =? 40 then Some (LexStr (drop 1 s), true)
  else if c =? 91 then Some (LexStr (drop 1 s), false)
  else None.
Definition zslParseLexRange (min max : robj) : option zlexrangespec :=
  match min, max with
  | ObjStr min, ObjStr max =>
      '(bmin, minex) ← zslParseLexRangeItem min;
      '(bmax, maxex) ← zslParseLexRangeItem max;
      Some (Zlexrange bmin bmax minex maxex)
  | _, _ => None
  end.

(** The functions on score ranges and on lexicographic ranges are the same up
    to these two tests and the test for ranges that are always empty. *)
Record range := Range { r_gte_min : zskiplistNode → bool; r_lte_max : zskiplistNode → bool; r_empty : bool }.

Definition score_range (spec : zrangespec) : range :=
  Range (λ n, zslValueGteMin (zn_score n) spec) (λ n, zslValueLteMax (zn_score n) spec)
    (SFltb (zr_max spec) (zr_min spec) ||
     (SFeqb (zr_min spec) (zr_max spec) && (zr_minex spec || zr_maxex spec))).
Definition lex_range (spec : zlexrangespec) : range :=
  let cmp := sdscmplex (zl_min spec) (zl_max spec) in
  Range (λ n, match zn_ele n with Some e => zslLexValueGteMin e spec | None => false end)
    (λ n, match zn_ele n with Some e => zslLexValueLteMax e spec | None => false end)
    ((cmp >? 0) || ((cmp =? 0) && (zl_minex spec || zl_maxex spec))).

Definition is_in_range (zsl : zskiplist) (r : range) : option bool :=
  if r_empty r then Some false
  else
    match zsl_tail zsl with
    | None => Some false
    | Some t =>
        nt ← zsl_heap zsl !! t;
        if negb (r_gte_min r nt) then Some false
        else
          '(forward, _) ← get_level (zsl_heap zsl) (zsl_header zsl) O;
          match forward with
          | None => Some false
          | Some f => nf ← zsl_heap zsl !! f; Some (r_lte_max r nf)
          end
    end.
Definition zslIsInRange zsl spec := is_in_range zsl (score_range spec).
Definition zslIsInLexRange zsl spec := is_in_range zsl (lex_range spec).

Definition first_in_range (zsl : zskiplist) (r : range) : option (option ptr) :=
  inside ← is_in_range zsl r;
  if negb inside then Some None
  else
    update ← zsl_search zsl (λ n _, negb (r_gte_min r n));
    xo ← after_search zsl update;
    x ← xo;
    n ← zsl_heap zsl !! x;
    Some (if r_lte_max r n then Some x else None).
Definition zslFirstInRange zsl spec := first_in_range zsl (score_range spec).
Definition zslFirstInLexRange zsl spec := first_in_range zsl (lex_range spec).

Definition last_in_range (zsl : zskiplist) (r : range) : option (option ptr) :=
  inside ← is_in_range zsl r;
  if negb inside then Some None
  else
    update ← zsl_search zsl (λ n _, r_lte_max r n);
    '(x, _) ← update !! O;
    n ← zsl_heap zsl !! x;
    Some (if r_gte_min r n then Some x else None).
Definition zslLastInRange zsl spec := last_in_range zsl (score_range spec).
Definition zslLastInLexRange zsl spec := last_in_range zsl (lex_range spec).

(** ** Deleting ranges

    The elements leave the dict of the sorted set too. *)
Section delete.
Context (type : dictType sds ptr) (dict_can_resize : dictResizeEnable).
Implicit Type d : dict sds ptr.

(** [while (x && in_range)]: [in_range] sees the node and how many nodes the
    loop has passed. *)
Fixpoint delete_while (fuel : nat) (in_range : zskiplistNode → Z → bool) (zsl : zskiplist) d
    (x : option ptr) (update : list (ptr * Z)) (removed : Z) : option (zskiplist * dict sds ptr * Z) :=
  match x with
  | None => Some (zsl, d, removed)
  | Some p =>
      n ← zsl_heap zsl !! p;
      if negb (in_range n removed) then Some (zsl, d, removed)
      else
        match fuel with
        | O => None
        | S fuel =>
            '(next, _) ← get_level (zsl_heap zsl) p O;
            zsl ← zslDeleteNode zsl p update;
            e ← zn_ele n;
            '(d, _) ← dictDelete type dict_can_resize d e;
            delete_while fuel in_range (free_node zsl p) d next update (u64 (removed + 1))
        end
  end.
Definition delete_from (zsl : zskiplist) d (go in_range : zskiplistNode → Z → bool)
    : option (zskiplist * dict sds ptr * Z) :=
  update ← zsl_search zsl go;
  x ← after_search zsl update;
  delete_while (zsl_fuel zsl) in_range zsl d x update 0.

Definition delete_range (zsl : zskiplist) (r : range) d :=
  delete_from zsl d (λ n _, negb (r_gte_min r n)) (λ n _, r_lte_max r n).
Definition zslDeleteRangeByScore zsl spec d := delete_range zsl (score_range spec) d.
Definition zslDeleteRangeByLex zsl spec d := delete_range zsl (lex_range spec) d.

(** [traversed] after the search is the rank of [update[0]]. *)
Definition zslDeleteRangeByRank (zsl : zskiplist) (start end_ : Z) d : option (zskiplist * dict sds ptr * Z) :=
  update ← zsl_search zsl (λ _ traversed, traversed <? start);
  '(_, traversed) ← update !! O;
  x ← after_search zsl update;
  delete_while (zsl_fuel zsl) (λ _ removed, u64 (u64 (traversed + 1) + removed) <=? end_) zsl d x update 0.
End delete.

End Zskiplist.
