(* ===== verification/Double.v ===== *)
(** * Doubles: addition, conversion from integers, and which numbers exist

    A [spec_float] is a double when its mantissa and exponent fit the binary64
    format ([valid_binary]).  Rounding always gives such a number. *)

From S2P Require Import Prelude Dict Zskiplist.
Import Dict Zskiplist.

Module Double.

Definition valid (x : spec_float) : Prop := valid_binary 53 1024 x = true.
(** Addition of doubles. *)
Definition dadd (x y : spec_float) : spec_float := SFadd 53 1024 x y.

Lemma digits_log2 p : Zpos (digits2_pos p) = Z.log2 (Zpos p) + 1.
Proof.
  induction p as [p IH|p IH|]; cbn [digits2_pos]; [| |done]; rewrite Pos2Z.inj_succ, IH.
  - rewrite (Pos2Z.inj_xI p). rewrite Z.log2_succ_double by lia. lia.
  - rewrite (Pos2Z.inj_xO p). rewrite Z.log2_double by lia. lia.
Qed.

Lemma shr_1_half r : 0 ≤ shr_m r → shr_m (shr_1 r) = shr_m r / 2.
Proof.
  destruct r as [m b s]. cbn [shr_m]. destruct m as [|[p|p|]|p]; intros Hm; cbn [shr_1 shr_m]; try done.
  - rewrite (Pos2Z.inj_xI p). apply Z.div_unique with 1; lia.
  - rewrite (Pos2Z.inj_xO p). apply Z.div_unique with 0; lia.
Qed.

Lemma iter_shr n : ∀ r, 0 ≤ shr_m r → shr_m (iter_pos shr_1 n r) = shr_m r / 2 ^ Zpos n.
Proof.
  induction n as [n IH|n IH|]; intros r Hr; cbn [iter_pos].
  - assert (H1 : 0 ≤ shr_m (shr_1 r)) by (rewrite shr_1_half by done; apply Z.div_pos; lia).
    assert (H2 : 0 ≤ shr_m (iter_pos shr_1 n (shr_1 r))) by (rewrite IH by done; apply Z.div_pos; lia).
    rewrite IH, IH, shr_1_half by done. rewrite !Z.div_div by lia. f_equal.
    rewrite (Pos2Z.inj_xI n). replace (2 * Z.pos n + 1) with (1 + Z.pos n + Z.pos n) by lia.
    rewrite !Z.pow_add_r by lia. ring.
  - assert (H2 : 0 ≤ shr_m (iter_pos shr_1 n r)) by (rewrite IH by done; apply Z.div_pos; lia).
    rewrite IH, IH by done. rewrite Z.div_div by lia. f_equal. rewrite (Pos2Z.inj_xO n).
    replace (2 * Z.pos n) with (Z.pos n + Z.pos n) by lia. by rewrite Z.pow_add_r by lia.
  - by apply shr_1_half.
Qed.

Lemma shr_spec r e n : 0 ≤ shr_m r → 0 ≤ n → shr_m (shr r e n).1 = shr_m r / 2 ^ n ∧ (shr r e n).2 = e + n.
Proof.
  intros Hr Hn. destruct n as [|n|n]; [|split; [by apply iter_shr|done]|lia].
  cbn. rewrite Z.div_1_r. split; [done|lia].
Qed.

Lemma digits_Z m : 0 < m → Zdigits2 m = Z.log2 m + 1.
Proof. intros Hm. destruct m as [|p|p]; [lia|apply digits_log2|lia]. Qed.

(** The second half of rounding: a mantissa that is rounded up may have one
    digit too many. *)
Lemma finish_valid sx m e :
  0 ≤ m ≤ 2 ^ 53 → -1074 ≤ e → (e = -1074 ∨ 2 ^ 52 ≤ m) →
  let '(mrs, e') := shr_fexp 53 1024 m e loc_Exact in
  let r := match shr_m mrs with
    | Z0 => S754_zero sx
    | Zpos m => if e' <=? 1024 - 53 then S754_finite sx m e' else S754_infinity sx
    | Zneg _ => S754_nan
    end in
  valid r ∧ isnan r = false.
Proof.
  intros Hm He Hme. destruct (decide (m = 0)) as [->|Hm0].
  { unfold shr_fexp. cbn [Zdigits2 shr_record_of_loc]. unfold fexp, emin.
    destruct (shr_spec (Build_shr_record 0 false false) e (Z.max (0 + e - 53) (3 - 1024 - 53) - e)) as [H1 H2]; cbn [shr_m]; [lia|..].
    - lia.
    - destruct (shr _ _ _) as [mrs e']. cbn [fst snd] in *. rewrite H1. rewrite Z.div_0_l by lia. done. }
  unfold shr_fexp. rewrite digits_Z by lia. cbn [shr_record_of_loc]. set (d := Z.log2 m + 1).
  assert (Hd : 2 ^ (d - 1) ≤ m < 2 ^ d) by (unfold d; pose proof (Z.log2_spec m); replace (Z.log2 m + 1 - 1) with (Z.log2 m) by lia;
    rewrite <- Z.add_1_r in *; lia).
  assert (Hd0 : 1 ≤ d) by (unfold d; pose proof (Z.log2_nonneg m); lia).
  assert (Hd54 : d ≤ 54) by (unfold d; pose proof (Z.log2_le_mono m (2 ^ 53)); rewrite Z.log2_pow2 in *; lia).
  set (n := fexp 53 1024 (d + e) - e).
  assert (Hn : 0 ≤ n).
  { unfold n, fexp, emin. destruct Hme as [->|Hme]; [lia|]. assert (53 ≤ d); [|lia].
    unfold d. pose proof (Z.log2_le_mono (2 ^ 52) m). rewrite Z.log2_pow2 in *; lia. }
  destruct (shr_spec (Build_shr_record m false false) e n) as [H1 H2]; cbn [shr_m]; [lia|done|].
  destruct (shr _ _ _) as [mrs e']. cbn [fst snd shr_m] in *. rewrite H1.
  assert (Hnd : n ≤ d - 1).
  { unfold n, fexp, emin. lia. }
  assert (Hpos : 0 < m / 2 ^ n).
  { apply Z.div_str_pos. split; [lia|]. transitivity (2 ^ (d - 1)); [apply Z.pow_le_mono_r; lia|lia]. }
  destruct (m / 2 ^ n) as [|p|p] eqn:Hp; [lia| |lia]. destruct (Z.leb_spec e' (1024 - 53)) as [Hle|]; [|done].
  split; [|done]. unfold valid, valid_binary, bounded, canonical_mantissa. rewrite (proj2 (Z.leb_le _ _)) by lia.
  rewrite andb_true_r. apply Z.eqb_eq. rewrite digits_log2, <- Hp, <- Z.shiftr_div_pow2, Z.log2_shiftr by lia.
  replace (Z.max 0 (Z.log2 m - n) + 1) with (d - n) by lia. rewrite H2.
  replace (d - n + (e + n)) with (d + e) by lia. unfold n. lia.
Qed.

Lemma fexp_spec d : fexp 53 1024 d = Z.max (d - 53) (-1074).
Proof. done. Qed.

Lemma round_up m l : 0 ≤ m → m ≤ round_nearest_even m l ≤ m + 1.
Proof. intros Hm. destruct l as [|[]]; cbn; try destruct (Z.even m); lia. Qed.

Lemma loc_exact m l : shr_m (shr_record_of_loc m l) = m.
Proof. by destruct l as [|[]]. Qed.

(** A mantissa whose exponent is not too large is rounded to a double. *)
Lemma round_aux_valid sx m e l :
  0 < m → e ≤ fexp 53 1024 (Z.log2 m + 1 + e) →
  valid (binary_round_aux 53 1024 sx m e l) ∧ isnan (binary_round_aux 53 1024 sx m e l) = false.
Proof.
  intros Hm He. unfold binary_round_aux, shr_fexp at 1 3. rewrite digits_Z by done. set (d := Z.log2 m + 1) in *.
  assert (Hd : 2 ^ (d - 1) ≤ m < 2 ^ d) by (unfold d; pose proof (Z.log2_spec m); replace (Z.log2 m + 1 - 1) with (Z.log2 m) by lia;
    rewrite <- Z.add_1_r in *; lia).
  assert (Hd0 : 1 ≤ d) by (unfold d; pose proof (Z.log2_nonneg m); lia).
  destruct (shr_spec (shr_record_of_loc m l) e (fexp 53 1024 (d + e) - e)) as [H1 H2]; [rewrite loc_exact; lia|lia|].
  destruct (shr _ _ _) as [mrs e']. cbn [fst snd] in *. rewrite loc_exact in H1. rewrite fexp_spec in *.
  set (n := Z.max (d + e - 53) (-1074) - e) in *.
  assert (Hq : 0 ≤ shr_m mrs) by (rewrite H1; apply Z.div_pos; lia).
  assert (Hup : shr_m mrs < 2 ^ 53).
  { rewrite H1. apply Z.div_lt_upper_bound; [lia|]. rewrite <- Z.pow_add_r by lia.
    eapply Z.lt_le_trans; [apply Hd|]. apply Z.pow_le_mono_r; lia. }
  pose proof (round_up (shr_m mrs) (loc_of_shr_record mrs) Hq) as Hr.
  assert (Hf : e' = -1074 ∨ 2 ^ 52 ≤ round_nearest_even (shr_m mrs) (loc_of_shr_record mrs)).
  2:{ pose proof (finish_valid sx (round_nearest_even (shr_m mrs) (loc_of_shr_record mrs)) e' ltac:(lia) ltac:(lia) Hf) as Hv.
      by destruct (shr_fexp _ _ _ _ _) as [mrs' e'']. }
  destruct (decide (e' = -1074)) as [|Hne]; [by left|right]. transitivity (shr_m mrs); [|lia]. rewrite H1.
  apply Z.div_le_lower_bound; [lia|]. rewrite <- Z.pow_add_r by lia. etransitivity; [|apply Hd]. apply Z.pow_le_mono_r; lia.
Qed.

Lemma iter_xO m d : Zpos (Pos.iter xO m d) = Zpos m * 2 ^ Zpos d.
Proof.
  induction d as [|d IH] using Pos.peano_ind; [cbn; lia|]. rewrite Pos.iter_succ, Pos2Z.inj_xO, IH, Pos2Z.inj_succ, Z.pow_succ_r by lia. lia.
Qed.

Lemma normalize_valid m e s :
  valid (binary_normalize 53 1024 m e s) ∧ isnan (binary_normalize 53 1024 m e s) = false.
Proof.
  assert (Hr : ∀ sx p, valid (binary_round 53 1024 sx p e) ∧ isnan (binary_round 53 1024 sx p e) = false).
  { intros sx p. unfold binary_round, shl_align. rewrite digits_log2. set (d := Z.log2 (Z.pos p) + 1).
    destruct (fexp 53 1024 (d + e) - e) as [|k|k] eqn:Hk; apply round_aux_valid; try lia; fold d; try lia.
    rewrite iter_xO, Z.log2_mul_pow2 by lia. fold d. replace (Z.pos k + Z.log2 (Z.pos p) + 1) with (Z.pos k + d) by (unfold d; lia).
    replace (Z.pos k + d + fexp 53 1024 (d + e)) with (d + e) by lia. lia. }
  destruct m; [done|apply Hr..].
Qed.

(** Adding doubles gives a double. *)
Lemma dadd_valid x y : valid x → valid y → valid (dadd x y).
Proof.
  intros Hx Hy. unfold dadd, SFadd. destruct x as [[]|[]| |sx mx ex], y as [[]|[]| |sy my ey]; try done. apply normalize_valid.
Qed.

Lemma ll2double_valid v : valid (ll2double v) ∧ isnan (ll2double v) = false.
Proof. apply normalize_valid. Qed.

End Double.
