(* ===== verification/ZslInv.v ===== *)
(** * t_zset.c: the invariant of a skiplist

    A skiplist holds a sorted list of items.  Every forward pointer and span
    is determined by this list, and so are the nodes a search stops at. *)

From S2P Require Import Prelude Dict Zskiplist.
Import Dict Zskiplist.

Module ZslInv.

(** ** The order of scores and elements *)

Fixpoint lexcmp (a b : list Z) : comparison :=
  match a, b with
  | [], [] => Eq
  | [], _ => Lt
  | _, [] => Gt
  | x :: a, y :: b => match x ?= y with Eq => lexcmp a b | c => c end
  end.

Lemma lexcmp_refl a : lexcmp a a = Eq.
Proof. induction a as [|x a IH]; [done|]. cbn. by rewrite Z.compare_refl. Qed.

Lemma lexcmp_eq a : ∀ b, lexcmp a b = Eq → a = b.
Proof.
  induction a as [|x a IH]; intros [|y b]; try done. cbn. destruct (Z.compare_spec x y); try done.
  intros ?%IH. congruence.
Qed.

Lemma lexcmp_antisym a : ∀ b, lexcmp b a = CompOpp (lexcmp a b).
Proof.
  induction a as [|x a IH]; intros [|y b]; try done. cbn. rewrite (Z.compare_antisym x y).
  by destruct (x ?= y); cbn.
Qed.

Lemma lexcmp_trans a : ∀ b c, lexcmp a b = Lt → lexcmp b c = Lt → lexcmp a c = Lt.
Proof.
  induction a as [|x a IH]; intros [|y b] [|z c]; try done. cbn.
  destruct (Z.compare_spec x y), (Z.compare_spec y z), (Z.compare_spec x z); try done; try lia. apply IH.
Qed.

Lemma memcmp_lex s1 : ∀ s2 n, (length s1 ≤ n)%nat ∨ (length s2 ≤ n)%nat → n = Nat.min (length s1) (length s2) →
  (if memcmp s1 s2 n =? 0
   then lexcmp s1 s2 = (Nat.compare (length s1) (length s2))
   else lexcmp s1 s2 = (if memcmp s1 s2 n <? 0 then Lt else Gt)).
Proof.
  induction s1 as [|x s1 IH]; intros [|y s2] [|n] Hor Hn; try done; cbn in *; try lia.
  destruct (Z.compare_spec x y) as [->|Hlt|Hgt].
  - rewrite Z.ltb_irrefl. apply IH; lia.
  - by rewrite (proj2 (Z.ltb_lt x y)).
  - rewrite (proj2 (Z.ltb_ge x y)) by lia. by rewrite (proj2 (Z.ltb_lt y x)).
Qed.

(** [sdscmp] is the lexicographic order. *)
Lemma sdscmp_lex s1 s2 :
  lexcmp s1 s2 = (if sdscmp s1 s2 <? 0 then Lt else if sdscmp s1 s2 =? 0 then Eq else Gt).
Proof.
  unfold sdscmp. set (n := if (length s1 <? length s2)%nat then length s1 else length s2).
  assert (Hn : n = Nat.min (length s1) (length s2)).
  { unfold n. destruct (Nat.ltb_spec (length s1) (length s2)); lia. }
  pose proof (memcmp_lex s1 s2 n) as Hm. destruct (Z.eqb_spec (memcmp s1 s2 n) 0) as [E|E].
  - rewrite Hm by lia. destruct (Nat.ltb_spec (length s2) (length s1)), (Nat.ltb_spec (length s1) (length s2)),
      (Nat.compare_spec (length s1) (length s2)); try lia; done.
  - rewrite Hm by lia. rewrite (proj2 (Z.eqb_neq _ _) E). by destruct (_ <? 0).
Qed.

(** A double that is not a NaN, as a list of three integers. *)
Definition enc_score (x : spec_float) : list Z :=
  match x with
  | S754_infinity true => [-2; 0; 0]
  | S754_finite true m e => [-1; - e; Z.neg m]
  | S754_zero _ => [0; 0; 0]
  | S754_finite false m e => [1; e; Z.pos m]
  | S754_infinity false => [2; 0; 0]
  | S754_nan => [3; 0; 0]
  end.

Lemma SFcompare_enc x y :
  isnan x = false → isnan y = false → SFcompare x y = Some (lexcmp (enc_score x) (enc_score y)).
Proof.
  destruct x as [s|s| |s m e], y as [s'|s'| |s' m' e']; try done; intros _ _; destruct s; try done; destruct s'; try done; cbn.
  - rewrite Z.compare_opp. change (Pos.compare_cont Eq m m') with (Pos.compare m m').
    rewrite (Z.compare_antisym e e').
    by destruct (e ?= e'), (m ?= m')%positive.
  - change (Pos.compare_cont Eq m m') with (Pos.compare m m'). by destruct (e ?= e'), (m ?= m')%positive.
Qed.

(** ** Items *)

Record item := Item { it_ptr : ptr; it_score : spec_float; it_ele : sds; it_height : nat }.

Definition key (score : spec_float) (ele : sds) : list Z := enc_score score ++ ele.
Definition it_key (it : item) : list Z := key (it_score it) (it_ele it).
Definition it_lt (a b : item) : Prop := lexcmp (it_key a) (it_key b) = Lt.

Lemma length_enc x : length (enc_score x) = 3%nat.
Proof. by destruct x as [[]|[]| |[]]. Qed.

Lemma lexcmp_app a : ∀ b c d, length a = length b →
  lexcmp (a ++ c) (b ++ d) = match lexcmp a b with Eq => lexcmp c d | r => r end.
Proof.
  induction a as [|x a IH]; intros [|y b] c d Hl; try done. cbn. destruct (x ?= y); [|done..].
  apply IH. by injection Hl.
Qed.

(** The tests of the search, in terms of this order. *)
Lemma node_cmp_key test score ele n rank e :
  zn_ele n = Some e → isnan (zn_score n) = false → isnan score = false →
  (∀ c, test c = (if c <? 0 then true else if c =? 0 then test 0 else test 1)) → test 1 = false →
  node_cmp test score ele n rank =
    match lexcmp (key (zn_score n) e) (key score ele) with Lt => true | Eq => test 0 | Gt => false end.
Proof.
  intros He Hn Hs Htest H1. unfold node_cmp, key, SFltb, SFeqb. rewrite SFcompare_enc, He by done.
  rewrite lexcmp_app by (by rewrite !length_enc). destruct (lexcmp _ _); [|done..]. cbn.
  rewrite sdscmp_lex, Htest. destruct (sdscmp e ele <? 0), (sdscmp e ele =? 0); try done.
Qed.

Lemma node_lt_key score ele n rank e :
  zn_ele n = Some e → isnan (zn_score n) = false → isnan score = false →
  node_lt score ele n rank = bool_decide (lexcmp (key (zn_score n) e) (key score ele) = Lt).
Proof.
  intros. unfold node_lt. rewrite (node_cmp_key _ _ _ _ _ e); [|done..| |done].
  - by destruct (lexcmp _ _).
  - intros c. destruct (Z.ltb_spec c 0), (Z.eqb_spec c 0); done.
Qed.

Lemma node_le_key score ele n rank e :
  zn_ele n = Some e → isnan (zn_score n) = false → isnan score = false →
  node_le score ele n rank = bool_decide (lexcmp (key (zn_score n) e) (key score ele) ≠ Gt).
Proof.
  intros. unfold node_le. rewrite (node_cmp_key _ _ _ _ _ e); [|done..| |done].
  - by destruct (lexcmp _ _).
  - intros c. destruct (Z.ltb_spec c 0), (Z.eqb_spec c 0), (Z.leb_spec c 0); try done; lia.
Qed.

Lemma node_eq_key score ele n e :
  zn_ele n = Some e → isnan (zn_score n) = false → isnan score = false →
  node_eq score ele n = bool_decide (lexcmp (key (zn_score n) e) (key score ele) = Eq).
Proof.
  intros He Hn Hs. unfold node_eq, key, SFeqb. rewrite SFcompare_enc, He by done.
  rewrite lexcmp_app by (by rewrite !length_enc). destruct (lexcmp _ _); [|done..]. cbn.
  rewrite sdscmp_lex. by destruct (Z.ltb_spec (sdscmp e ele) 0), (Z.eqb_spec (sdscmp e ele) 0); try lia.
Qed.

(** ** Forward pointers and spans *)

(** The first item above level [i], and how far it is; the number of items
    when there is none. *)
Fixpoint fwd (i : nat) (l : list item) : option ptr * Z :=
  match l with
  | [] => (None, 0)
  | it :: l =>
      if (i <? it_height it)%nat then (Some (it_ptr it), 1)
      else let '(f, s) := fwd i l in (f, s + 1)
  end.
Definition above (i : nat) (l : list item) : bool := existsb (λ it, (i <? it_height it)%nat) l.

Lemma fwd_app i p q :
  fwd i (p ++ q) = if above i p then fwd i p else ((fwd i q).1, zlen p + (fwd i q).2).
Proof.
  induction p as [|it p IH]; cbn [app fwd above existsb length].
  - by destruct (fwd i q).
  - destruct (i <? it_height it)%nat; cbn [orb]; [done|]. fold (above i p). rewrite IH.
    destruct (above i p); [done|]. f_equal. lia.
Qed.

Lemma fwd_none i l : above i l = false → fwd i l = (None, zlen l).
Proof. intros Ha. rewrite <- (app_nil_r l) at 1. rewrite fwd_app, Ha. cbn. f_equal. lia. Qed.

Lemma above_app i p q : above i (p ++ q) = above i p || above i q.
Proof. apply existsb_app. Qed.

Lemma above_first i l :
  above i l = true →
  ∃ p it q, l = p ++ it :: q ∧ above i p = false ∧ (i < it_height it)%nat.
Proof.
  induction l as [|it l IH]; [done|]. cbn [above existsb]. destruct (Nat.ltb_spec i (it_height it)).
  - intros _. by exists [], it, l.
  - intros (p & it' & q & -> & Hp & Hh)%IH. exists (it :: p), it', q. split_and!; [done| |done].
    cbn [above existsb]. rewrite (proj2 (Nat.ltb_ge _ _)) by lia. done.
Qed.

Lemma above_false i l : above i l = false ↔ Forall (λ it, (it_height it ≤ i)%nat) l.
Proof.
  unfold above. induction l as [|it l IH]; [by split|]. cbn [existsb]. rewrite orb_false_iff, Forall_cons, IH.
  by rewrite Nat.ltb_ge.
Qed.

Lemma fwd_first i p it q :
  above i p = false → (i < it_height it)%nat → fwd i (p ++ it :: q) = (Some (it_ptr it), zlen p + 1).
Proof. intros Hp Hh. rewrite fwd_app, Hp. cbn [fwd]. by rewrite (proj2 (Nat.ltb_lt _ _) Hh). Qed.

Lemma fwd_span i l : 0 ≤ (fwd i l).2 ≤ zlen l.
Proof.
  induction l as [|it l IH]; cbn [fwd length]; [done|]. destruct (i <? it_height it)%nat; [cbn; lia|].
  destruct (fwd i l) as [f s]. cbn in *. lia.
Qed.

(** The items up to the last one above level [i]. *)
Fixpoint cut (i : nat) (l : list item) : list item :=
  match l with
  | [] => []
  | it :: l => if above i (it :: l) then it :: cut i l else []
  end.

Lemma cut_nil i l : above i l = false → cut i l = [].
Proof. destruct l; [done|]. intros Ha. cbn [cut]. by rewrite Ha. Qed.

Lemma cut_app i p q : above i q = true → cut i (p ++ q) = p ++ cut i q.
Proof.
  intros Hq. induction p as [|it p IH]; [done|]. cbn [app cut].
  change (it :: p ++ q) with ((it :: p) ++ q). rewrite above_app, Hq, orb_true_r. by rewrite IH.
Qed.

Lemma cut_last i p it q :
  (i < it_height it)%nat → above i q = false → cut i (p ++ it :: q) = p ++ [it].
Proof.
  intros Hh Hq. rewrite cut_app; cbn [cut above existsb]; rewrite (proj2 (Nat.ltb_lt _ _) Hh); [|done].
  cbn [orb]. by rewrite cut_nil.
Qed.

(** The pointer and the height of the last item, or of the header. *)
Definition last_ptr (header : ptr) (l : list item) : ptr :=
  match last l with Some it => it_ptr it | None => header end.
Definition top (level : nat) (l : list item) : nat :=
  match last l with Some it => it_height it | None => level end.
Definition prev_ptr (l : list item) : option ptr := it_ptr <$> last l.

(** [cut i l] is the prefix of [l] that ends above level [i]. *)
Lemma cut_spec i level l :
  (i < level)%nat →
  ∃ r, l = cut i l ++ r ∧ above i r = false ∧ (i < top level (cut i l))%nat.
Proof.
  intros Hi. induction l as [|it l IH] using rev_ind.
  { by exists []. }
  destruct (Nat.ltb_spec i (it_height it)) as [Hh|Hh].
  - exists []. rewrite cut_last by done. rewrite app_nil_r. split_and!; [done|done|].
    unfold top. by rewrite last_snoc.
  - destruct IH as (r & Heq & Hr & Ht).
    assert (Hsnoc : above i (r ++ [it]) = false).
    { rewrite above_app, Hr. cbn [above existsb]. by rewrite (proj2 (Nat.ltb_ge _ _)). }
    assert (Hcut : cut i (l ++ [it]) = cut i l).
    { destruct (above i l) eqn:Ha.
      - apply above_first in Ha as Hx. destruct Hx as (p0 & it0 & q0 & _).
        destruct (last (cut i l)) as [z|] eqn:Hlast.
        + apply last_Some in Hlast as [p Hp]. rewrite Hp in *.
          assert (Hz : (i < it_height z)%nat) by (unfold top in Ht; by rewrite last_snoc in Ht).
          rewrite Heq, <- !app_assoc. cbn [app]. apply cut_last; [done|].
          rewrite above_app, Hr. cbn [above existsb]. by rewrite (proj2 (Nat.ltb_ge _ _)).
        + apply last_None in Hlast. rewrite Hlast in Heq. cbn [app] in Heq. subst r. congruence.
      - rewrite (cut_nil i l Ha). apply cut_nil. rewrite above_app, Ha. cbn [above existsb orb].
        by rewrite (proj2 (Nat.ltb_ge _ _)). }
    rewrite Hcut. exists (r ++ [it]). split_and!; [|done|done]. rewrite app_assoc. by rewrite <- Heq.
Qed.

Lemma cut_unique i level p r :
  above i r = false → (i < top level p)%nat → cut i (p ++ r) = p.
Proof.
  intros Hr Ht. destruct p as [|it p _] using rev_ind; [by apply cut_nil|].
  unfold top in Ht. rewrite last_snoc in Ht. rewrite <- app_assoc. cbn [app]. by apply cut_last.
Qed.

(** ** Looking at the heap *)

(** All of a node but its levels. *)
Definition shape (h : heap) (p : ptr) : option (option sds * spec_float * option ptr * nat) :=
  n ← h !! p; Some (zn_ele n, zn_score n, zn_backward n, length (zn_level n)).

Lemma shape_node h p e s b n :
  shape h p = Some (e, s, b, n) →
  ∃ nd, h !! p = Some nd ∧ zn_ele nd = e ∧ zn_score nd = s ∧ zn_backward nd = b ∧ length (zn_level nd) = n.
Proof. unfold shape. destruct (h !! p) as [nd|]; [|done]. cbn. intros [= <- <- <- <-]. by exists nd. Qed.

Lemma shape_some (h : heap) p : is_Some (h !! p) ↔ is_Some (shape h p).
Proof. unfold shape. destruct (h !! p); cbn; split; intros []; try done; by eexists. Qed.

Lemma get_level_shape h p i v : get_level h p i = Some v → ∃ e s b n, shape h p = Some (e, s, b, n) ∧ (i < n)%nat.
Proof.
  unfold get_level, shape. destruct (h !! p) as [nd|]; [|done]. cbn. intros Hi%lookup_lt_Some. by do 4 eexists.
Qed.

Lemma set_level_spec h p i v0 v :
  get_level h p i = Some v0 →
  ∃ h', set_level h p i v = Some h' ∧ (∀ q, shape h' q = shape h q) ∧
    ∀ q j, get_level h' q j = if decide (q = p ∧ j = i) then Some v else get_level h q j.
Proof.
  unfold get_level, set_level, shape. destruct (h !! p) as [nd|] eqn:Hp; [|done]. cbn.
  intros Hi%lookup_lt_Some. rewrite decide_True by done. eexists. split; [done|]. split.
  - intros q. destruct (decide (q = p)) as [->|].
    + rewrite lookup_insert_eq, Hp. cbn. by rewrite length_insert.
    + by rewrite lookup_insert_ne by done.
  - intros q j. destruct (decide (q = p)) as [->|].
    + rewrite lookup_insert_eq, Hp. cbn. case_decide as Hd.
      * destruct Hd as [_ ->]. by apply list_lookup_insert_eq.
      * apply list_lookup_insert_ne. naive_solver.
    + rewrite lookup_insert_ne by done. rewrite decide_False by naive_solver. done.
Qed.

Lemma set_backward_spec h p e s b0 n b :
  shape h p = Some (e, s, b0, n) →
  ∃ h', set_backward h p b = Some h' ∧ (∀ q j, get_level h' q j = get_level h q j) ∧
    ∀ q, shape h' q = if decide (q = p) then Some (e, s, b, n) else shape h q.
Proof.
  intros (nd & Hp & <- & <- & <- & <-)%shape_node. unfold set_backward, get_level, shape. rewrite Hp. cbn.
  eexists. split; [done|]. split.
  - intros q j. destruct (decide (q = p)) as [->|].
    + by rewrite lookup_insert_eq, Hp.
    + by rewrite lookup_insert_ne by done.
  - intros q. case_decide as Hq; [subst q; by rewrite lookup_insert_eq|]. by rewrite lookup_insert_ne by done.
Qed.

(** ** The invariant *)

(** The nodes, the levels below [level] of the header included. *)
Record nodes_ok (h : heap) (header : ptr) (level : nat) (l : list item) : Prop := {
  no_header : ∃ s b, shape h header = Some (None, s, b, ZSKIPLIST_MAXLEVEL);
  no_shape : ∀ p it q, l = p ++ it :: q →
    shape h (it_ptr it) = Some (Some (it_ele it), it_score it, prev_ptr p, it_height it);
  no_level : ∀ p q i, l = p ++ q → (i < top level p)%nat → get_level h (last_ptr header p) i = Some (fwd i q);
  no_rest : ∀ i, (level ≤ i < ZSKIPLIST_MAXLEVEL)%nat → ∃ s, get_level h header i = Some (None, s);
  no_nodup : NoDup (header :: (it_ptr <$> l));
  no_heights : Forall (λ it, (1 ≤ it_height it ≤ level)%nat) l;
  no_max : (1 ≤ level ≤ ZSKIPLIST_MAXLEVEL)%nat;
}.

Definition it_ok (it : item) : Prop := isnan (it_score it) = false.

Record zsl_wf (zsl : zskiplist) (l : list item) : Prop := {
  wf_nodes : nodes_ok (zsl_heap zsl) (zsl_header zsl) (zsl_level zsl) l;
  wf_sorted : StronglySorted it_lt l;
  wf_scores : Forall it_ok l;
  wf_tail : zsl_tail zsl = prev_ptr l;
  wf_length : zsl_length zsl = zlen l;
  wf_small : zlen l < 2 ^ 63;
}.

(** No level is empty but the lowest, and every node is in the list. *)
Record zsl_ok (zsl : zskiplist) (l : list item) : Prop := {
  ok_wf : zsl_wf zsl l;
  ok_level : (1 < zsl_level zsl)%nat → above (pred (zsl_level zsl)) l = true;
  ok_alloc : ∀ p, is_Some (zsl_heap zsl !! p) ↔ p = zsl_header zsl ∨ p ∈ it_ptr <$> l;
}.

Lemma last_ptr_in header l : last_ptr header l = header ∨ last_ptr header l ∈ it_ptr <$> l.
Proof.
  destruct l as [|it l _] using rev_ind; [by left|right]. unfold last_ptr. rewrite last_snoc, fmap_app.
  apply elem_of_app. right. by apply list_elem_of_singleton.
Qed.

(** Prefixes of the list are told apart by their last pointer. *)
Lemma last_ptr_lookup header p r : (header :: (it_ptr <$> p ++ r)) !! length p = Some (last_ptr header p).
Proof.
  destruct p as [|it p _] using rev_ind; [done|]. unfold last_ptr. rewrite last_snoc, length_app.
  cbn [length]. replace (length p + 1)%nat with (S (length p)) by lia.
  rewrite lookup_cons, <- app_assoc, fmap_app, lookup_app_r by (by rewrite length_fmap).
  by rewrite length_fmap, Nat.sub_diag.
Qed.

Lemma last_ptr_inj header p r p' r' :
  NoDup (header :: (it_ptr <$> p ++ r)) → p ++ r = p' ++ r' → last_ptr header p = last_ptr header p' → p = p'.
Proof.
  intros Hnd Heq Hlast. pose proof (last_ptr_lookup header p r) as H1. pose proof (last_ptr_lookup header p' r') as H2.
  rewrite <- Heq, <- Hlast in H2. pose proof (NoDup_lookup _ _ _ _ Hnd H1 H2) as Hlen.
  apply app_inj_1 in Heq; [by destruct Heq|done].
Qed.

(** ** Searching *)

(** [go] holds of the nodes of [a], at their ranks, and not of those after. *)
Definition goes (h : heap) (go : zskiplistNode → Z → bool) (a b : list item) : Prop :=
  ∀ p it q n, a ++ b = p ++ it :: q → h !! it_ptr it = Some n →
    go n (zlen p + 1) = bool_decide (length p < length a)%nat.

Lemma top_snoc level p it : top level (p ++ [it]) = it_height it.
Proof. unfold top. by rewrite last_snoc. Qed.
Lemma last_ptr_snoc header p it : last_ptr header (p ++ [it]) = it_ptr it.
Proof. unfold last_ptr. by rewrite last_snoc. Qed.

Lemma walk_spec h header level go b i fuel : ∀ p m,
  nodes_ok h header level ((p ++ m) ++ b) → goes h go (p ++ m) b → zlen ((p ++ m) ++ b) < 2 ^ 63 →
  (i < top level p)%nat → (length m < fuel)%nat →
  walk fuel h go i (last_ptr header p) (zlen p) =
    Some (last_ptr header (p ++ cut i m), zlen (p ++ cut i m)).
Proof.
  induction fuel as [|fuel IH]; intros p m Hno Hgo Hsm Hi Hf; [lia|]. cbn [walk].
  rewrite (no_level _ _ _ _ Hno p (m ++ b) i) by (by rewrite ?app_assoc). cbn [mbind option_bind].
  destruct (above i (m ++ b)) eqn:Ha.
  2:{ rewrite fwd_none by done. rewrite above_app in Ha. apply orb_false_iff in Ha as [Ha _].
      by rewrite cut_nil, app_nil_r. }
  apply above_first in Ha as (s & it & r & Heq & Hs & Hh). rewrite Heq, fwd_first by done.
  assert (Hl : (p ++ m) ++ b = (p ++ s) ++ it :: r) by (by rewrite <- !app_assoc, Heq).
  pose proof (no_shape _ _ _ _ Hno _ _ _ Hl) as Hsh. apply shape_node in Hsh as (n & Hn & _).
  rewrite Hn. cbn [mbind option_bind].
  assert (Hlen : zlen ((p ++ m) ++ b) = zlen p + zlen s + 1 + zlen r) by (rewrite Hl; llia).
  rewrite wrapu_small by lia.
  replace (zlen p + (zlen s + 1)) with (zlen (p ++ s) + 1) by llia. rewrite (Hgo _ _ _ _ Hl Hn).
  assert (Hend : (length m ≤ length s)%nat → above i m = false →
    (if bool_decide (length (p ++ s) < length (p ++ m))%nat
     then walk fuel h go i (it_ptr it) (zlen (p ++ s) + 1) else Some (last_ptr header p, zlen p)) =
    Some (last_ptr header (p ++ cut i m), zlen (p ++ cut i m))).
  { intros Hle Hm. rewrite bool_decide_eq_false_2 by llia. by rewrite cut_nil, app_nil_r. }
  apply app_eq_inv in Heq as [(k & Hm & Hk)|(k & Hk & Hb)].
  - destruct k as [|it' m'].
    { rewrite app_nil_r in Hm. subst m. apply Hend; [lia|done]. }
    cbn [app] in Hk. injection Hk as <- Hr. subst m.
    rewrite bool_decide_eq_true_2 by llia.
    assert (Hpp : p ++ s ++ it :: m' = (p ++ s ++ [it]) ++ m') by (by rewrite <- !app_assoc).
    replace (it_ptr it) with (last_ptr header (p ++ s ++ [it])) by (by rewrite app_assoc, last_ptr_snoc).
    replace (zlen (p ++ s) + 1) with (zlen (p ++ s ++ [it])) by llia.
    rewrite (IH (p ++ s ++ [it]) m'); [| |by rewrite <- Hpp|by rewrite <- Hpp|by rewrite app_assoc, top_snoc|llia].
    + assert (Hcut : cut i (s ++ it :: m') = s ++ it :: cut i m').
      { rewrite cut_app; cbn [cut above existsb]; by rewrite (proj2 (Nat.ltb_lt _ _) Hh). }
      rewrite Hcut. by rewrite <- !app_assoc.
    + by rewrite <- Hpp.
  - apply Hend; [subst s; llia|]. subst s. rewrite above_app in Hs. by apply orb_false_iff in Hs as [? _].
Qed.

(** What the search leaves in [update[]] and [rank[]]. *)
Definition updates (header : ptr) (level : nat) (a : list item) : list (ptr * Z) :=
  (λ i, (last_ptr header (cut i a), zlen (cut i a))) <$> seq 0 level.

Lemma descend_spec h header level go a b fuel : ∀ lv p m,
  nodes_ok h header level (a ++ b) → goes h go a b → zlen (a ++ b) < 2 ^ 63 → (length a < fuel)%nat →
  a = p ++ m → (lv ≤ top level p)%nat → (lv ≤ level)%nat →
  descend fuel h go lv (last_ptr header p) (zlen p) = Some (updates header lv a).
Proof.
  induction lv as [|i IH]; intros p m Hno Hgo Hsm Hf -> Htop Hlv; [done|]. cbn [descend].
  rewrite (walk_spec h header level go b i fuel p m) by (try done; llia). cbn [mbind option_bind].
  destruct (cut_spec i level (p ++ m)) as (r & Heq & Hr & Ht); [lia|].
  assert (Hcut : cut i (p ++ m) = p ++ cut i m).
  { destruct (above i m) eqn:Ha; [by apply cut_app|]. rewrite (cut_nil i m Ha), app_nil_r.
    by apply (cut_unique i level). }
  rewrite Hcut in *. rewrite (IH (p ++ cut i m) r); [|done..|lia|lia]. cbn [mbind option_bind].
  f_equal. unfold updates. rewrite seq_S, fmap_app. cbn. by rewrite Hcut.
Qed.

Lemma zsl_search_spec zsl a b go :
  zsl_wf zsl (a ++ b) → goes (zsl_heap zsl) go a b →
  zsl_search zsl go = Some (updates (zsl_header zsl) (zsl_level zsl) a).
Proof.
  intros Hwf Hgo. pose proof (wf_nodes _ _ Hwf) as Hno. unfold zsl_search.
  pose proof (wf_small _ _ Hwf). pose proof (wf_length _ _ Hwf) as Hl.
  change (zsl_header zsl) with (last_ptr (zsl_header zsl) []) at 1. change 0 with (zlen (@nil item)).
  apply (descend_spec _ _ (zsl_level zsl) _ a b _ _ [] a); try done.
  unfold zsl_fuel. rewrite Hl. llia.
Qed.

Lemma updates_lookup header level a i :
  (i < level)%nat → updates header level a !! i = Some (last_ptr header (cut i a), zlen (cut i a)).
Proof. intros Hi. unfold updates. rewrite list_lookup_fmap, lookup_seq_lt by done. done. Qed.

(** Tests that do not look at the rank. *)
Lemma goes_pred h header level a b go (f : item → bool) :
  nodes_ok h header level (a ++ b) →
  (∀ it n r, it ∈ a ++ b → zn_ele n = Some (it_ele it) → zn_score n = it_score it → go n r = f it) →
  Forall (λ it, f it = true) a → Forall (λ it, f it = false) b → goes h go a b.
Proof.
  intros Hno Hf Ha Hb p it q n Heq Hn. pose proof (no_shape _ _ _ _ Hno p it q Heq) as Hsh.
  apply shape_node in Hsh as (n' & Hn' & He & Hs & _). assert (n' = n) as -> by congruence.
  rewrite (Hf it) by (try done; rewrite Heq; set_solver).
  assert (Hit : (a ++ b) !! length p = Some it) by (rewrite Heq; by apply list_lookup_middle).
  case_bool_decide as Hlt.
  - rewrite lookup_app_l in Hit by done. exact (Forall_lookup_1 _ _ _ _ Ha Hit).
  - rewrite lookup_app_r in Hit by lia. exact (Forall_lookup_1 _ _ _ _ Hb Hit).
Qed.

(** A test that only a lower part of the order passes splits a sorted list. *)
Lemma split_sorted (f : item → bool) l :
  StronglySorted it_lt l → (∀ x y, x ∈ l → y ∈ l → it_lt x y → f y = true → f x = true) →
  ∃ a b, l = a ++ b ∧ Forall (λ it, f it = true) a ∧ Forall (λ it, f it = false) b.
Proof.
  intros Hs Hmono. induction Hs as [|it l Hs IH Hall].
  { by exists [], []. }
  destruct (f it) eqn:Hf.
  - destruct IH as (a & b & -> & Ha & Hb); [by intros x y ? ?; apply Hmono; right|]. exists (it :: a), b. split_and!; [done|by constructor|done].
  - exists [], (it :: l). split_and!; [done|constructor|]. constructor; [done|].
    apply Forall_forall. intros y Hy. destruct (f y) eqn:Hy'; [|done]. rewrite Forall_forall in Hall.
    rewrite (Hmono it y) in Hf; [done|by left|by right|by apply Hall|done].
Qed.

(** ** The loops over the levels *)

Lemma last_ptr_header header p r :
  NoDup (header :: (it_ptr <$> p ++ r)) → last_ptr header p = header → p = [].
Proof. intros Hnd Heq. by apply (last_ptr_inj header p r [] (p ++ r)). Qed.

Lemma raise_spec n : ∀ h header level l,
  nodes_ok h header level l → (level + n ≤ ZSKIPLIST_MAXLEVEL)%nat →
  ∃ h', raise_levels n level h header (zlen l) = Some h' ∧ nodes_ok h' header (level + n) l ∧
    ∀ q, shape h' q = shape h q.
Proof.
  induction n as [|n IH]; intros h header level l Hno Hle.
  { exists h. split_and!; [done|by rewrite Nat.add_0_r|done]. }
  cbn [raise_levels]. destruct (no_rest _ _ _ _ Hno level) as [s Hs]; [lia|]. rewrite Hs. cbn [mbind option_bind].
  destruct (set_level_spec h header level _ (None, zlen l) Hs) as (h1 & -> & Hsh & Hg). cbn [mbind option_bind].
  replace (level + S n)%nat with (S level + n)%nat by lia. destruct (IH h1 header (S level) l) as (h2 & Hr & Hno2 & Hsh2).
  - pose proof Hno as [H1 H2 H3 H4 H5 H6 H7]. split.
    + destruct H1 as (s' & b & ?). exists s', b. by rewrite Hsh.
    + intros p it q Heq. rewrite Hsh. by apply H2 with q.
    + intros p q i Heq Hi. rewrite Hg. case_decide as Hd.
      * destruct Hd as [Hp ->]. assert (p = []) as -> by (apply (last_ptr_header header p q); [by rewrite <- Heq|done]).
        cbn [app] in Heq. subst q. rewrite fwd_none; [done|]. apply above_false.
        eapply Forall_impl; [exact H6|]. cbn. lia.
      * apply H3; [done|]. unfold top in *. destruct (last p) eqn:Hlast; [done|].
        apply last_None in Hlast as ->. destruct (decide (i = level)); [naive_solver|lia].
    + intros i Hi. rewrite Hg, decide_False by lia. apply H4. lia.
    + done.
    + eapply Forall_impl; [exact H6|]. cbn. lia.
    + lia.
  - lia.
  - exists h2. split_and!; [done|done|]. intros q. by rewrite Hsh2.
Qed.

(** One turn of a loop that writes level [j] of [u j]. *)
Lemma range_step {A} (i n j : nat) (q : ptr) (u : nat → ptr) (v vi w : A) :
  (if decide ((S i ≤ j < S i + n)%nat ∧ q = u j) then v else if decide (q = u i ∧ j = i) then vi else w) =
  (if decide ((i ≤ j < i + S n)%nat ∧ q = u j) then if decide (j = i) then vi else v else w).
Proof.
  destruct (decide (j = i)) as [->|].
  - rewrite (decide_False (P := ((S i ≤ i < S i + n)%nat ∧ q = u i))) by lia.
    destruct (decide (q = u i)) as [->|]; [by rewrite !decide_True by lia|by rewrite !decide_False by tauto].
  - rewrite (decide_False (P := (q = u i ∧ j = i))) by tauto.
    destruct (decide (q = u j)) as [->|]; [|by rewrite !decide_False by tauto].
    destruct (decide (S i ≤ j < S i + n)%nat).
    + by rewrite !decide_True by (split; [lia|done]).
    + by rewrite !decide_False by (intros [? _]; lia).
Qed.

Section loops.
Context (update : list (ptr * Z)) (u : nat → ptr) (r : nat → Z) (x : ptr).

Lemma link_spec rank0 (f : nat → option ptr) (s : nat → Z) n : ∀ i h,
  (∀ j, (i ≤ j < i + n)%nat → update !! j = Some (u j, r j) ∧ get_level h (u j) j = Some (f j, s j) ∧
    is_Some (get_level h x j) ∧ u j ≠ x) →
  ∃ h', link_levels n i h x update rank0 = Some h' ∧ (∀ q, shape h' q = shape h q) ∧
    ∀ q j, get_level h' q j =
      if decide (i ≤ j < i + n)%nat then
        if decide (q = x) then Some (f j, u64 (s j - u64 (rank0 - r j)))
        else if decide (q = u j) then Some (Some x, u64 (u64 (rank0 - r j) + 1)) else get_level h q j
      else get_level h q j.
Proof.
  induction n as [|n IH]; intros i h Hpre.
  { exists h. split_and!; [done|done|]. intros q j. rewrite decide_False by lia. done. }
  cbn [link_levels]. destruct (Hpre i) as (-> & Hu & [v Hx] & Hne); [lia|]. cbn [mbind option_bind]. rewrite Hu.
  cbn [mbind option_bind].
  destruct (set_level_spec h x i v (f i, u64 (s i - u64 (rank0 - r i))) Hx) as (h1 & -> & Hsh1 & Hg1). cbn [mbind option_bind].
  destruct (set_level_spec h1 (u i) i (f i, s i) (Some x, u64 (u64 (rank0 - r i) + 1))) as (h2 & -> & Hsh2 & Hg2).
  { rewrite Hg1, decide_False by naive_solver. done. }
  cbn [mbind option_bind]. destruct (IH (S i) h2) as (h3 & -> & Hsh3 & Hg3).
  - intros j Hj. destruct (Hpre j) as (H1 & H2 & [w H3] & H4); [lia|].
    rewrite !Hg2, !Hg1. rewrite !decide_False by lia. by eauto.
  - exists h3. split_and!; [done|intros q; by rewrite Hsh3, Hsh2, Hsh1|]. intros q j. rewrite Hg3, Hg2, Hg1.
    destruct (decide (j = i)) as [->|Hji].
    + rewrite (decide_False (P := (S i ≤ i < _)%nat)) by lia. rewrite (decide_True (P := (i ≤ i < _)%nat)) by lia.
      destruct (decide (q = x)) as [->|].
      * rewrite decide_False by naive_solver. by rewrite decide_True.
      * destruct (decide (q = u i)); [by rewrite decide_True|]. by rewrite !decide_False by naive_solver.
    + rewrite (decide_False (P := (q = u i ∧ _))) by naive_solver.
      rewrite (decide_False (P := (q = x ∧ _))) by naive_solver.
      destruct (decide (S i ≤ j < S i + n)%nat).
      * by rewrite (decide_True (P := (i ≤ j < i + S n)%nat)) by lia.
      * by rewrite (decide_False (P := (i ≤ j < i + S n)%nat)) by lia.
Qed.

Lemma incr_spec (f : nat → option ptr) (s : nat → Z) n : ∀ i h,
  (∀ j, (i ≤ j < i + n)%nat → update !! j = Some (u j, r j) ∧ get_level h (u j) j = Some (f j, s j)) →
  ∃ h', incr_spans n i h update = Some h' ∧ (∀ q, shape h' q = shape h q) ∧
    ∀ q j, get_level h' q j =
      if decide ((i ≤ j < i + n)%nat ∧ q = u j) then Some (f j, u64 (s j + 1)) else get_level h q j.
Proof.
  induction n as [|n IH]; intros i h Hpre.
  { exists h. split_and!; [done|done|]. intros q j. rewrite decide_False by lia. done. }
  cbn [incr_spans]. destruct (Hpre i) as (-> & Hu); [lia|]. cbn [mbind option_bind]. rewrite Hu. cbn [mbind option_bind].
  destruct (set_level_spec h (u i) i _ (f i, u64 (s i + 1)) Hu) as (h1 & -> & Hsh1 & Hg1). cbn [mbind option_bind].
  destruct (IH (S i) h1) as (h2 & -> & Hsh2 & Hg2).
  - intros j Hj. rewrite Hg1, decide_False by lia. apply Hpre. lia.
  - exists h2. split_and!; [done|intros q; by rewrite Hsh2|]. intros q j. rewrite Hg2, Hg1.
    rewrite (range_step i n j q u). case_decide; [|done]. by destruct (decide (j = i)) as [->|].
Qed.

Lemma unlink_loop_spec (f fx : nat → option ptr) (s sx : nat → Z) n : ∀ i h,
  (∀ j, (i ≤ j < i + n)%nat → update !! j = Some (u j, r j) ∧ get_level h (u j) j = Some (f j, s j) ∧ u j ≠ x ∧
    (f j = Some x → get_level h x j = Some (fx j, sx j))) →
  ∃ h', unlink_levels n i h x update = Some h' ∧ (∀ q, shape h' q = shape h q) ∧
    ∀ q j, get_level h' q j =
      if decide ((i ≤ j < i + n)%nat ∧ q = u j)
      then Some (if decide (f j = Some x) then (fx j, u64 (s j + (sx j - 1))) else (f j, u64 (s j - 1)))
      else get_level h q j.
Proof.
  induction n as [|n IH]; intros i h Hpre.
  { exists h. split_and!; [done|done|]. intros q j. rewrite decide_False by lia. done. }
  cbn [unlink_levels]. destruct (Hpre i) as (-> & Hu & Hne & Hx); [lia|]. cbn [mbind option_bind]. rewrite Hu. cbn [mbind option_bind].
  set (v := if decide (f i = Some x) then (fx i, u64 (s i + (sx i - 1))) else (f i, u64 (s i - 1))).
  destruct (set_level_spec h (u i) i _ v Hu) as (h1 & Hset & Hsh1 & Hg1).
  assert ((if decide (f i = Some x) then '(xforward, xspan) ← get_level h x i;
             set_level h (u i) i (xforward, u64 (s i + (xspan - 1)))
           else set_level h (u i) i (f i, u64 (s i - 1))) = Some h1) as ->.
  { unfold v in Hset. case_decide; [by rewrite Hx|done]. }
  cbn [mbind option_bind]. destruct (IH (S i) h1) as (h2 & -> & Hsh2 & Hg2).
  - intros j Hj. rewrite !Hg1, !decide_False by lia. apply Hpre. lia.
  - exists h2. split_and!; [done|intros q; by rewrite Hsh2|]. intros q j. rewrite Hg2, Hg1. unfold v.
    rewrite (range_step i n j q u). destruct (decide ((i ≤ j < i + S n)%nat ∧ q = u j)); [|done].
    by destruct (decide (j = i)) as [->|].
Qed.
End loops.

(** ** Linking a node *)

(** What follows the node a search stops at. *)
Definition rest (i : nat) (a : list item) : list item := drop (length (cut i a)) a.

Lemma cut_rest i level a :
  (i < level)%nat → a = cut i a ++ rest i a ∧ above i (rest i a) = false ∧ (i < top level (cut i a))%nat.
Proof.
  intros Hi. destruct (cut_spec i level a Hi) as (r & Heq & Hr & Ht).
  assert (rest i a = r) as ->; [|done]. unfold rest. rewrite Heq at 2. by rewrite drop_app_length.
Qed.

Lemma cut_0 a : Forall (λ it, (1 ≤ it_height it)%nat) a → cut 0 a = a.
Proof.
  induction a as [|it a IH]; [done|]. intros [Hh Ha]%Forall_cons. cbn [cut above existsb].
  rewrite (proj2 (Nat.ltb_lt _ _)) by lia. cbn [orb]. by rewrite IH.
Qed.

(** A search stops at a prefix when no later node is above the level. *)
Lemma stops_at h header level p k b i :
  nodes_ok h header level ((p ++ k) ++ b) → (i < top level p)%nat → (i < level)%nat →
  last_ptr header p = last_ptr header (cut i (p ++ k)) ↔ above i k = false.
Proof.
  intros Hno Ht Hi. split.
  - intros Hptr. destruct (cut_rest i level (p ++ k) Hi) as (Heq & Ha & _).
    assert (p = cut i (p ++ k)) as Hp.
    { apply (last_ptr_inj header p (k ++ b) _ (rest i (p ++ k) ++ b)); [|by rewrite !app_assoc, <- Heq|done].
      rewrite app_assoc. apply (no_nodup _ _ _ _ Hno). }
    rewrite <- Hp in Heq. apply app_inv_head in Heq. by rewrite Heq.
  - intros Ha. by rewrite (cut_unique i level).
Qed.

(** Nodes after the searched part are not stopped at. *)
Lemma stops_before h header level a k b i :
  nodes_ok h header level (a ++ k ++ b) → k ≠ [] → last_ptr header (a ++ k) ≠ last_ptr header (cut i a).
Proof.
  intros Hno Hk Heq. destruct (cut_rest i (S i) a) as (Ha & _); [lia|].
  assert (a ++ k = cut i a) as Hc.
  { apply (last_ptr_inj header (a ++ k) b _ (rest i a ++ k ++ b)); [|by rewrite app_assoc, <- Ha, <- app_assoc|done].
    rewrite <- app_assoc. apply (no_nodup _ _ _ _ Hno). }
  apply (f_equal length) in Ha, Hc. rewrite length_app in Ha, Hc. destruct k; [done|]. cbn [length] in Hc. lia.
Qed.

Lemma top_level h header level l p q i :
  nodes_ok h header level l → l = p ++ q → (i < top level p)%nat → (i < level)%nat.
Proof.
  intros Hno -> Hi. unfold top in Hi. destruct (last p) as [it|] eqn:Hl; [|done].
  apply last_Some in Hl as [p' ->]. pose proof (no_heights _ _ _ _ Hno) as Hh.
  rewrite !Forall_app, Forall_singleton in Hh. lia.
Qed.

Lemma ptr_of_list h header level l p q :
  nodes_ok h header level l → l = p ++ q → is_Some (shape h (last_ptr header p)).
Proof.
  intros Hno ->. unfold last_ptr. destruct (last p) as [it|] eqn:Hl.
  - apply last_Some in Hl as [p' ->]. rewrite (no_shape _ _ _ _ Hno p' it q) by (by rewrite <- app_assoc). done.
  - destruct (no_header _ _ _ _ Hno) as (s & b & ->). done.
Qed.

(** A place in a list with a new item in the middle is before, at or after it. *)
Lemma mid_split {A} (a b p q : list A) it :
  a ++ it :: b = p ++ q → (∃ k, a = p ++ k ∧ q = k ++ it :: b) ∨ (∃ k, p = a ++ it :: k ∧ b = k ++ q).
Proof.
  intros [(k & -> & ->)|(k & -> & Hk)]%app_eq_inv; [by left; exists k|]. destruct k as [|it' k].
  - left. exists []. cbn [app] in Hk. by rewrite !app_nil_r.
  - cbn [app] in Hk. injection Hk as <- ->. right. by exists k.
Qed.

Section link.
Context (h : heap) (header : ptr) (level : nat) (a b : list item).
Context (Hno : nodes_ok h header level (a ++ b)) (Hsm : zlen (a ++ b) < 2 ^ 63).

(** The node at which the search stops at level [j], and its level there. *)
Definition stop_ptr (j : nat) : ptr := last_ptr header (cut j a).
Definition stop_fwd (j : nat) : option ptr := (fwd j (rest j a ++ b)).1.
Definition stop_span (j : nat) : Z := (fwd j (rest j a ++ b)).2.

Lemma stop_level j :
  (j < level)%nat →
  updates header level a !! j = Some (stop_ptr j, zlen (cut j a)) ∧
  get_level h (stop_ptr j) j = Some (stop_fwd j, stop_span j) ∧ is_Some (shape h (stop_ptr j)).
Proof.
  intros Hj. destruct (cut_rest j level a Hj) as (Heq & _ & Ht).
  assert (a ++ b = cut j a ++ rest j a ++ b) as Heq' by (by rewrite app_assoc, <- Heq).
  split_and!; [by apply updates_lookup| |by eapply ptr_of_list].
  unfold stop_ptr, stop_fwd, stop_span. rewrite (no_level _ _ _ _ Hno _ _ j Heq' Ht). by destruct (fwd _ _).
Qed.

Lemma stop_values j :
  (j < level)%nat →
  stop_fwd j = (fwd j b).1 ∧ stop_span j = zlen (rest j a) + (fwd j b).2 ∧
  zlen a - zlen (cut j a) = zlen (rest j a) ∧ 0 ≤ (fwd j b).2 ∧ zlen (rest j a) + (fwd j b).2 < 2 ^ 63.
Proof.
  intros Hj. destruct (cut_rest j level a Hj) as (Heq & Hab & _). unfold stop_fwd, stop_span.
  rewrite fwd_app, Hab. cbn [fst snd]. pose proof (fwd_span j b). apply (f_equal length) in Heq.
  rewrite length_app in Heq, Hsm. split_and!; [done|lia..].
Qed.

Context (x : ptr) (score : spec_float) (ele : sds) (lv : nat).
Context (Hlv : (1 ≤ lv ≤ level)%nat) (Hx : shape h x = None).

(** The levels that [zslInsert] writes. *)
Definition linked (q : ptr) (j : nat) : option (option ptr * Z) :=
  if decide (j < lv)%nat then
    if decide (q = x) then Some (stop_fwd j, u64 (stop_span j - u64 (zlen a - zlen (cut j a))))
    else if decide (q = stop_ptr j) then Some (Some x, u64 (u64 (zlen a - zlen (cut j a)) + 1)) else get_level h q j
  else if decide ((j < level)%nat ∧ q = stop_ptr j) then Some (stop_fwd j, u64 (stop_span j + 1))
  else get_level h q j.

Lemma list_not_new p q : a ++ b = p ++ q → last_ptr header p ≠ x.
Proof. intros Heq Hp. destruct (ptr_of_list _ _ _ _ p q Hno Heq) as [? Hsh]. congruence. Qed.

Lemma linked_before p k i :
  a = p ++ k → (i < top level p)%nat →
  linked (last_ptr header p) i = Some (fwd i (k ++ Item x score ele lv :: b)).
Proof.
  intros Ha Hi. assert (Heq : a ++ b = p ++ k ++ b) by (by rewrite Ha, app_assoc).
  assert (Hl : (i < level)%nat) by (by eapply top_level). pose proof (list_not_new p _ Heq) as Hpx.
  pose proof (no_level _ _ _ _ Hno p _ i Heq Hi) as Hold. rewrite fwd_app in Hold |- *.
  pose proof (stops_at h header level p k b i) as Hstop. rewrite <- Ha in Hstop.
  specialize (Hstop Hno Hi Hl). fold (stop_ptr i) in Hstop. unfold linked. rewrite (decide_False (P := (_ = x))) by done.
  destruct (above i k) eqn:Hk.
  { assert (last_ptr header p ≠ stop_ptr i) by (rewrite Hstop; done).
    rewrite !(decide_False (P := (_ = stop_ptr i))) by done.
    rewrite (decide_False (P := (_ ∧ _ = stop_ptr i))) by tauto. rewrite Hold. by case_decide. }
  assert (Hc : cut i a = p) by (rewrite Ha; by apply (cut_unique i level)).
  assert (Hr : rest i a = k) by (unfold rest; rewrite Hc, Ha; apply drop_app_length).
  assert (Hpu : last_ptr header p = stop_ptr i) by (by apply Hstop).
  destruct (stop_values i Hl) as (-> & -> & -> & H0 & Hb). rewrite Hr in *. cbn [fwd it_height it_ptr].
  destruct (Nat.ltb_spec i lv).
  - rewrite !decide_True by done. rewrite (wrapu_small 64 (zlen k)) by lia. by rewrite wrapu_small by lia.
  - rewrite decide_False by lia. rewrite decide_True by done. destruct (fwd i b) as [fb sb]. cbn [fst snd] in *.
    rewrite wrapu_small by lia. do 2 f_equal. lia.
Qed.

Lemma linked_new i : (i < lv)%nat → linked x i = Some (fwd i b).
Proof.
  intros Hi. unfold linked. rewrite !decide_True by done. destruct (stop_values i) as (-> & -> & -> & H0 & Hb); [lia|].
  destruct (fwd i b) as [fb sb]. cbn [fst snd] in *. rewrite (wrapu_small 64 (zlen _)) by lia.
  rewrite wrapu_small by lia. do 2 f_equal. lia.
Qed.

Lemma linked_after k z q i :
  b = (k ++ [z]) ++ q → (i < it_height z)%nat → linked (it_ptr z) i = Some (fwd i q).
Proof.
  intros Hb Hi. assert (Heq : a ++ b = (a ++ k ++ [z]) ++ q) by (by rewrite Hb, <- !app_assoc).
  assert (Hp : last_ptr header (a ++ k ++ [z]) = it_ptr z) by (by rewrite app_assoc, last_ptr_snoc).
  pose proof (list_not_new _ _ Heq) as Hzx. rewrite Hp in Hzx.
  assert (Hz : it_ptr z ≠ stop_ptr i).
  { rewrite <- Hp. apply (stops_before h header level a (k ++ [z]) q i); [|by destruct k].
    rewrite Hb in Hno. done. }
  unfold linked. rewrite !(decide_False (P := (_ = x))), !(decide_False (P := (_ = stop_ptr i))) by done.
  rewrite (decide_False (P := (_ ∧ _ = stop_ptr i))) by tauto.
  rewrite <- Hp, (no_level _ _ _ _ Hno _ q i Heq) by (by rewrite app_assoc, top_snoc). by case_decide.
Qed.

Lemma linked_ok p q i :
  a ++ Item x score ele lv :: b = p ++ q → (i < top level p)%nat →
  linked (last_ptr header p) i = Some (fwd i q).
Proof.
  intros [(k & Ha & ->)|(k & -> & Hk)]%mid_split Hi; [by apply linked_before|].
  destruct k as [|z k _] using rev_ind.
  - rewrite last_ptr_snoc, top_snoc in *. cbn [app] in Hk. subst q. by apply linked_new.
  - rewrite !app_comm_cons, !app_assoc, last_ptr_snoc, top_snoc in *. by apply (linked_after k).
Qed.

(** The two loops of [zslInsert] write these levels. *)
Lemma link_loops :
  let h1 := <[x := Node (Some ele) score None (replicate lv (None, 0))]> h in
  ∃ h2 h3, link_levels lv 0 h1 x (updates header level a) (zlen a) = Some h2 ∧
    incr_spans (level - lv) lv h2 (updates header level a) = Some h3 ∧ (∀ q, shape h3 q = shape h1 q) ∧
    ∀ q j, (q = x → (j < lv)%nat) → get_level h3 q j = linked q j.
Proof.
  intros h1. assert (Hg1 : ∀ q j, q ≠ x → get_level h1 q j = get_level h q j).
  { intros q j Hq. unfold get_level, h1. by rewrite lookup_insert_ne by done. }
  assert (Hne : ∀ j, (j < level)%nat → stop_ptr j ≠ x).
  { intros j Hj Heq. destruct (stop_level j Hj) as (_ & _ & [? Hsh]). congruence. }
  destruct (link_spec (updates header level a) stop_ptr (λ j, zlen (cut j a)) x (zlen a) stop_fwd stop_span lv 0 h1)
    as (h2 & Hl2 & Hsh2 & Hg2).
  { intros j Hj. destruct (stop_level j) as (? & ? & _); [lia|]. assert (stop_ptr j ≠ x) by (apply Hne; lia).
    split_and!; [done|by rewrite Hg1| |done]. unfold get_level, h1. rewrite lookup_insert_eq. cbn.
    apply lookup_lt_is_Some. rewrite length_replicate. lia. }
  destruct (incr_spec (updates header level a) stop_ptr (λ j, zlen (cut j a)) stop_fwd stop_span (level - lv) lv h2)
    as (h3 & Hl3 & Hsh3 & Hg3).
  { intros j Hj. destruct (stop_level j) as (? & ? & _); [lia|]. split; [done|]. rewrite Hg2, decide_False by lia.
    rewrite Hg1; [done|]. apply Hne. lia. }
  exists h2, h3. split_and!; [done|done|intros q; by rewrite Hsh3, Hsh2|]. intros q j Hq. rewrite Hg3, Hg2. unfold linked.
  destruct (decide (j < lv)%nat) as [Hj|Hj].
  - rewrite (decide_False (P := (_ ∧ q = stop_ptr j))) by lia. rewrite (decide_True (P := (0 ≤ j < 0 + lv)%nat)) by lia.
    destruct (decide (q = x)); [done|]. by rewrite Hg1.
  - rewrite (decide_False (P := (0 ≤ j < 0 + lv)%nat)) by lia. rewrite Hg1 by (intros ?%Hq; done).
    destruct (decide (q = stop_ptr j)) as [->|].
    + destruct (decide (j < level)%nat); [by rewrite !decide_True by lia|by rewrite !decide_False by lia].
    + by rewrite !decide_False by tauto.
Qed.
End link.

Lemma prev_snoc p it : prev_ptr (p ++ [it]) = Some (it_ptr it).
Proof. unfold prev_ptr. by rewrite last_snoc. Qed.

Lemma prev_cons a it k : k ≠ [] → prev_ptr (a ++ it :: k) = prev_ptr (a ++ k).
Proof.
  intros Hk. destruct k as [|z k _] using rev_ind; [done|]. rewrite !app_comm_cons, !app_assoc.
  by rewrite !prev_snoc.
Qed.

(** [(update[0] == zsl->header) ? NULL : update[0]] *)
Lemma prev_of_last header a r :
  NoDup (header :: (it_ptr <$> a ++ r)) →
  (if decide (last_ptr header a = header) then None else Some (last_ptr header a)) = prev_ptr a.
Proof.
  intros Hnd. destruct a as [|z a _] using rev_ind; [by rewrite decide_True|]. rewrite prev_snoc, last_ptr_snoc.
  rewrite decide_False; [done|]. intros Heq. apply NoDup_cons in Hnd as [Hn _]. apply Hn. rewrite <- Heq.
  rewrite !fmap_app. set_solver.
Qed.

Lemma updates_raise header level n a :
  Forall (λ it, (it_height it ≤ level)%nat) a →
  updates header level a ++ replicate n (header, 0) = updates header (level + n) a.
Proof.
  intros Ha. unfold updates. rewrite seq_app, fmap_app. f_equal. cbn [Nat.add].
  apply list_eq. intros i. rewrite list_lookup_fmap. destruct (decide (i < n)%nat).
  - rewrite lookup_replicate_2, lookup_seq_lt by done. cbn [fmap option_fmap option_map]. rewrite cut_nil; [done|].
    apply above_false. eapply Forall_impl; [exact Ha|]. cbn. lia.
  - rewrite (proj1 (lookup_replicate_None _ _ _)) by lia. by rewrite lookup_seq_ge by lia.
Qed.

Lemma random_level_ge rs : ∀ level lv rs', random_level rs level = Some (lv, rs') → (level ≤ lv)%nat.
Proof.
  induction rs as [|r rs IH]; intros level lv rs'; cbn [random_level]; [done|]. destruct (_ <? _).
  - intros Hr%IH. lia.
  - intros [= <- <-]. lia.
Qed.

Lemma zslRandomLevel_range rs lv rs' :
  zslRandomLevel rs = Some (lv, rs') → (1 ≤ lv ≤ ZSKIPLIST_MAXLEVEL)%nat.
Proof.
  unfold zslRandomLevel. destruct (random_level rs 1) as [[l rs1]|] eqn:Hr; [|done]. cbn [mbind option_bind].
  intros [= <- <-]. apply random_level_ge in Hr. unfold ZSKIPLIST_MAXLEVEL. destruct (Nat.ltb_spec l 32); lia.
Qed.

(** The list with the new item, in terms of the old heap. *)
Lemma inserted_nodes h h5 header level a b x score ele lv :
  nodes_ok h header level (a ++ b) → (1 ≤ lv ≤ level)%nat → shape h x = None → zlen (a ++ b) < 2 ^ 63 →
  (∀ q j, (q = x → (j < lv)%nat) → get_level h5 q j = linked h header level a b x lv q j) →
  (∀ q, q ≠ x → (∀ it1, head b = Some it1 → q ≠ it_ptr it1) → shape h5 q = shape h q) →
  shape h5 x = Some (Some ele, score, prev_ptr a, lv) →
  (∀ it1, head b = Some it1 → shape h5 (it_ptr it1) = Some (Some (it_ele it1), it_score it1, Some x, it_height it1)) →
  nodes_ok h5 header level (a ++ Item x score ele lv :: b).
Proof.
  intros Hno Hlv Hx Hsm Hg Hother Hsx Hs1. pose proof Hno as [H1 H2 _ H4 H5 H6 H7].
  assert (Hnew : ∀ p it' q, a ++ b = p ++ it' :: q → it_ptr it' ≠ x).
  { intros p it' q Heq Hp. rewrite <- Hp, (H2 _ _ _ Heq) in Hx. done. }
  assert (Hhx : header ≠ x) by (destruct H1 as (? & ? & ?); congruence).
  assert (Hnohead : ∀ it1, head b = Some it1 → it_ptr it1 ∉ header :: (it_ptr <$> a)).
  { intros it1 Hh. destruct b as [|? b]; [done|]. injection Hh as ->. rewrite fmap_app in H5.
    change (header :: (it_ptr <$> a) ++ (it_ptr <$> it1 :: b)) with ((header :: (it_ptr <$> a)) ++ it_ptr it1 :: (it_ptr <$> b)) in H5.
    apply NoDup_app in H5 as (_ & Hd & _). intros Hin. eapply Hd; [exact Hin|]. by left. }
  split.
  - destruct H1 as (s & bk & Hhd). exists s, bk. rewrite Hother; [done|done|].
    intros it1 Hh ->. by apply (Hnohead it1 Hh), list_elem_of_here.
  - intros p it' q [(k & Ha & Hq)|(k & -> & Hk)]%mid_split.
    + destruct k as [|z k]; cbn [app] in Hq; injection Hq as -> ->; [rewrite app_nil_r in Ha; subst p; done|].
      rewrite Hother; [|by apply (Hnew p z (k ++ b)); rewrite Ha, <- app_assoc|].
      * apply (H2 p z (k ++ b)). by rewrite Ha, <- app_assoc.
      * intros it1 Hh Heq. apply (Hnohead it1 Hh). rewrite <- Heq, Ha, fmap_app. set_solver.
    + destruct k as [|z k].
      * rewrite prev_snoc. rewrite Hs1 by (by rewrite Hk). done.
      * rewrite prev_cons by done. rewrite Hother.
        -- apply (H2 (a ++ z :: k) it' q). by rewrite Hk, <- app_assoc.
        -- apply (Hnew (a ++ z :: k) it' q). by rewrite Hk, <- app_assoc.
        -- intros it1 Hh Heq. rewrite Hk in Hh. injection Hh as ->. rewrite Hk in H5.
           rewrite fmap_app in H5. cbn [fmap list_fmap app] in H5. rewrite fmap_app in H5. cbn [fmap list_fmap] in H5.
           apply NoDup_cons in H5 as [_ H5]. apply NoDup_app in H5 as (_ & _ & H5).
           apply NoDup_cons in H5 as [H5 _]. rewrite <- Heq in H5. set_solver.
  - intros p q i Heq Hi. rewrite Hg.
    + by eapply linked_ok.
    + intros Hp. apply mid_split in Heq as [(k & Ha & ->)|(k & -> & Hk)].
      * exfalso. eapply (list_not_new h header level a b); [done|done| |exact Hp]. by rewrite Ha, <- app_assoc.
      * destruct k as [|z k _] using rev_ind; [by rewrite top_snoc in Hi|]. exfalso.
        rewrite app_comm_cons, app_assoc, last_ptr_snoc in Hp. apply (Hnew (a ++ k) z q); [|done].
        by rewrite Hk, <- !app_assoc.
  - intros i Hi. rewrite Hg by done. unfold linked. rewrite decide_False by lia.
    rewrite decide_False by lia. by apply H4.
  - rewrite fmap_app in *. cbn [fmap list_fmap]. rewrite <- Permutation_middle. cbn [it_ptr].
    rewrite Permutation_swap. apply NoDup_cons. split; [|exact H5].
    rewrite <- fmap_app. intros [Heq|Hin]%elem_of_cons; [done|].
    apply list_elem_of_fmap in Hin as (it' & Heq & Hin). apply list_elem_of_split in Hin as (p & q & Hpq).
    by apply (Hnew p it' q).
  - rewrite Forall_app in *. destruct H6 as [? ?]. split; [done|]. by constructor.
  - done.
Qed.

(** Setting the backward pointers completes the insertion. *)
Lemma link_backward h h3 header level a b x score ele lv :
  nodes_ok h header level (a ++ b) → (1 ≤ lv ≤ level)%nat → shape h x = None → zlen (a ++ b) < 2 ^ 63 →
  (∀ q, shape h3 q = if decide (q = x) then Some (Some ele, score, None, lv) else shape h q) →
  (∀ q j, (q = x → (j < lv)%nat) → get_level h3 q j = linked h header level a b x lv q j) →
  ∃ h4 h5, set_backward h3 x (prev_ptr a) = Some h4 ∧ get_level h4 x 0 = Some (fwd 0 b) ∧
    match b with [] => h5 = h4 | it1 :: _ => set_backward h4 (it_ptr it1) (Some x) = Some h5 end ∧
    nodes_ok h5 header level (a ++ Item x score ele lv :: b) ∧
    ∀ q, is_Some (shape h5 q) ↔ q = x ∨ is_Some (shape h q).
Proof.
  intros Hno Hlv Hx Hsm Hsh Hg. pose proof (no_shape _ _ _ _ Hno) as H2.
  destruct (set_backward_spec h3 x (Some ele) score None lv (prev_ptr a)) as (h4 & -> & Hg4 & Hsh4).
  { by rewrite Hsh, decide_True. }
  assert (Hf : get_level h4 x 0 = Some (fwd 0 b)).
  { rewrite Hg4, Hg by lia. eapply linked_new; [done|lia|lia]. }
  assert (Hsome : ∀ q, is_Some (shape h4 q) ↔ q = x ∨ is_Some (shape h q)).
  { intros q. rewrite Hsh4, Hsh. destruct (decide (q = x)) as [->|]; [|tauto]. split; [by left|done]. }
  assert (Hnew : ∀ p it' q, a ++ b = p ++ it' :: q → it_ptr it' ≠ x).
  { intros p it' q Heq Hp. rewrite <- Hp, (H2 _ _ _ Heq) in Hx. done. }
  destruct b as [|it1 b].
  - exists h4, h4. split_and!; [done..| |done]. apply (inserted_nodes h); [done..|by intros; rewrite Hg4, Hg| | |done].
    + intros q Hq _. by rewrite Hsh4, Hsh, !decide_False.
    + by rewrite Hsh4, decide_True.
  - assert (Hsh1 : shape h4 (it_ptr it1) = Some (Some (it_ele it1), it_score it1, prev_ptr a, it_height it1)).
    { rewrite Hsh4, Hsh, !decide_False by (by eapply Hnew). by apply H2 with b. }
    destruct (set_backward_spec h4 (it_ptr it1) _ _ _ _ (Some x) Hsh1) as (h5 & Hset & Hg5 & Hsh5).
    exists h4, h5. split_and!; [done|done|done| |].
    + apply (inserted_nodes h); [done..|by intros; rewrite Hg5, Hg4, Hg| | |].
      * intros q Hq Hq1. by rewrite Hsh5, Hsh4, Hsh, !decide_False by auto.
      * rewrite Hsh5, Hsh4, decide_False by (intros ->; by eapply Hnew). by rewrite decide_True.
      * intros it1' [= <-]. by rewrite Hsh5, decide_True.
    + intros q. rewrite Hsh5, <- Hsome. destruct (decide (q = it_ptr it1)) as [->|]; [|done]. by rewrite Hsh1.
Qed.

(** ** Unlinking a node *)

Lemma fwd_above i l : above i l = true → is_Some (fwd i l).1.
Proof. intros (p & it & q & -> & Hp & Hh)%above_first. rewrite fwd_first by done. by eexists. Qed.

Lemma fwd_in i l p : (fwd i l).1 = Some p → p ∈ it_ptr <$> l.
Proof.
  destruct (above i l) eqn:Ha; [|by rewrite fwd_none].
  apply above_first in Ha as (a & it & b & -> & Hp & Hh). rewrite fwd_first by done. intros [= <-].
  rewrite fmap_app. set_solver.
Qed.

Lemma fwd_0 h header level p b : nodes_ok h header level (p ++ b) → (fwd 0 b).1 = it_ptr <$> head b.
Proof.
  intros Hno. destruct b as [|it1 b]; [done|]. cbn [fwd]. rewrite (proj2 (Nat.ltb_lt _ _)); [done|].
  pose proof (no_heights _ _ _ _ Hno) as Hh. rewrite Forall_app, Forall_cons in Hh. lia.
Qed.

(** Only the nodes of the list matter. *)
Lemma nodes_ok_ext h h' header level l :
  nodes_ok h header level l →
  (∀ q, q ∈ header :: (it_ptr <$> l) → shape h' q = shape h q ∧ ∀ j, get_level h' q j = get_level h q j) →
  nodes_ok h' header level l.
Proof.
  intros [H1 H2 H3 H4 H5 H6 H7] Hext. destruct (Hext header) as [Hs Hg]; [by left|]. split; [| | | |done..].
  - by rewrite Hs.
  - intros p it q Heq. destruct (Hext (it_ptr it)) as [-> _]; [|by apply H2 with q]. right. rewrite Heq, fmap_app. set_solver.
  - intros p q i Heq Hi. destruct (Hext (last_ptr header p)) as [_ ->]; [|by apply H3].
    destruct (last_ptr_in header p) as [-> | Hin]; [by left|]. right. rewrite Heq, fmap_app. set_solver.
  - intros i Hi. rewrite Hg. by apply H4.
Qed.

Lemma nodes_ok_free h header level l x :
  nodes_ok h header level l → x ∉ header :: (it_ptr <$> l) → nodes_ok (delete x h) header level l.
Proof.
  intros Hno Hx. apply (nodes_ok_ext h); [done|]. intros q Hq. assert (q ≠ x) by congruence.
  unfold shape, get_level. by rewrite lookup_delete_ne by done.
Qed.

(** Levels that no node reaches can be given up. *)
Lemma nodes_ok_lower h header level l :
  nodes_ok h header (S level) l → (1 ≤ level)%nat → above level l = false → nodes_ok h header level l.
Proof.
  intros [H1 H2 H3 H4 H5 H6 H7] Hl Ha. split; [done|done| | |done| |lia].
  - intros p q i Heq Hi. apply H3; [done|]. unfold top in *. destruct (last p); [done|lia].
  - intros i Hi. destruct (decide (i = level)) as [->|]; [|apply H4; lia]. exists (zlen l).
    change header with (last_ptr header []). rewrite (H3 [] l) by (try done; cbn; lia). by rewrite fwd_none.
  - apply above_false in Ha. rewrite Forall_forall in *. intros it Hit. specialize (H6 it Hit). specialize (Ha it Hit).
    cbn in *. lia.
Qed.

Lemma lower_spec h header l : ∀ level,
  nodes_ok h header level l →
  ∃ level', lower_level level h header = Some level' ∧ nodes_ok h header level' l ∧ (level' ≤ level)%nat ∧
    ((1 < level')%nat → above (pred level') l = true).
Proof.
  induction level as [|[|level] IH]; intros Hno.
  - pose proof (no_max _ _ _ _ Hno). lia.
  - exists 1%nat. split_and!; [done|done|lia|lia].
  - change header with (last_ptr header []) at 1. cbn [lower_level].
    rewrite (no_level _ _ _ _ Hno [] l (S level)) by (try done; cbn; lia). cbn [mbind option_bind].
    destruct (above (S level) l) eqn:Ha.
    + apply fwd_above in Ha as Hf. destruct (fwd (S level) l) as [f s]. destruct Hf as [f' Hf]. cbn [fst] in Hf. subst f.
      exists (S (S level)). by split_and!.
    + rewrite fwd_none by done. destruct IH as (lv & ? & ? & ? & ?); [by apply nodes_ok_lower; [|lia|]|].
      exists lv. split_and!; [done|done|lia|done].
Qed.

Lemma cut_ptr_in i header a : last_ptr header (cut i a) = header ∨ last_ptr header (cut i a) ∈ it_ptr <$> a.
Proof.
  destruct (last_ptr_in header (cut i a)) as [-> | Hin]; [by left|right].
  destruct (cut_rest i (S i) a) as (Ha & _); [lia|]. set (c := cut i a) in *. clearbody c. rewrite Ha, fmap_app.
  apply elem_of_app. by left.
Qed.

Lemma app_split {A} (a b p q : list A) :
  a ++ b = p ++ q → (∃ k, a = p ++ k ∧ q = k ++ b) ∨ (∃ k z, p = a ++ k ++ [z] ∧ b = (k ++ [z]) ++ q).
Proof.
  intros [(k & -> & ->)|(k & -> & ->)]%app_eq_inv; [by left; exists k|]. destruct k as [|z k _] using rev_ind.
  - left. exists []. by rewrite !app_nil_r.
  - right. by exists k, z.
Qed.

Section unlink.
Context (h : heap) (header : ptr) (level : nat) (a b : list item) (it : item).
Context (Hno : nodes_ok h header level (a ++ it :: b)) (Hsm : zlen (a ++ it :: b) < 2 ^ 63).
Let x := it_ptr it.

Definition unlinked (q : ptr) (j : nat) : option (option ptr * Z) :=
  if decide ((j < level)%nat ∧ q = stop_ptr header a j) then Some (fwd j (rest j a ++ b)) else get_level h q j.

Lemma x_not_others : x ∉ header :: (it_ptr <$> a ++ b).
Proof.
  pose proof (no_nodup _ _ _ _ Hno) as Hnd. rewrite fmap_app in Hnd. cbn [fmap list_fmap] in Hnd.
  rewrite <- Permutation_middle, Permutation_swap in Hnd. apply NoDup_cons in Hnd as [Hx _]. by rewrite fmap_app.
Qed.

Lemma unlink_loop update :
  (∀ j, (j < level)%nat → update !! j = Some (stop_ptr header a j, zlen (cut j a))) →
  ∃ h', unlink_levels level 0 h x update = Some h' ∧ (∀ q, shape h' q = shape h q) ∧
    ∀ q j, get_level h' q j = unlinked q j.
Proof.
  intros Hup. pose proof x_not_others as Hx.
  set (f j := stop_fwd a (it :: b) j). set (s j := stop_span a (it :: b) j).
  set (fx j := (fwd j b).1). set (sx j := (fwd j b).2).
  destruct (unlink_loop_spec update (stop_ptr header a) (λ j, zlen (cut j a)) x f fx s sx level 0 h) as (h' & Hl & Hsh & Hg).
  - intros j Hj. destruct (stop_level h header level a (it :: b) Hno j) as (_ & Hlev & _); [lia|].
    split_and!; [apply Hup; lia|done| |].
    + intros Heq. apply Hx. rewrite <- Heq. unfold stop_ptr. destruct (cut_ptr_in j header a) as [-> | Hin]; [by left|].
      right. rewrite fmap_app. apply elem_of_app. by left.
    + intros Hf. destruct (decide (j < it_height it)%nat) as [Hj'|Hj'].
      * unfold x. rewrite <- (last_ptr_snoc header a it). unfold fx, sx.
        rewrite (no_level _ _ _ _ Hno (a ++ [it]) b j); [by destruct (fwd j b)|by rewrite <- app_assoc|by rewrite top_snoc].
      * exfalso. unfold f in Hf. destruct (stop_values level a (it :: b) Hsm j) as (Hsf & _); [lia|].
        rewrite Hsf in Hf. cbn [fwd] in Hf. rewrite (proj2 (Nat.ltb_ge _ _)) in Hf by lia.
        apply Hx. right. rewrite fmap_app. apply elem_of_app. right. apply (fwd_in j). by destruct (fwd j b).
  - exists h'. split_and!; [done|done|]. intros q j. rewrite Hg. unfold unlinked.
    destruct (decide (q = stop_ptr header a j)) as [->|]; [|by rewrite !decide_False by tauto].
    destruct (decide (j < level)%nat) as [Hj|]; [|by rewrite !decide_False by lia].
    rewrite (decide_True (P := ((j < level)%nat ∧ _))) by done. rewrite decide_True by lia.
    destruct (stop_values level a (it :: b) Hsm j Hj) as (Hsf & Hss & _ & H0 & Hb).
    destruct (cut_rest j level a Hj) as (_ & Hab & _). rewrite fwd_app, Hab. unfold f, s. rewrite Hsf, Hss.
    pose proof (fwd_span j b). cbn [fwd] in *. destruct (Nat.ltb_spec j (it_height it)).
    + cbn [fst snd] in *. rewrite decide_True by done. unfold fx, sx. rewrite wrapu_small; [do 2 f_equal; lia|].
      rewrite length_app in Hsm. cbn [length] in Hsm. assert (zlen (rest j a) ≤ zlen a) by (unfold rest; llia). lia.
    + destruct (fwd j b) as [fb sb] eqn:Hfb. cbn [fst snd] in *. rewrite decide_False.
      * rewrite wrapu_small by lia. do 2 f_equal. lia.
      * intros Hx'. apply Hx. right. rewrite fmap_app. apply elem_of_app. right. apply (fwd_in j). by rewrite Hfb.
Qed.

Lemma unlinked_ok p q i :
  a ++ b = p ++ q → (i < top level p)%nat → unlinked (last_ptr header p) i = Some (fwd i q).
Proof.
  intros Heq Hi. unfold unlinked. apply app_split in Heq as [(k & Ha & ->)|(k & z & -> & Hb)].
  - assert (Heq : a ++ it :: b = p ++ k ++ it :: b) by (by rewrite Ha, <- app_assoc).
    assert (Hl : (i < level)%nat) by (by eapply top_level).
    pose proof (stops_at h header level p k (it :: b) i) as Hstop. rewrite <- Ha in Hstop. specialize (Hstop Hno Hi Hl).
    fold (stop_ptr header a i) in Hstop. destruct (above i k) eqn:Hk.
    + rewrite decide_False by (intros [_ ?%Hstop]; done). rewrite (no_level _ _ _ _ Hno p _ i Heq Hi).
      by rewrite !fwd_app, Hk.
    + rewrite decide_True by (split; [done|by apply Hstop]).
      assert (Hc : cut i a = p) by (rewrite Ha; by apply (cut_unique i level)).
      assert (rest i a = k) as -> by (unfold rest; rewrite Hc, Ha; apply drop_app_length). done.
  - rewrite app_assoc, last_ptr_snoc. rewrite app_assoc, top_snoc in Hi.
    assert (Heq : a ++ it :: b = (a ++ it :: k ++ [z]) ++ q) by (rewrite Hb; apply (app_assoc a (it :: k ++ [z]) q)).
    assert (Hp : last_ptr header (a ++ it :: k ++ [z]) = it_ptr z) by (by rewrite app_comm_cons, app_assoc, last_ptr_snoc).
    rewrite decide_False.
    + rewrite <- Hp. apply (no_level _ _ _ _ Hno); [done|]. by rewrite app_comm_cons, app_assoc, top_snoc.
    + intros [_ Hz]. rewrite <- Hp in Hz. eapply (stops_before h header level a (it :: k ++ [z]) q i); [|done|exact Hz].
      by rewrite Heq, <- !app_assoc in Hno.
Qed.

Lemma unlinked_x j : (j < it_height it)%nat → unlinked x j = Some (fwd j b).
Proof.
  intros Hj. unfold unlinked. rewrite decide_False.
  - unfold x. rewrite <- (last_ptr_snoc header a it).
    apply (no_level _ _ _ _ Hno); [by rewrite <- app_assoc|by rewrite top_snoc].
  - intros [_ Hx]. apply x_not_others. rewrite Hx. unfold stop_ptr.
    destruct (cut_ptr_in j header a) as [-> | Hin]; [by left|]. right. rewrite fmap_app. apply elem_of_app. by left.
Qed.
End unlink.

(** The list without the item, in terms of the old heap. *)
Lemma deleted_nodes h h5 header level a b it :
  nodes_ok h header level (a ++ it :: b) →
  (∀ q j, get_level h5 q j = unlinked h header level a b q j) →
  (∀ q, (∀ it1, head b = Some it1 → q ≠ it_ptr it1) → shape h5 q = shape h q) →
  (∀ it1, head b = Some it1 →
    shape h5 (it_ptr it1) = Some (Some (it_ele it1), it_score it1, prev_ptr a, it_height it1)) →
  nodes_ok h5 header level (a ++ b).
Proof.
  intros Hno Hg Hother Hs1. pose proof Hno as [H1 H2 _ H4 H5 H6 H7].
  assert (Hnd : NoDup (header :: (it_ptr <$> a) ++ (it_ptr <$> b))).
  { rewrite fmap_app in H5. cbn [fmap list_fmap] in H5. rewrite <- Permutation_middle, Permutation_swap in H5.
    by apply NoDup_cons in H5 as [_ H5]. }
  assert (Hnohead : ∀ it1, head b = Some it1 → it_ptr it1 ∉ header :: (it_ptr <$> a)).
  { intros it1 Hh. destruct b as [|? b]; [done|]. injection Hh as ->.
    change (header :: (it_ptr <$> a) ++ (it_ptr <$> it1 :: b)) with ((header :: (it_ptr <$> a)) ++ it_ptr it1 :: (it_ptr <$> b)) in Hnd.
    apply NoDup_app in Hnd as (_ & Hd & _). intros Hin. eapply Hd; [exact Hin|]. by left. }
  split.
  - destruct H1 as (s & bk & Hhd). exists s, bk. rewrite Hother; [done|].
    intros it1 Hh ->. by apply (Hnohead it1 Hh), list_elem_of_here.
  - intros p it' q [(k & Ha & Hq)|(k & -> & Hk)]%app_eq_inv.
    + destruct k as [|z k]; cbn [app] in Hq.
      { rewrite app_nil_r in Ha. subst p b. by apply Hs1. }
      injection Hq as -> ->. rewrite Hother.
      * apply (H2 p z (k ++ it :: b)). by rewrite Ha, <- app_assoc.
      * intros it1 Hh Heq. apply (Hnohead it1 Hh). rewrite <- Heq, Ha, fmap_app. set_solver.
    + destruct k as [|z k]; cbn [app] in Hk.
      { rewrite app_nil_r. apply Hs1. by rewrite Hk. }
      rewrite Hother.
      * rewrite <- (prev_cons a it) by done. apply (H2 (a ++ it :: z :: k) it' q). by rewrite Hk, <- app_assoc.
      * intros it1 Hh Heq. rewrite Hk in Hh. injection Hh as ->. rewrite Hk in Hnd.
        cbn [fmap list_fmap] in Hnd. rewrite fmap_app in Hnd. cbn [fmap list_fmap] in Hnd.
        apply NoDup_cons in Hnd as [_ Hnd]. apply NoDup_app in Hnd as (_ & _ & Hnd).
        apply NoDup_cons in Hnd as [Hnd _]. rewrite <- Heq in Hnd. set_solver.
  - intros p q i Heq Hi. rewrite Hg. by eapply unlinked_ok.
  - intros i Hi. rewrite Hg. unfold unlinked. rewrite decide_False by lia. by apply H4.
  - by rewrite fmap_app.
  - rewrite Forall_app, Forall_cons in H6. rewrite Forall_app. tauto.
  - done.
Qed.

End ZslInv.
