(* ===== verification/ZslOps.v ===== *)
(** * t_zset.c: the operations of a skiplist on the sorted list it holds *)

From S2P Require Import Prelude Dict DictInv Zskiplist ZslInv.
Import Dict DictInv Zskiplist ZslInv.

Module ZslOps.

(** ** Searching by score and element *)

Definition before (k : list Z) (it : item) : bool := bool_decide (lexcmp (it_key it) k = Lt).

Lemma goes_lt zsl a b score ele :
  zsl_wf zsl (a ++ b) → isnan score = false →
  Forall (λ it, before (key score ele) it = true) a → Forall (λ it, before (key score ele) it = false) b →
  goes (zsl_heap zsl) (node_lt score ele) a b.
Proof.
  intros Hwf Hs Ha Hb. eapply goes_pred; [apply Hwf| |exact Ha|exact Hb].
  intros it n r Hin He Hsc. pose proof (wf_scores _ _ Hwf) as Hok. rewrite Forall_forall in Hok.
  specialize (Hok it Hin). unfold it_ok in Hok. rewrite (node_lt_key _ _ _ _ (it_ele it)) by (by rewrite ?Hsc).
  unfold before, it_key. by rewrite Hsc.
Qed.

Lemma before_mono k x y : it_lt x y → before k y = true → before k x = true.
Proof. unfold before. rewrite !bool_decide_eq_true. intros H1 H2. by eapply lexcmp_trans. Qed.

(** ** Insertion *)

Lemma new_ptr (h : heap) : h !! base.fresh (dom h) = None.
Proof. apply not_elem_of_dom. apply is_fresh. Qed.

Lemma sorted_insert {A} (R : relation A) a it b :
  StronglySorted R (a ++ b) → Forall (λ z, R z it) a → Forall (R it) b → StronglySorted R (a ++ it :: b).
Proof.
  induction a as [|z a IH]; cbn [app]; intros Hs Ha Hb; [by constructor|].
  apply Forall_cons in Ha as [Hz Ha]. inversion_clear Hs as [|? ? Hs' Hall]. constructor; [by apply IH|].
  rewrite Forall_app in Hall |- *. destruct Hall as [H1 H2]. split; [done|]. by constructor.
Qed.

(** The part of [zslInsert] before the links. *)
Lemma insert_search zsl a b score ele :
  zsl_wf zsl (a ++ b) → isnan score = false →
  Forall (λ it, before (key score ele) it = true) a → Forall (λ it, before (key score ele) it = false) b →
  zsl_search zsl (node_lt score ele) = Some (updates (zsl_header zsl) (zsl_level zsl) a).
Proof. intros Hwf Hs Ha Hb. eapply zsl_search_spec; [done|]. by apply goes_lt. Qed.

Lemma insert_spec zsl a b score ele rs lv rs' :
  zsl_wf zsl (a ++ b) → isnan score = false → zlen (a ++ b) + 1 < 2 ^ 63 →
  Forall (λ it, lexcmp (it_key it) (key score ele) = Lt) a →
  Forall (λ it, lexcmp (it_key it) (key score ele) = Gt) b →
  zslRandomLevel rs = Some (lv, rs') →
  ∃ zsl' x, zslInsert zsl score ele rs = Some (zsl', x, rs') ∧ zsl_heap zsl !! x = None ∧
    zsl_wf zsl' (a ++ Item x score ele lv :: b) ∧ zsl_header zsl' = zsl_header zsl ∧
    zsl_level zsl' = Nat.max (zsl_level zsl) lv ∧
    ∀ p, is_Some (zsl_heap zsl' !! p) ↔ p = x ∨ is_Some (zsl_heap zsl !! p).
Proof.
  intros Hwf Hnan Hsm Ha Hb Hrl. pose proof Hwf as [Hno Hsort Hsc Htail Hlen _].
  pose proof (zslRandomLevel_range _ _ _ Hrl) as Hlv. unfold zslInsert. rewrite Hnan. cbn [negb mbind option_bind assert].
  rewrite (insert_search zsl a b); [|done|done|..].
  2-3: eapply Forall_impl; [eassumption|]; intros it Hit; unfold before; by rewrite Hit.
  cbn [mbind option_bind]. rewrite Hrl. cbn [mbind option_bind].
  set (new := (lv - zsl_level zsl)%nat). set (zl := (zsl_level zsl + new)%nat).
  pose proof (no_max _ _ _ _ Hno) as Hmax.
  destruct (raise_spec new (zsl_heap zsl) (zsl_header zsl) (zsl_level zsl) (a ++ b) Hno) as (h & Hraise & Hno1 & Hsh1); [lia|].
  rewrite Hlen, Hraise. cbn [mbind option_bind]. fold zl in Hno1.
  pose proof (no_heights _ _ _ _ Hno) as Hh. rewrite updates_raise.
  2:{ rewrite Forall_app in Hh. eapply Forall_impl; [apply Hh|]. cbn. lia. }
  fold zl. unfold zslCreateNode. set (x := base.fresh (dom h)). cbn [mbind option_bind].
  assert (Hx : shape h x = None) by (unfold shape; by rewrite (new_ptr h : h !! x = None)).
  rewrite updates_lookup by lia. cbn [mbind option_bind].
  assert (Hc0 : cut 0 a = a).
  { apply cut_0. rewrite Forall_app in Hh. eapply Forall_impl; [apply Hh|]. cbn. lia. }
  rewrite Hc0.
  destruct (link_loops h (zsl_header zsl) zl a b Hno1 x score ele lv ltac:(lia) Hx) as (h2 & h3 & Hl2 & Hl3 & Hsh3 & Hg3).
  cbv zeta in Hl2, Hl3. rewrite Hl2. cbn [mbind option_bind]. rewrite Hl3. cbn [mbind option_bind].
  rewrite (prev_of_last _ a b) by apply (no_nodup _ _ _ _ Hno).
  destruct (link_backward h h3 (zsl_header zsl) zl a b x score ele lv Hno1 ltac:(lia) Hx ltac:(lia)) 
    as (h4 & h5 & -> & Hf & Hrest & Hno5 & Halloc).
  { intros q. rewrite Hsh3. unfold shape. case_decide as Hq.
    - subst q. rewrite lookup_insert_eq. cbn. by rewrite length_replicate.
    - by rewrite lookup_insert_ne by done. }
  { exact Hg3. }
  cbn [mbind option_bind]. rewrite Hf. cbn [mbind option_bind].
  pose proof (fwd_0 _ _ _ _ _ Hno) as Hfwd.
  assert (Htop : zl = Nat.max (zsl_level zsl) lv) by lia.
  assert (Hall : ∀ p, is_Some (h5 !! p) ↔ p = x ∨ is_Some (zsl_heap zsl !! p)).
  { intros p. by rewrite !shape_some, Halloc, Hsh1. }
  assert (Hwf' : ∀ tl, tl = prev_ptr (a ++ Item x score ele lv :: b) →
    zsl_wf (Zsl h5 (zsl_header zsl) tl (u64 (zlen (a ++ b) + 1)) zl) (a ++ Item x score ele lv :: b)).
  { intros tl Htl. split; cbn; [done| | |done|rewrite wrapu_small; llia|llia].
    - apply sorted_insert; [done| |].
      + eapply Forall_impl; [exact Ha|]. done.
      + eapply Forall_impl; [exact Hb|]. intros it Hgt. unfold it_lt. rewrite lexcmp_antisym. cbn. unfold it_key in *. cbn. by rewrite Hgt.
    - rewrite Forall_app in Hsc |- *. destruct Hsc. split; [done|]. by constructor. }
  assert (Hxnew : zsl_heap zsl !! x = None).
  { destruct (zsl_heap zsl !! x) eqn:E; [|done]. rewrite Hsh1 in Hx. unfold shape in Hx. by rewrite E in Hx. }
  destruct (fwd 0 b) as [f0 s0]. cbn [fst] in Hfwd. subst f0. destruct b as [|it1 b]; cbn [head fmap option_fmap option_map].
  - subst h5. do 2 eexists. split; [done|]. split_and!; [done| |done|done|done]. apply Hwf'. by rewrite prev_snoc.
  - rewrite Hrest. cbn [mbind option_bind]. do 2 eexists. split; [done|]. split_and!; [done| |done|done|done].
    apply Hwf'. rewrite Htail. symmetry. by apply prev_cons.
Qed.

(** ** Deletion *)

(** [update[]] points to the stops of a search, at least for the levels in use. *)
Definition update_ok (header : ptr) (level : nat) (a : list item) (update : list (ptr * Z)) : Prop :=
  ∀ j, (j < level)%nat → update !! j = Some (last_ptr header (cut j a), zlen (cut j a)).

Lemma sorted_delete {A} (R : relation A) a it b : StronglySorted R (a ++ it :: b) → StronglySorted R (a ++ b).
Proof.
  induction a as [|z a IH]; cbn [app]; intros Hs; inversion_clear Hs as [|? ? Hs' Hall]; [done|].
  constructor; [by apply IH|]. rewrite Forall_app, Forall_cons in Hall. rewrite Forall_app. tauto.
Qed.

Lemma lookup_shape (h h' : heap) : (∀ q, shape h' q = shape h q) → ∀ q, is_Some (h' !! q) ↔ is_Some (h !! q).
Proof. intros Hsh q. by rewrite !shape_some, Hsh. Qed.

Lemma deleteNode_spec zsl a it b update :
  zsl_wf zsl (a ++ it :: b) → update_ok (zsl_header zsl) (zsl_level zsl) a update →
  ∃ zsl', zslDeleteNode zsl (it_ptr it) update = Some zsl' ∧ zsl_wf zsl' (a ++ b) ∧
    zsl_header zsl' = zsl_header zsl ∧ (zsl_level zsl' ≤ zsl_level zsl)%nat ∧
    ((1 < zsl_level zsl')%nat → above (pred (zsl_level zsl')) (a ++ b) = true) ∧
    ∀ q, is_Some (zsl_heap zsl' !! q) ↔ is_Some (zsl_heap zsl !! q).
Proof.
  intros Hwf Hup. pose proof Hwf as [Hno Hsort Hsc Htail Hlen Hsm].
  destruct (unlink_loop (zsl_heap zsl) (zsl_header zsl) (zsl_level zsl) a b it Hno Hsm update Hup) as (h1 & Hl & Hsh1 & Hg1).
  unfold zslDeleteNode. rewrite Hl. cbn [mbind option_bind].
  pose proof (no_shape _ _ _ _ Hno a it b eq_refl) as Hx. rewrite <- Hsh1 in Hx.
  destruct (shape_node _ _ _ _ _ _ Hx) as (nx & Hnx & _ & _ & Hbk & _). rewrite Hnx. cbn [mbind option_bind]. rewrite Hbk.
  rewrite Hg1, unlinked_x by (try done; pose proof (no_heights _ _ _ _ Hno) as Hh; rewrite Forall_app, Forall_cons in Hh; lia).
  cbn [mbind option_bind].
  assert (Hfin : ∀ h5 tl, nodes_ok h5 (zsl_header zsl) (zsl_level zsl) (a ++ b) → tl = prev_ptr (a ++ b) →
    (∀ q, is_Some (h5 !! q) ↔ is_Some (zsl_heap zsl !! q)) →
    ∃ zsl', (level ← lower_level (zsl_level zsl) h5 (zsl_header zsl);
      Some (Zsl h5 (zsl_header zsl) tl (u64 (zsl_length zsl - 1)) level)) = Some zsl' ∧ zsl_wf zsl' (a ++ b) ∧
      zsl_header zsl' = zsl_header zsl ∧ (zsl_level zsl' ≤ zsl_level zsl)%nat ∧
      ((1 < zsl_level zsl')%nat → above (pred (zsl_level zsl')) (a ++ b) = true) ∧
      ∀ q, is_Some (zsl_heap zsl' !! q) ↔ is_Some (zsl_heap zsl !! q)).
  { intros h5 tl Hno5 -> Hall. destruct (lower_spec h5 (zsl_header zsl) (a ++ b) _ Hno5) as (lv & -> & Hnol & Hle & Hab).
    cbn [mbind option_bind]. eexists. split; [done|]. cbn. split_and!; [|done|done|done|done].
    rewrite length_app in Hlen, Hsm. cbn [length] in Hlen, Hsm.
    split; cbn; [done|by eapply sorted_delete| |done|rewrite wrapu_small; llia|llia].
    rewrite Forall_app, Forall_cons in Hsc. rewrite Forall_app. tauto. }
  pose proof (lookup_shape _ _ Hsh1) as Hall1.
  assert (Hfwd : (fwd 0 b).1 = it_ptr <$> head b) by (apply (fwd_0 (zsl_heap zsl) (zsl_header zsl) (zsl_level zsl) (a ++ [it])); by rewrite <- app_assoc).
  destruct (fwd 0 b) as [f0 s0]. cbn [fst] in Hfwd. subst f0.
  destruct b as [|it1 b]; cbn [head fmap option_fmap option_map mbind option_bind].
  - apply Hfin; [|by rewrite app_nil_r|done]. eapply deleted_nodes; [exact Hno|exact Hg1|by intros; apply Hsh1|done].
  - pose proof (no_shape _ _ _ _ Hno (a ++ [it]) it1 b) as Hs1. rewrite <- app_assoc, <- Hsh1 in Hs1. specialize (Hs1 eq_refl).
    destruct (set_backward_spec h1 (it_ptr it1) _ _ _ _ (prev_ptr a) Hs1) as (h5 & -> & Hg5 & Hsh5). cbn [mbind option_bind].
    apply Hfin.
    + eapply deleted_nodes; [exact Hno|by intros; rewrite Hg5| |].
      * intros q Hq. rewrite Hsh5, decide_False by auto. apply Hsh1.
      * intros it1' [= <-]. by rewrite Hsh5, decide_True.
    + rewrite Htail. apply prev_cons. done.
    + intros q. rewrite <- Hall1, !shape_some, Hsh5. destruct (decide (q = it_ptr it1)) as [->|]; [|done]. by rewrite Hs1.
Qed.

(** ** After a search *)

Lemma updates_ok header level a : update_ok header level a (updates header level a).
Proof. intros j Hj. by apply updates_lookup. Qed.

Lemma cut_0_list zsl a b : zsl_wf zsl (a ++ b) → cut 0 a = a.
Proof.
  intros Hwf. apply cut_0. pose proof (no_heights _ _ _ _ (wf_nodes _ _ Hwf)) as Hh. rewrite Forall_app in Hh.
  eapply Forall_impl; [apply Hh|]. cbn. lia.
Qed.

Lemma update_0 zsl a b :
  zsl_wf zsl (a ++ b) →
  updates (zsl_header zsl) (zsl_level zsl) a !! O = Some (last_ptr (zsl_header zsl) a, zlen a).
Proof.
  intros Hwf. pose proof (no_max _ _ _ _ (wf_nodes _ _ Hwf)). rewrite updates_lookup by lia.
  by rewrite (cut_0_list zsl a b).
Qed.

Lemma level_0 zsl a b :
  zsl_wf zsl (a ++ b) → ∃ s, get_level (zsl_heap zsl) (last_ptr (zsl_header zsl) a) 0 = Some (it_ptr <$> head b, s).
Proof.
  intros Hwf. pose proof (wf_nodes _ _ Hwf) as Hno. rewrite (no_level _ _ _ _ Hno a b 0).
  - rewrite <- (fwd_0 _ _ _ _ _ Hno). exists (fwd 0 b).2. by destruct (fwd 0 b).
  - done.
  - unfold top. destruct (last a) as [z|] eqn:Hl; [|pose proof (no_max _ _ _ _ Hno); lia].
    apply last_Some in Hl as [p ->]. pose proof (no_heights _ _ _ _ Hno) as Hh.
    rewrite !Forall_app, Forall_singleton in Hh. lia.
Qed.

Lemma after_search_spec zsl a b :
  zsl_wf zsl (a ++ b) →
  after_search zsl (updates (zsl_header zsl) (zsl_level zsl) a) = Some (it_ptr <$> head b).
Proof.
  intros Hwf. unfold after_search. rewrite (update_0 zsl a b Hwf). cbn [mbind option_bind].
  destruct (level_0 zsl a b Hwf) as [s ->]. done.
Qed.

Lemma node_at zsl a it b :
  zsl_wf zsl (a ++ it :: b) →
  ∃ n, zsl_heap zsl !! it_ptr it = Some n ∧ zn_ele n = Some (it_ele it) ∧ zn_score n = it_score it ∧
    zn_backward n = prev_ptr a ∧ isnan (it_score it) = false.
Proof.
  intros Hwf. pose proof (no_shape _ _ _ _ (wf_nodes _ _ Hwf) a it b eq_refl) as Hsh.
  apply shape_node in Hsh as (n & Hn & He & Hs & Hb & _). exists n. split_and!; [done..|].
  pose proof (wf_scores _ _ Hwf) as Hok. rewrite Forall_app, Forall_cons in Hok. by destruct Hok as (_ & ? & _).
Qed.

(** Where a score and element are or would be. *)
Lemma locate zsl l score ele :
  zsl_wf zsl l → isnan score = false →
  ∃ a b, l = a ++ b ∧ Forall (λ it, lexcmp (it_key it) (key score ele) = Lt) a ∧
    zsl_search zsl (node_lt score ele) = Some (updates (zsl_header zsl) (zsl_level zsl) a) ∧
    ((∃ it b', b = it :: b' ∧ it_key it = key score ele ∧ Forall (λ it, lexcmp (it_key it) (key score ele) = Gt) b') ∨
     Forall (λ it, lexcmp (it_key it) (key score ele) = Gt) b).
Proof.
  intros Hwf Hs. destruct (split_sorted (before (key score ele)) l) as (a & b & -> & Ha & Hb);
    [apply Hwf|intros x y _ _; apply before_mono|].
  exists a, b. split_and!; [done| |by apply (insert_search zsl a b)|].
  - eapply Forall_impl; [exact Ha|]. intros it. unfold before. by rewrite bool_decide_eq_true.
  - destruct b as [|it b]; [by right|]. pose proof (wf_sorted _ _ Hwf) as Hsort.
    apply StronglySorted_app_1_r in Hsort. inversion_clear Hsort as [|? ? _ Hall].
    apply Forall_cons in Hb as [Hit Hb]. unfold before in Hit. rewrite bool_decide_eq_false in Hit.
    assert (Hgt : Forall (λ it, lexcmp (it_key it) (key score ele) = Gt) b).
    { rewrite Forall_forall in *. intros z Hz. specialize (Hall z Hz). unfold it_lt in Hall.
      destruct (lexcmp (it_key z) (key score ele)) eqn:Hc; [..|done].
      - apply lexcmp_eq in Hc. rewrite Hc in Hall. done.
      - destruct Hit. by eapply lexcmp_trans. }
    destruct (lexcmp (it_key it) (key score ele)) eqn:Hc; [|done|].
    + left. exists it, b. split_and!; [done|by apply lexcmp_eq|done].
    + right. by constructor.
Qed.

(** ** zslFreeNode and zslDelete *)

Lemma free_wf zsl l x : zsl_wf zsl l → x ∉ zsl_header zsl :: (it_ptr <$> l) → zsl_wf (free_node zsl x) l.
Proof. intros [Hno ? ? ? ? ?] Hx. split; cbn; [by apply nodes_ok_free|done..]. Qed.

Lemma removed_not_in zsl a it b : zsl_wf zsl (a ++ it :: b) → it_ptr it ∉ zsl_header zsl :: (it_ptr <$> a ++ b).
Proof. intros Hwf. eapply x_not_others, Hwf. Qed.

(** Unlinking and freeing a node of the list. *)
Lemma remove_spec zsl a it b update :
  zsl_ok zsl (a ++ it :: b) → update_ok (zsl_header zsl) (zsl_level zsl) a update →
  ∃ zsl', zslDeleteNode zsl (it_ptr it) update = Some zsl' ∧ zsl_ok (free_node zsl' (it_ptr it)) (a ++ b) ∧
    zsl_header zsl' = zsl_header zsl ∧ (zsl_level zsl' ≤ zsl_level zsl)%nat.
Proof.
  intros [Hwf Hlv Hal] Hup. destruct (deleteNode_spec zsl a it b update Hwf Hup) as (zsl' & Hd & Hwf' & Hh & Hle & Hlv' & Hal').
  pose proof (removed_not_in zsl a it b Hwf) as Hx. exists zsl'. split_and!; [done| |done|done]. split.
  - apply free_wf; [done|by rewrite Hh].
  - done.
  - intros p. cbn. unfold zslFreeNode. destruct (decide (p = it_ptr it)) as [->|Hne].
    + rewrite lookup_delete_eq, Hh. split; [by intros []|]. intros Hin. destruct Hx. by apply elem_of_cons.
    + rewrite lookup_delete_ne, Hal', Hal, Hh by done. rewrite !fmap_app. cbn [fmap list_fmap]. set_solver.
Qed.

(** The item has this score (the two zeros are equal) and element. *)
Definition same_member (score : spec_float) (ele : sds) (it : item) : bool :=
  SFeqb (it_score it) score && bool_decide (it_ele it = ele).

Lemma same_member_key score ele it :
  isnan score = false → isnan (it_score it) = false →
  same_member score ele it = bool_decide (it_key it = key score ele).
Proof.
  intros Hs Hi. unfold same_member, it_key, key, SFeqb. rewrite SFcompare_enc by done.
  destruct (lexcmp (enc_score (it_score it)) (enc_score score)) eqn:Hl.
  - apply lexcmp_eq in Hl. rewrite Hl. apply bool_decide_ext. by rewrite app_inv_head_iff.
  - symmetry. apply bool_decide_eq_false_2. intros Heq. apply app_inj_1 in Heq as [Heq _]; [|by rewrite !length_enc].
    by rewrite Heq, lexcmp_refl in Hl.
  - symmetry. apply bool_decide_eq_false_2. intros Heq. apply app_inj_1 in Heq as [Heq _]; [|by rewrite !length_enc].
    by rewrite Heq, lexcmp_refl in Hl.
Qed.

Lemma wf_nan zsl l it : zsl_wf zsl l → it ∈ l → isnan (it_score it) = false.
Proof. intros Hwf Hin. pose proof (wf_scores _ _ Hwf) as Hok. rewrite Forall_forall in Hok. by apply Hok. Qed.

Lemma delete_spec zsl l score ele :
  zsl_ok zsl l → isnan score = false →
  (∃ a it b zsl', l = a ++ it :: b ∧ same_member score ele it = true ∧
     zslDelete zsl score ele false = Some (zsl', Some (it_ptr it)) ∧ zsl_ok zsl' (a ++ b)) ∨
  (Forall (λ it, same_member score ele it = false) l ∧ zslDelete zsl score ele false = Some (zsl, None)).
Proof.
  intros Hok Hs. pose proof (ok_wf _ _ Hok) as Hwf.
  destruct (locate zsl l score ele Hwf Hs) as (a & b & -> & Ha & Hsearch & Hcase).
  unfold zslDelete. rewrite Hsearch. cbn [mbind option_bind]. rewrite (after_search_spec zsl a b Hwf). cbn [mbind option_bind].
  destruct Hcase as [(it & b' & -> & Hk & Hb)|Hb].
  - left. destruct (node_at zsl a it b' Hwf) as (n & Hn & He & Hsc & _ & Hnan). cbn [head fmap option_fmap option_map].
    rewrite Hn. cbn [mbind option_bind]. rewrite (node_eq_key _ _ _ (it_ele it)) by (by rewrite ?Hsc).
    rewrite Hsc. fold (it_key it). rewrite Hk, lexcmp_refl. rewrite bool_decide_eq_true_2 by done.
    destruct (remove_spec zsl a it b' _ Hok (updates_ok _ _ _)) as (zsl' & -> & Hok' & _). cbn [mbind option_bind].
    exists a, it, b'. eexists. split_and!; [done| |done|done]. rewrite same_member_key by done. by apply bool_decide_eq_true.
  - right. split.
    + apply Forall_forall. intros it Hin. rewrite same_member_key by (try done; by eapply wf_nan).
      apply bool_decide_eq_false. intros Hk. rewrite Forall_forall in Ha, Hb. apply elem_of_app in Hin as [Hin|Hin].
      * specialize (Ha it Hin). by rewrite Hk, lexcmp_refl in Ha.
      * specialize (Hb it Hin). by rewrite Hk, lexcmp_refl in Hb.
    + destruct b as [|it b]; [done|]. cbn [head fmap option_fmap option_map].
      destruct (node_at zsl a it b Hwf) as (n & Hn & He & Hsc & _ & Hnan). rewrite Hn. cbn [mbind option_bind].
      rewrite (node_eq_key _ _ _ (it_ele it)) by (by rewrite ?Hsc). rewrite Hsc. fold (it_key it).
      apply Forall_cons in Hb as [-> _]. done.
Qed.

(** Freeing a whole list. *)
Lemma free_loop_spec l : ∀ h,
  NoDup (it_ptr <$> l) →
  (∀ p it q, l = p ++ it :: q → ∃ s, get_level h (it_ptr it) 0 = Some (it_ptr <$> head q, s)) →
  ∃ h', free_loop (length l) h (it_ptr <$> head l) = Some h' ∧
    ∀ q, h' !! q = if decide (q ∈ it_ptr <$> l) then None else h !! q.
Proof.
  induction l as [|it l IH]; intros h Hnd Hl.
  { exists h. split; [done|]. intros q. rewrite decide_False; [done|]. apply not_elem_of_nil. }
  cbn [fmap list_fmap] in Hnd. apply NoDup_cons in Hnd as [Hni Hnd].
  cbn [length head fmap option_fmap option_map free_loop]. destruct (Hl [] it l eq_refl) as [s ->]. cbn [mbind option_bind].
  destruct (IH (zslFreeNode h (it_ptr it)) Hnd) as (h' & Hf & Hh).
  - intros p z q Heq. destruct (Hl (it :: p) z q) as [s' Hs]; [by rewrite Heq|]. exists s'. rewrite <- Hs.
    unfold get_level, zslFreeNode. rewrite lookup_delete_ne; [done|]. intros He. apply Hni. rewrite He, Heq, fmap_app. set_solver.
  - exists h'. split; [done|]. intros q. rewrite Hh, fmap_cons. unfold zslFreeNode.
    destruct (decide (q = it_ptr it)) as [->|Hne].
    + rewrite lookup_delete_eq. rewrite (decide_True _ _ (list_elem_of_here _ _)). by case_decide.
    + rewrite lookup_delete_ne by done. destruct (decide (q ∈ it_ptr <$> l)) as [Hq|Hq], (decide (q ∈ it_ptr it :: (it_ptr <$> l))) as [Hq'|Hq']; [done|exfalso; set_solver..|done].
Qed.

Lemma free_spec zsl l : zsl_ok zsl l → zslFree zsl = Some ∅.
Proof.
  intros [Hwf _ Hal]. unfold zslFree. destruct (level_0 zsl [] l Hwf) as [s Hs].
  change (last_ptr (zsl_header zsl) []) with (zsl_header zsl) in Hs. rewrite Hs. cbn [mbind option_bind].
  pose proof (no_nodup _ _ _ _ (wf_nodes _ _ Hwf)) as Hnd. apply NoDup_cons in Hnd as [Hh Hnd].
  rewrite (wf_length _ _ Hwf), Nat2Z.id.
  destruct (free_loop_spec l (delete (zsl_header zsl) (zsl_heap zsl)) Hnd) as (h' & -> & Hl).
  - intros p it q Heq. rewrite Heq in Hwf. destruct (level_0 zsl (p ++ [it]) q) as [s' Hs']; [by rewrite <- app_assoc|].
    rewrite last_ptr_snoc in Hs'. exists s'. rewrite <- Hs'. unfold get_level. rewrite lookup_delete_ne; [done|].
    intros He. apply Hh. rewrite He, Heq, fmap_app. set_solver.
  - f_equal. apply map_eq. intros q. rewrite Hl, lookup_empty. case_decide as Hq; [done|].
    destruct (decide (q = zsl_header zsl)) as [->|Hne]; [by rewrite lookup_delete_eq|]. rewrite lookup_delete_ne by done.
    destruct (zsl_heap zsl !! q) eqn:Hsome; [|done]. exfalso. assert (is_Some (zsl_heap zsl !! q)) as Hi by (by eexists).
    apply Hal in Hi as [?|?]; done.
Qed.

(** ** zslInsert and zslUpdateScore *)

Lemma insert_level level lv a b x score ele :
  ((1 < level)%nat → above (pred level) (a ++ b) = true) → (1 < Nat.max level lv)%nat →
  above (pred (Nat.max level lv)) (a ++ Item x score ele lv :: b) = true.
Proof.
  intros Hl Hmax. rewrite above_app. cbn [above existsb it_height]. destruct (decide (level < lv)%nat).
  - rewrite Nat.max_r by lia. rewrite (proj2 (Nat.ltb_lt _ _)) by lia. by rewrite orb_true_r.
  - rewrite Nat.max_l in * by lia. specialize (Hl Hmax). rewrite above_app in Hl. fold (above (pred level) b).
    destruct (above (pred level) a); [done|]. cbn in Hl |- *. rewrite Hl. apply orb_true_r.
Qed.

(** A place for a new member. *)
Lemma insert_place zsl l score ele :
  zsl_wf zsl l → isnan score = false → Forall (λ it, same_member score ele it = false) l →
  ∃ a b, l = a ++ b ∧ Forall (λ it, lexcmp (it_key it) (key score ele) = Lt) a ∧
    Forall (λ it, lexcmp (it_key it) (key score ele) = Gt) b.
Proof.
  intros Hwf Hs Hnew. destruct (locate zsl l score ele Hwf Hs) as (a & b & -> & Ha & _ & [(it & b' & -> & Hk & _)|Hb]).
  - exfalso. rewrite Forall_app, Forall_cons in Hnew. destruct Hnew as (_ & Hnew & _).
    assert (isnan (it_score it) = false) by (eapply wf_nan; [exact Hwf|set_solver]).
    rewrite same_member_key, bool_decide_eq_false in Hnew by done. done.
  - by exists a, b.
Qed.

(** Insertion at a known place. *)
Lemma insert_ok zsl a b score ele rs lv rs' :
  zsl_ok zsl (a ++ b) → isnan score = false → zlen (a ++ b) + 1 < 2 ^ 63 →
  Forall (λ it, lexcmp (it_key it) (key score ele) = Lt) a →
  Forall (λ it, lexcmp (it_key it) (key score ele) = Gt) b →
  zslRandomLevel rs = Some (lv, rs') →
  ∃ zsl' x, zslInsert zsl score ele rs = Some (zsl', x, rs') ∧ zsl_ok zsl' (a ++ Item x score ele lv :: b).
Proof.
  intros [Hwf Hlv Hal] Hs Hsm Ha Hb Hrl.
  destruct (insert_spec zsl a b score ele rs lv rs' Hwf Hs Hsm Ha Hb Hrl) as (zsl' & x & Hins & Hx & Hwf' & Hh & Hl & Hal').
  exists zsl', x. split; [done|]. split; [done| |].
  - rewrite Hl. by apply insert_level.
  - intros p. rewrite Hal', Hal, Hh, !fmap_app. cbn [fmap list_fmap it_ptr]. set_solver.
Qed.

Lemma insert_new zsl l score ele rs lv rs' :
  zsl_ok zsl l → isnan score = false → Forall (λ it, same_member score ele it = false) l →
  zlen l + 1 < 2 ^ 63 → zslRandomLevel rs = Some (lv, rs') →
  ∃ a b zsl' x, l = a ++ b ∧ zslInsert zsl score ele rs = Some (zsl', x, rs') ∧
    zsl_ok zsl' (a ++ Item x score ele lv :: b).
Proof.
  intros Hok Hs Hnew Hsm Hrl. destruct (insert_place zsl l score ele (ok_wf _ _ Hok) Hs Hnew) as (a & b & -> & Ha & Hb).
  destruct (insert_ok zsl a b score ele rs lv rs') as (zsl' & x & ? & ?); [done..|]. by exists a, b, zsl', x.
Qed.

(** C30: [zslInsert] puts a new member at its place in the order: one new node
    of the drawn height, with every forward pointer, span and backward pointer
    of the list right, whatever that height is. *)
Theorem zslInsert_correct zsl l score ele rs lv rs' :
  zsl_ok zsl l → isnan score = false → Forall (λ it, same_member score ele it = false) l →
  zlen l + 1 < 2 ^ 63 → zslRandomLevel rs = Some (lv, rs') →
  ∃ a b zsl' x, l = a ++ b ∧ zslInsert zsl score ele rs = Some (zsl', x, rs') ∧
    zsl_ok zsl' (a ++ Item x score ele lv :: b).
Proof. apply insert_new. Qed.

(** *** A new score in place *)

Definition rescore (s : spec_float) (it : item) : item := Item (it_ptr it) s (it_ele it) (it_height it).
Definition rescore_at (x : ptr) (s : spec_float) (it : item) : item := if decide (it_ptr it = x) then rescore s it else it.

Lemma rescore_ptr x s it : it_ptr (rescore_at x s it) = it_ptr it.
Proof. unfold rescore_at. by case_decide. Qed.
Lemma rescore_height x s it : it_height (rescore_at x s it) = it_height it.
Proof. unfold rescore_at. by case_decide. Qed.

Lemma fwd_rescore x s i (l : list item) : fwd i (rescore_at x s <$> l) = fwd i l.
Proof. induction l as [|it l IH]; [done|]. cbn [fmap list_fmap fwd]. by rewrite rescore_ptr, rescore_height, IH. Qed.

Lemma last_ptr_rescore header x s (p : list item) : last_ptr header (rescore_at x s <$> p) = last_ptr header p.
Proof. unfold last_ptr. rewrite fmap_last. destruct (last p); [|done]. apply rescore_ptr. Qed.

Lemma prev_rescore x s (p : list item) : prev_ptr (rescore_at x s <$> p) = prev_ptr p.
Proof. unfold prev_ptr. rewrite fmap_last. destruct (last p); [|done]. cbn. by rewrite rescore_ptr. Qed.

Lemma rescore_other x s (l : list item) : x ∉ it_ptr <$> l → rescore_at x s <$> l = l.
Proof.
  induction l as [|it l IH]; [done|]. cbn [fmap list_fmap]. intros Hx. rewrite not_elem_of_cons in Hx.
  rewrite IH by tauto. unfold rescore_at. rewrite decide_False by (intros Heq; destruct Hx as [Hx _]; congruence). done.
Qed.

Lemma rescore_list h header level a it b s :
  nodes_ok h header level (a ++ it :: b) → rescore_at (it_ptr it) s <$> a ++ it :: b = a ++ rescore s it :: b.
Proof.
  intros Hno. pose proof (x_not_others h header level a b it Hno) as Hx. cbv zeta in Hx. rewrite fmap_app in Hx. rewrite fmap_app.
  cbn [fmap list_fmap] in Hx |- *. rewrite not_elem_of_cons, not_elem_of_app in Hx.
  rewrite !rescore_other by tauto. unfold rescore_at. by rewrite decide_True.
Qed.

Lemma nodes_rescore h h' header level l x s :
  nodes_ok h header level l → header ≠ x → (∀ q j, get_level h' q j = get_level h q j) →
  (∀ q, shape h' q = if decide (q = x) then (λ '(e, _, b, n), (e, s, b, n)) <$> shape h q else shape h q) →
  nodes_ok h' header level (rescore_at x s <$> l).
Proof.
  intros [H1 H2 H3 H4 H5 H6 H7] Hh Hg Hsh. split.
  - rewrite Hsh. by rewrite decide_False.
  - intros p it q Heq. apply fmap_app_inv in Heq as (p0 & r0 & -> & Hr & Hl).
    destruct r0 as [|it0 q0]; [done|]. cbn [fmap list_fmap] in Hr. injection Hr as -> ->.
    rewrite rescore_ptr, rescore_height, Hsh. rewrite (H2 p0 it0 q0) by done.
    rewrite prev_rescore. unfold rescore_at. by case_decide.
  - intros p q i Heq Hi. apply fmap_app_inv in Heq as (p0 & q0 & -> & -> & Hl).
    rewrite last_ptr_rescore, fwd_rescore, Hg. apply H3; [done|]. unfold top in *. rewrite fmap_last in Hi.
    destruct (last p0); [|done]. cbn in Hi. by rewrite rescore_height in Hi.
  - intros i Hi. rewrite Hg. by apply H4.
  - replace (it_ptr <$> (rescore_at x s <$> l)) with (it_ptr <$> l); [done|]. rewrite <- list_fmap_compose.
    apply list_fmap_ext. intros i z _. cbn. by rewrite rescore_ptr.
  - rewrite Forall_fmap. eapply Forall_impl; [exact H6|]. intros z. cbn. by rewrite rescore_height.
  - done.
Qed.

Lemma set_score_spec zsl a it b s :
  zsl_ok zsl (a ++ it :: b) → isnan s = false → StronglySorted it_lt (a ++ rescore s it :: b) →
  ∃ zsl', set_score zsl (it_ptr it) s = Some zsl' ∧ zsl_ok zsl' (a ++ rescore s it :: b).
Proof.
  intros [Hwf Hlv Hal] Hs Hsort. destruct (node_at zsl a it b Hwf) as (n & Hn & _).
  unfold set_score. rewrite Hn. cbn [mbind option_bind]. eexists. split; [done|].
  assert (Hh : zsl_header zsl ≠ it_ptr it).
  { intros Heq. apply (removed_not_in zsl a it b Hwf). rewrite <- Heq. by left. }
  pose proof Hwf as [Hno _ Hsc Ht Hl Hsm]. split; [split| |]; cbn.
  - rewrite <- (rescore_list _ _ _ _ _ _ s Hno). eapply nodes_rescore; [done|done|..].
    + intros q j. unfold get_level. destruct (decide (q = it_ptr it)) as [->|].
      * by rewrite lookup_insert_eq, Hn.
      * by rewrite lookup_insert_ne by done.
    + intros q. unfold shape. case_decide as Hq; [subst q; by rewrite lookup_insert_eq, Hn|].
      by rewrite lookup_insert_ne by done.
  - done.
  - rewrite Forall_app, Forall_cons in Hsc |- *. tauto.
  - rewrite Ht. unfold prev_ptr. destruct b as [|z b _] using rev_ind; [by rewrite !last_snoc|].
    by rewrite !app_comm_cons, !app_assoc, !last_snoc.
  - rewrite Hl. llia.
  - llia.
  - intros Hgt. specialize (Hlv Hgt). rewrite above_app in Hlv |- *. done.
  - intros p. rewrite <- (rescore_list _ _ _ _ _ _ s Hno).
    replace (it_ptr <$> (rescore_at (it_ptr it) s <$> a ++ it :: b)) with (it_ptr <$> a ++ it :: b).
    + rewrite <- Hal. destruct (decide (p = it_ptr it)) as [->|].
      * rewrite lookup_insert_eq, Hn. by split.
      * by rewrite lookup_insert_ne by done.
    + rewrite <- list_fmap_compose. apply list_fmap_ext. intros i z _. cbn. by rewrite rescore_ptr.
Qed.

Lemma score_lt a b : isnan (it_score a) = false → isnan (it_score b) = false →
  SFltb (it_score a) (it_score b) = true → it_lt a b.
Proof.
  unfold SFltb, it_lt, it_key, key. intros Ha Hb. rewrite SFcompare_enc by done.
  rewrite lexcmp_app by (by rewrite !length_enc). by destruct (lexcmp _ _).
Qed.

(** The neighbours decide that a new score keeps the place. *)
Lemma rescore_sorted a it b s :
  StronglySorted it_lt (a ++ it :: b) → isnan s = false → Forall it_ok (a ++ b) →
  (∀ z, last a = Some z → SFltb (it_score z) s = true) → (∀ z, head b = Some z → SFltb s (it_score z) = true) →
  StronglySorted it_lt (a ++ rescore s it :: b).
Proof.
  intros Hsort Hs Hok Hl Hh. apply sorted_insert; [by eapply sorted_delete| |]; rewrite Forall_app in Hok; destruct Hok as [Ha Hb].
  - destruct a as [|z a _] using rev_ind; [done|]. rewrite last_snoc in Hl. rewrite Forall_app, Forall_singleton in Ha.
    assert (Hz : it_lt z (rescore s it)) by (apply score_lt; [by apply Ha|done|by apply Hl]).
    apply Forall_app. split; [|by apply Forall_singleton]. apply Forall_forall. intros y Hy.
    eapply lexcmp_trans; [|exact Hz]. apply (StronglySorted_app_1_elem_of it_lt a (z :: it :: b)); [|done|by left].
    by rewrite <- app_assoc in Hsort.
  - destruct b as [|z b]; [done|]. apply Forall_cons in Hb as [Hzok _].
    assert (Hz : it_lt (rescore s it) z) by (apply score_lt; [done|done|by apply Hh]). constructor; [done|].
    apply StronglySorted_app_1_r in Hsort. inversion_clear Hsort as [|? ? Hsort' _].
    inversion_clear Hsort' as [|? ? _ Hall]. eapply Forall_impl; [exact Hall|]. intros y Hy. by eapply lexcmp_trans.
Qed.

(** Deleting the node and inserting a new one before the old one is freed. *)
Lemma reinsert_spec zsl a it b s rs lv rs' :
  zsl_ok zsl (a ++ it :: b) → isnan s = false → Forall (λ z, it_ele z ≠ it_ele it) (a ++ b) →
  zslRandomLevel rs = Some (lv, rs') →
  ∃ zsl1 zsl2 x a' b', zslDeleteNode zsl (it_ptr it) (updates (zsl_header zsl) (zsl_level zsl) a) = Some zsl1 ∧
    zslInsert zsl1 s (it_ele it) rs = Some (zsl2, x, rs') ∧ a ++ b = a' ++ b' ∧
    zsl_ok (free_node zsl2 (it_ptr it)) (a' ++ Item x s (it_ele it) lv :: b').
Proof.
  intros [Hwf Hlv Hal] Hs Hne Hrl.
  destruct (deleteNode_spec zsl a it b _ Hwf (updates_ok _ _ _)) as (zsl1 & Hd & Hwf1 & Hh1 & _ & Hlv1 & Hal1).
  assert (Hnew : Forall (λ z, same_member s (it_ele it) z = false) (a ++ b)).
  { eapply Forall_impl; [exact Hne|]. intros z Hz. unfold same_member. rewrite bool_decide_eq_false_2 by done. apply andb_false_r. }
  destruct (insert_place zsl1 (a ++ b) s (it_ele it) Hwf1 Hs Hnew) as (a' & b' & Heq & Ha' & Hb').
  rewrite Heq in Hwf1, Hlv1. pose proof (wf_small _ _ Hwf) as Hsm.
  assert (Hlen : zlen (a' ++ b') + 1 = zlen (a ++ it :: b)) by (rewrite <- Heq; llia).
  destruct (insert_spec zsl1 a' b' s (it_ele it) rs lv rs' Hwf1 Hs ltac:(lia) Ha' Hb' Hrl)
    as (zsl2 & x & Hi & Hx & Hwf2 & Hh2 & Hl2 & Hal2).
  exists zsl1, zsl2, x, a', b'. split_and!; [done..|].
  assert (Hxne : x ≠ it_ptr it).
  { intros ->. assert (is_Some (zsl_heap zsl1 !! it_ptr it)) as Hsome.
    { apply Hal1, Hal. right. rewrite fmap_app. set_solver. }
    rewrite Hx in Hsome. by destruct Hsome. }
  pose proof (removed_not_in zsl a it b Hwf) as Hold. rewrite Heq in Hold.
  split; [apply free_wf; [done|]| |].
  - rewrite Hh2, Hh1. rewrite fmap_app in Hold |- *. cbn [fmap list_fmap it_ptr]. set_solver.
  - cbn. rewrite Hl2. by apply insert_level.
  - intros p. cbn. unfold zslFreeNode. rewrite Hh2, Hh1, fmap_app. cbn [fmap list_fmap it_ptr].
    destruct (decide (p = it_ptr it)) as [->|].
    + rewrite lookup_delete_eq. rewrite fmap_app in Hold. split; [by intros []|]. set_solver.
    + rewrite lookup_delete_ne, Hal2, Hal1, Hal by done.
      assert (p ∈ it_ptr <$> a ++ it :: b ↔ p ∈ it_ptr <$> a' ++ b') as ->.
      { rewrite <- Heq, !fmap_app. cbn [fmap list_fmap]. set_solver. }
      rewrite fmap_app. set_solver.
Qed.

(** The tests on the neighbours of a node. *)
Lemma before_test zsl a it b s :
  zsl_wf zsl (a ++ it :: b) →
  match prev_ptr a with
  | None => Some true
  | Some p => nb ← zsl_heap zsl !! p; Some (SFltb (zn_score nb) s)
  end = Some (match last a with None => true | Some z => SFltb (it_score z) s end).
Proof.
  intros Hwf. unfold prev_ptr. destruct (last a) as [z|] eqn:Hl; [|done]. cbn [fmap option_fmap option_map].
  apply last_Some in Hl as [p ->]. rewrite <- app_assoc in Hwf. destruct (node_at zsl p z (it :: b) Hwf) as (n & -> & _ & Hs & _).
  cbn [mbind option_bind]. by rewrite Hs.
Qed.

Lemma after_test zsl a it b s :
  zsl_wf zsl (a ++ it :: b) →
  match it_ptr <$> head b with
  | None => Some true
  | Some p => nb ← zsl_heap zsl !! p; Some (SFltb s (zn_score nb))
  end = Some (match head b with None => true | Some z => SFltb s (it_score z) end).
Proof.
  intros Hwf. destruct b as [|z b]; [done|]. cbn [head fmap option_fmap option_map].
  destruct (node_at zsl (a ++ [it]) z b) as (n & -> & _ & Hs & _); [by rewrite <- app_assoc|].
  cbn [mbind option_bind]. by rewrite Hs.
Qed.

Lemma updateScore_spec zsl l curscore ele newscore rs lv rs' :
  zsl_ok zsl l → isnan curscore = false → isnan newscore = false → NoDup (it_ele <$> l) →
  Exists (λ it, same_member curscore ele it = true) l → zslRandomLevel rs = Some (lv, rs') →
  ∃ a it b a' b' zsl' x h rs'', l = a ++ it :: b ∧ same_member curscore ele it = true ∧ a ++ b = a' ++ b' ∧
    zslUpdateScore zsl curscore ele newscore rs = Some (zsl', x, rs'') ∧
    zsl_ok zsl' (a' ++ Item x newscore ele h :: b').
Proof.
  intros Hok Hc Hs Hnd Hex Hrl. pose proof (ok_wf _ _ Hok) as Hwf.
  destruct (locate zsl l curscore ele Hwf Hc) as (a & b0 & -> & Ha & Hsearch & Hcase).
  assert (∃ it b, b0 = it :: b ∧ same_member curscore ele it = true) as (it & b & -> & Hit).
  { destruct Hcase as [(it & b & -> & Hk & _)|Hb].
    - exists it, b. split; [done|]. destruct (node_at zsl a it b Hwf) as (? & _ & _ & _ & _ & Hnan).
      rewrite same_member_key by done. by apply bool_decide_eq_true.
    - exfalso. apply Exists_exists in Hex as (z & Hz & Hm). rewrite same_member_key in Hm by (try done; by eapply wf_nan).
      apply bool_decide_eq_true in Hm. rewrite Forall_forall in Ha, Hb. apply elem_of_app in Hz as [Hz|Hz].
      + specialize (Ha z Hz). by rewrite Hm, lexcmp_refl in Ha.
      + specialize (Hb z Hz). by rewrite Hm, lexcmp_refl in Hb. }
  destruct (node_at zsl a it b Hwf) as (n & Hn & He & Hsc & Hbk & Hnan).
  assert (Hel : it_ele it = ele) by (unfold same_member in Hit; apply andb_true_iff in Hit as [_ Hit]; by apply bool_decide_eq_true in Hit).
  unfold zslUpdateScore. rewrite Hsearch. cbn [mbind option_bind]. rewrite (after_search_spec zsl a _ Hwf).
  cbn [mbind option_bind head fmap option_fmap option_map]. rewrite Hn. cbn [mbind option_bind].
  rewrite (node_eq_key _ _ _ (it_ele it)) by (by rewrite ?Hsc). rewrite Hsc. fold (it_key it).
  rewrite same_member_key, bool_decide_eq_true in Hit by done. rewrite Hit, lexcmp_refl. rewrite bool_decide_eq_true_2 by done.
  cbn [mbind option_bind assert]. rewrite Hbk, (before_test zsl a it b newscore Hwf). cbn [mbind option_bind].
  assert (Hwf' : zsl_wf zsl ((a ++ [it]) ++ b)) by (by rewrite <- app_assoc).
  destruct (level_0 zsl (a ++ [it]) b Hwf') as [sp Hsp]. rewrite last_ptr_snoc in Hsp. rewrite Hsp. cbn [mbind option_bind].
  rewrite (after_test zsl a it b newscore Hwf). cbn [mbind option_bind]. destruct (_ && _) eqn:Htest.
  - apply andb_true_iff in Htest as [Ht1 Ht2].
    destruct (set_score_spec zsl a it b newscore Hok Hs) as (zsl' & -> & Hok').
    { apply rescore_sorted; [apply Hwf|done| | |].
      - pose proof (wf_scores _ _ Hwf) as Hall. rewrite Forall_app, Forall_cons in Hall. rewrite Forall_app. tauto.
      - intros z Hz. by rewrite Hz in Ht1.
      - intros z Hz. by rewrite Hz in Ht2. }
    cbn [mbind option_bind]. exists a, it, b, a, b, zsl', (it_ptr it), (it_height it), rs.
    split_and!; [done| |done|done|by subst ele]. rewrite same_member_key by done. by apply bool_decide_eq_true.
  - destruct (reinsert_spec zsl a it b newscore rs lv rs' Hok Hs) as (zsl1 & zsl2 & x & a' & b' & Hd & Hi & Heq & Hok'); [|done|].
    { rewrite fmap_app in Hnd. cbn [fmap list_fmap] in Hnd. rewrite <- Permutation_middle in Hnd.
      apply NoDup_cons in Hnd as [Hnd _]. apply Forall_forall. intros z Hz Heq. apply Hnd. rewrite <- fmap_app, <- Heq.
      by apply list_elem_of_fmap_2. }
    rewrite Hd. cbn [mbind option_bind]. rewrite He. cbn [mbind option_bind]. rewrite Hi. cbn [mbind option_bind].
    exists a, it, b, a', b'. do 4 eexists. split_and!; [done| |done|done|by subst ele].
    rewrite same_member_key by done. by apply bool_decide_eq_true.
Qed.

(** ** Creation, and an example *)

Lemma zslCreate_ok : zsl_ok zslCreate [].
Proof.
  assert (Hh : zsl_heap zslCreate = {[zsl_header zslCreate := Node None (S754_zero false) None (replicate 32 (None, 0))]}) by done.
  split; [split; [|constructor|done..]|cbn; lia|].
  - split.
    + do 2 eexists. unfold shape. by rewrite Hh, lookup_singleton_eq.
    + intros p it q Hn. by destruct p.
    + intros p q i Hn Hi. symmetry in Hn. apply app_nil in Hn as [-> ->].
      change (last_ptr _ _) with (zsl_header zslCreate). unfold get_level. rewrite Hh, lookup_singleton_eq. cbn [mbind option_bind zn_level].
      change (top _ _) with 1%nat in Hi. by replace i with O by lia.
    + intros i Hi. exists 0. unfold get_level. rewrite Hh, lookup_singleton_eq. cbn [mbind option_bind zn_level].
      unfold ZSKIPLIST_MAXLEVEL in Hi. by rewrite lookup_replicate_2 by lia.
    + apply NoDup_singleton.
    + done.
    + cbn. unfold ZSKIPLIST_MAXLEVEL. lia.
  - intros p. rewrite Hh. cbn [fmap list_fmap]. rewrite elem_of_nil, lookup_singleton_is_Some. intuition congruence.
Qed.

(** Three members, inserted out of order with levels 2, 1 and 2; 1.0, 2.0 and
    3.0 are doubles with a 53 bit mantissa. *)
Definition dbl (m : positive) (e : Z) : spec_float := S754_finite false m e.
Definition one : spec_float := dbl 4503599627370496 (-52).
Definition two : spec_float := dbl 4503599627370496 (-51).
Definition three : spec_float := dbl 6755399441055744 (-51).
Definition low : Z := 0.
Definition high : Z := 2 ^ 31 - 1.

Definition insert_all (ms : list (spec_float * sds * list Z)) : option zskiplist :=
  foldl (λ z '(s, e, rs), zsl ← z; '(zsl, _, _) ← zslInsert zsl s e rs; Some zsl) (Some zslCreate) ms.
Definition ex_members : list (spec_float * sds * list Z) :=
  [(two, [98], [low; high]); (one, [99], [high]); (two, [97], [low; low; high])].
Definition ex_step (n : nat) : zskiplist := default zslCreate (insert_all (take n ex_members)).
Definition ex_zsl : zskiplist := ex_step 3.
Definition ex_items : list item := [Item 3%positive one [99] 1; Item 4%positive two [97] 3; Item 2%positive two [98] 2].

Lemma insert_eq zsl a b score ele rs lv rs' zsl' x :
  zslInsert zsl score ele rs = Some (zsl', x, rs') → zsl_ok zsl (a ++ b) → isnan score = false →
  zlen (a ++ b) + 1 < 2 ^ 63 → Forall (λ it, lexcmp (it_key it) (key score ele) = Lt) a →
  Forall (λ it, lexcmp (it_key it) (key score ele) = Gt) b → zslRandomLevel rs = Some (lv, rs') →
  zsl_ok zsl' (a ++ Item x score ele lv :: b).
Proof.
  intros Hins Hok Hs Hsm Ha Hb Hrl. destruct (insert_ok zsl a b score ele rs lv rs') as (z & y & Hz & Hok'); [done..|].
  rewrite Hz in Hins. by injection Hins as -> ->.
Qed.

Lemma ex_ok_1 : zsl_ok (ex_step 1) (drop 2 ex_items).
Proof. eapply (insert_eq (ex_step 0) [] [] two [98] [low; high] 2 []); [by vm_compute|apply zslCreate_ok|by repeat constructor..]. Qed.

Lemma ex_ok : zsl_ok ex_zsl ex_items.
Proof.
  assert (H2 : zsl_ok (ex_step 2) [Item 3%positive one [99] 1; Item 2%positive two [98] 2]).
  { eapply (insert_eq (ex_step 1) [] [_] one [99] [high] 1 []); [by vm_compute|exact ex_ok_1|by repeat constructor..]. }
  eapply (insert_eq (ex_step 2) [_] [_] two [97] [low; low; high] 3 []); [by vm_compute|exact H2|by repeat constructor..].
Qed.

Lemma zslInsert_witness :
  ∃ a b zsl' x, ex_items = a ++ b ∧ zslInsert ex_zsl three [97] [low; high] = Some (zsl', x, []) ∧
    zsl_ok zsl' (a ++ Item x three [97] 2 :: b).
Proof. apply (zslInsert_correct ex_zsl ex_items three [97] [low; high] 2 [] ex_ok); by repeat constructor. Defined.

End ZslOps.
