(* ===== verification/ZslRange.v ===== *)
(** * t_zset.c: ranks and ranges of a skiplist

    A range is two tests, one that an upper part of the order passes and one
    that a lower part passes.  The functions on ranges are proved against this
    interface; score ranges and, when all scores are equal, lexicographic
    ranges implement it. *)

From S2P Require Import Prelude Dict DictInv Zskiplist Double ZslInv ZslOps.
Import Dict DictInv Zskiplist Double ZslInv ZslOps.

Module ZslRange.

(** ** Ranks *)

(** Where the search with an early exit ends. *)
Definition until_result (h : heap) (header : ptr) (found : zskiplistNode → Z → bool) (a : list item) (lv : nat)
    (r : option (ptr * Z)) : Prop :=
  match r with
  | Some (x, rank) => ∃ i n, (i < lv)%nat ∧ x = last_ptr header (cut i a) ∧ rank = zlen (cut i a) ∧
      h !! x = Some n ∧ found n rank = true
  | None => ∀ i, (i < lv)%nat → ∃ n, h !! last_ptr header (cut i a) = Some n ∧ found n (zlen (cut i a)) = false
  end.

Lemma descend_until_spec h header level go found a b fuel : ∀ lv p m,
  nodes_ok h header level (a ++ b) → goes h go a b → zlen (a ++ b) < 2 ^ 63 → (length a < fuel)%nat →
  a = p ++ m → (lv ≤ top level p)%nat → (lv ≤ level)%nat →
  ∃ r, descend_until fuel h go found lv (last_ptr header p) (zlen p) = Some r ∧ until_result h header found a lv r.
Proof.
  induction lv as [|i IH]; intros p m Hno Hgo Hsm Hf -> Htop Hlv.
  { exists None. split; [done|]. intros i Hi. lia. }
  cbn [descend_until]. rewrite (walk_spec h header level go b i fuel p m) by (try done; llia). cbn [mbind option_bind].
  destruct (cut_spec i level (p ++ m)) as (r & Heq & Hr & Ht); [lia|].
  assert (Hcut : cut i (p ++ m) = p ++ cut i m).
  { destruct (above i m) eqn:Ha; [by apply cut_app|]. rewrite (cut_nil i m Ha), app_nil_r.
    by apply (cut_unique i level). }
  rewrite <- Hcut in *. destruct (ptr_of_list h header level ((p ++ m) ++ b) (cut i (p ++ m)) (r ++ b) Hno) as [s Hs].
  { by rewrite app_assoc, <- Heq. }
  destruct s as [[[e sc] bk] n0]. apply shape_node in Hs as (n & Hn & _). rewrite Hn. cbn [mbind option_bind].
  destruct (found n (zlen (cut i (p ++ m)))) eqn:Hfound.
  - eexists. split; [done|]. exists i, n. split_and!; [lia|done..].
  - destruct (IH (cut i (p ++ m)) r) as (res & -> & Hres); [done..|lia|lia|].
    exists res. split; [done|]. destruct res as [[x rank]|].
    + destruct Hres as (j & nj & Hj & Hrest). exists j, nj. split; [lia|done].
    + intros j Hj. destruct (decide (j = i)) as [->|]; [by exists n|]. apply Hres. lia.
Qed.

Lemma search_until zsl a b go found :
  zsl_wf zsl (a ++ b) → goes (zsl_heap zsl) go a b →
  ∃ r, descend_until (zsl_fuel zsl) (zsl_heap zsl) go found (zsl_level zsl) (zsl_header zsl) 0 = Some r ∧
    until_result (zsl_heap zsl) (zsl_header zsl) found a (zsl_level zsl) r.
Proof.
  intros Hwf Hgo. pose proof (wf_nodes _ _ Hwf) as Hno. pose proof (wf_small _ _ Hwf).
  pose proof (wf_length _ _ Hwf) as Hl. change (zsl_header zsl) with (last_ptr (zsl_header zsl) []) at 1.
  change 0 with (zlen (@nil item)). apply (descend_until_spec _ _ (zsl_level zsl) _ _ a b _ _ [] a); try done.
  unfold zsl_fuel. rewrite Hl. llia.
Qed.

(** The node at the end of a prefix of the list. *)
Lemma node_last zsl p it q :
  zsl_wf zsl (p ++ it :: q) →
  ∃ n, zsl_heap zsl !! last_ptr (zsl_header zsl) (p ++ [it]) = Some n ∧ zn_ele n = Some (it_ele it) ∧
    zn_score n = it_score it.
Proof. intros Hwf. rewrite last_ptr_snoc. destruct (node_at zsl p it q Hwf) as (n & Hn & He & Hs & _). by exists n. Qed.

Lemma header_ele zsl l : zsl_wf zsl l → ∃ n, zsl_heap zsl !! zsl_header zsl = Some n ∧ zn_ele n = None.
Proof.
  intros Hwf. destruct (no_header _ _ _ _ (wf_nodes _ _ Hwf)) as (s & b & Hsh).
  apply shape_node in Hsh as (n & Hn & He & _). by exists n.
Qed.

(** Items up to a key. *)
Definition upto (k : list Z) (it : item) : bool := bool_decide (lexcmp (it_key it) k ≠ Gt).

Lemma upto_mono k x y : it_lt x y → upto k y = true → upto k x = true.
Proof.
  unfold upto, it_lt. rewrite !bool_decide_eq_true. intros Hlt Hy. destruct (lexcmp (it_key y) k) eqn:Hc; [|..|done].
  - apply lexcmp_eq in Hc. subst k. by rewrite Hlt.
  - rewrite (lexcmp_trans _ _ _ Hlt Hc). done.
Qed.

Lemma goes_le zsl a b score ele :
  zsl_wf zsl (a ++ b) → isnan score = false →
  Forall (λ it, upto (key score ele) it = true) a → Forall (λ it, upto (key score ele) it = false) b →
  goes (zsl_heap zsl) (node_le score ele) a b.
Proof.
  intros Hwf Hs Ha Hb. eapply goes_pred; [apply Hwf| |exact Ha|exact Hb].
  intros it n r Hin He Hsc. pose proof (wf_nan _ _ _ Hwf Hin) as Hn.
  rewrite (node_le_key _ _ _ _ (it_ele it)) by (by rewrite ?Hsc). unfold upto, it_key. by rewrite Hsc.
Qed.

Lemma sorted_lt_mid p it q :
  StronglySorted it_lt (p ++ it :: q) → Forall (λ z, it_lt z it) p ∧ Forall (it_lt it) q.
Proof.
  intros Hs. split.
  - apply Forall_forall. intros z Hz. apply (StronglySorted_app_1_elem_of it_lt p (it :: q)); [done|done|by left].
  - apply StronglySorted_app_1_r in Hs. by inversion_clear Hs.
Qed.

Lemma upto_split p it q :
  StronglySorted it_lt (p ++ it :: q) →
  Forall (λ z, upto (it_key it) z = true) (p ++ [it]) ∧ Forall (λ z, upto (it_key it) z = false) q.
Proof.
  intros [Hp Hq]%sorted_lt_mid. split.
  - apply Forall_app. split.
    + eapply Forall_impl; [exact Hp|]. intros z Hz. unfold upto, it_lt in *. by rewrite Hz.
    + apply Forall_singleton. unfold upto. by rewrite lexcmp_refl.
  - eapply Forall_impl; [exact Hq|]. intros z Hz. unfold upto, it_lt in *. rewrite lexcmp_antisym, Hz. done.
Qed.

(** A stop that satisfies the final test is an item with the key. *)
Lemma until_found zsl a b score ele i n :
  zsl_wf zsl (a ++ b) → isnan score = false →
  zsl_heap zsl !! last_ptr (zsl_header zsl) (cut i a) = Some n → node_eq score ele n = true →
  ∃ p z r, cut i a = p ++ [z] ∧ a = p ++ z :: r ∧ it_key z = key score ele.
Proof.
  intros Hwf Hs Hn Heq. destruct (cut_rest i (S i) a) as (Ha & _); [lia|].
  destruct (cut i a) as [|z p _] using rev_ind.
  { destruct (header_ele zsl _ Hwf) as (n' & Hn' & He). cbn in Hn. assert (n' = n) as -> by congruence.
    unfold node_eq in Heq. by rewrite He in Heq. }
  exists p, z, (rest i a). rewrite <- app_assoc in Ha. cbn [app] in Ha. split_and!; [done|done|].
  assert (Hin : z ∈ a ++ b) by (rewrite Ha; set_solver). pose proof (wf_nan _ _ _ Hwf Hin) as Hz.
  rewrite Ha, <- app_assoc in Hwf. destruct (node_last zsl p z (rest i a ++ b) Hwf) as (n' & Hn' & He & Hsc).
  assert (n' = n) as -> by congruence. rewrite (node_eq_key _ _ _ (it_ele z)) in Heq by (by rewrite ?Hsc).
  rewrite Hsc, bool_decide_eq_true in Heq. by apply lexcmp_eq in Heq.
Qed.

Lemma getRank_spec zsl p it q score ele :
  zsl_wf zsl (p ++ it :: q) → isnan score = false → it_key it = key score ele →
  zslGetRank zsl score ele = Some (zlen p + 1).
Proof.
  intros Hwf Hs Hk. destruct (upto_split p it q (wf_sorted _ _ Hwf)) as [Ha Hb]. rewrite Hk in Ha, Hb.
  assert (Hwf' : zsl_wf zsl ((p ++ [it]) ++ q)) by (by rewrite <- app_assoc).
  unfold zslGetRank. destruct (search_until zsl (p ++ [it]) q (node_le score ele) (λ n _, node_eq score ele n) Hwf')
    as (r & -> & Hr); [by apply goes_le|]. cbn [mbind option_bind]. destruct r as [[x rank]|].
  - destruct Hr as (i & n & Hi & -> & -> & Hn & Heq).
    destruct (until_found zsl (p ++ [it]) q score ele i n Hwf' Hs Hn Heq) as (p' & z & r & Hcut & Hpz & Hkz).
    rewrite Hcut. apply app_split in Hpz as [(k & -> & Hq)|(k & z' & -> & Hq)].
    + destruct k as [|y k].
      * cbn [app] in Hq. injection Hq as <- <-. f_equal. llia.
      * exfalso. cbn [app] in Hq. injection Hq as <- ->. rewrite <- app_assoc in Hwf.
        destruct (sorted_lt_mid p' z (k ++ it :: q) (wf_sorted _ _ Hwf)) as [_ Hlt].
        rewrite Forall_app, Forall_cons in Hlt. destruct Hlt as (_ & Hlt & _). unfold it_lt in Hlt.
        rewrite Hkz, Hk, lexcmp_refl in Hlt. done.
    + exfalso. apply (f_equal length) in Hq. rewrite !length_app in Hq. cbn [length] in Hq. lia.
  - exfalso. pose proof (no_max _ _ _ _ (wf_nodes _ _ Hwf)). destruct (Hr O) as (n & Hn & Heq); [lia|].
    rewrite (cut_0_list zsl (p ++ [it]) q Hwf') in Hn.
    destruct (node_last zsl p it q Hwf) as (n' & Hn' & He & Hsc). assert (n' = n) as -> by congruence.
    assert (Hnan : isnan (it_score it) = false) by (eapply wf_nan; [exact Hwf|set_solver]).
    rewrite (node_eq_key _ _ _ (it_ele it)) in Heq by (by rewrite ?Hsc). rewrite Hsc in Heq. fold (it_key it) in Heq.
    by rewrite Hk, lexcmp_refl in Heq.
Qed.

Lemma getRank_none zsl l score ele :
  zsl_wf zsl l → isnan score = false → Forall (λ it, same_member score ele it = false) l →
  zslGetRank zsl score ele = Some 0.
Proof.
  intros Hwf Hs Hnone. destruct (split_sorted (upto (key score ele)) l) as (a & b & -> & Ha & Hb);
    [apply Hwf|intros x y _ _; apply upto_mono|].
  unfold zslGetRank. destruct (search_until zsl a b (node_le score ele) (λ n _, node_eq score ele n) Hwf)
    as (r & -> & Hr); [by apply goes_le|]. cbn [mbind option_bind]. destruct r as [[x rank]|]; [|done]. exfalso.
  destruct Hr as (i & n & Hi & -> & -> & Hn & Heq).
  destruct (until_found zsl a b score ele i n Hwf Hs Hn Heq) as (p & z & r & _ & -> & Hk).
  rewrite !Forall_app, Forall_cons in Hnone. destruct Hnone as ((_ & Hz & _) & _).
  rewrite same_member_key, bool_decide_eq_false in Hz; [done|done|]. eapply wf_nan; [exact Hwf|set_solver].
Qed.

Lemma goes_rank zsl l r :
  0 ≤ r → goes (zsl_heap zsl) (λ _ traversed, traversed <=? r) (take (Z.to_nat r) l) (drop (Z.to_nat r) l).
Proof.
  intros Hr p it q n Heq _. rewrite take_drop in Heq. rewrite length_take, Heq, length_app. cbn [length].
  destruct (Z.leb_spec (zlen p + 1) r); symmetry; [apply bool_decide_eq_true_2|apply bool_decide_eq_false_2]; lia.
Qed.

Lemma getElementByRank_spec zsl l r :
  zsl_wf zsl l → 1 ≤ r → zslGetElementByRank zsl r = Some (it_ptr <$> l !! Z.to_nat (r - 1)).
Proof.
  intros Hwf Hr. unfold zslGetElementByRank. pose proof Hwf as Hwf'. rewrite <- (take_drop (Z.to_nat r) l) in Hwf'.
  destruct (search_until zsl _ _ _ (λ _ traversed, traversed =? r) Hwf' (goes_rank zsl l r ltac:(lia))) as (res & -> & Hres).
  cbn [mbind option_bind]. f_equal. destruct res as [[x rank]|].
  - destruct Hres as (i & n & Hi & -> & -> & Hn & Heq). apply Z.eqb_eq in Heq.
    destruct (cut_rest i (S i) (take (Z.to_nat r) l)) as (Ha & _); [lia|].
    assert (Hrest : rest i (take (Z.to_nat r) l) = []).
    { apply nil_length_inv. apply (f_equal length) in Ha. rewrite length_app, length_take in Ha. lia. }
    rewrite Hrest, app_nil_r in Ha. rewrite <- Ha. rewrite <- Ha, length_take in Heq.
    replace (Z.to_nat r) with (S (Z.to_nat (r - 1))) by lia.
    destruct (lookup_lt_is_Some_2 l (Z.to_nat (r - 1))) as [z Hz]; [lia|].
    rewrite (take_S_r _ _ _ Hz), last_ptr_snoc, Hz. done.
  - destruct (l !! Z.to_nat (r - 1)) as [z|] eqn:Hz; [|done]. exfalso. apply lookup_lt_Some in Hz.
    pose proof (no_max _ _ _ _ (wf_nodes _ _ Hwf)). destruct (Hres O) as (n & _ & Heq); [lia|].
    rewrite (cut_0_list zsl _ _ Hwf'), length_take in Heq. apply Z.eqb_neq in Heq. lia.
Qed.

(** The 1-based position of a member in the order; 0 when it is not there. *)
Definition position (score : spec_float) (ele : sds) (l : list item) : Z :=
  match list_find (λ it, same_member score ele it = true) l with Some (i, _) => Z.of_nat i + 1 | None => 0 end.

Lemma rank_spec zsl l score ele :
  zsl_ok zsl l → isnan score = false → zslGetRank zsl score ele = Some (position score ele l).
Proof.
  intros [Hwf _ _] Hs. unfold position. destruct (list_find _ l) as [[i it]|] eqn:Hf.
  - apply list_find_Some in Hf as (Hi & Hm & _). pose proof (list_elem_of_lookup_2 _ _ _ Hi) as Hin.
    rewrite same_member_key, bool_decide_eq_true in Hm by (done || by eapply wf_nan).
    apply list_elem_of_split_length in Hi as (p & q & -> & ->). by apply (getRank_spec zsl p it q).
  - apply list_find_None in Hf. eapply getRank_none; [done..|]. eapply Forall_impl; [exact Hf|]. intros it ?.
    by apply not_true_iff_false.
Qed.

(** Ranks.  [zslGetRank] is the position of the member in the order, 0
    when there is none, and [zslGetElementByRank] the node at a position, NULL
    above the length: the spans add up on every path through the levels. *)
Lemma zsl_rank_correct zsl l :
  zsl_ok zsl l →
  (∀ score ele, isnan score = false → zslGetRank zsl score ele = Some (position score ele l)) ∧
  (∀ rank, 1 ≤ rank → zslGetElementByRank zsl rank = Some (it_ptr <$> l !! Z.to_nat (rank - 1))).
Proof.
  intros Hok. split; [by intros; apply rank_spec|]. intros rank Hr. apply getElementByRank_spec; [apply Hok|done].
Qed.

(** ** Ranges *)

Lemma filter_all {A} (P : A → Prop) `{∀ x, Decision (P x)} (l : list A) : Forall P l → filter P l = l.
Proof. induction 1 as [|x l Hx _ IH]; [done|]. by rewrite filter_cons_True, IH. Qed.
Lemma filter_none {A} (P : A → Prop) `{∀ x, Decision (P x)} (l : list A) : Forall (λ x, ¬ P x) l → filter P l = [].
Proof. induction 1 as [|x l Hx _ IH]; [done|]. by rewrite filter_cons_False. Qed.

(** What the functions on ranges rely on. *)
Class RangeOk (r : range) (l : list item) (fmin fmax : item → bool) := {
  ro_min : ∀ it n, it ∈ l → zn_ele n = Some (it_ele it) → zn_score n = it_score it → r_gte_min r n = fmin it;
  ro_max : ∀ it n, it ∈ l → zn_ele n = Some (it_ele it) → zn_score n = it_score it → r_lte_max r n = fmax it;
  ro_up : ∀ x y, x ∈ l → y ∈ l → it_lt x y → fmin x = true → fmin y = true;
  ro_down : ∀ x y, x ∈ l → y ∈ l → it_lt x y → fmax y = true → fmax x = true;
  ro_empty : r_empty r = true → ∀ it, it ∈ l → fmin it && fmax it = false;
}.

Section range.
Context (r : range) (fmin fmax : item → bool).
Implicit Type (zsl : zskiplist) (l : list item).

(** The items of the range, in order. *)
Definition in_range l : list item := filter (λ it, fmin it && fmax it = true) l.

(** Items below the range, in it and above it. *)
Lemma range_parts l `{!RangeOk r l fmin fmax} :
  StronglySorted it_lt l →
  ∃ a c d, l = a ++ c ++ d ∧ Forall (λ it, fmin it = false) a ∧ Forall (λ it, fmin it = true ∧ fmax it = true) c ∧
    Forall (λ it, fmin it = true ∧ fmax it = false) d ∧ in_range l = c.
Proof.
  intros Hs. destruct (split_sorted (λ it, negb (fmin it)) l Hs) as (a & b & -> & Ha & Hb).
  { intros x y Hx Hy Hlt Hn. destruct (fmin x) eqn:E; [|done]. by rewrite (ro_up x y Hx Hy Hlt E) in Hn. }
  destruct (split_sorted fmax b) as (c & d & -> & Hc & Hd).
  { by eapply StronglySorted_app_1_r. }
  { intros x y Hx Hy. apply ro_down; apply elem_of_app; by right. }
  exists a, c, d.
  assert (Ha' : Forall (λ it, fmin it = false) a) by (eapply Forall_impl; [exact Ha|]; cbn; intros it; by destruct (fmin it)).
  assert (Hb' : Forall (λ it, fmin it = true) (c ++ d)) by (eapply Forall_impl; [exact Hb|]; cbn; intros it; by destruct (fmin it)).
  rewrite Forall_app in Hb'. destruct Hb' as [Hbc Hbd].
  assert (Hc' : Forall (λ it, fmin it = true ∧ fmax it = true) c) by (by apply Forall_and).
  assert (Hd' : Forall (λ it, fmin it = true ∧ fmax it = false) d) by (by apply Forall_and).
  split_and!; [done..|]. unfold in_range. rewrite !filter_app.
  rewrite (filter_none _ a), (filter_all _ c), (filter_none _ d); [by rewrite app_nil_r|..].
  - eapply Forall_impl; [exact Hd'|]. by intros it [-> ->].
  - eapply Forall_impl; [exact Hc'|]. by intros it [-> ->].
  - eapply Forall_impl; [exact Ha'|]. by intros it ->.
Qed.

(** The quick test: when it fails the range is empty, when it passes the last
    item is not below it and the first is not above it. *)
Lemma is_in_range_spec zsl l `{!RangeOk r l fmin fmax} :
  zsl_wf zsl l →
  ∃ inside, is_in_range zsl r = Some inside ∧
    if (inside : bool) then (∃ z, last l = Some z ∧ fmin z = true) ∧ (∃ z, head l = Some z ∧ fmax z = true)
    else in_range l = [].
Proof.
  intros Hwf. destruct (range_parts l (wf_sorted _ _ Hwf)) as (a & c & d & Hl & Ha & Hc & Hd & Hin).
  assert (Hnone : (∀ z, z ∈ l → fmin z && fmax z = false) → in_range l = []).
  { intros Hz. rewrite Hin. destruct c as [|z c]; [done|]. apply Forall_cons in Hc as [[E1 E2] _].
    specialize (Hz z). rewrite E1, E2 in Hz. assert (z ∈ l) as Hm by (rewrite Hl; set_solver). by apply Hz in Hm. }
  unfold is_in_range. destruct (r_empty r) eqn:He.
  { exists false. split; [done|]. apply Hnone. by apply ro_empty. }
  rewrite (wf_tail _ _ Hwf). unfold prev_ptr. destruct (last l) as [t|] eqn:Hlast.
  2:{ exists false. split; [done|]. apply last_None in Hlast. apply Hnone. rewrite Hlast. by intros z ?%elem_of_nil. }
  cbn [fmap option_fmap option_map]. pose proof Hlast as [p Hp]%last_Some.
  assert (Ht : t ∈ l) by (rewrite Hp; set_solver).
  assert (Hwf1 : zsl_wf zsl (p ++ t :: [])) by (by rewrite <- Hp). destruct (node_at zsl p t [] Hwf1) as (n & -> & Hne & Hns & _).
  cbn [mbind option_bind]. rewrite (ro_min t n Ht Hne Hns). destruct (fmin t) eqn:Ht1; cbn [negb].
  2:{ exists false. split; [done|]. apply Hnone. intros z Hz. destruct (fmin z) eqn:Hz1; [|done].
      rewrite Hp in Hz. apply elem_of_app in Hz as [Hz | ->%list_elem_of_singleton]; [|congruence].
      assert (it_lt z t) as Hlt by (apply (StronglySorted_app_1_elem_of it_lt p [t]); [apply Hwf1|done|by left]).
      rewrite (ro_up z t) in Ht1; [done|rewrite Hp; set_solver|done..]. }
  destruct (level_0 zsl [] l Hwf) as [s Hs]. cbn [last_ptr last] in Hs. change (last_ptr (zsl_header zsl) []) with (zsl_header zsl) in Hs.
  rewrite Hs. cbn [mbind option_bind]. destruct l as [|f l]; [done|]. cbn [head fmap option_fmap option_map].
  destruct (node_at zsl [] f l Hwf) as (nf & -> & Hfe & Hfs & _). cbn [mbind option_bind]. eexists. split; [done|].
  assert (Hf : f ∈ f :: l) by (by left). rewrite (ro_max f nf Hf Hfe Hfs). destruct (fmax f) eqn:Hf1.
  - split; [by exists t|by exists f].
  - apply Hnone. intros z Hz. destruct (fmax z) eqn:Hz1; [|by rewrite andb_false_r].
    apply elem_of_cons in Hz as [-> | Hz]; [congruence|]. pose proof (wf_sorted _ _ Hwf) as Hsort.
    inversion_clear Hsort as [|? ? _ Hall]. rewrite Forall_forall in Hall.
    rewrite (ro_down f z) in Hf1; [done|done|by right|by apply Hall|done].
Qed.

Lemma goes_below zsl l a b `{!RangeOk r l fmin fmax} :
  zsl_wf zsl l → l = a ++ b → Forall (λ it, fmin it = false) a → Forall (λ it, fmin it = true) b →
  goes (zsl_heap zsl) (λ n _, negb (r_gte_min r n)) a b.
Proof.
  intros Hwf -> Ha Hb. eapply (goes_pred _ _ _ _ _ _ (λ it, negb (fmin it))); [apply Hwf| |..].
  - intros it n k Hin He Hsc. by rewrite (ro_min it n).
  - eapply Forall_impl; [exact Ha|]. by intros it ->.
  - eapply Forall_impl; [exact Hb|]. by intros it ->.
Qed.

Lemma goes_within zsl l a b `{!RangeOk r l fmin fmax} :
  zsl_wf zsl l → l = a ++ b → Forall (λ it, fmax it = true) a → Forall (λ it, fmax it = false) b →
  goes (zsl_heap zsl) (λ n _, r_lte_max r n) a b.
Proof.
  intros Hwf -> Ha Hb. eapply (goes_pred _ _ _ _ _ _ fmax); [apply Hwf| |done|done].
  intros it n k Hin He Hsc. by rewrite (ro_max it n).
Qed.

Lemma first_spec zsl l `{!RangeOk r l fmin fmax} :
  zsl_wf zsl l → first_in_range zsl r = Some (it_ptr <$> head (in_range l)).
Proof.
  intros Hwf. unfold first_in_range. destruct (is_in_range_spec zsl l Hwf) as (inside & -> & Hins).
  cbn [mbind option_bind]. destruct inside; cbn [negb]; [|by rewrite Hins].
  destruct (range_parts l (wf_sorted _ _ Hwf)) as (a & c & d & Hl & Ha & Hc & Hd & Hin).
  assert (Hb : Forall (λ it, fmin it = true) (c ++ d)).
  { apply Forall_app. split; (eapply Forall_impl; [eassumption|]); cbn; tauto. }
  pose proof Hwf as Hwf'. rewrite Hl in Hwf'.
  rewrite (zsl_search_spec zsl a (c ++ d)); [|done|by eapply goes_below]. cbn [mbind option_bind].
  rewrite (after_search_spec zsl a (c ++ d) Hwf'). cbn [mbind option_bind]. rewrite Hin.
  destruct (c ++ d) as [|z b] eqn:Hcd.
  { exfalso. destruct Hins as [(t & Ht & Htm) _]. rewrite Hl, app_nil_r in Ht. apply last_Some in Ht as [p Hp].
    rewrite Hp, Forall_app, Forall_singleton in Ha. destruct Ha. congruence. }
  cbn [head fmap option_fmap option_map mbind option_bind].
  destruct (node_at zsl a z b Hwf') as (n & -> & He & Hs & _). cbn [mbind option_bind].
  rewrite (ro_max z n) by (try done; rewrite Hl; set_solver). destruct c as [|z' c].
  - cbn [app] in Hcd. subst d. apply Forall_cons in Hd as [[_ ->] _]. done.
  - cbn [app] in Hcd. injection Hcd as -> _. apply Forall_cons in Hc as [[_ ->] _]. done.
Qed.

Lemma last_spec zsl l `{!RangeOk r l fmin fmax} :
  zsl_wf zsl l → last_in_range zsl r = Some (it_ptr <$> last (in_range l)).
Proof.
  intros Hwf. unfold last_in_range. destruct (is_in_range_spec zsl l Hwf) as (inside & -> & Hins).
  cbn [mbind option_bind]. destruct inside; cbn [negb]; [|by rewrite Hins].
  destruct (split_sorted fmax l (wf_sorted _ _ Hwf)) as (a & b & Hl & Ha & Hb); [intros x y Hx Hy; by apply ro_down|].
  pose proof Hwf as Hwf'. rewrite Hl in Hwf'. rewrite (zsl_search_spec zsl a b); [|done|by eapply goes_within].
  cbn [mbind option_bind]. rewrite (update_0 zsl a b Hwf'). cbn [mbind option_bind].
  destruct a as [|z a _] using rev_ind.
  { exfalso. destruct Hins as [_ (f & Hf & Hfm)]. cbn [app] in Hl. rewrite Hl in Hf. destruct b as [|f' b]; [done|].
    injection Hf as ->. apply Forall_cons in Hb as [? _]. congruence. }
  rewrite <- app_assoc in Hwf'. cbn [app] in Hwf'. destruct (node_last zsl a z b Hwf') as (n & -> & He & Hs).
  cbn [mbind option_bind]. rewrite last_ptr_snoc.
  rewrite (ro_min z n) by (try done; rewrite Hl; set_solver). rewrite Forall_app, Forall_singleton in Ha. destruct Ha as [Ha Hz].
  unfold in_range. rewrite Hl, !filter_app. rewrite (filter_none _ b), app_nil_r.
  2:{ eapply Forall_impl; [exact Hb|]. intros it ->. by rewrite andb_false_r. }
  rewrite (filter_cons _ z []), Hz, andb_true_r, filter_nil. destruct (fmin z) eqn:Hzm.
  - rewrite decide_True by done. by rewrite last_snoc.
  - rewrite decide_False by done. rewrite app_nil_r. rewrite filter_none; [done|].
    apply Forall_forall. intros y Hy Hyz. apply andb_true_iff in Hyz as [Hy1 _].
    assert (it_lt y z) as Hlt.
    { apply (StronglySorted_app_1_elem_of it_lt a (z :: b)); [apply Hwf'|done|by left]. }
    rewrite (ro_up y z) in Hzm; [done|rewrite Hl; set_solver|rewrite Hl; set_solver|done|done].
Qed.
End range.

(** *** Score ranges *)

Definition sle (x y : spec_float) : Prop := lexcmp (enc_score x) (enc_score y) ≠ Gt.

Lemma lexcmp_le_lt a b c : lexcmp a b ≠ Gt → lexcmp b c = Lt → lexcmp a c = Lt.
Proof.
  intros Hab Hbc. destruct (lexcmp a b) eqn:E; [|by eapply lexcmp_trans|done]. apply lexcmp_eq in E. by subst.
Qed.
Lemma lexcmp_lt_le a b c : lexcmp a b = Lt → lexcmp b c ≠ Gt → lexcmp a c = Lt.
Proof.
  intros Hab Hbc. destruct (lexcmp b c) eqn:E; [|by eapply lexcmp_trans|done]. apply lexcmp_eq in E. by subst.
Qed.
Lemma lexcmp_le_le a b c : lexcmp a b ≠ Gt → lexcmp b c ≠ Gt → lexcmp a c ≠ Gt.
Proof.
  intros Hab Hbc. destruct (lexcmp b c) eqn:E; [apply lexcmp_eq in E; by subst| |done]. by rewrite (lexcmp_le_lt a b c).
Qed.

Lemma SFltb_enc x y : isnan x = false → isnan y = false → SFltb x y = true ↔ lexcmp (enc_score x) (enc_score y) = Lt.
Proof. intros. unfold SFltb. rewrite SFcompare_enc by done. by destruct (lexcmp _ _). Qed.
Lemma SFleb_enc x y : isnan x = false → isnan y = false → SFleb x y = true ↔ sle x y.
Proof. intros. unfold SFleb, sle. rewrite SFcompare_enc by done. by destruct (lexcmp _ _). Qed.

Lemma it_lt_sle x y : it_lt x y → sle (it_score x) (it_score y).
Proof.
  unfold it_lt, it_key, key, sle. rewrite lexcmp_app by (by rewrite !length_enc). by destruct (lexcmp _ _).
Qed.

Section score_range.
Context (spec : zrangespec) (Hmin : isnan (zr_min spec) = false) (Hmax : isnan (zr_max spec) = false).

Lemma gte_min_up x y :
  isnan x = false → isnan y = false → sle x y → zslValueGteMin x spec = true → zslValueGteMin y spec = true.
Proof.
  intros Hx Hy Hxy. unfold zslValueGteMin. destruct (zr_minex spec).
  - rewrite !SFltb_enc by done. intros. by eapply lexcmp_lt_le.
  - rewrite !SFleb_enc by done. intros. by eapply lexcmp_le_le.
Qed.

Lemma lte_max_down x y :
  isnan x = false → isnan y = false → sle x y → zslValueLteMax y spec = true → zslValueLteMax x spec = true.
Proof.
  intros Hx Hy Hxy. unfold zslValueLteMax. destruct (zr_maxex spec).
  - rewrite !SFltb_enc by done. intros. by eapply lexcmp_le_lt.
  - rewrite !SFleb_enc by done. intros. by eapply lexcmp_le_le.
Qed.

Lemma score_range_empty x :
  isnan x = false → r_empty (score_range spec) = true → zslValueGteMin x spec && zslValueLteMax x spec = false.
Proof.
  intros Hx He. apply not_true_iff_false. intros [H1 H2]%andb_true_iff. cbn [r_empty score_range] in He.
  assert (sle (zr_min spec) x) as Hge.
  { unfold zslValueGteMin in H1. destruct (zr_minex spec); [|by apply SFleb_enc in H1].
    apply SFltb_enc in H1; [|done..]. unfold sle. by rewrite H1. }
  assert (sle x (zr_max spec)) as Hle.
  { unfold zslValueLteMax in H2. destruct (zr_maxex spec); [|by apply SFleb_enc in H2].
    apply SFltb_enc in H2; [|done..]. unfold sle. by rewrite H2. }
  apply orb_true_iff in He as [He|He].
  - apply SFltb_enc in He; [|done..]. assert (Hself := lexcmp_le_lt _ _ _ (lexcmp_le_le _ _ _ Hge Hle) He).
    by rewrite lexcmp_refl in Hself.
  - apply andb_true_iff in He as [He Hex]. unfold SFeqb in He. rewrite SFcompare_enc in He by done.
    destruct (lexcmp (enc_score (zr_min spec)) (enc_score (zr_max spec))) eqn:E; try done. apply lexcmp_eq in E.
    unfold zslValueGteMin, zslValueLteMax in *. destruct (zr_minex spec).
    + apply SFltb_enc in H1; [|done..]. unfold sle in Hle. rewrite <- E, lexcmp_antisym, H1 in Hle. done.
    + destruct (zr_maxex spec); [|done]. apply SFltb_enc in H2; [|done..].
      unfold sle in Hge. rewrite E, lexcmp_antisym, H2 in Hge. done.
Qed.

Lemma score_range_ok l :
  Forall it_ok l → RangeOk (score_range spec) l (λ it, zslValueGteMin (it_score it) spec) (λ it, zslValueLteMax (it_score it) spec).
Proof.
  rewrite Forall_forall. intros Hl. split.
  - intros it n _ _ Hs. cbn. by rewrite Hs.
  - intros it n _ _ Hs. cbn. by rewrite Hs.
  - intros x y Hx Hy Hlt. apply gte_min_up; [by apply Hl|by apply Hl|by apply it_lt_sle].
  - intros x y Hx Hy Hlt. apply lte_max_down; [by apply Hl|by apply Hl|by apply it_lt_sle].
  - intros He it Hit. apply score_range_empty; [by apply Hl|done].
Qed.
End score_range.

(** *** Lexicographic ranges, when all scores are equal *)

Lemma sdscmp_sign a b : (sdscmp a b <? 0) = bool_decide (lexcmp a b = Lt) ∧ (sdscmp a b >? 0) = bool_decide (lexcmp a b = Gt).
Proof.
  rewrite sdscmp_lex. destruct (Z.ltb_spec (sdscmp a b) 0), (Z.eqb_spec (sdscmp a b) 0), (Z.gtb_spec (sdscmp a b) 0);
    try lia; done.
Qed.

Section lex_range.
Context (spec : zlexrangespec).

(** Bounds as an order on strings with two ends. *)
Definition blt (a b : lexbound) : Prop := sdscmplex a b < 0.
Lemma sdscmplex_cases a b :
  (sdscmplex a b < 0 ∧ 0 < sdscmplex b a) ∨ (sdscmplex a b = 0 ∧ a = b) ∨ (0 < sdscmplex a b ∧ sdscmplex b a < 0).
Proof.
  destruct a as [| |a], b as [| |b]; cbn; try lia; try by (right; left).
  pose proof (sdscmp_lex a b) as H1. pose proof (sdscmp_lex b a) as H2. rewrite lexcmp_antisym, H1 in H2.
  destruct (Z.ltb_spec (sdscmp a b) 0), (Z.eqb_spec (sdscmp a b) 0), (Z.ltb_spec (sdscmp b a) 0),
    (Z.eqb_spec (sdscmp b a) 0); try lia; try done.
  right. left. split; [done|]. apply lexcmp_eq in H1. congruence.
Qed.
Lemma blt_trans a b c : blt a b → blt b c → blt a c.
Proof.
  unfold blt. destruct a as [| |a], b as [| |b], c as [| |c]; cbn; try lia.
  rewrite <- !Z.ltb_lt, !(proj1 (sdscmp_sign _ _)), !bool_decide_eq_true. apply lexcmp_trans.
Qed.

Lemma lex_gte_min_spec v :
  zslLexValueGteMin v spec = true ↔ blt (zl_min spec) (LexStr v) ∨ (zl_minex spec = false ∧ zl_min spec = LexStr v).
Proof.
  unfold zslLexValueGteMin, blt. pose proof (sdscmplex_cases (LexStr v) (zl_min spec)) as Hc.
  destruct (zl_minex spec).
  - rewrite Z.gtb_lt. intuition (try lia; try congruence).
  - rewrite Z.geb_le. intuition (try lia; try congruence).
Qed.

Lemma lex_lte_max_spec v :
  zslLexValueLteMax v spec = true ↔ blt (LexStr v) (zl_max spec) ∨ (zl_maxex spec = false ∧ zl_max spec = LexStr v).
Proof.
  unfold zslLexValueLteMax, blt. pose proof (sdscmplex_cases (LexStr v) (zl_max spec)) as Hc.
  destruct (zl_maxex spec).
  - rewrite Z.ltb_lt. intuition (try lia; try congruence).
  - rewrite Z.leb_le. intuition (try lia; try congruence).
Qed.

Lemma blt_irrefl a : ¬ blt a a.
Proof. unfold blt. destruct (sdscmplex_cases a a) as [[]|[[]|[]]]; lia. Qed.

Lemma lex_range_empty v :
  r_empty (lex_range spec) = true → zslLexValueGteMin v spec && zslLexValueLteMax v spec = false.
Proof.
  intros He. apply not_true_iff_false. intros [H1%lex_gte_min_spec H2%lex_lte_max_spec]%andb_true_iff.
  cbn [r_empty lex_range] in He.
  destruct (sdscmplex_cases (zl_min spec) (zl_max spec)) as [[Hlt _]|[[Heq E]|[_ Hgt]]].
  - rewrite orb_true_iff, andb_true_iff, Z.gtb_lt, Z.eqb_eq in He. lia.
  - rewrite Heq in He. cbn in He. rewrite E in H1. apply orb_true_iff in He as [He|He]; rewrite He in *.
    + destruct H1 as [H1|[? _]]; [|done]. destruct H2 as [H2|[_ H2]].
      * by eapply blt_irrefl, blt_trans.
      * rewrite H2 in H1. by eapply blt_irrefl.
    + destruct H2 as [H2|[? _]]; [|done]. destruct H1 as [H1|[_ H1]].
      * by eapply blt_irrefl, blt_trans.
      * rewrite H1 in H2. by eapply blt_irrefl.
  - fold (blt (zl_max spec) (zl_min spec)) in Hgt.
    destruct H1 as [H1|[_ H1]], H2 as [H2|[_ H2]].
    + eapply blt_irrefl, blt_trans; [exact Hgt|]. by eapply blt_trans.
    + rewrite H2 in Hgt. by eapply blt_irrefl, blt_trans.
    + rewrite H1 in Hgt. by eapply blt_irrefl, blt_trans.
    + rewrite H1, H2 in Hgt. by eapply blt_irrefl.
Qed.

Lemma lex_range_ok l :
  Forall it_ok l → (∀ x y, x ∈ l → y ∈ l → SFeqb (it_score x) (it_score y) = true) →
  RangeOk (lex_range spec) l (λ it, zslLexValueGteMin (it_ele it) spec) (λ it, zslLexValueLteMax (it_ele it) spec).
Proof.
  rewrite Forall_forall. intros Hok Hsame.
  assert (Hlt : ∀ x y, x ∈ l → y ∈ l → it_lt x y → blt (LexStr (it_ele x)) (LexStr (it_ele y))).
  { intros x y Hx Hy Hxy. specialize (Hsame x y Hx Hy). unfold SFeqb in Hsame. unfold it_lt, it_key, key in Hxy.
    rewrite SFcompare_enc in Hsame by (by apply Hok). rewrite lexcmp_app in Hxy by (by rewrite !length_enc).
    destruct (lexcmp (enc_score _) _) eqn:E; try done. unfold blt. cbn. apply Z.ltb_lt.
    rewrite (proj1 (sdscmp_sign _ _)). by apply bool_decide_eq_true. }
  split.
  - intros it n _ He _. cbn. by rewrite He.
  - intros it n _ He _. cbn. by rewrite He.
  - intros x y Hx Hy Hxy. rewrite !lex_gte_min_spec. specialize (Hlt x y Hx Hy Hxy). intros [H1|[_ ->]]; left; [|done].
    by eapply blt_trans.
  - intros x y Hx Hy Hxy. rewrite !lex_lte_max_spec. specialize (Hlt x y Hx Hy Hxy). intros [H1|[_ ->]]; left; [|done].
    by eapply blt_trans.
  - intros He it _. by apply lex_range_empty.
Qed.
End lex_range.

(** ** The functions on ranges *)

Definition score_items (spec : zrangespec) : list item → list item :=
  in_range (λ it, zslValueGteMin (it_score it) spec) (λ it, zslValueLteMax (it_score it) spec).
Definition lex_items (spec : zlexrangespec) : list item → list item :=
  in_range (λ it, zslLexValueGteMin (it_ele it) spec) (λ it, zslLexValueLteMax (it_ele it) spec).
(** What a lexicographic range is used with: all members have one score. *)
Definition one_score (l : list item) : Prop := ∀ x y, x ∈ l → y ∈ l → SFeqb (it_score x) (it_score y) = true.

(** C34: [zslFirstInRange] and [zslLastInRange] return the first and the last
    member of a score range, NULL when the range holds none (inverted, empty or
    beyond the ends of the list); the functions on lexicographic ranges do so
    when all members have the same score. *)
Theorem zsl_ranges_correct zsl l :
  zsl_ok zsl l →
  (∀ spec, isnan (zr_min spec) = false → isnan (zr_max spec) = false →
     zslFirstInRange zsl spec = Some (it_ptr <$> head (score_items spec l)) ∧
     zslLastInRange zsl spec = Some (it_ptr <$> last (score_items spec l))) ∧
  (one_score l → ∀ spec,
     zslFirstInLexRange zsl spec = Some (it_ptr <$> head (lex_items spec l)) ∧
     zslLastInLexRange zsl spec = Some (it_ptr <$> last (lex_items spec l))).
Proof.
  intros [Hwf _ _]. pose proof (wf_scores _ _ Hwf) as Hsc. split.
  - intros spec Hmin Hmax. pose proof (score_range_ok spec Hmin Hmax l Hsc). split; [by apply first_spec|by apply last_spec].
  - intros Hone spec. pose proof (lex_range_ok spec l Hsc Hone). split; [by apply first_spec|by apply last_spec].
Qed.

Lemma zsl_ranges_witness :
  score_items (Zrange one two true false) ex_items = drop 1 ex_items ∧
  zslFirstInRange ex_zsl (Zrange one two true false) = Some (Some 4%positive) ∧
  zslLastInRange ex_zsl (Zrange one two true false) = Some (Some 2%positive) ∧
  zslFirstInLexRange (ex_step 1) (Zlexrange LexMin (LexStr [98]) false false) = Some (Some 2%positive).
Proof.
  destruct (zsl_ranges_correct ex_zsl ex_items ex_ok) as [Hs _].
  destruct (Hs (Zrange one two true false) eq_refl eq_refl) as [Hf Hl]. split_and!; [done| | |].
  - by rewrite Hf.
  - by rewrite Hl.
  - destruct (zsl_ranges_correct (ex_step 1) (drop 2 ex_items) ex_ok_1) as [_ Hlex].
    destruct (Hlex (λ x y Hx Hy, ltac:(apply list_elem_of_singleton in Hx as ->; by apply list_elem_of_singleton in Hy as ->))
      (Zlexrange LexMin (LexStr [98]) false false)) as [-> _]. done.
Defined.

(** ** Parsing ranges *)

(** What a bound means: [None] when it is not one.  A minus sign is below, a
    plus sign above every string. *)
Definition lex_above (bound v : sds) : option bool :=
  match bound with
  | 45 :: rest => if char_at rest 0 =? 0 then Some true else None
  | 43 :: rest => if char_at rest 0 =? 0 then Some false else None
  | 40 :: x => Some (bool_decide (lexcmp x v = Lt))
  | 91 :: x => Some (bool_decide (lexcmp x v ≠ Gt))
  | _ => None
  end.
Definition lex_below (bound v : sds) : option bool :=
  match bound with
  | 45 :: rest => if char_at rest 0 =? 0 then Some false else None
  | 43 :: rest => if char_at rest 0 =? 0 then Some true else None
  | 40 :: x => Some (bool_decide (lexcmp v x = Lt))
  | 91 :: x => Some (bool_decide (lexcmp v x ≠ Gt))
  | _ => None
  end.

Lemma cmp_tests (v x : sds) :
  (sdscmp v x >? 0) = bool_decide (lexcmp x v = Lt) ∧ (sdscmp v x >=? 0) = bool_decide (lexcmp x v ≠ Gt) ∧
  (sdscmp v x <? 0) = bool_decide (lexcmp v x = Lt) ∧ (sdscmp v x <=? 0) = bool_decide (lexcmp v x ≠ Gt).
Proof.
  destruct (sdscmp_sign v x) as [H1 H2]. rewrite (lexcmp_antisym v x). rewrite H1, H2.
  assert ((sdscmp v x >=? 0) = negb (sdscmp v x <? 0)) as -> by (destruct (Z.ltb_spec (sdscmp v x) 0), (Z.geb_spec (sdscmp v x) 0); lia || done).
  assert ((sdscmp v x <=? 0) = negb (sdscmp v x >? 0)) as -> by (destruct (Z.leb_spec (sdscmp v x) 0), (Z.gtb_spec (sdscmp v x) 0); lia || done).
  rewrite H1, H2. by destruct (lexcmp v x).
Qed.

Lemma lex_item_spec (s v : sds) :
  match zslParseLexRangeItem s with
  | None => lex_above s v = None ∧ lex_below s v = None
  | Some (b, ex) =>
      lex_above s v = Some (zslLexValueGteMin v (Zlexrange b b ex ex)) ∧
      lex_below s v = Some (zslLexValueLteMax v (Zlexrange b b ex ex))
  end.
Proof.
  assert (Hc : ∀ c rest, c ≠ 43 → c ≠ 45 → c ≠ 40 → c ≠ 91 → lex_above (c :: rest) v = None ∧ lex_below (c :: rest) v = None).
  { intros c rest H1 H2 H3 H4. unfold lex_above, lex_below. destruct c as [|c|c]; [done| |done]. by do 7 (destruct c as [c|c|]; try done). }
  destruct s as [|c rest]; [done|]. unfold zslParseLexRangeItem. change (char_at (c :: rest) 0) with c.
  change (char_at (c :: rest) 1) with (char_at rest 0). change (drop 1 (c :: rest)) with rest.
  destruct (Z.eqb_spec c 43) as [->|H1]; [cbn; by destruct (char_at rest 0 =? 0)|].
  destruct (Z.eqb_spec c 45) as [->|H2]; [cbn; by destruct (char_at rest 0 =? 0)|].
  destruct (cmp_tests v rest) as (T1 & T2 & T3 & T4).
  destruct (Z.eqb_spec c 40) as [->|H3]; [unfold zslLexValueGteMin, zslLexValueLteMax; cbn [zl_min zl_max zl_minex zl_maxex sdscmplex]; by rewrite T1, T3|].
  destruct (Z.eqb_spec c 91) as [->|H4]; [unfold zslLexValueGteMin, zslLexValueLteMax; cbn [zl_min zl_max zl_minex zl_maxex sdscmplex]; by rewrite T2, T4|]. by apply Hc.
Qed.

(** C36: parsing a lexicographic range fails exactly when an argument is an
    integer or is not a bound, and otherwise the range accepts exactly the
    strings that both bounds accept; a parsed score range has no NaN in it,
    which is what the functions on score ranges rely on. *)
Theorem zslParse_correct :
  (∀ min max v,
     match zslParseLexRange (ObjStr min) (ObjStr max) with
     | Some spec => lex_above min v = Some (zslLexValueGteMin v spec) ∧ lex_below max v = Some (zslLexValueLteMax v spec)
     | None => lex_above min v = None ∨ lex_below max v = None
     end) ∧
  (∀ o n, zslParseLexRange (ObjInt n) o = None ∧ zslParseLexRange o (ObjInt n) = None) ∧
  (∀ strtod min max spec,
     zslParseRange strtod min max = Some spec → isnan (zr_min spec) = false ∧ isnan (zr_max spec) = false).
Proof.
  split_and!.
  - intros min max v. unfold zslParseLexRange. pose proof (lex_item_spec min v) as H1. pose proof (lex_item_spec max v) as H2.
    destruct (zslParseLexRangeItem min) as [[b1 e1]|]; cbn [mbind option_bind]; [|left; apply H1].
    destruct (zslParseLexRangeItem max) as [[b2 e2]|]; cbn [mbind option_bind]; [|right; apply H2].
    split; [apply H1|apply H2].
  - intros o n. split; [done|by destruct o].
  - intros strtod min max spec. unfold zslParseRange.
    assert (Hb : ∀ o v ex, parse_bound strtod o = Some (v, ex) → isnan v = false).
    { intros [n|s] v ex; cbn; [intros [= <- _]; apply ll2double_valid|]. destruct (strtod _) as [w k].
      destruct (isnan w) eqn:Hw; [rewrite orb_true_r; done|]. destruct (_ || _); [done|]. by intros [= <- _]. }
    destruct (parse_bound strtod min) as [[v1 e1]|] eqn:E1; [|done]. cbn [mbind option_bind].
    destruct (parse_bound strtod max) as [[v2 e2]|] eqn:E2; [|done]. cbn [mbind option_bind]. intros [= <-]. eauto.
Qed.

Lemma zslParse_witness :
  lex_above [40; 97] [98] = Some true ∧ zslParseLexRange (ObjStr [40; 97]) (ObjStr [43]) = Some (Zlexrange (LexStr [97]) LexMax true true) ∧
  isnan (ll2double 7) = false.
Proof.
  destruct zslParse_correct as (Hl & _ & Hp). specialize (Hl [40; 97] [43] [98]). split_and!; [done|done|].
  by apply (Hp (λ _, (S754_zero false, O)) (ObjInt 7) (ObjInt 8) (Zrange (ll2double 7) (ll2double 8) false false)).
Defined.

End ZslRange.
