(* ===== verification/Zset.v ===== *)
(** * t_zset.c: sorted sets as a skiplist with a dict

    The dict of a sorted set maps every element to the address of its node,
    where the score is.  The two are kept in step.  The file also states what a
    sorted set promises, on a finite map from elements to scores, and shows that
    the skiplist encoding keeps this promise. *)

From S2P Require Import Prelude Dict DictInv DictExt DictOps Zskiplist Double ZslInv ZslOps ZslRange.
Import Dict DictInv DictExt DictOps Zskiplist Double ZslInv ZslOps ZslRange.

Module Zset.

(** ** The skiplist encoding: operations *)

(** The result of [zsetAdd]: the value returned, [*out_flags], and [*newscore]
    when it is set. *)
Record add_result := AddResult { ar_ret : Z; ar_flags : Z; ar_newscore : option spec_float }.
(** The options that [zsetAdd] takes out of [in_flags]. *)
Record add_options := AddOptions { o_incr : bool; o_nx : bool; o_xx : bool; o_gt : bool; o_lt : bool }.

Definition ZADD_IN_INCR : Z := Z.shiftl 1 0.
Definition ZADD_IN_NX : Z := Z.shiftl 1 1.
Definition ZADD_IN_XX : Z := Z.shiftl 1 2.
Definition ZADD_IN_GT : Z := Z.shiftl 1 3.
Definition ZADD_IN_LT : Z := Z.shiftl 1 4.
Definition ZADD_OUT_NOP : Z := Z.shiftl 1 0.
Definition ZADD_OUT_NAN : Z := Z.shiftl 1 1.
Definition ZADD_OUT_ADDED : Z := Z.shiftl 1 2.
Definition ZADD_OUT_UPDATED : Z := Z.shiftl 1 3.
Definition HASHTABLE_MIN_FILL : Z := 10.

Record zset := Zs { zs_dict : dict sds ptr; zs_zsl : zskiplist }.

(** The lengths are cut to [int]; a negative one is a huge [size_t] for [memcmp],
    which then reads behind the keys. *)
Definition dictSdsKeyCompare (key1 key2 : sds) : bool :=
  let l1 := s32 (zlen key1) in
  let l2 := s32 (zlen key2) in
  if negb (l1 =? l2) then false else memcmp key1 key2 (Z.to_nat (u64 l1)) =? 0.
(** The keys whose length an [int] holds. *)
Definition short (k : sds) : Prop := zlen k < 2 ^ 31.
(** [hash] is [dictSdsHash]. *)
Definition zsetDictType (hash : sds → Z) : dictType sds ptr :=
  DictType sds ptr hash None None (Some dictSdsKeyCompare) None false false (λ _, false).

Definition htNeedsResize {K V} (d : dict K V) : bool :=
  let size := dictSlots d in
  let used := dictSize d in
  (size >? DICT_HT_INITIAL_SIZE) && (used * 100 / size <? HASHTABLE_MIN_FILL).

Section skiplist.
Context (hash : sds → Z) (dict_can_resize : dictResizeEnable).
#[local] Abbreviation type := (zsetDictType hash).

(** [*(double* )dictGetVal(de)]: the entry points to the score in its node. *)
Definition entry_score (zs : zset) (de : place) : option spec_float :=
  v ← dictGetVal (zs_dict zs) de;
  p ← v;
  n ← zsl_heap (zs_zsl zs) !! p;
  Some (zn_score n).

Definition zsetScore_skiplist (zs : zset) (member : sds) : option (zset * option spec_float) :=
  '(d, de) ← dictFind type dict_can_resize (zs_dict zs) member;
  let zs := Zs d (zs_zsl zs) in
  match de with
  | None => Some (zs, None)
  | Some de => score ← entry_score zs de; Some (zs, Some score)
  end.

Definition zsetAdd_skiplist (zs : zset) (score : spec_float) (ele : sds) (o : add_options) (rs : list Z)
    : option (zset * add_result * list Z) :=
  '(d, de) ← dictFind type dict_can_resize (zs_dict zs) ele;
  let zs := Zs d (zs_zsl zs) in
  match de with
  | Some de =>
      if o_nx o then Some (zs, AddResult 1 ZADD_OUT_NOP None, rs)
      else
        curscore ← entry_score zs de;
        let score := if o_incr o then dadd score curscore else score in
        if o_incr o && isnan score then Some (zs, AddResult 0 ZADD_OUT_NAN None, rs)
        else if (o_lt o && SFleb curscore score) || (o_gt o && SFleb score curscore)
        then Some (zs, AddResult 1 ZADD_OUT_NOP None, rs)
        else if negb (SFeqb score curscore) then
          '(zsl, znode, rs) ← zslUpdateScore (zs_zsl zs) curscore ele score rs;
          d ← dictSetVal type (zs_dict zs) de znode;
          Some (Zs d zsl, AddResult 1 ZADD_OUT_UPDATED (Some score), rs)
        else Some (zs, AddResult 1 0 (Some score), rs)
  | None =>
      if negb (o_xx o) then
        '(zsl, znode, rs) ← zslInsert (zs_zsl zs) score ele rs;
        '(d, ok) ← dictAdd type dict_can_resize (zs_dict zs) ele znode;
        _ ← assert ok;
        Some (Zs d zsl, AddResult 1 ZADD_OUT_ADDED (Some score), rs)
      else Some (zs, AddResult 1 ZADD_OUT_NOP None, rs)
  end.

Definition zsetRemoveFromSkiplist (zs : zset) (ele : sds) : option (zset * Z) :=
  '(d, de) ← dictUnlink type dict_can_resize (zs_dict zs) ele;
  match de with
  | None => Some (Zs d (zs_zsl zs), 0)
  | Some de =>
      p ← e_val de;
      n ← zsl_heap (zs_zsl zs) !! p;
      '(zsl, deleted) ← zslDelete (zs_zsl zs) (zn_score n) ele false;
      _ ← assert (bool_decide (is_Some deleted));
      Some (Zs d zsl, 1)
  end.

Definition zsetDel_skiplist (zs : zset) (ele : sds) : option (zset * Z) :=
  '(zs, removed) ← zsetRemoveFromSkiplist zs ele;
  if removed =? 0 then Some (zs, 0)
  else
    '(d, _) ← (if htNeedsResize (zs_dict zs) then dictResize dict_can_resize (zs_dict zs) else Some (zs_dict zs, false));
    Some (Zs d (zs_zsl zs), 1).

(** The rank, or -1, and [*output_score] when it is set. *)
Definition zsetRank_skiplist (zs : zset) (ele : sds) (reverse : bool)
    : option (zset * Z * option spec_float) :=
  let llen := zsl_length (zs_zsl zs) in
  '(d, de) ← dictFind type dict_can_resize (zs_dict zs) ele;
  let zs := Zs d (zs_zsl zs) in
  match de with
  | Some de =>
      score ← entry_score zs de;
      rank ← zslGetRank (zs_zsl zs) score ele;
      _ ← assert (negb (rank =? 0));
      Some (zs, if reverse then s64 (u64 (llen - rank)) else s64 (u64 (rank - 1)), Some score)
  | None => Some (zs, -1, None)
  end.
End skiplist.

Section zset.
Context (type : dictType sds ptr) (P : sds → Prop) (cr : dictResizeEnable) {Hty : TypeOn type (@id sds) P}.
Implicit Type (d : dict sds ptr) (zsl : zskiplist) (l : list item).

(** What the dict holds for a list of items. *)
Definition zset_map l : gmap sds (sds * option ptr) :=
  list_to_map ((λ it, (it_ele it, (it_ele it, Some (it_ptr it)))) <$> l).

Record zset_ok zsl d l : Prop := {
  zo_zsl : zsl_ok zsl l;
  zo_dict : dict_ok type id d;
  zo_nodup : NoDup (it_ele <$> l);
  zo_map : dict_map id d = zset_map l;
  zo_keys : Forall (λ it, P (it_ele it)) l;
}.

Lemma zset_keys d l : dict_map id d = zset_map l → Forall (λ it, P (it_ele it)) l → keys_on (P := P) id d.
Proof using Type.
  intros Hm Hk. unfold keys_on. rewrite Hm. intros k kv Hkv. apply elem_of_list_to_map_2 in Hkv.
  apply list_elem_of_fmap in Hkv as (it & [= -> ->] & Hin). rewrite Forall_forall in Hk. by apply Hk.
Qed.
Lemma keys_mid a it b : Forall (λ it, P (it_ele it)) (a ++ it :: b) → Forall (λ it, P (it_ele it)) (a ++ b) ∧ P (it_ele it).
Proof using Type. rewrite !Forall_app, Forall_cons. tauto. Qed.
Lemma keys_put a it b : Forall (λ it, P (it_ele it)) (a ++ b) → P (it_ele it) → Forall (λ it, P (it_ele it)) (a ++ it :: b).
Proof using Type. rewrite !Forall_app, Forall_cons. tauto. Qed.

Lemma zset_map_delete a it b :
  NoDup (it_ele <$> a ++ it :: b) → delete (it_ele it) (zset_map (a ++ it :: b)) = zset_map (a ++ b).
Proof.
  intros Hnd. unfold zset_map. rewrite fmap_app in Hnd. cbn [fmap list_fmap] in Hnd.
  rewrite <- Permutation_middle in Hnd. apply NoDup_cons in Hnd as [Hn Hnd].
  rewrite (list_to_map_proper _ ((it_ele it, (it_ele it, Some (it_ptr it))) ::
    ((λ it, (it_ele it, (it_ele it, Some (it_ptr it)))) <$> a ++ b))).
  - cbn [list_to_map foldr]. rewrite delete_insert_id; [done|]. apply not_elem_of_list_to_map_1.
    rewrite <- list_fmap_compose, fmap_app. exact Hn.
  - rewrite !fmap_app. cbn [fmap list_fmap]. rewrite <- Permutation_middle. apply NoDup_cons.
    rewrite <- !list_fmap_compose. by split.
  - rewrite !fmap_app. cbn [fmap list_fmap]. by rewrite <- Permutation_middle.
Qed.

Lemma nodup_mid (a : list item) it b : NoDup (it_ele <$> a ++ it :: b) → NoDup (it_ele <$> a ++ b).
Proof. rewrite !fmap_app. cbn [fmap list_fmap]. rewrite <- Permutation_middle. by intros [_ ?]%NoDup_cons. Qed.

(** One turn of the loop that deletes a range. *)
Lemma delete_turn zsl d a it b update :
  zset_ok zsl d (a ++ it :: b) → update_ok (zsl_header zsl) (zsl_level zsl) a update →
  ∃ zsl' d' r, zslDeleteNode zsl (it_ptr it) update = Some zsl' ∧
    dictDelete type cr d (it_ele it) = Some (d', r) ∧ zset_ok (free_node zsl' (it_ptr it)) d' (a ++ b) ∧
    update_ok (zsl_header (free_node zsl' (it_ptr it))) (zsl_level (free_node zsl' (it_ptr it))) a update.
Proof.
  intros [Hz Hd Hnd Hm Hk] Hup. destruct (keys_mid _ _ _ Hk) as [Hk' Hit]. destruct (remove_spec zsl a it b update Hz Hup) as (zsl' & Hdel & Hok & Hh & Hl).
  destruct (on_delete_spec type id cr d (it_ele it) Hd (zset_keys _ _ Hm Hk) Hit) as (d' & he & Hg & Hd' & _ & Hm' & _).
  exists zsl', d'. eexists. split_and!; [done|by unfold dictDelete; rewrite Hg| |].
  - split; [done|done|by eapply nodup_mid| |done]. rewrite Hm', Hm. by apply zset_map_delete.
  - cbn. rewrite Hh. intros j Hj. apply Hup. lia.
Qed.

Lemma delete_while_spec (test : zskiplistNode → Z → bool) update a dd c : ∀ fuel zsl d removed,
  zset_ok zsl d (a ++ c ++ dd) → update_ok (zsl_header zsl) (zsl_level zsl) a update → (length c ≤ fuel)%nat →
  0 ≤ removed → removed + zlen c < 2 ^ 64 →
  (∀ k it n, c !! k = Some it → zn_ele n = Some (it_ele it) → zn_score n = it_score it → test n (removed + Z.of_nat k) = true) →
  (∀ it n, head dd = Some it → zn_ele n = Some (it_ele it) → zn_score n = it_score it → test n (removed + zlen c) = false) →
  ∃ zsl' d', delete_while type cr fuel test zsl d (it_ptr <$> head (c ++ dd)) update removed =
      Some (zsl', d', removed + zlen c) ∧ zset_ok zsl' d' (a ++ dd).
Proof.
  induction c as [|it c IH]; intros fuel zsl d removed Hok Hup Hf H0 Hsm Hin Hout.
  - cbn [app length] in *. rewrite Z.add_0_r in *. destruct dd as [|it dd].
    { exists zsl, d. destruct fuel; done. }
    destruct (node_at zsl a it dd) as (n & Hn & He & Hs & _); [apply Hok|].
    exists zsl, d. split; [|done]. destruct fuel; cbn [delete_while head fmap option_fmap option_map];
      rewrite Hn; cbn [mbind option_bind]; by rewrite (Hout it n).
  - cbn [app head fmap option_fmap option_map length] in *. destruct fuel as [|fuel]; [lia|]. cbn [delete_while].
    assert (Hwf : zsl_wf zsl (a ++ it :: c ++ dd)) by apply Hok.
    destruct (node_at zsl a it (c ++ dd) Hwf) as (n & Hn & He & Hs & _). rewrite Hn. cbn [mbind option_bind].
    specialize (Hin O it n eq_refl He Hs) as Ht. rewrite Z.add_0_r in Ht. rewrite Ht. cbn [negb].
    destruct (level_0 zsl (a ++ [it]) (c ++ dd)) as [sp Hsp]; [by rewrite <- app_assoc|].
    rewrite last_ptr_snoc in Hsp. rewrite Hsp. cbn [mbind option_bind].
    destruct (delete_turn zsl d a it (c ++ dd) update Hok Hup) as (zsl' & d' & rr & -> & Hd & Hok' & Hup').
    cbn [mbind option_bind]. rewrite He. cbn [mbind option_bind]. rewrite Hd. cbn [mbind option_bind].
    rewrite wrapu_small by lia.
    destruct (IH fuel (free_node zsl' (it_ptr it)) d' (removed + 1)) as (zsl2 & d2 & -> & Hok2); [done|done|lia|lia|lia|..].
    + intros k it' n' Hk He' Hs'. replace (removed + 1 + Z.of_nat k) with (removed + Z.of_nat (S k)) by lia. by eapply Hin.
    + intros it' n' Hh He' Hs'. replace (removed + 1 + zlen c) with (removed + Z.of_nat (S (length c))) by lia. by eapply Hout.
    + exists zsl2, d2. split; [|done]. do 2 f_equal. lia.
Qed.

Lemma delete_range_spec r fmin fmax zsl d l `{!RangeOk r l fmin fmax} :
  zset_ok zsl d l →
  ∃ zsl' d', delete_range type cr zsl r d = Some (zsl', d', zlen (in_range fmin fmax l)) ∧
    zset_ok zsl' d' (filter (λ it, fmin it && fmax it = false) l).
Proof.
  intros Hok. pose proof (zo_zsl _ _ _ Hok) as Hz. pose proof (ok_wf _ _ Hz) as Hwf.
  destruct (range_parts r fmin fmax l (wf_sorted _ _ Hwf)) as (a & c & dd & Hl & Ha & Hc & Hd & Hin).
  assert (Hb : Forall (λ it, fmin it = true) (c ++ dd)).
  { apply Forall_app. split; (eapply Forall_impl; [eassumption|]); cbn; tauto. }
  assert (Hfilter : filter (λ it, fmin it && fmax it = false) l = a ++ dd).
  { rewrite Hl, !filter_app, (filter_all _ a), (filter_none _ c), (filter_all _ dd); [done|..].
    - eapply Forall_impl; [exact Hd|]. by intros it [-> ->].
    - eapply Forall_impl; [exact Hc|]. by intros it [-> ->].
    - eapply Forall_impl; [exact Ha|]. by intros it ->. }
  rewrite Hfilter, Hin. unfold delete_range, delete_from. pose proof Hwf as Hwf'. rewrite Hl in Hwf'.
  rewrite (zsl_search_spec zsl a (c ++ dd)); [|done|by eapply goes_below]. cbn [mbind option_bind].
  rewrite (after_search_spec zsl a (c ++ dd) Hwf'). cbn [mbind option_bind].
  pose proof (wf_length _ _ Hwf) as Hlen. pose proof (wf_small _ _ Hwf) as Hsm. rewrite Hl, !length_app in Hlen, Hsm.
  rewrite Hl in Hok. apply (delete_while_spec _ _ a dd c (zsl_fuel zsl) zsl d 0 Hok).
  - apply updates_ok.
  - unfold zsl_fuel. lia.
  - lia.
  - lia.
  - intros k it n Hk He Hs. rewrite (ro_max it n) by (try done; rewrite Hl; apply list_elem_of_lookup_2 in Hk; set_solver).
    by apply (Forall_lookup_1 _ _ _ _ Hc Hk).
  - intros it n Hh He Hs. destruct dd as [|it' dd]; [done|]. injection Hh as ->.
    rewrite (ro_max it n) by (try done; rewrite Hl; set_solver). by apply Forall_cons in Hd as [[_ ?] _].
Qed.
(** By rank: positions [start] to [end_], from 1. *)
Definition rank_items (start end_ : Z) l : list item := take (Z.to_nat (end_ - (start - 1))) (drop (Z.to_nat (start - 1)) l).
Definition rank_others (start end_ : Z) l : list item :=
  take (Z.to_nat (start - 1)) l ++ drop (Z.to_nat (end_ - (start - 1))) (drop (Z.to_nat (start - 1)) l).

Lemma delete_rank_spec zsl d l start end_ :
  zset_ok zsl d l → 1 ≤ start < 2 ^ 63 → 
  ∃ zsl' d', zslDeleteRangeByRank type cr zsl start end_ d = Some (zsl', d', zlen (rank_items start end_ l)) ∧
    zset_ok zsl' d' (rank_others start end_ l).
Proof.
  intros Hok Hst. unfold rank_items, rank_others. set (a := take (Z.to_nat (start - 1)) l).
  set (b := drop (Z.to_nat (start - 1)) l). set (k := Z.to_nat (end_ - (start - 1))).
  assert (Hl : l = a ++ take k b ++ drop k b) by (unfold a, b; by rewrite !take_drop).
  pose proof (ok_wf _ _ (zo_zsl _ _ _ Hok)) as Hwf. pose proof (wf_small _ _ Hwf) as Hsm.
  pose proof (wf_length _ _ Hwf) as Hlen. pose proof Hwf as Hwf'. rewrite Hl in Hwf'. rewrite Hl, !length_app in Hsm, Hlen.
  unfold zslDeleteRangeByRank. rewrite (zsl_search_spec zsl a (take k b ++ drop k b)); [|done|].
  2:{ intros p it q n Heq _. rewrite <- Hl in Heq. unfold a. rewrite length_take.
      assert (length p < length l)%nat by (rewrite Heq, length_app; cbn [length]; lia).
      destruct (Z.ltb_spec (zlen p + 1) start); symmetry; [apply bool_decide_eq_true_2|apply bool_decide_eq_false_2]; lia. }
  cbn [mbind option_bind]. rewrite (update_0 zsl a _ Hwf'). cbn [mbind option_bind].
  rewrite (after_search_spec zsl a _ Hwf'). cbn [mbind option_bind]. rewrite (wrapu_small _ (zlen a + 1)) by lia.
  rewrite Hl in Hok.
  assert (Htest : ∀ i, (i ≤ length (take k b))%nat → take k b ++ drop k b ≠ [] →
    (u64 (zlen a + 1 + Z.of_nat i) <=? end_) = bool_decide (Z.of_nat i + start ≤ end_)).
  { intros i Hi Hne. rewrite wrapu_small by lia. rewrite take_drop in Hne.
    assert (zlen a = start - 1) as ->.
    { unfold a, b in *. rewrite length_take. destruct (decide (length l ≤ Z.to_nat (start - 1))%nat); [|lia].
      by rewrite drop_ge in Hne by lia. }
    replace (start - 1 + 1 + Z.of_nat i) with (Z.of_nat i + start) by lia.
    destruct (Z.leb_spec (Z.of_nat i + start) end_); symmetry; [by apply bool_decide_eq_true_2|apply bool_decide_eq_false_2; lia]. }
  apply (delete_while_spec _ _ a (drop k b) (take k b) (zsl_fuel zsl) zsl d 0 Hok).
  - apply updates_ok.
  - unfold zsl_fuel. lia.
  - lia.
  - lia.
  - intros i it n Hi He Hs. pose proof (lookup_lt_Some _ _ _ Hi) as Hlt. rewrite Z.add_0_l, Htest; [|lia|].
    + rewrite length_take in Hlt. apply bool_decide_eq_true_2. unfold k in Hlt. lia.
    + intros [Hn _]%app_nil. by rewrite Hn in Hi.
  - intros it n Hh He Hs. rewrite Z.add_0_l, Htest; [|lia|].
    + apply bool_decide_eq_false_2. rewrite length_take. destruct (drop k b) as [|z r] eqn:Hd; [done|].
      assert (k < length b)%nat by (destruct (decide (length b ≤ k)%nat); [by rewrite drop_ge in Hd by lia|lia]).
      unfold k in *. lia.
    + intros [_ Hn]%app_nil. by rewrite Hn in Hh.
Qed.
(** C35: deleting a range.  [zslDeleteRangeByScore], [zslDeleteRangeByLex] (when
    all members have one score) and [zslDeleteRangeByRank] remove the members
    of the range, and only those, from the skiplist and from the dict, return
    how many they were, and keep the two structures in step. *)
Theorem zsl_delete_ranges_correct zsl d l :
  zset_ok zsl d l →
  (∀ spec, isnan (zr_min spec) = false → isnan (zr_max spec) = false →
     ∃ zsl' d', zslDeleteRangeByScore type cr zsl spec d = Some (zsl', d', zlen (score_items spec l)) ∧
       zset_ok zsl' d' (filter (λ it, zslValueGteMin (it_score it) spec && zslValueLteMax (it_score it) spec = false) l)) ∧
  (one_score l → ∀ spec,
     ∃ zsl' d', zslDeleteRangeByLex type cr zsl spec d = Some (zsl', d', zlen (lex_items spec l)) ∧
       zset_ok zsl' d' (filter (λ it, zslLexValueGteMin (it_ele it) spec && zslLexValueLteMax (it_ele it) spec = false) l)) ∧
  (∀ start end_, 1 ≤ start < 2 ^ 63 →
     ∃ zsl' d', zslDeleteRangeByRank type cr zsl start end_ d = Some (zsl', d', zlen (rank_items start end_ l)) ∧
       zset_ok zsl' d' (rank_others start end_ l)).
Proof.
  intros Hok. pose proof (wf_scores _ _ (ok_wf _ _ (zo_zsl _ _ _ Hok))) as Hsc. split_and!.
  - intros spec Hmin Hmax. pose proof (score_range_ok spec Hmin Hmax l Hsc). by apply delete_range_spec.
  - intros Hone spec. pose proof (lex_range_ok spec l Hsc Hone). by apply delete_range_spec.
  - intros start end_ Hst. by apply delete_rank_spec.
Qed.
End zset.

(** ** What a sorted set promises

    A sorted set is a finite map from elements to scores.  Scores count up to
    the sign of zero. *)

Definition norm (x : spec_float) : spec_float := match x with S754_zero _ => S754_zero false | _ => x end.
Definition scores (ms : list (sds * spec_float)) : gmap sds spec_float := list_to_map (prod_map id norm <$> ms).
Definition member (it : item) : sds * spec_float := (it_ele it, it_score it).

(** ZADD for one element. *)
Definition zadd (m : gmap sds spec_float) (score : spec_float) (ele : sds) (o : add_options)
    : gmap sds spec_float * add_result :=
  match m !! ele with
  | Some cur =>
      let new := if o_incr o then dadd score cur else score in
      if o_nx o then (m, AddResult 1 ZADD_OUT_NOP None)
      else if isnan new then (m, AddResult 0 ZADD_OUT_NAN None)
      else if (o_lt o && SFleb cur new) || (o_gt o && SFleb new cur) then (m, AddResult 1 ZADD_OUT_NOP None)
      else if SFeqb new cur then (m, AddResult 1 0 (Some (norm new)))
      else (<[ele := norm new]> m, AddResult 1 ZADD_OUT_UPDATED (Some (norm new)))
  | None =>
      if o_xx o then (m, AddResult 1 ZADD_OUT_NOP None)
      else (<[ele := norm score]> m, AddResult 1 ZADD_OUT_ADDED (Some (norm score)))
  end.
Definition norm_result (r : add_result) : add_result := AddResult (ar_ret r) (ar_flags r) (norm <$> ar_newscore r).

Lemma norm_nan x : isnan (norm x) = isnan x.
Proof. by destruct x. Qed.
Lemma norm_compare x y : SFcompare (norm x) (norm y) = SFcompare x y.
Proof. by destruct x, y. Qed.
Lemma norm_leb x y : SFleb (norm x) (norm y) = SFleb x y.
Proof. unfold SFleb. by rewrite norm_compare. Qed.
Lemma norm_eqb x y : SFeqb (norm x) (norm y) = SFeqb x y.
Proof. unfold SFeqb. by rewrite norm_compare. Qed.
Lemma norm_norm x : norm (norm x) = norm x.
Proof. by destruct x. Qed.
Lemma norm_dadd x y : norm (dadd x (norm y)) = norm (dadd x y).
Proof. by destruct x as [[]|[]| |[]], y as [[]|[]| |[]]. Qed.
Lemma enc_norm x : enc_score (norm x) = enc_score x.
Proof. by destruct x. Qed.
Lemma eqb_enc x y : isnan x = false → isnan y = false → SFeqb x y = bool_decide (enc_score x = enc_score y).
Proof.
  intros Hx Hy. unfold SFeqb. rewrite SFcompare_enc by done. destruct (lexcmp _ _) eqn:E; symmetry.
  - apply bool_decide_eq_true_2. by apply lexcmp_eq.
  - apply bool_decide_eq_false_2. intros Heq. by rewrite Heq, lexcmp_refl in E.
  - apply bool_decide_eq_false_2. intros Heq. by rewrite Heq, lexcmp_refl in E.
Qed.
Lemma eqb_refl x : isnan x = false → SFeqb x x = true.
Proof. intros Hx. rewrite eqb_enc by done. by apply bool_decide_eq_true. Qed.

(** The operation does not see the sign of a zero. *)
Lemma zadd_found m cur score ele o :
  m !! ele = Some (norm cur) →
  let new := if o_incr o then dadd score cur else score in
  zadd m score ele o =
    if o_nx o then (m, AddResult 1 ZADD_OUT_NOP None)
    else if isnan new then (m, AddResult 0 ZADD_OUT_NAN None)
    else if (o_lt o && SFleb cur new) || (o_gt o && SFleb new cur) then (m, AddResult 1 ZADD_OUT_NOP None)
    else if SFeqb new cur then (m, AddResult 1 0 (Some (norm new)))
    else (<[ele := norm new]> m, AddResult 1 ZADD_OUT_UPDATED (Some (norm new))).
Proof.
  intros Hm. unfold zadd. rewrite Hm.
  assert (Hn : norm (if o_incr o then dadd score (norm cur) else score) = norm (if o_incr o then dadd score cur else score))
    by (destruct (o_incr o); [apply norm_dadd|done]).
  cbv zeta. rewrite <- (norm_nan (if o_incr o then dadd score (norm cur) else score)), <- (norm_leb _ (if o_incr o then _ else _)),
    <- (norm_leb (if o_incr o then _ else _)), <- (norm_eqb (if o_incr o then _ else _)), Hn.
  by rewrite norm_nan, norm_norm, !norm_leb, norm_eqb.
Qed.

(** ** The skiplist encoding keeps the promise *)

Lemma ltm_mid {A} (l r : list (sds * A)) k x :
  NoDup (l ++ (k, x) :: r).*1 →
  list_to_map (l ++ (k, x) :: r) =@{gmap sds A} <[k := x]> (list_to_map (l ++ r)) ∧
  (list_to_map (l ++ r) : gmap sds A) !! k = None.
Proof.
  intros Hnd. pose proof Hnd as Hnd'. rewrite fmap_app in Hnd'. cbn [fmap list_fmap fst] in Hnd'.
  rewrite <- Permutation_middle in Hnd'. apply NoDup_cons in Hnd' as [Hk _]. split.
  - rewrite (list_to_map_proper _ ((k, x) :: l ++ r)); [done|done|]. by rewrite <- Permutation_middle.
  - apply not_elem_of_list_to_map_1. by rewrite fmap_app.
Qed.

Lemma scores_mid a e s b :
  NoDup (a ++ (e, s) :: b).*1 →
  scores (a ++ (e, s) :: b) = <[e := norm s]> (scores (a ++ b)) ∧ scores (a ++ b) !! e = None.
Proof.
  intros Hnd. unfold scores. rewrite !fmap_app. cbn [fmap list_fmap prod_map id]. apply ltm_mid.
  replace ((_ ++ _).*1) with ((a ++ (e, s) :: b).*1); [done|]. rewrite !fmap_app. cbn [fmap list_fmap fst].
  by rewrite <- !list_fmap_compose.
Qed.

Lemma scores_none ms e : e ∉ ms.*1 → scores ms !! e = None.
Proof. intros He. apply not_elem_of_list_to_map_1. by rewrite <- list_fmap_compose. Qed.

Lemma zset_map_mid a it b :
  NoDup (it_ele <$> a ++ it :: b) →
  zset_map (a ++ it :: b) = <[it_ele it := (it_ele it, Some (it_ptr it))]> (zset_map (a ++ b)) ∧
  zset_map (a ++ b) !! it_ele it = None.
Proof.
  intros Hnd. unfold zset_map. rewrite !fmap_app. cbn [fmap list_fmap]. apply ltm_mid.
  rewrite fmap_app in Hnd. rewrite fmap_app. cbn [fmap list_fmap fst] in Hnd |- *. by rewrite <- !list_fmap_compose.
Qed.

Lemma members_eles (l : list item) : (member <$> l).*1 = it_ele <$> l.
Proof. by rewrite <- list_fmap_compose. Qed.
Lemma members_mid (a : list item) it b : member <$> a ++ it :: b = (member <$> a) ++ member it :: (member <$> b).
Proof. by rewrite fmap_app. Qed.

Lemma items_mid a it b :
  NoDup (it_ele <$> a ++ it :: b) →
  scores (member <$> a ++ it :: b) = <[it_ele it := norm (it_score it)]> (scores (member <$> a ++ b)) ∧
  scores (member <$> a ++ b) !! it_ele it = None.
Proof.
  rewrite <- members_eles, members_mid, (fmap_app member a b). apply (scores_mid _ (it_ele it) (it_score it)).
Qed.

(** An element is at one place in the list, or not there. *)
Lemma ele_place (l : list item) e :
  NoDup (it_ele <$> l) →
  (∃ a it b, l = a ++ it :: b ∧ it_ele it = e ∧ zset_map l !! e = Some (e, Some (it_ptr it)) ∧
     scores (member <$> l) !! e = Some (norm (it_score it))) ∨
  ((e ∉ it_ele <$> l) ∧ zset_map l !! e = None ∧ scores (member <$> l) !! e = None).
Proof.
  intros Hnd. destruct (decide (e ∈ it_ele <$> l)) as [He|He]; [left|right].
  - apply list_elem_of_fmap in He as (it & -> & Hin). apply list_elem_of_split in Hin as (a & b & ->).
    exists a, it, b. split_and!; [done|done|..].
    + rewrite (proj1 (zset_map_mid a it b Hnd)). by rewrite lookup_insert_eq.
    + rewrite (proj1 (items_mid a it b Hnd)). by rewrite lookup_insert_eq.
  - split_and!; [done| |].
    + apply not_elem_of_list_to_map_1. by rewrite <- list_fmap_compose.
    + apply scores_none. by rewrite members_eles.
Qed.

(** ** Ranks in terms of the map *)

Definition pair_key (p : sds * spec_float) : list Z := key p.2 p.1.
Definition pair_lt (p q : sds * spec_float) : Prop := lexcmp (pair_key p) (pair_key q) = Lt.

(** A sorted list of members: each element once, no NaN. *)
Record members_ok (ms : list (sds * spec_float)) : Prop := {
  mo_sorted : StronglySorted pair_lt ms;
  mo_nodup : NoDup ms.*1;
  mo_nan : Forall (λ p, isnan p.2 = false) ms;
}.

(** The rank of a member is the number of members before it. *)
Definition zrank (m : gmap sds spec_float) (ele : sds) : option nat :=
  s ← m !! ele; Some (size (filter (λ p, lexcmp (pair_key p) (key s ele) = Lt) m)).

Lemma size_filter_map (P : sds * spec_float → Prop) `{∀ x, Decision (P x)} (ms : list (sds * spec_float)) :
  NoDup ms.*1 → size (filter P (list_to_map ms : gmap sds spec_float)) = length (filter P ms).
Proof.
  induction ms as [|[e s] ms IH]; intros Hnd; [done|]. cbn [fmap list_fmap fst] in Hnd. apply NoDup_cons in Hnd as [He Hnd].
  cbn [list_to_map foldr fst snd]. assert (Hno : (list_to_map ms : gmap sds spec_float) !! e = None) by by apply not_elem_of_list_to_map_1.
  rewrite filter_cons. case_decide as Hp.
  - rewrite map_filter_insert_True by done. rewrite map_size_insert_None; [by rewrite IH|].
    by apply map_lookup_filter_None_2; left.
  - rewrite map_filter_insert_False by done. rewrite map_filter_delete_not; [by rewrite IH|].
    intros y. by rewrite Hno.
Qed.

Lemma pair_key_norm e s : key (norm s) e = key s e.
Proof. unfold key. by rewrite enc_norm. Qed.

Lemma zrank_spec a e s b :
  members_ok (a ++ (e, s) :: b) → zrank (scores (a ++ (e, s) :: b)) e = Some (length a).
Proof.
  intros [Hs Hnd _]. unfold zrank. destruct (scores_mid a e s b Hnd) as [Hm _]. rewrite Hm at 1. rewrite lookup_insert_eq.
  cbn [mbind option_bind]. f_equal. unfold scores. rewrite size_filter_map.
  2:{ replace ((_ <$> _).*1) with ((a ++ (e, s) :: b).*1); [done|]. by rewrite <- list_fmap_compose. }
  rewrite pair_key_norm. rewrite fmap_app, filter_app. cbn [fmap list_fmap prod_map id fst snd]. rewrite filter_cons_False.
  2:{ unfold pair_key. cbn. rewrite pair_key_norm, lexcmp_refl. done. }
  rewrite (filter_all _ (_ <$> a)), (filter_none _ (_ <$> b)), app_nil_r, length_fmap; [done|..].
  - rewrite Forall_fmap. apply StronglySorted_app_1_r in Hs. inversion_clear Hs as [|? ? _ Hall].
    eapply Forall_impl; [exact Hall|]. intros [e' s'] Hlt. unfold pair_lt, pair_key in *. cbn in *.
    by rewrite pair_key_norm, lexcmp_antisym, Hlt.
  - rewrite Forall_fmap, Forall_forall. intros [e' s'] Hin. unfold pair_key. cbn. rewrite pair_key_norm.
    apply (StronglySorted_app_1_elem_of pair_lt a ((e, s) :: b) (e', s') (e, s) Hs Hin). by left.
Qed.

Lemma zrank_none ms e : e ∉ ms.*1 → zrank (scores ms) e = None.
Proof. intros He. unfold zrank. by rewrite scores_none. Qed.

Section skiplist_spec.
Context (hash : sds → Z) (cr : dictResizeEnable) (Hhash : ∀ k, 0 ≤ hash k < 2 ^ 64).
#[local] Abbreviation type := (zsetDictType hash).
Implicit Type (zs : zset) (l : list item).

Lemma memcmp_eq n : ∀ s1 s2, length s1 = n → length s2 = n → memcmp s1 s2 n = 0 ↔ s1 = s2.
Proof.
  induction n as [|n IH]; intros [|c1 s1] [|c2 s2] H1 H2; try done. cbn [memcmp].
  destruct (Z.ltb_spec c1 c2); [split; [done|intros [= -> _]; lia]|].
  destruct (Z.ltb_spec c2 c1); [split; [done|intros [= -> _]; lia]|].
  rewrite IH by (cbn in *; lia). split; [intros ->; f_equal; lia|by intros [= _ ->]].
Qed.

Lemma key_compare k1 k2 : short k1 → short k2 → dictSdsKeyCompare k1 k2 = bool_decide (k1 = k2).
Proof.
  unfold short, dictSdsKeyCompare. intros H1 H2. rewrite !(wraps_small 32) by (unfold sfits; lia). rewrite wrapu_small, Nat2Z.id by lia.
  destruct (Z.eqb_spec (zlen k1) (zlen k2)) as [Hl|Hl]; cbn [negb]; symmetry; [|apply bool_decide_eq_false_2; by intros ->].
  destruct (Z.eqb_spec (memcmp k1 k2 (length k1)) 0) as [E|E]; rewrite memcmp_eq in E by lia; [by apply bool_decide_eq_true_2|by apply bool_decide_eq_false_2].
Qed.
(** A key and a longer one that starts with it count as equal when the lengths
    agree modulo 2^32. *)
Lemma key_compare_long k x : short k → zlen x = 2 ^ 32 → dictSdsKeyCompare k (k ++ x) = true ∧ k ≠ k ++ x.
Proof.
  unfold short, dictSdsKeyCompare. intros Hk Hx. split; [|intros E; apply (f_equal length) in E; rewrite length_app in E; lia].
  assert (s32 (zlen (k ++ x)) = zlen k) as ->.
  { rewrite length_app, Nat2Z.inj_add, Hx. unfold wraps.
    replace (zlen k + 2 ^ 32 + 2 ^ (32 - 1)) with (zlen k + 2 ^ (32 - 1) + 1 * 2 ^ 32) by lia. rewrite Z_mod_plus_full, Z.mod_small; lia. }
  rewrite (wraps_small 32), wrapu_small, Nat2Z.id, Z.eqb_refl by (unfold sfits; lia). cbn [negb]. apply Z.eqb_eq.
  clear. induction k as [|c k IH]; [done|]. cbn [length memcmp app]. by rewrite Z.ltb_irrefl.
Qed.

#[export] Instance zset_type_ok : TypeOn type (@id sds) short.
Proof.
  assert (Hsame : ∀ k1 k2, bool_decide (k1 = k2) || bool_decide (id k1 = id k2) = bool_decide (@id sds k1 = id k2)) by (intros; unfold id; apply orb_diag).
  split; [split; [exact Hsame|by intros k1 k2 Heq; unfold id in Heq; subst|apply Hhash|done|done]|].
  intros k1 k2 H1 H2. unfold same_key. cbn [keyCompare zsetDictType]. rewrite key_compare by done. apply Hsame.
Qed.

Definition skl_ok zs l : Prop := zset_ok type short (zs_zsl zs) (zs_dict zs) l.

(** Looking an element up in the dict. *)
Lemma skl_find zs l e :
  skl_ok zs l → short e →
  ∃ d' de, dictFind type cr (zs_dict zs) e = Some (d', de) ∧ skl_ok (Zs d' (zs_zsl zs)) l ∧
    match de with
    | Some de => place_holds id d' e de ∧ ∃ a it b, l = a ++ it :: b ∧ it_ele it = e ∧
        scores (member <$> l) !! e = Some (norm (it_score it)) ∧
        entry_score (Zs d' (zs_zsl zs)) de = Some (it_score it)
    | None => (e ∉ it_ele <$> l) ∧ scores (member <$> l) !! e = None
    end.
Proof.
  intros [Hz Hd Hnd Hm Hks] He0. destruct (on_find_spec type id cr (zs_dict zs) e Hd (zset_keys _ _ _ Hm Hks) He0) as (d' & de & -> & Hsc & Hf).
  assert (Hm' : dict_map id d' = zset_map l) by (rewrite (same_map type id _ _ Hd Hsc); done).
  exists d', de. split_and!; [done|split; cbn; [done|apply Hsc|done|done|done]|].
  destruct (ele_place l e Hnd) as [(a & it & b & Hl & He & Hmap & Hs)|(Hn & Hmap & Hs)]; destruct de as [de|]; cbn [found] in Hf.
  - split; [done|]. exists a, it, b. split_and!; [done..|]. unfold entry_score. cbn [zs_dict zs_zsl].
    destruct (on_setVal_spec type id d' e de xH (sc_ok _ _ _ _ Hsc) eq_refl Hf) as (_ & k0 & old & _ & _ & _ & -> & Hk & _).
    change (id e) with e in Hk. rewrite Hm', Hmap in Hk. injection Hk as <- <-. cbn [mbind option_bind].
    destruct (node_at (zs_zsl zs) a it b) as (n & -> & _ & <- & _); [rewrite <- Hl; apply Hz|]. done.
  - change (id e) with e in Hf. rewrite Hm' in Hf. congruence.
  - exfalso. destruct (on_place_lookup type id d' e de (sc_ok _ _ _ _ Hsc) Hf) as (en & _ & _ & _ & Hk).
    change (id e) with e in Hk. rewrite Hm' in Hk. congruence.
  - done.
Qed.

Lemma score_skl zs l e :
  skl_ok zs l → short e →
  ∃ zs' s, zsetScore_skiplist hash cr zs e = Some (zs', s) ∧ skl_ok zs' l ∧ norm <$> s = scores (member <$> l) !! e.
Proof.
  intros Hok He0. unfold zsetScore_skiplist. destruct (skl_find zs l e Hok He0) as (d' & de & -> & Hok' & Hde).
  cbn [mbind option_bind]. destruct de as [de|].
  - destruct Hde as (_ & a & it & b & Hl & He & Hs & ->). cbn [mbind option_bind]. rewrite Hs. by do 2 eexists.
  - destruct Hde as [_ ->]. by do 2 eexists.
Qed.
Lemma map_size_zset l : NoDup (it_ele <$> l) → size (zset_map l) = length l.
Proof.
  intros Hnd. unfold zset_map. rewrite map_size_list_to_map; [by rewrite length_fmap|]. by rewrite <- list_fmap_compose.
Qed.

Lemma nodup_replace a it b a' it' b' :
  NoDup (it_ele <$> a ++ it :: b) → a ++ b = a' ++ b' → it_ele it' = it_ele it → NoDup (it_ele <$> a' ++ it' :: b').
Proof.
  intros Hnd Heq He. rewrite fmap_app in Hnd |- *. cbn [fmap list_fmap] in Hnd |- *.
  rewrite <- Permutation_middle in Hnd |- *. rewrite He. apply (f_equal (fmap it_ele)) in Heq. rewrite !fmap_app in Heq.
  by rewrite <- Heq.
Qed.

(** A member gets a new score and, maybe, a new node. *)
Lemma skl_update zs l a it b de score rs :
  skl_ok zs l → l = a ++ it :: b → place_holds id (zs_dict zs) (it_ele it) de → isnan score = false → is_Some (zslRandomLevel rs) →
  ∃ zsl x rs' d l', zslUpdateScore (zs_zsl zs) (it_score it) (it_ele it) score rs = Some (zsl, x, rs') ∧
    dictSetVal type (zs_dict zs) de x = Some d ∧ skl_ok (Zs d zsl) l' ∧
    scores (member <$> l') = <[it_ele it := norm score]> (scores (member <$> l)).
Proof.
  intros [Hz Hd Hnd Hm Hks] Hl Hde Hs [[lv rs'] Hrl]. pose proof (ok_wf _ _ Hz) as Hwf.
  assert (Hin : it ∈ l) by (rewrite Hl; set_solver). pose proof (wf_nan _ _ _ Hwf Hin) as Hc.
  destruct (updateScore_spec (zs_zsl zs) l (it_score it) (it_ele it) score rs lv rs')
    as (a1 & it1 & b1 & a' & b' & zsl & x & h & rs'' & Hl1 & Hsm & Hab & Hu & Hok); try done.
  { apply Exists_exists. exists it. split; [done|]. unfold same_member. rewrite eqb_refl by done. by apply bool_decide_eq_true. }
  assert (He1 : it_ele it1 = it_ele it) by (unfold same_member in Hsm; apply andb_true_iff in Hsm as [_ Hsm]; by apply bool_decide_eq_true in Hsm).
  destruct (on_setVal_spec type id (zs_dict zs) (it_ele it) de x Hd eq_refl Hde) as (d & k0 & old & Hset & Hd' & _ & _ & Hk & Hm').
  assert (Hk0 : k0 = it_ele it).
  { change (id (it_ele it)) with (it_ele it) in Hk. rewrite Hm, Hl, (proj1 (zset_map_mid a it b ltac:(by rewrite <- Hl))), lookup_insert_eq in Hk. congruence. }
  assert (Hnd' : NoDup (it_ele <$> a' ++ Item x score (it_ele it) h :: b')).
  { eapply (nodup_replace a1 it1 b1); [by rewrite <- Hl1|done|done]. }
  exists zsl, x, rs'', d, (a' ++ Item x score (it_ele it) h :: b'). split_and!; [done|done| |].
  - rewrite Hl1 in Hks. destruct (keys_mid _ _ _ _ Hks) as [Hk1 Hk2]. rewrite Hab in Hk1.
    split; cbn [zs_zsl zs_dict]; [done|done|done| |apply keys_put; [done|]; by rewrite <- He1]. rewrite Hm', Hm, Hl1.
    rewrite (proj1 (zset_map_mid a1 it1 b1 ltac:(by rewrite <- Hl1))), (proj1 (zset_map_mid _ _ _ Hnd')), Hab, He1, Hk0.
    cbn [it_ele it_ptr]. change (id (it_ele it)) with (it_ele it). by rewrite insert_insert_eq.
  - rewrite (proj1 (items_mid _ _ _ Hnd')), Hl1, (proj1 (items_mid a1 it1 b1 ltac:(by rewrite <- Hl1))), Hab, He1.
    cbn [it_ele it_score]. by rewrite insert_insert_eq.
Qed.

(** A new member. *)
Lemma skl_new zs l ele score rs lv rs' :
  skl_ok zs l → short ele → ele ∉ it_ele <$> l → isnan score = false → zslRandomLevel rs = Some (lv, rs') → zlen l + 1 < 2 ^ 60 →
  ∃ zsl x d l', zslInsert (zs_zsl zs) score ele rs = Some (zsl, x, rs') ∧
    dictAdd type cr (zs_dict zs) ele x = Some (d, true) ∧ skl_ok (Zs d zsl) l' ∧
    scores (member <$> l') = <[ele := norm score]> (scores (member <$> l)) ∧ length l' = S (length l).
Proof.
  intros [Hz Hd Hnd Hm Hks] He0 Hnew Hs Hrl Hsm.
  destruct (insert_new (zs_zsl zs) l score ele rs lv rs') as (a & b & zsl & x & -> & Hi & Hok); [done|done| |lia|done|].
  { apply Forall_forall. intros z Hz'. unfold same_member. rewrite bool_decide_eq_false_2; [apply andb_false_r|].
    intros <-. apply Hnew. by apply list_elem_of_fmap_2. }
  destruct (on_add_spec type id cr (zs_dict zs) ele x Hd (zset_keys _ _ _ Hm Hks) He0) as (d & Ha & Hd' & Hm' & _).
  { rewrite Hm, map_size_zset by done. lia. }
  assert (Hnd' : NoDup (it_ele <$> a ++ Item x score ele lv :: b)).
  { rewrite fmap_app in Hnd, Hnew |- *. cbn [fmap list_fmap it_ele]. rewrite <- Permutation_middle. by apply NoDup_cons. }
  assert (Hnone : dict_map id (zs_dict zs) !! ele = None).
  { rewrite Hm. apply (zset_map_mid a (Item x score ele lv) b Hnd'). }
  assert (Hadd : map_add type id (dict_map id (zs_dict zs)) ele x = (<[ele := (ele, Some x)]> (zset_map (a ++ b)), true)).
  { unfold map_add. change (id ele) with ele. rewrite Hnone, Hm. done. }
  rewrite Hadd in Ha, Hm'. exists zsl, x, d, (a ++ Item x score ele lv :: b). split_and!; [done|done| | |].
  - split; cbn [zs_zsl zs_dict]; [done|done|done| |by apply keys_put]. rewrite Hm'. by rewrite (proj1 (zset_map_mid _ _ _ Hnd')).
  - by rewrite (proj1 (items_mid _ _ _ Hnd')).
  - rewrite !length_app. cbn [length]. lia.
Qed.

Lemma add_skl zs l score ele o rs :
  skl_ok zs l → short ele → isnan score = false → is_Some (zslRandomLevel rs) → zlen l + 1 < 2 ^ 60 →
  ∃ zs' l' r rs', zsetAdd_skiplist hash cr zs score ele o rs = Some (zs', r, rs') ∧ skl_ok zs' l' ∧
    zadd (scores (member <$> l)) score ele o = (scores (member <$> l'), norm_result r).
Proof.
  intros Hok He0 Hs Hrl Hsm. unfold zsetAdd_skiplist. destruct (skl_find zs l ele Hok He0) as (d & de & -> & Hok' & Hde).
  cbn [mbind option_bind]. destruct de as [de|].
  - destruct Hde as (Hp & a & it & b & Hl & He & Hsc & Hes). rewrite (zadd_found _ _ _ _ _ Hsc).
    destruct (o_nx o); [by exists (Zs d (zs_zsl zs)), l; do 2 eexists|]. rewrite Hes. cbn [mbind option_bind].
    set (new := if o_incr o then dadd score (it_score it) else score).
    assert (Hnan : o_incr o && isnan new = isnan new) by (unfold new; destruct (o_incr o); [done|by rewrite Hs]).
    rewrite Hnan. destruct (isnan new) eqn:Hn; [by exists (Zs d (zs_zsl zs)), l; do 2 eexists|].
    destruct (_ || _); [by exists (Zs d (zs_zsl zs)), l; do 2 eexists|].
    destruct (SFeqb new (it_score it)); cbn [negb]; [by exists (Zs d (zs_zsl zs)), l; do 2 eexists|].
    subst ele. destruct (skl_update (Zs d (zs_zsl zs)) l a it b de new rs Hok' Hl Hp Hn Hrl) as (zsl & x & rs' & d' & l' & Hu & Hv & Hok2 & Hl').
    cbn [zs_zsl zs_dict] in *. rewrite Hu. cbn [mbind option_bind]. rewrite Hv. cbn [mbind option_bind].
    do 4 eexists. split_and!; [done|done|]. by rewrite Hl'.
  - destruct Hde as [Hnew Hsc]. unfold zadd. rewrite Hsc. destruct (o_xx o); cbn [negb]; [by exists (Zs d (zs_zsl zs)), l; do 2 eexists|].
    destruct Hrl as [[lv rs'] Hrl].
    destruct (skl_new (Zs d (zs_zsl zs)) l ele score rs lv rs' Hok' He0 Hnew Hs Hrl Hsm) as (zsl & x & d' & l' & Hi & Ha & Hok2 & Hl' & _).
    cbn [zs_zsl zs_dict] in *. rewrite Hi. cbn [mbind option_bind]. rewrite Ha. cbn [mbind option_bind assert].
    do 4 eexists. split_and!; [done|done|]. by rewrite Hl'.
Qed.

Lemma del_skl zs l ele :
  skl_ok zs l → short ele →
  ∃ zs' l', zsetDel_skiplist hash cr zs ele = Some (zs', if decide (ele ∈ it_ele <$> l) then 1 else 0) ∧ skl_ok zs' l' ∧
    scores (member <$> l') = delete ele (scores (member <$> l)).
Proof.
  intros [Hz Hd Hnd Hm Hks] He0. unfold zsetDel_skiplist, zsetRemoveFromSkiplist, dictUnlink.
  destruct (on_delete_spec type id cr (zs_dict zs) ele Hd (zset_keys _ _ _ Hm Hks) He0) as (d & he & -> & Hd' & _ & Hm' & Hhe). cbn [mbind option_bind].
  change (id ele) with ele in Hhe, Hm'. rewrite Hm in Hhe, Hm'.
  destruct (ele_place l ele Hnd) as [(a & it & b & Hl & He & Hmap & Hs)|(Hn & Hmap & Hs)]; rewrite Hmap in Hhe.
  - destruct he as [he|]; [|done]. injection Hhe as Hk Hv. rewrite Hv. cbn [mbind option_bind].
    pose proof (ok_wf _ _ Hz) as Hwf. rewrite Hl in Hwf. destruct (node_at (zs_zsl zs) a it b Hwf) as (n & -> & _ & Hsc & _ & Hnan).
    cbn [mbind option_bind]. rewrite Hsc.
    destruct (delete_spec (zs_zsl zs) l (it_score it) ele Hz Hnan) as [(a1 & it1 & b1 & zsl & Hl1 & Hsm & -> & Hok)|[Hnone _]].
    2:{ exfalso. rewrite Hl, Forall_app, Forall_cons in Hnone. destruct Hnone as (_ & Hno & _). unfold same_member in Hno.
        rewrite eqb_refl, bool_decide_eq_true_2 in Hno by done. done. }
    assert (He1 : it_ele it1 = ele) by (unfold same_member in Hsm; apply andb_true_iff in Hsm as [_ Hsm]; by apply bool_decide_eq_true in Hsm).
    cbn [mbind option_bind assert]. rewrite bool_decide_eq_true_2 by (by eexists). cbn [mbind option_bind assert].
    rewrite Hl1 in Hnd, Hks. assert (Hok1 : skl_ok (Zs d zsl) (a1 ++ b1)).
    { split; cbn; [done|done|by eapply nodup_mid| |by apply (keys_mid _ _ _ _ Hks)]. rewrite Hm', Hl1, <- He1. by apply zset_map_delete. }
    assert (Hsc1 : scores (member <$> a1 ++ b1) = delete ele (scores (member <$> l))).
    { rewrite Hl1. destruct (items_mid a1 it1 b1 Hnd) as [-> Hno]. rewrite He1 in *. by rewrite delete_insert_id. }
    rewrite decide_True by (rewrite <- He1, Hl1, fmap_app; set_solver). cbn [zs_dict zs_zsl Z.eqb].
    destruct (htNeedsResize d); [|by exists (Zs d zsl), (a1 ++ b1)].
    destruct (on_resize_spec type id cr d Hd') as (d2 & ok & -> & Hsame). cbn [mbind option_bind].
    exists (Zs d2 zsl), (a1 ++ b1). split_and!; [done| |done]. destruct Hok1 as [? ? ? Hmm ?]. split; cbn; [done|apply Hsame|done| |done].
    by rewrite (same_map type id d d2 Hd' Hsame).
  - destruct he; [done|]. cbn [mbind option_bind Z.eqb]. rewrite decide_False by done. exists (Zs d (zs_zsl zs)), l.
    rewrite delete_id in Hm' by done. split_and!; [done|split; cbn; [done|done|done|by rewrite Hm'|done]|]. by rewrite delete_id.
Qed.

Lemma skl_members zs l : skl_ok zs l → members_ok (member <$> l).
Proof.
  intros [Hz _ Hnd _ _]. pose proof (ok_wf _ _ Hz) as Hwf. split.
  - eapply (StronglySorted_fmap member it_lt); [|apply Hwf]. done.
  - by rewrite members_eles.
  - rewrite Forall_fmap. exact (wf_scores _ _ Hwf).
Qed.

(** The rank that is returned: from the start, or from the end. *)
Definition rank_result (n : nat) (reverse : bool) (r : option nat) : Z :=
  match r with Some i => if reverse then Z.of_nat n - (Z.of_nat i + 1) else Z.of_nat i | None => -1 end.

Lemma rank_skl zs l ele reverse :
  skl_ok zs l → short ele →
  ∃ zs' s, zsetRank_skiplist hash cr zs ele reverse =
      Some (zs', rank_result (length l) reverse (zrank (scores (member <$> l)) ele), s) ∧ skl_ok zs' l ∧
    norm <$> s = scores (member <$> l) !! ele.
Proof.
  intros Hok He0. pose proof (skl_members zs l Hok) as Hms. unfold zsetRank_skiplist.
  destruct (skl_find zs l ele Hok He0) as (d & de & -> & Hok' & Hde). cbn [mbind option_bind]. destruct de as [de|].
  - destruct Hde as (_ & a & it & b & Hl & He & Hs & ->). cbn [mbind option_bind zs_zsl].
    destruct Hok as [Hz _ Hnd _ _]. pose proof (ok_wf _ _ Hz) as Hwf. rewrite Hl in Hwf.
    assert (Hnan : isnan (it_score it) = false) by (eapply wf_nan; [exact Hwf|set_solver]).
    rewrite (getRank_spec (zs_zsl zs) a it b (it_score it) ele Hwf Hnan) by (by rewrite <- He). cbn [mbind option_bind].
    destruct (Z.eqb_spec (zlen a + 1) 0); [lia|]. cbn [negb assert mbind option_bind]. exists (Zs d (zs_zsl zs)), (Some (it_score it)).
    split_and!; [|done|by rewrite Hs]. do 3 f_equal.
    assert (Hr : zrank (scores (member <$> l)) ele = Some (length a)).
    { rewrite Hl, members_mid in Hms |- *. unfold member at 2. rewrite <- He.
      rewrite <- (length_fmap member a). by apply zrank_spec. }
    rewrite Hr, (wf_length _ _ Hwf), Hl. cbn [rank_result]. pose proof (wf_small _ _ Hwf) as Hsm.
    rewrite !length_app in *. cbn [length] in *. destruct reverse; rewrite wrapu_small by lia; rewrite wraps_small by (unfold sfits; lia); lia.
  - destruct Hde as [Hn Hs]. rewrite zrank_none by (by rewrite members_eles). rewrite Hs. by do 2 eexists.
Qed.
End skiplist_spec.

(** ** An example *)

Definition ex_hash (k : sds) : Z := foldr Z.add 0 k mod 2 ^ 64.
Lemma ex_hash_range k : 0 ≤ ex_hash k < 2 ^ 64.
Proof. apply Z.mod_pos_bound. lia. Qed.
#[local] Instance ex_zset_type_ok : TypeOn (zsetDictType ex_hash) (@id sds) short := zset_type_ok ex_hash ex_hash_range.

Definition ex_adds : list (dict_op (K := sds) (V := ptr)) :=
  [OpAdd [97] 4%positive; OpAdd [98] 2%positive; OpAdd [99] 3%positive].
Definition ex_dict : dict sds ptr :=
  match dict_run (zsetDictType ex_hash) DICT_RESIZE_ENABLE ex_adds dictCreate with Some (d, _) => d | None => dictCreate end.

Lemma ex_zset_ok : zset_ok (zsetDictType ex_hash) short ex_zsl ex_dict ex_items.
Proof.
  split; [exact ex_ok| | |by vm_compute|by repeat constructor].
  - assert (E : dict_run (zsetDictType ex_hash) DICT_RESIZE_ENABLE ex_adds dictCreate = dict_run (ideal (zsetDictType ex_hash) id) DICT_RESIZE_ENABLE ex_adds dictCreate)
      by (by vm_compute).
    unfold ex_dict. rewrite E. destruct (dict_runs (ideal (zsetDictType ex_hash) id) id DICT_RESIZE_ENABLE ex_adds dictCreate) as (d & -> & Hok & _);
      [apply DictInv.create_ok|by repeat constructor|by vm_compute|by apply ok_ideal].
  - vm_compute. repeat (constructor; [set_solver|]). constructor.
Qed.

Lemma zsl_delete_ranges_witness :
  ∃ zsl' d', zslDeleteRangeByScore (zsetDictType ex_hash) DICT_RESIZE_ENABLE ex_zsl (Zrange one two true false) ex_dict =
      Some (zsl', d', 2) ∧ zset_ok (zsetDictType ex_hash) short zsl' d' [Item 3%positive one [99] 1].
Proof.
  destruct (zsl_delete_ranges_correct (zsetDictType ex_hash) short DICT_RESIZE_ENABLE ex_zsl ex_dict ex_items ex_zset_ok) as [Hs _].
  exact (Hs (Zrange one two true false) eq_refl eq_refl).
Defined.

End Zset.
