(* ===== verification/Zzl.v ===== *)
(** * t_zset.c: sorted sets in a listpack

    Elements and scores alternate in the listpack, in the order of the sorted
    set.  A score is stored as an integer when it is one, as text otherwise;
    [strtod] of the C library and [fpconv_dtoa] of the vendored fpconv library
    are parameters.  Pointers into the listpack are offsets; a NULL listpack,
    which the insertion functions return when the result would exceed 32 bits,
    is [None] since no caller tests for it. *)

From S2P Require Import Prelude Util Listpack ListpackNav ListpackEdit ListpackBulk Dict Zskiplist Double.
Import Util Listpack ListpackNav ListpackEdit ListpackBulk Dict Zskiplist Double.

Module Zzl.

(** ** util.c: doubles as text *)

Definition LLONG_MAX : Z := INT64_MAX.

(** [(long long)d]: truncation towards zero. *)
Definition trunc (d : spec_float) : Z :=
  match d with
  | S754_finite s m e =>
      let v := if 0 <=? e then Zpos m * 2 ^ e else Zpos m / 2 ^ (- e) in
      s64 (if s then - v else v)
  | _ => 0
  end.
(** A NaN passes the first test and fails the second. *)
Definition double2ll (d : spec_float) : option Z :=
  if SFltb d (ll2double (Z.quot (- LLONG_MAX) 2)) || SFltb (ll2double (Z.quot LLONG_MAX 2)) d then None
  else
    let ll := trunc d in
    if SFeqb (ll2double ll) d then Some ll else None.

(** The text that [ll2string] writes into a buffer of [n] bytes. *)
Definition ll_text (n v : Z) : option (list Z) :=
  '(buf, len) ← ll2string (replicate (Z.to_nat n) 0) n v; load buf 0 len.

Section zzl.
Context `{Allocator} (strtod : sds → spec_float * nat) (fpconv_dtoa : spec_float → list Z).
Implicit Type zl : list Z.

(** "nan", "-inf", "inf", "-0" and "0". *)
Definition d2string (len : Z) (value : spec_float) : option (list Z) :=
  match value with
  | S754_nan => Some [110; 97; 110]
  | S754_infinity true => Some [45; 105; 110; 102]
  | S754_infinity false => Some [105; 110; 102]
  | S754_zero true => Some [45; 48]
  | S754_zero false => Some [48]
  | S754_finite _ _ _ =>
      match double2ll value with
      | Some lvalue => ll_text len lvalue
      | None => Some (fpconv_dtoa value)
      end
  end.

(** ** Reading *)

Definition zzlStrtod (vstr : list Z) : spec_float := fst (strtod (take 127 vstr)).

Definition zzlGetScore zl (sptr : Z) : option spec_float :=
  v ← lpGetValue zl sptr;
  match v with
  | inl (vstr, vlen) => bs ← load zl vstr vlen; Some (zzlStrtod bs)
  | inr vlong => Some (ll2double vlong)
  end.

Definition sdsfromlonglong (value : Z) : option sds := ll_text LONG_STR_SIZE value.
Definition lpGetObject zl (sptr : Z) : option sds :=
  v ← lpGetValue zl sptr;
  match v with
  | inl (vstr, vlen) => load zl vstr vlen
  | inr vlong => sdsfromlonglong vlong
  end.

Definition zzlCompareElements zl (eptr : Z) (cstr : list Z) : option Z :=
  v ← lpGetValue zl eptr;
  vstr ← match v with
         | inl (vstr, vlen) => load zl vstr vlen
         | inr vlong => ll_text 32 vlong
         end;
  let vlen := length vstr in
  let clen := length cstr in
  let minlen := if (vlen <? clen)%nat then vlen else clen in
  let cmp := memcmp vstr cstr minlen in
  Some (if cmp =? 0 then s32 (u32 (Z.of_nat vlen - Z.of_nat clen)) else cmp).

Definition zzlLength zl : option (list Z * Z) :=
  '(zl, n) ← lpLength zl; Some (zl, u32 (n / 2)).

(** A pointer that [serverAssert] checks. *)
Definition not_null {A} (p : option A) : option A := p.

Definition zzlNext zl (sptr : Z) : option (option (Z * Z)) :=
  eptr ← lpNext zl sptr;
  match eptr with
  | None => Some None
  | Some eptr => sptr ← lpNext zl eptr; sptr ← not_null sptr; Some (Some (eptr, sptr))
  end.
Definition zzlPrev zl (eptr : Z) : option (option (Z * Z)) :=
  sptr ← lpPrev zl eptr;
  match sptr with
  | None => Some None
  | Some sptr => eptr ← lpPrev zl sptr; eptr ← not_null eptr; Some (Some (eptr, sptr))
  end.

(** The score that follows an element. *)
Definition score_of zl (eptr : Z) : option spec_float :=
  sptr ← lpNext zl eptr; sptr ← not_null sptr; zzlGetScore zl sptr.

(** ** Ranges

    As for skiplists, score and lexicographic ranges differ in their tests,
    here on the element pointer, and in the place of the first and last value. *)
Record zl_range := ZlRange {
  zr_gte_min : list Z → Z → option bool;
  zr_lte_max : list Z → Z → option bool;
  zr_empty : bool;
}.
Definition zl_score_range (range : zrangespec) : zl_range :=
  ZlRange (λ zl eptr, score ← score_of zl eptr; Some (zslValueGteMin score range))
    (λ zl eptr, score ← score_of zl eptr; Some (zslValueLteMax score range))
    (r_empty (score_range range)).
Definition zzlLexValueGteMin zl (p : Z) (spec : zlexrangespec) : option bool :=
  value ← lpGetObject zl p; Some (zslLexValueGteMin value spec).
Definition zzlLexValueLteMax zl (p : Z) (spec : zlexrangespec) : option bool :=
  value ← lpGetObject zl p; Some (zslLexValueLteMax value spec).
Definition zl_lex_range (range : zlexrangespec) : zl_range :=
  ZlRange (λ zl eptr, zzlLexValueGteMin zl eptr range) (λ zl eptr, zzlLexValueLteMax zl eptr range)
    (r_empty (lex_range range)).

(** The last score is at -1, the first at 1. *)
Definition zzlIsInRange zl (range : zrangespec) : option bool :=
  if r_empty (score_range range) then Some false
  else
    p ← lpSeek zl (-1);
    match p with
    | None => Some false
    | Some p =>
        score ← zzlGetScore zl p;
        if negb (zslValueGteMin score range) then Some false
        else
          p ← lpSeek zl 1;
          p ← not_null p;
          score ← zzlGetScore zl p;
          Some (zslValueLteMax score range)
    end.
(** The last element is at -2, the first at 0. *)
Definition zzlIsInLexRange zl (range : zlexrangespec) : option bool :=
  if r_empty (lex_range range) then Some false
  else
    p ← lpSeek zl (-2);
    match p with
    | None => Some false
    | Some p =>
        ge ← zzlLexValueGteMin zl p range;
        if negb ge then Some false
        else
          p ← lpSeek zl 0;
          p ← not_null p;
          zzlLexValueLteMax zl p range
    end.

(** [while (eptr != NULL)]: the first element that is not below the range, when
    it is not above it. *)
Fixpoint first_loop (fuel : nat) zl (r : zl_range) (eptr : option Z) : option (option Z) :=
  match eptr with
  | None => Some None
  | Some e =>
      match fuel with
      | O => None
      | S fuel =>
          ge ← zr_gte_min r zl e;
          if (ge : bool) then le ← zr_lte_max r zl e; Some (if (le : bool) then Some e else None)
          else
            sptr ← lpNext zl e;
            sptr ← not_null sptr;
            eptr ← lpNext zl sptr;
            first_loop fuel zl r eptr
      end
  end.
Fixpoint last_loop (fuel : nat) zl (r : zl_range) (eptr : option Z) : option (option Z) :=
  match eptr with
  | None => Some None
  | Some e =>
      match fuel with
      | O => None
      | S fuel =>
          le ← zr_lte_max r zl e;
          if (le : bool) then ge ← zr_gte_min r zl e; Some (if (ge : bool) then Some e else None)
          else
            sptr ← lpPrev zl e;
            match sptr with
            | None => Some None
            | Some sptr => eptr ← lpPrev zl sptr; eptr ← not_null eptr; last_loop fuel zl r (Some eptr)
            end
      end
  end.
Definition zzlFirstInRange zl (range : zrangespec) : option (option Z) :=
  eptr ← lpSeek zl 0;
  inside ← zzlIsInRange zl range;
  if negb inside then Some None else first_loop (length zl) zl (zl_score_range range) eptr.
Definition zzlLastInRange zl (range : zrangespec) : option (option Z) :=
  eptr ← lpSeek zl (-2);
  inside ← zzlIsInRange zl range;
  if negb inside then Some None else last_loop (length zl) zl (zl_score_range range) eptr.
Definition zzlFirstInLexRange zl (range : zlexrangespec) : option (option Z) :=
  eptr ← lpSeek zl 0;
  inside ← zzlIsInLexRange zl range;
  if negb inside then Some None else first_loop (length zl) zl (zl_lex_range range) eptr.
Definition zzlLastInLexRange zl (range : zlexrangespec) : option (option Z) :=
  eptr ← lpSeek zl (-2);
  inside ← zzlIsInLexRange zl range;
  if negb inside then Some None else last_loop (length zl) zl (zl_lex_range range) eptr.

(** ** Lookup, insertion and deletion *)

(** The element and its score. *)
Definition zzlFind zl (ele : sds) : option (option (Z * spec_float)) :=
  first ← lpFirst zl;
  match first with
  | None => Some None
  | Some first =>
      eptr ← lpFind zl first ele 1;
      match eptr with
      | None => Some None
      | Some eptr => score ← score_of zl eptr; Some (Some (eptr, score))
      end
  end.

Definition zzlDelete zl (eptr : Z) : option (list Z) := fst <$> lpDeleteRangeWithEntry zl eptr 2.

Definition zzlInsertAt zl (eptr : option Z) (ele : sds) (score : spec_float) : option (list Z) :=
  let lscore := double2ll score in
  scorebuf ← match lscore with Some _ => Some [] | None => d2string 128 score end;
  match eptr with
  | None =>
      zl ← lpAppend zl ele;
      zl ← zl;
      zl ← match lscore with
           | Some lscore => lpAppendInteger zl lscore
           | None => lpAppend zl scorebuf
           end;
      zl
  | Some eptr =>
      r ← lpInsertString zl ele eptr LP_BEFORE true;
      '(zl, sptr) ← r;
      sptr ← sptr;
      r ← match lscore with
          | Some lscore => lpInsertInteger zl lscore sptr LP_AFTER false
          | None => lpInsertString zl scorebuf sptr LP_AFTER false
          end;
      '(zl, _) ← r;
      Some zl
  end.

Fixpoint insert_loop (fuel : nat) zl (ele : sds) (score : spec_float) (eptr : option Z) : option (list Z) :=
  match eptr with
  | None => zzlInsertAt zl None ele score
  | Some e =>
      match fuel with
      | O => None
      | S fuel =>
          sptr ← lpNext zl e;
          sptr ← not_null sptr;
          s ← zzlGetScore zl sptr;
          here ← (if SFltb score s then Some true
                  else if SFeqb s score then cmp ← zzlCompareElements zl e ele; Some (cmp >? 0)
                  else Some false);
          if (here : bool) then zzlInsertAt zl (Some e) ele score
          else eptr ← lpNext zl sptr; insert_loop fuel zl ele score eptr
      end
  end.
Definition zzlInsert zl (ele : sds) (score : spec_float) : option (list Z) :=
  eptr ← lpSeek zl 0; insert_loop (length zl) zl ele score eptr.

(** [while (eptr && (sptr = lpNext(zl,eptr)) != NULL)] *)
Fixpoint zl_delete_loop (fuel : nat) zl (r : zl_range) (eptr : option Z) (num : Z) : option (list Z * Z) :=
  match eptr with
  | None => Some (zl, num)
  | Some e =>
      match fuel with
      | O => None
      | S fuel =>
          sptr ← lpNext zl e;
          match sptr with
          | None => Some (zl, num)
          | Some _ =>
              le ← zr_lte_max r zl e;
              if (le : bool) then
                '(zl, eptr) ← lpDeleteRangeWithEntry zl e 2;
                zl_delete_loop fuel zl r eptr (u64 (num + 1))
              else Some (zl, num)
          end
      end
  end.
Definition zzlDeleteRangeByScore zl (range : zrangespec) : option (list Z * Z) :=
  eptr ← zzlFirstInRange zl range;
  match eptr with
  | None => Some (zl, 0)
  | Some _ => zl_delete_loop (length zl) zl (zl_score_range range) eptr 0
  end.
Definition zzlDeleteRangeByLex zl (range : zlexrangespec) : option (list Z * Z) :=
  eptr ← zzlFirstInLexRange zl range;
  match eptr with
  | None => Some (zl, 0)
  | Some _ => zl_delete_loop (length zl) zl (zl_lex_range range) eptr 0
  end.
Definition zzlDeleteRangeByRank zl (start end_ : Z) : option (list Z * Z) :=
  let num := u32 (u32 (end_ - start) + 1) in
  zl ← lpDeleteRange zl (u32 (2 * u32 (start - 1))) (u32 (2 * num));
  Some (zl, num).
End zzl.

End Zzl.
