(* ===== verification/ZzlOps.v ===== *)
(** * t_zset.c: what a sorted set in a listpack holds

    The listpack holds the strings of a list of pairs, an element and the text
    of its score.  The functions of t_zset.c on such listpacks are proved
    against the sorted list of members these pairs stand for. *)

From S2P Require Import Prelude Util Listpack ListpackNav ListpackEdit ListpackBulk.
From S2P Require Import Dict DictInv Zskiplist Double ZslInv ZslOps ZslRange Zset Zzl.
Import Util Listpack ListpackNav ListpackEdit ListpackBulk.
Import Dict DictInv Zskiplist Double ZslInv ZslOps ZslRange Zset Zzl.

Module ZzlOps.

(** What is relied on: [fpconv_dtoa] writes a short text that [strtod] reads
    back, and [strtod] reads decimal integers and infinities. *)
Class ScoreText (strtod : sds → spec_float * nat) (fpconv_dtoa : spec_float → list Z) := {
  dtoa_bytes : ∀ x, Forall is_byte (fpconv_dtoa x);
  dtoa_length : ∀ x, valid x → zlen (fpconv_dtoa x) ≤ 32;
  strtod_dtoa : ∀ s m e, valid (S754_finite s m e) → fst (strtod (fpconv_dtoa (S754_finite s m e))) = S754_finite s m e;
  strtod_int : ∀ v, sfits 64 v → fst (strtod (sdec v)) = ll2double v;
  strtod_inf : fst (strtod [105; 110; 102]) = S754_infinity false;
  strtod_minf : fst (strtod [45; 105; 110; 102]) = S754_infinity true;
}.

(** ** Pairs of strings *)

Fixpoint weave (ps : list (sds * list Z)) : list (list Z) :=
  match ps with [] => [] | (e, t) :: ps => e :: t :: weave ps end.

Lemma weave_app ps qs : weave (ps ++ qs) = weave ps ++ weave qs.
Proof. induction ps as [|[e t] ps IH]; [done|]. cbn. by rewrite IH. Qed.
Lemma weave_length ps : length (weave ps) = (2 * length ps)%nat.
Proof. induction ps as [|[e t] ps IH]; [done|]. cbn. rewrite IH. lia. Qed.
Lemma weave_take ps i : take (2 * i) (weave ps) = weave (take i ps).
Proof.
  revert i. induction ps as [|[e t] ps IH]; intros [|i]; try done.
  replace (2 * S i)%nat with (S (S (2 * i))) by lia. cbn [weave take]. by rewrite IH.
Qed.
Lemma weave_drop ps i : drop (2 * i) (weave ps) = weave (drop i ps).
Proof.
  revert i. induction ps as [|[e t] ps IH]; intros [|i]; try done.
  replace (2 * S i)%nat with (S (S (2 * i))) by lia. cbn [weave drop]. by rewrite IH.
Qed.
Lemma weave_lookup ps i e t :
  ps !! i = Some (e, t) → weave ps !! (2 * i)%nat = Some e ∧ weave ps !! S (2 * i) = Some t.
Proof.
  revert i. induction ps as [|[e' t'] ps IH]; intros [|i]; [done..|by intros [= -> ->]|].
  replace (2 * S i)%nat with (S (S (2 * i))) by lia. apply IH.
Qed.
Lemma weave_Forall P ps : Forall P (weave ps) ↔ Forall (λ p, P p.1 ∧ P p.2) ps.
Proof.
  induction ps as [|[e t] ps IH]; [done|]. cbn [weave]. rewrite !Forall_cons, IH. cbn. tauto.
Qed.

(** Pointers to the element and to the score of a pair. *)
Definition ept (ps : list (sds * list Z)) (i : nat) : Z := pos (take (2 * i) (lp_encode <$> weave ps)).
Definition spt (ps : list (sds * list Z)) (i : nat) : Z := pos (take (S (2 * i)) (lp_encode <$> weave ps)).
Definition ecur (ps : list (sds * list Z)) (i : nat) : option Z :=
  if decide (i < length ps)%nat then Some (ept ps i) else None.

Definition zl_rep (zl : list Z) (ps : list (sds * list Z)) : Prop := lp_strings zl (weave ps).

Section cursors.
Context (zl : list Z) (ps : list (sds * list Z)) (Hzl : zl_rep zl ps).

Lemma at_even i : at_ (lp_encode <$> weave ps) (2 * i) = ecur ps i.
Proof.
  unfold at_, ecur. rewrite length_fmap, weave_length.
  destruct (decide (2 * i < 2 * length ps)%nat), (decide (i < length ps)%nat); done || lia.
Qed.

Lemma next_e i : (i < length ps)%nat → lpNext zl (ept ps i) = Some (Some (spt ps i)).
Proof.
  intros Hi. destruct (traversal_rep _ _ (proj1 Hzl)) as (_ & _ & Hn & _). unfold ept.
  rewrite Hn by (rewrite length_fmap, weave_length; lia). unfold at_. rewrite length_fmap, weave_length.
  by rewrite decide_True by lia.
Qed.
Lemma next_s i : (i < length ps)%nat → lpNext zl (spt ps i) = Some (ecur ps (S i)).
Proof.
  intros Hi. destruct (traversal_rep _ _ (proj1 Hzl)) as (_ & _ & Hn & _). unfold spt.
  rewrite Hn by (rewrite length_fmap, weave_length; lia). replace (S (S (2 * i))) with (2 * S i)%nat by lia.
  by rewrite at_even.
Qed.
Lemma prev_e i :
  (i ≤ length ps)%nat → lpPrev zl (ept ps i) = Some (match i with O => None | S j => Some (spt ps j) end).
Proof.
  intros Hi. destruct (traversal_rep _ _ (proj1 Hzl)) as (_ & _ & _ & Hp). unfold ept.
  rewrite Hp by (rewrite length_fmap, weave_length; lia). destruct i as [|j]; [done|].
  by replace (2 * S j)%nat with (S (S (2 * j))) by lia.
Qed.
Lemma prev_s i : (i < length ps)%nat → lpPrev zl (spt ps i) = Some (Some (ept ps i)).
Proof.
  intros Hi. destruct (traversal_rep _ _ (proj1 Hzl)) as (_ & _ & _ & Hp). unfold spt.
  by rewrite Hp by (rewrite length_fmap, weave_length; lia).
Qed.
Lemma first_e : lpFirst zl = Some (ecur ps 0).
Proof. destruct (traversal_rep _ _ (proj1 Hzl)) as (-> & _). exact (f_equal Some (at_even 0)). Qed.
Lemma seek_first : lpSeek zl 0 = Some (ecur ps 0).
Proof.
  rewrite (seek_strings _ _ _ Hzl). unfold resolve, ecur. cbn [Z.ltb Z.compare]. rewrite weave_length.
  by destruct (Z.leb_spec (Z.of_nat (2 * length ps)) 0), (decide (0 < length ps)%nat); try lia.
Qed.
(** Seeking from the end of a list that is not empty. *)
Lemma seek_ends :
  lpSeek zl (-2) = Some (match length ps with O => None | S j => Some (ept ps j) end) ∧
  lpSeek zl (-1) = Some (match length ps with O => None | S j => Some (spt ps j) end) ∧
  lpSeek zl 1 = Some (match length ps with O => None | S _ => Some (spt ps 0) end).
Proof.
  rewrite !(seek_strings _ _ _ Hzl). unfold resolve. rewrite weave_length. destruct (length ps) as [|j] eqn:Hlen; [done|].
  cbn [Z.ltb Z.compare]. split_and!.
  - destruct (Z.ltb_spec (Z.of_nat (2 * S j) + -2) 0), (Z.leb_spec (Z.of_nat (2 * S j)) (Z.of_nat (2 * S j) + -2)); try lia.
    cbn. unfold ept. do 4 f_equal. lia.
  - destruct (Z.ltb_spec (Z.of_nat (2 * S j) + -1) 0), (Z.leb_spec (Z.of_nat (2 * S j)) (Z.of_nat (2 * S j) + -1)); try lia.
    cbn. unfold spt. do 4 f_equal. lia.
  - destruct (Z.leb_spec (Z.of_nat (2 * S j)) 1); [lia|]. done.
Qed.

(** What [lpGetValue] says about a string of the listpack. *)
Lemma value_at i x :
  weave ps !! i = Some x →
  (∃ v, sfits 64 v ∧ x = sdec v ∧ lpGetValue zl (pos (take i (lp_encode <$> weave ps))) = Some (inr v)) ∨
  (∃ off, load zl off (zlen x) = Some x ∧ string2ll x = None ∧
     lpGetValue zl (pos (take i (lp_encode <$> weave ps))) = Some (inl (off, zlen x))).
Proof.
  intros Hi. pose proof (get_stored zl (weave ps) Hzl i x Hi) as Hg. cbv zeta in Hg. destruct Hg as (r & size & Hg & Hst & _).
  unfold lpGetValue, lpGet. rewrite Hg. cbn [fmap option_fmap option_map fst mbind option_bind].
  destruct Hst as [v Hv ->|off Hl Hn].
  - left. by exists v.
  - right. exists off. split_and!; [done|done|]. rewrite wrapu_small; [done|].
    pose proof (proj2 Hzl) as Hf. eapply Forall_lookup_1 in Hf as [_ Hlen]; [|exact Hi]. lia.
Qed.
End cursors.

Lemma ll_text_spec n v : sfits 64 v → 21 ≤ n → ll_text n v = Some (sdec v).
Proof.
  intros Hv Hn. pose proof (sdec_pos_length v Hv). unfold ll_text.
  rewrite ll2string_spec by (rewrite ?length_replicate; done || lia). cbn [mbind option_bind].
  by apply load_head.
Qed.

(** ** Scores *)

Section scores.
Context (strtod : sds → spec_float * nat) (fpconv_dtoa : spec_float → list Z) `{!ScoreText strtod fpconv_dtoa}.

(** The score that is read from a text. *)
Definition read_score (t : list Z) : spec_float :=
  match string2ll t with Some v => ll2double v | None => zzlStrtod strtod t end.

(** What [zzlInsertAt] stores. *)
Definition score_arg (score : spec_float) : option lp_arg :=
  match double2ll score with
  | Some v => Some (AInt v)
  | None => AStr <$> d2string fpconv_dtoa 128 score
  end.

Lemma trunc_fits x : sfits 64 (trunc x).
Proof. destruct x as [s|s| |s m e]; try (cbn; unfold sfits; lia). cbn. apply wraps_range. lia. Qed.

Lemma enc_norm_inj x y : isnan x = false → isnan y = false → enc_score x = enc_score y → norm x = norm y.
Proof. destruct x as [[]|[]| |[]], y as [[]|[]| |[]]; cbn; intros Hx Hy He; try congruence.
  injection He as He Hm. f_equal; [congruence|lia].
Qed.

Lemma double2ll_spec x v :
  double2ll x = Some v → isnan x = false → sfits 64 v ∧ norm (ll2double v) = norm x.
Proof.
  unfold double2ll. destruct (_ || _); [done|]. destruct (SFeqb (ll2double (trunc x)) x) eqn:He; [|done].
  intros [= <-] Hx. split; [apply trunc_fits|]. destruct (ll2double_valid (trunc x)) as [_ Hn].
  apply enc_norm_inj; [done|done|]. rewrite eqb_enc in He by done. by apply bool_decide_eq_true in He.
Qed.

Lemma double2ll_zero s : double2ll (S754_zero s) = Some 0.
Proof. by destruct s; vm_compute. Qed.
Lemma double2ll_inf s : double2ll (S754_infinity s) = None.
Proof. by destruct s; vm_compute. Qed.

Lemma read_text t x :
  zlen t ≤ 32 → fst (strtod t) = x → read_score t = x.
Proof.
  intros Hl Hx. unfold read_score. destruct (string2ll t) as [v|] eqn:Hv.
  - apply string2ll_sound in Hv as [Hv ->]. by rewrite <- strtod_int.
  - unfold zzlStrtod. rewrite take_ge by lia. done.
Qed.

(** A score is read back as it was, up to the sign of zero. *)
Lemma score_roundtrip x :
  valid x → isnan x = false →
  ∃ a, score_arg x = Some a ∧ arg_ok a ∧ zlen (arg_string a) ≤ 32 ∧ norm (read_score (arg_string a)) = norm x ∧
    valid (read_score (arg_string a)) ∧ isnan (read_score (arg_string a)) = false.
Proof.
  intros Hv Hn. unfold score_arg. destruct (double2ll x) as [v|] eqn:Hd.
  - destruct (double2ll_spec x v Hd Hn) as [Hf Hnorm]. exists (AInt v). cbn [arg_ok arg_string].
    assert (Hr : read_score (sdec v) = ll2double v) by (unfold read_score; by rewrite string2ll_complete).
    rewrite Hr. destruct (ll2double_valid v). pose proof (sdec_pos_length v Hf). split_and!; [done|done|lia|done..].
  - assert (∃ t, d2string fpconv_dtoa 128 x = Some t ∧ zlen t ≤ 32 ∧ Forall is_byte t ∧ fst (strtod t) = x)
      as (t & -> & Hl & Hb & Ht).
    { destruct x as [s|[]| |s m e]; [by rewrite double2ll_zero in Hd|..|done|].
      - eexists. split_and!; [done|cbn; lia|repeat constructor; unfold is_byte; lia|apply strtod_minf].
      - eexists. split_and!; [done|cbn; lia|repeat constructor; unfold is_byte; lia|apply strtod_inf].
      - cbn [d2string]. rewrite Hd. eexists. split_and!; [done|by apply dtoa_length|apply dtoa_bytes|by apply strtod_dtoa]. }
    exists (AStr t). cbn [arg_ok arg_string fmap option_fmap option_map]. rewrite (read_text t x) by done.
    split_and!; try done. ilia.
Qed.

Lemma score_at zl ps i e t :
  zl_rep zl ps → ps !! i = Some (e, t) → zzlGetScore strtod zl (spt ps i) = Some (read_score t).
Proof.
  intros Hzl Hi. destruct (weave_lookup ps i e t Hi) as [_ Hs].
  unfold zzlGetScore, spt, read_score. destruct (value_at zl ps Hzl _ _ Hs) as [(v & Hv & -> & ->)|(off & Hl & Hn & ->)];
    cbn [mbind option_bind].
  - by rewrite string2ll_complete.
  - by rewrite Hl, Hn.
Qed.

Lemma score_of_at zl ps i e t :
  zl_rep zl ps → ps !! i = Some (e, t) → score_of strtod zl (ept ps i) = Some (read_score t).
Proof.
  intros Hzl Hi. unfold score_of. rewrite (next_e zl ps Hzl) by (by eapply lookup_lt_Some). cbn [mbind option_bind not_null].
  by eapply score_at.
Qed.
End scores.

Lemma object_at zl ps i e t :
  zl_rep zl ps → ps !! i = Some (e, t) → lpGetObject zl (ept ps i) = Some e.
Proof.
  intros Hzl Hi. destruct (weave_lookup ps i e t Hi) as [He _].
  unfold lpGetObject, ept, sdsfromlonglong. destruct (value_at zl ps Hzl _ _ He) as [(v & Hv & -> & ->)|(off & Hl & Hn & ->)];
    cbn [mbind option_bind]; [|done]. by apply ll_text_spec.
Qed.

(** [zzlCompareElements] has the sign of [sdscmp]. *)
Lemma compare_at zl ps i e t c :
  zl_rep zl ps → ps !! i = Some (e, t) → zlen e < 2 ^ 31 → zlen c < 2 ^ 31 →
  ∃ z, zzlCompareElements zl (ept ps i) c = Some z ∧ (z >? 0) = bool_decide (lexcmp e c = Gt).
Proof.
  intros Hzl Hi Hel Hcl. unfold zzlCompareElements.
  assert (Hv : (v ← lpGetValue zl (ept ps i);
    match v with inl (vstr, vlen) => load zl vstr vlen | inr vlong => ll_text 32 vlong end) = Some e).
  { destruct (weave_lookup ps i e t Hi) as [He _]. unfold ept.
    destruct (value_at zl ps Hzl _ _ He) as [(v & Hv & -> & ->)|(off & Hl & Hn & ->)]; cbn [mbind option_bind]; [|done].
    by apply ll_text_spec. }
  destruct (lpGetValue zl (ept ps i)) as [v|]; [|done]. cbn [mbind option_bind] in Hv |- *. rewrite Hv. cbn [mbind option_bind].
  eexists. split; [done|]. rewrite <- (proj2 (sdscmp_sign e c)). unfold sdscmp.
  destruct (Z.eqb_spec (memcmp e c (if (length e <? length c)%nat then length e else length c)) 0) as [Heq|]; [|done].
  assert (Hw : s32 (u32 (zlen e - zlen c)) = zlen e - zlen c).
  { unfold wrapu. rewrite wraps_mod, wraps_small by (unfold sfits; lia). done. }
  rewrite Hw. destruct (Nat.ltb_spec (length c) (length e)), (Nat.ltb_spec (length e) (length c)),
    (Z.gtb_spec (zlen e - zlen c) 0); try lia; done.
Qed.

(** ** Deleting and inserting a pair *)

Lemma weave_remove ps i :
  take (2 * i) (lp_encode <$> weave ps) ++ drop (2 * i + 2) (lp_encode <$> weave ps) =
    lp_encode <$> weave (take i ps ++ drop (S i) ps).
Proof.
  replace (2 * i + 2)%nat with (2 * S i)%nat by lia.
  by rewrite <- fmap_take, <- fmap_drop, weave_take, weave_drop, weave_app, fmap_app.
Qed.

Lemma pairs_delete `{Allocator} zl ps i :
  zl_rep zl ps → (i < length ps)%nat →
  ∃ zl', lpDeleteRangeWithEntry zl (ept ps i) 2 = Some (zl', ecur (take i ps ++ drop (S i) ps) i) ∧
    zl_rep zl' (take i ps ++ drop (S i) ps).
Proof.
  intros [Hrep Hst] Hi. unfold ept.
  destruct (deleteRangeWithEntry_rep zl _ (2 * i) 2 Hrep) as (zl' & Hd & Hrep'); [rewrite length_fmap, weave_length; lia|lia|].
  change (Z.to_nat 2) with 2%nat in Hd, Hrep'. rewrite weave_remove in Hd, Hrep'. rewrite at_even in Hd.
  exists zl'. split; [done|]. split; [done|]. rewrite weave_Forall in Hst |- *. apply Forall_app.
  split; [by apply Forall_take|by apply Forall_drop].
Qed.

Lemma insert_fits `{Allocator} lp xs i w x newp :
  lp_strings lp xs → index_ok (lp_encode <$> xs) i w → arg_ok x → lp_size (ListpackEdit.insert_spec xs i w (arg_string x)) ≤ UINT32_MAX →
  let xs' := ListpackEdit.insert_spec xs i w (arg_string x) in
  ∃ lp', lpInsertArg lp x (pos (take i (lp_encode <$> xs))) w newp =
      Some (Some (lp', if newp then Some (pos (take (new_index i w) (lp_encode <$> xs'))) else None)) ∧
    lp_strings lp' xs'.
Proof.
  intros [Hrep Hxs] Hi Hx Hsz. pose proof (insert_arg_rep lp _ i w x newp Hrep Hi Hx) as Hins.
  cbv zeta in Hins. pose proof (arg_fits x (lp_encode <$> xs) i w Hx) as Hfit.
  rewrite arg_bytes_encode, insert_spec_fmap in Hins, Hfit by done. unfold lp_size in Hsz.
  rewrite Z.gtb_ltb in Hins. destruct (Z.ltb_spec UINT32_MAX (total (lp_encode <$> ListpackEdit.insert_spec xs i w (arg_string x)))); [lia|].
  destruct Hins as (lp' & -> & Hrep' & _). exists lp'. split; [done|]. split; [done|].
  apply insert_spec_Forall; [done|]. by apply Hfit.
Qed.

Lemma append_fits `{Allocator} lp xs x :
  lp_strings lp xs → arg_ok x → lp_size (xs ++ [arg_string x]) ≤ UINT32_MAX →
  ∃ lp', lpAppendArg lp x = Some (Some lp') ∧ lp_strings lp' (xs ++ [arg_string x]).
Proof.
  intros Hst Hx Hsz. rewrite (append_insert lp _ x (proj1 Hst)), length_fmap.
  assert (Hspec : ListpackEdit.insert_spec xs (length xs) LP_BEFORE (arg_string x) = xs ++ [arg_string x]).
  { cbn. by rewrite take_ge, drop_ge by lia. }
  destruct (insert_fits lp xs (length xs) LP_BEFORE x false Hst) as (lp' & -> & Hst'); [cbn; by rewrite length_fmap|done|by rewrite Hspec|].
  exists lp'. split; [done|]. by rewrite Hspec in Hst'.
Qed.

Lemma lp_size_insert l x r : lp_size (l ++ r) ≤ lp_size (l ++ x :: r).
Proof. unfold lp_size. rewrite !fmap_app. cbn [fmap list_fmap]. apply (total_delete _ [lp_encode x] _). Qed.

Lemma weave_insert ps i e t :
  weave (take i ps ++ (e, t) :: drop i ps) = take (2 * i) (weave ps) ++ e :: t :: drop (2 * i) (weave ps).
Proof. rewrite weave_app. cbn [weave]. by rewrite <- weave_take, <- weave_drop. Qed.

Lemma pairs_insert `{Allocator} fpconv_dtoa zl ps i ele score a :
  zl_rep zl ps → (i ≤ length ps)%nat → arg_ok (AStr ele) → score_arg fpconv_dtoa score = Some a → arg_ok a →
  lp_size (weave (take i ps ++ (ele, arg_string a) :: drop i ps)) ≤ UINT32_MAX →
  ∃ zl', zzlInsertAt fpconv_dtoa zl (ecur ps i) ele score = Some zl' ∧
    zl_rep zl' (take i ps ++ (ele, arg_string a) :: drop i ps).
Proof.
  intros Hzl Hi Hele Ha Haok Hsz. unfold zl_rep in *. rewrite weave_insert in *. unfold zzlInsertAt.
  assert (Hsz1 : lp_size (take (2 * i) (weave ps) ++ ele :: drop (2 * i) (weave ps)) ≤ UINT32_MAX).
  { etransitivity; [|exact Hsz]. rewrite (cons_middle ele), (cons_middle ele _ (_ :: _)), !app_assoc. apply lp_size_insert. }
  assert (∃ scorebuf, (match double2ll score with Some _ => Some [] | None => d2string fpconv_dtoa 128 score end) = Some scorebuf ∧
    match double2ll score with Some v => a = AInt v | None => a = AStr scorebuf end) as (scorebuf & -> & Hbuf).
  { unfold score_arg in Ha. destruct (double2ll score) as [v|]; [injection Ha as <-; by eexists|].
    destruct (d2string _ _ _) as [t|]; [|done]. injection Ha as <-. by exists t. }
  cbn [mbind option_bind]. unfold ecur. destruct (decide (i < length ps)%nat) as [Hlt|Hge].
  - destruct (insert_fits zl (weave ps) (2 * i) LP_BEFORE (AStr ele) true Hzl) as (zl1 & H1 & Hzl1); [|done|done|].
    { cbn [index_ok]. rewrite length_fmap, weave_length. lia. }
    cbn [lpInsertArg] in H1. unfold ept. rewrite H1. cbn [mbind option_bind new_index arg_string ListpackEdit.insert_spec] in *.
    set (xs1 := take (2 * i) (weave ps) ++ [ele] ++ drop (2 * i) (weave ps)) in *.
    assert (Hl1 : length xs1 = S (2 * length ps)).
    { unfold xs1. rewrite !length_app, length_take, length_drop, weave_length. cbn [length]. lia. }
    assert (Hins : ListpackEdit.insert_spec xs1 (2 * i) LP_AFTER (arg_string a) = take (2 * i) (weave ps) ++ ele :: arg_string a :: drop (2 * i) (weave ps)).
    { cbn [ListpackEdit.insert_spec]. unfold xs1. rewrite take_app, drop_app, length_take, weave_length.
      replace (S (2 * i) - Nat.min (2 * i) (2 * length ps))%nat with 1%nat by lia.
      rewrite (take_ge _ (S _)), (drop_ge _ (S _)) by (rewrite length_take; lia). cbn [take drop app]. by rewrite <- app_assoc. }
    destruct (insert_fits zl1 xs1 (2 * i) LP_AFTER a false Hzl1) as (zl2 & H2 & Hzl2); [|done|by rewrite Hins|].
    { cbn [index_ok]. rewrite length_fmap. lia. }
    rewrite Hins in Hzl2. exists zl2. split; [|done]. destruct (double2ll score); subst a; cbn [lpInsertArg] in H2; by rewrite H2.
  - assert (i = length ps) as -> by lia.
    rewrite take_ge, drop_ge in Hsz, Hsz1 |- * by (rewrite weave_length; lia).
    destruct (append_fits zl (weave ps) (AStr ele) Hzl Hele Hsz1) as (zl1 & H1 & Hzl1). cbn [lpAppendArg arg_string] in *.
    rewrite H1. cbn [mbind option_bind].
    destruct (append_fits zl1 (weave ps ++ [ele]) a Hzl1 Haok) as (zl2 & H2 & Hzl2); [by rewrite <- app_assoc|].
    rewrite <- app_assoc in Hzl2. exists zl2. split; [|done]. destruct (double2ll score); subst a; cbn [lpAppendArg] in H2; by rewrite H2.
Qed.

(** ** Looking up *)

(** The pair with an element, and where it is. *)
Definition pair_of (s : list Z) (ps : list (list Z * list Z)) : option (nat * (list Z * list Z)) :=
  list_find (λ p, p.1 = s) ps.

Lemma find_weave s ps : ∀ i, find_from s 1 (weave ps) 0 i = (λ r, (i + 2 * fst r)%nat) <$> pair_of s ps.
Proof.
  unfold pair_of. induction ps as [|[e t] ps IH]; intros i; [done|]. cbn [weave find_from list_find fst].
  repeat case_decide; try done; [cbn; by rewrite Nat.add_0_r|]. rewrite IH.
  destruct (list_find (λ p : list Z * list Z, p.1 = s) ps) as [[j p]|]; [|done]. cbn. f_equal. lia.
Qed.

Section lookup.
Context (strtod : sds → spec_float * nat) (zl : list Z) (ps : list (sds * list Z)) (Hzl : zl_rep zl ps).

Lemma find_pairs ele :
  zlen ele < 2 ^ 32 →
  zzlFind strtod zl ele =
    Some ((λ '(i, (_, t)), (ept ps i, read_score strtod t)) <$> pair_of ele ps).
Proof.
  intros Hele. unfold zzlFind. rewrite (first_e zl ps Hzl). cbn [mbind option_bind]. unfold ecur.
  destruct (decide (0 < length ps)%nat) as [Hl|Hl]; [|by destruct ps; [|cbn in Hl; lia]].
  destruct Hzl as [(Hes & Ht & n & slack & Hn & Elp) Hxs]. unfold lpFind, lpBytes. rewrite (first_slen_all ele Hele).
  assert (Hb : lpGetTotalBytes zl = Some (total (lp_encode <$> weave ps))) by (rewrite Elp; by apply image_total).
  rewrite Hb. cbn [mbind option_bind]. unfold ept at 1.
  pose proof (find_loop_at zl (weave ps) Hzl (length zl) _ ele 1 Hb ltac:(lia) 0 0 VUnknown 123456789) as Hf.
  cbv zeta in Hf. rewrite weave_length in Hf. change (Z.to_nat 1) with 1%nat in Hf. change (2 * 0)%nat with O. change 0 with (Z.of_nat 0) at 1.
  assert (Hlen : (2 * length ps ≤ length zl)%nat).
  { destruct (count_bounds n _ slack Hes Ht) as [_ Hc]. rewrite <- Elp, length_fmap, weave_length in Hc. done. }
  rewrite Hf by (done || lia). rewrite drop_0, find_weave. cbn [mbind option_bind].
  destruct (pair_of ele ps) as [[i [e t]]|] eqn:Hfind; [|done]. cbn [fmap option_fmap option_map fst].
  apply list_find_Some in Hfind as (Hi & _ & _). change (pos (take (0 + 2 * i) (lp_encode <$> weave ps))) with (ept ps i).
  rewrite (score_of_at strtod zl ps i e t Hzl Hi). done.
Qed.
End lookup.

(** ** Inserting a member *)

Definition ps_members (strtod : sds → spec_float * nat) (ps : list (sds * list Z)) : list (sds * spec_float) :=
  prod_map id (read_score strtod) <$> ps.

(** The test of [zzlInsert]: the new member goes before this one. *)
Definition goes_before (score : spec_float) (ele : sds) (p : sds * spec_float) : bool :=
  bool_decide (lexcmp (pair_key p) (key score ele) = Gt).

Lemma here_test score ele s e :
  isnan score = false → isnan s = false →
  (if SFltb score s then true else if SFeqb s score then bool_decide (lexcmp e ele = Gt) else false) =
    goes_before score ele (e, s).
Proof.
  intros Hs Hn. unfold goes_before, pair_key, key, SFltb, SFeqb. cbn [fst snd]. rewrite !SFcompare_enc by done.
  rewrite lexcmp_app by (by rewrite !length_enc). rewrite (lexcmp_antisym (enc_score s) (enc_score score)).
  by destruct (lexcmp (enc_score s) (enc_score score)).
Qed.

Section insert.
Context `{Allocator} (strtod : sds → spec_float * nat) (fpconv_dtoa : spec_float → list Z).
Context (zl : list Z) (ps : list (sds * list Z)) (Hzl : zl_rep zl ps).
Context (Hnan : Forall (λ p, isnan p.2 = false) (ps_members strtod ps)) (Hlen : Forall (λ p, zlen p.1 < 2 ^ 31) ps).

Lemma zl_fuel : (length ps ≤ length zl)%nat.
Proof.
  destruct Hzl as [(Hes & Ht & n & slack & Hn & Elp) Hxs].
  destruct (count_bounds n _ slack Hes Ht) as [_ Hc]. rewrite <- Elp, length_fmap, weave_length in Hc. lia.
Qed.

Lemma insert_loop_spec ele score fuel : ∀ i,
  isnan score = false → zlen ele < 2 ^ 31 → (length ps - i ≤ fuel)%nat → (i ≤ length ps)%nat →
  ∃ k, (i ≤ k ≤ length ps)%nat ∧
    insert_loop strtod fpconv_dtoa fuel zl ele score (ecur ps i) = zzlInsertAt fpconv_dtoa zl (ecur ps k) ele score ∧
    (∀ j p, (i ≤ j < k)%nat → ps_members strtod ps !! j = Some p → goes_before score ele p = false) ∧
    (∀ p, ps_members strtod ps !! k = Some p → goes_before score ele p = true).
Proof.
  induction fuel as [|fuel IH]; intros i Hs Hel Hf Hi.
  { exists i. assert (i = length ps) as -> by lia. split_and!; [lia|lia| |lia|].
    - unfold ecur. rewrite decide_False by lia. done.
    - intros p Hp. apply lookup_lt_Some in Hp. unfold ps_members in Hp. rewrite length_fmap in Hp. lia. }
  destruct (decide (i = length ps)) as [->|Hne].
  { exists (length ps). split_and!; [lia|lia| |lia|].
    - unfold ecur. rewrite decide_False by lia. done.
    - intros p Hp. apply lookup_lt_Some in Hp. unfold ps_members in Hp. rewrite length_fmap in Hp. lia. }
  assert (Hlt : (i < length ps)%nat) by lia. destruct (lookup_lt_is_Some_2 ps i Hlt) as [[e t] He].
  unfold ecur at 1. rewrite decide_True by done. cbn [insert_loop]. rewrite (next_e zl ps Hzl) by done. cbn [mbind option_bind not_null].
  rewrite (score_at strtod zl ps i e t Hzl He). cbn [mbind option_bind].
  pose proof (Forall_lookup_1 _ _ _ _ Hlen He) as Hle. cbn in Hle.
  destruct (compare_at zl ps i e t ele Hzl He Hle Hel) as (z & Hz & Hz0).
  assert (Hm : ps_members strtod ps !! i = Some (e, read_score strtod t)) by (unfold ps_members; by rewrite list_lookup_fmap, He).
  pose proof (Forall_lookup_1 _ _ _ _ Hnan Hm) as Hn. cbn in Hn.
  assert (Htest : (if SFltb score (read_score strtod t) then Some true
      else if SFeqb (read_score strtod t) score then cmp ← zzlCompareElements zl (ept ps i) ele; Some (cmp >? 0)
      else Some false) = Some (goes_before score ele (e, read_score strtod t))).
  { rewrite <- here_test by done. rewrite Hz. cbn [mbind option_bind]. rewrite Hz0. by repeat case_match. }
  rewrite Htest. cbn [mbind option_bind]. destruct (goes_before score ele (e, read_score strtod t)) eqn:Hg.
  - exists i. split_and!; [lia|lia| |lia|].
    + unfold ecur. by rewrite decide_True.
    + intros p Hp. rewrite Hm in Hp. by injection Hp as <-.
  - rewrite (next_s zl ps Hzl) by done. cbn [mbind option_bind].
    destruct (IH (S i) Hs Hel) as (k & Hk & -> & Hb & Ha); [lia|lia|]. exists k. split_and!; [lia|lia|done| |done].
    intros j p Hj Hp. destruct (decide (j = i)) as [->|]; [rewrite Hm in Hp; by injection Hp as <-|]. apply (Hb j); [lia|done].
Qed.
End insert.

(** ** Sorted sets of bounded size

    The limits of the configuration: a listpack of this many pairs and
    elements of this length fits in 32 bits. *)

Class Limits (max_entries max_value : Z) := {
  lim_entries : 0 ≤ max_entries;
  lim_value : 0 ≤ max_value < 2 ^ 31;
  lim_size : (max_entries + 1) * (max_value + 60) + 7 ≤ UINT32_MAX;
}.

Lemma str_entry_size (s : list Z) : zlen s < 2 ^ 31 → zlen (entry (lp_encode s)) ≤ zlen s + 14.
Proof.
  intros Hs. unfold entry. rewrite length_app. pose proof (backlen_size (zlen (lp_encode s))).
  pose proof (lp_encode_length s ltac:(ilia)). lia.
Qed.

Lemma pairs_size max_value (ps : list (sds * list Z)) :
  0 ≤ max_value < 2 ^ 31 → Forall (λ p : sds * list Z, zlen p.1 ≤ max_value ∧ zlen p.2 ≤ 32) ps →
  lp_size (weave ps) ≤ 7 + zlen ps * (max_value + 60).
Proof.
  intros Hv Hps. unfold lp_size, total, pos. change LP_HDR_SIZE with 6.
  induction Hps as [|[e t] ps [He Ht] _ IH]; [cbn; lia|]. cbn [weave fmap list_fmap fst snd] in *.
  rewrite !cat_cons, !length_app. cbn [length]. pose proof (str_entry_size e ltac:(lia)). pose proof (str_entry_size t ltac:(lia)). lia.
Qed.

Section sorted.
Context `{Allocator} (strtod : sds → spec_float * nat) (fpconv_dtoa : spec_float → list Z) `{!ScoreText strtod fpconv_dtoa}.
Context (max_entries max_value : Z) `{!Limits max_entries max_value}.

(** A listpack that holds a sorted list of members, within the limits. *)
Record pairs_ok (zl : list Z) (ps : list (sds * list Z)) : Prop := {
  po_rep : zl_rep zl ps;
  po_members : members_ok (ps_members strtod ps);
  po_valid : Forall (λ p, valid p.2) (ps_members strtod ps);
  po_small : Forall (λ p : sds * list Z, zlen p.1 ≤ max_value ∧ zlen p.2 ≤ 32) ps;
}.

Lemma members_app ps qs : ps_members strtod (ps ++ qs) = ps_members strtod ps ++ ps_members strtod qs.
Proof. apply fmap_app. Qed.
Lemma members_length ps : length (ps_members strtod ps) = length ps.
Proof. apply length_fmap. Qed.
Lemma members_fst ps : (ps_members strtod ps).*1 = ps.*1.
Proof. unfold ps_members. by rewrite <- list_fmap_compose. Qed.

(** A sorted list with one member less or one member more. *)
Lemma members_delete a p b : members_ok (a ++ p :: b) → members_ok (a ++ b).
Proof.
  intros [Hs Hnd Hn]. split.
  - by eapply sorted_delete.
  - rewrite fmap_app in Hnd |- *. cbn [fmap list_fmap] in Hnd. rewrite <- Permutation_middle in Hnd. by apply NoDup_cons in Hnd as [_ ?].
  - rewrite Forall_app, Forall_cons in Hn. rewrite Forall_app. tauto.
Qed.

Lemma members_insert a e s b :
  members_ok (a ++ b) → isnan s = false → e ∉ (a ++ b).*1 →
  Forall (λ p, lexcmp (pair_key p) (key s e) = Lt) a → Forall (λ p, lexcmp (pair_key p) (key s e) = Gt) b →
  members_ok (a ++ (e, s) :: b).
Proof.
  intros [Hs Hnd Hn] Hsn He Ha Hb. split.
  - apply sorted_insert; [done|done|]. eapply Forall_impl; [exact Hb|]. intros p Hp. unfold pair_lt. rewrite lexcmp_antisym.
    unfold pair_key at 2. cbn. by rewrite Hp.
  - rewrite fmap_app in Hnd, He |- *. cbn [fmap list_fmap fst]. rewrite <- Permutation_middle. by apply NoDup_cons.
  - rewrite Forall_app, Forall_cons in *. tauto.
Qed.

(** The place that the loop of [zzlInsert] finds. *)
Lemma place_split ms score ele k :
  members_ok ms → ele ∉ ms.*1 → (k ≤ length ms)%nat →
  (∀ j p, (j < k)%nat → ms !! j = Some p → goes_before score ele p = false) →
  (∀ p, ms !! k = Some p → goes_before score ele p = true) →
  Forall (λ p, lexcmp (pair_key p) (key score ele) = Lt) (take k ms) ∧
  Forall (λ p, lexcmp (pair_key p) (key score ele) = Gt) (drop k ms).
Proof.
  intros [Hs _ _] He Hk Hb Ha. split.
  - apply Forall_lookup_2. intros j p Hj. apply lookup_take_Some in Hj as [Hj Hjk]. specialize (Hb j p Hjk Hj).
    unfold goes_before in Hb. apply bool_decide_eq_false in Hb. destruct (lexcmp _ _) eqn:E; [|done..]. exfalso.
    apply lexcmp_eq in E. unfold pair_key, key in E. apply app_inj_1 in E as [_ E]; [|by rewrite !length_enc]. apply He.
    rewrite <- E. apply list_elem_of_fmap. exists p. split; [done|]. by eapply list_elem_of_lookup_2.
  - destruct (drop k ms) as [|p b] eqn:Hd; [constructor|].
    assert (Hp : ms !! k = Some p) by (rewrite <- (Nat.add_0_r k), <- lookup_drop, Hd; done).
    specialize (Ha p Hp). unfold goes_before in Ha. apply bool_decide_eq_true in Ha. constructor; [done|].
    rewrite <- (take_drop k ms), Hd in Hs. apply StronglySorted_app_1_r in Hs. inversion_clear Hs as [|? ? _ Hall].
    eapply Forall_impl; [exact Hall|]. intros q Hq. unfold pair_lt in Hq. rewrite lexcmp_antisym in Ha |- *.
    destruct (lexcmp (key score ele) (pair_key p)) eqn:E; try done. by rewrite (lexcmp_trans _ _ _ E Hq).
Qed.

Lemma insert_pairs zl ps ele score :
  pairs_ok zl ps → zlen ps ≤ max_entries → valid score → isnan score = false →
  ele ∉ (ps_members strtod ps).*1 → Forall is_byte ele → zlen ele ≤ max_value →
  ∃ zl' a b s t, zzlInsert strtod fpconv_dtoa zl ele score = Some zl' ∧ ps = a ++ b ∧ pairs_ok zl' (a ++ (ele, t) :: b) ∧
    s = read_score strtod t ∧ norm s = norm score.
Proof.
  intros [Hrep Hms Hval Hsm] Hlen Hv Hn He Hb Hel.
  pose proof lim_value as Hlv. pose proof lim_size as Hls.
  assert (Hshort : Forall (λ p : sds * list Z, zlen p.1 < 2 ^ 31) ps) by (eapply Forall_impl; [exact Hsm|]; intros [e t]; cbn [fst snd]; lia).
  destruct (insert_loop_spec strtod fpconv_dtoa zl ps Hrep (mo_nan _ Hms) Hshort ele score (length zl) 0 Hn)
    as (k & Hk & Hloop & Hbef & Haft); [lia|pose proof (zl_fuel zl ps Hrep); lia|lia|].
  destruct (score_roundtrip strtod fpconv_dtoa score Hv Hn) as (a & Ha & Haok & Hal & Hnorm & Hav & Han).
  set (ps' := take k ps ++ (ele, arg_string a) :: drop k ps).
  assert (Hsm' : Forall (λ p : sds * list Z, zlen p.1 ≤ max_value ∧ zlen p.2 ≤ 32) ps').
  { unfold ps'. apply Forall_app. split; [by apply Forall_take|]. constructor; [done|by apply Forall_drop]. }
  destruct (pairs_insert fpconv_dtoa zl ps k ele score a Hrep) as (zl' & Hins & Hrep'); [lia|split; [done|ilia]|done|done| |].
  { fold ps'. etransitivity; [apply (pairs_size max_value); [done|done]|].
    assert (zlen ps' = zlen ps + 1) as -> by (unfold ps'; rewrite length_app, length_take; cbn [length]; rewrite length_drop; lia). nia. }
  exists zl', (take k ps), (drop k ps), (read_score strtod (arg_string a)), (arg_string a). split_and!; [|by rewrite take_drop| |done|done].
  { unfold zzlInsert. rewrite (seek_first zl ps Hrep). cbn [mbind option_bind]. by rewrite Hloop. }
  assert (Hm : ps_members strtod ps' = take k (ps_members strtod ps) ++ (ele, read_score strtod (arg_string a)) :: drop k (ps_members strtod ps)).
  { unfold ps', ps_members. rewrite fmap_app. cbn [fmap list_fmap prod_map id]. by rewrite <- fmap_take, <- fmap_drop. }
  assert (Hkey : key (read_score strtod (arg_string a)) ele = key score ele).
  { rewrite <- (pair_key_norm ele score), <- Hnorm. by rewrite pair_key_norm. }
  destruct (place_split (ps_members strtod ps) score ele k) as [H1 H2]; [done|done|rewrite members_length; lia| |done|].
  { intros j p Hj. apply Hbef. lia. }
  split; [done| | |done]; fold ps'; rewrite Hm.
  - apply members_insert; rewrite ?take_drop, ?Hkey; done.
  - apply Forall_app. split; [by apply Forall_take|]. constructor; [done|by apply Forall_drop].
Qed.
End sorted.

(** ** An example *)

(** A text for doubles with the round trip that the code relies on: a mark,
    the exponent in two bytes, the signed mantissa in decimal. *)
Definition ex_dtoa (x : spec_float) : list Z :=
  match x with
  | S754_finite s m e =>
      112 :: (e + 2000) / 256 mod 256 :: (e + 2000) mod 256 :: sdec (if s then Zneg m else Zpos m)
  | _ => []
  end.
Definition ex_int (t : sds) : spec_float := match string2ll t with Some v => ll2double v | None => S754_nan end.
Definition ex_strtod (t : sds) : spec_float * nat :=
  (if bool_decide (t = [105; 110; 102]) then S754_infinity false
   else if bool_decide (t = [45; 105; 110; 102]) then S754_infinity true
   else match t with
        | c :: b1 :: b0 :: r =>
            if c =? 112 then
              match string2ll r with
              | Some (Zpos m) => S754_finite false m (256 * b1 + b0 - 2000)
              | Some (Zneg m) => S754_finite true m (256 * b1 + b0 - 2000)
              | _ => S754_nan
              end
            else ex_int t
        | _ => ex_int t
        end, length t).

Lemma valid_finite s m e : valid (S754_finite s m e) → Zpos m < 2 ^ 53 ∧ -1074 ≤ e ≤ 971.
Proof.
  unfold valid. cbn [valid_binary]. unfold bounded, canonical_mantissa. rewrite andb_true_iff. intros [Hc He].
  apply Z.eqb_eq in Hc. apply Z.leb_le in He. rewrite fexp_spec, digits_log2 in Hc.
  split; [|lia]. apply Z.log2_lt_pow2; lia.
Qed.

Lemma sdec_head v : sfits 64 v → default 0 (head (sdec v)) < 60.
Proof.
  unfold sfits, sdec. intros Hv. destruct (Z.ltb_spec v 0); [cbn; lia|]. destruct (decide (v = 0)) as [->|]; [cbn; lia|].
  destruct (dec_shape v ltac:(lia)) as (c & p & -> & Hc & _). cbn. lia.
Qed.

#[export] Instance ex_score_text : ScoreText ex_strtod ex_dtoa.
Proof.
  split.
  - intros [| | |s m e]; try constructor; [unfold is_byte; lia|].
    constructor; [apply Z.mod_pos_bound; lia|]. constructor; [apply Z.mod_pos_bound; lia|]. apply sdec_bytes.
  - intros [| | |s m e] Hv; cbn [ex_dtoa length]; try lia. destruct (valid_finite s m e Hv) as [Hm _].
    pose proof (sdec_pos_length (if s then Zneg m else Zpos m)). destruct s; unfold sfits in *; lia.
  - intros s m e Hv. destruct (valid_finite s m e Hv) as [Hm He]. unfold ex_strtod. rewrite !bool_decide_eq_false_2 by done.
    cbn [ex_dtoa fst Z.eqb Pos.eqb]. rewrite string2ll_complete by (destruct s; unfold sfits; lia).
    assert (Hx : 256 * ((e + 2000) / 256 mod 256) + (e + 2000) mod 256 - 2000 = e).
    { rewrite (Z.mod_small ((e + 2000) / 256)) by (split; [apply Z.div_pos; lia|apply Z.div_lt_upper_bound; lia]).
      pose proof (Z.div_mod (e + 2000) 256 ltac:(lia)). lia. }
    destruct s; by rewrite Hx.
  - intros v Hv. pose proof (string2ll_complete v Hv) as Hs. assert (Hi : ex_int (sdec v) = ll2double v) by (unfold ex_int; by rewrite Hs).
    unfold ex_strtod. rewrite !bool_decide_eq_false_2 by (intros Heq; rewrite Heq in Hs; done). cbn [fst].
    pose proof (sdec_head v Hv) as Hh. destruct (sdec v) as [|c [|b1 [|b0 r]]]; try done. cbn in Hh.
    destruct (Z.eqb_spec c 112); [lia|done].
  - done.
  - done.
Qed.

End ZzlOps.
