(* ===== verification/ZzlRange.v ===== *)
(** * t_zset.c: ranges of sorted sets in a listpack

    The functions on score, lexicographic and rank ranges find and delete the
    members of the range, as those of the skiplist do. *)

From S2P Require Import Prelude Util Listpack ListpackNav ListpackEdit ListpackBulk.
From S2P Require Import Dict Zskiplist Double ZslInv ZslOps ZslRange Zset Zzl ZzlOps.
Import Util Listpack ListpackNav ListpackEdit ListpackBulk.
Import Dict Zskiplist Double ZslInv ZslOps ZslRange Zset Zzl ZzlOps.

Module ZzlRange.

(** ** Ranges of a sorted list *)

(** The positions where a test holds. *)
Definition hits {A} (f : A → bool) (l : list A) : list nat :=
  filter (λ i, (f <$> l !! i) = Some true) (seq 0 (length l)).

Lemma hits_mid {A} (f : A → bool) a c d :
  Forall (λ x, f x = false) a → Forall (λ x, f x = true) c → Forall (λ x, f x = false) d →
  hits f (a ++ c ++ d) = seq (length a) (length c).
Proof.
  intros Ha Hc Hd. unfold hits. rewrite !length_app, !seq_app, !filter_app. rewrite filter_none, filter_all, filter_none, app_nil_r; [done|..].
  - apply Forall_forall. intros i [Hi Hlt]%elem_of_seq. rewrite !lookup_app_r by lia.
    destruct (d !! (i - length a - length c)%nat) as [x|] eqn:Hx; [|done]. cbn. rewrite (Forall_lookup_1 _ _ _ _ Hd Hx). done.
  - apply Forall_forall. intros i [Hi Hlt]%elem_of_seq. rewrite lookup_app_r, lookup_app_l by lia.
    destruct (lookup_lt_is_Some_2 c (i - length a)) as [x Hx]; [lia|]. rewrite Hx. cbn. by rewrite (Forall_lookup_1 _ _ _ _ Hc Hx).
  - apply Forall_forall. intros i [Hi Hlt]%elem_of_seq. rewrite lookup_app_l by lia.
    destruct (a !! i) as [x|] eqn:Hx; [|done]. cbn. rewrite (Forall_lookup_1 _ _ _ _ Ha Hx). done.
Qed.

(** A member as an item of a skiplist. *)
Definition as_item (p : sds * spec_float) : item := Item 1%positive p.2 p.1 1.

Section parts.
Context (r : range) (fmin fmax : item → bool) (ms : list (sds * spec_float)).
Context {Hr : RangeOk r (as_item <$> ms) fmin fmax} (Hms : members_ok ms).
Let gmin p := fmin (as_item p).
Let gmax p := fmax (as_item p).

Lemma members_parts :
  ∃ a c d, ms = a ++ c ++ d ∧ Forall (λ p, gmin p = false) a ∧ Forall (λ p, gmin p = true ∧ gmax p = true) c ∧
    Forall (λ p, gmin p = true ∧ gmax p = false) d.
Proof.
  destruct (range_parts r fmin fmax (as_item <$> ms)) as (a & c & d & Hl & Ha & Hc & Hd & _).
  { eapply (StronglySorted_fmap as_item pair_lt); [|apply Hms]. done. }
  apply fmap_app_inv in Hl as (a' & b' & -> & Hb & Hl). symmetry in Hb. apply fmap_app_inv in Hb as (c' & d' & -> & -> & ->).
  rewrite !Forall_fmap in *. by exists a', c', d'.
Qed.

(** The tests at both ends. *)
Definition inside_of : bool :=
  negb (r_empty r) && match last ms, head ms with Some t, Some f => gmin t && gmax f | _, _ => false end.

Lemma inside_parts a c d :
  ms = a ++ c ++ d → Forall (λ p, gmin p = false) a → Forall (λ p, gmin p = true ∧ gmax p = true) c →
  Forall (λ p, gmin p = true ∧ gmax p = false) d → inside_of = false → c = [].
Proof.
  intros Hl Ha Hc Hd Hins. destruct c as [|z c]; [done|]. exfalso. apply Forall_cons in Hc as [[Hz1 Hz2] Hc].
  assert (Hz : z ∈ ms) by (rewrite Hl; set_solver). unfold inside_of in Hins. destruct (r_empty r) eqn:He; cbn [negb andb] in Hins.
  { pose proof (ro_empty He (as_item z)) as Hno. unfold gmin, gmax in *. rewrite Hz1, Hz2 in Hno. assert (true && true = false) by (apply Hno; by apply list_elem_of_fmap_2). done. }
  assert (Hlast : ∃ t, last ms = Some t ∧ gmin t = true).
  { rewrite Hl, last_app. destruct (last ((z :: c) ++ d)) as [t|] eqn:Ht; [|by apply last_None in Ht]. exists t. split; [done|].
    apply last_Some in Ht as [q Ht]. assert (Hall : Forall (λ p, gmin p = true) ((z :: c) ++ d)).
    { apply Forall_app. split; [constructor; [done|]|]; (eapply Forall_impl; [eassumption|]); cbn; tauto. }
    rewrite Ht, Forall_app, Forall_singleton in Hall. apply Hall. }
  destruct Hlast as (t & Ht & Htm). rewrite Ht in Hins. destruct (head ms) as [f|] eqn:Hf; [|by rewrite Hl in Hf; destruct a].
  rewrite Htm in Hins. cbn [andb] in Hins. rewrite Hl in Hf. destruct a as [|f' a].
  - injection Hf as ->. congruence.
  - injection Hf as ->. rewrite <- not_true_iff_false in Hins. apply Hins. apply (ro_down (as_item f) (as_item z)); [|set_solver| |done].
    + apply list_elem_of_fmap_2. rewrite Hl. set_solver.
    + pose proof (mo_sorted _ Hms) as Hs. rewrite Hl in Hs. inversion_clear Hs as [|? ? _ Hall]. rewrite Forall_app, Forall_cons in Hall. apply Hall.
Qed.
End parts.

Lemma drop_S_mid {A} (a : list A) p b : drop (S (length a)) (a ++ p :: b) = b.
Proof. by rewrite <- Nat.add_1_r, <- drop_drop, drop_app_length. Qed.

Section loops.
Context `{Allocator} (strtod : sds → spec_float * nat) (zr : zl_range) (gmin gmax : sds * spec_float → bool).
Implicit Type ps a c d : list (sds * list Z).
#[local] Abbreviation rd := (prod_map id (read_score strtod)).

(** The tests on a pointer are tests on the member it points to. *)
Definition tests_ok : Prop := ∀ zl ps i p,
  zl_rep zl ps → ps !! i = Some p →
  zr_gte_min zr zl (ept ps i) = Some (gmin (rd p)) ∧ zr_lte_max zr zl (ept ps i) = Some (gmax (rd p)).
Context (Htests : tests_ok).

(** A listpack cut in three: below, in and above the range. *)
Record cut ps a c d : Prop := {
  cut_eq : ps = a ++ c ++ d;
  cut_below : Forall (λ p, gmin (rd p) = false) a;
  cut_in : Forall (λ p, gmin (rd p) = true ∧ gmax (rd p) = true) c;
  cut_above : Forall (λ p, gmin (rd p) = true ∧ gmax (rd p) = false) d;
}.
Definition inside (p : sds * spec_float) : bool := gmin p && gmax p.

Lemma cut_hits ps a c d : cut ps a c d → hits inside (ps_members strtod ps) = seq (length a) (length c).
Proof.
  intros [-> Ha Hc Hd]. unfold ps_members. rewrite !fmap_app, hits_mid; rewrite ?length_fmap, ?Forall_fmap; [done|..]; unfold inside;
    (eapply Forall_impl; [eassumption|]); cbn; intros p Hp; [by rewrite Hp|by destruct Hp as [-> ->]..].
Qed.

Lemma cut_filter ps a c d :
  cut ps a c d → filter (λ p, inside p = true) (ps_members strtod ps) = ps_members strtod c ∧
    filter (λ p, inside p = false) (ps_members strtod ps) = ps_members strtod (a ++ d).
Proof.
  intros [-> Ha Hc Hd]. unfold ps_members. rewrite !fmap_app, !filter_app.
  assert (Ha' : Forall (λ p, inside p = false) (rd <$> a)) by (rewrite Forall_fmap; eapply Forall_impl; [exact Ha|]; unfold inside, compose; by intros p ->).
  assert (Hc' : Forall (λ p, inside p = true) (rd <$> c)) by (rewrite Forall_fmap; eapply Forall_impl; [exact Hc|]; unfold inside, compose; by intros p [-> ->]).
  assert (Hd' : Forall (λ p, inside p = false) (rd <$> d)) by (rewrite Forall_fmap; eapply Forall_impl; [exact Hd|]; unfold inside, compose; by intros p [-> ->]).
  split.
  - rewrite filter_none, filter_all, filter_none, app_nil_r; [done|..|done|]; (eapply Forall_impl; [eassumption|]); by intros p ->.
  - rewrite filter_all, filter_none, filter_all; [done|done| |done]. eapply Forall_impl; [exact Hc'|]. by intros p ->.
Qed.

Lemma first_loop_spec zl ps a c d : zl_rep zl ps → cut ps a c d → ∀ fuel i,
  (i ≤ length a)%nat → (length ps - i ≤ fuel)%nat →
  first_loop fuel zl zr (ecur ps i) = Some (ept ps <$> head (seq (length a) (length c))).
Proof.
  intros Hrep Hcut. assert (Hlen : length ps = (length a + (length c + length d))%nat) by (by rewrite (cut_eq _ _ _ _ Hcut), !length_app).
  induction fuel as [|fuel IH]; intros i Hi Hf; unfold ecur.
  { rewrite decide_False by lia. by assert (length c = 0)%nat as -> by lia. }
  case_decide as Hlt; [|by assert (length c = 0)%nat as -> by lia].
  destruct (lookup_lt_is_Some_2 ps i Hlt) as [p Hp]. destruct (Htests zl ps i p Hrep Hp) as [Hmin Hmax]. cbn [first_loop]. rewrite Hmin.
  cbn [mbind option_bind]. pose proof Hp as Hp'. rewrite (cut_eq _ _ _ _ Hcut) in Hp'. destruct (decide (i < length a)%nat).
  - rewrite lookup_app_l in Hp' by done. rewrite (Forall_lookup_1 _ _ _ _ (cut_below _ _ _ _ Hcut) Hp').
    rewrite (next_e zl ps Hrep) by done. cbn [mbind option_bind not_null]. rewrite (next_s zl ps Hrep) by done. cbn [mbind option_bind].
    apply IH; lia.
  - assert (i = length a) as -> by lia. rewrite lookup_app_r, Nat.sub_diag in Hp' by lia. destruct c as [|p' c].
    + destruct d as [|p' d]; [done|]. injection Hp' as ->. pose proof (cut_above _ _ _ _ Hcut) as Hd. apply Forall_cons in Hd as [[H1 H2] _].
      rewrite H1, Hmax, H2. done.
    + injection Hp' as ->. pose proof (cut_in _ _ _ _ Hcut) as Hc. apply Forall_cons in Hc as [[H1 H2] _]. rewrite H1, Hmax, H2. done.
Qed.

(** The element before position [n]. *)
Definition lcur ps (n : nat) : option Z := match n with O => None | S j => Some (ept ps j) end.

Lemma last_step zl ps fuel j p :
  zl_rep zl ps → ps !! j = Some p →
  last_loop (S fuel) zl zr (lcur ps (S j)) =
    if gmax (rd p) then Some (if gmin (rd p) then Some (ept ps j) else None) else last_loop fuel zl zr (lcur ps j).
Proof.
  intros Hrep Hp. destruct (Htests zl ps j p Hrep Hp) as [Hmin Hmax]. cbn [last_loop lcur]. rewrite Hmax. cbn [mbind option_bind].
  destruct (gmax (rd p)); [by rewrite Hmin|]. pose proof (lookup_lt_Some _ _ _ Hp).
  rewrite (prev_e zl ps Hrep) by lia. cbn [mbind option_bind]. destruct j as [|j]; [by destruct fuel|].
  rewrite (prev_s zl ps Hrep) by lia. done.
Qed.

Lemma last_loop_below zl ps fuel : zl_rep zl ps → ∀ n,
  (n ≤ length ps)%nat → (n ≤ fuel)%nat → Forall (λ p, gmin (rd p) = false) (take n ps) →
  last_loop fuel zl zr (lcur ps n) = Some None.
Proof.
  intros Hrep. induction fuel as [|fuel IH]; intros [|j] Hn Hf Hall; try done; [lia|].
  destruct (lookup_lt_is_Some_2 ps j) as [p Hp]; [lia|]. rewrite (last_step zl ps fuel j p Hrep Hp).
  rewrite (take_S_r _ _ _ Hp), Forall_app, Forall_singleton in Hall. destruct Hall as [Hall ->]. destruct (gmax (rd p)); [done|].
  apply IH; [lia|lia|done].
Qed.

Lemma last_loop_spec zl ps a c d : zl_rep zl ps → cut ps a c d → ∀ fuel n,
  (length a + length c ≤ n ≤ length ps)%nat → (n ≤ fuel)%nat →
  last_loop fuel zl zr (lcur ps n) = Some (ept ps <$> last (seq (length a) (length c))).
Proof.
  intros Hrep Hcut. assert (Hlen : length ps = (length a + (length c + length d))%nat) by (by rewrite (cut_eq _ _ _ _ Hcut), !length_app).
  induction fuel as [|fuel IH]; intros n Hn Hf.
  { assert (n = 0%nat) as -> by lia. by assert (length c = 0)%nat as -> by lia. }
  destruct (decide (n = length a + length c)%nat) as [->|Hne].
  - destruct c as [|x c _] using rev_ind.
    { apply last_loop_below; [done|cbn in *; lia|cbn in *; lia|]. rewrite (cut_eq _ _ _ _ Hcut). cbn [length]. rewrite Nat.add_0_r, take_app_length.
      apply Hcut. }
    assert (Hx : ps !! (length a + length c)%nat = Some x).
    { rewrite (cut_eq _ _ _ _ Hcut), <- (app_assoc c), lookup_app_r by lia. apply list_lookup_middle. lia. }
    rewrite !length_app in *. cbn [length] in *. rewrite Nat.add_1_r, Nat.add_succ_r, (last_step zl ps fuel _ x Hrep Hx).
    pose proof (cut_in _ _ _ _ Hcut) as Hc. rewrite Forall_app, Forall_singleton in Hc. destruct Hc as [_ [-> ->]].
    rewrite seq_S, last_snoc. done.
  - destruct n as [|j]; [lia|]. destruct (lookup_lt_is_Some_2 ps j) as [p Hp]; [lia|]. rewrite (last_step zl ps fuel j p Hrep Hp).
    assert (Hd : gmax (rd p) = false).
    { rewrite (cut_eq _ _ _ _ Hcut), !lookup_app_r in Hp by lia. apply (Forall_lookup_1 _ _ _ _ (cut_above _ _ _ _ Hcut) Hp). }
    rewrite Hd. apply IH; lia.
Qed.

(** The deletion loop: [a] is below the range, [c] is deleted. *)
Lemma delete_loop_spec a d c : ∀ zl fuel num,
  zl_rep zl (a ++ c ++ d) → (length c < fuel)%nat → Forall (λ p, gmax (rd p) = true) c → Forall (λ p, gmax (rd p) = false) d →
  0 ≤ num → num + zlen c < 2 ^ 64 →
  ∃ zl', zl_delete_loop fuel zl zr (ecur (a ++ c ++ d) (length a)) num = Some (zl', num + zlen c) ∧ zl_rep zl' (a ++ d).
Proof.
  induction c as [|p c IH]; intros zl fuel num Hrep Hf Hc Hd Hn Hsm.
  - cbn [app] in *. exists zl. split; [|done]. rewrite Z.add_0_r. unfold ecur. destruct fuel as [|fuel]; [cbn in Hf; lia|].
    case_decide as Hlt; [|done]. destruct d as [|p d]; [rewrite app_nil_r in Hlt; lia|]. cbn [zl_delete_loop].
    rewrite (next_e zl _ Hrep) by done. cbn [mbind option_bind]. apply Forall_cons in Hd as [Hp _].
    destruct (Htests zl _ (length a) p Hrep) as [_ ->]; [by apply list_lookup_middle|]. cbn [mbind option_bind]. by rewrite Hp.
  - destruct fuel as [|fuel]; [cbn in Hf; lia|]. apply Forall_cons in Hc as [Hp Hc]. cbn [app] in *.
    assert (Hlt : (length a < length (a ++ p :: c ++ d))%nat) by (rewrite length_app; cbn [length]; lia).
    unfold ecur at 1. rewrite decide_True by done. cbn [zl_delete_loop]. rewrite (next_e zl _ Hrep) by done. cbn [mbind option_bind].
    destruct (Htests zl _ (length a) p Hrep) as [_ ->]; [by apply list_lookup_middle|]. cbn [mbind option_bind]. rewrite Hp.
    destruct (pairs_delete zl _ (length a) Hrep Hlt) as (zl1 & -> & Hrep1). cbn [mbind option_bind].
    rewrite take_app_length, drop_S_mid in *. cbn [length] in *. rewrite wrapu_small by lia.
    destruct (IH zl1 fuel (num + 1) Hrep1) as (zl2 & -> & Hrep2); [lia|done|done|lia|lia|].
    exists zl2. split; [|done]. do 2 f_equal. lia.
Qed.
End loops.

(** ** The functions on ranges *)

Section ranges.
Context `{Allocator} (strtod : sds → spec_float * nat) (max_value : Z).
Implicit Type ps a c d : list (sds * list Z).

Lemma score_tests spec :
  tests_ok strtod (zl_score_range strtod spec) (λ p, zslValueGteMin p.2 spec) (λ p, zslValueLteMax p.2 spec).
Proof. intros zl ps i [e t] Hrep Hi. cbn. rewrite (score_of_at strtod zl ps i e t Hrep Hi). done. Qed.
Lemma lex_tests spec :
  tests_ok strtod (zl_lex_range spec) (λ p, zslLexValueGteMin p.1 spec) (λ p, zslLexValueLteMax p.1 spec).
Proof.
  intros zl ps i [e t] Hrep Hi. cbn. unfold zzlLexValueGteMin, zzlLexValueLteMax. by rewrite (object_at zl ps i e t Hrep Hi).
Qed.

Lemma get_cut zl ps r fmin fmax :
  pairs_ok strtod max_value zl ps → RangeOk r (as_item <$> ps_members strtod ps) fmin fmax →
  ∃ a c d, cut strtod (λ p, fmin (as_item p)) (λ p, fmax (as_item p)) ps a c d ∧
    (inside_of r fmin fmax (ps_members strtod ps) = false → c = []).
Proof.
  intros [_ Hms _ _] Hr. destruct (members_parts r fmin fmax _ Hms) as (a & c & d & Hl & Ha & Hc & Hd).
  pose proof (inside_parts r fmin fmax _ Hms a c d Hl Ha Hc Hd) as Hins. apply fmap_app_inv in Hl as (a' & b' & -> & Hb & Hl).
  symmetry in Hb. apply fmap_app_inv in Hb as (c' & d' & -> & -> & ->). rewrite !Forall_fmap in *. exists a', c', d'. split; [done|].
  intros E. specialize (Hins E). by destruct c'.
Qed.

Lemma first_last ps :
  match length ps with
  | O => ps_members strtod ps = []
  | S j => ∃ p q, ps !! O = Some p ∧ ps !! j = Some q ∧ head (ps_members strtod ps) = Some (prod_map id (read_score strtod) p) ∧
      last (ps_members strtod ps) = Some (prod_map id (read_score strtod) q)
  end.
Proof.
  destruct ps as [|p ps]; [done|]. cbn [length]. destruct (lookup_lt_is_Some_2 (p :: ps) (length ps)) as [q Hq]; [cbn; lia|].
  exists p, q. split_and!; [done|done|done|]. unfold ps_members. rewrite last_lookup, length_fmap, list_lookup_fmap. cbn [length Nat.pred]. by rewrite Hq.
Qed.

Lemma score_inside zl ps spec :
  zl_rep zl ps →
  zzlIsInRange strtod zl spec = Some (inside_of (score_range spec) (λ it, zslValueGteMin (it_score it) spec)
    (λ it, zslValueLteMax (it_score it) spec) (ps_members strtod ps)).
Proof.
  intros Hrep. unfold zzlIsInRange, inside_of. destruct (r_empty (score_range spec)); [done|]. cbn [negb andb].
  destruct (seek_ends zl ps Hrep) as (_ & -> & ->). cbn [mbind option_bind]. pose proof (first_last ps) as Hfl.
  destruct (length ps) as [|j]; [by rewrite Hfl|]. destruct Hfl as ([e t] & [e' t'] & Hp & Hq & -> & ->).
  rewrite (score_at strtod zl ps j e' t' Hrep Hq). cbn [mbind option_bind not_null prod_map as_item it_score fst snd].
  destruct (zslValueGteMin _ spec); cbn [negb andb]; [|done]. by rewrite (score_at strtod zl ps 0 e t Hrep Hp).
Qed.
Lemma lex_inside zl ps spec :
  zl_rep zl ps →
  zzlIsInLexRange zl spec = Some (inside_of (lex_range spec) (λ it, zslLexValueGteMin (it_ele it) spec)
    (λ it, zslLexValueLteMax (it_ele it) spec) (ps_members strtod ps)).
Proof.
  intros Hrep. unfold zzlIsInLexRange, inside_of. destruct (r_empty (lex_range spec)); [done|]. cbn [negb andb].
  destruct (seek_ends zl ps Hrep) as (-> & _ & _). rewrite (seek_first zl ps Hrep). cbn [mbind option_bind]. pose proof (first_last ps) as Hfl.
  unfold ecur. destruct (length ps) as [|j]; [by rewrite Hfl|]. destruct Hfl as ([e t] & [e' t'] & Hp & Hq & -> & ->).
  unfold zzlLexValueGteMin, zzlLexValueLteMax.
  rewrite (object_at zl ps j e' t' Hrep Hq). cbn [mbind option_bind not_null prod_map as_item it_ele fst snd id].
  destruct (zslLexValueGteMin _ spec); cbn [negb andb]; [|done]. rewrite decide_True by lia. cbn [mbind option_bind not_null].
  by rewrite (object_at zl ps 0 e t Hrep Hp).
Qed.

Lemma pair_count zl ps : zl_rep zl ps → (2 * length ps ≤ length zl)%nat ∧ zlen ps < 2 ^ 31.
Proof.
  intros [(Hes & Ht & n & slack & Hn & Elp) Hxs]. destruct (count_bounds n _ slack Hes Ht) as [Hs Hc].
  rewrite <- Elp, length_fmap, weave_length in Hc. rewrite length_fmap, weave_length in Hs. lia.
Qed.

Lemma pairs_sub zl zl' a c d :
  pairs_ok strtod max_value zl (a ++ c ++ d) → zl_rep zl' (a ++ d) → pairs_ok strtod max_value zl' (a ++ d).
Proof.
  intros [_ Hms Hv Hsm] Hrep. split; [done|..].
  - clear Hv Hsm Hrep. rewrite !members_app in *. induction c as [|p c IH]; [done|]. apply IH.
    apply (members_delete _ (prod_map id (read_score strtod) p)). exact Hms.
  - rewrite !members_app, !Forall_app in *. tauto.
  - rewrite !Forall_app in *. tauto.
Qed.

(** The common part of the four searches and the two deletions. *)
Lemma search_ranges zl ps zr r fmin fmax is_in :
  pairs_ok strtod max_value zl ps → RangeOk r (as_item <$> ps_members strtod ps) fmin fmax →
  tests_ok strtod zr (λ p, fmin (as_item p)) (λ p, fmax (as_item p)) →
  is_in = Some (inside_of r fmin fmax (ps_members strtod ps)) →
  let f := inside (λ p, fmin (as_item p)) (λ p, fmax (as_item p)) in
  let first := eptr ← lpSeek zl 0; inside ← is_in; if negb inside then Some None else first_loop (length zl) zl zr eptr in
  let last' := eptr ← lpSeek zl (-2); inside ← is_in; if negb inside then Some None else last_loop (length zl) zl zr eptr in
  first = Some (ept ps <$> head (hits f (ps_members strtod ps))) ∧
  last' = Some (ept ps <$> last (hits f (ps_members strtod ps))) ∧
  ∃ zl' ps', (eptr ← first; match eptr with None => Some (zl, 0) | Some _ => zl_delete_loop (length zl) zl zr eptr 0 end) =
      Some (zl', zlen (filter (λ p, f p = true) (ps_members strtod ps))) ∧
    pairs_ok strtod max_value zl' ps' ∧ ps_members strtod ps' = filter (λ p, f p = false) (ps_members strtod ps).
Proof.
  intros Hok Hr Ht -> f first last'. destruct (get_cut zl ps r fmin fmax Hok Hr) as (a & c & d & Hcut & Hins).
  pose proof (po_rep _ _ _ _ Hok) as Hrep. destruct (pair_count zl ps Hrep) as [Hfuel Hsm].
  assert (Hfirst : first = Some (ept ps <$> head (seq (length a) (length c)))).
  { unfold first. rewrite (seek_first zl ps Hrep). cbn [mbind option_bind]. destruct (inside_of _ _ _ _); cbn [negb]; [|by rewrite Hins].
    eapply first_loop_spec; [done|done|done|lia|lia]. }
  assert (Hlen : length ps = (length a + (length c + length d))%nat) by (by rewrite (cut_eq _ _ _ _ _ _ _ Hcut), !length_app).
  destruct (cut_filter strtod _ _ _ _ _ _ Hcut) as [Hf1 Hf2]. unfold f. rewrite (cut_hits strtod _ _ _ _ _ _ Hcut), Hf1, Hf2. split_and!; [done| |].
  - unfold last'. destruct (seek_ends zl ps Hrep) as (-> & _). cbn [mbind option_bind].
    destruct (inside_of _ _ _ _); cbn [negb]; [|by rewrite Hins]. eapply (last_loop_spec _ _ _ _ Ht zl ps a c d Hrep Hcut (length zl) (length ps)); lia.
  - rewrite Hfirst. cbn [mbind option_bind]. destruct c as [|p c].
    { exists zl, ps. split_and!; [done|done|]. rewrite (cut_eq _ _ _ _ _ _ _ Hcut) at 1. done. }
    cbn [length seq head fmap option_fmap option_map]. destruct Hcut as [Hps Ha Hc Hd].
    assert (Hcur : Some (ept ps (length a)) = ecur (a ++ (p :: c) ++ d) (length a)).
    { rewrite <- Hps. unfold ecur. rewrite decide_True; [done|]. cbn [length] in Hlen. lia. }
    rewrite Hcur. rewrite Hps in Hrep, Hok. destruct (delete_loop_spec strtod zr _ _ Ht a d (p :: c) zl (length zl) 0 Hrep) as (zl' & -> & Hrep');
      try (eapply Forall_impl; [eassumption|]; cbn; tauto); [cbn [length] in *; lia|lia|rewrite Hlen in *; lia|].
    exists zl', (a ++ d). unfold ps_members at 1. rewrite length_fmap. split_and!; [done| |done]. by eapply pairs_sub.
Qed.

Lemma delete_rank_pairs zl ps start end_ :
  pairs_ok strtod max_value zl ps → 1 ≤ start ≤ end_ → end_ ≤ zlen ps →
  ∃ zl' ps', zzlDeleteRangeByRank zl start end_ = Some (zl', end_ - start + 1) ∧ pairs_ok strtod max_value zl' ps' ∧
    ps' = take (Z.to_nat (start - 1)) ps ++ drop (Z.to_nat end_) ps.
Proof.
  intros Hok Hs He. pose proof (po_rep _ _ _ _ Hok) as Hrep. destruct (pair_count zl ps Hrep) as [_ Hsm]. destruct Hrep as [Hrep Hst].
  unfold zzlDeleteRangeByRank. rewrite !wrapu_small by (rewrite ?wrapu_small by lia; lia).
  destruct (deleteRange_rep zl _ (2 * (start - 1)) (2 * (end_ - start + 1)) Hrep ltac:(lia)) as (zl' & -> & Hrep'). cbn [mbind option_bind].
  set (i := Z.to_nat (start - 1)). set (j := Z.to_nat end_).
  assert (Hr : range_spec (lp_encode <$> weave ps) (2 * (start - 1)) (2 * (end_ - start + 1)) = lp_encode <$> weave (take i ps ++ drop j ps)).
  { unfold range_spec. assert ((2 * (start - 1) <? 0) = false) as Hi by lia. rewrite Hi. cbv zeta. rewrite Hi, length_fmap, weave_length.
    destruct (Z.leb_spec (Z.of_nat (2 * length ps)) (2 * (start - 1))); [lia|]. cbn [orb].
    replace (Z.to_nat (2 * (start - 1))) with (2 * i)%nat by lia.
    replace (Z.to_nat (2 * (start - 1) + 2 * (end_ - start + 1))) with (2 * j)%nat by lia.
    by rewrite <- fmap_take, <- fmap_drop, weave_take, weave_drop, weave_app, fmap_app. }
  rewrite Hr in Hrep'. exists zl', (take i ps ++ drop j ps). split_and!; [done| |done].
  assert (Hps : ps = take i ps ++ take (j - i) (drop i ps) ++ drop j ps).
  { replace (drop j ps) with (drop (j - i) (drop i ps)) by (rewrite drop_drop; f_equal; lia). by rewrite !take_drop. }
  eapply (pairs_sub zl _ _ (take (j - i) (drop i ps))); [by rewrite <- Hps|]. split; [done|].
  rewrite weave_Forall in Hst |- *. apply Forall_app. split; [by apply Forall_take|by apply Forall_drop].
Qed.

(** A member is in the range. *)
Definition in_scores (spec : zrangespec) (p : sds * spec_float) : bool := zslValueGteMin p.2 spec && zslValueLteMax p.2 spec.
Definition in_lex (spec : zlexrangespec) (p : sds * spec_float) : bool := zslLexValueGteMin p.1 spec && zslLexValueLteMax p.1 spec.

(** C38: ranges of a sorted set in a listpack.  [zzlFirstInRange] and
    [zzlLastInRange] return the first and the last element of a score range,
    NULL when the range holds none, and [zzlDeleteRangeByScore] removes the
    members of the range, and only those, and returns how many they were; the
    functions on lexicographic ranges do so when all members have one score,
    and [zzlDeleteRangeByRank] removes the positions it is given.  The listpack
    stays a sorted set.  (C34 and C35 are the same statements for skiplists.) *)
Theorem zzl_ranges_correct zl ps :
  pairs_ok strtod max_value zl ps →
  let ms := ps_members strtod ps in
  (∀ spec, isnan (zr_min spec) = false → isnan (zr_max spec) = false →
     zzlFirstInRange strtod zl spec = Some (ept ps <$> head (hits (in_scores spec) ms)) ∧
     zzlLastInRange strtod zl spec = Some (ept ps <$> last (hits (in_scores spec) ms)) ∧
     ∃ zl' ps', zzlDeleteRangeByScore strtod zl spec = Some (zl', zlen (filter (λ p, in_scores spec p = true) ms)) ∧
       pairs_ok strtod max_value zl' ps' ∧ ps_members strtod ps' = filter (λ p, in_scores spec p = false) ms) ∧
  ((∀ x y, x ∈ ms → y ∈ ms → SFeqb x.2 y.2 = true) → ∀ spec,
     zzlFirstInLexRange zl spec = Some (ept ps <$> head (hits (in_lex spec) ms)) ∧
     zzlLastInLexRange zl spec = Some (ept ps <$> last (hits (in_lex spec) ms)) ∧
     ∃ zl' ps', zzlDeleteRangeByLex zl spec = Some (zl', zlen (filter (λ p, in_lex spec p = true) ms)) ∧
       pairs_ok strtod max_value zl' ps' ∧ ps_members strtod ps' = filter (λ p, in_lex spec p = false) ms) ∧
  (∀ start end_, 1 ≤ start ≤ end_ → end_ ≤ zlen ms →
     ∃ zl' ps', zzlDeleteRangeByRank zl start end_ = Some (zl', end_ - start + 1) ∧ pairs_ok strtod max_value zl' ps' ∧
       ps_members strtod ps' = take (Z.to_nat (start - 1)) ms ++ drop (Z.to_nat end_) ms).
Proof.
  intros Hok ms. pose proof (po_rep _ _ _ _ Hok) as Hrep.
  assert (Hnan : Forall it_ok (as_item <$> ms)) by (rewrite Forall_fmap; apply (mo_nan _ (po_members _ _ _ _ Hok))). split_and!.
  - intros spec Hmin Hmax. pose proof (score_range_ok spec Hmin Hmax _ Hnan) as Hr.
    exact (search_ranges zl ps _ _ _ _ _ Hok Hr (score_tests spec) (score_inside zl ps spec Hrep)).
  - intros Hone spec. assert (Hone' : one_score (as_item <$> ms)).
    { intros x y (p & -> & Hp)%list_elem_of_fmap (q & -> & Hq)%list_elem_of_fmap. by apply Hone. }
    pose proof (lex_range_ok spec _ Hnan Hone') as Hr.
    exact (search_ranges zl ps _ _ _ _ _ Hok Hr (lex_tests spec) (lex_inside zl ps spec Hrep)).
  - intros start end_ Hs He. unfold ms in *. rewrite members_length in He.
    destruct (delete_rank_pairs zl ps start end_ Hok Hs He) as (zl' & ps' & Hd & Hok' & ->). do 2 eexists. split_and!; [done|done|].
    rewrite members_app. unfold ps_members. by rewrite <- fmap_take, <- fmap_drop.
Qed.
End ranges.

(** ** An example *)

#[local] Existing Instance exact_allocator.

Definition ex_pairs : list (sds * list Z) := [([97], [49]); ([98], [50]); ([99], [51])].
Definition ex_zl : list Z := lp_image 6 (lp_encode <$> weave ex_pairs) [].

Lemma ex_pairs_ok : pairs_ok ex_strtod 8 ex_zl ex_pairs.
Proof.
  assert (Hst : Forall str_ok (weave ex_pairs)) by (by repeat constructor; unfold is_byte, str_ok; cbn; lia). split.
  - split; [|done]. split_and!; [|by vm_compute|by exists 6, []; split; [right|]].
    rewrite Forall_fmap. eapply Forall_impl; [exact Hst|]. intros s [Hb Hl]. by apply lp_encode_valid.
  - split; [|by vm_compute; repeat (constructor; [set_solver|]); constructor|by repeat constructor].
    by repeat constructor.
  - by repeat constructor.
  - by repeat constructor; cbn; lia.
Qed.

Lemma zzl_ranges_witness :
  zzlFirstInRange ex_strtod ex_zl (Zrange one three true false) = Some (Some (ept ex_pairs 1)) ∧
  zzlLastInRange ex_strtod ex_zl (Zrange one three true false) = Some (Some (ept ex_pairs 2)) ∧
  ∃ zl' ps', zzlDeleteRangeByScore ex_strtod ex_zl (Zrange one three true false) = Some (zl', 2) ∧
    pairs_ok ex_strtod 8 zl' ps' ∧ ps_members ex_strtod ps' = [([97], one)].
Proof.
  destruct (zzl_ranges_correct ex_strtod 8 ex_zl ex_pairs ex_pairs_ok) as [Hs _].
  destruct (Hs (Zrange one three true false) eq_refl eq_refl) as (Hf & Hl & zl' & ps' & Hd & Hok & Hm).
  split_and!; [rewrite Hf; by vm_compute|rewrite Hl; by vm_compute|]. exists zl', ps'. rewrite Hd, Hm. split_and!; [by vm_compute|done|by vm_compute].
Defined.

End ZzlRange.
