(* ===== verification/ZsetType.v ===== *)
(** * t_zset.c: the sorted set type

    A sorted set object has one of two encodings and changes from the listpack
    to the skiplist when it grows.  The functions of the common API dispatch on
    the encoding; [strtod], [fpconv_dtoa], the hash function and the limits of
    the configuration are parameters. *)

From S2P Require Import Prelude Util Listpack ListpackNav ListpackEdit ListpackBulk.
From S2P Require Import Dict DictInv Zskiplist Double ZslInv ZslOps ZslRange Zset Zzl ZzlOps.
Import Util Listpack ListpackNav ListpackEdit ListpackBulk.
Import Dict DictInv Zskiplist Double ZslInv ZslOps ZslRange Zset Zzl ZzlOps.

Module ZsetType.

Inductive zobject := ZobjListpack (zl : list Z) | ZobjSkiplist (zs : zset).
Inductive encoding := OBJ_ENCODING_LISTPACK | OBJ_ENCODING_SKIPLIST.

Section model.
Context `{Allocator} (strtod : sds → spec_float * nat) (fpconv_dtoa : spec_float → list Z).
Context (hash : sds → Z) (dict_can_resize : dictResizeEnable).
(** [server.zset_max_listpack_entries] and [server.zset_max_listpack_value]. *)
Context (zset_max_listpack_entries zset_max_listpack_value : Z).

Definition createZsetObject : zset := Zs dictCreate zslCreate.
Definition createZsetListpackObject : option zobject := zl ← lpNew 0; Some (ZobjListpack zl).

(** [lpLength] may write the count it finds into the header. *)
Definition zsetLength (zobj : zobject) : option (zobject * Z) :=
  match zobj with
  | ZobjListpack zl => '(zl, n) ← zzlLength zl; Some (ZobjListpack zl, n)
  | ZobjSkiplist zs => Some (ZobjSkiplist zs, zsl_length (zs_zsl zs))
  end.

Definition zsetTypeCreate (size_hint val_len_hint : Z) : option zobject :=
  if (size_hint <=? zset_max_listpack_entries) && (val_len_hint <=? zset_max_listpack_value)
  then createZsetListpackObject
  else
    let zs := createZsetObject in
    '(d, _) ← dictExpand (zs_dict zs) size_hint;
    Some (ZobjSkiplist (Zs d (zs_zsl zs))).

(** ** Conversions *)

(** [while (eptr != NULL)]: every pair goes into the skiplist and the dict. *)
Fixpoint to_skiplist (fuel : nat) (zl : list Z) (cur : option (Z * Z)) (zs : zset) (rs : list Z)
    : option (zset * list Z) :=
  match cur with
  | None => Some (zs, rs)
  | Some (eptr, sptr) =>
      match fuel with
      | O => None
      | S fuel =>
          score ← zzlGetScore strtod zl sptr;
          ele ← lpGetObject zl eptr;
          '(zsl, node, rs) ← zslInsert (zs_zsl zs) score ele rs;
          '(d, ok) ← dictAdd (zsetDictType hash) dict_can_resize (zs_dict zs) ele node;
          _ ← assert ok;
          cur ← zzlNext zl sptr;
          to_skiplist fuel zl cur (Zs d zsl) rs
      end
  end.
(** [while (node)]: every node goes to the end of the listpack and is freed. *)
Fixpoint to_listpack (fuel : nat) (h : heap) (node : option ptr) (zl : list Z) : option (heap * list Z) :=
  match node with
  | None => Some (h, zl)
  | Some p =>
      match fuel with
      | O => None
      | S fuel =>
          n ← h !! p;
          ele ← zn_ele n;
          zl ← zzlInsertAt fpconv_dtoa zl None ele (zn_score n);
          '(next, _) ← get_level h p O;
          to_listpack fuel (zslFreeNode h p) next zl
      end
  end.

Definition zsetConvertAndExpand (zobj : zobject) (enc : encoding) (cap : Z) (rs : list Z)
    : option (zobject * list Z) :=
  match zobj, enc with
  | ZobjListpack _, OBJ_ENCODING_LISTPACK | ZobjSkiplist _, OBJ_ENCODING_SKIPLIST => Some (zobj, rs)
  | ZobjListpack zl, OBJ_ENCODING_SKIPLIST =>
      let zs := createZsetObject in
      '(d, _) ← dictExpand (zs_dict zs) cap;
      eptr ← lpSeek zl 0;
      cur ← match eptr with
            | None => Some None
            | Some eptr => sptr ← lpNext zl eptr; sptr ← not_null sptr; Some (Some (eptr, sptr))
            end;
      '(zs, rs) ← to_skiplist (length zl) zl cur (Zs d (zs_zsl zs)) rs;
      Some (ZobjSkiplist zs, rs)
  | ZobjSkiplist zs, OBJ_ENCODING_LISTPACK =>
      zl ← lpNew 0;
      let zsl := zs_zsl zs in
      '(node, _) ← get_level (zsl_heap zsl) (zsl_header zsl) O;
      '(_, zl) ← to_listpack (Z.to_nat (zsl_length zsl)) (delete (zsl_header zsl) (zsl_heap zsl)) node zl;
      Some (ZobjListpack zl, rs)
  end.
Definition zsetConvert (zobj : zobject) (enc : encoding) (rs : list Z) : option (zobject * list Z) :=
  '(zobj, n) ← zsetLength zobj;
  zsetConvertAndExpand zobj enc n rs.

Definition zsetTypeMaybeConvert (zobj : zobject) (size_hint : Z) (rs : list Z) : option (zobject * list Z) :=
  match zobj with
  | ZobjListpack _ =>
      if size_hint >? zset_max_listpack_entries
      then zsetConvertAndExpand zobj OBJ_ENCODING_SKIPLIST size_hint rs else Some (zobj, rs)
  | ZobjSkiplist _ => Some (zobj, rs)
  end.

Definition zsetConvertToListpackIfNeeded (zobj : zobject) (maxelelen totelelen : Z) (rs : list Z)
    : option (zobject * list Z) :=
  match zobj with
  | ZobjListpack _ => Some (zobj, rs)
  | ZobjSkiplist zs =>
      safe ← lpSafeToAdd None totelelen;
      if (zsl_length (zs_zsl zs) <=? zset_max_listpack_entries) && (maxelelen <=? zset_max_listpack_value) && safe
      then zsetConvert zobj OBJ_ENCODING_LISTPACK rs else Some (zobj, rs)
  end.

(** ** The API *)

Definition zsetScore (zobj : zobject) (member : sds) : option (zobject * option spec_float) :=
  match zobj with
  | ZobjListpack zl => r ← zzlFind strtod zl member; Some (zobj, match r with Some (_, score) => Some score | None => None end)
  | ZobjSkiplist zs => '(zs, r) ← zsetScore_skiplist hash dict_can_resize zs member; Some (ZobjSkiplist zs, r)
  end.

Definition flag (in_flags bit : Z) : bool := negb (Z.land in_flags bit =? 0).
Definition options_of (in_flags : Z) : add_options :=
  AddOptions (flag in_flags ZADD_IN_INCR) (flag in_flags ZADD_IN_NX) (flag in_flags ZADD_IN_XX)
    (flag in_flags ZADD_IN_GT) (flag in_flags ZADD_IN_LT).

(** The listpack block of [zsetAdd]: a result, or the object to go on with. *)
Definition zsetAdd_listpack (zl : list Z) (score : spec_float) (ele : sds) (o : add_options) (rs : list Z)
    : option (zobject * add_result * list Z + zobject * list Z) :=
  found ← zzlFind strtod zl ele;
  match found with
  | Some (eptr, curscore) =>
      if o_nx o then Some (inl (ZobjListpack zl, AddResult 1 ZADD_OUT_NOP None, rs))
      else
        let score := if o_incr o then dadd score curscore else score in
        if o_incr o && isnan score then Some (inl (ZobjListpack zl, AddResult 0 ZADD_OUT_NAN None, rs))
        else if (o_lt o && SFleb curscore score) || (o_gt o && SFleb score curscore)
        then Some (inl (ZobjListpack zl, AddResult 1 ZADD_OUT_NOP None, rs))
        else if negb (SFeqb score curscore) then
          zl ← zzlDelete zl eptr;
          zl ← zzlInsert strtod fpconv_dtoa zl ele score;
          Some (inl (ZobjListpack zl, AddResult 1 ZADD_OUT_UPDATED (Some score), rs))
        else Some (inl (ZobjListpack zl, AddResult 1 0 (Some score), rs))
  | None =>
      if negb (o_xx o) then
        '(zl, n) ← zzlLength zl;
        safe ← lpSafeToAdd (Some zl) (zlen ele);
        if (u32 (n + 1) >? zset_max_listpack_entries) || (zlen ele >? zset_max_listpack_value) || negb safe then
          '(zobj, len) ← zsetLength (ZobjListpack zl);
          r ← zsetConvertAndExpand zobj OBJ_ENCODING_SKIPLIST (u64 (len + 1)) rs;
          Some (inr r)
        else
          zl ← zzlInsert strtod fpconv_dtoa zl ele score;
          Some (inl (ZobjListpack zl, AddResult 1 ZADD_OUT_ADDED (Some score), rs))
      else Some (inl (ZobjListpack zl, AddResult 1 ZADD_OUT_NOP None, rs))
  end.

Definition zsetAdd (zobj : zobject) (score : spec_float) (ele : sds) (in_flags : Z) (rs : list Z)
    : option (zobject * add_result * list Z) :=
  let o := options_of in_flags in
  if isnan score then Some (zobj, AddResult 0 ZADD_OUT_NAN None, rs)
  else
    r ← match zobj with
        | ZobjListpack zl => zsetAdd_listpack zl score ele o rs
        | ZobjSkiplist _ => Some (inr (zobj, rs))
        end;
    match r with
    | inl r => Some r
    | inr (ZobjSkiplist zs, rs) =>
        '(zs, r, rs) ← zsetAdd_skiplist hash dict_can_resize zs score ele o rs;
        Some (ZobjSkiplist zs, r, rs)
    | inr (ZobjListpack _, _) => None
    end.

Definition zsetDel (zobj : zobject) (ele : sds) : option (zobject * Z) :=
  match zobj with
  | ZobjListpack zl =>
      found ← zzlFind strtod zl ele;
      match found with
      | Some (eptr, _) => zl ← zzlDelete zl eptr; Some (ZobjListpack zl, 1)
      | None => Some (zobj, 0)
      end
  | ZobjSkiplist zs => '(zs, r) ← zsetDel_skiplist hash dict_can_resize zs ele; Some (ZobjSkiplist zs, r)
  end.

(** [while(eptr != NULL)]: the rank and the score pointer of the element. *)
Fixpoint rank_loop (fuel : nat) (zl : list Z) (ele : sds) (cur : option (Z * Z)) (rank : Z) : option (option (Z * Z)) :=
  match cur with
  | None => Some None
  | Some (eptr, sptr) =>
      match fuel with
      | O => None
      | S fuel =>
          eq ← lpCompare zl eptr ele;
          if (eq : bool) then Some (Some (rank, sptr))
          else cur ← zzlNext zl sptr; rank_loop fuel zl ele cur (u64 (rank + 1))
      end
  end.
Definition zsetRank (zobj : zobject) (ele : sds) (reverse : bool) : option (zobject * Z * option spec_float) :=
  '(zobj, llen) ← zsetLength zobj;
  match zobj with
  | ZobjListpack zl =>
      eptr ← lpSeek zl 0;
      eptr ← not_null eptr;
      sptr ← lpNext zl eptr;
      sptr ← not_null sptr;
      r ← rank_loop (length zl) zl ele (Some (eptr, sptr)) 1;
      match r with
      | Some (rank, sptr) =>
          score ← zzlGetScore strtod zl sptr;
          Some (zobj, if reverse then s64 (u64 (llen - rank)) else s64 (u64 (rank - 1)), Some score)
      | None => Some (zobj, -1, None)
      end
  | ZobjSkiplist zs =>
      '(zs, r, s) ← zsetRank_skiplist hash dict_can_resize zs ele reverse; Some (ZobjSkiplist zs, r, s)
  end.
End model.

End ZsetType.
