(* ===== verification/ZsetRefine.v ===== *)
(** * t_zset.c: a sorted set is a map from elements to scores

    Both encodings implement the same operations on a finite map, and the
    conversions between them keep the map. *)

From S2P Require Import Prelude Util Listpack ListpackNav ListpackEdit ListpackBulk.
From S2P Require Import Dict DictInv DictExt DictOps Zskiplist Double ZslInv ZslOps ZslRange Zset Zzl ZzlOps ZsetType.
Import Util Listpack ListpackNav ListpackEdit ListpackBulk.
Import Dict DictInv DictExt DictOps Zskiplist Double ZslInv ZslOps ZslRange Zset Zzl ZzlOps ZsetType.

Module ZsetRefine.

Lemma scores_insert a e s b :
  e ∉ (a ++ b).*1 → NoDup (a ++ b).*1 → scores (a ++ (e, s) :: b) = <[e := norm s]> (scores (a ++ b)).
Proof.
  intros He Hnd. apply scores_mid. rewrite fmap_app in He, Hnd |- *. cbn [fmap list_fmap fst].
  rewrite <- Permutation_middle. by apply NoDup_cons.
Qed.

Section encodings.
Context `{Allocator} (strtod : sds → spec_float * nat) (fpconv_dtoa : spec_float → list Z) `{!ScoreText strtod fpconv_dtoa}.
Context (hash : sds → Z) (cr : dictResizeEnable) (Hhash : ∀ k, 0 ≤ hash k < 2 ^ 64).
Context (max_entries max_value : Z) `{!Limits max_entries max_value}.
Implicit Type (m : gmap sds spec_float) (ps : list (sds * list Z)).

(** ** The listpack encoding *)

Lemma ps_members_mid a e t b :
  ps_members strtod (a ++ (e, t) :: b) = ps_members strtod a ++ (e, read_score strtod t) :: ps_members strtod b.
Proof. apply members_app. Qed.

Lemma zl_find zl ps e :
  pairs_ok strtod max_value zl ps → short e →
  (∃ a t b, ps = a ++ (e, t) :: b ∧ zzlFind strtod zl e = Some (Some (ept ps (length a), read_score strtod t)) ∧
     scores (ps_members strtod ps) !! e = Some (norm (read_score strtod t)) ∧
     scores (ps_members strtod (a ++ b)) = delete e (scores (ps_members strtod ps))) ∨
  ((e ∉ (ps_members strtod ps).*1) ∧ zzlFind strtod zl e = Some None ∧ scores (ps_members strtod ps) !! e = None).
Proof.
  unfold short. intros [Hrep Hms _ _] He0. rewrite (find_pairs strtod zl ps Hrep) by lia.
  destruct (pair_of e ps) as [[i [e' t]]|] eqn:Hf; unfold pair_of in Hf.
  - left. apply list_find_Some in Hf as (Hi & He & _). cbn in He. subst e'.
    apply list_elem_of_split_length in Hi as (a & b & -> & ->). exists a, t, b.
    pose proof (mo_nodup _ Hms) as Hnd. rewrite ps_members_mid in *.
    destruct (scores_mid (ps_members strtod a) e (read_score strtod t) (ps_members strtod b) Hnd) as [Hm Hno].
    split_and!; [done|done| |].
    + rewrite Hm. by rewrite lookup_insert_eq.
    + rewrite members_app, Hm. by rewrite delete_insert_id.
  - right. apply list_find_None in Hf. assert (He : e ∉ (ps_members strtod ps).*1).
    { rewrite members_fst. intros Hin. apply list_elem_of_fmap in Hin as ([e' t] & -> & Hin).
      rewrite Forall_forall in Hf. by apply (Hf _ Hin). }
    split_and!; [done|done|by apply scores_none].
Qed.

Lemma zl_delete zl a (e : sds) t b :
  pairs_ok strtod max_value zl (a ++ (e, t) :: b) →
  ∃ zl', zzlDelete zl (ept (a ++ (e, t) :: b) (length a)) = Some zl' ∧ pairs_ok strtod max_value zl' (a ++ b).
Proof.
  intros [Hrep Hms Hv Hsm]. destruct (pairs_delete zl _ (length a) Hrep) as (zl' & Hd & Hrep').
  { rewrite length_app. cbn [length]. lia. }
  rewrite take_app_length in Hrep'.
  assert (Hdr : drop (S (length a)) (a ++ (e, t) :: b) = b) by (by rewrite <- Nat.add_1_r, <- drop_drop, drop_app_length).
  rewrite Hdr in Hrep'. exists zl'. split; [unfold zzlDelete; by rewrite Hd|].
  rewrite ps_members_mid in Hms, Hv. split; [done|..]; rewrite ?members_app.
  - by eapply members_delete.
  - rewrite Forall_app, Forall_cons in Hv. rewrite Forall_app. tauto.
  - rewrite Forall_app, Forall_cons in Hsm. rewrite Forall_app. tauto.
Qed.

Lemma zl_insert zl ps (ele : sds) score :
  pairs_ok strtod max_value zl ps → zlen ps ≤ max_entries → valid score → isnan score = false →
  ele ∉ (ps_members strtod ps).*1 → Forall is_byte ele → zlen ele ≤ max_value →
  ∃ zl' ps', zzlInsert strtod fpconv_dtoa zl ele score = Some zl' ∧ pairs_ok strtod max_value zl' ps' ∧
    length ps' = S (length ps) ∧ scores (ps_members strtod ps') = <[ele := norm score]> (scores (ps_members strtod ps)).
Proof.
  intros Hok Hl Hv Hn He Hb Hel. pose proof (mo_nodup _ (po_members _ _ _ _ Hok)) as Hnd.
  destruct (insert_pairs strtod fpconv_dtoa max_entries max_value zl ps ele score Hok Hl Hv Hn He Hb Hel)
    as (zl' & a & b & s & t & Hi & -> & Hok' & -> & Hs).
  exists zl', (a ++ (ele, t) :: b). split_and!; [done|done|rewrite !length_app; cbn [length]; lia|].
  rewrite ps_members_mid, <- Hs. rewrite members_app in *. by apply scores_insert.
Qed.
Lemma entries_small : max_entries + 1 < 2 ^ 32.
Proof. pose proof lim_size as Hs. pose proof lim_value. pose proof lim_entries. unfold UINT32_MAX in Hs. nia. Qed.

(** ** Conversions *)

(** [rs] is enough for [n] random levels. *)
Fixpoint draws (n : nat) (rs : list Z) : Prop :=
  match n with O => True | S n => ∃ lv rs', zslRandomLevel rs = Some (lv, rs') ∧ draws n rs' end.

Lemma draws_le n k rs : draws (n + k) rs → draws n rs.
Proof. revert rs. induction n as [|n IH]; intros rs; [done|]. intros (lv & rs' & ? & ?). exists lv, rs'. eauto. Qed.

Definition pair_cur ps (i : nat) : option (Z * Z) :=
  if decide (i < length ps)%nat then Some (ept ps i, spt ps i) else None.

Lemma next_pair zl ps i : zl_rep zl ps → (i < length ps)%nat → zzlNext zl (spt ps i) = Some (pair_cur ps (S i)).
Proof.
  intros Hrep Hi. unfold zzlNext. rewrite (next_s zl ps Hrep) by done. cbn [mbind option_bind]. unfold ecur, pair_cur.
  destruct (decide (S i < length ps)%nat); [|done]. rewrite (next_e zl ps Hrep) by done. done.
Qed.

Lemma first_pair zl ps :
  zl_rep zl ps →
  (eptr ← lpSeek zl 0;
   match eptr with
   | None => Some None
   | Some eptr => sptr ← lpNext zl eptr; sptr ← not_null sptr; Some (Some (eptr, sptr))
   end) = Some (pair_cur ps 0).
Proof.
  intros Hrep. rewrite (seek_first zl ps Hrep). cbn [mbind option_bind]. unfold ecur, pair_cur.
  destruct (decide (0 < length ps)%nat); [|done]. rewrite (next_e zl ps Hrep) by done. done.
Qed.

Lemma take_members ps i e t :
  members_ok (ps_members strtod ps) → ps !! i = Some (e, t) →
  (e ∉ (ps_members strtod (take i ps)).*1) ∧ isnan (read_score strtod t) = false ∧
  scores (ps_members strtod (take (S i) ps)) = <[e := norm (read_score strtod t)]> (scores (ps_members strtod (take i ps))).
Proof.
  intros Hms Hi. rewrite <- (take_drop_middle _ _ _ Hi), ps_members_mid in Hms.
  assert (Hno : (e ∉ (ps_members strtod (take i ps)).*1) ∧ NoDup (ps_members strtod (take i ps)).*1).
  { pose proof (mo_nodup _ Hms) as Hnd. rewrite fmap_app in Hnd. apply NoDup_app in Hnd as (Hnd & Hn & _). split; [|done].
    intros Hin. apply (Hn _ Hin). by left. }
  split_and!; [apply Hno| |].
  - pose proof (mo_nan _ Hms) as Hn. rewrite Forall_app, Forall_cons in Hn. apply Hn.
  - rewrite (take_S_r _ _ _ Hi), ps_members_mid. change (ps_members strtod []) with (@nil (sds * spec_float)).
    rewrite scores_insert; rewrite app_nil_r; [done|apply Hno..].
Qed.

Lemma to_skiplist_spec zl ps k fuel : ∀ i zs l rs,
  pairs_ok strtod max_value zl ps → zlen ps ≤ max_entries → (i ≤ length ps)%nat → (length ps - i ≤ fuel)%nat →
  skl_ok hash zs l → scores (member <$> l) = scores (ps_members strtod (take i ps)) → length l = i →
  draws (length ps - i + k) rs →
  ∃ zs' l' rs', to_skiplist strtod hash cr fuel zl (pair_cur ps i) zs rs = Some (zs', rs') ∧ skl_ok hash zs' l' ∧
    scores (member <$> l') = scores (ps_members strtod ps) ∧ length l' = length ps ∧ draws k rs'.
Proof.
  induction fuel as [|fuel IH]; intros i zs l rs Hok Hlen Hi Hf Hskl Hsc Hll Hd.
  { assert (i = length ps) as -> by lia. exists zs, l, rs. unfold pair_cur. rewrite decide_False by lia.
    rewrite firstn_all in Hsc. rewrite Nat.sub_diag in Hd. by split_and!. }
  destruct (decide (i = length ps)) as [->|Hne].
  { exists zs, l, rs. unfold pair_cur. rewrite decide_False by lia. rewrite firstn_all in Hsc. rewrite Nat.sub_diag in Hd. by split_and!. }
  assert (Hlt : (i < length ps)%nat) by lia. destruct (lookup_lt_is_Some_2 ps i Hlt) as [[e t] He].
  destruct Hok as [Hrep Hms Hval Hsm]. destruct (take_members ps i e t Hms He) as (Hnew & Hnan & Hsc').
  unfold pair_cur at 1. rewrite decide_True by done. cbn [to_skiplist].
  rewrite (score_at strtod zl ps i e t Hrep He). cbn [mbind option_bind].
  rewrite (object_at zl ps i e t Hrep He). cbn [mbind option_bind].
  replace (length ps - i + k)%nat with (S (length ps - S i + k)) in Hd by lia. destruct Hd as (lv & rs' & Hrl & Hd).
  assert (Hnew' : e ∉ it_ele <$> l).
  { pose proof (zo_nodup _ _ _ _ _ Hskl) as Hnd. destruct (ele_place l e Hnd) as [(a & it & b & -> & Hit & _ & Hs)|(Hn & _)]; [|done].
    exfalso. rewrite Hsc, scores_none in Hs by done. done. }
  assert (He0 : short e) by (pose proof lim_value; apply (Forall_lookup_1 _ _ _ _ Hsm) in He as [He _]; unfold short; cbn in He; lia).
  destruct (skl_new hash cr Hhash zs l e (read_score strtod t) rs lv rs' Hskl He0 Hnew' Hnan Hrl) as (zsl & x & d & l' & Hins & Hadd & Hok' & Hl' & Hll').
  { pose proof entries_small. lia. }
  rewrite Hins. cbn [mbind option_bind]. rewrite Hadd. cbn [mbind option_bind assert]. rewrite (next_pair zl ps i Hrep Hlt).
  cbn [mbind option_bind]. apply (IH (S i) (Zs d zsl) l'); try done; try lia. by rewrite Hl', Hsc.
Qed.

Lemma expanded_empty cap : 0 ≤ cap → ∃ d ok, dictExpand (dictCreate (K := sds) (V := ptr)) cap = Some (d, ok) ∧ skl_ok hash (Zs d zslCreate) [].
Proof.
  intros Hcap. destruct (DictInv.create_ok (zsetDictType hash) (@id sds)) as [Hok Hm].
  destruct (on_expand_spec (Hon := zset_type_ok hash Hhash) (zsetDictType hash) id dictCreate cap Hok Hcap) as (d & ok & Hd & Hs). exists d, ok. split; [done|].
  split; cbn; [apply zslCreate_ok|apply Hs|constructor| |constructor]. rewrite (same_map (zsetDictType hash) id _ _ Hok Hs). exact Hm.
Qed.
(** Sorting only looks at the keys. *)
Lemma sorted_keys (ms ms' : list (sds * spec_float)) :
  pair_key <$> ms = pair_key <$> ms' → StronglySorted pair_lt ms → StronglySorted pair_lt ms'.
Proof.
  revert ms'. induction ms as [|p ms IH]; intros [|p' ms'] Hk Hs; try done. cbn [fmap list_fmap] in Hk. injection Hk as Hp Hk.
  inversion_clear Hs as [|? ? Hs' Hall]. constructor; [by apply IH|].
  assert (Hf : Forall (λ k, lexcmp (pair_key p) k = Lt) (pair_key <$> ms)) by (by rewrite Forall_fmap).
  rewrite Hk, Forall_fmap, Hp in Hf. exact Hf.
Qed.

Lemma members_norm a e s s' b :
  members_ok (a ++ (e, s) :: b) → norm s' = norm s → isnan s' = false → members_ok (a ++ (e, s') :: b).
Proof.
  intros [Hs Hnd Hn] Hnorm Hn'. split.
  - eapply sorted_keys; [|exact Hs]. rewrite !fmap_app. cbn [fmap list_fmap]. do 2 f_equal. unfold pair_key. cbn.
    by rewrite <- (pair_key_norm e s), <- (pair_key_norm e s'), Hnorm.
  - rewrite fmap_app in *. exact Hnd.
  - rewrite Forall_app, Forall_cons in *. cbn in *. tauto.
Qed.

Lemma scores_norm a e s s' b : norm s' = norm s → scores (a ++ (e, s') :: b) = scores (a ++ (e, s) :: b).
Proof. intros Hn. unfold scores. rewrite !fmap_app. cbn. by rewrite Hn. Qed.

Lemma members_prefix a b : members_ok (a ++ b) → members_ok a.
Proof.
  intros [Hs Hnd Hn]. split.
  - by eapply StronglySorted_app_1_l.
  - rewrite fmap_app in Hnd. by apply NoDup_app in Hnd as (? & _).
  - by apply Forall_app in Hn as [? _].
Qed.

(** An item that may be stored in a listpack. *)
Definition item_fits (it : item) : Prop :=
  valid (it_score it) ∧ Forall is_byte (it_ele it) ∧ zlen (it_ele it) ≤ max_value.

Lemma append_pair zl ps e s :
  pairs_ok strtod max_value zl ps → members_ok (ps_members strtod ps ++ [(e, s)]) → zlen ps < max_entries →
  valid s → Forall is_byte e → zlen e ≤ max_value →
  ∃ zl' t, zzlInsertAt fpconv_dtoa zl None e s = Some zl' ∧ pairs_ok strtod max_value zl' (ps ++ [(e, t)]) ∧
    norm (read_score strtod t) = norm s ∧ isnan (read_score strtod t) = false.
Proof.
  intros [Hrep Hms Hval Hsm] Hnew Hlen Hv Hb Hel. pose proof lim_value as Hlv. pose proof lim_size as Hls.
  assert (Hnan : isnan s = false) by (pose proof (mo_nan _ Hnew) as Hn; rewrite Forall_app, Forall_singleton in Hn; apply Hn).
  destruct (score_roundtrip strtod fpconv_dtoa s Hv Hnan) as (a & Ha & Haok & Hal & Hnorm & Hav & Han).
  assert (Hsm' : Forall (λ p : sds * list Z, zlen p.1 ≤ max_value ∧ zlen p.2 ≤ 32) (ps ++ [(e, arg_string a)])).
  { apply Forall_app. split; [done|]. by apply Forall_singleton. }
  destruct (pairs_insert fpconv_dtoa zl ps (length ps) e s a Hrep) as (zl' & Hins & Hrep'); [lia|split; [done|ilia]|done|done| |].
  { rewrite firstn_all, drop_all. etransitivity; [by apply (pairs_size max_value)|]. rewrite length_app. cbn [length]. nia. }
  rewrite firstn_all, drop_all in Hrep'. unfold ecur in Hins. rewrite decide_False in Hins by lia.
  exists zl', (arg_string a). split_and!; [done| |done|done]. split; [done| | |done]; rewrite ps_members_mid.
  - by eapply members_norm.
  - apply Forall_app. split; [done|]. by apply Forall_singleton.
Qed.

Lemma to_listpack_spec l : ∀ h zl ps,
  NoDup (it_ptr <$> l) →
  (∀ p it q, l = p ++ it :: q → ∃ n s, h !! it_ptr it = Some n ∧ zn_ele n = Some (it_ele it) ∧ zn_score n = it_score it ∧
    get_level h (it_ptr it) 0 = Some (it_ptr <$> head q, s)) →
  pairs_ok strtod max_value zl ps → members_ok (ps_members strtod ps ++ (member <$> l)) → Forall item_fits l →
  zlen ps + zlen l ≤ max_entries →
  ∃ h' zl' ps', to_listpack fpconv_dtoa (length l) h (it_ptr <$> head l) zl = Some (h', zl') ∧
    pairs_ok strtod max_value zl' ps' ∧ scores (ps_members strtod ps') = scores (ps_members strtod ps ++ (member <$> l)) ∧
    zlen ps' = zlen ps + zlen l.
Proof.
  induction l as [|it l IH]; intros h zl ps Hnd Hl Hok Hms Hfit Hlen.
  { exists h, zl, ps. cbn [length fmap list_fmap]. rewrite app_nil_r. split_and!; [done..|lia]. }
  cbn [fmap list_fmap length head option_fmap option_map to_listpack] in *. apply NoDup_cons in Hnd as [Hni Hnd].
  apply Forall_cons in Hfit as [(Hv & Hb & Hel) Hfit].
  destruct (Hl [] it l eq_refl) as (n & s & Hn & He & Hsc & Hg). rewrite Hn. cbn [mbind option_bind]. rewrite He, Hsc. cbn [mbind option_bind].
  destruct (append_pair zl ps (it_ele it) (it_score it) Hok) as (zl1 & t & Hins & Hok1 & Hnorm & Hnan); [|lia|done..|].
  { apply (members_prefix _ (member <$> l)). by rewrite <- app_assoc. }
  rewrite Hins. cbn [mbind option_bind]. rewrite Hg. cbn [mbind option_bind].
  assert (Hms1 : members_ok (ps_members strtod (ps ++ [(it_ele it, t)]) ++ (member <$> l))).
  { rewrite ps_members_mid, <- app_assoc. cbn [app ps_members fmap list_fmap]. eapply members_norm; [exact Hms|done|done]. }
  destruct (IH (zslFreeNode h (it_ptr it)) zl1 (ps ++ [(it_ele it, t)])) as (h' & zl' & ps' & Hrun & Hok' & Hsc' & Hlen'); try done.
  { intros p z q Heq. destruct (Hl (it :: p) z q) as (n' & s' & Hn' & Hrest); [by rewrite Heq|]. exists n', s'.
    assert (it_ptr it ≠ it_ptr z) by (intros Hp; apply Hni; rewrite Hp, Heq, fmap_app; set_solver).
    unfold zslFreeNode, get_level. rewrite !lookup_delete_ne by done. done. }
  { rewrite length_app. cbn [length]. lia. }
  exists h', zl', ps'. split_and!; [done|done| |rewrite Hlen', length_app; cbn [length]; lia].
  rewrite Hsc', ps_members_mid, <- app_assoc. cbn [app ps_members fmap list_fmap]. by apply scores_norm.
Qed.
(** ** Objects *)

Definition obj_members (o : zobject) (ms : list (sds * spec_float)) : Prop :=
  match o with
  | ZobjListpack zl => ∃ ps, pairs_ok strtod max_value zl ps ∧ zlen ps ≤ max_entries ∧ ps_members strtod ps = ms
  | ZobjSkiplist zs => ∃ l, skl_ok hash zs l ∧ member <$> l = ms
  end.

(** Scores are doubles and elements are strings of bytes whose length an [int]
    holds. *)
Definition ele_ok (e : sds) : Prop := Forall is_byte e ∧ short e.
Definition map_ok m : Prop := map_Forall (λ e s, valid s ∧ ele_ok e) m.

(** The abstraction relation. *)
Record holds (o : zobject) m : Prop := {
  h_members : ∃ ms, obj_members o ms ∧ scores ms = m;
  h_valid : map_ok m;
}.

Lemma obj_ok o ms : obj_members o ms → members_ok ms.
Proof.
  destruct o as [zl|zs]; [intros (ps & [] & _ & <-)|intros (l & Hl & <-)]; [done|]. by eapply skl_members.
Qed.

Lemma scores_size ms : NoDup ms.*1 → size (scores ms) = length ms.
Proof.
  intros Hnd. unfold scores. rewrite map_size_list_to_map; [apply length_fmap|]. by rewrite <- list_fmap_compose.
Qed.

Lemma norm_valid x : valid (norm x) ↔ valid x.
Proof. by destruct x. Qed.

Lemma valid_insert m e s :
  map_ok m → valid s → ele_ok e →
  map_ok (<[e := norm s]> m).
Proof. intros Hm Hs He. apply map_Forall_insert_2; [|done]. split; [by apply norm_valid|done]. Qed.

Lemma zl_length zl ps :
  pairs_ok strtod max_value zl ps → zlen ps ≤ max_entries →
  ∃ zl', zzlLength zl = Some (zl', zlen ps) ∧ pairs_ok strtod max_value zl' ps.
Proof.
  intros [[Hrep Hst] Hms Hval Hsm] Hlen. destruct (length_rep zl _ Hrep) as (zl' & Hl & Hrep' & _).
  unfold zzlLength. rewrite Hl. cbn [mbind option_bind]. exists zl'. split; [|by split].
  rewrite length_fmap, weave_length. pose proof entries_small. do 2 f_equal.
  replace (Z.of_nat (2 * length ps)) with (zlen ps * 2) by lia. rewrite Z.div_mul by lia. apply wrapu_small. lia.
Qed.

Lemma convert_skl zl ps cap k rs :
  pairs_ok strtod max_value zl ps → zlen ps ≤ max_entries → 0 ≤ cap → draws (length ps + k) rs →
  ∃ zs l rs', zsetConvertAndExpand strtod fpconv_dtoa hash cr (ZobjListpack zl) OBJ_ENCODING_SKIPLIST cap rs =
      Some (ZobjSkiplist zs, rs') ∧ skl_ok hash zs l ∧
    scores (member <$> l) = scores (ps_members strtod ps) ∧ length l = length ps ∧ draws k rs'.
Proof.
  intros Hok Hlen Hcap Hd. cbn [zsetConvertAndExpand]. unfold createZsetObject. cbn [zs_dict zs_zsl].
  destruct (expanded_empty cap Hcap) as (d & ok & -> & Hskl). cbn [mbind option_bind].
  pose proof (first_pair zl ps (po_rep _ _ _ _ Hok)) as Hfirst. destruct (lpSeek zl 0) as [eptr|]; [|done].
  cbn [mbind option_bind] in Hfirst |- *. rewrite Hfirst. cbn [mbind option_bind].
  destruct (to_skiplist_spec zl ps k (length zl) 0 (Zs d zslCreate) [] rs) as (zs & l & rs' & -> & ? & ? & ? & ?); try done.
  - lia.
  - pose proof (zl_fuel zl ps (po_rep _ _ _ _ Hok)). lia.
  - by rewrite Nat.sub_0_r.
  - by exists zs, l, rs'.
Qed.

Lemma item_level zsl l p it q :
  zsl_wf zsl l → l = p ++ it :: q →
  ∃ n s, zsl_heap zsl !! it_ptr it = Some n ∧ zn_ele n = Some (it_ele it) ∧ zn_score n = it_score it ∧
    get_level (zsl_heap zsl) (it_ptr it) 0 = Some (it_ptr <$> head q, s).
Proof.
  intros Hwf ->. destruct (node_at zsl p it q Hwf) as (n & Hn & He & Hsc & _).
  destruct (level_0 zsl (p ++ [it]) q) as [s Hs]; [by rewrite <- app_assoc|]. rewrite last_ptr_snoc in Hs. by exists n, s.
Qed.

Lemma convert_lp zs l cap rs :
  skl_ok hash zs l → Forall item_fits l → zlen l ≤ max_entries →
  ∃ zl ps, zsetConvertAndExpand strtod fpconv_dtoa hash cr (ZobjSkiplist zs) OBJ_ENCODING_LISTPACK cap rs =
      Some (ZobjListpack zl, rs) ∧ pairs_ok strtod max_value zl ps ∧ zlen ps ≤ max_entries ∧
    scores (ps_members strtod ps) = scores (member <$> l).
Proof.
  intros Hskl Hfit Hlen. pose proof (skl_members hash zs l Hskl) as Hms. destruct Hskl as [Hz _ _ _ _].
  pose proof (ok_wf _ _ Hz) as Hwf. cbn [zsetConvertAndExpand].
  destruct (lpNew_rep 0) as (zl0 & -> & Hrep0 & _). cbn [mbind option_bind].
  destruct (level_0 (zs_zsl zs) [] l Hwf) as [s Hs]. change (last_ptr (zsl_header (zs_zsl zs)) []) with (zsl_header (zs_zsl zs)) in Hs.
  rewrite Hs. cbn [mbind option_bind]. rewrite (wf_length _ _ Hwf), Nat2Z.id.
  pose proof (no_nodup _ _ _ _ (wf_nodes _ _ Hwf)) as Hnd. apply NoDup_cons in Hnd as [Hh Hnd].
  assert (Hok0 : pairs_ok strtod max_value zl0 []) by (split; [by split; [|constructor]|split; constructor|constructor|constructor]).
  destruct (to_listpack_spec l (delete (zsl_header (zs_zsl zs)) (zsl_heap (zs_zsl zs))) zl0 []) as (h' & zl & ps & -> & Hok & Hsc & Hl); try done.
  - intros p it q Heq. destruct (item_level _ _ _ _ _ Hwf Heq) as (n & s' & Hn & He & Hsc & Hg). exists n, s'.
    assert (zsl_header (zs_zsl zs) ≠ it_ptr it) by (intros Hp; apply Hh; rewrite Hp, Heq, fmap_app; set_solver).
    unfold get_level. rewrite !lookup_delete_ne by done. done.
  - cbn [length] in *. exists zl, ps. split_and!; [done|done|lia|done].
Qed.
(** ** The API on objects *)

Lemma holds_lp zl ps m :
  pairs_ok strtod max_value zl ps → zlen ps ≤ max_entries → scores (ps_members strtod ps) = m →
  map_ok m → holds (ZobjListpack zl) m.
Proof. intros Hok Hl Hm Hv. split; [|done]. exists (ps_members strtod ps). split; [by exists ps|done]. Qed.

Lemma holds_skl zs l m :
  skl_ok hash zs l → scores (member <$> l) = m → map_ok m → holds (ZobjSkiplist zs) m.
Proof. intros Hok Hm Hv. split; [|done]. exists (member <$> l). split; [by exists l|done]. Qed.

Lemma score_holds o m e :
  holds o m → short e → ∃ o' s, zsetScore strtod hash cr o e = Some (o', s) ∧ holds o' m ∧ norm <$> s = m !! e.
Proof.
  intros [(ms & Ho & <-) Hv] He0. destruct o as [zl|zs]; cbn [zsetScore].
  - destruct Ho as (ps & Hok & Hl & <-).
    destruct (zl_find zl ps e Hok He0) as [(a & t & b & -> & -> & Hs & _)|(_ & -> & Hs)]; cbn [mbind option_bind];
      rewrite Hs; do 2 eexists; (split; [done|]); (split; [by eapply holds_lp|done]).
  - destruct Ho as (l & Hok & <-). destruct (score_skl hash cr Hhash zs l e Hok He0) as (zs' & s & -> & Hok' & Hs). cbn [mbind option_bind].
    exists (ZobjSkiplist zs'), s. split_and!; [done|by eapply holds_skl|done].
Qed.

Lemma del_holds o m e :
  holds o m → short e →
  ∃ o', zsetDel strtod hash cr o e = Some (o', if decide (is_Some (m !! e)) then 1 else 0) ∧ holds o' (delete e m).
Proof.
  intros [(ms & Ho & <-) Hv] He0. pose proof (map_Forall_delete _ _ e Hv) as Hv'. destruct o as [zl|zs]; cbn [zsetDel].
  - destruct Ho as (ps & Hok & Hl & <-).
    destruct (zl_find zl ps e Hok He0) as [(a & t & b & -> & -> & Hs & Hd)|(_ & -> & Hs)]; cbn [mbind option_bind]; rewrite Hs.
    + destruct (zl_delete zl a e t b Hok) as (zl' & -> & Hok'). cbn [mbind option_bind].
      rewrite decide_True by (by eexists). exists (ZobjListpack zl'). split; [done|]. eapply holds_lp; [done| |done|done].
      rewrite !length_app in *. cbn [length] in Hl. lia.
    + rewrite decide_False by (by intros []). exists (ZobjListpack zl). split; [done|]. rewrite delete_id in * by done. by eapply holds_lp.
  - destruct Ho as (l & Hok & <-). destruct (del_skl hash cr Hhash zs l e Hok He0) as (zs' & l' & -> & Hok' & Hl'). cbn [mbind option_bind].
    exists (ZobjSkiplist zs'). split; [|by eapply holds_skl]. do 2 f_equal.
    destruct (ele_place l e (zo_nodup _ _ _ _ _ Hok)) as [(a & it & b & -> & <- & _ & Hs)|(Hn & _ & Hs)]; rewrite Hs.
    + rewrite !decide_True; [done|by eexists|rewrite fmap_app; set_solver].
    + rewrite !decide_False; [done|by intros []|done].
Qed.

Lemma length_holds o m : holds o m → ∃ o', zsetLength o = Some (o', Z.of_nat (size m)) ∧ holds o' m.
Proof.
  intros [(ms & Ho & <-) Hv]. pose proof (obj_ok o ms Ho) as Hms. rewrite (scores_size ms (mo_nodup _ Hms)).
  destruct o as [zl|zs]; cbn [zsetLength].
  - destruct Ho as (ps & Hok & Hl & <-). destruct (zl_length zl ps Hok Hl) as (zl' & -> & Hok'). cbn [mbind option_bind].
    rewrite members_length. exists (ZobjListpack zl'). split; [done|]. by eapply holds_lp.
  - destruct Ho as (l & Hok & <-). rewrite length_fmap. exists (ZobjSkiplist zs). split; [|by eapply holds_skl].
    by rewrite (wf_length _ _ (ok_wf _ _ (zo_zsl _ _ _ _ _ Hok))).
Qed.

Lemma hint_holds o m size_hint rs :
  holds o m → 0 ≤ size_hint → draws (size m) rs →
  ∃ o' rs', zsetTypeMaybeConvert strtod fpconv_dtoa hash cr max_entries o size_hint rs = Some (o', rs') ∧ holds o' m.
Proof.
  intros [(ms & Ho & <-) Hv] Hsz Hd. pose proof (obj_ok o ms Ho) as Hms. rewrite (scores_size ms (mo_nodup _ Hms)) in Hd.
  unfold zsetTypeMaybeConvert. destruct o as [zl|zs].
  - destruct Ho as (ps & Hok & Hl & <-). rewrite members_length in Hd. destruct (size_hint >? max_entries).
    + destruct (convert_skl zl ps size_hint 0 rs Hok Hl Hsz) as (zs & l & rs' & -> & Hskl & Hsc & _); [by rewrite Nat.add_0_r|].
      do 2 eexists. split; [done|]. by eapply holds_skl.
    + do 2 eexists. split; [done|]. by eapply holds_lp.
  - destruct Ho as (l & Hok & <-). do 2 eexists. split; [done|]. by eapply holds_skl.
Qed.

Lemma compact_holds o m maxelelen totelelen rs :
  holds o m → map_Forall (λ e _, zlen e ≤ maxelelen) m →
  ∃ o' rs', zsetConvertToListpackIfNeeded strtod fpconv_dtoa hash cr max_entries max_value o maxelelen totelelen rs = Some (o', rs') ∧
    holds o' m.
Proof.
  intros [(ms & Ho & <-) Hv] Hmax. destruct o as [zl|zs]; cbn [zsetConvertToListpackIfNeeded].
  - destruct Ho as (ps & Hok & Hl & <-). do 2 eexists. split; [done|]. by eapply holds_lp.
  - destruct Ho as (l & Hok & <-). unfold lpSafeToAdd. cbn [mbind option_bind].
    rewrite (wf_length _ _ (ok_wf _ _ (zo_zsl _ _ _ _ _ Hok))).
    destruct (Z.leb_spec (zlen l) max_entries) as [Hl|]; [|do 2 eexists; split; [done|by eapply holds_skl]].
    destruct (Z.leb_spec maxelelen max_value) as [Hm|]; [|do 2 eexists; split; [done|by eapply holds_skl]].
    destruct (negb _); [|do 2 eexists; split; [done|by eapply holds_skl]]. cbn [andb].
    unfold zsetConvert. cbn [zsetLength mbind option_bind].
    destruct (convert_lp zs l (zsl_length (zs_zsl zs)) rs Hok) as (zl & ps & -> & Hok' & Hl' & Hsc); [|done|].
    + apply Forall_forall. intros it Hit. apply list_elem_of_split in Hit as (a & b & ->).
      destruct (items_mid a it b (zo_nodup _ _ _ _ _ Hok)) as [Hs _].
      assert (Hlk : scores (member <$> a ++ it :: b) !! it_ele it = Some (norm (it_score it))) by (rewrite Hs; by rewrite lookup_insert_eq).
      destruct (Hv _ _ Hlk) as [Hval [Hb _]]. specialize (Hmax _ _ Hlk). cbn in Hmax. split_and!; [by apply norm_valid|done|lia].
    + do 2 eexists. split; [done|]. by eapply holds_lp.
Qed.

(** ** Adding *)

(** The whole of [zsetAdd] on the map, the check for NaN included. *)
Definition zset_add m (score : spec_float) (ele : sds) (o : add_options) : gmap sds spec_float * add_result :=
  if isnan score then (m, AddResult 0 ZADD_OUT_NAN None) else zadd m score ele o.

Lemma zadd_valid m score (ele : sds) o :
  map_ok m → valid score → ele_ok ele →
  map_ok (zadd m score ele o).1.
Proof.
  intros Hm Hs He. unfold zadd. destruct (m !! ele) as [cur|] eqn:Hcur.
  - destruct (Hm _ _ Hcur) as [Hc _]. assert (valid (if o_incr o then dadd score cur else score)) by (destruct (o_incr o); [by apply dadd_valid|done]).
    cbv zeta. set (new := if o_incr o then _ else _) in *.
    repeat (case_match; [done|]). by apply valid_insert.
  - case_match; cbn [fst]; [done|]. by apply valid_insert.
Qed.

(** The answer of the listpack block: the listpack goes on, or the object is
    converted and the skiplist adds. *)
Lemma add_zl zl ps score (ele : sds) o rs :
  pairs_ok strtod max_value zl ps → zlen ps ≤ max_entries → valid score → isnan score = false → ele_ok ele →
  draws (S (length ps)) rs →
  ∃ r, zsetAdd_listpack strtod fpconv_dtoa hash cr max_entries max_value zl score ele o rs = Some r ∧
    match r with
    | inl (ZobjListpack zl', ar, _) => ∃ ps', pairs_ok strtod max_value zl' ps' ∧ zlen ps' ≤ max_entries ∧
        zadd (scores (ps_members strtod ps)) score ele o = (scores (ps_members strtod ps'), norm_result ar)
    | inr (ZobjSkiplist zs, rs') => ∃ l, skl_ok hash zs l ∧ scores (member <$> l) = scores (ps_members strtod ps) ∧
        length l = length ps ∧ is_Some (zslRandomLevel rs')
    | _ => False
    end.
Proof.
  intros Hok Hl Hv Hn [Hb He0] Hd. unfold zsetAdd_listpack.
  destruct (zl_find zl ps ele Hok He0) as [(a & t & b & -> & -> & Hs & Hdel)|(Hnew & -> & Hs)]; cbn [mbind option_bind].
  - rewrite (zadd_found _ _ _ _ _ Hs). destruct (o_nx o); [eexists; split; [done|]; by eexists|].
    set (cur := read_score strtod t). set (new := if o_incr o then dadd score cur else score).
    assert (Hnan : o_incr o && isnan new = isnan new) by (unfold new; destruct (o_incr o); [done|by rewrite Hn]).
    rewrite Hnan. destruct (isnan new) eqn:Hnn; [eexists; split; [done|]; by eexists|].
    destruct (_ || _); [eexists; split; [done|]; by eexists|].
    destruct (SFeqb new cur); cbn [negb]; [eexists; split; [done|]; by eexists|].
    assert (Hcur : valid cur ∧ zlen ele ≤ max_value).
    { destruct Hok as [_ _ Hval Hsm]. rewrite ps_members_mid, Forall_app, Forall_cons in Hval. rewrite Forall_app, Forall_cons in Hsm.
      split; [apply Hval|apply Hsm]. }
    destruct (zl_delete zl a ele t b Hok) as (zl1 & -> & Hok1). cbn [mbind option_bind].
    assert (Hlen : length (a ++ (ele, t) :: b) = S (length (a ++ b))) by (rewrite !length_app; cbn [length]; lia).
    destruct (zl_insert zl1 (a ++ b) ele new Hok1) as (zl2 & ps' & -> & Hok2 & Hl2 & Hs2); [lia| |done| |done|apply Hcur|].
    { unfold new. destruct (o_incr o); [by apply dadd_valid; [|apply Hcur]|done]. }
    { pose proof (mo_nodup _ (po_members _ _ _ _ Hok)) as Hnd. rewrite ps_members_mid, fmap_app in Hnd. rewrite members_app, fmap_app.
      cbn [fmap list_fmap fst] in Hnd. rewrite <- Permutation_middle in Hnd. by apply NoDup_cons in Hnd as [? _]. }
    cbn [mbind option_bind]. eexists; split; [done|]. cbn. exists ps'. split_and!; [done|lia|]. rewrite Hs2, Hdel. f_equal.
    by rewrite insert_delete_eq.
  - unfold zadd. rewrite Hs. destruct (o_xx o); cbn [negb]; [eexists; split; [done|]; by eexists|].
    destruct (zl_length zl ps Hok Hl) as (zl1 & -> & Hok1). cbn [mbind option_bind].
    assert (Hsafe : ∃ safe, lpSafeToAdd (Some zl1) (zlen ele) = Some safe).
    { destruct (po_rep _ _ _ _ Hok1) as [(_ & Ht & n & slack & _ & ->) _]. unfold lpSafeToAdd. rewrite image_total by done.
      cbn [mbind option_bind]. by eexists. }
    destruct Hsafe as [safe ->]. cbn [mbind option_bind]. pose proof entries_small. rewrite wrapu_small by lia.
    destruct (Z.gtb_spec (zlen ps + 1) max_entries) as [|Hle]; [|destruct (Z.gtb_spec (zlen ele) max_value) as [|Hve]; [|destruct safe]].
    3:{ cbn [orb negb]. destruct (zl_insert zl1 ps ele score Hok1) as (zl2 & ps' & -> & Hok2 & Hl2 & Hs2); [lia|done..|lia|].
        cbn [mbind option_bind]. eexists; split; [done|]. cbn. exists ps'. split_and!; [done|lia|]. by rewrite Hs2. }
    all: cbn [orb negb zsetLength]; destruct (zl_length zl1 ps Hok1 Hl) as (zl2 & -> & Hok2); cbn [mbind option_bind];
      destruct (convert_skl zl2 ps (u64 (zlen ps + 1)) 1 rs Hok2 Hl) as (zs & l & rs' & -> & Hskl & Hsc & Hll & lv & rs2 & Hlv & _);
      [apply wrapu_range; lia|by rewrite Nat.add_1_r|]; cbn [mbind option_bind]; eexists; (split; [done|]); cbn; exists l; by split_and!.
Qed.

Lemma add_holds o m score (ele : sds) in_flags rs :
  holds o m → valid score → ele_ok ele → Z.of_nat (size m) + 1 < 2 ^ 60 → draws (S (size m)) rs →
  ∃ o' r rs', zsetAdd strtod fpconv_dtoa hash cr max_entries max_value o score ele in_flags rs = Some (o', r, rs') ∧
    holds o' (zset_add m score ele (options_of in_flags)).1 ∧
    (zset_add m score ele (options_of in_flags)).2 = norm_result r.
Proof.
  intros Ho Hs He Hsz Hd. unfold zsetAdd, zset_add. destruct (isnan score) eqn:Hn; [by do 3 eexists|].
  destruct Ho as [(ms & Ho & <-) Hv]. pose proof (obj_ok o ms Ho) as Hms. rewrite (scores_size ms (mo_nodup _ Hms)) in *.
  pose proof (zadd_valid _ score ele (options_of in_flags) Hv Hs He) as Hv'.
  destruct o as [zl|zs].
  - destruct Ho as (ps & Hok & Hl & <-). rewrite members_length in *.
    destruct (add_zl zl ps score ele (options_of in_flags) rs Hok Hl Hs Hn He Hd) as (r & -> & Hr). cbn [mbind option_bind].
    destruct r as [[[[zl'|] ar] rs']|[[|zs] rs']]; try done.
    + destruct Hr as (ps' & Hok' & Hl' & Hz). rewrite Hz in *. do 3 eexists. split; [done|]. split; [by eapply holds_lp|done].
    + destruct Hr as (l & Hskl & Hsc & Hll & Hlv).
      destruct (add_skl hash cr Hhash zs l score ele (options_of in_flags) rs' Hskl (proj2 He) Hn Hlv) as (zs' & l' & r & rs2 & -> & Hok' & Hz); [lia|].
      cbn [mbind option_bind]. rewrite <- Hsc in *. rewrite Hz in *. do 3 eexists. split; [done|]. split; [by eapply holds_skl|done].
  - destruct Ho as (l & Hok & <-). cbn [mbind option_bind]. rewrite length_fmap in *.
    destruct (add_skl hash cr Hhash zs l score ele (options_of in_flags) rs Hok (proj2 He) Hn) as (zs' & l' & r & rs2 & -> & Hok' & Hz);
      [destruct Hd as (lv & rs' & -> & _); by eexists|lia|].
    cbn [mbind option_bind]. rewrite Hz in *. do 3 eexists. split; [done|]. split; [by eapply holds_skl|done].
Qed.

(** ** Ranks *)

Lemma compare_pair zl ps i (e : sds) t (ele : sds) :
  zl_rep zl ps → ps !! i = Some (e, t) → short ele → lpCompare zl (ept ps i) ele = Some (bool_decide (e = ele)).
Proof.
  unfold short. intros Hrep Hi He0. destruct (weave_lookup ps i e t Hi) as [He _].
  pose proof (compare_strings zl (weave ps) (2 * i) ele Hrep (lookup_lt_Some _ _ _ He) ltac:(lia)) as Hc. unfold ept. rewrite Hc.
  f_equal. apply bool_decide_ext. transitivity (Some e = Some ele); [|naive_solver]. by rewrite <- He.
Qed.

Lemma rank_loop_spec zl ps (ele : sds) : zl_rep zl ps → zlen ps < 2 ^ 32 → short ele → ∀ fuel i,
  (i ≤ length ps)%nat → (length ps - i ≤ fuel)%nat → Forall (λ p : sds * list Z, p.1 ≠ ele) (take i ps) →
  rank_loop fuel zl ele (pair_cur ps i) (Z.of_nat i + 1) = Some ((λ r : nat * (sds * list Z), (Z.of_nat r.1 + 1, spt ps r.1)) <$> pair_of ele ps).
Proof.
  intros Hrep Hlen He0. assert (Hend : Forall (λ p : sds * list Z, p.1 ≠ ele) ps → pair_of ele ps = None).
  { intros Hno. unfold pair_of. by apply list_find_None. }
  induction fuel as [|fuel IH]; intros i Hi Hf Hno.
  { assert (i = length ps) as -> by lia. rewrite firstn_all in Hno. rewrite Hend by done. unfold pair_cur. by rewrite decide_False by lia. }
  unfold pair_cur. destruct (decide (i < length ps)%nat) as [Hlt|].
  2:{ assert (i = length ps) as -> by lia. rewrite firstn_all in Hno. by rewrite Hend. }
  destruct (lookup_lt_is_Some_2 ps i Hlt) as [[e t] He]. cbn [rank_loop]. rewrite (compare_pair zl ps i e t ele Hrep He He0).
  cbn [mbind option_bind]. destruct (decide (e = ele)) as [->|Hne].
  - rewrite bool_decide_eq_true_2 by done. assert (pair_of ele ps = Some (i, (ele, t))) as ->; [|done].
    unfold pair_of. apply list_find_Some. split_and!; [done|done|]. intros j y Hj Hji. rewrite Forall_forall in Hno.
    apply Hno. apply (list_elem_of_lookup_2 _ j). by rewrite lookup_take_lt.
  - rewrite bool_decide_eq_false_2 by done. rewrite (next_pair zl ps i Hrep Hlt). cbn [mbind option_bind]. rewrite wrapu_small by lia.
    replace (Z.of_nat i + 1 + 1) with (Z.of_nat (S i) + 1) by lia. apply IH; [lia|lia|].
    rewrite (take_S_r _ _ _ He). apply Forall_app. split; [done|]. by apply Forall_singleton.
Qed.

Lemma rank_holds o m ele reverse :
  holds o m → m ≠ ∅ → short ele →
  ∃ o' s, zsetRank strtod hash cr o ele reverse = Some (o', rank_result (size m) reverse (zrank m ele), s) ∧ holds o' m ∧
    norm <$> s = m !! ele.
Proof.
  intros Ho Hne He0. pose proof Ho as Ho0. destruct (length_holds o m Ho0) as (o' & Hl & Ho'). unfold zsetRank. rewrite Hl.
  cbn [mbind option_bind]. clear Ho Ho0 Hl o. destruct Ho' as [(ms & Ho & <-) Hv]. pose proof (obj_ok o' ms Ho) as Hms.
  rewrite (scores_size ms (mo_nodup _ Hms)). destruct o' as [zl|zs].
  - destruct Ho as (ps & Hok & Hlim & <-). pose proof (po_rep _ _ _ _ Hok) as Hrep. pose proof entries_small. rewrite members_length.
    assert (Hpos : (0 < length ps)%nat) by (destruct ps; [done|cbn; lia]).
    rewrite (seek_first zl ps Hrep). unfold ecur. rewrite decide_True by done. cbn [mbind option_bind not_null].
    rewrite (next_e zl ps Hrep) by done. cbn [mbind option_bind not_null].
    pose proof (rank_loop_spec zl ps ele Hrep ltac:(lia) He0 (length zl) 0 ltac:(lia)) as Hloop. unfold pair_cur in Hloop.
    rewrite decide_True in Hloop by done. change (Z.of_nat 0 + 1) with 1 in Hloop.
    rewrite Hloop by (constructor || (pose proof (zl_fuel zl ps Hrep); lia)). cbn [mbind option_bind].
    destruct (zl_find zl ps ele Hok He0) as [(a & t & b & -> & Hfind & Hs & _)|(Hno & Hfind & Hs)];
      rewrite (find_pairs strtod zl _ Hrep) in Hfind by (unfold short in He0; lia).
    + destruct (pair_of ele _) as [[i [e' t']]|] eqn:Hpo; [|done].
      unfold pair_of in Hpo. apply list_find_Some in Hpo as (Hi & He & _). cbn in He. subst e'.
      pose proof (mo_nodup _ Hms) as Hnd. rewrite members_fst in Hnd.
      assert (i = length a) as ->.
      { eapply (NoDup_lookup _ _ _ ele Hnd); apply list_lookup_fmap_Some; [by exists (ele, t')|]. exists (ele, t). split; [done|]. by apply list_lookup_middle. }
      assert (t' = t) as -> by (pose proof (list_lookup_middle a b (ele, t) (length a) eq_refl) as Hm; unfold sds in *; congruence).
      cbn [fmap option_fmap option_map fst]. rewrite (score_at strtod zl _ (length a) ele t Hrep) by (by apply list_lookup_middle).
      cbn [mbind option_bind]. exists (ZobjListpack zl), (Some (read_score strtod t)). split_and!; [|by eapply holds_lp|by rewrite Hs].
      rewrite ps_members_mid in Hms |- *. rewrite (zrank_spec _ _ _ _ Hms), members_length. cbn [rank_result].
      rewrite length_app in *. cbn [length] in *. do 3 f_equal.
      destruct reverse; rewrite wrapu_small by lia; rewrite wraps_small by (unfold sfits; lia); lia.
    + destruct (pair_of ele ps); [done|]. exists (ZobjListpack zl), None. split_and!; [|by eapply holds_lp|by rewrite Hs].
      by rewrite zrank_none.
  - destruct Ho as (l & Hok & <-). destruct (rank_skl hash cr Hhash zs l ele reverse Hok He0) as (zs' & s & -> & Hok' & Hs).
    cbn [mbind option_bind]. rewrite length_fmap. do 2 eexists. split_and!; [done|by eapply holds_skl|done].
Qed.

Lemma create_holds size_hint val_len_hint :
  0 ≤ size_hint → ∃ o, zsetTypeCreate max_entries max_value size_hint val_len_hint = Some o ∧ holds o ∅.
Proof.
  intros Hs. unfold zsetTypeCreate. destruct (_ && _).
  - unfold createZsetListpackObject. destruct (lpNew_rep 0) as (zl & -> & Hrep & _). cbn [mbind option_bind]. eexists. split; [done|].
    apply (holds_lp _ []); [|apply lim_entries|done|done]. split; [by split; [|constructor]|split; constructor|constructor|constructor].
  - unfold createZsetObject. cbn [zs_dict zs_zsl]. destruct (expanded_empty size_hint Hs) as (d & ok & -> & Hskl). cbn [mbind option_bind].
    eexists. split; [done|]. by apply (holds_skl _ []).
Qed.

(** ** Sequences of calls *)

(** A call of the API; those that may insert come with the random numbers that
    they draw. *)
Inductive zset_op :=
  | ZScore (member : sds)
  | ZAdd (score : spec_float) (ele : sds) (in_flags : Z) (rs : list Z)
  | ZDel (ele : sds)
  | ZLength
  | ZRank (ele : sds) (reverse : bool)
  | ZHint (size_hint : Z) (rs : list Z)
  | ZCompact (maxelelen totelelen : Z).
Inductive zset_out :=
  | OutScore (s : option spec_float)
  | OutAdd (r : add_result)
  | OutInt (z : Z)
  | OutRank (rank : Z) (s : option spec_float)
  | OutNone.
Definition norm_out (out : zset_out) : zset_out :=
  match out with
  | OutScore s => OutScore (norm <$> s)
  | OutAdd r => OutAdd (norm_result r)
  | OutRank z s => OutRank z (norm <$> s)
  | _ => out
  end.

Definition zset_do (op : zset_op) (o : zobject) : option (zobject * zset_out) :=
  match op with
  | ZScore e => '(o, s) ← zsetScore strtod hash cr o e; Some (o, OutScore s)
  | ZAdd score ele in_flags rs =>
      '(o, r, _) ← zsetAdd strtod fpconv_dtoa hash cr max_entries max_value o score ele in_flags rs; Some (o, OutAdd r)
  | ZDel e => '(o, r) ← zsetDel strtod hash cr o e; Some (o, OutInt r)
  | ZLength => '(o, n) ← zsetLength o; Some (o, OutInt n)
  | ZRank e reverse => '(o, r, s) ← zsetRank strtod hash cr o e reverse; Some (o, OutRank r s)
  | ZHint n rs => '(o, _) ← zsetTypeMaybeConvert strtod fpconv_dtoa hash cr max_entries o n rs; Some (o, OutNone)
  | ZCompact maxl totl =>
      '(o, _) ← zsetConvertToListpackIfNeeded strtod fpconv_dtoa hash cr max_entries max_value o maxl totl []; Some (o, OutNone)
  end.

(** The same call on the map of scores. *)
Definition zset_spec (op : zset_op) m : gmap sds spec_float * zset_out :=
  match op with
  | ZScore e => (m, OutScore (m !! e))
  | ZAdd score ele in_flags _ => let '(m', r) := zset_add m score ele (options_of in_flags) in (m', OutAdd r)
  | ZDel e => (delete e m, OutInt (if decide (is_Some (m !! e)) then 1 else 0))
  | ZLength => (m, OutInt (Z.of_nat (size m)))
  | ZRank e reverse => (m, OutRank (rank_result (size m) reverse (zrank m e)) (m !! e))
  | ZHint _ _ | ZCompact _ _ => (m, OutNone)
  end.

(** What the callers see to: scores are doubles, elements are strings of bytes
    shorter than 2^31, a set is not empty when it is asked for a rank,
    [maxelelen] bounds the elements. *)
Definition zset_pre (op : zset_op) m : Prop :=
  match op with
  | ZScore e | ZDel e => short e
  | ZAdd score ele _ rs => valid score ∧ ele_ok ele ∧ Z.of_nat (size m) + 1 < 2 ^ 60 ∧ draws (S (size m)) rs
  | ZRank e _ => m ≠ ∅ ∧ short e
  | ZHint n rs => 0 ≤ n ∧ draws (size m) rs
  | ZCompact maxl _ => map_Forall (λ e _, zlen e ≤ maxl) m
  | _ => True
  end.

Lemma zset_step op o m :
  holds o m → zset_pre op m →
  ∃ o' out, zset_do op o = Some (o', out) ∧ holds o' (zset_spec op m).1 ∧ norm_out out = (zset_spec op m).2.
Proof.
  intros Ho Hpre. destruct op as [e|score ele fl rs|e| |e rev|n rs|maxl totl]; cbn [zset_do zset_spec zset_pre] in *.
  - destruct (score_holds o m e Ho Hpre) as (o' & s & -> & ? & Hs). do 2 eexists. split; [done|]. split; [done|]. cbn. by rewrite Hs.
  - destruct Hpre as (? & ? & ? & ?).
    destruct (add_holds o m score ele fl rs) as (o' & r & rs' & -> & ? & Hr); [done..|]. do 2 eexists. split; [done|].
    destruct (zset_add _ _ _ _) as [m' r'] eqn:E. cbn [fst snd] in *. split; [done|]. cbn. by rewrite Hr.
  - destruct (del_holds o m e Ho Hpre) as (o' & -> & ?). by do 2 eexists.
  - destruct (length_holds o m Ho) as (o' & -> & ?). by do 2 eexists.
  - destruct (rank_holds o m e rev Ho (proj1 Hpre) (proj2 Hpre)) as (o' & s & -> & ? & Hs). do 2 eexists. split; [done|]. split; [done|]. cbn. by rewrite Hs.
  - destruct Hpre. destruct (hint_holds o m n rs) as (o' & rs' & -> & ?); [done..|]. by do 2 eexists.
  - destruct (compact_holds o m maxl totl [] Ho Hpre) as (o' & rs' & -> & ?). by do 2 eexists.
Qed.

Fixpoint zset_run (ops : list zset_op) (o : zobject) : option (zobject * list zset_out) :=
  match ops with
  | [] => Some (o, [])
  | op :: ops => '(o, out) ← zset_do op o; '(o, outs) ← zset_run ops o; Some (o, out :: outs)
  end.
Fixpoint spec_run (ops : list zset_op) m : gmap sds spec_float * list zset_out :=
  match ops with
  | [] => (m, [])
  | op :: ops => let '(m, out) := zset_spec op m in let '(m, outs) := spec_run ops m in (m, out :: outs)
  end.
Fixpoint ops_pre (ops : list zset_op) m : Prop :=
  match ops with [] => True | op :: ops => zset_pre op m ∧ ops_pre ops (zset_spec op m).1 end.

Lemma run_holds ops : ∀ o m,
  holds o m → ops_pre ops m →
  ∃ o' outs, zset_run ops o = Some (o', outs) ∧ holds o' (spec_run ops m).1 ∧ norm_out <$> outs = (spec_run ops m).2.
Proof.
  induction ops as [|op ops IH]; intros o m Ho Hpre; [by exists o, []|]. destruct Hpre as [Hpre Hrest].
  destruct (zset_step op o m Ho Hpre) as (o1 & out & Hdo & Ho1 & Hout).
  destruct (IH o1 _ Ho1 Hrest) as (o2 & outs & Hrun & Ho2 & Houts). cbn [zset_run spec_run]. rewrite Hdo. cbn [mbind option_bind].
  rewrite Hrun. cbn [mbind option_bind]. destruct (zset_spec op m) as [m1 out1] eqn:E1. cbn [fst snd] in *.
  destruct (spec_run ops m1) as [m2 outs2] eqn:E2. exists o2, (out :: outs). split_and!; [done|done|].
  cbn [fmap list_fmap snd] in *. by rewrite Hout, Houts.
Qed.

(** C37.  A sorted set refines a finite map from elements to scores.  For
    every sequence of calls of the API on a new object (ZSCORE, ZADD with all
    its options, ZREM, ZCARD, ZRANK in both directions, and the conversions
    that a size hint or a compaction asks for), the code answers, and answers
    what the map answers (a zero's sign apart): whichever of the two encodings
    the object has at each call, and however often it is converted between
    them.  At the end the object holds exactly the map of the specification,
    sorted, in a listpack only within the limits of the configuration.  The
    elements are shorter than 2^31 bytes, the lengths that the [int] of
    [dictSdsKeyCompare] holds: for longer ones the code compares wrongly
    ([key_compare_long]); there are fewer than 2^60 of them; and the limits of
    the configuration are such that a full listpack stays below 2^32 bytes
    ([Limits]). *)
Theorem zset_run_refines ops size_hint val_len_hint :
  0 ≤ size_hint → ops_pre ops ∅ →
  ∃ o o' outs, zsetTypeCreate max_entries max_value size_hint val_len_hint = Some o ∧
    zset_run ops o = Some (o', outs) ∧ holds o' (spec_run ops ∅).1 ∧ norm_out <$> outs = (spec_run ops ∅).2.
Proof.
  intros Hs Hpre. destruct (create_holds size_hint val_len_hint Hs) as (o & Hc & Ho).
  destruct (run_holds ops o ∅ Ho Hpre) as (o' & outs & Hrun & ? & ?). by exists o, o', outs.
Qed.
End encodings.

(** ** An example *)

(** The preconditions can be tested. *)
#[local] Instance valid_dec x : Decision (valid x) := ltac:(unfold valid; apply _).
#[local] Instance draws_dec n : ∀ rs, Decision (draws n rs).
Proof.
  induction n as [|n IH]; intros rs; [left; exact I|]. cbn [draws]. destruct (zslRandomLevel rs) as [[lv rs']|].
  - destruct (IH rs') as [Hd|Hd]; [left; by exists lv, rs'|right]. intros (? & ? & [= <- <-] & ?). by apply Hd.
  - right. by intros (? & ? & ? & _).
Defined.
#[local] Instance zset_pre_dec op m : Decision (zset_pre op m) := ltac:(destruct op; unfold zset_pre, ele_ok, short; apply _).
#[local] Instance ops_pre_dec ops : ∀ m, Decision (ops_pre ops m).
Proof. induction ops as [|op ops IH]; intros m; cbn [ops_pre]; apply _. Defined.

#[local] Existing Instance exact_allocator.
#[local] Instance ex_limits : Limits 2 8.
Proof. split; unfold UINT32_MAX; lia. Qed.

Definition ex_rs : list Z := replicate 8 2147483647.
(** The third element turns the listpack into a skiplist, the compaction turns
    it back. *)
Definition ex_ops : list zset_op :=
  [ZAdd two [98] 0 ex_rs; ZAdd one [97] 0 ex_rs; ZRank [98] false; ZAdd one [98] ZADD_IN_INCR ex_rs; ZAdd two [99] 0 ex_rs;
   ZRank [98] true; ZDel [97]; ZHint 1 ex_rs; ZCompact 1 2; ZScore [99]; ZLength].

Lemma zset_run_witness :
  ∃ o zl outs, zsetTypeCreate 2 8 1 1 = Some o ∧
    zset_run ex_strtod ex_dtoa ex_hash DICT_RESIZE_ENABLE 2 8 ex_ops o = Some (ZobjListpack zl, outs) ∧
    holds ex_strtod ex_hash 2 8 (ZobjListpack zl) {[ [98] := three; [99] := two ]} ∧
    norm_out <$> outs =
      [OutAdd (AddResult 1 4 (Some two)); OutAdd (AddResult 1 4 (Some one)); OutRank 1 (Some two);
       OutAdd (AddResult 1 8 (Some three)); OutAdd (AddResult 1 4 (Some two)); OutRank 0 (Some three); OutInt 1;
       OutNone; OutNone; OutScore (Some two); OutInt 2].
Proof.
  destruct (zset_run_refines ex_strtod ex_dtoa ex_hash DICT_RESIZE_ENABLE ex_hash_range 2 8 ex_ops 1 1) as (o & o' & outs & H1 & H2 & H3 & H4).
  - lia.
  - apply (bool_decide_unpack _). by vm_compute.
  - assert (Hlp : match zsetTypeCreate 2 8 1 1 ≫= zset_run ex_strtod ex_dtoa ex_hash DICT_RESIZE_ENABLE 2 8 ex_ops with
      | Some (ZobjListpack _, _) => true | _ => false end = true) by (by vm_compute).
    rewrite H1 in Hlp. cbn [mbind option_bind] in Hlp. rewrite H2 in Hlp. destruct o' as [zl|]; [|done].
    exists o, zl, outs. split_and!; [done|done|..].
    + assert (E : (spec_run ex_ops ∅).1 = {[ [98] := three; [99] := two ]}) by (by vm_compute). by rewrite <- E.
    + rewrite H4. by vm_compute.
Defined.

End ZsetRefine.
