(* ===== verification/SetType.v ===== *)
(** * t_set.c: the set type

    A set object is an intset, a listpack or a hash table and is converted to a
    larger encoding when an element does not fit.  An element is given as a
    string or as an integer.  Strings are copied into the hash table; who owns
    a copy is not modelled, so [str_is_sds] is not an argument. *)

From S2P Require Import Prelude Intset Util Listpack ListpackNav ListpackEdit ListpackBulk.
From S2P Require Import Dict DictIter Zskiplist Zset Zzl.
Import Intset Util Listpack ListpackNav ListpackEdit ListpackBulk.
Import Dict DictIter Zskiplist Zset Zzl.

Module SetType.

Inductive sobject := SobjIntset (iset : intset) | SobjListpack (lp : list Z) | SobjHt (d : dict sds unit).
Inductive sencoding := OBJ_ENCODING_INTSET | OBJ_ENCODING_LISTPACK | OBJ_ENCODING_HT.
(** An element: [str] with [len], or NULL with [llval]. *)
Inductive set_value := VStr (str : sds) | VInt (llval : Z).

(** [hash] is [dictSdsHash]; an sds pointer is always odd. *)
Definition setDictType (hash : sds → Z) : dictType sds unit :=
  DictType sds unit hash None None (Some dictSdsKeyCompare) None true true (λ _, true).

Definition isSdsRepresentableAsLongLong (s : sds) : option Z := string2ll s.

Section model.
Context `{Allocator} (hash : sds → Z) (dict_can_resize : dictResizeEnable).
(** [server.set_max_intset_entries], [server.set_max_listpack_entries] and
    [server.set_max_listpack_value]. *)
Context (set_max_intset_entries set_max_listpack_entries set_max_listpack_value : Z).
#[local] Abbreviation type := (setDictType hash).

Definition createSetObject : dict sds unit := dictCreate.
Definition createIntsetObject : sobject := SobjIntset intsetNew.
Definition createSetListpackObject : option sobject := lp ← lpNew 0; Some (SobjListpack lp).

Definition encoding_of (o : sobject) : sencoding :=
  match o with SobjIntset _ => OBJ_ENCODING_INTSET | SobjListpack _ => OBJ_ENCODING_LISTPACK | SobjHt _ => OBJ_ENCODING_HT end.
#[export] Instance sencoding_eq_dec : EqDecision sencoding.
Proof. solve_decision. Defined.

(** [lpLength] may write the count it finds into the header. *)
Definition setTypeSize (o : sobject) : option (sobject * Z) :=
  match o with
  | SobjHt d => Some (o, dictSize d)
  | SobjIntset iset => Some (o, intsetLen iset)
  | SobjListpack lp => '(lp, n) ← lpLength lp; Some (SobjListpack lp, n)
  end.

Definition setTypeCreate (value : sds) (size_hint : Z) : option sobject :=
  if bool_decide (is_Some (isSdsRepresentableAsLongLong value)) && (size_hint <=? set_max_intset_entries)
  then Some createIntsetObject
  else if size_hint <=? set_max_listpack_entries then createSetListpackObject
  else '(d, _) ← dictExpand createSetObject size_hint; Some (SobjHt d).

(** ** Iteration *)

Inductive setTypeIterator := SiHt (di : dictIterator sds unit) | SiIntset (ii : Z) | SiListpack (lpi : option Z).

Definition setTypeInitIterator (subject : sobject) : setTypeIterator :=
  match subject with
  | SobjHt _ => SiHt dictInitIterator
  | SobjIntset _ => SiIntset 0
  | SobjListpack _ => SiListpack None
  end.
(** The next element, [None] for the return value -1. *)
Definition setTypeNext (subject : sobject) (si : setTypeIterator) : option (setTypeIterator * option set_value) :=
  match subject, si with
  | SobjHt d, SiHt di =>
      '(_, di, de) ← dictNext d di;
      Some (SiHt di, match de with Some de => Some (VStr (e_key de)) | None => None end)
  | SobjIntset iset, SiIntset ii =>
      v ← intsetGet iset ii;
      Some (SiIntset (ii + 1), match v with Some v => Some (VInt v) | None => None end)
  | SobjListpack lp, SiListpack lpi =>
      lpi' ← match lpi with None => lpFirst lp | Some p => lpNext lp p end;
      match lpi' with
      | None => Some (SiListpack lpi, None)
      | Some p =>
          v ← lpGetValue lp p;
          v ← match v with inl (vstr, vlen) => VStr <$> load lp vstr vlen | inr vlong => Some (VInt vlong) end;
          Some (SiListpack (Some p), Some v)
      end
  | _, _ => None
  end.
Definition setTypeNextObject (subject : sobject) (si : setTypeIterator) : option (setTypeIterator * option sds) :=
  '(si, v) ← setTypeNext subject si;
  match v with
  | None => Some (si, None)
  | Some (VStr str) => Some (si, Some str)
  | Some (VInt intele) => s ← sdsfromlonglong intele; Some (si, Some s)
  end.

(** Elements that a whole iteration may return, at most. *)
Definition iter_fuel (o : sobject) : nat :=
  match o with
  | SobjHt d => S (Z.to_nat (dictSize d))
  | SobjIntset iset => S (Z.to_nat (intsetLen iset))
  | SobjListpack lp => S (length lp)
  end.

(** ** Conversions *)

(** [while ((element = setTypeNextObject(si)) != NULL)] *)
Fixpoint to_ht (fuel : nat) (o : sobject) (si : setTypeIterator) (d : dict sds unit) : option (dict sds unit) :=
  match fuel with
  | O => None
  | S fuel =>
      '(si, element) ← setTypeNextObject o si;
      match element with
      | None => Some d
      | Some element =>
          '(d, ok) ← dictAdd type dict_can_resize d element tt;
          _ ← assert ok;
          to_ht fuel o si d
      end
  end.
(** [while (setTypeNext(si, &str, &len, &llele) != -1)] *)
Fixpoint set_to_listpack (fuel : nat) (o : sobject) (si : setTypeIterator) (lp : list Z) : option (list Z) :=
  match fuel with
  | O => None
  | S fuel =>
      '(si, v) ← setTypeNext o si;
      match v with
      | None => Some lp
      | Some (VStr str) => lp ← lpAppend lp str; lp ← lp; set_to_listpack fuel o si lp
      | Some (VInt llele) => lp ← lpAppendInteger lp llele; lp ← lp; set_to_listpack fuel o si lp
      end
  end.

(** The result is [C_OK] as [true]; [calloc_ok] is false when the presized
    table cannot be allocated. *)
Definition setTypeConvertAndExpand (o : sobject) (enc : sencoding) (cap : Z) (panic calloc_ok : bool)
    : option (sobject * bool) :=
  _ ← assert (negb (bool_decide (encoding_of o = enc)));
  match enc with
  | OBJ_ENCODING_HT =>
      '(d, ok) ← (if panic then '(d, _) ← dictExpand createSetObject cap; Some (d, true)
                  else dictTryExpand createSetObject cap calloc_ok);
      if negb ok then Some (o, false)
      else
        d ← to_ht (iter_fuel o) o (setTypeInitIterator o) d;
        Some (SobjHt d, true)
  | OBJ_ENCODING_LISTPACK =>
      let estcap := u64 (cap * 2) in
      estcap ← match o with
               | SobjIntset iset =>
                   if intsetLen iset >? 0 then
                     min ← intsetMin iset;
                     max ← intsetMax iset;
                     Some (Z.max (lpEstimateBytesRepeatedInteger min cap) (lpEstimateBytesRepeatedInteger max cap))
                   else Some estcap
               | _ => Some estcap
               end;
      lp ← lpNew estcap;
      lp ← set_to_listpack (iter_fuel o) o (setTypeInitIterator o) lp;
      Some (SobjListpack lp, true)
  | OBJ_ENCODING_INTSET => None
  end.
Definition setTypeConvert (o : sobject) (enc : sencoding) : option sobject :=
  '(o, n) ← setTypeSize o; '(o, _) ← setTypeConvertAndExpand o enc n true true; Some o.

Definition setTypeMaybeConvert (o : sobject) (size_hint : Z) : option sobject :=
  let convert := '(o, _) ← setTypeConvertAndExpand o OBJ_ENCODING_HT size_hint true true; Some o in
  match o with
  | SobjListpack _ => if size_hint >? set_max_listpack_entries then convert else Some o
  | SobjIntset _ => if size_hint >? set_max_intset_entries then convert else Some o
  | SobjHt _ => Some o
  end.

Definition intsetMaxEntries : Z :=
  let max_entries := set_max_intset_entries in
  if max_entries >=? Z.shiftl 1 30 then Z.shiftl 1 30 else max_entries.
Definition maybeConvertIntset (o : sobject) : option sobject :=
  match o with
  | SobjIntset iset => if intsetLen iset >? intsetMaxEntries then setTypeConvert o OBJ_ENCODING_HT else Some o
  | _ => None
  end.

(** The loop of [maybeConvertToIntset]. *)
Fixpoint to_intset (fuel : nat) (o : sobject) (si : setTypeIterator) (iset : intset) : option intset :=
  match fuel with
  | O => None
  | S fuel =>
      '(si, v) ← setTypeNext o si;
      match v with
      | None => Some iset
      | Some v =>
          llval ← match v with VStr str => string2ll str | VInt llval => Some llval end;
          '(iset, success) ← intsetAdd iset llval;
          _ ← assert success;
          to_intset fuel o si iset
      end
  end.
Definition maybeConvertToIntset (o : sobject) : option sobject :=
  match o with
  | SobjIntset _ => Some o
  | _ =>
      '(o, n) ← setTypeSize o;
      if n >? intsetMaxEntries then Some o
      else iset ← to_intset (iter_fuel o) o (setTypeInitIterator o) intsetNew; Some (SobjIntset iset)
  end.

(** ** Adding, removing, membership *)

Definition value_string (v : set_value) : option sds :=
  match v with VStr str => Some str | VInt llval => ll_text LONG_STR_SIZE llval end.

(** The listpack case: [lp] does not hold [str]. *)
Definition add_to_listpack (lp : list Z) (v : set_value) (str : sds) : option sobject :=
  '(lp, n) ← lpLength lp;
  safe ← (if (n <? set_max_listpack_entries) && (zlen str <=? set_max_listpack_value)
          then lpSafeToAdd (Some lp) (zlen str) else Some false);
  if (safe : bool) then
    lp ← match v with VInt llval => lpAppendInteger lp llval | VStr _ => lpAppend lp str end;
    lp ← lp;
    Some (SobjListpack lp)
  else
    '(lp, n) ← lpLength lp;
    '(o, _) ← setTypeConvertAndExpand (SobjListpack lp) OBJ_ENCODING_HT (u64 (n + 1)) true true;
    match o with
    | SobjHt d => '(d, ok) ← dictAdd type dict_can_resize d str tt; _ ← assert ok; Some (SobjHt d)
    | _ => None
    end.

(** The intset case: [str] is not an integer. *)
Definition add_to_intset (iset : intset) (str : sds) : option sobject :=
  let n := intsetLen iset in
  '(maxelelen, totsize) ←
    (if negb (n =? 0) then
       max ← intsetMax iset;
       min ← intsetMin iset;
       Some (Z.max (sdigits10 max) (sdigits10 min),
             Z.max (lpEstimateBytesRepeatedInteger max n) (lpEstimateBytesRepeatedInteger min n))
     else Some (0, 0));
  safe ← (if (n <? set_max_listpack_entries) && (zlen str <=? set_max_listpack_value) && (maxelelen <=? set_max_listpack_value)
          then lpSafeToAdd None (u64 (totsize + zlen str)) else Some false);
  if (safe : bool) then
    '(o, _) ← setTypeConvertAndExpand (SobjIntset iset) OBJ_ENCODING_LISTPACK (u64 (n + 1)) true true;
    match o with
    | SobjListpack lp =>
        lp ← lpAppend lp str;
        lp ← lp;
        lp ← lpShrinkToFit lp;
        Some (SobjListpack lp)
    | _ => None
    end
  else
    '(o, _) ← setTypeConvertAndExpand (SobjIntset iset) OBJ_ENCODING_HT (u64 (n + 1)) true true;
    match o with
    | SobjHt d => '(d, ok) ← dictAdd type dict_can_resize d str tt; _ ← assert ok; Some (SobjHt d)
    | _ => None
    end.

(** [intsetAdd], and the conversion when the set has grown. *)
Definition add_integer (iset : intset) (value : Z) : option (sobject * bool) :=
  '(iset, success) ← intsetAdd iset value;
  o ← (if (success : bool) then maybeConvertIntset (SobjIntset iset) else Some (SobjIntset iset));
  Some (o, success).

Definition setTypeAddAux (o : sobject) (v : set_value) : option (sobject * bool) :=
  match o, v with
  | SobjIntset iset, VInt llval => add_integer iset llval
  | _, _ =>
      str ← value_string v;
      match o with
      | SobjHt d =>
          '(d, position) ← dictFindPositionForInsert type dict_can_resize d str;
          match position with
          | inl position => '(d, _) ← dictInsertAtPosition type d str position; Some (SobjHt d, true)
          | inr _ => Some (SobjHt d, false)
          end
      | SobjListpack lp =>
          p ← lpFirst lp;
          p ← match p with Some p => lpFind lp p str 0 | None => Some None end;
          match p with
          | None => o ← add_to_listpack lp v str; Some (o, true)
          | Some _ => Some (o, false)
          end
      | SobjIntset iset =>
          match string2ll str with
          | Some value => add_integer iset value
          | None => o ← add_to_intset iset str; Some (o, true)
          end
      end
  end.
Definition setTypeAdd (o : sobject) (value : sds) : option (sobject * bool) := setTypeAddAux o (VStr value).

Definition setTypeRemoveAux (o : sobject) (v : set_value) : option (sobject * bool) :=
  match o, v with
  | SobjIntset iset, VInt llval => '(iset, success) ← intsetRemove iset llval; Some (SobjIntset iset, success)
  | _, _ =>
      str ← value_string v;
      match o with
      | SobjHt d =>
          '(d, deleted) ← dictDelete type dict_can_resize d str;
          '(d, _) ← (if deleted && htNeedsResize d then dictResize dict_can_resize d else Some (d, false));
          Some (SobjHt d, deleted)
      | SobjListpack lp =>
          p ← lpFirst lp;
          match p with
          | None => Some (o, false)
          | Some p =>
              p ← lpFind lp p str 0;
              match p with
              | Some p => r ← lpDelete lp p false; '(lp, _) ← r; Some (SobjListpack lp, true)
              | None => Some (o, false)
              end
          end
      | SobjIntset iset =>
          match string2ll str with
          | Some llval => '(iset, success) ← intsetRemove iset llval; Some (SobjIntset iset, success)
          | None => Some (o, false)
          end
      end
  end.
Definition setTypeRemove (o : sobject) (value : sds) : option (sobject * bool) := setTypeRemoveAux o (VStr value).

Definition setTypeIsMemberAux (o : sobject) (v : set_value) : option (sobject * bool) :=
  match o, v with
  | SobjIntset iset, VInt llval => r ← intsetFind iset llval; Some (o, r)
  | _, _ =>
      str ← value_string v;
      match o with
      | SobjListpack lp =>
          p ← lpFirst lp;
          p ← match p with Some p => lpFind lp p str 0 | None => Some None end;
          Some (o, bool_decide (is_Some p))
      | SobjIntset iset =>
          r ← match string2ll str with Some llval => intsetFind iset llval | None => Some false end; Some (o, r)
      | SobjHt d => '(d, de) ← dictFind type dict_can_resize d str; Some (SobjHt d, bool_decide (is_Some de))
      end
  end.
Definition setTypeIsMember (o : sobject) (value : sds) : option (sobject * bool) := setTypeIsMemberAux o (VStr value).

(** ** Copying *)

(** [while (setTypeNext(...) != -1) setTypeAdd(set, str)] *)
Fixpoint dup_ht (fuel : nat) (o : sobject) (si : setTypeIterator) (set : sobject) : option sobject :=
  match fuel with
  | O => None
  | S fuel =>
      '(si, v) ← setTypeNext o si;
      match v with
      | None => Some set
      | Some (VStr str) => '(set, _) ← setTypeAdd set str; dup_ht fuel o si set
      | Some (VInt _) => None
      end
  end.
Definition setTypeDup (o : sobject) : option sobject :=
  match o with
  | SobjIntset iset =>
      bs ← load (is_contents iset) 0 (intsetBlobLen iset - sizeof_intset);
      Some (SobjIntset (mk_intset (is_encoding iset) (is_length iset) bs))
  | SobjListpack lp =>
      sz ← lpBytes lp;
      let new_lp := fresh (usable (Z.to_nat sz)) in
      bs ← load lp 0 sz;
      new_lp ← store new_lp 0 bs;
      Some (SobjListpack new_lp)
  | SobjHt d =>
      '(d', _) ← dictExpand createSetObject (dictSize d);
      dup_ht (iter_fuel o) o (setTypeInitIterator o) (SobjHt d')
  end.
End model.

End SetType.
