(* ===== verification/SetRefine.v ===== *)
(** * t_set.c: a set object is a finite set of strings

    The three encodings implement the same operations on a finite set, and the
    conversions between them keep the set. *)

From S2P Require Import Prelude Intset Util Listpack ListpackNav ListpackEdit ListpackBulk.
From S2P Require Import Dict DictInv DictExt DictOps DictIter Zskiplist Zset Zzl ZzlOps SetType.
Import Intset Util Listpack ListpackNav ListpackEdit ListpackBulk.
Import Dict DictInv DictExt DictOps DictIter Zskiplist Zset Zzl ZzlOps SetType.

Module SetRefine.

(** The limits of the configuration: an intset of this many elements, and its
    copy in a listpack, stay below 32 bits (see [intsetMoveTail_overflow]). *)
Class SetLimits (max_intset max_listpack max_value : Z) := {
  sl_intset : 0 ≤ max_intset < 2 ^ 28;
  sl_listpack : 0 ≤ max_listpack;
  sl_value : 0 ≤ max_value;
}.

Lemma lp_size_prefix xs ys : lp_size xs ≤ lp_size (xs ++ ys).
Proof. unfold lp_size, total, pos. rewrite fmap_app, cat_app, length_app. lia. Qed.

Section sets.
Context `{Allocator} (hash : sds → Z) (cr : dictResizeEnable) (Hhash : ∀ k, 0 ≤ hash k < 2 ^ 64).
Context (max_intset max_listpack max_value : Z) `{!SetLimits max_intset max_listpack max_value}.
#[local] Abbreviation type := (setDictType hash).
Implicit Type (X : gset sds) (d : dict sds unit) (ss : list (list Z)).

(** ** The hash table *)

#[local] Instance set_type_ok : TypeOn type (@id sds) short.
Proof.
  destruct (zset_type_ok hash Hhash) as [[Hk Hh Hr _ _] Hs]. split; [split; [exact Hk|exact Hh|exact Hr|done|done]|exact Hs].
Qed.

Record ht_holds d X : Prop := {
  hh_ok : dict_ok type id d;
  hh_dom : dom (dict_map id d) = X;
  hh_short : set_Forall short X;
}.

Lemma ht_on d X : ht_holds d X → keys_on (P := short) id d.
Proof.
  intros [_ <- Hk] k p Hp. assert (Hd := Hk k (elem_of_dom_2 _ _ _ Hp)). unfold dict_map, dict_kvs in Hp. apply elem_of_list_to_map_2 in Hp.
  by apply list_elem_of_fmap in Hp as (en & [= -> ->] & _).
Qed.

Lemma ht_keys d X : ht_holds d X → NoDup (e_key <$> dict_entries d) ∧ X = list_to_set (e_key <$> dict_entries d).
Proof.
  intros [Hok <- _]. assert (Hk : (dict_kvs id d).*1 = e_key <$> dict_entries d) by (unfold dict_kvs; by rewrite <- list_fmap_compose).
  rewrite <- Hk. split; [apply Hok|]. unfold dict_map. by rewrite dom_list_to_map_L.
Qed.
Lemma ht_size d X : ht_holds d X → size (dict_map id d) = size X.
Proof. intros [_ <- _]. by rewrite size_dom. Qed.

Lemma ht_add d X e :
  ht_holds d X → short e → Z.of_nat (size X) + 1 < 2 ^ 60 →
  ∃ d', dictAdd type cr d e tt = Some (d', bool_decide (e ∉ X)) ∧ ht_holds d' ({[e]} ∪ X).
Proof.
  intros Hh He0 Hsz. pose proof (ht_size d X Hh) as Hs. pose proof (ht_on d X Hh) as Hon. destruct Hh as [Hok Hd Hks].
  assert (Hks' : set_Forall short ({[e]} ∪ X)) by (apply set_Forall_union; [by apply set_Forall_singleton|done]).
  destruct (on_add_spec type id cr d e tt Hok Hon He0) as (d' & Ha & Hok' & Hm & _); [lia|]. exists d'. unfold map_add in Ha, Hm. change (id e) with e in *.
  assert (Hin : e ∈ X ↔ is_Some (dict_map id d !! e)) by (by rewrite <- Hd, elem_of_dom).
  destruct (dict_map id d !! e) as [x|] eqn:He; cbn [fst snd] in *.
  - assert (e ∈ X) by (apply Hin; by eexists). rewrite bool_decide_eq_false_2 by naive_solver. split; [done|]. split; [done| |done]. rewrite Hm, Hd. set_solver.
  - assert (e ∉ X) by (intros ?%Hin%is_Some_None; done). rewrite bool_decide_eq_true_2 by done. split; [done|]. split; [done| |done].
    rewrite Hm, dom_insert_L, Hd. done.
Qed.

(** The two steps of [setTypeAddAux] are [dictAdd]. *)
Lemma position_add d e :
  ('(d, position) ← dictFindPositionForInsert type cr d e;
   match position with
   | inl position => '(d, _) ← dictInsertAtPosition type d e position; Some (SobjHt d, true)
   | inr _ => Some (SobjHt d, false)
   end) = '(d, ok) ← dictAdd type cr d e tt; Some (SobjHt d, ok).
Proof.
  unfold dictAdd, dictAddRaw. destruct (dictFindPositionForInsert type cr d e) as [[d1 [pos|old]]|]; cbn [mbind option_bind]; [|done|done].
  change (keyDup type) with (@None (sds → sds)). cbv iota. destruct (dictInsertAtPosition type d1 e pos) as [[d2 p]|]; done.
Qed.

Lemma ht_delete d X e :
  ht_holds d X → short e →
  ∃ d', ('(d, deleted) ← dictDelete type cr d e;
         '(d, _) ← (if deleted && htNeedsResize d then dictResize cr d else Some (d, false));
         Some (SobjHt d, deleted)) = Some (SobjHt d', bool_decide (e ∈ X)) ∧ ht_holds d' (X ∖ {[e]}).
Proof.
  intros Hh He0. pose proof (ht_on d X Hh) as Hon. destruct Hh as [Hok Hd Hks].
  unfold dictDelete. destruct (on_delete_spec type id cr d e Hok Hon He0) as (d1 & he & -> & Hok1 & _ & Hm & Hhe).
  cbn [mbind option_bind]. change (id e) with e in *.
  assert (Hb : match he with Some _ => true | None => false end = bool_decide (e ∈ X)).
  { rewrite <- Hd. destruct he; symmetry; [apply bool_decide_eq_true_2|apply bool_decide_eq_false_2]; rewrite elem_of_dom, <- Hhe; [by eexists|by intros []]. }
  rewrite Hb. assert (Hh1 : ht_holds d1 (X ∖ {[e]})) by (split; [done|by rewrite Hm, dom_delete_L, Hd|]; intros x [Hx _]%elem_of_difference; by apply Hks).
  destruct (_ && _); [|by exists d1]. destruct (on_resize_spec (P := short) type id cr d1 Hok1) as (d2 & ok & -> & Hsame). cbn [mbind option_bind].
  exists d2. split; [done|]. destruct Hh1 as [_ Hdom ?]. split; [apply Hsame| |done]. by rewrite (same_map type id d1 d2 Hok1 Hsame).
Qed.

Lemma ht_find d X e :
  ht_holds d X → short e →
  ∃ d' de, dictFind type cr d e = Some (d', de) ∧ bool_decide (is_Some de) = bool_decide (e ∈ X) ∧ ht_holds d' X.
Proof.
  intros Hh He0. pose proof (ht_on d X Hh) as Hon. destruct Hh as [Hok Hd Hks].
  destruct (on_find_spec type id cr d e Hok Hon He0) as (d' & de & -> & Hs & Hde). exists d', de. split; [done|].
  assert (Hm : dict_map id d' = dict_map id d) by (by apply (same_map type id)).
  split; [|split; [apply Hs|by rewrite Hm|done]]. apply bool_decide_ext. rewrite <- Hd, <- Hm, elem_of_dom. unfold found in Hde. change (id e) with e in *.
  destruct de as [de|]; [|rewrite Hde; by split; intros []].
  destruct (on_place_lookup (P := short) type id d' e de (sc_ok _ _ _ _ Hs) Hde) as (en & _ & _ & _ & Hk). change (id e) with e in Hk. rewrite Hk.
  by split; eexists.
Qed.

Lemma ht_new cap : 0 ≤ cap → ∃ d ok, dictExpand createSetObject cap = Some (d, ok) ∧ ht_holds d ∅.
Proof.
  intros Hc. destruct (DictInv.create_ok type (@id sds)) as [Hok Hm].
  destruct (on_expand_spec (P := short) type id (createSetObject) cap Hok Hc) as (d & ok & -> & Hs). exists d, ok. split; [done|].
  split; [apply Hs| |apply set_Forall_empty]. rewrite (same_map type id _ _ Hok Hs), Hm. apply dom_empty_L.
Qed.

(** ** Iteration *)

(** An element and the string it stands for. *)
Definition value_is (v : set_value) (s : sds) : Prop :=
  match v with VStr str => str = s | VInt z => sfits 64 z ∧ s = sdec z end.

Lemma value_string_is v s : value_is v s → value_string v = Some s.
Proof. destruct v as [str|z]; cbn; [by intros ->|]. intros [Hz ->]. by apply ll_text_spec. Qed.

(** The elements that an iterator still returns. *)
Fixpoint yields_from (o : sobject) (si : setTypeIterator) (vs : list set_value) : Prop :=
  match vs with
  | [] => ∃ si', setTypeNext o si = Some (si', None)
  | v :: vs => ∃ si', setTypeNext o si = Some (si', Some v) ∧ yields_from o si' vs
  end.

Lemma iter_intset iset xs :
  intset_rep iset xs → zlen xs ≤ INT32_MAX → ∀ k, (k ≤ length xs)%nat →
  yields_from (SobjIntset iset) (SiIntset (Z.of_nat k)) (VInt <$> drop k xs).
Proof.
  intros Hr Hn k Hk. remember (length xs - k)%nat as n eqn:Hlen. revert k Hk Hlen. induction n as [|n IH]; intros k Hk Hlen.
  - rewrite drop_ge by lia. cbn [fmap list_fmap yields_from]. unfold setTypeNext, intsetGet. rewrite (rep_len _ _ Hr).
    destruct (Z.ltb_spec (Z.of_nat k) (zlen xs)); [lia|]. by eexists.
  - destruct (lookup_lt_is_Some_2 xs k) as [x Hx]; [lia|]. rewrite (drop_S _ _ _ Hx). cbn [fmap list_fmap yields_from].
    unfold setTypeNext, intsetGet. rewrite (rep_len _ _ Hr). destruct (Z.ltb_spec (Z.of_nat k) (zlen xs)); [|lia].
    rewrite (rep_getZ iset xs (Z.of_nat k) x) by (done || lia || (rewrite Nat2Z.id; done)). cbn [fmap option_fmap option_map mbind option_bind].
    eexists. split; [done|]. replace (Z.of_nat k + 1) with (Z.of_nat (S k)) by lia. apply IH; lia.
Qed.

Lemma value_at_string lp ss i s :
  lp_strings lp ss → ss !! i = Some s →
  ∃ v, (v ← lpGetValue lp (pos (take i (lp_encode <$> ss)));
        match v with inl (vstr, vlen) => VStr <$> load lp vstr vlen | inr vlong => Some (VInt vlong) end) = Some v ∧ value_is v s.
Proof.
  intros Hst Hi. destruct (get_stored lp ss Hst i s Hi) as (r & size & Hg & Hr & _).
  unfold lpGetValue, lpGet. rewrite Hg. cbn [fmap option_fmap option_map fst mbind option_bind].
  destruct Hr as [v Hv ->|off Hl Hn]; [by exists (VInt v)|]. rewrite wrapu_small.
  - cbn [mbind option_bind]. rewrite Hl. by exists (VStr s).
  - pose proof (proj2 Hst) as Hf. eapply Forall_lookup_1 in Hf as [_ Hlen]; [|exact Hi]. lia.
Qed.

Lemma iter_listpack lp ss :
  lp_strings lp ss → ∀ k, (k ≤ length ss)%nat → ∃ vs,
  yields_from (SobjListpack lp) (SiListpack (match k with O => None | S j => Some (pos (take j (lp_encode <$> ss))) end)) vs ∧
  Forall2 value_is vs (drop k ss).
Proof.
  intros Hst k Hk. destruct (traversal_rep _ _ (proj1 Hst)) as (Hfirst & _ & Hnext & _).
  remember (length ss - k)%nat as n eqn:Hlen. revert k Hk Hlen. induction n as [|n IH]; intros k Hk Hlen.
  all: assert (Hcur : match (match k with O => None | S j => Some (pos (take j (lp_encode <$> ss))) end) with
    | None => lpFirst lp | Some p => lpNext lp p end = Some (at_ (lp_encode <$> ss) k))
    by (destruct k; [done|apply Hnext; rewrite length_fmap; lia]).
  - rewrite drop_ge by lia. exists []. split; [|constructor]. cbn [yields_from setTypeNext]. rewrite Hcur. cbn [mbind option_bind].
    unfold at_. rewrite length_fmap, decide_False by lia. by eexists.
  - destruct (lookup_lt_is_Some_2 ss k) as [s Hs]; [lia|]. destruct (value_at_string lp ss k s Hst Hs) as (v & Hv & Hvs).
    destruct (IH (S k)) as (vs & Hy & Hf); [lia|lia|]. exists (v :: vs). rewrite (drop_S _ _ _ Hs). split; [|by constructor].
    cbn [yields_from setTypeNext]. rewrite Hcur. cbn [mbind option_bind]. unfold at_. rewrite length_fmap, decide_True by lia.
    destruct (lpGetValue lp (pos (take k (lp_encode <$> ss)))) as [w|]; [|done]. cbn [mbind option_bind] in Hv |- *. rewrite Hv.
    cbn [mbind option_bind]. by eexists.
Qed.

Lemma iter_ht d X es di :
  ht_holds d X → iter_ok d di → it_safe di = false → rest_of d di = es →
  yields_from (SobjHt d) (SiHt di) ((VStr ∘ e_key) <$> es).
Proof.
  intros [Hok%(ok_ideal type id) _ _]. revert di. induction es as [|e es IH]; intros di Hio Hs Hr.
  all: destruct (dictNext_spec (ideal type id) id d di Hok Hio) as (di' & Hn & Hr' & Hio' & Hs' & _); rewrite Hr in Hn, Hr'.
  all: cbn [fmap list_fmap yields_from setTypeNext]; rewrite Hn; cbn [mbind option_bind].
  - by eexists.
  - eexists. split; [done|]. apply IH; [done|by rewrite Hs'|done].
Qed.

(** ** Conversions *)

Lemma next_object v s (si : setTypeIterator) :
  value_is v s →
  match Some v return option (setTypeIterator * option sds) with
  | None => Some (si, None)
  | Some (VStr str) => Some (si, Some str)
  | Some (VInt intele) => s ← sdsfromlonglong intele; Some (si, Some s)
  end = Some (si, Some s).
Proof. destruct v as [str|z]; cbn; [by intros ->|]. intros [Hz ->]. unfold sdsfromlonglong. by rewrite ll_text_spec. Qed.

Lemma to_ht_spec o vs : ∀ ss fuel si d X,
  Forall2 value_is vs ss → yields_from o si vs → (length vs < fuel)%nat → ht_holds d X → NoDup ss → Forall short ss →
  (∀ s, s ∈ ss → s ∉ X) → Z.of_nat (size X) + zlen ss < 2 ^ 60 →
  ∃ d', to_ht hash cr fuel o si d = Some d' ∧ ht_holds d' (list_to_set ss ∪ X).
Proof.
  induction vs as [|v vs IH]; intros ss fuel si d X Hvs Hy Hf Hh Hnd Hks Hdis Hsz; destruct fuel as [|fuel]; try (cbn in Hf; lia);
    cbn [yields_from] in Hy; cbn [to_ht]; unfold setTypeNextObject.
  - apply Forall2_nil_inv_l in Hvs as ->. destruct Hy as [si' ->]. cbn [mbind option_bind]. exists d. split; [done|].
    by replace (list_to_set [] ∪ X) with X by set_solver.
  - apply Forall2_cons_inv_l in Hvs as (s & ss' & Hv & Hvs & ->). destruct Hy as (si' & -> & Hy). cbn [mbind option_bind].
    rewrite (next_object v s si' Hv).
    cbn [mbind option_bind]. apply NoDup_cons in Hnd as [Hs Hnd]. apply Forall_cons in Hks as [Hks1 Hks]. cbn [length] in *.
    destruct (ht_add d X s Hh Hks1) as (d1 & -> & Hh1); [lia|]. cbn [mbind option_bind]. rewrite bool_decide_eq_true_2 by (apply Hdis; by left).
    cbn [assert mbind option_bind]. destruct (IH ss' fuel si' d1 ({[s]} ∪ X) Hvs Hy) as (d' & -> & Hh'); [lia|done|done|done| | |].
    + intros s' Hs' [->%elem_of_singleton|Hx]%elem_of_union; [done|]. by apply (Hdis s'); [by right|].
    + rewrite size_union, size_singleton; [lia|]. assert (s ∉ X) by (apply Hdis; by left). set_solver.
    + exists d'. split; [done|]. by replace (list_to_set (s :: ss') ∪ X) with (list_to_set ss' ∪ ({[s]} ∪ X)) by (cbn; set_solver).
Qed.

(** An iteration over the object returns the elements of the set, each once. *)
Definition iterable (o : sobject) X : Prop :=
  ∃ vs ss, yields_from o (setTypeInitIterator o) vs ∧ Forall2 value_is vs ss ∧ NoDup ss ∧ X = list_to_set ss ∧
    (length vs < iter_fuel o)%nat.

Lemma rep_fits64 iset xs : intset_rep iset xs → Forall (sfits 64) xs.
Proof.
  intros [He _ _ Hf _]. pose proof (enc_range _ He). eapply Forall_impl; [exact Hf|]. intros x. change 64 with (8 * 8). apply sfits_mono; lia.
Qed.
Lemma sdec_nodup xs : Forall (sfits 64) xs → NoDup xs → NoDup (sdec <$> xs).
Proof.
  intros Hf Hnd. rewrite Forall_forall in Hf. apply NoDup_fmap_2_strong; [|done]. intros x y Hx Hy. apply sdec_inj; by apply Hf.
Qed.

Lemma intset_iterable iset xs :
  intset_rep iset xs → zlen xs ≤ INT32_MAX → iterable (SobjIntset iset) (list_to_set (sdec <$> xs)).
Proof.
  intros Hr Hn. pose proof (rep_fits64 iset xs Hr) as Hf. exists (VInt <$> xs), (sdec <$> xs). split_and!.
  - exact (iter_intset iset xs Hr Hn 0 ltac:(lia)).
  - rewrite Forall2_fmap. eapply Forall_Forall2_diag. eapply Forall_impl; [exact Hf|]. done.
  - apply sdec_nodup; [done|]. apply sorted_NoDup, Hr.
  - done.
  - cbn [iter_fuel]. unfold intsetLen. rewrite (rep_len _ _ Hr), length_fmap. lia.
Qed.

Lemma listpack_iterable lp ss : lp_strings lp ss → NoDup ss → iterable (SobjListpack lp) (list_to_set ss).
Proof.
  intros Hst Hnd. destruct (iter_listpack lp ss Hst 0 ltac:(lia)) as (vs & Hy & Hf). exists vs, ss. split_and!; [done|done|done|done|].
  cbn [iter_fuel]. rewrite (Forall2_length _ _ _ Hf), length_drop.
  destruct Hst as [(Hes & Ht & n & slack & Hn & Elp) _]. destruct (count_bounds n _ slack Hes Ht) as [_ Hc]. rewrite <- Elp, length_fmap in Hc. unfold sds in *. lia.
Qed.

Lemma ht_iterable d X : ht_holds d X → iterable (SobjHt d) X.
Proof.
  intros Hh. destruct (ht_keys d X Hh) as [Hnd HX]. exists ((VStr ∘ e_key) <$> dict_entries d), (e_key <$> dict_entries d). split_and!.
  - apply (iter_ht d X (dict_entries d)); [done|by split|done|exact (rest_init d false)].
  - rewrite Forall2_fmap. apply Forall_Forall2_diag. by apply Forall_forall.
  - done.
  - done.
  - cbn [iter_fuel]. rewrite length_fmap, (dictSize_entries (ideal type id) id d (proj2 (ok_ideal type id d) (hh_ok _ _ Hh))). lia.
Qed.

Lemma iterable_size o X : iterable o X → ∃ ss, size X = length ss ∧ NoDup ss ∧ X = list_to_set ss.
Proof. intros (vs & ss & _ & _ & Hnd & -> & _). exists ss. split_and!; [|done|done]. by apply size_list_to_set. Qed.

Lemma convert_ht o X cap calloc_ok :
  iterable o X → set_Forall short X → encoding_of o ≠ OBJ_ENCODING_HT → 0 ≤ cap → Z.of_nat (size X) < 2 ^ 60 →
  ∃ d, setTypeConvertAndExpand hash cr o OBJ_ENCODING_HT cap true calloc_ok = Some (SobjHt d, true) ∧ ht_holds d X.
Proof.
  intros (vs & ss & Hy & Hvs & Hnd & -> & Hf) Hks Henc Hcap Hsz. apply set_Forall_list_to_set in Hks. unfold setTypeConvertAndExpand. rewrite bool_decide_eq_false_2 by done.
  cbn [negb assert mbind option_bind]. destruct (ht_new cap Hcap) as (d & ok & -> & Hh). cbn [mbind option_bind negb].
  rewrite size_list_to_set in Hsz by done.
  destruct (to_ht_spec o vs ss (iter_fuel o) (setTypeInitIterator o) d ∅ Hvs Hy Hf Hh Hnd Hks) as (d' & -> & Hh'); [set_solver|by rewrite size_empty|].
  cbn [mbind option_bind]. exists d'. split; [done|]. by replace (list_to_set ss) with (list_to_set ss ∪ (∅ : gset sds)) by set_solver.
Qed.

Lemma set_to_listpack_spec o vs : ∀ ss fuel si lp xs,
  Forall2 value_is vs ss → yields_from o si vs → (length vs < fuel)%nat → lp_strings lp xs → Forall str_ok ss →
  lp_size (xs ++ ss) ≤ UINT32_MAX →
  ∃ lp', set_to_listpack fuel o si lp = Some lp' ∧ lp_strings lp' (xs ++ ss).
Proof.
  induction vs as [|v vs IH]; intros ss fuel si lp xs Hvs Hy Hf Hst Hok Hsz; destruct fuel as [|fuel]; try (cbn in Hf; lia);
    cbn [yields_from] in Hy; cbn [set_to_listpack].
  - apply Forall2_nil_inv_l in Hvs as ->. destruct Hy as [si' ->]. cbn [mbind option_bind]. exists lp. by rewrite app_nil_r.
  - apply Forall2_cons_inv_l in Hvs as (s & ss' & Hv & Hvs & ->). destruct Hy as (si' & -> & Hy). cbn [mbind option_bind].
    apply Forall_cons in Hok as [Hs Hok]. set (a := match v with VStr str => AStr str | VInt z => AInt z end).
    assert (Ha : arg_ok a ∧ arg_string a = s).
    { destruct v as [str|z]; cbn in Hv |- *; [subst|by destruct Hv as [? ->]]. split; [|done]. destruct Hs. split; [done|ilia]. }
    assert (Hsz1 : lp_size (xs ++ [s]) ≤ UINT32_MAX).
    { etransitivity; [|exact Hsz]. replace (xs ++ s :: ss') with ((xs ++ [s]) ++ ss') by (by rewrite <- app_assoc). apply lp_size_prefix. }
    destruct (append_fits lp xs a Hst (proj1 Ha)) as (lp1 & Happ & Hst1); [by rewrite (proj2 Ha)|]. rewrite (proj2 Ha) in Hst1.
    destruct (IH ss' fuel si' lp1 (xs ++ [s]) Hvs Hy) as (lp' & Hrun & Hst'); [cbn in Hf; lia|done|done|by rewrite <- app_assoc|].
    exists lp'. rewrite <- app_assoc in Hst'. split; [|done].
    destruct v as [str|z]; cbn [a lpAppendArg] in Happ; rewrite Happ; cbn [mbind option_bind]; exact Hrun.
Qed.

Lemma lp_encode_int v : sfits 64 v → lp_encode (sdec v) = lpEncodeIntegerGetType v.
Proof.
  intros Hv. destruct (lp_encode_cases (sdec v)) as [(w & Hw & Heq & _ & ->)|(Hn & _)]; [|by rewrite string2ll_complete in Hn].
  apply sdec_inj in Heq as ->; done.
Qed.
Lemma int_entry_size v : sfits 64 v → zlen (entry (lp_encode (sdec v))) ≤ 10.
Proof.
  intros Hv. rewrite (lp_encode_int v Hv). destruct (enc_int_valid v Hv) as [_ Hl]. unfold entry. rewrite length_app. unfold lpEncodeBacklen.
  destruct (Z.leb_spec (zlen (lpEncodeIntegerGetType v)) 127); [cbn [length]; lia|lia].
Qed.
Lemma ints_size xs : Forall (sfits 64) xs → lp_size (sdec <$> xs) ≤ 7 + 10 * zlen xs.
Proof.
  intros Hf. unfold lp_size, total, pos. change LP_HDR_SIZE with 6. induction Hf as [|x xs Hx _ IH]; [cbn; lia|].
  cbn [fmap list_fmap]. rewrite cat_cons, length_app. pose proof (int_entry_size x Hx). cbn [length]. lia.
Qed.
Lemma lp_size_snoc xs s : lp_size (xs ++ [s]) = lp_size xs + zlen (entry (lp_encode s)).
Proof. unfold lp_size, total, pos. rewrite fmap_app, cat_app, length_app. cbn [fmap list_fmap]. rewrite cat_cons, length_app. cbn. lia. Qed.

Lemma sdec_str_ok v : sfits 64 v → str_ok (sdec v).
Proof. intros Hv. pose proof (sdec_pos_length v Hv). split; [apply sdec_bytes|lia]. Qed.

Lemma min_max iset xs :
  intset_rep iset xs → 0 < zlen xs ≤ INT32_MAX → ∃ a b, intsetMin iset = Some a ∧ intsetMax iset = Some b ∧ sfits 64 a ∧ sfits 64 b.
Proof.
  intros Hr Hn. pose proof (rep_fits64 iset xs Hr) as Hf.
  destruct (lookup_lt_is_Some_2 xs 0) as [a Ha]; [lia|]. destruct (lookup_lt_is_Some_2 xs (length xs - 1)) as [b Hb]; [lia|]. exists a, b.
  unfold intsetMin, intsetMax. rewrite (rep_len _ _ Hr), wrapu_small by ilia.
  rewrite (rep_getZ iset xs 0 a), (rep_getZ iset xs (zlen xs - 1) b); try done; try lia; [|by replace (Z.to_nat (zlen xs - 1)) with (length xs - 1)%nat by lia].
  split_and!; [done|done|by apply (Forall_lookup_1 _ _ _ _ Hf Ha)|by apply (Forall_lookup_1 _ _ _ _ Hf Hb)].
Qed.

Lemma convert_intset_lp iset xs cap :
  intset_rep iset xs → zlen xs ≤ max_intset →
  ∃ lp, setTypeConvertAndExpand hash cr (SobjIntset iset) OBJ_ENCODING_LISTPACK cap true true = Some (SobjListpack lp, true) ∧
    lp_strings lp (sdec <$> xs).
Proof.
  intros Hr Hn. pose proof sl_intset as Hlim. assert (Hi32 : zlen xs ≤ INT32_MAX) by ilia. pose proof (rep_fits64 iset xs Hr) as Hf.
  unfold setTypeConvertAndExpand. cbn [encoding_of]. rewrite bool_decide_eq_false_2 by done. cbn [negb assert mbind option_bind].
  assert (Hest : ∃ est, (if intsetLen iset >? 0 then min ← intsetMin iset; max ← intsetMax iset;
      Some (Z.max (lpEstimateBytesRepeatedInteger min cap) (lpEstimateBytesRepeatedInteger max cap)) else Some (u64 (cap * 2))) = Some est).
  { unfold intsetLen. rewrite (rep_len _ _ Hr). destruct (Z.gtb_spec (zlen xs) 0); [|by eexists].
    destruct (min_max iset xs Hr) as (a & b & -> & -> & _); [lia|]. by eexists. }
  destruct Hest as [est ->]. cbn [mbind option_bind]. destruct (lpNew_rep est) as (lp0 & -> & Hrep0 & _). cbn [mbind option_bind].
  destruct (intset_iterable iset xs Hr Hi32) as (vs & ss & Hy & Hvs & _ & _ & Hfuel).
  destruct (set_to_listpack_spec (SobjIntset iset) (VInt <$> xs) (sdec <$> xs) (iter_fuel (SobjIntset iset)) (SiIntset 0) lp0 []) as (lp & Hrun & Hst).
  - rewrite Forall2_fmap. apply Forall_Forall2_diag. eapply Forall_impl; [exact Hf|]. done.
  - exact (iter_intset iset xs Hr Hi32 0 ltac:(lia)).
  - cbn [iter_fuel]. unfold intsetLen. rewrite (rep_len _ _ Hr), length_fmap. lia.
  - split; [done|constructor].
  - rewrite Forall_fmap. eapply Forall_impl; [exact Hf|]. intros v. apply sdec_str_ok.
  - cbn [app]. pose proof (ints_size xs Hf). ilia.
  - cbn [setTypeInitIterator]. rewrite Hrun. by exists lp.
Qed.

(** ** Objects *)

Definition set_holds (o : sobject) X : Prop :=
  match o with
  | SobjIntset iset => ∃ xs, intset_rep iset xs ∧ zlen xs ≤ max_intset ∧ X = list_to_set (sdec <$> xs)
  | SobjListpack lp => ∃ ss, lp_strings lp ss ∧ NoDup ss ∧ X = list_to_set ss ∧ zlen ss ≤ max_listpack ∧ Forall short ss
  | SobjHt d => ht_holds d X
  end.

Lemma ints_short xs : Forall (sfits 64) xs → Forall short (sdec <$> xs).
Proof. intros Hf. rewrite Forall_fmap. eapply Forall_impl; [exact Hf|]. intros z Hz. pose proof (sdec_pos_length z Hz). unfold compose, short. lia. Qed.
Lemma holds_short o X : set_holds o X → set_Forall short X.
Proof.
  destruct o as [iset|lp|d]; cbn; [intros (xs & Hr & _ & ->)|intros (ss & _ & _ & -> & _ & Hks)|apply hh_short]; apply set_Forall_list_to_set; [|done].
  apply ints_short. by eapply rep_fits64.
Qed.

Lemma holds_iterable o X : set_holds o X → iterable o X.
Proof.
  destruct o as [iset|lp|d]; cbn.
  - intros (xs & Hr & Hn & ->). pose proof sl_intset. apply intset_iterable; [done|ilia].
  - intros (ss & Hst & Hnd & -> & Hlm & Hks). by apply listpack_iterable.
  - apply ht_iterable.
Qed.

(** The strings of an intset. *)
Lemma ints_elem xs z : Forall (sfits 64) xs → sfits 64 z → sdec z ∈ sdec <$> xs ↔ z ∈ xs.
Proof.
  intros Hf Hz. rewrite Forall_forall in Hf. split; [|apply list_elem_of_fmap_2].
  intros (y & Hy & Hin)%list_elem_of_fmap. apply sdec_inj in Hy as ->; [done|done|by apply Hf].
Qed.
Lemma ints_no_string xs s : Forall (sfits 64) xs → string2ll s = None → s ∉ sdec <$> xs.
Proof.
  intros Hf Hs (y & -> & Hin)%list_elem_of_fmap. rewrite Forall_forall in Hf. by rewrite string2ll_complete in Hs by (by apply Hf).
Qed.

Lemma value_int v s : value_is v s →
  match v with VInt z => sfits 64 z ∧ s = sdec z | VStr _ => True end ∧ (∀ z, string2ll s = Some z → sfits 64 z ∧ s = sdec z).
Proof. intros Hv. split; [by destruct v|]. intros z Hz. by apply string2ll_sound. Qed.

Lemma find_lp lp ss str :
  lp_strings lp ss → short str →
  ∃ r, (p ← lpFirst lp; match p with Some p => lpFind lp p str 0 | None => Some None end) =
      Some ((λ i, pos (take i (lp_encode <$> ss))) <$> r) ∧
    match r with Some i => ss !! i = Some str | None => str ∉ ss end.
Proof.
  unfold short. intros Hst He0. destruct (traversal_rep _ _ (proj1 Hst)) as (-> & _). cbn [mbind option_bind]. unfold at_. rewrite length_fmap.
  case_decide as Hl; [|exists None; split; [done|]; destruct ss; [set_solver|cbn in Hl; lia]].
  destruct (find_strings lp ss 0 str 0 Hst Hl) as (r & -> & Hr); [lia..|]. exists r. split; [done|]. destruct r as [j|].
  - by destruct Hr as (m & _ & ? & _).
  - intros (i & Hi)%list_elem_of_lookup. apply (Hr i). by replace (0 + i * S (Z.to_nat 0))%nat with i by lia.
Qed.

Lemma bool_decide_list (s : sds) (ss : list sds) : bool_decide (s ∈ (list_to_set ss : gset sds)) = bool_decide (s ∈ ss).
Proof. apply bool_decide_ext. by rewrite elem_of_list_to_set. Qed.

Lemma member_holds o X v s :
  set_holds o X → value_is v s → short s →
  ∃ o', setTypeIsMemberAux hash cr o v = Some (o', bool_decide (s ∈ X)) ∧ set_holds o' X.
Proof.
  intros Ho Hv He0. pose proof (value_string_is v s Hv) as Hs. destruct (value_int v s Hv) as [Hi Hp]. pose proof sl_intset as Hlim.
  assert (Hfind : ∀ iset xs z, intset_rep iset xs → zlen xs ≤ max_intset → sfits 64 z →
    intsetFind iset z = Some (bool_decide (sdec z ∈ (list_to_set (sdec <$> xs) : gset sds)))).
  { intros iset xs z Hr Hn Hz. rewrite (find_rep iset xs z) by (done || ilia). f_equal. rewrite bool_decide_list. apply bool_decide_ext.
    by rewrite ints_elem by (done || by eapply rep_fits64). }
  destruct o as [iset|lp|d]; cbn [set_holds] in Ho.
  - destruct Ho as (xs & Hr & Hn & ->). exists (SobjIntset iset). split; [|by exists xs]. unfold setTypeIsMemberAux. destruct v as [str|z].
    + cbn in Hv. subst str. cbn [value_string mbind option_bind]. destruct (string2ll s) as [z|] eqn:E.
      * destruct (Hp z eq_refl) as [Hz ->]. by rewrite (Hfind iset xs z Hr Hn Hz).
      * cbn. do 2 f_equal. rewrite bool_decide_list. symmetry. apply bool_decide_eq_false_2.
        apply ints_no_string; [by eapply rep_fits64|done].
    + destruct Hi as [Hz ->]. by rewrite (Hfind iset xs z Hr Hn Hz).
  - destruct Ho as (ss & Hst & Hnd & -> & Hlm & Hks). exists (SobjListpack lp). split; [|by exists ss]. unfold setTypeIsMemberAux. rewrite Hs.
    cbn [mbind option_bind]. destruct (find_lp lp ss s Hst He0) as (r & Hf & Hr). destruct (lpFirst lp) as [p|]; [|done]. cbn [mbind option_bind] in Hf |- *.
    rewrite Hf. cbn [mbind option_bind]. rewrite bool_decide_list. do 2 f_equal. apply bool_decide_ext. destruct r as [i|].
    + split; intros _; [by eapply list_elem_of_lookup_2|by eexists].
    + split; [by intros []|done].
  - destruct (ht_find d X s Ho He0) as (d' & de & Hf & Hb & Hh). exists (SobjHt d'). unfold setTypeIsMemberAux. rewrite Hs. cbn [mbind option_bind].
    rewrite Hf. cbn [mbind option_bind]. by rewrite Hb.
Qed.

Lemma size_holds o X : set_holds o X → ∃ o', setTypeSize o = Some (o', Z.of_nat (size X)) ∧ set_holds o' X.
Proof.
  destruct o as [iset|lp|d]; cbn [set_holds setTypeSize].
  - intros (xs & Hr & Hn & ->). exists (SobjIntset iset). split; [|by exists xs]. unfold intsetLen. rewrite (rep_len _ _ Hr), size_list_to_set, length_fmap; [done|].
    apply sdec_nodup; [by eapply rep_fits64|]. apply sorted_NoDup, Hr.
  - intros (ss & [Hrep Hok] & Hnd & -> & Hlm & Hks). destruct (length_rep lp _ Hrep) as (lp' & -> & Hrep' & _). cbn [mbind option_bind].
    exists (SobjListpack lp'). rewrite length_fmap, size_list_to_set by done. split; [done|]. by exists ss.
  - intros Hh. exists (SobjHt d). split; [|done]. pose proof (ht_size d X Hh) as <-. destruct Hh as [Hok%(ok_ideal type id) _ _].
    by rewrite (dictSize_entries (ideal type id) id d Hok), (entries_map_size (ideal type id) id d Hok).
Qed.

Lemma remove_ints iset xs z :
  intset_rep iset xs → zlen xs ≤ max_intset → sfits 64 z →
  let X := list_to_set (sdec <$> xs) : gset sds in
  ∃ iset', intsetRemove iset z = Some (iset', bool_decide (sdec z ∈ X)) ∧ set_holds (SobjIntset iset') (X ∖ {[sdec z]}).
Proof.
  intros Hr Hn Hz X. pose proof sl_intset as Hlim. pose proof (rep_fits64 iset xs Hr) as Hf.
  destruct (remove_rep iset xs z Hr Hz) as (iset' & ys & -> & Hr' & Hys & _); [lia|]. exists iset'. pose proof (rep_fits64 iset' ys Hr') as Hf'. split.
  - do 2 f_equal. unfold X. rewrite bool_decide_list. apply bool_decide_ext. by rewrite ints_elem.
  - exists ys. split_and!; [done| |].
    + assert (ys ⊆+ xs); [|by apply submseteq_length in H0; lia]. apply NoDup_submseteq; [apply sorted_NoDup, Hr'|]. intros x. rewrite Hys. tauto.
    + apply set_eq. intros s. unfold X. rewrite elem_of_difference, !elem_of_list_to_set, elem_of_singleton. rewrite Forall_forall in Hf, Hf'.
      split.
      * intros [[y [-> Hy]]%list_elem_of_fmap Hne]. apply list_elem_of_fmap. exists y. split; [done|]. apply Hys. split; [congruence|done].
      * intros (y & -> & Hy)%list_elem_of_fmap. pose proof (Hf' y Hy) as Hfy. apply Hys in Hy as [Hne Hy]. split; [by apply list_elem_of_fmap_2|].
        intros Heq. apply Hne. by apply sdec_inj.
Qed.

Lemma remove_holds o X v s :
  set_holds o X → value_is v s → short s →
  ∃ o', setTypeRemoveAux hash cr o v = Some (o', bool_decide (s ∈ X)) ∧ set_holds o' (X ∖ {[s]}).
Proof.
  intros Ho Hv He0. pose proof (value_string_is v s Hv) as Hs. destruct (value_int v s Hv) as [Hi Hp].
  destruct o as [iset|lp|d]; cbn [set_holds] in Ho.
  - destruct Ho as (xs & Hr & Hn & ->). unfold setTypeRemoveAux. destruct v as [str|z].
    + cbn in Hv. subst str. cbn [value_string mbind option_bind]. destruct (string2ll s) as [z|] eqn:E.
      * destruct (Hp z eq_refl) as [Hz ->]. destruct (remove_ints iset xs z Hr Hn Hz) as (iset' & -> & Hh). by exists (SobjIntset iset').
      * pose proof (ints_no_string xs s (rep_fits64 iset xs Hr) E) as Hno. exists (SobjIntset iset). rewrite bool_decide_list, bool_decide_eq_false_2 by done.
        split; [done|]. exists xs. split_and!; [done|done|]. apply set_eq. intros y. rewrite elem_of_difference, elem_of_list_to_set, elem_of_singleton. naive_solver.
    + destruct Hi as [Hz ->]. destruct (remove_ints iset xs z Hr Hn Hz) as (iset' & -> & Hh). by exists (SobjIntset iset').
  - destruct Ho as (ss & Hst & Hnd & -> & Hlm & Hks). unfold setTypeRemoveAux. rewrite Hs. cbn [mbind option_bind].
    destruct (find_lp lp ss s Hst He0) as (r & Hf & Hr). destruct (lpFirst lp) as [[p|]|]; [| |done]; cbn [mbind option_bind] in Hf |- *.
    + rewrite Hf. cbn [mbind option_bind]. rewrite bool_decide_list. destruct r as [i|]; cbn [fmap option_fmap option_map].
      * rewrite bool_decide_eq_true_2 by (by eapply list_elem_of_lookup_2). destruct (delete_rep lp (lp_encode <$> ss) i false (proj1 Hst)) as (lp' & -> & Hrep').
        { rewrite length_fmap. by eapply lookup_lt_Some. }
        cbn [mbind option_bind]. exists (SobjListpack lp'). split; [done|]. exists (take i ss ++ drop (S i) ss).
        rewrite <- fmap_take, <- fmap_drop, <- fmap_app in Hrep'. pose proof (take_drop_middle _ _ _ Hr) as Hmid. rewrite <- Hmid in Hnd.
        assert (Hnd2 : (s ∉ take i ss ++ drop (S i) ss) ∧ NoDup (take i ss ++ drop (S i) ss)) by (rewrite <- Permutation_middle in Hnd; by apply NoDup_cons).
        split_and!; [split; [done|]|apply Hnd2| | |].
        -- destruct Hst as [_ Hok]. apply Forall_app. split; [by apply Forall_take|by apply Forall_drop].
        -- rewrite <- Hmid at 1. rewrite list_to_set_app_L, list_to_set_cons. destruct Hnd2 as [Hni _]. rewrite list_to_set_app_L. set_solver.
        -- rewrite <- Hmid in Hlm. rewrite !length_app in *. cbn [length] in *. unfold sds in *. lia.
        -- apply Forall_app. split; [by apply Forall_take|by apply Forall_drop].
      * rewrite bool_decide_eq_false_2 by done. exists (SobjListpack lp). split; [done|]. exists ss. split_and!; [done|done|set_solver|done|done].
    + injection Hf as Hf. destruct r as [i|]; [done|]. exists (SobjListpack lp). rewrite bool_decide_list, bool_decide_eq_false_2 by done.
      split; [done|]. exists ss. split_and!; [done|done|set_solver|done|done].
  - destruct (ht_delete d X s Ho He0) as (d' & Hd & Hh). exists (SobjHt d'). unfold setTypeRemoveAux. rewrite Hs. cbn [mbind option_bind]. by rewrite Hd.
Qed.

(** ** Adding *)

Lemma bool_decide_not (P : Prop) `{!Decision P} : bool_decide (¬ P) = negb (bool_decide P).
Proof. by destruct (decide P); [rewrite !bool_decide_eq_false_2, bool_decide_eq_true_2 by (done || tauto)|rewrite bool_decide_eq_true_2, bool_decide_eq_false_2]. Qed.

Lemma add_ints iset xs z :
  intset_rep iset xs → zlen xs ≤ max_intset → sfits 64 z →
  let X := list_to_set (sdec <$> xs) : gset sds in
  ∃ o', add_integer hash cr max_intset iset z = Some (o', bool_decide (sdec z ∉ X)) ∧ set_holds o' ({[sdec z]} ∪ X).
Proof.
  intros Hr Hn Hz X. pose proof sl_intset as Hlim. pose proof (rep_fits64 iset xs Hr) as Hf. unfold add_integer.
  destruct (add_rep iset xs z Hr Hz) as (iset' & ys & -> & Hr' & Hys & _); [lia|]. cbn [mbind option_bind].
  pose proof (rep_fits64 iset' ys Hr') as Hf'. pose proof (sorted_NoDup ys (rep_sorted _ _ Hr')) as Hnd'.
  assert (HX : list_to_set (sdec <$> ys) = {[sdec z]} ∪ X).
  { apply set_eq. intros s. unfold X. rewrite elem_of_union, !elem_of_list_to_set, elem_of_singleton, !list_elem_of_fmap. setoid_rewrite Hys. naive_solver. }
  assert (Hb : bool_decide (z ∉ xs) = bool_decide (sdec z ∉ X)).
  { apply bool_decide_ext. unfold X. by rewrite elem_of_list_to_set, ints_elem. }
  rewrite <- Hb, <- HX. case_bool_decide as Hin.
  - assert (Hlen : length ys = S (length xs)).
    { change (S (length xs)) with (length (z :: xs)). apply Permutation_length, NoDup_Permutation; [done| |set_solver].
      apply NoDup_cons. split; [done|]. apply sorted_NoDup, Hr. }
    unfold maybeConvertIntset, intsetMaxEntries. destruct (Z.geb_spec max_intset (Z.shiftl 1 30)) as [Hbig|_]; [change (Z.shiftl 1 30) with (2 ^ 30) in Hbig; lia|].
    unfold intsetLen. rewrite (rep_len _ _ Hr'). destruct (Z.gtb_spec (zlen ys) max_intset) as [Hgt|Hle].
    + unfold setTypeConvert, setTypeSize, intsetLen. cbn [mbind option_bind]. rewrite (rep_len _ _ Hr').
      destruct (convert_ht (SobjIntset iset') (list_to_set (sdec <$> ys)) (zlen ys) true) as (d & -> & Hh).
      * apply intset_iterable; [done|ilia].
      * apply set_Forall_list_to_set. by apply ints_short.
      * done.
      * lia.
      * rewrite size_list_to_set, length_fmap by (by apply sdec_nodup). lia.
      * cbn [mbind option_bind]. by exists (SobjHt d).
    + cbn [mbind option_bind]. exists (SobjIntset iset'). split; [done|]. by exists ys.
  - cbn [mbind option_bind]. exists (SobjIntset iset'). split; [done|]. exists ys. split_and!; [done| |done].
    assert (length ys ≤ length xs)%nat; [|lia]. apply submseteq_length, NoDup_submseteq; [done|]. intros x. rewrite Hys.
    intros [-> | ?]; [|done]. by destruct (decide (z ∈ xs)).
Qed.

(** Converting to a hash table and adding. *)
Lemma convert_add o X s cap :
  iterable o X → set_Forall short X → short s → encoding_of o ≠ OBJ_ENCODING_HT → 0 ≤ cap → Z.of_nat (size X) + 1 < 2 ^ 60 → s ∉ X →
  ∃ d, ('(o, _) ← setTypeConvertAndExpand hash cr o OBJ_ENCODING_HT cap true true;
        match o with
        | SobjHt d => '(d, ok) ← dictAdd type cr d s tt; _ ← assert ok; Some (SobjHt d)
        | _ => None
        end) = Some (SobjHt d) ∧ ht_holds d ({[s]} ∪ X).
Proof.
  intros Hit Hks Hks1 Henc Hcap Hsz Hs. destruct (convert_ht o X cap true Hit Hks Henc Hcap) as (d & -> & Hh); [lia|]. cbn [mbind option_bind].
  destruct (ht_add d X s Hh Hks1 Hsz) as (d' & -> & Hh'). cbn [mbind option_bind]. rewrite bool_decide_eq_true_2 by done. by exists d'.
Qed.

(** Appending to a listpack that is safe to grow. *)
Lemma append_safe lp ss v s :
  lp_strings lp ss → NoDup ss → s ∉ ss → value_is v s → Forall is_byte s → zlen s ≤ 2 ^ 30 → lp_size ss ≤ 3 * 2 ^ 30 - 16 → zlen ss < max_listpack → Forall short ss →
  ∃ lp', (match v with VInt llval => lpAppendInteger lp llval | VStr _ => lpAppend lp s end) = Some (Some lp') ∧
    set_holds (SobjListpack lp') ({[s]} ∪ list_to_set ss).
Proof.
  intros Hst Hnd Hs Hv Hb Hl Hsz Hlm Hks.
  set (a := match v with VStr str => AStr str | VInt z => AInt z end).
  assert (Ha : arg_ok a ∧ arg_string a = s).
  { destruct v as [str|z]; cbn in Hv |- *; [subst|by destruct Hv as [? ->]]. split; [|done]. split; [done|ilia]. }
  destruct (append_fits lp ss a Hst (proj1 Ha)) as (lp' & Happ & Hst').
  { rewrite (proj2 Ha), lp_size_snoc. pose proof (str_entry_size s). ilia. }
  exists lp'. rewrite (proj2 Ha) in Hst'. split.
  - destruct v as [str|z]; cbn [a lpAppendArg] in Happ; [|done]. cbn in Hv. by subst.
  - exists (ss ++ [s]). split_and!; [done| | | |].
    + apply NoDup_app. split_and!; [done|set_solver|by apply NoDup_singleton].
    + rewrite list_to_set_app_L. set_solver.
    + rewrite length_app. cbn [length]. unfold sds in *. lia.
    + apply Forall_app. split; [done|]. apply Forall_singleton. unfold short. lia.
Qed.

Lemma lp_length_small lp ss : lp_strings lp ss → zlen ss < 2 ^ 32.
Proof.
  intros [(Hes & Ht & n & slack & Hn & Elp) _]. destruct (count_bounds n _ slack Hes Ht) as [Hc _]. rewrite length_fmap in Hc. unfold sds in *. ilia.
Qed.

Lemma safe_lp lp ss n :
  lp_strings lp ss → 0 ≤ n < 2 ^ 62 → ∃ safe, lpSafeToAdd (Some lp) n = Some safe ∧ (safe = true → lp_size ss + n ≤ 2 ^ 30).
Proof.
  intros [(_ & Ht & k & slack & _ & ->) _] Hn. unfold lpSafeToAdd. rewrite image_total by done. cbn [mbind option_bind].
  eexists. split; [done|]. pose proof (pos_ge (lp_encode <$> ss)). fold (lp_size ss) in Ht |- *.
  assert (0 ≤ lp_size ss) by (unfold lp_size, total; lia).
  rewrite wrapu_small by ilia. unfold LISTPACK_MAX_SAFETY_SIZE. change (Z.shiftl 1 30) with (2 ^ 30) in *.
  destruct (Z.gtb_spec (lp_size ss + n) (2 ^ 30)); [done|]. intros _. lia.
Qed.

Lemma add_lp lp ss v s :
  lp_strings lp ss → NoDup ss → Forall short ss → s ∉ ss → value_is v s → Forall is_byte s → short s →
  ∃ o', add_to_listpack hash cr max_listpack max_value lp v s = Some o' ∧ set_holds o' ({[s]} ∪ list_to_set ss).
Proof.
  intros Hst Hnd Hks Hs Hv Hb Hl. unfold add_to_listpack. pose proof (lp_length_small lp ss Hst) as Hlen.
  destruct (length_rep lp _ (proj1 Hst)) as (lp1 & -> & Hrep1 & _). cbn [mbind option_bind].
  assert (Hst1 : lp_strings lp1 ss) by (split; [done|apply Hst]).
  assert (Hsafe : ∃ safe : bool, (if (zlen (lp_encode <$> ss) <? max_listpack) && (zlen s <=? max_value) then lpSafeToAdd (Some lp1) (zlen s) else Some false)
      = Some safe ∧ (safe = true → lp_size ss + zlen s ≤ 2 ^ 30 ∧ zlen ss < max_listpack)).
  { rewrite length_fmap. destruct (Z.ltb_spec (zlen ss) max_listpack); [|by exists false]. destruct (zlen s <=? max_value); [|by exists false].
    destruct (safe_lp lp1 ss (zlen s) Hst1) as (safe & ? & ?); [unfold short in Hl; lia|]. exists safe. naive_solver. }
  destruct Hsafe as ([|] & -> & Hsz); cbn [mbind option_bind].
  - destruct (Hsz eq_refl) as [Hsz1 Hcnt]. pose proof (pos_ge (lp_encode <$> ss)). assert (0 ≤ lp_size ss) by (unfold lp_size, total; lia).
    destruct (append_safe lp1 ss v s) as (lp2 & -> & Hh); [done..|lia|lia|done|done|]. cbn [mbind option_bind]. by exists (SobjListpack lp2).
  - destruct (length_rep lp1 _ Hrep1) as (lp2 & -> & Hrep2 & _). cbn [mbind option_bind].
    destruct (convert_add (SobjListpack lp2) (list_to_set ss) s (u64 (zlen (lp_encode <$> ss) + 1))) as (d & -> & Hh).
    + apply listpack_iterable; [split; [done|apply Hst]|done].
    + by apply set_Forall_list_to_set.
    + done.
    + done.
    + apply wrapu_range; lia.
    + rewrite size_list_to_set by done. unfold sds in *. lia.
    + by rewrite elem_of_list_to_set.
    + by exists (SobjHt d).
Qed.

Lemma shrink_strings lp ss : lp_strings lp ss → ∃ lp', lpShrinkToFit lp = Some lp' ∧ lp_strings lp' ss.
Proof.
  intros [(Hes & Ht & n & slack & Hn & ->) Hok]. destruct (shrink_image n _ slack Ht) as [s' ->]. eexists. split; [done|].
  split; [|done]. by apply rep_image.
Qed.

Lemma estimate_range v n : 0 ≤ lpEstimateBytesRepeatedInteger v n < 2 ^ 64.
Proof. apply wrapu_range. lia. Qed.

(** The estimate that the intset case checks. *)
Lemma intset_estimate iset xs :
  intset_rep iset xs → zlen xs ≤ max_intset →
  ∃ maxelelen totsize, (if negb (intsetLen iset =? 0) then
       max ← intsetMax iset;
       min ← intsetMin iset;
       Some (Z.max (sdigits10 max) (sdigits10 min),
             Z.max (lpEstimateBytesRepeatedInteger max (intsetLen iset)) (lpEstimateBytesRepeatedInteger min (intsetLen iset)))
     else Some (0, 0)) = Some (maxelelen, totsize) ∧ 0 ≤ totsize ≤ 7 + 10 * zlen xs.
Proof.
  intros Hr Hn. pose proof sl_intset as Hlim. unfold intsetLen. rewrite (rep_len _ _ Hr).
  destruct (Z.eqb_spec (zlen xs) 0) as [|Hne]; cbn [negb]; [exists 0, 0; split; [done|lia]|].
  destruct (min_max iset xs Hr) as (a & b & -> & -> & Ha & Hb); [ilia|]. cbn [mbind option_bind]. do 2 eexists. split; [done|].
  assert (Hest : ∀ v, sfits 64 v → 0 ≤ lpEstimateBytesRepeatedInteger v (zlen xs) ≤ 7 + 10 * zlen xs).
  { intros v Hv. split; [apply estimate_range|]. rewrite lpEstimate_exact by (done || ilia).
    pose proof (ints_size (replicate (length xs) v)) as Hsz. rewrite length_replicate, fmap_replicate in Hsz. unfold lp_size in Hsz.
    rewrite fmap_replicate, (lp_encode_int v Hv) in Hsz. apply Hsz. by apply Forall_replicate. }
  pose proof (Hest a Ha). pose proof (Hest b Hb). lia.
Qed.

Lemma add_int_string iset xs s :
  intset_rep iset xs → zlen xs ≤ max_intset → string2ll s = None → Forall is_byte s → short s →
  ∃ o', add_to_intset hash cr max_listpack max_value iset s = Some o' ∧ set_holds o' ({[s]} ∪ list_to_set (sdec <$> xs)).
Proof.
  intros Hr Hn Hs Hb Hl0. pose proof Hl0 as Hl. unfold short in Hl. pose proof sl_intset as Hlim. pose proof (rep_fits64 iset xs Hr) as Hf.
  pose proof (ints_no_string xs s Hf Hs) as Hno. pose proof (sdec_nodup xs Hf (sorted_NoDup xs (rep_sorted _ _ Hr))) as Hnd.
  unfold add_to_intset. destruct (intset_estimate iset xs Hr Hn) as (maxl & tot & -> & Htot). cbn [mbind option_bind].
  assert (Hsafe : ∃ safe : bool, (if (intsetLen iset <? max_listpack) && (zlen s <=? max_value) && (maxl <=? max_value)
      then lpSafeToAdd None (u64 (tot + zlen s)) else Some false) = Some safe ∧ (safe = true → zlen s ≤ 2 ^ 30 ∧ zlen xs < max_listpack)).
  { unfold intsetLen. rewrite (rep_len _ _ Hr). destruct (Z.ltb_spec (zlen xs) max_listpack); [|by exists false]. destruct (_ && _); [|by exists false]. unfold lpSafeToAdd. cbn [mbind option_bind]. eexists. split; [done|].
    rewrite Z.add_0_l, (wrapu_small 64 (tot + zlen s)) by ilia. rewrite wrapu_small by ilia. unfold LISTPACK_MAX_SAFETY_SIZE.
    destruct (Z.gtb_spec (tot + zlen s) (Z.shiftl 1 30)) as [|Hle]; [done|]. change (Z.shiftl 1 30) with (2 ^ 30) in Hle. intros _. lia. }
  destruct Hsafe as ([|] & -> & Hsz); cbn [mbind option_bind].
  - destruct (Hsz eq_refl) as [Hsz1 Hcnt]. destruct (convert_intset_lp iset xs (u64 (intsetLen iset + 1)) Hr Hn) as (lp & -> & Hst). cbn [mbind option_bind].
    pose proof (ints_size xs Hf). destruct (append_safe lp (sdec <$> xs) (VStr s) s) as (lp1 & -> & Hh); [done..|lia|by rewrite length_fmap|by apply ints_short|]. cbn [mbind option_bind].
    destruct Hh as (ss & Hst1 & Hnd1 & Hx & Hlm & Hks). destruct (shrink_strings lp1 ss Hst1) as (lp2 & -> & Hst2). cbn [mbind option_bind].
    exists (SobjListpack lp2). split; [done|]. by exists ss.
  - destruct (convert_add (SobjIntset iset) (list_to_set (sdec <$> xs)) s (u64 (intsetLen iset + 1))) as (d & -> & Hh).
    + apply intset_iterable; [done|ilia].
    + apply set_Forall_list_to_set. by apply ints_short.
    + done.
    + done.
    + apply wrapu_range; lia.
    + rewrite size_list_to_set, length_fmap by done. lia.
    + by rewrite elem_of_list_to_set.
    + by exists (SobjHt d).
Qed.

Lemma set_add_holds o X v s :
  set_holds o X → value_is v s → Forall is_byte s → short s → Z.of_nat (size X) + 1 < 2 ^ 60 →
  ∃ o', setTypeAddAux hash cr max_intset max_listpack max_value o v = Some (o', bool_decide (s ∉ X)) ∧ set_holds o' ({[s]} ∪ X).
Proof.
  intros Ho Hv Hb He0 Hsz. pose proof (value_string_is v s Hv) as Hs. destruct (value_int v s Hv) as [Hi Hp]. unfold setTypeAddAux.
  destruct o as [iset|lp|d]; cbn [set_holds] in Ho.
  - destruct Ho as (xs & Hr & Hn & ->). destruct v as [str|z]; [|destruct Hi as [Hz ->]; by apply add_ints]. cbn in Hv. subst str.
    cbn [value_string mbind option_bind]. destruct (string2ll s) as [z|] eqn:E; [destruct (Hp z eq_refl) as [Hz ->]; by apply add_ints|].
    destruct (add_int_string iset xs s Hr Hn E Hb He0) as (o' & -> & Hh). cbn [mbind option_bind]. exists o'. split; [|done].
    do 2 f_equal. symmetry. apply bool_decide_eq_true_2. rewrite elem_of_list_to_set. apply ints_no_string; [by eapply rep_fits64|done].
  - destruct Ho as (ss & Hst & Hnd & -> & Hlm & Hks). rewrite Hs. cbn [mbind option_bind]. destruct (find_lp lp ss s Hst He0) as (r & Hf & Hr).
    destruct (lpFirst lp) as [p|]; [|done]. cbn [mbind option_bind] in Hf |- *. rewrite Hf. cbn [mbind option_bind].
    rewrite bool_decide_not, bool_decide_list. destruct r as [i|]; cbn [fmap option_fmap option_map].
    + rewrite bool_decide_eq_true_2 by (by eapply list_elem_of_lookup_2). exists (SobjListpack lp). split; [done|]. exists ss.
      split_and!; [done|done| |done|done]. apply list_elem_of_lookup_2 in Hr. set_solver.
    + rewrite bool_decide_eq_false_2 by done. destruct (add_lp lp ss v s Hst Hnd Hks Hr Hv Hb He0) as (o' & -> & Hh). by exists o'.
  - rewrite Hs. cbn [mbind option_bind]. rewrite position_add. destruct (ht_add d X s Ho He0 Hsz) as (d' & -> & Hh). by exists (SobjHt d').
Qed.

(** ** Creation, size hints and copies *)

Lemma new_rep : intset_rep intsetNew [].
Proof. split; [by left|done|done|constructor|constructor]. Qed.

Lemma create_set_holds value size_hint :
  0 ≤ size_hint → ∃ o, setTypeCreate max_intset max_listpack value size_hint = Some o ∧ set_holds o ∅.
Proof.
  intros Hs. pose proof sl_intset as Hlim. unfold setTypeCreate. destruct (_ && _).
  - exists createIntsetObject. split; [done|]. exists []. split_and!; [apply new_rep|cbn; lia|done].
  - destruct (_ <=? _).
    + unfold createSetListpackObject. destruct (lpNew_rep 0) as (lp & -> & Hrep & _). exists (SobjListpack lp). split; [done|].
      exists []. split_and!; [by split|constructor|done|exact sl_listpack|constructor].
    + destruct (ht_new size_hint Hs) as (d & ok & -> & Hh). by exists (SobjHt d).
Qed.

Lemma hint_set_holds o X size_hint :
  set_holds o X → 0 ≤ size_hint → Z.of_nat (size X) < 2 ^ 60 →
  ∃ o', setTypeMaybeConvert hash cr max_intset max_listpack o size_hint = Some o' ∧ set_holds o' X.
Proof.
  intros Ho Hs Hsz. pose proof (holds_iterable o X Ho) as Hit. pose proof (holds_short o X Ho) as Hks. unfold setTypeMaybeConvert.
  destruct o as [iset|lp|d]; [destruct (_ >? _)|destruct (_ >? _)|]; [|by eexists| |by eexists|by eexists].
  all: destruct (convert_ht _ X size_hint true Hit) as (d & -> & Hh); [done..|]; by exists (SobjHt d).
Qed.

Lemma to_intset_spec o vs : ∀ zs fuel si iset xs,
  Forall2 value_is vs (sdec <$> zs) → Forall (sfits 64) zs → yields_from o si vs → (length vs < fuel)%nat →
  intset_rep iset xs → NoDup zs → (∀ z, z ∈ zs → z ∉ xs) → zlen xs + zlen zs ≤ max_intset →
  ∃ iset' ys, to_intset fuel o si iset = Some iset' ∧ intset_rep iset' ys ∧ zs ++ xs ≡ₚ ys.
Proof.
  pose proof sl_intset as Hlim.
  induction vs as [|v vs IH]; intros zs fuel si iset xs Hvs Hf Hy Hfu Hr Hnd Hdis Hsz; destruct fuel as [|fuel]; try (cbn in Hfu; lia);
    cbn [yields_from] in Hy; cbn [to_intset].
  - apply Forall2_nil_inv_l in Hvs. apply fmap_nil_inv in Hvs as ->. destruct Hy as [si' ->]. by exists iset, xs.
  - apply Forall2_cons_inv_l in Hvs as (s & ss & Hv & Hvs & E). apply fmap_cons_inv in E as (z & zs' & -> & -> & ->).
    apply Forall_cons in Hf as [Hz Hf]. apply NoDup_cons in Hnd as [Hnz Hnd]. destruct Hy as (si' & -> & Hy). cbn [mbind option_bind].
    assert (match v with VStr str => string2ll str | VInt llval => Some llval end = Some z) as ->.
    { destruct v as [str|w]; cbn in Hv; [subst; by apply string2ll_complete|]. destruct Hv as [Hw Heq]. by apply sdec_inj in Heq as ->. }
    cbn [mbind option_bind]. cbn [length] in *. destruct (add_rep iset xs z Hr Hz) as (iset1 & ys1 & -> & Hr1 & Hys & _); [lia|].
    assert (Hnx : z ∉ xs) by (apply Hdis; by left). rewrite bool_decide_eq_true_2 by done. cbn [mbind option_bind assert].
    assert (Hp1 : z :: xs ≡ₚ ys1).
    { apply NoDup_Permutation; [|by eapply sorted_NoDup, rep_sorted|set_solver]. apply NoDup_cons. split; [done|]. by eapply sorted_NoDup, rep_sorted. }
    pose proof (Permutation_length Hp1) as Hl1. cbn [length] in Hl1.
    destruct (IH zs' fuel si' iset1 ys1) as (iset2 & ys2 & -> & Hr2 & Hp2); [done|done|done|lia|done|done| |lia|].
    + intros w Hw. rewrite Hys. intros [->|Hx]; [done|]. by apply (Hdis w); [right|].
    + exists iset2, ys2. split_and!; [done|done|]. by rewrite <- Hp2, <- Hp1, <- Permutation_middle.
Qed.

Lemma to_intset_holds o X :
  set_holds o X → (∀ s, s ∈ X → is_Some (string2ll s)) →
  ∃ o', maybeConvertToIntset max_intset o = Some o' ∧ set_holds o' X.
Proof.
  intros Ho Hall. pose proof sl_intset as Hlim.
  assert (Hgo : ∃ o', ('(o, n) ← setTypeSize o;
      if n >? intsetMaxEntries max_intset then Some o
      else iset ← to_intset (iter_fuel o) o (setTypeInitIterator o) intsetNew; Some (SobjIntset iset)) = Some o' ∧ set_holds o' X).
  { destruct (size_holds o X Ho) as (o1 & -> & Ho1). cbn [mbind option_bind].
    unfold intsetMaxEntries. destruct (Z.geb_spec max_intset (Z.shiftl 1 30)) as [Hbig|_]; [change (Z.shiftl 1 30) with (2 ^ 30) in Hbig; lia|].
    destruct (Z.gtb_spec (Z.of_nat (size X)) max_intset) as [|Hle]; [by exists o1|].
    destruct (holds_iterable o1 X Ho1) as (vs & ss & Hy & Hvs & Hnd & -> & Hfu). rewrite size_list_to_set in Hle by done.
    assert (Hzs : ∃ zs, ss = sdec <$> zs ∧ Forall (sfits 64) zs).
    { clear -Hall. induction ss as [|s ss IH]; [by exists []|]. destruct IH as (zs & -> & Hf); [set_solver|].
      destruct (Hall s) as [z Hz]; [set_solver|]. apply string2ll_sound in Hz as [Hz ->]. exists (z :: zs). split; [done|by constructor]. }
    destruct Hzs as (zs & -> & Hf). rewrite length_fmap in Hle.
    destruct (to_intset_spec o1 vs zs (iter_fuel o1) (setTypeInitIterator o1) intsetNew [] Hvs Hf Hy Hfu new_rep) as (iset & ys & -> & Hr & Hp);
      [by eapply NoDup_fmap_1|set_solver|cbn; lia|]. rewrite app_nil_r in Hp.
    exists (SobjIntset iset). split; [done|]. exists ys. pose proof (Permutation_length Hp). split_and!; [done|lia|]. by rewrite Hp. }
  destruct o as [iset|lp|d]; [by exists (SobjIntset iset)|exact Hgo|exact Hgo].
Qed.

Lemma dup_ht_spec o vs : ∀ ss fuel si d X,
  vs = VStr <$> ss → yields_from o si vs → (length vs < fuel)%nat → ht_holds d X → Forall short ss → Z.of_nat (size X) + zlen ss < 2 ^ 60 →
  ∃ d', dup_ht hash cr max_intset max_listpack max_value fuel o si (SobjHt d) = Some (SobjHt d') ∧ ht_holds d' (list_to_set ss ∪ X).
Proof.
  induction vs as [|v vs IH]; intros ss fuel si d X Hvs Hy Hfu Hh Hks Hsz; destruct fuel as [|fuel]; try (cbn in Hfu; lia);
    cbn [yields_from] in Hy; cbn [dup_ht]; destruct ss as [|s ss]; try done.
  - destruct Hy as [si' ->]. cbn [mbind option_bind]. exists d. split; [done|]. by replace (list_to_set [] ∪ X) with X by set_solver.
  - injection Hvs as -> ->. destruct Hy as (si' & -> & Hy). apply Forall_cons in Hks as [Hks1 Hks]. cbn [mbind option_bind length] in *. unfold setTypeAdd, setTypeAddAux.
    cbn [value_string mbind option_bind]. rewrite position_add. destruct (ht_add d X s Hh Hks1) as (d1 & -> & Hh1); [lia|]. cbn [mbind option_bind].
    destruct (IH ss fuel si' d1 ({[s]} ∪ X)) as (d2 & -> & Hh2); [done|done|lia|done|done| |].
    + rewrite size_union_alt, size_singleton. assert (size (X ∖ {[s]}) ≤ size X)%nat by (apply subseteq_size; set_solver). lia.
    + exists d2. split; [done|]. by replace (list_to_set (s :: ss) ∪ X) with (list_to_set ss ∪ ({[s]} ∪ X)) by (cbn; set_solver).
Qed.

Lemma set_dup_holds o X :
  set_holds o X → Z.of_nat (size X) < 2 ^ 60 →
  ∃ o', setTypeDup hash cr max_intset max_listpack max_value o = Some o' ∧ encoding_of o' = encoding_of o ∧ set_holds o' X.
Proof.
  intros Ho Hsz. pose proof sl_intset as Hlim. destruct o as [iset|lp|d]; cbn [set_holds setTypeDup] in *.
  - destruct Ho as (xs & Hr & Hn & ->). exists (SobjIntset iset). split_and!; [|done|by exists xs].
    pose proof (enc_range _ (rep_enc _ _ Hr)) as He. unfold intsetBlobLen, sizeof_intset. rewrite (rep_len _ _ Hr).
    assert (Hm : 0 ≤ zlen xs * is_encoding iset ≤ 2 ^ 31) by nia. rewrite (wrapu_small 64 (zlen xs * is_encoding iset)), wrapu_small by ilia.
    rewrite <- (app_nil_r (is_contents iset)), load_head; [rewrite <- (rep_len _ _ Hr); by destruct iset|]. rewrite (rep_contents _ _ Hr), length_layout. nia.
  - destruct Ho as (ss & [Hrep Hok] & Hnd & -> & Hlm & Hks). destruct (dup_rep lp _ Hrep) as (lp' & Hd & Hrep'). unfold lpDup in Hd.
    destruct (lpBytes lp) as [sz|]; [|done]. cbn [mbind option_bind] in Hd |- *. destruct (load lp 0 sz) as [bs|]; [|done].
    cbn [mbind option_bind] in Hd |- *. rewrite Hd. exists (SobjListpack lp'). split_and!; [done|done|]. exists ss. by split_and!.
  - pose proof (dictSize_entries (ideal type id) id d (proj2 (ok_ideal type id d) (hh_ok _ _ Ho))) as Hn. destruct (ht_keys d X Ho) as [Hnd HX].
    assert (Hy : yields_from (SobjHt d) (setTypeInitIterator (SobjHt d)) (VStr <$> (e_key <$> dict_entries d))).
    { rewrite <- list_fmap_compose. apply (iter_ht d X (dict_entries d)); [done|by split|done|exact (rest_init d false)]. }
    destruct (ht_new (dictSize d)) as (d0 & ok & -> & Hh0); [lia|]. cbn [mbind option_bind].
    destruct (dup_ht_spec (SobjHt d) _ (e_key <$> dict_entries d) (iter_fuel (SobjHt d)) _ d0 ∅ eq_refl Hy) as (d' & -> & Hh').
    + cbn [iter_fuel]. rewrite !length_fmap, Hn. unfold sds. lia.
    + done.
    + pose proof (hh_short _ _ Ho) as Hks. rewrite HX in Hks. by apply set_Forall_list_to_set in Hks.
    + rewrite size_empty. rewrite HX, size_list_to_set in Hsz by done. unfold sds in *. lia.
    + exists (SobjHt d'). split_and!; [done|done|]. cbn. by replace X with (list_to_set (e_key <$> dict_entries d) ∪ ∅ : gset sds) by set_solver.
Qed.

(** ** Sequences of calls *)

(** Everything an iteration returns. *)
Fixpoint collect (fuel : nat) (o : sobject) (si : setTypeIterator) : option (list sds) :=
  match fuel with
  | O => None
  | S fuel =>
      '(si, element) ← setTypeNextObject o si;
      match element with None => Some [] | Some element => cons element <$> collect fuel o si end
  end.

Lemma collect_spec o vs : ∀ ss fuel si,
  Forall2 value_is vs ss → yields_from o si vs → (length vs < fuel)%nat → collect fuel o si = Some ss.
Proof.
  induction vs as [|v vs IH]; intros ss fuel si Hvs Hy Hf; destruct fuel as [|fuel]; try (cbn in Hf; lia);
    cbn [yields_from] in Hy; cbn [collect]; unfold setTypeNextObject.
  - apply Forall2_nil_inv_l in Hvs as ->. by destruct Hy as [si' ->].
  - apply Forall2_cons_inv_l in Hvs as (s & ss' & Hv & Hvs & ->). destruct Hy as (si' & -> & Hy). cbn [mbind option_bind length] in *.
    rewrite (next_object v s si' Hv). cbn [mbind option_bind]. by rewrite (IH ss' fuel si' Hvs Hy) by lia.
Qed.

(** A call of the API. *)
Inductive set_op :=
  | SAdd (v : set_value) | SRemove (v : set_value) | SIsMember (v : set_value) | SSize | SMembers
  | SHint (size_hint : Z) | SToIntset | SDup.
Inductive set_out := OutBool (b : bool) | OutSize (n : Z) | OutMembers (l : list sds) | OutNone.

Definition set_do (op : set_op) (o : sobject) : option (sobject * set_out) :=
  match op with
  | SAdd v => '(o, b) ← setTypeAddAux hash cr max_intset max_listpack max_value o v; Some (o, OutBool b)
  | SRemove v => '(o, b) ← setTypeRemoveAux hash cr o v; Some (o, OutBool b)
  | SIsMember v => '(o, b) ← setTypeIsMemberAux hash cr o v; Some (o, OutBool b)
  | SSize => '(o, n) ← setTypeSize o; Some (o, OutSize n)
  | SMembers => l ← collect (iter_fuel o) o (setTypeInitIterator o); Some (o, OutMembers l)
  | SHint n => o ← setTypeMaybeConvert hash cr max_intset max_listpack o n; Some (o, OutNone)
  | SToIntset => o ← maybeConvertToIntset max_intset o; Some (o, OutNone)
  | SDup => o ← setTypeDup hash cr max_intset max_listpack max_value o; Some (o, OutNone)
  end.

Definition text_of (v : set_value) : sds := match v with VStr str => str | VInt z => sdec z end.

(** The same call on the set: what it leaves and what it may answer. *)
Definition spec_set (op : set_op) X : gset sds :=
  match op with SAdd v => {[text_of v]} ∪ X | SRemove v => X ∖ {[text_of v]} | _ => X end.
Definition spec_answer (op : set_op) X (out : set_out) : Prop :=
  match op with
  | SAdd v => out = OutBool (bool_decide (text_of v ∉ X))
  | SRemove v | SIsMember v => out = OutBool (bool_decide (text_of v ∈ X))
  | SSize => out = OutSize (Z.of_nat (size X))
  | SMembers => ∃ l, out = OutMembers l ∧ NoDup l ∧ list_to_set l = X
  | SHint _ | SToIntset | SDup => out = OutNone
  end.

Definition value_pre (v : set_value) : Prop :=
  match v with VStr str => Forall is_byte str ∧ short str | VInt z => sfits 64 z end.
(** What the callers see to: strings are bytes, shorter than 2^31, integers are [int64_t]
    and the conversion to an intset is asked for integers only. *)
Definition set_pre (op : set_op) X : Prop :=
  match op with
  | SAdd v => value_pre v ∧ Z.of_nat (size X) + 1 < 2 ^ 60
  | SRemove v | SIsMember v => value_pre v
  | SHint n => 0 ≤ n ∧ Z.of_nat (size X) < 2 ^ 60
  | SDup => Z.of_nat (size X) < 2 ^ 60
  | SToIntset => set_Forall (λ s, is_Some (string2ll s)) X
  | _ => True
  end.

Lemma value_pre_is v : value_pre v → value_is v (text_of v) ∧ Forall is_byte (text_of v) ∧ short (text_of v).
Proof.
  destruct v as [str|z]; cbn; [by intros []|]. intros Hz. split; [done|]. pose proof (sdec_pos_length z Hz). split; [apply sdec_bytes|unfold short; lia].
Qed.

Lemma set_step op o X :
  set_holds o X → set_pre op X →
  ∃ o' out, set_do op o = Some (o', out) ∧ set_holds o' (spec_set op X) ∧ spec_answer op X out.
Proof.
  intros Ho Hpre. destruct op as [v|v|v| | |n| |]; cbn [set_do set_pre spec_set spec_answer] in *.
  - destruct Hpre as [(? & ? & ?)%value_pre_is ?]. destruct (set_add_holds o X v (text_of v)) as (o' & -> & ?); [done..|]. by do 2 eexists.
  - destruct (value_pre_is v Hpre) as (? & _ & ?). destruct (remove_holds o X v (text_of v)) as (o' & -> & ?); [done..|]. by do 2 eexists.
  - destruct (value_pre_is v Hpre) as (? & _ & ?). destruct (member_holds o X v (text_of v)) as (o' & -> & ?); [done..|]. by do 2 eexists.
  - destruct (size_holds o X Ho) as (o' & -> & ?). by do 2 eexists.
  - destruct (holds_iterable o X Ho) as (vs & ss & Hy & Hvs & Hnd & HX & Hf). rewrite (collect_spec o vs ss _ _ Hvs Hy Hf).
    do 2 eexists. split; [done|]. split; [done|]. by exists ss.
  - destruct Hpre. destruct (hint_set_holds o X n) as (o' & -> & ?); [done..|]. by do 2 eexists.
  - destruct (to_intset_holds o X Ho Hpre) as (o' & -> & ?). by do 2 eexists.
  - destruct (set_dup_holds o X Ho Hpre) as (o' & -> & _ & ?). by do 2 eexists.
Qed.

Fixpoint set_run (ops : list set_op) (o : sobject) : option (sobject * list set_out) :=
  match ops with
  | [] => Some (o, [])
  | op :: ops => '(o, out) ← set_do op o; '(o, outs) ← set_run ops o; Some (o, out :: outs)
  end.
Fixpoint set_ops_pre (ops : list set_op) X : Prop :=
  match ops with [] => True | op :: ops => set_pre op X ∧ set_ops_pre ops (spec_set op X) end.
(** The answers that the specification allows. *)
Fixpoint spec_answers (ops : list set_op) X (outs : list set_out) : Prop :=
  match ops, outs with
  | [], [] => True
  | op :: ops, out :: outs => spec_answer op X out ∧ spec_answers ops (spec_set op X) outs
  | _, _ => False
  end.

Lemma set_run_holds ops : ∀ o X,
  set_holds o X → set_ops_pre ops X →
  ∃ o' outs, set_run ops o = Some (o', outs) ∧ set_holds o' (foldl (flip spec_set) X ops) ∧ spec_answers ops X outs.
Proof.
  induction ops as [|op ops IH]; intros o X Ho Hpre; [by exists o, []|]. destruct Hpre as [Hpre Hrest].
  destruct (set_step op o X Ho Hpre) as (o1 & out & Hdo & Ho1 & Hout). destruct (IH o1 _ Ho1 Hrest) as (o2 & outs & Hrun & Ho2 & Houts).
  exists o2, (out :: outs). cbn [set_run]. rewrite Hdo. cbn [mbind option_bind]. by rewrite Hrun.
Qed.

(** C40.  A set object refines a finite set of strings.  For every sequence of
    calls on a new object (adding, removing and testing an element given as a
    string or as an integer, the size, a whole iteration, the conversions that
    a size hint or a command asks for, and copying the object), the code
    answers, and answers what the set answers: whichever of the three encodings
    the object has at each call.  An iteration returns each element once, in
    decimal where it is stored as an integer.  At the end the object holds
    exactly the set of the specification, in an intset or a listpack only
    within the limits of the configuration.  The strings are shorter than 2^31
    bytes, the lengths that the [int] of [dictSdsKeyCompare] holds: for longer
    ones the code compares wrongly ([key_compare_long]); there are fewer than
    2^60 of them; and the configured limit of an intset is below 2^28 entries
    ([SetLimits], see [intsetMoveTail]). *)
Theorem set_run_refines ops value size_hint :
  0 ≤ size_hint → set_ops_pre ops ∅ →
  ∃ o o' outs, setTypeCreate max_intset max_listpack value size_hint = Some o ∧
    set_run ops o = Some (o', outs) ∧ set_holds o' (foldl (flip spec_set) ∅ ops) ∧ spec_answers ops ∅ outs.
Proof.
  intros Hs Hpre. destruct (create_set_holds value size_hint Hs) as (o & Hc & Ho).
  destruct (set_run_holds ops o ∅ Ho Hpre) as (o' & outs & ? & ? & ?). by exists o, o', outs.
Qed.
End sets.

(** ** An example *)

#[local] Instance value_pre_dec v : Decision (value_pre v) := ltac:(destruct v; unfold value_pre, short; apply _).
#[local] Instance set_pre_dec op X : Decision (set_pre op X) := ltac:(destruct op; cbn [set_pre]; apply _).
#[local] Instance set_ops_pre_dec ops : ∀ X, Decision (set_ops_pre ops X).
Proof. induction ops as [|op ops IH]; intros X; cbn [set_ops_pre]; apply _. Defined.

#[local] Existing Instance exact_allocator.
#[local] Instance ex_set_limits : SetLimits 4 3 8.
Proof. split; lia. Qed.

(** From an intset to a listpack and a hash table, and back to an intset. *)
Definition ex_set_ops : list set_op :=
  [SAdd (VStr [53]); SAdd (VInt (-7)); SAdd (VStr [97]); SIsMember (VInt 5); SDup; SAdd (VStr [98; 99]); SAdd (VStr [53]);
   SDup; SRemove (VInt (-7)); SSize; SMembers; SRemove (VStr [97]); SRemove (VStr [98; 99]); SToIntset; SHint 2].

Lemma set_run_witness :
  ∃ o iset outs, setTypeCreate 4 3 [53] 1 = Some o ∧
    set_run ex_hash DICT_RESIZE_ENABLE 4 3 8 ex_set_ops o = Some (SobjIntset iset, outs) ∧
    set_holds ex_hash 4 3 (SobjIntset iset) {[ [53] ]} ∧ spec_answers ex_set_ops ∅ outs.
Proof.
  destruct (set_run_refines ex_hash DICT_RESIZE_ENABLE ex_hash_range 4 3 8 ex_set_ops [53] 1) as (o & o' & outs & H1 & H2 & H3 & H4).
  - lia.
  - apply (bool_decide_unpack _). by vm_compute.
  - assert (Hi : match setTypeCreate 4 3 [53] 1 ≫= set_run ex_hash DICT_RESIZE_ENABLE 4 3 8 ex_set_ops with
      | Some (SobjIntset _, _) => true | _ => false end = true) by (by vm_compute).
    rewrite H1 in Hi. cbn [mbind option_bind] in Hi. rewrite H2 in Hi. destruct o' as [iset| |]; [|done..].
    exists o, iset, outs. split_and!; [done|done| |done].
    assert (E : foldl (flip spec_set) ∅ ex_set_ops = ({[ [53] ]} : gset sds)) by (apply (bool_decide_unpack _); by vm_compute). by rewrite <- E.
Defined.
End SetRefine.
