(* ===== verification/Glob.v ===== *)
(** * util.c: glob-style pattern matching

    [stringmatchlen] walks a pattern and a string with pointers and backtracks
    at every star; a flag shared by the recursive calls cuts the search when a
    longer match for an earlier star cannot help.  It is shown to decide the
    usual meaning of a pattern, the flag included. *)

From S2P Require Import Prelude.

Module Glob.

(** ** The code *)

(** [char] is signed; [tolower] is that of the C locale. *)
Definition tolower (c : Z) : Z := if (65 <=? c) && (c <=? 90) then c + 32 else c.
(** Two characters compare equal, after [tolower] when the case is ignored. *)
Definition char_eq (nocase : bool) (a b : Z) : bool := if nocase then tolower (s8 a) =? tolower (s8 b) else a =? b.
(** [c >= start && c <= end], the bounds in either order. *)
Definition range_test (nocase : bool) (start end_ c : Z) : bool :=
  let '(start, end_) := if s8 start >? s8 end_ then (s8 end_, s8 start) else (s8 start, s8 end_) in
  let '(start, end_, c) := if nocase then (tolower start, tolower end_, tolower (s8 c)) else (start, end_, s8 c) in
  (c >=? start) && (c <=? end_).

Section code.
(** The pattern is followed by a NUL, the string need not be. *)
Context (pattern string : list Z) (nocase : bool).

Definition pat_at (p : Z) : option Z := load8 (pattern ++ [0]) p.
Definition str_at (s : Z) : option Z := load8 string s.

(** [while (patternLen && pattern[1] == '*')] *)
Fixpoint skip_stars (fuel : nat) (p patternLen : Z) : option (Z * Z) :=
  match fuel with
  | O => None
  | S fuel =>
      if patternLen =? 0 then Some (p, patternLen)
      else c ← pat_at (p + 1); if c =? 42 then skip_stars fuel (p + 1) (patternLen - 1) else Some (p, patternLen)
  end.
(** [while( *pattern == '*')], at the end of the string. *)
Fixpoint trailing_stars (fuel : nat) (p patternLen : Z) : option (Z * Z) :=
  match fuel with
  | O => None
  | S fuel => c ← pat_at p; if c =? 42 then trailing_stars fuel (p + 1) (patternLen - 1) else Some (p, patternLen)
  end.

(** The loop over the characters of a class: leaves the pointer at the closing
    bracket, or at the last character of the pattern. *)
Fixpoint class_loop (fuel : nat) (p patternLen sc : Z) (matched : bool) : option (Z * Z * bool) :=
  match fuel with
  | O => None
  | S fuel =>
      c ← pat_at p;
      if (c =? 92) && (patternLen >=? 2) then
        c ← pat_at (p + 1); class_loop fuel (p + 2) (patternLen - 2) sc (matched || (c =? sc))
      else if c =? 93 then Some (p, patternLen, matched)
      else if patternLen =? 0 then Some (p - 1, patternLen + 1, matched)
      else
        dash ← (if patternLen >=? 3 then c ← pat_at (p + 1); Some (c =? 45) else Some false);
        if (dash : bool) then
          end_ ← pat_at (p + 2);
          class_loop fuel (p + 3) (patternLen - 3) sc (matched || range_test nocase c end_ sc)
        else class_loop fuel (p + 1) (patternLen - 1) sc (matched || char_eq nocase c sc)
  end.

(** [while(stringLen)] after a star: [impl] matches the rest of the pattern. *)
Fixpoint try_strings (impl : Z → Z → bool → option (bool * bool)) (n : nat) (s stringLen : Z) (skipLongerMatches : bool)
    : option (bool * bool) :=
  match n with
  | O => Some (false, true)
  | S n =>
      '(r, skip) ← impl s stringLen skipLongerMatches;
      if (r : bool) then Some (true, skip)
      else if (skip : bool) then Some (false, skip)
      else try_strings impl n (s + 1) (stringLen - 1) skip
  end.

(** After the switch: the end of the string, or the next turn. *)
Definition turn_end (impl : Z → Z → Z → Z → bool → option (bool * bool)) (p patternLen s stringLen : Z) (skipLongerMatches : bool)
    : option (bool * bool) :=
  let p := p + 1 in
  let patternLen := patternLen - 1 in
  if stringLen =? 0 then
    '(_, patternLen) ← trailing_stars (S (Z.to_nat patternLen)) p patternLen;
    Some ((patternLen =? 0) && (stringLen =? 0), skipLongerMatches)
  else impl p patternLen s stringLen skipLongerMatches.
(** The default case. *)
Definition match_char (impl : Z → Z → Z → Z → bool → option (bool * bool)) (p patternLen s stringLen : Z) (skipLongerMatches : bool)
    : option (bool * bool) :=
  c ← pat_at p;
  sc ← str_at s;
  if negb (char_eq nocase c sc) then Some (false, skipLongerMatches)
  else turn_end impl p patternLen (s + 1) (stringLen - 1) skipLongerMatches.

(** The result and [*skipLongerMatches]. *)
Fixpoint stringmatchlen_impl (fuel : nat) (p patternLen s stringLen : Z) (skipLongerMatches : bool)
    : option (bool * bool) :=
  match fuel with
  | O => None
  | S fuel =>
      if (patternLen =? 0) || (stringLen =? 0) then Some ((patternLen =? 0) && (stringLen =? 0), skipLongerMatches)
      else
        let next := turn_end (stringmatchlen_impl fuel) in
        let literal := match_char (stringmatchlen_impl fuel) in
        c ← pat_at p;
        if c =? 42 then
          '(p, patternLen) ← skip_stars (S (Z.to_nat patternLen)) p patternLen;
          if patternLen =? 1 then Some (true, skipLongerMatches)
          else
            try_strings (stringmatchlen_impl fuel (p + 1) (patternLen - 1)) (Z.to_nat stringLen) s stringLen skipLongerMatches
        else if c =? 63 then next p patternLen (s + 1) (stringLen - 1) skipLongerMatches
        else if c =? 91 then
          let p := p + 1 in
          let patternLen := patternLen - 1 in
          c ← pat_at p;
          let neg := c =? 94 in
          let '(p, patternLen) := if neg then (p + 1, patternLen - 1) else (p, patternLen) in
          sc ← str_at s;
          '(p, patternLen, matched) ← class_loop (S (Z.to_nat patternLen)) p patternLen sc false;
          let matched := if neg then negb matched else matched in
          if negb matched then Some (false, skipLongerMatches) else next p patternLen (s + 1) (stringLen - 1) skipLongerMatches
        else if c =? 92 then
          if patternLen >=? 2 then literal (p + 1) (patternLen - 1) s stringLen skipLongerMatches
          else literal p patternLen s stringLen skipLongerMatches
        else literal p patternLen s stringLen skipLongerMatches
  end.
Definition stringmatchlen : option bool :=
  fst <$> stringmatchlen_impl (S (length pattern)) 0 (zlen pattern) 0 (zlen string) false.
End code.

(** The bytes before the terminator. *)
Fixpoint c_string (mem : list Z) : list Z :=
  match mem with [] => [] | c :: mem => if c =? 0 then [] else c :: c_string mem end.
Definition stringmatch (pattern string : list Z) (nocase : bool) : option bool :=
  stringmatchlen (c_string pattern) (c_string string) nocase.

(** ** What a pattern means *)

Inductive class_item := Escaped (c : Z) | Range (start end_ : Z) | Char (c : Z).
Inductive token := Star | Any | Class (neg : bool) (items : list class_item) | Lit (c : Z).

Fixpoint parse (r : list Z) : list token :=
  match r with
  | [] => []
  | c :: r =>
      if c =? 42 then Star :: parse r
      else if c =? 63 then Any :: parse r
      else if c =? 91 then
        match r with
        | n :: r' => if n =? 94 then parse_class true [] r' else parse_class false [] r
        | [] => parse_class false [] r
        end
      else if c =? 92 then match r with e :: r => Lit e :: parse r | [] => [Lit c] end
      else Lit c :: parse r
  end
with parse_class (neg : bool) (items : list class_item) (r : list Z) : list token :=
  match r with
  | [] => [Class neg items]
  | c :: r =>
      if c =? 93 then Class neg items :: parse r
      else
        match r with
        | [] => [Class neg (items ++ [Char c])]
        | d :: r' =>
            if c =? 92 then parse_class neg (items ++ [Escaped d]) r'
            else
              match r' with
              | e :: r'' => if d =? 45 then parse_class neg (items ++ [Range c e]) r'' else parse_class neg (items ++ [Char c]) r
              | [] => parse_class neg (items ++ [Char c]) r
              end
        end
  end.

Section meaning.
Context (nocase : bool).

(** A character in a class; an escaped one keeps its case. *)
Definition item_ok (sc : Z) (i : class_item) : bool :=
  match i with
  | Escaped c => c =? sc
  | Range start end_ => range_test nocase start end_ sc
  | Char c => char_eq nocase c sc
  end.
Definition token_ok (t : token) (sc : Z) : bool :=
  match t with
  | Star => false
  | Any => true
  | Class neg items => xorb neg (existsb (item_ok sc) items)
  | Lit c => char_eq nocase c sc
  end.

(** A star stands for any string, the other tokens for one character. *)
Inductive glob : list token → list Z → Prop :=
  | glob_nil : glob [] []
  | glob_star ts s1 s2 : glob ts s2 → glob (Star :: ts) (s1 ++ s2)
  | glob_one t ts c s : token_ok t c = true → glob ts s → glob (t :: ts) (c :: s).
End meaning.

Example glob_ex1 : stringmatchlen (bytes_of "h[^a-c]*l\?o*") (bytes_of "heyll?o") false = Some true.
Proof. reflexivity. Qed.
Example glob_ex2 : stringmatchlen (bytes_of "*a*b") (bytes_of "xxayybz") false = Some false.
Proof. reflexivity. Qed.
Example glob_ex3 : stringmatchlen (bytes_of "*") [] false = Some false.
Proof. reflexivity. Qed.

(** ** Properties of the meaning *)

Section proofs.
Context (nocase : bool).
Implicit Type (ts : list token) (r s t : list Z).
#[local] Abbreviation glob := (glob nocase).

Lemma glob_one_inv tk ts c s : tk ≠ Star → glob (tk :: ts) (c :: s) ↔ token_ok nocase tk c = true ∧ glob ts s.
Proof. intros Hne. split; [by inversion 1|]. intros [? ?]. by constructor. Qed.
Lemma glob_one_nil tk ts : tk ≠ Star → ¬ glob (tk :: ts) [].
Proof. intros Hne Hg. inversion Hg. done. Qed.
Lemma glob_star_inv ts s : glob (Star :: ts) s ↔ ∃ s', s' `suffix_of` s ∧ glob ts s'.
Proof.
  split.
  - inversion 1; subst; [|done]. eexists. split; [by eexists|done].
  - intros (s' & [s1 ->] & Hg). by constructor.
Qed.

(** Consecutive stars are one. *)
Lemma glob_stars k ts s : glob (replicate k Star ++ Star :: ts) s ↔ glob (Star :: ts) s.
Proof.
  revert s. induction k as [|k IH]; intros s; [done|]. cbn [replicate app]. rewrite glob_star_inv. split.
  - intros (s' & Hs & Hg). apply IH in Hg. apply glob_star_inv in Hg as (s2 & Hs2 & Hg). apply glob_star_inv.
    exists s2. split; [by etrans|done].
  - intros Hg. exists s. split; [done|]. by apply IH.
Qed.

Lemma stars_shift k ts : Star :: replicate k Star ++ ts = replicate k Star ++ Star :: ts.
Proof. induction k as [|k IH]; [done|]. cbn [replicate app]. by rewrite <- IH. Qed.

Lemma parse_stars k r : parse (replicate k 42 ++ r) = replicate k Star ++ parse r.
Proof. induction k as [|k IH]; [done|]. cbn [replicate app parse Z.eqb Pos.eqb]. by rewrite IH. Qed.

Lemma parse_class_head neg r : ∀ items, ∃ items' rest,
  parse_class neg items r = Class neg (items ++ items') :: parse rest ∧ (length rest ≤ length r)%nat.
Proof.
  induction r as [r IH] using (well_founded_induction (well_founded_ltof _ (@length Z))). unfold ltof in IH. intros items.
  assert (Hstep : ∀ i r', (length r' < length r)%nat → parse_class neg items r = parse_class neg (items ++ [i]) r' →
    ∃ items' rest, parse_class neg items r = Class neg (items ++ items') :: parse rest ∧ (length rest ≤ length r)%nat).
  { intros i r' Hlt ->. destruct (IH r' Hlt (items ++ [i])) as (items' & rest & -> & Hl). exists (i :: items'), rest.
    rewrite <- app_assoc. split; [done|lia]. }
  clear IH. revert Hstep. destruct r as [|c r]; [intros _; exists [], []; by rewrite app_nil_r|]. cbn [parse_class].
  destruct (c =? 93); [intros _; exists [], r; rewrite app_nil_r; cbn [length]; split; [done|lia]|].
  destruct r as [|d r']; [intros _; exists [Char c], []; cbn; split; [done|lia]|].
  repeat case_match; intros Hstep; (eapply Hstep; [|done]); cbn [length]; lia.
Qed.

Lemma parse_head c r : c ≠ 42 → ∃ tk ts, parse (c :: r) = tk :: ts ∧ tk ≠ Star.
Proof.
  intros Hc. cbn [parse]. destruct (Z.eqb_spec c 42); [done|]. destruct (c =? 63); [by do 2 eexists|].
  destruct (c =? 91).
  - destruct r as [|x r]; [by do 2 eexists|]. destruct (x =? 94);
      [destruct (parse_class_head true r []) as (? & ? & -> & _)|destruct (parse_class_head false (x :: r) []) as (? & ? & -> & _)];
      by do 2 eexists.
  - destruct (c =? 92); [destruct r|]; by do 2 eexists.
Qed.

Lemma glob_empty k r : hd 0 r ≠ 42 → glob (parse (replicate k 42 ++ r)) [] ↔ r = [].
Proof.
  intros Hr. rewrite parse_stars. destruct r as [|c r].
  - cbn [parse]. split; [done|]. intros _. rewrite app_nil_r. induction k as [|k IH]; [constructor|].
    cbn [replicate]. by apply (glob_star nocase _ [] []).
  - split; [|done]. destruct (parse_head c r Hr) as (tk & ts & -> & Hne). intros Hg. exfalso.
    destruct k as [|k]; [by apply glob_one_nil in Hg|]. cbn [replicate app] in Hg. rewrite stars_shift in Hg.
    apply glob_stars, glob_star_inv in Hg as (s' & Hs & Hg). apply suffix_nil_inv in Hs as ->. by apply glob_one_nil in Hg.
Qed.
End proofs.

(** ** The loops of the code *)

(** The pointer is at a suffix. *)
Definition at_suffix (mem : list Z) (p : Z) (r : list Z) : Prop := ∃ a, mem = a ++ r ∧ p = zlen a.

Lemma suffix_next mem p c r : at_suffix mem p (c :: r) → at_suffix mem (p + 1) r.
Proof. intros (a & -> & ->). exists (a ++ [c]). rewrite <- app_assoc, length_app. split; [done|cbn; lia]. Qed.
Lemma suffix_prev mem p r : at_suffix mem p r → 1 ≤ p → ∃ x, at_suffix mem (p - 1) (x :: r).
Proof.
  intros (a & -> & ->) Hp. destruct a as [|x a _] using rev_ind; [cbn in Hp; lia|]. exists x, a. rewrite <- app_assoc, length_app. split; [done|cbn; lia].
Qed.

Section walk.
Context (pattern string : list Z) (nocase : bool).
Implicit Type (r t : list Z).
#[local] Abbreviation pat := (at_suffix pattern).
#[local] Abbreviation str := (at_suffix string).
#[local] Abbreviation glob := (glob nocase).

Lemma pat_at_suffix p r : pat p r → pat_at pattern p = Some (hd 0 r).
Proof.
  intros (a & -> & ->). unfold pat_at. destruct r as [|c r]; rewrite <- app_assoc; by apply load8_app.
Qed.
Lemma str_at_suffix s c t : str s (c :: t) → str_at string s = Some c.
Proof. intros (a & -> & ->). by apply load8_app. Qed.

Lemma skip_stars_spec r : ∀ p fuel,
  pat p (42 :: r) → (length r < fuel)%nat →
  ∃ k r' p', skip_stars pattern fuel p (zlen (42 :: r)) = Some (p', zlen (42 :: r')) ∧ pat p' (42 :: r') ∧
    r = replicate k 42 ++ r' ∧ hd 0 r' ≠ 42.
Proof.
  induction r as [|c r IH]; intros p [|fuel] Hp Hf; try lia; cbn [skip_stars].
  - rewrite (pat_at_suffix (p + 1) []) by (by eapply suffix_next). cbn [mbind option_bind hd Z.eqb].
    exists 0%nat, [], p. by split_and!.
  - rewrite (pat_at_suffix (p + 1) (c :: r)) by (by eapply suffix_next). destruct (Z.eqb_spec (zlen (42 :: c :: r)) 0); [cbn in *; lia|].
    cbn [mbind option_bind hd]. destruct (Z.eqb_spec c 42) as [->|Hc].
    + replace (zlen (42 :: 42 :: r) - 1) with (zlen (42 :: r)) by (cbn [length]; lia). cbn [length] in Hf.
      destruct (IH (p + 1) fuel) as (k & r' & p' & -> & Hp' & -> & Hr'); [by eapply suffix_next|lia|].
      exists (S k), r', p'. by split_and!.
    + exists 0%nat, (c :: r), p. by split_and!.
Qed.

Lemma trailing_stars_spec r : ∀ p fuel,
  pat p r → (length r < fuel)%nat →
  ∃ k r' p', trailing_stars pattern fuel p (zlen r) = Some (p', zlen r') ∧ r = replicate k 42 ++ r' ∧ hd 0 r' ≠ 42.
Proof.
  induction r as [|c r IH]; intros p [|fuel] Hp Hf; try lia; cbn [trailing_stars]; rewrite (pat_at_suffix p _ Hp); cbn [mbind option_bind hd].
  - exists 0%nat, [], p. by split_and!.
  - destruct (Z.eqb_spec c 42) as [->|Hc].
    + replace (zlen (42 :: r) - 1) with (zlen r) by (cbn [length]; lia). cbn [length] in Hf.
      destruct (IH (p + 1) fuel) as (k & r' & p' & -> & -> & Hr'); [by eapply suffix_next|lia|]. by exists (S k), r', p'.
    + by exists 0%nat, (c :: r), p.
Qed.

Lemma class_loop_spec neg sc fuel : ∀ r p items m,
  pat p r → 1 ≤ p → (length r < fuel)%nat →
  ∃ items' x rest p', class_loop pattern nocase fuel p (zlen r) sc m =
      Some (p', zlen (x :: rest), m || existsb (item_ok nocase sc) items') ∧ pat p' (x :: rest) ∧
    parse_class neg items r = Class neg (items ++ items') :: parse rest ∧ (length rest ≤ length r)%nat.
Proof.
  induction fuel as [|fuel IH]; intros r p items m Hp Hp1 Hf; [lia|].
  assert (Hstep : ∀ i r' q, pat q r' → 1 ≤ q → (length r' < length r)%nat →
    ∃ items' x rest p', class_loop pattern nocase fuel q (zlen r') sc (m || item_ok nocase sc i) =
      Some (p', zlen (x :: rest), m || existsb (item_ok nocase sc) items') ∧ pat p' (x :: rest) ∧
      parse_class neg (items ++ [i]) r' = Class neg (items ++ items') :: parse rest ∧ (length rest ≤ length r)%nat).
  { intros i r' q Hq Hq1 Hlt. destruct (IH r' q (items ++ [i]) (m || item_ok nocase sc i) Hq Hq1) as (items' & x & rest & p' & -> & Hp' & -> & Hl); [lia|].
    exists (i :: items'), x, rest, p'. cbn [existsb]. rewrite orb_assoc, <- app_assoc. split_and!; [done|done|done|lia]. }
  clear IH. cbn [class_loop]. rewrite (pat_at_suffix p r Hp). cbn [mbind option_bind]. destruct r as [|c r].
  { destruct (suffix_prev _ _ _ Hp Hp1) as (x & Hx). exists [], x, [], (p - 1). cbn. rewrite orb_false_r, app_nil_r. by split_and!. }
  cbn [hd parse_class]. pose proof (suffix_next _ _ _ _ Hp) as Hp'. destruct (Z.eqb_spec c 93) as [->|Hc].
  { cbn. exists [], 93, r, p. cbn. rewrite orb_false_r, app_nil_r. split_and!; [done|done|done|lia]. }
  destruct (Z.eqb_spec (zlen (c :: r)) 0) as [|_]; [cbn in *; lia|]. destruct r as [|d r'].
  { rewrite andb_false_r. cbn [length Z.geb Z.of_nat Z.compare mbind option_bind]. 
    destruct (Hstep (Char c) [] (p + 1) Hp' ltac:(lia)) as (items' & x & rest & p' & Hl & ? & Hpc & ?); [cbn; lia|].
    cbn [item_ok length Z.of_nat] in Hl. exists items', x, rest, p'. by split_and!. }
  pose proof (suffix_next _ _ _ _ Hp') as Hp2. replace (p + 1 + 1) with (p + 2) in Hp2 by lia.
  assert ((zlen (c :: d :: r') >=? 2) = true) as -> by (apply Z.geb_le; cbn [length]; lia). rewrite andb_true_r. rewrite (pat_at_suffix (p + 1) _ Hp').
  cbn [mbind option_bind hd]. destruct (Z.eqb_spec c 92) as [->|Hc2].
  { replace (zlen (92 :: d :: r') - 2) with (zlen r') by (cbn [length]; lia). apply (Hstep (Escaped d)); [done|lia|cbn; lia]. }
  assert (Hchar : ∃ items' x rest p', class_loop pattern nocase fuel (p + 1) (zlen (c :: d :: r') - 1) sc (m || char_eq nocase c sc) =
      Some (p', zlen (x :: rest), m || existsb (item_ok nocase sc) items') ∧ pat p' (x :: rest) ∧
      parse_class neg (items ++ [Char c]) (d :: r') = Class neg (items ++ items') :: parse rest ∧ (length rest ≤ length (c :: d :: r'))%nat).
  { replace (zlen (c :: d :: r') - 1) with (zlen (d :: r')) by (cbn [length]; lia). apply (Hstep (Char c)); [done|lia|cbn; lia]. }
  destruct r' as [|e r''].
  { cbn [length Z.geb Z.of_nat Z.compare Pos.compare Pos.of_succ_nat Pos.succ Pos.compare_cont mbind option_bind]. done. }
  pose proof (suffix_next _ _ _ _ Hp2) as Hp3. replace (p + 2 + 1) with (p + 3) in Hp3 by lia.
  assert ((zlen (c :: d :: e :: r'') >=? 3) = true) as -> by (apply Z.geb_le; cbn [length]; lia). cbn [mbind option_bind].
  destruct (Z.eqb_spec d 45) as [->|]; [|done]. rewrite (pat_at_suffix (p + 2) _ Hp2). cbn [mbind option_bind hd].
  replace (zlen (c :: 45 :: e :: r'') - 3) with (zlen r'') by (cbn [length]; lia). apply (Hstep (Range c e)); [done|lia|cbn; lia].
Qed.

(** ** The matcher *)

(** What a call may answer: whether the rest of the pattern matches, and a flag
    that, when set, rules out every later start in the string. *)
Definition outcome (ts : list token) t (r : bool * bool) : Prop :=
  (r.1 = true ↔ glob ts t) ∧ (r.2 = true → ∀ t', t' `suffix_of` t → ¬ glob ts t').

Lemma outcome_one tk ts c t (res : bool * bool) : tk ≠ Star → token_ok nocase tk c = true → outcome ts t res → outcome (tk :: ts) (c :: t) res.
Proof.
  intros Hne Hok [Hr Hskip]. split; [rewrite glob_one_inv by done; tauto|]. intros Hs t' Ht' Hg.
  destruct t' as [|c' t']; [by apply glob_one_nil in Hg|]. apply glob_one_inv in Hg as [_ Hg]; [|done].
  apply (Hskip Hs t'); [|done]. destruct Ht' as [[|x l] Heq]; injection Heq as -> ->; [done|].
  exists (l ++ [c']). by rewrite <- app_assoc.
Qed.
Lemma outcome_fail tk ts c t : tk ≠ Star → token_ok nocase tk c = false → outcome (tk :: ts) (c :: t) (false, false).
Proof. intros Hne Hok. split; [|done]. rewrite glob_one_inv by done. rewrite Hok. naive_solver. Qed.

(** A star: the starts are tried in order, up to a set flag. *)
Lemma try_spec ts f t : ∀ s,
  str s t → hd Star ts ≠ Star →
  (∀ s t, str s t → t ≠ [] → ∃ res, f s (zlen t) false = Some res ∧ outcome ts t res) →
  ∃ res, try_strings f (length t) s (zlen t) false = Some res ∧ outcome (Star :: ts) t res.
Proof.
  intros s Hs Hts Hf. destruct ts as [|tk ts]; [done|]. cbn [hd] in Hts.
  assert (∃ r : bool * bool, try_strings f (length t) s (zlen t) false = Some r ∧ (r.1 = true ↔ ∃ t', t' `suffix_of` t ∧ glob (tk :: ts) t') ∧
    (r.2 = true → ∀ t', t' `suffix_of` t → ¬ glob (tk :: ts) t')) as (r & -> & Hr & Hskip).
  { revert s Hs. induction t as [|c t IH]; intros s Hs; cbn [length try_strings].
    - exists (false, true). split_and!; [done|split; [done|]|]; [|intros _];
        [intros (t' & ->%suffix_nil_inv & Hg)|intros t' ->%suffix_nil_inv Hg]; by apply glob_one_nil in Hg.
    - destruct (Hf s (c :: t) Hs) as ([b skip] & E & Hb & Hskip); [done|]. cbn [length] in E. rewrite E. cbn [mbind option_bind fst snd] in *.
      destruct b; [|destruct skip].
      + exists (true, skip). split_and!; [done| |done]. split; [intros _|done]. exists (c :: t). split; [done|]. by apply Hb.
      + exists (false, true). split_and!; [done| |done]. split; [done|]. intros (t' & Ht' & Hg). exfalso. by eapply Hskip.
      + replace (Z.of_nat (S (length t)) - 1) with (zlen t) by lia. destruct (IH (s + 1)) as (r & -> & Hr & Hsk); [by eapply suffix_next|].
        exists r. assert (Hno : ¬ glob (tk :: ts) (c :: t)) by (intros Hg; apply Hb in Hg; done).
        assert (Hsuf : ∀ t', t' `suffix_of` c :: t → t' = c :: t ∨ t' `suffix_of` t) 
          by (intros t' [[|x k] Heq]; [by left|right; injection Heq as -> ->; by exists k]).
        split_and!; [done| |].
        * rewrite Hr. split; intros (t' & Ht' & Hg); exists t'; (split; [|done]); [by apply suffix_cons_r|].
          by destruct (Hsuf t' Ht') as [-> | ?].
        * intros Hr2 t' Ht'. destruct (Hsuf t' Ht') as [-> | ?]; [done|by apply Hsk]. }
  exists r. split; [done|]. split; [by rewrite glob_star_inv|]. intros Hs2 t' Ht' Hg. apply glob_star_inv in Hg as (t2 & Ht2 & Hg).
  apply (Hskip Hs2 t2); [by etrans|done].
Qed.

(** Whether the rest of the pattern matches the empty string. *)
Lemma end_of_string p rest :
  pat p rest →
  ∃ b, ('(_, patternLen) ← trailing_stars pattern (S (Z.to_nat (zlen rest))) p (zlen rest); Some ((patternLen =? 0) && (0 =? 0), false)) =
      Some (b, false) ∧ outcome (parse rest) [] (b, false).
Proof.
  intros Hp. rewrite Nat2Z.id. destruct (trailing_stars_spec rest p (S (length rest)) Hp) as (k & r' & p' & -> & -> & Hr); [lia|].
  cbn [mbind option_bind]. eexists. split; [done|]. split; [|done]. rewrite glob_empty by done. cbn [fst]. rewrite andb_true_r, Z.eqb_eq.
  by destruct r'.
Qed.

Section turn.
Context (impl : Z → Z → Z → Z → bool → option (bool * bool)) (n : nat).
Context (Himpl : ∀ p r s t, pat p r → str s t → t ≠ [] → (length r ≤ n)%nat →
  ∃ res, impl p (zlen r) s (zlen t) false = Some res ∧ outcome (parse r) t res).

Lemma turn_end_spec tk p x rest s sc t :
  tk ≠ Star → pat p (x :: rest) → str s (sc :: t) → (length rest ≤ n)%nat →
  ∃ res, (if token_ok nocase tk sc then turn_end pattern impl p (zlen (x :: rest)) (s + 1) (zlen (sc :: t) - 1) false else Some (false, false)) =
      Some res ∧ outcome (tk :: parse rest) (sc :: t) res.
Proof.
  intros Hne Hp Hs Hl. destruct (token_ok nocase tk sc) eqn:Hok; [|exists (false, false); split; [done|by apply outcome_fail]].
  assert (∃ res, turn_end pattern impl p (zlen (x :: rest)) (s + 1) (zlen (sc :: t) - 1) false = Some res ∧ outcome (parse rest) t res)
    as (res & -> & Hres); [|exists res; split; [done|by apply outcome_one]].
  unfold turn_end. replace (zlen (sc :: t) - 1) with (zlen t) by (cbn [length]; lia).
  replace (zlen (x :: rest) - 1) with (zlen rest) by (cbn [length]; lia). apply suffix_next in Hp, Hs. destruct t as [|sc' t].
  - destruct (end_of_string (p + 1) rest Hp) as (b & Hb & Ho). exists (b, false). split; [exact Hb|done].
  - destruct (Z.eqb_spec (zlen (sc' :: t)) 0) as [|_]; [cbn in *; lia|]. by apply Himpl.
Qed.

Lemma match_char_spec p x rest s sc t :
  pat p (x :: rest) → str s (sc :: t) → (length rest ≤ n)%nat →
  ∃ res, match_char pattern string nocase impl p (zlen (x :: rest)) s (zlen (sc :: t)) false = Some res ∧
    outcome (Lit x :: parse rest) (sc :: t) res.
Proof.
  intros Hp Hs Hl. unfold match_char. rewrite (pat_at_suffix p _ Hp), (str_at_suffix s sc t Hs). cbn [mbind option_bind hd].
  destruct (turn_end_spec (Lit x) p x rest s sc t) as (res & Hres & Ho); [done..|]. cbn [token_ok] in Hres.
  exists res. split; [|done]. rewrite <- Hres. by destruct (char_eq nocase x sc).
Qed.
End turn.

Lemma impl_spec fuel : ∀ p r s t,
  pat p r → str s t → t ≠ [] → (length r < fuel)%nat →
  ∃ res, stringmatchlen_impl pattern string nocase fuel p (zlen r) s (zlen t) false = Some res ∧ outcome (parse r) t res.
Proof.
  induction fuel as [|fuel IH]; intros p r s t Hp Hs Ht Hf; [lia|]. destruct t as [|sc t]; [done|]. clear Ht. cbn [stringmatchlen_impl].
  destruct (Z.eqb_spec (zlen (sc :: t)) 0) as [|_]; [cbn in *; lia|]. rewrite orb_false_r, andb_false_r. destruct r as [|c r].
  { cbn. exists (false, false). split; [done|]. split; [|done]. split; [done|]. by inversion 1. }
  destruct (Z.eqb_spec (zlen (c :: r)) 0) as [|_]; [cbn in *; lia|]. cbv zeta. cbn [length] in Hf.
  assert (IH' : ∀ p r' s t, pat p r' → str s t → t ≠ [] → (length r' ≤ length r)%nat →
    ∃ res, stringmatchlen_impl pattern string nocase fuel p (zlen r') s (zlen t) false = Some res ∧ outcome (parse r') t res)
    by (intros; apply IH; [done..|lia]). clear IH.
  rewrite (pat_at_suffix p _ Hp). cbn [mbind option_bind hd]. pose proof (suffix_next _ _ _ _ Hp) as Hp1. cbn [parse].
  destruct (Z.eqb_spec c 42) as [->|Hc1].
  { destruct (skip_stars_spec r p (S (Z.to_nat (zlen (42 :: r)))) Hp) as (k & r' & p' & -> & Hp' & -> & Hh); [cbn [length]; lia|].
    cbn [mbind option_bind]. rewrite parse_stars.
    assert (Hout : ∀ res, outcome (Star :: parse r') (sc :: t) res → outcome (Star :: replicate k Star ++ parse r') (sc :: t) res).
    { intros res [H1 H2]. rewrite stars_shift. split; [by rewrite glob_stars|]. intros Hr t' Ht'. rewrite glob_stars. by apply H2. }
    destruct r' as [|c r'].
    - cbn. exists (true, false). split; [done|]. apply Hout. split; [|done]. split; [intros _|done]. apply glob_star_inv.
      exists []. split; [apply suffix_nil|constructor].
    - destruct (Z.eqb_spec (zlen (42 :: c :: r')) 1) as [|_]; [cbn in *; lia|].
      replace (zlen (42 :: c :: r') - 1) with (zlen (c :: r')) by (cbn [length]; lia). rewrite Nat2Z.id.
      destruct (try_spec (parse (c :: r')) (stringmatchlen_impl pattern string nocase fuel (p' + 1) (zlen (c :: r'))) (sc :: t) s Hs)
        as (res & -> & Hres); [by destruct (parse_head c r' Hh) as (tk & ts & -> & ?)| |exists res; split; [done|by apply Hout]].
      intros s' t' Hs' Ht'. apply IH'; [by eapply suffix_next|done|done|]. rewrite length_app. lia. }
  destruct (Z.eqb_spec c 63) as [->|Hc2]; [by apply (turn_end_spec _ _ IH' Any p 63 r s sc t)|].
  destruct (Z.eqb_spec c 91) as [->|Hc3].
  { replace (zlen (91 :: r) - 1) with (zlen r) by (cbn [length]; lia). rewrite (pat_at_suffix _ _ Hp1). cbn [mbind option_bind].
    assert (Hclass : ∀ neg r' q, pat q r' → 1 ≤ q → (length r' ≤ length r)%nat →
      ∃ res, (sc ← str_at string s; '(p, patternLen, matched) ← class_loop pattern nocase (S (Z.to_nat (zlen r'))) q (zlen r') sc false;
        if negb (if neg : bool then negb matched else matched) then Some (false, false)
        else turn_end pattern (stringmatchlen_impl pattern string nocase fuel) p patternLen (s + 1) (zlen (sc :: t) - 1) false) = Some res ∧
        outcome (parse_class neg [] r') (sc :: t) res).
    { intros neg r' q Hq Hq1 Hl. rewrite (str_at_suffix s sc t Hs). cbn [mbind option_bind]. rewrite Nat2Z.id.
      destruct (class_loop_spec neg sc (S (length r')) r' q [] false Hq Hq1) as (items & x & rest & p' & -> & Hp' & -> & Hrest); [lia|].
      cbn [mbind option_bind orb app]. destruct (turn_end_spec _ _ IH' (Class neg items) p' x rest s sc t) as (res & Hres & Ho); [done..|lia|].
      exists res. split; [|done]. rewrite <- Hres. cbn [token_ok]. by destruct neg, (existsb _ items). }
    assert (1 ≤ p + 1) by (destruct Hp as (a & _ & ->); lia). destruct r as [|x r]; [exact (Hclass false [] (p + 1) Hp1 ltac:(lia) ltac:(lia))|]. cbn [hd].
    destruct (x =? 94); [|exact (Hclass false (x :: r) (p + 1) Hp1 ltac:(lia) ltac:(lia))].
    replace (zlen (x :: r) - 1) with (zlen r) by (cbn [length]; lia).
    exact (Hclass true r (p + 1 + 1) (suffix_next _ _ _ _ Hp1) ltac:(lia) ltac:(cbn [length]; lia)). }
  destruct (Z.eqb_spec c 92) as [->|Hc4]; [|by apply (match_char_spec _ _ IH' p c r s sc t)].
  destruct r as [|e r]; [by apply (match_char_spec _ _ IH' p 92 [] s sc t)|].
  assert ((zlen (92 :: e :: r) >=? 2) = true) as -> by (apply Z.geb_le; cbn [length]; lia).
  replace (zlen (92 :: e :: r) - 1) with (zlen (e :: r)) by (cbn [length]; lia).
  apply (match_char_spec _ _ IH' (p + 1) e r s sc t); [done|done|cbn [length]; lia].
Qed.
End walk.

(** C39: [stringmatchlen] decides glob-style matching.  For every pattern and
    every string it returns, never reads outside the string or past the
    terminator of the pattern, and answers whether the string matches: stars
    stand for any string, a class for one character in it (or not in it, after
    a caret; ranges in either order, escapes taken literally), a class that is
    not closed ends with the pattern.  Cutting the search with
    [skipLongerMatches] never loses a match.  The empty string is matched by
    the empty pattern only: not by a star. *)
Theorem stringmatchlen_correct pattern string nocase :
  ∃ b, stringmatchlen pattern string nocase = Some b ∧
    (b = true ↔ match string with [] => pattern = [] | _ => glob nocase (parse pattern) string end).
Proof.
  unfold stringmatchlen. destruct string as [|c string].
  - by destruct pattern; eexists.
  - destruct (impl_spec pattern (c :: string) nocase (S (length pattern)) 0 pattern 0 (c :: string)) as ([b skip] & -> & Hb & _);
      [by exists []|by exists []|done|lia|]. by exists b.
Qed.

End Glob.
