(* ===== verification/KeySlot.v ===== *)
(** * crc16.c, cluster.c: the hash slot of a key

    The table-driven CRC16 is the remainder of the message, read as a polynomial
    over GF(2), and a slot is the low 14 bits of the CRC of the hash tag. *)

From S2P Require Import Prelude.

Module KeySlot.

(** ** The code *)

Definition crc16tab : list Z :=
  [
   0x0000; 0x1021; 0x2042; 0x3063; 0x4084; 0x50a5; 0x60c6; 0x70e7;
   0x8108; 0x9129; 0xa14a; 0xb16b; 0xc18c; 0xd1ad; 0xe1ce; 0xf1ef;
   0x1231; 0x0210; 0x3273; 0x2252; 0x52b5; 0x4294; 0x72f7; 0x62d6;
   0x9339; 0x8318; 0xb37b; 0xa35a; 0xd3bd; 0xc39c; 0xf3ff; 0xe3de;
   0x2462; 0x3443; 0x0420; 0x1401; 0x64e6; 0x74c7; 0x44a4; 0x5485;
   0xa56a; 0xb54b; 0x8528; 0x9509; 0xe5ee; 0xf5cf; 0xc5ac; 0xd58d;
   0x3653; 0x2672; 0x1611; 0x0630; 0x76d7; 0x66f6; 0x5695; 0x46b4;
   0xb75b; 0xa77a; 0x9719; 0x8738; 0xf7df; 0xe7fe; 0xd79d; 0xc7bc;
   0x48c4; 0x58e5; 0x6886; 0x78a7; 0x0840; 0x1861; 0x2802; 0x3823;
   0xc9cc; 0xd9ed; 0xe98e; 0xf9af; 0x8948; 0x9969; 0xa90a; 0xb92b;
   0x5af5; 0x4ad4; 0x7ab7; 0x6a96; 0x1a71; 0x0a50; 0x3a33; 0x2a12;
   0xdbfd; 0xcbdc; 0xfbbf; 0xeb9e; 0x9b79; 0x8b58; 0xbb3b; 0xab1a;
   0x6ca6; 0x7c87; 0x4ce4; 0x5cc5; 0x2c22; 0x3c03; 0x0c60; 0x1c41;
   0xedae; 0xfd8f; 0xcdec; 0xddcd; 0xad2a; 0xbd0b; 0x8d68; 0x9d49;
   0x7e97; 0x6eb6; 0x5ed5; 0x4ef4; 0x3e13; 0x2e32; 0x1e51; 0x0e70;
   0xff9f; 0xefbe; 0xdfdd; 0xcffc; 0xbf1b; 0xaf3a; 0x9f59; 0x8f78;
   0x9188; 0x81a9; 0xb1ca; 0xa1eb; 0xd10c; 0xc12d; 0xf14e; 0xe16f;
   0x1080; 0x00a1; 0x30c2; 0x20e3; 0x5004; 0x4025; 0x7046; 0x6067;
   0x83b9; 0x9398; 0xa3fb; 0xb3da; 0xc33d; 0xd31c; 0xe37f; 0xf35e;
   0x02b1; 0x1290; 0x22f3; 0x32d2; 0x4235; 0x5214; 0x6277; 0x7256;
   0xb5ea; 0xa5cb; 0x95a8; 0x8589; 0xf56e; 0xe54f; 0xd52c; 0xc50d;
   0x34e2; 0x24c3; 0x14a0; 0x0481; 0x7466; 0x6447; 0x5424; 0x4405;
   0xa7db; 0xb7fa; 0x8799; 0x97b8; 0xe75f; 0xf77e; 0xc71d; 0xd73c;
   0x26d3; 0x36f2; 0x0691; 0x16b0; 0x6657; 0x7676; 0x4615; 0x5634;
   0xd94c; 0xc96d; 0xf90e; 0xe92f; 0x99c8; 0x89e9; 0xb98a; 0xa9ab;
   0x5844; 0x4865; 0x7806; 0x6827; 0x18c0; 0x08e1; 0x3882; 0x28a3;
   0xcb7d; 0xdb5c; 0xeb3f; 0xfb1e; 0x8bf9; 0x9bd8; 0xabbb; 0xbb9a;
   0x4a75; 0x5a54; 0x6a37; 0x7a16; 0x0af1; 0x1ad0; 0x2ab3; 0x3a92;
   0xfd2e; 0xed0f; 0xdd6c; 0xcd4d; 0xbdaa; 0xad8b; 0x9de8; 0x8dc9;
   0x7c26; 0x6c07; 0x5c64; 0x4c45; 0x3ca2; 0x2c83; 0x1ce0; 0x0cc1;
   0xef1f; 0xff3e; 0xcf5d; 0xdf7c; 0xaf9b; 0xbfba; 0x8fd9; 0x9ff8;
   0x6e17; 0x7e36; 0x4e55; 0x5e74; 0x2e93; 0x3eb2; 0x0ed1; 0x1ef0].

(** [for (counter = 0; counter < len; counter++)]; [*buf] is a signed char. *)
Fixpoint crc16_loop (buf : list Z) (crc : Z) : option Z :=
  match buf with
  | [] => Some crc
  | b :: buf =>
      t ← crc16tab !! Z.to_nat (Z.land (Z.lxor (Z.shiftr crc 8) (s8 b)) 0x00FF);
      crc16_loop buf (u16 (Z.lxor (Z.shiftl crc 8) t))
  end.
Definition crc16 (buf : list Z) : option Z := crc16_loop buf 0.

(** [for (i = ...; i < keylen; i++) if (key[i] == c) break;] *)
Fixpoint find_char (fuel : nat) (key : list Z) (keylen c i : Z) : option Z :=
  match fuel with
  | O => None
  | S fuel =>
      if i <? keylen then
        b ← load8 key i;
        if s8 b =? c then Some i else find_char fuel key keylen c (i + 1)
      else Some i
  end.

(** [keylen] is the length of the key, an int. *)
Definition keyHashSlot (key : list Z) (keylen : Z) : option Z :=
  let whole := bs ← load key 0 keylen; r ← crc16 bs; Some (Z.land r 0x3FFF) in
  s ← find_char (S (length key)) key keylen 123 0;
  if s =? keylen then whole
  else
    e ← find_char (S (length key)) key keylen 125 (s + 1);
    if (e =? keylen) || (e =? s + 1) then whole
    else bs ← load key (s + 1) (e - s - 1); r ← crc16 bs; Some (Z.land r 0x3FFF).

(** ** Polynomials over GF(2) *)

(** A polynomial is the integer of its coefficients; the product with
    x^16 + x^12 + x^5 + 1. *)
Definition times_poly (q : Z) : Z :=
  Z.lxor (Z.shiftl q 16) (Z.lxor (Z.shiftl q 12) (Z.lxor (Z.shiftl q 5) q)).
(** The first byte has the highest coefficients. *)
Definition be_poly (bs : list Z) : Z := foldl (λ m b, Z.lxor (Z.shiftl m 8) b) 0 bs.
(** [r] is the remainder of the message, times x^16. *)
Definition is_crc16 (bs : list Z) (r : Z) : Prop :=
  0 ≤ r < 2 ^ 16 ∧ ∃ q, 0 ≤ q ∧ Z.lxor (Z.shiftl (be_poly bs) 16) r = times_poly q.

#[local] Ltac xor_bits :=
  apply Z.bits_inj'; intros ?i _; rewrite ?Z.lxor_spec;
  repeat match goal with |- context [Z.testbit ?a ?i] => destruct (Z.testbit a i) end; reflexivity.

Lemma times_poly_lxor p q : times_poly (Z.lxor p q) = Z.lxor (times_poly p) (times_poly q).
Proof. unfold times_poly. rewrite !Z.shiftl_lxor. xor_bits. Qed.
Lemma times_poly_shiftl q n : 0 ≤ n → times_poly (Z.shiftl q n) = Z.shiftl (times_poly q) n.
Proof.
  intros. unfold times_poly. rewrite !Z.shiftl_lxor, !Z.shiftl_shiftl by lia. by rewrite !(Z.add_comm n).
Qed.

(** The product has degree 16 more than [q], so a remainder is unique. *)
Lemma times_poly_small q : 0 ≤ q → times_poly q < 2 ^ 16 → q = 0.
Proof.
  intros Hq Hs. destruct (decide (q = 0)) as [|Hne]; [done|]. exfalso. pose proof (Z.log2_nonneg q) as Hl.
  assert (Hb : Z.testbit (times_poly q) (Z.log2 q + 16) = true).
  { unfold times_poly. rewrite !Z.lxor_spec, !Z.shiftl_spec by lia. rewrite Z.add_simpl_r, Z.bit_log2 by lia.
    rewrite !(Z.bits_above_log2 q) by lia. done. }
  assert (Hp : 0 ≤ times_poly q) by (unfold times_poly; rewrite !Z.lxor_nonneg, !Z.shiftl_nonneg; lia).
  rewrite Z.bits_above_log2 in Hb; [done|done|]. destruct (decide (times_poly q = 0)) as [->|]; [rewrite Z.log2_nonpos; lia|].
  pose proof (proj1 (Z.log2_lt_pow2 (times_poly q) 16 ltac:(lia)) Hs). lia.
Qed.

(** ** The table *)

(** Long division of a 24 bit polynomial, from bit [k] on. *)
Fixpoint divide (k : nat) (v q : Z) : Z :=
  match k with
  | O => q
  | S k =>
      if Z.testbit v (16 + Z.of_nat k) then divide k (Z.lxor v (Z.shiftl (times_poly 1) (Z.of_nat k))) (q + 2 ^ Z.of_nat k)
      else divide k v q
  end.
Lemma crc16tab_entry i :
  0 ≤ i < 256 → ∃ t q, crc16tab !! Z.to_nat i = Some t ∧ 0 ≤ t < 2 ^ 16 ∧ 0 ≤ q ∧ Z.lxor (Z.shiftl i 16) t = times_poly q.
Proof.
  intros Hi.
  assert (Hall : forallb (λ i, match crc16tab !! Z.to_nat i with
    | Some t => let q := divide 8 (Z.shiftl i 16) 0 in
        (0 <=? t) && (t <? 2 ^ 16) && (0 <=? q) && (Z.lxor (Z.shiftl i 16) t =? times_poly q)
    | None => false end) (seqZ 0 256) = true) by (by vm_compute).
  rewrite forallb_forall in Hall. specialize (Hall i). destruct (crc16tab !! Z.to_nat i) as [t|].
  - exists t, (divide 8 (Z.shiftl i 16) 0). split; [done|].
    assert (Hin : In i (seqZ 0 256)) by (apply list_elem_of_In, elem_of_seqZ; lia). apply Hall in Hin. cbv zeta in Hin.
    rewrite !andb_true_iff, !Z.leb_le, Z.ltb_lt, Z.eqb_eq in Hin. tauto.
  - discriminate Hall. apply list_elem_of_In, elem_of_seqZ. lia.
Qed.

(** ** The loop *)

Lemma s8_land b : Z.land (s8 b) 255 = b mod 256.
Proof. change 255 with (Z.ones 8). rewrite Z.land_ones by lia. change (2 ^ 8) with 256. unfold wraps. change (2 ^ 8) with 256. change (2 ^ (8 - 1)) with 128. rewrite Zminus_mod_idemp_l. f_equal. lia. Qed.

Lemma land_lxor a b c : Z.land (Z.lxor a b) c = Z.lxor (Z.land a c) (Z.land b c).
Proof.
  apply Z.bits_inj'. intros i _. rewrite Z.land_spec, !Z.lxor_spec, !Z.land_spec.
  by destruct (Z.testbit a i), (Z.testbit b i), (Z.testbit c i).
Qed.
(** The byte that a shift of the register moves out. *)
Lemma shift_out crc : Z.land (Z.shiftl crc 8) (Z.ones 16) = Z.lxor (Z.shiftl crc 8) (Z.shiftl (Z.shiftr crc 8) 16).
Proof.
  apply Z.bits_inj'. intros i Hi. rewrite Z.land_spec, Z.lxor_spec, !Z.shiftl_spec by lia. destruct (decide (i < 16)).
  - rewrite Z.ones_spec_low, (Z.testbit_neg_r _ (i - 16)) by lia. by rewrite andb_true_r, xorb_false_r.
  - rewrite Z.ones_spec_high, Z.shiftr_spec by lia. replace (i - 16 + 8) with (i - 8) by lia. by rewrite andb_false_r, xorb_nilpotent.
Qed.
Lemma lxor_below n a b : 0 ≤ n → 0 ≤ a < 2 ^ n → 0 ≤ b < 2 ^ n → 0 ≤ Z.lxor a b < 2 ^ n.
Proof.
  intros Hn Ha Hb. assert (E : Z.lxor a b = Z.lxor a b mod 2 ^ n); [|rewrite E; apply Z.mod_pos_bound; lia].
  rewrite <- Z.land_ones, land_lxor, !Z.land_ones, !Z.mod_small by lia. done.
Qed.

Lemma crc_index crc b :
  0 ≤ crc < 2 ^ 16 → is_byte b → Z.land (Z.lxor (Z.shiftr crc 8) (s8 b)) 0x00FF = Z.lxor (Z.shiftr crc 8) b.
Proof.
  intros Hc Hb. rewrite land_lxor, s8_land, Z.mod_small by done. f_equal. change 0x00FF with (Z.ones 8). rewrite Z.land_ones by lia.
  apply Z.mod_small. rewrite Z.shiftr_div_pow2 by lia. split; [apply Z.div_pos; lia|apply Z.div_lt_upper_bound; lia].
Qed.

Lemma crc16_loop_spec bs : ∀ done crc,
  Forall is_byte bs → is_crc16 done crc → ∃ r, crc16_loop bs crc = Some r ∧ is_crc16 (done ++ bs) r.
Proof.
  induction bs as [|b bs IH]; intros pre crc Hbs Hc; cbn [crc16_loop]; [exists crc; by rewrite app_nil_r|].
  apply Forall_cons in Hbs as [Hb Hbs]. destruct Hc as (Hr & q & Hq & Heq). rewrite crc_index by done.
  assert (Hi : 0 ≤ Z.lxor (Z.shiftr crc 8) b < 256).
  { apply (lxor_below 8); [lia| |exact Hb]. rewrite Z.shiftr_div_pow2 by lia. split; [apply Z.div_pos; lia|apply Z.div_lt_upper_bound; lia]. }
  destruct (crc16tab_entry _ Hi) as (t & q' & -> & Ht & Hq' & Heq'). cbn [mbind option_bind].
  destruct (IH (pre ++ [b]) (u16 (Z.lxor (Z.shiftl crc 8) t)) Hbs) as (r & -> & Hr'); [|exists r; split; [done|]; by rewrite <- app_assoc in Hr'].
  split; [apply wrapu_range; lia|]. exists (Z.lxor (Z.shiftl q 8) q'). split; [apply Z.lxor_nonneg; rewrite Z.shiftl_nonneg; lia|].
  rewrite times_poly_lxor, times_poly_shiftl, <- Heq, <- Heq' by lia. unfold be_poly. rewrite foldl_app. cbn [foldl].
  fold (be_poly pre). unfold wrapu. rewrite <- Z.land_ones, land_lxor, shift_out by lia.
  rewrite (Z.land_ones t), Z.mod_small by lia. rewrite !Z.shiftl_lxor, !Z.shiftl_shiftl by lia. change (8 + 16) with 24. change (16 + 8) with 24. xor_bits.
Qed.
Lemma is_crc16_unique bs r r' : is_crc16 bs r → is_crc16 bs r' → r = r'.
Proof.
  intros (Hr & q & Hq & E) (Hr' & q' & Hq' & E'). apply Z.lxor_eq.
  assert (Hx : times_poly (Z.lxor q q') = Z.lxor r r') by (rewrite times_poly_lxor, <- E, <- E'; xor_bits).
  assert (Hz : Z.lxor q q' = 0).
  { apply times_poly_small; [apply Z.lxor_nonneg; lia|]. rewrite Hx. by apply (lxor_below 16). }
  by rewrite Hz in Hx.
Qed.

Lemma crc16_spec bs : Forall is_byte bs → ∃ r, crc16 bs = Some r ∧ is_crc16 bs r.
Proof.
  intros Hbs. apply (crc16_loop_spec bs []); [done|]. split; [lia|]. by exists 0.
Qed.

(** ** Hash tags *)

(** The part of a key that is hashed: what is between the first brace and the
    next closing one, if there is something, or else the whole key. *)
Definition tagged (key h : list Z) : Prop := ∃ a c, key = a ++ 123 :: h ++ 125 :: c ∧ 123 ∉ a ∧ 125 ∉ h ∧ h ≠ [].
Definition hashes (key h : list Z) : Prop := tagged key h ∨ (h = key ∧ ∀ t, ¬ tagged key t).

Lemma s8_ascii b c : is_byte b → 0 ≤ c < 128 → (s8 b =? c) = bool_decide (b = c).
Proof.
  intros Hb Hc. unfold is_byte in Hb. unfold wraps. change (2 ^ 8) with 256. change (2 ^ (8 - 1)) with 128. destruct (decide (b < 128)).
  - rewrite Z.mod_small by lia. case_bool_decide; lia.
  - replace (b + 128) with (b - 128 + 1 * 256) by lia. rewrite Z_mod_plus_full, Z.mod_small by lia. case_bool_decide; lia.
Qed.

Lemma find_char_spec c l : ∀ fuel a,
  0 ≤ c < 128 → Forall is_byte l → (length l < fuel)%nat →
  ∃ pre rest, l = pre ++ rest ∧ c ∉ pre ∧ (rest = [] ∨ ∃ r, rest = c :: r) ∧
    find_char fuel (a ++ l) (zlen (a ++ l)) c (zlen a) = Some (zlen a + zlen pre).
Proof.
  induction l as [|b l IH]; intros fuel a Hc Hl Hf; (destruct fuel as [|fuel]; [cbn in Hf; lia|]); cbn [find_char].
  - exists [], []. rewrite (app_nil_r a), Z.ltb_irrefl. split_and!; [done|set_solver|by left|]. f_equal. cbn. lia.
  - apply Forall_cons in Hl as [Hb Hl]. cbn [length] in Hf. destruct (Z.ltb_spec (zlen a) (zlen (a ++ b :: l))); [|rewrite length_app in *; cbn [length] in *; lia].
    rewrite load8_app by done. cbn [mbind option_bind]. rewrite s8_ascii by done. case_bool_decide as Heq.
    + subst. exists [], (c :: l). split_and!; [done|set_solver|right; by exists l|]. f_equal. cbn. lia.
    + destruct (IH fuel (a ++ [b])) as (pre & rest & -> & Hni & Hr & Hfind); [done|done|lia|]. exists (b :: pre), rest.
      rewrite <- app_assoc in Hfind. cbn [app] in Hfind.
      assert (Hl1 : zlen (a ++ [b]) = zlen a + 1) by (rewrite length_app; cbn [length]; lia). rewrite Hl1 in Hfind. rewrite Hfind.
      split_and!; [done|set_solver|done|]. f_equal. cbn [length]. lia.
Qed.

Lemma app_cons_unique (c : Z) a a' b b' : a ++ c :: b = a' ++ c :: b' → c ∉ a → c ∉ a' → a = a' ∧ b = b'.
Proof.
  revert a'. induction a as [|x a IH]; intros [|y a'] E Ha Ha'; cbn in E.
  - by injection E.
  - injection E as <- _. set_solver.
  - injection E as -> _. set_solver.
  - injection E as -> E. destruct (IH a' E) as [-> ->]; [set_solver|set_solver|done].
Qed.

Lemma tagged_unique key h h' : tagged key h → tagged key h' → h = h'.
Proof.
  intros (a & c & -> & Ha & Hh & _) (a' & c' & E & Ha' & Hh' & _).
  apply app_cons_unique in E as [-> E]; [|done|done]. by apply app_cons_unique in E as [-> _].
Qed.
Lemma hashes_unique key h h' : hashes key h → hashes key h' → h = h'.
Proof.
  intros [Ht|[-> Hn]] [Ht'|[-> Hn']]; [by eapply tagged_unique| | |done].
  - by destruct (Hn' h).
  - by destruct (Hn h').
Qed.

Lemma slot_of bs r : is_crc16 bs r → Z.land r 0x3FFF = r mod 2 ^ 14.
Proof. intros _. change 0x3FFF with (Z.ones 14). by rewrite Z.land_ones. Qed.

(** C13.  The hash slot of a key is the CRC16 of its hash tag modulo 16384.
    For every key, the code finds the part to hash (what is between the first
    opening brace and the next closing one, or the whole key when there is no
    such pair or nothing between them) and returns the low 14 bits of its CRC.
    The CRC is the remainder of that string, as a polynomial over GF(2) times
    x^16, by x^16 + x^12 + x^5 + 1, so all 256 entries of the table are right.
    Part and remainder are unique: keys with the same tag have the same slot. *)
Theorem keyHashSlot_correct key :
  Forall is_byte key → zlen key ≤ INT32_MAX →
  ∃ h r, hashes key h ∧ is_crc16 h r ∧ keyHashSlot key (zlen key) = Some (r mod 2 ^ 14) ∧
    (∀ h', hashes key h' → h' = h) ∧ (∀ r', is_crc16 h r' → r' = r).
Proof.
  intros Hk _. cut (∃ h, hashes key h ∧ Forall is_byte h ∧
    keyHashSlot key (zlen key) = (r ← crc16 h; Some (Z.land r 0x3FFF))).
  { intros (h & Hh & Hb & Hs). destruct (crc16_spec h Hb) as (r & Hr & Hc). exists h, r. rewrite Hs, Hr. cbn [mbind option_bind].
    rewrite (slot_of h r Hc). split_and!; [done..|by intros; eapply hashes_unique|by intros; eapply is_crc16_unique]. }
  assert (Hwhole : load key 0 (zlen key) = Some key) by (rewrite <- (app_nil_r key) at 1; by apply load_head).
  unfold keyHashSlot. rewrite Hwhole. cbn [mbind option_bind].
  destruct (find_char_spec 123 key (S (length key)) []) as (a & rest & Ek & Ha & Hr & Hf); [lia|done|lia|]. cbn [app length] in Hf.
  change (Z.of_nat 0) with 0 in Hf. rewrite Hf. cbn [mbind option_bind]. clear Hf.
  destruct Hr as [-> | (l & ->)].
  { rewrite app_nil_r in Ek. subst a. rewrite Z.add_0_l, Z.eqb_refl. exists key. split; [|done]. right. split; [done|].
    intros t (a & c & E & _). apply Ha. rewrite E. set_solver. }
  subst key. rewrite Z.add_0_l. destruct (Z.eqb_spec (zlen a) (zlen (a ++ 123 :: l))) as [E|_]; [rewrite length_app in E; cbn [length] in E; lia|].
  pose proof Hk as Hk'. apply Forall_app in Hk' as [_ Hl]. apply Forall_cons in Hl as [_ Hl].
  destruct (find_char_spec 125 l (S (length (a ++ 123 :: l))) (a ++ [123])) as (h & rest & -> & Hh & Hr & Hf);
    [lia|done|rewrite length_app; cbn [length]; lia|].
  assert (Happ : ∀ x, (a ++ [123]) ++ x = a ++ 123 :: x) by (intros; by rewrite <- app_assoc). rewrite Happ, (length_app a [123]) in Hf. cbn [length] in Hf.
  replace (Z.of_nat (length a + 1)) with (zlen a + 1) in Hf by lia. rewrite Hf. cbn [mbind option_bind]. clear Hf.
  destruct Hr as [-> | (c & ->)].
  { rewrite app_nil_r in *. replace (zlen a + 1 + zlen h) with (zlen (a ++ 123 :: h)) by (rewrite length_app; cbn [length]; lia). rewrite Z.eqb_refl. cbn [orb].
    exists (a ++ 123 :: h). split; [|done]. right. split; [done|]. intros t (a' & c & E & Ha' & _).
    apply app_cons_unique in E as [_ E]; [|done|done]. apply Hh. rewrite E. set_solver. }
  destruct (Z.eqb_spec (zlen a + 1 + zlen h) (zlen (a ++ 123 :: h ++ 125 :: c))) as [E|_];
    [rewrite length_app in E; cbn [length] in E; rewrite length_app in E; cbn [length] in E; lia|]. cbn [orb].
  destruct (Z.eqb_spec (zlen a + 1 + zlen h) (zlen a + 1)) as [E|Hne].
  - assert (h = []) as -> by (destruct h; [done|cbn [length] in E; lia]). exists (a ++ 123 :: [] ++ 125 :: c). split; [|done]. right. split; [done|].
    intros t (a' & c' & E' & Ha' & Ht & Hne). apply app_cons_unique in E' as [_ E']; [|done|done]. destruct t as [|x t]; [done|]. injection E' as <- _. apply Ht. by left.
  - exists h. split; [left; exists a, c; split_and!; [done|done|done|intros ->; cbn in Hne; lia]|].
    apply Forall_app in Hl as [Hhb _]. split; [done|]. rewrite <- (Happ (h ++ 125 :: c)), load_app; [done| |]; [rewrite length_app; cbn [length]; lia|lia].
Qed.

(** A key with a tag. *)
Lemma keyHashSlot_witness : ∃ r, is_crc16 [49; 50; 51] r ∧ keyHashSlot [97; 123; 49; 50; 51; 125; 98] 7 = Some (r mod 2 ^ 14).
Proof.
  destruct (keyHashSlot_correct [97; 123; 49; 50; 51; 125; 98]) as (h & r & Hh & Hr & Hs & Hu & _).
  - apply (bool_decide_unpack _). by vm_compute.
  - cbn. unfold INT32_MAX. lia.
  - exists r. assert (Ht : hashes [97; 123; 49; 50; 51; 125; 98] [49; 50; 51]).
    { left. exists [97], [98]. split_and!; [done|set_solver|set_solver|done]. }
    rewrite (Hu _ Ht). split; [exact Hr|exact Hs].
Defined.

(** The check value of the comment: the CRC of 123456789 is 31C3. *)
Example crc16_check : crc16 [49; 50; 51; 52; 53; 54; 55; 56; 57] = Some 0x31C3.
Proof. by vm_compute. Qed.

End KeySlot.
