(* ===== verification/Cluster.v ===== *)
(** * cluster.c: slots, roles, epochs and elections of a cluster node

    The state that a node keeps about the cluster: who owns each of the 16384
    slots, who replicates whom, configuration epochs, failure reports, votes.
    Nodes live in a heap; a pointer to a node that was freed gives [None], and
    so does a NULL pointer.  What a handler asks other parts of the server to do
    (messages, replication, the keyspace, the configuration file) is recorded as
    a list of effects.  Addresses, links, hostnames and the textual
    configuration are not part of the model. *)

From S2P Require Import Prelude Zskiplist.
Import Zskiplist.

Module Cluster.

(** ** Data *)

Definition CLUSTER_SLOTS : Z := 16384.
Definition CLUSTER_NAMELEN : nat := 40.
Definition CLUSTER_OK : Z := 0.
Definition CLUSTER_FAIL : Z := 1.
Definition CLUSTER_FAIL_REPORT_VALIDITY_MULT : Z := 2.
Definition CLUSTER_FAIL_UNDO_TIME_MULT : Z := 2.

Definition CLUSTER_NODE_MASTER : Z := 1.
Definition CLUSTER_NODE_SLAVE : Z := 2.
Definition CLUSTER_NODE_PFAIL : Z := 4.
Definition CLUSTER_NODE_FAIL : Z := 8.
Definition CLUSTER_NODE_MYSELF : Z := 16.
Definition CLUSTER_NODE_HANDSHAKE : Z := 32.
Definition CLUSTER_NODE_MIGRATE_TO : Z := 256.
Definition CLUSTER_NODE_NOFAILOVER : Z := 512.

Definition CLUSTER_TODO_HANDLE_FAILOVER : Z := Z.shiftl 1 0.
Definition CLUSTER_TODO_UPDATE_STATE : Z := Z.shiftl 1 1.
Definition CLUSTER_TODO_SAVE_CONFIG : Z := Z.shiftl 1 2.
Definition CLUSTER_TODO_FSYNC_CONFIG : Z := Z.shiftl 1 3.
Definition CLUSTER_TODO_HANDLE_MANUALFAILOVER : Z := Z.shiftl 1 4.

(** The address of a node. *)
Abbreviation addr := Z (only parsing).

(** [slaves] with [numslaves] is a list. *)
Record clusterNode := ClusterNode {
  n_name : list Z;
  n_shard_id : list Z;
  n_flags : Z;
  n_configEpoch : Z;
  n_slots : list Z;
  n_numslots : Z;
  n_slaves : list addr;
  n_slaveof : option addr;
  n_fail_time : Z;
  n_voted_time : Z;
  n_repl_offset : Z;
  n_fail_reports : list (addr * Z);
  n_orphaned_time : Z;
}.

(** The values of the dict [nodes] in the order of an iteration, the dict
    [shards] as a map. *)
Record clusterState := ClusterState {
  c_myself : addr;
  c_currentEpoch : Z;
  c_state : Z;
  c_size : Z;
  c_nodes : list addr;
  c_shards : gmap (list Z) (list addr);
  c_migrating_slots_to : list (option addr);
  c_importing_slots_from : list (option addr);
  c_slots : list (option addr);
  c_failover_auth_time : Z;
  c_failover_auth_count : Z;
  c_failover_auth_sent : bool;
  c_failover_auth_rank : Z;
  c_failover_auth_epoch : Z;
  c_mf_end : Z;
  c_mf_slave : option addr;
  c_mf_master_offset : Z;
  c_mf_can_start : bool;
  c_lastVoteEpoch : Z;
  c_todo_before_sleep : Z;
  c_owner_not_claiming_slot : list Z;
  (** [first_call_time] and [among_minority_time] of [clusterUpdateState]. *)
  c_first_call_time : Z;
  c_among_minority_time : Z;
}.

(** What a handler asks of the rest of the server. *)
Inductive effect :=
  | EffRemoveChannelsInSlot (slot : Z)
  | EffDelKeysInSlot (slot : Z)
  | EffReplicationSetMaster (n : addr)
  | EffReplicationUnsetMaster
  | EffUnpauseActions
  | EffSendFailoverAuth (n : addr)
  | EffRequestFailoverAuth
  | EffSendFail (n : addr)
  | EffSendUpdate (receiver n : addr)
  | EffBroadcastPong (all : bool)
  | EffSaveConfig
  | EffBlacklistAdd (n : addr)
  | EffBlacklistEmpty
  | EffEmptyData
  | EffSendMFStart (n : addr)
  | EffPauseActions (end_ : Z)
  | EffSendPing (n : addr).

(** ** Computations *)

(** The heap, the state, the number of times the clock and random() were read,
    the effects so far. *)
Record world := World {
  w_heap : gmap addr clusterNode;
  w_c : clusterState;
  w_ticks : nat;
  w_randoms : nat;
  w_out : list effect;
}.
Definition M (A : Type) : Type := world → option (A * world).
#[export] Instance M_ret : MRet M := λ A x w, Some (x, w).
#[export] Instance M_bind : MBind M := λ A B f m w, match m w with Some (x, w') => f x w' | None => None end.

Definition lift {A} (x : option A) : M A := λ w, match x with Some a => Some (a, w) | None => None end.
Definition gets {A} (f : clusterState → A) : M A := λ w, Some (f (w_c w), w).
Definition modify (f : clusterState → clusterState) : M unit :=
  λ w, Some (tt, World (w_heap w) (f (w_c w)) (w_ticks w) (w_randoms w) (w_out w)).
Definition get_node (n : addr) : M clusterNode := λ w, match w_heap w !! n with Some nd => Some (nd, w) | None => None end.
Definition mod_node (n : addr) (f : clusterNode → clusterNode) : M unit :=
  λ w, match w_heap w !! n with
       | Some nd => Some (tt, World (<[n := f nd]> (w_heap w)) (w_c w) (w_ticks w) (w_randoms w) (w_out w))
       | None => None
       end.
Definition alloc_node (n : addr) (nd : clusterNode) : M unit :=
  λ w, match w_heap w !! n with
       | Some _ => None
       | None => Some (tt, World (<[n := nd]> (w_heap w)) (w_c w) (w_ticks w) (w_randoms w) (w_out w))
       end.
Definition dealloc_node (n : addr) : M unit :=
  λ w, match w_heap w !! n with
       | Some _ => Some (tt, World (delete n (w_heap w)) (w_c w) (w_ticks w) (w_randoms w) (w_out w))
       | None => None
       end.
Definition deref (p : option addr) : M addr := lift p.
Definition serverAssert (b : bool) : M unit := lift (assert b).
Definition emit (e : effect) : M unit :=
  λ w, Some (tt, World (w_heap w) (w_c w) (w_ticks w) (w_randoms w) (w_out w ++ [e])).

(** [for (j = 0; ...)] over a list of indices or nodes, with the variables that
    the body changes. *)
Fixpoint for_each {A B} (body : A → B → M B) (js : list A) (acc : B) : M B :=
  match js with
  | [] => mret acc
  | j :: js => acc ← body j acc; for_each body js acc
  end.
Definition all_slots : list Z := seqZ 0 CLUSTER_SLOTS.

(** ** Fields *)

Definition set_flags (f : Z → Z) (n : clusterNode) : clusterNode :=
  ClusterNode (n_name n) (n_shard_id n) (f (n_flags n)) (n_configEpoch n) (n_slots n) (n_numslots n) (n_slaves n) (n_slaveof n)
    (n_fail_time n) (n_voted_time n) (n_repl_offset n) (n_fail_reports n) (n_orphaned_time n).
Definition set_shard_id (v : list Z) (n : clusterNode) : clusterNode :=
  ClusterNode (n_name n) v (n_flags n) (n_configEpoch n) (n_slots n) (n_numslots n) (n_slaves n) (n_slaveof n)
    (n_fail_time n) (n_voted_time n) (n_repl_offset n) (n_fail_reports n) (n_orphaned_time n).
Definition set_configEpoch (v : Z) (n : clusterNode) : clusterNode :=
  ClusterNode (n_name n) (n_shard_id n) (n_flags n) v (n_slots n) (n_numslots n) (n_slaves n) (n_slaveof n)
    (n_fail_time n) (n_voted_time n) (n_repl_offset n) (n_fail_reports n) (n_orphaned_time n).
Definition set_bitmap (v : list Z) (num : Z → Z) (n : clusterNode) : clusterNode :=
  ClusterNode (n_name n) (n_shard_id n) (n_flags n) (n_configEpoch n) v (num (n_numslots n)) (n_slaves n) (n_slaveof n)
    (n_fail_time n) (n_voted_time n) (n_repl_offset n) (n_fail_reports n) (n_orphaned_time n).
Definition set_slaves (v : list addr) (n : clusterNode) : clusterNode :=
  ClusterNode (n_name n) (n_shard_id n) (n_flags n) (n_configEpoch n) (n_slots n) (n_numslots n) v (n_slaveof n)
    (n_fail_time n) (n_voted_time n) (n_repl_offset n) (n_fail_reports n) (n_orphaned_time n).
Definition set_slaveof (v : option addr) (n : clusterNode) : clusterNode :=
  ClusterNode (n_name n) (n_shard_id n) (n_flags n) (n_configEpoch n) (n_slots n) (n_numslots n) (n_slaves n) v
    (n_fail_time n) (n_voted_time n) (n_repl_offset n) (n_fail_reports n) (n_orphaned_time n).
Definition set_fail_time (v : Z) (n : clusterNode) : clusterNode :=
  ClusterNode (n_name n) (n_shard_id n) (n_flags n) (n_configEpoch n) (n_slots n) (n_numslots n) (n_slaves n) (n_slaveof n)
    v (n_voted_time n) (n_repl_offset n) (n_fail_reports n) (n_orphaned_time n).
Definition set_voted_time (v : Z) (n : clusterNode) : clusterNode :=
  ClusterNode (n_name n) (n_shard_id n) (n_flags n) (n_configEpoch n) (n_slots n) (n_numslots n) (n_slaves n) (n_slaveof n)
    (n_fail_time n) v (n_repl_offset n) (n_fail_reports n) (n_orphaned_time n).
Definition set_repl_offset (v : Z) (n : clusterNode) : clusterNode :=
  ClusterNode (n_name n) (n_shard_id n) (n_flags n) (n_configEpoch n) (n_slots n) (n_numslots n) (n_slaves n) (n_slaveof n)
    (n_fail_time n) (n_voted_time n) v (n_fail_reports n) (n_orphaned_time n).
Definition set_fail_reports (v : list (addr * Z)) (n : clusterNode) : clusterNode :=
  ClusterNode (n_name n) (n_shard_id n) (n_flags n) (n_configEpoch n) (n_slots n) (n_numslots n) (n_slaves n) (n_slaveof n)
    (n_fail_time n) (n_voted_time n) (n_repl_offset n) v (n_orphaned_time n).
Definition set_orphaned_time (v : Z) (n : clusterNode) : clusterNode :=
  ClusterNode (n_name n) (n_shard_id n) (n_flags n) (n_configEpoch n) (n_slots n) (n_numslots n) (n_slaves n) (n_slaveof n)
    (n_fail_time n) (n_voted_time n) (n_repl_offset n) (n_fail_reports n) v.
Definition set_name (v : list Z) (n : clusterNode) : clusterNode :=
  ClusterNode v (n_shard_id n) (n_flags n) (n_configEpoch n) (n_slots n) (n_numslots n) (n_slaves n) (n_slaveof n)
    (n_fail_time n) (n_voted_time n) (n_repl_offset n) (n_fail_reports n) (n_orphaned_time n).

Definition put_currentEpoch (x : Z) (s : clusterState) : clusterState :=
  let 'ClusterState a _ c d e f g h i j k l m n o p q r s t u v w := s in
  ClusterState a x c d e f g h i j k l m n o p q r s t u v w.
Definition put_state (x : Z) (s : clusterState) : clusterState :=
  let 'ClusterState a b _ d e f g h i j k l m n o p q r s t u v w := s in
  ClusterState a b x d e f g h i j k l m n o p q r s t u v w.
Definition put_size (x : Z) (s : clusterState) : clusterState :=
  let 'ClusterState a b c _ e f g h i j k l m n o p q r s t u v w := s in
  ClusterState a b c x e f g h i j k l m n o p q r s t u v w.
Definition put_nodes (x : list addr) (s : clusterState) : clusterState :=
  let 'ClusterState a b c d _ f g h i j k l m n o p q r s t u v w := s in
  ClusterState a b c d x f g h i j k l m n o p q r s t u v w.
Definition put_shards (x : gmap (list Z) (list addr)) (s : clusterState) : clusterState :=
  let 'ClusterState a b c d e _ g h i j k l m n o p q r s t u v w := s in
  ClusterState a b c d e x g h i j k l m n o p q r s t u v w.
Definition put_migrating_slots_to (x : list (option addr)) (s : clusterState) : clusterState :=
  let 'ClusterState a b c d e f _ h i j k l m n o p q r s t u v w := s in
  ClusterState a b c d e f x h i j k l m n o p q r s t u v w.
Definition put_importing_slots_from (x : list (option addr)) (s : clusterState) : clusterState :=
  let 'ClusterState a b c d e f g _ i j k l m n o p q r s t u v w := s in
  ClusterState a b c d e f g x i j k l m n o p q r s t u v w.
Definition put_slots (x : list (option addr)) (s : clusterState) : clusterState :=
  let 'ClusterState a b c d e f g h _ j k l m n o p q r s t u v w := s in
  ClusterState a b c d e f g h x j k l m n o p q r s t u v w.
Definition put_failover_auth_time (x : Z) (s : clusterState) : clusterState :=
  let 'ClusterState a b c d e f g h i _ k l m n o p q r s t u v w := s in
  ClusterState a b c d e f g h i x k l m n o p q r s t u v w.
Definition put_failover_auth_count (x : Z) (s : clusterState) : clusterState :=
  let 'ClusterState a b c d e f g h i j _ l m n o p q r s t u v w := s in
  ClusterState a b c d e f g h i j x l m n o p q r s t u v w.
Definition put_failover_auth_sent (x : bool) (s : clusterState) : clusterState :=
  let 'ClusterState a b c d e f g h i j k _ m n o p q r s t u v w := s in
  ClusterState a b c d e f g h i j k x m n o p q r s t u v w.
Definition put_failover_auth_rank (x : Z) (s : clusterState) : clusterState :=
  let 'ClusterState a b c d e f g h i j k l _ n o p q r s t u v w := s in
  ClusterState a b c d e f g h i j k l x n o p q r s t u v w.
Definition put_failover_auth_epoch (x : Z) (s : clusterState) : clusterState :=
  let 'ClusterState a b c d e f g h i j k l m _ o p q r s t u v w := s in
  ClusterState a b c d e f g h i j k l m x o p q r s t u v w.
Definition put_lastVoteEpoch (x : Z) (s : clusterState) : clusterState :=
  let 'ClusterState a b c d e f g h i j k l m n o p q r _ t u v w := s in
  ClusterState a b c d e f g h i j k l m n o p q r x t u v w.
Definition put_todo_before_sleep (x : Z) (s : clusterState) : clusterState :=
  let 'ClusterState a b c d e f g h i j k l m n o p q r s _ u v w := s in
  ClusterState a b c d e f g h i j k l m n o p q r s x u v w.
Definition put_owner_not_claiming_slot (x : list Z) (s : clusterState) : clusterState :=
  let 'ClusterState a b c d e f g h i j k l m n o p q r s t _ v w := s in
  ClusterState a b c d e f g h i j k l m n o p q r s t x v w.
Definition put_first_call_time (x : Z) (s : clusterState) : clusterState :=
  let 'ClusterState a b c d e f g h i j k l m n o p q r s t u _ w := s in
  ClusterState a b c d e f g h i j k l m n o p q r s t u x w.
Definition put_among_minority_time (x : Z) (s : clusterState) : clusterState :=
  let 'ClusterState a b c d e f g h i j k l m n o p q r s t u v _ := s in
  ClusterState a b c d e f g h i j k l m n o p q r s t u v x.
Definition put_mf (x : Z) (y : option addr) (z : Z) (b : bool) (s : clusterState) : clusterState :=
  let 'ClusterState a1 b1 c1 d1 e1 f1 g1 h1 i1 j1 k1 l1 m1 n1 _ _ _ _ s1 t1 u1 v1 w1 := s in
  ClusterState a1 b1 c1 d1 e1 f1 g1 h1 i1 j1 k1 l1 m1 n1 x y z b s1 t1 u1 v1 w1.

Definition nodeIsMaster (n : clusterNode) : bool := negb (Z.land (n_flags n) CLUSTER_NODE_MASTER =? 0).
Definition nodeIsSlave (n : clusterNode) : bool := negb (Z.land (n_flags n) CLUSTER_NODE_SLAVE =? 0).
Definition nodeInHandshake (n : clusterNode) : bool := negb (Z.land (n_flags n) CLUSTER_NODE_HANDSHAKE =? 0).
Definition nodeTimedOut (n : clusterNode) : bool := negb (Z.land (n_flags n) CLUSTER_NODE_PFAIL =? 0).
Definition nodeFailed (n : clusterNode) : bool := negb (Z.land (n_flags n) CLUSTER_NODE_FAIL =? 0).
Definition nodeCantFailover (n : clusterNode) : bool := negb (Z.land (n_flags n) CLUSTER_NODE_NOFAILOVER =? 0).
Definition add_flags (f : Z) : clusterNode → clusterNode := set_flags (λ x, Z.lor x f).
Definition del_flags (f : Z) : clusterNode → clusterNode := set_flags (λ x, Z.land x (Z.lnot f)).

Definition clusterDoBeforeSleep (flags : Z) : M unit := modify (λ c, put_todo_before_sleep (Z.lor (c_todo_before_sleep c) flags) c).

(** ** Slots *)

(** [1<<bit] with [bit] below 8; the assignments convert to unsigned char. *)
Definition bitmapTestBit (bitmap : list Z) (pos : Z) : option bool :=
  b ← load8 bitmap (pos / 8); Some (negb (Z.land b (Z.shiftl 1 (Z.land pos 7)) =? 0)).
Definition bitmapSetBit (bitmap : list Z) (pos : Z) : option (list Z) :=
  b ← load8 bitmap (pos / 8); store bitmap (pos / 8) [u8 (Z.lor b (Z.shiftl 1 (Z.land pos 7)))].
Definition bitmapClearBit (bitmap : list Z) (pos : Z) : option (list Z) :=
  b ← load8 bitmap (pos / 8); store bitmap (pos / 8) [u8 (Z.land b (Z.lnot (Z.shiftl 1 (Z.land pos 7))))].

(** An entry of one of the arrays of [CLUSTER_SLOTS] pointers. *)
Definition entry_of (l : list (option addr)) (j : Z) : M (option addr) :=
  lift (if decide (0 ≤ j) then l !! Z.to_nat j else None).
Definition slot_owner (j : Z) : M (option addr) := l ← gets c_slots; entry_of l j.
Definition put_slot (j : Z) (v : option addr) : M unit := modify (λ c, put_slots (<[Z.to_nat j := v]> (c_slots c)) c).

(** [slaves] is an int. *)
Definition clusterMastersHaveSlaves : M bool :=
  nodes ← gets c_nodes;
  slaves ← for_each (λ n slaves, nd ← get_node n; mret (if nodeIsSlave nd then slaves else s32 (slaves + zlen (n_slaves nd)))) nodes 0;
  mret (negb (slaves =? 0)).

Definition clusterNodeSetSlotBit (n : addr) (slot : Z) : M bool :=
  nd ← get_node n;
  old ← lift (bitmapTestBit (n_slots nd) slot);
  _ ← (if negb old then
         bm ← lift (bitmapSetBit (n_slots nd) slot);
         _ ← mod_node n (set_bitmap bm (λ k, s32 (k + 1)));
         nd ← get_node n;
         if n_numslots nd =? 1 then
           have ← clusterMastersHaveSlaves;
           if (have : bool) then mod_node n (add_flags CLUSTER_NODE_MIGRATE_TO) else mret tt
         else mret tt
       else mret tt);
  mret old.
Definition clusterNodeClearSlotBit (n : addr) (slot : Z) : M bool :=
  nd ← get_node n;
  old ← lift (bitmapTestBit (n_slots nd) slot);
  _ ← (if (old : bool) then
         bm ← lift (bitmapClearBit (n_slots nd) slot);
         mod_node n (set_bitmap bm (λ k, s32 (k - 1)))
       else mret tt);
  mret old.
Definition clusterNodeGetSlotBit (n : addr) (slot : Z) : M bool :=
  nd ← get_node n; lift (bitmapTestBit (n_slots nd) slot).

(** [C_OK] is [true]. *)
Definition clusterAddSlot (n : addr) (slot : Z) : M bool :=
  o ← slot_owner slot;
  match o with
  | Some _ => mret false
  | None => _ ← clusterNodeSetSlotBit n slot; _ ← put_slot slot (Some n); mret true
  end.
Definition clusterDelSlot (slot : Z) : M bool :=
  o ← slot_owner slot;
  match o with
  | None => mret false
  | Some n =>
      _ ← emit (EffRemoveChannelsInSlot slot);
      old ← clusterNodeClearSlotBit n slot;
      _ ← serverAssert old;
      _ ← put_slot slot None;
      mret true
  end.
Definition clusterDelNodeSlots (node : addr) : M Z :=
  for_each (λ j deleted,
    bit ← clusterNodeGetSlotBit node j;
    if (bit : bool) then _ ← clusterDelSlot j; mret (s32 (deleted + 1)) else mret deleted) all_slots 0.
Definition clusterCloseAllSlots : M unit :=
  _ ← modify (λ c, put_migrating_slots_to (replicate (Z.to_nat CLUSTER_SLOTS) None) c);
  modify (λ c, put_importing_slots_from (replicate (Z.to_nat CLUSTER_SLOTS) None) c).

Definition isSlotUnclaimed (slot : Z) : M bool :=
  o ← slot_owner slot;
  match o with
  | None => mret true
  | Some _ => bm ← gets c_owner_not_claiming_slot; lift (bitmapTestBit bm slot)
  end.

(** ** Replicas and shards *)

Definition clusterNodeRemoveSlave (master slave : addr) : M bool :=
  m ← get_node master;
  match list_find (slave =.) (n_slaves m) with
  | Some (j, _) =>
      let rest := delete j (n_slaves m) in
      _ ← mod_node master (set_slaves rest);
      _ ← (if (length rest =? 0)%nat then mod_node master (del_flags CLUSTER_NODE_MIGRATE_TO) else mret tt);
      mret true
  | None => mret false
  end.
Definition clusterNodeAddSlave (master slave : addr) : M bool :=
  m ← get_node master;
  if bool_decide (slave ∈ n_slaves m) then mret false
  else
    _ ← mod_node master (set_slaves (n_slaves m ++ [slave]));
    _ ← mod_node master (add_flags CLUSTER_NODE_MIGRATE_TO);
    mret true.
Definition clusterCountNonFailingSlaves (n : addr) : M Z :=
  nd ← get_node n;
  for_each (λ x okslaves, xd ← get_node x; mret (if nodeFailed xd then okslaves else s32 (okslaves + 1))) (n_slaves nd) 0.

Definition clusterAddNodeToShard (shard_id : list Z) (node : addr) : M unit :=
  shards ← gets c_shards;
  match shards !! shard_id with
  | None => modify (put_shards (<[shard_id := [node]]> shards))
  | Some l => if bool_decide (node ∈ l) then mret tt else modify (put_shards (<[shard_id := l ++ [node]]> shards))
  end.
Definition clusterRemoveNodeFromShard (node : addr) : M unit :=
  nd ← get_node node;
  shards ← gets c_shards;
  match shards !! n_shard_id nd with
  | None => mret tt
  | Some l =>
      let l := match list_find (node =.) l with Some (j, _) => delete j l | None => l end in
      modify (put_shards (if (length l =? 0)%nat then delete (n_shard_id nd) shards else <[n_shard_id nd := l]> shards))
  end.
(** [shard_id] is not NULL. *)
Definition updateShardId (node : addr) (shard_id : list Z) : M unit :=
  let move n flags :=
    _ ← clusterRemoveNodeFromShard n;
    _ ← mod_node n (set_shard_id shard_id);
    _ ← clusterAddNodeToShard shard_id n;
    clusterDoBeforeSleep flags in
  nd ← get_node node;
  _ ← (if negb (memcmp (n_shard_id nd) shard_id CLUSTER_NAMELEN =? 0) then move node CLUSTER_TODO_SAVE_CONFIG else mret tt);
  myself ← gets c_myself;
  md ← get_node myself;
  if negb (myself =? node) && bool_decide (n_slaveof md = Some node) then
    if negb (memcmp (n_shard_id md) shard_id CLUSTER_NAMELEN =? 0)
    then move myself (Z.lor CLUSTER_TODO_SAVE_CONFIG CLUSTER_TODO_FSYNC_CONFIG) else mret tt
  else mret tt.

(** ** Roles *)

Definition resetManualFailover : M unit :=
  mf_slave ← gets c_mf_slave;
  _ ← match mf_slave with Some _ => emit EffUnpauseActions | None => mret tt end;
  modify (put_mf 0 None (-1) false).

Definition clusterSetNodeAsMaster (n : addr) : M unit :=
  nd ← get_node n;
  if nodeIsMaster nd then mret tt
  else
    _ ← match n_slaveof nd with
        | Some m =>
            _ ← clusterNodeRemoveSlave m n;
            myself ← gets c_myself;
            if negb (n =? myself) then mod_node n (add_flags CLUSTER_NODE_MIGRATE_TO) else mret tt
        | None => mret tt
        end;
    _ ← mod_node n (del_flags CLUSTER_NODE_SLAVE);
    _ ← mod_node n (add_flags CLUSTER_NODE_MASTER);
    _ ← mod_node n (set_slaveof None);
    clusterDoBeforeSleep (Z.lor CLUSTER_TODO_SAVE_CONFIG CLUSTER_TODO_UPDATE_STATE).

Definition clusterSetMaster (n : addr) : M unit :=
  myself ← gets c_myself;
  _ ← serverAssert (negb (n =? myself));
  md ← get_node myself;
  _ ← serverAssert (n_numslots md =? 0);
  _ ← (if nodeIsMaster md then
         _ ← mod_node myself (del_flags (Z.lor CLUSTER_NODE_MASTER CLUSTER_NODE_MIGRATE_TO));
         _ ← mod_node myself (add_flags CLUSTER_NODE_SLAVE);
         clusterCloseAllSlots
       else
         match n_slaveof md with
         | Some m => _ ← clusterNodeRemoveSlave m myself; mret tt
         | None => mret tt
         end);
  _ ← mod_node myself (set_slaveof (Some n));
  nd ← get_node n;
  _ ← updateShardId myself (n_shard_id nd);
  _ ← clusterNodeAddSlave n myself;
  _ ← emit (EffReplicationSetMaster n);
  resetManualFailover.

(** ** Nodes *)

(** A new node at [n]; the random shard id is an argument, and so is the name
    that is made up when none is given. *)
Definition createClusterNode (n : addr) (nodename shard_id : list Z) (flags : Z) : M unit :=
  alloc_node n (ClusterNode nodename shard_id flags 0 (replicate (Z.to_nat (CLUSTER_SLOTS / 8)) 0) 0 [] None 0 0 0 [] 0).
(** Entries of [nodes] have different names; the model finds a node by its
    address. *)
Definition clusterAddNode (n : addr) : M unit :=
  nodes ← gets c_nodes;
  _ ← serverAssert (bool_decide (n ∉ nodes));
  modify (put_nodes (nodes ++ [n])).

Definition freeClusterNode (n : addr) : M unit :=
  nd ← get_node n;
  _ ← for_each (λ x _, mod_node x (set_slaveof None)) (n_slaves nd) tt;
  nd ← get_node n;
  _ ← match n_slaveof nd with
      | Some m => if nodeIsSlave nd then _ ← clusterNodeRemoveSlave m n; mret tt else mret tt
      | None => mret tt
      end;
  nodes ← gets c_nodes;
  _ ← serverAssert (bool_decide (n ∈ nodes));
  _ ← modify (put_nodes (filter (.≠ n) nodes));
  dealloc_node n.

(** ** Failure reports *)

Section clock.
(** The successive values of [mstime()] and of [random()]. *)
Context (clock randoms : nat → Z).

Definition mstime : M Z := λ w, Some (clock (w_ticks w), World (w_heap w) (w_c w) (S (w_ticks w)) (w_randoms w) (w_out w)).
Definition random : M Z := λ w, Some (randoms (w_randoms w), World (w_heap w) (w_c w) (w_ticks w) (S (w_randoms w)) (w_out w)).

(** The configuration of the server, the time and the replication state. *)
Record server_t := Server {
  cluster_node_timeout : Z;
  cluster_require_full_coverage : bool;
  cluster_allow_replica_migration : bool;
  cluster_module_no_redirection : bool;
  cluster_module_no_failover : bool;
  cluster_migration_barrier : Z;
  cluster_slave_no_failover : bool;
  cluster_slave_validity_factor : Z;
  repl_ping_slave_period : Z;
  repl_connected : bool;
  unixtime : Z;
  lastinteraction : Z;
  repl_down_since : Z;
  replicationGetSlaveOffset : Z;
  countKeysInSlot : Z → Z;
}.
Context (server : server_t).

Definition clusterNodeAddFailureReport (failing sender : addr) : M bool :=
  nd ← get_node failing;
  let l := n_fail_reports nd in
  match list_find (λ fr, fr.1 = sender) l with
  | Some (i, _) => t ← mstime; _ ← mod_node failing (set_fail_reports (<[i := (sender, t)]> l)); mret false
  | None => t ← mstime; _ ← mod_node failing (set_fail_reports (l ++ [(sender, t)])); mret true
  end.
Definition clusterNodeCleanupFailureReports (node : addr) : M unit :=
  nd ← get_node node;
  let maxtime := cluster_node_timeout server * CLUSTER_FAIL_REPORT_VALIDITY_MULT in
  now ← mstime;
  mod_node node (set_fail_reports (filter (λ fr, ¬ now - fr.2 > maxtime) (n_fail_reports nd))).
Definition clusterNodeDelFailureReport (node sender : addr) : M bool :=
  nd ← get_node node;
  match list_find (λ fr, fr.1 = sender) (n_fail_reports nd) with
  | None => mret false
  | Some (i, _) =>
      _ ← mod_node node (set_fail_reports (delete i (n_fail_reports nd)));
      _ ← clusterNodeCleanupFailureReports node;
      mret true
  end.
Definition clusterNodeFailureReportsCount (node : addr) : M Z :=
  _ ← clusterNodeCleanupFailureReports node; nd ← get_node node; mret (zlen (n_fail_reports nd)).

Definition clusterDelNode (delnode : addr) : M unit :=
  _ ← for_each (λ j _,
        imp ← gets c_importing_slots_from; i ← entry_of imp j;
        _ ← (if bool_decide (i = Some delnode) then modify (put_importing_slots_from (<[Z.to_nat j := None]> imp)) else mret tt);
        mig ← gets c_migrating_slots_to; m ← entry_of mig j;
        _ ← (if bool_decide (m = Some delnode) then modify (put_migrating_slots_to (<[Z.to_nat j := None]> mig)) else mret tt);
        o ← slot_owner j;
        if bool_decide (o = Some delnode) then _ ← clusterDelSlot j; mret tt else mret tt) all_slots tt;
  nodes ← gets c_nodes;
  _ ← for_each (λ n _, if n =? delnode then mret tt else _ ← clusterNodeDelFailureReport n delnode; mret tt) nodes tt;
  _ ← clusterRemoveNodeFromShard delnode;
  freeClusterNode delnode.

Definition markNodeAsFailingIfNeeded (node : addr) : M unit :=
  size ← gets c_size;
  let needed_quorum := Z.quot size 2 + 1 in
  nd ← get_node node;
  if negb (nodeTimedOut nd) then mret tt
  else if nodeFailed nd then mret tt
  else
    failures ← clusterNodeFailureReportsCount node;
    myself ← gets c_myself;
    md ← get_node myself;
    let failures := if nodeIsMaster md then failures + 1 else failures in
    if failures <? needed_quorum then mret tt
    else
      _ ← mod_node node (del_flags CLUSTER_NODE_PFAIL);
      _ ← mod_node node (add_flags CLUSTER_NODE_FAIL);
      t ← mstime;
      _ ← mod_node node (set_fail_time t);
      _ ← emit (EffSendFail node);
      clusterDoBeforeSleep (Z.lor CLUSTER_TODO_UPDATE_STATE CLUSTER_TODO_SAVE_CONFIG).

Definition clearNodeFailureIfNeeded (node : addr) : M unit :=
  now ← mstime;
  nd ← get_node node;
  _ ← serverAssert (nodeFailed nd);
  let clear :=
    _ ← mod_node node (del_flags CLUSTER_NODE_FAIL);
    clusterDoBeforeSleep (Z.lor CLUSTER_TODO_UPDATE_STATE CLUSTER_TODO_SAVE_CONFIG) in
  _ ← (if nodeIsSlave nd || (n_numslots nd =? 0) then clear else mret tt);
  nd ← get_node node;
  if nodeIsMaster nd && (n_numslots nd >? 0) &&
     (now - n_fail_time nd >? cluster_node_timeout server * CLUSTER_FAIL_UNDO_TIME_MULT)
  then clear else mret tt.

(** ** Configuration epochs *)

Definition clusterGetMaxEpoch : M Z :=
  nodes ← gets c_nodes;
  max ← for_each (λ n max, nd ← get_node n; mret (if n_configEpoch nd >? max then n_configEpoch nd else max)) nodes 0;
  currentEpoch ← gets c_currentEpoch;
  mret (if max <? currentEpoch then currentEpoch else max).

(** [server.cluster->currentEpoch++; myself->configEpoch = server.cluster->currentEpoch] *)
Definition new_epoch : M unit :=
  _ ← modify (λ c, put_currentEpoch (u64 (c_currentEpoch c + 1)) c);
  myself ← gets c_myself;
  currentEpoch ← gets c_currentEpoch;
  mod_node myself (set_configEpoch currentEpoch).

Definition clusterBumpConfigEpochWithoutConsensus : M bool :=
  maxEpoch ← clusterGetMaxEpoch;
  myself ← gets c_myself;
  md ← get_node myself;
  if (n_configEpoch md =? 0) || negb (n_configEpoch md =? maxEpoch) then
    _ ← new_epoch;
    _ ← clusterDoBeforeSleep (Z.lor CLUSTER_TODO_SAVE_CONFIG CLUSTER_TODO_FSYNC_CONFIG);
    mret true
  else mret false.

Definition clusterHandleConfigEpochCollision (sender : addr) : M unit :=
  myself ← gets c_myself;
  sd ← get_node sender;
  md ← get_node myself;
  if negb (n_configEpoch sd =? n_configEpoch md) || negb (nodeIsMaster sd) || negb (nodeIsMaster md) then mret tt
  else if memcmp (n_name sd) (n_name md) CLUSTER_NAMELEN <=? 0 then mret tt
  else _ ← new_epoch; emit EffSaveConfig.

(** ** Slot configuration of another node *)

(** The variables of the loop of [clusterUpdateSlotsConfigWith]; [newmaster]
    is NULL or the sender. *)
Record update_vars := UpdateVars {
  newmaster : bool;
  dirty_slots : list Z;
  sender_slots : Z;
  migrated_our_slots : Z;
}.

Definition claim_bit (set : bool) (j : Z) : M unit :=
  bm ← gets c_owner_not_claiming_slot;
  bm ← lift (if set then bitmapSetBit bm j else bitmapClearBit bm j);
  modify (put_owner_not_claiming_slot bm).

(** The body of the loop. *)
Definition update_slot (sender senderConfigEpoch : Z) (slots : list Z) (curmaster : option addr) (j : Z) (v : update_vars) : M update_vars :=
  bit ← lift (bitmapTestBit slots j);
  o ← slot_owner j;
  if (bit : bool) then
    let v := UpdateVars (newmaster v) (dirty_slots v) (sender_slots v + 1) (migrated_our_slots v) in
    if bool_decide (o = Some sender) then _ ← claim_bit false j; mret v
    else
      imp ← gets c_importing_slots_from;
      i ← entry_of imp j;
      match i with
      | Some _ => mret v
      | None =>
          unclaimed ← isSlotUnclaimed j;
          rebind ← (if (unclaimed : bool) then mret true
                    else own ← deref o; nd ← get_node own; mret (n_configEpoch nd <? senderConfigEpoch));
          if (rebind : bool) then
            myself ← gets c_myself;
            let dirty := bool_decide (o = Some myself) && negb (countKeysInSlot server j =? 0) && negb (sender =? myself) in
            let ours := bool_decide (o = curmaster) in
            _ ← clusterDelSlot j;
            _ ← clusterAddSlot sender j;
            _ ← claim_bit false j;
            _ ← clusterDoBeforeSleep (Z.lor CLUSTER_TODO_SAVE_CONFIG (Z.lor CLUSTER_TODO_UPDATE_STATE CLUSTER_TODO_FSYNC_CONFIG));
            mret (UpdateVars (newmaster v || ours) (if dirty then dirty_slots v ++ [j] else dirty_slots v) (sender_slots v)
                    (if ours then migrated_our_slots v + 1 else migrated_our_slots v))
          else mret v
      end
  else if bool_decide (o = Some sender) then _ ← claim_bit true j; mret v
  else mret v.

Definition clusterUpdateSlotsConfigWith (sender senderConfigEpoch : Z) (slots : list Z) : M unit :=
  myself ← gets c_myself;
  md ← get_node myself;
  let curmaster := if nodeIsMaster md then Some myself else n_slaveof md in
  if sender =? myself then mret tt
  else
    v ← for_each (update_slot sender senderConfigEpoch slots curmaster) all_slots (UpdateVars false [] 0 0);
    if cluster_module_no_redirection server then mret tt
    else
      demoted ← (if newmaster v then cm ← deref curmaster; nd ← get_node cm; mret (n_numslots nd =? 0) else mret false);
      let todo := clusterDoBeforeSleep (Z.lor CLUSTER_TODO_SAVE_CONFIG (Z.lor CLUSTER_TODO_UPDATE_STATE CLUSTER_TODO_FSYNC_CONFIG)) in
      if demoted && (cluster_allow_replica_migration server || (sender_slots v =? migrated_our_slots v)) then
        _ ← clusterSetMaster sender; todo
      else
        md ← get_node myself;
        grandmaster ← match n_slaveof md with Some m => nd ← get_node m; mret (n_slaveof nd) | None => mret None end;
        match grandmaster with
        | Some g =>
            if g =? myself then for_each (λ j _, emit (EffDelKeysInSlot j)) (dirty_slots v) tt
            else _ ← clusterSetMaster g; todo
        | None => for_each (λ j _, emit (EffDelKeysInSlot j)) (dirty_slots v) tt
        end.

(** ** Elections *)

(** The fields of a message that are read. *)
Record clusterMsg := ClusterMsg {
  h_currentEpoch : Z;
  h_configEpoch : Z;
  h_myslots : list Z;
  h_force_ack : bool;
  h_offset : Z;
  h_paused : bool;
}.

(** The search for a claimed slot with a greater epoch: true when there is none. *)
Fixpoint epochs_ok (js : list Z) (claimed_slots : list Z) (requestConfigEpoch : Z) : M bool :=
  match js with
  | [] => mret true
  | j :: js =>
      bit ← lift (bitmapTestBit claimed_slots j);
      if negb bit then epochs_ok js claimed_slots requestConfigEpoch
      else
        unclaimed ← isSlotUnclaimed j;
        fine ← (if (unclaimed : bool) then mret true
                else o ← slot_owner j; own ← deref o; nd ← get_node own; mret (n_configEpoch nd <=? requestConfigEpoch));
        if (fine : bool) then epochs_ok js claimed_slots requestConfigEpoch else mret false
  end.

Definition clusterSendFailoverAuthIfNeeded (node : addr) (request : clusterMsg) : M unit :=
  nd ← get_node node;
  let master := n_slaveof nd in
  myself ← gets c_myself;
  md ← get_node myself;
  if nodeIsSlave md || (n_numslots md =? 0) then mret tt
  else
    currentEpoch ← gets c_currentEpoch;
    if h_currentEpoch request <? currentEpoch then mret tt
    else
      lastVoteEpoch ← gets c_lastVoteEpoch;
      if lastVoteEpoch =? currentEpoch then mret tt
      else if nodeIsMaster nd then mret tt
      else
        match master with
        | None => mret tt
        | Some m =>
            mnd ← get_node m;
            if negb (nodeFailed mnd) && negb (h_force_ack request) then mret tt
            else
              now ← mstime;
              if now - n_voted_time mnd <? cluster_node_timeout server * 2 then mret tt
              else
                ok ← epochs_ok all_slots (h_myslots request) (h_configEpoch request);
                if negb ok then mret tt
                else
                  _ ← modify (put_lastVoteEpoch currentEpoch);
                  t ← mstime;
                  _ ← mod_node m (set_voted_time t);
                  _ ← clusterDoBeforeSleep (Z.lor CLUSTER_TODO_SAVE_CONFIG CLUSTER_TODO_FSYNC_CONFIG);
                  emit (EffSendFailoverAuth node)
        end.

Definition clusterGetSlaveRank : M Z :=
  myself ← gets c_myself;
  md ← get_node myself;
  _ ← serverAssert (nodeIsSlave md);
  match n_slaveof md with
  | None => mret 0
  | Some m =>
      mnd ← get_node m;
      let myoffset := replicationGetSlaveOffset server in
      for_each (λ x rank,
        if x =? myself then mret rank
        else
          xd ← get_node x;
          mret (if negb (nodeCantFailover xd) && (n_repl_offset xd >? myoffset) then rank + 1 else rank)) (n_slaves mnd) 0
  end.

(** ** The state of the cluster *)

Definition CLUSTER_MAX_REJOIN_DELAY : Z := 5000.
Definition CLUSTER_MIN_REJOIN_DELAY : Z := 500.
Definition CLUSTER_WRITABLE_DELAY : Z := 2000.

(** The loop over the slots: false at the first slot without a working owner. *)
Fixpoint slots_covered (js : list Z) : M bool :=
  match js with
  | [] => mret true
  | j :: js =>
      o ← slot_owner j;
      match o with
      | None => mret false
      | Some n => nd ← get_node n; if nodeFailed nd then mret false else slots_covered js
      end
  end.

Definition clusterUpdateState : M unit :=
  _ ← modify (λ c, put_todo_before_sleep (Z.land (c_todo_before_sleep c) (Z.lnot CLUSTER_TODO_UPDATE_STATE)) c);
  first_call_time ← gets c_first_call_time;
  _ ← (if first_call_time =? 0 then t ← mstime; modify (put_first_call_time t) else mret tt);
  myself ← gets c_myself;
  md ← get_node myself;
  state ← gets c_state;
  wait ← (if nodeIsMaster md && (state =? CLUSTER_FAIL)
          then t ← mstime; first_call_time ← gets c_first_call_time; mret (t - first_call_time <? CLUSTER_WRITABLE_DELAY)
          else mret false);
  if (wait : bool) then mret tt
  else
    covered ← (if cluster_require_full_coverage server then slots_covered all_slots else mret true);
    let new_state := if (covered : bool) then CLUSTER_OK else CLUSTER_FAIL in
    _ ← modify (put_size 0);
    nodes ← gets c_nodes;
    reachable_masters ← for_each (λ n reachable,
        nd ← get_node n;
        if nodeIsMaster nd && negb (n_numslots nd =? 0) then
          _ ← modify (λ c, put_size (c_size c + 1) c);
          mret (if Z.land (n_flags nd) (Z.lor CLUSTER_NODE_FAIL CLUSTER_NODE_PFAIL) =? 0 then reachable + 1 else reachable)
        else mret reachable) nodes 0;
    size ← gets c_size;
    let needed_quorum := Z.quot size 2 + 1 in
    new_state ← (if reachable_masters <? needed_quorum
                 then t ← mstime; _ ← modify (put_among_minority_time t); mret CLUSTER_FAIL
                 else mret new_state);
    state ← gets c_state;
    if negb (new_state =? state) then
      let rejoin_delay := cluster_node_timeout server in
      let rejoin_delay := if rejoin_delay >? CLUSTER_MAX_REJOIN_DELAY then CLUSTER_MAX_REJOIN_DELAY else rejoin_delay in
      let rejoin_delay := if rejoin_delay <? CLUSTER_MIN_REJOIN_DELAY then CLUSTER_MIN_REJOIN_DELAY else rejoin_delay in
      delayed ← (if (new_state =? CLUSTER_OK) && nodeIsMaster md
                 then t ← mstime; among_minority_time ← gets c_among_minority_time; mret (t - among_minority_time <? rejoin_delay)
                 else mret false);
      if (delayed : bool) then mret tt else modify (put_state new_state)
    else mret tt.

(** ** Failover *)

Definition clusterFailoverReplaceYourMaster : M unit :=
  myself ← gets c_myself;
  md ← get_node myself;
  match n_slaveof md with
  | None => mret tt
  | Some oldmaster =>
      if nodeIsMaster md then mret tt
      else
        _ ← clusterSetNodeAsMaster myself;
        _ ← emit EffReplicationUnsetMaster;
        _ ← for_each (λ j _,
              bit ← clusterNodeGetSlotBit oldmaster j;
              if (bit : bool) then _ ← clusterDelSlot j; _ ← clusterAddSlot myself j; mret tt else mret tt) all_slots tt;
        _ ← clusterUpdateState;
        _ ← emit EffSaveConfig;
        _ ← emit (EffBroadcastPong true);
        resetManualFailover
  end.

(** [cant_failover_reason] only selects what is logged and is left out, and so
    is [clusterLogCantFailover]. *)
Definition clusterHandleSlaveFailover : M unit :=
  t ← mstime;
  failover_auth_time ← gets c_failover_auth_time;
  let auth_age := t - failover_auth_time in
  size ← gets c_size;
  let needed_quorum := Z.quot size 2 + 1 in
  mf_end ← gets c_mf_end;
  mf_can_start ← gets c_mf_can_start;
  let manual_failover := negb (mf_end =? 0) && mf_can_start in
  _ ← modify (λ c, put_todo_before_sleep (Z.land (c_todo_before_sleep c) (Z.lnot CLUSTER_TODO_HANDLE_FAILOVER)) c);
  let auth_timeout := cluster_node_timeout server * 2 in
  let auth_timeout := if auth_timeout <? 2000 then 2000 else auth_timeout in
  let auth_retry_time := auth_timeout * 2 in
  myself ← gets c_myself;
  md ← get_node myself;
  pre ← (if nodeIsMaster md then mret false
         else match n_slaveof md with
              | None => mret false
              | Some m =>
                  mnd ← get_node m;
                  mret (negb (negb (nodeFailed mnd) && negb manual_failover) &&
                        negb (cluster_slave_no_failover server && negb manual_failover) && negb (n_numslots mnd =? 0))
              end);
  if negb pre then mret tt
  else
    let data_age := (if repl_connected server then unixtime server - lastinteraction server else unixtime server - repl_down_since server) * 1000 in
    let data_age := if data_age >? cluster_node_timeout server then data_age - cluster_node_timeout server else data_age in
    if negb (cluster_slave_validity_factor server =? 0) &&
       (data_age >? repl_ping_slave_period server * 1000 + cluster_node_timeout server * cluster_slave_validity_factor server) &&
       negb manual_failover
    then mret tt
    else if auth_age >? auth_retry_time then
      t ← mstime;
      r ← random;
      _ ← modify (put_failover_auth_time (t + 500 + Z.rem r 500));
      _ ← modify (put_failover_auth_count 0);
      _ ← modify (put_failover_auth_sent false);
      rank ← clusterGetSlaveRank;
      _ ← modify (put_failover_auth_rank rank);
      _ ← modify (λ c, put_failover_auth_time (c_failover_auth_time c + rank * 1000) c);
      _ ← (if negb (mf_end =? 0) then
             t ← mstime;
             _ ← modify (put_failover_auth_time t);
             _ ← modify (put_failover_auth_rank 0);
             clusterDoBeforeSleep CLUSTER_TODO_HANDLE_FAILOVER
           else mret tt);
      emit (EffBroadcastPong false)
    else
      sent ← gets c_failover_auth_sent;
      _ ← (if negb sent && (mf_end =? 0) then
             newrank ← clusterGetSlaveRank;
             rank ← gets c_failover_auth_rank;
             if newrank >? rank then
               _ ← modify (λ c, put_failover_auth_time (c_failover_auth_time c + (newrank - rank) * 1000) c);
               modify (put_failover_auth_rank newrank)
             else mret tt
           else mret tt);
      t ← mstime;
      failover_auth_time ← gets c_failover_auth_time;
      if t <? failover_auth_time then mret tt
      else if auth_age >? auth_timeout then mret tt
      else if negb sent then
        _ ← modify (λ c, put_currentEpoch (u64 (c_currentEpoch c + 1)) c);
        _ ← modify (λ c, put_failover_auth_epoch (c_currentEpoch c) c);
        _ ← emit EffRequestFailoverAuth;
        _ ← modify (put_failover_auth_sent true);
        clusterDoBeforeSleep (Z.lor CLUSTER_TODO_SAVE_CONFIG (Z.lor CLUSTER_TODO_UPDATE_STATE CLUSTER_TODO_FSYNC_CONFIG))
      else
        count ← gets c_failover_auth_count;
        if count >=? needed_quorum then
          epoch ← gets c_failover_auth_epoch;
          _ ← (if n_configEpoch md <? epoch then mod_node myself (set_configEpoch epoch) else mret tt);
          clusterFailoverReplaceYourMaster
        else mret tt.

(** ** Messages *)

(** What every message of a known node that is not in handshake does first. *)
Definition update_from_header (sender : addr) (hdr : clusterMsg) : M unit :=
  currentEpoch ← gets c_currentEpoch;
  _ ← (if h_currentEpoch hdr >? currentEpoch then modify (put_currentEpoch (h_currentEpoch hdr)) else mret tt);
  sd ← get_node sender;
  _ ← (if h_configEpoch hdr >? n_configEpoch sd then
         _ ← mod_node sender (set_configEpoch (h_configEpoch hdr));
         clusterDoBeforeSleep (Z.lor CLUSTER_TODO_SAVE_CONFIG CLUSTER_TODO_FSYNC_CONFIG)
       else mret tt);
  _ ← mod_node sender (set_repl_offset (h_offset hdr));
  mf_end ← gets c_mf_end;
  myself ← gets c_myself;
  md ← get_node myself;
  mf_master_offset ← gets c_mf_master_offset;
  if negb (mf_end =? 0) && nodeIsSlave md && bool_decide (n_slaveof md = Some sender) && h_paused hdr && (mf_master_offset =? -1) then
    _ ← modify (λ c, put_mf (c_mf_end c) (c_mf_slave c) (h_offset hdr) (c_mf_can_start c) c);
    clusterDoBeforeSleep CLUSTER_TODO_HANDLE_MANUALFAILOVER
  else mret tt.

(** The role of the sender: [master] is NULL when it is a master (first case)
    or when its master is not known. *)
Definition update_role (sender : addr) (is_master : bool) (master : option addr) : M unit :=
  if is_master then clusterSetNodeAsMaster sender
  else
    sd ← get_node sender;
    _ ← (if nodeIsMaster sd then
           _ ← clusterDelNodeSlots sender;
           _ ← mod_node sender (del_flags (Z.lor CLUSTER_NODE_MASTER CLUSTER_NODE_MIGRATE_TO));
           _ ← mod_node sender (add_flags CLUSTER_NODE_SLAVE);
           clusterDoBeforeSleep (Z.lor CLUSTER_TODO_SAVE_CONFIG CLUSTER_TODO_UPDATE_STATE)
         else mret tt);
    sd ← get_node sender;
    match master with
    | None => mret tt
    | Some m =>
        if bool_decide (n_slaveof sd = Some m) then mret tt
        else
          _ ← match n_slaveof sd with Some old => _ ← clusterNodeRemoveSlave old sender; mret tt | None => mret tt end;
          _ ← clusterNodeAddSlave m sender;
          _ ← mod_node sender (set_slaveof (Some m));
          clusterDoBeforeSleep CLUSTER_TODO_SAVE_CONFIG
    end.

(** A sender with an old configuration is told about the owner of a slot. *)
Fixpoint send_updates (js : list Z) (sender senderConfigEpoch : Z) (slots : list Z) : M unit :=
  match js with
  | [] => mret tt
  | j :: js =>
      bit ← lift (bitmapTestBit slots j);
      o ← slot_owner j;
      unclaimed ← isSlotUnclaimed j;
      if negb bit || bool_decide (o = Some sender) || unclaimed then send_updates js sender senderConfigEpoch slots
      else
        own ← deref o;
        nd ← get_node own;
        if n_configEpoch nd >? senderConfigEpoch then emit (EffSendUpdate sender own)
        else send_updates js sender senderConfigEpoch slots
  end.
Definition update_slots_of (sender : addr) (hdr : clusterMsg) : M unit :=
  sd ← get_node sender;
  dirty ← match (if nodeIsMaster sd then Some sender else n_slaveof sd) with
          | Some m => mnd ← get_node m; mret (negb (bool_decide (n_slots mnd = h_myslots hdr)))
          | None => mret false
          end;
  _ ← (if nodeIsMaster sd && dirty then clusterUpdateSlotsConfigWith sender (h_configEpoch hdr) (h_myslots hdr) else mret tt);
  _ ← (if (dirty : bool) then send_updates all_slots sender (h_configEpoch hdr) (h_myslots hdr) else mret tt);
  myself ← gets c_myself;
  md ← get_node myself;
  sd ← get_node sender;
  if nodeIsMaster md && nodeIsMaster sd && (h_configEpoch hdr =? n_configEpoch md)
  then clusterHandleConfigEpochCollision sender else mret tt.

(** [CLUSTERMSG_TYPE_FAIL] *)
Definition process_fail (failing now : Z) : M unit :=
  fd ← get_node failing;
  if Z.land (n_flags fd) (Z.lor CLUSTER_NODE_FAIL CLUSTER_NODE_MYSELF) =? 0 then
    _ ← mod_node failing (add_flags CLUSTER_NODE_FAIL);
    _ ← mod_node failing (set_fail_time now);
    _ ← mod_node failing (del_flags CLUSTER_NODE_PFAIL);
    clusterDoBeforeSleep (Z.lor CLUSTER_TODO_SAVE_CONFIG CLUSTER_TODO_UPDATE_STATE)
  else mret tt.

(** [CLUSTERMSG_TYPE_FAILOVER_AUTH_ACK] *)
Definition process_auth_ack (sender : addr) (hdr : clusterMsg) : M unit :=
  sd ← get_node sender;
  epoch ← gets c_failover_auth_epoch;
  if nodeIsMaster sd && (n_numslots sd >? 0) && (h_currentEpoch hdr >=? epoch) then
    _ ← modify (λ c, put_failover_auth_count (s32 (c_failover_auth_count c + 1)) c);
    clusterDoBeforeSleep CLUSTER_TODO_HANDLE_FAILOVER
  else mret tt.

(** [CLUSTERMSG_TYPE_UPDATE] about node [n]. *)
Definition process_update (n reportedConfigEpoch : Z) (slots : list Z) : M unit :=
  nd ← get_node n;
  if n_configEpoch nd >=? reportedConfigEpoch then mret tt
  else
    _ ← (if nodeIsSlave nd then clusterSetNodeAsMaster n else mret tt);
    _ ← mod_node n (set_configEpoch reportedConfigEpoch);
    _ ← clusterDoBeforeSleep (Z.lor CLUSTER_TODO_SAVE_CONFIG CLUSTER_TODO_FSYNC_CONFIG);
    clusterUpdateSlotsConfigWith n reportedConfigEpoch slots.
End clock.
End Cluster.
