(* ===== verification/ClusterInv.v ===== *)
(** * cluster.c: the invariant of the cluster state

    The slot table, the bitmaps and the counters of the nodes agree, replicas
    and masters point to each other, and no pointer dangles.  Every operation
    keeps this and fails no assertion. *)

From S2P Require Import Prelude Zskiplist Cluster.
Import Zskiplist Cluster.

Module ClusterInv.

(** ** Bitmaps *)

Definition bitmap_ok (bm : list Z) : Prop := length bm = 2048%nat ∧ Forall is_byte bm.
Definition bit (bm : list Z) (j : nat) : bool := Z.testbit (default 0 (bm !! (j / 8)%nat)) (Z.of_nat (j mod 8)).

#[local] Abbreviation N := (Z.to_nat 16384) (only parsing).

Lemma slot_split (j : nat) : (j < N)%nat →
  (j / 8 < 2048)%nat ∧ Z.of_nat j / 8 = Z.of_nat (j / 8) ∧ Z.land (Z.of_nat j) 7 = Z.of_nat (j mod 8) ∧ (j mod 8 < 8)%nat.
Proof.
  intros Hj. split_and!.
  - apply Nat.Div0.div_lt_upper_bound. lia.
  - by rewrite Nat2Z.inj_div.
  - change 7 with (Z.ones 3). rewrite Z.land_ones by lia. by rewrite Nat2Z.inj_mod.
  - apply Nat.mod_upper_bound. lia.
Qed.

Lemma land_pow2 a k : 0 ≤ k → negb (Z.land a (2 ^ k) =? 0) = Z.testbit a k.
Proof.
  intros Hk. destruct (Z.testbit a k) eqn:Hb.
  - apply negb_true_iff, Z.eqb_neq. intros E. apply (f_equal (λ x, Z.testbit x k)) in E.
    rewrite Z.land_spec, Z.pow2_bits_true, Hb, Z.testbit_0_l in E by lia. done.
  - apply negb_false_iff, Z.eqb_eq. apply Z.bits_inj'. intros i Hi. rewrite Z.land_spec, Z.testbit_0_l.
    destruct (decide (i = k)) as [->|]; [by rewrite Hb|]. by rewrite Z.pow2_bits_false, andb_false_r by lia.
Qed.

Lemma load8_bitmap bm (j : nat) : bitmap_ok bm → (j < N)%nat → ∃ b, load8 bm (Z.of_nat j / 8) = Some b ∧ is_byte b ∧ bm !! (j / 8)%nat = Some b.
Proof.
  intros [Hl Hb] Hj. destruct (slot_split j Hj) as (Hd & Hz & _). destruct (lookup_lt_is_Some_2 bm (j / 8)) as [b Hbm]; [lia|].
  exists b. unfold load8. rewrite Hz, decide_True, Nat2Z.id by lia. split_and!; [done| |done]. by eapply Forall_lookup_1.
Qed.

Lemma testBit_spec bm (j : nat) : bitmap_ok bm → (j < N)%nat → bitmapTestBit bm (Z.of_nat j) = Some (bit bm j).
Proof.
  intros Hok Hj. destruct (load8_bitmap bm j Hok Hj) as (b & Hl & _ & Hbm). destruct (slot_split j Hj) as (_ & _ & Hm & _).
  unfold bitmapTestBit, bit. rewrite Hl, Hbm, Hm. cbn [mbind option_bind default from_option]. rewrite Z.shiftl_1_l, land_pow2 by lia. done.
Qed.

(** Replacing a byte of a bitmap. *)
Lemma store_byte bm (j : nat) v : bitmap_ok bm → (j < N)%nat → is_byte v →
  ∃ bm', store bm (Z.of_nat j / 8) [v] = Some bm' ∧ bitmap_ok bm' ∧ bm' = <[(j / 8)%nat := v]> bm.
Proof.
  intros [Hl Hb] Hj Hv. destruct (slot_split j Hj) as (Hd & Hz & _). unfold store. rewrite Hz, decide_True by (cbn [length]; lia).
  eexists. split; [done|]. cbn [length].
  assert (E : take (Z.to_nat (Z.of_nat (j / 8))) bm ++ [v] ++ drop (Z.to_nat (Z.of_nat (j / 8) + Z.of_nat 1)) bm = <[(j / 8)%nat := v]> bm).
  { rewrite Nat2Z.id. replace (Z.to_nat (Z.of_nat (j / 8) + Z.of_nat 1)) with (S (j / 8)) by lia. by rewrite insert_take_drop by lia. }
  rewrite E. split; [|done]. split; [by rewrite length_insert|]. by apply Forall_insert.
Qed.

Lemma bit_insert bm (j i : nat) b v (upd : bool) :
  bitmap_ok bm → (j < N)%nat → (i < N)%nat → bm !! (j / 8)%nat = Some b →
  (∀ k, (k < 8)%nat → Z.testbit v (Z.of_nat k) = if decide (k = j mod 8)%nat then upd else Z.testbit b (Z.of_nat k)) →
  bit (<[(j / 8)%nat := v]> bm) i = if decide (i = j) then upd else bit bm i.
Proof.
  intros [Hl _] Hj Hi Hb Hv. destruct (slot_split j Hj) as (Hd & _). destruct (slot_split i Hi) as (_ & _ & _ & Hm). unfold bit.
  destruct (decide (i / 8 = j / 8)%nat) as [E|Hne].
  - rewrite E, list_lookup_insert_eq, Hb by lia. cbn [default from_option]. rewrite Hv by done.
    assert (i = j ↔ (i mod 8 = j mod 8)%nat) as Hiff.
    { split; [by intros ->|]. intros Em. rewrite (Nat.div_mod_eq i 8), (Nat.div_mod_eq j 8), E, Em. done. }
    destruct (decide (i = j)), (decide (i mod 8 = j mod 8)%nat); [done|tauto|tauto|done].
  - rewrite list_lookup_insert_ne by done. rewrite decide_False; [done|]. by intros ->.
Qed.

Lemma setBit_spec bm (j : nat) : bitmap_ok bm → (j < N)%nat →
  ∃ bm', bitmapSetBit bm (Z.of_nat j) = Some bm' ∧ bitmap_ok bm' ∧ ∀ i, (i < N)%nat → bit bm' i = if decide (i = j) then true else bit bm i.
Proof.
  intros Hok Hj. destruct (load8_bitmap bm j Hok Hj) as (b & Hl & Hb & Hbm). destruct (slot_split j Hj) as (_ & _ & Hm & Hk).
  unfold bitmapSetBit. rewrite Hl, Hm. cbn [mbind option_bind]. rewrite Z.shiftl_1_l.
  destruct (store_byte bm j (u8 (Z.lor b (2 ^ Z.of_nat (j mod 8)))) Hok Hj) as (bm' & -> & Hok' & ->); [apply wrapu_range; lia|].
  eexists. split; [done|]. split; [done|]. intros i Hi. apply (bit_insert bm j i b); [done..|]. intros k Hk8. unfold wrapu.
  rewrite Z.mod_pow2_bits_low, Z.lor_spec by lia. case_decide as E; [subst; by rewrite Z.pow2_bits_true, orb_true_r by lia|].
  by rewrite Z.pow2_bits_false, orb_false_r by lia.
Qed.
Lemma clearBit_spec bm (j : nat) : bitmap_ok bm → (j < N)%nat →
  ∃ bm', bitmapClearBit bm (Z.of_nat j) = Some bm' ∧ bitmap_ok bm' ∧ ∀ i, (i < N)%nat → bit bm' i = if decide (i = j) then false else bit bm i.
Proof.
  intros Hok Hj. destruct (load8_bitmap bm j Hok Hj) as (b & Hl & Hb & Hbm). destruct (slot_split j Hj) as (_ & _ & Hm & Hk).
  unfold bitmapClearBit. rewrite Hl, Hm. cbn [mbind option_bind]. rewrite Z.shiftl_1_l.
  destruct (store_byte bm j (u8 (Z.land b (Z.lnot (2 ^ Z.of_nat (j mod 8))))) Hok Hj) as (bm' & -> & Hok' & ->); [apply wrapu_range; lia|].
  eexists. split; [done|]. split; [done|]. intros i Hi. apply (bit_insert bm j i b); [done..|]. intros k Hk8. unfold wrapu.
  rewrite Z.mod_pow2_bits_low, Z.land_spec, Z.lnot_spec by lia. case_decide as E; [subst; by rewrite Z.pow2_bits_true, andb_false_r by lia|].
  by rewrite Z.pow2_bits_false, andb_true_r by lia.
Qed.

(** ** Weakest preconditions *)

(** [m] returns, and its result satisfies [Q]. *)
Definition wp {A} (m : M A) (w : world) (Q : A → world → Prop) : Prop := ∃ a w', m w = Some (a, w') ∧ Q a w'.

Section wp.
Implicit Type w : world.

Lemma wp_ret {A} (a : A) w (Q : A → world → Prop) : Q a w → wp (mret a) w Q.
Proof. intros HQ. by exists a, w. Qed.
Lemma wp_bind {A B} (m : M A) (f : A → M B) w Q : wp m w (λ a w', wp (f a) w' Q) → wp (m ≫= f) w Q.
Proof. intros (a & w' & Hm & b & w'' & Hf & HQ). exists b, w''. split; [|done]. unfold mbind, M_bind. by rewrite Hm. Qed.
Lemma wp_mono {A} (m : M A) w (Q Q' : A → world → Prop) : wp m w Q → (∀ a w', Q a w' → Q' a w') → wp m w Q'.
Proof. intros (a & w' & Hm & HQ) HQQ. exists a, w'. auto. Qed.
Lemma wp_gets {A} (f : clusterState → A) w (Q : A → world → Prop) : Q (f (w_c w)) w → wp (gets f) w Q.
Proof. intros HQ. by exists (f (w_c w)), w. Qed.
Lemma wp_lift {A} (x : option A) a w (Q : A → world → Prop) : x = Some a → Q a w → wp (lift x) w Q.
Proof. intros -> HQ. by exists a, w. Qed.
Lemma wp_get_node n nd w Q : w_heap w !! n = Some nd → Q nd w → wp (get_node n) w Q.
Proof. intros Hn HQ. exists nd, w. split; [|done]. unfold get_node. by rewrite Hn. Qed.

Definition with_heap w (h : gmap Z clusterNode) : world := World h (w_c w) (w_ticks w) (w_randoms w) (w_out w).
Definition with_state w (c : clusterState) : world := World (w_heap w) c (w_ticks w) (w_randoms w) (w_out w).

Lemma wp_mod_node n nd f w (Q : unit → world → Prop) :
  w_heap w !! n = Some nd → Q tt (with_heap w (<[n := f nd]> (w_heap w))) → wp (mod_node n f) w Q.
Proof. intros Hn HQ. eexists tt, _. split; [|exact HQ]. unfold mod_node. by rewrite Hn. Qed.
Lemma wp_modify f w (Q : unit → world → Prop) : Q tt (with_state w (f (w_c w))) → wp (modify f) w Q.
Proof. intros HQ. by eexists tt, _. Qed.
Lemma wp_assert b w (Q : unit → world → Prop) : b = true → Q tt w → wp (serverAssert b) w Q.
Proof. intros -> HQ. by exists tt, w. Qed.
Lemma wp_emit e w (Q : unit → world → Prop) :
  Q tt (World (w_heap w) (w_c w) (w_ticks w) (w_randoms w) (w_out w ++ [e])) → wp (emit e) w Q.
Proof. intros HQ. by eexists tt, _. Qed.

(** A loop with an invariant on what it has done. *)
Lemma wp_for_each {A B} (I : list A → B → world → Prop) (body : A → B → M B) js : ∀ done acc w,
  I done acc w →
  (∀ pre j post acc w, js = pre ++ j :: post → I (done ++ pre) acc w → wp (body j acc) w (I (done ++ pre ++ [j]))) →
  wp (for_each body js acc) w (I (done ++ js)).
Proof.
  induction js as [|j js IH]; intros pre0 acc w HI Hbody; cbn [for_each]; [apply wp_ret; by rewrite app_nil_r|].
  apply wp_bind. eapply wp_mono; [apply (Hbody [] j js acc w eq_refl); by rewrite app_nil_r|]. cbn [app]. intros acc' w' HI'.
  rewrite (cons_middle j), app_assoc. apply IH; [done|]. intros pre k post acc'' w'' E HI''. rewrite <- app_assoc in HI''. cbn [app] in HI''.
  rewrite <- app_assoc. cbn [app]. apply (Hbody (j :: pre) k post); [by rewrite E|done].
Qed.
Lemma wp_for_each_keep {A B} (I : B → world → Prop) (body : A → B → M B) js acc w :
  I acc w → (∀ j acc w, j ∈ js → I acc w → wp (body j acc) w I) → wp (for_each body js acc) w I.
Proof.
  revert acc w. induction js as [|j js IH]; intros acc w HI Hbody; cbn [for_each]; [by apply wp_ret|].
  apply wp_bind. eapply wp_mono; [apply (Hbody j); [by left|done]|]. intros acc' w' HI'. apply IH; [done|].
  intros k acc'' w'' Hk. apply Hbody. by right.
Qed.
End wp.

(** ** The invariant *)

(** The fields of a node that the invariant speaks about. *)
Record nview := NView {
  v_slots : list Z;
  v_numslots : Z;
  v_slaves : list Z;
  v_slaveof : option Z;
  v_master : bool;
  v_slave : bool;
  v_reports : list Z;
}.
Definition view (n : clusterNode) : nview :=
  NView (n_slots n) (n_numslots n) (n_slaves n) (n_slaveof n) (nodeIsMaster n) (nodeIsSlave n) (n_fail_reports n).*1.
Abbreviation vheap w := (view <$> w_heap w).

(** Slots: the table, the bitmaps and the counters agree, a replica has none. *)
Definition owned (slots : list (option Z)) (n : Z) : list (option Z) := filter (λ o, o = Some n) slots.
Record node_slots (slots : list (option Z)) (n : Z) (v : nview) : Prop := {
  ns_bitmap : bitmap_ok (v_slots v);
  ns_bits : ∀ j, (j < N)%nat → bit (v_slots v) j = bool_decide (slots !! j = Some (Some n));
  ns_num : v_numslots v = zlen (owned slots n);
  ns_slave : v_slave v = true → v_numslots v = 0;
}.
Record slots_ok (H : gmap Z nview) (slots : list (option Z)) : Prop := {
  so_len : length slots = N;
  so_owner : ∀ j n, slots !! j = Some (Some n) → is_Some (H !! n);
  so_nodes : ∀ n v, H !! n = Some v → node_slots slots n v;
}.

(** Replicas and masters point to each other. *)
Record links_ok (H : gmap Z nview) : Prop := {
  lk_up : ∀ x vx m, H !! x = Some vx → v_slaveof vx = Some m →
    m ≠ x ∧ v_slave vx = true ∧ ∃ vm, H !! m = Some vm ∧ x ∈ v_slaves vm;
  lk_down : ∀ m vm x, H !! m = Some vm → x ∈ v_slaves vm → ∃ vx, H !! x = Some vx ∧ v_slaveof vx = Some m;
  lk_nodup : ∀ m vm, H !! m = Some vm → NoDup (v_slaves vm);
  lk_role : ∀ x vx, H !! x = Some vx → v_master vx = true → v_slave vx = false;
}.

(** This node is a master, or it has a master. *)
Definition my_role (v : nview) : Prop := v_master v = true ∨ is_Some (v_slaveof v).

(** Arrays of slots have their size and their pointers do not dangle. *)
Definition ptrs_ok (H : gmap Z nview) (l : list (option Z)) : Prop :=
  length l = N ∧ ∀ j n, l !! j = Some (Some n) → is_Some (H !! n).
Record inv (H : gmap Z nview) (c : clusterState) : Prop := {
  inv_slots : slots_ok H (c_slots c);
  inv_links : links_ok H;
  inv_myself : ∃ v, H !! c_myself c = Some v ∧ my_role v;
  inv_nodup : NoDup (c_nodes c);
  inv_nodes : ∀ n, n ∈ c_nodes c ↔ is_Some (H !! n);
  inv_importing : ptrs_ok H (c_importing_slots_from c);
  inv_migrating : ptrs_ok H (c_migrating_slots_to c);
  inv_claims : bitmap_ok (c_owner_not_claiming_slot c);
  inv_reports : ∀ n v, H !! n = Some v → NoDup (v_reports v) ∧ Forall (λ s, is_Some (H !! s)) (v_reports v);
}.
Definition cluster_ok (w : world) : Prop := inv (vheap w) (w_c w).

(** ** One slot changes hands *)

Lemma owned_insert slots j o o' n :
  slots !! j = Some o →
  zlen (owned (<[j := o']> slots) n) =
    zlen (owned slots n) + (if decide (o' = Some n) then 1 else 0) - (if decide (o = Some n) then 1 else 0).
Proof.
  intros Hj. pose proof (lookup_lt_Some _ _ _ Hj) as Hlt. unfold owned. rewrite insert_take_drop by done.
  rewrite <- (take_drop_middle slots j o Hj) at 3. rewrite !filter_app, !filter_cons.
  repeat case_decide; rewrite ?length_app; cbn [length]; lia.
Qed.
Lemma owned_length slots n : zlen (owned slots n) ≤ zlen slots.
Proof. unfold owned. pose proof (length_filter (λ o, o = Some n) slots). lia. Qed.

Definition set_vslots (bm : list Z) (num : Z) (v : nview) : nview :=
  NView bm num (v_slaves v) (v_slaveof v) (v_master v) (v_slave v) (v_reports v).

(** Slot [j] goes from [o] to [o']; the node [n], which is one of the two,
    changes its bitmap and its counter. *)
Lemma slots_move H slots (j : nat) n v o o' bm :
  slots_ok H slots → slots !! j = Some o → H !! n = Some v → bitmap_ok bm →
  (o = None ∧ o' = Some n ∧ v_slave v = false ∨ o = Some n ∧ o' = None) →
  (∀ i, (i < N)%nat → bit bm i = if decide (i = j) then bool_decide (o' = Some n) else bit (v_slots v) i) →
  slots_ok (<[n := set_vslots bm (v_numslots v + (if decide (o' = Some n) then 1 else -1)) v]> H) (<[j := o']> slots).
Proof.
  intros [Hl Ho Hn] Hj Hv Hbm Hcase Hbits. pose proof (lookup_lt_Some _ _ _ Hj) as Hlt. split.
  - by rewrite length_insert.
  - intros i m Hi. rewrite lookup_insert_is_Some. destruct (decide (n = m)) as [|Hne]; [by left|right; split; [done|]].
    apply list_lookup_insert_Some in Hi as [(<- & -> & _)|[_ Hi]]; [|by eapply Ho]. destruct Hcase as [(_ & [= <-] & _)|[_ ?]]; done.
  - intros m vm. intros [[<- <-]|[Hne Hm]]%lookup_insert_Some.
    + destruct (Hn n v Hv) as [Hb1 Hb2 Hb3 Hb4]. split; cbn [set_vslots v_slots v_numslots v_slave].
      * done.
      * intros i Hi. rewrite Hbits by done. destruct (decide (i = j)) as [->|Hij].
        -- rewrite list_lookup_insert_eq by done. apply bool_decide_ext. naive_solver.
        -- rewrite list_lookup_insert_ne by done. by apply Hb2.
      * rewrite (owned_insert slots j o o' n Hj), <- Hb3. destruct Hcase as [(-> & -> & _)|[-> ->]]; repeat case_decide; try done; lia.
      * intros Hs. destruct Hcase as [(_ & _ & ?)|[-> _]]; [congruence|]. exfalso. specialize (Hb4 Hs). rewrite Hb3 in Hb4.
        assert (Some n ∈ owned slots n) by (unfold owned; apply list_elem_of_filter; split; [done|by eapply list_elem_of_lookup_2]).
        destruct (owned slots n); [set_solver|cbn [length] in Hb4; lia].
    + destruct (Hn m vm Hm) as [Hb1 Hb2 Hb3 Hb4]. assert (o ≠ Some m ∧ o' ≠ Some m) as [Ho1 Ho2] by (split; intros ->; naive_solver).
      split; [done| | |done].
      * intros i Hi. rewrite (Hb2 i Hi). apply bool_decide_ext. destruct (decide (i = j)) as [->|Hij].
        -- rewrite list_lookup_insert_eq, Hj by done. naive_solver.
        -- by rewrite list_lookup_insert_ne.
      * rewrite (owned_insert slots j o o' m Hj), !decide_False by done. lia.
Qed.

(** The links do not depend on the slots. *)
Lemma links_vslots H n v bm num : links_ok H → H !! n = Some v → links_ok (<[n := set_vslots bm num v]> H).
Proof.
  intros [H1 H2 H3 H4] Hv.
  assert (Hl : ∀ x vx, <[n := set_vslots bm num v]> H !! x = Some vx →
    ∃ vx', H !! x = Some vx' ∧ v_slaves vx' = v_slaves vx ∧ v_slaveof vx' = v_slaveof vx ∧ v_master vx' = v_master vx ∧ v_slave vx' = v_slave vx).
  { intros x vx [[<- <-]|[_ Hx]]%lookup_insert_Some; [by exists v|by exists vx]. }
  assert (Hr : ∀ x vx, H !! x = Some vx → ∃ vx', <[n := set_vslots bm num v]> H !! x = Some vx' ∧
    v_slaves vx' = v_slaves vx ∧ v_slaveof vx' = v_slaveof vx).
  { intros x vx Hx. destruct (decide (n = x)) as [<-|]; [|exists vx; by rewrite lookup_insert_ne].
    rewrite lookup_insert_eq. eexists. split; [done|]. by simplify_eq. }
  split.
  - intros x vx m Hx Hm. destruct (Hl x vx Hx) as (vx' & Hx' & _ & E1 & E2 & E3). rewrite <- E1 in Hm.
    destruct (H1 x vx' m Hx' Hm) as (? & ? & vm & Hvm & Hin). destruct (Hr m vm Hvm) as (vm' & ? & E & _).
    split_and!; [done|congruence|]. exists vm'. by rewrite E.
  - intros m vm x Hm Hin. destruct (Hl m vm Hm) as (vm' & Hm' & E & _). rewrite <- E in Hin. destruct (H2 m vm' x Hm' Hin) as (vx & Hx & Hs).
    destruct (Hr x vx Hx) as (vx' & ? & _ & E'). exists vx'. by rewrite E'.
  - intros m vm Hm. destruct (Hl m vm Hm) as (vm' & Hm' & <- & _). by eapply H3.
  - intros x vx Hx. destruct (Hl x vx Hx) as (vx' & Hx' & _ & _ & <- & <-). by apply (H4 x).
Qed.
Lemma dom_vslots (H : gmap Z nview) n (v v' : nview) k : H !! n = Some v → is_Some (<[n := v']> H !! k) ↔ is_Some (H !! k).
Proof.
  intros Hv. rewrite lookup_insert_is_Some. destruct (decide (n = k)) as [<-|]; [|naive_solver].
  split; intros; [by eexists|by left].
Qed.

(** ** Nodes without slots *)

Definition empty_bitmap : list Z := replicate (Z.to_nat (CLUSTER_SLOTS / 8)) 0.
Lemma empty_bitmap_ok : bitmap_ok empty_bitmap.
Proof. split; [by unfold empty_bitmap; rewrite length_replicate|]. apply Forall_replicate. unfold is_byte. lia. Qed.
Lemma empty_bitmap_bit j : bit empty_bitmap j = false.
Proof.
  unfold bit, empty_bitmap. destruct (replicate _ _ !! _) as [b|] eqn:E; [apply lookup_replicate in E as [-> _]|]; apply Z.testbit_0_l.
Qed.
Definition new_view (ma sl : bool) : nview := NView empty_bitmap 0 [] None ma sl [].

Lemma owned_absent slots n : (∀ j : nat, slots !! j ≠ Some (Some n)) → owned slots n = [].
Proof.
  intros Hno. destruct (owned slots n) as [|o l] eqn:E; [done|]. exfalso. assert (Ho : o ∈ owned slots n) by (rewrite E; by left).
  apply list_elem_of_filter in Ho as [-> Hin]. apply list_elem_of_lookup in Hin as [j Hj]. by apply (Hno j).
Qed.

(** Fresh nodes, and no slot assigned. *)
Definition no_entries : list (option Z) := replicate (Z.to_nat CLUSTER_SLOTS) None.
Lemma no_entry (j : nat) n : no_entries !! j ≠ Some (Some n).
Proof. intros Hj. by apply lookup_replicate in Hj as [? _]. Qed.
Lemma no_ptrs H : ptrs_ok H no_entries.
Proof. split; [apply length_replicate|]. intros j n Hj. by apply no_entry in Hj. Qed.
Lemma inv_fresh H c sl :
  (∀ n v, H !! n = Some v → ∃ ma sl, v = new_view ma sl ∧ (ma = true → sl = false)) → H !! c_myself c = Some (new_view true sl) →
  c_slots c = no_entries → c_importing_slots_from c = no_entries → c_migrating_slots_to c = no_entries → c_owner_not_claiming_slot c = empty_bitmap →
  NoDup (c_nodes c) → (∀ n, n ∈ c_nodes c ↔ is_Some (H !! n)) → inv H c.
Proof.
  intros Hv Hme E1 E2 E3 E4 Hnd Hn. split; rewrite ?E1, ?E2, ?E3, ?E4; try done; [| | |apply no_ptrs|apply no_ptrs|apply empty_bitmap_ok|].
  - split; [apply length_replicate|intros j n Hj; by apply no_entry in Hj|]. intros n v Hnv. destruct (Hv n v Hnv) as (ma & s & -> & _). split; cbn [new_view v_slots v_numslots v_slave].
    + apply empty_bitmap_ok.
    + intros j Hj. rewrite empty_bitmap_bit. symmetry. apply bool_decide_eq_false_2, no_entry.
    + by rewrite (owned_absent _ _ (λ j, no_entry j n)).
    + done.
  - split.
    + intros x vx m Hx. destruct (Hv x vx Hx) as (ma & s & -> & _). done.
    + intros m vm x Hm Hx. destruct (Hv m vm Hm) as (ma & s & -> & _). by apply not_elem_of_nil in Hx.
    + intros m vm Hm. destruct (Hv m vm Hm) as (ma & s & -> & _). constructor.
    + intros x vx Hx. destruct (Hv x vx Hx) as (ma & s & -> & Hr). exact Hr.
  - eexists. split; [done|by left].
  - intros n v Hnv. destruct (Hv n v Hnv) as (ma & s & -> & _). split; constructor.
Qed.

(** ** What slot operations leave alone *)

(** A node without its bitmap, its counter and the migration flag; the state
    without the slot table, the claims and the pending work. *)
Definition node_rest (n : clusterNode) : clusterNode := set_bitmap [] (λ _, 0) (del_flags CLUSTER_NODE_MIGRATE_TO n).
Definition state_rest (c : clusterState) : clusterState := put_slots [] (put_owner_not_claiming_slot [] (put_todo_before_sleep 0 c)).
Record frame (w w' : world) : Prop := {
  fr_heap : node_rest <$> w_heap w = node_rest <$> w_heap w';
  fr_state : state_rest (w_c w) = state_rest (w_c w');
}.
Lemma frame_refl w : frame w w.
Proof. done. Qed.
Lemma frame_trans w1 w2 w3 : frame w1 w2 → frame w2 w3 → frame w1 w3.
Proof. intros [H1 H2] [H3 H4]. split; congruence. Qed.

Lemma frame_node w w' n nd :
  frame w w' → w_heap w !! n = Some nd → ∃ nd', w_heap w' !! n = Some nd' ∧ node_rest nd = node_rest nd'.
Proof.
  intros [Hh _] Hn. apply (f_equal (lookup n)) in Hh. rewrite !lookup_fmap, Hn in Hh. cbn in Hh. symmetry in Hh.
  apply fmap_Some in Hh as (nd' & ? & ?). by exists nd'.
Qed.

Lemma flags_set f g k : 0 ≤ k → Z.testbit (Z.lor f g) k = Z.testbit f k || Z.testbit g k.
Proof. intros _. apply Z.lor_spec. Qed.
Lemma flags_clear f g k : 0 ≤ k → Z.testbit (Z.land f (Z.lnot g)) k = Z.testbit f k && negb (Z.testbit g k).
Proof. intros Hk. by rewrite Z.land_spec, Z.lnot_spec. Qed.

Lemma is_master_bit n : nodeIsMaster n = Z.testbit (n_flags n) 0.
Proof. apply (land_pow2 _ 0). lia. Qed.
Lemma is_slave_bit n : nodeIsSlave n = Z.testbit (n_flags n) 1.
Proof. apply (land_pow2 _ 1). lia. Qed.
Lemma failed_bit n : nodeFailed n = Z.testbit (n_flags n) 3.
Proof. apply (land_pow2 _ 3). lia. Qed.

(** Changing flags other than the two roles. *)
Lemma view_add_flags f n : Z.testbit f 0 = false → Z.testbit f 1 = false → view (add_flags f n) = view n.
Proof.
  intros H0 H1. unfold view. rewrite !is_master_bit, !is_slave_bit. change (n_flags (add_flags f n)) with (Z.lor (n_flags n) f).
  by rewrite !flags_set, H0, H1, !orb_false_r by lia.
Qed.
Lemma view_del_flags f n : Z.testbit f 0 = false → Z.testbit f 1 = false → view (del_flags f n) = view n.
Proof.
  intros H0 H1. unfold view. rewrite !is_master_bit, !is_slave_bit. change (n_flags (del_flags f n)) with (Z.land (n_flags n) (Z.lnot f)).
  by rewrite !flags_clear, H0, H1, !andb_true_r by lia.
Qed.

Lemma rest_fields n n' : node_rest n = node_rest n' →
  nodeIsMaster n = nodeIsMaster n' ∧ nodeIsSlave n = nodeIsSlave n' ∧ n_configEpoch n = n_configEpoch n' ∧
  n_slaves n = n_slaves n' ∧ n_slaveof n = n_slaveof n' ∧ n_fail_reports n = n_fail_reports n' ∧ n_shard_id n = n_shard_id n' ∧ n_name n = n_name n'.
Proof.
  intros E. assert (Hf : ∀ k, 0 ≤ k → k ≠ 8 → Z.testbit (n_flags n) k = Z.testbit (n_flags n') k).
  { intros k Hk Hne. apply (f_equal (λ n, Z.testbit (n_flags n) k)) in E.
    change (Z.testbit (Z.land (n_flags n) (Z.lnot (2 ^ 8))) k = Z.testbit (Z.land (n_flags n') (Z.lnot (2 ^ 8))) k) in E.
    rewrite !flags_clear, Z.pow2_bits_false, !andb_true_r in E by lia. done. }
  rewrite !is_master_bit, !is_slave_bit, !Hf by lia. split_and!; [done|done|..].
  - by apply (f_equal n_configEpoch) in E.
  - by apply (f_equal n_slaves) in E.
  - by apply (f_equal n_slaveof) in E.
  - by apply (f_equal n_fail_reports) in E.
  - by apply (f_equal n_shard_id) in E.
  - by apply (f_equal n_name) in E.
Qed.

(** Changes of one node. *)
Lemma frame_heap w n nd f : w_heap w !! n = Some nd → node_rest (f nd) = node_rest nd → frame w (with_heap w (<[n := f nd]> (w_heap w))).
Proof. intros Hn E. split; [|done]. cbn. rewrite fmap_insert, E. symmetry. apply insert_id. by rewrite lookup_fmap, Hn. Qed.
Lemma frame_put w c : state_rest (w_c w) = state_rest c → frame w (with_state w c).
Proof. by split. Qed.
Lemma put_slots_rest x c : state_rest (put_slots x c) = state_rest c.
Proof. by destruct c. Qed.
Lemma put_claims_rest x c : state_rest (put_owner_not_claiming_slot x c) = state_rest c.
Proof. by destruct c. Qed.
Lemma put_todo_rest x c : state_rest (put_todo_before_sleep x c) = state_rest c.
Proof. by destruct c. Qed.

(** The invariant sees a node only through its view. *)
Lemma vheap_insert w n nd : vheap (with_heap w (<[n := nd]> (w_heap w))) = <[n := view nd]> (vheap w).
Proof. apply fmap_insert. Qed.
Lemma vheap_same w n nd nd' : w_heap w !! n = Some nd → view nd' = view nd → vheap (with_heap w (<[n := nd']> (w_heap w))) = vheap w.
Proof. intros Hn E. rewrite vheap_insert, E. apply insert_id. by rewrite lookup_fmap, Hn. Qed.
Lemma vheap_lookup w n nd : w_heap w !! n = Some nd → vheap w !! n = Some (view nd).
Proof. intros Hn. by rewrite lookup_fmap, Hn. Qed.
Lemma vheap_lookup_inv w n v : vheap w !! n = Some v → ∃ nd, w_heap w !! n = Some nd ∧ v = view nd.
Proof. rewrite lookup_fmap. by intros (nd & ? & ?)%fmap_Some; exists nd. Qed.
Lemma vheap_some w n : is_Some (vheap w !! n) → ∃ nd, w_heap w !! n = Some nd.
Proof. intros [v (nd & ? & _)%vheap_lookup_inv]. by exists nd. Qed.

(** ** Operations on slots *)

(** One step of a computation: a bind, and a primitive that needs nothing. *)
Ltac wstep :=
  lazymatch goal with
  | |- wp (_ ≫= _) _ _ => apply wp_bind; try wstep
  | |- wp (mret _) _ _ => apply wp_ret
  | |- wp (gets _) _ _ => apply wp_gets
  | |- wp (modify _) _ _ => apply wp_modify
  | |- wp (emit _) _ _ => apply wp_emit
  | |- wp (get_node ?n) ?w _ =>
      lazymatch goal with Hn : w_heap w !! n = Some _ |- _ => apply (wp_get_node _ _ _ _ Hn) end
  | |- wp (mod_node ?n _) ?w _ =>
      lazymatch goal with Hn : w_heap w !! n = Some _ |- _ => apply (wp_mod_node _ _ _ _ _ Hn) end
  | |- wp (if ?b then _ else _) _ _ => idtac
  end.
Ltac wsteps := repeat (wstep; cbv beta).

Lemma wp_mastersHaveSlaves w (Q : bool → world → Prop) :
  (∀ n, n ∈ c_nodes (w_c w) → is_Some (w_heap w !! n)) → (∀ b, Q b w) → wp clusterMastersHaveSlaves w Q.
Proof.
  intros Hn HQ. unfold clusterMastersHaveSlaves. apply wp_bind, wp_gets, wp_bind.
  eapply wp_mono; [eapply (wp_for_each_keep (λ _ w', w' = w)); [done|]|].
  - intros n acc w' Hin ->. destruct (Hn n Hin) as [nd Hnd]. apply wp_bind, (wp_get_node _ _ _ _ Hnd). by apply wp_ret.
  - intros acc w' ->. by apply wp_ret.
Qed.

Lemma ok_nodes w n : cluster_ok w → n ∈ c_nodes (w_c w) → ∃ nd, w_heap w !! n = Some nd.
Proof. intros Hok Hn. apply vheap_some. by apply (inv_nodes _ _ Hok). Qed.
Lemma ok_slots w n nd : cluster_ok w → w_heap w !! n = Some nd → node_slots (c_slots (w_c w)) n (view nd).
Proof. intros Hok Hn. by apply (so_nodes _ _ (inv_slots _ _ Hok)), vheap_lookup. Qed.
Lemma ok_slot w (j : nat) : cluster_ok w → (j < N)%nat → ∃ o, c_slots (w_c w) !! j = Some o.
Proof. intros Hok Hj. apply lookup_lt_is_Some_2. rewrite (so_len _ _ (inv_slots _ _ Hok)). done. Qed.

Lemma entry_of_spec l (j : nat) o w (Q : option Z → world → Prop) : l !! j = Some o → Q o w → wp (entry_of l (Z.of_nat j)) w Q.
Proof. intros Hj HQ. unfold entry_of. apply (wp_lift _ o); [|done]. by rewrite decide_True, Nat2Z.id by lia. Qed.
Lemma slot_owner_spec (j : nat) o w (Q : option Z → world → Prop) : c_slots (w_c w) !! j = Some o → Q o w → wp (slot_owner (Z.of_nat j)) w Q.
Proof. intros Hj HQ. unfold slot_owner. apply wp_bind, wp_gets. by eapply entry_of_spec. Qed.

(** The invariant after a slot has moved. *)
Lemma cluster_move w w' (j : nat) n v o o' bm :
  cluster_ok w → c_slots (w_c w) !! j = Some o → vheap w !! n = Some v → bitmap_ok bm →
  (o = None ∧ o' = Some n ∧ v_slave v = false ∨ o = Some n ∧ o' = None) →
  (∀ i, (i < N)%nat → bit bm i = if decide (i = j) then bool_decide (o' = Some n) else bit (v_slots v) i) →
  vheap w' = <[n := set_vslots bm (v_numslots v + (if decide (o' = Some n) then 1 else -1)) v]> (vheap w) →
  w_c w' = put_slots (<[j := o']> (c_slots (w_c w))) (w_c w) → cluster_ok w'.
Proof.
  intros [I1 I2 I3 I4 I5 I6 I7 I8 I9] Hj Hv Hbm Hcase Hbits Hh Hc. unfold cluster_ok. rewrite Hh, Hc.
  pose proof (λ k v', dom_vslots (vheap w) n v v' k Hv) as Hdom. destruct (w_c w). cbn in *. split; cbn.
  - eapply slots_move; done.
  - by apply links_vslots.
  - destruct I3 as (v3 & Hv3 & Hr). destruct (decide (n = c_myself0)) as [<-|]; [|exists v3; by rewrite lookup_insert_ne].
    rewrite lookup_insert_eq. eexists. split; [done|]. by simplify_eq.
  - done.
  - intros k. rewrite Hdom. apply I5.
  - split; [apply I6|]. intros i m Hi. rewrite Hdom. by eapply I6.
  - split; [apply I7|]. intros i m Hi. rewrite Hdom. by eapply I7.
  - done.
  - intros m vm. intros [[<- <-]|[_ Hm]]%lookup_insert_Some; cbn.
    + split; [by eapply I9|]. eapply Forall_impl; [by eapply I9|]. intros k. by rewrite Hdom.
    + split; [by eapply I9|]. eapply Forall_impl; [by eapply I9|]. intros k. by rewrite Hdom.
Qed.

(** A free slot is given to any node. *)
Lemma addSlot_raw w n nd (j : nat) :
  cluster_ok w → (j < N)%nat → c_slots (w_c w) !! j = Some None → w_heap w !! n = Some nd →
  ∃ bm, bitmap_ok bm ∧ (∀ i, (i < N)%nat → bit bm i = if decide (i = j) then true else bit (n_slots nd) i) ∧
  wp (clusterAddSlot n (Z.of_nat j)) w (λ ok w', ok = true ∧ frame w w' ∧ vheap w' = <[n := set_vslots bm (n_numslots nd + 1) (view nd)]> (vheap w) ∧
    w_c w' = put_slots (<[j := Some n]> (c_slots (w_c w))) (w_c w)).
Proof.
  intros Hok Hj Hslot Hn. destruct (ok_slots w n nd Hok Hn) as [Hbm Hbits Hnum _]. cbn [view v_slots v_numslots] in *.
  destruct (setBit_spec (n_slots nd) j Hbm Hj) as (bm & Hset & Hbm' & Hbits'). exists bm. split_and!; [done|done|].
  pose proof (owned_length (c_slots (w_c w)) n) as Hlen. rewrite (so_len _ _ (inv_slots _ _ Hok)) in Hlen.
  unfold clusterAddSlot. apply wp_bind, (slot_owner_spec j None); [done|]. apply wp_bind. unfold clusterNodeSetSlotBit.
  apply wp_bind, (wp_get_node _ _ _ _ Hn). apply wp_bind, (wp_lift _ false).
  { rewrite testBit_spec, Hbits by done. f_equal. by rewrite Hslot. }
  cbn [negb]. apply wp_bind, wp_bind, (wp_lift _ bm); [done|]. apply wp_bind, (wp_mod_node _ _ _ _ _ Hn).
  set (w1 := with_heap _ _). set (nd1 := set_bitmap bm (λ k, s32 (k + 1)) nd) in *.
  assert (Hn1 : w_heap w1 !! n = Some nd1) by apply lookup_insert_eq. apply wp_bind, (wp_get_node _ _ _ _ Hn1).
  assert (Hview : view nd1 = set_vslots bm (n_numslots nd + 1) (view nd)).
  { unfold nd1, view, set_vslots. cbn. f_equal. apply wraps_small; [lia|]. unfold sfits. lia. }
  assert (Hend : ∀ w2, vheap w2 = <[n := view nd1]> (vheap w) → w_c w2 = w_c w → frame w w2 →
    wp (mret (M:=M) false) w2 (λ _ w', wp (_ ← put_slot (Z.of_nat j) (Some n); mret true) w' (λ ok w', ok = true ∧ frame w w' ∧
      vheap w' = <[n := set_vslots bm (n_numslots nd + 1) (view nd)]> (vheap w) ∧ w_c w' = put_slots (<[j := Some n]> (c_slots (w_c w))) (w_c w)))).
  { intros w2 Hh2 Hc2 Hf2. apply wp_ret, wp_bind. unfold put_slot. apply wp_modify, wp_ret. rewrite Nat2Z.id, Hc2. split_and!; [done| |by rewrite <- Hview|done].
    eapply frame_trans; [exact Hf2|]. apply frame_put. rewrite Hc2. symmetry. apply put_slots_rest. }
  assert (Hf1 : frame w w1) by (by apply frame_heap).
  destruct (n_numslots nd1 =? 1); [|apply wp_ret; apply Hend; [apply vheap_insert|done|done]].
  apply wp_bind, wp_mastersHaveSlaves.
  { intros k Hk. destruct (ok_nodes w k Hok Hk) as [kd Hkd]. unfold w1. cbn. apply lookup_insert_is_Some'. right. by eexists. }
  intros [|]; [|apply wp_ret; apply Hend; [apply vheap_insert|done|done]].
  apply (wp_mod_node _ _ _ _ _ Hn1). apply Hend; [|done|].
  - rewrite (vheap_same _ _ nd1); [apply vheap_insert|done|by apply view_add_flags].
  - eapply frame_trans; [exact Hf1|]. apply frame_heap; [done|]. unfold node_rest, set_bitmap, del_flags, add_flags, set_flags. cbn. f_equal.
    apply Z.bits_inj'. intros i Hi. rewrite !Z.land_spec, !Z.lnot_spec, Z.lor_spec by done. destruct (Z.testbit (n_flags nd) i), (Z.testbit _ i); done.
Qed.
Lemma addSlot_free w n nd (j : nat) :
  cluster_ok w → (j < N)%nat → c_slots (w_c w) !! j = Some None → w_heap w !! n = Some nd → nodeIsSlave nd = false →
  wp (clusterAddSlot n (Z.of_nat j)) w (λ ok w', ok = true ∧ cluster_ok w' ∧ frame w w' ∧
    w_c w' = put_slots (<[j := Some n]> (c_slots (w_c w))) (w_c w)).
Proof.
  intros Hok Hj Hslot Hn Hs. destruct (addSlot_raw w n nd j Hok Hj Hslot Hn) as (bm & Hbm & Hbits & Hw). eapply wp_mono; [exact Hw|]. cbv beta.
  intros ok w' (-> & Hf & Hh & Hc). split_and!; [done| |done|done]. eapply (cluster_move w _ j n (view nd) None (Some n) bm); try done.
  - by apply vheap_lookup.
  - left. cbn. by rewrite Hs.
  - intros i Hi. rewrite (Hbits i Hi). destruct (decide (i = j)); [|done]. symmetry. by apply bool_decide_eq_true_2.
  - by rewrite decide_True.
Qed.

Lemma ok_owner w (j : nat) n : cluster_ok w → c_slots (w_c w) !! j = Some (Some n) → ∃ nd, w_heap w !! n = Some nd.
Proof. intros Hok Hj. apply vheap_some. by eapply (so_owner _ _ (inv_slots _ _ Hok)). Qed.
Lemma owned_pos slots (j : nat) n : slots !! j = Some (Some n) → 0 < zlen (owned slots n).
Proof.
  intros Hj. assert (Some n ∈ owned slots n) by (unfold owned; apply list_elem_of_filter; split; [done|by eapply list_elem_of_lookup_2]).
  destruct (owned slots n); [set_solver|cbn [length]; lia].
Qed.

Lemma delSlot_spec w o (j : nat) :
  cluster_ok w → (j < N)%nat → c_slots (w_c w) !! j = Some o →
  wp (clusterDelSlot (Z.of_nat j)) w (λ ok w', ok = bool_decide (is_Some o) ∧ cluster_ok w' ∧ frame w w' ∧
    w_c w' = put_slots (<[j := None]> (c_slots (w_c w))) (w_c w)).
Proof.
  intros Hok Hj Hslot. unfold clusterDelSlot. apply wp_bind, (slot_owner_spec j o); [done|]. destruct o as [n|].
  2:{ apply wp_ret. split_and!; [done|done|apply frame_refl|]. rewrite (list_insert_id _ j) by done. by destruct (w_c w). }
  destruct (ok_owner w j n Hok Hslot) as [nd Hn]. destruct (ok_slots w n nd Hok Hn) as [Hbm Hbits Hnum _]. cbn [view v_slots v_numslots] in *.
  destruct (clearBit_spec (n_slots nd) j Hbm Hj) as (bm & Hclear & Hbm' & Hbits').
  pose proof (owned_length (c_slots (w_c w)) n) as Hlen. rewrite (so_len _ _ (inv_slots _ _ Hok)) in Hlen.
  pose proof (owned_pos _ j n Hslot) as Hpos.
  apply wp_bind, wp_emit. unfold clusterNodeClearSlotBit. apply wp_bind, wp_bind, (wp_get_node _ nd); [done|]. apply wp_bind, (wp_lift _ true).
  { rewrite testBit_spec, Hbits, bool_decide_eq_true_2 by done. done. }
  apply wp_bind, wp_bind, (wp_lift _ bm); [done|]. apply (wp_mod_node _ nd); [done|]. apply wp_ret, wp_bind, wp_assert; [done|].
  apply wp_bind. unfold put_slot. apply wp_modify, wp_ret. rewrite Nat2Z.id. cbn [with_heap w_c]. split_and!; [done| | |done].
  - eapply (cluster_move w _ j n (view nd) (Some n) None bm); try done.
    + by apply vheap_lookup.
    + by right.
    + cbn [with_state with_heap w_heap]. rewrite fmap_insert. f_equal. unfold view, set_vslots. cbn. f_equal.
      rewrite decide_False, wraps_small by (done || lia || (unfold sfits; lia)). lia.
  - eapply frame_trans; [|apply frame_put; cbn; symmetry; apply put_slots_rest].
    split; [|done]. cbn. rewrite fmap_insert. symmetry. apply insert_id. by rewrite lookup_fmap, Hn.
Qed.

Lemma addSlot_spec w n nd o (j : nat) :
  cluster_ok w → (j < N)%nat → c_slots (w_c w) !! j = Some o → w_heap w !! n = Some nd → nodeIsSlave nd = false →
  wp (clusterAddSlot n (Z.of_nat j)) w (λ ok w', ok = bool_decide (o = None) ∧ cluster_ok w' ∧ frame w w' ∧
    w_c w' = put_slots (<[j := Some (default n o)]> (c_slots (w_c w))) (w_c w)).
Proof.
  intros Hok Hj Hslot Hn Hs. destruct o as [m|]; [|by eapply wp_mono; [eapply addSlot_free|]; naive_solver].
  unfold clusterAddSlot. apply wp_bind, (slot_owner_spec j (Some m)); [done|]. apply wp_ret. split_and!; [done|done|apply frame_refl|].
  cbn. rewrite (list_insert_id _ j) by done. by destruct (w_c w).
Qed.

(** A loop over the first [k] numbers, and over all the slots. *)
Lemma wp_seqZ {B} k (I : nat → B → world → Prop) (body : Z → B → M B) acc w :
  I 0%nat acc w → (∀ j acc w, (j < Z.to_nat k)%nat → I j acc w → wp (body (Z.of_nat j) acc) w (I (S j))) →
  wp (for_each body (seqZ 0 k) acc) w (I (Z.to_nat k)).
Proof.
  intros HI Hbody. pose proof (wp_for_each (λ pre, I (length pre)) body (seqZ 0 k) [] acc w HI) as Hw. cbn [app] in Hw. rewrite length_seqZ in Hw.
  apply Hw. clear Hw. intros pre j post acc' w' E HI'.
  assert (Hj : seqZ 0 k !! length pre = Some j) by (rewrite E; by apply list_lookup_middle).
  apply lookup_seqZ in Hj as [-> Hlt]. rewrite length_app, Nat.add_1_r, Z.add_0_l. apply Hbody; [lia|done].
Qed.
Lemma wp_all_slots {B} (I : nat → B → world → Prop) (body : Z → B → M B) acc w :
  I 0%nat acc w → (∀ j acc w, (j < N)%nat → I j acc w → wp (body (Z.of_nat j) acc) w (I (S j))) →
  wp (for_each body all_slots acc) w (I N).
Proof. exact (wp_seqZ CLUSTER_SLOTS I body acc w). Qed.

(** The owners of the first [k] slots are changed by [f]. *)
Definition map_prefix (k : nat) (f : option Z → option Z) (l : list (option Z)) : list (option Z) := (f <$> take k l) ++ drop k l.
Lemma map_prefix_0 f l : map_prefix 0 f l = l.
Proof. done. Qed.
Lemma map_prefix_all f l k : (length l ≤ k)%nat → map_prefix k f l = f <$> l.
Proof. intros. unfold map_prefix. by rewrite take_ge, drop_ge, app_nil_r by lia. Qed.
Lemma map_prefix_lookup k f l : (k < length l)%nat → map_prefix k f l !! k = l !! k.
Proof. intros Hk. unfold map_prefix. rewrite lookup_app_r; rewrite length_fmap, length_take_le by lia; [|lia]. rewrite Nat.sub_diag, lookup_drop. f_equal. lia. Qed.
Lemma map_prefix_S k f l o : l !! k = Some o → map_prefix (S k) f l = <[k := f o]> (map_prefix k f l).
Proof.
  intros Hk. pose proof (lookup_lt_Some _ _ _ Hk) as Hlt. unfold map_prefix. rewrite (take_S_r _ _ _ Hk), fmap_app, <- app_assoc. cbn [fmap list_fmap app].
  rewrite (drop_S _ _ _ Hk). assert (Hlen : length (f <$> take k l) = k) by (rewrite length_fmap, length_take_le by lia; done).
  rewrite <- Hlen at 3. by rewrite insert_app_r_alt, Nat.sub_diag by lia.
Qed.

Lemma put_slots_put x y c : put_slots x (put_slots y c) = put_slots x c.
Proof. by destruct c. Qed.
Lemma put_slots_id c : put_slots (c_slots c) c = c.
Proof. by destruct c. Qed.

(** Every slot of a node is given up. *)
Lemma delNodeSlots_spec w n nd :
  cluster_ok w → w_heap w !! n = Some nd →
  wp (clusterDelNodeSlots n) w (λ _ w', cluster_ok w' ∧ frame w w' ∧
    w_c w' = put_slots ((λ o, if decide (o = Some n) then None else o) <$> c_slots (w_c w)) (w_c w)).
Proof.
  intros Hok Hn. set (f := λ o : option Z, if decide (o = Some n) then None else o). pose proof (so_len _ _ (inv_slots _ _ Hok)) as Hlen.
  unfold clusterDelNodeSlots. eapply wp_mono; [apply (wp_all_slots (λ k _ w', cluster_ok w' ∧ frame w w' ∧
    w_c w' = put_slots (map_prefix k f (c_slots (w_c w))) (w_c w)))|].
  - split_and!; [done|apply frame_refl|]. by rewrite map_prefix_0, put_slots_id.
  - intros j acc w' Hj (Hok' & Hf & Hc). destruct (frame_node w w' n nd Hf Hn) as (nd' & Hn' & _).
    destruct (ok_slot w j Hok Hj) as [o Ho].
    assert (Ho' : c_slots (w_c w') !! j = Some o).
    { rewrite Hc. transitivity (map_prefix j f (c_slots (w_c w)) !! j); [by destruct (w_c w)|]. rewrite map_prefix_lookup by lia. done. }
    destruct (ok_slots w' n nd' Hok' Hn') as [Hbm Hbits _ _]. cbn [view v_slots] in *. unfold clusterNodeGetSlotBit.
    apply wp_bind, wp_bind, (wp_get_node _ _ _ _ Hn'). apply (wp_lift _ (bool_decide (o = Some n))).
    { rewrite testBit_spec, Hbits by done. f_equal. rewrite Ho'. apply bool_decide_ext. naive_solver. }
    assert (HS : put_slots (map_prefix (S j) f (c_slots (w_c w))) (w_c w) = put_slots (<[j := f o]> (c_slots (w_c w'))) (w_c w')).
    { rewrite Hc, put_slots_put, (map_prefix_S _ _ _ _ Ho). f_equal. by destruct (w_c w). }
    case_bool_decide as Heq.
    + apply wp_bind. eapply wp_mono; [by apply (delSlot_spec w' o j)|]. intros ok w2 (_ & Hok2 & Hf2 & Hc2). apply wp_ret.
      split_and!; [done|by eapply frame_trans|]. rewrite HS, Hc2. unfold f. by rewrite decide_True.
    + apply wp_ret. split_and!; [done|done|]. rewrite HS. unfold f. rewrite decide_False by done. rewrite (list_insert_id _ j) by done. by rewrite put_slots_id.
  - intros _ w' (Hok' & Hf & Hc). split_and!; [done|done|]. rewrite Hc, map_prefix_all by lia. done.
Qed.
End ClusterInv.
