(* ===== verification/ClusterOps.v ===== *)
(** * cluster.c: roles, nodes and messages keep the invariant *)

From S2P Require Import Prelude Zskiplist Cluster ClusterInv.
Import Zskiplist Cluster ClusterInv.

Module ClusterOps.

(** A call of an operation with a proved specification: its side conditions, then
    the rest of the computation. *)
Tactic Notation "call" uconstr(spec) := eapply wp_mono; [eapply spec; try done | cbv beta].

(** ** Changing links *)

Definition set_vslaves (l : list Z) (v : nview) : nview :=
  NView (v_slots v) (v_numslots v) l (v_slaveof v) (v_master v) (v_slave v) (v_reports v).
Definition set_vrole (o : option Z) (ma sl : bool) (v : nview) : nview :=
  NView (v_slots v) (v_numslots v) (v_slaves v) o ma sl (v_reports v).

(** Nodes that differ in their links only; a new replica has no slots. *)
Definition same_slots (v v' : nview) : Prop :=
  v_slots v' = v_slots v ∧ v_numslots v' = v_numslots v ∧ v_reports v' = v_reports v ∧
  (v_slave v' = true → v_slave v = true ∨ v_numslots v = 0).
Definition slots_sim (H H' : gmap Z nview) : Prop :=
  (∀ k v, H !! k = Some v → ∃ v', H' !! k = Some v' ∧ same_slots v v') ∧ (∀ k, is_Some (H' !! k) → is_Some (H !! k)).

Lemma same_slots_refl v : same_slots v v.
Proof. split_and!; auto. Qed.
Lemma same_slots_trans v1 v2 v3 : same_slots v1 v2 → same_slots v2 v3 → same_slots v1 v3.
Proof.
  intros (A1 & A2 & A3 & A4) (B1 & B2 & B3 & B4). split_and!; [congruence..|]. intros Hs. destruct (B4 Hs) as [?|E]; [auto|]. right. congruence.
Qed.
Lemma slots_sim_refl H : slots_sim H H.
Proof. split; [|done]. intros k v Hk. exists v. split; [done|apply same_slots_refl]. Qed.
Lemma slots_sim_trans H1 H2 H3 : slots_sim H1 H2 → slots_sim H2 H3 → slots_sim H1 H3.
Proof.
  intros [A1 A2] [B1 B2]. split; [|auto]. intros k v Hk. destruct (A1 k v Hk) as (v' & Hk' & S1). destruct (B1 k v' Hk') as (v'' & Hk'' & S2).
  exists v''. split; [done|]. by eapply same_slots_trans.
Qed.
Lemma slots_sim_insert (H : gmap Z nview) k v v' : H !! k = Some v → same_slots v v' → slots_sim H (<[k := v']> H).
Proof.
  intros Hk Hs. split.
  - intros i vi Hi. destruct (decide (k = i)) as [<-|]; [|exists vi; rewrite lookup_insert_ne by done; split; [done|apply same_slots_refl]].
    exists v'. rewrite lookup_insert_eq. split; [done|]. by simplify_eq.
  - intros i. rewrite lookup_insert_is_Some. intros [<-|[_ ?]]; [by eexists|done].
Qed.

(** What the invariant reads of the state. *)
Definition core (c : clusterState) :=
  (c_myself c, c_nodes c, c_slots c, c_importing_slots_from c, c_migrating_slots_to c, c_owner_not_claiming_slot c).
Lemma inv_core H c c' : inv H c → core c = core c' → inv H c'.
Proof.
  intros [I1 I2 I3 I4 I5 I6 I7 I8 I9] E. unfold core in E. injection E as E1 E2 E3 E4 E5 E6.
  split; rewrite <- ?E1, <- ?E2, <- ?E3, <- ?E4, <- ?E5, <- ?E6; done.
Qed.

Lemma slots_ok_sim H H' slots : slots_ok H slots → slots_sim H H' → slots_ok H' slots.
Proof.
  intros [S1 S2 S3] [A1 A2]. split; [done| |].
  - intros j n Hj. destruct (S2 j n Hj) as [v Hv]. destruct (A1 n v Hv) as (v' & -> & _). by eexists.
  - intros n v' Hn. destruct (A2 n) as [v Hv]; [by eexists|]. destruct (A1 n v Hv) as (v1 & Hn1 & E1 & E2 & _ & E4). simplify_eq.
    destruct (S3 n v Hv) as [B1 B2 B3 B4]. split; [by rewrite E1|by rewrite E1|by rewrite E2|]. rewrite E2. intros Hs. destruct (E4 Hs); auto.
Qed.
Lemma ptrs_sim H H' l : ptrs_ok H l → (∀ k, is_Some (H !! k) → is_Some (H' !! k)) → ptrs_ok H' l.
Proof. intros [P1 P2] Hd. split; [done|]. intros j n Hj. apply Hd. by eapply P2. Qed.
Lemma slots_sim_dom H H' k : slots_sim H H' → is_Some (H' !! k) ↔ is_Some (H !! k).
Proof. intros [A1 A2]. split; [apply A2|]. intros [v Hv]. destruct (A1 k v Hv) as (v' & ? & _). by exists v'. Qed.

Lemma inv_relink H H' c me :
  inv H c → slots_sim H H' → links_ok H' → H' !! c_myself c = Some me → my_role me → inv H' c.
Proof.
  intros [I1 I2 I3 I4 I5 I6 I7 I8 I9] Hs Hl Hme Hro. pose proof (λ k, slots_sim_dom H H' k Hs) as Hd. split.
  - by eapply slots_ok_sim.
  - done.
  - by exists me.
  - done.
  - intros n. rewrite Hd. apply I5.
  - eapply ptrs_sim; [done|]. intros k. by rewrite Hd.
  - eapply ptrs_sim; [done|]. intros k. by rewrite Hd.
  - done.
  - intros n v' Hn. destruct Hs as [A1 A2]. destruct (A2 n) as [v Hv]; [by eexists|]. destruct (A1 n v Hv) as (v1 & Hn1 & _ & _ & E3 & _). simplify_eq.
    rewrite E3. split; [by eapply I9|]. eapply Forall_impl; [by eapply I9|]. intros k. by rewrite Hd.
Qed.

(** Node [x] leaves its master [m], with a new role. *)
Lemma links_detach H x vx m vm ma sl :
  links_ok H → H !! x = Some vx → v_slaveof vx = Some m → H !! m = Some vm → (ma = true → sl = false) →
  links_ok (<[x := set_vrole None ma sl vx]> (<[m := set_vslaves (filter (.≠ x) (v_slaves vm)) vm]> H)).
Proof.
  intros [L1 L2 L3 L4] Hx Hs Hm Hr. destruct (L1 x vx m Hx Hs) as (Hne & _ & _).
  assert (Hl : ∀ k v, <[x := set_vrole None ma sl vx]> (<[m := set_vslaves (filter (.≠ x) (v_slaves vm)) vm]> H) !! k = Some v →
    k = x ∧ v = set_vrole None ma sl vx ∨ k ≠ x ∧ ∃ v0, H !! k = Some v0 ∧ v_slaveof v = v_slaveof v0 ∧ v_master v = v_master v0 ∧ v_slave v = v_slave v0 ∧
      v_slaves v = if decide (k = m) then filter (.≠ x) (v_slaves v0) else v_slaves v0).
  { intros k v [[<- <-]|[Hk [[<- <-]|[Hk' Hv]]%lookup_insert_Some]]%lookup_insert_Some; [by left|right|right].
    - split; [done|]. exists vm. rewrite decide_True by done. by split_and!.
    - split; [done|]. exists v. rewrite decide_False by done. by split_and!. }
  assert (Hrev : ∀ k v0, k ≠ x → H !! k = Some v0 → ∃ v, <[x := set_vrole None ma sl vx]> (<[m := set_vslaves (filter (.≠ x) (v_slaves vm)) vm]> H) !! k = Some v ∧
    v_slaveof v = v_slaveof v0 ∧ v_slaves v = if decide (k = m) then filter (.≠ x) (v_slaves v0) else v_slaves v0).
  { intros k v0 Hk Hv0. rewrite lookup_insert_ne by done. destruct (decide (k = m)) as [->|Hkm].
    - rewrite lookup_insert_eq. eexists. split; [done|]. by simplify_eq.
    - rewrite lookup_insert_ne by done. by exists v0. }
  split.
  - intros k v p Hk Hp. destruct (Hl k v Hk) as [[-> ->]|(Hkx & v0 & Hv0 & E1 & _ & E3 & _)]; [done|]. rewrite E1 in Hp.
    destruct (L1 k v0 p Hv0 Hp) as (? & ? & vp & Hvp & Hin). split_and!; [done|by rewrite E3|].
    destruct (decide (p = x)) as [->|Hpx].
    + rewrite lookup_insert_eq. eexists. split; [done|]. cbn. by simplify_eq.
    + destruct (Hrev p vp Hpx Hvp) as (v' & ? & _ & E). exists v'. split; [done|]. rewrite E. case_decide; [|done]. apply list_elem_of_filter. done.
  - intros k v p Hk Hin. assert (Hp : ∃ v0, H !! k = Some v0 ∧ p ∈ v_slaves v0 ∧ (k = m → p ≠ x)).
    { destruct (Hl k v Hk) as [[-> ->]|(Hkx & v0 & Hv0 & _ & _ & _ & E)]; [exists vx; cbn in Hin; split_and!; [done|done|congruence]|].
      exists v0. rewrite E in Hin. case_decide; [apply list_elem_of_filter in Hin as [? ?]; by split_and!|by split_and!]. }
    destruct Hp as (v0 & Hv0 & Hp0 & Hpx). destruct (L2 k v0 p Hv0 Hp0) as (vp & Hvp & Hps).
    assert (p ≠ x) by (intros ->; apply Hpx; [congruence|done]). destruct (Hrev p vp) as (v' & ? & E & _); [done|done|]. exists v'. by rewrite E.
  - intros k v Hk. destruct (Hl k v Hk) as [[-> ->]|(Hkx & v0 & Hv0 & _ & _ & _ & E)]; [exact (L3 x vx Hx)|]. rewrite E.
    case_decide; [apply NoDup_filter|]; by apply (L3 k).
  - intros k v Hk. destruct (Hl k v Hk) as [[-> ->]|(Hkx & v0 & Hv0 & _ & -> & -> & _)]; [done|]. by apply (L4 k).
Qed.

(** A node without a master changes its role. *)
Lemma links_role H x vx ma sl :
  links_ok H → H !! x = Some vx → v_slaveof vx = None → (ma = true → sl = false) → links_ok (<[x := set_vrole None ma sl vx]> H).
Proof.
  intros [L1 L2 L3 L4] Hx Hs Hr. split.
  - intros k v p [[<- <-]|[Hk Hv]]%lookup_insert_Some Hp; [done|]. destruct (L1 k v p Hv Hp) as (? & ? & vp & Hvp & ?). split_and!; [done|done|].
    destruct (decide (x = p)) as [<-|]; [rewrite lookup_insert_eq; eexists; split; [done|]; cbn; by simplify_eq|]. exists vp. by rewrite lookup_insert_ne.
  - intros k v p Hk Hin. assert (Hp : ∃ vp, H !! p = Some vp ∧ v_slaveof vp = Some k).
    { apply lookup_insert_Some in Hk as [[<- <-]|[_ Hk]]; [by apply (L2 x vx)|by apply (L2 k v)]. }
    destruct Hp as (vp & Hvp & Hps). exists vp. rewrite lookup_insert_ne; [done|]. intros <-. congruence.
  - intros k v [[<- <-]|[_ Hk]]%lookup_insert_Some; [exact (L3 x vx Hx)|by apply (L3 k)].
  - intros k v [[<- <-]|[_ Hk]]%lookup_insert_Some; [done|by apply (L4 k)].
Qed.

Ltac decs := repeat ((rewrite decide_True by congruence) || (rewrite decide_False by congruence)).

(** A replica without a master becomes a replica of [m]. *)
Lemma links_attach H x vx m vm :
  links_ok H → H !! x = Some vx → v_slaveof vx = None → v_slave vx = true → H !! m = Some vm → m ≠ x →
  links_ok (<[m := set_vslaves (v_slaves vm ++ [x]) vm]> (<[x := set_vrole (Some m) false true vx]> H)).
Proof.
  intros [L1 L2 L3 L4] Hx Hs Hsl Hm Hne.
  assert (Hni : ∀ k v, H !! k = Some v → x ∉ v_slaves v).
  { intros k v Hk Hin. destruct (L2 k v x Hk Hin) as (v' & ? & ?). congruence. }
  assert (Hl : ∀ k v, <[m := set_vslaves (v_slaves vm ++ [x]) vm]> (<[x := set_vrole (Some m) false true vx]> H) !! k = Some v →
    ∃ v0, H !! k = Some v0 ∧ v_slaveof v = (if decide (k = x) then Some m else v_slaveof v0) ∧
      v_slaves v = (if decide (k = m) then v_slaves v0 ++ [x] else v_slaves v0) ∧
      (if decide (k = x) then v_master v = false ∧ v_slave v = true else v_master v = v_master v0 ∧ v_slave v = v_slave v0)).
  { intros k v [[<- <-]|[Hk [[<- <-]|[Hk' Hv]]%lookup_insert_Some]]%lookup_insert_Some.
    - exists vm. decs. by split_and!.
    - exists vx. decs. by split_and!.
    - exists v. decs. by split_and!. }
  assert (Hrev : ∀ k v0, H !! k = Some v0 → ∃ v, <[m := set_vslaves (v_slaves vm ++ [x]) vm]> (<[x := set_vrole (Some m) false true vx]> H) !! k = Some v ∧
    v_slaveof v = (if decide (k = x) then Some m else v_slaveof v0) ∧ v_slaves v = (if decide (k = m) then v_slaves v0 ++ [x] else v_slaves v0)).
  { intros k v0 Hk. destruct (decide (k = m)) as [->|Hkm]; [rewrite lookup_insert_eq; eexists; split; [done|]; rewrite decide_False by done; by simplify_eq|].
    rewrite lookup_insert_ne by done. destruct (decide (k = x)) as [->|]; [rewrite lookup_insert_eq; eexists; split; [done|]; by simplify_eq|].
    rewrite lookup_insert_ne by done. by exists v0. }
  split.
  - intros k v p Hk Hp. destruct (Hl k v Hk) as (v0 & Hv0 & E1 & _ & E3). rewrite E1 in Hp. destruct (decide (k = x)) as [->|Hkx].
    + injection Hp as <-. split_and!; [done|apply E3|]. eexists. rewrite lookup_insert_eq. split; [done|]. cbn. set_solver.
    + destruct (L1 k v0 p Hv0 Hp) as (? & ? & vp & Hvp & Hin). destruct E3 as [_ ->]. split_and!; [done|done|].
      destruct (Hrev p vp Hvp) as (v' & ? & _ & E). exists v'. split; [done|]. rewrite E. case_decide; set_solver.
  - intros k v p Hk Hin. destruct (Hl k v Hk) as (v0 & Hv0 & _ & E2 & _).
    assert (Hcase : p ∈ v_slaves v0 ∨ k = m ∧ p = x) by (rewrite E2 in Hin; case_decide; set_solver).
    destruct Hcase as [Hp|[-> ->]].
    + destruct (L2 k v0 p Hv0 Hp) as (vp & Hvp & Hps). destruct (Hrev p vp Hvp) as (v' & ? & E & _). exists v'. split; [done|]. rewrite E, decide_False; [done|].
      intros ->. congruence.
    + destruct (Hrev x vx Hx) as (v' & ? & E & _). exists v'. split; [done|]. by rewrite E, decide_True.
  - intros k v Hk. destruct (Hl k v Hk) as (v0 & Hv0 & _ & E2 & _). rewrite E2. case_decide; [|by apply (L3 k)].
    apply NoDup_app. split_and!; [by apply (L3 k)| |apply NoDup_singleton]. intros y Hy Hyx%list_elem_of_singleton. subst y. by apply (Hni k v0).
  - intros k v Hk. destruct (Hl k v Hk) as (v0 & Hv0 & _ & _ & E3). destruct (decide (k = x)); [destruct E3; congruence|]. destruct E3 as [-> ->]. by apply (L4 k).
Qed.

(** ** Changes that the invariant does not see *)

(** The same views and the same core: the rest may differ. *)
Definition alike (w w' : world) : Prop := vheap w' = vheap w ∧ core (w_c w') = core (w_c w).
Lemma alike_refl w : alike w w.
Proof. done. Qed.
Lemma alike_trans w1 w2 w3 : alike w1 w2 → alike w2 w3 → alike w1 w3.
Proof. intros [A1 A2] [B1 B2]. split; congruence. Qed.
Lemma alike_ok w w' : alike w w' → cluster_ok w → cluster_ok w'.
Proof. intros [E1 E2] Hok. unfold cluster_ok. rewrite E1. by eapply inv_core. Qed.
Lemma alike_state w c : core c = core (w_c w) → alike w (with_state w c).
Proof. by split. Qed.
Lemma alike_node w n nd nd' : w_heap w !! n = Some nd → view nd' = view nd → alike w (with_heap w (<[n := nd']> (w_heap w))).
Proof. intros Hn E. split; [by eapply vheap_same|done]. Qed.
Lemma alike_lookup w w' n nd : alike w w' → w_heap w !! n = Some nd → ∃ nd', w_heap w' !! n = Some nd' ∧ view nd' = view nd.
Proof.
  intros [E _] Hn. apply vheap_lookup in Hn. rewrite <- E in Hn. destruct (vheap_lookup_inv w' n _ Hn) as (nd' & ? & ?). by exists nd'.
Qed.

Lemma wp_todo flags w : wp (clusterDoBeforeSleep flags) w (λ _ w', alike w w').
Proof. unfold clusterDoBeforeSleep. apply wp_modify. apply alike_state. by destruct (w_c w). Qed.

(** ** Replicas *)

Lemma filter_absent (x : Z) (l : list Z) : x ∉ l → filter (.≠ x) l = l.
Proof.
  induction l as [|y l IH]; [done|]. intros Hx. rewrite filter_cons, decide_True by set_solver. f_equal. apply IH. set_solver.
Qed.
Lemma list_find_filter (x : Z) (l : list Z) : NoDup l →
  match list_find (x =.) l with Some (j, _) => delete j l | None => l end = filter (.≠ x) l.
Proof.
  intros Hnd. destruct (list_find (x =.) l) as [[j y]|] eqn:E.
  - apply list_find_Some in E as (Hj & <- & _). rewrite <- (take_drop_middle l j x Hj) in Hnd |- *.
    pose proof (lookup_lt_Some _ _ _ Hj) as Hlt. apply NoDup_app in Hnd as (_ & Hd1 & Hnd2). apply NoDup_cons in Hnd2 as [Hd2 _].
    rewrite filter_app, filter_cons, decide_False by (intros ?; done).
    rewrite !filter_absent; [|done|intros Hin; apply (Hd1 x Hin); by left].
    assert (Hlen : length (take j l) = j) by (rewrite length_take_le by lia; done). rewrite <- Hlen at 1. apply delete_middle.
  - apply list_find_None in E. symmetry. apply filter_absent. intros Hin. rewrite Forall_forall in E. by apply (E x).
Qed.

Lemma with_heap_id w n nd : w_heap w !! n = Some nd → with_heap w (<[n := nd]> (w_heap w)) = w.
Proof. intros Hn. unfold with_heap. rewrite insert_id by done. by destruct w. Qed.

Lemma removeSlave_spec w m md x :
  w_heap w !! m = Some md → NoDup (n_slaves md) →
  wp (clusterNodeRemoveSlave m x) w (λ _ w',
    vheap w' = <[m := set_vslaves (filter (.≠ x) (n_slaves md)) (view md)]> (vheap w) ∧ w_c w' = w_c w).
Proof.
  intros Hm Hnd. unfold clusterNodeRemoveSlave. apply wp_bind, (wp_get_node _ _ _ _ Hm). pose proof (list_find_filter x (n_slaves md) Hnd) as Hf.
  destruct (list_find (x =.) (n_slaves md)) as [[j y]|].
  - rewrite Hf. apply wp_bind, (wp_mod_node _ _ _ _ _ Hm). apply wp_bind. set (w1 := with_heap _ _).
    set (md1 := set_slaves (filter (.≠ x) (n_slaves md)) md) in *. assert (Hm1 : w_heap w1 !! m = Some md1) by apply lookup_insert_eq.
    assert (Hw1 : vheap w1 = <[m := set_vslaves (filter (.≠ x) (n_slaves md)) (view md)]> (vheap w)) by (unfold w1; by rewrite vheap_insert).
    destruct (length _ =? 0)%nat; [|apply wp_ret, wp_ret; by split].
    apply (wp_mod_node _ _ _ _ _ Hm1), wp_ret. split; [|done]. by rewrite (vheap_same _ _ md1) by (done || by apply view_del_flags).
  - apply wp_ret. split; [|done]. rewrite <- Hf. symmetry. apply insert_id. by rewrite lookup_fmap, Hm.
Qed.

Lemma addSlave_spec w m md x :
  w_heap w !! m = Some md → x ∉ n_slaves md →
  wp (clusterNodeAddSlave m x) w (λ _ w', vheap w' = <[m := set_vslaves (n_slaves md ++ [x]) (view md)]> (vheap w) ∧ w_c w' = w_c w).
Proof.
  intros Hm Hx. unfold clusterNodeAddSlave. apply wp_bind, (wp_get_node _ _ _ _ Hm). rewrite bool_decide_eq_false_2 by done.
  apply wp_bind, (wp_mod_node _ _ _ _ _ Hm). set (w1 := with_heap _ _). set (md1 := set_slaves _ md) in *.
  assert (Hm1 : w_heap w1 !! m = Some md1) by apply lookup_insert_eq. apply wp_bind, (wp_mod_node _ _ _ _ _ Hm1), wp_ret. split; [|done].
  rewrite (vheap_same _ _ md1) by (done || by apply view_add_flags). unfold w1. by rewrite vheap_insert.
Qed.

(** ** Roles *)

Lemma view_make_master nd : view (set_slaveof None (add_flags CLUSTER_NODE_MASTER (del_flags CLUSTER_NODE_SLAVE nd))) = set_vrole None true false (view nd).
Proof.
  unfold view, set_vrole. cbn [v_slots v_numslots v_slaves v_reports]. rewrite is_master_bit, is_slave_bit.
  change (n_flags (set_slaveof None (add_flags CLUSTER_NODE_MASTER (del_flags CLUSTER_NODE_SLAVE nd))))
    with (Z.lor (Z.land (n_flags nd) (Z.lnot CLUSTER_NODE_SLAVE)) CLUSTER_NODE_MASTER).
  rewrite !flags_set, !flags_clear by lia. cbn. by rewrite orb_true_r, andb_false_r.
Qed.
Lemma view_make_slave nd :
  view (add_flags CLUSTER_NODE_SLAVE (del_flags (Z.lor CLUSTER_NODE_MASTER CLUSTER_NODE_MIGRATE_TO) nd)) = set_vrole (n_slaveof nd) false true (view nd).
Proof.
  unfold view, set_vrole. cbn [v_slots v_numslots v_slaves v_reports]. rewrite is_master_bit, is_slave_bit.
  change (n_flags (add_flags CLUSTER_NODE_SLAVE (del_flags (Z.lor CLUSTER_NODE_MASTER CLUSTER_NODE_MIGRATE_TO) nd)))
    with (Z.lor (Z.land (n_flags nd) (Z.lnot 257)) CLUSTER_NODE_SLAVE).
  rewrite !flags_set, !flags_clear by lia. cbn. by rewrite orb_true_r, andb_false_r.
Qed.

(** Relinking keeps the slots. *)
Definition relinked (w w' : world) : Prop := cluster_ok w' ∧ slots_sim (vheap w) (vheap w') ∧ core (w_c w') = core (w_c w).
Lemma relinked_intro w w' v :
  cluster_ok w → slots_sim (vheap w) (vheap w') → links_ok (vheap w') → vheap w' !! c_myself (w_c w) = Some v → my_role v →
  core (w_c w') = core (w_c w) → relinked w w'.
Proof. intros Hok Hs Hl Hme Hro Hc. split_and!; [|done|done]. eapply inv_core; [by eapply inv_relink|done]. Qed.
Lemma relinked_refl w : cluster_ok w → relinked w w.
Proof. intros. split_and!; [done|apply slots_sim_refl|done]. Qed.
Lemma relinked_trans w1 w2 w3 : relinked w1 w2 → relinked w2 w3 → relinked w1 w3.
Proof. intros (A1 & A2 & A3) (B1 & B2 & B3). split_and!; [done|by eapply slots_sim_trans|congruence]. Qed.
Lemma alike_relinked w w' : cluster_ok w → alike w w' → relinked w w'.
Proof. intros Hok Ha. split_and!; [by eapply alike_ok|destruct Ha as [-> _]; apply slots_sim_refl|apply Ha]. Qed.

Lemma ok_links w : cluster_ok w → links_ok (vheap w).
Proof. apply inv_links. Qed.

Lemma my_role_slaves (H : gmap Z nview) k m l vm :
  (∃ me, H !! k = Some me ∧ my_role me) → H !! m = Some vm → ∃ me, <[m := set_vslaves l vm]> H !! k = Some me ∧ my_role me.
Proof.
  intros (me & Hk & Hr) Hm. destruct (decide (m = k)) as [->|]; [|exists me; by rewrite lookup_insert_ne].
  rewrite lookup_insert_eq. eexists. split; [done|]. by simplify_eq.
Qed.

Lemma setNodeAsMaster_spec w n nd :
  cluster_ok w → w_heap w !! n = Some nd →
  wp (clusterSetNodeAsMaster n) w (λ _ w', relinked w w' ∧
    ∃ v', vheap w' !! n = Some v' ∧ v_master v' = true ∧ v_slave v' = false ∧ v_slaveof v' = None).
Proof.
  intros Hok Hn. pose proof (ok_links w Hok) as Hl. pose proof (vheap_lookup w n nd Hn) as Hv.
  unfold clusterSetNodeAsMaster. apply wp_bind, (wp_get_node _ _ _ _ Hn). destruct (nodeIsMaster nd) eqn:Hma.
  { apply wp_ret. split; [by apply relinked_refl|]. exists (view nd). pose proof (lk_role _ Hl n (view nd) Hv Hma) as Hsl. split_and!; [done|done|done|].
    destruct (v_slaveof (view nd)) as [m|] eqn:Hm; [|done]. destruct (lk_up _ Hl n _ m Hv Hm) as (_ & ? & _). cbn in *. congruence. }
  apply wp_bind. eapply (wp_mono _ _ (λ _ w1, w_c w1 = w_c w ∧ ∃ nd1, w_heap w1 !! n = Some nd1 ∧ view nd1 = view nd ∧
    links_ok (<[n := set_vrole None true false (view nd)]> (vheap w1)) ∧ slots_sim (vheap w) (vheap w1) ∧
    ∃ me, vheap w1 !! c_myself (w_c w) = Some me ∧ my_role me)).
  { destruct (n_slaveof nd) as [m|] eqn:Hs.
    - destruct (lk_up _ Hl n (view nd) m Hv Hs) as (Hne & _ & vm & Hvm & _). destruct (vheap_lookup_inv w m vm Hvm) as (md & Hm & ->).
      apply wp_bind. eapply wp_mono; [apply (removeSlave_spec w m md n Hm); apply (lk_nodup _ Hl m _ Hvm)|]. intros _ w1 (Hh1 & Hc1).
      assert (Hn1 : vheap w1 !! n = Some (view nd)) by (rewrite Hh1, lookup_insert_ne; done).
      destruct (vheap_lookup_inv w1 n _ Hn1) as (nd1 & Hn1' & E1).
      assert (Hsim : slots_sim (vheap w) (vheap w1)) by (rewrite Hh1; eapply slots_sim_insert; [exact Hvm|split_and!; auto]).
      assert (Hlk : links_ok (<[n := set_vrole None true false (view nd)]> (vheap w1))) by (rewrite Hh1; by eapply links_detach).
      assert (Hme : ∃ me, vheap w1 !! c_myself (w_c w) = Some me ∧ my_role me) by (rewrite Hh1; apply my_role_slaves; [exact (inv_myself _ _ Hok)|done]).
      apply wp_bind, wp_gets. rewrite Hc1. destruct (negb _); [|apply wp_ret; split; [done|]; by exists nd1].
      apply (wp_mod_node _ _ _ _ _ Hn1'). split; [done|]. exists (add_flags CLUSTER_NODE_MIGRATE_TO nd1).
      rewrite (vheap_same _ _ nd1) by (done || by apply view_add_flags). split_and!; [apply lookup_insert_eq| |done..].
      rewrite E1. by apply view_add_flags.
    - apply wp_ret. split; [done|]. exists nd. split_and!; [done|done| |apply slots_sim_refl|apply (inv_myself _ _ Hok)]. by apply links_role. }
  intros _ w1 (Hc1 & nd1 & Hn1 & Hv1 & Hlk & Hsim & me & Hme & Hro).
  apply wp_bind, (wp_mod_node _ _ _ _ _ Hn1). apply wp_bind, (wp_mod_node _ (del_flags CLUSTER_NODE_SLAVE nd1)); [apply lookup_insert_eq|].
  apply wp_bind, (wp_mod_node _ (add_flags CLUSTER_NODE_MASTER (del_flags CLUSTER_NODE_SLAVE nd1))); [apply lookup_insert_eq|].
  cbn [with_heap w_heap w_c]. rewrite !insert_insert_eq. set (w2 := with_heap _ _). eapply wp_mono; [apply wp_todo|]. intros _ w3 [Hh3 Hc3].
  assert (Hh2 : vheap w3 = <[n := set_vrole None true false (view nd)]> (vheap w1)).
  { rewrite Hh3. unfold w2. cbn [with_heap w_heap]. by rewrite fmap_insert, view_make_master, Hv1. }
  split.
  - apply (relinked_intro _ _ (if decide (n = c_myself (w_c w)) then set_vrole None true false (view nd) else me)); [done| |by rewrite Hh2| | |by rewrite Hc3, <- Hc1].
    2:{ rewrite Hh2. case_decide as E; [by rewrite E, lookup_insert_eq|by rewrite lookup_insert_ne]. }
    2:{ case_decide; [by left|done]. }
    rewrite Hh2. eapply slots_sim_trans; [exact Hsim|].
    eapply (slots_sim_insert _ n (view nd)); [by rewrite <- Hv1; apply vheap_lookup|]. split_and!; done.
  - rewrite Hh2, lookup_insert_eq. eexists. split; [done|]. by split_and!.
Qed.

Lemma removeFromShard_spec w n nd : w_heap w !! n = Some nd → wp (clusterRemoveNodeFromShard n) w (λ _ w', w_heap w' = w_heap w ∧ alike w w').
Proof.
  intros Hn. unfold clusterRemoveNodeFromShard. apply wp_bind, (wp_get_node _ _ _ _ Hn), wp_bind, wp_gets. destruct (c_shards (w_c w) !! n_shard_id nd); [|by apply wp_ret].
  apply wp_modify. split; [done|]. apply alike_state. by destruct (w_c w).
Qed.
Lemma addToShard_spec w id n : wp (clusterAddNodeToShard id n) w (λ _ w', alike w w').
Proof.
  unfold clusterAddNodeToShard. apply wp_bind, wp_gets. destruct (c_shards (w_c w) !! id); [case_bool_decide; [by apply wp_ret|]|].
  all: apply wp_modify, alike_state; by destruct (w_c w).
Qed.
Lemma updateShardId_spec w n id : is_Some (w_heap w !! c_myself (w_c w)) → is_Some (w_heap w !! n) → wp (updateShardId n id) w (λ _ w', alike w w').
Proof.
  intros [md Hm] [nd Hn]. unfold updateShardId.
  assert (Hmove : ∀ w k kd flags, w_heap w !! k = Some kd → wp (_ ← clusterRemoveNodeFromShard k; _ ← mod_node k (set_shard_id id);
    _ ← clusterAddNodeToShard id k; clusterDoBeforeSleep flags) w (λ _ w', alike w w')).
  { clear. intros w k kd flags Hk. apply wp_bind. eapply wp_mono; [by apply (removeFromShard_spec w k kd)|]. intros _ w1 [Hh1 Ha1].
    apply wp_bind, (wp_mod_node _ kd); [by rewrite Hh1|]. set (w2 := with_heap _ _).
    assert (Ha2 : alike w w2) by (eapply alike_trans; [exact Ha1|]; eapply alike_node; [by rewrite Hh1|done]).
    apply wp_bind. call addToShard_spec. intros _ w3 Ha3. call wp_todo. intros _ w4 Ha4. eapply alike_trans; [exact Ha2|]. by eapply alike_trans. }
  apply wp_bind, (wp_get_node _ _ _ _ Hn), wp_bind. eapply (wp_mono _ _ (λ _ w1, alike w w1)).
  { destruct (negb _); [by eapply Hmove|by apply wp_ret]. }
  intros _ w1 Ha1. apply wp_bind, wp_gets. destruct (alike_lookup w w1 _ _ Ha1 Hm) as (md1 & Hm1 & _).
  assert (E : c_myself (w_c w1) = c_myself (w_c w)) by (destruct Ha1 as [_ E]; by injection E). rewrite E.
  apply wp_bind, (wp_get_node _ _ _ _ Hm1). destruct (_ && _); [|by apply wp_ret]. destruct (negb _); [|by apply wp_ret].
  call Hmove. intros _ w2 Ha2. by eapply alike_trans.
Qed.

Lemma resetManualFailover_spec w : wp resetManualFailover w (λ _ w', alike w w').
Proof.
  unfold resetManualFailover. apply wp_bind, wp_gets, wp_bind. eapply (wp_mono _ _ (λ _ w1, alike w w1)).
  { destruct (c_mf_slave _); [by apply wp_emit|by apply wp_ret]. }
  intros _ w1 Ha. apply wp_modify. eapply alike_trans; [exact Ha|]. apply alike_state. by destruct (w_c w1).
Qed.

(** Links and the migration tables may change, the slots stay. *)
Definition kept (w w' : world) : Prop :=
  cluster_ok w' ∧ slots_sim (vheap w) (vheap w') ∧ c_slots (w_c w') = c_slots (w_c w) ∧ c_myself (w_c w') = c_myself (w_c w) ∧
  c_nodes (w_c w') = c_nodes (w_c w) ∧ c_owner_not_claiming_slot (w_c w') = c_owner_not_claiming_slot (w_c w).
Lemma kept_trans w1 w2 w3 : kept w1 w2 → kept w2 w3 → kept w1 w3.
Proof. intros (A1 & A2 & A3 & A4 & A5 & A6) (B1 & B2 & B3 & B4 & B5 & B6). split_and!; [done|by eapply slots_sim_trans|congruence..]. Qed.
Lemma relinked_kept w w' : relinked w w' → kept w w'.
Proof. intros (A & B & E). unfold core in E. injection E as E1 E2 E3 E4 E5 E6. by split_and!. Qed.
Lemma alike_kept w w' : cluster_ok w → alike w w' → kept w w'.
Proof. intros. by apply relinked_kept, alike_relinked. Qed.

(** The migration tables are reset. *)
Definition closed (c c' : clusterState) : Prop :=
  (∀ H, inv H c → inv H c') ∧ c_slots c' = c_slots c ∧ c_myself c' = c_myself c ∧ c_nodes c' = c_nodes c ∧
  c_owner_not_claiming_slot c' = c_owner_not_claiming_slot c.
Lemma closeAllSlots_spec w : wp clusterCloseAllSlots w (λ _ w', w_heap w' = w_heap w ∧ closed (w_c w) (w_c w')).
Proof.
  unfold clusterCloseAllSlots. apply wp_bind, wp_modify, wp_modify. split; [done|].
  assert (Hp : ∀ H, ptrs_ok H (replicate (Z.to_nat CLUSTER_SLOTS) None)).
  { split; [by rewrite length_replicate|]. intros j n Hj. apply lookup_replicate in Hj as [? _]. done. }
  cbn [with_state w_c]. destruct (w_c w). split_and!; try done. intros H [I1 I2 I3 I4 I5 I6 I7 I8 I9]. by split.
Qed.

(** This node becomes a replica of [n]. *)
Lemma view_set_slaveof o nd : nodeIsMaster nd = false → nodeIsSlave nd = true → view (set_slaveof o nd) = set_vrole o false true (view nd).
Proof. intros Hm Hs. unfold view, set_vrole. cbn. f_equal; [exact Hm|exact Hs]. Qed.

Lemma setMaster_spec w n nd md :
  let myself := c_myself (w_c w) in
  cluster_ok w → n ≠ myself → w_heap w !! n = Some nd → w_heap w !! myself = Some md → n_numslots md = 0 →
  wp (clusterSetMaster n) w (λ _ w', kept w w' ∧ ∃ v, vheap w' !! myself = Some v ∧ v_slaveof v = Some n).
Proof.
  intros myself Hok Hne Hn Hm Hz. pose proof (ok_links w Hok) as Hl. pose proof (vheap_lookup w n nd Hn) as Hvn. pose proof (vheap_lookup w myself md Hm) as Hvm.
  unfold clusterSetMaster. apply wp_bind, wp_gets, wp_bind, wp_assert; [apply negb_true_iff, Z.eqb_neq; done|]. fold myself.
  apply wp_bind, (wp_get_node _ _ _ _ Hm), wp_bind, wp_assert; [by apply Z.eqb_eq|]. apply wp_bind.
  (* a replica without master *)
  eapply (wp_mono _ _ (λ _ w1, closed (w_c w) (w_c w1) ∧
    ∃ md1 Hd vd, w_heap w1 !! myself = Some md1 ∧ nodeIsMaster md1 = false ∧ nodeIsSlave md1 = true ∧ links_ok Hd ∧ slots_sim (vheap w) Hd ∧
      Hd !! myself = Some vd ∧ v_slaveof vd = None ∧ v_slave vd = true ∧
      <[myself := set_vrole (Some n) false true (view md1)]> (vheap w1) = <[myself := set_vrole (Some n) false true vd]> Hd)).
  { destruct (nodeIsMaster md) eqn:Hma.
    - assert (Hso : n_slaveof md = None).
      { destruct (n_slaveof md) as [m|] eqn:E; [|done]. destruct (lk_up _ Hl myself _ m Hvm E) as (_ & Hs & _).
        pose proof (lk_role _ Hl myself _ Hvm Hma). cbn in *. congruence. }
      apply wp_bind, (wp_mod_node _ _ _ _ _ Hm), wp_bind, (wp_mod_node _ (del_flags (Z.lor CLUSTER_NODE_MASTER CLUSTER_NODE_MIGRATE_TO) md)); [apply lookup_insert_eq|].
      cbn [with_heap w_heap w_c]. rewrite insert_insert_eq. set (md1 := add_flags CLUSTER_NODE_SLAVE _). call closeAllSlots_spec. intros _ w1 [Hh1 Hc1].
      split; [exact Hc1|]. assert (Hv1 : view md1 = set_vrole None false true (view md)) by (unfold md1; by rewrite view_make_slave, Hso).
      exists md1, (<[myself := view md1]> (vheap w)), (view md1). rewrite Hh1. cbn [with_heap w_heap]. rewrite fmap_insert, Hv1.
      split_and!; [by rewrite lookup_insert_eq|by apply (f_equal v_master) in Hv1|by apply (f_equal v_slave) in Hv1|by apply links_role| |by rewrite lookup_insert_eq|done..].
      eapply slots_sim_insert; [done|]. split_and!; auto.
    - destruct (inv_myself _ _ Hok) as (v & Hv & [Hr|[m Hso]]); fold myself in Hv; simplify_eq; [cbn in Hr; congruence|]. cbn in Hso.
      destruct (lk_up _ Hl myself (view md) m Hvm Hso) as (Hmne & Hsl & vm & Hvmm & _). cbn in Hsl.
      assert (Hcl : closed (w_c w) (w_c w)) by (by split_and!). rewrite Hso. destruct (vheap_lookup_inv w m vm Hvmm) as (mmd & Hmm & ->).
        apply wp_bind. call (removeSlave_spec w m mmd myself Hmm); [apply (lk_nodup _ Hl m _ Hvmm)|]. intros _ w1 (Hh1 & Hc1). apply wp_ret. rewrite Hc1. split; [done|].
        assert (Hm1 : vheap w1 !! myself = Some (view md)) by (by rewrite Hh1, lookup_insert_ne).
        destruct (vheap_lookup_inv w1 myself _ Hm1) as (md1 & Hm1' & Hv1).
        exists md1, (<[myself := set_vrole None false true (view md)]> (vheap w1)), (set_vrole None false true (view md)). rewrite Hh1.
        apply (f_equal v_master) in Hv1 as Hv2. apply (f_equal v_slave) in Hv1 as Hv3. cbn in Hv2, Hv3.
        split_and!; [done|congruence|congruence|by apply links_detach| |by rewrite lookup_insert_eq|done|done|].
        * eapply slots_sim_trans; [eapply (slots_sim_insert _ m); [done|]|eapply (slots_sim_insert _ myself (view md)); [by rewrite lookup_insert_ne|]]; split_and!; auto.
        * by rewrite insert_insert_eq, <- Hv1. }
  intros _ w1 ((Hinv & Hc1 & Hc2 & Hc3 & Hc4) & md1 & Hd & vd & Hm1 & Hma1 & Hsl1 & Hlk & Hsim & Hvd & Hsd & Hsld & Heq).
  apply wp_bind, (wp_mod_node _ _ _ _ _ Hm1). set (w2 := with_heap _ _).
  assert (Hh2 : vheap w2 = <[myself := set_vrole (Some n) false true vd]> Hd) by (unfold w2; rewrite vheap_insert, view_set_slaveof by done; exact Heq).
  destruct (proj1 Hsim n _ Hvn) as (vn & Hvn' & _).
  assert (Hn2 : vheap w2 !! n = Some vn) by (by rewrite Hh2, lookup_insert_ne by done).
  destruct (vheap_lookup_inv w2 n vn Hn2) as (nd2 & Hn2' & ->). apply wp_bind, (wp_get_node _ _ _ _ Hn2'), wp_bind.
  eapply wp_mono; [apply updateShardId_spec|cbv beta].
  { change (w_c w2) with (w_c w1). rewrite Hc2. eexists. apply lookup_insert_eq. }
  { eexists. apply lookup_insert_eq. }
  intros _ w3 Ha3. destruct (alike_lookup w2 w3 n nd2 Ha3 Hn2') as (nd3 & Hn3 & Hv3). apply wp_bind.
  assert (Hni : myself ∉ n_slaves nd3).
  { assert (E : n_slaves nd3 = v_slaves (view nd2)) by (by rewrite <- Hv3). rewrite E. intros Hin.
    destruct (lk_down _ Hlk n _ myself Hvn' Hin) as (v & Hv & ?). congruence. }
  eapply wp_mono; [by apply (addSlave_spec w3 n nd3)|]. intros _ w4 [Hh4 Hc4']. apply wp_bind, wp_emit.
  call resetManualFailover_spec. intros _ w5 [Hh5 Hc5]. destruct Ha3 as [Hh3 Hc3'].
  assert (Hend : vheap w5 = <[n := set_vslaves (v_slaves (view nd2) ++ [myself]) (view nd2)]> (<[myself := set_vrole (Some n) false true vd]> Hd)).
  { rewrite Hh5. cbn [w_heap]. rewrite Hh4, Hh3, Hh2, Hv3. do 2 f_equal. by rewrite <- Hv3. }
  assert (Hcore : core (w_c w5) = core (w_c w1)) by (rewrite Hc5; cbn [w_c]; by rewrite Hc4', Hc3').
  assert (Hsim5 : slots_sim (vheap w) (vheap w5)).
  { rewrite Hend. eapply slots_sim_trans; [exact Hsim|]. eapply (slots_sim_trans _ (<[myself := set_vrole (Some n) false true vd]> Hd)).
    - eapply (slots_sim_insert _ myself vd); [done|]. split_and!; auto.
    - eapply (slots_sim_insert _ n (view nd2)); [by rewrite lookup_insert_ne|]. split_and!; auto. }
  pose proof Hcore as Hcore'. unfold core in Hcore'. injection Hcore' as E1 E2 E3 E4 E5 E6.
  assert (Hme : vheap w5 !! myself = Some (set_vrole (Some n) false true vd)) by (by rewrite Hend, lookup_insert_ne, lookup_insert_eq).
  split; [|by eexists]. split_and!; [|done|congruence..]. eapply inv_core; [|by symmetry]. apply Hinv.
  apply (inv_relink (vheap w) _ _ (set_vrole (Some n) false true vd)); [exact Hok|done| |done|by right]. rewrite Hend. by apply links_attach.
Qed.
End ClusterOps.
