(* ===== verification/ClusterUpdate.v ===== *)
(** * cluster.c: slots claimed by another node

    What [clusterUpdateSlotsConfigWith] does with the table of slots, as a
    function of the state before: the greater configuration epoch wins. *)

From S2P Require Import Prelude Zskiplist Cluster ClusterInv ClusterOps.
Import Zskiplist Cluster ClusterInv ClusterOps.

Module ClusterUpdate.

#[local] Abbreviation N := (Z.to_nat 16384) (only parsing).

(** ** Reading the state *)

Definition own (w : world) (j : nat) : option Z := mjoin (c_slots (w_c w) !! j).
Definition importing (w : world) (j : nat) : option Z := mjoin (c_importing_slots_from (w_c w) !! j).
Definition not_claimed (w : world) (j : nat) : bool := bit (c_owner_not_claiming_slot (w_c w)) j.
Definition epoch_of (w : world) (n : Z) : Z := from_option n_configEpoch 0 (w_heap w !! n).

Lemma own_lookup w (j : nat) : cluster_ok w → (j < N)%nat → c_slots (w_c w) !! j = Some (own w j).
Proof. intros Hok Hj. destruct (ok_slot w j Hok Hj) as [o Ho]. unfold own. by rewrite Ho. Qed.
Lemma importing_lookup w (j : nat) : cluster_ok w → (j < N)%nat → c_importing_slots_from (w_c w) !! j = Some (importing w j).
Proof.
  intros Hok Hj. destruct (lookup_lt_is_Some_2 (c_importing_slots_from (w_c w)) j) as [o Ho]; [by rewrite (proj1 (inv_importing _ _ Hok))|].
  unfold importing. by rewrite Ho.
Qed.

Definition unclaimed (w : world) (j : nat) : bool := match own w j with None => true | Some _ => not_claimed w j end.
Lemma isSlotUnclaimed_spec w (j : nat) : cluster_ok w → (j < N)%nat → wp (isSlotUnclaimed (Z.of_nat j)) w (λ b w', w' = w ∧ b = unclaimed w j).
Proof.
  intros Hok Hj. unfold isSlotUnclaimed. apply wp_bind, (slot_owner_spec j (own w j)); [by apply own_lookup|]. unfold unclaimed.
  destruct (own w j) as [o|]; [|by apply wp_ret]. apply wp_bind, wp_gets. eapply wp_lift; [|done]. apply testBit_spec; [apply (inv_claims _ _ Hok)|done].
Qed.

Lemma claim_bit_spec w b (j : nat) : cluster_ok w → (j < N)%nat →
  wp (claim_bit b (Z.of_nat j)) w (λ _ w', cluster_ok w' ∧ frame w w' ∧ c_slots (w_c w') = c_slots (w_c w) ∧
    ∀ i, (i < N)%nat → not_claimed w' i = if decide (i = j) then b else not_claimed w i).
Proof.
  intros Hok Hj. pose proof (inv_claims _ _ Hok) as Hbm. unfold claim_bit. apply wp_bind, wp_gets.
  assert (∃ bm, (if b then bitmapSetBit (c_owner_not_claiming_slot (w_c w)) (Z.of_nat j) else bitmapClearBit (c_owner_not_claiming_slot (w_c w)) (Z.of_nat j)) = Some bm ∧
    bitmap_ok bm ∧ ∀ i, (i < N)%nat → bit bm i = if decide (i = j) then b else not_claimed w i) as (bm & Hset & Hbm' & Hbits).
  { destruct b; [by apply setBit_spec|by apply clearBit_spec]. }
  apply wp_bind, (wp_lift _ bm); [done|]. apply wp_modify. split_and!.
  - destruct Hok as [I1 I2 I3 I4 I5 I6 I7 I8 I9]. unfold cluster_ok. cbn [with_state w_heap w_c]. destruct (w_c w). by split.
  - apply frame_put. symmetry. apply put_claims_rest.
  - cbn. by destruct (w_c w).
  - intros i Hi. rewrite <- Hbits by done. unfold not_claimed. cbn. by destruct (w_c w).
Qed.

Lemma frame_role w w' n nd : frame w w' → w_heap w !! n = Some nd → ∃ nd', w_heap w' !! n = Some nd' ∧
  nodeIsMaster nd' = nodeIsMaster nd ∧ nodeIsSlave nd' = nodeIsSlave nd ∧ n_slaveof nd' = n_slaveof nd ∧ n_configEpoch nd' = n_configEpoch nd.
Proof.
  intros Hf Hn. destruct (frame_node w w' n nd Hf Hn) as (nd' & Hn' & E). exists nd'. destruct (rest_fields _ _ E) as (? & ? & ? & _ & ? & _). by split_and!.
Qed.
Lemma frame_epoch w w' n : frame w w' → epoch_of w' n = epoch_of w n.
Proof.
  intros Hf. unfold epoch_of. pose proof (fr_heap _ _ Hf) as Hh. apply (f_equal (lookup n)) in Hh. rewrite !lookup_fmap in Hh.
  destruct (w_heap w !! n) as [nd|], (w_heap w' !! n) as [nd'|]; try done. apply (inj Some) in Hh as E. cbn. by destruct (rest_fields _ _ E) as (_ & _ & ? & _).
Qed.
Lemma frame_tables w w' : frame w w' → c_importing_slots_from (w_c w') = c_importing_slots_from (w_c w) ∧ c_myself (w_c w') = c_myself (w_c w).
Proof.
  intros [_ E]. split.
  - apply (f_equal c_importing_slots_from) in E. unfold state_rest in E. by destruct (w_c w), (w_c w').
  - apply (f_equal c_myself) in E. unfold state_rest in E. by destruct (w_c w), (w_c w').
Qed.

Lemma todo_frame flags w : cluster_ok w → wp (clusterDoBeforeSleep flags) w (λ _ w', cluster_ok w' ∧ frame w w' ∧
  c_slots (w_c w') = c_slots (w_c w) ∧ c_owner_not_claiming_slot (w_c w') = c_owner_not_claiming_slot (w_c w)).
Proof.
  intros Hok. unfold clusterDoBeforeSleep. apply wp_modify. split_and!; [| |by destruct (w_c w)..].
  - eapply alike_ok; [|exact Hok]. apply alike_state. by destruct (w_c w).
  - apply frame_put. symmetry. apply put_todo_rest.
Qed.

(** ** One slot *)

Section update.
Context (clock randoms : nat → Z) (server : server_t).
Context (w0 : world) (sender e : Z) (slots : list Z) (curmaster : option Z).

(** Slot [j] goes to the sender: it claims the slot and does not have it, the
    slot is not being imported, and nobody with a recent epoch claims it. *)
Definition rebinds (j : nat) : bool :=
  bit slots j && bool_decide (own w0 j ≠ Some sender) && bool_decide (importing w0 j = None) &&
  (unclaimed w0 j || (from_option (epoch_of w0) 0 (own w0 j) <? e)).
Definition new_owner (j : nat) : option Z := if rebinds j then Some sender else own w0 j.
Definition new_claim (j : nat) : bool :=
  if bool_decide (own w0 j = Some sender) then negb (bit slots j) else if rebinds j then false else not_claimed w0 j.

(** The slots of our master that are lost, and our slots with keys. *)
Definition lost (k : nat) : list nat := filter (λ j, rebinds j = true ∧ own w0 j = curmaster) (seq 0 k).
Definition dirty (k : nat) : list nat :=
  filter (λ j, rebinds j = true ∧ own w0 j = Some (c_myself (w_c w0)) ∧ countKeysInSlot server (Z.of_nat j) ≠ 0 ∧ sender ≠ c_myself (w_c w0)) (seq 0 k).
Definition claimed (k : nat) : list nat := filter (λ j, bit slots j = true) (seq 0 k).
Definition vars (k : nat) : update_vars :=
  UpdateVars (bool_decide (lost k ≠ [])) (Z.of_nat <$> dirty k) (zlen (claimed k)) (zlen (lost k)).

(** The state after the first [k] slots. *)
Record updated (k : nat) (v : update_vars) (w : world) : Prop := {
  up_ok : cluster_ok w;
  up_frame : frame w0 w;
  up_own : ∀ i, (i < N)%nat → own w i = if decide (i < k)%nat then new_owner i else own w0 i;
  up_claim : ∀ i, (i < N)%nat → not_claimed w i = if decide (i < k)%nat then new_claim i else not_claimed w0 i;
  up_vars : v = vars k;
}.

Lemma filter_seq_S (P : nat → Prop) `{∀ j, Decision (P j)} k :
  filter P (seq 0 (S k)) = filter P (seq 0 k) ++ (if decide (P k) then [k] else []).
Proof. by rewrite seq_S, filter_app, filter_cons, filter_nil. Qed.

Lemma vars_S k : vars (S k) =
  let v := vars k in let ours := rebinds k && bool_decide (own w0 k = curmaster) in
  UpdateVars (newmaster v || ours)
    (if decide (rebinds k = true ∧ own w0 k = Some (c_myself (w_c w0)) ∧ countKeysInSlot server (Z.of_nat k) ≠ 0 ∧ sender ≠ c_myself (w_c w0))
     then dirty_slots v ++ [Z.of_nat k] else dirty_slots v)
    (if bit slots k then sender_slots v + 1 else sender_slots v)
    (if ours then migrated_our_slots v + 1 else migrated_our_slots v).
Proof.
  unfold vars, lost, dirty, claimed. rewrite !filter_seq_S. cbn -[seq]. f_equal.
  - apply eq_true_iff_eq. rewrite orb_true_iff, andb_true_iff, !bool_decide_eq_true. case_decide; rewrite ?app_nil_r; [|naive_solver].
    split; [naive_solver|]. intros _ Hx%app_eq_nil. naive_solver.
  - case_decide; by rewrite ?app_nil_r, ?fmap_app.
  - destruct (bit slots k); cbn [decide decide_rel]; case_decide; try done; rewrite ?app_nil_r, ?length_app; cbn [length]; lia.
  - case_decide as E; [rewrite length_app; cbn [length]|rewrite app_nil_r].
    + rewrite (proj1 E), bool_decide_eq_true_2 by apply E. cbn. lia.
    + destruct (rebinds k); [|done]. rewrite bool_decide_eq_false_2 by naive_solver. done.
Qed.

Lemma updated_S j v w v' w' :
  updated j v w → cluster_ok w' → frame w w' → v' = vars (S j) →
  (∀ i, (i < N)%nat → own w' i = if decide (i = j) then new_owner j else own w i) →
  (∀ i, (i < N)%nat → not_claimed w' i = if decide (i = j) then new_claim j else not_claimed w i) → updated (S j) v' w'.
Proof.
  intros [U1 U2 U3 U4 U5] Hok Hf -> Ho Hc. split; [done|by eapply frame_trans| | |done].
  - intros i Hi. rewrite Ho, U3 by done. repeat case_decide; subst; done || lia.
  - intros i Hi. rewrite Hc, U4 by done. repeat case_decide; subst; done || lia.
Qed.

(** A slot that does not change hands. *)
Lemma updated_keep j v w v' w' :
  updated j v w → cluster_ok w' → frame w w' → c_slots (w_c w') = c_slots (w_c w) → v' = vars (S j) → (j < N)%nat → new_owner j = own w0 j →
  (∀ i, (i < N)%nat → not_claimed w' i = if decide (i = j) then new_claim j else not_claimed w i) → updated (S j) v' w'.
Proof.
  intros Hup Hok Hf Hs Hv Hj Hnew Hc. eapply updated_S; try done. intros i Hi. unfold own at 1. rewrite Hs. fold (own w i).
  case_decide as E; [subst|done]. rewrite Hnew, (up_own _ _ _ Hup) by done. rewrite decide_False by lia. done.
Qed.
Lemma updated_same j v w v' :
  updated j v w → v' = vars (S j) → (j < N)%nat → new_owner j = own w0 j → new_claim j = not_claimed w0 j → updated (S j) v' w.
Proof.
  intros Hup Hv Hj Ho Hc. eapply updated_keep; try done; [exact (up_ok _ _ _ Hup)|]. intros i Hi.
  case_decide as E; [subst|done]. rewrite Hc, (up_claim _ _ _ Hup) by done. rewrite decide_False by lia. done.
Qed.

(** The part of the loop that moves slot [j]. *)
Lemma move_slot_spec j v w sd :
  updated j v w → (j < N)%nat → w_heap w !! sender = Some sd → nodeIsSlave sd = false → rebinds j = true →
  wp (_ ← clusterDelSlot (Z.of_nat j); _ ← clusterAddSlot sender (Z.of_nat j); _ ← claim_bit false (Z.of_nat j);
      _ ← clusterDoBeforeSleep (Z.lor CLUSTER_TODO_SAVE_CONFIG (Z.lor CLUSTER_TODO_UPDATE_STATE CLUSTER_TODO_FSYNC_CONFIG));
      mret (vars (S j))) w (updated (S j)).
Proof.
  intros Hup Hj Hsd Hsl Hre. pose proof (up_ok _ _ _ Hup) as Hok. pose proof (own_lookup w j Hok Hj) as Ho.
  assert (Hns : own w0 j ≠ Some sender). { unfold rebinds in Hre. rewrite !andb_true_iff in Hre. destruct Hre as [[[_ Hre] _] _]. by apply bool_decide_eq_true in Hre. }
  apply wp_bind. call delSlot_spec. intros _ w1 (_ & Hok1 & Hf1 & Hc1). destruct (frame_role _ _ _ _ Hf1 Hsd) as (sd1 & Hsd1 & _ & Hsl1 & _).
  assert (Hlen : (j < length (c_slots (w_c w)))%nat) by (rewrite (so_len _ _ (inv_slots _ _ Hok)); done).
  assert (Hs1 : c_slots (w_c w1) = <[j := None]> (c_slots (w_c w))) by (rewrite Hc1; by destruct (w_c w)).
  apply wp_bind. call (addSlot_spec w1 sender sd1 None j).
  { rewrite Hs1. by apply list_lookup_insert_eq. }
  { by rewrite Hsl1. }
  intros _ w2 (_ & Hok2 & Hf2 & Hc2). apply wp_bind. call claim_bit_spec. intros _ w3 (Hok3 & Hf3 & Hs3 & Hb3).
  apply wp_bind. call todo_frame. intros _ w4 (Hok4 & Hf4 & Hs4 & Hb4). apply wp_ret.
  assert (Hs : c_slots (w_c w4) = <[j := Some sender]> (c_slots (w_c w))).
  { rewrite Hs4, Hs3, Hc2. transitivity (<[j := Some sender]> (c_slots (w_c w1))); [by destruct (w_c w1)|]. by rewrite Hs1, list_insert_insert_eq. }
  eapply updated_S; try done.
  - do 3 (eapply frame_trans; [done|]). done.
  - intros i Hi. unfold own at 1. rewrite Hs. case_decide as E; [subst; rewrite list_lookup_insert_eq by done; unfold new_owner; by rewrite Hre|].
    by rewrite list_lookup_insert_ne.
  - intros i Hi. unfold not_claimed at 1. rewrite Hb4. fold (not_claimed w3 i). rewrite Hb3 by done. case_decide.
    + unfold new_claim. by rewrite bool_decide_eq_false_2, Hre.
    + unfold not_claimed. rewrite Hc2. transitivity (bit (c_owner_not_claiming_slot (w_c w1)) i); [by destruct (w_c w1)|]. rewrite Hc1. by destruct (w_c w).
Qed.

Lemma vars_keep j : rebinds j = false → vars (S j) =
  UpdateVars (newmaster (vars j)) (dirty_slots (vars j)) (if bit slots j then sender_slots (vars j) + 1 else sender_slots (vars j)) (migrated_our_slots (vars j)).
Proof. intros Hre. rewrite vars_S, Hre. cbn. rewrite orb_false_r, decide_False by naive_solver. done. Qed.
Lemma vars_move j : rebinds j = true → vars (S j) =
  let me := c_myself (w_c w0) in let ours := bool_decide (own w0 j = curmaster) in
  UpdateVars (newmaster (vars j) || ours)
    (if bool_decide (own w0 j = Some me) && negb (countKeysInSlot server (Z.of_nat j) =? 0) && negb (sender =? me)
     then dirty_slots (vars j) ++ [Z.of_nat j] else dirty_slots (vars j))
    (sender_slots (vars j) + 1) (if ours then migrated_our_slots (vars j) + 1 else migrated_our_slots (vars j)).
Proof.
  intros Hre. rewrite vars_S, Hre. assert (Hb : bit slots j = true) by (unfold rebinds in Hre; by destruct (bit slots j)). rewrite Hb. cbv zeta. f_equal.
  destruct (Z.eqb_spec (countKeysInSlot server (Z.of_nat j)) 0), (Z.eqb_spec sender (c_myself (w_c w0))), (bool_decide_reflect (own w0 j = Some (c_myself (w_c w0))));
    case_decide; cbn; naive_solver.
Qed.

(** Nothing moves: the sender has the slot already, or may not have it. *)
Lemma update_mine_spec j w v : updated j (vars j) w → (j < N)%nat → own w0 j = Some sender → v = vars (S j) →
  wp (_ ← claim_bit (negb (bit slots j)) (Z.of_nat j); mret v) w (updated (S j)).
Proof.
  intros Hup Hj Ho ->. apply wp_bind. call claim_bit_spec; [exact (up_ok _ _ _ Hup)|]. intros _ w1 (Hok1 & Hf1 & Hs1 & Hb1). apply wp_ret. eapply updated_keep; try done.
  - unfold new_owner. destruct (rebinds j) eqn:Hre; [|done]. by symmetry.
  - intros i Hi. rewrite Hb1 by done. case_decide; [|done]. unfold new_claim. by rewrite bool_decide_eq_true_2.
Qed.
Lemma update_not_spec j w v : updated j (vars j) w → (j < N)%nat → own w0 j ≠ Some sender → rebinds j = false → v = vars (S j) → wp (mret v) w (updated (S j)).
Proof.
  intros Hup Hj Ho Hre ->. apply wp_ret. eapply updated_same; try done; [unfold new_owner; by rewrite Hre|]. unfold new_claim. by rewrite bool_decide_eq_false_2, Hre.
Qed.

Lemma update_slot_spec j v w sd :
  cluster_ok w0 → bitmap_ok slots → updated j v w → (j < N)%nat → w_heap w0 !! sender = Some sd → nodeIsSlave sd = false →
  wp (update_slot server sender e slots curmaster (Z.of_nat j) v) w (updated (S j)).
Proof.
  intros Hok0 Hbm Hup Hj Hsd0 Hsl0. pose proof (up_ok _ _ _ Hup) as Hok. pose proof (up_frame _ _ _ Hup) as Hf.
  destruct (frame_role _ _ _ _ Hf Hsd0) as (sd1 & Hsd & _ & Hsl & _). rewrite Hsl0 in Hsl. destruct (frame_tables _ _ Hf) as [Himp Hme].
  assert (Ho : own w j = own w0 j) by (rewrite (up_own _ _ _ Hup) by done; by rewrite decide_False by lia).
  assert (Hc : not_claimed w j = not_claimed w0 j) by (rewrite (up_claim _ _ _ Hup) by done; by rewrite decide_False by lia).
  assert (Hi : importing w j = importing w0 j) by (unfold importing; by rewrite Himp).
  assert (Hu : unclaimed w j = unclaimed w0 j) by (unfold unclaimed; by rewrite Ho, Hc).
  pose proof (up_vars _ _ _ Hup) as ->. unfold update_slot. apply wp_bind, (wp_lift _ (bit slots j)); [by apply testBit_spec|].
  pose proof (vars_keep j) as Hkeep. pose proof (update_mine_spec j w) as Hmine. pose proof (update_not_spec j w) as Hnot.
  apply wp_bind, (slot_owner_spec j (own w0 j)); [rewrite <- Ho; by apply own_lookup|]. destruct (bit slots j) eqn:Hb.
  2:{ assert (Hre : rebinds j = false) by (unfold rebinds; by rewrite Hb). case_bool_decide; [apply Hmine|apply Hnot]; try done; by rewrite Hkeep. }
  case_bool_decide as Hos.
  { apply Hmine; [done..|]. symmetry. apply Hkeep. unfold rebinds. by rewrite (bool_decide_eq_false_2 (_ ≠ _)), andb_false_r by auto. }
  apply wp_bind, wp_gets, wp_bind, (entry_of_spec _ j (importing w0 j)); [rewrite <- Hi; by apply importing_lookup|].
  destruct (importing w0 j) as [x|] eqn:Him.
  { assert (Hre : rebinds j = false) by (unfold rebinds; by rewrite Him, (bool_decide_eq_false_2 (Some x = None)), andb_false_r). apply Hnot; [done..|]. by rewrite Hkeep. }
  apply wp_bind. call isSlotUnclaimed_spec. intros b w1 [-> ->]. rewrite Hu. apply wp_bind. eapply (wp_mono _ _ (λ b w1, w1 = w ∧ b = rebinds j)).
  { assert (Hre : rebinds j = unclaimed w0 j || (from_option (epoch_of w0) 0 (own w0 j) <? e)) by (unfold rebinds; by rewrite Hb, Him, !bool_decide_eq_true_2).
    destruct (unclaimed w0 j) eqn:Hun; [apply wp_ret; by rewrite Hre|]. unfold unclaimed in Hun. destruct (own w0 j) as [o|] eqn:Hown; [|done].
    apply wp_bind, (wp_lift _ o); [done|]. destruct (ok_owner w j o Hok) as [nd Hnd]; [rewrite own_lookup, Ho by done; done|].
    apply wp_bind, (wp_get_node _ _ _ _ Hnd), wp_ret. split; [done|]. rewrite Hre. cbn. rewrite <- (frame_epoch w0 w) by done. unfold epoch_of. by rewrite Hnd. }
  intros b w1 [-> ->]. destruct (rebinds j) eqn:Hre; [|apply Hnot; [done..|]; by rewrite Hkeep].
  apply wp_bind, wp_gets. rewrite Hme. cbv zeta. pose proof (vars_move j Hre) as Hv. cbv zeta in Hv. cbn [newmaster dirty_slots sender_slots migrated_our_slots].
  rewrite <- Hv. by eapply move_slot_spec.
Qed.
End update.

(** ** The whole update *)

Definition slaveof (w : world) (n : Z) : option Z := w_heap w !! n ≫= n_slaveof.
Definition my_master (w : world) : option Z :=
  let me := c_myself (w_c w) in
  if from_option nodeIsMaster false (w_heap w !! me) then Some me else slaveof w me.

(** The same table of slots, another master. *)
Definition remastered (w1 w' : world) (m : option Z) : Prop :=
  cluster_ok w' ∧ c_myself (w_c w') = c_myself (w_c w1) ∧ (∀ n, is_Some (w_heap w' !! n) ↔ is_Some (w_heap w1 !! n)) ∧
  c_slots (w_c w') = c_slots (w_c w1) ∧ c_owner_not_claiming_slot (w_c w') = c_owner_not_claiming_slot (w_c w1) ∧ slaveof w' (c_myself (w_c w1)) = m.

Lemma vheap_is_Some w n : is_Some (vheap w !! n) ↔ is_Some (w_heap w !! n).
Proof. by rewrite lookup_fmap, fmap_is_Some. Qed.
Lemma vheap_slaveof w n v : vheap w !! n = Some v → slaveof w n = v_slaveof v.
Proof. intros (nd & Hn & ->)%vheap_lookup_inv. unfold slaveof. by rewrite Hn. Qed.
Lemma frame_slaveof w w' n : frame w w' → slaveof w' n = slaveof w n.
Proof.
  intros Hf. unfold slaveof. pose proof (fr_heap _ _ Hf) as Hh. apply (f_equal (lookup n)) in Hh. rewrite !lookup_fmap in Hh.
  destruct (w_heap w !! n) as [nd|], (w_heap w' !! n) as [nd'|]; try done. apply (inj Some) in Hh as E. cbn. by destruct (rest_fields _ _ E) as (_ & _ & _ & _ & -> & _).
Qed.
Lemma frame_is_Some w w' n : frame w w' → is_Some (w_heap w' !! n) ↔ is_Some (w_heap w !! n).
Proof. intros Hf. rewrite <- (fmap_is_Some node_rest), <- lookup_fmap, <- (fr_heap _ _ Hf), lookup_fmap. by rewrite fmap_is_Some. Qed.

Lemma setMaster_todo w1 g gd md flags :
  cluster_ok w1 → g ≠ c_myself (w_c w1) → w_heap w1 !! g = Some gd → w_heap w1 !! c_myself (w_c w1) = Some md → n_numslots md = 0 →
  wp (_ ← clusterSetMaster g; clusterDoBeforeSleep flags) w1 (λ _ w', remastered w1 w' (Some g)).
Proof.
  intros Hok Hne Hg Hm Hz. apply wp_bind. call setMaster_spec. intros _ w2 [(Hok2 & Hsim & Hs & Hme & _ & Hcl) (v & Hv & Hso)].
  call wp_todo. intros _ w3 Ha. pose proof Ha as [Hh Hc]. unfold core in Hc. injection Hc as E1 E2 E3 E4 E5 E6.
  split_and!; [by eapply alike_ok|congruence| |congruence|congruence|].
  - intros n. rewrite <- vheap_is_Some, Hh, (slots_sim_dom (vheap w1)), vheap_is_Some by done. done.
  - rewrite <- Hso. apply vheap_slaveof. by rewrite Hh.
Qed.
Lemma delKeys_spec w1 js : cluster_ok w1 →
  wp (for_each (λ j _, emit (EffDelKeysInSlot j)) js tt) w1 (λ _ w', remastered w1 w' (slaveof w1 (c_myself (w_c w1)))).
Proof.
  intros Hok. call (wp_for_each_keep (λ _ w', w_heap w' = w_heap w1 ∧ w_c w' = w_c w1)).
  - intros j _ w2 _ [E1 E2]. by apply wp_emit.
  - intros _ w2 [E1 E2]. unfold remastered, slaveof, cluster_ok. by rewrite E1, E2.
Qed.

Lemma ok_slave_slots w n nd m : cluster_ok w → w_heap w !! n = Some nd → n_slaveof nd = Some m →
  n_numslots nd = 0 ∧ m ≠ n ∧ ∃ md, w_heap w !! m = Some md.
Proof.
  intros Hok Hn Hs. pose proof (vheap_lookup w n nd Hn) as Hv. destruct (lk_up _ (ok_links w Hok) n _ m Hv Hs) as (? & Hsl & vm & Hvm & _).
  destruct (vheap_lookup_inv w m vm Hvm) as (md & ? & _). split_and!; [|done|by exists md]. by apply (ns_slave _ _ _ (ok_slots w n nd Hok Hn)).
Qed.
Lemma owns_nothing w n nd : cluster_ok w → w_heap w !! n = Some nd → n_numslots nd = 0 ↔ ∀ j, (j < N)%nat → own w j ≠ Some n.
Proof.
  intros Hok Hn. pose proof (ns_num _ _ _ (ok_slots w n nd Hok Hn)) as Hnum. cbn in Hnum. rewrite Hnum. split.
  - intros Hz j Hj Ho. pose proof (owned_pos (c_slots (w_c w)) j n) as Hp. rewrite own_lookup, Ho in Hp by done. specialize (Hp eq_refl). lia.
  - intros Hno. destruct (owned (c_slots (w_c w)) n) as [|o l] eqn:E; [done|]. exfalso.
    assert (Ho : o ∈ owned (c_slots (w_c w)) n) by (rewrite E; by left). apply list_elem_of_filter in Ho as [-> Hin]. apply list_elem_of_lookup in Hin as [j Hj].
    pose proof (lookup_lt_Some _ _ _ Hj) as Hlt. rewrite (so_len _ _ (inv_slots _ _ Hok)) in Hlt. apply (Hno j Hlt). unfold own. by rewrite Hj.
Qed.

Section config.
Context (server : server_t) (w : world) (sender e : Z) (slots : list Z).

#[local] Abbreviation me := (c_myself (w_c w)).
#[local] Abbreviation owner_after := (new_owner w sender e slots).
#[local] Abbreviation moved := (lost w sender e slots (my_master w) N).

(** Our master, or this node, has lost its last slots. *)
Definition replaced : bool :=
  bool_decide (moved ≠ []) && bool_decide (Forall (λ j, owner_after j ≠ my_master w) (seq 0 N)) &&
  (cluster_allow_replica_migration server || (zlen (claimed slots N) =? zlen moved)).
(** The master of this node after the update: the sender, or the master of
    our master, or the one it had. *)
Definition master_after : option Z :=
  if cluster_module_no_redirection server then slaveof w me
  else if replaced then Some sender
  else match slaveof w me with
       | Some m => match slaveof w m with Some g => if g =? me then Some m else Some g | None => Some m end
       | None => None
       end.

Record slots_updated (w' : world) : Prop := {
  su_ok : cluster_ok w';
  su_me : c_myself (w_c w') = me;
  su_nodes : ∀ n, is_Some (w_heap w' !! n) ↔ is_Some (w_heap w !! n);
  su_own : ∀ j, (j < N)%nat → own w' j = owner_after j;
  su_claim : ∀ j, (j < N)%nat → not_claimed w' j = new_claim w sender e slots j;
  su_master : slaveof w' me = master_after;
}.
End config.

Section config_spec.
Context (server : server_t) (w : world) (sender e : Z) (slots : list Z) (sd : clusterNode).
#[local] Abbreviation me := (c_myself (w_c w)).
#[local] Abbreviation moved := (lost w sender e slots (my_master w) N).
Hypothesis Hok : cluster_ok w.
Hypothesis Hsd : w_heap w !! sender = Some sd.
Hypothesis Hsl : nodeIsSlave sd = false.
Hypothesis Hbm : bitmap_ok slots.
#[local] Abbreviation done_with := (updated server w sender e slots (my_master w) N).

Lemma update_loop_spec :
  wp (for_each (update_slot server sender e slots (my_master w)) all_slots (UpdateVars false [] 0 0)) w done_with.
Proof using Hbm Hok Hsd Hsl.
  apply (wp_all_slots (updated server w sender e slots (my_master w))).
  - split; [done|apply frame_refl|intros; by rewrite decide_False by lia..|done].
  - intros j v w1 Hj Hup. by eapply update_slot_spec.
Qed.

Lemma remastered_updated v w1 w2 : done_with v w1 → remastered w1 w2 (master_after server w sender e slots) → slots_updated server w sender e slots w2.
Proof using Type.
  intros [U1 U2 U3 U4 _] (R1 & R2 & R3 & R4 & R5 & R6). pose proof (proj2 (frame_tables _ _ U2)) as Hme. split.
  - done.
  - by rewrite R2.
  - intros n. by rewrite R3, frame_is_Some.
  - intros j Hj. unfold own. rewrite R4. fold (own w1 j). rewrite U3 by done. by rewrite decide_True.
  - intros j Hj. unfold not_claimed. rewrite R5. fold (not_claimed w1 j). rewrite U4 by done. by rewrite decide_True.
  - by rewrite <- Hme.
Qed.

(** This node, and its master, or itself. *)
Lemma my_master_spec : ∃ md m, w_heap w !! me = Some md ∧ my_master w = Some m ∧ is_Some (w_heap w !! m) ∧
  (if nodeIsMaster md then m = me else n_slaveof md = Some m).
Proof using Hok.
  destruct (inv_myself _ _ Hok) as (v & Hv & Hr). destruct (vheap_lookup_inv w me v Hv) as (md & Hmd & ->). exists md. unfold my_master, slaveof. rewrite Hmd. cbn.
  destruct (nodeIsMaster md) eqn:Hma; [exists me; by rewrite Hmd|]. destruct Hr as [Hr|[m Hm]]; [cbn in Hr; congruence|]. exists m. cbn in Hm.
  destruct (ok_slave_slots w me md m Hok Hmd Hm) as (_ & _ & mmd & ?). by split_and!.
Qed.

Lemma replaced_correct v w1 : done_with v w1 →
  wp (if newmaster v then cm ← deref (my_master w); nd ← get_node cm; mret (n_numslots nd =? 0) else mret false) w1 (λ b w2, w2 = w1 ∧
    b && (cluster_allow_replica_migration server || (sender_slots v =? migrated_our_slots v)) = replaced server w sender e slots ∧
    (b = true → ∀ md, w_heap w1 !! me = Some md → n_numslots md = 0)).
Proof using Hok.
  intros [U1 U2 U3 U4 ->]. unfold replaced. cbn [newmaster sender_slots migrated_our_slots vars].
  destruct (bool_decide (moved ≠ [])); [|by apply wp_ret]. destruct my_master_spec as (md & m & Hmd & Hm & Hmh & Hrole).
  rewrite <- (frame_is_Some w w1) in Hmh by done. destruct Hmh as [nd Hnd].
  rewrite Hm. apply wp_bind, (wp_lift _ m); [done|]. apply wp_bind, (wp_get_node _ _ _ _ Hnd), wp_ret. split_and!; [done| |].
  - cbn [andb]. f_equal. apply eq_true_iff_eq. rewrite Z.eqb_eq, bool_decide_eq_true, Forall_forall, (owns_nothing w1 m nd) by done.
    split; intros Hno j Hj; [|specialize (Hno j)]; rewrite ?elem_of_seq in *.
    + specialize (Hno j). rewrite U3 in Hno by lia. rewrite decide_True in Hno by lia. apply Hno. lia.
    + rewrite U3, decide_True by lia. apply Hno. lia.
  - intros Hz md1 Hmd1. destruct (frame_role _ _ _ _ U2 Hmd) as (md1' & Hmd1' & _ & _ & Hso & _). simplify_eq.
    destruct (nodeIsMaster md); [subst m; simplify_eq; by apply Z.eqb_eq|].
    apply (ok_slave_slots w1 me md1 m U1 Hmd1). congruence.
Qed.

(** The decision after the loop. *)
Lemma reconfigure_spec v w1 (b : bool) :
  done_with v w1 → sender ≠ me → cluster_module_no_redirection server = false →
  b && (cluster_allow_replica_migration server || (sender_slots v =? migrated_our_slots v)) = replaced server w sender e slots →
  (b = true → ∀ md, w_heap w1 !! me = Some md → n_numslots md = 0) →
  let todo := clusterDoBeforeSleep (Z.lor CLUSTER_TODO_SAVE_CONFIG (Z.lor CLUSTER_TODO_UPDATE_STATE CLUSTER_TODO_FSYNC_CONFIG)) in
  wp (if b && (cluster_allow_replica_migration server || (sender_slots v =? migrated_our_slots v)) then _ ← clusterSetMaster sender; todo
      else
        md ← get_node me;
        grandmaster ← match n_slaveof md with Some m => nd ← get_node m; mret (n_slaveof nd) | None => mret None end;
        match grandmaster with
        | Some g =>
            if g =? me then for_each (λ j _, emit (EffDelKeysInSlot j)) (dirty_slots v) tt
            else _ ← clusterSetMaster g; todo
        | None => for_each (λ j _, emit (EffDelKeysInSlot j)) (dirty_slots v) tt
        end) w1 (λ _ w2, remastered w1 w2 (master_after server w sender e slots)).
Proof using Hok Hsd.
  intros [U1 U2 _ _ _] Hne Hnr Hb Hz. cbv zeta. rewrite Hb. unfold master_after. rewrite Hnr. pose proof (proj2 (frame_tables _ _ U2)) as Hme.
  destruct (my_master_spec) as (md0 & m0 & Hmd0 & _). destruct (frame_role _ _ _ _ U2 Hmd0) as (md & Hmd & _ & _ & Hso & _).
  destruct (frame_role _ _ _ _ U2 Hsd) as (sd1 & Hsd1 & _). assert (Hs0 : slaveof w me = n_slaveof md) by (unfold slaveof; rewrite Hmd0; by symmetry).
  destruct (replaced server w sender e slots) eqn:Hrep.
  { apply andb_true_iff in Hb as [-> _]. eapply setMaster_todo; [done|by rewrite Hme|done|by rewrite Hme|by apply Hz]. }
  assert (Hkeep : wp (for_each (λ j _, emit (EffDelKeysInSlot j)) (dirty_slots v) tt) w1 (λ _ w2, remastered w1 w2 (slaveof w me))).
  { rewrite <- (frame_slaveof w w1), <- Hme by done. by apply delKeys_spec. }
  apply wp_bind, (wp_get_node _ _ _ _ Hmd), wp_bind. rewrite Hs0 in *. destruct (n_slaveof md) as [m|] eqn:Hm; [|by apply wp_ret].
  destruct (ok_slave_slots w1 me md m U1 Hmd Hm) as (Hz0 & _ & nd & Hnd). apply wp_bind, (wp_get_node _ _ _ _ Hnd), wp_ret.
  rewrite <- (frame_slaveof w w1 m) by done. unfold slaveof at 1. rewrite Hnd. cbn. destruct (n_slaveof nd) as [g|] eqn:Hg; [|done].
  destruct (ok_slave_slots w1 m nd g U1 Hnd Hg) as (_ & _ & gd & Hgd). destruct (Z.eqb_spec g me); [done|].
  eapply setMaster_todo; [done|by rewrite Hme|done|by rewrite Hme|done].
Qed.

Lemma updateSlotsConfigWith_spec :
  sender ≠ me → wp (clusterUpdateSlotsConfigWith server sender e slots) w (λ _ w', slots_updated server w sender e slots w').
Proof using Hbm Hok Hsd Hsl.
  intros Hne. unfold clusterUpdateSlotsConfigWith. destruct (my_master_spec) as (md & m & Hmd & Hmm & _).
  apply wp_bind, wp_gets, wp_bind, (wp_get_node _ _ _ _ Hmd). apply Z.eqb_neq in Hne as Hne'. rewrite Hne'. apply wp_bind.
  assert (E : (if nodeIsMaster md then Some me else n_slaveof md) = my_master w) by (unfold my_master, slaveof; by rewrite Hmd). rewrite E.
  call update_loop_spec. intros v w1 Hup. pose proof (up_frame _ _ _ _ _ _ _ _ _ Hup) as Hf. pose proof (proj2 (frame_tables _ _ Hf)) as Hme.
  destruct (cluster_module_no_redirection server) eqn:Hnr.
  { apply wp_ret. eapply remastered_updated; [done|]. pose proof (up_ok _ _ _ _ _ _ _ _ _ Hup). unfold remastered. split_and!; try done.
    rewrite Hme, (frame_slaveof w w1) by done. unfold master_after. by rewrite Hnr. }
  apply wp_bind. call replaced_correct. intros b w2 (-> & Hb & Hz). call reconfigure_spec. intros _ w2 Hre. by eapply remastered_updated.
Qed.
End config_spec.

(** C6: When another master [sender] announces its slots with configuration
    epoch [e], [clusterUpdateSlotsConfigWith] returns, keeps the invariant, and
    gives to the sender exactly the slots that it claims, that are not being
    imported here, and that have no owner, an owner that stopped claiming them,
    or an owner with a smaller epoch; every other slot keeps its owner.  The bitmap
    of slots that their owner does not claim is updated for the sender's slots.
    This node becomes a replica of the sender exactly when the update took slots
    from its master (or from itself), left it without slots, and replica
    migration is allowed by the configuration or the sender claims only the slots
    that moved ([replaced]).  Otherwise it follows the master of its master when
    there is one that is not this node, and else keeps its master.  When a module
    disabled the redirections of the cluster it keeps its master in every case. *)
Theorem updateSlots_correct server w sender e slots sd :
  cluster_ok w → w_heap w !! sender = Some sd → nodeIsSlave sd = false → bitmap_ok slots → sender ≠ c_myself (w_c w) →
  ∃ w', clusterUpdateSlotsConfigWith server sender e slots w = Some (tt, w') ∧ slots_updated server w sender e slots w'.
Proof.
  intros Hok Hsd Hsl Hbm Hne. destruct (updateSlotsConfigWith_spec server w sender e slots sd Hok Hsd Hsl Hbm Hne) as ([] & w' & Hx & Hu). by exists w'.
Qed.

(** Two masters without slots; the other one claims slot 7 with epoch 3. *)
Definition demo_node (flags epoch : Z) : clusterNode := ClusterNode [] [] flags epoch empty_bitmap 0 [] None 0 0 0 [] 0.
Definition demo_world : world :=
  World {[ 1 := demo_node 17 1; 2 := demo_node 1 3 ]}
    (ClusterState 1 3 0 1 [1; 2] ∅ no_entries no_entries no_entries 0 0 false 0 0 0 None (-1) false 0 0 empty_bitmap 0 0) 0 0 [].
Definition demo_config : server_t := Server 15000 true true false false 1 false 10 10 true 100 100 0 0 (λ _, 0).
Lemma demo_world_ok : cluster_ok demo_world.
Proof.
  assert (Hh : vheap demo_world = <[1 := new_view true false]> {[ 2 := new_view true false ]}) by (unfold demo_world; cbn [w_heap]; by rewrite fmap_insert, map_fmap_singleton).
  unfold cluster_ok. rewrite Hh. clear Hh. apply (inv_fresh _ _ false); [|reflexivity..| |].
  - intros n v Hv. apply lookup_insert_Some in Hv as [[_ <-]|[_ Hv]]; [|apply lookup_singleton_Some in Hv as [_ <-]]; by exists true, false.
  - by apply (bool_decide_unpack _).
  - intros n. cbn [demo_world w_c c_nodes]. rewrite lookup_insert_is_Some', lookup_singleton_is_Some, elem_of_cons, list_elem_of_singleton.
    split; (intros [->|E]; [by left|by right]).
Qed.
Lemma updateSlots_correct_witness : ∃ w', clusterUpdateSlotsConfigWith demo_config 2 3 (<[0%nat := 128]> empty_bitmap) demo_world = Some (tt, w') ∧
  slots_updated demo_config demo_world 2 3 (<[0%nat := 128]> empty_bitmap) w' ∧ own demo_world 7 = None ∧ own w' 7 = Some 2.
Proof.
  assert (Hbm : bitmap_ok (<[0%nat := 128]> empty_bitmap)).
  { split; [by rewrite length_insert; apply empty_bitmap_ok|]. apply Forall_insert; [apply empty_bitmap_ok|unfold is_byte; lia]. }
  destruct (updateSlots_correct demo_config demo_world 2 3 (<[0%nat := 128]> empty_bitmap) (demo_node 1 3) demo_world_ok eq_refl eq_refl Hbm) as (w' & Hx & Hu); [done|].
  exists w'. split; [exact Hx|]. split; [exact Hu|]. split; [reflexivity|]. rewrite (su_own _ _ _ _ _ _ Hu 7) by (vm_compute; lia). reflexivity.
Defined.
End ClusterUpdate.
