(* ===== verification/ClusterCalm.v ===== *)
(** * cluster.c: failure reports, epochs, votes and the state of the cluster

    The operations that leave slots, roles and links alone: they return
    whenever the nodes they are given exist, and keep the invariant. *)

From S2P Require Import Prelude Zskiplist Cluster ClusterInv ClusterOps ClusterUpdate.
Import Zskiplist Cluster ClusterInv ClusterOps ClusterUpdate.

Module ClusterCalm.

#[local] Abbreviation N := (Z.to_nat 16384) (only parsing).

(** ** A relation that these operations keep *)

Definition set_vreports (l : list Z) (v : nview) : nview :=
  NView (v_slots v) (v_numslots v) (v_slaves v) (v_slaveof v) (v_master v) (v_slave v) l.

(** The same slots, roles and links; [w] satisfies the invariant. *)
Record steady (w0 w : world) : Prop := {
  st_ok : cluster_ok w;
  st_heap : set_vreports [] <$> vheap w = set_vreports [] <$> vheap w0;
  st_core : core (w_c w) = core (w_c w0);
}.
Definition live (w : world) (n : Z) : Prop := is_Some (w_heap w !! n).
(** What is known of a node that was read. *)
Definition seen (w : world) (n : Z) (nd : clusterNode) : Prop :=
  (∃ v, vheap w !! n = Some v ∧ set_vreports [] (view nd) = set_vreports [] v) ∧
  NoDup (n_fail_reports nd).*1 ∧ Forall (λ fr, live w fr.1) (n_fail_reports nd).

Lemma steady_refl w : cluster_ok w → steady w w.
Proof. by split. Qed.
Lemma steady_trans w1 w2 w3 : steady w1 w2 → steady w2 w3 → steady w1 w3.
Proof. intros [_ A2 A3] [B1 B2 B3]. split; congruence. Qed.
Lemma alike_steady w0 w w' : steady w0 w → alike w w' → steady w0 w'.
Proof. intros [A1 A2 A3] [B1 B2]. split; [by eapply alike_ok|congruence..]. Qed.

Lemma steady_live w0 w n : steady w0 w → live w n ↔ live w0 n.
Proof.
  intros Hs. pose proof (st_heap _ _ Hs) as E. apply (f_equal (lookup n)) in E. rewrite !lookup_fmap in E. unfold live.
  destruct (w_heap w !! n), (w_heap w0 !! n); try done; split; by intros [].
Qed.
Lemma steady_seen w0 w n nd : steady w0 w → w_heap w !! n = Some nd → seen w0 n nd.
Proof.
  intros Hs Hn. split.
  2:{ pose proof (inv_reports _ _ (st_ok _ _ Hs) n _ (vheap_lookup _ _ _ Hn)) as Hr. cbn in Hr. destruct Hr as [Hnd Hr]. split; [done|]. rewrite !Forall_forall in *. intros fr Hfr.
      rewrite <- (steady_live w0 w) by done. apply vheap_is_Some, Hr. by apply list_elem_of_fmap_2. }
  pose proof (st_heap _ _ Hs) as E. apply (f_equal (lookup n)) in E. rewrite !(lookup_fmap (set_vreports [])), (vheap_lookup _ _ _ Hn) in E. cbn in E.
  destruct (vheap w0 !! n) as [v|] eqn:Hv; [|done]. exists v. split; [done|]. by apply (inj Some) in E.
Qed.

(** ** Computations that keep it *)

Section calm.
Context (w0 : world).

(** From such a state [m] returns, with a result that satisfies [Q]; it keeps
    the relation; it keeps it and its result satisfies [P]. *)
Definition leads {A} (Q : A → world → Prop) (m : M A) : Prop := ∀ w, steady w0 w → wp m w Q.
Definition calm {A} (m : M A) : Prop := leads (λ _ w', steady w0 w') m.
Definition gives {A} (P : A → Prop) (m : M A) : Prop := leads (λ a w', steady w0 w' ∧ P a) m.

(** The first part keeps the relation, the rest leads to [Q]. *)
Lemma gives_bind {A B} (P : A → Prop) Q (m : M A) (f : A → M B) : gives P m → (∀ a, P a → leads Q (f a)) → leads Q (m ≫= f).
Proof. intros Hm Hf w Hs. apply wp_bind. call (Hm w Hs). intros a w' [Hs' Ha]. by apply Hf. Qed.
Lemma leads_bind {A B} Q (m : M A) (f : A → M B) : calm m → (∀ a, leads Q (f a)) → leads Q (m ≫= f).
Proof. intros Hm Hf w Hs. apply wp_bind. call (Hm w Hs). intros a w' Hs'. by apply Hf. Qed.
Lemma leads_get {B} Q n (f : clusterNode → M B) : live w0 n → (∀ nd, seen w0 n nd → leads Q (f nd)) → leads Q (get_node n ≫= f).
Proof.
  intros Hl Hf w Hs. apply (steady_live _ _ n Hs) in Hl as [nd Hn]. apply wp_bind, (wp_get_node _ _ _ _ Hn), Hf; [|done]. by eapply steady_seen.
Qed.
Lemma leads_gets {A B} Q (g : clusterState → A) (f : A → M B) : (∀ c, core c = core (w_c w0) → leads Q (f (g c))) → leads Q (gets g ≫= f).
Proof. intros Hf w Hs. apply wp_bind, wp_gets, Hf; [|done]. by apply Hs. Qed.
Lemma leads_lift {A B} Q (x : option A) (f : A → M B) : is_Some x → (∀ a, x = Some a → leads Q (f a)) → leads Q (lift x ≫= f).
Proof. intros [a Ha] Hf w Hs. apply wp_bind, (wp_lift _ a); [done|]. by apply Hf. Qed.
Lemma leads_mstime clock {B} Q (f : Z → M B) : (∀ t, leads Q (f t)) → leads Q (mstime clock ≫= f).
Proof. intros Hf. apply leads_bind; [|done]. intros w [A1 A2 A3]. by eexists _, _. Qed.
Lemma leads_random randoms {B} Q (f : Z → M B) : (∀ t, leads Q (f t)) → leads Q (random randoms ≫= f).
Proof. intros Hf. apply leads_bind; [|done]. intros w [A1 A2 A3]. by eexists _, _. Qed.
Lemma leads_ret_bind {A B} Q (a : A) (f : A → M B) : leads Q (f a) → leads Q (mret a ≫= f).
Proof. done. Qed.
Lemma leads_assoc {A B C} Q (m : M A) (g : A → M B) (f : B → M C) : leads Q (m ≫= λ a, g a ≫= f) → leads Q ((m ≫= g) ≫= f).
Proof.
  intros Hm w Hs. destruct (Hm w Hs) as (c & w' & E & HQ). exists c, w'. split; [|done]. rewrite <- E. unfold mbind, M_bind. by destruct (m w) as [[a w1]|].
Qed.
Lemma leads_calm {A} (Q : A → world → Prop) (m : M A) : (∀ a w, steady w0 w → Q a w) → calm m → leads Q m.
Proof. intros HQ Hm w Hs. call (Hm w Hs). intros a w' Hs'. by apply HQ. Qed.
Lemma gives_ret {A} (P : A → Prop) (a : A) : P a → gives P (mret a).
Proof. intros Ha w Hs. by apply wp_ret. Qed.
Lemma gives_for_each {A B} (P : B → Prop) (body : A → B → M B) js acc :
  P acc → (∀ j acc, j ∈ js → P acc → gives P (body j acc)) → gives P (for_each body js acc).
Proof. intros Ha Hb w Hs. apply (wp_for_each_keep (λ a w', steady w0 w' ∧ P a)); [done|]. intros j acc' w' Hj [Hs' Ha']. by apply Hb. Qed.

Lemma calm_ret {A} (a : A) : calm (mret a).
Proof. intros w Hs. by apply wp_ret. Qed.
Lemma calm_emit e : calm (emit e).
Proof. intros w Hs. apply wp_emit. destruct Hs as [A1 A2 A3]. by split. Qed.
Lemma calm_modify f : (∀ c, core (f c) = core c) → calm (modify f).
Proof. intros Hf w Hs. apply wp_modify. eapply alike_steady; [done|]. by apply alike_state. Qed.
Lemma calm_mod n f : live w0 n → (∀ nd, view (f nd) = view nd) → calm (mod_node n f).
Proof.
  intros Hl Hf w Hs. apply (steady_live _ _ n Hs) in Hl as [nd Hn]. apply (wp_mod_node _ _ _ _ _ Hn). eapply alike_steady; [done|]. by eapply alike_node.
Qed.
Lemma calm_for_each {A B} (body : A → B → M B) js acc : (∀ j acc, j ∈ js → calm (body j acc)) → calm (for_each body js acc).
Proof. intros Hb w Hs. apply wp_for_each_keep; [done|]. intros j acc' w' Hj Hs'. by apply Hb. Qed.
Lemma calm_todo flags : calm (clusterDoBeforeSleep flags).
Proof. apply calm_modify. by intros []. Qed.
End calm.

(** ** What the invariant gives about nodes that were read *)

Lemma live_myself w : cluster_ok w → live w (c_myself (w_c w)).
Proof. intros Hok. destruct (inv_myself _ _ Hok) as (v & Hv & _). apply vheap_is_Some. by exists v. Qed.
Lemma live_nodes w n : cluster_ok w → n ∈ c_nodes (w_c w) → live w n.
Proof. intros Hok Hn. apply vheap_is_Some. by apply (inv_nodes _ _ Hok). Qed.
Lemma live_slaveof w n nd m : cluster_ok w → seen w n nd → n_slaveof nd = Some m → live w m.
Proof.
  intros Hok [(v & Hv & E) _] Hm. apply (f_equal v_slaveof) in E. cbn in E. destruct (lk_up _ (ok_links w Hok) n v m Hv) as (_ & _ & vm & Hvm & _); [congruence|].
  apply vheap_is_Some. by exists vm.
Qed.
Lemma live_slaves w n nd m : cluster_ok w → seen w n nd → m ∈ n_slaves nd → live w m.
Proof.
  intros Hok [(v & Hv & E) _] Hm. apply (f_equal v_slaves) in E. cbn in E. destruct (lk_down _ (ok_links w Hok) n v m Hv) as (vm & Hvm & _); [congruence|].
  apply vheap_is_Some. by exists vm.
Qed.
Lemma live_owner w (j : nat) n : cluster_ok w → c_slots (w_c w) !! j = Some (Some n) → live w n.
Proof. intros Hok Hj. apply vheap_is_Some. by eapply (so_owner _ _ (inv_slots _ _ Hok)). Qed.
Lemma seen_roles w n nd nd' : seen w n nd → seen w n nd' → nodeIsMaster nd = nodeIsMaster nd' ∧ nodeIsSlave nd = nodeIsSlave nd' ∧ n_slaveof nd = n_slaveof nd'.
Proof.
  intros [(v & Hv & E) _] [(v' & Hv' & E') _]. simplify_eq. split_and!; congruence.
Qed.

Lemma slot_range j : j ∈ all_slots ↔ 0 ≤ j < CLUSTER_SLOTS.
Proof. unfold all_slots. rewrite elem_of_seqZ. lia. Qed.
Lemma core_fields c c' : core c = core c' →
  c_myself c = c_myself c' ∧ c_nodes c = c_nodes c' ∧ c_slots c = c_slots c' ∧ c_owner_not_claiming_slot c = c_owner_not_claiming_slot c'.
Proof. unfold core. intros E. by injection E. Qed.

(** ** Failure reports *)

Lemma inv_set_reports H c n v l : inv H c → H !! n = Some v → NoDup l → Forall (λ s, is_Some (H !! s)) l → inv (<[n := set_vreports l v]> H) c.
Proof.
  intros [I1 I2 I3 I4 I5 I6 I7 I8 I9] Hv Hnl Hl. assert (Hd : ∀ k, is_Some (<[n := set_vreports l v]> H !! k) ↔ is_Some (H !! k)) by (intros; by eapply dom_vslots).
  assert (Hk : ∀ k v', <[n := set_vreports l v]> H !! k = Some v' → ∃ v0, H !! k = Some v0 ∧ set_vreports [] v' = set_vreports [] v0 ∧ (v_reports v' = v_reports v0 ∨ v_reports v' = l)).
  { intros k v' [[<- <-]|[_ Hk]]%lookup_insert_Some; [exists v; auto|exists v'; auto]. }
  assert (Hk' : ∀ k v0, H !! k = Some v0 → ∃ v', <[n := set_vreports l v]> H !! k = Some v' ∧ set_vreports [] v' = set_vreports [] v0).
  { intros k v0 Hk0. destruct (decide (n = k)) as [<-|]; [rewrite lookup_insert_eq; eexists; split; [done|]; by simplify_eq|exists v0; by rewrite lookup_insert_ne]. }
  split; [| | |done|intros k; by rewrite Hd| | |done|].
  - destruct I1 as [S1 S2 S3]. split; [done| |].
    + intros j k Hj. rewrite Hd. by eapply S2.
    + intros k v' Hv'. destruct (Hk k v' Hv') as (v0 & Hv0 & E & _). destruct (S3 k v0 Hv0) as [B1 B2 B3 B4]. unfold set_vreports in E. injection E as E1 E2 E3 E4 E5 E6.
      split; rewrite ?E1, ?E2, ?E6; done.
  - destruct I2 as [L1 L2 L3 L4]. split.
    + intros x vx m Hx Hm. destruct (Hk x vx Hx) as (v0 & Hv0 & E & _). unfold set_vreports in E. injection E as E1 E2 E3 E4 E5 E6. rewrite E4 in Hm.
      destruct (L1 x v0 m Hv0 Hm) as (? & ? & vm & Hvm & ?). rewrite E6. split_and!; [done|done|]. destruct (Hk' m vm Hvm) as (vm' & ? & E'). exists vm'.
      split; [done|]. apply (f_equal v_slaves) in E'. cbn in E'. by rewrite E'.
    + intros m vm x Hm Hx. destruct (Hk m vm Hm) as (v0 & Hv0 & E & _). apply (f_equal v_slaves) in E. cbn in E. rewrite E in Hx.
      destruct (L2 m v0 x Hv0 Hx) as (vx & Hvx & ?). destruct (Hk' x vx Hvx) as (vx' & ? & E'). exists vx'. split; [done|]. apply (f_equal v_slaveof) in E'. cbn in E'. by rewrite E'.
    + intros m vm Hm. destruct (Hk m vm Hm) as (v0 & Hv0 & E & _). apply (f_equal v_slaves) in E. cbn in E. rewrite E. by eapply L3.
    + intros x vx Hx. destruct (Hk x vx Hx) as (v0 & Hv0 & E & _). unfold set_vreports in E. injection E as E1 E2 E3 E4 E5 E6. rewrite E5, E6. by eapply L4.
  - destruct I3 as (me & Hme & Hr). destruct (Hk' _ me Hme) as (me' & ? & E). exists me'. split; [done|]. unfold set_vreports in E. injection E as E1 E2 E3 E4 E5 E6.
    unfold my_role. by rewrite E4, E5.
  - split; [apply I6|]. intros j k Hj. rewrite Hd. by eapply I6.
  - split; [apply I7|]. intros j k Hj. rewrite Hd. by eapply I7.
  - intros k v' Hv'. assert (Hf : NoDup (v_reports v') ∧ Forall (λ s, is_Some (H !! s)) (v_reports v')).
    { destruct (Hk k v' Hv') as (v0 & Hv0 & _ & [->| ->]); [by eapply I9|done]. }
    split; [apply Hf|]. eapply Forall_impl; [apply Hf|]. intros s. by rewrite Hd.
Qed.

Create HintDb cluster.
#[export] Hint Resolve live_myself live_nodes live_slaveof live_slaves live_owner : cluster.

(** A step of a computation that keeps the relation; nodes that are read exist
    by the hints. *)
Ltac norm_core :=
  repeat match goal with
  | E : core ?c = core (w_c ?w) |- _ =>
      let E1 := fresh in let E2 := fresh in let E3 := fresh in let E4 := fresh in
      destruct (core_fields _ _ E) as (E1 & E2 & E3 & E4); rewrite ?E1, ?E2, ?E3, ?E4; clear E1 E2 E3 E4; clear E
  end.
Ltac calm_step :=
  lazymatch goal with
  | |- calm _ (_ ≫= _) => unfold calm; calm_step
  | |- gives _ _ (_ ≫= _) => unfold gives; calm_step
  | |- leads _ _ (gets _ ≫= _) => apply leads_gets; let c := fresh "c" in let E := fresh "E" in intros c E; norm_core
  | |- leads _ _ (get_node _ ≫= _) => apply leads_get; [by eauto with cluster|let nd := fresh "nd" in let H := fresh "Hnd" in intros nd H]
  | |- leads _ _ (mstime _ ≫= _) => apply leads_mstime; let t := fresh "t" in intros t
  | |- leads _ _ (random _ ≫= _) => apply leads_random; let t := fresh "t" in intros t
  | |- leads _ _ (_ ≫= _) => apply leads_bind; [|intros ?]
  | |- leads _ _ (if ?b then _ else _) => destruct b eqn:?
  | |- leads _ _ (match ?x with Some _ => _ | None => _ end) => destruct x eqn:?
  | |- leads ?w (λ _ w', steady ?w w') ?m => change (calm w m); calm_step
  | |- calm _ (mret _) => apply calm_ret
  | |- calm _ (emit _) => apply calm_emit
  | |- calm _ (clusterDoBeforeSleep _) => apply calm_todo
  | |- calm _ (modify _) => apply calm_modify; intros []; done
  | |- calm _ (mod_node _ _) => apply calm_mod; [by eauto with cluster|by intros; auto using view_add_flags, view_del_flags]
  | |- calm _ (if ?b then _ else _) => destruct b eqn:?
  | |- calm _ (match ?x with Some _ => _ | None => _ end) => destruct x eqn:?
  | |- calm _ (for_each _ _ _) => apply calm_for_each; let j := fresh "j" in let acc := fresh "acc" in intros j acc ?
  end.
Ltac calms := cbv zeta; repeat (calm_step; cbv beta zeta).

Section ops.
Context (clock randoms : nat → Z) (server : server_t) (w0 : world).
Hypothesis Hok : cluster_ok w0.

Lemma calm_set_reports n l : live w0 n → NoDup l.*1 → Forall (λ fr, live w0 fr.1) l → calm w0 (mod_node n (set_fail_reports l)).
Proof using Type.
  intros Hn Hnd Hl w Hs. apply (steady_live _ _ n Hs) in Hn as [nd Hn]. apply (wp_mod_node _ _ _ _ _ Hn). pose proof (vheap_lookup _ _ _ Hn) as Hv.
  assert (Hh : vheap (with_heap w (<[n := set_fail_reports l nd]> (w_heap w))) = <[n := set_vreports l.*1 (view nd)]> (vheap w)) by apply vheap_insert.
  split.
  - unfold cluster_ok. rewrite Hh. apply inv_set_reports; [apply Hs|done|done|]. apply Forall_fmap. eapply Forall_impl; [exact Hl|]. intros fr. cbn.
    by rewrite <- (steady_live w0 w), vheap_is_Some.
  - rewrite Hh, fmap_insert, <- (st_heap _ _ Hs). apply insert_id. rewrite lookup_fmap, Hv. done.
  - apply Hs.
Qed.

Lemma addReport_calm failing sender : live w0 failing → live w0 sender → calm w0 (clusterNodeAddFailureReport clock failing sender).
Proof using Type.
  intros Hf Hs. unfold clusterNodeAddFailureReport. apply leads_get; [done|]. intros nd (_ & Hnd & Hr). cbv zeta. destruct (list_find _ _) as [[i fr]|] eqn:Hfind.
  all: apply leads_mstime; intros t; apply leads_bind; [apply calm_set_reports; [done|..]|intros; apply calm_ret].
  - apply list_find_Some in Hfind as (Hi & E & _). rewrite list_fmap_insert, list_insert_id; [done|]. rewrite list_lookup_fmap, Hi. cbn. by rewrite E.
  - by apply Forall_insert.
  - apply list_find_None in Hfind. rewrite fmap_app. apply NoDup_app. split_and!; [done| |apply NoDup_singleton].
    intros x (fr & -> & Hin)%list_elem_of_fmap Hx%list_elem_of_singleton. rewrite Forall_forall in Hfind. by apply (Hfind fr).
  - by apply Forall_app_2, Forall_singleton.
Qed.
Lemma reports_sublist n l l' : NoDup l.*1 → Forall (λ fr, live w0 fr.1) l → sublist l' l → live w0 n → calm w0 (mod_node n (set_fail_reports l')).
Proof using Type.
  intros Hnd Hl Hsub Hn. apply calm_set_reports; [done| |].
  - eapply sublist_NoDup; [done|]. by apply fmap_sublist.
  - rewrite Forall_forall in *. intros fr Hfr. apply Hl. eapply elem_of_submseteq; [done|]. by apply sublist_submseteq.
Qed.
Lemma cleanupReports_calm n : live w0 n → calm w0 (clusterNodeCleanupFailureReports clock server n).
Proof using Type.
  intros Hn. unfold clusterNodeCleanupFailureReports. apply leads_get; [done|]. intros nd (_ & Hnd & Hr). cbv zeta. apply leads_mstime. intros t.
  eapply reports_sublist; [done|done|apply sublist_filter|done].
Qed.
Lemma delReport_calm n sender : live w0 n → calm w0 (clusterNodeDelFailureReport clock server n sender).
Proof using Type.
  intros Hn. unfold clusterNodeDelFailureReport. apply leads_get; [done|]. intros nd (_ & Hnd & Hr). destruct (list_find _ _) as [[i fr]|]; [|apply calm_ret].
  apply leads_bind; [eapply reports_sublist; [done|done|apply sublist_delete|done]|]. intros _. apply leads_bind; [by apply cleanupReports_calm|]. intros _. apply calm_ret.
Qed.
Lemma reportsCount_calm n : live w0 n → calm w0 (clusterNodeFailureReportsCount clock server n).
Proof using Type. intros Hn. unfold clusterNodeFailureReportsCount. apply leads_bind; [by apply cleanupReports_calm|]. intros _. calms. Qed.

Lemma markFailing_calm n : live w0 n → calm w0 (markNodeAsFailingIfNeeded clock server n).
Proof using Hok. intros Hn. unfold markNodeAsFailingIfNeeded. calms. by apply reportsCount_calm. Qed.
(** The assertion is the caller's: the node has the FAIL flag. *)
Lemma clearFailure_spec w n nd : steady w0 w → w_heap w !! n = Some nd → nodeFailed nd = true →
  wp (clearNodeFailureIfNeeded clock server n) w (λ _ w', steady w0 w').
Proof using Type.
  intros Hs Hn Hf. assert (Hl : live w0 n) by (rewrite <- (steady_live w0 w) by done; by eexists). unfold clearNodeFailureIfNeeded.
  apply wp_bind. eexists _, _. split; [done|]. apply wp_bind, (wp_get_node _ nd); [done|]. cbv zeta. apply wp_bind, wp_assert; [done|].
  assert (Hs' : steady w0 (World (w_heap w) (w_c w) (S (w_ticks w)) (w_randoms w) (w_out w))) by (destruct Hs; by split).
  revert Hs'. generalize (World (w_heap w) (w_c w) (S (w_ticks w)) (w_randoms w) (w_out w)). match goal with |- ∀ w1, _ → wp ?m w1 _ => change (calm w0 m) end.
  calms.
Qed.

(** ** Epochs and votes *)

Lemma maxEpoch_calm : calm w0 clusterGetMaxEpoch.
Proof using Hok. unfold clusterGetMaxEpoch. calms. Qed.
Lemma new_epoch_calm : calm w0 new_epoch.
Proof using Hok. unfold new_epoch. calms. Qed.
Lemma bumpEpoch_calm : calm w0 clusterBumpConfigEpochWithoutConsensus.
Proof using Hok. unfold clusterBumpConfigEpochWithoutConsensus. calms; [apply maxEpoch_calm|apply new_epoch_calm]. Qed.
Lemma epochCollision_calm n : live w0 n → calm w0 (clusterHandleConfigEpochCollision n).
Proof using Hok. intros Hn. unfold clusterHandleConfigEpochCollision. calms. apply new_epoch_calm. Qed.

Lemma slot_lookup (j : Z) : j ∈ all_slots → ∃ i, (i < N)%nat ∧ j = Z.of_nat i.
Proof using Type. rewrite slot_range. unfold CLUSTER_SLOTS. intros Hj. exists (Z.to_nat j). rewrite Z2Nat.id by lia. split; [|done]. apply Z2Nat.inj_lt; lia. Qed.
Lemma leads_slot_owner {B} (Q : B → world → Prop) (j : nat) (f : option Z → M B) :
  (j < N)%nat → (∀ o, c_slots (w_c w0) !! j = Some o → leads w0 Q (f o)) → leads w0 Q (slot_owner (Z.of_nat j) ≫= f).
Proof using Hok.
  intros Hj Hf w Hs. destruct (ok_slot w0 j Hok Hj) as [o Ho]. destruct (core_fields _ _ (st_core _ _ Hs)) as (_ & _ & E & _).
  apply wp_bind, (slot_owner_spec j o); [by rewrite E|]. by apply Hf.
Qed.
Lemma leads_unclaimed {B} (Q : B → world → Prop) (j : nat) (f : bool → M B) :
  (j < N)%nat → (∀ b, (b = false → ∃ n, c_slots (w_c w0) !! j = Some (Some n)) → leads w0 Q (f b)) → leads w0 Q (isSlotUnclaimed (Z.of_nat j) ≫= f).
Proof using Hok.
  intros Hj Hf w Hs. destruct (core_fields _ _ (st_core _ _ Hs)) as (_ & _ & E & _). apply wp_bind. call isSlotUnclaimed_spec; [apply Hs|].
  intros b w' [-> ->]. apply Hf; [|done]. unfold unclaimed. pose proof (own_lookup w j (st_ok _ _ Hs) Hj) as Ho. rewrite E in Ho.
  destruct (own w j) as [n|]; [|done]. intros _. by exists n.
Qed.

Lemma epochs_ok_calm js claimed_slots e : bitmap_ok claimed_slots → (∀ j, j ∈ js → j ∈ all_slots) → calm w0 (epochs_ok js claimed_slots e).
Proof using Hok.
  intros Hbm. induction js as [|j js IH]; intros Hjs; cbn [epochs_ok]; [apply calm_ret|]. destruct (slot_lookup j) as (i & Hi & ->); [apply Hjs; by left|].
  specialize (IH (λ j Hj, Hjs j (list_elem_of_further _ _ _ Hj))). apply leads_lift; [by rewrite testBit_spec|]. intros b _. destruct (negb b); [done|].
  apply leads_unclaimed; [done|]. intros un Hun. apply leads_bind; [|intros fine; destruct fine; [done|apply calm_ret]].
  destruct un; [apply calm_ret|]. destruct Hun as [n Hn]; [done|]. apply leads_slot_owner; [done|]. intros o Ho. simplify_eq.
  apply leads_lift; [done|]. intros ? [= <-]. calms.
Qed.
Lemma sendAuth_calm n request : live w0 n → bitmap_ok (h_myslots request) → calm w0 (clusterSendFailoverAuthIfNeeded clock server n request).
Proof using Hok. intros Hn Hbm. unfold clusterSendFailoverAuthIfNeeded. calms. by apply epochs_ok_calm. Qed.

(** ** The state of the cluster *)

Lemma slots_covered_calm js : (∀ j, j ∈ js → j ∈ all_slots) → calm w0 (slots_covered js).
Proof using Hok.
  induction js as [|j js IH]; intros Hjs; cbn [slots_covered]; [apply calm_ret|]. destruct (slot_lookup j) as (i & Hi & ->); [apply Hjs; by left|].
  specialize (IH (λ j Hj, Hjs j (list_elem_of_further _ _ _ Hj))). apply leads_slot_owner; [done|]. intros [n|] Ho; [|apply calm_ret]. calms. done.
Qed.
Lemma updateState_calm : calm w0 (clusterUpdateState clock server).
Proof using Hok. unfold clusterUpdateState. calms. by apply slots_covered_calm. Qed.

(** ** Messages *)

Lemma header_calm sender hdr : live w0 sender → calm w0 (update_from_header sender hdr).
Proof using Hok. intros Hs. unfold update_from_header. calms. Qed.
Lemma send_updates_calm js sender e slots : bitmap_ok slots → (∀ j, j ∈ js → j ∈ all_slots) → calm w0 (send_updates js sender e slots).
Proof using Hok.
  intros Hbm. induction js as [|j js IH]; intros Hjs; cbn [send_updates]; [apply calm_ret|]. destruct (slot_lookup j) as (i & Hi & ->); [apply Hjs; by left|].
  specialize (IH (λ j Hj, Hjs j (list_elem_of_further _ _ _ Hj))). apply leads_lift; [by rewrite testBit_spec|]. intros b _.
  apply leads_slot_owner; [done|]. intros o Ho. apply leads_unclaimed; [done|]. intros un Hun. destruct un; [by rewrite orb_true_r|].
  destruct Hun as [n Hn]; [done|]. simplify_eq. destruct (_ || _); [done|]. apply leads_lift; [done|]. intros ? [= <-]. calms. done.
Qed.
Lemma process_fail_calm n now : live w0 n → calm w0 (process_fail n now).
Proof using Type. intros Hn. unfold process_fail. calms. Qed.
Lemma process_ack_calm n hdr : live w0 n → calm w0 (process_auth_ack n hdr).
Proof using Type. intros Hn. unfold process_auth_ack. calms. Qed.
End ops.
End ClusterCalm.
