(* ===== verification/ClusterRun.v ===== *)
(** * cluster.c: failover, roles and messages; any run keeps the invariant *)

From S2P Require Import Prelude Zskiplist Cluster ClusterInv ClusterOps ClusterUpdate ClusterCalm.
Import Zskiplist Cluster ClusterInv ClusterOps ClusterUpdate ClusterCalm.

Module ClusterRun.

#[local] Abbreviation N := (Z.to_nat 16384) (only parsing).

(** ** The slots of one node pass to another *)

Definition take_over (old new : Z) (o : option Z) : option Z := if decide (o = Some old) then Some new else o.

Lemma frame_core w w' : frame w w' → c_nodes (w_c w') = c_nodes (w_c w) ∧ c_myself (w_c w') = c_myself (w_c w).
Proof.
  intros [_ E]. split.
  - apply (f_equal c_nodes) in E. unfold state_rest in E. by destruct (w_c w), (w_c w').
  - apply (f_equal c_myself) in E. unfold state_rest in E. by destruct (w_c w), (w_c w').
Qed.
Lemma put_slots_get x c : c_slots (put_slots x c) = x.
Proof. by destruct c. Qed.

Lemma take_over_spec w old new od nd :
  cluster_ok w → w_heap w !! old = Some od → w_heap w !! new = Some nd → nodeIsSlave nd = false → old ≠ new →
  wp (for_each (λ j _, bit ← clusterNodeGetSlotBit old j;
        if (bit : bool) then _ ← clusterDelSlot j; _ ← clusterAddSlot new j; mret tt else mret tt) all_slots tt) w
    (λ _ w', cluster_ok w' ∧ frame w w' ∧ c_slots (w_c w') = take_over old new <$> c_slots (w_c w)).
Proof.
  intros Hok Hold Hnew Hsl Hne. pose proof (so_len _ _ (inv_slots _ _ Hok)) as Hlen. set (f := take_over old new).
  eapply wp_mono; [apply (wp_all_slots (λ k _ w', cluster_ok w' ∧ frame w w' ∧ c_slots (w_c w') = map_prefix k f (c_slots (w_c w))))|].
  - split_and!; [done|apply frame_refl|done].
  - intros j [] w1 Hj (Hok1 & Hf1 & Hc1). destruct (frame_node w w1 old od Hf1 Hold) as (od1 & Hold1 & _).
    destruct (frame_role _ _ _ _ Hf1 Hnew) as (nd1 & Hnew1 & _ & Hsl1 & _). destruct (ok_slot w j Hok Hj) as [o Ho].
    assert (Ho1 : c_slots (w_c w1) !! j = Some o) by (rewrite Hc1, map_prefix_lookup by lia; done).
    destruct (ok_slots w1 old od1 Hok1 Hold1) as [Hbm Hbits _ _]. cbn [view v_slots] in *. unfold clusterNodeGetSlotBit.
    apply wp_bind, wp_bind, (wp_get_node _ _ _ _ Hold1). apply (wp_lift _ (bool_decide (o = Some old))).
    { rewrite testBit_spec, Hbits by done. f_equal. rewrite Ho1. apply bool_decide_ext. naive_solver. }
    rewrite (map_prefix_S _ _ _ _ Ho), <- Hc1. case_bool_decide as Heq.
    + assert (Hf : f o = Some new) by (unfold f, take_over; by rewrite decide_True).
      apply wp_bind. call delSlot_spec. intros _ w2 (_ & Hok2 & Hf2 & Hc2). destruct (frame_role _ _ _ _ Hf2 Hnew1) as (nd2 & Hnew2 & _ & Hsl2 & _).
      assert (Hs2 : c_slots (w_c w2) = <[j := None]> (c_slots (w_c w1))) by (by rewrite Hc2, put_slots_get).
      apply wp_bind. call (addSlot_spec w2 new nd2 None j).
      { rewrite Hs2. apply list_lookup_insert_eq. by apply lookup_lt_is_Some_1; eexists. }
      { by rewrite Hsl2, Hsl1. }
      intros _ w3 (_ & Hok3 & Hf3 & Hc3). apply wp_ret. split_and!; [done|do 2 (eapply frame_trans; [done|]); done|].
      by rewrite Hc3, put_slots_get, Hs2, list_insert_insert_eq, Hf.
    + apply wp_ret. split_and!; [done|done|]. assert (Hf : f o = o) by (unfold f, take_over; by rewrite decide_False). rewrite Hf. by rewrite list_insert_id.
  - intros _ w' (Hok' & Hf & Hc). split_and!; [done|done|]. by rewrite Hc, map_prefix_all by lia.
Qed.

(** ** Failover *)

(** The slots, the nodes and this node after an operation that may move slots. *)
Definition safe (w w' : world) : Prop :=
  cluster_ok w' ∧ c_myself (w_c w') = c_myself (w_c w) ∧ (∀ n, live w' n ↔ live w n).
Lemma safe_refl w : cluster_ok w → safe w w.
Proof. by split. Qed.
Lemma safe_trans w1 w2 w3 : safe w1 w2 → safe w2 w3 → safe w1 w3.
Proof. intros (A1 & A2 & A3) (B1 & B2 & B3). split_and!; [done|congruence|]. intros n. by rewrite B3, A3. Qed.
Lemma steady_safe w w' : steady w w' → safe w w'.
Proof. intros Hs. split_and!; [apply Hs|apply (core_fields _ _ (st_core _ _ Hs))|]. intros n. by apply steady_live. Qed.
Lemma frame_safe w w' : cluster_ok w' → frame w w' → safe w w'.
Proof. intros Hok Hf. split_and!; [done|by apply frame_core|]. intros n. by apply frame_is_Some. Qed.
Lemma kept_safe w w' : kept w w' → safe w w'.
Proof. intros (A1 & A2 & A3 & A4 & _). split_and!; [done|done|]. intros n. unfold live. rewrite <- !vheap_is_Some. by apply slots_sim_dom. Qed.
Lemma relinked_safe w w' : relinked w w' → safe w w'.
Proof. intros. by apply kept_safe, relinked_kept. Qed.

Section run.
Context (clock randoms : nat → Z) (server : server_t).

(** This replica becomes a master and takes the slots of its master. *)
Definition failed_over (w w' : world) : Prop :=
  let me := c_myself (w_c w) in
  safe w w' ∧
  match slaveof w me with
  | Some old => c_slots (w_c w') = take_over old me <$> c_slots (w_c w) ∧ slaveof w' me = None ∧
                ∃ md, w_heap w' !! me = Some md ∧ nodeIsMaster md = true
  | None => w' = w
  end.

Lemma replaceYourMaster_spec w : cluster_ok w → wp (clusterFailoverReplaceYourMaster clock server) w (λ _ w', failed_over w w').
Proof using Type.
  intros Hok. unfold clusterFailoverReplaceYourMaster, failed_over. destruct (live_myself w Hok) as [md Hmd]. set (me := c_myself (w_c w)) in *.
  apply wp_bind, wp_gets. fold me. apply wp_bind, (wp_get_node _ _ _ _ Hmd). unfold slaveof at 1. rewrite Hmd. cbn [mbind option_bind].
  destruct (n_slaveof md) as [old|] eqn:Hso; [|apply wp_ret; split; [by apply safe_refl|done]].
  destruct (ok_slave_slots w me md old Hok Hmd Hso) as (_ & Hne & od & Hod). pose proof (vheap_lookup _ _ _ Hmd) as Hv.
  destruct (lk_up _ (ok_links w Hok) me _ old Hv Hso) as (_ & Hsl & _). destruct (nodeIsMaster md) eqn:Hma.
  { pose proof (lk_role _ (ok_links w Hok) me _ Hv Hma). congruence. }
  apply wp_bind. call setNodeAsMaster_spec. intros _ w1 [Hre (v1 & Hv1 & Hm1 & Hs1 & Hso1)]. pose proof Hre as (Hok1 & Hsim1 & Hc1).
  assert (Hsw : c_slots (w_c w1) = c_slots (w_c w)) by apply (core_fields _ _ Hc1).
  apply wp_bind, wp_emit. set (w2 := World _ _ _ _ _). assert (Hok2 : cluster_ok w2) by exact Hok1. destruct (vheap_lookup_inv w1 me v1 Hv1) as (md1 & Hmd1 & ->).
  destruct (proj2 (proj2 (relinked_safe _ _ Hre)) old) as [_ [od1 Hod1]]; [by eexists|].
  apply wp_bind. call (take_over_spec w2 old me od1 md1). intros _ w3 (Hok3 & Hf3 & Hs3).
  apply wp_bind. call (updateState_calm clock server w3 Hok3 w3). intros _ w4 Hst4.
  apply wp_bind, wp_emit, wp_bind, wp_emit. call resetManualFailover_spec. intros _ w5 [Hh5 Hc5].
  assert (Hst : steady w3 w5). { destruct Hst4 as [A1 A2 A3]. split; [eapply alike_ok; [by split|done]|by rewrite Hh5|by rewrite Hc5]. }
  assert (Hsafe : safe w w5).
  { eapply safe_trans; [by apply relinked_safe|]. eapply (safe_trans _ w3); [by apply (frame_safe w2)|by apply steady_safe]. }
  split; [done|]. destruct (frame_role _ _ _ _ Hf3 Hmd1) as (md3 & Hmd3 & Hma3 & _ & Hso3 & _).
  destruct (proj2 (proj2 (steady_safe _ _ Hst)) me) as [_ [md5 Hmd5]]; [by eexists|]. destruct (steady_seen _ _ _ _ Hst Hmd5) as [(v & Hv' & E) _].
  rewrite (vheap_lookup _ _ _ Hmd3) in Hv'. simplify_eq. cbn in Hm1, Hso1. split_and!.
  - destruct (core_fields _ _ (st_core _ _ Hst)) as (_ & _ & -> & _). rewrite Hs3. f_equal. exact Hsw.
  - unfold slaveof. rewrite Hmd5. cbn. congruence.
  - exists md5. split; [done|]. congruence.
Qed.

Lemma slaveRank_calm w0 : cluster_ok w0 → (∀ nd, seen w0 (c_myself (w_c w0)) nd → nodeIsSlave nd = true) → calm w0 (clusterGetSlaveRank server).
Proof using Type.
  intros Hok Hsl. unfold clusterGetSlaveRank. calm_step. calm_step. apply leads_lift; [unfold assert; by rewrite Hsl|]. intros _ _. calms.
Qed.

Lemma seen_slave w n nd m nd' : cluster_ok w → seen w n nd → n_slaveof nd = Some m → seen w n nd' → nodeIsSlave nd' = true.
Proof using Type.
  intros Hok [(v & Hv & E) _] Hm [(v' & Hv' & E') _]. simplify_eq. destruct (lk_up _ (ok_links w Hok) n v m Hv) as (_ & Hs & _); congruence.
Qed.
Lemma slaveFailover_spec w0 : cluster_ok w0 → leads w0 (λ _ w', safe w0 w') (clusterHandleSlaveFailover clock randoms server).
Proof using Type.
  intros Hok. assert (Hend : ∀ {A} (m : M A), calm w0 m → leads w0 (λ _ w', safe w0 w') m) by (intros A m; apply leads_calm; intros _ w'; apply steady_safe).
  unfold clusterHandleSlaveFailover. cbv zeta. do 5 (calm_step; cbv zeta beta). calm_step; [calms|]. do 2 calm_step.
  destruct (nodeIsMaster nd) eqn:Hma; [apply leads_ret_bind, Hend, calm_ret|].
  destruct (n_slaveof nd) as [m|] eqn:Hso; [|apply leads_ret_bind, Hend, calm_ret]. apply leads_assoc. calm_step. apply leads_ret_bind.
  assert (Hrank : calm w0 (clusterGetSlaveRank server)) by (apply slaveRank_calm; [done|]; intros nd' ?; by apply (seen_slave w0 (c_myself (w_c w0)) nd m)).
  assert (Hrep : leads w0 (λ _ w', safe w0 w') (clusterFailoverReplaceYourMaster clock server)).
  { intros w Hs. call replaceYourMaster_spec; [apply Hs|]. intros _ w' [Hsafe _]. eapply safe_trans; [by apply steady_safe|done]. }
  repeat (done || (apply Hend; solve [calms]) || (calm_step; cbv beta zeta)).
Qed.

(** ** Messages *)

Lemma updateSlots_safe w sender sd e slots :
  cluster_ok w → w_heap w !! sender = Some sd → nodeIsSlave sd = false → bitmap_ok slots →
  wp (clusterUpdateSlotsConfigWith server sender e slots) w (λ _ w', safe w w').
Proof using Type.
  intros Hok Hsd Hsl Hbm. destruct (decide (sender = c_myself (w_c w))) as [E|Hne].
  - unfold clusterUpdateSlotsConfigWith. destruct (live_myself w Hok) as [md Hmd]. apply wp_bind, wp_gets, wp_bind, (wp_get_node _ _ _ _ Hmd).
    rewrite (proj2 (Z.eqb_eq _ _) E). apply wp_ret. by apply safe_refl.
  - call updateSlotsConfigWith_spec. intros _ w' [A1 A2 A3 _ _ _]. by split_and!.
Qed.

Lemma calm_safe {A} (m : M A) w : cluster_ok w → calm w m → wp m w (λ _ w', safe w w').
Proof using Type. intros Hok Hm. call (Hm w (steady_refl w Hok)). intros _ w' Hs. by apply steady_safe. Qed.

Lemma process_update_spec w n e slots : cluster_ok w → live w n → bitmap_ok slots → wp (process_update server n e slots) w (λ _ w', safe w w').
Proof using Type.
  intros Hok [nd Hn] Hbm. unfold process_update. apply wp_bind, (wp_get_node _ _ _ _ Hn). destruct (n_configEpoch nd >=? e); [apply wp_ret; by apply safe_refl|].
  apply wp_bind. eapply (wp_mono _ _ (λ _ w1, safe w w1 ∧ ∃ nd1, w_heap w1 !! n = Some nd1 ∧ nodeIsSlave nd1 = false)).
  { destruct (nodeIsSlave nd) eqn:Hsl; [|apply wp_ret; split; [by apply safe_refl|by exists nd]].
    call setNodeAsMaster_spec. intros _ w1 [Hre (v & Hv & _ & Hs & _)]. split; [by apply relinked_safe|].
    destruct (vheap_lookup_inv w1 n v Hv) as (nd1 & ? & ->). by exists nd1. }
  intros _ w1 [Hs1 (nd1 & Hn1 & Hsl1)]. apply wp_bind, (wp_mod_node _ _ _ _ _ Hn1). set (w2 := with_heap _ _).
  assert (Ha2 : alike w1 w2) by (by eapply alike_node). apply wp_bind. call wp_todo. intros _ w3 Ha3. pose proof (alike_trans _ _ _ Ha2 Ha3) as Ha.
  destruct (alike_lookup _ _ n nd1 Ha Hn1) as (nd3 & Hn3 & Hv3). apply (f_equal v_slave) in Hv3. cbn in Hv3.
  call (updateSlots_safe w3 n nd3); [eapply alike_ok; [done|apply Hs1]|congruence|].
  intros _ w4 Hs4. eapply safe_trans; [done|]. eapply safe_trans; [|done]. apply kept_safe, alike_kept; [apply Hs1|done].
Qed.

Lemma update_slots_of_spec w sender hdr : cluster_ok w → live w sender → bitmap_ok (h_myslots hdr) → wp (update_slots_of server sender hdr) w (λ _ w', safe w w').
Proof using Type.
  intros Hok [sd Hsd] Hbm. unfold update_slots_of. apply wp_bind, (wp_get_node _ _ _ _ Hsd), wp_bind. eapply (wp_mono _ _ (λ _ w', w' = w)).
  { destruct (nodeIsMaster sd); [apply wp_bind, (wp_get_node _ _ _ _ Hsd); by apply wp_ret|]. destruct (n_slaveof sd) as [m|] eqn:Hso; [|by apply wp_ret].
    destruct (ok_slave_slots w sender sd m Hok Hsd Hso) as (_ & _ & md & Hmd). apply wp_bind, (wp_get_node _ _ _ _ Hmd). by apply wp_ret. }
  intros dirty w' ->. apply wp_bind. eapply (wp_mono _ _ (λ _ w1, safe w w1)).
  { destruct (nodeIsMaster sd && dirty) eqn:E; [|apply wp_ret; by apply safe_refl]. apply andb_true_iff in E as [Hma _]. apply (updateSlots_safe w sender sd); try done.
    by apply (lk_role _ (ok_links w Hok) sender _ (vheap_lookup _ _ _ Hsd)). }
  intros _ w1 Hs1. pose proof (proj1 Hs1) as Hok1. assert (Hl1 : live w1 sender) by (apply Hs1; by eexists).
  call (calm_safe _ w1 Hok1); [|intros _ w2 Hs2; by eapply safe_trans]. calms; [by apply send_updates_calm|by apply epochCollision_calm].
Qed.

(** ** Roles of other nodes *)

(** A replica other than this node gets another master. *)
Lemma reattach_spec w x xd m :
  cluster_ok w → w_heap w !! x = Some xd → nodeIsMaster xd = false → nodeIsSlave xd = true → x ≠ c_myself (w_c w) → live w m → m ≠ x → n_slaveof xd ≠ Some m →
  wp (_ ← match n_slaveof xd with Some old => _ ← clusterNodeRemoveSlave old x; mret tt | None => mret tt end;
      _ ← clusterNodeAddSlave m x; _ ← mod_node x (set_slaveof (Some m)); clusterDoBeforeSleep CLUSTER_TODO_SAVE_CONFIG) w (λ _ w', relinked w w').
Proof using Type.
  intros Hok Hx Hma Hsl Hme [md Hm] Hne Hso. pose proof (ok_links w Hok) as Hl. pose proof (vheap_lookup _ _ _ Hx) as Hvx. pose proof (vheap_lookup _ _ _ Hm) as Hvm.
  apply wp_bind. eapply (wp_mono _ _ (λ _ w1, w_c w1 = w_c w ∧ vheap w1 !! x = Some (view xd) ∧ slots_sim (vheap w) (vheap w1) ∧
    links_ok (<[x := set_vrole None false true (view xd)]> (vheap w1)) ∧ ∃ me, vheap w1 !! c_myself (w_c w) = Some me ∧ my_role me)).
  { destruct (n_slaveof xd) as [old|] eqn:Ho.
    - destruct (lk_up _ Hl x _ old Hvx Ho) as (Hox & _ & vo & Hvo & _). destruct (vheap_lookup_inv w old vo Hvo) as (od & Hod & ->).
      apply wp_bind. call (removeSlave_spec w old od x Hod); [apply (lk_nodup _ Hl old _ Hvo)|]. intros _ w1 [Hh Hc]. apply wp_ret. rewrite Hh. split_and!; [done| | | |].
      + by rewrite lookup_insert_ne.
      + eapply slots_sim_insert; [done|]. split_and!; auto.
      + by apply links_detach.
      + apply my_role_slaves; [exact (inv_myself _ _ Hok)|done].
    - apply wp_ret. split_and!; [done|done|apply slots_sim_refl|by apply links_role|exact (inv_myself _ _ Hok)]. }
  intros _ w1 (Hc1 & Hx1 & Hsim1 & Hl1 & me & Hme1 & Hro). destruct (proj1 Hsim1 m _ Hvm) as (vm1 & Hvm1 & _). destruct (vheap_lookup_inv w1 m vm1 Hvm1) as (md1 & Hm1 & ->).
  assert (Hni : x ∉ n_slaves md1).
  { intros Hin. destruct (lk_down _ Hl1 m (view md1) x) as (v & Hv & E); [by rewrite lookup_insert_ne|done|]. rewrite lookup_insert_eq in Hv. by simplify_eq. }
  apply wp_bind. call (addSlave_spec w1 m md1 x Hm1 Hni). intros _ w2 [Hh2 Hc2].
  assert (Hx2 : vheap w2 !! x = Some (view xd)) by (by rewrite Hh2, lookup_insert_ne). destruct (vheap_lookup_inv w2 x _ Hx2) as (xd2 & Hxd2 & Hv2).
  apply wp_bind, (wp_mod_node _ _ _ _ _ Hxd2). call wp_todo. intros _ w3 [Hh3 Hc3].
  assert (Hend : vheap w3 = <[m := set_vslaves (v_slaves (view md1) ++ [x]) (view md1)]> (<[x := set_vrole (Some m) false true (set_vrole None false true (view xd))]>
    (<[x := set_vrole None false true (view xd)]> (vheap w1)))).
  { rewrite Hh3, vheap_insert, Hh2, insert_insert_eq, insert_insert_ne by done. f_equal. f_equal. apply (f_equal v_master) in Hv2 as E1. apply (f_equal v_slave) in Hv2 as E2. cbn in E1, E2.
    rewrite view_set_slaveof, <- Hv2 by congruence. done. }
  apply (relinked_intro _ _ (if decide (m = c_myself (w_c w)) then set_vslaves (v_slaves (view md1) ++ [x]) (view md1) else me)).
  - done.
  - rewrite Hend. eapply slots_sim_trans; [exact Hsim1|]. rewrite insert_insert_eq.
    eapply (slots_sim_trans _ (<[x := set_vrole (Some m) false true (set_vrole None false true (view xd))]> (vheap w1))).
    + eapply slots_sim_insert; [done|]. split_and!; auto.
    + eapply (slots_sim_insert _ m (view md1)); [by rewrite lookup_insert_ne|]. split_and!; auto.
  - rewrite Hend. apply links_attach; [done|by rewrite lookup_insert_eq|done|done|by rewrite lookup_insert_ne|done].
  - rewrite Hend. case_decide as E; [by rewrite E, lookup_insert_eq|]. by rewrite !lookup_insert_ne.
  - case_decide as E; [|done]. rewrite <- E, Hvm1 in Hme1. by simplify_eq.
  - rewrite Hc3. cbn. by rewrite Hc2, Hc1.
Qed.

(** A master other than this node is now a replica: it gives up its slots. *)
Lemma demote_spec w x xd flags :
  cluster_ok w → w_heap w !! x = Some xd → nodeIsMaster xd = true → x ≠ c_myself (w_c w) →
  wp (_ ← clusterDelNodeSlots x; _ ← mod_node x (del_flags (Z.lor CLUSTER_NODE_MASTER CLUSTER_NODE_MIGRATE_TO)); _ ← mod_node x (add_flags CLUSTER_NODE_SLAVE);
      clusterDoBeforeSleep flags) w (λ _ w', safe w w' ∧ ∃ xd', w_heap w' !! x = Some xd' ∧ nodeIsMaster xd' = false ∧ nodeIsSlave xd' = true).
Proof using Type.
  intros Hok Hx Hma Hme. apply wp_bind. call delNodeSlots_spec. intros _ w1 (Hok1 & Hf1 & Hc1). destruct (frame_role _ _ _ _ Hf1 Hx) as (xd1 & Hx1 & Hma1 & _). rewrite Hma in Hma1.
  pose proof (vheap_lookup _ _ _ Hx1) as Hv1. pose proof (ok_links w1 Hok1) as Hl1.
  assert (Hso : n_slaveof xd1 = None).
  { destruct (n_slaveof xd1) as [m|] eqn:E; [|done]. destruct (lk_up _ Hl1 x _ m Hv1 E) as (_ & Hs & _). pose proof (lk_role _ Hl1 x _ Hv1 Hma1). cbn in *. congruence. }
  assert (Hz : n_numslots xd1 = 0).
  { apply (owns_nothing w1 x xd1 Hok1 Hx1). intros j Hj. unfold own. rewrite Hc1, put_slots_get, list_lookup_fmap. destruct (c_slots (w_c w) !! j) as [o|]; [|done]. cbn.
    by case_decide. }
  apply wp_bind, (wp_mod_node _ _ _ _ _ Hx1), wp_bind, (wp_mod_node _ (del_flags (Z.lor CLUSTER_NODE_MASTER CLUSTER_NODE_MIGRATE_TO) xd1)); [apply lookup_insert_eq|].
  cbn [with_heap w_heap w_c]. rewrite insert_insert_eq. set (w2 := with_heap _ _). set (xd2 := add_flags _ _) in *. call wp_todo. intros _ w3 Ha3.
  assert (Hvx : view xd2 = set_vrole None false true (view xd1)) by (unfold xd2; by rewrite view_make_slave, Hso).
  assert (Hh2 : vheap w2 = <[x := set_vrole None false true (view xd1)]> (vheap w1)) by (unfold w2; cbn [with_heap w_heap]; by rewrite fmap_insert, Hvx).
  destruct (frame_core _ _ Hf1) as [_ Hme1]. destruct (inv_myself _ _ Hok1) as (me & Hmv & Hro).
  assert (Hre : relinked w1 w2).
  { apply (relinked_intro _ _ me); [done|rewrite Hh2; eapply slots_sim_insert; [done|split_and!; auto]|rewrite Hh2; by apply links_role| |done|done].
    rewrite Hh2, lookup_insert_ne; [done|]. congruence. }
  destruct (alike_lookup w2 w3 x xd2 Ha3) as (xd3 & Hx3 & Hv3); [apply lookup_insert_eq|]. rewrite Hvx in Hv3. split.
  - eapply safe_trans; [by apply frame_safe|]. eapply safe_trans; [by apply relinked_safe|]. apply kept_safe, alike_kept; [apply Hre|done].
  - exists xd3. split_and!; [done|by apply (f_equal v_master) in Hv3|by apply (f_equal v_slave) in Hv3].
Qed.

Lemma update_role_spec w x xd is_master master :
  cluster_ok w → w_heap w !! x = Some xd → nodeIsMaster xd || nodeIsSlave xd = true → x ≠ c_myself (w_c w) →
  (∀ m, master = Some m → live w m ∧ m ≠ x) → wp (update_role x is_master master) w (λ _ w', safe w w').
Proof using Type.
  intros Hok Hx Hrole Hme Hm. unfold update_role. destruct is_master.
  { call setNodeAsMaster_spec. intros _ w' [Hre _]. by apply relinked_safe. }
  apply wp_bind, (wp_get_node _ _ _ _ Hx), wp_bind.
  eapply (wp_mono _ _ (λ _ w1, safe w w1 ∧ ∃ xd1, w_heap w1 !! x = Some xd1 ∧ nodeIsMaster xd1 = false ∧ nodeIsSlave xd1 = true)).
  { destruct (nodeIsMaster xd) eqn:Hma; [by apply (demote_spec w x xd)|]. apply wp_ret. split; [by apply safe_refl|]. by exists xd. }
  intros _ w1 [Hs1 (xd1 & Hx1 & Hma1 & Hsl1)]. apply wp_bind, (wp_get_node _ _ _ _ Hx1). destruct master as [m|]; [|by apply wp_ret].
  destruct (Hm m eq_refl) as [Hml Hmx]. case_bool_decide as Hso; [by apply wp_ret|].
  call (reattach_spec w1 x xd1 m); [apply Hs1|rewrite (proj1 (proj2 Hs1)); done|by apply Hs1|]. intros _ w2 Hre. eapply safe_trans; [done|by apply relinked_safe].
Qed.
End run.
End ClusterRun.
