(* ===== verification/ClusterNodes.v ===== *)
(** * cluster.c: nodes that join and nodes that are forgotten *)

From S2P Require Import Prelude Zskiplist Cluster ClusterInv ClusterOps ClusterUpdate ClusterCalm ClusterRun.
Import Zskiplist Cluster ClusterInv ClusterOps ClusterUpdate ClusterCalm ClusterRun.

Module ClusterNodes.

#[local] Abbreviation N := (Z.to_nat 16384) (only parsing).

(** ** A new node *)

Lemma inv_add H c n ma sl : inv H c → H !! n = None → (ma = true → sl = false) → inv (<[n := new_view ma sl]> H) (put_nodes (c_nodes c ++ [n]) c).
Proof.
  intros [I1 I2 I3 I4 I5 I6 I7 I8 I9] Hn Hr.
  assert (Hup : ∀ k, is_Some (H !! k) → is_Some (<[n := new_view ma sl]> H !! k)) by (intros k Hk; apply lookup_insert_is_Some'; by right).
  assert (Hne : ∀ k v, H !! k = Some v → n ≠ k) by (intros k v Hk ->; congruence).
  assert (Hno : ∀ j : nat, c_slots c !! j ≠ Some (Some n)). { intros j Hj. destruct (so_owner _ _ I1 j n Hj). congruence. }
  assert (Hn_nodes : n ∉ c_nodes c). { rewrite I5, Hn. by intros []. }
  assert (Hinv : inv (<[n := new_view ma sl]> H) (put_nodes (c_nodes c ++ [n]) c) ↔
    slots_ok (<[n := new_view ma sl]> H) (c_slots c) ∧ links_ok (<[n := new_view ma sl]> H)).
  { split; [intros [A B _ _ _ _ _ _ _]; by destruct c|]. intros [Hs Hl]. destruct c. cbn in *. split; cbn; [done|done|..].
    - destruct I3 as (v & Hv & ?). exists v. by rewrite lookup_insert_ne by eauto.
    - apply NoDup_app. split_and!; [done| |apply NoDup_singleton]. intros x Hx ->%list_elem_of_singleton. done.
    - intros k. rewrite elem_of_app, list_elem_of_singleton, lookup_insert_is_Some', I5. naive_solver.
    - eapply ptrs_sim; [done|auto].
    - eapply ptrs_sim; [done|auto].
    - done.
    - intros k v [[<- <-]|[_ Hk]]%lookup_insert_Some; [split; constructor|]. destruct (I9 k v Hk) as [? Hf]. split; [done|]. eapply Forall_impl; [exact Hf|]. auto. }
  apply Hinv. clear Hinv. split.
  - destruct I1 as [S1 S2 S3]. split; [done|by eauto|]. intros k v [[<- <-]|[_ Hk]]%lookup_insert_Some; [|by apply S3].
    split; cbn; [apply empty_bitmap_ok| |by rewrite owned_absent|done]. intros j Hj. rewrite empty_bitmap_bit. symmetry. by apply bool_decide_eq_false_2.
  - destruct I2 as [L1 L2 L3 L4]. split.
    + intros x vx m [[<- <-]|[_ Hx]]%lookup_insert_Some Hm; [done|]. destruct (L1 x vx m Hx Hm) as (? & ? & vm & Hvm & ?). split_and!; [done|done|].
      exists vm. by rewrite lookup_insert_ne by eauto.
    + intros m vm x [[<- <-]|[_ Hx]]%lookup_insert_Some Hin; [by apply not_elem_of_nil in Hin|]. destruct (L2 m vm x Hx Hin) as (vx & Hvx & ?).
      exists vx. by rewrite lookup_insert_ne by eauto.
    + intros m vm [[<- <-]|[_ Hx]]%lookup_insert_Some; [constructor|by eapply L3].
    + intros x vx [[<- <-]|[_ Hx]]%lookup_insert_Some; [done|by eapply L4].
Qed.

Lemma addNode_spec w n name shard flags :
  cluster_ok w → w_heap w !! n = None → (Z.testbit flags 0 = true → Z.testbit flags 1 = false) →
  wp (_ ← createClusterNode n name shard flags; clusterAddNode n) w (λ _ w', cluster_ok w' ∧ live w' n ∧ (∀ k, live w k → live w' k) ∧ c_myself (w_c w') = c_myself (w_c w)).
Proof.
  intros Hok Hn Hf. assert (Hno : n ∉ c_nodes (w_c w)). { rewrite (inv_nodes _ _ Hok), lookup_fmap, Hn. by intros []. }
  apply wp_bind. unfold createClusterNode, alloc_node. eexists tt, _. split; [by rewrite Hn|]. unfold clusterAddNode. apply wp_bind, wp_gets, wp_bind, wp_assert.
  { by apply bool_decide_eq_true_2. }
  apply wp_modify. split_and!.
  - unfold cluster_ok. cbn [with_state w_heap w_c]. rewrite fmap_insert. pose proof (inv_add (vheap w) (w_c w) n (Z.testbit flags 0) (Z.testbit flags 1) Hok) as Hinv.
    rewrite lookup_fmap, Hn in Hinv. specialize (Hinv eq_refl Hf). unfold view. cbn. rewrite is_master_bit, is_slave_bit. exact Hinv.
  - unfold live. cbn. rewrite lookup_insert_eq. by eexists.
  - intros k Hk. unfold live. cbn. apply lookup_insert_is_Some'. by right.
  - cbn. by destruct (w_c w).
Qed.

(** ** A node is forgotten *)

(** What the other nodes lose with node [n]. *)
Definition forget (n : Z) (v : nview) : nview :=
  NView (v_slots v) (v_numslots v) (filter (.≠ n) (v_slaves v)) (if decide (v_slaveof v = Some n) then None else v_slaveof v)
    (v_master v) (v_slave v) (v_reports v).
Definition unused (n : Z) (l : list (option Z)) : Prop := ∀ j : nat, l !! j ≠ Some (Some n).

Lemma inv_forget H c n :
  inv H c → unused n (c_slots c) → unused n (c_importing_slots_from c) → unused n (c_migrating_slots_to c) →
  (∀ k v, H !! k = Some v → k ≠ n → n ∉ v_reports v) → n ≠ c_myself c → (∀ v, H !! c_myself c = Some v → v_slaveof v ≠ Some n) →
  inv (delete n (forget n <$> H)) (put_nodes (filter (.≠ n) (c_nodes c)) c).
Proof.
  intros [I1 I2 I3 I4 I5 I6 I7 I8 I9] Hu1 Hu2 Hu3 Hrep Hme Hmy.
  assert (Hl : ∀ k v, delete n (forget n <$> H) !! k = Some v → k ≠ n ∧ ∃ v0, H !! k = Some v0 ∧ v = forget n v0).
  { intros k v [Hk Hv]%lookup_delete_Some. rewrite lookup_fmap in Hv. apply fmap_Some in Hv as (v0 & ? & ?). split; [done|]. by exists v0. }
  assert (Hr : ∀ k v, k ≠ n → H !! k = Some v → delete n (forget n <$> H) !! k = Some (forget n v)).
  { intros k v Hk Hv. by rewrite lookup_delete_ne, lookup_fmap, Hv by done. }
  assert (Hs : ∀ k, k ≠ n → is_Some (H !! k) → is_Some (delete n (forget n <$> H) !! k)) by (intros k Hk [v Hv]; rewrite (Hr k v) by done; by eexists).
  assert (Hp : ∀ l, ptrs_ok H l → unused n l → ptrs_ok (delete n (forget n <$> H)) l).
  { intros l [P1 P2] Hu. split; [done|]. intros j k Hj. apply Hs; [intros ->; by apply (Hu j)|by eapply P2]. }
  destruct I1 as [S1 S2 S3], I2 as [L1 L2 L3 L4]. destruct c. cbn in *. split; cbn.
  - split; [done| |].
    + intros j k Hj. apply Hs; [intros ->; by apply (Hu1 j)|by eapply S2].
    + intros k v Hk. destruct (Hl k v Hk) as (_ & v0 & Hv0 & ->). destruct (S3 k v0 Hv0). by split.
  - split.
    + intros x vx m Hx Hm. destruct (Hl x vx Hx) as (Hxn & v0 & Hv0 & ->). cbn in Hm. case_decide as Hd; [done|]. destruct (L1 x v0 m Hv0 Hm) as (? & ? & vm & Hvm & Hin).
      assert (m ≠ n) by congruence. split_and!; [done|done|]. exists (forget n vm). split; [by apply Hr|]. cbn. by apply list_elem_of_filter.
    + intros m vm x Hm Hin. destruct (Hl m vm Hm) as (Hmn & v0 & Hv0 & ->). cbn in Hin. apply list_elem_of_filter in Hin as [Hxn Hin].
      destruct (L2 m v0 x Hv0 Hin) as (vx & Hvx & E). exists (forget n vx). split; [by apply Hr|]. cbn. rewrite decide_False by congruence. done.
    + intros m vm Hm. destruct (Hl m vm Hm) as (_ & v0 & Hv0 & ->). apply NoDup_filter. by eapply L3.
    + intros x vx Hx. destruct (Hl x vx Hx) as (_ & v0 & Hv0 & ->). exact (L4 x v0 Hv0).
  - destruct I3 as (v & Hv & Hro). exists (forget n v). split; [by apply Hr|]. unfold my_role, forget. cbn. rewrite decide_False by auto. done.
  - by apply NoDup_filter.
  - intros k. rewrite list_elem_of_filter, I5. split; [intros [? ?]; auto|]. intros [v Hv]. destruct (Hl k v Hv) as (? & v0 & ? & _). split; [done|by eexists].
  - by apply Hp.
  - by apply Hp.
  - done.
  - intros k v Hk. destruct (Hl k v Hk) as (Hkn & v0 & Hv0 & ->). cbn. destruct (I9 k v0 Hv0) as [Hnd Hf]. split; [done|]. rewrite Forall_forall in *.
    intros x Hx. apply Hs; [|by apply Hf]. intros ->. by apply (Hrep k v0).
Qed.

(** It is enough to change the replicas and the master of [n]. *)
Definition orphan (v : nview) : nview := set_vrole None (v_master v) (v_slave v) v.
Lemma forget_links H n vn k v :
  links_ok H → H !! n = Some vn → k ≠ n → H !! k = Some v →
  forget n v = let v1 := if decide (k ∈ v_slaves vn) then orphan v else v in
               if decide (v_slaveof vn = Some k) then set_vslaves (filter (.≠ n) (v_slaves v1)) v1 else v1.
Proof.
  intros Hl Hn Hk Hv. assert (Hup : v_slaveof v = Some n ↔ k ∈ v_slaves vn).
  { split; [intros E; destruct (lk_up _ Hl k v n Hv E) as (_ & _ & vn' & ? & ?); congruence|].
    intros Hin. destruct (lk_down _ Hl n vn k Hn Hin) as (v' & ? & ?). congruence. }
  assert (Hdown : v_slaveof vn ≠ Some k → filter (.≠ n) (v_slaves v) = v_slaves v).
  { intros Hne. apply filter_absent. intros Hin. destruct (lk_down _ Hl k v n Hv Hin) as (vn' & ? & ?). congruence. }
  unfold forget, orphan. cbv zeta. destruct (decide (v_slaveof v = Some n)), (decide (k ∈ v_slaves vn)); try tauto.
  all: destruct (decide (v_slaveof vn = Some k)) as [|Hd]; [done|]; rewrite (Hdown Hd); by destruct v.
Qed.

(** The node is unlinked from its master and its replicas, and freed. *)
Lemma freeNode_spec w n nd :
  cluster_ok w → w_heap w !! n = Some nd →
  wp (freeClusterNode n) w (λ _ w', vheap w' = delete n (forget n <$> vheap w) ∧ w_c w' = put_nodes (filter (.≠ n) (c_nodes (w_c w))) (w_c w)).
Proof.
  intros Hok Hn. pose proof (ok_links w Hok) as Hl. pose proof (vheap_lookup _ _ _ Hn) as Hv.
  assert (Hself : n ∉ n_slaves nd). { intros Hin. destruct (lk_down _ Hl n _ n Hv Hin) as (v & Hv' & E). by destruct (lk_up _ Hl n v n Hv' E). }
  unfold freeClusterNode. apply wp_bind, (wp_get_node _ _ _ _ Hn), wp_bind.
  pose proof (wp_for_each (λ pre _ w', w_c w' = w_c w ∧ w_heap w' !! n = Some nd ∧ ∀ k, vheap w' !! k = (λ v, if decide (k ∈ pre) then orphan v else v) <$> vheap w !! k)
    (λ x _, mod_node x (set_slaveof None)) (n_slaves nd) [] tt w) as Hloop. cbn [app] in Hloop. eapply wp_mono; [apply Hloop; clear Hloop|clear Hloop; cbv beta].
  { split_and!; [done|done|]. intros k. destruct (vheap w !! k); [|done]. cbn [fmap option_fmap option_map]. by rewrite decide_False by set_solver. }
  { intros pre x post [] w1 E (Hc1 & Hn1 & Hh1). destruct (lk_down _ Hl n _ x Hv) as (vx & Hvx & Hxs); [cbn; rewrite E; set_solver|].
    specialize (Hh1 x) as Hx1. rewrite Hvx in Hx1. cbn [fmap option_fmap option_map] in Hx1. destruct (vheap_lookup_inv w1 x _ Hx1) as (xd & Hxd & Ex). apply (wp_mod_node _ _ _ _ _ Hxd).
    assert (x ≠ n) by (intros ->; apply Hself; rewrite E; set_solver). split_and!; [done|cbn; by rewrite lookup_insert_ne|]. intros k. rewrite vheap_insert.
    destruct (decide (x = k)) as [<-|Hk].
    - rewrite lookup_insert_eq, Hvx. cbn. rewrite decide_True by set_solver. f_equal.
      transitivity (set_vrole None (v_master (view xd)) (v_slave (view xd)) (view xd)); [done|]. rewrite <- Ex. by case_decide.
    - rewrite lookup_insert_ne, Hh1 by done. destruct (vheap w !! k); [|done]. cbn [fmap option_fmap option_map]. f_equal. destruct (decide (k ∈ pre)), (decide (k ∈ pre ++ [x])); set_solver. }
  intros _ w1 (Hc1 & Hn1 & Hh1). apply wp_bind, (wp_get_node _ _ _ _ Hn1), wp_bind.
  eapply (wp_mono _ _ (λ _ w2, w_c w2 = w_c w ∧ is_Some (w_heap w2 !! n) ∧ ∀ k, k ≠ n → vheap w2 !! k = forget n <$> vheap w !! k)).
  { assert (Hno : n_slaveof nd = None → ∀ k, k ≠ n → vheap w1 !! k = forget n <$> vheap w !! k).
    { intros Hso k Hk. rewrite Hh1. destruct (vheap w !! k) as [v|] eqn:Hvk; [|done]. cbn [fmap option_fmap option_map]. f_equal.
      rewrite (forget_links (vheap w) n (view nd) k v Hl Hv Hk Hvk). cbv zeta. rewrite (decide_False (P := v_slaveof (view nd) = Some k)); [done|]. cbn. by rewrite Hso. }
    destruct (n_slaveof nd) as [m|] eqn:Hso; [|apply wp_ret; split_and!; [done|by eexists|auto]]. clear Hno.
    destruct (lk_up _ Hl n _ m Hv Hso) as (Hmn & Hsl & vm & Hvm & _). cbn in Hsl. rewrite Hsl. specialize (Hh1 m) as Hm1. rewrite Hvm in Hm1. cbn [fmap option_fmap option_map] in Hm1.
    destruct (vheap_lookup_inv w1 m _ Hm1) as (md1 & Hmd1 & E1). apply wp_bind. call (removeSlave_spec w1 m md1 n Hmd1).
    { assert (E : n_slaves md1 = v_slaves vm) by (apply (f_equal v_slaves) in E1; cbn in E1; rewrite <- E1; by case_decide). rewrite E. by apply (lk_nodup _ Hl m). }
    intros _ w2 [Hh2 Hc2]. apply wp_ret. split_and!; [congruence| |].
    - apply vheap_is_Some. rewrite Hh2, lookup_insert_ne by done. apply vheap_is_Some. by eexists.
    - intros k Hk. rewrite Hh2. destruct (vheap w !! k) as [v|] eqn:Hvk.
      2:{ rewrite lookup_insert_ne by congruence. by rewrite Hh1, Hvk. }
      cbn [fmap option_fmap option_map]. rewrite (forget_links (vheap w) n (view nd) k v Hl Hv Hk Hvk). cbv zeta. cbn [view v_slaveof v_slaves]. rewrite Hso.
      destruct (decide (k = m)) as [->|Hkm]; [rewrite lookup_insert_eq; simplify_eq; rewrite decide_True by done; by rewrite E1|].
      rewrite lookup_insert_ne, Hh1, Hvk by done. cbn [fmap option_fmap option_map]. by rewrite (decide_False (P := Some m = Some k)) by congruence. }
  intros _ w2 (Hc2 & [nd2 Hn2] & Hh2). apply wp_bind, wp_gets, wp_bind, wp_assert.
  { apply bool_decide_eq_true_2. rewrite Hc2, (inv_nodes _ _ Hok). by eexists. }
  apply wp_bind, wp_modify. unfold dealloc_node. eexists tt, _. split; [cbn; by rewrite Hn2|]. split; [|cbn; by rewrite Hc2]. cbn [w_heap with_state].
  apply map_eq. intros k. rewrite fmap_delete. destruct (decide (k = n)) as [->|Hk]; [by rewrite !lookup_delete_eq|].
  rewrite !lookup_delete_ne, Hh2 by done. symmetry. apply lookup_fmap.
Qed.

Lemma ptrs_insert H l j o : ptrs_ok H l → (∀ n, o = Some n → is_Some (H !! n)) → ptrs_ok H (<[j := o]> l).
Proof.
  intros [P1 P2] Ho. split; [by rewrite length_insert|]. intros i k Hi. apply list_lookup_insert_Some in Hi as [(_ & ? & _)|[_ Hi]]; [by apply Ho|by eapply P2].
Qed.
Lemma set_importing w j o : cluster_ok w → (∀ n, o = Some n → live w n) →
  cluster_ok (with_state w (put_importing_slots_from (<[j := o]> (c_importing_slots_from (w_c w))) (w_c w))).
Proof.
  intros [I1 I2 I3 I4 I5 I6 I7 I8 I9] Ho. unfold cluster_ok. cbn [with_state w_heap w_c]. destruct (w_c w). split; try done.
  apply ptrs_insert; [done|]. intros n Hn. apply vheap_is_Some. by apply Ho.
Qed.
Lemma set_migrating w j o : cluster_ok w → (∀ n, o = Some n → live w n) →
  cluster_ok (with_state w (put_migrating_slots_to (<[j := o]> (c_migrating_slots_to (w_c w))) (w_c w))).
Proof.
  intros [I1 I2 I3 I4 I5 I6 I7 I8 I9] Ho. unfold cluster_ok. cbn [with_state w_heap w_c]. destruct (w_c w). split; try done.
  apply ptrs_insert; [done|]. intros n Hn. apply vheap_is_Some. by apply Ho.
Qed.

(** The first [k] entries of a table do not mention [n]. *)
Definition unused_to (n : Z) (k : nat) (l : list (option Z)) : Prop := ∀ j, (j < k)%nat → l !! j ≠ Some (Some n).
Lemma unused_to_S n k l : unused_to n k l → l !! k ≠ Some (Some n) → unused_to n (S k) l.
Proof. intros Hu Hk j Hj. destruct (decide (j = k)) as [->|]; [done|]. apply Hu. lia. Qed.
Lemma unused_to_drop n k j l : unused_to n k l → unused_to n k (<[j := None]> l).
Proof. intros Hu i Hi E. apply list_lookup_insert_Some in E as [(_ & ? & _)|[_ E]]; [done|]. by apply (Hu i). Qed.
Lemma unused_drop_S n k l : unused_to n k l → unused_to n (S k) (<[k := None]> l).
Proof. intros Hu. apply unused_to_S; [by apply unused_to_drop|]. intros E. apply list_lookup_insert_Some in E as [(_ & ? & _)|[? _]]; done. Qed.

(** The tables without [n] up to slot [k]; the nodes keep their links. *)
Record cleared (w0 : world) (n : Z) (k : nat) (w : world) : Prop := {
  cl_ok : cluster_ok w;
  cl_heap : node_rest <$> w_heap w0 = node_rest <$> w_heap w;
  cl_me : c_myself (w_c w) = c_myself (w_c w0);
  cl_nodes : c_nodes (w_c w) = c_nodes (w_c w0);
  cl_imp : unused_to n k (c_importing_slots_from (w_c w));
  cl_mig : unused_to n k (c_migrating_slots_to (w_c w));
  cl_slots : unused_to n k (c_slots (w_c w));
}.

Section del.
Context (clock : nat → Z) (server : server_t) (w0 : world) (n : Z).

Lemma clear_slot_spec (j : nat) w : (j < N)%nat → cleared w0 n j w →
  wp (imp ← gets c_importing_slots_from; i ← entry_of imp (Z.of_nat j);
      _ ← (if bool_decide (i = Some n) then modify (put_importing_slots_from (<[Z.to_nat (Z.of_nat j) := None]> imp)) else mret tt);
      mig ← gets c_migrating_slots_to; m ← entry_of mig (Z.of_nat j);
      _ ← (if bool_decide (m = Some n) then modify (put_migrating_slots_to (<[Z.to_nat (Z.of_nat j) := None]> mig)) else mret tt);
      o ← slot_owner (Z.of_nat j);
      if bool_decide (o = Some n) then _ ← clusterDelSlot (Z.of_nat j); mret tt else mret tt) w (λ _ w', cleared w0 n (S j) w').
Proof using Type.
  intros Hj [C1 C2 C3 C4 C5 C6 C7]. rewrite !Nat2Z.id. destruct (lookup_lt_is_Some_2 (c_importing_slots_from (w_c w)) j) as [i Hi]; [by rewrite (proj1 (inv_importing _ _ C1))|].
  apply wp_bind, wp_gets, wp_bind, (entry_of_spec _ j i); [done|]. apply wp_bind.
  eapply (wp_mono _ _ (λ _ w1, cluster_ok w1 ∧ w_heap w1 = w_heap w ∧ c_myself (w_c w1) = c_myself (w_c w) ∧ c_nodes (w_c w1) = c_nodes (w_c w) ∧
    unused_to n (S j) (c_importing_slots_from (w_c w1)) ∧ c_migrating_slots_to (w_c w1) = c_migrating_slots_to (w_c w) ∧ c_slots (w_c w1) = c_slots (w_c w))).
  { case_bool_decide as E.
    - apply wp_modify. split_and!; [by apply set_importing|done|..]; cbn; destruct (w_c w); try done. by apply unused_drop_S.
    - apply wp_ret. split_and!; try done. apply unused_to_S; [done|]. rewrite Hi. congruence. }
  intros _ w1 (D1 & D2 & D3 & D4 & D5 & D6 & D7). destruct (lookup_lt_is_Some_2 (c_migrating_slots_to (w_c w1)) j) as [m Hm]; [by rewrite (proj1 (inv_migrating _ _ D1))|].
  apply wp_bind, wp_gets, wp_bind, (entry_of_spec _ j m); [done|]. apply wp_bind.
  eapply (wp_mono _ _ (λ _ w2, cluster_ok w2 ∧ w_heap w2 = w_heap w ∧ c_myself (w_c w2) = c_myself (w_c w) ∧ c_nodes (w_c w2) = c_nodes (w_c w) ∧
    unused_to n (S j) (c_importing_slots_from (w_c w2)) ∧ unused_to n (S j) (c_migrating_slots_to (w_c w2)) ∧ c_slots (w_c w2) = c_slots (w_c w))).
  { rewrite <- D6 in C6. case_bool_decide as E.
    - apply wp_modify. split_and!; [by apply set_migrating|done|..]; cbn; destruct (w_c w1); try done. by apply unused_drop_S.
    - apply wp_ret. split_and!; try done. apply unused_to_S; [done|]. rewrite Hm. congruence. }
  intros _ w2 (E1 & E2 & E3 & E4 & E5 & E6 & E7). destruct (ok_slot w2 j E1 Hj) as [o Ho]. apply wp_bind, (slot_owner_spec j o); [done|]. rewrite <- E7 in C7.
  case_bool_decide as E.
  - apply wp_bind. call delSlot_spec. intros _ w3 (_ & F1 & F2 & F3). apply wp_ret. destruct (frame_core _ _ F2) as [F4 F5]. split; [done| |congruence|congruence|..].
    + rewrite <- (fr_heap _ _ F2). by rewrite E2.
    + rewrite F3. by destruct (w_c w2).
    + rewrite F3. by destruct (w_c w2).
    + rewrite F3, put_slots_get. by apply unused_drop_S.
  - apply wp_ret. split; try congruence; try done. apply unused_to_S; [done|]. rewrite Ho. congruence.
Qed.

(** No failure report of [n] is left in node [k]. *)
Definition no_report (w : world) (k : Z) : Prop := ∀ nd, w_heap w !! k = Some nd → n ∉ (n_fail_reports nd).*1.
Lemma wp_and {A} (m : M A) w (Q Q' : A → world → Prop) : wp m w Q → wp m w Q' → wp m w (λ a w', Q a w' ∧ Q' a w').
Proof using Type. intros (a & w1 & E & HQ) (a' & w1' & E' & HQ'). exists a, w1. rewrite E in E'. by injection E' as <- <-. Qed.

Lemma delReport_removes w k kd :
  w_heap w !! k = Some kd → NoDup (n_fail_reports kd).*1 →
  wp (clusterNodeDelFailureReport clock server k n) w (λ _ w', no_report w' k ∧ ∀ x, x ≠ k → w_heap w' !! x = w_heap w !! x).
Proof using Type.
  intros Hk Hnd. unfold clusterNodeDelFailureReport. apply wp_bind, (wp_get_node _ _ _ _ Hk). destruct (list_find _ _) as [[i fr]|] eqn:Hfind.
  - apply wp_bind, (wp_mod_node _ _ _ _ _ Hk). apply wp_bind. unfold clusterNodeCleanupFailureReports.
    apply wp_bind, (wp_get_node _ (set_fail_reports (delete i (n_fail_reports kd)) kd)); [apply lookup_insert_eq|].
    cbv zeta. apply wp_bind. eexists _, _. split; [done|]. eapply wp_mod_node; [apply lookup_insert_eq|]. apply wp_ret. cbn [w_heap with_heap n_fail_reports set_fail_reports].
    rewrite insert_insert_eq. split; [|intros x Hx; by rewrite lookup_insert_ne]. intros nd. cbn [w_heap with_heap]. rewrite lookup_insert_eq. intros [= <-]. cbn.
    intros (fr' & E & [_ Hin]%list_elem_of_filter)%list_elem_of_fmap. apply list_find_Some in Hfind as (Hi & Efr & _).
    apply list_elem_of_lookup in Hin as [j Hj]. assert (Hj' : ∃ j', j' ≠ i ∧ n_fail_reports kd !! j' = Some fr').
    { destruct (decide (j < i)%nat); [exists j; rewrite list_lookup_delete_lt in Hj by lia; split; [lia|done]|].
      exists (S j). rewrite list_lookup_delete_ge in Hj by lia. split; [lia|done]. }
    destruct Hj' as (j' & Hne & Hj'). apply Hne. eapply (NoDup_lookup (n_fail_reports kd).*1); [done|by rewrite list_lookup_fmap, Hj'|]. by rewrite list_lookup_fmap, Hi, <- E, <- Efr.
  - apply wp_ret. split; [|done]. intros nd Hnd'. simplify_eq. apply list_find_None in Hfind. rewrite Forall_forall in Hfind.
    intros (fr & -> & Hin)%list_elem_of_fmap. by apply (Hfind fr).
Qed.

Lemma del_reports_spec w : cluster_ok w →
  wp (for_each (λ k _, if k =? n then mret tt else _ ← clusterNodeDelFailureReport clock server k n; mret tt) (c_nodes (w_c w)) tt) w
    (λ _ w', steady w w' ∧ ∀ k, k ∈ c_nodes (w_c w) → k ≠ n → no_report w' k).
Proof using Type.
  intros Hok. pose proof (wp_for_each (λ pre _ w', steady w w' ∧ ∀ k, k ∈ pre → k ≠ n → no_report w' k)
    (λ k _, if k =? n then mret tt else _ ← clusterNodeDelFailureReport clock server k n; mret tt) (c_nodes (w_c w)) [] tt w) as Hloop.
  apply Hloop; clear Hloop; [split; [by apply steady_refl|set_solver]|]. cbn [app]. intros pre k post [] w1 E [Hs Hno].
  destruct (Z.eqb_spec k n) as [->|Hkn]; [apply wp_ret; split; [done|]; set_solver|]. apply wp_bind.
  assert (Hl : live w k) by (apply live_nodes; [done|]; rewrite E; set_solver). pose proof (proj2 (steady_live w w1 k Hs) Hl) as [kd Hkd].
  eapply wp_mono; [apply wp_and; [by apply (delReport_calm clock server w k n Hl w1)|apply (delReport_removes w1 k kd Hkd), (steady_seen _ _ _ _ Hs Hkd)]|].
  cbv beta. intros _ w2 (Hs2 & Hk2 & Hother). apply wp_ret. split; [done|]. intros x Hx Hxn. destruct (decide (x = k)) as [->|Hxk]; [done|].
  intros nd. rewrite Hother by done. apply Hno; set_solver.
Qed.

(** Forgetting a node that is not this node or its master. *)
Lemma delNode_spec :
  cluster_ok w0 → live w0 n → n ≠ c_myself (w_c w0) → slaveof w0 (c_myself (w_c w0)) ≠ Some n →
  wp (clusterDelNode clock server n) w0 (λ _ w', cluster_ok w' ∧ (∀ k, live w' k ↔ live w0 k ∧ k ≠ n) ∧ c_myself (w_c w') = c_myself (w_c w0) ∧
    slaveof w' (c_myself (w_c w0)) = slaveof w0 (c_myself (w_c w0))).
Proof using Type.
  intros Hok Hl Hme Hmy. unfold clusterDelNode. apply wp_bind. eapply wp_mono; [apply (wp_all_slots (λ k _ w, cleared w0 n k w))|cbv beta].
  { split; [done..| | |]; intros j Hj; lia. }
  { intros j [] w Hj Hc. by apply clear_slot_spec. }
  intros _ w1 [C1 C2 C3 C4 C5 C6 C7]. apply wp_bind, wp_gets, wp_bind. call del_reports_spec. intros _ w2 [Hs2 Hno].
  assert (Hlive : ∀ k, live w2 k ↔ live w0 k).
  { intros k. rewrite (steady_live w1 w2 k Hs2). unfold live. by rewrite <- (fmap_is_Some node_rest), <- lookup_fmap, <- C2, lookup_fmap, fmap_is_Some. }
  pose proof Hl as Hl2. rewrite <- Hlive in Hl2. destruct Hl2 as [nd Hn]. apply wp_bind. call removeFromShard_spec. intros _ w3 [Hh3 Ha3].
  assert (Hok3 : cluster_ok w3) by (eapply alike_ok; [done|apply Hs2]). call (freeNode_spec w3 n nd); [by rewrite Hh3|]. intros _ w4 [Hh4 Hc4].
  assert (Hcore : core (w_c w3) = core (w_c w1)) by (rewrite (proj2 Ha3); apply Hs2). unfold core in Hcore. injection Hcore as D1 D2 D3 D4 D5 D6.
  assert (Hu : ∀ l : list (option Z), length l = N → unused_to n N l → unused n l).
  { intros l Hlen Hun j E. pose proof (lookup_lt_Some _ _ _ E). apply (Hun j); [lia|done]. }
  assert (Hsm : ∀ v, vheap w3 !! c_myself (w_c w0) = Some v → v_slaveof v = slaveof w0 (c_myself (w_c w0))).
  { intros v Hv. rewrite Hh3 in Hv. destruct (vheap_lookup_inv w2 _ v Hv) as (md & Hmd & ->). destruct (steady_seen _ _ _ _ Hs2 Hmd) as [(v1 & Hv1 & E) _].
    destruct (vheap_lookup_inv w1 _ v1 Hv1) as (md1 & Hmd1 & ->). apply (f_equal v_slaveof) in E. cbn in E. cbn. rewrite E.
    assert (Hfr : frame w1 (World (w_heap w0) (w_c w1) 0 0 [])) by (by split). transitivity (slaveof w1 (c_myself (w_c w0))); [unfold slaveof; by rewrite Hmd1|].
    by rewrite <- (frame_slaveof _ _ _ Hfr). }
  split_and!.
  - unfold cluster_ok. rewrite Hh4, Hc4. apply inv_forget; [exact Hok3|..].
    + rewrite D3. apply Hu; [apply (inv_slots _ _ C1)|done].
    + rewrite D4. apply Hu; [apply (inv_importing _ _ C1)|done].
    + rewrite D5. apply Hu; [apply (inv_migrating _ _ C1)|done].
    + intros k v Hk Hkn. rewrite Hh3 in Hk. destruct (vheap_lookup_inv w2 k v Hk) as (kd & Hkd & ->). cbn. apply (Hno k); [|done|done].
      rewrite C4, (inv_nodes _ _ Hok), vheap_is_Some. apply Hlive. by eexists.
    + congruence.
    + intros v. rewrite D1, C3. intros Hv. by rewrite (Hsm v Hv).
  - intros k. unfold live. rewrite <- vheap_is_Some, Hh4. rewrite <- (vheap_is_Some w0), vheap_is_Some. fold (live w0 k). rewrite <- Hlive. unfold live. rewrite <- Hh3, <- (vheap_is_Some w3).
    destruct (decide (k = n)) as [->|Hk]; [rewrite lookup_delete_eq; split; [by intros []|tauto]|]. rewrite lookup_delete_ne by done.
    rewrite (lookup_fmap (forget n)), fmap_is_Some. tauto.
  - rewrite Hc4. transitivity (c_myself (w_c w3)); [by destruct (w_c w3)|congruence].
  - destruct (inv_myself _ _ Hok3) as (v & Hv & _). rewrite D1, C3 in Hv. pose proof (Hsm v Hv) as E.
    assert (Hv4 : vheap w4 !! c_myself (w_c w0) = Some (forget n v)) by (rewrite Hh4, lookup_delete_ne by done; rewrite (lookup_fmap (forget n)), Hv; done).
    rewrite (vheap_slaveof _ _ _ Hv4). cbn. rewrite E. by rewrite decide_False.
Qed.
End del.
End ClusterNodes.
