(* ===== verification/ClusterCmd.v ===== *)
(** * cluster.c: periodic work, manual failover and the CLUSTER command

    The handlers that [clusterCron], [clusterBeforeSleep] and [clusterCommand]
    run on the state of Cluster.v.  The arguments of a command are byte strings;
    a node that is named in an argument is given as the result of
    [clusterLookupNode]. *)

From S2P Require Import Prelude Util Zskiplist Cluster.
Import Util Zskiplist Cluster.

Module ClusterCmd.

Definition CLUSTER_MF_TIMEOUT : Z := 5000.
Definition CLUSTER_MF_PAUSE_MULT : Z := 2.
Definition CLUSTER_SLAVE_MIGRATION_DELAY : Z := 5000.

(** ** Start *)

(** The state before a node has been made; [sent] stands for
    [failover_auth_sent], which is not initialised. *)
Definition blank (me : addr) (sent : bool) : clusterState :=
  let none := replicate (Z.to_nat CLUSTER_SLOTS) None in
  ClusterState me 0 CLUSTER_FAIL 1 [] ∅ none none none 0 0 sent 0 0 0 None (-1) false 0 0 (replicate (Z.to_nat (CLUSTER_SLOTS / 8)) 0) 0 0.
Definition clusterUpdateMyselfFlags (server : server_t) : M unit :=
  myself ← gets c_myself;
  md ← get_node myself;
  let oldflags := n_flags md in
  let nofailover := if cluster_slave_no_failover server then CLUSTER_NODE_NOFAILOVER else 0 in
  _ ← mod_node myself (del_flags CLUSTER_NODE_NOFAILOVER);
  _ ← mod_node myself (add_flags nofailover);
  md ← get_node myself;
  if negb (n_flags md =? oldflags) then clusterDoBeforeSleep (Z.lor CLUSTER_TODO_SAVE_CONFIG CLUSTER_TODO_UPDATE_STATE) else mret tt.
(** [clusterInit] without a configuration file: this node is at [me], its name
    and shard are random. *)
Definition clusterInit (server : server_t) (me : addr) (name shard : list Z) (sent : bool) : option world :=
  '(_, w) ← (_ ← clusterCloseAllSlots;
             _ ← createClusterNode me name shard (Z.lor CLUSTER_NODE_MYSELF CLUSTER_NODE_MASTER);
             _ ← clusterAddNode me;
             _ ← clusterAddNodeToShard shard me;
             _ ← emit EffSaveConfig;
             _ ← resetManualFailover;
             clusterUpdateMyselfFlags server) (World ∅ (blank me sent) 0 0 []);
  Some w.

Section cmd.
Context (clock randoms : nat → Z) (server : server_t).
#[local] Abbreviation mstime := (mstime clock).

(** ** Gossip and time outs *)

(** What a gossip entry about a known node does with failure reports. *)
Definition gossip_report (sender : option addr) (node : addr) (flags : Z) : M unit :=
  match sender with
  | None => mret tt
  | Some s =>
      sd ← get_node s;
      myself ← gets c_myself;
      if nodeIsMaster sd && negb (node =? myself) then
        if negb (Z.land flags (Z.lor CLUSTER_NODE_FAIL CLUSTER_NODE_PFAIL) =? 0) then
          _ ← clusterNodeAddFailureReport clock node s;
          markNodeAsFailingIfNeeded clock server node
        else _ ← clusterNodeDelFailureReport clock server node s; mret tt
      else mret tt
  end.

(** A PING, PONG or MEET carries the flags of its sender. *)
Definition sender_nofailover (sender flags : Z) : M unit :=
  let nofailover := Z.land flags CLUSTER_NODE_NOFAILOVER in
  _ ← mod_node sender (del_flags CLUSTER_NODE_NOFAILOVER);
  mod_node sender (add_flags nofailover).

(** A PONG of a node on our link to it. *)
Definition pong_node (node : addr) : M unit :=
  nd ← get_node node;
  if nodeTimedOut nd then
    _ ← mod_node node (del_flags CLUSTER_NODE_PFAIL);
    clusterDoBeforeSleep (Z.lor CLUSTER_TODO_SAVE_CONFIG CLUSTER_TODO_UPDATE_STATE)
  else if nodeFailed nd then clearNodeFailureIfNeeded clock server node
  else mret tt.

(** [clusterCron] for a node that did not answer in time; the result is
    [update_state]. *)
Definition node_timed_out (node : addr) : M bool :=
  nd ← get_node node;
  if Z.land (n_flags nd) (Z.lor CLUSTER_NODE_PFAIL CLUSTER_NODE_FAIL) =? 0
  then _ ← mod_node node (add_flags CLUSTER_NODE_PFAIL); mret true else mret false.

(** ** Manual failover *)

Definition manualFailoverCheckTimeout : M unit :=
  mf_end ← gets c_mf_end;
  if negb (mf_end =? 0) then t ← mstime; (if mf_end <? t then resetManualFailover else mret tt) else mret tt.

Definition clusterHandleManualFailover : M unit :=
  mf_end ← gets c_mf_end;
  mf_can_start ← gets c_mf_can_start;
  mf_master_offset ← gets c_mf_master_offset;
  if mf_end =? 0 then mret tt
  else if (mf_can_start : bool) then mret tt
  else if mf_master_offset =? -1 then mret tt
  else if mf_master_offset =? replicationGetSlaveOffset server then
    _ ← modify (λ c, put_mf (c_mf_end c) (c_mf_slave c) (c_mf_master_offset c) true c);
    clusterDoBeforeSleep CLUSTER_TODO_HANDLE_FAILOVER
  else clusterDoBeforeSleep CLUSTER_TODO_HANDLE_MANUALFAILOVER.

(** [CLUSTERMSG_TYPE_MFSTART] *)
Definition process_mfstart (sender now : Z) : M unit :=
  sd ← get_node sender;
  myself ← gets c_myself;
  if negb (bool_decide (n_slaveof sd = Some myself)) then mret tt
  else
    _ ← resetManualFailover;
    _ ← modify (λ c, put_mf (now + CLUSTER_MF_TIMEOUT) (Some sender) (c_mf_master_offset c) (c_mf_can_start c) c);
    _ ← emit (EffPauseActions (now + CLUSTER_MF_TIMEOUT * CLUSTER_MF_PAUSE_MULT));
    emit (EffSendPing sender).

(** ** Replica migration *)

(** The loop over the nodes: [target] and [candidate]. *)
Definition migration_node (max_slaves : Z) (node : addr) (acc : option addr * addr) : M (option addr * addr) :=
  let '(target, candidate) := acc in
  nd ← get_node node;
  okslaves ← (if nodeIsMaster nd then clusterCountNonFailingSlaves node else mret 0);
  let is_orphaned :=
    negb (nodeIsSlave nd || nodeFailed nd) && negb (Z.land (n_flags nd) CLUSTER_NODE_MIGRATE_TO =? 0) && negb (okslaves >? 0) in
  target ← (if is_orphaned then
              let target := match target with None => if n_numslots nd >? 0 then Some node else None | Some t => Some t end in
              _ ← (if n_orphaned_time nd =? 0 then t ← mstime; mod_node node (set_orphaned_time t) else mret tt);
              mret target
            else _ ← mod_node node (set_orphaned_time 0); mret target);
  candidate ← (if okslaves =? max_slaves then
                 for_each (λ x candidate,
                   xd ← get_node x;
                   cd ← get_node candidate;
                   mret (if memcmp (n_name xd) (n_name cd) CLUSTER_NAMELEN <? 0 then x else candidate)) (n_slaves nd) candidate
               else mret candidate);
  mret (target, candidate).

Definition clusterHandleSlaveMigration (max_slaves : Z) : M unit :=
  myself ← gets c_myself;
  md ← get_node myself;
  state ← gets c_state;
  if negb (state =? CLUSTER_OK) then mret tt
  else
    match n_slaveof md with
    | None => mret tt
    | Some mymaster =>
        mmd ← get_node mymaster;
        okslaves ← for_each (λ x okslaves, xd ← get_node x; mret (if negb (nodeFailed xd) && negb (nodeTimedOut xd) then okslaves + 1 else okslaves)) (n_slaves mmd) 0;
        if okslaves <=? cluster_migration_barrier server then mret tt
        else
          nodes ← gets c_nodes;
          r ← for_each (migration_node max_slaves) nodes (None, myself);
          let '(target, candidate) := r in
          match target with
          | None => mret tt
          | Some t =>
              if candidate =? myself then
                now ← mstime;
                td ← get_node t;
                if (now - n_orphaned_time td >? CLUSTER_SLAVE_MIGRATION_DELAY) && negb (cluster_module_no_failover server)
                then clusterSetMaster t else mret tt
              else mret tt
          end
    end.

(** The end of [clusterCron]: what it found about the nodes decides about a
    migration. *)
Definition cron_failover (migrate : option Z) (update_state : bool) : M unit :=
  _ ← manualFailoverCheckTimeout;
  myself ← gets c_myself;
  md ← get_node myself;
  _ ← (if nodeIsSlave md then
         _ ← clusterHandleManualFailover;
         _ ← (if cluster_module_no_failover server then mret tt else clusterHandleSlaveFailover clock randoms server);
         match migrate with
         | Some max_slaves => if cluster_allow_replica_migration server then clusterHandleSlaveMigration max_slaves else mret tt
         | None => mret tt
         end
       else mret tt);
  state ← gets c_state;
  if update_state || (state =? CLUSTER_FAIL) then clusterUpdateState clock server else mret tt.

Definition clusterBeforeSleep : M unit :=
  flags ← gets c_todo_before_sleep;
  _ ← modify (put_todo_before_sleep 0);
  myself ← gets c_myself;
  md ← get_node myself;
  _ ← (if negb (Z.land flags CLUSTER_TODO_HANDLE_MANUALFAILOVER =? 0) then
         if nodeIsSlave md then
           _ ← clusterHandleManualFailover;
           if cluster_module_no_failover server then mret tt else clusterHandleSlaveFailover clock randoms server
         else mret tt
       else if negb (Z.land flags CLUSTER_TODO_HANDLE_FAILOVER =? 0) then clusterHandleSlaveFailover clock randoms server
       else mret tt);
  _ ← (if negb (Z.land flags CLUSTER_TODO_UPDATE_STATE =? 0) then clusterUpdateState clock server else mret tt);
  if negb (Z.land flags CLUSTER_TODO_SAVE_CONFIG =? 0) then emit EffSaveConfig else mret tt.

(** ** Assigning slots *)

(** The error replies. *)
Inductive error :=
  | ErrInvalidSlot
  | ErrUnassigned (slot : Z)
  | ErrBusy (slot : Z)
  | ErrTwice (slot : Z)
  | ErrArity
  | ErrStartEnd
  | ErrOnlyMasters
  | ErrNotOwner
  | ErrAlreadyOwner
  | ErrUnknownNode
  | ErrTargetNotMaster
  | ErrHasKeys
  | ErrDbNotEmpty
  | ErrForgetMyself
  | ErrForgetMaster
  | ErrReplicateMyself
  | ErrReplicateSlave
  | ErrNotEmpty
  | ErrFailoverMaster
  | ErrMasterUnknown
  | ErrMasterDown
  | ErrNotInteger
  | ErrEpochNegative
  | ErrKnowsNodes
  | ErrEpochSet.
Inductive reply := ReplyOk | ReplyError (e : error).

Definition getSlotOrReply (o : list Z) : option Z :=
  slot ← string2ll o; if (slot <? 0) || (slot >=? CLUSTER_SLOTS) then None else Some slot.

(** The slots [js] are counted in [slots]; the first problem is the result. *)
Fixpoint checkSlotAssignmentsOrReply (js : list Z) (slots : list Z) (del : bool) : M (error + list Z) :=
  match js with
  | [] => mret (inr slots)
  | slot :: js =>
      o ← slot_owner slot;
      if del && bool_decide (o = None) then mret (inl (ErrUnassigned slot))
      else if negb del && bool_decide (o ≠ None) then mret (inl (ErrBusy slot))
      else
        v ← lift (load8 slots slot);
        if v =? 1 then mret (inl (ErrTwice slot))
        else slots ← lift (store slots slot [u8 (v + 1)]); checkSlotAssignmentsOrReply js slots del
  end.

Definition clusterUpdateSlots (slots : list Z) (del : bool) : M unit :=
  for_each (λ j _,
    v ← lift (load8 slots j);
    if negb (v =? 0) then
      imp ← gets c_importing_slots_from;
      i ← entry_of imp j;
      _ ← match i with Some _ => modify (put_importing_slots_from (<[Z.to_nat j := None]> imp)) | None => mret tt end;
      myself ← gets c_myself;
      retval ← (if del then clusterDelSlot j else clusterAddSlot myself j);
      serverAssert retval
    else mret tt) all_slots tt.

(** The end of the four commands. *)
Definition assign_slots (r : error + list Z) (del : bool) : M reply :=
  match r with
  | inl e => mret (ReplyError e)
  | inr slots =>
      _ ← clusterUpdateSlots slots del;
      _ ← clusterDoBeforeSleep (Z.lor CLUSTER_TODO_UPDATE_STATE CLUSTER_TODO_SAVE_CONFIG);
      mret ReplyOk
  end.

(** CLUSTER ADDSLOTS and DELSLOTS: all the arguments are parsed first, then
    checked one by one. *)
Definition cluster_addslots (args : list (list Z)) (del : bool) : M reply :=
  match mapM getSlotOrReply args with
  | None => mret (ReplyError ErrInvalidSlot)
  | Some slots => r ← checkSlotAssignmentsOrReply slots (replicate (Z.to_nat CLUSTER_SLOTS) 0) del; assign_slots r del
  end.

(** CLUSTER ADDSLOTSRANGE and DELSLOTSRANGE: a range is checked before the
    next one is parsed. *)
Fixpoint parse_ranges (args : list (list Z)) (slots : list Z) (del : bool) : M (error + list Z) :=
  match args with
  | a :: b :: args =>
      match getSlotOrReply a, getSlotOrReply b with
      | Some startslot, Some endslot =>
          if startslot >? endslot then mret (inl ErrStartEnd)
          else
            r ← checkSlotAssignmentsOrReply (seqZ startslot (endslot - startslot + 1)) slots del;
            match r with inl e => mret (inl e) | inr slots => parse_ranges args slots del end
      | _, _ => mret (inl ErrInvalidSlot)
      end
  | _ => mret (inr slots)
  end.
Definition cluster_addslotsrange (args : list (list Z)) (del : bool) : M reply :=
  if Nat.odd (length args) then mret (ReplyError ErrArity)
  else
    r ← parse_ranges args (replicate (Z.to_nat CLUSTER_SLOTS) 0) del; assign_slots r del.

(** [dbsize] is the number of keys of database 0. *)
Definition cluster_flushslots (dbsize : Z) : M reply :=
  if negb (dbsize =? 0) then mret (ReplyError ErrDbNotEmpty)
  else
    myself ← gets c_myself;
    _ ← clusterDelNodeSlots myself;
    _ ← clusterDoBeforeSleep (Z.lor CLUSTER_TODO_UPDATE_STATE CLUSTER_TODO_SAVE_CONFIG);
    mret ReplyOk.

(** ** CLUSTER SETSLOT *)

Inductive setslot_action :=
  | SetMigrating (n : option addr)
  | SetImporting (n : option addr)
  | SetStable
  | SetNode (n : option addr).

(** A node that may get slots. *)
Definition known_master (n : option addr) : M (error + addr) :=
  match n with
  | None => mret (inl ErrUnknownNode)
  | Some n => nd ← get_node n; mret (if nodeIsSlave nd then inl ErrTargetNotMaster else inr n)
  end.

Definition setslot_node (slot n : Z) : M reply :=
  myself ← gets c_myself;
  o ← slot_owner slot;
  if bool_decide (o = Some myself) && negb (n =? myself) && negb (countKeysInSlot server slot =? 0) then mret (ReplyError ErrHasKeys)
  else
    mig ← gets c_migrating_slots_to;
    m ← entry_of mig slot;
    _ ← (if (countKeysInSlot server slot =? 0) && bool_decide (m ≠ None) then modify (put_migrating_slots_to (<[Z.to_nat slot := None]> mig)) else mret tt);
    let slot_was_mine := bool_decide (o = Some myself) in
    _ ← clusterDelSlot slot;
    _ ← clusterAddSlot n slot;
    md ← get_node myself;
    _ ← (if slot_was_mine && negb (n =? myself) && (n_numslots md =? 0) && cluster_allow_replica_migration server then
           _ ← clusterSetMaster n;
           clusterDoBeforeSleep (Z.lor CLUSTER_TODO_SAVE_CONFIG (Z.lor CLUSTER_TODO_UPDATE_STATE CLUSTER_TODO_FSYNC_CONFIG))
         else mret tt);
    imp ← gets c_importing_slots_from;
    i ← entry_of imp slot;
    _ ← (if (n =? myself) && bool_decide (i ≠ None) then
           _ ← clusterBumpConfigEpochWithoutConsensus;
           _ ← modify (λ c, put_importing_slots_from (<[Z.to_nat slot := None]> (c_importing_slots_from c)) c);
           emit (EffBroadcastPong true)
         else mret tt);
    _ ← clusterDoBeforeSleep (Z.lor CLUSTER_TODO_SAVE_CONFIG CLUSTER_TODO_UPDATE_STATE);
    mret ReplyOk.

Definition cluster_setslot (slot : list Z) (a : setslot_action) : M reply :=
  myself ← gets c_myself;
  md ← get_node myself;
  if nodeIsSlave md then mret (ReplyError ErrOnlyMasters)
  else
    match getSlotOrReply slot with
    | None => mret (ReplyError ErrInvalidSlot)
    | Some slot =>
        o ← slot_owner slot;
        let done := _ ← clusterDoBeforeSleep (Z.lor CLUSTER_TODO_SAVE_CONFIG CLUSTER_TODO_UPDATE_STATE); mret ReplyOk in
        match a with
        | SetMigrating n =>
            if negb (bool_decide (o = Some myself)) then mret (ReplyError ErrNotOwner)
            else
              r ← known_master n;
              match r with
              | inl e => mret (ReplyError e)
              | inr n => _ ← modify (λ c, put_migrating_slots_to (<[Z.to_nat slot := Some n]> (c_migrating_slots_to c)) c); done
              end
        | SetImporting n =>
            if bool_decide (o = Some myself) then mret (ReplyError ErrAlreadyOwner)
            else
              r ← known_master n;
              match r with
              | inl e => mret (ReplyError e)
              | inr n => _ ← modify (λ c, put_importing_slots_from (<[Z.to_nat slot := Some n]> (c_importing_slots_from c)) c); done
              end
        | SetStable =>
            _ ← modify (λ c, put_importing_slots_from (<[Z.to_nat slot := None]> (c_importing_slots_from c)) c);
            _ ← modify (λ c, put_migrating_slots_to (<[Z.to_nat slot := None]> (c_migrating_slots_to c)) c);
            done
        | SetNode n => r ← known_master n; match r with inl e => mret (ReplyError e) | inr n => setslot_node slot n end
        end
    end.

(** ** Nodes and roles *)

(** [forgotten] is [clusterBlacklistExists]. *)
Definition cluster_forget (n : option addr) (forgotten : bool) : M reply :=
  match n with
  | None => mret (if forgotten then ReplyOk else ReplyError ErrUnknownNode)
  | Some n =>
      myself ← gets c_myself;
      md ← get_node myself;
      if n =? myself then mret (ReplyError ErrForgetMyself)
      else if nodeIsSlave md && bool_decide (n_slaveof md = Some n) then mret (ReplyError ErrForgetMaster)
      else
        _ ← emit (EffBlacklistAdd n);
        _ ← clusterDelNode clock server n;
        _ ← clusterDoBeforeSleep (Z.lor CLUSTER_TODO_UPDATE_STATE CLUSTER_TODO_SAVE_CONFIG);
        mret ReplyOk
  end.

Definition cluster_replicate (n : option addr) (dbsize : Z) : M reply :=
  match n with
  | None => mret (ReplyError ErrUnknownNode)
  | Some n =>
      myself ← gets c_myself;
      if n =? myself then mret (ReplyError ErrReplicateMyself)
      else
        nd ← get_node n;
        if nodeIsSlave nd then mret (ReplyError ErrReplicateSlave)
        else
          md ← get_node myself;
          if nodeIsMaster md && (negb (n_numslots md =? 0) || negb (dbsize =? 0)) then mret (ReplyError ErrNotEmpty)
          else
            _ ← clusterSetMaster n;
            _ ← clusterDoBeforeSleep (Z.lor CLUSTER_TODO_UPDATE_STATE CLUSTER_TODO_SAVE_CONFIG);
            mret ReplyOk
  end.

(** [takeover] implies [force]; [link] says whether there is a link to our
    master. *)
Definition cluster_failover (force takeover link : bool) : M reply :=
  let force := force || takeover in
  myself ← gets c_myself;
  md ← get_node myself;
  if nodeIsMaster md then mret (ReplyError ErrFailoverMaster)
  else
    match n_slaveof md with
    | None => mret (ReplyError ErrMasterUnknown)
    | Some m =>
        mmd ← get_node m;
        if negb force && (nodeFailed mmd || negb link) then mret (ReplyError ErrMasterDown)
        else
          _ ← resetManualFailover;
          t ← mstime;
          _ ← modify (λ c, put_mf (t + CLUSTER_MF_TIMEOUT) (c_mf_slave c) (c_mf_master_offset c) (c_mf_can_start c) c);
          _ ← (if takeover then _ ← clusterBumpConfigEpochWithoutConsensus; clusterFailoverReplaceYourMaster clock server
               else if force then modify (λ c, put_mf (c_mf_end c) (c_mf_slave c) (c_mf_master_offset c) true c)
               else emit (EffSendMFStart m));
          mret ReplyOk
    end.

Definition cluster_set_config_epoch (arg : list Z) : M reply :=
  match string2ll arg with
  | None => mret (ReplyError ErrNotInteger)
  | Some epoch =>
      nodes ← gets c_nodes;
      myself ← gets c_myself;
      md ← get_node myself;
      if epoch <? 0 then mret (ReplyError ErrEpochNegative)
      else if 1 <? zlen nodes then mret (ReplyError ErrKnowsNodes)
      else if negb (n_configEpoch md =? 0) then mret (ReplyError ErrEpochSet)
      else
        _ ← mod_node myself (set_configEpoch epoch);
        currentEpoch ← gets c_currentEpoch;
        _ ← (if currentEpoch <? epoch then modify (put_currentEpoch epoch) else mret tt);
        _ ← clusterDoBeforeSleep (Z.lor CLUSTER_TODO_UPDATE_STATE CLUSTER_TODO_SAVE_CONFIG);
        mret ReplyOk
  end.

(** The new name and shard of a hard reset are random. *)
Definition clusterReset (hard : bool) (newname newshard : list Z) : M unit :=
  myself ← gets c_myself;
  md ← get_node myself;
  _ ← (if nodeIsSlave md then
         _ ← clusterSetNodeAsMaster myself;
         _ ← emit EffReplicationUnsetMaster;
         emit EffEmptyData
       else mret tt);
  _ ← clusterCloseAllSlots;
  _ ← resetManualFailover;
  _ ← for_each (λ j _, _ ← clusterDelSlot j; mret tt) all_slots tt;
  _ ← modify (put_shards ∅);
  nodes ← gets c_nodes;
  _ ← for_each (λ n _, if n =? myself then mret tt else clusterDelNode clock server n) nodes tt;
  _ ← emit EffBlacklistEmpty;
  _ ← (if hard then
         _ ← modify (put_currentEpoch 0);
         _ ← modify (put_lastVoteEpoch 0);
         _ ← mod_node myself (set_configEpoch 0);
         _ ← modify (λ c, put_nodes (filter (.≠ myself) (c_nodes c)) c);
         _ ← mod_node myself (set_name newname);
         _ ← mod_node myself (set_shard_id newshard);
         clusterAddNode myself
       else mret tt);
  md ← get_node myself;
  _ ← clusterAddNodeToShard (n_shard_id md) myself;
  clusterDoBeforeSleep (Z.lor CLUSTER_TODO_SAVE_CONFIG (Z.lor CLUSTER_TODO_UPDATE_STATE CLUSTER_TODO_FSYNC_CONFIG)).

Definition cluster_reset (hard : bool) (dbsize : Z) (newname newshard : list Z) : M reply :=
  myself ← gets c_myself;
  md ← get_node myself;
  if nodeIsMaster md && negb (dbsize =? 0) then mret (ReplyError ErrDbNotEmpty)
  else _ ← clusterReset hard newname newshard; mret ReplyOk.
Definition cluster_bumpepoch : M bool := clusterBumpConfigEpochWithoutConsensus.

(** [verifyClusterConfigWithData]: [other_dbs] says whether a database other
    than 0 has keys; [false] is [C_ERR]. *)
Definition verifyClusterConfigWithData (other_dbs : bool) : M bool :=
  myself ← gets c_myself;
  md ← get_node myself;
  if cluster_module_no_redirection server then mret true
  else if nodeIsSlave md then mret true
  else if other_dbs then mret false
  else
    update_config ← for_each (λ j update_config,
      if countKeysInSlot server j =? 0 then mret update_config
      else
        o ← slot_owner j;
        imp ← gets c_importing_slots_from;
        i ← entry_of imp j;
        if bool_decide (o = Some myself) || bool_decide (i ≠ None) then mret update_config
        else
          _ ← match o with
              | None => _ ← clusterAddSlot myself j; mret tt
              | Some _ => modify (put_importing_slots_from (<[Z.to_nat j := o]> imp))
              end;
          mret (s32 (update_config + 1))) all_slots 0;
    _ ← (if negb (update_config =? 0) then emit EffSaveConfig else mret tt);
    mret true.
End cmd.
End ClusterCmd.
