(* ===== verification/ClusterCmdInv.v ===== *)
(** * cluster.c: periodic work and commands keep the invariant *)

From S2P Require Import Prelude Util Zskiplist Cluster ClusterCmd ClusterInv ClusterOps ClusterUpdate ClusterCalm ClusterRun ClusterNodes.
Import Util Zskiplist Cluster ClusterCmd ClusterInv ClusterOps ClusterUpdate ClusterCalm ClusterRun ClusterNodes.

Module ClusterCmdInv.

#[local] Abbreviation N := (Z.to_nat 16384) (only parsing).

Section cmd.
Context (clock randoms : nat → Z) (server : server_t).

(** ** Periodic work *)

Section periodic.
Context (w0 : world).
Hypothesis Hok : cluster_ok w0.

Lemma gossip_calm sender n flags : (∀ s, sender = Some s → live w0 s) → live w0 n → calm w0 (gossip_report clock server sender n flags).
Proof using Hok.
  intros Hs Hn. unfold gossip_report. destruct sender as [s|]; [|apply calm_ret]. pose proof (Hs s eq_refl) as Hls.
  calms; [by apply addReport_calm|by apply markFailing_calm|by apply delReport_calm].
Qed.
Lemma nofailover_calm n flags : live w0 n → calm w0 (sender_nofailover n flags).
Proof using Type.
  intros Hn. unfold sender_nofailover. cbv zeta. assert (Hb : ∀ i, 0 ≤ i < 2 → Z.testbit (Z.land flags CLUSTER_NODE_NOFAILOVER) i = false).
  { intros i Hi. rewrite Z.land_spec. assert (i = 0 ∨ i = 1) as [->| ->] by lia; by rewrite andb_false_r. }
  calm_step; [calm_step|]. apply calm_mod; [done|]. intros nd. apply view_add_flags; by apply Hb.
Qed.
Lemma myselfFlags_calm : calm w0 (clusterUpdateMyselfFlags server).
Proof using Hok.
  pose proof (live_myself w0 Hok) as Hm. unfold clusterUpdateMyselfFlags. destruct (cluster_slave_no_failover server); calms.
Qed.
Lemma pong_spec n w : steady w0 w → live w0 n → wp (pong_node clock server n) w (λ _ w', steady w0 w').
Proof using Type.
  intros Hs Hn. pose proof Hn as [nd Hnd]%(steady_live w0 w n Hs). unfold pong_node. apply wp_bind, (wp_get_node _ nd); [done|].
  destruct (nodeTimedOut nd); [revert w Hs Hnd; intros w Hs _; revert w Hs; match goal with |- ∀ w1, _ → wp ?m w1 _ => change (calm w0 m) end; calms|].
  destruct (nodeFailed nd) eqn:Hf; [by eapply clearFailure_spec|by apply wp_ret].
Qed.
Lemma timed_out_calm n : live w0 n → calm w0 (node_timed_out n).
Proof using Type. intros Hn. unfold node_timed_out. calms. Qed.
Lemma resetMF_calm : calm w0 resetManualFailover.
Proof using Type. unfold resetManualFailover. calms. Qed.
Lemma checkTimeout_calm : calm w0 (manualFailoverCheckTimeout clock).
Proof using Type. unfold manualFailoverCheckTimeout. calms. apply resetMF_calm. Qed.
Lemma manualFailover_calm : calm w0 (clusterHandleManualFailover server).
Proof using Type. unfold clusterHandleManualFailover. calms. Qed.
Lemma mfstart_calm n now : live w0 n → calm w0 (process_mfstart n now).
Proof using Hok. intros Hn. unfold process_mfstart. calms. apply resetMF_calm. Qed.

(** The target of a migration is not this node, which is a replica. *)
Definition migration_acc (acc : option Z * Z) : Prop :=
  live w0 acc.2 ∧ ∀ t, acc.1 = Some t → live w0 t ∧ ∃ nd, seen w0 t nd ∧ nodeIsSlave nd = false.
Lemma countSlaves_calm n : live w0 n → calm w0 (clusterCountNonFailingSlaves n).
Proof using Hok. intros Hn. unfold clusterCountNonFailingSlaves. calms. Qed.
Lemma migration_node_gives max_slaves n acc : live w0 n → migration_acc acc → gives w0 migration_acc (migration_node clock max_slaves n acc).
Proof using Hok.
  intros Hn Hacc. destruct acc as [target candidate]. unfold migration_node. calm_step. apply leads_bind; [destruct (nodeIsMaster nd); [by apply countSlaves_calm|apply calm_ret]|].
  intros okslaves. cbv zeta. eapply (gives_bind _ (λ t, migration_acc (t, candidate))).
  { destruct (_ && negb (okslaves >? 0)) eqn:Horph.
    - apply leads_bind; [calms|]. intros _. apply gives_ret. destruct target as [t|]; [done|]. destruct (n_numslots nd >? 0); [|done]. split; [exact (proj1 Hacc)|].
      intros t [= <-]. split; [done|]. exists nd. split; [done|]. by destruct (nodeIsSlave nd).
    - apply leads_bind; [calms|]. intros _. by apply gives_ret. }
  intros t Ht. eapply (gives_bind _ (live w0)).
  { destruct (okslaves =? max_slaves); [|apply gives_ret; exact (proj1 Ht)]. apply gives_for_each; [exact (proj1 Ht)|]. intros x c Hx Hc. unfold gives. do 2 calm_step.
    apply gives_ret. destruct (_ <? 0); [by apply (live_slaves w0 n nd)|done]. }
  intros c Hc. apply gives_ret. split; [done|exact (proj2 Ht)].
Qed.
Lemma slaveMigration_spec max_slaves : leads w0 (λ _ w', safe w0 w') (clusterHandleSlaveMigration clock server max_slaves).
Proof using Hok.
  assert (Hend : ∀ {A} (m : M A), calm w0 m → leads w0 (λ _ w', safe w0 w') m) by (intros A m; apply leads_calm; intros _ w'; apply steady_safe).
  unfold clusterHandleSlaveMigration. do 3 calm_step. destruct (negb _); [apply Hend, calm_ret|]. destruct (n_slaveof nd) as [m|] eqn:Hso; [|apply Hend, calm_ret].
  calm_step. apply leads_bind; [calms|]. intros ok. destruct (ok <=? _); [apply Hend, calm_ret|]. calm_step. eapply gives_bind.
  { apply (gives_for_each _ migration_acc); [split; [by apply live_myself|done]|]. intros j acc Hj. apply migration_node_gives. by apply live_nodes. }
  intros [[t|] cand] [Hc Ht]; [|apply Hend, calm_ret]. destruct (Ht t eq_refl) as (Hlt & td & Htd & Hts). destruct (cand =? c_myself (w_c w0)); [|apply Hend, calm_ret].
  do 2 calm_step. destruct (_ && _); [|apply Hend, calm_ret]. intros w Hs. destruct (core_fields _ _ (st_core _ _ Hs)) as (Eme & _).
  pose proof (live_myself w (st_ok _ _ Hs)) as [md Hmd]. rewrite Eme in Hmd. pose proof (steady_seen _ _ _ _ Hs Hmd) as Hmd'.
  destruct (seen_roles _ _ _ _ Hnd Hmd') as (_ & _ & Es). destruct (ok_slave_slots w _ md m (st_ok _ _ Hs) Hmd) as (Hz & _); [congruence|].
  destruct (proj2 (steady_live w0 w t Hs) Hlt) as [td2 Htd2].
  assert (Hne : t ≠ c_myself (w_c w0)). { intros ->. pose proof (seen_slave w0 _ _ _ td Hok Hnd Hso Htd). congruence. }
  call (setMaster_spec w t td2 md); [apply Hs|by rewrite Eme|by rewrite Eme|]. intros _ w' [Hk _]. eapply safe_trans; [by apply steady_safe|by apply kept_safe].
Qed.
End periodic.

(** ** Composition of safe computations *)

Definition secure {A} (m : M A) : Prop := ∀ w, cluster_ok w → wp m w (λ _ w', safe w w').
Lemma secure_ret {A} (a : A) : secure (mret a).
Proof using Type. intros w Hok. apply wp_ret. by apply safe_refl. Qed.
Lemma secure_bind {A B} (m : M A) (f : A → M B) : secure m → (∀ a, secure (f a)) → secure (m ≫= f).
Proof using Type.
  intros Hm Hf w Hok. apply wp_bind. call (Hm w Hok). intros a w1 Hs1. call (Hf a w1 (proj1 Hs1)). intros b w2 Hs2. by eapply safe_trans.
Qed.
Lemma secure_calm {A} (m : M A) : (∀ w, cluster_ok w → calm w m) → secure m.
Proof using Type. intros Hm w Hok. apply calm_safe; auto. Qed.
Lemma secure_leads {A} (m : M A) : (∀ w, cluster_ok w → leads w (λ _ w', safe w w') m) → secure m.
Proof using Type. intros Hm w Hok. apply Hm; [done|by apply steady_refl]. Qed.
Lemma secure_myself {A} (f : Z → clusterNode → M A) : (∀ me md, secure (f me md)) → secure (me ← gets c_myself; md ← get_node me; f me md).
Proof using Type. intros Hf w Hok. destruct (live_myself w Hok) as [md Hmd]. apply wp_bind, wp_gets, wp_bind, (wp_get_node _ _ _ _ Hmd). by apply Hf. Qed.
Lemma secure_todo flags : secure (clusterDoBeforeSleep flags).
Proof using Type. apply secure_calm. intros. apply calm_todo. Qed.

Lemma slaveFailover_secure : secure (clusterHandleSlaveFailover clock randoms server).
Proof using Type. apply secure_leads. intros w. apply slaveFailover_spec. Qed.
Lemma updateState_secure : secure (clusterUpdateState clock server).
Proof using Type. apply secure_calm. intros w Hok. by apply updateState_calm. Qed.

Lemma cron_secure migrate update_state : secure (cron_failover clock randoms server migrate update_state).
Proof using Type.
  unfold cron_failover. apply secure_bind; [apply secure_calm; intros; apply checkTimeout_calm|]. intros _. apply secure_myself. intros me md.
  apply secure_bind; [|intros _; apply secure_bind; [apply secure_calm; intros w Hok w' Hs; by apply wp_gets|intros st; destruct (_ || _); [apply updateState_secure|apply secure_ret]]].
  destruct (nodeIsSlave md); [|apply secure_ret]. apply secure_bind; [apply secure_calm; intros; apply manualFailover_calm|]. intros _.
  apply secure_bind; [destruct (cluster_module_no_failover server); [apply secure_ret|apply slaveFailover_secure]|]. intros _.
  destruct migrate; [|apply secure_ret]. destruct (cluster_allow_replica_migration server); [|apply secure_ret]. apply secure_leads. intros. by apply slaveMigration_spec.
Qed.
Lemma beforeSleep_secure : secure (clusterBeforeSleep clock randoms server).
Proof using Type.
  unfold clusterBeforeSleep. apply secure_bind; [apply secure_calm; intros w Hok w' Hs; by apply wp_gets|]. intros flags.
  apply secure_bind; [apply secure_calm; intros; calms|]. intros _. apply secure_myself. intros me md.
  apply secure_bind; [|intros _; apply secure_bind; [destruct (negb _); [apply updateState_secure|apply secure_ret]|intros _; apply secure_calm; intros; calms]].
  destruct (negb (Z.land flags CLUSTER_TODO_HANDLE_MANUALFAILOVER =? 0)).
  - destruct (nodeIsSlave md); [|apply secure_ret]. apply secure_bind; [apply secure_calm; intros; apply manualFailover_calm|]. intros _.
    destruct (cluster_module_no_failover server); [apply secure_ret|apply slaveFailover_secure].
  - destruct (negb _); [apply slaveFailover_secure|apply secure_ret].
Qed.
End cmd.

(** ** Assigning slots *)

Lemma store_single l (i : nat) v : (i < length l)%nat → store l (Z.of_nat i) [v] = Some (<[i := v]> l).
Proof.
  intros Hi. unfold store. rewrite decide_True by (cbn [length]; lia). f_equal. rewrite insert_take_drop by done. cbn [length].
  rewrite Nat2Z.id. by replace (Z.to_nat (Z.of_nat i + Z.of_nat 1)) with (S i) by lia.
Qed.
Lemma load8_single l (i : nat) v : l !! i = Some v → load8 l (Z.of_nat i) = Some v.
Proof. intros Hi. unfold load8. by rewrite decide_True, Nat2Z.id by lia. Qed.

(** The array has a 1 at the slots of [js]. *)
Definition counted (slots js : list Z) : Prop :=
  length slots = N ∧ ∀ i, (i < N)%nat → slots !! i = Some (if decide (Z.of_nat i ∈ js) then 1 else 0).
Lemma counted_nil : counted (replicate (Z.to_nat CLUSTER_SLOTS) 0) [].
Proof. split; [apply length_replicate|]. intros i Hi. rewrite decide_False by set_solver. by apply lookup_replicate_2. Qed.
Lemma counted_insert slots js (i : nat) : (i < N)%nat → counted slots js → counted (<[i := 1]> slots) (js ++ [Z.of_nat i]).
Proof.
  intros Hi [Hl Hc]. split; [by rewrite length_insert|]. intros k Hk. destruct (decide (i = k)) as [->|Hne].
  - rewrite list_lookup_insert_eq by lia. rewrite decide_True by set_solver. done.
  - rewrite list_lookup_insert_ne, Hc by done. f_equal. destruct (decide (Z.of_nat k ∈ js)), (decide (Z.of_nat k ∈ js ++ [Z.of_nat i])); set_solver.
Qed.

(** The slots [js] can be assigned, or unassigned. *)
Definition assignable (w : world) (del : bool) (js : list Z) : Prop :=
  NoDup js ∧ ∀ j, j ∈ js → ∃ i, j = Z.of_nat i ∧ (i < N)%nat ∧ (if del then own w i ≠ None else own w i = None).
Lemma check_gives w0 js slots del js0 : cluster_ok w0 → (∀ j, j ∈ js → j ∈ all_slots) → counted slots js0 → assignable w0 del js0 →
  gives w0 (λ r, match r with inl _ => ¬ assignable w0 del (js0 ++ js) | inr slots' => counted slots' (js0 ++ js) ∧ assignable w0 del (js0 ++ js) end)
    (checkSlotAssignmentsOrReply js slots del).
Proof.
  intros Hok. revert slots js0. induction js as [|j js IH]; intros slots js0 Hjs Hc Ha; cbn [checkSlotAssignmentsOrReply]; [apply gives_ret; by rewrite app_nil_r|].
  destruct (slot_lookup j) as (i & Hi & ->); [apply Hjs; by left|]. apply leads_slot_owner; [done..|]. intros o Ho.
  assert (Hown : own w0 i = o) by (unfold own; by rewrite Ho). rewrite (cons_middle (Z.of_nat i)), app_assoc.
  assert (Hnot : (if del then o = None else o ≠ None) → ¬ assignable w0 del ((js0 ++ [Z.of_nat i]) ++ js)).
  { intros Hbad [_ Has]. destruct (Has (Z.of_nat i)) as (i' & E%Nat2Z.inj & _ & Hi'); [set_solver|]. subst i'. rewrite Hown in Hi'. by destruct del. }
  destruct (del && bool_decide (o = None)) eqn:E1; [apply gives_ret, Hnot; apply andb_true_iff in E1 as [-> E1]; by apply bool_decide_eq_true in E1|].
  destruct (negb del && bool_decide (o ≠ None)) eqn:E2; [apply gives_ret, Hnot; apply andb_true_iff in E2 as [E E2]; apply negb_true_iff in E as ->; by apply bool_decide_eq_true in E2|].
  pose proof (proj2 Hc i Hi) as Hv. apply leads_lift; [by erewrite load8_single|]. intros v Hv'. rewrite (load8_single _ _ _ Hv) in Hv'. injection Hv' as <-.
  destruct (decide (Z.of_nat i ∈ js0)) as [Hin|Hni]; cbn [Z.eqb].
  { apply gives_ret. intros [Hnd _]. apply NoDup_app in Hnd as (Hnd & _). apply NoDup_app in Hnd as (_ & Hd & _). by apply (Hd _ Hin); left. }
  apply leads_lift; [rewrite store_single; [done|by rewrite (proj1 Hc)]|]. intros slots' Hs. rewrite store_single in Hs by (by rewrite (proj1 Hc)). injection Hs as <-.
  apply IH; [intros; apply Hjs; by right|by apply counted_insert|]. destruct Ha as [Hnd Has]. split.
  - apply NoDup_app. split_and!; [done| |apply NoDup_singleton]. intros x Hx ->%list_elem_of_singleton. done.
  - intros x [Hx|Hx%list_elem_of_singleton]%elem_of_app; [auto|]. exists i. split_and!; [done|done|]. rewrite Hown.
    destruct del; cbn in E1, E2; [by apply bool_decide_eq_false in E1|]. apply bool_decide_eq_false in E2. destruct o; [|done]. exfalso. by apply E2.
Qed.

(** The nodes are the same but for their slots. *)
Definition same_nodes (w w' : world) : Prop := node_rest <$> w_heap w = node_rest <$> w_heap w' ∧ c_myself (w_c w') = c_myself (w_c w).
Lemma same_nodes_safe w w' : cluster_ok w' → same_nodes w w' → safe w w'.
Proof.
  intros Hok [Hh Hm]. split_and!; [done|done|]. intros n. assert (Hf : frame w (World (w_heap w') (w_c w) 0 0 [])) by (by split). by rewrite <- (frame_is_Some _ _ n Hf).
Qed.
Lemma same_nodes_role w w' n nd : same_nodes w w' → w_heap w !! n = Some nd → ∃ nd', w_heap w' !! n = Some nd' ∧ nodeIsSlave nd' = nodeIsSlave nd ∧ nodeIsMaster nd' = nodeIsMaster nd.
Proof.
  intros [Hh _] Hn. assert (Hf : frame w (World (w_heap w') (w_c w) 0 0 [])) by (by split).
  destruct (frame_role _ _ _ _ Hf Hn) as (nd' & ? & ? & ? & _). by exists nd'.
Qed.
Lemma frame_same_nodes w w' : frame w w' → same_nodes w w'.
Proof. intros Hf. split; [apply Hf|by apply frame_core]. Qed.
Lemma same_nodes_trans w1 w2 w3 : same_nodes w1 w2 → same_nodes w2 w3 → same_nodes w1 w3.
Proof. intros [A B] [C D]. split; congruence. Qed.

(** The owner of slot [i] after the command. *)
Definition assigned_owner (w : world) (del : bool) (js : list Z) (i : nat) : option Z :=
  if decide (Z.of_nat i ∈ js) then (if del then None else Some (c_myself (w_c w))) else own w i.
Record assigned (w : world) (del : bool) (js : list Z) (k : nat) (w' : world) : Prop := {
  as_ok : cluster_ok w';
  as_nodes : same_nodes w w';
  as_own : ∀ i, (i < N)%nat → own w' i = if decide (i < k)%nat then assigned_owner w del js i else own w i;
}.
Lemma assigned_S w del js k w1 w2 :
  assigned w del js k w1 → cluster_ok w2 → same_nodes w1 w2 → (∀ i, (i < N)%nat → own w2 i = if decide (i = k) then assigned_owner w del js k else own w1 i) → assigned w del js (S k) w2.
Proof.
  intros [A1 A2 A3] Hok Hn Ho. split; [done|by eapply same_nodes_trans|]. intros i Hi. rewrite Ho by done. destruct (decide (i = k)) as [->|]; [by rewrite decide_True by lia|].
  rewrite A3 by done. destruct (decide (i < k)%nat), (decide (i < S k)%nat); done || lia.
Qed.
Lemma own_insert w w' (j : nat) o (i : nat) : cluster_ok w → (j < N)%nat → c_slots (w_c w') = <[j := o]> (c_slots (w_c w)) → own w' i = if decide (i = j) then o else own w i.
Proof.
  intros Hok Hj E. unfold own. rewrite E. pose proof (so_len _ _ (inv_slots _ _ Hok)) as Hl.
  case_decide as Hij; [subst; by rewrite list_lookup_insert_eq by lia|by rewrite list_lookup_insert_ne].
Qed.

Lemma updateSlots_spec w slots js del md :
  cluster_ok w → counted slots js → assignable w del js → w_heap w !! c_myself (w_c w) = Some md → (del = false → nodeIsSlave md = false) →
  wp (clusterUpdateSlots slots del) w (λ _ w', assigned w del js N w').
Proof.
  intros Hok [Hl Hc] [_ Has] Hmd Hsl. apply (wp_all_slots (λ k _ w', assigned w del js k w')).
  { split; [done|done|]. intros i Hi. by rewrite decide_False by lia. }
  intros j [] w1 Hj Has1. pose proof Has1 as [Hok1 Hn1 Ho1]. apply wp_bind, (wp_lift _ (if decide (Z.of_nat j ∈ js) then 1 else 0)); [by apply load8_single, Hc|].
  destruct (decide (Z.of_nat j ∈ js)) as [Hin|Hni]; cbn [Z.eqb negb].
  2:{ apply wp_ret. eapply assigned_S; [done..|]. intros i Hi. case_decide as E; [subst|done]. unfold assigned_owner. rewrite decide_False by done.
      rewrite Ho1 by done. by rewrite decide_False by lia. }
  destruct (Has (Z.of_nat j) Hin) as (j' & E%Nat2Z.inj & _ & Howner). subst j'. destruct (same_nodes_role _ _ _ _ Hn1 Hmd) as (md1 & Hmd1 & Hsl1 & _).
  apply wp_bind, wp_gets, wp_bind, (entry_of_spec _ j (importing w1 j)); [by apply importing_lookup|]. apply wp_bind.
  eapply (wp_mono _ _ (λ _ w2, cluster_ok w2 ∧ w_heap w2 = w_heap w1 ∧ c_myself (w_c w2) = c_myself (w_c w1) ∧ c_slots (w_c w2) = c_slots (w_c w1))).
  { destruct (importing w1 j); [|by apply wp_ret]. apply wp_modify. rewrite Nat2Z.id. split_and!; [by apply set_importing|done|by destruct (w_c w1)..]. }
  intros _ w2 (Hok2 & Hh2 & Hm2 & Hs2). assert (Hn2 : same_nodes w1 w2) by (split; [by rewrite Hh2|done]). assert (Ho2 : ∀ i, own w2 i = own w1 i) by (intros; unfold own; by rewrite Hs2).
  assert (Hown2 : c_slots (w_c w2) !! j = Some (own w j)). { rewrite (own_lookup w2 j) by done. rewrite Ho2, Ho1 by done. by rewrite decide_False by lia. }
  apply wp_bind, wp_gets. assert (Eme : c_myself (w_c w2) = c_myself (w_c w)) by (rewrite Hm2; apply Hn1). rewrite Eme. apply wp_bind.
  assert (Hend : ∀ w3 o, cluster_ok w3 → frame w2 w3 → c_slots (w_c w3) = <[j := o]> (c_slots (w_c w2)) → o = assigned_owner w del js j → assigned w del js (S j) w3).
  { intros w3 o Hok3 Hf3 Hs3 ->. eapply assigned_S; [done|done|by eapply same_nodes_trans, frame_same_nodes|]. intros i Hi. rewrite (own_insert w2 w3 j _ i Hok2 Hj Hs3). by rewrite Ho2. }
  unfold assigned_owner in Hend. rewrite decide_True in Hend by done. destruct del.
  - eapply wp_mono; [by apply (delSlot_spec w2 (own w j) j)|]. cbv beta. intros ok w3 (-> & Hok3 & Hf3 & Hc3). apply wp_assert; [apply bool_decide_eq_true_2; by apply not_eq_None_Some|].
    eapply Hend; [done|done|by rewrite Hc3, put_slots_get|done].
  - rewrite Howner in Hown2. eapply wp_mono; [apply (addSlot_spec w2 (c_myself (w_c w)) md1 None j); [done|done|done|by rewrite Hh2|by rewrite Hsl1, Hsl]|].
    cbv beta. intros ok w3 (-> & Hok3 & Hf3 & Hc3). apply wp_assert; [by apply bool_decide_eq_true_2|]. eapply Hend; [done|done|by rewrite Hc3, put_slots_get|done].
Qed.

Lemma assign_slots_spec w0 w slots js del md :
  cluster_ok w0 → steady w0 w → counted slots js → assignable w0 del js → w_heap w0 !! c_myself (w_c w0) = Some md → (del = false → nodeIsSlave md = false) →
  wp (assign_slots (inr slots) del) w (λ rep w', rep = ReplyOk ∧ safe w0 w' ∧ ∀ i, (i < N)%nat → own w' i = assigned_owner w0 del js i).
Proof.
  intros Hok Hs Hc [Hnd Ha] Hmd Hsl. unfold assign_slots. apply wp_bind. destruct (core_fields _ _ (st_core _ _ Hs)) as (Eme & _ & Es & _).
  assert (Hown : ∀ i, own w i = own w0 i) by (intros; unfold own; by rewrite Es).
  pose proof (proj2 (steady_live w0 w (c_myself (w_c w0)) Hs) (ex_intro _ md Hmd)) as [md1 Hmd1].
  destruct (seen_roles _ _ _ _ (steady_seen _ _ _ _ (steady_refl w0 Hok) Hmd) (steady_seen _ _ _ _ Hs Hmd1)) as (_ & Esl & _).
  call (updateSlots_spec w slots js del md1); [apply Hs| |by rewrite Eme|intros; rewrite <- Esl; auto|].
  { split; [done|]. intros j Hj. destruct (Ha j Hj) as (i & -> & Hi & Ho). exists i. split_and!; [done|done|]. by rewrite Hown. }
  intros _ w1 [A1 A2 A3]. apply wp_bind. call todo_frame. intros _ w2 (B1 & B2 & B3 & _). apply wp_ret. split_and!; [done| |].
  - eapply safe_trans; [by apply steady_safe|]. apply same_nodes_safe; [done|]. eapply same_nodes_trans; [done|by apply frame_same_nodes].
  - intros i Hi. unfold own at 1. rewrite B3. fold (own w1 i). rewrite A3 by done. rewrite decide_True by done. unfold assigned_owner. by rewrite Eme, Hown.
Qed.

Lemma getSlot_range o j : getSlotOrReply o = Some j → j ∈ all_slots.
Proof.
  unfold getSlotOrReply. intros (v & _ & E)%bind_Some. destruct ((v <? 0) || (v >=? CLUSTER_SLOTS)) eqn:Hr; [done|]. injection E as <-.
  apply orb_false_iff in Hr as [H1%Z.ltb_ge H2]. rewrite Z.geb_leb in H2. apply Z.leb_gt in H2. rewrite slot_range. lia.
Qed.
Lemma getSlots_range args js : mapM getSlotOrReply args = Some js → ∀ j, j ∈ js → j ∈ all_slots.
Proof.
  intros Hm j Hj. apply mapM_Some in Hm. apply list_elem_of_lookup in Hj as [i Hi]. destruct (Forall2_lookup_r _ _ _ _ _ Hm Hi) as (a & _ & Ha). by eapply getSlot_range.
Qed.
Lemma assignable_nil w del : assignable w del [].
Proof. split; [constructor|]. intros j Hj. by apply not_elem_of_nil in Hj. Qed.

(** CLUSTER ADDSLOTS and DELSLOTS assign the slots that are named, or nothing. *)
Lemma addslots_spec w args del md :
  cluster_ok w → w_heap w !! c_myself (w_c w) = Some md → (del = false → nodeIsSlave md = false) →
  wp (cluster_addslots args del) w (λ rep w',
    match mapM getSlotOrReply args with
    | None => rep = ReplyError ErrInvalidSlot ∧ w' = w
    | Some js =>
        rep = ReplyOk ∧ assignable w del js ∧ safe w w' ∧ (∀ i, (i < N)%nat → own w' i = assigned_owner w del js i) ∨
        (∃ e, rep = ReplyError e) ∧ ¬ assignable w del js ∧ steady w w'
    end).
Proof.
  intros Hok Hmd Hsl. unfold cluster_addslots. destruct (mapM getSlotOrReply args) as [js|] eqn:Hm; [|by apply wp_ret].
  apply wp_bind. pose proof (getSlots_range _ _ Hm) as Hr.
  call (check_gives w js _ del [] Hok Hr counted_nil (assignable_nil w del) w (steady_refl w Hok)). intros [e|slots] w1 [Hs Hc]; cbn [app] in Hc.
  - apply wp_ret. right. split_and!; [by eexists|done|done].
  - destruct Hc as [Hc Ha]. eapply wp_mono; [by apply (assign_slots_spec w w1 slots js del md)|]. cbv beta. intros rep w2 (-> & ? & ?). left. by split_and!.
Qed.

Lemma addslotsrange_spec w args del md :
  cluster_ok w → w_heap w !! c_myself (w_c w) = Some md → (del = false → nodeIsSlave md = false) →
  wp (cluster_addslotsrange args del) w (λ _ w', safe w w').
Proof.
  intros Hok Hmd Hsl. unfold cluster_addslotsrange. destruct (Nat.odd _); [apply wp_ret; by apply safe_refl|]. apply wp_bind.
  assert (Hp : ∀ n args slots js, (length args ≤ n)%nat → counted slots js → assignable w del js →
    gives w (λ r, match r with inl _ => True | inr slots' => ∃ js', counted slots' js' ∧ assignable w del js' end) (parse_ranges args slots del)).
  { intros n. induction n as [|n IH]; intros args0 slots js Hn Hc Ha.
    { destruct args0; [|cbn in Hn; lia]. apply gives_ret. by exists js. }
    destruct args0 as [|a [|b args0]]; [apply gives_ret; by exists js..|]. cbn [parse_ranges].
    destruct (getSlotOrReply a) as [s1|] eqn:E1; [|by apply gives_ret]. destruct (getSlotOrReply b) as [s2|] eqn:E2; [|by apply gives_ret].
    destruct (s1 >? s2) eqn:Hgt; [by apply gives_ret|]. eapply gives_bind; [eapply (check_gives w _ slots del js); [done| |done|done]|].
    - intros j Hj. apply getSlot_range in E1, E2. rewrite slot_range in *. rewrite elem_of_seqZ in Hj. lia.
    - intros [e|slots'] Hr; [by apply gives_ret|]. destruct Hr as [Hc' Ha']. eapply IH; [cbn in Hn; lia|done|done]. }
  call (Hp (length args) args _ [] (le_n _) counted_nil (assignable_nil w del) w (steady_refl w Hok)). intros [e|slots] w1 [Hs Hr].
  - apply wp_ret. by apply steady_safe.
  - destruct Hr as (js & Hc & Ha). eapply wp_mono; [by apply (assign_slots_spec w w1 slots js del md)|]. cbv beta. by intros rep w2 (_ & ? & _).
Qed.

(** ** CLUSTER SETSLOT *)

Section commands.
Context (clock randoms : nat → Z) (server : server_t).

Lemma importing_safe w j o : cluster_ok w → (∀ n, o = Some n → live w n) →
  safe w (with_state w (put_importing_slots_from (<[j := o]> (c_importing_slots_from (w_c w))) (w_c w))).
Proof using Type. intros Hok Ho. split_and!; [by apply set_importing|by destruct (w_c w)|done]. Qed.
Lemma migrating_safe w j o : cluster_ok w → (∀ n, o = Some n → live w n) →
  safe w (with_state w (put_migrating_slots_to (<[j := o]> (c_migrating_slots_to (w_c w))) (w_c w))).
Proof using Type. intros Hok Ho. split_and!; [by apply set_migrating|by destruct (w_c w)|done]. Qed.
Lemma wp_safe {A B} (m : M A) (f : A → M B) w : secure m → cluster_ok w →
  (∀ a w1, safe w w1 → wp (f a) w1 (λ _ w', safe w w')) → wp (m ≫= f) w (λ _ w', safe w w').
Proof using Type. intros Hm Hok Hf. apply wp_bind. call (Hm w Hok). intros a w1 Hs. by apply Hf. Qed.
Lemma safe_secure {A} (m : M A) w w1 : secure m → safe w w1 → wp m w1 (λ _ w', safe w w').
Proof using Type. intros Hm Hs. call (Hm w1 (proj1 Hs)). intros _ w2 Hs2. by eapply safe_trans. Qed.
Lemma bumpEpoch_secure : secure clusterBumpConfigEpochWithoutConsensus.
Proof using Type. apply secure_calm. intros w Hok. by apply bumpEpoch_calm. Qed.
Lemma done_secure {A} flags (r : A) : secure (_ ← clusterDoBeforeSleep flags; mret r).
Proof using Type. apply secure_bind; [apply secure_todo|]. intros _. apply secure_ret. Qed.
Lemma importing_drop_secure j : secure (modify (λ c, put_importing_slots_from (<[j := None]> (c_importing_slots_from c)) c)).
Proof using Type. intros w Hok. apply wp_modify. by apply importing_safe. Qed.
Lemma migrating_drop_secure j : secure (modify (λ c, put_migrating_slots_to (<[j := None]> (c_migrating_slots_to c)) c)).
Proof using Type. intros w Hok. apply wp_modify. by apply migrating_safe. Qed.

Lemma setslot_node_spec w (j : nat) n nd :
  cluster_ok w → (j < N)%nat → w_heap w !! n = Some nd → nodeIsSlave nd = false → wp (setslot_node server (Z.of_nat j) n) w (λ _ w', safe w w').
Proof using Type.
  intros Hok Hj Hn Hsl. unfold setslot_node. apply wp_bind, wp_gets, wp_bind, (slot_owner_spec j (own w j)); [by apply own_lookup|].
  destruct (_ && _ && _); [apply wp_ret; by apply safe_refl|]. destruct (lookup_lt_is_Some_2 (c_migrating_slots_to (w_c w)) j) as [m Hm]; [by rewrite (proj1 (inv_migrating _ _ Hok))|].
  apply wp_bind, wp_gets, wp_bind, (entry_of_spec _ j m); [done|]. apply wp_bind. eapply (wp_mono _ _ (λ _ w1, cluster_ok w1 ∧ w_heap w1 = w_heap w ∧ c_myself (w_c w1) = c_myself (w_c w))).
  { destruct (_ && _); [|by apply wp_ret]. apply wp_modify. split_and!; [by apply set_migrating|done|by destruct (w_c w)]. }
  intros _ w1 (Hok1 & Hh1 & Hm1). cbv zeta. apply wp_bind. call delSlot_spec; [by apply own_lookup|]. intros _ w2 (_ & Hok2 & Hf2 & Hc2).
  destruct (frame_role w1 w2 n nd Hf2) as (nd2 & Hn2 & _ & Hsl2 & _); [by rewrite Hh1|]. apply wp_bind. call (addSlot_spec w2 n nd2); [by apply own_lookup|by rewrite Hsl2|].
  intros _ w3 (_ & Hok3 & Hf3 & _). assert (Hs3 : safe w w3).
  { eapply (safe_trans _ w1); [split_and!; [done|done|intros; unfold live; by rewrite Hh1]|]. apply frame_safe; [done|]. by eapply frame_trans. }
  pose proof (proj1 (proj2 Hs3)) as Eme. destruct (live_myself w3 Hok3) as [md3 Hmd3]. rewrite Eme in Hmd3. apply wp_bind, (wp_get_node _ _ _ _ Hmd3), wp_bind.
  eapply (wp_mono _ _ (λ _ w4, safe w w4)).
  { destruct (bool_decide (own w j = Some (c_myself (w_c w))) && negb (n =? c_myself (w_c w)) && (n_numslots md3 =? 0) && cluster_allow_replica_migration server) eqn:E; [|by apply wp_ret].
    rewrite !andb_true_iff in E. destruct E as [[[_ Hne] Hz] _]. apply negb_true_iff, Z.eqb_neq in Hne. apply Z.eqb_eq in Hz.
    destruct (frame_role w2 w3 n nd2 Hf3 Hn2) as (nd3 & Hn3 & _). apply wp_bind. call (setMaster_spec w3 n nd3 md3); [by rewrite Eme|by rewrite Eme|].
    intros _ w4 [Hk _]. apply safe_secure; [apply secure_todo|]. eapply safe_trans; [done|by apply kept_safe]. }
  intros _ w4 Hs4. pose proof (proj1 Hs4) as Hok4. apply wp_bind, wp_gets, wp_bind, (entry_of_spec _ j (importing w4 j)); [by apply importing_lookup|]. apply safe_secure; [|done].
  apply secure_bind; [|intros _; apply done_secure]. destruct (_ && _); [|apply secure_ret]. apply secure_bind; [apply bumpEpoch_secure|]. intros _. rewrite Nat2Z.id.
  apply secure_bind; [apply importing_drop_secure|]. intros _. apply secure_calm. intros. calms.
Qed.

(** A node that a command names is in the table. *)
Definition known (w : world) (n : option Z) : Prop := ∀ k, n = Some k → live w k.
Lemma known_master_spec w n : known w n →
  wp (known_master n) w (λ r w', w' = w ∧ match r with inl _ => True | inr k => ∃ nd, w_heap w !! k = Some nd ∧ nodeIsSlave nd = false end).
Proof using Type.
  intros Hk. unfold known_master. destruct n as [k|]; [|by apply wp_ret]. destruct (Hk k eq_refl) as [nd Hnd]. apply wp_bind, (wp_get_node _ _ _ _ Hnd), wp_ret.
  split; [done|]. destruct (nodeIsSlave nd) eqn:E; [done|]. by exists nd.
Qed.
Definition action_ok (w : world) (a : setslot_action) : Prop :=
  match a with SetMigrating n | SetImporting n | SetNode n => known w n | SetStable => True end.
Lemma setslot_spec w slot a : cluster_ok w → action_ok w a → wp (cluster_setslot server slot a) w (λ _ w', safe w w').
Proof using Type.
  intros Hok Ha. unfold cluster_setslot. destruct (live_myself w Hok) as [md Hmd]. apply wp_bind, wp_gets, wp_bind, (wp_get_node _ _ _ _ Hmd).
  destruct (nodeIsSlave md); [apply wp_ret; by apply safe_refl|]. destruct (getSlotOrReply slot) as [j|] eqn:Hj; [|apply wp_ret; by apply safe_refl].
  destruct (slot_lookup j) as (i & Hi & ->); [by eapply getSlot_range|]. apply wp_bind, (slot_owner_spec i (own w i)); [by apply own_lookup|]. rewrite Nat2Z.id. cbv zeta.
  destruct a as [n|n| |n]; cbn [action_ok] in Ha.
  - destruct (negb _); [apply wp_ret; by apply safe_refl|]. apply wp_bind. call known_master_spec. intros r w' [-> Hr]. destruct r as [e|k]; [apply wp_ret; by apply safe_refl|].
    destruct Hr as (nd & Hnd & _). apply wp_bind, wp_modify. apply safe_secure; [apply done_secure|]. apply migrating_safe; [done|]. intros ? [= <-]. by eexists.
  - destruct (bool_decide _); [apply wp_ret; by apply safe_refl|]. apply wp_bind. call known_master_spec. intros r w' [-> Hr]. destruct r as [e|k]; [apply wp_ret; by apply safe_refl|].
    destruct Hr as (nd & Hnd & _). apply wp_bind, wp_modify. apply safe_secure; [apply done_secure|]. apply importing_safe; [done|]. intros ? [= <-]. by eexists.
  - apply safe_secure; [|by apply safe_refl]. apply secure_bind; [apply importing_drop_secure|]. intros _. apply secure_bind; [apply migrating_drop_secure|]. intros _. apply done_secure.
  - apply wp_bind. call known_master_spec. intros r w' [-> Hr]. destruct r as [e|k]; [apply wp_ret; by apply safe_refl|]. destruct Hr as (nd & Hnd & Hs). by eapply setslot_node_spec.
Qed.

(** ** Nodes and roles *)

Lemma flushslots_secure dbsize : secure (cluster_flushslots dbsize).
Proof using Type.
  intros w Hok. unfold cluster_flushslots. destruct (negb _); [apply wp_ret; by apply safe_refl|]. destruct (live_myself w Hok) as [md Hmd].
  apply wp_bind, wp_gets, wp_bind. call delNodeSlots_spec. intros _ w1 (Hok1 & Hf & _). apply safe_secure; [apply done_secure|by apply frame_safe].
Qed.
Lemma forget_spec w n forgotten : cluster_ok w → known w n → wp (cluster_forget clock server n forgotten) w (λ _ w', cluster_ok w').
Proof using Type.
  intros Hok Hk. unfold cluster_forget. destruct n as [n|]; [|by apply wp_ret]. destruct (live_myself w Hok) as [md Hmd].
  apply wp_bind, wp_gets, wp_bind, (wp_get_node _ _ _ _ Hmd). destruct (Z.eqb_spec n (c_myself (w_c w))); [by apply wp_ret|].
  destruct (nodeIsSlave md && bool_decide (n_slaveof md = Some n)) eqn:E; [by apply wp_ret|]. apply wp_bind, wp_emit, wp_bind.
  set (w1 := World _ _ _ _ _). assert (Hok1 : cluster_ok w1) by exact Hok. call (delNode_spec clock server w1 n Hok1); [by apply Hk| |].
  - unfold slaveof. cbn. rewrite Hmd. cbn. intros Hso. destruct (ok_slave_slots w _ md n Hok Hmd Hso) as (_ & _ & _).
    destruct (lk_up _ (ok_links w Hok) _ _ n (vheap_lookup _ _ _ Hmd) Hso) as (_ & Hsl & _). cbn in Hsl. by rewrite Hsl, Hso, bool_decide_eq_true_2 in E.
  - intros _ w2 (Hok2 & _). call done_secure. intros _ w3 [Hok3 _]. done.
Qed.
Lemma replicate_spec w n dbsize : cluster_ok w → known w n → wp (cluster_replicate n dbsize) w (λ _ w', safe w w').
Proof using Type.
  intros Hok Hk. unfold cluster_replicate. pose proof (safe_refl w Hok) as Hr. destruct n as [n|]; [|by apply wp_ret]. destruct (live_myself w Hok) as [md Hmd].
  destruct (Hk n eq_refl) as [nd Hnd]. apply wp_bind, wp_gets. destruct (Z.eqb_spec n (c_myself (w_c w))) as [|Hne]; [by apply wp_ret|].
  apply wp_bind, (wp_get_node _ _ _ _ Hnd). destruct (nodeIsSlave nd); [by apply wp_ret|]. apply wp_bind, (wp_get_node _ _ _ _ Hmd).
  destruct (nodeIsMaster md && _) eqn:E; [by apply wp_ret|].
  assert (Hz : n_numslots md = 0).
  { destruct (inv_myself _ _ Hok) as (v & Hv & [Hm|[m Hm]]); rewrite (vheap_lookup _ _ _ Hmd) in Hv; injection Hv as <-; cbn in Hm.
    - rewrite Hm in E. cbn in E. apply orb_false_iff in E as [E _]. by apply negb_false_iff, Z.eqb_eq in E.
    - by apply (ok_slave_slots w _ md m Hok Hmd Hm). }
  apply wp_bind. call (setMaster_spec w n nd md). intros _ w1 [Hk1 _]. apply safe_secure; [apply done_secure|by apply kept_safe].
Qed.
Lemma replaceYourMaster_secure : secure (clusterFailoverReplaceYourMaster clock server).
Proof using Type. intros w Hok. call replaceYourMaster_spec. by intros _ w' [Hs _]. Qed.
Lemma failover_secure force takeover link : secure (cluster_failover clock server force takeover link).
Proof using Type.
  intros w Hok. unfold cluster_failover. cbv zeta. pose proof (safe_refl w Hok) as Hr. destruct (live_myself w Hok) as [md Hmd].
  apply wp_bind, wp_gets, wp_bind, (wp_get_node _ _ _ _ Hmd). destruct (nodeIsMaster md); [by apply wp_ret|]. destruct (n_slaveof md) as [m|] eqn:Hso; [|by apply wp_ret].
  destruct (ok_slave_slots w _ md m Hok Hmd Hso) as (_ & _ & mmd & Hmm). apply wp_bind, (wp_get_node _ _ _ _ Hmm). destruct (negb _ && _); [by apply wp_ret|].
  apply safe_secure; [|done]. apply secure_bind; [apply secure_calm; intros; apply resetMF_calm|]. intros _.
  apply secure_bind; [apply secure_calm; intros w' Hok' w1 [A1 A2 A3]; by eexists _, _|]. intros t. apply secure_bind; [apply secure_calm; intros; calms|]. intros _.
  apply secure_bind; [|intros _; apply secure_ret]. destruct takeover.
  - apply secure_bind; [apply bumpEpoch_secure|]. intros _. apply replaceYourMaster_secure.
  - apply secure_calm. intros. calms.
Qed.
Lemma setConfigEpoch_secure arg : secure (cluster_set_config_epoch arg).
Proof using Type. apply secure_calm. intros w Hok. unfold cluster_set_config_epoch. calms. Qed.

Lemma verify_secure other_dbs : secure (verifyClusterConfigWithData server other_dbs).
Proof using Type.
  intros w Hok. unfold verifyClusterConfigWithData. pose proof (safe_refl w Hok) as Hr. destruct (live_myself w Hok) as [md Hmd]. set (me := c_myself (w_c w)) in *.
  apply wp_bind, wp_gets, wp_bind, (wp_get_node _ _ _ _ Hmd). destruct (cluster_module_no_redirection server); [by apply wp_ret|]. destruct (nodeIsSlave md) eqn:Hsl; [by apply wp_ret|].
  destruct other_dbs; [by apply wp_ret|]. apply wp_bind. eapply wp_mono; [apply (wp_all_slots (λ _ _ w1, cluster_ok w1 ∧ same_nodes w w1)); [by split|]|cbv beta].
  - intros j acc w1 Hj [Hok1 Hn1]. destruct (_ =? 0); [by apply wp_ret|]. apply wp_bind, (slot_owner_spec j (own w1 j)); [by apply own_lookup|].
    apply wp_bind, wp_gets, wp_bind, (entry_of_spec _ j (importing w1 j)); [by apply importing_lookup|]. destruct (_ || _); [by apply wp_ret|]. apply wp_bind.
    destruct (same_nodes_role _ _ _ _ Hn1 Hmd) as (md1 & Hmd1 & Hsl1 & _). pose proof (own_lookup w1 j Hok1 Hj) as Ho. destruct (own w1 j) as [o|] eqn:Hown.
    + apply wp_modify, wp_ret. rewrite Nat2Z.id. split; [apply set_importing; [done|]|].
      * intros k [= <-]. by eapply live_owner.
      * eapply same_nodes_trans; [done|]. split; [done|by destruct (w_c w1)].
    + apply wp_bind. call (addSlot_spec w1 me md1 None j); [by rewrite Hsl1|]. intros _ w2 (_ & Hok2 & Hf2 & _). apply wp_ret, wp_ret. split; [done|].
      eapply same_nodes_trans; [done|by apply frame_same_nodes].
  - intros acc w1 [Hok1 Hn1]. apply safe_secure; [|by apply same_nodes_safe]. apply secure_bind; [apply secure_calm; intros; calms|]. intros _. apply secure_ret.
Qed.

(** ** CLUSTER RESET *)

(** This node without a master. *)
Definition alone_ok (w0 w : world) : Prop :=
  cluster_ok w ∧ c_myself (w_c w) = c_myself (w_c w0) ∧ slaveof w (c_myself (w_c w0)) = None.

Lemma unslave_spec w md :
  cluster_ok w → w_heap w !! c_myself (w_c w) = Some md →
  wp (if nodeIsSlave md then _ ← clusterSetNodeAsMaster (c_myself (w_c w)); _ ← emit EffReplicationUnsetMaster; emit EffEmptyData else mret tt) w
    (λ _ w', alone_ok w w' ∧ ∀ k, live w' k ↔ live w k).
Proof using Type.
  intros Hok Hmd. destruct (nodeIsSlave md) eqn:Hsl.
  - apply wp_bind. call setNodeAsMaster_spec. intros _ w1 [Hre (v & Hv & _ & _ & Hso)]. pose proof (relinked_safe _ _ Hre) as (A1 & A2 & A3).
    apply wp_bind, wp_emit, wp_emit. split; [|done]. split_and!; [done|done|]. rewrite <- Hso. by apply (vheap_slaveof w1).
  - apply wp_ret. split; [|done]. split_and!; [done|done|]. unfold slaveof. rewrite Hmd. cbn. destruct (n_slaveof md) as [m|] eqn:Hso; [|done].
    destruct (lk_up _ (ok_links w Hok) _ _ m (vheap_lookup _ _ _ Hmd) Hso) as (_ & Hs & _). cbn in Hs. congruence.
Qed.

Lemma del_all_slots w : cluster_ok w → wp (for_each (λ j _, _ ← clusterDelSlot j; mret tt) all_slots tt) w (λ _ w', cluster_ok w' ∧ frame w w').
Proof using Type.
  intros Hok. apply (wp_all_slots (λ _ _ w', cluster_ok w' ∧ frame w w')); [split; [done|apply frame_refl]|]. intros j [] w1 Hj [Hok1 Hf1].
  apply wp_bind. call (delSlot_spec w1 (own w1 j) j); [by apply own_lookup|]. intros _ w2 (_ & Hok2 & Hf2 & _). apply wp_ret. split; [done|by eapply frame_trans].
Qed.

Lemma forget_all_spec w me : cluster_ok w → c_myself (w_c w) = me → slaveof w me = None →
  wp (for_each (λ n _, if n =? me then mret tt else clusterDelNode clock server n) (c_nodes (w_c w)) tt) w (λ _ w', alone_ok w w' ∧ ∀ k, live w' k ↔ k = me).
Proof using Type.
  intros Hok <- Hso. pose proof (wp_for_each (λ pre _ w', alone_ok w w' ∧ ∀ k, live w' k ↔ live w k ∧ (k ∈ pre → k = c_myself (w_c w)))
    (λ n _, if n =? c_myself (w_c w) then mret tt else clusterDelNode clock server n) (c_nodes (w_c w)) [] tt w) as Hloop. cbn [app] in Hloop.
  eapply wp_mono; [apply Hloop; clear Hloop|clear Hloop; cbv beta].
  - split; [by split_and!|]. intros k. split; [|tauto]. intros. split; [done|]. intros Hk. by apply not_elem_of_nil in Hk.
  - intros pre n post [] w1 E [(A1 & A2 & A3) A4]. assert (Hnd : n ∉ pre).
    { pose proof (inv_nodup _ _ Hok) as Hnd. rewrite E in Hnd. apply NoDup_app in Hnd as (_ & Hd & _). intros Hin. apply (Hd n Hin). by left. }
    assert (Hl : live w n) by (apply live_nodes; [done|]; rewrite E; set_solver). destruct (Z.eqb_spec n (c_myself (w_c w))) as [->|Hne].
    { apply wp_ret. split; [by split_and!|]. intros k. rewrite A4, elem_of_app, list_elem_of_singleton. naive_solver. }
    call (delNode_spec clock server w1 n A1); [apply A4; naive_solver|by rewrite A2|by rewrite A2, A3|]. intros _ w2 (B1 & B2 & B3 & B4). rewrite A2 in B3, B4. split.
    + split_and!; [done|done|congruence].
    + intros k. rewrite B2, A4, elem_of_app, list_elem_of_singleton. naive_solver.
  - intros _ w1 [Ha Hl]. split; [done|]. intros k. rewrite Hl. split.
    + intros [Hk Hin]. apply Hin. apply (inv_nodes _ _ Hok). by apply vheap_is_Some.
    + intros ->. split; [by apply live_myself|done].
Qed.

Lemma inv_renode H c l : inv H c → NoDup l → (∀ n, n ∈ l ↔ n ∈ c_nodes c) → inv H (put_nodes l c).
Proof using Type. intros [I1 I2 I3 I4 I5 I6 I7 I8 I9] Hnd Hl. destruct c. cbn in *. split; try done. intros n. cbn. by rewrite Hl. Qed.

(** The hard part: epochs, name and shard. *)
Lemma hard_reset_spec w me newname newshard : cluster_ok w → c_myself (w_c w) = me →
  wp (_ ← modify (put_currentEpoch 0); _ ← modify (put_lastVoteEpoch 0); _ ← mod_node me (set_configEpoch 0);
      _ ← modify (λ c, put_nodes (filter (.≠ me) (c_nodes c)) c); _ ← mod_node me (set_name newname); _ ← mod_node me (set_shard_id newshard);
      clusterAddNode me) w (λ _ w', safe w w').
Proof using Type.
  intros Hok <-. destruct (live_myself w Hok) as [md Hmd]. apply wp_bind, wp_modify, wp_bind, wp_modify, wp_bind. eapply wp_mod_node; [exact Hmd|].
  apply wp_bind, wp_modify, wp_bind. eapply wp_mod_node; [apply lookup_insert_eq|]. apply wp_bind. eapply wp_mod_node; [apply lookup_insert_eq|].
  unfold clusterAddNode. apply wp_bind, wp_gets, wp_bind, wp_assert.
  { apply bool_decide_eq_true_2. cbn. destruct (w_c w). cbn. rewrite list_elem_of_filter. naive_solver. }
  apply wp_modify. cbn [with_state with_heap w_heap w_c]. rewrite !insert_insert_eq. set (md' := set_shard_id _ _). set (c0 := put_nodes _ _). set (c' := put_nodes (c_nodes c0 ++ _) c0).
  assert (Hh : vheap (with_heap w (<[c_myself (w_c w) := md']> (w_heap w))) = vheap w) by (apply (vheap_same _ _ md); done). split_and!.
  - unfold cluster_ok. cbn [with_state with_heap w_heap w_c]. change (inv (vheap (with_heap w (<[c_myself (w_c w) := md']> (w_heap w)))) c'). rewrite Hh.
    apply (inv_core _ (put_nodes (filter (.≠ c_myself (w_c w)) (c_nodes (w_c w)) ++ [c_myself (w_c w)]) (w_c w))); [|unfold c', c0; by destruct (w_c w)].
    pose proof (inv_nodup _ _ Hok) as Hnd. apply inv_renode; [exact Hok| |].
    + apply NoDup_app. split_and!; [by apply NoDup_filter| |apply NoDup_singleton]. intros x [Hx _]%list_elem_of_filter ->%list_elem_of_singleton. done.
    + intros n. rewrite elem_of_app, list_elem_of_filter, list_elem_of_singleton. destruct (decide (n = c_myself (w_c w))) as [->|]; [|naive_solver].
      split; [intros _|by right]. apply (inv_nodes _ _ Hok), vheap_is_Some. by eexists.
  - unfold c', c0. cbn. by destruct (w_c w).
  - intros k. unfold live. cbn. rewrite lookup_insert_is_Some'. split; [intros [<-|]; [by eexists|done]|by right].
Qed.

(** After a reset this node is alone. *)
Lemma reset_spec w hard dbsize newname newshard : cluster_ok w → wp (cluster_reset clock server hard dbsize newname newshard) w (λ rep w', cluster_ok w' ∧
  (rep = ReplyOk → ∀ k, live w' k ↔ k = c_myself (w_c w)) ∧ (rep ≠ ReplyOk → w' = w)).
Proof using Type.
  intros Hok. unfold cluster_reset. destruct (live_myself w Hok) as [md Hmd]. set (me := c_myself (w_c w)) in *. apply wp_bind, wp_gets, wp_bind, (wp_get_node _ _ _ _ Hmd).
  destruct (_ && _); [by apply wp_ret|]. apply wp_bind. unfold clusterReset. apply wp_bind, wp_gets, wp_bind, (wp_get_node _ _ _ _ Hmd), wp_bind. call unslave_spec.
  intros _ w1 [(A1 & A2 & A3) A4]. apply wp_bind. call closeAllSlots_spec. intros _ w2 [Hh2 (Hinv2 & _ & Hme2 & _)].
  assert (B1 : cluster_ok w2) by (unfold cluster_ok; rewrite Hh2; by apply Hinv2). apply wp_bind. call resetManualFailover_spec. intros _ w3 Ha3.
  pose proof (alike_ok _ _ Ha3 B1) as C1.
  assert (Em3 : c_myself (w_c w3) = me) by (transitivity (c_myself (w_c w2)); [apply (core_fields _ _ (proj2 Ha3))|by rewrite Hme2]).
  apply wp_bind. call del_all_slots. intros _ w4 [D1 D2]. apply wp_bind, wp_modify.
  set (w5 := with_state w4 _). assert (Ha5 : alike w4 w5) by (apply alike_state; by destruct (w_c w4)). assert (E1 : cluster_ok w5) by (by eapply alike_ok).
  assert (Eme : c_myself (w_c w5) = me).
  { transitivity (c_myself (w_c w4)); [unfold w5; cbn; by destruct (w_c w4)|]. by rewrite (proj2 (frame_core _ _ D2)). }
  assert (Eso : slaveof w5 me = None).
  { change (slaveof w4 me = None). rewrite (frame_slaveof _ _ me D2). destruct (live_myself w3 C1) as [md3 Hmd3].
    rewrite Em3 in Hmd3.
    pose proof (vheap_lookup _ _ _ Hmd3) as Hv3. rewrite (vheap_slaveof _ _ _ Hv3). rewrite (proj1 Ha3), Hh2 in Hv3. rewrite <- A3. symmetry. by apply vheap_slaveof. }
  apply wp_bind, wp_gets, wp_bind. call (forget_all_spec w5 me). intros _ w6 [(F1 & F2 & F3) F4]. rewrite Eme in F2. apply wp_bind, wp_emit, wp_bind.
  set (w7 := World _ _ _ _ _). assert (G1 : cluster_ok w7) by exact F1.
  eapply (wp_mono _ _ (λ _ w8, safe w7 w8)); [destruct hard; [by apply hard_reset_spec|apply wp_ret; by apply safe_refl]|]. intros _ w8 (H1 & H2 & H3).
  assert (Hl8 : live w8 me) by (apply H3; by apply F4). destruct Hl8 as [md8 Hmd8]. apply wp_bind, (wp_get_node _ _ _ _ Hmd8), wp_bind. call addToShard_spec. intros _ w9 Ha9.
  call wp_todo. intros _ w10 Ha10. apply wp_ret. pose proof (alike_kept _ _ H1 (alike_trans _ _ _ Ha9 Ha10)) as Hk. apply kept_safe in Hk as (J1 & J2 & J3).
  split_and!; [done| |done]. intros _ k. rewrite J3, H3. apply F4.
Qed.
End commands.
End ClusterCmdInv.
