(* ===== verification/ClusterSteps.v ===== *)
(** * cluster.c: runs of a cluster node

    The steps of a node are the parts of the messages it receives, its periodic
    work and the CLUSTER commands, in any order.  Every step returns (no
    assertion fails and no pointer is NULL or dangling) and keeps the
    invariant, with one exception: CLUSTER ADDSLOTS and ADDSLOTSRANGE give slots
    to a replica, after which CLUSTER REPLICATE fails an assertion. *)

From S2P Require Import Prelude Util Zskiplist Cluster ClusterCmd ClusterInv ClusterOps ClusterUpdate ClusterCalm ClusterRun ClusterNodes ClusterCmdInv.
Import Util Zskiplist Cluster ClusterCmd ClusterInv ClusterOps ClusterUpdate ClusterCalm ClusterRun ClusterNodes ClusterCmdInv.

Module ClusterSteps.

#[local] Abbreviation N := (Z.to_nat 16384) (only parsing).

Inductive step :=
  (* nodes *)
  | AddNode (n : Z) (name shard : list Z) (flags : Z)
  (* messages *)
  | Header (sender : Z) (hdr : clusterMsg)
  | Role (sender : Z) (is_master : bool) (master : option Z)
  | Slots (sender : Z) (hdr : clusterMsg)
  | NoFailover (sender flags : Z)
  | Pong (n : Z)
  | Gossip (sender : option Z) (n flags : Z)
  | Fail (n now : Z)
  | AuthRequest (sender : Z) (hdr : clusterMsg)
  | AuthAck (sender : Z) (hdr : clusterMsg)
  | Update (n epoch : Z) (slots : list Z)
  | MFStart (sender now : Z)
  (* periodic work *)
  | TimedOut (n : Z)
  | Cron (migrate : option Z) (update_state : bool)
  | BeforeSleep
  | MyselfFlags
  (* commands *)
  | AddSlots (args : list (list Z)) (del : bool)
  | AddSlotsRange (args : list (list Z)) (del : bool)
  | FlushSlots (dbsize : Z)
  | SetSlot (slot : list Z) (a : setslot_action)
  | Forget (n : option Z) (forgotten : bool)
  | Replicate (n : option Z) (dbsize : Z)
  | Failover (force takeover link : bool)
  | SetConfigEpoch (arg : list Z)
  | BumpEpoch
  | Reset (hard : bool) (dbsize : Z) (newname newshard : list Z)
  | Verify (other_dbs : bool).

Section steps.
Context (clock randoms : nat → Z) (server : server_t).

Definition ignore {A} (m : M A) : M unit := _ ← m; mret tt.
Definition exec (s : step) : M unit :=
  match s with
  | AddNode n name shard flags => _ ← createClusterNode n name shard flags; clusterAddNode n
  | Header sender hdr => update_from_header sender hdr
  | Role sender is_master master => update_role sender is_master master
  | Slots sender hdr => update_slots_of server sender hdr
  | NoFailover sender flags => sender_nofailover sender flags
  | Pong n => pong_node clock server n
  | Gossip sender n flags => gossip_report clock server sender n flags
  | Fail n now => process_fail n now
  | AuthRequest sender hdr => clusterSendFailoverAuthIfNeeded clock server sender hdr
  | AuthAck sender hdr => process_auth_ack sender hdr
  | Update n epoch slots => process_update server n epoch slots
  | MFStart sender now => process_mfstart sender now
  | TimedOut n => ignore (node_timed_out n)
  | Cron migrate update_state => cron_failover clock randoms server migrate update_state
  | BeforeSleep => clusterBeforeSleep clock randoms server
  | MyselfFlags => clusterUpdateMyselfFlags server
  | AddSlots args del => ignore (cluster_addslots args del)
  | AddSlotsRange args del => ignore (cluster_addslotsrange args del)
  | FlushSlots dbsize => ignore (cluster_flushslots dbsize)
  | SetSlot slot a => ignore (cluster_setslot server slot a)
  | Forget n forgotten => ignore (cluster_forget clock server n forgotten)
  | Replicate n dbsize => ignore (cluster_replicate n dbsize)
  | Failover force takeover link => ignore (cluster_failover clock server force takeover link)
  | SetConfigEpoch arg => ignore (cluster_set_config_epoch arg)
  | BumpEpoch => ignore cluster_bumpepoch
  | Reset hard dbsize newname newshard => ignore (cluster_reset clock server hard dbsize newname newshard)
  | Verify other_dbs => ignore (verifyClusterConfigWithData server other_dbs)
  end.

(** What a caller knows about the arguments: nodes were found in the table,
    bitmaps have their size, a new node has a new address.  A sender has a role
    and is not this node, and its master is another node.  Commands are not
    restricted. *)
Definition enabled (w : world) (s : step) : Prop :=
  match s with
  | AddNode n _ _ flags => w_heap w !! n = None ∧ (Z.testbit flags 0 = true → Z.testbit flags 1 = false)
  | Header n _ | NoFailover n _ | Pong n | Fail n _ | AuthAck n _ | MFStart n _ | TimedOut n => live w n
  | Role n _ master =>
      (∃ nd, w_heap w !! n = Some nd ∧ nodeIsMaster nd || nodeIsSlave nd = true) ∧ n ≠ c_myself (w_c w) ∧ (∀ m, master = Some m → live w m ∧ m ≠ n)
  | Slots n hdr | AuthRequest n hdr => live w n ∧ bitmap_ok (h_myslots hdr)
  | Gossip sender n _ => (∀ s, sender = Some s → live w s) ∧ live w n
  | Update n _ slots => live w n ∧ bitmap_ok slots
  | SetSlot _ a => action_ok w a
  | Forget n _ | Replicate n _ => known w n
  | AddSlots _ _ | AddSlotsRange _ _ | Cron _ _ | BeforeSleep | MyselfFlags | FlushSlots _ | Failover _ _ _ | SetConfigEpoch _ | BumpEpoch | Reset _ _ _ _ | Verify _ => True
  end.

(** CLUSTER ADDSLOTS and ADDSLOTSRANGE on a replica. *)
Definition gives_replica_slots (w : world) (s : step) : Prop :=
  match s with
  | AddSlots _ false | AddSlotsRange _ false => ∃ md, w_heap w !! c_myself (w_c w) = Some md ∧ nodeIsSlave md = true
  | _ => False
  end.
Lemma not_given w md (del : bool) : w_heap w !! c_myself (w_c w) = Some md → (del = false → ¬ ∃ md, w_heap w !! c_myself (w_c w) = Some md ∧ nodeIsSlave md = true) → del = false → nodeIsSlave md = false.
Proof using Type. intros Hmd Hno Hd. destruct (nodeIsSlave md) eqn:E; [|done]. destruct (Hno Hd). by exists md. Qed.

Lemma wp_ignore {A} (m : M A) w (Q : world → Prop) : wp m w (λ _ w', Q w') → wp (ignore m) w (λ _ w', Q w').
Proof using Type. intros Hm. unfold ignore. apply wp_bind. call Hm. intros a w' HQ. by apply wp_ret. Qed.
Lemma wp_safe_ok {A} (m : M A) w : wp m w (λ _ w', safe w w') → wp m w (λ _ w', cluster_ok w').
Proof using Type. intros Hm. call Hm. by intros a w' [? _]. Qed.
Lemma calm_ok {A} (m : M A) w : cluster_ok w → calm w m → wp m w (λ _ w', cluster_ok w').
Proof using Type. intros Hok Hm. by apply wp_safe_ok, calm_safe. Qed.
Lemma secure_ok {A} (m : M A) w : cluster_ok w → secure m → wp m w (λ _ w', cluster_ok w').
Proof using Type. intros Hok Hm. by apply wp_safe_ok, Hm. Qed.

(** One step. *)
Lemma exec_ok w s : cluster_ok w → enabled w s → ¬ gives_replica_slots w s → wp (exec s) w (λ _ w', cluster_ok w').
Proof using Type.
  intros Hok He Hno. destruct (live_myself w Hok) as [md Hmd]. destruct s; cbn [exec enabled gives_replica_slots] in *.
  - destruct He. call addNode_spec. by intros _ w' (? & _).
  - by apply calm_ok, header_calm.
  - destruct He as ((nd & Hnd & Hr) & Hne & Hm). apply wp_safe_ok. by eapply update_role_spec.
  - destruct He. by apply wp_safe_ok, update_slots_of_spec.
  - by apply calm_ok, nofailover_calm.
  - call (pong_spec clock server w n w (steady_refl w Hok) He). intros _ w' Hs. apply Hs.
  - destruct He. by apply calm_ok, gossip_calm.
  - by apply calm_ok, process_fail_calm.
  - destruct He. by apply calm_ok, sendAuth_calm.
  - by apply calm_ok, process_ack_calm.
  - destruct He. by apply wp_safe_ok, process_update_spec.
  - by apply calm_ok, mfstart_calm.
  - by apply wp_ignore, calm_ok, timed_out_calm.
  - apply secure_ok, cron_secure. done.
  - apply secure_ok, beforeSleep_secure. done.
  - by apply calm_ok, myselfFlags_calm.
  - apply wp_ignore. call (addslots_spec w args del md Hok Hmd); [apply (not_given w); [done|by intros ->]|]. intros rep w' Hr. destruct (mapM _ _); [|by destruct Hr as [_ ->]].
    destruct Hr as [(_ & _ & Hs & _)|(_ & _ & Hs)]; apply Hs.
  - apply wp_ignore, wp_safe_ok. eapply addslotsrange_spec; [done..|]. apply (not_given w); [done|by intros ->].
  - apply wp_ignore, secure_ok, flushslots_secure. done.
  - by apply wp_ignore, wp_safe_ok, setslot_spec.
  - by apply wp_ignore, forget_spec.
  - by apply wp_ignore, wp_safe_ok, replicate_spec.
  - apply wp_ignore, secure_ok, failover_secure. done.
  - apply wp_ignore, secure_ok, setConfigEpoch_secure. done.
  - apply wp_ignore, secure_ok, bumpEpoch_secure. done.
  - apply wp_ignore. call reset_spec. by intros rep w' (? & _).
  - apply wp_ignore, secure_ok, verify_secure. done.
Qed.

(** Runs in which no replica is given slots. *)
Inductive runs : world → world → Prop :=
  | runs_refl w : runs w w
  | runs_step w w1 w2 s : runs w w1 → enabled w1 s → ¬ gives_replica_slots w1 s → exec s w1 = Some (tt, w2) → runs w w2.

Lemma runs_ok w w' : cluster_ok w → runs w w' → cluster_ok w'.
Proof using Type.
  intros Hok Hr. induction Hr as [|w w1 w2 s Hr IH He Hno Hx]; [done|]. destruct (exec_ok w1 s (IH Hok) He Hno) as (a & w' & Hx' & Hok'). rewrite Hx in Hx'. by injection Hx' as _ <-.
Qed.
End steps.

(** ** The first state *)

Lemma init_ok server me name shard sent : ∃ w, clusterInit server me name shard sent = Some w ∧ cluster_ok w ∧ ∀ k, live w k ↔ k = me.
Proof.
  assert (Hw : wp (_ ← clusterCloseAllSlots; _ ← createClusterNode me name shard (Z.lor CLUSTER_NODE_MYSELF CLUSTER_NODE_MASTER); _ ← clusterAddNode me;
    _ ← clusterAddNodeToShard shard me; _ ← emit EffSaveConfig; _ ← resetManualFailover; clusterUpdateMyselfFlags server) (World ∅ (blank me sent) 0 0 []) (λ _ w', cluster_ok w' ∧ ∀ k, live w' k ↔ k = me)).
  2:{ destruct Hw as (a & w & E & Hok). exists w. unfold clusterInit. by rewrite E. }
  apply wp_bind. unfold clusterCloseAllSlots. apply wp_bind, wp_modify, wp_modify. cbn [with_state w_c w_heap w_ticks w_randoms w_out].
  set (c := put_importing_slots_from _ _). assert (Ec : c = blank me sent) by done. clearbody c. subst c.
  apply wp_bind. eexists tt, _. split; [done|]. apply wp_bind. unfold clusterAddNode. apply wp_bind, wp_gets, wp_bind, wp_assert; [apply bool_decide_eq_true_2; by apply not_elem_of_nil|].
  apply wp_modify. set (w1 := with_state _ _). assert (Hok : cluster_ok w1).
  { assert (Hh : vheap w1 = {[ me := new_view true false ]}) by (unfold w1; cbn [with_state w_heap]; by rewrite fmap_insert, fmap_empty).
    unfold cluster_ok. rewrite Hh. apply (inv_fresh _ _ false); try done.
    - intros n v [<- <-]%lookup_singleton_Some. by exists true, false.
    - apply lookup_singleton_eq.
    - apply NoDup_singleton.
    - intros n. cbn. rewrite list_elem_of_singleton. destruct (decide (n = me)) as [->|Hne]; [rewrite lookup_singleton_eq; split; [by eexists|done]|].
      rewrite lookup_singleton_ne by done. split; [done|by intros []]. }
  apply wp_bind. call addToShard_spec. intros _ w2 Ha2. apply wp_bind, wp_emit, wp_bind. call resetManualFailover_spec. intros _ w3 Ha3.
  pose proof (alike_trans w1 w2 w3 Ha2 Ha3) as Ha. assert (Hok3 : cluster_ok w3) by (by eapply alike_ok).
  call (myselfFlags_calm server w3 Hok3 w3 (steady_refl w3 Hok3)). intros _ w4 Hs4. split; [apply Hs4|]. intros k. rewrite (steady_live w3 w4 k Hs4). unfold live. rewrite <- vheap_is_Some, (proj1 Ha), vheap_is_Some. unfold w1. cbn.
  rewrite lookup_insert_is_Some', lookup_empty. split; [intros [<-|[]]; done|by left].
Qed.
Lemma init_runs_ok clock randoms server me name shard sent w w' :
  clusterInit server me name shard sent = Some w → runs clock randoms server w w' → cluster_ok w'.
Proof.
  intros Hi. destruct (init_ok server me name shard sent) as (w1 & Hi' & Hok & _). rewrite Hi in Hi'. injection Hi' as <-. by apply runs_ok.
Qed.

(** ** Why a replica must not be given slots *)

(** The loop of [clusterUpdateSlots] for one free slot [j]: this node, whatever
    its role, has one slot more. *)
Lemma addslot_any w (j : nat) md slots :
  cluster_ok w → (j < N)%nat → own w j = None → w_heap w !! c_myself (w_c w) = Some md → counted slots [Z.of_nat j] →
  wp (clusterUpdateSlots slots false) w (λ _ w', same_nodes w w' ∧ ∃ md', w_heap w' !! c_myself (w_c w) = Some md' ∧ n_numslots md' = n_numslots md + 1).
Proof.
  intros Hok Hj Ho Hmd [_ Hc]. set (me := c_myself (w_c w)) in *. set (P := λ w', same_nodes w w' ∧ ∃ md', w_heap w' !! me = Some md' ∧ n_numslots md' = n_numslots md + 1).
  eapply wp_mono; [apply (wp_all_slots (λ k _ w', if decide (j < k)%nat then P w' else w' = w)); [by rewrite decide_False by lia|]|].
  - intros i [] w1 Hi HI. apply wp_bind, (wp_lift _ (if decide (Z.of_nat i ∈ [Z.of_nat j]) then 1 else 0)); [by apply load8_single, Hc|].
    destruct (decide (i = j)) as [->|Hne].
    2:{ rewrite decide_False by set_solver. apply wp_ret. destruct (decide (j < i)%nat), (decide (j < S i)%nat); done || lia. }
    rewrite decide_True by set_solver. cbn [Z.eqb negb]. rewrite decide_False in HI by lia. subst w1. eapply (wp_mono _ _ (λ _ w', P w')); [|intros _ w'; by rewrite decide_True by lia].
    apply wp_bind, wp_gets, wp_bind, (entry_of_spec _ j (importing w j)); [by apply importing_lookup|]. apply wp_bind.
    eapply (wp_mono _ _ (λ _ w2, cluster_ok w2 ∧ w_heap w2 = w_heap w ∧ c_myself (w_c w2) = me ∧ c_slots (w_c w2) = c_slots (w_c w))).
    { destruct (importing w j); [|by apply wp_ret]. apply wp_modify. rewrite Nat2Z.id. split_and!; [by apply set_importing|done|by unfold me; destruct (w_c w)|by destruct (w_c w)]. }
    intros _ w2 (Hok2 & Hh2 & Hm2 & Hs2). apply wp_bind, wp_gets. rewrite Hm2. apply wp_bind.
    destruct (addSlot_raw w2 me md j Hok2 Hj) as (bm & _ & _ & Hw); [rewrite Hs2, own_lookup, Ho by done; done|by rewrite Hh2|].
    eapply wp_mono; [exact Hw|]. cbv beta. intros ok w3 (-> & Hf3 & Hh3 & _). apply wp_assert; [done|].
    assert (Hn2 : same_nodes w w2) by (split; [by rewrite Hh2|done]). split; [by eapply same_nodes_trans, frame_same_nodes|].
    assert (Hv : vheap w3 !! me = Some (set_vslots bm (n_numslots md + 1) (view md))) by (by rewrite Hh3, lookup_insert_eq).
    destruct (vheap_lookup_inv _ _ _ Hv) as (md3 & Hmd3 & E). exists md3. split; [done|]. by apply (f_equal v_numslots) in E.
  - cbv beta. intros _ w1. by rewrite decide_True.
Qed.

Lemma slot_owner_same j w o w' : slot_owner j w = Some (o, w') → w' = w.
Proof. unfold slot_owner, mbind, M_bind, gets, entry_of, lift. by repeat case_match; intros [= _ <-]. Qed.
Lemma check_same js slots del w r w' : checkSlotAssignmentsOrReply js slots del w = Some (r, w') → w' = w.
Proof.
  revert slots. induction js as [|j js IH]; intros slots; cbn [checkSlotAssignmentsOrReply]; [by intros [= _ <-]|].
  unfold mbind at 1, M_bind at 1. destruct (slot_owner j w) as [[o w1]|] eqn:Ho; [|done]. apply slot_owner_same in Ho as ->.
  destruct (del && _); [by intros [= _ <-]|]. destruct (negb del && _); [by intros [= _ <-]|]. unfold mbind at 1, M_bind at 1, lift at 1. destruct (load8 slots j) as [v|]; [|done].
  destruct (v =? 1); [by intros [= _ <-]|]. unfold mbind, M_bind, lift. destruct (store _ _ _); [|done]. apply IH.
Qed.

(** On a replica, CLUSTER ADDSLOTS of a free slot is accepted, and the next
    CLUSTER REPLICATE fails the assertion [myself->numslots == 0]. *)
Lemma replica_addslots_aborts w md arg j n nd dbsize :
  cluster_ok w → w_heap w !! c_myself (w_c w) = Some md → nodeIsSlave md = true → getSlotOrReply arg = Some (Z.of_nat j) → own w j = None →
  w_heap w !! n = Some nd → nodeIsSlave nd = false →
  ∃ w', cluster_addslots [arg] false w = Some (ReplyOk, w') ∧ live w' n ∧ cluster_replicate (Some n) dbsize w' = None.
Proof.
  intros Hok Hmd Hsl Ha Ho Hn Hns. set (me := c_myself (w_c w)) in *. assert (Hj : (j < N)%nat) by (apply getSlot_range in Ha; rewrite slot_range in Ha; unfold CLUSTER_SLOTS in Ha; lia).
  assert (Hz : n_numslots md = 0) by (by apply (ns_slave _ _ _ (ok_slots w me md Hok Hmd))).
  assert (Hma : nodeIsMaster md = false).
  { destruct (nodeIsMaster md) eqn:E; [|done]. pose proof (lk_role _ (ok_links w Hok) me _ (vheap_lookup _ _ _ Hmd) E). cbn in *. congruence. }
  assert (Hw : wp (cluster_addslots [arg] false) w (λ r w', r = ReplyOk ∧ same_nodes w w' ∧ ∃ md', w_heap w' !! me = Some md' ∧ n_numslots md' = 1)).
  { unfold cluster_addslots. cbn [mapM]. rewrite Ha. cbn [mbind option_bind mret option_ret]. apply wp_bind.
    assert (Has : assignable w false [Z.of_nat j]).
    { split; [apply NoDup_singleton|]. intros x ->%list_elem_of_singleton. by exists j. }
    assert (Hr : ∀ x, x ∈ [Z.of_nat j] → x ∈ all_slots) by (intros x ->%list_elem_of_singleton; by eapply getSlot_range).
    destruct (check_gives w [Z.of_nat j] _ false [] Hok Hr counted_nil (assignable_nil w false) w (steady_refl w Hok)) as (r & w1 & Hx & _ & Hc).
    exists r, w1. split; [exact Hx|]. apply check_same in Hx as ->. destruct r as [e|slots]; cbn [app] in Hc; [by destruct (Hc Has)|]. destruct Hc as [Hc _]. unfold assign_slots. apply wp_bind.
    call (addslot_any w j md _ Hok Hj Ho Hmd Hc). intros _ w1 [Hn1 (md1 & Hmd1 & E)]. apply wp_bind.
    unfold clusterDoBeforeSleep. apply wp_modify, wp_ret. split_and!; [done| |exists md1; split; [done|lia]]. eapply same_nodes_trans; [done|]. split; [done|by cbn; destruct (w_c w1)]. }
  destruct Hw as (r & w' & Hx & -> & Hn' & md' & Hmd' & E1). exists w'. split; [done|]. split; [by destruct (same_nodes_role _ _ _ _ Hn' Hn) as (nd' & ? & _); exists nd'|].
  destruct (same_nodes_role _ _ _ _ Hn' Hmd) as (md2 & Hmd2 & _ & Em). rewrite Hmd' in Hmd2. injection Hmd2 as <-.
  destruct (same_nodes_role _ _ _ _ Hn' Hn) as (nd' & Hnd' & Ens & _). pose proof (proj2 Hn') as Eme. fold me in Eme.
  assert (Hne : n ≠ me) by (intros ->; rewrite Hmd in Hn; injection Hn as <-; congruence). apply Z.eqb_neq in Hne.
  unfold cluster_replicate, clusterSetMaster, mbind, M_bind, gets, get_node. rewrite Eme, Hne, Hnd', Ens, Hns. cbn. rewrite Hmd', Em, Hma. cbn.
  rewrite Eme, Hne. cbn. by rewrite Hmd', E1.
Qed.


(** A node at address 1 meets a master at address 2 and becomes its replica. *)
Definition demo_server : server_t := Server 15000 true true false false 1 false 10 10 true 100 100 0 0 (λ _, 0).
End ClusterSteps.
