(* ===== verification/ClusterHealth.v ===== *)
(** * cluster.c: when the cluster is up

    [clusterUpdateState] against a definition of a healthy cluster: every slot is
    served, and a majority of the masters is reachable. *)

From S2P Require Import Prelude Util Zskiplist Cluster ClusterCmd ClusterInv ClusterOps ClusterUpdate ClusterCalm.
Import Util Zskiplist Cluster ClusterCmd ClusterInv ClusterOps ClusterUpdate ClusterCalm.

Module ClusterHealth.

#[local] Abbreviation N := (Z.to_nat 16384) (only parsing).

(** ** A healthy cluster *)

(** Slot [j] has an owner that has not failed. *)
Definition slot_served (w : world) (j : nat) : bool :=
  match own w j with Some n => from_option (λ nd, negb (nodeFailed nd)) false (w_heap w !! n) | None => false end.
(** Masters with slots, and those that look alive. *)
Definition serving (w : world) (n : Z) : bool := from_option (λ nd, nodeIsMaster nd && negb (n_numslots nd =? 0)) false (w_heap w !! n).
Definition reachable (w : world) (n : Z) : bool :=
  serving w n && from_option (λ nd, Z.land (n_flags nd) (Z.lor CLUSTER_NODE_FAIL CLUSTER_NODE_PFAIL) =? 0) false (w_heap w !! n).
Definition count (p : Z → bool) (l : list Z) : Z := zlen (filter (λ n, p n = true) l).

Definition healthy (server : server_t) (w : world) : bool :=
  let masters := count (serving w) (c_nodes (w_c w)) in
  (negb (cluster_require_full_coverage server) || forallb (slot_served w) (seq 0 N)) &&
  (Z.quot masters 2 + 1 <=? count (reachable w) (c_nodes (w_c w))).
Definition target_state (server : server_t) (w : world) : Z := if healthy server w then CLUSTER_OK else CLUSTER_FAIL.

(** ** The loops *)

Lemma count_snoc p l n : count p (l ++ [n]) = count p l + (if p n then 1 else 0).
Proof. unfold count. rewrite filter_app, filter_cons, filter_nil, length_app. destruct (p n); cbn [decide decide_rel]; case_decide; cbn [length]; done || lia. Qed.

Lemma slots_covered_spec w js : cluster_ok w → (∀ j, j ∈ js → j ∈ all_slots) →
  wp (slots_covered js) w (λ b w', w' = w ∧ b = forallb (λ j, slot_served w (Z.to_nat j)) js).
Proof.
  intros Hok. induction js as [|j js IH]; intros Hjs; cbn [slots_covered forallb]; [by apply wp_ret|]. destruct (slot_lookup j) as (i & Hi & ->); [apply Hjs; by left|].
  specialize (IH (λ j Hj, Hjs j (list_elem_of_further _ _ _ Hj))). rewrite Nat2Z.id. apply wp_bind, (slot_owner_spec i (own w i)); [by apply own_lookup|].
  unfold slot_served at 1. pose proof (own_lookup w i Hok Hi) as Ho. destruct (own w i) as [n|]; [|by apply wp_ret].
  destruct (ok_owner w i n Hok Ho) as [nd Hnd]. apply wp_bind, (wp_get_node _ _ _ _ Hnd). rewrite Hnd. cbn. by destruct (nodeFailed nd); [apply wp_ret|].
Qed.

Lemma all_slots_forallb (p : nat → bool) : forallb (λ j, p (Z.to_nat j)) all_slots = forallb p (seq 0 N).
Proof.
  apply eq_true_iff_eq. rewrite !forallb_forall. split; intros Hp j Hj.
  - rewrite <- (Nat2Z.id j). apply Hp. apply list_elem_of_In, slot_range. apply list_elem_of_In in Hj. rewrite elem_of_seq in Hj. unfold CLUSTER_SLOTS. lia.
  - apply Hp. apply list_elem_of_In in Hj. apply list_elem_of_In. rewrite slot_range in Hj. unfold CLUSTER_SLOTS in Hj. apply elem_of_seq. lia.
Qed.

(** The same nodes, slots and state. *)
Definition put_sizes (w : world) (k : Z) : world := with_state w (put_size k (w_c w)).
Lemma put_size_get k c : c_size (put_size k c) = k.
Proof. by destruct c. Qed.
Lemma count_loop_spec w :
  cluster_ok w → c_size (w_c w) = 0 →
  wp (for_each (λ n reachable,
        nd ← get_node n;
        if nodeIsMaster nd && negb (n_numslots nd =? 0) then
          _ ← modify (λ c, put_size (c_size c + 1) c);
          mret (if Z.land (n_flags nd) (Z.lor CLUSTER_NODE_FAIL CLUSTER_NODE_PFAIL) =? 0 then reachable + 1 else reachable)
        else mret reachable) (c_nodes (w_c w)) 0) w
    (λ r w', r = count (reachable w) (c_nodes (w_c w)) ∧ w' = put_sizes w (count (serving w) (c_nodes (w_c w)))).
Proof.
  intros Hok Hz. pose proof (wp_for_each (λ pre r w', r = count (reachable w) pre ∧ w' = put_sizes w (count (serving w) pre))
    (λ n reachable, nd ← get_node n; if nodeIsMaster nd && negb (n_numslots nd =? 0) then _ ← modify (λ c, put_size (c_size c + 1) c);
      mret (if Z.land (n_flags nd) (Z.lor CLUSTER_NODE_FAIL CLUSTER_NODE_PFAIL) =? 0 then reachable + 1 else reachable) else mret reachable)
    (c_nodes (w_c w)) [] 0 w) as Hloop. apply Hloop; clear Hloop; [split; [done|]; transitivity (put_sizes w (c_size (w_c w))); [unfold put_sizes, with_state; by destruct w as [? []]|by rewrite Hz]|].
  cbn [app]. intros pre n post r w1 E [-> ->]. destruct (live_nodes w n Hok) as [nd Hnd]; [rewrite E; set_solver|].
  apply wp_bind, (wp_get_node _ nd); [done|]. rewrite !count_snoc. unfold reachable, serving. rewrite Hnd. cbn [from_option default].
  destruct (nodeIsMaster nd && negb (n_numslots nd =? 0)); cbn [andb].
  - apply wp_bind, wp_modify, wp_ret. split; [destruct (Z.land _ _ =? 0); lia|]. unfold put_sizes, with_state. cbn. f_equal. by destruct (w_c w).
  - apply wp_ret. rewrite !Z.add_0_r. done.
Qed.

(** ** The update *)

(** The nodes, the slots, the state and the times are the same. *)
Record unchanged (w w' : world) : Prop := {
  un_heap : w_heap w' = w_heap w;
  un_core : core (w_c w') = core (w_c w);
  un_state : c_state (w_c w') = c_state (w_c w);
  un_first : c_first_call_time (w_c w) ≠ 0 → c_first_call_time (w_c w') = c_first_call_time (w_c w);
  un_minority : c_among_minority_time (w_c w') = c_among_minority_time (w_c w);
}.
Lemma unchanged_ok w w' : unchanged w w' → cluster_ok w → cluster_ok w'.
Proof. intros [E1 E2 _ _ _] Hok. unfold cluster_ok. rewrite E1. by eapply inv_core. Qed.
Lemma unchanged_refl w : unchanged w w.
Proof. by split. Qed.
Lemma unchanged_trans w1 w2 w3 : unchanged w1 w2 → unchanged w2 w3 → unchanged w1 w3.
Proof. intros [A1 A2 A3 A4 A5] [B1 B2 B3 B4 B5]. split; try congruence. intros Hne. rewrite B4 by (rewrite A4 by done; done). by apply A4. Qed.
Lemma unchanged_healthy server w w' : unchanged w w' → healthy server w' = healthy server w.
Proof.
  intros [E1 E2 _ _ _]. destruct (core_fields _ _ E2) as (_ & En & Es & _). unfold healthy, slot_served, reachable, serving, own. by rewrite E1, En, Es.
Qed.

Section update.
Context (clock : nat → Z) (server : server_t).

Lemma wp_mstime w (Q : Z → world → Prop) :
  (∀ w', unchanged w w' → Q (clock (w_ticks w)) w') → wp (mstime clock) w Q.
Proof using Type. intros HQ. eexists _, _. split; [done|]. apply HQ. by split. Qed.

(** The delays of [clusterUpdateState] have passed. *)
Definition settled (w : world) : Prop :=
  c_first_call_time (w_c w) ≠ 0 ∧
  ∀ k, CLUSTER_WRITABLE_DELAY ≤ clock k - c_first_call_time (w_c w) ∧ CLUSTER_MAX_REJOIN_DELAY ≤ clock k - c_among_minority_time (w_c w).

Definition state_updated (w w' : world) : Prop :=
  w_heap w' = w_heap w ∧ core (w_c w') = core (w_c w) ∧
  (c_state (w_c w') = target_state server w ∨
   c_state (w_c w') = c_state (w_c w) ∧ c_state (w_c w) ≠ CLUSTER_OK ∧ my_master w = Some (c_myself (w_c w)) ∧ ¬ settled w).

Lemma unchanged_put w c : core c = core (w_c w) → c_state c = c_state (w_c w) → c_first_call_time c = c_first_call_time (w_c w) →
  c_among_minority_time c = c_among_minority_time (w_c w) → unchanged w (with_state w c).
Proof using Type. by split. Qed.
Lemma my_master_me w md : w_heap w !! c_myself (w_c w) = Some md → nodeIsMaster md = true → my_master w = Some (c_myself (w_c w)).
Proof using Type. intros Hmd Hma. unfold my_master. rewrite Hmd. cbn. by rewrite Hma. Qed.

(** The last part: the new state is set, after a delay for a master. *)
Lemma set_state_spec w w1 new md :
  w_heap w1 = w_heap w → core (w_c w1) = core (w_c w) → c_state (w_c w1) = c_state (w_c w) → w_heap w !! c_myself (w_c w) = Some md →
  new = target_state server w → (new = CLUSTER_OK → c_among_minority_time (w_c w1) = c_among_minority_time (w_c w)) →
  wp (state ← gets c_state;
      if negb (new =? state) then
        let rejoin_delay := cluster_node_timeout server in
        let rejoin_delay := if rejoin_delay >? CLUSTER_MAX_REJOIN_DELAY then CLUSTER_MAX_REJOIN_DELAY else rejoin_delay in
        let rejoin_delay := if rejoin_delay <? CLUSTER_MIN_REJOIN_DELAY then CLUSTER_MIN_REJOIN_DELAY else rejoin_delay in
        delayed ← (if (new =? CLUSTER_OK) && nodeIsMaster md
                   then t ← mstime clock; among_minority_time ← gets c_among_minority_time; mret (t - among_minority_time <? rejoin_delay)
                   else mret false);
        if (delayed : bool) then mret tt else modify (put_state new)
      else mret tt) w1 (λ _ w', state_updated w w').
Proof using Type.
  intros Hh Hc Hst Hmd Hnew Ham. apply wp_bind, wp_gets. rewrite Hst. destruct (Z.eqb_spec new (c_state (w_c w))) as [E|Hne]; cbn [negb].
  { apply wp_ret. split_and!; [done|done|]. left. congruence. }
  cbv zeta. apply wp_bind. set (delay := if _ <? CLUSTER_MIN_REJOIN_DELAY then _ else _).
  assert (Hd : delay ≤ CLUSTER_MAX_REJOIN_DELAY).
  { unfold delay, CLUSTER_MIN_REJOIN_DELAY, CLUSTER_MAX_REJOIN_DELAY. destruct (Z.gtb_spec (cluster_node_timeout server) 5000); destruct (_ <? 500); lia. }
  eapply (wp_mono _ _ (λ b w2, unchanged w1 w2 ∧ (b = true → new = CLUSTER_OK ∧ nodeIsMaster md = true ∧ ¬ settled w))).
  { destruct ((new =? CLUSTER_OK) && nodeIsMaster md) eqn:E; [|apply wp_ret; split; [apply unchanged_refl|done]]. apply andb_true_iff in E as [En%Z.eqb_eq Hma].
    apply wp_bind, wp_mstime. intros w2 Hu. apply wp_bind, wp_gets, wp_ret. split; [done|]. intros Hlt%Z.ltb_lt. split_and!; [done|done|]. intros [_ Hset].
    destruct (Hset (w_ticks w1)) as [_ Hmin]. rewrite (un_minority _ _ Hu), (Ham En) in Hlt. lia. }
  intros b w2 [[U1 U2 U3 _ _] Hb]. destruct b.
  - destruct (Hb eq_refl) as (En & Hma & Hns). apply wp_ret. split_and!; [congruence|congruence|]. right. split_and!; [congruence|congruence|by eapply my_master_me|done].
  - apply wp_modify. split_and!; [cbn; congruence| |left; cbn; by destruct (w_c w2)]. rewrite <- Hc, <- U2. cbn. by destruct (w_c w2).
Qed.

Lemma updateState_spec w : cluster_ok w → wp (clusterUpdateState clock server) w (λ _ w', state_updated w w').
Proof using Type.
  intros Hok. unfold clusterUpdateState. destruct (live_myself w Hok) as [md Hmd]. apply wp_bind, wp_modify. set (w1 := with_state _ _).
  assert (Hu1 : unchanged w w1) by (apply unchanged_put; by destruct (w_c w)). apply wp_bind, wp_gets, wp_bind. eapply (wp_mono _ _ (λ _ w2, unchanged w w2)).
  { destruct (Z.eqb_spec (c_first_call_time (w_c w1)) 0) as [E|]; [|by apply wp_ret]. apply wp_bind, wp_mstime. intros w2 Hu2. apply wp_modify.
    assert (Hz : c_first_call_time (w_c w) = 0) by (rewrite <- E; unfold w1; cbn; by destruct (w_c w)). destruct (unchanged_trans _ _ _ Hu1 Hu2) as [A1 A2 A3 A4 A5].
    split; [done|by rewrite <- A2; cbn; destruct (w_c w2)|by rewrite <- A3; cbn; destruct (w_c w2)|done|by rewrite <- A5; cbn; destruct (w_c w2)]. }
  intros _ w2 Hu2. assert (Eme : c_myself (w_c w2) = c_myself (w_c w)) by apply (core_fields _ _ (un_core _ _ Hu2)).
  apply wp_bind, wp_gets. rewrite Eme. apply wp_bind, (wp_get_node _ md); [by rewrite (un_heap _ _ Hu2)|]. apply wp_bind, wp_gets. rewrite (un_state _ _ Hu2). apply wp_bind.
  eapply (wp_mono _ _ (λ b w3, unchanged w w3 ∧ (b = true → nodeIsMaster md = true ∧ c_state (w_c w) = CLUSTER_FAIL ∧ ¬ settled w))).
  { destruct (nodeIsMaster md && (c_state (w_c w) =? CLUSTER_FAIL)) eqn:E; [|by apply wp_ret]. apply andb_true_iff in E as [Hma Est%Z.eqb_eq].
    apply wp_bind, wp_mstime. intros w3 Hu3. pose proof (unchanged_trans _ _ _ Hu2 Hu3) as Hu. apply wp_bind, wp_gets, wp_ret. split; [done|]. intros Hlt%Z.ltb_lt. split_and!; [done|done|].
    intros [Hf Hset]. destruct (Hset (w_ticks w2)) as [Hwr _]. rewrite (un_first _ _ Hu Hf) in Hlt. lia. }
  intros b w3 [Hu3 Hb]. destruct b.
  { destruct (Hb eq_refl) as (Hma & Est & Hns). destruct Hu3 as [A1 A2 A3 _ _]. apply wp_ret. split_and!; [done|done|]. right. split_and!; [done|by rewrite Est|by eapply my_master_me|done]. }
  pose proof (unchanged_ok _ _ Hu3 Hok) as Hok3. apply wp_bind.
  eapply (wp_mono _ _ (λ b w4, w4 = w3 ∧ b = negb (cluster_require_full_coverage server) || forallb (slot_served w3) (seq 0 N))).
  { destruct (cluster_require_full_coverage server); [|by apply wp_ret]. call slots_covered_spec. intros b w4 [-> ->]. split; [done|]. cbn [negb orb].
    apply all_slots_forallb. }
  intros b w4 [-> ->]. cbv zeta. apply wp_bind, wp_modify. set (w5 := with_state w3 _). assert (Hu5 : unchanged w w5).
  { eapply unchanged_trans; [exact Hu3|]. apply unchanged_put; by destruct (w_c w3). }
  assert (Hn5 : c_nodes (w_c w5) = c_nodes (w_c w)) by apply (core_fields _ _ (un_core _ _ Hu5)).
  assert (Hz5 : c_size (w_c w5) = 0) by apply put_size_get.
  apply wp_bind, wp_gets, wp_bind. eapply wp_mono; [exact (count_loop_spec w5 (unchanged_ok _ _ Hu5 Hok) Hz5)|cbv beta]. intros r w6 [-> ->].
  assert (Hu6 : unchanged w (put_sizes w5 (count (serving w5) (c_nodes (w_c w5))))).
  { eapply unchanged_trans; [exact Hu5|]. apply unchanged_put; by destruct (w_c w5). }
  set (w6 := put_sizes _ _) in *. assert (Hs6 : c_size (w_c w6) = count (serving w5) (c_nodes (w_c w5))) by apply put_size_get.
  apply wp_bind, wp_gets. rewrite Hs6. apply wp_bind.
  assert (Htarget : target_state server w =
    if count (reachable w5) (c_nodes (w_c w5)) <? Z.quot (count (serving w5) (c_nodes (w_c w5))) 2 + 1 then CLUSTER_FAIL
    else if negb (cluster_require_full_coverage server) || forallb (slot_served w3) (seq 0 N) then CLUSTER_OK else CLUSTER_FAIL).
  { unfold target_state. rewrite <- (unchanged_healthy server w w5 Hu5). unfold healthy. cbv zeta. rewrite Z.ltb_antisym. destruct (_ <=? _); cbn [negb]; [|by rewrite andb_false_r].
    rewrite andb_true_r. assert (E : c_slots (w_c w5) = c_slots (w_c w3)) by (unfold w5; cbn; by destruct (w_c w3)).
    unfold slot_served, own. rewrite E. done. }
  destruct (_ <? _).
  - apply wp_bind, wp_mstime. intros w7 Hu7. apply wp_bind, wp_modify, wp_ret. destruct (unchanged_trans _ _ _ Hu6 Hu7) as [A1 A2 A3 _ _].
    eapply set_state_spec; [done|rewrite <- A2; cbn; by destruct (w_c w7)|rewrite <- A3; cbn; by destruct (w_c w7)|done|by symmetry|by intros [=]].
  - apply wp_ret. destruct Hu6 as [A1 A2 A3 _ A5]. eapply set_state_spec; [done|done|done|done|by symmetry|done].
Qed.
End update.

(** C16: [clusterUpdateState] returns and touches neither nodes nor slots.  The
    state becomes OK or FAIL as the cluster is healthy or not: every slot has an
    owner that has not failed (when full coverage is required) and at least
    [size / 2 + 1] of the [size] masters with slots have no failure flag.  Only a
    master that is not OK may stay as it is, until the delays after the start and
    after a minority partition have passed; then it follows, too.  In particular the
    state is OK only in a healthy cluster. *)
Theorem updateState_correct clock server w :
  cluster_ok w →
  ∃ w', clusterUpdateState clock server w = Some (tt, w') ∧ state_updated clock server w w' ∧
    (settled clock w → c_state (w_c w') = target_state server w) ∧
    (c_state (w_c w') = CLUSTER_OK → healthy server w = true).
Proof.
  intros Hok. destruct (updateState_spec clock server w Hok) as ([] & w' & Hx & Hu). exists w'. pose proof Hu as (_ & _ & Hst). split_and!; [done|done| |].
  - intros Hs. by destruct Hst as [?|(_ & _ & _ & Hns)].
  - intros E. destruct Hst as [Ht|(Eq & Hne & _)]; [|congruence]. unfold target_state in Ht. destruct (healthy server w); [done|]. by rewrite Ht in E.
Qed.

(** Two masters without slots: the state was OK and is FAIL now. *)
Lemma updateState_correct_witness : ∃ w', clusterUpdateState Z.of_nat demo_config demo_world = Some (tt, w') ∧ state_updated Z.of_nat demo_config demo_world w' ∧
  c_state (w_c demo_world) = CLUSTER_OK ∧ c_state (w_c w') = CLUSTER_FAIL.
Proof.
  destruct (updateState_correct Z.of_nat demo_config demo_world demo_world_ok) as (w' & Hx & Hu & _). exists w'. split; [exact Hx|]. split; [exact Hu|]. split; [reflexivity|].
  assert (Hh : healthy demo_config demo_world = false) by (unfold healthy; rewrite andb_comm; reflexivity).
  destruct Hu as (_ & _ & [Ht|(_ & Hne & _)]); [|by destruct Hne]. unfold target_state in Ht. by rewrite Hh in Ht.
Defined.
End ClusterHealth.
