(* ===== verification/ClusterVote.v ===== *)
(** * cluster.c: votes and elections

    A node votes at most once in an epoch, whatever else it does, so two replicas
    cannot both be elected by a majority in the same epoch. *)

From S2P Require Import Prelude Util Zskiplist Cluster ClusterCmd ClusterInv ClusterCalm ClusterSteps.
Import Util Zskiplist Cluster ClusterCmd ClusterInv ClusterCalm ClusterSteps.

Module ClusterVote.

(** ** What a computation does to epochs and votes *)

Definition cur (w : world) : Z := c_currentEpoch (w_c w).
Definition last_vote (w : world) : Z := c_lastVoteEpoch (w_c w).
(** The candidates that got a vote, in the order of the messages. *)
Definition votes (w : world) : list Z := omap (λ e, match e with EffSendFailoverAuth n => Some n | _ => None end) (w_out w).

(** No vote, and the epoch grows by [k] at most. *)
Definition grows {A} (k : Z) (m : M A) : Prop := ∀ w a w', m w = Some (a, w') → 0 ≤ cur w → cur w + k < 2 ^ 64 →
  votes w' = votes w ∧ last_vote w' = last_vote w ∧ cur w ≤ cur w' ≤ cur w + k.

Section rules.
Lemma grows_mono {A} k k' (m : M A) : k ≤ k' → grows k m → grows k' m.
Proof. intros Hk Hm w a w' E H0 Hb. destruct (Hm w a w' E) as (? & ? & ?); [lia|lia|]. split_and!; try done; lia. Qed.
Lemma grows_bind {A B} k k1 k2 (m : M A) (f : A → M B) : k1 + k2 = k → 0 ≤ k2 → grows k1 m → (∀ a, grows k2 (f a)) → grows k (m ≫= f).
Proof.
  intros <- Hk Hm Hf w b w' E H0 Hb. unfold mbind, M_bind in E. destruct (m w) as [[a w1]|] eqn:E1; [|done].
  destruct (Hm w a w1 E1) as (V1 & L1 & C1 & C2); [lia|lia|]. destruct (Hf a w1 b w' E) as (V2 & L2 & C3 & C4); [lia|lia|]. split_and!; try congruence; lia.
Qed.
Lemma grows_ret {A} (a : A) : grows 0 (mret a).
Proof. intros w b w' [= _ <-] H0 Hb. split_and!; try done; lia. Qed.
Lemma grows_same {A} (m : M A) : (∀ w a w', m w = Some (a, w') → w_c w' = w_c w ∧ w_out w' = w_out w) → grows 0 m.
Proof. intros Hm w a w' E H0 Hb. destruct (Hm w a w' E) as [E1 E2]. unfold votes, last_vote, cur in *. rewrite E1, E2. split_and!; try done; lia. Qed.
Lemma grows_gets {A} (f : clusterState → A) : grows 0 (gets f).
Proof. apply grows_same. by intros w a w' [= _ <-]. Qed.
Lemma grows_lift {A} (x : option A) : grows 0 (lift x).
Proof. apply grows_same. intros w a w'. unfold lift. destruct x; [|done]. by intros [= _ <-]. Qed.
Lemma grows_get_node n : grows 0 (get_node n).
Proof. apply grows_same. intros w a w'. unfold get_node. destruct (_ !! _); [|done]. by intros [= _ <-]. Qed.
Lemma grows_mod_node n f : grows 0 (mod_node n f).
Proof. apply grows_same. intros w a w'. unfold mod_node. destruct (_ !! _); [|done]. by intros [= _ <-]. Qed.
Lemma grows_alloc n nd : grows 0 (alloc_node n nd).
Proof. apply grows_same. intros w a w'. unfold alloc_node. destruct (_ !! _); [done|]. by intros [= _ <-]. Qed.
Lemma grows_dealloc n : grows 0 (dealloc_node n).
Proof. apply grows_same. intros w a w'. unfold dealloc_node. destruct (_ !! _); [|done]. by intros [= _ <-]. Qed.
Lemma grows_mstime clock : grows 0 (mstime clock).
Proof. apply grows_same. by intros w a w' [= _ <-]. Qed.
Lemma grows_random randoms : grows 0 (random randoms).
Proof. apply grows_same. by intros w a w' [= _ <-]. Qed.
Lemma grows_modify f : (∀ c, c_currentEpoch (f c) = c_currentEpoch c ∧ c_lastVoteEpoch (f c) = c_lastVoteEpoch c) → grows 0 (modify f).
Proof. intros Hf w a w' [= _ <-] H0 Hb. destruct (Hf (w_c w)) as [E1 E2]. unfold votes, last_vote, cur in *. cbn. rewrite E1, E2. split_and!; try done; lia. Qed.
Lemma grows_emit e : (∀ n, e ≠ EffSendFailoverAuth n) → grows 0 (emit e).
Proof.
  intros He w a w' [= _ <-] H0 Hb. unfold votes, last_vote, cur in *. cbn. split_and!; try done; try lia. rewrite omap_app. cbn.
  destruct e; cbn; try apply app_nil_r. by destruct (He n).
Qed.
Lemma grows_for_each {A B} (body : A → B → M B) js acc : (∀ j acc, grows 0 (body j acc)) → grows 0 (for_each body js acc).
Proof.
  intros Hb. revert acc. induction js as [|j js IH]; intros acc; cbn [for_each]; [apply grows_ret|]. by apply (grows_bind _ 0 0); [done|done|apply Hb|].
Qed.
End rules.

(** A computation that does not increase the epoch: its definition is
    unfolded, except for the recursive functions, which have lemmas. *)
Create HintDb epochs.
Ltac head t := lazymatch t with ?f _ => head f | _ => t end.
Ltac grow_step :=
  lazymatch goal with
  | |- grows 0 (mret _) => apply grows_ret
  | |- grows 0 (gets _) => apply grows_gets
  | |- grows 0 (lift _) => apply grows_lift
  | |- grows 0 (get_node _) => apply grows_get_node
  | |- grows 0 (mod_node _ _) => apply grows_mod_node
  | |- grows 0 (alloc_node _ _) => apply grows_alloc
  | |- grows 0 (dealloc_node _) => apply grows_dealloc
  | |- grows 0 (mstime _) => apply grows_mstime
  | |- grows 0 (random _) => apply grows_random
  | |- grows 0 (modify _) => apply grows_modify; intros []; done
  | |- grows 0 (emit _) => apply grows_emit; done
  | |- grows 0 (for_each _ _ _) => apply grows_for_each; intros ? ?
  | |- grows 0 (_ ≫= _) => apply (grows_bind 0 0 0); [done|done| |intros ?]
  | |- grows _ (match ?x with _ => _ end) => destruct x
  | |- grows 0 ?m => let h := head m in unfold h
  end.
Ltac grow := cbv zeta; repeat (first [solve [auto with epochs] | grow_step]; cbv beta zeta).

(** ** Operations that keep the epoch *)

Lemma slots_covered_grows js : grows 0 (slots_covered js).
Proof. induction js; cbn [slots_covered]; grow. Qed.
Lemma send_updates_grows js n e slots : grows 0 (send_updates js n e slots).
Proof. induction js; cbn [send_updates]; grow. Qed.
Lemma check_grows js slots del : grows 0 (checkSlotAssignmentsOrReply js slots del).
Proof. revert slots. induction js; intros; cbn [checkSlotAssignmentsOrReply]; grow. Qed.
#[export] Hint Resolve slots_covered_grows send_updates_grows check_grows : epochs.
Lemma parse_ranges_grows n args slots del : (length args ≤ n)%nat → grows 0 (parse_ranges args slots del).
Proof.
  revert args slots. induction n as [|n IH]; intros args slots Hn; [destruct args; [|cbn in Hn; lia]; apply grows_ret|].
  destruct args as [|a [|b args]]; cbn [parse_ranges]; [apply grows_ret..|]. cbn in Hn.
  assert (Hrec : ∀ slots, grows 0 (parse_ranges args slots del)) by (intros; apply IH; lia). grow.
Qed.

Section keep.
Context (clock randoms : nat → Z) (server : server_t).
Lemma delNode_grows n : grows 0 (clusterDelNode clock server n).
Proof using Type. grow. Qed.
Lemma updateConfig_grows n e slots : grows 0 (clusterUpdateSlotsConfigWith server n e slots).
Proof using Type. grow. Qed.
Lemma replaceMaster_grows : grows 0 (clusterFailoverReplaceYourMaster clock server).
Proof using Type. grow. Qed.
Lemma migration_grows k : grows 0 (clusterHandleSlaveMigration clock server k).
Proof using Type. grow. Qed.
End keep.
#[export] Hint Resolve delNode_grows updateConfig_grows replaceMaster_grows migration_grows : epochs.

(** ** Operations that may increase the epoch *)

Lemma grows_next : grows 1 (modify (λ c, put_currentEpoch (u64 (c_currentEpoch c + 1)) c)).
Proof.
  intros w a w' [= _ <-] H0 Hb. unfold cur, last_vote, votes in *. cbn. rewrite wrapu_small by (unfold ufits; lia).
  destruct (w_c w). cbn in *. split_and!; done || lia.
Qed.
#[export] Hint Resolve grows_next : epochs.
Ltac grow1_step :=
  lazymatch goal with
  | |- grows 1 (_ ≫= _) =>
      first [apply (grows_bind 1 0 1); [done|done|solve [grow]|intros ?] | apply (grows_bind 1 1 0); [done|done| |intros ?; solve [grow]]]
  | |- grows 1 (match ?x with _ => _ end) => destruct x
  | |- grows 1 ?m => first [solve [auto with epochs] | solve [apply (grows_mono 0 1); [lia|grow]] | let h := head m in unfold h]
  end.
Ltac grow1 := cbv zeta; repeat (grow1_step; cbv beta zeta).

Section rise.
Context (clock randoms : nat → Z) (server : server_t).
Lemma slaveFailover_grows : grows 1 (clusterHandleSlaveFailover clock randoms server).
Proof using Type. grow1. Qed.
#[local] Hint Resolve slaveFailover_grows : epochs.
Lemma update_slots_of_grows n hdr : grows 1 (update_slots_of server n hdr).
Proof using Type. grow1. Qed.
Lemma cron_grows migrate b : grows 1 (cron_failover clock randoms server migrate b).
Proof using Type. grow1. Qed.
Lemma beforeSleep_grows : grows 1 (clusterBeforeSleep clock randoms server).
Proof using Type. grow1. Qed.
Lemma setslot_grows slot a : grows 1 (cluster_setslot server slot a).
Proof using Type. grow1. Qed.
Lemma failover_grows force takeover link : grows 1 (cluster_failover clock server force takeover link).
Proof using Type. grow1. Qed.
End rise.

(** ** One vote *)

Definition quiet {A} (m : M A) : Prop := ∀ w a w', m w = Some (a, w') → w_c w' = w_c w ∧ w_out w' = w_out w.
Lemma bind_inv {A B} (m : M A) (f : A → M B) w b w' : (m ≫= f) w = Some (b, w') → ∃ a w1, m w = Some (a, w1) ∧ f a w1 = Some (b, w').
Proof. unfold mbind, M_bind. destruct (m w) as [[a w1]|]; [|done]. intros E. by exists a, w1. Qed.
Lemma quiet_bind {A B} (m : M A) (f : A → M B) : quiet m → (∀ a, quiet (f a)) → quiet (m ≫= f).
Proof. intros Hm Hf w b w' (a & w1 & E1 & E2)%bind_inv. destruct (Hm w a w1 E1) as [A1 A2]. destruct (Hf a w1 b w' E2) as [B1 B2]. split; congruence. Qed.
Lemma quiet_ret {A} (a : A) : quiet (mret a).
Proof. by intros w b w' [= _ <-]. Qed.
Lemma quiet_gets {A} (f : clusterState → A) : quiet (gets f).
Proof. by intros w a w' [= _ <-]. Qed.
Lemma quiet_lift {A} (x : option A) : quiet (lift x).
Proof. intros w a w'. unfold lift. destruct x; [|done]. by intros [= _ <-]. Qed.
Lemma quiet_get n : quiet (get_node n).
Proof. intros w a w'. unfold get_node. destruct (_ !! _); [|done]. by intros [= _ <-]. Qed.
Lemma quiet_mod n f : quiet (mod_node n f).
Proof. intros w a w'. unfold mod_node. destruct (_ !! _); [|done]. by intros [= _ <-]. Qed.
Lemma quiet_mstime clock : quiet (mstime clock).
Proof. by intros w a w' [= _ <-]. Qed.
Lemma quiet_owner j : quiet (slot_owner j).
Proof. apply quiet_bind; [apply quiet_gets|]. intros l. apply quiet_lift. Qed.
Lemma quiet_unclaimed j : quiet (isSlotUnclaimed j).
Proof. apply quiet_bind; [apply quiet_owner|]. intros [n|]; [|apply quiet_ret]. apply quiet_bind; [apply quiet_gets|]. intros bm. apply quiet_lift. Qed.
Lemma quiet_epochs_ok js slots e : quiet (epochs_ok js slots e).
Proof.
  induction js as [|j js IH]; cbn [epochs_ok]; [apply quiet_ret|]. apply quiet_bind; [apply quiet_lift|]. intros b. destruct (negb b); [done|].
  apply quiet_bind; [apply quiet_unclaimed|]. intros un. apply quiet_bind; [|intros fine; destruct fine; [done|apply quiet_ret]]. destruct un; [apply quiet_ret|].
  apply quiet_bind; [apply quiet_owner|]. intros o. apply quiet_bind; [apply quiet_lift|]. intros own. apply quiet_bind; [apply quiet_get|]. intros nd. apply quiet_ret.
Qed.

(** The state and the messages stay, or there is one vote, with the current
    epoch as the last one voted in. *)
Definition voted (n : Z) (req : clusterMsg) (w w' : world) : Prop :=
  cur w' = cur w ∧
  (votes w' = votes w ∧ last_vote w' = last_vote w ∨
   votes w' = votes w ++ [n] ∧ last_vote w ≠ cur w ∧ last_vote w' = cur w ∧ cur w ≤ h_currentEpoch req).
Definition same_out (w w' : world) : Prop := w_c w' = w_c w ∧ w_out w' = w_out w.
Lemma voted_not n req w w' : same_out w w' → voted n req w w'.
Proof. intros [E1 E2]. unfold voted, cur, votes, last_vote. rewrite E1, E2. auto. Qed.

Ltac vote_read :=
  lazymatch goal with
  | H : (?m ≫= _) ?w = Some _, HS : same_out ?w0 ?w |- _ =>
      let a := fresh "a" in let w1 := fresh "w" in let E := fresh "E" in
      apply bind_inv in H as (a & w1 & E & H);
      let Q := fresh in assert (Q : same_out w w1) by (first [exact (quiet_get _ _ _ _ E)|exact (quiet_mstime _ _ _ _ E)|exact (quiet_epochs_ok _ _ _ _ _ _ E)]);
      let HS' := fresh "HS" in assert (HS' : same_out w0 w1) by (destruct HS, Q; split; congruence); clear Q HS; rename HS' into HS
  end.

Lemma sendAuth_votes clock server n req w w' : clusterSendFailoverAuthIfNeeded clock server n req w = Some (tt, w') → voted n req w w'.
Proof.
  intros H. unfold clusterSendFailoverAuthIfNeeded in H. assert (HS : same_out w w) by done. vote_read. cbv zeta in H.
  apply bind_inv in H as (me & w2 & [= <- <-] & H). vote_read. destruct (_ || _); [injection H as <-; by apply voted_not|].
  apply bind_inv in H as (cu & w3 & [= <- <-] & H). assert (Ec : c_currentEpoch (w_c w1) = cur w) by (destruct HS as [-> _]; done). rewrite Ec in H.
  destruct (Z.ltb_spec (h_currentEpoch req) (cur w)); [injection H as <-; by apply voted_not|].
  apply bind_inv in H as (lv & w3 & [= <- <-] & H). assert (El : c_lastVoteEpoch (w_c w1) = last_vote w) by (destruct HS as [-> _]; done). rewrite El in H.
  destruct (Z.eqb_spec (last_vote w) (cur w)) as [|Hne]; [injection H as <-; by apply voted_not|].
  destruct (nodeIsMaster a); [injection H as <-; by apply voted_not|]. destruct (n_slaveof a) as [m|]; [|injection H as <-; by apply voted_not].
  vote_read. destruct (_ && _); [injection H as <-; by apply voted_not|]. vote_read. destruct (_ <? _); [injection H as <-; by apply voted_not|]. vote_read.
  match type of H with context [negb ?b] => destruct (negb b) end; [injection H as <-; by apply voted_not|].
  apply bind_inv in H as (? & w5 & [= _ <-] & H). apply bind_inv in H as (t & w6 & [= _ <-] & H). apply bind_inv in H as (? & w7 & Em & H).
  apply quiet_mod in Em as [Em1 Em2]. apply bind_inv in H as (? & w8 & [= _ <-] & H). injection H as <-. destruct HS as [HS1 HS2].
  unfold voted, cur, votes, last_vote in *. cbn in *. rewrite Em1, Em2, HS1, HS2, omap_app. destruct (w_c w). cbn in *. split; [done|]. right. by split_and!.
Qed.

(** ** Runs *)

(** All steps but a hard reset, after which the node has another name.  Epochs
    of messages are unsigned 64 bit numbers. *)
Definition votable (s : step) : Prop :=
  match s with
  | Header _ hdr => h_currentEpoch hdr < 2 ^ 64
  | Reset hard _ _ _ => hard = false
  | _ => True
  end.
Definition rises {A} (m : M A) : Prop := ∀ w a w', m w = Some (a, w') → 0 ≤ cur w → cur w + 1 < 2 ^ 64 →
  votes w' = votes w ∧ last_vote w' = last_vote w ∧ cur w ≤ cur w'.
Lemma grows_rises {A} k (m : M A) : k ≤ 1 → grows k m → rises m.
Proof. intros Hk Hm w a w' E H0 Hb. destruct (Hm w a w' E) as (? & ? & ? & _); [done|lia|]. by split_and!. Qed.

Section runs.
Context (clock randoms : nat → Z) (server : server_t).

Lemma rises_bind {A B} (m : M A) (f : A → M B) : grows 0 m → (∀ a, rises (f a)) → rises (m ≫= f).
Proof using Type.
  intros Hm Hf w b w' (a & w1 & E1 & E2)%bind_inv H0 Hb. destruct (Hm w a w1 E1) as (V1 & L1 & C1 & C2); [lia|lia|].
  destruct (Hf a w1 b w' E2) as (V2 & L2 & C3); [lia|lia|]. split_and!; congruence || lia.
Qed.
Lemma set_epoch_rises {A} e (test : Z → bool) (f : M A) : e < 2 ^ 64 → (∀ c, test c = true → c ≤ e) → grows 0 f →
  rises (currentEpoch ← gets c_currentEpoch; _ ← (if test currentEpoch then modify (put_currentEpoch e) else mret tt); f).
Proof using Type.
  intros He Ht Hf w b w' (c & w1 & [= <- <-] & H)%bind_inv H0 Hb. apply bind_inv in H as (? & w1 & E1 & H).
  assert (Hw1 : votes w1 = votes w ∧ last_vote w1 = last_vote w ∧ cur w ≤ cur w1 ∧ cur w1 < 2 ^ 64).
  { specialize (Ht (c_currentEpoch (w_c w))). destruct (test _); injection E1 as _ <-; unfold votes, last_vote, cur in *; cbn; [|split_and!; done || lia].
    destruct (w_c w). cbn in *. split_and!; done || (specialize (Ht eq_refl); lia). }
  destruct Hw1 as (V1 & L1 & C1 & C2). destruct (Hf w1 b w' H) as (V2 & L2 & C3 & _); [lia|lia|]. split_and!; congruence || lia.
Qed.
Lemma header_rises n hdr : h_currentEpoch hdr < 2 ^ 64 → rises (update_from_header n hdr).
Proof using Type.
  intros Hh. unfold update_from_header. apply (set_epoch_rises _ (λ c, h_currentEpoch hdr >? c)); [done| |].
  - intros c Hc. rewrite Z.gtb_ltb in Hc. lia.
  - grow.
Qed.
Lemma setConfigEpoch_rises arg : rises (cluster_set_config_epoch arg).
Proof using Type.
  unfold cluster_set_config_epoch. destruct (string2ll arg) as [e|] eqn:E; [|apply (grows_rises 0); [lia|apply grows_ret]].
  apply string2ll_sound in E as [He _]. unfold sfits in He. do 2 (apply rises_bind; [apply grows_gets|]; intros ?). apply rises_bind; [apply grows_get_node|]. intros md.
  destruct (e <? 0); [apply (grows_rises 0); [lia|apply grows_ret]|]. destruct (1 <? _); [apply (grows_rises 0); [lia|apply grows_ret]|].
  destruct (negb _); [apply (grows_rises 0); [lia|apply grows_ret]|]. apply rises_bind; [apply grows_mod_node|]. intros _.
  apply (set_epoch_rises _ (λ c, c <? e)); [lia|intros c Hc; lia|]. grow.
Qed.

(** Every step but a request for a vote. *)
Lemma step_rises s : votable s → (∀ n hdr, s ≠ AuthRequest n hdr) → rises (exec clock randoms server s).
Proof using Type.
  intros Hv Hs. destruct s; cbn [exec votable] in *; try (apply (grows_rises 0); [lia|]; unfold ignore; solve [grow]).
  - by apply header_rises.
  - apply (grows_rises 1); [lia|apply update_slots_of_grows].
  - by destruct (Hs sender hdr).
  - apply (grows_rises 1); [lia|apply cron_grows].
  - apply (grows_rises 1); [lia|apply beforeSleep_grows].
  - apply (grows_rises 0); [lia|]. unfold ignore, cluster_addslotsrange. pose proof (λ slots, parse_ranges_grows (length args) args slots del (le_n _)). grow.
  - apply (grows_rises 1); [lia|]. unfold ignore. apply (grows_bind 1 1 0); [done|done|apply setslot_grows|intros ?; apply grows_ret].
  - apply (grows_rises 1); [lia|]. unfold ignore. apply (grows_bind 1 1 0); [done|done|apply failover_grows|intros ?; apply grows_ret].
  - intros w a w' (r & w1 & E1 & [= _ <-])%bind_inv. by apply (setConfigEpoch_rises arg w r).
  - apply (grows_rises 1); [lia|]. unfold ignore, cluster_bumpepoch. grow1.
Qed.

(** The votes of a step, with the epoch of the messages and the name of the
    candidate. *)
Definition name_of (w : world) (n : Z) : list Z := from_option n_name [] (w_heap w !! n).
Definition ballots (w1 w2 : world) : list (Z * list Z) := (λ n, (cur w1, name_of w1 n)) <$> drop (length (votes w1)) (votes w2).
(** Steps in any order, as long as the epoch does not reach its last value. *)
Inductive vruns : world → list (Z * list Z) → world → Prop :=
  | vruns_refl w : vruns w [] w
  | vruns_step w l w1 s w2 :
      vruns w l w1 → votable s → cur w1 + 1 < 2 ^ 64 → exec clock randoms server s w1 = Some (tt, w2) → vruns w (l ++ ballots w1 w2) w2.

(** A step casts no vote, or one vote in a new epoch. *)
Lemma step_ballots s w w' : votable s → 0 ≤ cur w → cur w + 1 < 2 ^ 64 → exec clock randoms server s w = Some (tt, w') →
  cur w ≤ cur w' ∧ (ballots w w' = [] ∧ last_vote w' = last_vote w ∨
    ∃ x, ballots w w' = [(cur w, x)] ∧ last_vote w ≠ cur w ∧ last_vote w' = cur w).
Proof using Type.
  intros Hv H0 Hb Hx. assert (Hnone : votes w' = votes w → ballots w w' = []) by (intros E; unfold ballots; by rewrite E, drop_all).
  assert ((∃ n hdr, s = AuthRequest n hdr) ∨ ¬ ∃ n hdr, s = AuthRequest n hdr) as [(n & hdr & ->)|Hs].
  { destruct s; try (right; by intros (? & ? & ?)). left. eauto. }
  - destruct (sendAuth_votes clock server n hdr w w' Hx) as [Ec [[Ev El]|(Ev & Hne & El & _)]]; [split; [lia|]; left; auto|].
    split; [lia|]. right. exists (name_of w n). unfold ballots. rewrite Ev, drop_app_length. by split_and!.
  - destruct (step_rises s Hv) with w tt w' as (Ev & El & Ec); [intros n hdr ->; apply Hs; by exists n, hdr|done..|]. split; [done|]. left. auto.
Qed.

Lemma vruns_inv w l w' : 0 ≤ last_vote w ≤ cur w → vruns w l w' →
  0 ≤ cur w' ∧ last_vote w ≤ last_vote w' ≤ cur w' ∧ StronglySorted Z.lt l.*1 ∧ Forall (λ e, last_vote w < e ≤ last_vote w') l.*1.
Proof using Type.
  intros H0 Hr. induction Hr as [w|w l w1 s w2 Hr IH Hv Hb Hx]; [split_and!; try lia; constructor|].
  destruct (IH H0) as (Hc & Hl & Hs & Hf). destruct (step_ballots s w1 w2 Hv Hc Hb Hx) as [Hc2 [[-> El]|(x & -> & Hne & El)]].
  - rewrite app_nil_r, El. split_and!; done || lia.
  - rewrite fmap_app, El. cbn [fmap list_fmap fst]. split_and!; try lia.
    + apply StronglySorted_app. split_and!; [|done|by repeat constructor]. intros x1 x2 Hx1 ->%list_elem_of_singleton. rewrite Forall_forall in Hf. specialize (Hf x1 Hx1). lia.
    + apply Forall_app. split; [|constructor; [lia|constructor]]. eapply Forall_impl; [exact Hf|]. cbv beta. lia.
Qed.
End runs.

(** ** Elections *)

(** [server.cluster->size / 2 + 1] *)
Definition needed_quorum (size : Z) : Z := Z.quot size 2 + 1.
(** The voters whose log has a vote for [x]. *)
Definition voters_for {A} (x : Z * list Z) (logs : list (A * list (Z * list Z))) : list (A * list (Z * list Z)) := filter (λ p, x ∈ p.2) logs.

(** Two majorities of a list have an element in common. *)
Lemma quorum_meet {A} (P Q : A → Prop) `{∀ x, Decision (P x), ∀ x, Decision (Q x)} (l : list A) :
  needed_quorum (zlen l) ≤ zlen (filter P l) → needed_quorum (zlen l) ≤ zlen (filter Q l) → ∃ x, x ∈ l ∧ P x ∧ Q x.
Proof.
  intros HP HQ. assert (Hlen : ∀ l : list A, (∀ x, x ∈ l → ¬ (P x ∧ Q x)) → (length (filter P l) + length (filter Q l) ≤ length l)%nat).
  { clear. intros l. induction l as [|x l IH]; [done|]. intros Hno. rewrite !filter_cons. specialize (IH (λ y Hy, Hno y (list_elem_of_further _ _ _ Hy))).
    destruct (decide (P x)), (decide (Q x)); cbn [length]; try lia. exfalso. apply (Hno x); [by left|done]. }
  destruct (decide (Exists (λ x, P x ∧ Q x) l)) as [(x & Hx & Hp)%Exists_exists|Hno]; [by exists x|]. exfalso.
  specialize (Hlen l (λ x Hx Hpq, Hno (proj2 (Exists_exists _ _) (ex_intro _ x (conj Hx Hpq))))). unfold needed_quorum in *.
  pose proof (Z.quot_rem' (zlen l) 2). pose proof (Z.rem_bound_pos (zlen l) 2). lia.
Qed.

(** A voter: its clock, its configuration, its first and its last state. *)
Record voter := Voter { vt_clock : nat → Z; vt_randoms : nat → Z; vt_server : server_t; vt_start : world; vt_end : world }.
Definition voter_ok (p : voter * list (Z * list Z)) : Prop :=
  let v := p.1 in
  0 ≤ last_vote (vt_start v) ≤ cur (vt_start v) ∧ vruns (vt_clock v) (vt_randoms v) (vt_server v) (vt_start v) p.2 (vt_end v).

(** C15: Each voter runs on its own: messages, periodic work and commands in any
    order, with any clock; [logs] has the votes that it sent in its run, each with
    the epoch of the message and the name of the candidate.  Then two candidates
    that both have the votes of [size / 2 + 1] of the [size] voters in an epoch are
    the same: at most one replica is elected in an epoch.  Hard resets, after
    which a node has another name, are excluded, and so are epochs at the end of
    their 64 bit range. *)
Theorem election_safety (logs : list (voter * list (Z * list Z))) e a b :
  Forall voter_ok logs →
  needed_quorum (zlen logs) ≤ zlen (voters_for (e, a) logs) → needed_quorum (zlen logs) ≤ zlen (voters_for (e, b) logs) → a = b.
Proof.
  intros Hok Ha Hb. destruct (quorum_meet _ _ _ Ha Hb) as ([v l] & Hin & Hva & Hvb). rewrite Forall_forall in Hok. destruct (Hok _ Hin) as [H0 Hr].
  destruct (vruns_inv _ _ _ _ _ _ H0 Hr) as (_ & _ & Hs & _). cbn in Hva, Hvb, Hs.
  apply list_elem_of_lookup in Hva as [i Hi], Hvb as [j Hj].
  assert (E : i = j). { eapply (NoDup_lookup l.*1); [|by rewrite list_lookup_fmap, Hi|by rewrite list_lookup_fmap, Hj].
    clear -Hs. induction Hs as [|x l' Hs IH Hf]; constructor; [|done]. intros Hx. rewrite Forall_forall in Hf. specialize (Hf x Hx). lia. }
  subst j. rewrite Hi in Hj. by injection Hj.
Qed.

(** One voter, at address 1; the replica at address 2 of the failed master at
    address 3 asks for its vote in epoch 5. *)
Definition vote_node (name flags : Z) (so : option Z) : clusterNode := ClusterNode [name] [] flags 1 [] 1 [] so 0 0 0 [] 0.
Definition vote_world : world :=
  World {[ 1 := vote_node 97 17 None; 2 := vote_node 98 2 (Some 3); 3 := vote_node 99 9 None ]}
    (ClusterState 1 5 0 1 [1; 2; 3] ∅ [] [] [] 0 0 false 0 0 0 None (-1) false 0 0 empty_bitmap 0 0) 0 0 [].
Definition vote_request : clusterMsg := ClusterMsg 5 1 empty_bitmap false 0 false.
Definition vote_config : server_t := Server 15000 true true false false 1 false 10 10 true 100 100 0 0 (λ _, 0).
Lemma epochs_ok_empty js e w : (∀ j, j ∈ js → j ∈ all_slots) → epochs_ok js empty_bitmap e w = Some (true, w).
Proof.
  induction js as [|j js IH]; intros Hjs; cbn [epochs_ok]; [done|]. destruct (slot_lookup j) as (i & Hi & ->); [apply Hjs; by left|].
  unfold mbind, M_bind, lift. rewrite (testBit_spec _ _ empty_bitmap_ok Hi), empty_bitmap_bit. apply IH. intros j Hj. apply Hjs. by right.
Qed.
Definition vote_after : world :=
  World {[ 1 := vote_node 97 17 None; 2 := vote_node 98 2 (Some 3); 3 := set_voted_time 100001 (vote_node 99 9 None) ]}
    (ClusterState 1 5 0 1 [1; 2; 3] ∅ [] [] [] 0 0 false 0 0 0 None (-1) false 5 12 empty_bitmap 0 0) 2 0 [EffSendFailoverAuth 2].
Definition vote_clock (k : nat) : Z := 100000 + Z.of_nat k.
Lemma bind_eq {A B} (m : M A) (f : A → M B) w a w1 : m w = Some (a, w1) → (m ≫= f) w = f a w1.
Proof. intros E. unfold mbind, M_bind. by rewrite E. Qed.
Lemma vote_cast : exec vote_clock vote_clock vote_config (AuthRequest 2 vote_request) vote_world = Some (tt, vote_after).
Proof.
  cbn [exec]. unfold clusterSendFailoverAuthIfNeeded.
  repeat (cbv beta iota zeta; first
    [ match goal with |- (epochs_ok _ _ _ ≫= _) _ = _ => erewrite bind_eq by (apply epochs_ok_empty; done) end
    | match goal with |- (?m ≫= _) _ = _ => lazymatch m with epochs_ok _ _ _ => fail | _ => erewrite bind_eq by reflexivity end end
    | match goal with |- (if ?b then _ else _) _ = _ => let v := eval vm_compute in b in change b with v end
    | match goal with |- (match ?x with Some _ => _ | None => _ end) _ = _ => let v := eval vm_compute in x in change x with v end ]).
  vm_compute. reflexivity.
Qed.
Lemma election_safety_witness :
  let logs := [(Voter vote_clock vote_clock vote_config vote_world vote_after, [(5, [98])])] in
  Forall voter_ok logs ∧ needed_quorum (zlen logs) ≤ zlen (voters_for (5, [98]) logs) ∧ ∀ b, needed_quorum (zlen logs) ≤ zlen (voters_for (5, b) logs) → [98] = b.
Proof.
  set (logs := [(Voter vote_clock vote_clock vote_config vote_world vote_after, [(5, [98])])]). cbv zeta.
  assert (Hr : vruns vote_clock vote_clock vote_config vote_world [(5, [98])] vote_after).
  { exact (vruns_step vote_clock vote_clock vote_config vote_world [] vote_world (AuthRequest 2 vote_request) vote_after (vruns_refl _ _ _ _) I eq_refl vote_cast). }
  assert (Hok : Forall voter_ok logs) by (constructor; [split; [by split|exact Hr]|constructor]).
  assert (Hq : needed_quorum (zlen logs) ≤ zlen (voters_for (5, [98]) logs)) by (vm_compute; discriminate).
  split; [exact Hok|]. split; [exact Hq|]. intros b Hb. exact (election_safety logs 5 [98] b Hok Hq Hb).
Defined.
End ClusterVote.
