(* ===== verification/Lzf.v ===== *)
(** * lzf_c.c, lzf_d.c: LZF compression

    A compressed stream is a sequence of literal runs and of references to
    earlier output.  The compressor finds references through a hash table that
    is not initialised, so the model takes what is on the stack as a parameter;
    the pointers in the table are offsets from the input.  The model is that of
    the default configuration: [HLOG] 16, [VERY_FAST], [CHECK_INPUT]. *)

From S2P Require Import Prelude.

Module Lzf.

(** ** Compression *)

Definition HLOG : Z := 16.
Definition HSIZE : Z := Z.shiftl 1 HLOG.
Definition MAX_LIT : Z := Z.shiftl 1 5.
Definition MAX_OFF : Z := Z.shiftl 1 13.
Definition MAX_REF : Z := Z.shiftl 1 8 + Z.shiftl 1 3.

Definition FRST (inp : list Z) (p : Z) : option Z :=
  a ← load8 inp p; b ← load8 inp (p + 1); Some (Z.lor (Z.shiftl a 8) b).
Definition NEXT (v : Z) (inp : list Z) (p : Z) : option Z :=
  c ← load8 inp (p + 2); Some (Z.lor (u32 (Z.shiftl v 8)) c).
Definition IDX (h : Z) : Z := Z.land (u32 (Z.shiftr h (3 * 8 - HLOG) - u32 (h * 5))) (HSIZE - 1).

(** Writing the low byte of an integer. *)
Definition put (out : list Z) (p x : Z) : option (list Z) := store out p [u8 x].

(** The variables of [lzf_compress]; [htab] holds the entries written so far. *)
Record lzf_vars := LzfVars {
  v_ip : Z;
  v_op : Z;
  v_lit : Z;
  v_hval : Z;
  v_htab : gmap Z Z;
  v_out : list Z;
}.
Definition is_zero (lit : Z) : Z := if lit =? 0 then 1 else 0.

(** The search for the end of a match: [scan16] is the unrolled part, which
    says whether it met a difference, [scan_rest] the loop. *)
Fixpoint scan16 (n : nat) (inp : list Z) (ref ip len : Z) : option (bool * Z) :=
  match n with
  | O => Some (false, len)
  | S n =>
      let len := len + 1 in
      a ← load8 inp (ref + len); b ← load8 inp (ip + len);
      if negb (a =? b) then Some (true, len) else scan16 n inp ref ip len
  end.
Fixpoint scan_rest (fuel : nat) (inp : list Z) (ref ip maxlen len : Z) : option Z :=
  match fuel with
  | O => None
  | S fuel =>
      let len := len + 1 in
      if len <? maxlen then
        a ← load8 inp (ref + len); b ← load8 inp (ip + len);
        if a =? b then scan_rest fuel inp ref ip maxlen len else Some len
      else Some len
  end.
Definition match_len (inp : list Z) (ref ip maxlen : Z) : option Z :=
  '(stop, len) ← (if maxlen >? 16 then scan16 16 inp ref ip 2 else Some (false, 2));
  if (stop : bool) then Some len else scan_rest (Z.to_nat MAX_REF) inp ref ip maxlen len.

(** The condition of a match at [ref]. *)
Definition is_match (inp : list Z) (ip ref off : Z) : option bool :=
  if (off <? MAX_OFF) && (ref >? 0) then
    a ← load8 inp (ref + 2); b ← load8 inp (ip + 2);
    if a =? b then x ← load inp ref 2; y ← load inp ip 2; Some (bool_decide (x = y)) else Some false
  else Some false.

(** A match: [inl] is [return 0]; the flag says that the loop is left. *)
Definition match_found (inp : list Z) (out_len ref off : Z) (v : lzf_vars) : option (list Z + bool * lzf_vars) :=
  let '(LzfVars ip op lit hval htab out) := v in
  let in_end := zlen inp in
  let maxlen := in_end - ip - 2 in
  let maxlen := if maxlen >? MAX_REF then MAX_REF else maxlen in
  if (op + 3 + 1 >=? out_len) && (op - is_zero lit + 3 + 1 >=? out_len) then Some (inl out)
  else
    out ← put out (op - lit - 1) (lit - 1);
    let op := op - is_zero lit in
    len ← match_len inp ref ip maxlen;
    let len := len - 2 in
    let ip := ip + 1 in
    '(out, op) ← (if len <? 7 then
                    out ← put out op (Z.shiftr off 8 + Z.shiftl len 5);
                    Some (out, op + 1)
                  else
                    out ← put out op (Z.shiftr off 8 + Z.shiftl 7 5);
                    out ← put out (op + 1) (len - 7);
                    Some (out, op + 2));
    out ← put out op off;
    let op := op + 1 + 1 in
    let ip := ip + (len + 1) in
    if ip >=? in_end - 2 then Some (inr (true, LzfVars ip op 0 hval htab out))
    else
      let ip := ip - 2 in
      hval ← FRST inp ip;
      hval ← NEXT hval inp ip;
      let htab := <[IDX hval := ip]> htab in
      hval ← NEXT hval inp (ip + 1);
      let htab := <[IDX hval := ip + 1]> htab in
      Some (inr (false, LzfVars (ip + 2) op 0 hval htab out)).

(** One literal byte, in both loops. *)
Definition literal (inp : list Z) (v : lzf_vars) : option lzf_vars :=
  let '(LzfVars ip op lit hval htab out) := v in
  x ← load8 inp ip;
  out ← put out op x;
  let lit := lit + 1 in
  let op := op + 1 in
  if lit =? MAX_LIT then
    out ← put out (op - lit - 1) (lit - 1);
    Some (LzfVars (ip + 1) (op + 1) 0 hval htab out)
  else Some (LzfVars (ip + 1) op lit hval htab out).

Section compress.
(** The pointers left in the hash table, as offsets from the input. *)
Context (garbage : Z → Z).

(** The body of the main loop. *)
Definition compress_step (inp : list Z) (out_len : Z) (v : lzf_vars) : option (list Z + bool * lzf_vars) :=
  let '(LzfVars ip op lit hval htab out) := v in
  hval ← NEXT hval inp ip;
  let ref := default (garbage (IDX hval)) (htab !! IDX hval) in
  let v := LzfVars ip op lit hval (<[IDX hval := ip]> htab) out in
  let off := u64 (ip - ref - 1) in
  found ← is_match inp ip ref off;
  if (found : bool) then match_found inp out_len ref off v
  else if op >=? out_len then Some (inl out)
  else v ← literal inp v; Some (inr (false, v)).
Fixpoint compress_loop (fuel : nat) (inp : list Z) (out_len : Z) (v : lzf_vars) : option (list Z + lzf_vars) :=
  if v_ip v <? zlen inp - 2 then
    match fuel with
    | O => None
    | S fuel =>
        r ← compress_step inp out_len v;
        match r with
        | inl out => Some (inl out)
        | inr (true, v) => Some (inr v)
        | inr (false, v) => compress_loop fuel inp out_len v
        end
    end
  else Some (inr v).
(** The second loop. *)
Fixpoint literals_loop (fuel : nat) (inp : list Z) (v : lzf_vars) : option lzf_vars :=
  if v_ip v <? zlen inp then
    match fuel with O => None | S fuel => v ← literal inp v; literals_loop fuel inp v end
  else Some v.

(** The result and the output buffer. *)
Definition lzf_compress (inp out : list Z) : option (Z * list Z) :=
  let in_len := zlen inp in
  let out_len := zlen out in
  if (in_len =? 0) || (out_len =? 0) then Some (0, out)
  else
    hval ← FRST inp 0;
    r ← compress_loop (length inp) inp out_len (LzfVars 0 1 0 hval ∅ out);
    match r with
    | inl out => Some (0, out)
    | inr v =>
        if v_op v + 3 >? out_len then Some (0, v_out v)
        else
          v ← literals_loop (length inp) inp v;
          out ← put (v_out v) (v_op v - v_lit v - 1) (v_lit v - 1);
          Some (v_op v - is_zero (v_lit v), out)
    end.
End compress.

(** ** Decompression *)

Inductive lzf_errno := E2BIG | EINVAL.

(** [*op++ = *ip++] [n] times, and the same inside the output. *)
Fixpoint copy_in (n : nat) (inp : list Z) (ip : Z) (out : list Z) (op : Z) : option (list Z) :=
  match n with
  | O => Some out
  | S n => x ← load8 inp ip; out ← store out op [x]; copy_in n inp (ip + 1) out (op + 1)
  end.
Fixpoint copy_self (n : nat) (out : list Z) (op ref : Z) : option (list Z) :=
  match n with
  | O => Some out
  | S n => x ← load8 out ref; out ← store out op [x]; copy_self n out (op + 1) (ref + 1)
  end.

(** The body of the loop: [inl] is [return 0] with [errno]. *)
Definition decompress_step (inp out : list Z) (ip op : Z) : option ((lzf_errno + Z * Z) * list Z) :=
  let in_end := zlen inp in
  let out_end := zlen out in
  ctrl ← load8 inp ip;
  let ip := ip + 1 in
  if ctrl <? Z.shiftl 1 5 then
    let ctrl := ctrl + 1 in
    if op + ctrl >? out_end then Some (inl E2BIG, out)
    else if ip + ctrl >? in_end then Some (inl EINVAL, out)
    else out ← copy_in (Z.to_nat ctrl) inp ip out op; Some (inr (ip + ctrl, op + ctrl), out)
  else
    let len := Z.shiftr ctrl 5 in
    let ref := op - Z.shiftl (Z.land ctrl 0x1f) 8 - 1 in
    if ip >=? in_end then Some (inl EINVAL, out)
    else
      '(stop, len, ip) ← (if len =? 7 then
                            b ← load8 inp ip;
                            Some (ip + 1 >=? in_end, len + b, ip + 1)
                          else Some (false, len, ip));
      if (stop : bool) then Some (inl EINVAL, out)
      else
        b ← load8 inp ip;
        let ref := ref - b in
        let ip := ip + 1 in
        if op + len + 2 >? out_end then Some (inl E2BIG, out)
        else if ref <? 0 then Some (inl EINVAL, out)
        else
          let n := len + 2 in
          out ← (if (len >? 9) && (op >=? ref + n) then memmove out op ref n else copy_self (Z.to_nat n) out op ref);
          Some (inr (ip, op + n), out).
Fixpoint decompress_loop (fuel : nat) (inp out : list Z) (ip op : Z) : option ((lzf_errno + Z) * list Z) :=
  if ip <? zlen inp then
    match fuel with
    | O => None
    | S fuel =>
        '(r, out) ← decompress_step inp out ip op;
        match r with
        | inl e => Some (inl e, out)
        | inr (ip, op) => decompress_loop fuel inp out ip op
        end
    end
  else Some (inr op, out).
Definition lzf_decompress (inp out : list Z) : option ((lzf_errno + Z) * list Z) := decompress_loop (length inp) inp out 0 0.
End Lzf.
