(* ===== verification/LzfFormat.v ===== *)
(** * LZF: the format, and that [lzf_decompress] decodes it

    A stream is the encoding of a list of tokens; a token appends bytes to the
    output, its own or bytes that are already there. *)

From S2P Require Import Prelude Lzf.
Import Lzf.

Module LzfFormat.

(** ** Tokens *)

(** [Ref off len]: [len] bytes from [off + 1] before the end of the output. *)
Inductive token := Lit (bs : list Z) | Ref (off len : Z).

Definition token_ok (t : token) : Prop :=
  match t with
  | Lit bs => Forall is_byte bs ∧ 1 ≤ zlen bs ≤ 32
  | Ref off len => 0 ≤ off < 8192 ∧ 3 ≤ len ≤ 264
  end.
Definition encode1 (t : token) : list Z :=
  match t with
  | Lit bs => zlen bs - 1 :: bs
  | Ref off len =>
      if len <? 9 then [off / 256 + (len - 2) * 32; off mod 256]
      else [off / 256 + 224; len - 9; off mod 256]
  end.
Definition encode (ts : list token) : list Z := ts ≫= encode1.

(** Appends [n] bytes, each read at the next position from [p] on, which may
    be a byte that was just appended. *)
Fixpoint replay (n p : nat) (o : list Z) : list Z :=
  match n with O => o | S n => replay n (S p) (o ++ [o !!! p]) end.
Definition expand1 (o : list Z) (t : token) : option (list Z) :=
  match t with
  | Lit bs => Some (o ++ bs)
  | Ref off len => if off <? zlen o then Some (replay (Z.to_nat len) (length o - 1 - Z.to_nat off) o) else None
  end.
Fixpoint expand (o : list Z) (ts : list token) : option (list Z) :=
  match ts with [] => Some o | t :: ts => o ← expand1 o t; expand o ts end.

Lemma length_replay n p o : length (replay n p o) = (length o + n)%nat.
Proof. revert p o. induction n as [|n IH]; intros p o; cbn [replay]; [lia|]. rewrite IH, length_app. cbn. lia. Qed.
Lemma encode_cons t ts : encode (t :: ts) = encode1 t ++ encode ts.
Proof. done. Qed.
Lemma encode_snoc ts t : encode (ts ++ [t]) = encode ts ++ encode1 t.
Proof. unfold encode. by rewrite bind_app, bind_cons, app_nil_r. Qed.
Lemma expand_snoc o ts t : expand o (ts ++ [t]) = o ← expand o ts; expand1 o t.
Proof.
  revert o. induction ts as [|t' ts IH]; intros o; cbn [expand app mbind option_bind].
  - by destruct (expand1 o t).
  - destruct (expand1 o t'); [apply IH|done].
Qed.

(** Expansion only appends. *)
Definition token_size (t : token) : Z := match t with Lit bs => zlen bs | Ref _ len => len end.
Lemma expand1_length o t o' : token_ok t → expand1 o t = Some o' → zlen o' = zlen o + token_size t.
Proof.
  destruct t as [bs|off len]; cbn [expand1 token_size token_ok].
  - intros _ [= <-]. llia.
  - intros Hok. destruct (Z.ltb_spec off (zlen o)); [|done]. intros [= <-]. rewrite length_replay. lia.
Qed.
Lemma token_size_pos t : token_ok t → 1 ≤ token_size t.
Proof. destruct t; cbn; lia. Qed.
Lemma expand_length o ts o' : Forall token_ok ts → expand o ts = Some o' → zlen o ≤ zlen o'.
Proof.
  intros Hts. revert o. induction Hts as [|t ts Ht _ IH]; intros o; cbn [expand]; [intros [= <-]; lia|].
  destruct (expand1 o t) as [o1|] eqn:E; [|done]. cbn. intros H%IH. pose proof (expand1_length _ _ _ Ht E). pose proof (token_size_pos t Ht). lia.
Qed.

(** ** Copying *)

Lemma store_one a x c y off : off = zlen a → store (a ++ x :: c) off [y] = Some (a ++ y :: c).
Proof. intros ->. by apply (store_app a [x] c). Qed.
Lemma copy_in_spec bs pre post o rest : (length bs ≤ length rest)%nat →
  copy_in (length bs) (pre ++ bs ++ post) (zlen pre) (o ++ rest) (zlen o) = Some (o ++ bs ++ drop (length bs) rest).
Proof.
  revert pre o rest. induction bs as [|b bs IH]; intros pre o rest Hl; cbn [copy_in length app]; [done|].
  destruct rest as [|r rest]; cbn [length] in Hl; [lia|]. rewrite load8_app by done. cbn [mbind option_bind]. rewrite store_one by done. cbn [mbind option_bind].
  specialize (IH (pre ++ [b]) (o ++ [b]) rest ltac:(lia)). rewrite <- !app_assoc, !length_app in IH. cbn [app length] in IH.
  replace (zlen pre + 1) with (Z.of_nat (length pre + 1)) by lia. replace (zlen o + 1) with (Z.of_nat (length o + 1)) by lia. apply IH.
Qed.
Lemma copy_self_spec n p o rest : (p < length o)%nat → (n ≤ length rest)%nat →
  copy_self n (o ++ rest) (zlen o) (Z.of_nat p) = Some (replay n p o ++ drop n rest).
Proof.
  revert p o rest. induction n as [|n IH]; intros p o rest Hp Hl; cbn [copy_self replay]; [done|].
  destruct rest as [|r rest]; cbn [length] in Hl; [lia|]. unfold load8. rewrite decide_True by lia. rewrite Nat2Z.id, lookup_app_l by done.
  destruct (lookup_lt_is_Some_2 o p Hp) as [x Hx]. rewrite Hx, (list_lookup_total_correct _ _ _ Hx). cbn [mbind option_bind]. rewrite store_one by done. cbn [mbind option_bind].
  specialize (IH (S p) (o ++ [x]) rest). rewrite length_app in IH. cbn [length] in IH. rewrite <- app_assoc in IH. cbn [app drop] in *.
  replace (zlen o + 1) with (Z.of_nat (length o + 1)) by lia. replace (Z.of_nat p + 1) with (Z.of_nat (S p)) by lia. apply IH; lia.
Qed.
(** A block that does not reach its own copy. *)
Lemma replay_disjoint n p o : (p + n ≤ length o)%nat → replay n p o = o ++ take n (drop p o).
Proof.
  revert p o. induction n as [|n IH]; intros p o Hl; cbn [replay]; [by rewrite take_0, app_nil_r|].
  rewrite IH by (rewrite length_app; cbn; lia). destruct (lookup_lt_is_Some_2 o p ltac:(lia)) as [x Hx]. rewrite (list_lookup_total_correct _ _ _ Hx).
  rewrite (drop_S _ _ _ Hx). cbn [take]. rewrite <- app_assoc, drop_app_le, take_app_le by (rewrite ?length_drop; lia). done.
Qed.
Lemma copy_disjoint n p o rest : (p + n ≤ length o)%nat → (n ≤ length rest)%nat →
  memmove (o ++ rest) (zlen o) (Z.of_nat p) (Z.of_nat n) = Some (replay n p o ++ drop n rest).
Proof.
  intros Hp Hl. unfold memmove. assert (E : o ++ rest = take p o ++ take n (drop p o) ++ drop n (drop p o) ++ rest) by (by rewrite !app_assoc, <- (app_assoc (take p o)), !take_drop).
  rewrite E at 1. rewrite load_app by llia. cbn [mbind option_bind]. rewrite <- (take_drop n rest) at 1.
  rewrite store_app by llia. by rewrite replay_disjoint, <- app_assoc.
Qed.

(** ** Reading one token *)

(** The first byte tells the tokens apart. *)
Lemma lit_inv t s ctrl s1 : token_ok t → encode1 t ++ s = ctrl :: s1 → ctrl < 32 → ∃ bs, t = Lit bs ∧ ctrl = zlen bs - 1 ∧ s1 = bs ++ s.
Proof.
  destruct t as [bs|off len]; cbn [token_ok encode1].
  - intros _ [= <- <-] _. by exists bs.
  - intros [Ho Hl] E Hc. exfalso. assert (0 ≤ off / 256) by (apply Z.div_pos; lia). destruct (Z.ltb_spec len 9); injection E as E1 _; lia.
Qed.
Lemma ref_inv t s ctrl s1 : token_ok t → encode1 t ++ s = ctrl :: s1 → 32 ≤ ctrl →
  ∃ b, 0 ≤ b < 256 ∧
    ((ctrl / 32 < 7 ∧ s1 = b :: s ∧ t = Ref (ctrl mod 32 * 256 + b) (ctrl / 32 + 2)) ∨
     (ctrl / 32 = 7 ∧ ∃ b1, 0 ≤ b1 < 256 ∧ s1 = b1 :: b :: s ∧ t = Ref (ctrl mod 32 * 256 + b) (9 + b1))).
Proof.
  destruct t as [bs|off len]; cbn [token_ok encode1].
  - intros [_ Hl] [= <- <-] Hc. lia.
  - intros [Ho Hl] E Hc. exists (off mod 256). split; [apply Z.mod_pos_bound; lia|].
    destruct (Z.ltb_spec len 9); [left|right]; injection E as E1 E2; subst ctrl.
    + assert ((off / 256 + (len - 2) * 32) / 32 = len - 2 ∧ (off / 256 + (len - 2) * 32) mod 32 = off / 256) as [-> ->] by (split; dlia).
      split_and!; [lia|by symmetry|]. f_equal; [dlia|lia].
    + assert ((off / 256 + 224) / 32 = 7 ∧ (off / 256 + 224) mod 32 = off / 256) as [-> ->] by (split; dlia).
      split; [done|]. exists (len - 9). split_and!; [lia|lia|by symmetry|]. f_equal; [dlia|lia].
Qed.
Lemma encode_ref_short ctrl b : 32 ≤ ctrl < 224 → 0 ≤ b < 256 → token_ok (Ref (ctrl mod 32 * 256 + b) (ctrl / 32 + 2)) ∧ encode1 (Ref (ctrl mod 32 * 256 + b) (ctrl / 32 + 2)) = [ctrl; b].
Proof.
  intros Hc Hb. cbn [token_ok encode1]. split; [split; dlia|]. destruct (Z.ltb_spec (ctrl / 32 + 2) 9); [|dlia]. f_equal; [dlia|]. f_equal. dlia.
Qed.
Lemma encode_ref_long ctrl b1 b : 224 ≤ ctrl < 256 → 0 ≤ b1 < 256 → 0 ≤ b < 256 →
  token_ok (Ref (ctrl mod 32 * 256 + b) (9 + b1)) ∧ encode1 (Ref (ctrl mod 32 * 256 + b) (9 + b1)) = [ctrl; b1; b].
Proof.
  intros Hc Hb1 Hb. cbn [token_ok encode1]. split; [split; dlia|]. destruct (Z.ltb_spec (9 + b1) 9); [lia|]. f_equal; [dlia|]. f_equal; [lia|]. f_equal. dlia.
Qed.
Lemma encode1_inj t t' s s' : token_ok t → token_ok t' → encode1 t ++ s = encode1 t' ++ s' → t = t' ∧ s = s'.
Proof.
  intros Ht Ht' E. assert (∃ ctrl s1, encode1 t ++ s = ctrl :: s1) as (ctrl & s1 & E1) by (destruct t; cbn; [by eexists _, _|destruct (_ <? _); by eexists _, _]).
  rewrite E1 in E. symmetry in E. destruct (Z.lt_ge_cases ctrl 32).
  - destruct (lit_inv _ _ _ _ Ht E1) as (bs & -> & Hc & Hs); [done|]. destruct (lit_inv _ _ _ _ Ht' E) as (bs' & -> & Hc' & Hs'); [done|].
    rewrite Hs in Hs'. apply app_inj_1 in Hs' as [-> ->]; [done|lia].
  - destruct (ref_inv _ _ _ _ Ht E1) as (b & _ & Hr); [done|]. destruct (ref_inv _ _ _ _ Ht' E) as (b' & _ & Hr'); [done|].
    destruct Hr as [(H1 & H2 & ->)|(H1 & b1 & _ & H2 & ->)], Hr' as [(H3 & H4 & ->)|(H3 & b1' & _ & H4 & ->)]; try lia; rewrite H2 in H4; by simplify_eq.
Qed.

(** What a step did: it decoded the first token, or there is no token whose
    expansion fits. *)
Definition stepped (s o : list Z) (ip0 : Z) (out : list Z) (res : (lzf_errno + Z * Z) * list Z) : Prop :=
  length res.2 = length out ∧
  match res.1 with
  | inr (ip, op) => ∃ t o1 s', token_ok t ∧ s = encode1 t ++ s' ∧ expand1 o t = Some o1 ∧
      res.2 = o1 ++ drop (length o1) out ∧ zlen o1 ≤ zlen out ∧ ip = ip0 + zlen (encode1 t) ∧ op = zlen o1
  | inl _ => ∀ t s' o1, token_ok t → s = encode1 t ++ s' → expand1 o t = Some o1 → zlen out < zlen o1
  end.

Lemma lit_step pre ctrl s1 o rest : Forall is_byte (ctrl :: s1) → ctrl < 32 →
  ∃ res, decompress_step (pre ++ ctrl :: s1) (o ++ rest) (zlen pre) (zlen o) = Some res ∧ stepped (ctrl :: s1) o (zlen pre) (o ++ rest) res.
Proof.
  intros Hb Hc. apply Forall_cons_1 in Hb as [Hb0 Hb]. unfold is_byte in Hb0. unfold decompress_step. rewrite (load8_app pre ctrl s1 (zlen pre)) by done. cbn [mbind option_bind].
  change (Z.shiftl 1 5) with 32. destruct (Z.ltb_spec ctrl 32); [|lia]. rewrite Z.gtb_ltb. destruct (Z.ltb_spec (zlen (o ++ rest)) (zlen o + (ctrl + 1))) as [Hbig|Hfit].
  { eexists; split; [done|]. split; [done|]. cbn. intros t s' o1 Ht E He. destruct (lit_inv _ _ _ _ Ht (eq_sym E)) as (bs & -> & -> & ->); [done|].
    injection He as <-. llia. }
  rewrite Z.gtb_ltb. destruct (Z.ltb_spec (zlen (pre ++ ctrl :: s1)) (zlen pre + 1 + (ctrl + 1))) as [Hshort|Hlong].
  { eexists; split; [done|]. split; [done|]. cbn. intros t s' o1 Ht E He. destruct (lit_inv _ _ _ _ Ht (eq_sym E)) as (bs & -> & -> & ->); [done|].
    exfalso. rewrite !length_app in Hshort. cbn [length] in Hshort. rewrite length_app in Hshort. lia. }
  set (n := Z.to_nat (ctrl + 1)). assert (En : Z.of_nat n = ctrl + 1) by (unfold n; lia). clearbody n. set (bs := take n s1). assert (Hn : length bs = n) by (unfold bs; rewrite length_app in Hlong; cbn [length] in Hlong; rewrite length_take; lia).
  assert (Hs1 : s1 = bs ++ drop n s1) by (unfold bs; by rewrite take_drop). pose proof (copy_in_spec bs (pre ++ [ctrl]) (drop n s1) o rest) as Hcp.
  rewrite Hn, <- app_assoc, <- Hs1, length_app in Hcp. cbn [app length] in Hcp. replace (zlen pre + 1) with (Z.of_nat (length pre + 1)) by lia.
  rewrite Hcp by (rewrite length_app in Hfit; lia). cbn [mbind option_bind]. rewrite length_app in Hfit. eexists; split; [done|]. unfold stepped. cbn [fst snd]. split; [llia|].
  exists (Lit bs), (o ++ bs), (drop n s1). cbn [token_ok encode1 expand1]. split_and!.
  - unfold bs. by apply Forall_take.
  - lia.
  - lia.
  - rewrite Hn. rewrite Hs1 at 1. cbn [app]. f_equal. lia.
  - done.
  - rewrite length_app, <- app_assoc, drop_app_ge, Hn by lia. do 2 f_equal. f_equal. lia.
  - llia.
  - cbn [length]. lia.
  - llia.
Qed.

(** The end of a reference, once [off] and the length are known. *)
Lemma ref_copy o rest off len : 0 ≤ off → 3 ≤ len → zlen o + len ≤ zlen (o ++ rest) → off < zlen o →
  (if (len - 2 >? 9) && (zlen o >=? zlen o - off - 1 + len) then memmove (o ++ rest) (zlen o) (zlen o - off - 1) len
   else copy_self (Z.to_nat len) (o ++ rest) (zlen o) (zlen o - off - 1)) =
  Some (replay (Z.to_nat len) (length o - 1 - Z.to_nat off) o ++ drop (Z.to_nat len) rest).
Proof.
  intros Ho Hl Hf Hr. rewrite length_app in Hf. set (p := (length o - 1 - Z.to_nat off)%nat). replace (zlen o - off - 1) with (Z.of_nat p) by (unfold p; lia).
  assert (Hp : (p < length o)%nat) by (unfold p; lia). destruct (_ && _) eqn:E; [|by apply copy_self_spec; lia].
  apply andb_true_iff in E as [_ E]. rewrite Z.geb_leb in E. replace len with (Z.of_nat (Z.to_nat len)) at 1 by lia. apply copy_disjoint; lia.
Qed.
(** What follows the length: the low byte of the offset. *)
Definition ref_rest (out : list Z) (op hi len ip b : Z) : option ((lzf_errno + Z * Z) * list Z) :=
  let ref := op - hi - 1 - b in
  let ip := ip + 1 in
  if op + len + 2 >? zlen out then Some (inl E2BIG, out)
  else if ref <? 0 then Some (inl EINVAL, out)
  else
    let n := len + 2 in
    out ← (if (len >? 9) && (op >=? ref + n) then memmove out op ref n else copy_self (Z.to_nat n) out op ref);
    Some (inr (ip, op + n), out).
Lemma ref_rest_spec s s' o ip0 ip rest hi b len : token_ok (Ref (hi + b) len) → s = encode1 (Ref (hi + b) len) ++ s' → ip + 1 = ip0 + zlen (encode1 (Ref (hi + b) len)) →
  ∃ res, ref_rest (o ++ rest) (zlen o) hi (len - 2) ip b = Some res ∧ stepped s o ip0 (o ++ rest) res.
Proof.
  intros Hok -> Hip. pose proof Hok as [Ho Hl]. unfold ref_rest. replace (zlen o + (len - 2) + 2) with (zlen o + len) by lia. replace (len - 2 + 2) with len by lia.
  replace (zlen o - hi - 1 - b) with (zlen o - (hi + b) - 1) by lia. rewrite Z.gtb_ltb. destruct (Z.ltb_spec (zlen (o ++ rest)) (zlen o + len)) as [Hbig|Hfit].
  { eexists; split; [done|]. split; [done|]. cbn [fst]. intros t s1 o1 Ht E He. apply encode1_inj in E as [<- _]; [|done..]. apply expand1_length in He; [|done]. cbn [token_size] in He. lia. }
  destruct (Z.ltb_spec (zlen o - (hi + b) - 1) 0) as [Hneg|Hpos].
  { eexists; split; [done|]. split; [done|]. cbn [fst]. intros t s1 o1 Ht E He. apply encode1_inj in E as [<- _]; [|done..]. cbn [expand1] in He.
    destruct (Z.ltb_spec (hi + b) (zlen o)); [lia|done]. }
  rewrite ref_copy by lia. cbn [mbind option_bind]. set (o1 := replay _ _ _). assert (Hl1 : zlen o1 = zlen o + len) by (unfold o1; rewrite length_replay; lia).
  eexists; split; [done|]. unfold stepped. cbn [fst snd]. rewrite length_app in Hfit. split; [rewrite !length_app, length_drop; lia|]. exists (Ref (hi + b) len), o1, s'. cbn [expand1]. split_and!; try done.
  - destruct (Z.ltb_spec (hi + b) (zlen o)); [done|lia].
  - f_equal. rewrite drop_app_ge by lia. f_equal. lia.
  - rewrite length_app. lia.
Qed.

Lemma ref_step pre ctrl s1 o rest : Forall is_byte (ctrl :: s1) → 32 ≤ ctrl →
  ∃ res, decompress_step (pre ++ ctrl :: s1) (o ++ rest) (zlen pre) (zlen o) = Some res ∧ stepped (ctrl :: s1) o (zlen pre) (o ++ rest) res.
Proof.
  intros Hb Hc. apply Forall_cons_1 in Hb as [Hb0 Hb]. unfold is_byte in Hb0. unfold decompress_step. rewrite (load8_app pre ctrl s1 (zlen pre)) by done. cbn [mbind option_bind].
  change (Z.shiftl 1 5) with 32. destruct (Z.ltb_spec ctrl 32); [lia|].
  rewrite Z.shiftr_div_pow2, Z.shiftl_mul_pow2 by lia. change 0x1f with (Z.ones 5). rewrite Z.land_ones by lia. change (2 ^ 5) with 32. change (2 ^ 8) with 256.
  assert (Hfail : (∀ b s, s1 = b :: s → ctrl / 32 = 7 ∧ s = []) → ∀ t s' o1, token_ok t → ctrl :: s1 = encode1 t ++ s' → expand1 o t = Some o1 → zlen (o ++ rest) < zlen o1).
  { intros Hs t s' o1 Ht E _. exfalso. destruct (ref_inv _ _ _ _ Ht (eq_sym E) Hc) as (b & _ & [(H1 & -> & _)|(H1 & b1 & _ & -> & _)]); destruct (Hs _ _ eq_refl); [lia|done]. }
  rewrite Z.geb_leb. destruct (Z.leb_spec (zlen (pre ++ ctrl :: s1)) (zlen pre + 1)) as [Hend|Hmore].
  { rewrite length_app in Hend. destruct s1; cbn [length] in Hend; [|lia]. eexists; split; [done|]. split; [done|]. cbn [fst]. by apply Hfail. }
  destruct s1 as [|b1 s1]; [rewrite length_app in Hmore; cbn [length] in Hmore; lia|]. apply Forall_cons_1 in Hb as [Hb1 Hb]. unfold is_byte in Hb1.
  assert (E1 : load8 (pre ++ ctrl :: b1 :: s1) (zlen pre + 1) = Some b1).
  { replace (pre ++ ctrl :: b1 :: s1) with ((pre ++ [ctrl]) ++ b1 :: s1) by (by rewrite <- app_assoc). apply load8_app. llia. }
  destruct (Z.eqb_spec (ctrl / 32) 7) as [E7|N7].
  - rewrite E1. cbn [mbind option_bind]. rewrite Z.geb_leb. destruct (Z.leb_spec (zlen (pre ++ ctrl :: b1 :: s1)) (zlen pre + 1 + 1)) as [Hend|Hmore2].
    { rewrite length_app in Hend. destruct s1; cbn [length] in Hend; [|lia]. eexists; split; [done|]. split; [done|]. cbn [fst]. apply Hfail. by intros b s [= _ <-]. }
    destruct s1 as [|b s1]; [rewrite length_app in Hmore2; cbn [length] in Hmore2; lia|]. apply Forall_cons_1 in Hb as [Hb2 Hb]. unfold is_byte in Hb2.
    assert (E2 : load8 (pre ++ ctrl :: b1 :: b :: s1) (zlen pre + 1 + 1) = Some b).
    { replace (pre ++ ctrl :: b1 :: b :: s1) with ((pre ++ [ctrl; b1]) ++ b :: s1) by (by rewrite <- app_assoc). apply load8_app. llia. }
    rewrite E2. cbn [mbind option_bind]. destruct (encode_ref_long ctrl b1 b) as [Hok He]; [dlia|lia..|].
    destruct (ref_rest_spec (ctrl :: b1 :: b :: s1) s1 o (zlen pre) (zlen pre + 1 + 1) rest (ctrl mod 32 * 256) b (9 + b1)) as (res & Hr & Hs); [done|by rewrite He|rewrite He; cbn [length]; lia|].
    exists res. split; [|done]. rewrite <- Hr. replace (9 + b1 - 2) with (ctrl / 32 + b1) by lia. done.
  - cbn [mbind option_bind]. rewrite E1. cbn [mbind option_bind]. destruct (encode_ref_short ctrl b1) as [Hok He]; [dlia|lia|].
    destruct (ref_rest_spec (ctrl :: b1 :: s1) s1 o (zlen pre) (zlen pre + 1) rest (ctrl mod 32 * 256) b1 (ctrl / 32 + 2)) as (res & Hr & Hs); [done|by rewrite He|rewrite He; cbn [length]; lia|].
    exists res. split; [|done]. rewrite <- Hr. replace (ctrl / 32 + 2 - 2) with (ctrl / 32) by lia. done.
Qed.

Lemma step_spec pre s o rest : Forall is_byte s → s ≠ [] →
  ∃ res, decompress_step (pre ++ s) (o ++ rest) (zlen pre) (zlen o) = Some res ∧ stepped s o (zlen pre) (o ++ rest) res.
Proof. destruct s as [|ctrl s1]; [done|]. intros Hb _. destruct (Z.lt_ge_cases ctrl 32); [by apply lit_step|by apply ref_step]. Qed.

(** ** Reading a stream *)

Definition decodes (s o : list Z) (cap : Z) (o' : list Z) : Prop :=
  ∃ ts, Forall token_ok ts ∧ s = encode ts ∧ expand o ts = Some o' ∧ zlen o' ≤ cap.

Lemma loop_decodes fuel pre s o rest : Forall is_byte s → (length s ≤ fuel)%nat →
  ∃ r out', decompress_loop fuel (pre ++ s) (o ++ rest) (zlen pre) (zlen o) = Some (r, out') ∧ length out' = length (o ++ rest) ∧
    match r with
    | inr n => ∃ o', decodes s o (zlen (o ++ rest)) o' ∧ n = zlen o' ∧ out' = o' ++ drop (length o') (o ++ rest)
    | inl _ => ∀ o', ¬ decodes s o (zlen (o ++ rest)) o'
    end.
Proof.
  revert pre s o rest. induction fuel as [|fuel IH]; intros pre s o rest Hb Hl.
  { destruct s; cbn [length] in Hl; [|lia]. cbn [decompress_loop]. rewrite app_nil_r. destruct (Z.ltb_spec (zlen pre) (zlen pre)); [lia|]. eexists _, _. split; [done|]. split; [done|].
    exists o. split; [exists []; split_and!; [done..|llia]|]. split; [done|]. by rewrite drop_app_length. }
  cbn [decompress_loop]. destruct s as [|c s0] eqn:Es.
  { rewrite app_nil_r. destruct (Z.ltb_spec (zlen pre) (zlen pre)); [lia|]. eexists _, _. split; [done|]. split; [done|].
    exists o. split; [exists []; split_and!; [done..|llia]|]. split; [done|]. by rewrite drop_app_length. }
  rewrite <- Es in *. assert (Hne : s ≠ []) by (by rewrite Es). clear Es. destruct (step_spec pre s o rest Hb Hne) as ([r out1] & E & Hlen & Hr). cbn [fst snd] in *.
  assert (0 < zlen s) by (destruct s; [done|cbn [length]; lia]). destruct (Z.ltb_spec (zlen pre) (zlen (pre ++ s))); [|llia]. rewrite E. cbn [mbind option_bind]. destruct r as [e|[ip op]].
  { eexists _, _. split; [done|]. split; [done|]. intros o' (ts & Hts & -> & Hx & Hcap). destruct ts as [|t ts]; [done|]. apply Forall_cons_1 in Hts as [Ht Hts].
    cbn [expand] in Hx. destruct (expand1 o t) as [o1|] eqn:Ho1; [|done]. cbn in Hx. pose proof (Hr t _ o1 Ht eq_refl Ho1). apply expand_length in Hx; [|done]. lia. }
  destruct Hr as (t & o1 & s' & Ht & -> & Ho1 & -> & Hcap1 & -> & ->). pose proof (IH (pre ++ encode1 t) s' o1 (drop (length o1) (o ++ rest))) as Hi.
  rewrite <- app_assoc, length_app, Nat2Z.inj_add in Hi. destruct Hi as (r & out' & E' & Hl' & Hr'); [by apply Forall_app in Hb as [_ ?]| |].
  { rewrite length_app in Hl. assert (0 < length (encode1 t))%nat by (destruct t; cbn; [lia|destruct (_ <? _); cbn; lia]). lia. }
  assert (Hsame : length (o1 ++ drop (length o1) (o ++ rest)) = length (o ++ rest)) by (rewrite (length_app o1), length_drop; lia). rewrite Hsame in *.
  exists r, out'. split; [done|]. split; [done|]. destruct r as [e|n].
  - intros o' (ts & Hts & Es & Hx & Hcap). destruct ts as [|t' ts]; [by destruct t; cbn in Es; [|destruct (_ <? _)]|]. apply Forall_cons_1 in Hts as [Ht' Hts].
    rewrite encode_cons in Es. apply encode1_inj in Es as [<- ->]; [|done..]. cbn [expand] in Hx. rewrite Ho1 in Hx. apply (Hr' o'). by exists ts.
  - destruct Hr' as (o' & (ts & Hts & -> & Hx & Hcap) & -> & ->). exists o'. split; [exists (t :: ts); split_and!; [by constructor|done|cbn [expand]; by rewrite Ho1|done]|]. split; [done|].
    f_equal. pose proof (expand_length _ _ _ Hts Hx). rewrite drop_app_ge, drop_drop by lia. f_equal. lia.
Qed.
End LzfFormat.
