(* ===== verification/LzfRound.v ===== *)
(** * LZF: what [lzf_compress] writes is decoded to its input *)

From S2P Require Import Prelude Lzf LzfFormat.
Import Lzf LzfFormat.

Module LzfRound.

(** ** Matches *)

Definition same_at (inp : list Z) (p q : Z) : Prop := load8 inp p = load8 inp q ∧ is_Some (load8 inp q).
(** [len] bytes at [ref] and at [ip] are the same. *)
Definition matches (inp : list Z) (ref ip len : Z) : Prop := ∀ k, 0 ≤ k < len → same_at inp (ref + k) (ip + k).

Lemma matches_next inp ref ip len : matches inp ref ip len → same_at inp (ref + len) (ip + len) → matches inp ref ip (len + 1).
Proof. intros Hm Hs k Hk. destruct (decide (k = len)) as [->|]; [done|]. apply Hm. lia. Qed.

Section scan.
Context (inp : list Z) (ref ip : Z).
Hypothesis Hr : 0 ≤ ref < ip.

Lemma loads len : 0 ≤ len → ip + len < zlen inp → ∃ a b, load8 inp (ref + len) = Some a ∧ load8 inp (ip + len) = Some b.
Proof using Hr. intros H0 H. destruct (load8_total inp (ref + len)) as [a Ha]; [lia|]. destruct (load8_total inp (ip + len)) as [b Hb]; [lia|]. by exists a, b. Qed.
(** [len + 1] bytes are known to match when the next one is read. *)
Lemma scan16_spec n len : 0 ≤ len → matches inp ref ip (len + 1) → ip + len + Z.of_nat n < zlen inp →
  ∃ stop len', scan16 n inp ref ip len = Some (stop, len') ∧ len ≤ len' ≤ len + Z.of_nat n ∧
    (if stop then len < len' ∧ matches inp ref ip len' else len' = len + Z.of_nat n ∧ matches inp ref ip (len' + 1)).
Proof using Hr.
  revert len. induction n as [|n IH]; intros len H0 Hm Hb; cbn [scan16]; [exists false, len; split_and!; (done || lia || by rewrite Z.add_0_r)|].
  destruct (loads (len + 1)) as (a & b & Ha & Hb'); [lia|lia|]. rewrite Ha, Hb'. cbn [mbind option_bind]. destruct (Z.eqb_spec a b) as [->|Hne]; cbn [negb].
  - destruct (IH (len + 1)) as (stop & len' & E & Hl & Hs); [lia| |lia|].
    { apply matches_next; [done|]. split; [congruence|by eexists]. }
    exists stop, len'. split_and!; [done|lia|lia|]. destruct stop; [|split; [lia|apply Hs]]. split; [lia|apply Hs].
  - exists true, (len + 1). split_and!; done || lia.
Qed.
Lemma scan_rest_spec fuel maxlen len : 0 ≤ len → matches inp ref ip (len + 1) → ip + Z.max (len + 1) maxlen ≤ zlen inp → maxlen - len ≤ Z.of_nat fuel → (0 < fuel)%nat →
  ∃ len', scan_rest fuel inp ref ip maxlen len = Some len' ∧ len < len' ≤ Z.max (len + 1) maxlen ∧ matches inp ref ip len'.
Proof using Hr.
  revert len. induction fuel as [|fuel IH]; intros len H0 Hm Hb Hf Hf0; cbn [scan_rest]; [lia|]. destruct (Z.ltb_spec (len + 1) maxlen); [|exists (len + 1); split_and!; done || lia].
  destruct (loads (len + 1)) as (a & b & Ha & Hb'); [lia|lia|]. rewrite Ha, Hb'. cbn [mbind option_bind]. destruct (Z.eqb_spec a b) as [->|Hne]; [|exists (len + 1); split_and!; done || lia].
  destruct (IH (len + 1)) as (len' & E & Hl & Hs); [lia| |lia|lia|lia|].
  { apply matches_next; [done|]. split; [congruence|by eexists]. }
  exists len'. split_and!; done || lia.
Qed.
(** The length of a match: at least 3 bytes, within the input and the format. *)
Lemma match_len_spec maxlen : matches inp ref ip 3 → ip + 3 ≤ zlen inp → maxlen = Z.min (zlen inp - ip - 2) 264 →
  ∃ len, match_len inp ref ip maxlen = Some len ∧ 3 ≤ len ≤ 264 ∧ ip + len ≤ zlen inp ∧ matches inp ref ip len.
Proof using Hr.
  intros Hm H3 ->. set (m := Z.min (zlen inp - ip - 2) 264). assert (Hmb : m ≤ zlen inp - ip - 2 ∧ m ≤ 264) by (unfold m; lia). unfold match_len.
  assert (Hs : ∃ stop len, (if m >? 16 then scan16 16 inp ref ip 2 else Some (false, 2)) = Some (stop, len) ∧ 2 ≤ len ≤ 18 ∧ ip + len < zlen inp ∧
            (if (stop : bool) then 3 ≤ len ∧ matches inp ref ip len else matches inp ref ip (len + 1))).
  { rewrite Z.gtb_ltb. destruct (Z.ltb_spec 16 m) as [H16|_].
    - destruct (scan16_spec 16 2) as (stop & len & E & Hl & Hs); [lia|done|lia|]. exists stop, len. split_and!; [done|lia|lia|lia|].
      destruct stop; destruct Hs; split_and?; done || lia.
    - exists false, 2. split_and!; done || lia. }
  destruct Hs as (stop & len & E & Hl & Hi & Hs). rewrite E. cbn [mbind option_bind]. destruct stop; [exists len; split_and!; tauto || lia|].
  change (Z.to_nat MAX_REF) with 264%nat. destruct (scan_rest_spec 264 m len) as (len' & E' & Hl' & Hm'); [lia|done|lia|lia|lia|].
  exists len'. split_and!; done || lia.
Qed.
End scan.

(** [is_match] never reads outside the input, and finds three equal bytes. *)
Lemma is_match_spec inp ip ref off : 0 ≤ ip → ip + 2 < zlen inp → (off < 8192 → 0 < ref → ref < ip) →
  ∃ b, is_match inp ip ref off = Some b ∧ (b = true → off < 8192 ∧ 0 < ref ∧ matches inp ref ip 3).
Proof.
  intros H0 Hi Hr. unfold is_match. change MAX_OFF with 8192. rewrite Z.gtb_ltb. destruct (Z.ltb_spec off 8192) as [Ho|]; [|by exists false]. destruct (Z.ltb_spec 0 ref) as [Hp|]; [|by exists false].
  cbn [andb]. specialize (Hr Ho Hp). destruct (loads inp ref ip ltac:(lia) 2) as (a & b & Ha & Hb); [lia|lia|]. rewrite Ha, Hb. cbn [mbind option_bind].
  destruct (Z.eqb_spec a b) as [->|]; [|by exists false]. destruct (load_total inp ref 2) as [x Hx]; [lia..|]. destruct (load_total inp ip 2) as [y Hy]; [lia..|]. rewrite Hx, Hy. cbn [mbind option_bind].
  eexists; split; [done|]. intros ->%bool_decide_eq_true_1. split_and!; [done..|].
  assert (Hk : ∀ p k, 0 ≤ p → 0 ≤ k < 2 → load inp p 2 = Some y → load8 inp (p + k) = y !! Z.to_nat k).
  { intros p k Hp0 Hk0 (pre & post & -> & -> & Hl)%load_Some. unfold load8. rewrite decide_True by lia. rewrite lookup_app_r, lookup_app_l by lia. f_equal. lia. }
  intros k Hk3. assert (k = 2 ∨ 0 ≤ k < 2) as [->|Hk2] by lia; [split; [congruence|by eexists]|].
  split; [by rewrite (Hk ref k), (Hk ip k) by (done || lia)|]. destruct (load8_total inp (ip + k)) as [z ->]; [lia|by eexists].
Qed.

(** ** The expansion of a match *)

Lemma replay_take inp (n p q : nat) : (p < q)%nat → (q + n ≤ length inp)%nat → (∀ k, (k < n)%nat → inp !! (p + k)%nat = inp !! (q + k)%nat) →
  replay n p (take q inp) = take (q + n) inp.
Proof.
  revert p q. induction n as [|n IH]; intros p q Hp Hq Hk; cbn [replay]; [by rewrite Nat.add_0_r|]. destruct (lookup_lt_is_Some_2 inp q ltac:(lia)) as [x Hx].
  assert (E : take q inp !!! p = x).
  { apply list_lookup_total_correct. rewrite lookup_take_lt by lia. specialize (Hk 0%nat ltac:(lia)). by rewrite !Nat.add_0_r, Hx in Hk. }
  rewrite E, <- take_S_r by done. rewrite IH; [f_equal; lia|lia|lia|]. intros k Hkn. specialize (Hk (S k) ltac:(lia)). by rewrite <- !plus_n_Sm in Hk.
Qed.
Lemma matches_lookup inp ref ip len (k : nat) : matches inp ref ip len → 0 ≤ ref < ip → Z.of_nat k < len →
  inp !! (Z.to_nat ref + k)%nat = inp !! (Z.to_nat ip + k)%nat.
Proof.
  intros Hm Hr Hk. destruct (Hm (Z.of_nat k)) as [E _]; [lia|]. unfold load8 in E. rewrite !decide_True in E by lia.
  by rewrite !Z2Nat.inj_add, !Nat2Z.id in E by lia.
Qed.
Lemma expand_match inp ref ip len : 0 ≤ ref < ip → ip + len ≤ zlen inp → 3 ≤ len → matches inp ref ip len →
  expand1 (take (Z.to_nat ip) inp) (Ref (ip - ref - 1) len) = Some (take (Z.to_nat (ip + len)) inp).
Proof.
  intros Hr Hi Hl Hm. cbn [expand1]. rewrite length_take. destruct (Z.ltb_spec (ip - ref - 1) (Z.of_nat (Z.to_nat ip `min` length inp))); [|lia].
  f_equal. rewrite Z2Nat.inj_add by lia. replace (Z.to_nat ip `min` length inp - 1 - Z.to_nat (ip - ref - 1))%nat with (Z.to_nat ref) by lia.
  apply replay_take; [lia|lia|]. intros k Hk. eapply matches_lookup; [done|lia|lia].
Qed.

(** ** Writing *)

Lemma put_at a x c y p : p = zlen a → put (a ++ x :: c) p y = Some (a ++ u8 y :: c).
Proof. intros ->. unfold put. by apply store_one. Qed.
Lemma u8_small x : 0 ≤ x < 256 → u8 x = x.
Proof. intros. by apply wrapu_small. Qed.
(** The bytes of a reference, as the code computes them. *)
Lemma write_ref a x y z tl off len : 0 ≤ off < 8192 → 3 ≤ len ≤ 264 → ∃ out op,
  (if len - 2 <? 7 then out ← put (a ++ x :: y :: z :: tl) (zlen a) (Z.shiftr off 8 + Z.shiftl (len - 2) 5); Some (out, zlen a + 1)
   else out ← put (a ++ x :: y :: z :: tl) (zlen a) (Z.shiftr off 8 + Z.shiftl 7 5); out ← put out (zlen a + 1) (len - 2 - 7); Some (out, zlen a + 2)) = Some (out, op) ∧
  put out op off = Some (a ++ encode1 (Ref off len) ++ (if len <? 9 then [z] else []) ++ tl) ∧ op + 1 = zlen a + zlen (encode1 (Ref off len)).
Proof.
  intros Ho Hl. rewrite Z.shiftr_div_pow2, !Z.shiftl_mul_pow2 by lia. change (2 ^ 8) with 256. change (2 ^ 5) with 32. assert (0 ≤ off / 256 < 32) by dlia.
  assert (Eo : u8 off = off mod 256) by done. cbn [encode1]. destruct (Z.ltb_spec (len - 2) 7), (Z.ltb_spec len 9); try lia; rewrite put_at, u8_small by (done || lia); cbn [mbind option_bind].
  - eexists _, _. split; [done|]. split; [|cbn [length]; lia].
    replace (a ++ off / 256 + (len - 2) * 32 :: y :: z :: tl) with ((a ++ [off / 256 + (len - 2) * 32]) ++ y :: z :: tl) by (by rewrite <- app_assoc).
    rewrite put_at by llia. by rewrite Eo, <- app_assoc.
  - replace (a ++ off / 256 + 7 * 32 :: y :: z :: tl) with ((a ++ [off / 256 + 7 * 32]) ++ y :: z :: tl) by (by rewrite <- app_assoc).
    rewrite put_at by llia. cbn [mbind option_bind]. eexists _, _. split; [done|]. split; [|cbn [length]; lia]. rewrite u8_small by lia.
    replace ((a ++ [off / 256 + 7 * 32]) ++ len - 2 - 7 :: z :: tl) with ((a ++ [off / 256 + 7 * 32; len - 2 - 7]) ++ z :: tl) by (by rewrite <- !app_assoc).
    rewrite put_at by llia. rewrite Eo, <- app_assoc. by replace (len - 2 - 7) with (len - 9) by lia.
Qed.

(** ** The state of the compressor *)

Section compress.
Context (garbage : Z → Z) (inp : list Z) (out_len : Z).
Hypothesis Hbytes : Forall is_byte inp.
Hypothesis Hlen : zlen inp < 2 ^ 63.
(** The table holds addresses: an offset from the input that is so large that
    the difference to the input wraps is not one. *)
Hypothesis Hgarbage : ∀ i, garbage i < 2 ^ 64 - 8192.

(** The finished tokens, and the output after them. *)
Definition written (ts : list token) (e out rest : list Z) : Prop :=
  Forall token_ok ts ∧ expand [] ts = Some e ∧ out = encode ts ++ rest ∧ zlen out = out_len.
(** The finished tokens and the current run stand for the input before [ip];
    the run is in place after its header byte.  The last line bounds the
    output: one byte more for every 32 of the input. *)
Definition cinv (v : lzf_vars) : Prop :=
  ∃ ts run e rest, written ts e (v_out v) rest ∧ e ++ run = take (Z.to_nat (v_ip v)) inp ∧
    v_lit v = zlen run ∧ zlen run < 32 ∧ v_op v = zlen (encode ts) + 1 + zlen run ∧
    (run ≠ [] → ∃ h rest', rest = h :: run ++ rest') ∧
    0 ≤ v_ip v ≤ zlen inp ∧ (∀ i r, v_htab v !! i = Some r → r < 2 ^ 63) ∧
    32 * (v_op v - 1 - v_ip v) ≤ v_ip v - v_lit v.

Lemma run_bytes e run (n : nat) : e ++ run = take n inp → Forall is_byte run.
Proof using Hbytes. intros E. assert (H : Forall is_byte (e ++ run)) by (rewrite E; by apply Forall_take). by apply Forall_app in H as [_ ?]. Qed.

(** A run becomes a token. *)
Lemma written_lit ts e run rest h out : written ts e out (h :: run ++ rest) → Forall is_byte run → 1 ≤ zlen run ≤ 32 →
  written (ts ++ [Lit run]) (e ++ run) (encode ts ++ zlen run - 1 :: run ++ rest) rest.
Proof using Type.
  intros (Hts & He & -> & Hl) Hb Hn. split_and!.
  - apply Forall_app; split; [done|]. constructor; [|done]. by split.
  - rewrite expand_snoc, He. done.
  - by rewrite encode_snoc, <- app_assoc.
  - rewrite <- Hl, !length_app. cbn [length]. done.
Qed.

(** One literal byte. *)
Lemma literal_spec v : cinv v → v_ip v < zlen inp → v_op v < out_len →
  ∃ v', literal inp v = Some v' ∧ cinv v' ∧ v_ip v' = v_ip v + 1 ∧
    (v_lit v' = v_lit v + 1 ∧ v_op v' = v_op v + 1 ∨ v_lit v = 31 ∧ v_lit v' = 0 ∧ v_op v' = v_op v + 2).
Proof using Hbytes.
  intros (ts & run & e & rest & Hw & He & Hlit & Hrun & Hop & Hrest & Hip & Hh & Hsz) Hi Ho. destruct v as [ip op lit hval htab out]. cbn [v_ip v_op v_lit v_htab v_out v_hval] in *. subst lit op.
  destruct (load8_total inp ip) as [x Hx]; [lia|]. unfold literal. rewrite Hx. cbn [mbind option_bind]. pose proof (load8_byte _ _ _ Hbytes Hx) as Hbx.
  assert (Hr : ∃ h y rest', rest = h :: run ++ y :: rest').
  { pose proof Hw as (_ & _ & -> & Hl). rewrite length_app in Hl. destruct run as [|r0 run].
    - destruct rest as [|h [|y rest']]; cbn [length] in *; [lia|lia|]. by exists h, y, rest'.
    - destruct Hrest as (h & rest' & ->); [done|]. destruct rest' as [|y rest']; [rewrite app_nil_r in Hl; cbn [length] in *; lia|]. by exists h, y, rest'. }
  destruct Hr as (h & y & rest' & ->). assert (Eo : out = (encode ts ++ h :: run) ++ y :: rest') by (destruct Hw as (_ & _ & -> & _); by rewrite <- app_assoc).
  assert (Hp : put out (zlen (encode ts) + 1 + zlen run) x = Some (encode ts ++ h :: (run ++ [x]) ++ rest')).
  { rewrite Eo, put_at by (rewrite length_app; cbn [length]; lia). rewrite u8_small by done. by rewrite <- !app_assoc, <- app_comm_cons. }
  rewrite Hp. cbn [mbind option_bind]. assert (He' : e ++ run ++ [x] = take (Z.to_nat (ip + 1)) inp).
  { rewrite app_assoc, He. unfold load8 in Hx. rewrite decide_True in Hx by lia. replace (Z.to_nat (ip + 1)) with (S (Z.to_nat ip)) by lia. by rewrite (take_S_r _ _ x). }
  assert (Hw' : written ts e (encode ts ++ h :: (run ++ [x]) ++ rest') (h :: (run ++ [x]) ++ rest')).
  { destruct Hw as (H1 & H2 & H3 & H4). split_and!; [done..|]. rewrite <- H4, Eo, !length_app. cbn [length]. rewrite !length_app. cbn [length]. lia. }
  assert (Hn : zlen (run ++ [x]) = zlen run + 1) by llia. change MAX_LIT with 32. destruct (Z.eqb_spec (zlen run + 1) 32) as [E32|N32].
  - rewrite put_at by (cbn [length]; lia). cbn [mbind option_bind]. eexists; split; [done|]. cbn [v_ip v_op v_lit v_htab v_out]. split; [|lia].
    rewrite u8_small by lia. exists (ts ++ [Lit (run ++ [x])]), [], (e ++ run ++ [x]), rest'. cbn [v_ip v_op v_lit v_htab v_out length]. split_and!; try done; try lia.
    + replace (zlen run + 1 - 1) with (zlen (run ++ [x]) - 1) by lia. eapply written_lit; [exact Hw'|by eapply run_bytes|lia].
    + by rewrite app_nil_r.
    + rewrite encode_snoc, length_app. cbn [encode1 length]. lia.
  - eexists; split; [done|]. cbn [v_ip v_op v_lit v_htab v_out]. split; [|lia]. exists ts, (run ++ [x]), e, (h :: (run ++ [x]) ++ rest').
    cbn [v_ip v_op v_lit v_htab v_out]. split_and!; try done; try lia. intros _. by exists h, rest'.
Qed.

(** The header of the current run, if there is one, is written. *)
Lemma close_run v : cinv v → v_op v - v_lit v - 1 < out_len →
  ∃ out ts rest, put (v_out v) (v_op v - v_lit v - 1) (v_lit v - 1) = Some out ∧ written ts (take (Z.to_nat (v_ip v)) inp) out rest ∧
    v_op v - is_zero (v_lit v) = zlen (encode ts).
Proof using Hbytes.
  intros (ts & run & e & rest & Hw & He & Hlit & Hrun & Hop & Hrest & Hip & Hh & Hsz) Ho. pose proof Hw as (Hts & Hx & Hout & Hl). rewrite Hop, Hlit, Hout in *. unfold is_zero in *.
  replace (zlen (encode ts) + 1 + zlen run - zlen run - 1) with (zlen (encode ts)) by lia. destruct run as [|r0 run0] eqn:Er.
  - cbn [length] in *. change (Z.of_nat 0) with 0 in *. change (0 =? 0) with true in *. cbv iota in *. rewrite app_nil_r in He. subst e. destruct rest as [|h rest]; [rewrite app_nil_r in Hl; lia|]. rewrite put_at by done.
    eexists _, ts, _. split; [done|]. split; [|lia]. split_and!; [done..|]. rewrite <- Hl, !length_app. done.
  - rewrite <- Er in *. assert (Hn : 1 ≤ zlen run) by (rewrite Er; cbn [length]; lia). destruct (Z.eqb_spec (zlen run) 0); [lia|].
    destruct Hrest as (h & rest' & ->); [by rewrite Er|]. rewrite put_at by done. rewrite u8_small by lia. eexists _, (ts ++ [Lit run]), rest'. split; [done|].
    rewrite <- He. split; [eapply written_lit; [exact Hw|by eapply run_bytes|lia]|]. rewrite encode_snoc, length_app. cbn [encode1 length]. lia.
Qed.

(** A reference is appended. *)
Lemma written_ref ts e out rest off len e' tl : written ts e out rest → token_ok (Ref off len) → expand1 e (Ref off len) = Some e' →
  length rest = (length (encode1 (Ref off len)) + length tl)%nat →
  written (ts ++ [Ref off len]) e' (encode ts ++ encode1 (Ref off len) ++ tl) tl.
Proof using Type.
  clear Hbytes Hlen Hgarbage. intros (Hts & He & -> & Hl) Ht Hx Hn. split_and!.
  - apply Forall_app; split; [done|]. by constructor.
  - by rewrite expand_snoc, He.
  - by rewrite encode_snoc, <- app_assoc.
  - rewrite <- Hl, !length_app. lia.
Qed.

Lemma frst_total p : 0 ≤ p → p + 1 < zlen inp → ∃ h, FRST inp p = Some h.
Proof using Type. intros H0 H. unfold FRST. destruct (load8_total inp p) as [a ->]; [lia|]. destruct (load8_total inp (p + 1)) as [b ->]; [lia|]. by eexists. Qed.
Lemma next_total h p : 0 ≤ p → p + 2 < zlen inp → ∃ h', NEXT h inp p = Some h'.
Proof using Type. intros H0 H. unfold NEXT. destruct (load8_total inp (p + 2)) as [c ->]; [lia|]. by eexists. Qed.

Definition progress (v : lzf_vars) (r : list Z + bool * lzf_vars) : Prop :=
  match r with
  | inl out => out_len ≤ v_op v + 4 ∧ zlen out = out_len
  | inr (stop, v') => cinv v' ∧ v_ip v < v_ip v' ∧ (stop = true → zlen inp - 2 ≤ v_ip v')
  end.

Lemma match_found_spec v ref : cinv v → v_ip v + 2 < zlen inp → 0 < ref < v_ip v → v_ip v - ref - 1 < 8192 → matches inp ref (v_ip v) 3 →
  ∃ r, match_found inp out_len ref (v_ip v - ref - 1) v = Some r ∧ progress v r.
Proof using Hbytes Hlen.
  intros Hi Hip Hr Ho Hm. pose proof Hi as (ts0 & run & e0 & rest0 & Hw0 & _ & Hlit & _ & Hop & _ & Hip0 & Hh & Hsz). pose proof (close_run v Hi) as Hc.
  destruct v as [ip op lit hval htab out]. unfold match_found. cbn [v_ip v_op v_lit v_htab v_out v_hval] in *. set (z := is_zero lit) in *. assert (Hz : 0 ≤ z ≤ 1) by (unfold z, is_zero; destruct (_ =? _); lia).
  rewrite !Z.geb_leb. destruct (_ && _) eqn:Et.
  { eexists; split; [done|]. cbn [progress v_op]. split; [lia|apply Hw0]. }
  assert (Hroom : op - z + 4 < out_len) by (destruct (Z.leb_spec out_len (op + 3 + 1)), (Z.leb_spec out_len (op - z + 3 + 1)); cbn in Et; lia || done). clear Et.
  destruct Hc as (out1 & ts & rest & E & Hw & Hop1); [lia|]. rewrite E. cbn [mbind option_bind]. rewrite Hop1 in *.
  assert (Hmax : (if zlen inp - ip - 2 >? MAX_REF then MAX_REF else zlen inp - ip - 2) = Z.min (zlen inp - ip - 2) 264).
  { change MAX_REF with 264. rewrite Z.gtb_ltb. destruct (Z.ltb_spec 264 (zlen inp - ip - 2)); lia. }
  destruct (match_len_spec inp ref ip ltac:(lia) _ Hm ltac:(lia) eq_refl) as (len & El & Hl & Hil & Hml). rewrite Hmax, El. cbn [mbind option_bind]. clear Hmax El.
  assert (Hrest : ∃ x y z tl, rest = x :: y :: z :: tl).
  { destruct Hw as (_ & _ & -> & Hol). rewrite length_app in Hol. destruct rest as [|x [|y [|zz tl]]]; cbn [length] in Hol; try lia. by exists x, y, zz, tl. }
  destruct Hrest as (x & y & zz & tl & ->). pose proof Hw as (_ & _ & Eout & _). rewrite Eout.
  destruct (write_ref (encode ts) x y zz tl (ip - ref - 1) len) as (out2 & op2 & E1 & E2 & E3); [lia|lia|]. rewrite E1. cbn [mbind option_bind]. rewrite E2. cbn [mbind option_bind]. rewrite E3. clear Eout E1 E2 E3.
  set (tl' := (if len <? 9 then [zz] else []) ++ tl). assert (Hok : token_ok (Ref (ip - ref - 1) len)) by (cbn; lia).
  assert (Hel : zlen (encode1 (Ref (ip - ref - 1) len)) = if len <? 9 then 2 else 3) by (cbn [encode1]; destruct (len <? 9); done).
  assert (Hw' : written (ts ++ [Ref (ip - ref - 1) len]) (take (Z.to_nat (ip + len)) inp) (encode ts ++ encode1 (Ref (ip - ref - 1) len) ++ tl') tl').
  { eapply written_ref; [exact Hw|done|apply expand_match; [lia..|done]|]. unfold tl'. rewrite length_app. cbn [length]. destruct (len <? 9); cbn [length]; lia. }
  assert (Hinv : ∀ hval' htab', (∀ i r, htab' !! i = Some r → r < 2 ^ 63) →
    cinv (LzfVars (ip + len) (zlen (encode ts) + zlen (encode1 (Ref (ip - ref - 1) len)) + 1) 0 hval' htab' (encode ts ++ encode1 (Ref (ip - ref - 1) len) ++ tl'))).
  { intros hval' htab' Hh'. eexists _, [], _, tl'. cbn [v_ip v_op v_lit v_htab v_out]. split; [exact Hw'|]. rewrite app_nil_r, encode_snoc, length_app. cbn [length]. split_and!; try done; try lia.
    rewrite Hel. destruct (Z.ltb_spec len 9); lia. }
  replace (ip + 1 + (len - 2 + 1)) with (ip + len) by lia. rewrite Z.geb_leb. destruct (Z.leb_spec (zlen inp - 2) (ip + len)).
  { eexists; split; [done|]. cbn [progress v_ip v_op]. split_and!; [by apply Hinv|lia|lia]. }
  destruct (frst_total (ip + len - 2)) as [h1 ->]; [lia|lia|]. cbn [mbind option_bind]. destruct (next_total h1 (ip + len - 2)) as [h2 ->]; [lia|lia|]. cbn [mbind option_bind].
  destruct (next_total h2 (ip + len - 2 + 1)) as [h3 ->]; [lia|lia|]. cbn [mbind option_bind]. replace (ip + len - 2 + 2) with (ip + len) by lia.
  eexists; split; [done|]. cbn [progress v_ip v_op]. split_and!; [|lia|done]. apply Hinv. intros i r. rewrite !lookup_insert_Some. intros [[_ <-]|[_ [[_ <-]|[_ Hr']]]]; [lia|lia|by eapply Hh].
Qed.

Lemma step_progress v : cinv v → v_ip v + 2 < zlen inp → ∃ r, compress_step garbage inp out_len v = Some r ∧ progress v r.
Proof using Hbytes Hlen Hgarbage.
  intros Hi Hip. destruct v as [ip op lit hval htab out]. cbn [v_ip] in *. pose proof Hi as (_ & _ & _ & _ & _ & _ & _ & _ & _ & _ & Hip0 & Hh & _). cbn [v_ip v_htab] in *.
  unfold compress_step. destruct (next_total hval ip) as [h ->]; [lia|lia|]. cbn [mbind option_bind]. set (ref := default _ _).
  assert (Href : ref < 2 ^ 64 - 8192).
  { unfold ref. destruct (htab !! IDX h) as [r|] eqn:E; cbn; [|apply Hgarbage]. specialize (Hh _ _ E). lia. }
  assert (Hoff : u64 (ip - ref - 1) < 8192 → 0 < ref → ref < ip ∧ u64 (ip - ref - 1) = ip - ref - 1).
  { intros Ho Hp. unfold wrapu in *. destruct (Z.lt_ge_cases (ip - ref - 1) 0) as [Hneg|Hpos]; [|rewrite Z.mod_small in * by lia; split; lia].
    exfalso. rewrite <- (Z.mod_add _ 1) in Ho by lia. rewrite Z.mod_small in Ho by lia. lia. }
  clearbody ref. destruct (is_match_spec inp ip ref (u64 (ip - ref - 1))) as (b & -> & Hb); [lia|lia|intros; by apply Hoff|]. cbn [mbind option_bind].
  set (v := LzfVars ip op lit h (<[IDX h := ip]> htab) out). assert (Hi' : cinv v).
  { destruct Hi as (ts & run & e & rest & H1 & H2 & H3 & H4 & H5 & H6 & H7 & H8 & H9). exists ts, run, e, rest. cbn [v v_ip v_op v_lit v_htab v_out] in *. split_and!; try done; try lia.
    intros i r. rewrite lookup_insert_Some. intros [[_ <-]|[_ ?]]; [lia|by eapply Hh]. }
  destruct b.
  - destruct Hb as (Ho & Hp & Hm); [done|]. destruct (Hoff Ho Hp) as [Hlt Eo]. rewrite Eo in *. by apply (match_found_spec v ref).
  - rewrite Z.geb_leb. destruct (Z.leb_spec out_len op) as [Hfull|Hroom].
    + eexists; split; [done|]. cbn [progress v_op]. split; [lia|]. destruct Hi as (ts & run & e & rest & (_ & _ & _ & Hl) & _). exact Hl.
    + destruct (literal_spec v Hi') as (v' & -> & Hv' & E & _); [cbn; lia|cbn; lia|]. cbn [mbind option_bind]. eexists; split; [done|]. cbn [progress v_ip] in *. split_and!; [done|cbn in E; lia|done].
Qed.
(** The room that is always enough. *)
Lemma cinv_op v : cinv v → v_op v ≤ v_ip v + 1 + zlen inp / 32.
Proof using Type. clear Hbytes Hlen Hgarbage. intros (ts & run & _ & _ & _ & _ & Hlit & _ & _ & _ & Hip & _ & Hs). pose proof (Z.div_mod (zlen inp) 32 ltac:(lia)). pose proof (Z.mod_pos_bound (zlen inp) 32 ltac:(lia)). lia. Qed.

Lemma loop_progress fuel v : cinv v → zlen inp - 2 - v_ip v ≤ Z.of_nat fuel →
  ∃ r, compress_loop garbage fuel inp out_len v = Some r ∧
    match r with
    | inl out => out_len < zlen inp + zlen inp / 32 + 4 ∧ zlen out = out_len
    | inr v' => cinv v' ∧ zlen inp - 2 ≤ v_ip v'
    end.
Proof using Hbytes Hlen Hgarbage.
  revert v. induction fuel as [|fuel IH]; intros v Hv Hf; cbn [compress_loop].
  - destruct (Z.ltb_spec (v_ip v) (zlen inp - 2)); [lia|]. by eexists.
  - destruct (Z.ltb_spec (v_ip v) (zlen inp - 2)); [|by eexists]. destruct (step_progress v Hv) as (r & -> & Hp); [lia|]. cbn [mbind option_bind].
    destruct r as [out|[stop v']].
    + destruct Hp as [Ho Hl]. eexists; split; [done|]. pose proof (cinv_op v Hv). split; [lia|done].
    + destruct Hp as (Hv' & Hlt & Hst). destruct stop; [eexists; split; [done|]; split; [done|auto]|]. apply IH; [done|lia].
Qed.
(** At most two bytes are left, and at most one run is completed by them. *)
Definition room (v : lzf_vars) : Prop :=
  let k := zlen inp - v_ip v in v_op v + k + 1 ≤ out_len ∨ v_op v + k ≤ out_len ∧ v_lit v + k < 32.
Lemma literals_progress fuel v : cinv v → zlen inp - v_ip v ≤ Z.of_nat fuel → zlen inp - v_ip v ≤ 2 → room v →
  ∃ v', literals_loop fuel inp v = Some v' ∧ cinv v' ∧ v_ip v' = zlen inp ∧ v_op v' ≤ out_len.
Proof using Hbytes.
  unfold room. revert v. induction fuel as [|fuel IH]; intros v Hv Hf H2 Hr; pose proof Hv as (_ & run & _ & _ & _ & _ & Hlit & _ & _ & _ & Hip & _); cbn [literals_loop].
  - destruct (Z.ltb_spec (v_ip v) (zlen inp)); [lia|]. exists v. split_and!; [done|done|lia|lia].
  - destruct (Z.ltb_spec (v_ip v) (zlen inp)) as [Hi|]; [|exists v; split_and!; [done|done|lia|lia]].
    destruct (literal_spec v Hv Hi) as (v' & -> & Hv' & E & Hc); [lia|]. cbn [mbind option_bind]. apply IH; [done|lia|lia|lia].
Qed.
End compress.

(** ** The two functions *)

Lemma encode_bytes ts : Forall token_ok ts → Forall is_byte (encode ts).
Proof.
  induction 1 as [|t ts Ht _ IH]; [constructor|]. rewrite encode_cons. apply Forall_app; split; [|done]. unfold is_byte in *. destruct t as [bs|off len]; cbn [token_ok encode1] in *.
  - constructor; [lia|apply Ht].
  - pose proof (Z.mod_pos_bound off 256 ltac:(lia)). assert (0 ≤ off / 256 < 32) by dlia. destruct (Z.ltb_spec len 9); repeat constructor; lia.
Qed.
Lemma decompress_decodes inp out : Forall is_byte inp →
  ∃ r out', lzf_decompress inp out = Some (r, out') ∧ length out' = length out ∧
    match r with
    | inr n => ∃ o, decodes inp [] (zlen out) o ∧ n = zlen o ∧ out' = o ++ drop (length o) out
    | inl _ => ∀ o, ¬ decodes inp [] (zlen out) o
    end.
Proof. intros Hb. by apply (loop_decodes (length inp) [] inp [] out). Qed.
(** Streams have one meaning. *)
Lemma encode_inj ts ts' : Forall token_ok ts → Forall token_ok ts' → encode ts = encode ts' → ts = ts'.
Proof.
  intros Hts. revert ts'. induction Hts as [|t ts Ht _ IH]; intros [|t' ts'] Hts' E; [done| | |].
  - apply Forall_cons_1 in Hts' as [_ _]. by destruct t'; cbn in E; [|destruct (_ <? _)].
  - by destruct t; cbn in E; [|destruct (_ <? _)].
  - apply Forall_cons_1 in Hts' as [Ht' Hts']. rewrite !encode_cons in E. apply encode1_inj in E as [-> E]; [|done..]. f_equal. by apply IH.
Qed.
Lemma decompress_encode ts o dst : Forall token_ok ts → expand [] ts = Some o → zlen o ≤ zlen dst →
  lzf_decompress (encode ts) dst = Some (inr (zlen o), o ++ drop (length o) dst).
Proof.
  intros Hts Hx Hd. destruct (decompress_decodes (encode ts) dst) as (r & out' & E & _ & Hr); [by apply encode_bytes|]. destruct r as [e|n].
  - destruct (Hr o). by exists ts.
  - destruct Hr as (o' & (ts' & Hts' & Ee & Hx' & _) & -> & ->). apply encode_inj in Ee as <-; [|done..]. rewrite Hx in Hx'. by injection Hx' as <-.
Qed.

(** The outcome of a decompression: the expansion of the stream at the start of
    the output, or an error when there is none that fits. *)
Definition outcome (inp out : list Z) (r : lzf_errno + Z) (out' : list Z) : Prop :=
  length out' = length out ∧
  match r with
  | inr n => ∃ o, decodes inp [] (zlen out) o ∧ n = zlen o ∧ out' = o ++ drop (length o) out
  | inl _ => ∀ o, ¬ decodes inp [] (zlen out) o
  end.
(** A stream that decompresses to [inp] in every buffer that is large enough. *)
Definition restores (stream inp : list Z) : Prop :=
  ∀ dst, (length inp ≤ length dst)%nat → lzf_decompress stream dst = Some (inr (zlen inp), inp ++ drop (length inp) dst).

Lemma compress_restores garbage inp out : Forall is_byte inp → 2 ≤ zlen inp < 2 ^ 63 → (∀ i, garbage i < 2 ^ 64 - 8192) →
  ∃ n out', lzf_compress garbage inp out = Some (n, out') ∧ length out' = length out ∧ 0 ≤ n ≤ zlen out ∧
    (zlen inp + zlen inp / 32 + 4 ≤ zlen out → n ≠ 0) ∧
    (n ≠ 0 → restores (take (Z.to_nat n) out') inp).
Proof.
  intros Hb Hl Hg. unfold lzf_compress. assert (0 ≤ zlen inp / 32) by (apply Z.div_pos; lia). destruct (Z.eqb_spec (zlen inp) 0); [lia|]. destruct (Z.eqb_spec (zlen out) 0); cbn [orb].
  { eexists _, _. split; [done|]. split_and!; done || lia. }
  destruct (frst_total inp 0) as [h ->]; [lia|lia|]. cbn [mbind option_bind].
  assert (H0 : cinv inp (zlen out) (LzfVars 0 1 0 h ∅ out)).
  { exists [], [], [], out. cbn [v_ip v_op v_lit v_htab v_out length]. split_and!; try done; try lia. }
  destruct (loop_progress garbage inp (zlen out) Hb ltac:(lia) Hg (length inp) _ H0) as (r & -> & Hr); [cbn; lia|]. cbn [mbind option_bind]. destruct r as [out1|v].
  { destruct Hr as [Hr1 Hr2]. eexists _, _. split; [done|]. split_and!; done || lia. }
  destruct Hr as [Hv Hend]. pose proof Hv as (ts0 & run & e0 & rest0 & Hw & _ & Hlit & _ & Hop & _ & Hip & _). pose proof (cinv_op _ _ v Hv). rewrite Z.gtb_ltb. destruct (Z.ltb_spec (zlen out) (v_op v + 3)).
  { eexists _, _. split; [done|]. destruct Hw as (_ & _ & _ & Hlo). split_and!; done || lia. }
  destruct (literals_progress inp (zlen out) Hb (length inp) v Hv) as (v' & -> & Hv' & Hip' & Hop'); [lia|lia|left; lia|]. cbn [mbind option_bind].
  pose proof Hv' as (ts1 & run' & e1 & rest1 & _ & _ & Hlit' & _). destruct (close_run inp (zlen out) Hb v' Hv') as (out' & ts & rest & -> & (Hts & Hx & -> & Hlo) & En); [lia|]. cbn [mbind option_bind].
  rewrite Hip', Nat2Z.id, firstn_all in Hx. assert (Hne : 0 < zlen (encode ts)).
  { destruct ts as [|t ts]; [injection Hx as <-; cbn in Hl; lia|]. rewrite encode_cons, length_app. destruct t; cbn [encode1]; [cbn [length]; lia|destruct (_ <? _); cbn [length]; lia]. }
  eexists _, _. split; [done|]. rewrite En. split_and!; [lia|lia|rewrite length_app in Hlo; lia|lia|].
  intros _ dst Hd. rewrite Nat2Z.id, take_app_length. apply decompress_encode; [done..|lia].
Qed.

(** C2: [lzf_decompress] on arbitrary bytes and an output buffer of any size
    returns without an access outside the two buffers.  It succeeds exactly when
    the input is a sequence of well-formed literal runs and references whose
    expansion is defined and fits the output; then the output starts with that
    expansion, the result is its length, and the rest of the buffer is as it
    was. *)
Theorem lzf_decompress_correct inp out : Forall is_byte inp →
  ∃ r out', lzf_decompress inp out = Some (r, out') ∧ outcome inp out r out'.
Proof. apply decompress_decodes. Qed.

(** C11: For every input of at least two bytes and every output buffer,
    [lzf_compress] stays within its buffers, whatever the uninitialised hash
    table holds.  It returns 0 or the length of a stream from which
    [lzf_decompress] restores the input; and it does not return 0 when the output
    has room for one byte more for every 32 bytes of input, and 4 more. *)
Theorem lzf_roundtrip garbage inp out : Forall is_byte inp → 2 ≤ zlen inp < 2 ^ 63 → (∀ i, garbage i < 2 ^ 64 - 8192) →
  ∃ n out', lzf_compress garbage inp out = Some (n, out') ∧ length out' = length out ∧ 0 ≤ n ≤ zlen out ∧
    (zlen inp + zlen inp / 32 + 4 ≤ zlen out → n ≠ 0) ∧
    (n ≠ 0 → restores (take (Z.to_nat n) out') inp).
Proof. apply compress_restores. Qed.

(** An input of one byte is read beyond its end. *)
Lemma lzf_compress_one garbage x y out : lzf_compress garbage [x] (y :: out) = None.
Proof. unfold lzf_compress. cbn [length]. destruct (Z.eqb_spec (Z.of_nat (S (length out))) 0); [lia|]. done. Qed.

(** "abcabcabcabc" is four literal bytes, a reference and two literal bytes. *)
Definition demo_text : list Z := bytes_of "abcabcabcabc".
Definition demo_stream : list Z := encode [Lit (bytes_of "abca"); Ref 2 6; Lit (bytes_of "bc")].
Lemma lzf_decompress_witness : ∃ r out', lzf_decompress demo_stream (replicate 12 0) = Some (r, out') ∧ length out' = 12%nat ∧
    match r with
    | inr n => ∃ o, decodes demo_stream [] 12 o ∧ n = zlen o ∧ out' = o ++ drop (length o) (replicate 12 0)
    | inl _ => ∀ o, ¬ decodes demo_stream [] 12 o
    end.
Proof. apply (lzf_decompress_correct demo_stream (replicate 12 0)). repeat (constructor; [vm_compute; split; [discriminate|reflexivity]|]). constructor. Defined.
Lemma lzf_roundtrip_witness : ∃ n out', lzf_compress (λ _, 0) demo_text (replicate 20 0) = Some (n, out') ∧ length out' = 20%nat ∧ 0 ≤ n ≤ 20 ∧ (16 ≤ 20 → n ≠ 0) ∧
    (n ≠ 0 → ∀ dst, (12 ≤ length dst)%nat → lzf_decompress (take (Z.to_nat n) out') dst = Some (inr 12, demo_text ++ drop 12 dst)).
Proof.
  apply (lzf_roundtrip (λ _, 0) demo_text (replicate 20 0)).
  - repeat (constructor; [vm_compute; split; [discriminate|reflexivity]|]). constructor.
  - vm_compute. split; [discriminate|reflexivity].
  - intros i. lia.
Defined.
Example demo_compressed : lzf_compress (λ _, 0) demo_text (replicate 20 0) = Some (zlen demo_stream, demo_stream ++ drop (length demo_stream) (replicate 20 0)).
Proof. vm_compute. reflexivity. Qed.
End LzfRound.
