(* ===== verification/Bitops.v ===== *)
(** * bitops.c: bitmaps

    Strings as arrays of bits, bit 0 being the most significant bit of the first
    byte: counting and searching bits by words, bit fields of up to 64 bits with
    their overflow semantics, and what the commands SETBIT, GETBIT, BITOP,
    BITCOUNT, BITPOS and BITFIELD do with the bytes of a string.  Parsed
    arguments are arguments of the model; the key space and the replies are not
    part of it. *)

From S2P Require Import Prelude Util.
Import Util.

Module Bitops.

(** ** Counting *)

Definition bitsinbyte : list Z :=
  [0; 1; 1; 2; 1; 2; 2; 3; 1; 2; 2; 3; 2; 3; 3; 4; 1; 2; 2; 3; 2; 3; 3; 4; 2; 3; 3; 4; 3; 4; 4; 5;
   1; 2; 2; 3; 2; 3; 3; 4; 2; 3; 3; 4; 3; 4; 4; 5; 2; 3; 3; 4; 3; 4; 4; 5; 3; 4; 4; 5; 4; 5; 5; 6;
   1; 2; 2; 3; 2; 3; 3; 4; 2; 3; 3; 4; 3; 4; 4; 5; 2; 3; 3; 4; 3; 4; 4; 5; 3; 4; 4; 5; 4; 5; 5; 6;
   2; 3; 3; 4; 3; 4; 4; 5; 3; 4; 4; 5; 4; 5; 5; 6; 3; 4; 4; 5; 4; 5; 5; 6; 4; 5; 5; 6; 5; 6; 6; 7;
   1; 2; 2; 3; 2; 3; 3; 4; 2; 3; 3; 4; 3; 4; 4; 5; 2; 3; 3; 4; 3; 4; 4; 5; 3; 4; 4; 5; 4; 5; 5; 6;
   2; 3; 3; 4; 3; 4; 4; 5; 3; 4; 4; 5; 4; 5; 5; 6; 3; 4; 4; 5; 4; 5; 5; 6; 4; 5; 5; 6; 5; 6; 6; 7;
   2; 3; 3; 4; 3; 4; 4; 5; 3; 4; 4; 5; 4; 5; 5; 6; 3; 4; 4; 5; 4; 5; 5; 6; 4; 5; 5; 6; 5; 6; 6; 7;
   3; 4; 4; 5; 4; 5; 5; 6; 4; 5; 5; 6; 5; 6; 6; 7; 4; 5; 5; 6; 5; 6; 6; 7; 5; 6; 6; 7; 6; 7; 7; 8].

(** [*p] and its number of bits. *)
Definition byte_count (s : list Z) (p : Z) : option Z := b ← load8 s p; bitsinbyte !! Z.to_nat b.

(** The three steps for a word of 32 bits: sums of pairs, of four, of eight
    bits. *)
Definition sum2 (x : Z) : Z := u32 (x - Z.land (Z.shiftr x 1) 0x55555555).
Definition sum4 (x : Z) : Z := u32 (Z.land x 0x33333333 + Z.land (Z.shiftr x 2) 0x33333333).
Definition sum8 (x : Z) : Z := Z.land (u32 (x + Z.shiftr x 4)) 0x0F0F0F0F.

Section popcount.
(** The address of the string [s]. *)
Context (a : Z) (s : list Z).

(** Bytes before the first aligned address; the string and counters are
    those of [redisPopcount]. *)
Fixpoint pop_unaligned (fuel : nat) (p count bits : Z) : option (Z * Z * Z) :=
  if negb (Z.land (a + p) 3 =? 0) && negb (count =? 0) then
    match fuel with
    | O => None
    | S fuel => n ← byte_count s p; pop_unaligned fuel (p + 1) (count - 1) (bits + n)
    end
  else Some (p, count, bits).
(** 28 bytes at a time. *)
Definition aux (p : Z) : option Z := w ← load s p 4; Some (sum4 (sum2 (le_val w))).
Definition pop28 (p : Z) : option Z :=
  aux1 ← aux p; aux2 ← aux (p + 4); aux3 ← aux (p + 8); aux4 ← aux (p + 12); aux5 ← aux (p + 16); aux6 ← aux (p + 20); aux7 ← aux (p + 24);
  Some (Z.shiftr (u32 (u32 (sum8 aux1 + sum8 aux2 + sum8 aux3 + sum8 aux4 + sum8 aux5 + sum8 aux6 + sum8 aux7) * 0x01010101)) 24).
Fixpoint pop_words (fuel : nat) (p count bits : Z) : option (Z * Z * Z) :=
  if count >=? 28 then
    match fuel with
    | O => None
    | S fuel => n ← pop28 p; pop_words fuel (p + 28) (count - 28) (bits + n)
    end
  else Some (p, count, bits).
Fixpoint pop_rest (fuel : nat) (p count bits : Z) : option Z :=
  if negb (count =? 0) then
    match fuel with
    | O => None
    | S fuel => n ← byte_count s p; pop_rest fuel (p + 1) (count - 1) (bits + n)
    end
  else Some bits.
(** The number of bits set in the [count] bytes at [s + start]. *)
Definition redisPopcount (start count : Z) : option Z :=
  '(p, count, bits) ← pop_unaligned (length s) start count 0;
  '(p, count, bits) ← pop_words (length s) p count bits;
  pop_rest (length s) p count bits.

(** ** Searching *)

Fixpoint pos_unaligned (fuel : nat) (skipval c count pos : Z) : option (bool * Z * Z * Z) :=
  if negb (Z.land (a + c) 7 =? 0) && negb (count =? 0) then
    match fuel with
    | O => None
    | S fuel => b ← load8 s c; if negb (b =? skipval) then Some (true, c, count, pos) else pos_unaligned fuel skipval (c + 1) (count - 1) (pos + 8)
    end
  else Some (false, c, count, pos).
Fixpoint pos_words (fuel : nat) (skipval l count pos : Z) : option (Z * Z * Z) :=
  if count >=? 8 then
    match fuel with
    | O => None
    | S fuel => w ← load s l 8; if negb (le_val w =? skipval) then Some (l, count, pos) else pos_words fuel skipval (l + 8) (count - 8) (pos + 64)
    end
  else Some (l, count, pos).
(** The next word, the first byte being the most significant one, padded with
    zeros. *)
Fixpoint load_word (n : nat) (c count word : Z) : option Z :=
  match n with
  | O => Some word
  | S n =>
      let word := u64 (Z.shiftl word 8) in
      if negb (count =? 0) then b ← load8 s c; load_word n (c + 1) (count - 1) (Z.lor word b)
      else load_word n c count word
  end.
Fixpoint scan_word (fuel : nat) (one word pos : Z) (bit : bool) : option Z :=
  if one =? 0 then None
  else if eqb (negb (Z.land one word =? 0)) bit then Some pos
  else match fuel with O => None | S fuel => scan_word fuel (Z.shiftr one 1) word (pos + 1) bit end.
Definition redisBitpos (start count : Z) (bit : bool) : option Z :=
  '(found, c, count, pos) ← pos_unaligned (length s) (if bit then 0 else 255) start count 0;
  '(l, count, pos) ← (if (found : bool) then Some (c, count, pos) else pos_words (length s) (if bit then 0 else UINT64_MAX) c count pos);
  word ← load_word 8 l count 0;
  if bit && (word =? 0) then Some (-1)
  else scan_word 64 (u64 (Z.lnot (Z.shiftr UINT64_MAX 1))) word pos bit.
End popcount.

(** ** Bit fields *)

Fixpoint set_bits (n : nat) (p : list Z) (offset value : Z) : option (list Z) :=
  match n with
  | O => Some p
  | S k =>
      let bitval := if Z.land value (Z.shiftl 1 (Z.of_nat k)) =? 0 then 0 else 1 in
      let byte := Z.shiftr offset 3 in
      let bit := 7 - Z.land offset 0x7 in
      byteval ← load8 p byte;
      let byteval := Z.land byteval (Z.lnot (Z.shiftl 1 bit)) in
      let byteval := Z.lor byteval (Z.shiftl bitval bit) in
      p ← store p byte [Z.land byteval 0xff];
      set_bits k p (offset + 1) value
  end.
Definition setUnsignedBitfield (p : list Z) (offset bits value : Z) : option (list Z) := set_bits (Z.to_nat bits) p offset value.
Definition setSignedBitfield (p : list Z) (offset bits value : Z) : option (list Z) := setUnsignedBitfield p offset bits (u64 value).

Fixpoint get_bits (n : nat) (p : list Z) (offset value : Z) : option Z :=
  match n with
  | O => Some value
  | S k =>
      let byte := Z.shiftr offset 3 in
      let bit := 7 - Z.land offset 0x7 in
      byteval ← load8 p byte;
      let bitval := Z.land (Z.shiftr byteval bit) 1 in
      get_bits k p (offset + 1) (Z.lor (u64 (Z.shiftl value 1)) bitval)
  end.
Definition getUnsignedBitfield (p : list Z) (offset bits : Z) : option Z := get_bits (Z.to_nat bits) p offset 0.
Definition getSignedBitfield (p : list Z) (offset bits : Z) : option Z :=
  u ← getUnsignedBitfield p offset bits;
  let value := s64 u in
  Some (if (bits <? 64) && negb (Z.land (u64 value) (Z.shiftl 1 (bits - 1)) =? 0)
        then s64 (Z.lor (u64 value) (u64 (Z.shiftl UINT64_MAX bits))) else value).

Inductive owtype := BFOVERFLOW_WRAP | BFOVERFLOW_SAT | BFOVERFLOW_FAIL.

(** The result and [*limit], if it is written. *)
Definition checkUnsignedBitfieldOverflow (value incr bits : Z) (ow : owtype) : Z * option Z :=
  let max := if bits =? 64 then UINT64_MAX else u64 (Z.shiftl 1 bits - 1) in
  let maxincr := s64 (u64 (max - value)) in
  let minincr := s64 (u64 (- value)) in
  let handle_wrap :=
    let mask := u64 (Z.shiftl UINT64_MAX bits) in
    (1, Some (Z.land (u64 (value + incr)) (u64 (Z.lnot mask)))) in
  if (value >? max) || (incr >? 0) && (incr >? maxincr) then
    match ow with BFOVERFLOW_WRAP => handle_wrap | BFOVERFLOW_SAT => (1, Some max) | BFOVERFLOW_FAIL => (1, None) end
  else if (incr <? 0) && (incr <? minincr) then
    match ow with BFOVERFLOW_WRAP => handle_wrap | BFOVERFLOW_SAT => (-1, Some 0) | BFOVERFLOW_FAIL => (-1, None) end
  else (0, None).

(** [min - value] is computed on signed integers, as if it wrapped. *)
Definition checkSignedBitfieldOverflow (value incr bits : Z) (ow : owtype) : Z * option Z :=
  let max := if bits =? 64 then INT64_MAX else Z.shiftl 1 (bits - 1) - 1 in
  let min := - max - 1 in
  let maxincr := s64 (u64 (max - value)) in
  let minincr := s64 (min - value) in
  let handle_wrap :=
    let msb := Z.shiftl 1 (bits - 1) in
    let c := u64 (u64 value + u64 incr) in
    let c := if bits <? 64 then
               let mask := u64 (Z.shiftl UINT64_MAX bits) in
               if negb (Z.land c msb =? 0) then Z.lor c mask else Z.land c (u64 (Z.lnot mask))
             else c in
    (1, Some (s64 c)) in
  if (value >? max) || negb (bits =? 64) && (incr >? maxincr) || (value >=? 0) && (incr >? 0) && (incr >? maxincr) then
    match ow with BFOVERFLOW_WRAP => handle_wrap | BFOVERFLOW_SAT => (1, Some max) | BFOVERFLOW_FAIL => (1, None) end
  else if (value <? min) || negb (bits =? 64) && (incr <? minincr) || (value <? 0) && (incr <? 0) && (incr <? minincr) then
    match ow with BFOVERFLOW_WRAP => handle_wrap | BFOVERFLOW_SAT => (-1, Some min) | BFOVERFLOW_FAIL => (-1, None) end
  else (0, None).

(** ** Arguments *)

(** The offset of a bit; [hash] allows the form #offset, in units of [bits].
    [max_len] is [server.proto_max_bulk_len], [obey] is [mustObeyClient].  The
    multiplication is on signed integers, as if it wrapped. *)
Definition getBitOffsetFromArgument (p : list Z) (hash : bool) (bits max_len : Z) (obey : bool) : option Z :=
  let usehash := bool_decide (head p = Some 35) && hash && (bits >? 0) in
  loffset ← string2ll (if usehash then drop 1 p else p);
  let loffset := if usehash then s64 (loffset * bits) else loffset in
  if (loffset <? 0) || negb obey && (Z.shiftr loffset 3 >=? max_len) then None else Some loffset.

(** The bytes before the first NUL. *)
Definition c_str (p : list Z) : list Z := match list_find (λ c, c = 0) p with Some (i, _) => take i p | None => p end.
(** The sign and the width of a type such as i16 or u8. *)
Definition getBitfieldTypeFromArgument (p : list Z) : option (bool * Z) :=
  match p with
  | [] => None
  | c :: p =>
      sign ← (if c =? 105 then Some true else if c =? 117 then Some false else None);
      llbits ← string2ll (c_str p);
      if (llbits <? 1) || sign && (llbits >? 64) || negb sign && (llbits >? 63) then None else Some (sign, llbits)
  end.

(** ** Commands *)

(** [lookupStringForBitCommand]: the string with room for bit [maxbit], and
    whether it changed; [None] is a missing key. *)
Definition lookupStringForBitCommand (o : option (list Z)) (maxbit : Z) : list Z * bool :=
  let byte := Z.shiftr maxbit 3 in
  match o with
  | None => (replicate (Z.to_nat (byte + 1)) 0, true)
  | Some s => (s ++ replicate (Z.to_nat (byte + 1) - length s) 0, negb (zlen s >=? byte + 1))
  end.

(** The new string and the old bit. *)
Definition setbit (o : option (list Z)) (bitoffset : Z) (on : bool) : option (list Z * bool) :=
  let '(s, dirty) := lookupStringForBitCommand o bitoffset in
  let byte := Z.shiftr bitoffset 3 in
  byteval ← load8 s byte;
  let bit := 7 - Z.land bitoffset 0x7 in
  let bitval := Z.land byteval (Z.shiftl 1 bit) in
  if dirty || negb (eqb (negb (bitval =? 0)) on) then
    let byteval := Z.land byteval (Z.lnot (Z.shiftl 1 bit)) in
    let byteval := Z.lor byteval (Z.shiftl (if on then 1 else 0) bit) in
    s ← store s byte [u8 byteval];
    Some (s, negb (bitval =? 0))
  else Some (s, negb (bitval =? 0)).
Definition getbit (o : option (list Z)) (bitoffset : Z) : option bool :=
  match o with
  | None => Some false
  | Some s =>
      let byte := Z.shiftr bitoffset 3 in
      let bit := 7 - Z.land bitoffset 0x7 in
      if byte <? zlen s then b ← load8 s byte; Some (negb (Z.land b (Z.shiftl 1 bit) =? 0)) else Some false
  end.

(** *** BITFIELD *)

Inductive bitfield_opcode := BITFIELDOP_GET | BITFIELDOP_SET | BITFIELDOP_INCRBY.
Record bitfieldOp := BitfieldOp {
  bf_offset : Z;
  bf_i64 : Z;
  bf_opcode : bitfield_opcode;
  bf_owtype : owtype;
  bf_bits : Z;
  bf_sign : bool;
}.

(** [!strcasecmp(p, name)], for a name in lower case. *)
Definition is_word (p : list Z) (name : string) : bool :=
  bool_decide ((λ c, if (65 <=? c) && (c <=? 90) then c + 32 else c) <$> c_str p = bytes_of name).
(** The arguments after the key, [owtype] being the overflow type in force;
    [max_len] and [obey] are those of [getBitOffsetFromArgument].  An error of
    any kind is [None]. *)
Fixpoint parse_ops (fuel : nat) (args : list (list Z)) (ow : owtype) (max_len : Z) (obey : bool) : option (list bitfieldOp) :=
  match fuel, args with
  | _, [] => Some []
  | O, _ => None
  | S fuel, subcmd :: args =>
      let remargs := zlen args in
      if is_word subcmd "overflow" && (remargs >=? 1) then
        owtypename ← args !! 0%nat;
        ow ← (if is_word owtypename "wrap" then Some BFOVERFLOW_WRAP
              else if is_word owtypename "sat" then Some BFOVERFLOW_SAT
              else if is_word owtypename "fail" then Some BFOVERFLOW_FAIL else None);
        parse_ops fuel (drop 1 args) ow max_len obey
      else
        opcode ← (if is_word subcmd "get" && (remargs >=? 2) then Some BITFIELDOP_GET
                  else if is_word subcmd "set" && (remargs >=? 3) then Some BITFIELDOP_SET
                  else if is_word subcmd "incrby" && (remargs >=? 3) then Some BITFIELDOP_INCRBY else None);
        type ← args !! 0%nat;
        '(sign, bits) ← getBitfieldTypeFromArgument type;
        off ← args !! 1%nat;
        bitoffset ← getBitOffsetFromArgument off true bits max_len obey;
        i64 ← (match opcode with BITFIELDOP_GET => Some 0 | _ => value ← args !! 2%nat; string2ll value end);
        ops ← parse_ops fuel (drop (match opcode with BITFIELDOP_GET => 2 | _ => 3 end) args) ow max_len obey;
        Some (BitfieldOp bitoffset i64 opcode ow bits sign :: ops)
  end.

(** SET and INCRBY: the string, the reply (NULL when the operation fails) and
    whether something changed.  When the operation fails [wrapped] is read
    without having been written; its value is not used. *)
Definition signed_op (s : list Z) (dirty : bool) (op : bitfieldOp) : option (list Z * option Z * bool) :=
  oldval ← getSignedBitfield s (bf_offset op) (bf_bits op);
  let '(overflow, newval, retval) :=
    match bf_opcode op with
    | BITFIELDOP_INCRBY =>
        let '(overflow, wrapped) := checkSignedBitfieldOverflow oldval (bf_i64 op) (bf_bits op) (bf_owtype op) in
        let newval := if negb (overflow =? 0) then default 0 wrapped else oldval + bf_i64 op in
        (overflow, newval, newval)
    | _ =>
        let newval := bf_i64 op in
        let '(overflow, wrapped) := checkSignedBitfieldOverflow newval 0 (bf_bits op) (bf_owtype op) in
        (overflow, if negb (overflow =? 0) then default 0 wrapped else newval, oldval)
    end in
  if negb (overflow =? 0) && match bf_owtype op with BFOVERFLOW_FAIL => true | _ => false end then Some (s, None, false)
  else
    s ← setSignedBitfield s (bf_offset op) (bf_bits op) newval;
    Some (s, Some retval, dirty || negb (oldval =? newval)).
Definition unsigned_op (s : list Z) (dirty : bool) (op : bitfieldOp) : option (list Z * option Z * bool) :=
  oldval ← getUnsignedBitfield s (bf_offset op) (bf_bits op);
  let '(overflow, newval, retval) :=
    match bf_opcode op with
    | BITFIELDOP_INCRBY =>
        let '(overflow, wrapped) := checkUnsignedBitfieldOverflow oldval (bf_i64 op) (bf_bits op) (bf_owtype op) in
        let newval := if negb (overflow =? 0) then default 0 wrapped else u64 (oldval + bf_i64 op) in
        (overflow, newval, newval)
    | _ =>
        let newval := u64 (bf_i64 op) in
        let '(overflow, wrapped) := checkUnsignedBitfieldOverflow newval 0 (bf_bits op) (bf_owtype op) in
        (overflow, if negb (overflow =? 0) then default 0 wrapped else newval, oldval)
    end in
  if negb (overflow =? 0) && match bf_owtype op with BFOVERFLOW_FAIL => true | _ => false end then Some (s, None, false)
  else
    s ← setUnsignedBitfield s (bf_offset op) (bf_bits op) newval;
    Some (s, Some retval, dirty || negb (oldval =? newval)).

(** GET copies up to 9 bytes to a buffer of zeros. *)
Fixpoint copy9 (n : nat) (i : Z) (buf src : list Z) (byte : Z) : option (list Z) :=
  match n with
  | O => Some buf
  | S n =>
      if i + byte >=? zlen src then Some buf
      else b ← load8 src (i + byte); buf ← store buf i [b]; copy9 n (i + 1) buf src byte
  end.
Definition get_op (src : list Z) (op : bitfieldOp) : option Z :=
  let byte := Z.shiftr (bf_offset op) 3 in
  buf ← copy9 9 0 (replicate 9 0) src byte;
  if bf_sign op then getSignedBitfield buf (bf_offset op - byte * 8) (bf_bits op)
  else getUnsignedBitfield buf (bf_offset op - byte * 8) (bf_bits op).

Definition bitfield_op (s : list Z) (dirty : bool) (op : bitfieldOp) : option (list Z * option Z * bool) :=
  match bf_opcode op with
  | BITFIELDOP_GET => val ← get_op s op; Some (s, Some val, false)
  | _ => if bf_sign op then signed_op s dirty op else unsigned_op s dirty op
  end.
Fixpoint bitfield_ops (s : list Z) (dirty : bool) (ops : list bitfieldOp) : option (list Z * list (option Z) * Z) :=
  match ops with
  | [] => Some (s, [], 0)
  | op :: ops =>
      '(s, r, changed) ← bitfield_op s dirty op;
      '(s, rs, changes) ← bitfield_ops s dirty ops;
      Some (s, r :: rs, if (changed : bool) then changes + 1 else changes)
  end.
(** The highest bit that is written, [None] when all operations are reads. *)
Definition highest_write (ops : list bitfieldOp) : option Z :=
  foldl (λ h op, match bf_opcode op with
                 | BITFIELDOP_GET => h
                 | _ => Some (Z.max (default 0 h) (bf_offset op + bf_bits op - 1))
                 end) None ops.
(** The string after the command, the replies, the number of changes. *)
Definition bitfieldGeneric (o : option (list Z)) (ops : list bitfieldOp) : option (option (list Z) * list (option Z) * Z) :=
  match highest_write ops with
  | None => '(_, rs, changes) ← bitfield_ops (default [] o) false ops; Some (o, rs, changes)
  | Some h =>
      let '(s, dirty) := lookupStringForBitCommand o h in
      '(s, rs, changes) ← bitfield_ops s dirty ops;
      Some (Some s, rs, changes)
  end.

(** The command from its arguments; [readonly] is the flag of BITFIELD_RO. *)
Definition bitfieldCommand (readonly : bool) (o : option (list Z)) (args : list (list Z)) (max_len : Z) (obey : bool) : option (option (list Z) * list (option Z) * Z) :=
  ops ← parse_ops (length args) args BFOVERFLOW_WRAP max_len obey;
  if readonly && bool_decide (highest_write ops ≠ None) then None else bitfieldGeneric o ops.

(** *** BITOP *)

Inductive bitop_t := BITOP_AND | BITOP_OR | BITOP_XOR | BITOP_NOT.

(** The loop over the keys: [maxlen] and [minlen]; [j] is the index of the
    first key left. *)
Fixpoint src_lens (j : nat) (srcs : list (option (list Z))) (maxlen minlen : Z) : Z * Z :=
  match srcs with
  | [] => (maxlen, minlen)
  | None :: srcs => src_lens (S j) srcs maxlen 0
  | Some s :: srcs =>
      src_lens (S j) srcs (if zlen s >? maxlen then zlen s else maxlen) (if (j =? 0)%nat || (zlen s <? minlen) then zlen s else minlen)
  end.

Definition word_op (op : bitop_t) (x y : Z) : Z :=
  match op with BITOP_AND => Z.land x y | BITOP_OR => Z.lor x y | BITOP_XOR => Z.lxor x y | BITOP_NOT => u64 (Z.lnot x) end.
(** [lres[k] op= lp[i][k]]; for NOT, [lres[k] = ~lres[k]] with the result as
    both operands. *)
Definition fast_word (op : bitop_t) (res src : list Z) (k : Z) : option (list Z) :=
  x ← load res k 8; y ← load src k 8; store res k (le_bytes 8 (word_op op (le_val x) (le_val y))).
Definition fast_words (op : bitop_t) (res src : list Z) (j : Z) : option (list Z) :=
  res ← fast_word op res src j; res ← fast_word op res src (j + 8); res ← fast_word op res src (j + 16); fast_word op res src (j + 24).
Fixpoint fast_keys (op : bitop_t) (res : list Z) (srcs : list (list Z)) (j : Z) : option (list Z) :=
  match srcs with
  | [] => Some res
  | src :: srcs => res ← fast_words op res src j; fast_keys op res srcs j
  end.
Fixpoint fast_loop (fuel : nat) (op : bitop_t) (res : list Z) (srcs : list (list Z)) (j minlen : Z) : option (list Z * Z) :=
  if minlen >=? 32 then
    match fuel with
    | O => None
    | S fuel =>
        res ← (match op with BITOP_NOT => fast_words op res res j | _ => fast_keys op res (tail srcs) j end);
        fast_loop fuel op res srcs (j + 32) (minlen - 32)
    end
  else Some (res, j).

(** One byte of the result; a source that is too short counts as zeros. *)
Definition src_byte (s : list Z) (j : Z) : option Z := if zlen s <=? j then Some 0 else load8 s j.
Fixpoint slow_byte (op : bitop_t) (output : Z) (srcs : list (list Z)) (j : Z) : option Z :=
  match srcs with
  | [] => Some output
  | s :: srcs =>
      byte ← src_byte s j;
      match op with
      | BITOP_AND => let output := Z.land output byte in if output =? 0 then Some output else slow_byte op output srcs j
      | BITOP_OR => let output := Z.lor output byte in if output =? 0xff then Some output else slow_byte op output srcs j
      | BITOP_XOR => slow_byte op (Z.lxor output byte) srcs j
      | BITOP_NOT => slow_byte op output srcs j
      end
  end.
Fixpoint slow_loop (fuel : nat) (op : bitop_t) (res : list Z) (srcs : list (list Z)) (j maxlen : Z) : option (list Z) :=
  if j <? maxlen then
    match fuel with
    | O => None
    | S fuel =>
        first ← head srcs;
        output ← src_byte first j;
        let output := match op with BITOP_NOT => u8 (Z.lnot output) | _ => output end in
        output ← slow_byte op output (tail srcs) j;
        res ← store res j [output];
        slow_loop fuel op res srcs (j + 1) maxlen
    end
  else Some res.
(** The value of the target key, empty when the key is deleted; [None] in
    [srcs] is a missing key. *)
Definition bitop (op : bitop_t) (srcs : list (option (list Z))) : option (list Z) :=
  let '(maxlen, minlen) := src_lens 0 srcs 0 0 in
  let src := default [] <$> srcs in
  if maxlen =? 0 then Some []
  else
    let res := replicate (Z.to_nat maxlen) 0 in
    '(res, j) ← (if (minlen >=? 32) && (zlen src <=? 16) then
                   first ← head src;
                   bs ← load first 0 minlen;
                   res ← store res 0 bs;
                   fast_loop (Z.to_nat maxlen) op res src 0 minlen
                 else Some (res, 0));
    slow_loop (Z.to_nat maxlen) op res src j maxlen.

(** *** BITCOUNT and BITPOS *)

Section ranges.
(** The addresses of the string and of the local buffers. *)
Context (a a1 : Z) (s : list Z).

(** Negative indexes count from the end; [totlen] is in bytes or in bits. *)
Definition clip_range (totlen start end_ : Z) : Z * Z :=
  let start := if start <? 0 then totlen + start else start in
  let end_ := if end_ <? 0 then totlen + end_ else end_ in
  let start := if start <? 0 then 0 else start in
  let end_ := if end_ <? 0 then 0 else end_ in
  (start, if end_ >=? totlen then totlen - 1 else end_).
(** The range in bytes and the masks of the bits outside of it in the first
    and in the last byte. *)
Definition edge_masks (isbit : bool) (start end_ : Z) : Z * Z * Z * Z :=
  if isbit && (start <=? end_) then
    (Z.shiftr start 3, Z.shiftr end_ 3, Z.land (Z.lnot (Z.shiftl 1 (8 - Z.land start 7) - 1)) 0xff, u8 (Z.shiftl 1 (7 - Z.land end_ 7) - 1))
  else (start, end_, 0, 0).

(** [range] is the start, the end and whether they are in bits. *)
Definition bitcount (range : option (Z * Z * bool)) : option Z :=
  let '(early, start, end_, first_mask, last_mask) :=
    match range with
    | None => (false, 0, zlen s - 1, 0, 0)
    | Some (start, end_, isbit) =>
        if (start <? 0) && (end_ <? 0) && (start >? end_) then (true, 0, 0, 0, 0)
        else
          let totlen := if (isbit : bool) then Z.shiftl (zlen s) 3 else zlen s in
          let '(start, end_) := clip_range totlen start end_ in
          let '(start, end_, m1, m2) := edge_masks isbit start end_ in
          (false, start, end_, m1, m2)
    end in
  if (early : bool) then Some 0
  else if start >? end_ then Some 0
  else
    let bytes := end_ - start + 1 in
    count ← redisPopcount a s start bytes;
    if negb (first_mask =? 0) || negb (last_mask =? 0) then
      f ← (if negb (first_mask =? 0) then b ← load8 s start; Some (Z.land b first_mask) else Some 0);
      l ← (if negb (last_mask =? 0) then b ← load8 s end_; Some (Z.land b last_mask) else Some 0);
      out ← redisPopcount a1 [f; l] 0 2;
      Some (count - out)
    else Some count.

(** BITPOS: the bits outside of the range never match. *)
Definition masked (bit : bool) (b m : Z) : Z := if bit then Z.land b (u8 (Z.lnot m)) else Z.lor b m.
(** The steps give the rest of the range and, when the search ends ([goto
    result]), the position in it. *)
Definition search_first (bit : bool) (first_mask last_mask start bytes : Z) : option (Z * Z * option Z) :=
  if negb (first_mask =? 0) then
    b ← load8 s start;
    let tmpchar := masked bit b first_mask in
    let tmpchar := if negb (last_mask =? 0) && (bytes =? 1) then masked bit tmpchar last_mask else tmpchar in
    pos ← redisBitpos a1 [tmpchar] 0 1 bit;
    if (bytes =? 1) || negb (pos =? -1) && negb (pos =? 8) then Some (start, bytes, Some pos) else Some (start + 1, bytes - 1, None)
  else Some (start, bytes, None).
Definition search_whole (bit : bool) (last_mask start bytes : Z) : option (Z * Z * option Z) :=
  let curbytes := bytes - (if negb (last_mask =? 0) then 1 else 0) in
  if curbytes >? 0 then
    pos ← redisBitpos a s start curbytes bit;
    if (bytes =? curbytes) || negb (pos =? -1) && negb (pos =? Z.shiftl curbytes 3) then Some (start, bytes, Some pos)
    else Some (start + curbytes, bytes - curbytes, None)
  else Some (start, bytes, None).
Definition search_last (bit : bool) (end_ last_mask : Z) : option Z :=
  b ← load8 s end_; redisBitpos a1 [masked bit b last_mask] 0 1 bit.
Definition bitpos_reply (bit end_given : bool) (start bytes pos : Z) : Z :=
  if end_given && negb bit && (pos =? Z.shiftl bytes 3) then -1
  else if negb (pos =? -1) then pos + Z.shiftl start 3 else pos.
Definition bitpos_search (bit end_given : bool) (start end_ first_mask last_mask : Z) : option Z :=
  '(start, bytes, found) ← search_first bit first_mask last_mask start (end_ - start + 1);
  match (found : option Z) with
  | Some pos => Some (bitpos_reply bit end_given start bytes pos)
  | None =>
      '(start, bytes, found) ← search_whole bit last_mask start bytes;
      match (found : option Z) with
      | Some pos => Some (bitpos_reply bit end_given start bytes pos)
      | None => pos ← search_last bit end_ last_mask; Some (bitpos_reply bit end_given start bytes pos)
      end
  end.
(** [range] is the start and, when given, the end and whether they are in
    bits. *)
Definition bitpos (bit : bool) (range : option (Z * option (Z * bool))) : option Z :=
  let '(start, end_, first_mask, last_mask, end_given) :=
    match range with
    | None => (0, zlen s - 1, 0, 0, false)
    | Some (start, e) =>
        let isbit := match e with Some (_, isbit) => isbit | None => false end in
        let end_ := match e with Some (end_, _) => end_ | None => zlen s - 1 end in
        let totlen := if (isbit : bool) then Z.shiftl (zlen s) 3 else zlen s in
        let '(start, end_) := clip_range totlen start end_ in
        let '(start, end_, m1, m2) := edge_masks isbit start end_ in
        (start, end_, m1, m2, bool_decide (e ≠ None))
    end in
  if start >? end_ then Some (-1) else bitpos_search bit end_given start end_ first_mask last_mask.
End ranges.
End Bitops.
