(* ===== verification/Bits.v ===== *)
(** * bitops.c: counting and searching bits

    The bits of a string, and that the word-wise routines agree with their
    definition bit by bit, whatever the alignment of the string. *)

From S2P Require Import Prelude Util Bitops.
Import Util Bitops.

Module Bits.

(** ** The bits of a string *)

(** Bytes beyond the end are zeros. *)
Definition byte_at (s : list Z) (k : Z) : Z := default 0 (s !! Z.to_nat k).
Definition bitat (s : list Z) (i : Z) : bool := Z.testbit (byte_at s (i / 8)) (7 - i mod 8).
(** The number of ones among [n] bits from bit [i] on. *)
Definition ones (s : list Z) (i n : Z) : Z := zlen (filter (λ k, bitat s k = true) (seqZ i n)).

Lemma load8_byte_at s k : 0 ≤ k < zlen s → load8 s k = Some (byte_at s k).
Proof.
  intros Hk. destruct (load8_total s k Hk) as [b Hb]. rewrite Hb. unfold byte_at. unfold load8 in Hb. rewrite decide_True in Hb by lia. by rewrite Hb.
Qed.
Lemma byte_at_byte s k : Forall is_byte s → is_byte (byte_at s k).
Proof. intros Hs. unfold byte_at. destruct (s !! Z.to_nat k) as [b|] eqn:E; cbn; [by eapply Forall_lookup_1|]. unfold is_byte. lia. Qed.
Lemma byte_at_app_l s t k : 0 ≤ k < zlen s → byte_at (s ++ t) k = byte_at s k.
Proof. intros Hk. unfold byte_at. rewrite lookup_app_l by lia. done. Qed.
Lemma byte_at_beyond s k : zlen s ≤ k → byte_at s k = 0.
Proof. intros Hk. unfold byte_at. by rewrite lookup_ge_None_2 by lia. Qed.

Lemma byte_at_le_bytes n z i : 0 ≤ i < Z.of_nat n → byte_at (le_bytes n z) i = (z / 256 ^ i) mod 256.
Proof.
  revert z i. induction n as [|n IH]; intros z i Hi; [lia|]. cbn [le_bytes]. unfold byte_at. destruct (decide (i = 0)) as [->|]; [by rewrite Z.pow_0_r, Z.div_1_r|].
  replace (Z.to_nat i) with (S (Z.to_nat (i - 1))) by lia. trans (byte_at (le_bytes n (z / 256)) (i - 1)); [done|]. rewrite IH by lia.
  rewrite Z.div_div by lia. do 2 f_equal. replace i with (Z.succ (i - 1)) at 2 by lia. rewrite Z.pow_succ_r by lia. lia.
Qed.
Lemma ones_0 s i : ones s i 0 = 0.
Proof. done. Qed.
Lemma ones_add s i n m : 0 ≤ n → 0 ≤ m → ones s i (n + m) = ones s i n + ones s (i + n) m.
Proof. intros Hn Hm. unfold ones. rewrite seqZ_app, filter_app, length_app by done. lia. Qed.
Lemma ones_bound s i n : 0 ≤ n → 0 ≤ ones s i n ≤ n.
Proof. intros Hn. unfold ones. pose proof (length_filter (λ k, bitat s k = true) (seqZ i n)). rewrite length_seqZ in H. lia. Qed.
Lemma ones_step s i n : 0 < n → ones s i n = Z.b2z (bitat s i) + ones s (i + 1) (n - 1).
Proof.
  intros Hn. unfold ones. rewrite seqZ_cons, filter_cons by done. change (Z.succ i) with (i + 1). change (Z.pred n) with (n - 1).
  case_decide as E; [rewrite E; cbn [length Z.b2z]; lia|]. apply not_true_is_false in E as ->. cbn [Z.b2z]. lia.
Qed.

(** The bits of byte [k]. *)
Definition cnt8 (b : Z) : Z :=
  Z.b2z (Z.testbit b 7) + Z.b2z (Z.testbit b 6) + Z.b2z (Z.testbit b 5) + Z.b2z (Z.testbit b 4) + Z.b2z (Z.testbit b 3) + Z.b2z (Z.testbit b 2) + Z.b2z (Z.testbit b 1) + Z.b2z (Z.testbit b 0).
Lemma bitat_byte s i k j : i = 8 * k + j → 0 ≤ j < 8 → bitat s i = Z.testbit (byte_at s k) (7 - j).
Proof. intros -> Hj. unfold bitat. replace ((8 * k + j) / 8) with k by dlia. by replace ((8 * k + j) mod 8) with j by dlia. Qed.
Lemma ones_byte s k : ones s (8 * k) 8 = cnt8 (byte_at s k).
Proof.
  do 8 (rewrite ones_step by lia). rewrite (bitat_byte s (8 * k) k 0), (bitat_byte s (8 * k + 1) k 1), (bitat_byte s (8 * k + 1 + 1) k 2), (bitat_byte s (8 * k + 1 + 1 + 1) k 3),
    (bitat_byte s (8 * k + 1 + 1 + 1 + 1) k 4), (bitat_byte s (8 * k + 1 + 1 + 1 + 1 + 1) k 5), (bitat_byte s (8 * k + 1 + 1 + 1 + 1 + 1 + 1) k 6),
    (bitat_byte s (8 * k + 1 + 1 + 1 + 1 + 1 + 1 + 1) k 7) by lia.
  change (8 - 1 - 1 - 1 - 1 - 1 - 1 - 1 - 1) with 0. rewrite ones_0. unfold cnt8.
  change (7 - 0) with 7. change (7 - 1) with 6. change (7 - 2) with 5. change (7 - 3) with 4. change (7 - 4) with 3. change (7 - 5) with 2. change (7 - 6) with 1. change (7 - 7) with 0. lia.
Qed.
Lemma bitsinbyte_spec b : is_byte b → bitsinbyte !! Z.to_nat b = Some (cnt8 b).
Proof.
  intros Hb. assert (H : forallb (λ b, bool_decide (bitsinbyte !! Z.to_nat b = Some (cnt8 b))) (Z.of_nat <$> seq 0 256) = true) by (vm_compute; reflexivity).
  by apply (byte_forall _ H), bool_decide_eq_true_1 in Hb.
Qed.
Lemma byte_count_spec s k : Forall is_byte s → 0 ≤ k < zlen s → byte_count s k = Some (ones s (8 * k) 8).
Proof. intros Hs Hk. unfold byte_count. rewrite load8_byte_at by done. cbn [mbind option_bind]. rewrite ones_byte. by apply bitsinbyte_spec, byte_at_byte. Qed.

(** ** Digits of a word *)

Lemma testbit_high x w i : 0 ≤ w ≤ i → 0 ≤ x < 2 ^ w → Z.testbit x i = false.
Proof. intros Hi Hx. rewrite <- (Z.mod_small x (2 ^ w)) by done. by apply Z.mod_pow2_bits_high. Qed.
Lemma small_bits x w : 0 ≤ w → (∀ i, w ≤ i → Z.testbit x i = false) → 0 ≤ x < 2 ^ w.
Proof.
  intros Hw Hx. replace x with (x mod 2 ^ w); [apply Z.mod_pos_bound; lia|]. apply Z.bits_inj'. intros i Hi. destruct (Z.lt_ge_cases i w).
  - by apply Z.mod_pow2_bits_low.
  - rewrite Z.mod_pow2_bits_high by lia. symmetry. auto.
Qed.
Lemma land_range x m w : 0 ≤ w → 0 ≤ m < 2 ^ w → 0 ≤ Z.land x m < 2 ^ w.
Proof. intros Hw Hm. apply small_bits; [done|]. intros i Hi. rewrite Z.land_spec, (testbit_high m w i), andb_false_r by (done || lia). done. Qed.

(** A word from its hexadecimal digits, the lowest first. *)
Fixpoint dig (hs : list Z) : Z := match hs with [] => 0 | h :: hs => h + 16 * dig hs end.
Definition digit (h : Z) : Prop := 0 ≤ h < 16.

Lemma dig_nonneg hs : Forall digit hs → 0 ≤ dig hs.
Proof. induction 1 as [|h hs Hh _ IH]; cbn [dig]; unfold digit in *; lia. Qed.
Lemma dig_bound hs : Forall digit hs → dig hs < 16 ^ zlen hs.
Proof.
  induction 1 as [|h hs Hh _ IH]; cbn [dig length]; [lia|]. unfold digit in Hh. rewrite Nat2Z.inj_succ, Z.pow_succ_r by lia. lia.
Qed.
Lemma dig_map2 (f g : Z → Z) hs : dig (f <$> hs) + dig (g <$> hs) = dig ((λ h, f h + g h) <$> hs).
Proof. induction hs as [|h hs IH]; [done|]. rewrite !fmap_cons. cbn [dig]. lia. Qed.
Lemma dig_sub (g : Z → Z) hs : dig hs - dig (g <$> hs) = dig ((λ h, h - g h) <$> hs).
Proof. induction hs as [|h hs IH]; [done|]. rewrite !fmap_cons. cbn [dig]. lia. Qed.

(** Shifting by at most one digit and masking away what comes from the next
    one acts on every digit by itself. *)
Lemma land_shift_digit k h q m M : 0 ≤ k ≤ 4 → digit h → 0 ≤ q → 0 ≤ m < 2 ^ (4 - k) → 0 ≤ M →
  Z.land (Z.shiftr (h + 16 * q) k) (m + 16 * M) = Z.land (Z.shiftr h k) m + 16 * Z.land (Z.shiftr q k) M.
Proof.
  intros Hk Hh Hq Hm HM. unfold digit in Hh. assert (Hp : 2 ^ (4 - k) ≤ 2 ^ 4) by (apply Z.pow_le_mono_r; lia).
  assert (Hb : 0 ≤ Z.land (Z.shiftr h k) m < 2 ^ 4) by (apply land_range; lia).
  rewrite <- (Z.mul_comm q), <- (Z.mul_comm M), <- (Z.mul_comm (Z.land _ M)). rewrite <- !(lor_shiftl_add _ _ 4 : _ → _ → _ = _ + _ * 16) by lia.
  apply Z.bits_inj'. intros n Hn. rewrite Z.land_spec, Z.shiftr_spec, !Z.lor_spec, !Z.land_spec, Z.shiftr_spec by lia.
  assert (Hhi : ∀ x i, 0 ≤ x < 16 → 4 ≤ i → Z.testbit x i = false) by (intros x i Hx Hi; apply (testbit_high x 4); lia).
  assert (Hmk : 4 - k ≤ n → Z.testbit m n = false) by (intros Hi; apply (testbit_high m (4 - k)); lia).
  destruct (Z.lt_ge_cases n 4).
  - rewrite (Z.shiftl_spec_low M), (Z.shiftl_spec_low (Z.land _ M)), !orb_false_r by lia. destruct (Z.lt_ge_cases n (4 - k)).
    + by rewrite Z.shiftl_spec_low, orb_false_r by lia.
    + by rewrite Hmk, !andb_false_r by done.
  - rewrite !Z.shiftl_spec by lia. rewrite (Hhi h (n + k)), (Hhi m n) by lia. cbn [orb]. rewrite Z.land_spec, Z.shiftr_spec by lia. cbn [andb orb]. by replace (n + k - 4) with (n - 4 + k) by lia.
Qed.
Lemma land_shift_dig k m hs : 0 ≤ k ≤ 4 → 0 ≤ m < 2 ^ (4 - k) → Forall digit hs →
  Z.land (Z.shiftr (dig hs) k) (dig (replicate (length hs) m)) = dig ((λ h, Z.land (Z.shiftr h k) m) <$> hs).
Proof.
  intros Hk Hm. assert (Hmd : digit m) by (unfold digit; assert (2 ^ (4 - k) ≤ 2 ^ 4) by (apply Z.pow_le_mono_r; lia); lia).
  induction 1 as [|h hs Hh Hhs IH]; [by rewrite Z.land_0_r|]. rewrite fmap_cons. cbn [dig length replicate].
  rewrite land_shift_digit, IH; [done|lia|done|by apply dig_nonneg|done|]. apply dig_nonneg. by apply Forall_replicate.
Qed.

(** The number of bits of a digit, as the first two steps compute it. *)
Definition nib2 (h : Z) : Z := h - Z.land (Z.shiftr h 1) 5.
Definition nib4 (h : Z) : Z := Z.land (Z.shiftr h 0) 3 + Z.land (Z.shiftr h 2) 3.
Lemma digit_forall (P : Z → bool) : forallb P (seqZ 0 16) = true → ∀ h, digit h → P h = true.
Proof. intros H h Hh. rewrite forallb_forall in H. apply H, list_elem_of_In, elem_of_seqZ. unfold digit in Hh. lia. Qed.
Lemma nib2_digit h : digit h → digit (nib2 h).
Proof.
  intros Hh. assert (E : (0 <=? nib2 h) && (nib2 h <? 16) = true) by (by apply (digit_forall (λ h, (0 <=? nib2 h) && (nib2 h <? 16)))). unfold digit. lia.
Qed.
Lemma nib4_nib2 h : digit h → 0 ≤ nib4 (nib2 h) ≤ 4.
Proof.
  intros Hh. assert (E : (0 <=? nib4 (nib2 h)) && (nib4 (nib2 h) <=? 4) = true) by (by apply (digit_forall (λ h, (0 <=? nib4 (nib2 h)) && (nib4 (nib2 h) <=? 4)))). lia.
Qed.
Lemma cnt8_nibbles b : is_byte b → cnt8 b = nib4 (nib2 (b mod 16)) + nib4 (nib2 (b / 16)).
Proof.
  intros Hb. assert (E : (cnt8 b =? nib4 (nib2 (b mod 16)) + nib4 (nib2 (b / 16))) = true); [|lia].
  apply (byte_forall (λ b, cnt8 b =? nib4 (nib2 (b mod 16)) + nib4 (nib2 (b / 16)))); [vm_compute; reflexivity|done].
Qed.
Lemma u32_dig hs : length hs = 8%nat → Forall digit hs → u32 (dig hs) = dig hs.
Proof. intros Hl Hd. apply wrapu_small. split; [by apply dig_nonneg|]. pose proof (dig_bound hs Hd) as Hb. rewrite Hl in Hb. exact Hb. Qed.
Lemma sum4_dig hs : length hs = 8%nat → Forall digit hs → sum4 (sum2 (dig hs)) = dig ((λ h, nib4 (nib2 h)) <$> hs).
Proof.
  intros Hl Hd. assert (E2 : sum2 (dig hs) = dig (nib2 <$> hs)).
  { unfold sum2. replace 0x55555555 with (dig (replicate (length hs) 5)) by (by rewrite Hl). rewrite land_shift_dig, dig_sub by (done || lia).
    apply u32_dig; [by rewrite length_fmap|]. apply Forall_fmap. eapply Forall_impl; [exact Hd|]. intros h. apply nib2_digit. }
  assert (Hd2 : Forall digit (nib2 <$> hs)) by (apply Forall_fmap; eapply Forall_impl; [exact Hd|]; intros h; apply nib2_digit).
  rewrite E2. unfold sum4. rewrite <- (Z.shiftr_0_r (dig (nib2 <$> hs))) at 1. replace 0x33333333 with (dig (replicate (length (nib2 <$> hs)) 3)) by (by rewrite length_fmap, Hl).
  rewrite !land_shift_dig, dig_map2 by (done || lia). rewrite <- list_fmap_compose. apply u32_dig; [by rewrite length_fmap|].
  apply Forall_fmap. eapply Forall_impl; [exact Hd|]. intros h Hh. pose proof (nib4_nib2 h Hh). unfold digit. cbn. unfold nib4 in *. lia.
Qed.
Lemma sum8_dig e0 e1 e2 e3 e4 e5 e6 e7 : Forall (λ e, 0 ≤ e ≤ 4) [e0; e1; e2; e3; e4; e5; e6; e7] →
  sum8 (dig [e0; e1; e2; e3; e4; e5; e6; e7]) = (e0 + e1) + 256 * (e2 + e3) + 65536 * (e4 + e5) + 16777216 * (e6 + e7).
Proof.
  intros H. repeat (apply Forall_cons_1 in H as [? H]). clear H. unfold sum8.
  assert (Es : Z.shiftr (dig [e0; e1; e2; e3; e4; e5; e6; e7]) 4 = dig [e1; e2; e3; e4; e5; e6; e7]) by (rewrite Z.shiftr_div_pow2 by lia; cbn [dig]; change (2 ^ 4) with 16; dlia).
  rewrite Es. replace (u32 (dig [e0; e1; e2; e3; e4; e5; e6; e7] + dig [e1; e2; e3; e4; e5; e6; e7])) with (dig [e0 + e1; e1 + e2; e2 + e3; e3 + e4; e4 + e5; e5 + e6; e6 + e7; e7]).
  2:{ rewrite <- u32_dig; [f_equal; cbn [dig]; lia|done|]. repeat (constructor; [unfold digit; lia|]). constructor. }
  change 0x0F0F0F0F with (dig [15; 0; 15; 0; 15; 0; 15; 0]).
  assert (Hl : ∀ h, 0 ≤ h ≤ 8 → Z.land h 15 = h) by (intros h Hh; change 15 with (Z.ones 4); rewrite Z.land_ones by lia; apply Z.mod_small; lia).
  assert (Hs : ∀ h q m M, 0 ≤ h ≤ 8 → 0 ≤ q → 0 ≤ m < 16 → 0 ≤ M → Z.land (h + 16 * q) (m + 16 * M) = Z.land h m + 16 * Z.land q M).
  { intros h q m M Hh Hq Hm HM. pose proof (land_shift_digit 0 h q m M) as E. rewrite !Z.shiftr_0_r in E. apply E; unfold digit; lia. }
  cbn [dig]. rewrite !Hs by lia. rewrite !Hl by lia. rewrite !Z.land_0_r. lia.
Qed.
Lemma word_sum s p : Forall is_byte s → 0 ≤ p → p + 4 ≤ zlen s → ∃ x, aux s p = Some x ∧
  sum8 x = cnt8 (byte_at s p) + 256 * cnt8 (byte_at s (p + 1)) + 65536 * cnt8 (byte_at s (p + 2)) + 16777216 * cnt8 (byte_at s (p + 3)).
Proof.
  intros Hs Hp Hl. unfold aux. destruct (load_total s p 4) as [w Hw]; [lia..|]. rewrite Hw. cbn [mbind option_bind]. eexists; split; [done|].
  apply load_Some in Hw as (pre & post & -> & -> & Hn). destruct w as [|b0 [|b1 [|b2 [|b3 [|]]]]]; cbn [length] in Hn; try lia.
  assert (Hb : ∀ k b, [b0; b1; b2; b3] !! k = Some b → is_byte b ∧ byte_at (pre ++ [b0; b1; b2; b3] ++ post) (zlen pre + Z.of_nat k) = b).
  { intros k b Hk. split; [apply Forall_app in Hs as [_ Hs]; apply Forall_app in Hs as [Hs _]; by eapply Forall_lookup_1|]. pose proof (lookup_lt_Some _ _ _ Hk). cbn [length] in *.
    unfold byte_at. rewrite lookup_app_r, lookup_app_l by (cbn [length]; lia). replace (Z.to_nat (zlen pre + Z.of_nat k) - length pre)%nat with k by lia. by rewrite Hk. }
  destruct (Hb 0%nat b0) as [H0 E0], (Hb 1%nat b1) as [H1 E1], (Hb 2%nat b2) as [H2 E2], (Hb 3%nat b3) as [H3 E3]; try done. rewrite Z.add_0_r in E0.
  change (Z.of_nat 1) with 1 in *. change (Z.of_nat 2) with 2 in *. change (Z.of_nat 3) with 3 in *. rewrite E0, E1, E2, E3, !cnt8_nibbles by done. unfold is_byte in *.
  assert (El : le_val [b0; b1; b2; b3] = dig [b0 mod 16; b0 / 16; b1 mod 16; b1 / 16; b2 mod 16; b2 / 16; b3 mod 16; b3 / 16]) by (cbn [le_val dig]; dlia).
  assert (Hd : ∀ b, 0 ≤ b < 256 → digit (b mod 16) ∧ digit (b / 16)) by (intros b Hb'; unfold digit; split; dlia).
  destruct (Hd b0), (Hd b1), (Hd b2), (Hd b3); try done. rewrite El, sum4_dig; [|done|repeat (constructor; [done|]); constructor]. rewrite !fmap_cons, fmap_nil. apply sum8_dig.
  repeat (constructor; [by apply nib4_nib2|]). constructor.
Qed.

(** ** [redisPopcount] *)

Lemma ones_split s p n m : 0 ≤ n → 0 ≤ m → ones s (8 * p) (8 * (n + m)) = ones s (8 * p) (8 * n) + ones s (8 * (p + n)) (8 * m).
Proof. intros Hn Hm. rewrite Z.mul_add_distr_l, ones_add by lia. do 2 f_equal. lia. Qed.
Lemma ones_next s p n : 0 < n → ones s (8 * p) (8 * n) = ones s (8 * p) 8 + ones s (8 * (p + 1)) (8 * (n - 1)).
Proof. intros Hn. replace n with (1 + (n - 1)) at 1 by lia. by rewrite ones_split by lia. Qed.
Lemma ones_word s p : ones s (8 * p) (8 * 4) = cnt8 (byte_at s p) + cnt8 (byte_at s (p + 1)) + cnt8 (byte_at s (p + 2)) + cnt8 (byte_at s (p + 3)).
Proof.
  do 4 (rewrite ones_next by lia). change (8 * (4 - 1 - 1 - 1 - 1)) with 0. rewrite ones_0, !ones_byte.
  replace (p + 1 + 1) with (p + 2) by lia. replace (p + 2 + 1) with (p + 3) by lia. lia.
Qed.
Lemma cnt8_range b : 0 ≤ cnt8 b ≤ 8.
Proof.
  assert (H : ∀ x, 0 ≤ Z.b2z x ≤ 1) by (intros []; cbn; lia). unfold cnt8.
  pose proof (H (Z.testbit b 7)). pose proof (H (Z.testbit b 6)). pose proof (H (Z.testbit b 5)). pose proof (H (Z.testbit b 4)).
  pose proof (H (Z.testbit b 3)). pose proof (H (Z.testbit b 2)). pose proof (H (Z.testbit b 1)). pose proof (H (Z.testbit b 0)). lia.
Qed.

(** The sums of the bytes of a word are added by the multiplication. *)
Lemma mul_sum x0 x1 x2 x3 : 0 ≤ x0 → 0 ≤ x1 → 0 ≤ x2 → 0 ≤ x3 → x0 + x1 + x2 + x3 < 256 →
  Z.shiftr (u32 (u32 (x0 + 256 * x1 + 65536 * x2 + 16777216 * x3) * 0x01010101)) 24 = x0 + x1 + x2 + x3.
Proof.
  intros. rewrite (wrapu_small 32 (x0 + 256 * x1 + 65536 * x2 + 16777216 * x3)) by lia. rewrite Z.shiftr_div_pow2 by lia. unfold wrapu. change (2 ^ 24) with 16777216. change (2 ^ 32) with 4294967296.
  replace ((x0 + 256 * x1 + 65536 * x2 + 16777216 * x3) * 0x01010101) with
    (x0 + 256 * (x0 + x1) + 65536 * (x0 + x1 + x2) + 16777216 * (x0 + x1 + x2 + x3) + (x1 + x2 + x3 + 256 * (x2 + x3) + 65536 * x3) * 4294967296) by lia.
  rewrite Z.mod_add, Z.mod_small by lia. symmetry. apply (Z.div_unique _ _ _ (x0 + 256 * (x0 + x1) + 65536 * (x0 + x1 + x2))); lia.
Qed.
Lemma pop28_spec s p : Forall is_byte s → 0 ≤ p → p + 28 ≤ zlen s → pop28 s p = Some (ones s (8 * p) (8 * 28)).
Proof.
  intros Hs Hp Hl. unfold pop28. destruct (word_sum s p Hs) as (x1 & -> & E1); [lia..|]. destruct (word_sum s (p + 4) Hs) as (x2 & -> & E2); [lia..|].
  destruct (word_sum s (p + 8) Hs) as (x3 & -> & E3); [lia..|]. destruct (word_sum s (p + 12) Hs) as (x4 & -> & E4); [lia..|]. destruct (word_sum s (p + 16) Hs) as (x5 & -> & E5); [lia..|].
  destruct (word_sum s (p + 20) Hs) as (x6 & -> & E6); [lia..|]. destruct (word_sum s (p + 24) Hs) as (x7 & -> & E7); [lia..|]. cbn [mbind option_bind]. rewrite E1, E2, E3, E4, E5, E6, E7. f_equal.
  change 28 with (4 + (4 + (4 + (4 + (4 + (4 + 4)))))). do 6 (rewrite ones_split by lia). rewrite !ones_word. replace (p + 4 + 4) with (p + 8) by lia. replace (p + 8 + 4) with (p + 12) by lia.
  replace (p + 12 + 4) with (p + 16) by lia. replace (p + 16 + 4) with (p + 20) by lia. replace (p + 20 + 4) with (p + 24) by lia.
  repeat match goal with |- context [cnt8 ?b] => let x := fresh "c" in pose proof (cnt8_range b); set (x := cnt8 b) in *; clearbody x end.
  pose proof (mul_sum (c + c3 + c7 + c11 + c15 + c19 + c23) (c0 + c4 + c8 + c12 + c16 + c20 + c24) (c1 + c5 + c9 + c13 + c17 + c21 + c25) (c2 + c6 + c10 + c14 + c18 + c22 + c26)) as M.
  etransitivity; [etransitivity; [|apply M; lia]|lia]. do 4 f_equal. lia.
Qed.

Section popcount.
Context (a : Z) (s : list Z).
Hypothesis Hs : Forall is_byte s.

(** A loop that counts from [p] on keeps the total. *)
Definition counted_to (p count bits : Z) (r : Z * Z * Z) : Prop :=
  let '(p', count', bits') := r in p ≤ p' ∧ 0 ≤ count' ∧ p' + count' = p + count ∧ bits' + ones s (8 * p') (8 * count') = bits + ones s (8 * p) (8 * count).
Lemma pop_unaligned_spec fuel p count bits : 0 ≤ p → 0 ≤ count ≤ Z.of_nat fuel → p + count ≤ zlen s →
  ∃ r, pop_unaligned a s fuel p count bits = Some r ∧ counted_to p count bits r.
Proof using Hs.
  revert p count bits. induction fuel as [|fuel IH]; intros p count bits Hp Hc Hl; cbn [pop_unaligned].
  - replace count with 0 by lia. rewrite andb_false_r. eexists; split; [done|]. cbn. lia.
  - destruct (_ && _) eqn:E; [|eexists; split; [done|]; cbn; lia]. apply andb_true_iff in E as [_ E]. apply negb_true_iff, Z.eqb_neq in E.
    rewrite byte_count_spec by (done || lia). cbn [mbind option_bind]. destruct (IH (p + 1) (count - 1) (bits + ones s (8 * p) 8)) as ([[p' c'] b'] & -> & Hr); [lia..|].
    eexists; split; [done|]. cbn [counted_to] in *. rewrite (ones_next s p count) by lia. lia.
Qed.
Lemma pop_words_spec fuel p count bits : 0 ≤ p → 0 ≤ count ≤ Z.of_nat fuel → p + count ≤ zlen s →
  ∃ r, pop_words s fuel p count bits = Some r ∧ counted_to p count bits r.
Proof using Hs.
  revert p count bits. induction fuel as [|fuel IH]; intros p count bits Hp Hc Hl; cbn [pop_words]; rewrite Z.geb_leb; destruct (Z.leb_spec 28 count); try lia; [eexists; split; [done|]; cbn; lia| |eexists; split; [done|]; cbn; lia].
  rewrite pop28_spec by (done || lia). cbn [mbind option_bind]. destruct (IH (p + 28) (count - 28) (bits + ones s (8 * p) (8 * 28))) as ([[p' c'] b'] & -> & Hr); [lia..|].
  eexists; split; [done|]. cbn [counted_to] in *. replace count with (28 + (count - 28)) at 2 by lia. rewrite (ones_split s p 28) by lia. lia.
Qed.
Lemma pop_rest_spec fuel p count bits : 0 ≤ p → 0 ≤ count ≤ Z.of_nat fuel → p + count ≤ zlen s → pop_rest s fuel p count bits = Some (bits + ones s (8 * p) (8 * count)).
Proof using Hs.
  revert p count bits. induction fuel as [|fuel IH]; intros p count bits Hp Hc Hl; cbn [pop_rest]; destruct (Z.eqb_spec count 0) as [->|Hne]; cbn [negb]; try lia.
  - rewrite Z.mul_0_r, ones_0. f_equal. lia.
  - rewrite Z.mul_0_r, ones_0. f_equal. lia.
  - rewrite byte_count_spec by (done || lia). cbn [mbind option_bind]. rewrite IH by lia. rewrite (ones_next s p count) by lia. f_equal. lia.
Qed.
Lemma popcount_spec start count : 0 ≤ start → 0 ≤ count → start + count ≤ zlen s → redisPopcount a s start count = Some (ones s (8 * start) (8 * count)).
Proof using Hs.
  intros H0 Hc Hl. unfold redisPopcount. destruct (pop_unaligned_spec (length s) start count 0) as ([[p1 c1] b1] & -> & H1); [lia..|]. cbn [mbind option_bind counted_to] in *.
  destruct (pop_words_spec (length s) p1 c1 b1) as ([[p2 c2] b2] & -> & H2); [lia..|]. cbn [mbind option_bind counted_to] in *. rewrite pop_rest_spec by lia. f_equal. lia.
Qed.
End popcount.

(** ** [redisBitpos] *)

Definition no_bit (s : list Z) (bit : bool) (lo hi : Z) : Prop := ∀ k, lo ≤ k < hi → bitat s k = negb bit.
Definition first_bit (s : list Z) (bit : bool) (lo hi r : Z) : Prop := lo ≤ r < hi ∧ bitat s r = bit ∧ no_bit s bit lo r.

Lemma no_bit_app s bit lo mid hi : no_bit s bit lo mid → no_bit s bit mid hi → no_bit s bit lo hi.
Proof. intros H1 H2 k Hk. destruct (Z.lt_ge_cases k mid); [apply H1|apply H2]; lia. Qed.
(** Skipping a byte of zeros or of ones. *)
Definition skip_byte (bit : bool) : Z := if bit then 0 else 255.
Lemma skip_byte_bits bit j : 0 ≤ j < 8 → Z.testbit (skip_byte bit) j = negb bit.
Proof. intros Hj. destruct bit; cbn [skip_byte negb]; [apply Z.bits_0|]. change 255 with (Z.ones 8). by apply Z.ones_spec_low. Qed.
Lemma no_bit_byte s bit k : byte_at s k = skip_byte bit → no_bit s bit (8 * k) (8 * (k + 1)).
Proof. intros E i Hi. rewrite (bitat_byte s i k (i - 8 * k)), E by lia. apply skip_byte_bits. lia. Qed.
Lemma byte_not_skip s bit k : is_byte (byte_at s k) → byte_at s k ≠ skip_byte bit → ∃ i, 8 * k ≤ i < 8 * (k + 1) ∧ bitat s i = bit.
Proof.
  intros Hb Hne. destruct (decide (Exists (λ j, bitat s (8 * k + j) = bit) (seqZ 0 8))) as [(j & Hj & E)%Exists_exists|Hno].
  { apply elem_of_seqZ in Hj. exists (8 * k + j). split; [lia|done]. }
  destruct Hne. unfold is_byte in Hb. apply Z.bits_inj'. intros n Hn. destruct (Z.lt_ge_cases n 8).
  - rewrite skip_byte_bits by lia. destruct (decide (bitat s (8 * k + (7 - n)) = bit)) as [E|E].
    + destruct Hno. apply Exists_exists. exists (7 - n). split; [apply elem_of_seqZ; lia|done].
    + rewrite (bitat_byte s _ k (7 - n)) in E by lia. replace (7 - (7 - n)) with n in E by lia. by destruct (Z.testbit _ n), bit.
  - rewrite (testbit_high _ 8), (testbit_high (skip_byte bit) 8) by (done || lia || (destruct bit; cbn; lia)). done.
Qed.

Section bitpos.
Context (a : Z) (s : list Z) (bit : bool).
Hypothesis Hs : Forall is_byte s.

(** The loops skip bytes without the bit. *)
Definition skipped (c count pos c' count' pos' : Z) : Prop :=
  c ≤ c' ∧ 0 ≤ count' ∧ c' + count' = c + count ∧ pos' - pos = 8 * (c' - c) ∧ no_bit s bit (8 * c) (8 * c').
Lemma skipped_refl c count pos : 0 ≤ count → skipped c count pos c count pos.
Proof using Type. intros Hc. split_and!; try lia. intros k Hk. lia. Qed.
Lemma skipped_step c n count pos c' count' pos' : 0 ≤ n → no_bit s bit (8 * c) (8 * (c + n)) → skipped (c + n) (count - n) (pos + 8 * n) c' count' pos' → skipped c count pos c' count' pos'.
Proof using Type. intros Hn Hb (H1 & H2 & H3 & H4 & H5). split_and!; try lia. by eapply no_bit_app. Qed.

Lemma pos_unaligned_spec fuel c count pos : 0 ≤ c → 0 ≤ count ≤ Z.of_nat fuel → c + count ≤ zlen s →
  ∃ found c' count' pos', pos_unaligned a s fuel (skip_byte bit) c count pos = Some (found, c', count', pos') ∧ skipped c count pos c' count' pos' ∧
    (found = true → 0 < count' ∧ byte_at s c' ≠ skip_byte bit).
Proof using Hs.
  revert c count pos. induction fuel as [|fuel IH]; intros c count pos H0 Hc Hl; cbn [pos_unaligned].
  - replace count with 0 by lia. rewrite andb_false_r. eexists _, _, _, _. split; [done|]. split; [apply skipped_refl; lia|done].
  - destruct (_ && _) eqn:E; [|eexists _, _, _, _; split; [done|]; split; [apply skipped_refl; lia|done]]. apply andb_true_iff in E as [_ E]. apply negb_true_iff, Z.eqb_neq in E.
    rewrite load8_byte_at by lia. cbn [mbind option_bind]. destruct (Z.eqb_spec (byte_at s c) (skip_byte bit)) as [Eb|Nb]; cbn [negb].
    + destruct (IH (c + 1) (count - 1) (pos + 8)) as (f & c' & n' & p' & -> & Hsk & Hf); [lia..|]. eexists _, _, _, _. split; [done|]. split; [|done].
      apply (skipped_step c 1); [lia|by apply no_bit_byte|done].
    + eexists _, _, _, _. split; [done|]. split; [apply skipped_refl; lia|]. intros _. split; [lia|done].
Qed.

Lemma bytes_le_val k l : 0 ≤ l → l + 8 ≤ zlen s → ∃ w, load s l 8 = Some w ∧ (le_val w = k → ∀ i, 0 ≤ i < 8 → byte_at s (l + i) = (k / 256 ^ i) mod 256) ∧
   ((∀ i, 0 ≤ i < 8 → byte_at s (l + i) = (k / 256 ^ i) mod 256) → 0 ≤ k < 2 ^ 64 → le_val w = k).
Proof using Hs.
  intros H0 Hl. destruct (load_total s l 8) as [w Hw]; [lia..|]. exists w. split; [done|]. apply load_Some in Hw as (pre & post & Es & -> & Hn).
  assert (Hwb : Forall is_byte w) by (rewrite Es in Hs; apply Forall_app in Hs as [_ Hs']; by apply Forall_app in Hs' as [? _]).
  assert (Hat : ∀ i, 0 ≤ i < 8 → byte_at s (zlen pre + i) = byte_at w i).
  { intros i Hi. unfold byte_at. rewrite Es, lookup_app_r, lookup_app_l by lia. do 2 f_equal. lia. }
  split.
  - intros Ek i Hi. rewrite Hat, <- (le_bytes_val w Hwb), Ek by lia. apply byte_at_le_bytes. lia.
  - intros Hk Hr. assert (Ew : w = le_bytes 8 k); [|rewrite Ew, le_val_bytes; by apply Z.mod_small].
    apply list_eq_same_length with 8%nat; [by rewrite length_le_bytes|lia|]. intros i x y Hi Hx Hy. specialize (Hk (Z.of_nat i) ltac:(lia)). rewrite Hat in Hk by lia.
    rewrite <- (byte_at_le_bytes 8%nat) in Hk by lia. unfold byte_at in Hk. rewrite Nat2Z.id, Hx, Hy in Hk. exact Hk.
Qed.
Definition skip_word : Z := if bit then 0 else UINT64_MAX.
Lemma skip_word_bytes i : 0 ≤ i < 8 → (skip_word / 256 ^ i) mod 256 = skip_byte bit.
Proof using Type.
  intros Hi. assert (i = 0 ∨ i = 1 ∨ i = 2 ∨ i = 3 ∨ i = 4 ∨ i = 5 ∨ i = 6 ∨ i = 7) as Hc by lia. unfold skip_word, skip_byte. destruct bit; by destruct Hc as [->|[->|[->|[->|[->|[->|[->| ->]]]]]]].
Qed.
Lemma pos_words_spec fuel l count pos : 0 ≤ l → 0 ≤ count ≤ Z.of_nat fuel → l + count ≤ zlen s →
  ∃ l' count' pos', pos_words s fuel skip_word l count pos = Some (l', count', pos') ∧ skipped l count pos l' count' pos' ∧
    (count' < 8 ∨ ∃ i, 0 ≤ i < 8 ∧ byte_at s (l' + i) ≠ skip_byte bit).
Proof using Hs.
  revert l count pos. induction fuel as [|fuel IH]; intros l count pos H0 Hc Hl; cbn [pos_words]; rewrite Z.geb_leb; destruct (Z.leb_spec 8 count); try lia.
  - eexists _, _, _. split; [done|]. split; [apply skipped_refl; lia|lia].
  - destruct (bytes_le_val skip_word l) as (w & -> & Hw1 & Hw2); [lia..|]. cbn [mbind option_bind]. destruct (Z.eqb_spec (le_val w) skip_word) as [Ew|Nw]; cbn [negb].
    + destruct (IH (l + 8) (count - 8) (pos + 64)) as (l' & n' & p' & -> & Hsk & Hf); [lia..|]. eexists _, _, _. split; [done|]. split; [|done]. apply (skipped_step l 8); [lia| |done].
      intros i Hi. assert (Hq : 0 ≤ i / 8 - l < 8) by dlia. specialize (Hw1 Ew (i / 8 - l) Hq). rewrite skip_word_bytes in Hw1 by done.
      apply no_bit_byte in Hw1. apply Hw1. dlia.
    + eexists _, _, _. split; [done|]. split; [apply skipped_refl; lia|]. right.
      destruct (decide (Exists (λ i, byte_at s (l + i) ≠ skip_byte bit) (seqZ 0 8))) as [(i & Hi & Hne)%Exists_exists|Hno]; [apply elem_of_seqZ in Hi; exists i; split; [lia|done]|].
      destruct Nw. apply Hw2; [|unfold skip_word, UINT64_MAX; destruct bit; lia]. intros i Hi. rewrite skip_word_bytes by done.
      destruct (decide (byte_at s (l + i) = skip_byte bit)); [done|]. destruct Hno. apply Exists_exists. exists i. split; [apply elem_of_seqZ; lia|done].
  - eexists _, _, _. split; [done|]. split; [apply skipped_refl; lia|lia].
Qed.

(** The bits of the next word: those of the string, then zeros. *)
Lemma load_word_spec n c count word : 0 ≤ c → 0 ≤ count → c + count ≤ zlen s → (n ≤ 8)%nat → 0 ≤ word < 2 ^ (64 - 8 * Z.of_nat n) →
  ∃ w, load_word s n c count word = Some w ∧ 0 ≤ w < 2 ^ 64 ∧
    (∀ i, 0 ≤ i < 8 * Z.of_nat n → Z.testbit w (8 * Z.of_nat n - 1 - i) = (i <? 8 * count) && bitat s (8 * c + i)) ∧
    (∀ i, 8 * Z.of_nat n ≤ i → Z.testbit w i = Z.testbit word (i - 8 * Z.of_nat n)).
Proof using Hs.
  revert c count word. induction n as [|n IH]; intros c count word H0 Hc Hl Hn Hw; cbn [load_word].
  { exists word. split; [done|]. replace (64 - 8 * Z.of_nat 0) with 64 in Hw by lia. split; [done|]. split; [intros; lia|]. intros i _. f_equal. lia. }
  set (N := Z.of_nat n) in *. replace (Z.of_nat (S n)) with (N + 1) in * by lia. assert (HN : 0 ≤ N ≤ 7) by lia.
  assert (Hpw : 2 ^ (64 - 8 * N) = 2 ^ (64 - 8 * (N + 1)) * 2 ^ 8) by (rewrite <- Z.pow_add_r by lia; f_equal; lia).
  assert (Hb64 : 2 ^ (64 - 8 * N) ≤ 2 ^ 64) by (apply Z.pow_le_mono_r; lia).
  assert (Es : u64 (Z.shiftl word 8) = Z.shiftl word 8) by (apply wrapu_small; rewrite Z.shiftl_mul_pow2 by lia; lia). rewrite Es.
  assert (Hgen : ∀ b c' count', is_byte b → 0 ≤ c' → 0 ≤ count' → c' + count' ≤ zlen s → (∀ i, 0 ≤ i < 8 → Z.testbit b (7 - i) = (i <? 8 * count) && bitat s (8 * c + i)) →
      (∀ i, 0 ≤ i < 8 * N → (i <? 8 * count') && bitat s (8 * c' + i) = (i + 8 <? 8 * count) && bitat s (8 * c + (i + 8))) →
      ∃ w, load_word s n c' count' (Z.lor (Z.shiftl word 8) b) = Some w ∧ 0 ≤ w < 2 ^ 64 ∧
        (∀ i, 0 ≤ i < 8 * (N + 1) → Z.testbit w (8 * (N + 1) - 1 - i) = (i <? 8 * count) && bitat s (8 * c + i)) ∧
        (∀ i, 8 * (N + 1) ≤ i → Z.testbit w i = Z.testbit word (i - 8 * (N + 1)))).
  { intros b c' count' Hb H0' Hc' Hl' Hbits Hrest. unfold is_byte in Hb. assert (E : Z.lor (Z.shiftl word 8) b = b + word * 2 ^ 8) by (rewrite Z.lor_comm; apply lor_shiftl_add; lia).
    destruct (IH c' count' (Z.lor (Z.shiftl word 8) b)) as (w & E1 & Hr & Hlo & Hhi); [lia..|rewrite E; lia|].
    exists w. split_and!; [done|lia|lia| |].
    - intros i Hi. destruct (Z.lt_ge_cases i 8) as [Hi8|Hi8].
      + rewrite Hhi by lia. rewrite Z.lor_spec, Z.shiftl_spec_low by lia. cbn [orb]. rewrite <- Hbits by lia. f_equal. lia.
      + replace (8 * (N + 1) - 1 - i) with (8 * N - 1 - (i - 8)) by lia. rewrite Hlo, Hrest by lia. by replace (i - 8 + 8) with i by lia.
    - intros i Hi. rewrite Hhi by lia. rewrite Z.lor_spec, Z.shiftl_spec by lia. rewrite (testbit_high b 8) by lia. rewrite orb_false_r. f_equal. lia. }
  destruct (Z.eqb_spec count 0) as [->|Hne]; cbn [negb].
  - destruct (Hgen 0 c 0) as (w & E & Hw'); [unfold is_byte; lia|done|done|lia| | |exists w; rewrite Z.lor_0_r in E; done].
    + intros i Hi. rewrite Z.bits_0. destruct (Z.ltb_spec i (8 * 0)); [lia|done].
    + intros i Hi. destruct (Z.ltb_spec i (8 * 0)), (Z.ltb_spec (i + 8) (8 * 0)); done || lia.
  - rewrite load8_byte_at by lia. cbn [mbind option_bind]. apply Hgen; [by apply byte_at_byte|lia..| |].
    + intros i Hi. rewrite (bitat_byte s _ c i) by lia. destruct (Z.ltb_spec i (8 * count)); [done|lia].
    + intros i Hi. replace (8 * (c + 1) + i) with (8 * c + (i + 8)) by lia. destruct (Z.ltb_spec i (8 * (count - 1))), (Z.ltb_spec (i + 8) (8 * count)); done || lia.
Qed.

(** The scan of a word from bit [i] on. *)
Lemma scan_word_spec fuel i j word pos : 0 ≤ i ≤ j → j < 64 → j - i < Z.of_nat fuel → Z.testbit word (63 - j) = bit → (∀ k, i ≤ k < j → Z.testbit word (63 - k) = negb bit) →
  scan_word fuel (2 ^ (63 - i)) word pos bit = Some (pos + (j - i)).
Proof using Type.
  revert i pos. induction fuel as [|fuel IH]; intros i pos Hi Hj Hf Hb Hn; [lia|]. cbn [scan_word]. assert (0 < 2 ^ (63 - i)) by (apply Z.pow_pos_nonneg; lia).
  destruct (Z.eqb_spec (2 ^ (63 - i)) 0); [lia|].
  assert (Et : negb (Z.land (2 ^ (63 - i)) word =? 0) = Z.testbit word (63 - i)).
  { destruct (Z.testbit word (63 - i)) eqn:E.
    - apply negb_true_iff, Z.eqb_neq. intros E0. assert (Hx : Z.testbit (Z.land (2 ^ (63 - i)) word) (63 - i) = false) by (by rewrite E0, Z.bits_0).
      rewrite Z.land_spec, E, Z.pow2_bits_true in Hx by lia. done.
    - apply negb_false_iff, Z.eqb_eq. apply Z.bits_inj'. intros k Hk. rewrite Z.bits_0, Z.land_spec, Z.pow2_bits_eqb by lia. destruct (Z.eqb_spec (63 - i) k) as [<-|]; [by rewrite E|done]. }
  rewrite Et. destruct (decide (i = j)) as [->|Hne].
  - rewrite Hb, eqb_reflx. f_equal. lia.
  - rewrite (Hn i) by lia. assert (eqb (negb bit) bit = false) as -> by (by destruct bit). rewrite Z.shiftr_div_pow2 by lia. replace (2 ^ (63 - i) / 2 ^ 1) with (2 ^ (63 - (i + 1))).
    + rewrite IH by (done || lia || (intros k Hk; apply Hn; lia)). f_equal. lia.
    + rewrite <- Z.pow_sub_r by lia. f_equal. lia.
Qed.

Lemma least (P : Z → bool) hi : (∃ j, 0 ≤ j < hi ∧ P j = true) → ∃ j, 0 ≤ j < hi ∧ P j = true ∧ ∀ k, 0 ≤ k < j → P k = false.
Proof using Type.
  clear Hs. intros (j0 & Hj0 & HP0). destruct (list_find (λ k, P k = true) (seqZ 0 hi)) as [[i j]|] eqn:E.
  - apply list_find_Some in E as (Hl & HP & Hbefore). apply lookup_seqZ in Hl as [-> Hi]. exists (0 + Z.of_nat i). split_and!; [lia|lia|done|].
    intros k Hk. apply not_true_is_false. apply (Hbefore (Z.to_nat k) k); [|lia]. apply lookup_seqZ. lia.
  - apply list_find_None in E. rewrite Forall_forall in E. destruct (E j0); [apply elem_of_seqZ; lia|done].
Qed.
Lemma nonzero_bit w : 0 ≤ w < 2 ^ 64 → w ≠ 0 → ∃ i, 0 ≤ i < 64 ∧ Z.testbit w (63 - i) = true.
Proof using Type.
  clear Hs. intros Hw Hne. exists (63 - Z.log2 w). assert (Z.log2 w < 64) by (apply Z.log2_lt_pow2; lia). pose proof (Z.log2_nonneg w).
  replace (63 - (63 - Z.log2 w)) with (Z.log2 w) by lia. split; [lia|]. apply Z.bit_log2. lia.
Qed.

(** The result: the first position of the bit, or where a string padded with
    zeros has its first 0. *)
Definition bitpos_result (start count r : Z) : Prop :=
  no_bit s bit (8 * start) (8 * (start + count)) ∧ r = (if bit then -1 else 8 * count) ∨
  first_bit s bit (8 * start) (8 * (start + count)) (8 * start + r).

(** The end of [redisBitpos], from a word that has the bit or is the last one. *)
Lemma bitpos_end start count l n pos : skipped start count 0 l n pos → 0 ≤ l → l + n ≤ zlen s →
  (n < 8 ∨ ∃ i, 0 ≤ i < 8 ∧ i < n ∧ byte_at s (l + i) ≠ skip_byte bit) →
  ∃ r, (word ← load_word s 8 l n 0; if bit && (word =? 0) then Some (-1) else scan_word 64 (u64 (Z.lnot (Z.shiftr UINT64_MAX 1))) word pos bit) = Some r ∧ bitpos_result start count r.
Proof using Hs.
  intros (H1 & H2 & H3 & H4 & H5) Hl0 Hl Hex. destruct (load_word_spec 8 l n 0) as (w & -> & Hw & Hbits & _); [lia..|]. cbn [mbind option_bind].
  change (8 * Z.of_nat 8) with 64 in Hbits. change (64 - 1) with 63 in Hbits. change (u64 (Z.lnot (Z.shiftr UINT64_MAX 1))) with (2 ^ (63 - 0)).
  assert (Hhas : n < 8 ∨ ∃ j, 0 ≤ j < 64 ∧ j < 8 * n ∧ bitat s (8 * l + j) = bit).
  { destruct Hex as [|(i & Hi & Hin & Hne)]; [by left|]. right. apply byte_not_skip in Hne as (k & Hk & E); [|by apply byte_at_byte]. exists (k - 8 * l). replace (8 * l + (k - 8 * l)) with k by lia. split_and!; done || lia. }
  destruct (bit && (w =? 0)) eqn:E0.
  { apply andb_true_iff in E0 as [Eb Ew]. apply Z.eqb_eq in Ew. subst w. eexists; split; [done|]. left. rewrite Eb in *. split; [|done].
    assert (Hz : ∀ i, 0 ≤ i < 64 → (i <? 8 * n) && bitat s (8 * l + i) = false) by (intros i Hi; by rewrite <- Hbits, Z.bits_0).
    destruct Hhas as [Hn|(j & Hj & Hjn & E)]; [|specialize (Hz j Hj); rewrite E in Hz; destruct (Z.ltb_spec j (8 * n)); done || lia].
    apply (no_bit_app _ _ _ (8 * l)); [done|]. intros k Hk. specialize (Hz (k - 8 * l) ltac:(lia)). replace (8 * l + (k - 8 * l)) with k in Hz by lia. destruct (Z.ltb_spec (k - 8 * l) (8 * n)); [done|lia]. }
  destruct (least (λ i, eqb (Z.testbit w (63 - i)) bit) 64) as (j & Hj & HP & Hbefore).
  { destruct Hhas as [Hn|(j & Hj & Hjn & E)].
    - destruct bit; cbn [andb] in E0.
      + apply Z.eqb_neq in E0. destruct (nonzero_bit w Hw E0) as (i & Hi & E). exists i. split; [done|]. by rewrite E.
      + exists (8 * n). split; [lia|]. rewrite Hbits by lia. destruct (Z.ltb_spec (8 * n) (8 * n)); [lia|done].
    - exists j. split; [done|]. rewrite Hbits, E by lia. destruct (Z.ltb_spec j (8 * n)); [|lia]. by destruct bit. }
  assert (HPj : Z.testbit w (63 - j) = bit) by (by apply eqb_prop).
  assert (Hbj : ∀ k, 0 ≤ k < j → Z.testbit w (63 - k) = negb bit) by (intros k Hk; specialize (Hbefore k Hk); cbn in Hbefore; by destruct (Z.testbit w (63 - k)), bit).
  rewrite (scan_word_spec 64 0 j) by (done || lia). eexists; split; [done|]. rewrite Z.sub_0_r.
  assert (Hpre : ∀ k, 8 * l ≤ k < 8 * l + Z.min j (8 * n) → bitat s k = negb bit).
  { intros k Hk. specialize (Hbj (k - 8 * l) ltac:(lia)). rewrite Hbits in Hbj by lia. replace (8 * l + (k - 8 * l)) with k in Hbj by lia. destruct (Z.ltb_spec (k - 8 * l) (8 * n)); [done|lia]. }
  rewrite Hbits in HPj by lia. destruct (Z.ltb_spec j (8 * n)) as [Hjn|Hjn]; cbn [andb] in HPj.
  - right. replace (8 * start + (pos + j)) with (8 * l + j) by lia. split_and!; [lia|lia|done|]. apply (no_bit_app _ _ _ (8 * l)); [done|]. intros k Hk. apply Hpre. lia.
  - left. split; [|rewrite <- HPj; assert (j = 8 * n); [|lia]].
    + apply (no_bit_app _ _ _ (8 * l)); [done|]. intros k Hk. apply Hpre. lia.
    + destruct (Z.lt_ge_cases (8 * n) j) as [Hlt|]; [|lia]. specialize (Hbj (8 * n) ltac:(lia)). rewrite Hbits, <- HPj in Hbj by lia. destruct (Z.ltb_spec (8 * n) (8 * n)); [lia|done].
Qed.
Lemma bitpos_spec start count : 0 ≤ start → 0 ≤ count → start + count ≤ zlen s → ∃ r, redisBitpos a s start count bit = Some r ∧ bitpos_result start count r.
Proof using Hs.
  intros H0 Hc Hl. unfold redisBitpos. destruct (pos_unaligned_spec (length s) start count 0) as (found & c & n & pos & E & Hsk & Hf); [lia..|]. unfold skip_byte in E. rewrite E. cbn [mbind option_bind].
  pose proof Hsk as (H1 & H2 & H3 & _). destruct found.
  - cbn [mbind option_bind]. apply bitpos_end; [done|lia|lia|]. right. exists 0. rewrite Z.add_0_r. destruct Hf; [done|]. split_and!; done || lia.
  - destruct (pos_words_spec (length s) c n pos) as (l & n' & pos' & E' & Hsk' & Hf'); [lia..|]. unfold skip_word in E'. rewrite E'. cbn [mbind option_bind].
    assert (Hsk2 : skipped start count 0 l n' pos').
    { destruct Hsk as (A1 & A2 & A3 & A4 & A5), Hsk' as (B1 & B2 & B3 & B4 & B5). split_and!; try lia. by eapply no_bit_app. }
    pose proof Hsk' as (B1 & B2 & B3 & _). apply bitpos_end; [done|lia|lia|]. destruct (Z.lt_ge_cases n' 8); [by left|]. destruct Hf' as [|(i & Hi & Hne)]; [lia|]. right. exists i. split_and!; done || lia.
Qed.
End bitpos.
End Bits.
