(* ===== verification/BitFields.v ===== *)
(** * bitops.c: bit fields

    The BITFIELD command as operations on an unbounded array of bits: integers
    of a given type are read, written and incremented, with the overflow
    semantics of the operation. *)

From S2P Require Import Prelude Util Bitops Bits.
Import Util Bitops Bits.

Module BitFields.

(** ** The meaning of the operations *)

(** The unsigned value of [n] bits from [off] on, the first one being the most
    significant. *)
Fixpoint fval (f : Z → bool) (off : Z) (n : nat) : Z :=
  match n with O => 0 | S k => Z.b2z (f off) * 2 ^ Z.of_nat k + fval f (off + 1) k end.
(** The bits of a field replaced by those of [v]. *)
Definition set_field (f : Z → bool) (off bits v : Z) (i : Z) : bool :=
  if (off <=? i) && (i <? off + bits) then Z.testbit v (bits - 1 - (i - off)) else f i.

Definition type_min (sign : bool) (bits : Z) : Z := if sign then - 2 ^ (bits - 1) else 0.
Definition type_max (sign : bool) (bits : Z) : Z := if sign then 2 ^ (bits - 1) - 1 else 2 ^ bits - 1.
Definition fits_type (sign : bool) (bits v : Z) : Prop := type_min sign bits ≤ v ≤ type_max sign bits.
Definition wrap_type (sign : bool) (bits v : Z) : Z := if sign then wraps bits v else wrapu bits v.
(** The value to store instead of [v], nothing when the operation fails. *)
Definition overflowed (ow : owtype) (sign : bool) (bits v : Z) : option Z :=
  if decide (fits_type sign bits v) then Some v
  else
    match ow with
    | BFOVERFLOW_WRAP => Some (wrap_type sign bits v)
    | BFOVERFLOW_SAT => Some (if v >? type_max sign bits then type_max sign bits else type_min sign bits)
    | BFOVERFLOW_FAIL => None
    end.

(** The value SET stores.  There is one exception to [overflowed]: a signed value
    whose distance to the maximum of the type is not an [int64_t] saturates at the
    maximum although it is below the minimum. *)
Definition far_below (sign : bool) (bits v : Z) : bool := sign && (bits <? 64) && (v <? - 2 ^ 63 + 2 ^ (bits - 1)).
Definition set_value (ow : owtype) (sign : bool) (bits v : Z) : option Z :=
  match ow with
  | BFOVERFLOW_SAT => if far_below sign bits v then Some (type_max sign bits) else overflowed ow sign bits v
  | _ => overflowed ow sign bits v
  end.

Definition op_spec (f : Z → bool) (op : bitfieldOp) : (Z → bool) * option Z :=
  let sign := bf_sign op in
  let bits := bf_bits op in
  let old := wrap_type sign bits (fval f (bf_offset op) (Z.to_nat bits)) in
  match bf_opcode op with
  | BITFIELDOP_GET => (f, Some old)
  | BITFIELDOP_SET =>
      match set_value (bf_owtype op) sign bits (if sign then bf_i64 op else u64 (bf_i64 op)) with
      | Some new => (set_field f (bf_offset op) bits new, Some old)
      | None => (f, None)
      end
  | BITFIELDOP_INCRBY =>
      match overflowed (bf_owtype op) sign bits (old + bf_i64 op) with
      | Some new => (set_field f (bf_offset op) bits new, Some new)
      | None => (f, None)
      end
  end.
Fixpoint ops_spec (f : Z → bool) (ops : list bitfieldOp) : (Z → bool) * list (option Z) :=
  match ops with
  | [] => (f, [])
  | op :: ops => let '(f, r) := op_spec f op in let '(f, rs) := ops_spec f ops in (f, r :: rs)
  end.

(** Operations as the parser delivers them. *)
Definition op_parsed (op : bitfieldOp) : Prop := 0 ≤ bf_offset op ∧ 1 ≤ bf_bits op ≤ (if bf_sign op then 64 else 63) ∧ sfits 64 (bf_i64 op).
(** The limit on offsets, for clients that do not have to be obeyed. *)
Definition op_bounded (max_len : Z) (obey : bool) (op : bitfieldOp) : Prop := obey = false → bf_offset op / 8 < max_len.

(** ** Reading *)

Lemma fval_range f off n : 0 ≤ fval f off n < 2 ^ Z.of_nat n.
Proof.
  revert off. induction n as [|n IH]; intros off; cbn [fval]; [cbn; lia|]. specialize (IH (off + 1)). rewrite Nat2Z.inj_succ, Z.pow_succ_r by lia.
  assert (0 ≤ Z.b2z (f off) ≤ 1) by (destruct (f off); cbn; lia). nia.
Qed.
Lemma fval_ext f g off n : (∀ i, off ≤ i < off + Z.of_nat n → f i = g i) → fval f off n = fval g off n.
Proof. revert off. induction n as [|n IH]; intros off H; cbn [fval]; [done|]. rewrite (H off) by lia. f_equal. apply IH. intros i Hi. apply H. lia. Qed.
Lemma fval_shift f g off off' n : (∀ i, 0 ≤ i < Z.of_nat n → f (off + i) = g (off' + i)) → fval f off n = fval g off' n.
Proof.
  revert off off'. induction n as [|n IH]; intros off off' H; cbn [fval]; [done|]. pose proof (H 0 ltac:(lia)) as E. rewrite !Z.add_0_r in E. rewrite E. f_equal. apply IH.
  intros i Hi. specialize (H (i + 1) ltac:(lia)). by replace (off + 1 + i) with (off + (i + 1)) by lia; replace (off' + 1 + i) with (off' + (i + 1)) by lia.
Qed.
(** The bits of a number are a field with its value. *)
Lemma fval_bits v off n : fval (λ i, Z.testbit v (Z.of_nat n - 1 - (i - off))) off n = v mod 2 ^ Z.of_nat n.
Proof.
  revert off. induction n as [|n IH]; intros off; cbn [fval]; [by rewrite Z.mod_1_r|].
  rewrite (fval_ext _ (λ i, Z.testbit v (Z.of_nat n - 1 - (i - (off + 1))))) by (intros i Hi; f_equal; lia). rewrite IH.
  replace (Z.of_nat (S n) - 1 - (off - off)) with (Z.of_nat n) by lia. rewrite Nat2Z.inj_succ, Z.testbit_spec' by lia.
  rewrite Z.pow_succ_r, (Z.mul_comm 2), (Z.rem_mul_r v (2 ^ Z.of_nat n) 2) by lia. lia.
Qed.
Lemma fval_set f off n v : 0 ≤ n → fval (set_field f off n v) off (Z.to_nat n) = v mod 2 ^ n.
Proof.
  intros Hn. rewrite <- (Z2Nat.id n) at 3 by lia. rewrite <- (fval_bits v off). apply fval_ext. intros i Hi. unfold set_field.
  destruct (Z.leb_spec off i), (Z.ltb_spec i (off + n)); try lia. cbn [andb]. f_equal. lia.
Qed.

Lemma bit_of_byte b bit : 0 ≤ bit → Z.land (Z.shiftr b bit) 1 = Z.b2z (Z.testbit b bit).
Proof. intros Hb. change 1 with (Z.ones 1). rewrite Z.land_ones, Z.testbit_spec', Z.shiftr_div_pow2 by lia. done. Qed.
Lemma offset_parts off : 0 ≤ off → Z.shiftr off 3 = off / 8 ∧ Z.land off 0x7 = off mod 8.
Proof. intros H. rewrite Z.shiftr_div_pow2 by lia. change 0x7 with (Z.ones 3). by rewrite Z.land_ones by lia. Qed.
Lemma get_bits_spec n p off v : 0 ≤ off → off + Z.of_nat n ≤ 8 * zlen p → 0 ≤ v → (v + 1) * 2 ^ Z.of_nat n ≤ 2 ^ 64 →
  get_bits n p off v = Some (v * 2 ^ Z.of_nat n + fval (bitat p) off n).
Proof.
  revert off v. induction n as [|n IH]; intros off v H0 Hl Hv Hb; cbn [get_bits fval]; [f_equal; cbn; lia|]. destruct (offset_parts off H0) as [-> ->].
  rewrite load8_byte_at by dlia. cbn [mbind option_bind]. rewrite bit_of_byte by dlia. fold (bitat p off). rewrite Nat2Z.inj_succ, Z.pow_succ_r in * by lia.
  assert (Hp : 1 ≤ 2 ^ Z.of_nat n) by (apply (Z.pow_le_mono_r 2 0); lia). assert (0 ≤ Z.b2z (bitat p off) ≤ 1) by (destruct (bitat p off); cbn; lia).
  rewrite Z.shiftl_mul_pow2, wrapu_small by nia. rewrite Z.lor_comm, <- Z.shiftl_mul_pow2, lor_shiftl_add by lia. rewrite IH by nia. f_equal. lia.
Qed.
Lemma getUnsigned_spec p off bits : 0 ≤ off → 0 ≤ bits ≤ 64 → off + bits ≤ 8 * zlen p → getUnsignedBitfield p off bits = Some (fval (bitat p) off (Z.to_nat bits)).
Proof.
  intros H0 Hb Hl. unfold getUnsignedBitfield. rewrite get_bits_spec; [f_equal; lia|done|lia|done|]. rewrite Z.mul_1_l. apply Z.pow_le_mono_r; lia.
Qed.

(** ** Signed values *)

Lemma land_bit x k : 0 ≤ k → negb (Z.land x (Z.shiftl 1 k) =? 0) = Z.testbit x k.
Proof.
  intros Hk. rewrite Z.shiftl_1_l. destruct (Z.testbit x k) eqn:E.
  - apply negb_true_iff, Z.eqb_neq. intros E0. assert (Hx : Z.testbit (Z.land x (2 ^ k)) k = false) by (by rewrite E0, Z.bits_0). rewrite Z.land_spec, E, Z.pow2_bits_true in Hx by lia. done.
  - apply negb_false_iff, Z.eqb_eq. apply Z.bits_inj'. intros i Hi. rewrite Z.bits_0, Z.land_spec, Z.pow2_bits_eqb by lia. destruct (Z.eqb_spec k i) as [<-|]; [by rewrite E|by rewrite andb_false_r].
Qed.
Lemma wraps_bit bits v : 1 ≤ bits → wraps bits v = v mod 2 ^ bits - (if Z.testbit v (bits - 1) then 2 ^ bits else 0).
Proof.
  intros Hb. unfold wraps. set (P := 2 ^ (bits - 1)). assert (HP : 1 ≤ P) by (apply (Z.pow_le_mono_r 2 0); lia).
  assert (E2 : 2 ^ bits = 2 * P) by (unfold P; rewrite <- Z.pow_succ_r by lia; f_equal; lia). rewrite E2.
  pose proof (Z.testbit_spec' v (bits - 1) ltac:(lia)) as Ht. fold P in Ht. pose proof (Z.div_mod v P ltac:(lia)) as Hv. pose proof (Z.mod_pos_bound v P ltac:(lia)) as Hr.
  set (q := v / P) in *. set (r := v mod P) in *. clearbody q r P. pose proof (Z.div_mod q 2 ltac:(lia)) as Hq. destruct (Z.testbit v (bits - 1)); cbn [Z.b2z] in Ht.
  - rewrite <- (Z.mod_unique (v + P) (2 * P) (q / 2 + 1) r) by nia. rewrite <- (Z.mod_unique v (2 * P) (q / 2) (r + P)) by nia. lia.
  - rewrite <- (Z.mod_unique (v + P) (2 * P) (q / 2) (r + P)) by nia. rewrite <- (Z.mod_unique v (2 * P) (q / 2) r) by nia. lia.
Qed.
Lemma pow_range bits : 1 ≤ bits ≤ 64 → 2 ^ bits = 2 * 2 ^ (bits - 1) ∧ 1 ≤ 2 ^ (bits - 1) ∧ 2 ^ bits * 2 ^ (64 - bits) = 2 ^ 64.
Proof.
  intros Hb. split_and!; [rewrite <- Z.pow_succ_r by lia; f_equal; lia|apply (Z.pow_le_mono_r 2 0); lia|rewrite <- Z.pow_add_r by lia; f_equal; lia].
Qed.
Lemma wraps_bounds bits v : 1 ≤ bits ≤ 64 → - 2 ^ (bits - 1) ≤ wraps bits v ≤ 2 ^ (bits - 1) - 1.
Proof. intros Hb. destruct (pow_range bits Hb) as (E & H & _). unfold wraps. pose proof (Z.mod_pos_bound (v + 2 ^ (bits - 1)) (2 ^ bits) ltac:(lia)). lia. Qed.
Lemma wraps_id bits v : 1 ≤ bits ≤ 64 → - 2 ^ (bits - 1) ≤ v ≤ 2 ^ (bits - 1) - 1 → wraps bits v = v.
Proof. intros Hb Hv. destruct (pow_range bits Hb) as (E & H & _). unfold wraps. rewrite Z.mod_small; lia. Qed.
Lemma wraps_cong bits v w : 1 ≤ bits ≤ 64 → v mod 2 ^ bits = w mod 2 ^ bits → wraps bits v = wraps bits w.
Proof.
  intros Hb E. destruct (pow_range bits Hb) as (_ & H & _). unfold wraps. f_equal. rewrite <- (Z.add_mod_idemp_l v), E, Z.add_mod_idemp_l by lia. done.
Qed.
Lemma wrap_type_fits sign bits v : 1 ≤ bits ≤ 64 → fits_type sign bits (wrap_type sign bits v).
Proof.
  intros Hb. unfold fits_type, wrap_type, type_min, type_max. destruct sign; [by apply wraps_bounds|]. unfold wrapu. destruct (pow_range bits Hb) as (E & H & _). pose proof (Z.mod_pos_bound v (2 ^ bits) ltac:(lia)). lia.
Qed.
Lemma wrap_type_id sign bits v : 1 ≤ bits ≤ 64 → fits_type sign bits v → wrap_type sign bits v = v.
Proof. intros Hb. unfold fits_type, wrap_type, type_min, type_max. destruct sign; [by apply wraps_id|]. intros Hv. apply Z.mod_small. lia. Qed.

(** The mask of the bits above a field. *)
Lemma high_mask bits : 1 ≤ bits ≤ 64 → u64 (Z.shiftl UINT64_MAX bits) = Z.shiftl (2 ^ (64 - bits) - 1) bits.
Proof.
  intros Hb. destruct (pow_range bits Hb) as (_ & _ & E). rewrite !Z.shiftl_mul_pow2 by lia. assert (1 ≤ 2 ^ (64 - bits)) by (apply (Z.pow_le_mono_r 2 0); lia).
  unfold wrapu, UINT64_MAX. symmetry. apply (Z.mod_unique _ _ (2 ^ bits - 1)); nia.
Qed.
Lemma low_mask bits : 1 ≤ bits ≤ 64 → u64 (Z.lnot (u64 (Z.shiftl UINT64_MAX bits))) = Z.ones bits.
Proof.
  intros Hb. rewrite high_mask by done. destruct (pow_range bits Hb) as (E1 & H1 & E). rewrite Z.shiftl_mul_pow2, Z.ones_equiv by lia. unfold Z.lnot. rewrite <- !Z.sub_1_r.
  assert (1 ≤ 2 ^ (64 - bits)) by (apply (Z.pow_le_mono_r 2 0); lia). unfold wrapu. symmetry. apply (Z.mod_unique _ _ (-1)); nia.
Qed.
(** Sign extension of the low [bits] bits. *)
Lemma extend_high bits c : 1 ≤ bits ≤ 63 → 0 ≤ c < 2 ^ 64 → Z.testbit c (bits - 1) = true → s64 (Z.lor c (u64 (Z.shiftl UINT64_MAX bits))) = wraps bits c.
Proof.
  intros Hb Hc Ht. rewrite high_mask by lia. destruct (pow_range bits ltac:(lia)) as (E1 & H1 & E).
  assert (El : Z.lor c (Z.shiftl (2 ^ (64 - bits) - 1) bits) = c mod 2 ^ bits + (2 ^ (64 - bits) - 1) * 2 ^ bits).
  { rewrite <- lor_shiftl_add by (try apply Z.mod_pos_bound; lia). apply Z.bits_inj'. intros i Hi. rewrite !Z.lor_spec. destruct (Z.lt_ge_cases i bits).
    - by rewrite Z.mod_pow2_bits_low by lia.
    - rewrite Z.mod_pow2_bits_high, Z.shiftl_spec by lia. cbn [orb]. rewrite Z.sub_1_r, <- Z.ones_equiv. destruct (Z.lt_ge_cases (i - bits) (64 - bits)).
      + by rewrite Z.ones_spec_low, orb_true_r by lia.
      + rewrite Z.ones_spec_high by lia. rewrite (testbit_high c 64) by lia. done. }
  rewrite El, (wraps_bit bits c), Ht by lia. pose proof (Z.mod_pos_bound c (2 ^ bits) ltac:(lia)).
  assert (Hm : 2 ^ (bits - 1) ≤ c mod 2 ^ bits).
  { rewrite <- (Z.mod_pow2_bits_low c bits) in Ht by lia. pose proof (Z.testbit_spec' (c mod 2 ^ bits) (bits - 1) ltac:(lia)) as Hq. rewrite Ht in Hq. cbn in Hq.
    destruct (Z.lt_ge_cases (c mod 2 ^ bits) (2 ^ (bits - 1))); [rewrite Z.div_small in Hq by lia; done|done]. }
  unfold wraps. change (2 ^ (64 - 1)) with (2 ^ 63). assert (2 ^ bits ≤ 2 ^ 63) by (apply Z.pow_le_mono_r; lia).
  rewrite <- (Z.mod_unique (c mod 2 ^ bits + (2 ^ (64 - bits) - 1) * 2 ^ bits + 2 ^ 63) (2 ^ 64) 1 (c mod 2 ^ bits - 2 ^ bits + 2 ^ 63)) by nia. lia.
Qed.
Lemma getSigned_spec p off bits : 0 ≤ off → 1 ≤ bits ≤ 64 → off + bits ≤ 8 * zlen p → getSignedBitfield p off bits = Some (wraps bits (fval (bitat p) off (Z.to_nat bits))).
Proof.
  intros H0 Hb Hl. unfold getSignedBitfield. rewrite getUnsigned_spec by lia. cbn [mbind option_bind]. f_equal. set (u := fval _ _ _).
  assert (Hu : 0 ≤ u < 2 ^ bits) by (unfold u; pose proof (fval_range (bitat p) off (Z.to_nat bits)) as H; by rewrite Z2Nat.id in H by lia). destruct (pow_range bits ltac:(lia)) as (E1 & H1 & E).
  destruct (Z.ltb_spec bits 64) as [Hlt|Hge]; cbn [andb]; [|by replace bits with 64 by lia]. assert (Hp : 2 ^ bits ≤ 2 ^ 63) by (apply Z.pow_le_mono_r; lia).
  assert (Eu : s64 u = u) by (apply wraps_id; lia). rewrite Eu, wrapu_small, land_bit by lia. destruct (Z.testbit u (bits - 1)) eqn:Et; [apply extend_high; done || lia|].
  rewrite wraps_bit, Et, Z.mod_small by lia. lia.
Qed.

(** ** Writing *)

(** One bit of a byte. *)
Definition with_bit (b bit bv : Z) : Z := Z.land (Z.lor (Z.land b (Z.lnot (Z.shiftl 1 bit))) (Z.shiftl bv bit)) 0xff.
Lemma with_bit_spec b bit (v : bool) j : 0 ≤ bit < 8 → 0 ≤ j < 8 → Z.testbit (with_bit b bit (Z.b2z v)) j = if j =? bit then v else Z.testbit b j.
Proof.
  intros Hb Hj. unfold with_bit. change 0xff with (Z.ones 8). rewrite Z.land_spec, Z.ones_spec_low, andb_true_r, Z.lor_spec, Z.land_spec, Z.lnot_spec, Z.shiftl_1_l, Z.pow2_bits_eqb by lia.
  assert (Hv : ∀ k, Z.testbit (Z.b2z v) k = (k =? 0) && v).
  { intros k. destruct v; cbn [Z.b2z]; [|by rewrite Z.bits_0, andb_false_r]. rewrite andb_true_r. destruct (Z.lt_trichotomy k 0) as [Hk|[->|Hk]]; [by rewrite Z.testbit_neg_r by done; destruct k|done|].
    rewrite (testbit_high 1 1) by lia. destruct (Z.eqb_spec k 0); [lia|done]. }
  rewrite Z.shiftl_spec, Hv, (Z.eqb_sym bit j) by lia. destruct (Z.eqb_spec j bit) as [->|Hne].
  - rewrite Z.sub_diag. cbn. by rewrite andb_false_r.
  - destruct (Z.eqb_spec (j - bit) 0); [lia|]. cbn. by rewrite andb_true_r, orb_false_r.
Qed.
Lemma with_bit_byte b bit bv : is_byte (with_bit b bit bv).
Proof. unfold is_byte, with_bit. by apply (land_range _ _ 8). Qed.

Lemma byte_at_store p k x p' i : 0 ≤ k → 0 ≤ i → store p k [x] = Some p' → byte_at p' i = if i =? k then x else byte_at p i.
Proof.
  intros Hk Hi. unfold store. case_decide as Hd; [|done]. intros [= <-]. cbn [length] in Hd. unfold byte_at. destruct (Z.eqb_spec i k) as [->|Hne].
  - rewrite lookup_app_r, length_take by (rewrite length_take; lia). by replace (Z.to_nat k - Z.to_nat k `min` length p)%nat with 0%nat by lia.
  - f_equal. destruct (Z.lt_ge_cases i k).
    + rewrite lookup_app_l, lookup_take_lt by (rewrite ?length_take; lia). done.
    + rewrite lookup_app_r, length_take by (rewrite length_take; lia). replace (Z.to_nat i - Z.to_nat k `min` length p)%nat with (S (Z.to_nat (i - k - 1))) by lia. cbn [app lookup list_lookup].
      change (drop (Z.to_nat (k + 1)) p !! Z.to_nat (i - k - 1) = p !! Z.to_nat i). rewrite lookup_drop. f_equal. lia.
Qed.
Lemma store_bytes p k x p' : Forall is_byte p → is_byte x → store p k [x] = Some p' → Forall is_byte p'.
Proof.
  intros Hp Hx. unfold store. case_decide; [|done]. intros [= <-]. apply Forall_app; split; [by apply Forall_take|]. constructor; [done|by apply Forall_drop].
Qed.
(** Writing one bit of a string. *)
Lemma store_bit p off b v p' : 0 ≤ off → load8 p (off / 8) = Some b → store p (off / 8) [with_bit b (7 - off mod 8) (Z.b2z v)] = Some p' → ∀ i, 0 ≤ i → bitat p' i = if i =? off then v else bitat p i.
Proof.
  intros H0 Hb Hst i Hi. assert (Hbt : byte_at p (off / 8) = b) by (unfold byte_at, load8 in *; case_decide; [by rewrite Hb|done]).
  unfold bitat. rewrite (byte_at_store p (off / 8) _ p' (i / 8) ltac:(dlia) ltac:(dlia) Hst). destruct (Z.eqb_spec (i / 8) (off / 8)) as [E|Hne].
  - rewrite with_bit_spec by dlia. destruct (Z.eqb_spec (7 - i mod 8) (7 - off mod 8)), (Z.eqb_spec i off); try done; try dlia. by rewrite E, Hbt.
  - destruct (Z.eqb_spec i off); [congruence|done].
Qed.

Lemma set_bits_spec n p off v : Forall is_byte p → 0 ≤ off → off + Z.of_nat n ≤ 8 * zlen p →
  ∃ p', set_bits n p off v = Some p' ∧ length p' = length p ∧ Forall is_byte p' ∧ ∀ i, 0 ≤ i → bitat p' i = set_field (bitat p) off (Z.of_nat n) v i.
Proof.
  revert p off. induction n as [|n IH]; intros p off Hp H0 Hl; cbn [set_bits].
  { exists p. split_and!; [done..|]. intros i Hi. unfold set_field. destruct (Z.leb_spec off i), (Z.ltb_spec i (off + Z.of_nat 0)); done || lia. }
  destruct (offset_parts off H0) as [-> ->]. destruct (load8_total p (off / 8)) as [b Hb]; [dlia|]. rewrite Hb. cbn [mbind option_bind].
  assert (Ev : (if Z.land v (Z.shiftl 1 (Z.of_nat n)) =? 0 then 0 else 1) = Z.b2z (Z.testbit v (Z.of_nat n))) by (rewrite <- land_bit by lia; by destruct (_ =? _)). rewrite Ev.
  fold (with_bit b (7 - off mod 8) (Z.b2z (Z.testbit v (Z.of_nat n)))). destruct (store p (off / 8) [with_bit b (7 - off mod 8) (Z.b2z (Z.testbit v (Z.of_nat n)))]) as [p1|] eqn:Est.
  2:{ unfold store in Est. rewrite decide_True in Est by (cbn [length]; dlia). done. }
  cbn [mbind option_bind]. pose proof (length_store _ _ _ _ Est) as Hl1. destruct (IH p1 (off + 1)) as (p' & -> & Hl' & Hp' & Hbits); [eapply store_bytes; [exact Hp|apply with_bit_byte|done]|lia|lia|].
  exists p'. split_and!; [done|lia|done|]. intros i Hi. rewrite Hbits by done. pose proof (store_bit p off b _ p1 H0 Hb Est i Hi) as Hi1. unfold set_field.
  replace (Z.of_nat (S n)) with (Z.of_nat n + 1) by lia. destruct (Z.leb_spec (off + 1) i), (Z.ltb_spec i (off + 1 + Z.of_nat n)), (Z.leb_spec off i), (Z.ltb_spec i (off + (Z.of_nat n + 1))); cbn [andb]; try lia.
  - f_equal. lia.
  - rewrite Hi1. destruct (Z.eqb_spec i off); [lia|done].
  - rewrite Hi1. destruct (Z.eqb_spec i off) as [->|]; [|lia]. f_equal. lia.
  - rewrite Hi1. destruct (Z.eqb_spec i off); [lia|done].
Qed.
Lemma setUnsigned_spec p off bits v : Forall is_byte p → 0 ≤ off → 0 ≤ bits → off + bits ≤ 8 * zlen p →
  ∃ p', setUnsignedBitfield p off bits v = Some p' ∧ length p' = length p ∧ Forall is_byte p' ∧ ∀ i, 0 ≤ i → bitat p' i = set_field (bitat p) off bits v i.
Proof. intros Hp H0 Hb Hl. unfold setUnsignedBitfield. destruct (set_bits_spec (Z.to_nat bits) p off v) as (p' & E & H1 & H2 & H3); [done|done|lia|]. rewrite Z2Nat.id in H3 by lia. by exists p'. Qed.
Lemma setSigned_spec p off bits v : Forall is_byte p → 0 ≤ off → 0 ≤ bits ≤ 64 → off + bits ≤ 8 * zlen p →
  ∃ p', setSignedBitfield p off bits v = Some p' ∧ length p' = length p ∧ Forall is_byte p' ∧ ∀ i, 0 ≤ i → bitat p' i = set_field (bitat p) off bits v i.
Proof.
  intros Hp H0 Hb Hl. unfold setSignedBitfield. destruct (setUnsigned_spec p off bits (u64 v)) as (p' & E & H1 & H2 & H3); [done|done|lia|done|]. exists p'. split_and!; [done..|]. intros i Hi. rewrite H3 by done.
  unfold set_field. destruct (Z.leb_spec off i), (Z.ltb_spec i (off + bits)); cbn [andb]; try done. unfold wrapu. apply Z.mod_pow2_bits_low. lia.
Qed.

(** ** Overflow *)

(** What the two checks answer: 0 if the sum [v] fits, else a nonzero number
    and the value to store. *)
Definition checked (ow : owtype) (sign : bool) (bits v : Z) (r : Z * option Z) : Prop :=
  (fits_type sign bits v ∧ r = (0, None)) ∨ (¬ fits_type sign bits v ∧ fst r ≠ 0 ∧ snd r = overflowed ow sign bits v).

Lemma mod_mod_pow v bits : 1 ≤ bits ≤ 64 → (v mod 2 ^ 64) mod 2 ^ bits = v mod 2 ^ bits.
Proof.
  intros Hb. destruct (pow_range bits Hb) as (_ & H & E). apply Z.mod_mod_divide. exists (2 ^ (64 - bits)). lia.
Qed.
Lemma unsigned_wrap bits v : 1 ≤ bits ≤ 64 → Z.land (u64 v) (u64 (Z.lnot (u64 (Z.shiftl UINT64_MAX bits)))) = wrap_type false bits v.
Proof. intros Hb. rewrite low_mask, Z.land_ones by lia. unfold wrap_type, wrapu. by apply mod_mod_pow. Qed.
Lemma overflowed_up ow sign bits v : 1 ≤ bits → type_max sign bits < v → overflowed ow sign bits v =
  match ow with BFOVERFLOW_WRAP => Some (wrap_type sign bits v) | BFOVERFLOW_SAT => Some (type_max sign bits) | BFOVERFLOW_FAIL => None end.
Proof. intros Hb Hv. unfold overflowed. rewrite decide_False by (unfold fits_type; lia). destruct ow; try done. by rewrite (proj2 (Z.gtb_gt _ _)) by lia. Qed.
Lemma type_order sign bits : 1 ≤ bits → type_min sign bits ≤ type_max sign bits.
Proof. intros Hb. unfold type_min, type_max. assert (1 ≤ 2 ^ bits) by (apply (Z.pow_le_mono_r 2 0); lia). assert (1 ≤ 2 ^ (bits - 1)) by (apply (Z.pow_le_mono_r 2 0); lia). destruct sign; lia. Qed.
Lemma overflowed_down ow sign bits v : 1 ≤ bits → v < type_min sign bits → overflowed ow sign bits v =
  match ow with BFOVERFLOW_WRAP => Some (wrap_type sign bits v) | BFOVERFLOW_SAT => Some (type_min sign bits) | BFOVERFLOW_FAIL => None end.
Proof.
  intros Hb Hv. pose proof (type_order sign bits Hb). unfold overflowed. rewrite decide_False by (unfold fits_type; lia). destruct ow; try done. destruct (Z.gtb_spec v (type_max sign bits)); [lia|done].
Qed.
Lemma checkUnsigned_spec value incr bits ow : 1 ≤ bits ≤ 63 → 0 ≤ value < 2 ^ 64 → sfits 64 incr → value ≤ type_max false bits ∨ incr = 0 →
  checked ow false bits (value + incr) (checkUnsignedBitfieldOverflow value incr bits ow).
Proof.
  intros Hb Hv Hi Hor. unfold checkUnsignedBitfieldOverflow. destruct (Z.eqb_spec bits 64); [lia|]. rewrite unsigned_wrap, Z.shiftl_1_l by lia.
  destruct (pow_range bits ltac:(lia)) as (E1 & H1 & _). assert (Hp : 2 ^ bits ≤ 2 ^ 63) by (apply Z.pow_le_mono_r; lia). rewrite wrapu_small by lia.
  unfold sfits in Hi. change (2 ^ (64 - 1)) with (2 ^ 63) in Hi. unfold checked, fits_type. change (type_min false bits) with 0. change (type_max false bits) with (2 ^ bits - 1) in *.
  assert (Em : value ≤ 2 ^ bits - 1 → s64 (u64 (2 ^ bits - 1 - value)) = 2 ^ bits - 1 - value ∧ s64 (u64 (- value)) = - value).
  { intros Hle. split.
    - rewrite wrapu_small by lia. apply wraps_id; lia.
    - transitivity (s64 (- value)); [|apply wraps_id; lia]. apply wraps_cong; [lia|]. unfold wrapu. by rewrite Z.mod_mod by lia. }
  destruct (Z.gtb_spec value (2 ^ bits - 1)) as [Hgt|Hle]; cbn [orb].
  { right. split; [lia|]. rewrite (overflowed_up ow false) by (change (type_max false bits) with (2 ^ bits - 1); lia). by destruct ow. }
  destruct (Em Hle) as [-> ->]. destruct (Z.gtb_spec incr 0), (Z.gtb_spec incr (2 ^ bits - 1 - value)); cbn [andb]; try lia.
  - right. split; [lia|]. rewrite (overflowed_up ow false) by (change (type_max false bits) with (2 ^ bits - 1); lia). by destruct ow.
  - destruct (Z.ltb_spec incr 0); [lia|]. left. split; [lia|done].
  - destruct (Z.ltb_spec incr 0), (Z.ltb_spec incr (- value)); cbn [andb]; [|left; split; [lia|done]..]. right. split; [lia|].
    rewrite (overflowed_down ow false) by (change (type_min false bits) with 0; lia). by destruct ow.
Qed.

Lemma signed_wrap bits value incr : 1 ≤ bits ≤ 64 →
  (let c := u64 (u64 value + u64 incr) in
   s64 (if bits <? 64 then
          if negb (Z.land c (Z.shiftl 1 (bits - 1)) =? 0) then Z.lor c (u64 (Z.shiftl UINT64_MAX bits)) else Z.land c (u64 (Z.lnot (u64 (Z.shiftl UINT64_MAX bits))))
        else c)) = wraps bits (value + incr).
Proof.
  intros Hb. cbv zeta. set (c := u64 (u64 value + u64 incr)). assert (Hc : 0 ≤ c < 2 ^ 64) by (apply Z.mod_pos_bound; lia).
  assert (Em : c mod 2 ^ bits = (value + incr) mod 2 ^ bits) by (unfold c, wrapu; rewrite <- Z.add_mod by lia; by apply mod_mod_pow).
  rewrite <- (wraps_cong bits c _ Hb Em). destruct (Z.ltb_spec bits 64) as [Hlt|Hge]; [|by replace bits with 64 by lia]. rewrite land_bit by lia.
  destruct (Z.testbit c (bits - 1)) eqn:Et; [apply extend_high; done || lia|]. rewrite low_mask, Z.land_ones, (wraps_bit bits c), Et, Z.sub_0_r by lia.
  destruct (pow_range bits Hb) as (E1 & H1 & _). assert (2 ^ bits ≤ 2 ^ 63) by (apply Z.pow_le_mono_r; lia). pose proof (Z.mod_pos_bound c (2 ^ bits) ltac:(lia)). apply wraps_id; lia.
Qed.
Lemma signed_limits bits value : 1 ≤ bits ≤ 64 → fits_type true bits value →
  (bits < 64 ∨ 0 ≤ value → s64 (u64 (type_max true bits - value)) = type_max true bits - value) ∧
  (bits < 64 ∨ value < 0 → s64 (type_min true bits - value) = type_min true bits - value).
Proof.
  unfold fits_type, type_min, type_max. intros Hb Hv. destruct (pow_range bits Hb) as (E1 & H1 & _). assert (2 ^ (bits - 1) ≤ 2 ^ 63) by (apply Z.pow_le_mono_r; lia).
  assert (bits < 64 → 2 ^ bits ≤ 2 ^ 63) by (intros; apply Z.pow_le_mono_r; lia). split; intros Hor.
  - rewrite wrapu_small by lia. apply wraps_id; [lia|]. change (2 ^ (64 - 1)) with (2 ^ 63). lia.
  - apply wraps_id; [lia|]. change (2 ^ (64 - 1)) with (2 ^ 63). lia.
Qed.
(** The increment of a value of the type. *)
Lemma checkSigned_incr value incr bits ow : 1 ≤ bits ≤ 64 → sfits 64 incr → fits_type true bits value →
  checked ow true bits (value + incr) (checkSignedBitfieldOverflow value incr bits ow).
Proof.
  intros Hb Hi Hf. unfold checkSignedBitfieldOverflow. pose proof (signed_wrap bits value incr Hb) as Ew. cbv zeta in *. rewrite Ew. clear Ew. destruct (signed_limits bits value Hb Hf) as [Emax Emin].
  assert (EM : (if bits =? 64 then INT64_MAX else Z.shiftl 1 (bits - 1) - 1) = type_max true bits) by (rewrite Z.shiftl_1_l; destruct (Z.eqb_spec bits 64) as [->|]; done). rewrite EM.
  replace (- type_max true bits - 1) with (type_min true bits) by (unfold type_min, type_max; lia). change (wraps bits (value + incr)) with (wrap_type true bits (value + incr)). clear EM.
  pose proof (type_order true bits ltac:(lia)) as Ho. unfold fits_type in Hf. destruct (Z.gtb_spec value (type_max true bits)); [lia|]. destruct (Z.ltb_spec value (type_min true bits)); [lia|]. cbn [orb].
  assert (E64 : bits = 64 → type_max true bits = 2 ^ 63 - 1 ∧ type_min true bits = - 2 ^ 63) by (by intros ->). unfold sfits in Hi. change (2 ^ (64 - 1)) with (2 ^ 63) in Hi. unfold checked, fits_type.
  assert (E1 : negb (bits =? 64) && (incr >? s64 (u64 (type_max true bits - value))) || (value >=? 0) && (incr >? 0) && (incr >? s64 (u64 (type_max true bits - value))) = (value + incr >? type_max true bits)).
  { destruct (Z.eqb_spec bits 64) as [H64|H64]; cbn [negb andb orb].
    - destruct (Z.geb_spec value 0); cbn [andb].
      + rewrite Emax by lia. destruct (Z.gtb_spec incr 0), (Z.gtb_spec incr (type_max true bits - value)), (Z.gtb_spec (value + incr) (type_max true bits)); cbn [andb]; done || lia.
      + destruct (Z.gtb_spec (value + incr) (type_max true bits)); [lia|done].
    - rewrite Emax by lia. destruct (Z.gtb_spec incr (type_max true bits - value)), (Z.gtb_spec (value + incr) (type_max true bits)); cbn [orb andb]; rewrite ?andb_false_r; done || lia. }
  assert (E2 : negb (bits =? 64) && (incr <? s64 (type_min true bits - value)) || (value <? 0) && (incr <? 0) && (incr <? s64 (type_min true bits - value)) = (value + incr <? type_min true bits)).
  { destruct (Z.eqb_spec bits 64) as [H64|H64]; cbn [negb andb orb].
    - destruct (Z.ltb_spec value 0); cbn [andb].
      + rewrite Emin by lia. destruct (Z.ltb_spec incr 0), (Z.ltb_spec incr (type_min true bits - value)), (Z.ltb_spec (value + incr) (type_min true bits)); cbn [andb]; done || lia.
      + destruct (Z.ltb_spec (value + incr) (type_min true bits)); [lia|done].
    - rewrite Emin by lia. destruct (Z.ltb_spec incr (type_min true bits - value)), (Z.ltb_spec (value + incr) (type_min true bits)); cbn [orb andb]; rewrite ?andb_false_r; done || lia. }
  rewrite E1, E2. destruct (Z.gtb_spec (value + incr) (type_max true bits)).
  { right. split; [lia|]. rewrite overflowed_up by lia. by destruct ow. }
  destruct (Z.ltb_spec (value + incr) (type_min true bits)); [|left; split; [lia|done]].
  right. split; [lia|]. rewrite overflowed_down by lia. by destruct ow.
Qed.
Lemma checked_result ow sign bits v overflow wrapped : checked ow sign bits v (overflow, wrapped) →
  match overflowed ow sign bits v with
  | Some new => negb (overflow =? 0) && match ow with BFOVERFLOW_FAIL => true | _ => false end = false ∧ (if negb (overflow =? 0) then default 0 wrapped else v) = new
  | None => negb (overflow =? 0) && match ow with BFOVERFLOW_FAIL => true | _ => false end = true
  end.
Proof.
  intros [[Hf [= -> ->]]|(Hf & Hne & E)]; cbn [fst snd] in *.
  - unfold overflowed. by rewrite decide_True by done.
  - rewrite E. rewrite (proj2 (Z.eqb_neq _ _) Hne). unfold overflowed. rewrite decide_False by done. by destruct ow.
Qed.
(** The check of a value to be set. *)
Lemma checkSigned_set value bits ow : 1 ≤ bits ≤ 64 → sfits 64 value → (ow = BFOVERFLOW_SAT → far_below true bits value = false) →
  checked ow true bits value (checkSignedBitfieldOverflow value 0 bits ow).
Proof.
  intros Hb Hv Hs. destruct (decide (fits_type true bits value)) as [Hf|Hf].
  { pose proof (checkSigned_incr value 0 bits ow Hb ltac:(done) Hf) as H. by rewrite Z.add_0_r in H. }
  unfold sfits in Hv. change (2 ^ (64 - 1)) with (2 ^ 63) in Hv. assert (H64 : bits ≠ 64) by (intros ->; apply Hf; unfold fits_type, type_min, type_max; lia).
  right. split; [done|]. unfold checkSignedBitfieldOverflow. pose proof (signed_wrap bits value 0 Hb) as Ew. cbv zeta in *. rewrite Ew, Z.add_0_r. clear Ew. destruct (Z.eqb_spec bits 64); [done|]. rewrite Z.shiftl_1_l. change (2 ^ (bits - 1) - 1) with (type_max true bits).
  replace (- type_max true bits - 1) with (type_min true bits) by (unfold type_min, type_max; lia). change (wraps bits value) with (wrap_type true bits value). cbn [negb andb].
  unfold fits_type in Hf. destruct (Z.gtb_spec value (type_max true bits)) as [Hup|Hdn]; cbn [orb].
  { rewrite overflowed_up by lia. by destruct ow. }
  rewrite overflowed_down by lia. destruct (Z.ltb_spec value (type_min true bits)); [|lia]. cbn [orb]. assert (Hl : value < 0) by (pose proof (pow_range bits Hb); unfold type_min in *; lia).
  destruct (Z.geb_spec value 0); [lia|]. cbn [andb]. rewrite orb_false_r. destruct ow; [by destruct (_ >? _)| |by destruct (_ >? _)].
  specialize (Hs eq_refl). unfold far_below in Hs. destruct (Z.ltb_spec bits 64); [|lia]. cbn [andb] in Hs. apply Z.ltb_ge in Hs. assert (E : s64 (u64 (type_max true bits - value)) = type_max true bits - value).
  { unfold type_max in *. rewrite wrapu_small by lia. apply wraps_id; [lia|]. change (2 ^ (64 - 1)) with (2 ^ 63). lia. }
  rewrite E. destruct (Z.gtb_spec 0 (type_max true bits - value)); [lia|done].
Qed.
(** A value far below the type saturates at the maximum. *)
Lemma checkSigned_far value bits : 1 ≤ bits ≤ 64 → sfits 64 value → far_below true bits value = true → checkSignedBitfieldOverflow value 0 bits BFOVERFLOW_SAT = (1, Some (type_max true bits)).
Proof.
  intros Hb Hv [Hlt Hfar%Z.ltb_lt]%andb_true_iff. cbn [andb] in Hlt. apply Z.ltb_lt in Hlt. unfold sfits in Hv. change (2 ^ (64 - 1)) with (2 ^ 63) in Hv. destruct (pow_range bits Hb) as (_ & H1 & _).
  assert (2 ^ (bits - 1) ≤ 2 ^ 62) by (apply Z.pow_le_mono_r; lia). unfold checkSignedBitfieldOverflow. cbv zeta. destruct (Z.eqb_spec bits 64); [lia|]. rewrite Z.shiftl_1_l. change (2 ^ (bits - 1) - 1) with (type_max true bits).
  assert (E : s64 (u64 (type_max true bits - value)) = type_max true bits - value - 2 ^ 64).
  { unfold type_max. rewrite wrapu_small by lia. unfold wraps. change (2 ^ (64 - 1)) with (2 ^ 63). rewrite <- (Z.mod_unique (2 ^ (bits - 1) - 1 - value + 2 ^ 63) (2 ^ 64) 1 (2 ^ (bits - 1) - 1 - value - 2 ^ 63)) by lia. lia. }
  rewrite E. cbn [negb andb]. destruct (Z.gtb_spec 0 (type_max true bits - value - 2 ^ 64)); [by rewrite orb_true_r|]. unfold type_max in *. lia.
Qed.
Lemma set_saturates_wrong : checkSignedBitfieldOverflow INT64_MIN 0 8 BFOVERFLOW_SAT = (1, Some 127).
Proof. by apply checkSigned_far. Qed.
Lemma checkSigned_set_value value bits ow overflow wrapped : 1 ≤ bits ≤ 64 → sfits 64 value → checkSignedBitfieldOverflow value 0 bits ow = (overflow, wrapped) →
  match set_value ow true bits value with
  | Some new => negb (overflow =? 0) && match ow with BFOVERFLOW_FAIL => true | _ => false end = false ∧ (if negb (overflow =? 0) then default 0 wrapped else value) = new
  | None => negb (overflow =? 0) && match ow with BFOVERFLOW_FAIL => true | _ => false end = true
  end.
Proof.
  intros Hb Hv E. unfold set_value. assert (Hc : (ow = BFOVERFLOW_SAT → far_below true bits value = false) → checked ow true bits value (overflow, wrapped)) by (intros; rewrite <- E; by apply checkSigned_set).
  destruct ow; [by apply checked_result, Hc| |by apply checked_result, Hc]. destruct (far_below true bits value) eqn:Ef; [|by apply checked_result, Hc].
  rewrite checkSigned_far in E by done. by injection E as <- <-.
Qed.

(** ** One operation *)

(** The value of a field in a string that represents [f]. *)
Lemma fval_bitat s f off n : 0 ≤ off → (∀ i, 0 ≤ i → bitat s i = f i) → fval (bitat s) off n = fval f off n.
Proof. intros H0 Hf. apply fval_ext. intros i Hi. apply Hf. lia. Qed.
Lemma old_fits sign f off bits : 1 ≤ bits ≤ 64 → fits_type sign bits (wrap_type sign bits (fval f off (Z.to_nat bits))).
Proof. apply wrap_type_fits. Qed.
Lemma set_field_ext f g off bits v i : f i = g i → set_field f off bits v i = set_field g off bits v i.
Proof. intros E. unfold set_field. by rewrite E. Qed.

(** What an operation does to a string that represents [f]. *)
Definition op_done (s : list Z) (f : Z → bool) (op : bitfieldOp) (r : option (list Z * option Z * bool)) : Prop :=
  ∃ s' ch, r = Some (s', snd (op_spec f op), ch) ∧ length s' = length s ∧ Forall is_byte s' ∧ ∀ i, 0 ≤ i → bitat s' i = fst (op_spec f op) i ∧ (ch = false → bitat s' i = bitat s i).

(** Writing the value a field has changes nothing. *)
Lemma fval_testbit f off n k : 0 ≤ k < Z.of_nat n → Z.testbit (fval f off n) k = f (off + (Z.of_nat n - 1 - k)).
Proof.
  revert off. induction n as [|n IH]; intros off Hk; [lia|]. cbn [fval]. pose proof (fval_range f (off + 1) n) as Hr. rewrite Z.add_comm, <- lor_shiftl_add, Z.lor_spec by lia. destruct (decide (k = Z.of_nat n)) as [->|Hne].
  - rewrite (testbit_high _ (Z.of_nat n)), Z.shiftl_spec, Z.sub_diag by lia. replace (off + _) with off by lia. by destruct (f off).
  - rewrite IH, Z.shiftl_spec_low, orb_false_r by lia. f_equal. lia.
Qed.
Lemma testbit_wrap sign bits v k : 1 ≤ bits ≤ 64 → 0 ≤ k < bits → Z.testbit (wrap_type sign bits v) k = Z.testbit v k.
Proof.
  intros Hb Hk. destruct sign; unfold wrap_type; [|unfold wrapu; by rewrite Z.mod_pow2_bits_low by lia]. rewrite wraps_bit by lia.
  transitivity (Z.testbit (v mod 2 ^ bits) k); [|by rewrite Z.mod_pow2_bits_low by lia]. destruct (Z.testbit v (bits - 1)); [|by rewrite Z.sub_0_r].
  rewrite <- (Z.mod_pow2_bits_low _ bits) by lia. f_equal. rewrite <- (Z.mod_add _ 1), Z.mul_1_l, Z.sub_add, Z.mod_mod by lia. done.
Qed.
Lemma set_field_same sign f off bits i : 1 ≤ bits ≤ 64 → set_field f off bits (wrap_type sign bits (fval f off (Z.to_nat bits))) i = f i.
Proof.
  intros Hb. unfold set_field. destruct (Z.leb_spec off i), (Z.ltb_spec i (off + bits)); cbn [andb]; try done. rewrite testbit_wrap, fval_testbit by lia. f_equal. lia.
Qed.

(** The end of SET and INCRBY. *)
Lemma write_done sign s f off bits old new dirty p' : 1 ≤ bits ≤ 64 → old = wrap_type sign bits (fval f off (Z.to_nat bits)) → (∀ i, 0 ≤ i → bitat s i = f i) →
  (∀ i, 0 ≤ i → bitat p' i = set_field (bitat s) off bits new i) → ∀ i, 0 ≤ i → bitat p' i = set_field f off bits new i ∧ (dirty || negb (old =? new) = false → bitat p' i = bitat s i).
Proof.
  intros Hb Eo Hf Hp i Hi. rewrite Hp, (set_field_ext _ f) by auto. split; [done|]. intros [_ E%negb_false_iff%Z.eqb_eq]%orb_false_iff. rewrite <- E, Eo, set_field_same by done. by symmetry; apply Hf.
Qed.

Ltac write_field Eold Hc set_spec :=
  match type of Hc with
  | match ?stored with Some _ => _ | None => _ end =>
      destruct stored as [new|]; [|rewrite Hc; by eexists _, false; split_and!; auto];
      destruct Hc as [-> ->];
      match goal with |- context [set_field _ ?off ?bits new] =>
        match goal with Hs : Forall is_byte ?s |- _ =>
          destruct (set_spec s off bits new) as (p' & -> & Hlen & Hby & Hbits); [done|done|lia|done|]; cbn [mbind option_bind];
          eexists p', _; split_and!; [done..|]; eapply write_done; [lia|exact Eold|done..]
        end
      end
  end.
Lemma signed_op_spec s dirty op f : Forall is_byte s → op_parsed op → bf_sign op = true → bf_opcode op ≠ BITFIELDOP_GET → bf_offset op + bf_bits op ≤ 8 * zlen s →
  (∀ i, 0 ≤ i → bitat s i = f i) → op_done s f op (signed_op s dirty op).
Proof.
  intros Hs (H0 & Hb & Hi) Esg Eop Hl Hf. rewrite Esg in Hb. unfold signed_op. rewrite getSigned_spec by done. cbn [mbind option_bind]. rewrite (fval_bitat s f) by done.
  pose proof (old_fits true f (bf_offset op) (bf_bits op) Hb) as Hold. unfold op_done, op_spec. rewrite Esg. change (wraps (bf_bits op) ?x) with (wrap_type true (bf_bits op) x). set (old := wrap_type _ _ _) in *. assert (Eold : old = wrap_type true (bf_bits op) (fval f (bf_offset op) (Z.to_nat (bf_bits op)))) by done.
  destruct (bf_opcode op); [done| |].
  - destruct (checkSignedBitfieldOverflow (bf_i64 op) 0 _ _) as [overflow wrapped] eqn:Ec. pose proof (checkSigned_set_value _ _ _ _ _ Hb Hi Ec) as Hc. write_field Eold Hc setSigned_spec.
  - pose proof (checkSigned_incr old (bf_i64 op) (bf_bits op) (bf_owtype op) Hb Hi Hold) as Hc.
    destruct (checkSignedBitfieldOverflow _ _ _ _) as [overflow wrapped]. apply checked_result in Hc. write_field Eold Hc setSigned_spec.
Qed.
Lemma unsigned_op_spec s dirty op f : Forall is_byte s → op_parsed op → bf_sign op = false → bf_opcode op ≠ BITFIELDOP_GET → bf_offset op + bf_bits op ≤ 8 * zlen s →
  (∀ i, 0 ≤ i → bitat s i = f i) → op_done s f op (unsigned_op s dirty op).
Proof.
  intros Hs (H0 & Hb & Hi) Esg Eop Hl Hf. rewrite Esg in Hb. unfold unsigned_op. rewrite getUnsigned_spec by lia. cbn [mbind option_bind]. rewrite (fval_bitat s f) by done.
  pose proof (old_fits false f (bf_offset op) (bf_bits op) ltac:(lia)) as Hold. unfold op_done, op_spec. rewrite Esg.
  assert (Eold : wrap_type false (bf_bits op) (fval f (bf_offset op) (Z.to_nat (bf_bits op))) = fval f (bf_offset op) (Z.to_nat (bf_bits op))).
  { unfold wrap_type. apply wrapu_small. pose proof (fval_range f (bf_offset op) (Z.to_nat (bf_bits op))) as H. by rewrite Z2Nat.id in H by lia. }
  rewrite Eold in *. set (old := fval _ _ _) in *. assert (H64 : 2 ^ bf_bits op ≤ 2 ^ 63) by (apply Z.pow_le_mono_r; lia). unfold fits_type, type_min, type_max in Hold.
  destruct (bf_opcode op); [done| |].
  - pose proof (checkUnsigned_spec (u64 (bf_i64 op)) 0 (bf_bits op) (bf_owtype op) Hb ltac:(apply Z.mod_pos_bound; lia) ltac:(done) ltac:(by right)) as Hc. rewrite Z.add_0_r in Hc.
    destruct (checkUnsignedBitfieldOverflow _ _ _ _) as [overflow wrapped]. apply checked_result in Hc. change (set_value (bf_owtype op) false (bf_bits op) (u64 (bf_i64 op))) with (match bf_owtype op with BFOVERFLOW_SAT => overflowed (bf_owtype op) false (bf_bits op) (u64 (bf_i64 op)) | _ => overflowed (bf_owtype op) false (bf_bits op) (u64 (bf_i64 op)) end). assert (∀ ow (x : option Z), match ow with BFOVERFLOW_SAT => x | _ => x end = x) as -> by (by intros []). write_field (eq_sym Eold) Hc setUnsigned_spec.
  - pose proof (checkUnsigned_spec old (bf_i64 op) (bf_bits op) (bf_owtype op) Hb ltac:(lia) Hi ltac:(left; unfold type_max; lia)) as Hc.
    assert (Eu : fits_type false (bf_bits op) (old + bf_i64 op) → u64 (old + bf_i64 op) = old + bf_i64 op) by (unfold fits_type, type_min, type_max; intros; apply wrapu_small; lia).
    destruct (checkUnsignedBitfieldOverflow _ _ _ _) as [overflow wrapped]. assert (En : (if negb (overflow =? 0) then default 0 wrapped else u64 (old + bf_i64 op)) = if negb (overflow =? 0) then default 0 wrapped else old + bf_i64 op).
    { destruct Hc as [[Hfit _]|(_ & Hne & _)]; [by rewrite Eu|]. cbn [fst] in Hne. by rewrite (proj2 (Z.eqb_neq _ _) Hne). }
    rewrite En. apply checked_result in Hc. write_field (eq_sym Eold) Hc setUnsigned_spec.
Qed.

(** The buffer of GET holds the 9 bytes from [byte] on, zeros beyond the end. *)
Lemma copy9_spec n i buf src byte : 0 ≤ i → i + Z.of_nat n = 9 → 0 ≤ byte → length buf = 9%nat → Forall is_byte buf → Forall is_byte src →
  (∀ j, 0 ≤ j → byte_at buf j = if j <? i then byte_at src (byte + j) else 0) →
  ∃ buf', copy9 n i buf src byte = Some buf' ∧ length buf' = 9%nat ∧ ∀ j, 0 ≤ j < 9 → byte_at buf' j = byte_at src (byte + j).
Proof.
  revert i buf. induction n as [|n IH]; intros i buf Hi Hn Hb Hl Hbuf Hsrc Hj; cbn [copy9].
  { exists buf. split_and!; [done..|]. intros j Hj9. rewrite Hj by lia. destruct (Z.ltb_spec j i); [done|lia]. }
  destruct (Z.geb_spec (i + byte) (zlen src)).
  { exists buf. split_and!; [done..|]. intros j Hj9. rewrite Hj by lia. destruct (Z.ltb_spec j i); [done|]. unfold byte_at. by rewrite lookup_ge_None_2 by lia. }
  rewrite load8_byte_at by lia. cbn [mbind option_bind]. destruct (store buf i [byte_at src (i + byte)]) as [b1|] eqn:Est.
  2:{ unfold store in Est. rewrite decide_True in Est by (cbn [length]; lia). done. }
  cbn [mbind option_bind]. apply IH; [lia|lia|done| |eapply store_bytes; [exact Hbuf|by apply byte_at_byte|done]|done|].
  { by rewrite (length_store _ _ _ _ Est). }
  intros j Hj0. rewrite (byte_at_store _ _ _ _ j Hi Hj0 Est), Hj by done. destruct (Z.eqb_spec j i) as [E|], (Z.ltb_spec j i), (Z.ltb_spec j (i + 1)); try lia; try done.
  f_equal. lia.
Qed.
Lemma get_op_spec s op f : Forall is_byte s → op_parsed op → (∀ i, 0 ≤ i → bitat s i = f i) →
  get_op s op = Some (wrap_type (bf_sign op) (bf_bits op) (fval f (bf_offset op) (Z.to_nat (bf_bits op)))).
Proof.
  intros Hs (H0 & Hb & _) Hf. unfold get_op. destruct (offset_parts _ H0) as [-> _].
  destruct (copy9_spec 9 0 (replicate 9 0) s (bf_offset op / 8)) as (buf & -> & Hl & Hbuf); [done|done|dlia|done|by repeat constructor|done| |].
  { intros j Hj. destruct (Z.ltb_spec j 0); [lia|]. unfold byte_at. destruct (replicate 9 0 !! Z.to_nat j) as [x|] eqn:E; [|done]. by apply lookup_replicate in E as [-> _]. }
  cbn [mbind option_bind]. assert (Hb64 : 1 ≤ bf_bits op ≤ 64) by (destruct (bf_sign op); lia).
  assert (Ev : fval (bitat buf) (bf_offset op - bf_offset op / 8 * 8) (Z.to_nat (bf_bits op)) = fval f (bf_offset op) (Z.to_nat (bf_bits op))).
  { apply fval_shift. intros i Hi. rewrite <- Hf by lia. unfold bitat. rewrite Hbuf by dlia. f_equal; [f_equal|]; dlia. }
  rewrite <- Ev. unfold wrap_type. destruct (bf_sign op); [by apply getSigned_spec; dlia|]. rewrite getUnsigned_spec by dlia. f_equal. symmetry. apply wrapu_small.
  pose proof (fval_range (bitat buf) (bf_offset op - bf_offset op / 8 * 8) (Z.to_nat (bf_bits op))) as H. by rewrite Z2Nat.id in H by lia.
Qed.

(** ** The command *)

Definition room (s : list Z) (op : bitfieldOp) : Prop := bf_opcode op ≠ BITFIELDOP_GET → bf_offset op + bf_bits op ≤ 8 * zlen s.
Lemma bitfield_op_spec s dirty op f : Forall is_byte s → op_parsed op → room s op → (∀ i, 0 ≤ i → bitat s i = f i) → op_done s f op (bitfield_op s dirty op).
Proof.
  intros Hs Hok Hr Hf. assert (Hw : bf_opcode op ≠ BITFIELDOP_GET → op_done s f op (if bf_sign op then signed_op s dirty op else unsigned_op s dirty op)).
  { intros Hne. destruct (bf_sign op) eqn:Esg; [apply signed_op_spec|apply unsigned_op_spec]; auto. }
  unfold bitfield_op. destruct (bf_opcode op) eqn:Eo; [|by apply Hw..].
  rewrite (get_op_spec s op f) by done. cbn [mbind option_bind]. unfold op_done, op_spec. rewrite Eo. exists s, false. split_and!; auto.
Qed.
Lemma ops_room s s' ops : length s' = length s → Forall (room s) ops → Forall (room s') ops.
Proof. intros E H. eapply Forall_impl; [exact H|]. intros op. unfold room. by rewrite E. Qed.
Lemma bitfield_ops_spec ops s dirty f : Forall is_byte s → Forall op_parsed ops → Forall (room s) ops → (∀ i, 0 ≤ i → bitat s i = f i) →
  ∃ s' changes, bitfield_ops s dirty ops = Some (s', snd (ops_spec f ops), changes) ∧ length s' = length s ∧ Forall is_byte s' ∧ 0 ≤ changes ∧
    ∀ i, 0 ≤ i → bitat s' i = fst (ops_spec f ops) i ∧ (changes = 0 → bitat s' i = bitat s i).
Proof.
  revert s f. induction ops as [|op ops IH]; intros s f Hs Hok Hr Hf; cbn [bitfield_ops ops_spec].
  { exists s, 0. split_and!; [done..|]. intros i Hi. split; [by apply Hf|done]. }
  inv Hok. inv Hr. destruct (bitfield_op_spec s dirty op f) as (s1 & ch & -> & Hl1 & Hs1 & Hb1); [done..|]. cbn [mbind option_bind].
  destruct (op_spec f op) as [f1 r]. cbn [fst snd] in *. destruct (IH s1 f1) as (s2 & n & -> & Hl2 & Hs2 & Hn & Hb2); [done|done|by eapply ops_room|by intros; apply Hb1|].
  cbn [mbind option_bind]. destruct (ops_spec f1 ops) as [f2 rs]. cbn [fst snd] in *. exists s2, (if ch then n + 1 else n). split_and!; [done|lia|done|destruct ch; lia|].
  intros i Hi. destruct (Hb1 i Hi) as [E1 C1], (Hb2 i Hi) as [E2 C2]. split; [done|]. destruct ch; [lia|]. intros E0. by rewrite C2, C1.
Qed.

(** A reply is a value of the operation's type, or nothing when the operation
    may fail. *)
Definition reply_ok (op : bitfieldOp) (r : option Z) : Prop :=
  match r with
  | Some v => fits_type (bf_sign op) (bf_bits op) v
  | None => bf_opcode op ≠ BITFIELDOP_GET ∧ bf_owtype op = BFOVERFLOW_FAIL
  end.
Lemma replies_ok ops f : Forall op_parsed ops → Forall2 reply_ok ops (snd (ops_spec f ops)).
Proof.
  intros Hok. revert f. induction Hok as [|op ops (H0 & Hb & _) _ IH]; intros f; cbn [ops_spec]; [constructor|]. assert (Hb64 : 1 ≤ bf_bits op ≤ 64) by (destruct (bf_sign op); lia).
  destruct (op_spec f op) as [f1 r] eqn:E. destruct (ops_spec f1 ops) as [f2 rs] eqn:Es. cbn [snd]. constructor; [|specialize (IH f1); by rewrite Es in IH]. unfold op_spec in E. unfold reply_ok.
  pose proof (old_fits (bf_sign op) f (bf_offset op) (bf_bits op) Hb64) as Hold.
  assert (Hov : ∀ v, match overflowed (bf_owtype op) (bf_sign op) (bf_bits op) v with Some x => fits_type (bf_sign op) (bf_bits op) x | None => bf_owtype op = BFOVERFLOW_FAIL end).
  { intros v. unfold overflowed. case_decide; [done|]. pose proof (type_order (bf_sign op) (bf_bits op) ltac:(lia)). destruct (bf_owtype op); [by apply wrap_type_fits| |done]. unfold fits_type. destruct (_ >? _); lia. }
  destruct (bf_opcode op); [by injection E as <- <-| |].
  - specialize (Hov (if bf_sign op then bf_i64 op else u64 (bf_i64 op))). destruct (set_value _ _ _ _) eqn:Ev; injection E as <- <-; [done|]. split; [done|]. unfold set_value in Ev. destruct (bf_owtype op); [by rewrite Ev in Hov| |done].
    destruct (far_below _ _ _); [done|]. by rewrite Ev in Hov.
  - specialize (Hov (wrap_type (bf_sign op) (bf_bits op) (fval f (bf_offset op) (Z.to_nat (bf_bits op))) + bf_i64 op)). destruct (overflowed _ _ _ _); by injection E as <- <-.
Qed.

(** The string has room for every write. *)
Lemma highest_write_spec ops h0 : Forall op_parsed ops →
  let h := foldl (λ h op, match bf_opcode op with BITFIELDOP_GET => h | _ => Some (Z.max (default 0 h) (bf_offset op + bf_bits op - 1)) end) h0 ops in
  (∀ x, h0 = Some x → ∃ y, h = Some y ∧ x ≤ y) ∧ Forall (λ op, bf_opcode op ≠ BITFIELDOP_GET → ∃ y, h = Some y ∧ bf_offset op + bf_bits op - 1 ≤ y) ops.
Proof.
  intros Hok. revert h0. induction Hok as [|op ops Hop _ IH]; intros h0; cbn [foldl]; [split; [eauto using Z.le_refl|constructor]|].
  destruct (IH (match bf_opcode op with BITFIELDOP_GET => h0 | _ => Some (Z.max (default 0 h0) (bf_offset op + bf_bits op - 1)) end)) as [H1 H2].
  assert (Hw : bf_opcode op ≠ BITFIELDOP_GET → ∃ y, foldl (λ h op, match bf_opcode op with BITFIELDOP_GET => h | _ => Some (Z.max (default 0 h) (bf_offset op + bf_bits op - 1)) end)
    (match bf_opcode op with BITFIELDOP_GET => h0 | _ => Some (Z.max (default 0 h0) (bf_offset op + bf_bits op - 1)) end) ops = Some y ∧ Z.max (default 0 h0) (bf_offset op + bf_bits op - 1) ≤ y).
  { intros Hne. apply H1. by destruct (bf_opcode op). }
  split; [|constructor; [|done]].
  - intros x ->. destruct (bf_opcode op) eqn:Eo; [by apply H1|destruct (Hw ltac:(done)) as (y & -> & Hy); exists y; split; [done|cbn in Hy; lia]..].
  - intros Hne. destruct (Hw Hne) as (y & -> & Hy). exists y. split; [done|lia].
Qed.
Lemma highest_write_pos ops h0 h : 0 ≤ default 0 h0 →
  foldl (λ h op, match bf_opcode op with BITFIELDOP_GET => h | _ => Some (Z.max (default 0 h) (bf_offset op + bf_bits op - 1)) end) h0 ops = Some h → 0 ≤ h.
Proof. revert h0. induction ops as [|op ops IH]; intros h0 H0; cbn [foldl]; [by intros ->|]. apply IH. destruct (bf_opcode op); [done|cbn [from_option id]; lia..]. Qed.
Lemma ops_spec_reads f ops : Forall (λ op, bf_opcode op = BITFIELDOP_GET) ops → fst (ops_spec f ops) = f.
Proof. intros H. induction H as [|op ops E _ IH]; cbn [ops_spec]; [done|]. unfold op_spec. rewrite E. by destruct (ops_spec f ops). Qed.
Lemma byte_at_pad s n i : byte_at (s ++ replicate n 0) i = byte_at s i.
Proof.
  unfold byte_at. destruct (decide (Z.to_nat i < length s)%nat); [by rewrite lookup_app_l by done|]. rewrite lookup_app_r, (lookup_ge_None_2 s) by lia.
  destruct (replicate n 0 !! _) as [x|] eqn:E; [|done]. by apply lookup_replicate in E as [-> _].
Qed.
(** Growing a string does not change its bits. *)
Lemma lookup_for_bit o maxbit : 0 ≤ maxbit → Forall is_byte (default [] o) →
  ∃ s dirty, lookupStringForBitCommand o maxbit = (s, dirty) ∧ Forall is_byte s ∧ zlen s = Z.max (zlen (default [] o)) (maxbit / 8 + 1) ∧ (∀ i, bitat s i = bitat (default [] o) i) ∧
    (dirty = false → o = Some s).
Proof.
  intros Hm Hs. destruct (offset_parts maxbit Hm) as [E _]. unfold lookupStringForBitCommand. rewrite E. clear E. assert (Hb : 0 ≤ maxbit / 8) by dlia. set (b := maxbit / 8) in *. clearbody b.
  destruct o as [s|]; cbn [from_option id] in *; eexists _, _; (split; [reflexivity|]); split_and!.
  - apply Forall_app. split; [done|]. by apply Forall_replicate.
  - rewrite length_app, length_replicate. lia.
  - intros i. unfold bitat. by rewrite byte_at_pad.
  - destruct (Z.geb_spec (zlen s) (b + 1)); [|done]. intros _. replace (Z.to_nat (b + 1) - length s)%nat with 0%nat by lia. by rewrite app_nil_r.
  - by apply Forall_replicate.
  - rewrite length_replicate. cbn [length]. lia.
  - intros i. unfold bitat. by rewrite <- (app_nil_l (replicate _ _)), byte_at_pad.
  - done.
Qed.

Lemma bitfieldGeneric_spec o ops : Forall is_byte (default [] o) → Forall op_parsed ops →
  ∃ o' changes, bitfieldGeneric o ops = Some (o', snd (ops_spec (bitat (default [] o)) ops), changes) ∧ Forall is_byte (default [] o') ∧
    (∀ i, 0 ≤ i → bitat (default [] o') i = fst (ops_spec (bitat (default [] o)) ops) i ∧ (changes = 0 → bitat (default [] o') i = bitat (default [] o) i)) ∧
    match highest_write ops with None => o' = o | Some h => zlen (default [] o') = Z.max (zlen (default [] o)) (h / 8 + 1) end.
Proof.
  intros Hs Hok. pose proof (highest_write_spec ops None Hok) as [_ Hw]. unfold bitfieldGeneric. fold (highest_write ops) in Hw. destruct (highest_write ops) as [h|] eqn:Eh.
  - assert (Hh : 0 ≤ h) by (by apply (highest_write_pos ops None)).
    destruct (lookup_for_bit o h Hh Hs) as (s & dirty & -> & Hby & Hl & Hb & _). destruct (bitfield_ops_spec ops s dirty (bitat (default [] o))) as (s' & n & -> & Hl' & Hby' & _ & Hb'); [done|done| |by intros; apply Hb|].
      { eapply Forall_impl; [exact Hw|]. intros op Hop Hne. destruct (Hop Hne) as (y & [= <-] & Hy). rewrite Hl. dlia. }
      cbn [mbind option_bind]. exists (Some s'), n. cbn [from_option id]. split_and!; [done|done| |lia]. intros i Hi. destruct (Hb' i Hi) as [E1 E2]. split; [done|]. intros E. by rewrite E2, Hb.
  - destruct (bitfield_ops_spec ops (default [] o) false (bitat (default [] o))) as (s' & n & -> & _ & _ & Hn & Hb'); [done|done| |done|].
    { eapply Forall_impl; [exact Hw|]. intros op Hop Hne. by destruct (Hop Hne) as (y & ? & _). }
    assert (Hr : fst (ops_spec (bitat (default [] o)) ops) = bitat (default [] o)).
    { apply ops_spec_reads. eapply Forall_impl; [exact Hw|]. intros op Hop. cbv beta in *. destruct (bf_opcode op); [done|by destruct (Hop ltac:(done)) as (y & ? & _)..]. }
    cbn [mbind option_bind]. exists o, n. split_and!; [done|done| |done]. intros i Hi. destruct (Hb' i Hi) as [E1 E2]. split; [by rewrite Hr|done].
Qed.

(** C20: BITFIELD reads, sets and increments integers in an unbounded array of
    bits: for every string (or missing key) and every list of operations the
    parser delivers (signed widths up to 64, unsigned ones up to 63), the command
    has a result, its replies and the bits of the new string are those of the
    operations of the specification performed in order (wrapping, saturating or
    failing operations on values outside of their type, GET beyond the end
    reading zeros).  Saturation has the one exception that the specification
    states ([set_value]): SET of a signed value below -2^63 + 2^(bits-1) in fewer
    than 64 bits stores the maximum of the type, not the minimum.  Commands that only read leave the key as it is, the others
    extend the string just to the highest bit they may write, and when no change
    is counted no bit has changed. *)
Theorem bitfield_refines o ops : Forall is_byte (default [] o) → Forall op_parsed ops →
  ∃ o' changes, bitfieldGeneric o ops = Some (o', snd (ops_spec (bitat (default [] o)) ops), changes) ∧
    (∀ i, 0 ≤ i → bitat (default [] o') i = fst (ops_spec (bitat (default [] o)) ops) i) ∧
    (changes = 0 → ∀ i, 0 ≤ i → bitat (default [] o') i = bitat (default [] o) i) ∧
    match highest_write ops with None => o' = o | Some h => zlen (default [] o') = Z.max (zlen (default [] o)) (h / 8 + 1) end.
Proof.
  intros Hs Hok. destruct (bitfieldGeneric_spec o ops Hs Hok) as (o' & n & E & _ & Hb & Hl). exists o', n. split_and!; [done| | |done].
  - intros i Hi. by apply Hb.
  - intros Hn i Hi. by apply Hb.
Qed.

(** What the parser accepts is well formed. *)
Lemma bitfield_type_ok p sign bits : getBitfieldTypeFromArgument p = Some (sign, bits) → 1 ≤ bits ≤ (if sign then 64 else 63).
Proof.
  unfold getBitfieldTypeFromArgument. destruct p as [|c p]; [done|]. intros H. obind H. destruct ((_ || _) || _) eqn:Eo; [done|]. injection H as <- <-.
  apply orb_false_iff in Eo as [[E1 E2]%orb_false_iff E3]. destruct x; cbn [andb negb] in *; lia.
Qed.
Lemma bit_offset_ok p hash bits max_len obey off : getBitOffsetFromArgument p hash bits max_len obey = Some off → 0 ≤ off ∧ (obey = false → off / 8 < max_len).
Proof.
  unfold getBitOffsetFromArgument. intros H. obind H. destruct (_ || _) eqn:Eo; [done|]. injection H as <-. apply orb_false_iff in Eo as [E1 E2]. apply Z.ltb_ge in E1. split; [done|].
  intros ->. cbn [negb andb] in E2. rewrite Z.shiftr_div_pow2 in E2 by lia. change (2 ^ 3) with 8 in E2. lia.
Qed.
Lemma parse_ops_ok fuel args ow max_len obey ops : parse_ops fuel args ow max_len obey = Some ops → Forall op_parsed ops ∧ Forall (op_bounded max_len obey) ops.
Proof.
  revert args ow ops. induction fuel as [|fuel IH]; intros [|subcmd args] ow ops; cbn [parse_ops]; [intros [= <-]; by split|done|intros [= <-]; by split|].
  destruct (_ && _); intros H; obind H; [eauto|]. destruct x1 as [sign bits]. obind H. injection H as <-. edestruct IH as [Hp Hb]; [eassumption|]. apply bit_offset_ok in E3 as [H0 Hlim].
  split; constructor; [|done|done|done]. unfold op_parsed. cbn [bf_offset bf_bits bf_sign bf_i64]. pose proof (bitfield_type_ok _ _ _ E1). split_and!; [done|lia..|].
  destruct x; [injection E4 as <-; done|..]; obind E4; by apply string2ll_sound in E4 as [? _].
Qed.
(** The limit on the offsets bounds the string. *)
Lemma highest_write_bound ops h0 h b : Forall op_parsed ops → Forall (λ op, bf_offset op / 8 < b) ops → (∀ x, h0 = Some x → x / 8 < b + 8) →
  foldl (λ h op, match bf_opcode op with BITFIELDOP_GET => h | _ => Some (Z.max (default 0 h) (bf_offset op + bf_bits op - 1)) end) h0 ops = Some h → h / 8 < b + 8.
Proof.
  intros Hp. revert h0. induction Hp as [|op ops (H0 & Hbits & _) _ IH]; intros h0 Hb Hh; cbn [foldl]; [by apply Hh|]. apply Forall_cons in Hb as [Hb Hbs]. apply IH; [done|].
  assert (Hbits' : bf_bits op ≤ 64) by (destruct (bf_sign op); lia). assert (Hnew : ∀ x, Some (Z.max (default 0 h0) (bf_offset op + bf_bits op - 1)) = Some x → x / 8 < b + 8).
  { intros x [= <-]. destruct h0 as [x0|]; cbn [from_option id]; [specialize (Hh x0 eq_refl)|]; dlia. }
  destruct (bf_opcode op); done.
Qed.

(** C27: BITFIELD from its arguments, for all arguments that are not rejected:
    the operations have valid types (signed of 1 to 64 bits, unsigned of 1 to 63),
    values of 64 bits and offsets below the limit on the length of strings (the
    limit does not apply to a client that must be obeyed).  The command has a
    result; there is one reply per operation, an integer of the type of the
    operation (in [-2^(bits-1), 2^(bits-1)-1] for a signed type, in [0, 2^bits-1]
    for an unsigned one), and only a SET or INCRBY with OVERFLOW FAIL may have an
    empty one.  The string still consists of bytes, and does not grow by more than
    8 bytes beyond the limit. *)
Theorem bitfield_typed o args ops max_len obey : Forall is_byte (default [] o) →
  parse_ops (length args) args BFOVERFLOW_WRAP max_len obey = Some ops →
  Forall op_parsed ops ∧ Forall (op_bounded max_len obey) ops ∧
  ∃ o' replies changes, bitfieldCommand false o args max_len obey = Some (o', replies, changes) ∧ Forall2 reply_ok ops replies ∧ Forall is_byte (default [] o') ∧
    (obey = false → zlen (default [] o') ≤ Z.max (zlen (default [] o)) (max_len + 8)).
Proof.
  intros Hs Hp. destruct (parse_ops_ok _ _ _ _ _ _ Hp) as [Hok Hlim]. split; [done|]. split; [done|].
  destruct (bitfieldGeneric_spec o ops Hs Hok) as (o' & n & E & Hby & _ & Hl). eexists o', _, n. split_and!; [|by apply replies_ok|done|].
  - unfold bitfieldCommand. rewrite Hp. exact E.
  - intros Hobey. destruct (highest_write ops) as [h|] eqn:Eh; [|rewrite Hl; lia]. rewrite Hl. assert (h / 8 < max_len + 8); [|lia].
    apply (highest_write_bound ops None h); [done|eapply Forall_impl; [exact Hlim|]; intros op Hop; by apply Hop|done|exact Eh].
Qed.

(** BITFIELD on the bytes 0x64 0xff. *)
Definition sample_args : list (list Z) :=
  bytes_of <$> ["OVERFLOW"; "SAT"; "INCRBY"; "u8"; "0"; "200"; "overflow"; "wrap"; "GET"; "i5"; "6"; "SET"; "i8"; "12"; "-1"; "OVERFLOW"; "FAIL"; "INCRBY"; "u8"; "#0"; "1"]%string.
Definition sample_ops : list bitfieldOp :=
  [BitfieldOp 0 200 BITFIELDOP_INCRBY BFOVERFLOW_SAT 8 false; BitfieldOp 6 0 BITFIELDOP_GET BFOVERFLOW_WRAP 5 true;
   BitfieldOp 12 (-1) BITFIELDOP_SET BFOVERFLOW_WRAP 8 true; BitfieldOp 0 1 BITFIELDOP_INCRBY BFOVERFLOW_FAIL 8 false].
Lemma sample_ok : Forall op_parsed sample_ops.
Proof. repeat apply Forall_cons_2; [..|apply Forall_nil_2]; unfold op_parsed, sfits; cbn; split_and!; done || lia. Qed.
Lemma sample_run : bitfieldGeneric (Some [0x64; 0xff]) sample_ops = Some (Some [0xff; 0xff; 0xf0], [Some 255; Some (-1); Some (-16); None], 2).
Proof. vm_compute. done. Qed.
Lemma bitfield_refines_witness : ∃ changes, bitfieldGeneric (Some [0x64; 0xff]) sample_ops = Some (Some [0xff; 0xff; 0xf0], snd (ops_spec (bitat [0x64; 0xff]) sample_ops), changes) ∧ snd (ops_spec (bitat [0x64; 0xff]) sample_ops) = [Some 255; Some (-1); Some (-16); None].
Proof.
  destruct (bitfield_refines (Some [0x64; 0xff]) sample_ops ltac:(by repeat constructor) sample_ok) as (o' & n & E & _). exists n. pose proof E as E'. rewrite sample_run in E'. injection E' as <- _. split; [exact E|vm_compute; reflexivity].
Defined.
Lemma sample_parse : parse_ops (length sample_args) sample_args BFOVERFLOW_WRAP (2 ^ 29) false = Some sample_ops.
Proof. vm_compute. done. Qed.
Lemma bitfield_typed_witness : bitfieldCommand false (Some [0x64; 0xff]) sample_args (2 ^ 29) false = Some (Some [0xff; 0xff; 0xf0], [Some 255; Some (-1); Some (-16); None], 2) ∧
  Forall2 reply_ok sample_ops [Some 255; Some (-1); Some (-16); None].
Proof.
  destruct (bitfield_typed (Some [0x64; 0xff]) sample_args sample_ops (2 ^ 29) false ltac:(by repeat constructor) sample_parse) as (_ & _ & o' & rs & n & E & H & _).
  assert (Er : bitfieldCommand false (Some [0x64; 0xff]) sample_args (2 ^ 29) false = Some (Some [0xff; 0xff; 0xf0], [Some 255; Some (-1); Some (-16); None], 2)) by (vm_compute; reflexivity).
  split; [exact Er|]. rewrite Er in E. by injection E as <- <- <-.
Defined.
(** An operation that fails still creates the key, or extends the string, and
    counts no change. *)
Lemma failed_incr_creates : bitfieldGeneric None [BitfieldOp 0 300 BITFIELDOP_INCRBY BFOVERFLOW_FAIL 8 false] = Some (Some [0], [None], 0).
Proof. vm_compute. done. Qed.
End BitFields.
