(* ===== verification/BitRanges.v ===== *)
(** * bitops.c: BITCOUNT and BITPOS

    The two commands on a range of bits or of bytes: whole bytes are counted or
    searched by words, the bits of the first and of the last byte that are
    outside of the range are masked. *)

From S2P Require Import Prelude Util Bitops Bits.
Import Util Bitops Bits.

Module BitRanges.

(** ** The meaning of a range *)

(** A negative index counts from the end; what is before the beginning is the
    beginning. *)
Definition index_at (totlen i : Z) : Z := Z.max 0 (if i <? 0 then totlen + i else i).
(** The bits of the range, the end excluded. *)
Definition range_bits (len start end_ : Z) (isbit : bool) : Z * Z :=
  let unit := if isbit then 1 else 8 in
  let totlen := if isbit then 8 * len else len in
  (unit * index_at totlen start, unit * (Z.min (index_at totlen end_) (totlen - 1) + 1)).

(** ** Masks *)

(** The bits from [i] on of the byte [bs] to the bit [n] of the byte [be], and
    the masks of the bits before and after. *)
Record edges (len lo hi bs be m1 m2 i n : Z) : Prop := Edges {
  e_bytes : 0 ≤ bs ≤ be ∧ be < len;
  e_i : 0 ≤ i < 8;
  e_n : 0 < n ≤ 8;
  e_lo : lo = 8 * bs + i;
  e_hi : hi = 8 * be + n;
  e_ne : lo < hi;
  e_m1 : ∀ j, 0 ≤ j < 8 → Z.testbit m1 (7 - j) = (j <? i);
  e_m2 : ∀ j, 0 ≤ j < 8 → Z.testbit m2 (7 - j) = (n <=? j);
  e_b1 : is_byte m1;
  e_b2 : is_byte m2;
}.

Lemma seq8 j : 0 ≤ j < 8 → j ∈ seqZ 0 8.
Proof. intros. apply elem_of_seqZ. lia. Qed.
Lemma mask_table : forallb (λ e, forallb (λ j,
    eqb (Z.testbit (Z.land (Z.lnot (Z.shiftl 1 (8 - e) - 1)) 0xff) (7 - j)) (j <? e) && eqb (Z.testbit (u8 (Z.shiftl 1 (7 - e) - 1)) (7 - j)) (e + 1 <=? j)) (seqZ 0 8)) (seqZ 0 8) = true.
Proof. vm_compute. done. Qed.
Lemma mask_bits e j : 0 ≤ e < 8 → 0 ≤ j < 8 →
  Z.testbit (Z.land (Z.lnot (Z.shiftl 1 (8 - e) - 1)) 0xff) (7 - j) = (j <? e) ∧ Z.testbit (u8 (Z.shiftl 1 (7 - e) - 1)) (7 - j) = (e + 1 <=? j).
Proof.
  intros He Hj. pose proof mask_table as H. rewrite forallb_forall in H. specialize (H e ltac:(by apply list_elem_of_In, seq8)). rewrite forallb_forall in H. specialize (H j ltac:(by apply list_elem_of_In, seq8)).
  apply andb_true_iff in H as [H1%eqb_prop H2%eqb_prop]. done.
Qed.
Lemma land7 x : 0 ≤ x → Z.land x 7 = x mod 8 ∧ Z.shiftr x 3 = x / 8.
Proof. intros H. split; [change 7 with (Z.ones 3); by rewrite Z.land_ones by lia|by rewrite Z.shiftr_div_pow2 by lia]. Qed.

Lemma clip_range_spec totlen start end_ : 0 ≤ totlen → clip_range totlen start end_ = (index_at totlen start, Z.min (index_at totlen end_) (totlen - 1)).
Proof.
  intros Ht. unfold clip_range, index_at. zcase; f_equal; lia.
Qed.

(** The range in bytes with its masks: empty, or as [edges] says. *)
Lemma range_edges len start end_ (isbit : bool) : 0 ≤ len →
  let '(s', e') := clip_range (if isbit then Z.shiftl len 3 else len) start end_ in
  let '(bs, be, m1, m2) := edge_masks isbit s' e' in
  let '(lo, hi) := range_bits len start end_ isbit in
  (be < bs ∧ hi ≤ lo) ∨ ∃ i n, edges len lo hi bs be m1 m2 i n ∧ (isbit = false → n = 8).
Proof.
  intros Hl. rewrite Z.shiftl_mul_pow2, (Z.mul_comm len) by lia. change (2 ^ 3) with 8. rewrite clip_range_spec by (destruct isbit; lia). unfold range_bits.
  set (totlen := if isbit then 8 * len else len). set (st := index_at totlen start). set (en := Z.min (index_at totlen end_) (totlen - 1)).
  assert (Hst : 0 ≤ st) by (unfold st, index_at; lia). assert (Hen : en ≤ totlen - 1) by (unfold en; lia). clearbody st en. unfold edge_masks. destruct isbit; cbn [andb].
  - destruct (Z.leb_spec st en) as [Hle|Hgt]; [|left; lia]. destruct (land7 st Hst) as [-> ->]. destruct (land7 en ltac:(lia)) as [-> ->]. right. exists (st mod 8), (en mod 8 + 1). split; [|done].
    split; try (unfold totlen in Hen; dlia).
    + intros j Hj. by apply mask_bits; [dlia|].
    + intros j Hj. by apply mask_bits; [dlia|].
    + by apply (land_range _ _ 8).
    + apply Z.mod_pos_bound. lia.
  - destruct (Z.le_gt_cases st en) as [Hle|Hgt]; [|left; lia]. right. exists 0, 8. split; [|done]. unfold totlen in Hen. split; try lia; try done.
    + intros j Hj. rewrite Z.bits_0. symmetry. apply Z.ltb_ge. lia.
    + intros j Hj. rewrite Z.bits_0. symmetry. apply Z.leb_gt. lia.
Qed.
Lemma edges_zero1 len lo hi bs be m2 i n : edges len lo hi bs be 0 m2 i n → i = 0.
Proof. intros [? ? ? ? ? ? H1]. specialize (H1 0 ltac:(lia)). rewrite Z.bits_0 in H1. symmetry in H1. apply Z.ltb_ge in H1. lia. Qed.
Lemma edges_zero2 len lo hi bs be m1 i n : edges len lo hi bs be m1 0 i n → n = 8.
Proof. intros [? ? ? ? ? ? ? H2]. specialize (H2 7 ltac:(lia)). rewrite Z.bits_0 in H2. symmetry in H2. apply Z.leb_gt in H2. lia. Qed.

(** ** BITCOUNT *)

Lemma ones_ext s t i i' n : 0 ≤ n → (∀ j, 0 ≤ j < n → bitat s (i + j) = bitat t (i' + j)) → ones s i n = ones t i' n.
Proof.
  intros Hn. rewrite <- (Z2Nat.id n) by done. clear Hn. revert i i'. induction (Z.to_nat n) as [|k IH]; intros i i' H; [by rewrite !ones_0|].
  rewrite (ones_step s), (ones_step t) by lia. pose proof (H 0 ltac:(lia)) as E. rewrite !Z.add_0_r in E. rewrite E. f_equal. replace (Z.of_nat (S k) - 1) with (Z.of_nat k) by lia. apply IH.
  intros j Hj. rewrite <- !Z.add_assoc. apply H. lia.
Qed.
Lemma ones_none s i n : 0 ≤ n → (∀ j, 0 ≤ j < n → bitat s (i + j) = false) → ones s i n = 0.
Proof.
  intros Hn. rewrite <- (Z2Nat.id n) by done. clear Hn. revert i. induction (Z.to_nat n) as [|k IH]; intros i H; [apply ones_0|].
  rewrite ones_step by lia. pose proof (H 0 ltac:(lia)) as E. rewrite Z.add_0_r in E. rewrite E. cbn [Z.b2z]. replace (Z.of_nat (S k) - 1) with (Z.of_nat k) by lia. apply IH.
  intros j Hj. rewrite <- Z.add_assoc. apply H. lia.
Qed.
(** The bits of a byte that a mask selects. *)
Lemma bitat_masked s t k q m lo hi : byte_at t q = Z.land (byte_at s k) m → 0 ≤ lo ≤ hi → hi ≤ 8 → (∀ j, 0 ≤ j < 8 → Z.testbit m (7 - j) = (lo <=? j) && (j <? hi)) →
  ones t (8 * q) 8 = ones s (8 * k + lo) (hi - lo).
Proof.
  intros Et Hlo Hhi Hm. assert (Hb : ∀ j, 0 ≤ j < 8 → bitat t (8 * q + j) = bitat s (8 * k + j) && ((lo <=? j) && (j <? hi))).
  { intros j Hj. rewrite (bitat_byte t _ q j), (bitat_byte s _ k j), Et, Z.land_spec, Hm by lia. done. }
  replace 8 with (lo + ((hi - lo) + (8 - hi))) at 2 by lia. rewrite ones_add, ones_add by lia.
  rewrite (ones_none t (8 * q) lo), (ones_none t _ (8 - hi)), (ones_ext t s _ (8 * k + lo) (hi - lo)); [lia|lia|..|lia|].
  - intros j Hj. rewrite <- !Z.add_assoc. rewrite Hb by lia. rewrite (proj2 (Z.leb_le _ _)), (proj2 (Z.ltb_lt _ _)) by lia. by rewrite andb_true_r.
  - lia.
  - intros j Hj. rewrite <- !Z.add_assoc. rewrite Hb by lia. rewrite (proj2 (Z.ltb_ge _ _)) by lia. by rewrite !andb_false_r.
  - intros j Hj. rewrite Hb by lia. rewrite (proj2 (Z.leb_gt _ _)) by lia. by rewrite andb_false_r.
Qed.

Section commands.
Context (a a1 : Z) (s : list Z) (Hs : Forall is_byte s).

(** The bits of the first and last bytes that are counted too much. *)
Definition outside (m1 m2 bs be : Z) : option Z :=
  f ← (if negb (m1 =? 0) then b ← load8 s bs; Some (Z.land b m1) else Some 0);
  l ← (if negb (m2 =? 0) then b ← load8 s be; Some (Z.land b m2) else Some 0);
  redisPopcount a1 [f; l] 0 2.
Lemma masked_load m k : 0 ≤ k < zlen s → (if negb (m =? 0) then b ← load8 s k; Some (Z.land b m) else Some 0) = Some (Z.land (byte_at s k) m).
Proof. intros Hk. destruct (Z.eqb_spec m 0) as [->|]; cbn [negb]; [by rewrite Z.land_0_r|]. by rewrite load8_byte_at by done. Qed.
Lemma outside_spec lo hi bs be m1 m2 i n : edges (zlen s) lo hi bs be m1 m2 i n → outside m1 m2 bs be = Some (ones s (8 * bs) i + ones s hi (8 - n)).
Proof.
  intros [Hb Hi Hn Elo Ehi _ H1 H2 B1 B2]. unfold outside. rewrite !masked_load by lia. cbn [mbind option_bind]. set (t := [_; _]).
  rewrite popcount_spec; [|repeat constructor; by apply (land_range _ _ 8)|done..]. f_equal. change (8 * 2) with (8 + 8). rewrite ones_add by lia. f_equal.
  - rewrite (bitat_masked s t bs 0 m1 0 i); [f_equal; lia|done|lia|lia|]. intros j Hj. rewrite H1 by done. destruct (Z.leb_spec 0 j); [done|lia].
  - change (8 * 0 + 8) with (8 * 1). rewrite (bitat_masked s t be 1 m2 n 8); [by rewrite Ehi|done|lia|lia|]. intros j Hj. rewrite H2 by done. destruct (Z.ltb_spec j 8); [by rewrite andb_true_r|lia].
Qed.
Lemma outside_zero bs be : outside 0 0 bs be = Some 0.
Proof. unfold outside. cbn [Z.eqb negb mbind option_bind]. rewrite popcount_spec by (done || by repeat constructor). done. Qed.

(** The bits that BITCOUNT counts. *)
Definition count_bits (range : option (Z * Z * bool)) : Z * Z :=
  match range with
  | None => (0, 8 * zlen s)
  | Some (start, end_, isbit) => if (start <? 0) && (end_ <? 0) && (start >? end_) then (0, 0) else range_bits (zlen s) start end_ isbit
  end.
Lemma counted lo hi bs be m1 m2 i n : edges (zlen s) lo hi bs be m1 m2 i n →
  (count ← redisPopcount a s bs (be - bs + 1); if negb (m1 =? 0) || negb (m2 =? 0) then out ← outside m1 m2 bs be; Some (count - out) else Some count) = Some (ones s lo (hi - lo)).
Proof.
  intros He. pose proof (outside_spec _ _ _ _ _ _ _ _ He) as Ho. assert (Hz : negb (m1 =? 0) || negb (m2 =? 0) = false → ones s (8 * bs) i + ones s hi (8 - n) = 0).
  { intros [->%negb_false_iff%Z.eqb_eq ->%negb_false_iff%Z.eqb_eq]%orb_false_iff. rewrite outside_zero in Ho. congruence. }
  destruct He as [Hb Hi Hn Elo Ehi Hne _ _ _ _]. rewrite popcount_spec by (done || lia). cbn [mbind option_bind].
  assert (E : ones s (8 * bs) (8 * (be - bs + 1)) = ones s (8 * bs) i + ones s lo (hi - lo) + ones s hi (8 - n)).
  { replace (8 * (be - bs + 1)) with (i + (hi - lo) + (8 - n)) by lia. rewrite !ones_add by lia. do 2 f_equal; [by rewrite Elo|]. lia. }
  rewrite E, Ho. cbn [mbind option_bind]. destruct (negb (m1 =? 0) || negb (m2 =? 0)); f_equal; [lia|]. specialize (Hz eq_refl). lia.
Qed.
Lemma bitcount_spec range : let '(lo, hi) := count_bits range in bitcount a a1 s range = Some (ones s lo (Z.max 0 (hi - lo))).
Proof.
  unfold count_bits, bitcount. destruct range as [[[start end_] isbit]|].
  - destruct ((start <? 0) && (end_ <? 0) && (start >? end_)); [by rewrite ones_0|]. pose proof (range_edges (zlen s) start end_ isbit ltac:(lia)) as H. destruct (clip_range _ _ _) as [s' e'].
    destruct (edge_masks isbit s' e') as [[[bs be] m1] m2]. destruct (range_bits _ _ _ _) as [lo hi]. destruct H as [[Hgt Hle]|(i & n & He & _)].
    + rewrite (proj2 (Z.gtb_gt _ _)) by lia. by rewrite Z.max_l, ones_0 by lia.
    + pose proof He as [Hb _ _ _ _ Hne _ _ _ _]. destruct (Z.gtb_spec bs be); [lia|]. rewrite Z.max_r by lia. rewrite <- (counted _ _ _ _ _ _ _ _ He). unfold outside.
      destruct (redisPopcount a s bs (be - bs + 1)); [|done]. cbn [mbind option_bind]. destruct (_ || _); [|done].
      destruct (if negb (m1 =? 0) then _ else _); [|done]. cbn [mbind option_bind]. by destruct (if negb (m2 =? 0) then _ else _).
  - destruct (Z.gtb_spec 0 (zlen s - 1)); [by rewrite Z.max_l, ones_0 by lia|]. rewrite !Z.sub_0_r, Z.max_r by lia. replace (zlen s - 1 + 1) with (zlen s) by lia.
    by rewrite popcount_spec by (done || lia).
Qed.

(** ** BITPOS *)

Section search.
Context (bit given : bool).

Lemma masked_bit b m k : is_byte b → is_byte m → 0 ≤ k < 8 → Z.testbit (masked bit b m) k = if Z.testbit m k then negb bit else Z.testbit b k.
Proof.
  intros Hb Hm Hk. unfold masked. destruct bit.
  - rewrite Z.land_spec. unfold wrapu. rewrite Z.mod_pow2_bits_low, Z.lnot_spec by lia. destruct (Z.testbit m k); [by rewrite andb_false_r|by rewrite andb_true_r].
  - rewrite Z.lor_spec. destruct (Z.testbit m k); [by rewrite orb_true_r|by rewrite orb_false_r].
Qed.
Lemma masked_byte b m : is_byte b → is_byte m → is_byte (masked bit b m).
Proof.
  intros Hb Hm. unfold masked. destruct bit; [rewrite Z.land_comm; by apply (land_range _ _ 8)|]. unfold is_byte in *. change 256 with (2 ^ 8) in *. apply (small_bits _ 8); [lia|].
  intros i Hi. by rewrite Z.lor_spec, !(testbit_high _ 8) by lia.
Qed.
(** One byte [t] that stands for the bits from [i] to [n] of the byte [k]. *)
Lemma search_byte t k i n : is_byte t → 0 ≤ i → n ≤ 8 → (∀ j, 0 ≤ j < 8 → Z.testbit t (7 - j) = if (i <=? j) && (j <? n) then bitat s (8 * k + j) else negb bit) →
  ∃ r, redisBitpos a1 [t] 0 1 bit = Some r ∧
    (no_bit s bit (8 * k + i) (8 * k + n) ∧ r = (if bit then -1 else 8) ∨ 0 ≤ r < 8 ∧ first_bit s bit (8 * k + i) (8 * k + n) (8 * k + r)).
Proof.
  intros Ht Hi Hn Hb. assert (Hbt : ∀ j, 0 ≤ j < 8 → bitat [t] j = if (i <=? j) && (j <? n) then bitat s (8 * k + j) else negb bit).
  { intros j Hj. rewrite (bitat_byte [t] j 0 j) by lia. by apply Hb. }
  destruct (bitpos_spec a1 [t] bit (Forall_cons_2 _ _ _ Ht (Forall_nil_2 _)) 0 1) as (r & -> & Hr); [done..|]. exists r. split; [done|].
  assert (Hin : ∀ j, i ≤ j < n → bitat s (8 * k + j) = bitat [t] j) by (intros j Hj; rewrite Hbt by lia; by rewrite (proj2 (Z.leb_le _ _)), (proj2 (Z.ltb_lt _ _)) by lia).
  unfold bitpos_result, first_bit in Hr. change (8 * 0 + r) with r in Hr. destruct Hr as [[Hno ->]|(Hr & Hbit & Hbefore)].
  - left. split; [|by destruct bit]. intros j Hj. replace j with (8 * k + (j - 8 * k)) by lia. rewrite Hin by lia. apply Hno. lia.
  - right. split; [lia|]. assert (Hir : i ≤ r < n).
    { rewrite Hbt in Hbit by lia. destruct (Z.leb_spec i r), (Z.ltb_spec r n); cbn [andb] in Hbit; [lia|by apply no_fixpoint_negb in Hbit..]. }
    split_and!; [lia..|by rewrite Hin|]. intros j Hj. replace j with (8 * k + (j - 8 * k)) by lia. rewrite Hin by lia. apply Hbefore. lia.
Qed.

(** What the command answers on a range that is not empty. *)
Definition answer (lo hi x : Z) : Prop := no_bit s bit lo hi ∧ x = (if bit || given then -1 else hi) ∨ first_bit s bit lo hi x.

Lemma reply_found start bytes r : 0 ≤ start → 0 ≤ r < 8 * bytes → bitpos_reply bit given start bytes r = 8 * start + r.
Proof.
  intros Hs0 Hr. unfold bitpos_reply. rewrite !Z.shiftl_mul_pow2 by lia. change (2 ^ 3) with 8. destruct (Z.eqb_spec r (bytes * 8)); [lia|]. rewrite andb_false_r.
  destruct (Z.eqb_spec r (-1)); [lia|]. cbn [negb]. lia.
Qed.
Lemma reply_none start bytes : 0 ≤ start → 0 ≤ bytes → bitpos_reply bit given start bytes (if bit then -1 else 8 * bytes) = if bit || given then -1 else 8 * (start + bytes).
Proof.
  intros Hs0 Hb. unfold bitpos_reply. rewrite !Z.shiftl_mul_pow2 by lia. change (2 ^ 3) with 8. destruct bit; cbn [negb orb]; [by rewrite andb_false_r|]. rewrite andb_true_r.
  rewrite (Z.mul_comm 8 bytes), Z.eqb_refl, andb_true_r. destruct given; [done|]. destruct (Z.eqb_spec (bytes * 8) (-1)); cbn [negb]; lia.
Qed.
Lemma first_bit_skip lo mid hi hi' r : no_bit s bit lo mid → lo ≤ mid → hi ≤ hi' → first_bit s bit mid hi r → first_bit s bit lo hi' r.
Proof. intros Hno Hm Hh (Hr & Hb & Hbefore). split_and!; [lia..|done|]. by eapply no_bit_app. Qed.

(** After a step: the search has ended with the right answer, or the bit is not
    in the range before [start], and [bytes] bytes are left. *)
Definition progress (lo hi be : Z) (r : option (Z * Z * option Z)) (next : Z → Z → Prop) : Prop :=
  ∃ start bytes found, r = Some (start, bytes, found) ∧
    match found with
    | Some pos => answer lo hi (bitpos_reply bit given start bytes pos)
    | None => no_bit s bit lo (8 * start) ∧ lo ≤ 8 * start ∧ start + bytes = be + 1 ∧ next start bytes
    end.

Lemma search_first_spec lo hi bs be m1 m2 i n : edges (zlen s) lo hi bs be m1 m2 i n → (given = false → n = 8) →
  progress lo hi be (search_first a1 s bit m1 m2 bs (be - bs + 1)) (λ start bytes, 0 < bytes).
Proof.
  intros He Hg. unfold search_first. destruct (Z.eqb_spec m1 0) as [->|Hm]; cbn [negb].
  { pose proof (edges_zero1 _ _ _ _ _ _ _ _ He) as ->. destruct He as [Hb _ _ Elo _ _ _ _ _ _]. eexists _, _, None. split; [done|]. split_and!; cbv beta; try lia. intros k Hk. lia. }
  assert (Hn8 : m2 = 0 → n = 8) by (intros ->; by eapply edges_zero2). destruct He as [Hb Hi Hn Elo Ehi Hne H1 H2 B1 B2]. rewrite load8_byte_at by lia. cbn [mbind option_bind]. pose proof (byte_at_byte s bs Hs) as Bb.
  set (t := if negb (m2 =? 0) && (be - bs + 1 =? 1) then _ else _). set (n' := if be - bs + 1 =? 1 then n else 8).
  assert (Hn' : 0 < n' ≤ 8) by (unfold n'; destruct (be - bs + 1 =? 1); lia). destruct (search_byte t bs i n') as (r & -> & Hr); [|lia|lia| |].
  { unfold t. destruct (_ && _); [apply masked_byte; [|done]|]; by apply masked_byte. }
  { intros j Hj. assert (Ej : bitat s (8 * bs + j) = Z.testbit (byte_at s bs) (7 - j)) by (apply bitat_byte; lia). rewrite Ej. unfold t, n'.
    destruct (Z.eqb_spec m2 0) as [E0|_], (Z.eqb_spec (be - bs + 1) 1) as [E1|_]; cbn [negb andb]; rewrite !masked_bit, ?H1, ?H2 by (try apply masked_byte; done || lia); try specialize (Hn8 E0); zcase; cbn [andb]; done || lia. }
  cbn [mbind option_bind]. destruct (Z.eqb_spec (be - bs + 1) 1) as [E1|E1]; cbn [orb].
  { assert (bs = be) by lia. subst be. eexists _, _, (Some r). split; [done|]. unfold n' in Hr. destruct Hr as [[Hno ->]|(Hr & Hf)].
    - left. split; [by rewrite Elo, Ehi|]. rewrite E1. change 8 with (8 * 1) at 1. rewrite reply_none by lia. destruct (bit || given) eqn:Eb; [done|]. apply orb_false_iff in Eb as [_ Eg]. specialize (Hg Eg). lia.
    - right. rewrite reply_found by lia. by rewrite Elo, Ehi. }
  unfold n' in Hr. destruct Hr as [[Hno ->]|(Hr & Hf)].
  - assert (Ec : negb ((if bit then -1 else 8) =? -1) && negb ((if bit then -1 else 8) =? 8) = false) by (by destruct bit). rewrite Ec. eexists _, _, None. split; [done|]. split_and!; cbv beta; try lia.
    rewrite Elo. by replace (8 * (bs + 1)) with (8 * bs + 8) by lia.
  - destruct (Z.eqb_spec r (-1)); [lia|]. destruct (Z.eqb_spec r 8); [lia|]. cbn [negb andb]. eexists _, _, (Some r). split; [done|]. right. rewrite reply_found by lia. rewrite <- Elo in Hf.
    destruct Hf as (F1 & F2 & F3). split_and!; done || lia.
Qed.
Lemma search_whole_spec lo hi bs be m1 m2 i n start bytes : edges (zlen s) lo hi bs be m1 m2 i n →
  no_bit s bit lo (8 * start) → lo ≤ 8 * start → start + bytes = be + 1 → 0 < bytes →
  progress lo hi be (search_whole a s bit m2 start bytes) (λ start bytes, start = be ∧ bytes = 1).
Proof.
  intros He Hno Hlo Hsb Hb0. unfold search_whole. assert (Hn8 : m2 = 0 → n = 8) by (intros ->; by eapply edges_zero2). destruct He as [Hb Hi Hn Elo Ehi Hne _ _ _ _].
  set (cur := bytes - _). assert (Hcur : cur = bytes ∧ n = 8 ∨ cur = bytes - 1) by (unfold cur; destruct (Z.eqb_spec m2 0); cbn [negb]; [left; split; [lia|auto]|by right]). clearbody cur.
  destruct (Z.gtb_spec cur 0) as [Hc|Hc]; [|eexists _, _, None; split; [done|]; split_and!; done || lia].
  destruct (bitpos_spec a s bit Hs start cur) as (r & -> & Hr); [lia..|]. cbn [mbind option_bind]. rewrite Z.shiftl_mul_pow2 by lia. change (2 ^ 3) with 8.
  destruct Hr as [[Hno2 ->]|Hf].
  - assert (Hno' : no_bit s bit lo (8 * (start + cur))) by (by eapply no_bit_app). destruct (Z.eqb_spec bytes cur) as [<-|Hbc]; cbn [orb].
    + eexists _, _, (Some _). split; [done|]. left. rewrite reply_none by lia. assert (Eh : hi = 8 * (start + bytes)) by lia. by rewrite Eh.
    + assert (Ec : negb ((if bit then -1 else 8 * cur) =? -1) && negb ((if bit then -1 else 8 * cur) =? cur * 8) = false).
      { destruct bit; [done|]. rewrite (Z.mul_comm 8 cur), Z.eqb_refl. by rewrite andb_false_r. }
      rewrite Ec. eexists _, _, None. split; [done|]. split_and!; done || lia.
  - pose proof Hf as (F1 & _). destruct (Z.eqb_spec r (-1)); [lia|]. destruct (Z.eqb_spec r (cur * 8)); [lia|]. cbn [negb andb]. rewrite orb_true_r. eexists _, _, (Some r). split; [done|]. right.
    rewrite reply_found by lia. eapply (first_bit_skip lo (8 * start) (8 * (start + cur))); [done|lia|lia|done].
Qed.
Lemma search_last_spec lo hi bs be m1 m2 i n : edges (zlen s) lo hi bs be m1 m2 i n → (given = false → n = 8) → no_bit s bit lo (8 * be) → lo ≤ 8 * be →
  ∃ pos, search_last a1 s bit be m2 = Some pos ∧ answer lo hi (bitpos_reply bit given be 1 pos).
Proof.
  intros [Hb Hi Hn Elo Ehi Hne _ H2 _ B2] Hg Hno Hlo. unfold search_last. rewrite load8_byte_at by lia. cbn [mbind option_bind].
  destruct (search_byte (masked bit (byte_at s be) m2) be 0 n) as (r & -> & Hr); [by apply masked_byte; [apply byte_at_byte|]|lia|lia| |].
  { intros j Hj. assert (Ej : bitat s (8 * be + j) = Z.testbit (byte_at s be) (7 - j)) by (apply bitat_byte; lia). rewrite Ej, masked_bit, H2 by (try apply byte_at_byte; done || lia). zcase; cbn [andb]; done || lia. }
  exists r. split; [done|]. rewrite Z.add_0_r in Hr. rewrite <- Ehi in Hr. destruct Hr as [[Hno2 ->]|(Hr & Hf)].
  - left. split; [by eapply no_bit_app|]. change 8 with (8 * 1) at 1. rewrite reply_none by lia. destruct (bit || given) eqn:Eb; [done|]. apply orb_false_iff in Eb as [_ Eg]. specialize (Hg Eg). lia.
  - right. rewrite reply_found by lia. by eapply (first_bit_skip lo (8 * be) hi).
Qed.
Lemma bitpos_search_spec lo hi bs be m1 m2 i n : edges (zlen s) lo hi bs be m1 m2 i n → (given = false → n = 8) →
  ∃ x, bitpos_search a a1 s bit given bs be m1 m2 = Some x ∧ answer lo hi x.
Proof.
  intros He Hg. unfold bitpos_search. destruct (search_first_spec lo hi bs be m1 m2 i n He Hg) as (st1 & by1 & [pos|] & -> & H1); cbn [mbind option_bind]; [by eexists|]. destruct H1 as (N1 & L1 & S1 & P1).
  destruct (search_whole_spec lo hi bs be m1 m2 i n st1 by1 He N1 L1 S1 P1) as (st2 & by2 & [pos|] & -> & H2); cbn [mbind option_bind]; [by eexists|]. destruct H2 as (N2 & L2 & S2 & [-> ->]).
  destruct (search_last_spec lo hi bs be m1 m2 i n He Hg N2 L2) as (pos & -> & Ha). by eexists.
Qed.
End search.

(** The bits that BITPOS searches; without an end the range goes up to the end
    of the string. *)
Definition pos_bits (range : option (Z * option (Z * bool))) : Z * Z :=
  match range with
  | None => (0, 8 * zlen s)
  | Some (start, None) => range_bits (zlen s) start (zlen s - 1) false
  | Some (start, Some (end_, isbit)) => range_bits (zlen s) start end_ isbit
  end.
Definition end_given (range : option (Z * option (Z * bool))) : bool := match range with Some (_, Some _) => true | _ => false end.

Lemma whole_edges : 0 < zlen s → edges (zlen s) 0 (8 * zlen s) 0 (zlen s - 1) 0 0 0 8.
Proof.
  intros Hl. split; try lia; try done.
  - intros j Hj. rewrite Z.bits_0. symmetry. apply Z.ltb_ge. lia.
  - intros j Hj. rewrite Z.bits_0. symmetry. apply Z.leb_gt. lia.
Qed.
Lemma bitpos_command_spec bit range : let '(lo, hi) := pos_bits range in
  ∃ x, bitpos a a1 s bit range = Some x ∧ (if hi <=? lo then x = -1 else answer bit (end_given range) lo hi x).
Proof.
  assert (Hgen : ∀ start end_ isbit given, (given = false → isbit = false) →
    let '(lo, hi) := range_bits (zlen s) start end_ isbit in
    ∃ x, (let '(start, end_) := clip_range (if isbit then Z.shiftl (zlen s) 3 else zlen s) start end_ in
          let '(start, end_, m1, m2) := edge_masks isbit start end_ in
          if start >? end_ then Some (-1) else bitpos_search a a1 s bit given start end_ m1 m2) = Some x ∧ (if hi <=? lo then x = -1 else answer bit given lo hi x)).
  { intros start end_ isbit given Hg. pose proof (range_edges (zlen s) start end_ isbit ltac:(lia)) as H. destruct (clip_range _ _ _) as [s' e'].
    destruct (edge_masks isbit s' e') as [[[bs be] m1] m2]. destruct (range_bits _ _ _ _) as [lo hi]. destruct H as [[Hgt Hle]|(i & n & He & Hn)].
    - rewrite (proj2 (Z.gtb_gt _ _)), (proj2 (Z.leb_le _ _)) by lia. by eexists.
    - pose proof He as [Hb _ _ _ _ Hne _ _ _ _]. destruct (Z.gtb_spec bs be); [lia|]. rewrite (proj2 (Z.leb_gt _ _)) by lia. eapply bitpos_search_spec; [exact He|]. auto. }
  unfold bitpos, pos_bits, end_given. destruct range as [[start [[end_ isbit]|]]|].
  - rewrite bool_decide_true by done. specialize (Hgen start end_ isbit true ltac:(done)). destruct (range_bits _ _ _ _) as [lo hi], (clip_range _ _ _) as [s' e']. by destruct (edge_masks _ _ _) as [[[bs be] m1] m2].
  - rewrite bool_decide_false by (intros []; done). specialize (Hgen start (zlen s - 1) false false ltac:(done)). destruct (range_bits _ _ _ _) as [lo hi], (clip_range _ _ _) as [s' e']. by destruct (edge_masks _ _ _) as [[[bs be] m1] m2].
  - destruct (Z.gtb_spec 0 (zlen s - 1)); [rewrite (proj2 (Z.leb_le _ _)) by lia; by eexists|]. rewrite (proj2 (Z.leb_gt _ _)) by lia. eapply bitpos_search_spec; [apply whole_edges; lia|done].
Qed.
End commands.

(** C31: BITCOUNT and BITPOS on a range of bytes or bits: for every string at
    every address and every range (negative indexes count from the end,
    everything is clipped to the string), BITCOUNT answers the number of ones in
    the range and BITPOS the first position in it with the bit; if there is none
    the answer is -1, or, for a 0 without an explicit end, the first bit after the
    string.  Both search whole bytes by words and mask the bits of the first and
    the last byte outside of the range. *)
Theorem bit_ranges_correct a a1 s : Forall is_byte s →
  (∀ range, let '(lo, hi) := count_bits s range in bitcount a a1 s range = Some (ones s lo (Z.max 0 (hi - lo)))) ∧
  (∀ bit range, let '(lo, hi) := pos_bits s range in
     ∃ x, bitpos a a1 s bit range = Some x ∧
       (if hi <=? lo then x = -1 else no_bit s bit lo hi ∧ x = (if bit || end_given range then -1 else hi) ∨ first_bit s bit lo hi x)).
Proof.
  intros Hs. split.
  - intros range. by apply bitcount_spec.
  - intros bit range. by apply bitpos_command_spec.
Qed.

(** Bits 5 to 30 of ff f0 00 ff ff, and the first zero of the whole string. *)
Lemma bit_ranges_witness :
  bitcount 3 0 [0xff; 0xf0; 0x00; 0xff; 0xff] (Some (5, 30, true)) = Some (ones [0xff; 0xf0; 0x00; 0xff; 0xff] 5 26) ∧
  ∃ x, bitpos 3 0 [0xff; 0xf0; 0x00; 0xff; 0xff] false None = Some x ∧ first_bit [0xff; 0xf0; 0x00; 0xff; 0xff] false 0 40 x.
Proof.
  destruct (bit_ranges_correct 3 0 [0xff; 0xf0; 0x00; 0xff; 0xff] ltac:(by repeat constructor)) as [Hc Hp]. split; [exact (Hc (Some (5, 30, true)))|].
  destruct (Hp false None) as (x & E & [[Hno _]|Hf]); [|by exists x]. specialize (Hno 12 ltac:(cbn; lia)). discriminate Hno.
Defined.
(** A range whose end is before its start, both before the beginning of the
    string, is empty for BITCOUNT, while BITPOS searches the first byte. *)
Lemma inverted_range : bitcount 0 0 [0x80] (Some (-2, -3, false)) = Some 0 ∧ bitpos 0 0 [0x80] true (Some (-2, Some (-3, false))) = Some 0.
Proof. split; vm_compute; done. Qed.
End BitRanges.
