(* ===== verification/BitopCmd.v ===== *)
(** * bitops.c: SETBIT, GETBIT and BITOP

    Writing and reading one bit, and the bitwise operations between strings of
    different lengths: words where all the strings have data, bytes for the
    rest. *)

From S2P Require Import Prelude Util Bitops Bits BitFields.
Import Util Bitops Bits BitFields.

Module BitopCmd.

(** ** SETBIT and GETBIT *)

Lemma setbit_spec o off on : Forall is_byte (default [] o) → 0 ≤ off →
  ∃ s, setbit o off on = Some (s, bitat (default [] o) off) ∧ Forall is_byte s ∧ zlen s = Z.max (zlen (default [] o)) (off / 8 + 1) ∧
    ∀ i, 0 ≤ i → bitat s i = if i =? off then on else bitat (default [] o) i.
Proof.
  intros Ho H0. unfold setbit. destruct (lookup_for_bit o off H0 Ho) as (s & dirty & -> & Hs & Hl & Hb & _). destruct (offset_parts off H0) as [-> ->]. destruct (load8_total s (off / 8)) as [b Eb]; [dlia|]. rewrite Eb.
  cbn [mbind option_bind]. pose proof Eb as Eb'. rewrite load8_byte_at in Eb' by dlia. injection Eb' as Eb'. assert (Ebit : negb (Z.land b (Z.shiftl 1 (7 - off mod 8)) =? 0) = bitat (default [] o) off).
  { rewrite land_bit, <- Hb, <- Eb' by dlia. done. }
  rewrite Ebit. destruct (dirty || negb (eqb (bitat (default [] o) off) on)) eqn:Ed.
  - assert (Ew : u8 (Z.lor (Z.land b (Z.lnot (Z.shiftl 1 (7 - off mod 8)))) (Z.shiftl (if on then 1 else 0) (7 - off mod 8))) = with_bit b (7 - off mod 8) (Z.b2z on)).
    { unfold with_bit. change 0xff with (Z.ones 8). rewrite Z.land_ones by lia. by destruct on. }
    rewrite Ew. destruct (store s (off / 8) [with_bit b (7 - off mod 8) (Z.b2z on)]) as [s'|] eqn:Est.
    2:{ unfold store in Est. rewrite decide_True in Est by (cbn [length]; dlia). done. }
    cbn [mbind option_bind]. exists s'. pose proof (length_store _ _ _ _ Est) as Hl'. split_and!; [done|eapply store_bytes; [exact Hs|apply with_bit_byte|done]|lia|].
    intros i Hi. rewrite (store_bit s off b on s' H0 Eb Est i Hi), Hb. done.
  - apply orb_false_iff in Ed as [_ Ed%negb_false_iff%eqb_prop]. exists s. split_and!; [done..|]. intros i Hi. rewrite Hb. destruct (Z.eqb_spec i off) as [->|]; [done|done].
Qed.
Lemma getbit_spec o off : 0 ≤ off → getbit o off = Some (bitat (default [] o) off).
Proof.
  intros H0. unfold getbit. destruct o as [s|]; cbn [from_option id]; [|unfold bitat; by rewrite byte_at_beyond, Z.bits_0 by (cbn [length]; dlia)]. destruct (offset_parts off H0) as [-> ->]. destruct (Z.ltb_spec (off / 8) (zlen s)).
  - rewrite load8_byte_at by dlia. cbn [mbind option_bind]. by rewrite land_bit by dlia.
  - unfold bitat. by rewrite byte_at_beyond, Z.bits_0 by lia.
Qed.

(** ** Words and bytes *)

Definition byte_op (op : bitop_t) (x y : Z) : Z :=
  match op with BITOP_AND => Z.land x y | BITOP_OR => Z.lor x y | BITOP_XOR => Z.lxor x y | BITOP_NOT => u8 (Z.lnot x) end.
Definition bit_op (op : bitop_t) (x y : bool) : bool :=
  match op with BITOP_AND => x && y | BITOP_OR => x || y | BITOP_XOR => xorb x y | BITOP_NOT => negb x end.
Lemma word_op_bit op x y i : 0 ≤ i < 64 → Z.testbit (word_op op x y) i = bit_op op (Z.testbit x i) (Z.testbit y i).
Proof.
  intros Hi. destruct op; cbn [word_op bit_op]; [apply Z.land_spec|apply Z.lor_spec|apply Z.lxor_spec|]. unfold wrapu. by rewrite Z.mod_pow2_bits_low, Z.lnot_spec by lia.
Qed.
Lemma byte_op_bit op x y i : 0 ≤ i < 8 → Z.testbit (byte_op op x y) i = bit_op op (Z.testbit x i) (Z.testbit y i).
Proof.
  intros Hi. destruct op; cbn [byte_op bit_op]; [apply Z.land_spec|apply Z.lor_spec|apply Z.lxor_spec|]. unfold wrapu. by rewrite Z.mod_pow2_bits_low, Z.lnot_spec by lia.
Qed.
Lemma byte_op_byte op x y : is_byte x → is_byte y → is_byte (byte_op op x y).
Proof.
  unfold is_byte. change 256 with (2 ^ 8). intros Hx Hy. destruct op; cbn [byte_op]; [..|apply Z.mod_pos_bound; lia]; apply (small_bits _ 8); try lia; intros i Hi.
  - by rewrite Z.land_spec, (testbit_high x 8) by lia.
  - by rewrite Z.lor_spec, (testbit_high x 8), (testbit_high y 8) by lia.
  - by rewrite Z.lxor_spec, (testbit_high x 8), (testbit_high y 8) by lia.
Qed.
Lemma byte_ext x y : is_byte x → is_byte y → (∀ j, 0 ≤ j < 8 → Z.testbit x j = Z.testbit y j) → x = y.
Proof.
  unfold is_byte. change 256 with (2 ^ 8). intros Hx Hy H. apply Z.bits_inj'. intros i Hi. destruct (Z.lt_ge_cases i 8); [by apply H|]. by rewrite (testbit_high x 8), (testbit_high y 8) by lia.
Qed.
Lemma le_bytes_bit n z i j : 0 ≤ i < Z.of_nat n → 0 ≤ j < 8 → Z.testbit (byte_at (le_bytes n z) i) j = Z.testbit z (8 * i + j).
Proof.
  intros Hi Hj. rewrite byte_at_le_bytes by done. change 256 with (2 ^ 8). rewrite <- Z.pow_mul_r, Z.mod_pow2_bits_low, Z.div_pow2_bits by lia. f_equal. lia.
Qed.
Lemma word_bytes op x y i : Forall is_byte x → Forall is_byte y → length x = 8%nat → length y = 8%nat → 0 ≤ i < 8 →
  byte_at (le_bytes 8 (word_op op (le_val x) (le_val y))) i = byte_op op (byte_at x i) (byte_at y i).
Proof.
  intros Hx Hy Lx Ly Hi. apply byte_ext; [apply byte_at_byte, le_bytes_byte|by apply byte_op_byte; apply byte_at_byte|].
  intros j Hj. rewrite le_bytes_bit, byte_op_bit, word_op_bit by lia. rewrite <- (le_bytes_val' 8 x), <- (le_bytes_val' 8 y), !le_bytes_bit, !le_bytes_val' by (done || lia). done.
Qed.

(** ** The fast path *)

Lemma byte_at_store_list p k bs p' i : 0 ≤ i → store p k bs = Some p' → byte_at p' i = if (k <=? i) && (i <? k + zlen bs) then byte_at bs (i - k) else byte_at p i.
Proof.
  intros Hi. unfold store. case_decide as Hd; [|done]. intros [= <-]. unfold byte_at. destruct (Z.leb_spec k i), (Z.ltb_spec i (k + zlen bs)); cbn [andb]; f_equal.
  - rewrite lookup_app_r, length_take, lookup_app_l by (rewrite ?length_take; lia). f_equal. lia.
  - rewrite lookup_app_r, length_take, lookup_app_r, lookup_drop by (rewrite ?length_take; lia). f_equal. lia.
  - rewrite lookup_app_l, lookup_take_lt by (rewrite ?length_take; lia). done.
  - rewrite lookup_app_l, lookup_take_lt by (rewrite ?length_take; lia). done.
Qed.
Lemma store_list_bytes p k bs p' : Forall is_byte p → Forall is_byte bs → store p k bs = Some p' → Forall is_byte p'.
Proof. intros Hp Hb. unfold store. case_decide; [|done]. intros [= <-]. rewrite !Forall_app. split_and!; [by apply Forall_take|done|by apply Forall_drop]. Qed.
Lemma load_bytes s k n w : Forall is_byte s → load s k n = Some w → Forall is_byte w ∧ zlen w = n ∧ ∀ i, 0 ≤ i < n → byte_at w i = byte_at s (k + i).
Proof.
  intros Hs (pre & post & Es & -> & Hl)%load_Some. rewrite Es, !Forall_app in Hs. split_and!; [by apply Hs|lia|]. intros i Hi. unfold byte_at. rewrite Es, lookup_app_r, lookup_app_l by lia. do 2 f_equal. lia.
Qed.

(** [res'] is [res] with the bytes from [lo] to [hi] given by [f]. *)
Definition updated (res res' : list Z) (lo hi : Z) (f : Z → Z) : Prop :=
  length res' = length res ∧ Forall is_byte res' ∧ ∀ i, 0 ≤ i → byte_at res' i = if (lo <=? i) && (i <? hi) then f i else byte_at res i.
Lemma updated_app r0 r1 r2 lo mid hi f g : lo ≤ mid ≤ hi → updated r0 r1 lo mid f → updated r1 r2 mid hi g → (∀ i, mid ≤ i < hi → g i = f i) → updated r0 r2 lo hi f.
Proof.
  intros Hm (L1 & B1 & E1) (L2 & B2 & E2) Hg. split_and!; [lia|done|]. intros i Hi. rewrite E2, E1 by done. zcase; cbn [andb]; try done; try lia. apply Hg. lia.
Qed.

Section fast.
Context (op : bitop_t).

Lemma fast_word_spec res src k : Forall is_byte res → Forall is_byte src → 0 ≤ k → k + 8 ≤ zlen res → k + 8 ≤ zlen src →
  ∃ res', fast_word op res src k = Some res' ∧ updated res res' k (k + 8) (λ i, byte_op op (byte_at res i) (byte_at src i)).
Proof.
  intros Hr Hs Hk Hlr Hls. unfold fast_word. destruct (load_total res k 8) as [x Ex]; [lia..|]. destruct (load_total src k 8) as [y Ey]; [lia..|]. rewrite Ex, Ey. cbn [mbind option_bind].
  destruct (load_bytes _ _ _ _ Hr Ex) as (Bx & Lx & Ax). destruct (load_bytes _ _ _ _ Hs Ey) as (By & Ly & Ay).
  destruct (store res k (le_bytes 8 (word_op op (le_val x) (le_val y)))) as [r'|] eqn:Est.
  2:{ unfold store in Est. rewrite length_le_bytes, decide_True in Est by lia. done. }
  exists r'. split; [done|]. split_and!; [by eapply length_store|eapply store_list_bytes; [exact Hr|apply le_bytes_byte|done]|].
  intros i Hi. rewrite (byte_at_store_list _ _ _ _ i Hi Est), length_le_bytes. change (Z.of_nat 8) with 8. zcase; cbn [andb]; try done. rewrite word_bytes, Ax, Ay by (done || lia). by replace (k + (i - k)) with i by lia.
Qed.
Lemma updated_refl res lo f : Forall is_byte res → updated res res lo lo f.
Proof. intros Hr. split_and!; [done..|]. intros i Hi. zcase; cbn [andb]; done || lia. Qed.
Lemma fast_word_next res r src lo k k' : Forall is_byte src → 0 ≤ lo ≤ k → k' = k + 8 → k' ≤ zlen res → k' ≤ zlen src → updated res r lo k (λ i, byte_op op (byte_at res i) (byte_at src i)) →
  ∃ r', fast_word op r src k = Some r' ∧ updated res r' lo k' (λ i, byte_op op (byte_at res i) (byte_at src i)).
Proof.
  intros Hs Hlo -> Hl1 Hl2 U. pose proof U as (L & B & E). destruct (fast_word_spec r src k) as (r' & Er & U'); [done|done|lia..|]. exists r'. split; [done|].
  eapply (updated_app res r r' lo k); [lia|exact U|exact U'|]. intros i Hi. cbv beta. rewrite E by lia. zcase; cbn [andb]; done || lia.
Qed.
Lemma fast_words_spec res src j : Forall is_byte res → Forall is_byte src → 0 ≤ j → j + 32 ≤ zlen res → j + 32 ≤ zlen src →
  ∃ res', fast_words op res src j = Some res' ∧ updated res res' j (j + 32) (λ i, byte_op op (byte_at res i) (byte_at src i)).
Proof.
  intros Hr Hs Hj Hlr Hls. unfold fast_words. pose proof (updated_refl res j (λ i, byte_op op (byte_at res i) (byte_at src i)) Hr) as U0.
  destruct (fast_word_next res res src j j (j + 8)) as (r1 & -> & U1); [done|lia..|done|]. cbn [mbind option_bind].
  destruct (fast_word_next res r1 src j (j + 8) (j + 16)) as (r2 & -> & U2); [done|lia..|done|]. cbn [mbind option_bind].
  destruct (fast_word_next res r2 src j (j + 16) (j + 24)) as (r3 & -> & U3); [done|lia..|done|]. cbn [mbind option_bind].
  by apply (fast_word_next res r3 src j (j + 24) (j + 32)); [done|lia..|].
Qed.

(** The bytes at [i] combined. *)
Definition combine (x : Z) (srcs : list (list Z)) (i : Z) : Z := foldl (λ x s, byte_op op x (byte_at s i)) x srcs.
Lemma fast_keys_spec srcs res j : Forall is_byte res → Forall (Forall is_byte) srcs → 0 ≤ j → j + 32 ≤ zlen res → Forall (λ s, j + 32 ≤ zlen s) srcs →
  ∃ res', fast_keys op res srcs j = Some res' ∧ updated res res' j (j + 32) (λ i, combine (byte_at res i) srcs i).
Proof.
  intros Hr Hs Hj Hl Hls. revert res Hr Hl. induction srcs as [|src srcs IH]; intros res Hr Hl; cbn [fast_keys].
  { exists res. split; [done|]. split_and!; [done..|]. intros i Hi. cbn. by destruct (_ && _). }
  apply Forall_cons in Hs as [Hs1 Hs]. apply Forall_cons in Hls as [Hl1 Hls]. destruct (fast_words_spec res src j) as (r1 & -> & L1 & B1 & E1); [done..|]. cbn [mbind option_bind].
  destruct (IH Hs Hls r1) as (r2 & -> & L2 & B2 & E2); [done|lia|]. exists r2. split; [done|]. split_and!; [lia|done|]. intros i Hi. rewrite E2, E1 by done. by destruct (_ && _).
Qed.

(** The result of the operation at byte [i]. *)
Definition result_byte (srcs : list (list Z)) (i : Z) : Z :=
  match srcs with
  | [] => 0
  | s :: rest => match op with BITOP_NOT => byte_op op (byte_at s i) 0 | _ => combine (byte_at s i) rest i end
  end.

Section loops.
Context (s1 : list Z) (rest : list (list Z)).
Context (Hs1 : Forall is_byte s1) (Hrest : Forall (Forall is_byte) rest).

Lemma fast_step res j : Forall is_byte res → 0 ≤ j → j + 32 ≤ zlen res → Forall (λ s, j + 32 ≤ zlen s) rest → (∀ i, j ≤ i < j + 32 → byte_at res i = byte_at s1 i) →
  ∃ r, match op with BITOP_NOT => fast_words op res res j | _ => fast_keys op res (tail (s1 :: rest)) j end = Some r ∧ updated res r j (j + 32) (result_byte (s1 :: rest)).
Proof using Hrest.
  intros Hr Hj Hl Hls Hres. cbn [tail].
  assert (Hext : ∀ r f, updated res r j (j + 32) f → (∀ i, j ≤ i < j + 32 → f i = result_byte (s1 :: rest) i) → updated res r j (j + 32) (result_byte (s1 :: rest))).
  { intros r f (L & B & E) Hf. split_and!; [done..|]. intros i Hi. rewrite E by done. zcase; cbn [andb]; try done. apply Hf. lia. }
  destruct (fast_keys_spec rest res j) as (r & Er & U); [done..|]. destruct (fast_words_spec res res j) as (r' & Er' & U'); [done..|].
  destruct op eqn:Eop; [exists r|exists r|exists r|exists r']; (split; [done|]); (eapply Hext; [eassumption|]); intros i Hi; unfold result_byte; rewrite Eop; cbv beta; by rewrite Hres.
Qed.
Lemma fast_loop_spec fuel res j n : Forall is_byte res → 0 ≤ j → 0 ≤ n ≤ Z.of_nat fuel → j + n ≤ zlen res → Forall (λ s, j + n ≤ zlen s) rest → (∀ i, j ≤ i < j + n → byte_at res i = byte_at s1 i) →
  ∃ r j', fast_loop fuel op res (s1 :: rest) j n = Some (r, j') ∧ j ≤ j' ≤ j + n ∧ updated res r j j' (result_byte (s1 :: rest)).
Proof using Hrest.
  revert res j n. induction fuel as [|fuel IH]; intros res j n Hr Hj Hn Hl Hls Hres; cbn [fast_loop]; rewrite Z.geb_leb; destruct (Z.leb_spec 32 n); try lia.
  1, 3: eexists res, j; split; [done|]; split; [lia|by apply updated_refl].
  destruct (fast_step res j) as (r1 & Er1 & U1); [done|done|lia|eapply Forall_impl; [exact Hls|]; intros; cbv beta in *; lia|intros; apply Hres; lia|]. rewrite Er1. cbn [mbind option_bind]. pose proof U1 as (L1 & B1 & E1).
  destruct (IH r1 (j + 32) (n - 32)) as (r2 & j' & -> & Hj' & U2); [done|lia..|eapply Forall_impl; [exact Hls|]; intros; cbv beta in *; lia| |].
  { intros i Hi. rewrite E1 by lia. zcase; cbn [andb]; try lia. apply Hres. lia. }
  exists r2, j'. split; [done|]. split; [lia|]. eapply updated_app; [|exact U1|exact U2|done]. lia.
Qed.

(** ** The bytes left *)

Lemma src_byte_spec s j : 0 ≤ j → src_byte s j = Some (byte_at s j).
Proof using. intros Hj. unfold src_byte. destruct (Z.leb_spec (zlen s) j); [by rewrite byte_at_beyond|]. by rewrite load8_byte_at by lia. Qed.
Lemma combine_and srcs i : op = BITOP_AND → combine 0 srcs i = 0.
Proof using. intros E. induction srcs as [|s srcs IH]; [done|]. unfold combine in *. cbn [foldl]. rewrite E in *. exact IH. Qed.
Lemma combine_or srcs i : op = BITOP_OR → Forall (Forall is_byte) srcs → combine 255 srcs i = 255.
Proof using.
  intros E. induction 1 as [|s srcs Hs _ IH]; [done|]. unfold combine in *. cbn [foldl]. rewrite E in *. cbn [byte_op] in *. rewrite <- IH at 2. f_equal.
  pose proof (byte_at_byte s i Hs) as Hb. apply byte_ext; [by apply (byte_op_byte BITOP_OR)|done|]. intros j Hj. rewrite Z.lor_spec. change 255 with (Z.ones 8). by rewrite Z.ones_spec_low by lia.
Qed.
Lemma slow_byte_spec srcs x j : Forall (Forall is_byte) srcs → 0 ≤ j → slow_byte op x srcs j = Some (match op with BITOP_NOT => x | _ => combine x srcs j end).
Proof using.
  intros Hs Hj. revert x. induction Hs as [|s srcs Hhd Hs IH]; intros x; cbn [slow_byte]; [by destruct op|]. rewrite src_byte_spec by done. cbn [mbind option_bind].
  assert (Hst : ∀ x, combine x (s :: srcs) j = combine (byte_op op x (byte_at s j)) srcs j) by done. rewrite Hst. pose proof combine_and as Ha. pose proof combine_or as Hor. destruct op eqn:Eop; cbn [byte_op].
  - destruct (Z.eqb_spec (Z.land x (byte_at s j)) 0) as [E|]; [|apply IH]. by rewrite E, Ha.
  - destruct (Z.eqb_spec (Z.lor x (byte_at s j)) 0xff) as [E|]; [|apply IH]. by rewrite E, Hor.
  - apply IH.
  - apply IH.
Qed.
Lemma combine_byte srcs x i : is_byte x → Forall (Forall is_byte) srcs → is_byte (combine x srcs i).
Proof using. intros Hx Hs. revert x Hx. induction Hs as [|s srcs Hhd _ IH]; intros x Hx; [done|]. apply IH. apply byte_op_byte; [done|by apply byte_at_byte]. Qed.
Lemma result_byte_byte i : is_byte (result_byte (s1 :: rest) i).
Proof using Hs1 Hrest.
  unfold result_byte. pose proof (byte_at_byte s1 i Hs1) as Hb. pose proof (combine_byte rest _ i Hb Hrest). pose proof (byte_op_byte op (byte_at s1 i) 0 Hb ltac:(done)). by destruct op.
Qed.
Lemma slow_loop_spec fuel res j maxlen : Forall is_byte res → 0 ≤ j ≤ maxlen → maxlen - j ≤ Z.of_nat fuel → zlen res = maxlen →
  ∃ r, slow_loop fuel op res (s1 :: rest) j maxlen = Some r ∧ updated res r j maxlen (result_byte (s1 :: rest)).
Proof using Hs1 Hrest.
  revert res j. induction fuel as [|fuel IH]; intros res j Hr Hj Hf Hl; cbn [slow_loop]; destruct (Z.ltb_spec j maxlen); try lia.
  1, 3: exists res; split; [done|]; replace j with maxlen by lia; by apply updated_refl.
  cbn [head tail mbind option_bind]. rewrite src_byte_spec by lia. cbn [mbind option_bind]. rewrite slow_byte_spec by (done || lia). cbn [mbind option_bind].
  assert (Eb : (match op with BITOP_NOT => match op with BITOP_NOT => u8 (Z.lnot (byte_at s1 j)) | _ => byte_at s1 j end | _ => combine (match op with BITOP_NOT => u8 (Z.lnot (byte_at s1 j)) | _ => byte_at s1 j end) rest j end) = result_byte (s1 :: rest) j).
  { unfold result_byte. by destruct op. }
  rewrite Eb. destruct (store res j [result_byte (s1 :: rest) j]) as [r1|] eqn:Est.
  2:{ unfold store in Est. rewrite decide_True in Est by (cbn [length]; lia). done. }
  cbn [mbind option_bind]. pose proof (length_store _ _ _ _ Est) as L1. pose proof (store_bytes _ _ _ _ Hr (result_byte_byte j) Est) as B1.
  destruct (IH r1 (j + 1)) as (r2 & -> & U2); [done|lia..|]. exists r2. split; [done|]. eapply (updated_app _ r1 _ j (j + 1)); [lia| |exact U2|done].
  split_and!; [done..|]. intros i Hi. rewrite (byte_at_store res j _ r1 i) by (done || lia). destruct (Z.eqb_spec i j) as [->|]; zcase; cbn [andb]; done || lia.
Qed.
End loops.
End fast.

(** ** The command *)

Definition max_len (srcs : list (list Z)) : Z := foldr (λ s n, Z.max (zlen s) n) 0 srcs.
Lemma max_len_nonneg srcs : 0 ≤ max_len srcs.
Proof. induction srcs; cbn; lia. Qed.
(** Every source has the [minlen] bytes of the fast path. *)
Lemma src_lens_spec j srcs maxlen minlen : 0 ≤ minlen ≤ maxlen → let '(mx, mn) := src_lens j srcs maxlen minlen in
  mx = Z.max maxlen (max_len (default [] <$> srcs)) ∧ 0 ≤ mn ≤ mx ∧ ((0 < j)%nat → mn ≤ minlen) ∧ Forall (λ s, mn ≤ zlen s) (default [] <$> srcs).
Proof.
  revert j maxlen minlen. induction srcs as [|o srcs IH]; intros j maxlen minlen Hm; cbn [src_lens fmap list_fmap max_len foldr]; [split_and!; [lia..|constructor]|].
  destruct o as [s|]; cbn [from_option id].
  - set (mx := if zlen s >? maxlen then zlen s else maxlen). set (mn := if (j =? 0)%nat || (zlen s <? minlen) then zlen s else minlen).
    assert (Hmx : mx = Z.max maxlen (zlen s)) by (unfold mx; zcase; lia). assert (Hmn : mn ≤ zlen s ∧ 0 ≤ mn ∧ ((0 < j)%nat → mn ≤ minlen)).
    { unfold mn. destruct (Nat.eqb_spec j 0); cbn [orb]; [lia|]. destruct (Z.ltb_spec (zlen s) minlen); lia. }
    specialize (IH (S j) mx mn ltac:(lia)). destruct (src_lens (S j) srcs mx mn) as [a b]. destruct IH as (I1 & I2 & I3 & I4). split_and!; [unfold max_len in *; lia|lia|lia|lia|]. constructor; [lia|done].
  - specialize (IH (S j) maxlen 0 ltac:(lia)). destruct (src_lens (S j) srcs maxlen 0) as [a b]. destruct IH as (I1 & I2 & I3 & I4). pose proof (max_len_nonneg (default [] <$> srcs)).
    split_and!; [unfold max_len in *; cbn [length]; lia|lia|lia|lia|]. constructor; [cbn [length]; lia|done].
Qed.

(** C32: BITOP: for every operation (NOT uses one source) and every non-empty
    list of sources, missing keys included, the result has the length of the longest
    source, and each of its bytes is the operation on the bytes of the sources
    there, the shorter ones padded with zeros, although the code works on words of
    eight bytes where all the sources have data, writing over a copy of the first
    source, and leaves the loop over the sources early where the byte is
    settled. *)
Theorem bitop_correct op srcs : srcs ≠ [] → Forall (λ o, Forall is_byte (default [] o)) srcs →
  ∃ res, bitop op srcs = Some res ∧ Forall is_byte res ∧ zlen res = max_len (default [] <$> srcs) ∧
    ∀ i, 0 ≤ i < zlen res → byte_at res i = result_byte op (default [] <$> srcs) i.
Proof.
  intros Hne Hb. unfold bitop. pose proof (src_lens_spec 0 srcs 0 0 ltac:(lia)) as H. destruct (src_lens 0 srcs 0 0) as [mx mn]. destruct H as (Emx & Hmn & _ & Hall).
  pose proof (max_len_nonneg (default [] <$> srcs)) as Hpos. rewrite Z.max_r in Emx by done. destruct srcs as [|o1 rest]; [done|]. apply Forall_cons in Hb as [Hs1 Hrest]. cbn [fmap list_fmap] in *.
  assert (Hrest' : Forall (Forall is_byte) (default [] <$> rest)) by (by apply Forall_fmap). set (s1 := default [] o1) in *. set (rs := default [] <$> rest) in *.
  destruct (Z.eqb_spec mx 0) as [E0|Hmx]; [exists []; split; [done|]; split; [by apply Forall_nil_2|]; split; [cbn [length]; lia|]; intros i Hi; cbn [length] in Hi; lia|]. set (res0 := replicate (Z.to_nat mx) 0).
  assert (B0 : Forall is_byte res0) by (by apply Forall_replicate). assert (L0 : zlen res0 = mx) by (unfold res0; rewrite length_replicate; lia).
  assert (Hfast : ∃ r j, (if (mn >=? 32) && (zlen (s1 :: rs) <=? 16) then first ← head (s1 :: rs); bs ← load first 0 mn; res ← store res0 0 bs; fast_loop (Z.to_nat mx) op res (s1 :: rs) 0 mn else Some (res0, 0)) = Some (r, j) ∧
    0 ≤ j ≤ mx ∧ zlen r = mx ∧ Forall is_byte r ∧ ∀ i, 0 ≤ i < j → byte_at r i = result_byte op (s1 :: rs) i).
  { destruct (_ && _); [|exists res0, 0; split_and!; done || lia]. cbn [head mbind option_bind]. apply Forall_cons in Hall as [Ha1 Hall]. destruct (load_total s1 0 mn) as [bs Ebs]; [lia..|]. rewrite Ebs. cbn [mbind option_bind].
    destruct (load_bytes _ _ _ _ Hs1 Ebs) as (Bb & Lb & Ab). destruct (store res0 0 bs) as [r0|] eqn:Est; [|unfold store in Est; rewrite decide_True in Est by lia; done]. cbn [mbind option_bind].
    pose proof (length_store _ _ _ _ Est) as L1. pose proof (store_list_bytes _ _ _ _ B0 Bb Est) as B1.
    destruct (fast_loop_spec op s1 rs Hrest' (Z.to_nat mx) r0 0 mn) as (r & j & -> & Hj & L2 & B2 & E2); [done|lia..|done| |].
    { intros i Hi. rewrite (byte_at_store_list _ _ _ _ i ltac:(lia) Est). zcase; cbn [andb]; try lia. rewrite Ab by lia. f_equal. lia. }
    exists r, j. split_and!; [done|lia..|done|]. intros i Hi. rewrite E2 by lia. zcase; cbn [andb]; done || lia. }
  destruct Hfast as (r & j & Er & Hj & L & B & E). rewrite Er. cbn [mbind option_bind]. destruct (slow_loop_spec op s1 rs Hs1 Hrest' (Z.to_nat mx) r j mx) as (r' & -> & L' & B' & E'); [done|lia..|].
  exists r'. split_and!; [done|done|lia|]. intros i Hi. rewrite E' by lia. zcase; cbn [andb]; try lia. apply E. lia.
Qed.

(** Three sources of 40, 35 and 2 bytes and a missing key. *)
Lemma bitop_witness : ∃ res, bitop BITOP_XOR [Some (replicate 40 0xf0); Some (replicate 35 0x3c); None; Some [1; 2]] = Some res ∧ byte_at res 1 = 0xce ∧ zlen res = 40.
Proof.
  destruct (bitop_correct BITOP_XOR [Some (replicate 40 0xf0); Some (replicate 35 0x3c); None; Some [1; 2]]) as (res & E & _ & L & H).
  - done.
  - apply Forall_cons_2; [by apply Forall_replicate|]. apply Forall_cons_2; [by apply Forall_replicate|]. by repeat (apply Forall_cons_2 || apply Forall_nil_2).
  - exists res. split; [exact E|]. split; [|exact L]. assert (L' : zlen res = 40) by exact L. rewrite H by lia. reflexivity.
Defined.
End BitopCmd.
