(* ===== verification/Sds.v ===== *)
(** * sds.c, sds.h: dynamic strings, byte for byte

    A string is a pointer into an allocated block: before it a header with the
    length, the capacity and a byte of flags that says how wide these are, behind
    it the content, a terminator and free space.  The outer option is [None] where
    the code would leave the block or fail an assertion. *)

From S2P Require Import Prelude.

Module Sds.

Definition SDS_TYPE_5 : Z := 0.
Definition SDS_TYPE_8 : Z := 1.
Definition SDS_TYPE_16 : Z := 2.
Definition SDS_TYPE_32 : Z := 3.
Definition SDS_TYPE_64 : Z := 4.
Definition SDS_TYPE_MASK : Z := 7.
Definition SDS_TYPE_BITS : Z := 3.
Definition SDS_MAX_PREALLOC : Z := 1024 * 1024.

(** The size in bytes of [len] and [alloc] in [struct sdshdr8] to [sdshdr64]. *)
Definition field_size (type : Z) : Z := 2 ^ (type - 1).
Definition sdsHdrSize (type : Z) : Z :=
  let t := Z.land type SDS_TYPE_MASK in
  if t =? SDS_TYPE_5 then 1 else if t <=? SDS_TYPE_64 then 2 * field_size t + 1 else 0.
Definition sdsReqType (string_size : Z) : Z :=
  if string_size <? Z.shiftl 1 5 then SDS_TYPE_5
  else if string_size <? Z.shiftl 1 8 then SDS_TYPE_8
  else if string_size <? Z.shiftl 1 16 then SDS_TYPE_16
  else if string_size <? Z.shiftl 1 32 then SDS_TYPE_32
  else SDS_TYPE_64.
Definition sdsTypeMaxSize (type : Z) : Z :=
  if type =? SDS_TYPE_5 then Z.shiftl 1 5 - 1
  else if type =? SDS_TYPE_8 then Z.shiftl 1 8 - 1
  else if type =? SDS_TYPE_16 then Z.shiftl 1 16 - 1
  else if type =? SDS_TYPE_32 then Z.shiftl 1 32 - 1
  else u64 (-1).

(** The block and the offset of the string in it. *)
Record sds_t := Sds { s_blk : list Z; s_off : Z }.

(** ** The header *)

Definition flags (s : sds_t) : option Z := load8 (s_blk s) (s_off s - 1).
Definition SDS_TYPE_5_LEN (f : Z) : Z := Z.shiftr f SDS_TYPE_BITS.
(** [SDS_HDR(T,s)->len] and [->alloc]. *)
Definition hdr_len (t : Z) (s : sds_t) : option Z := bs ← load (s_blk s) (s_off s - sdsHdrSize t) (field_size t); Some (le_val bs).
Definition hdr_alloc (t : Z) (s : sds_t) : option Z := bs ← load (s_blk s) (s_off s - sdsHdrSize t + field_size t) (field_size t); Some (le_val bs).
Definition write_at (s : sds_t) (i : Z) (bs : list Z) : option sds_t := b ← store (s_blk s) (s_off s + i) bs; Some (Sds b (s_off s)).
Definition set_hdr_len (t : Z) (s : sds_t) (n : Z) : option sds_t := write_at s (- sdsHdrSize t) (le_bytes (Z.to_nat (field_size t)) n).
Definition set_hdr_alloc (t : Z) (s : sds_t) (n : Z) : option sds_t := write_at s (- sdsHdrSize t + field_size t) (le_bytes (Z.to_nat (field_size t)) n).
Definition set_sds_flags (s : sds_t) (f : Z) : option sds_t := write_at s (-1) [u8 f].

Definition sdslen (s : sds_t) : option Z :=
  flags ← flags s;
  let t := Z.land flags SDS_TYPE_MASK in
  if t =? SDS_TYPE_5 then Some (SDS_TYPE_5_LEN flags) else if t <=? SDS_TYPE_64 then hdr_len t s else Some 0.
(** The difference is an int, or unsigned where the fields have 32 or 64 bits. *)
Definition sdsavail (s : sds_t) : option Z :=
  flags ← flags s;
  let t := Z.land flags SDS_TYPE_MASK in
  if (t =? SDS_TYPE_5) || (t >? SDS_TYPE_64) then Some 0
  else
    alloc ← hdr_alloc t s; len ← hdr_len t s;
    Some (if t =? SDS_TYPE_32 then u32 (alloc - len) else u64 (alloc - len)).
Definition sdssetlen (s : sds_t) (newlen : Z) : option sds_t :=
  flags ← flags s;
  let t := Z.land flags SDS_TYPE_MASK in
  if t =? SDS_TYPE_5 then set_sds_flags s (Z.lor SDS_TYPE_5 (Z.shiftl newlen SDS_TYPE_BITS)) else if t <=? SDS_TYPE_64 then set_hdr_len t s newlen else Some s.
Definition sdsinclen (s : sds_t) (inc : Z) : option sds_t :=
  flags ← flags s;
  let t := Z.land flags SDS_TYPE_MASK in
  if t =? SDS_TYPE_5 then
    let newlen := u8 (SDS_TYPE_5_LEN flags + inc) in set_sds_flags s (Z.lor SDS_TYPE_5 (Z.shiftl newlen SDS_TYPE_BITS))
  else if t <=? SDS_TYPE_64 then len ← hdr_len t s; set_hdr_len t s (len + inc) else Some s.
Definition sdsalloc (s : sds_t) : option Z :=
  flags ← flags s;
  let t := Z.land flags SDS_TYPE_MASK in
  if t =? SDS_TYPE_5 then Some (SDS_TYPE_5_LEN flags) else if t <=? SDS_TYPE_64 then hdr_alloc t s else Some 0.
Definition sdssetalloc (s : sds_t) (newlen : Z) : option sds_t :=
  flags ← flags s;
  let t := Z.land flags SDS_TYPE_MASK in
  if t =? SDS_TYPE_5 then Some s else if t <=? SDS_TYPE_64 then set_hdr_alloc t s newlen else Some s.

(** A C string at an offset of a block. *)
Fixpoint strlen_loop (l : list Z) (n : Z) : option Z :=
  match l with [] => None | c :: l => if c =? 0 then Some n else strlen_loop l (n + 1) end.
Definition strlen (b : list Z) (off : Z) : option Z := if decide (0 ≤ off) then strlen_loop (drop (Z.to_nat off) b) 0 else None.

Section sds.
Context `{Al : Allocator}.
(** Whether Redis is built with jemalloc, whose je_nallocx() tells the size of
    the block that a request would get. *)
Context (USE_JEMALLOC : bool).

(** ** Creation *)

Inductive init_t := SDS_NOINIT | InitNull | Init (t : list Z).
(** [room] is whether the allocator has room when [trymalloc] is set; NULL is an
    inner [None]. *)
Definition _sdsnewlen (init : init_t) (initlen : Z) (trymalloc room : bool) : option (option sds_t) :=
  let type := sdsReqType initlen in
  let type := if (type =? SDS_TYPE_5) && (initlen =? 0) then SDS_TYPE_8 else type in
  let hdrlen := sdsHdrSize type in
  _ ← assert (u64 (initlen + hdrlen + 1) >? initlen);
  if trymalloc && negb room then Some None
  else
    let sh := fresh (usable (Z.to_nat (hdrlen + initlen + 1))) in
    sh ← (match init with InitNull => store sh 0 (replicate (Z.to_nat (hdrlen + initlen + 1)) 0) | _ => Some sh end);
    let s := Sds sh hdrlen in
    let usable := zlen sh - hdrlen - 1 in
    let usable := if usable >? sdsTypeMaxSize type then sdsTypeMaxSize type else usable in
    s ← (if type =? SDS_TYPE_5 then set_sds_flags s (Z.lor type (Z.shiftl initlen SDS_TYPE_BITS))
         else s ← set_hdr_len type s initlen; s ← set_hdr_alloc type s usable; set_sds_flags s type);
    s ← (match init with Init t => if initlen =? 0 then Some s else bs ← load t 0 initlen; write_at s 0 bs | _ => Some s end);
    s ← write_at s initlen [0];
    Some (Some s).
(** zmalloc() stops the process when there is no memory. *)
Definition sdsnewlen (init : init_t) (initlen : Z) : option sds_t := r ← _sdsnewlen init initlen false true; r.
Definition sdstrynewlen (init : init_t) (initlen : Z) (room : bool) : option (option sds_t) := _sdsnewlen init initlen true room.
Definition sdsempty : option sds_t := sdsnewlen (Init []) 0.
Definition sdsnew (init : list Z) : option sds_t := initlen ← strlen init 0; sdsnewlen (Init init) initlen.
(** The bytes from the string pointer on. *)
Definition content (s : sds_t) : list Z := drop (Z.to_nat (s_off s)) (s_blk s).
Definition sdsdup (s : sds_t) : option sds_t := len ← sdslen s; sdsnewlen (Init (content s)) len.
Definition sdsupdatelen (s : sds_t) : option sds_t := reallen ← strlen (s_blk s) (s_off s); sdssetlen s reallen.
Definition sdsclear (s : sds_t) : option sds_t := s ← sdssetlen s 0; write_at s 0 [0].

(** ** Capacity *)

Definition _sdsMakeRoomFor (s : sds_t) (addlen : Z) (greedy : bool) : option sds_t :=
  avail ← sdsavail s;
  flags ← flags s;
  let oldtype := Z.land flags SDS_TYPE_MASK in
  if avail >=? addlen then Some s
  else
    len ← sdslen s;
    let reqlen := u64 (len + addlen) in
    _ ← assert (reqlen >? len);
    let newlen := if greedy then (if reqlen <? SDS_MAX_PREALLOC then u64 (reqlen * 2) else u64 (reqlen + SDS_MAX_PREALLOC)) else reqlen in
    let type := sdsReqType newlen in
    let type := if type =? SDS_TYPE_5 then SDS_TYPE_8 else type in
    let hdrlen := sdsHdrSize type in
    _ ← assert (u64 (hdrlen + newlen + 1) >? reqlen);
    let n := Z.to_nat (u64 (hdrlen + newlen + 1)) in
    s ← (if oldtype =? type then Some (Sds (realloc n (s_blk s)) hdrlen)
         else
           bs ← load (s_blk s) (s_off s) (len + 1);
           s ← write_at (Sds (fresh (usable n)) hdrlen) 0 bs;
           s ← set_sds_flags s type;
           sdssetlen s len);
    let usable := zlen (s_blk s) - hdrlen - 1 in
    let usable := if usable >? sdsTypeMaxSize type then sdsTypeMaxSize type else usable in
    sdssetalloc s usable.
Definition sdsMakeRoomFor (s : sds_t) (addlen : Z) : option sds_t := _sdsMakeRoomFor s addlen true.
Definition sdsMakeRoomForNonGreedy (s : sds_t) (addlen : Z) : option sds_t := _sdsMakeRoomFor s addlen false.

Definition sdsResize (s : sds_t) (size : Z) (would_regrow : bool) : option sds_t :=
  flags ← flags s;
  let oldtype := Z.land flags SDS_TYPE_MASK in
  let oldhdrlen := sdsHdrSize oldtype in
  len ← sdslen s;
  alloc ← sdsalloc s;
  if alloc =? size then Some s
  else
    let len := if size <? len then size else len in
    let type := sdsReqType size in
    let type := if would_regrow && (type =? SDS_TYPE_5) then SDS_TYPE_8 else type in
    let hdrlen := sdsHdrSize type in
    let use_realloc := (oldtype =? type) || ((type <? oldtype) && (type >? SDS_TYPE_8)) in
    let newlen := if use_realloc then u64 (oldhdrlen + size + 1) else u64 (hdrlen + size + 1) in
    let alloc_already_optimal := USE_JEMALLOC && (Z.of_nat (usable (Z.to_nat newlen)) =? zlen (s_blk s)) in
    s ← (if use_realloc && negb alloc_already_optimal then Some (Sds (realloc (Z.to_nat newlen) (s_blk s)) oldhdrlen)
         else if negb alloc_already_optimal then
           bs ← load (s_blk s) (s_off s) len;
           s ← write_at (Sds (fresh (usable (Z.to_nat newlen))) hdrlen) 0 bs;
           set_sds_flags s type
         else Some s);
    s ← write_at s len [0];
    s ← sdssetlen s len;
    sdssetalloc s size.
Definition sdsRemoveFreeSpace (s : sds_t) (would_regrow : bool) : option sds_t := len ← sdslen s; sdsResize s len would_regrow.
Definition sdsAllocSize (s : sds_t) : option Z := alloc ← sdsalloc s; flags ← flags s; Some (sdsHdrSize flags + alloc + 1).

(** The assertions compare an int or an unsigned int of the field with [incr]. *)
Definition sdsIncrLen (s : sds_t) (incr : Z) : option sds_t :=
  flags ← flags s;
  let t := Z.land flags SDS_TYPE_MASK in
  '(s, len) ← (if t =? SDS_TYPE_5 then
                 let oldlen := SDS_TYPE_5_LEN flags in
                 _ ← assert (((incr >? 0) && (oldlen + incr <? 32)) || ((incr <? 0) && (oldlen >=? u32 (- incr))));
                 s ← set_sds_flags s (Z.lor SDS_TYPE_5 (Z.shiftl (oldlen + incr) SDS_TYPE_BITS));
                 Some (s, oldlen + incr)
               else if t <=? SDS_TYPE_64 then
                 alloc ← hdr_alloc t s; len ← hdr_len t s;
                 _ ← assert (((incr >=? 0) && (if t =? SDS_TYPE_64 then u64 (alloc - len) >=? incr
                                               else if t =? SDS_TYPE_32 then u32 (alloc - len) >=? u32 incr
                                               else alloc - len >=? incr))
                             || ((incr <? 0) && (len >=? (if t =? SDS_TYPE_64 then u64 (- incr) else u32 (- incr)))));
                 let len := wrapu (8 * field_size t) (len + incr) in
                 s ← set_hdr_len t s len;
                 Some (s, len)
               else Some (s, 0));
  write_at s len [0].

(** ** Content *)

Definition sdsgrowzero (s : sds_t) (len : Z) : option sds_t :=
  curlen ← sdslen s;
  if len <=? curlen then Some s
  else
    s ← sdsMakeRoomFor s (len - curlen);
    s ← write_at s curlen (replicate (Z.to_nat (len - curlen + 1)) 0);
    sdssetlen s len.
Definition sdscatlen (s : sds_t) (t : list Z) (len : Z) : option sds_t :=
  curlen ← sdslen s;
  s ← sdsMakeRoomFor s len;
  bs ← load t 0 len;
  s ← write_at s curlen bs;
  s ← sdssetlen s (u64 (curlen + len));
  write_at s (u64 (curlen + len)) [0].
Definition sdscat (s : sds_t) (t : list Z) : option sds_t := len ← strlen t 0; sdscatlen s t len.
Definition sdscatsds (s t : sds_t) : option sds_t := len ← sdslen t; sdscatlen s (content t) len.
Definition sdscpylen (s : sds_t) (t : list Z) (len : Z) : option sds_t :=
  alloc ← sdsalloc s;
  s ← (if alloc <? len then curlen ← sdslen s; sdsMakeRoomFor s (u64 (len - curlen)) else Some s);
  bs ← load t 0 len;
  s ← write_at s 0 bs;
  s ← write_at s len [0];
  sdssetlen s len.
Definition sdscpy (s : sds_t) (t : list Z) : option sds_t := len ← strlen t 0; sdscpylen s t len.

(** [strchr(cset, c)]: the terminator is a character of the set. *)
Definition in_cset (cset : list Z) (c : Z) : bool := (c =? 0) || bool_decide (c ∈ cset).
Fixpoint trim_left (fuel : nat) (s : sds_t) (cset : list Z) (sp e : Z) : option Z :=
  if sp <=? e then
    c ← load8 (s_blk s) (s_off s + sp);
    if in_cset cset c then match fuel with O => None | S fuel => trim_left fuel s cset (sp + 1) e end else Some sp
  else Some sp.
Fixpoint trim_right (fuel : nat) (s : sds_t) (cset : list Z) (sp ep : Z) : option Z :=
  if ep >? sp then
    c ← load8 (s_blk s) (s_off s + ep);
    if in_cset cset c then match fuel with O => None | S fuel => trim_right fuel s cset sp (ep - 1) end else Some ep
  else Some ep.
(** [cset] without its terminator; pointers are relative to the string. *)
Definition sdstrim (s : sds_t) (cset : list Z) : option sds_t :=
  n ← sdslen s;
  sp ← trim_left (Z.to_nat n) s cset 0 (n - 1);
  ep ← trim_right (Z.to_nat n) s cset sp (n - 1);
  let len := ep - sp + 1 in
  s ← (if sp =? 0 then Some s else b ← memmove (s_blk s) (s_off s) (s_off s + sp) len; Some (Sds b (s_off s)));
  s ← write_at s len [0];
  sdssetlen s len.
Definition sdssubstr (s : sds_t) (start len : Z) : option sds_t :=
  oldlen ← sdslen s;
  let '(start, len) := if start >=? oldlen then (0, 0) else (start, len) in
  let len := if len >? oldlen - start then oldlen - start else len in
  s ← (if len =? 0 then Some s else b ← memmove (s_blk s) (s_off s) (s_off s + start) len; Some (Sds b (s_off s)));
  s ← write_at s len [0];
  sdssetlen s len.
Definition sdsrange (s : sds_t) (start end_ : Z) : option sds_t :=
  len ← sdslen s;
  if len =? 0 then Some s
  else
    let start := if start <? 0 then s64 (len + start) else start in
    let end_ := if end_ <? 0 then s64 (len + end_) else end_ in
    let newlen := if start >? end_ then 0 else u64 (s64 (s64 (end_ - start) + 1)) in
    sdssubstr s (u64 start) newlen.

(** A loop over the characters. *)
Fixpoint map_loop (fuel : nat) (s : sds_t) (f : Z → Z) (j : Z) : option sds_t :=
  match fuel with
  | O => Some s
  | S fuel => c ← load8 (s_blk s) (s_off s + j); s ← write_at s j [f c]; map_loop fuel s f (j + 1)
  end.
Definition tolower (c : Z) : Z := if (65 <=? c) && (c <=? 90) then c + 32 else c.
Definition toupper (c : Z) : Z := if (97 <=? c) && (c <=? 122) then c - 32 else c.
Definition sdstolower (s : sds_t) : option sds_t := len ← sdslen s; map_loop (Z.to_nat len) s tolower 0.
Definition sdstoupper (s : sds_t) : option sds_t := len ← sdslen s; map_loop (Z.to_nat len) s toupper 0.
(** [from] and [to] have [setlen] characters; the first that is equal counts. *)
Fixpoint map_char (from_to : list (Z * Z)) (c : Z) : Z :=
  match from_to with [] => c | (f, t) :: l => if c =? f then t else map_char l c end.
Definition sdsmapchars (s : sds_t) (from_to : list (Z * Z)) : option sds_t := l ← sdslen s; map_loop (Z.to_nat l) s (map_char from_to) 0.
End sds.
End Sds.
