(* ===== verification/SdsOk.v ===== *)
(** * sds.c: the block represents a string

    What the header says of the block ([raw]), and the specification of every
    operation on the string it represents ([rep]). *)

From S2P Require Import Prelude Sds.
Import Sds.

Module SdsOk.

(** ** Headers *)

(** The width of the two fields, none for type 5. *)
Definition width (t : Z) : nat := Z.to_nat (field_size t).
(** A block with room for a header of type [t]: the two fields, the flags, then
    the bytes [pay]. *)
Record shape (s : sds_t) (t : Z) (L A : list Z) (f : Z) (pay : list Z) : Prop := Shape {
  sh_type : 0 ≤ t ≤ 4;
  sh_off : s_off s = sdsHdrSize t;
  sh_blk : s_blk s = L ++ A ++ [f] ++ pay;
  sh_len : length L = width t;
  sh_alloc : length A = width t;
}.
(** The flags byte: the type, and the length for type 5. *)
Definition flag_byte (t len : Z) : Z := if t =? SDS_TYPE_5 then 8 * len else t.
(** The header is that of a string of [len] bytes with room for [a]. *)
Record raw (s : sds_t) (t len a : Z) (pay : list Z) : Prop := Raw {
  raw_shape : shape s t (le_bytes (width t) len) (le_bytes (width t) a) (flag_byte t len) pay;
  raw_len : 0 ≤ len ≤ a;
  raw_max : a ≤ sdsTypeMaxSize t;
  raw_room : a < zlen pay;
  raw_5 : t = SDS_TYPE_5 → a = len;
}.
(** The string, terminated. *)
Definition rep (s : sds_t) (str : list Z) : Prop := ∃ t a rest, raw s t (zlen str) a (str ++ 0 :: rest).

Lemma type_facts t : 0 ≤ t ≤ 4 →
  Z.land t SDS_TYPE_MASK = t ∧ (t <=? SDS_TYPE_64) = true ∧ (t >? SDS_TYPE_64) = false ∧ u8 t = t ∧ sdsHdrSize t = 2 * Z.of_nat (width t) + 1 ∧ Z.of_nat (width t) = field_size t ∧ 31 ≤ sdsTypeMaxSize t < 2 ^ 64 ∧
  (t ≠ 0 → sdsTypeMaxSize t = 2 ^ (8 * Z.of_nat (width t)) - 1).
Proof. intros Ht. assert (t = 0 ∨ t = 1 ∨ t = 2 ∨ t = 3 ∨ t = 4) as [->|[->|[->|[->| ->]]]] by lia; split_and!; done. Qed.
Lemma flag_type t len : 0 ≤ t ≤ 4 → Z.land (flag_byte t len) SDS_TYPE_MASK = t.
Proof.
  intros Ht. unfold flag_byte. destruct (Z.eqb_spec t SDS_TYPE_5) as [->|]; [|by apply type_facts]. change (Z.land (8 * len) (2 ^ 3 - 1) = 0). rewrite land_low by lia. change (2 ^ 3) with 8. rewrite Z.mul_comm. apply Z.mod_mul. lia.
Qed.
Lemma flag_len len : SDS_TYPE_5_LEN (8 * len) = len.
Proof. unfold SDS_TYPE_5_LEN. rewrite Z.shiftr_div_pow2 by done. change (2 ^ SDS_TYPE_BITS) with 8. rewrite Z.mul_comm. apply Z.div_mul. lia. Qed.
Lemma flag_set5 n : 0 ≤ n ≤ 31 → u8 (Z.lor SDS_TYPE_5 (Z.shiftl n SDS_TYPE_BITS)) = 8 * n.
Proof. intros Hn. change (Z.lor SDS_TYPE_5 (Z.shiftl n SDS_TYPE_BITS)) with (Z.shiftl n 3). rewrite Z.shiftl_mul_pow2, wrapu_small by lia. lia. Qed.

Section shape.
Context (s : sds_t) (t : Z) (L A : list Z) (f : Z) (pay : list Z) (Hs : shape s t L A f pay).
Lemma shape_flags : flags s = Some f.
Proof.
  destruct Hs as [Ht Eo Eb Hl Ha]. pose proof (type_facts t Ht) as (_ & _ & _ & _ & Eh & _). unfold flags. rewrite Eb, Eo, app_assoc. apply load8_app. llia.
Qed.
Lemma shape_put i bs x old y : pay = x ++ old ++ y → i = zlen x → length old = length bs → ∃ s', write_at s i bs = Some s' ∧ shape s' t L A f (x ++ bs ++ y).
Proof.
  intros -> -> Hlen. destruct Hs as [Ht Eo Eb Hl Ha]. pose proof (type_facts t Ht) as (_ & _ & _ & _ & Eh & _). unfold write_at. rewrite Eb, Eo. rewrite (app_assoc [f]), (app_assoc A), (app_assoc L), store_app by llia. cbn [mbind option_bind]. eexists. split; [done|].
  split; cbn; [done|done|by rewrite <- !app_assoc|done|done].
Qed.
Lemma shape_set_flags g : ∃ s', set_sds_flags s g = Some s' ∧ shape s' t L A (u8 g) pay.
Proof.
  destruct Hs as [Ht Eo Eb Hl Ha]. pose proof (type_facts t Ht) as (_ & _ & _ & _ & Eh & _). unfold set_sds_flags, write_at. rewrite Eb, Eo, (app_assoc L), store_app by llia. cbn [mbind option_bind]. eexists. split; [done|]. split; cbn; [done|done|by rewrite <- !app_assoc|done|done].
Qed.
Lemma shape_set_len n : ∃ s', set_hdr_len t s n = Some s' ∧ shape s' t (le_bytes (width t) n) A f pay.
Proof.
  destruct Hs as [Ht Eo Eb Hl Ha]. unfold set_hdr_len, write_at. rewrite Eb, Eo, Z.add_opp_diag_r, store_head by (unfold width in Hl; llia). cbn [mbind option_bind]. eexists. split; [done|]. split; cbn; [done|done|done|llia|done].
Qed.
Lemma shape_set_alloc n : ∃ s', set_hdr_alloc t s n = Some s' ∧ shape s' t L (le_bytes (width t) n) f pay.
Proof.
  destruct Hs as [Ht Eo Eb Hl Ha]. pose proof (type_facts t Ht) as (_ & _ & _ & _ & _ & Ef & _). unfold set_hdr_alloc, write_at. rewrite Eb, Eo. replace (sdsHdrSize t + (- sdsHdrSize t + field_size t)) with (zlen L) by lia. rewrite store_app by (unfold width in *; llia). cbn [mbind option_bind]. eexists. split; [done|]. split; cbn; [done|done|done|done|llia].
Qed.
Lemma shape_setlen n : Z.land f SDS_TYPE_MASK = t → 0 ≤ n ≤ sdsTypeMaxSize t → (t ≠ SDS_TYPE_5 → f = t) → ∃ s', sdssetlen s n = Some s' ∧ shape s' t (le_bytes (width t) n) A (flag_byte t n) pay.
Proof.
  intros Ef Hn Hf. pose proof (sh_type _ _ _ _ _ _ Hs) as Ht. destruct (type_facts t Ht) as (_ & Hle & _). unfold sdssetlen. rewrite shape_flags. cbn [mbind option_bind]. rewrite Ef, Hle. unfold flag_byte. destruct (Z.eqb_spec t SDS_TYPE_5) as [E5|Hne].
  - destruct (shape_set_flags (Z.lor SDS_TYPE_5 (Z.shiftl n SDS_TYPE_BITS))) as (s' & -> & H'). rewrite flag_set5 in H' by (rewrite E5 in Hn; exact Hn). exists s'. split; [done|]. destruct H' as [? ? ? Hl Ha]. assert (length L = 0%nat) as E0 by (rewrite Hl, E5; done). apply nil_length_inv in E0. subst L. split; try done; by rewrite E5.
  - destruct (shape_set_len n) as (s' & E & H'). rewrite (Hf Hne) in H'. eauto.
Qed.
Lemma shape_setalloc n : Z.land f SDS_TYPE_MASK = t → ∃ s', sdssetalloc s n = Some s' ∧ shape s' t L (le_bytes (width t) n) f pay.
Proof.
  intros Ef. pose proof (sh_type _ _ _ _ _ _ Hs) as Ht. destruct (type_facts t Ht) as (_ & Hle & _). unfold sdssetalloc. rewrite shape_flags. cbn [mbind option_bind]. rewrite Ef, Hle. destruct (Z.eqb_spec t SDS_TYPE_5) as [E5|Hne]; [|apply shape_set_alloc].
  exists s. split; [done|]. destruct Hs as [? ? ? Hl Ha]. assert (length A = 0%nat) as E0 by (rewrite Ha, E5; done). apply nil_length_inv in E0. subst A. split; try done; by rewrite E5.
Qed.
End shape.

Section raw.
Context (s : sds_t) (t len a : Z) (pay : list Z) (Hr : raw s t len a pay).
Lemma raw_type : 0 ≤ t ≤ 4.
Proof. apply Hr. Qed.
Lemma raw_small : 0 ≤ len < 2 ^ 64 ∧ 0 ≤ a < 2 ^ 64.
Proof. destruct (type_facts t raw_type) as (_ & _ & _ & _ & _ & _ & ? & _). destruct Hr. lia. Qed.
Lemma flags_spec : flags s = Some (flag_byte t len).
Proof. eapply shape_flags, Hr. Qed.
Lemma hdr_fields : t ≠ SDS_TYPE_5 → hdr_len t s = Some len ∧ hdr_alloc t s = Some a.
Proof.
  intros Hne. destruct (type_facts t raw_type) as (_ & _ & _ & _ & Eh & Ef & _ & Em). destruct Hr as [[Ht Eo Eb _ _] Hl Hm _ _]. specialize (Em Hne). unfold hdr_len, hdr_alloc. rewrite Eb, Eo, <- Ef. split.
  - rewrite Z.sub_diag, load_head by llia. cbn [mbind option_bind]. rewrite le_val_bytes, Z.mod_small by lia. done.
  - rewrite load_app by llia. cbn [mbind option_bind]. rewrite le_val_bytes, Z.mod_small by lia. done.
Qed.
Lemma sdslen_spec : sdslen s = Some len.
Proof.
  pose proof raw_type as Ht. unfold sdslen. rewrite flags_spec. cbn [mbind option_bind]. rewrite flag_type by done. destruct (type_facts t Ht) as (_ & -> & _). unfold flag_byte. destruct (Z.eqb_spec t SDS_TYPE_5); [by rewrite flag_len|by apply hdr_fields].
Qed.
Lemma sdsalloc_spec : sdsalloc s = Some a.
Proof.
  pose proof raw_type as Ht. unfold sdsalloc. rewrite flags_spec. cbn [mbind option_bind]. rewrite flag_type by done. destruct (type_facts t Ht) as (_ & -> & _). unfold flag_byte. destruct (Z.eqb_spec t SDS_TYPE_5); [rewrite flag_len, (raw_5 _ _ _ _ _ Hr); done|by apply hdr_fields].
Qed.
Lemma sdsavail_spec : sdsavail s = Some (a - len).
Proof.
  pose proof raw_small as [? ?]. pose proof raw_type as Ht. destruct Hr as [_ Hl Hm _ H5]. unfold sdsavail. rewrite flags_spec. cbn [mbind option_bind]. rewrite flag_type by done. destruct (type_facts t Ht) as (_ & _ & -> & _). rewrite orb_false_r.
  destruct (Z.eqb_spec t SDS_TYPE_5) as [E5|]; [f_equal; rewrite H5 by done; lia|]. destruct hdr_fields as [-> ->]; [done|]. cbn [mbind option_bind]. f_equal.
  destruct (Z.eqb_spec t SDS_TYPE_32) as [E32|]; [rewrite E32 in Hm; change (sdsTypeMaxSize SDS_TYPE_32) with (2 ^ 32 - 1) in Hm|]; apply wrapu_small; lia.
Qed.
(** Writing behind the header. *)
Lemma put_spec i bs x old y : pay = x ++ old ++ y → i = zlen x → length old = length bs → ∃ s', write_at s i bs = Some s' ∧ raw s' t len a (x ++ bs ++ y).
Proof. destruct Hr as [Hs Hle Hm Hro H5]. intros Ep Ei Hl. destruct (shape_put _ _ _ _ _ _ Hs i bs x old y) as (s' & -> & Hs'); [done..|]. exists s'. split; [done|]. split; [done|done|done|subst pay; llia|done]. Qed.
Lemma setlen_spec n : 0 ≤ n ≤ a → ∃ s', sdssetlen s n = Some s' ∧ raw s' t n (if t =? SDS_TYPE_5 then n else a) pay.
Proof.
  intros Hn. pose proof raw_type as Ht. destruct Hr as [Hs Hle Hm Hro H5]. destruct (shape_setlen _ _ _ _ _ _ Hs n) as (s' & -> & Hs'); [by apply flag_type|lia|unfold flag_byte; by destruct (Z.eqb_spec t SDS_TYPE_5)|]. exists s'. split; [done|].
  destruct (Z.eqb_spec t SDS_TYPE_5) as [E5|Hne]; split; try done; try lia. rewrite E5 in *. done.
Qed.
Lemma setalloc_spec n : len ≤ n ≤ sdsTypeMaxSize t → n < zlen pay → ∃ s', sdssetalloc s n = Some s' ∧ raw s' t len (if t =? SDS_TYPE_5 then a else n) pay.
Proof.
  intros Hn Hp. pose proof raw_type as Ht. destruct Hr as [Hs Hle Hm Hro H5]. destruct (shape_setalloc _ _ _ _ _ _ Hs n) as (s' & -> & Hs'); [by apply flag_type|]. exists s'. split; [done|].
  destruct (Z.eqb_spec t SDS_TYPE_5) as [E5|Hne]; split; try done; try lia. rewrite E5 in *. done.
Qed.
End raw.

(** ** Creation *)

Definition MAX : Z := 2 ^ 62.
Lemma req_type n : 0 ≤ n < 2 ^ 64 → 0 ≤ sdsReqType n ≤ 4 ∧ n ≤ sdsTypeMaxSize (sdsReqType n).
Proof. intros Hn. unfold sdsReqType. rewrite !Z.shiftl_mul_pow2 by lia. zcase; (split; [done|]); match goal with |- _ ≤ ?x => let y := eval vm_compute in x in change x with y end; lia. Qed.
(** The types that the code chooses instead of type 5. *)
Lemma grow_type n (b : bool) : 0 ≤ n < 2 ^ 64 → let t := if (sdsReqType n =? SDS_TYPE_5) && b then SDS_TYPE_8 else sdsReqType n in 0 ≤ t ≤ 4 ∧ n ≤ sdsTypeMaxSize t.
Proof. intros Hn. destruct (req_type n Hn) as [Ht Hm]. destruct (Z.eqb_spec (sdsReqType n) SDS_TYPE_5) as [E|]; [|done]. destruct b; [|done]. rewrite E in Hm. cbn [andb]. change (sdsTypeMaxSize SDS_TYPE_5) with 31 in Hm. change (sdsTypeMaxSize SDS_TYPE_8) with 255. unfold SDS_TYPE_8. lia. Qed.
Lemma hdr_bounds t : 0 ≤ t ≤ 4 → 1 ≤ sdsHdrSize t ≤ 17.
Proof. intros Ht. assert (t = 0 ∨ t = 1 ∨ t = 2 ∨ t = 3 ∨ t = 4) as [->|[->|[->|[->| ->]]]] by lia; done. Qed.
Lemma block_shape b t : 0 ≤ t ≤ 4 → sdsHdrSize t ≤ zlen b → ∃ L A f, shape (Sds b (sdsHdrSize t)) t L A f (drop (Z.to_nat (sdsHdrSize t)) b).
Proof.
  intros Ht Hb. destruct (type_facts t Ht) as (_ & _ & _ & _ & Eh & _). set (w := width t) in *. assert (length (drop (w + w) b) ≠ 0%nat) as Hne by llia. destruct (drop (w + w) b) as [|f r] eqn:Ed; [done|].
  exists (take w b), (take w (drop w b)), f. split; [done|done| |llia|llia]. cbn [s_blk]. replace (drop (Z.to_nat (sdsHdrSize t)) b) with r; [|replace (Z.to_nat (sdsHdrSize t)) with ((w + w) + 1)%nat by lia; by rewrite <- drop_drop, Ed].
  cbn [app]. rewrite <- Ed. rewrite <- (take_drop w b) at 1. f_equal. rewrite <- (take_drop w (drop w b)) at 1. by rewrite drop_drop.
Qed.
(** The header of a new string. *)
Lemma init_hdr s t L A f pay n a : shape s t L A f pay → 0 ≤ n ≤ a → a ≤ sdsTypeMaxSize t →
  ∃ s', (if t =? SDS_TYPE_5 then set_sds_flags s (Z.lor t (Z.shiftl n SDS_TYPE_BITS)) else s ← set_hdr_len t s n; s ← set_hdr_alloc t s a; set_sds_flags s t) = Some s' ∧
    shape s' t (le_bytes (width t) n) (le_bytes (width t) a) (flag_byte t n) pay.
Proof.
  intros Hs Hn Ha. pose proof (sh_type _ _ _ _ _ _ Hs) as Ht. destruct (type_facts t Ht) as (_ & _ & _ & Eu & _). unfold flag_byte. destruct (Z.eqb_spec t SDS_TYPE_5) as [E5|Hne].
  - destruct (shape_set_flags _ _ _ _ _ _ Hs (Z.lor t (Z.shiftl n SDS_TYPE_BITS))) as (s' & -> & H'). rewrite E5, flag_set5 in H' by (rewrite E5 in Ha; change (sdsTypeMaxSize SDS_TYPE_5) with 31 in Ha; lia). exists s'. split; [done|]. rewrite E5. destruct H' as [? ? E Hl HA]. cbn in Hl, HA. apply nil_length_inv in Hl, HA. subst. by split.
  - destruct (shape_set_len _ _ _ _ _ _ Hs n) as (s1 & -> & H1). cbn [mbind option_bind]. destruct (shape_set_alloc _ _ _ _ _ _ H1 a) as (s2 & -> & H2). cbn [mbind option_bind]. destruct (shape_set_flags _ _ _ _ _ _ H2 t) as (s3 & -> & H3). exists s3. rewrite Eu in H3. done.
Qed.

Section alloc.
Context `{Allocator}.
Implicit Type (s : sds_t) (str : list Z).

(** The string a call of [_sdsnewlen] is to create. *)
Definition init_spec (init : init_t) (n : Z) (str : list Z) : Prop :=
  zlen str = n ∧ match init with SDS_NOINIT => True | InitNull => str = replicate (Z.to_nat n) 0 | Init t => load t 0 n = Some str end.
Lemma newlen_spec init n try room : 0 ≤ n ≤ MAX → (∀ t, init = Init t → n ≤ zlen t) →
  if try && negb room then _sdsnewlen init n try room = Some None
  else ∃ s str, _sdsnewlen init n try room = Some (Some s) ∧ rep s str ∧ init_spec init n str.
Proof.
  unfold MAX. intros Hn Hinit. unfold _sdsnewlen. destruct (grow_type n (n =? 0) ltac:(lia)) as [Ht Hm]. set (t := if _ && _ then _ else _) in *. pose proof (hdr_bounds t Ht). rewrite wrapu_small by lia. unfold assert. destruct (Z.gtb_spec (n + sdsHdrSize t + 1) n) as [_|]; [|lia]. cbn [mbind option_bind].
  destruct (try && negb room); [done|]. set (N := Z.to_nat (sdsHdrSize t + n + 1)). pose proof (usable_ge N) as HN. assert (Z.of_nat N = sdsHdrSize t + n + 1) as EN by (unfold N; lia).
  assert (∃ sh, match init with InitNull => store (fresh (usable N)) 0 (replicate N 0) | _ => Some (fresh (usable N)) end = Some sh ∧ length sh = usable N ∧ (init = InitNull → take N sh = replicate N 0)) as (sh & Esh & Hlen & Hnull).
  { destruct init; [by eexists; split_and!; [done|apply length_fresh|]| |by eexists; split_and!; [done|apply length_fresh|]]. unfold store. rewrite decide_True by llia. eexists. split_and!; [done|llia|]. intros _. change (take (Z.to_nat 0) (fresh (usable N))) with (@nil Z). cbn [app]. by rewrite take_app_length' by (by rewrite length_replicate). }
  rewrite Esh. cbn [mbind option_bind]. set (a := if _ >? _ then _ else _). assert (n ≤ a ≤ sdsTypeMaxSize t ∧ a ≤ zlen sh - sdsHdrSize t - 1) as [Ha Ha'] by (unfold a; zcase; lia).
  destruct (block_shape sh t Ht ltac:(lia)) as (L & A & f & Hs). destruct (init_hdr _ _ _ _ _ _ n a Hs ltac:(lia) ltac:(lia)) as (s1 & -> & H1). cbn [mbind option_bind]. set (pay := drop _ sh) in *. assert (zlen pay = zlen sh - sdsHdrSize t) as Hp by (unfold pay; llia).
  assert (∃ x z y, pay = x ++ [z] ++ y ∧ zlen x = n) as (x & z & y & Epay & Hx).
  { exists (take (Z.to_nat n) pay). destruct (drop (Z.to_nat n) pay) as [|z y] eqn:Ed; [apply (f_equal length) in Ed; rewrite length_drop in Ed; cbn in Ed; lia|]. exists z, y. split; [cbn; rewrite <- Ed; by rewrite take_drop|llia]. }
  assert (∃ s2 str, match init with Init t0 => if n =? 0 then Some s1 else bs ← load t0 0 n; write_at s1 0 bs | _ => Some s1 end = Some s2 ∧ shape s2 t (le_bytes (width t) n) (le_bytes (width t) a) (flag_byte t n) (str ++ [z] ++ y) ∧ init_spec init n str) as (s2 & str & -> & H2 & Hstr).
  { rewrite Epay in H1. destruct init as [| |t0].
    - exists s1, x. by split_and!.
    - exists s1, x. split_and!; [done|done|split; [done|]]. specialize (Hnull eq_refl). assert (E : take (Z.to_nat n) pay = replicate (Z.to_nat n) 0); [|rewrite Epay, take_app_length' in E by lia; done].
      unfold pay. rewrite take_drop_commute. replace (Z.to_nat (sdsHdrSize t) + Z.to_nat n)%nat with (N `min` (Z.to_nat (sdsHdrSize t) + Z.to_nat n))%nat by lia. rewrite Nat.min_comm, <- take_take, Hnull, take_replicate, drop_replicate. f_equal. lia.
    - specialize (Hinit t0 eq_refl). destruct (load_total t0 0 n) as [bs Ebs]; [lia..|]. pose proof (load_Some _ _ _ _ Ebs) as (_ & _ & _ & _ & Elen). destruct (Z.eqb_spec n 0) as [E0|].
      + exists s1, x. split_and!; [done|done|split; [done|]]. rewrite Ebs. f_equal. rewrite E0 in Elen, Hx. by destruct bs, x.
      + rewrite Ebs. cbn [mbind option_bind]. destruct (shape_put _ _ _ _ _ _ H1 0 bs [] x ([z] ++ y)) as (s2 & -> & H2); [done|done|lia|]. exists s2, bs. split_and!; [done|done|split; [lia|done]]. }
  cbn [mbind option_bind]. destruct Hstr as [Hl Hstr]. destruct (shape_put _ _ _ _ _ _ H2 n [0] str [z] y) as (s3 & -> & H3); [done|done|done|]. cbn [mbind option_bind]. exists s3, str. split_and!; [done| |by split]. rewrite Epay in Hp.
  rewrite <- Hl in *. destruct (Z.eqb_spec t SDS_TYPE_5) as [E5|Hne].
  - exists t, (zlen str), y. split; [rewrite E5 in *; exact H3|lia|lia|llia|done].
  - exists t, a, y. split; [exact H3|lia|lia|llia|done].
Qed.

(** ** Capacity *)

Lemma sds_split_at (l : list Z) n : 0 ≤ n ≤ zlen l → ∃ x y, l = x ++ y ∧ zlen x = n.
Proof. intros Hn. exists (take (Z.to_nat n) l), (drop (Z.to_nat n) l). split; [by rewrite take_drop|llia]. Qed.
(** Content and header in a new block, the capacity not yet. *)
Lemma new_hdr b t (bs : list Z) : 0 ≤ t ≤ 4 → sdsHdrSize t + zlen bs ≤ zlen b →
  ∃ s1 s2 L A y, write_at (Sds b (sdsHdrSize t)) 0 bs = Some s1 ∧ set_sds_flags s1 t = Some s2 ∧ shape s2 t L A t (bs ++ y) ∧ length (s_blk s2) = length b.
Proof.
  intros Ht Hb. pose proof (hdr_bounds t Ht). destruct (block_shape b t Ht ltac:(lia)) as (L & A & f & Hs). set (pay := drop _ b) in *. assert (zlen pay = zlen b - sdsHdrSize t) as Hp by (unfold pay; llia). destruct (sds_split_at pay (zlen bs)) as (old & y & Ey & Hold); [lia|].
  destruct (shape_put _ _ _ _ _ _ Hs 0 bs [] old y) as (s1 & E1 & H1); [done|done|lia|]. destruct (shape_set_flags _ _ _ _ _ _ H1 t) as (s2 & E2 & H2). destruct (type_facts t Ht) as (_ & _ & _ & Eu & _). rewrite Eu in H2. exists s1, s2, L, A, y. split_and!; [done|done|done|].
  apply bind_Some in E1 as (b1 & Eb1 & [= <-]). apply bind_Some in E2 as (b2 & Eb2 & [= <-]). apply length_store in Eb1, Eb2. cbn [s_blk] in *. lia.
Qed.
Lemma makeroom_spec s t len a x y addlen greedy : raw s t len a (x ++ y) → zlen x = len + 1 → 0 ≤ addlen → len + addlen ≤ MAX →
  ∃ s' t' a' y', _sdsMakeRoomFor s addlen greedy = Some s' ∧ raw s' t' len a' (x ++ y') ∧ len + addlen ≤ a'.
Proof.
  unfold MAX. intros Hr Hx Hadd Hmax. pose proof (raw_type _ _ _ _ _ Hr) as Ht. unfold _sdsMakeRoomFor. rewrite (sdsavail_spec _ _ _ _ _ Hr). cbn [mbind option_bind]. rewrite (flags_spec _ _ _ _ _ Hr). cbn [mbind option_bind]. rewrite flag_type by done.
  destruct (Z.geb_spec (a - len) addlen) as [Hge|Hlt]; [exists s, t, a, y; split_and!; [done|done|lia]|]. rewrite (sdslen_spec _ _ _ _ _ Hr). cbn [mbind option_bind]. pose proof Hr as [Hs Hl Hm Hro H5]. rewrite (wrapu_small 64 (len + addlen)) by lia. unfold assert. destruct (Z.gtb_spec (len + addlen) len) as [_|]; [|lia]. cbn [mbind option_bind].
  set (newlen := if greedy then _ else _). assert (len + addlen ≤ newlen < 2 ^ 63 + 2 ^ 21) as Hnew by (unfold newlen, SDS_MAX_PREALLOC; destruct greedy; [|lia]; zcase; rewrite wrapu_small by lia; lia). pose proof (grow_type newlen true ltac:(lia)) as [Ht' Hm']. rewrite andb_true_r in Ht', Hm'. set (t' := if sdsReqType newlen =? _ then _ else _) in *.
  assert (t' ≠ SDS_TYPE_5) as Hne by (unfold t'; by destruct (Z.eqb_spec (sdsReqType newlen) SDS_TYPE_5)). pose proof (hdr_bounds t' Ht') as Hhd. rewrite (wrapu_small 64 (sdsHdrSize t' + newlen + 1)) by lia. destruct (Z.gtb_spec (sdsHdrSize t' + newlen + 1) (len + addlen)) as [_|]; [|lia]. cbn [mbind option_bind].
  set (n := Z.to_nat (sdsHdrSize t' + newlen + 1)). pose proof (usable_ge n) as Hn. assert (Z.of_nat n = sdsHdrSize t' + newlen + 1) as En by (unfold n; lia).
  assert (Hfin : ∀ s1 A y', shape s1 t' (le_bytes (width t') len) A t' (x ++ y') → (n ≤ length (s_blk s1))%nat → ∃ s' a', (let usable := zlen (s_blk s1) - sdsHdrSize t' - 1 in sdssetalloc s1 (if usable >? sdsTypeMaxSize t' then sdsTypeMaxSize t' else usable)) = Some s' ∧ raw s' t' len a' (x ++ y') ∧ len + addlen ≤ a').
  { intros s1 A y' H1 Hlen. cbn zeta. set (a' := if _ >? _ then _ else _). destruct (type_facts t' Ht') as (El & _ & _ & _ & Eh & _). destruct (shape_setalloc _ _ _ _ _ _ H1 a' El) as (s' & -> & Hs'). exists s', a'. assert (newlen ≤ a' ≤ sdsTypeMaxSize t' ∧ a' ≤ zlen (s_blk s1) - sdsHdrSize t' - 1) as [Ha1 Ha2] by (unfold a'; zcase; lia).
    split_and!; [done| |lia]. split; [|lia|lia| |done].
    - unfold flag_byte. rewrite (proj2 (Z.eqb_neq _ _) Hne). done.
    - destruct H1 as [_ _ Eb HL HA]. rewrite Eb in Ha2. llia. }
  destruct (Z.eqb_spec t t') as [<-|Hdiff].
  - cbn [mbind option_bind]. destruct Hs as [_ Eo Eb HL HA]. set (hd := le_bytes (width t) len ++ le_bytes (width t) a ++ [flag_byte t len] ++ x). assert (Ebx : s_blk s = hd ++ y) by (rewrite Eb; unfold hd; by rewrite <- !app_assoc). destruct (type_facts t Ht) as (_ & _ & _ & _ & Eh & _).
    destruct (realloc_keep n hd y) as (y' & Ere & Hre); [unfold hd; llia|]. rewrite Ebx, Ere. destruct (Hfin (Sds (hd ++ y') (sdsHdrSize t)) (le_bytes (width t) a) y') as (s' & a' & E' & H'); [|done|].
    + split; cbn; [done|done|unfold hd; rewrite <- !app_assoc; unfold flag_byte; by rewrite (proj2 (Z.eqb_neq _ _) Hne)|done|done].
    + exists s', t, a', y'. done.
  - destruct Hs as [_ Eo Eb HL HA]. rewrite Eb, Eo. destruct (type_facts t Ht) as (_ & _ & _ & _ & Eh & _). rewrite (app_assoc (le_bytes _ a)), (app_assoc (le_bytes _ len)), load_app by llia. cbn [mbind option_bind].
    destruct (new_hdr (fresh (usable n)) t' x Ht') as (s1 & s2 & L & A & y' & -> & E2 & H2 & Hlen); [llia|]. cbn [mbind option_bind]. rewrite E2. cbn [mbind option_bind]. destruct (type_facts t' Ht') as (El & _).
    destruct (shape_setlen _ _ _ _ _ _ H2 len El) as (s3 & E3 & H3); [lia|done|]. rewrite E3. cbn [mbind option_bind]. unfold flag_byte in H3. rewrite (proj2 (Z.eqb_neq _ _) Hne) in H3. destruct (Hfin s3 A y' H3) as (s' & a' & E' & H'); [|exists s', t', a', y'; done].
    destruct H2 as [_ _ Eb2 HL2 HA2], H3 as [_ _ Eb3 HL3 HA3]. rewrite Eb3. rewrite Eb2 in Hlen. llia.
Qed.

(** [sdsResize] is right when it shrinks the string, when the type stays, and
    without jemalloc; otherwise see [sds_resize_overflow]. *)
Definition resize_type (size : Z) (would_regrow : bool) : Z := if would_regrow && (sdsReqType size =? SDS_TYPE_5) then SDS_TYPE_8 else sdsReqType size.
Definition resize_safe (jemalloc : bool) (s : sds_t) (size : Z) (would_regrow : bool) : bool :=
  negb jemalloc || match sdsalloc s, flags s with Some a, Some f => (size <=? a) || (Z.land f SDS_TYPE_MASK =? resize_type size would_regrow) | _, _ => false end.

(** The last steps: terminator, length and capacity. *)
Lemma resize_end s t L A f x z y size : shape s t L A f (x ++ [z] ++ y) → Z.land f SDS_TYPE_MASK = t → (t ≠ SDS_TYPE_5 → f = t) → zlen x ≤ size ≤ sdsTypeMaxSize t → size < zlen (x ++ [z] ++ y) →
  ∃ s', (s ← write_at s (zlen x) [0]; s ← sdssetlen s (zlen x); sdssetalloc s size) = Some s' ∧ rep s' x.
Proof.
  intros Hs Ef Hf Hsz Hroom. destruct (shape_put _ _ _ _ _ _ Hs (zlen x) [0] x [z] y) as (s1 & -> & H1); [done..|]. cbn [mbind option_bind]. destruct (shape_setlen _ _ _ _ _ _ H1 (zlen x) Ef) as (s2 & -> & H2); [lia|done|]. cbn [mbind option_bind].
  destruct (shape_setalloc _ _ _ _ _ _ H2 size) as (s3 & -> & H3); [apply flag_type; apply Hs|]. exists s3. split; [done|]. destruct (Z.eqb_spec t SDS_TYPE_5) as [E5|Hne].
  - exists t, (zlen x), y. split; [rewrite E5 in *; exact H3|lia|lia|llia|done].
  - exists t, size, y. split; [exact H3|lia|lia|llia|done].
Qed.
Lemma max_mono t t' : 0 ≤ t ≤ t' → t' ≤ 4 → sdsTypeMaxSize t ≤ sdsTypeMaxSize t'.
Proof. intros Ht Ht'. assert (t = 0 ∨ t = 1 ∨ t = 2 ∨ t = 3 ∨ t = 4) as [->|[->|[->|[->| ->]]]] by lia; assert (t' = 0 ∨ t' = 1 ∨ t' = 2 ∨ t' = 3 ∨ t' = 4) as [->|[->|[->|[->| ->]]]] by lia; try lia; done. Qed.
(** The block keeps the start of the string and has room. *)
Lemma keep_split s t L A f pay str z rest k N : shape s t L A f pay → pay = str ++ z :: rest → 0 ≤ k ≤ zlen str → sdsHdrSize t + k + 1 ≤ Z.of_nat N →
  ∃ w y, shape (Sds (realloc N (s_blk s)) (sdsHdrSize t)) t L A f (take (Z.to_nat k) str ++ [w] ++ y) ∧ Z.of_nat N - sdsHdrSize t ≤ zlen (take (Z.to_nat k) str ++ [w] ++ y).
Proof.
  intros [Ht Eo Eb HL HA] -> Hk HN. destruct (type_facts t Ht) as (_ & _ & _ & _ & Eh & _). assert (Hsp : ∃ w r, str ++ z :: rest = take (Z.to_nat k) str ++ w :: r).
  { destruct (drop (Z.to_nat k) (str ++ z :: rest)) as [|w r] eqn:Ed; [apply (f_equal length) in Ed; rewrite length_drop in Ed; cbn in Ed; llia|]. exists w, r. rewrite <- (take_drop (Z.to_nat k) (str ++ z :: rest)), Ed, take_app_le by lia. done. }
  destruct Hsp as (w & r & Er). destruct (realloc_keep N (L ++ A ++ [f] ++ take (Z.to_nat k) str ++ [w]) r) as (y & E & Hlen); [llia|]. exists w, y. rewrite Eb, Er. replace (L ++ A ++ [f] ++ take (Z.to_nat k) str ++ w :: r) with ((L ++ A ++ [f] ++ take (Z.to_nat k) str ++ [w]) ++ r) by (by rewrite <- !app_assoc). rewrite E. split.
  - split; cbn [s_blk s_off]; [done|done|by rewrite <- !app_assoc|done|done].
  - llia.
Qed.
Lemma sds_resize_spec J s str size regrow : rep s str → 0 ≤ size ≤ MAX → resize_safe J s size regrow = true → ∃ s', sdsResize J s size regrow = Some s' ∧ rep s' (take (Z.to_nat size) str).
Proof.
  unfold MAX. intros (t & a & rest & Hr) Hsz. pose proof (raw_type _ _ _ _ _ Hr) as Ht. unfold resize_safe, sdsResize. rewrite (flags_spec _ _ _ _ _ Hr), (sdslen_spec _ _ _ _ _ Hr), (sdsalloc_spec _ _ _ _ _ Hr). cbn [mbind option_bind]. rewrite flag_type by done. fold (resize_type size regrow). set (t' := resize_type size regrow). intros Hsafe.
  pose proof Hr as [Hs Hl Hm Hro H5]. destruct (Z.eqb_spec a size) as [<-|Hne]; [exists s; split; [done|]; rewrite take_ge by lia; by exists t, a, rest|].
  assert (0 ≤ t' ≤ 4 ∧ size ≤ sdsTypeMaxSize t') as [Ht' Hm'] by (unfold t', resize_type; rewrite andb_comm; by apply grow_type; lia). pose proof (hdr_bounds t Ht). pose proof (hdr_bounds t' Ht'). set (x := take (Z.to_nat size) str). assert (Ex : (if size <? zlen str then size else zlen str) = zlen x) by (unfold x; zcase; llia). rewrite Ex.
  assert (Ek : x = take (Z.to_nat (zlen x)) str) by (rewrite <- Ex; unfold x; zcase; [done|by rewrite !take_ge by lia]). assert (Hx : 0 ≤ zlen x ≤ zlen str ∧ zlen x ≤ size) by (unfold x; llia).
  set (ur := (t =? t') || _). assert (Hur : ur = true → size ≤ sdsTypeMaxSize t) by (unfold ur; intros [->%Z.eqb_eq|[E%Z.ltb_lt _]%andb_prop]%orb_prop; [done|]; pose proof (max_mono t' t); lia).
  rewrite !wrapu_small by lia. set (newlen := if ur then sdsHdrSize t + size + 1 else sdsHdrSize t' + size + 1). set (opt := J && _). assert (Hnew : 0 ≤ newlen) by (unfold newlen; destruct ur; lia). pose proof (usable_ge (Z.to_nat newlen)) as Hus. assert (Ef : ∀ n, t ≠ SDS_TYPE_5 → flag_byte t n = t) by (intros n Hn5; unfold flag_byte; by rewrite (proj2 (Z.eqb_neq _ _) Hn5)).
  destruct opt eqn:Eopt; rewrite ?andb_false_r, ?andb_true_r; cbn [negb].
  - unfold opt in Eopt. apply andb_prop in Eopt as [-> Eu%Z.eqb_eq]. cbn [negb orb] in Hsafe. cbn [mbind option_bind]. assert (size ≤ sdsTypeMaxSize t ∧ size < zlen (str ++ 0 :: rest)) as [Hst Hsp].
    { apply orb_prop in Hsafe as [Ha%Z.leb_le|Et%Z.eqb_eq]; [lia|]. assert (ur = true) as Eur by (unfold ur; by rewrite Et, Z.eqb_refl). split; [by apply Hur|]. unfold newlen in *. rewrite Eur in *. destruct Hs as [_ _ Eb HL HA]. destruct (type_facts t Ht) as (_ & _ & _ & _ & Eh & _). rewrite Eb in Eu. llia. }
    destruct (drop (Z.to_nat (zlen x)) (str ++ 0 :: rest)) as [|w r] eqn:Ed; [apply (f_equal length) in Ed; rewrite length_drop in Ed; cbn in Ed; llia|]. assert (Epay : str ++ 0 :: rest = x ++ [w] ++ r) by (cbn [app]; rewrite <- Ed, Ek at 1; rewrite <- (take_app_le str (0 :: rest)) by lia; by rewrite Nat2Z.id, take_drop). rewrite Epay in *.
    eapply resize_end; [exact Hs|by apply flag_type|apply Ef|lia|lia].
  - destruct ur eqn:Eur; cbn [andb mbind option_bind].
    + destruct (keep_split _ _ _ _ _ _ str 0 rest (zlen x) (Z.to_nat newlen) Hs eq_refl) as (w & y & Hk & Hky); [lia|unfold newlen; lia|]. rewrite <- Ek in Hk, Hky. eapply resize_end; [exact Hk|by apply flag_type|apply Ef|specialize (Hur eq_refl); lia|unfold newlen in *; lia].
    + pose proof Hs as [_ Eo Eb HL HA]. destruct (type_facts t Ht) as (_ & _ & _ & _ & Eh & _). assert (Estr : str ++ 0 :: rest = x ++ drop (Z.to_nat (zlen x)) str ++ 0 :: rest) by (rewrite Ek at 1; by rewrite app_assoc, take_drop). rewrite Eb, Eo, Estr, (app_assoc (le_bytes _ a)), (app_assoc (le_bytes _ (zlen str))), load_app by llia. cbn [mbind option_bind].
      destruct (new_hdr (fresh (usable (Z.to_nat newlen))) t' x Ht') as (s1 & s2 & L & A & y' & -> & E2 & H2 & Hlen); [unfold newlen in *; llia|]. cbn [mbind option_bind]. rewrite E2. cbn [mbind option_bind]. destruct (type_facts t' Ht') as (El & _ & _ & _ & Eh' & _).
      pose proof H2 as [_ _ Eb2 HL2 HA2]. rewrite Eb2 in Hlen. destruct y' as [|w y']; [unfold newlen in *; llia|]. eapply (resize_end s2 t' L A t' x w y'); [exact H2|done|done|lia|unfold newlen in *; llia].
Qed.
End alloc.
End SdsOk.
