(* ===== verification/Rio.v ===== *)
(** * rio.c, rio.h: stream I/O

    A stream is a backend (a memory buffer, a file, a socket) behind a loop that
    splits reads and writes into chunks, updates a checksum and remembers errors.
    Backends are an interface: the operations are a class, what a client may
    rely on is a second one, and the memory buffer of rio.c is an instance. *)

From S2P Require Import Prelude.

Module Rio.

(** ** Backends *)

(** [None] is the return value 0. *)
Class Backend (io : Type) := {
  bk_read : io → Z → option (list Z * io);
  bk_write : io → list Z → option io;
}.

(** The state of [rio]; [update_cksum] is the method, if there is one. *)
Record rio (io : Type) := Rio {
  r_io : io;
  r_update_cksum : option (Z → list Z → Z);
  r_cksum : Z;
  r_read_error : bool;
  r_write_error : bool;
  r_processed_bytes : Z;
  r_max_processing_chunk : Z;
}.
Arguments Rio {io}.
Arguments r_io {io}.
Arguments r_update_cksum {io}.
Arguments r_cksum {io}.
Arguments r_read_error {io}.
Arguments r_write_error {io}.
Arguments r_processed_bytes {io}.
Arguments r_max_processing_chunk {io}.

Section rio.
Context {io : Type} `{Backend io}.

Definition set_read_error (r : rio io) : rio io :=
  Rio (r_io r) (r_update_cksum r) (r_cksum r) true (r_write_error r) (r_processed_bytes r) (r_max_processing_chunk r).
Definition set_write_error (r : rio io) : rio io :=
  Rio (r_io r) (r_update_cksum r) (r_cksum r) (r_read_error r) true (r_processed_bytes r) (r_max_processing_chunk r).
Definition add_cksum (r : rio io) (bs : list Z) : rio io :=
  Rio (r_io r) (r_update_cksum r) (match r_update_cksum r with Some f => f (r_cksum r) bs | None => r_cksum r end)
    (r_read_error r) (r_write_error r) (r_processed_bytes r) (r_max_processing_chunk r).
(** A chunk of [n] bytes has been moved. *)
Definition advance (r : rio io) (x : io) (n : Z) : rio io :=
  Rio x (r_update_cksum r) (r_cksum r) (r_read_error r) (r_write_error r) (u64 (r_processed_bytes r + n)) (r_max_processing_chunk r).
Definition chunk (r : rio io) (len : Z) : Z :=
  if negb (r_max_processing_chunk r =? 0) && (r_max_processing_chunk r <? len) then r_max_processing_chunk r else len.

(** The bytes that were read; [None] is the return value 0. *)
Fixpoint read_loop (fuel : nat) (r : rio io) (len : Z) (buf : list Z) : rio io * option (list Z) :=
  if len =? 0 then (r, Some buf)
  else
    match fuel with
    | O => (r, None)
    | S fuel =>
        let n := chunk r len in
        match bk_read (r_io r) n with
        | None => (set_read_error r, None)
        | Some (bs, x) => read_loop fuel (advance (add_cksum r bs) x n) (len - n) (buf ++ bs)
        end
    end.
Definition rioRead (r : rio io) (len : Z) : rio io * option (list Z) :=
  if r_read_error r then (r, None) else read_loop (Z.to_nat len) r len [].
Fixpoint write_loop (fuel : nat) (r : rio io) (buf : list Z) : rio io * bool :=
  if zlen buf =? 0 then (r, true)
  else
    match fuel with
    | O => (r, false)
    | S fuel =>
        let n := chunk r (zlen buf) in
        let r := add_cksum r (take (Z.to_nat n) buf) in
        match bk_write (r_io r) (take (Z.to_nat n) buf) with
        | None => (set_write_error r, false)
        | Some x => write_loop fuel (advance r x n) (drop (Z.to_nat n) buf)
        end
    end.
Definition rioWrite (r : rio io) (buf : list Z) : rio io * bool :=
  if r_write_error r then (r, false) else write_loop (length buf) r buf.
End rio.

(** *** The memory buffer *)

Record buffer := Buffer { b_ptr : list Z; b_pos : Z }.
(** [load] is [None] outside of the buffer, which the test excludes as long as
    the position is inside. *)
Definition rioBufferRead (b : buffer) (len : Z) : option (list Z * buffer) :=
  if u64 (zlen (b_ptr b) - b_pos b) <? len then None
  else bs ← load (b_ptr b) (b_pos b) len; Some (bs, Buffer (b_ptr b) (b_pos b + len)).
Definition rioBufferWrite (b : buffer) (buf : list Z) : option buffer := Some (Buffer (b_ptr b ++ buf) (b_pos b + zlen buf)).
#[export] Instance buffer_backend : Backend buffer := {| bk_read := rioBufferRead; bk_write := rioBufferWrite |}.
Definition rioInitWithBuffer (s : list Z) : rio buffer := Rio (Buffer s 0) None 0 false false 0 0.

(** ** What a client relies on *)

(** [pending] is what a read delivers next, [written] what was stored; a read
    or a write may always fail. *)
Class BackendLaws (io : Type) `{Backend io} := {
  bk_ok : io → Prop;
  pending : io → list Z;
  written : io → list Z;
  bk_read_ok : ∀ x n bs x', bk_ok x → 0 ≤ n → bk_read x n = Some (bs, x') → bk_ok x' ∧ zlen bs = n ∧ pending x = bs ++ pending x';
  bk_write_ok : ∀ x bs x', bk_ok x → bk_write x bs = Some x' → bk_ok x' ∧ written x' = written x ++ bs;
}.
(** A backend without I/O errors. *)
Class ReliableBackend (io : Type) `{BackendLaws io} := {
  bk_read_some : ∀ x n, bk_ok x → zlen (pending x) < 2 ^ 64 → 0 ≤ n ≤ zlen (pending x) → is_Some (bk_read x n);
  bk_write_some : ∀ x bs, bk_ok x → is_Some (bk_write x bs);
}.

Definition buffer_ok (b : buffer) : Prop := 0 ≤ b_pos b ≤ zlen (b_ptr b).
Definition buffer_pending (b : buffer) : list Z := drop (Z.to_nat (b_pos b)) (b_ptr b).
Lemma wrapu_le w x : 0 ≤ w → 0 ≤ x → wrapu w x ≤ x.
Proof. intros Hw Hx. apply Z.mod_le; [done|]. by apply Z.pow_pos_nonneg. Qed.
Lemma buffer_read b n bs b' : buffer_ok b → 0 ≤ n → rioBufferRead b n = Some (bs, b') → buffer_ok b' ∧ zlen bs = n ∧ buffer_pending b = bs ++ buffer_pending b'.
Proof.
  destruct b as [p pos]. unfold buffer_ok, buffer_pending, rioBufferRead. cbn [b_ptr b_pos]. intros Hpos Hn. destruct (Z.ltb_spec (u64 (zlen p - pos)) n) as [|Hge]; [done|]. intros E. obind E. injection E as <- <-. cbn [b_ptr b_pos].
  apply load_Some in E0 as (a & c & -> & -> & ->). rewrite !length_app in *. split_and!; [lia..|].
  replace (Z.to_nat (zlen a)) with (length a) by lia. replace (Z.to_nat (zlen a + zlen x)) with (length a + length x)%nat by lia. by rewrite drop_app_length, app_assoc, <- length_app, drop_app_length.
Qed.
Lemma buffer_read_some b n : buffer_ok b → zlen (buffer_pending b) < 2 ^ 64 → 0 ≤ n ≤ zlen (buffer_pending b) → is_Some (rioBufferRead b n).
Proof.
  destruct b as [p pos]. unfold buffer_ok, buffer_pending, rioBufferRead. cbn [b_ptr b_pos]. rewrite length_drop. intros Hpos Hl Hn. rewrite wrapu_small by lia. destruct (Z.ltb_spec (zlen p - pos) n); [lia|].
  destruct (load_total p pos n) as [bs ->]; [lia..|]. by eexists.
Qed.
Lemma buffer_write b bs b' : buffer_ok b → rioBufferWrite b bs = Some b' → buffer_ok b' ∧ b_ptr b' = b_ptr b ++ bs.
Proof. unfold buffer_ok, rioBufferWrite. intros Hb [= <-]. cbn [b_ptr b_pos]. rewrite length_app. split; [lia|done]. Qed.
#[export] Instance buffer_laws : BackendLaws buffer :=
  {| bk_ok := buffer_ok; pending := buffer_pending; written := b_ptr; bk_read_ok := buffer_read; bk_write_ok := buffer_write |}.
#[export] Instance buffer_reliable : ReliableBackend buffer.
Proof. split; [apply buffer_read_some|by eexists]. Qed.

(** ** Reads and writes of the whole stream *)

Section client.
Context {io : Type} `{BackendLaws io}.

Definition rio_ok (r : rio io) : Prop := bk_ok (r_io r) ∧ 0 ≤ r_max_processing_chunk r.

Lemma chunk_range (r : rio io) len : 0 ≤ r_max_processing_chunk r → 0 < len → 0 < chunk r len ≤ len.
Proof. intros Hr Hl. unfold chunk. zcase; cbn [negb andb]; lia. Qed.

Lemma read_loop_spec fuel (r : rio io) len buf : rio_ok r → 0 ≤ len ≤ Z.of_nat fuel → r_read_error r = false →
  let '(r', res) := read_loop fuel r len buf in rio_ok r' ∧
    match res with
    | Some bs => ∃ bs', bs = buf ++ bs' ∧ zlen bs' = len ∧ pending (r_io r) = bs' ++ pending (r_io r') ∧ r_read_error r' = false
    | None => r_read_error r' = true
    end.
Proof.
  revert r len buf. induction fuel as [|fuel IH]; intros r len buf Hr Hlen He; cbn [read_loop]; destruct (Z.eqb_spec len 0) as [->|Hne]; try lia.
  1, 2: split; [done|]; exists []; by rewrite app_nil_r.
  destruct Hr as [Hio Hc]. pose proof (chunk_range r len Hc ltac:(lia)) as Hch. destruct (bk_read (r_io r) (chunk r len)) as [[bs x]|] eqn:E; [|done].
  apply bk_read_ok in E as (Hx & Hl & Hp); [|done|lia]. specialize (IH (advance (add_cksum r bs) x (chunk r len)) (len - chunk r len) (buf ++ bs)).
  destruct (read_loop fuel _ _ _) as [r' res]. destruct IH as [Hr' Hres]; [done|lia|done|]. split; [done|]. destruct res as [bs2|]; [|done]. destruct Hres as (bs' & -> & Hl' & Hp' & He').
  exists (bs ++ bs'). split_and!; [by rewrite app_assoc|rewrite length_app; lia| |done]. cbn [r_io advance] in Hp'. by rewrite Hp, Hp', app_assoc.
Qed.
(** A read either delivers exactly the bytes asked for, in order, or fails and
    leaves the stream in error. *)
Lemma rioRead_spec (r : rio io) len : rio_ok r → 0 ≤ len →
  let '(r', res) := rioRead r len in rio_ok r' ∧
    match res with
    | Some bs => zlen bs = len ∧ pending (r_io r) = bs ++ pending (r_io r') ∧ r_read_error r' = false
    | None => r_read_error r' = true
    end.
Proof.
  intros Hr Hl. unfold rioRead. destruct (r_read_error r) eqn:He; [done|]. pose proof (read_loop_spec (Z.to_nat len) r len [] Hr ltac:(lia) He) as Hs. destruct (read_loop _ _ _ _) as [r' [bs|]]; [|done].
  destruct Hs as (Hr' & bs' & -> & ?). done.
Qed.
Lemma write_loop_spec fuel (r : rio io) buf : rio_ok r → (length buf ≤ fuel)%nat → r_write_error r = false →
  let '(r', ok) := write_loop fuel r buf in rio_ok r' ∧
    (if (ok : bool) then written (r_io r') = written (r_io r) ++ buf ∧ r_write_error r' = false else r_write_error r' = true).
Proof.
  revert r buf. induction fuel as [|fuel IH]; intros r buf Hr Hlen He; cbn [write_loop]; destruct (Z.eqb_spec (zlen buf) 0) as [E0|Hne]; try lia.
  1, 2: destruct buf; [|cbn [length] in E0; lia]; by rewrite app_nil_r.
  destruct Hr as [Hio Hc]. pose proof (chunk_range r (zlen buf) Hc ltac:(lia)) as Hch. set (c := take _ buf). destruct (bk_write (r_io (add_cksum r c)) c) as [x|] eqn:E; [|done].
  apply bk_write_ok in E as [Hx Hw]; [|done]. specialize (IH (advance (add_cksum r c) x (chunk r (zlen buf))) (drop (Z.to_nat (chunk r (zlen buf))) buf)).
  destruct (write_loop fuel _ _) as [r' ok]. destruct IH as [Hr' Hok]; [done|rewrite length_drop; lia|done|]. split; [done|]. destruct ok; [|done]. destruct Hok as [Hok Hok']. split; [|done]. rewrite Hok. cbn [r_io advance add_cksum] in *. rewrite Hw, <- app_assoc. unfold c. by rewrite take_drop.
Qed.
Lemma rioWrite_spec (r : rio io) buf : rio_ok r →
  let '(r', ok) := rioWrite r buf in rio_ok r' ∧ (if (ok : bool) then written (r_io r') = written (r_io r) ++ buf ∧ r_write_error r' = false else r_write_error r' = true).
Proof. intros Hr. unfold rioWrite. destruct (r_write_error r) eqn:He; [done|]. by apply write_loop_spec. Qed.

Context `{!ReliableBackend io}.
Lemma read_loop_some fuel (r : rio io) len buf : rio_ok r → 0 ≤ len ≤ Z.of_nat fuel → len ≤ zlen (pending (r_io r)) < 2 ^ 64 → is_Some (snd (read_loop fuel r len buf)).
Proof.
  revert r len buf. induction fuel as [|fuel IH]; intros r len buf Hr Hlen Hp; cbn [read_loop]; destruct (Z.eqb_spec len 0) as [->|Hne]; try lia; [by eexists..|].
  destruct Hr as [Hio Hc]. pose proof (chunk_range r len Hc ltac:(lia)) as Hch. destruct (bk_read_some (r_io r) (chunk r len)) as [[bs x] E]; [done|lia|lia|]. rewrite E.
  apply bk_read_ok in E as (Hx & Hl & Hq); [|done|lia]. rewrite Hq, length_app in Hp. apply IH; [done|lia|]. cbn [r_io advance]. lia.
Qed.
Lemma rioRead_some (r : rio io) len : rio_ok r → r_read_error r = false → 0 ≤ len ≤ zlen (pending (r_io r)) → zlen (pending (r_io r)) < 2 ^ 64 → is_Some (snd (rioRead r len)).
Proof. intros Hr He Hl Hp. unfold rioRead. rewrite He. apply read_loop_some; [done|lia|lia]. Qed.
Lemma write_loop_true fuel (r : rio io) buf : rio_ok r → (length buf ≤ fuel)%nat → snd (write_loop fuel r buf) = true.
Proof.
  revert r buf. induction fuel as [|fuel IH]; intros r buf Hr Hlen; cbn [write_loop]; destruct (Z.eqb_spec (zlen buf) 0) as [E0|Hne]; try lia; [done..|].
  destruct Hr as [Hio Hc]. pose proof (chunk_range r (zlen buf) Hc ltac:(lia)) as Hch. set (c := take _ buf). destruct (bk_write_some (r_io (add_cksum r c)) c) as [x E]; [done|]. rewrite E. apply bk_write_ok in E as [Hx _]; [|done].
  apply IH; [done|]. rewrite length_drop. lia.
Qed.
Lemma rioWrite_true (r : rio io) buf : rio_ok r → r_write_error r = false → snd (rioWrite r buf) = true.
Proof. intros Hr He. unfold rioWrite. rewrite He. by apply write_loop_true. Qed.
End client.
End Rio.
