(* ===== verification/Rdb.v ===== *)
(** * rdb.c: lengths, integers and strings of the RDB format

    Lengths are stored in 1, 2, 5 or 9 bytes; a string that reads as a small
    integer is stored as that integer, a long string may be compressed with LZF,
    everything else is stored as it is.  A NULL stream, with which the writers
    compute sizes, is [None]; the outer option of the other functions is [None]
    where the code would access memory out of bounds.  The loading functions may
    also end the process, which is a [load_outcome]. *)

From S2P Require Import Prelude Util Lzf Rio Sds.
Import Util Lzf Rio.

Module Rdb.

Definition RDB_6BITLEN : Z := 0.
Definition RDB_14BITLEN : Z := 1.
Definition RDB_32BITLEN : Z := 0x80.
Definition RDB_64BITLEN : Z := 0x81.
Definition RDB_ENCVAL : Z := 3.
Definition RDB_LENERR : Z := UINT64_MAX.
Definition RDB_ENC_INT8 : Z := 0.
Definition RDB_ENC_INT16 : Z := 1.
Definition RDB_ENC_INT32 : Z := 2.
Definition RDB_ENC_LZF : Z := 3.

(** The bytes of an integer in network byte order. *)
Definition be_bytes (n : nat) (v : Z) : list Z := reverse (le_bytes n v).
Definition be_val (bs : list Z) : Z := le_val (reverse bs).
Arguments be_bytes : simpl never.
Arguments be_val : simpl never.

(** ** Writing *)

Section write.
Context {io : Type} `{Backend io}.
Abbreviation sink := (option (rio io)).

(** [if ((n = w) == -1) return -1; k] *)
Definition or_fail (w : sink * Z) (k : sink → Z → sink * Z) : sink * Z :=
  let '(rdb, n) := w in if n =? -1 then (rdb, -1) else k rdb n.

Definition rdbWriteRaw (rdb : sink) (p : list Z) : sink * Z :=
  match rdb with
  | None => (None, zlen p)
  | Some r => let '(r, ok) := rioWrite r p in (Some r, if (ok : bool) then zlen p else -1)
  end.

Definition rdbSaveType (rdb : sink) (type : Z) : sink * Z := rdbWriteRaw rdb [u8 type].
Definition rdbSaveMillisecondTime (rdb : sink) (t : Z) : sink * Z := rdbWriteRaw rdb (le_bytes 8 t).

Definition rdbSaveLen (rdb : sink) (len : Z) : sink * Z :=
  if len <? Z.shiftl 1 6 then
    or_fail (rdbWriteRaw rdb [Z.lor (Z.land len 0xff) (Z.shiftl RDB_6BITLEN 6)]) (λ rdb _, (rdb, 1))
  else if len <? Z.shiftl 1 14 then
    or_fail (rdbWriteRaw rdb [Z.lor (Z.land (Z.shiftr len 8) 0xff) (Z.shiftl RDB_14BITLEN 6); Z.land len 0xff]) (λ rdb _, (rdb, 2))
  else if len <=? UINT32_MAX then
    or_fail (rdbWriteRaw rdb [RDB_32BITLEN]) (λ rdb _, or_fail (rdbWriteRaw rdb (be_bytes 4 len)) (λ rdb _, (rdb, 1 + 4)))
  else
    or_fail (rdbWriteRaw rdb [RDB_64BITLEN]) (λ rdb _, or_fail (rdbWriteRaw rdb (be_bytes 8 len)) (λ rdb _, (rdb, 1 + 8))).

(** The bytes written to [enc]; none is the return value 0. *)
Definition rdbEncodeInteger (value : Z) : list Z :=
  if (value >=? - Z.shiftl 1 7) && (value <=? Z.shiftl 1 7 - 1) then
    [Z.lor (Z.shiftl RDB_ENCVAL 6) RDB_ENC_INT8; Z.land value 0xff]
  else if (value >=? - Z.shiftl 1 15) && (value <=? Z.shiftl 1 15 - 1) then
    [Z.lor (Z.shiftl RDB_ENCVAL 6) RDB_ENC_INT16; Z.land value 0xff; Z.land (Z.shiftr value 8) 0xff]
  else if (value >=? - Z.shiftl 1 31) && (value <=? Z.shiftl 1 31 - 1) then
    [Z.lor (Z.shiftl RDB_ENCVAL 6) RDB_ENC_INT32; Z.land value 0xff; Z.land (Z.shiftr value 8) 0xff; Z.land (Z.shiftr value 16) 0xff; Z.land (Z.shiftr value 24) 0xff]
  else [].
Definition rdbTryIntegerEncoding (s : list Z) : list Z :=
  match string2ll s with Some value => rdbEncodeInteger value | None => [] end.

Definition rdbSaveLzfBlob (rdb : sink) (data : list Z) (original_len : Z) : sink * Z :=
  or_fail (rdbWriteRaw rdb [Z.lor (Z.shiftl RDB_ENCVAL 6) RDB_ENC_LZF]) (λ rdb n0,
  or_fail (rdbSaveLen rdb (zlen data)) (λ rdb n1,
  or_fail (rdbSaveLen rdb original_len) (λ rdb n2,
  or_fail (rdbWriteRaw rdb data) (λ rdb n3, (rdb, n0 + n1 + n2 + n3))))).

(** The memory of [zmalloc] and of the hash table of [lzf_compress]. *)
Context `{Allocator} (garbage : Z → Z).

Definition rdbSaveLzfStringObject (rdb : sink) (s : list Z) : option (sink * Z) :=
  let len := zlen s in
  if len <=? 4 then Some (rdb, 0)
  else
    let outlen := len - 4 in
    '(comprlen, out) ← lzf_compress garbage s (fresh (Z.to_nat outlen));
    if comprlen =? 0 then Some (rdb, 0)
    else data ← load out 0 comprlen; Some (rdbSaveLzfBlob rdb data len).

(** [compression] is [server.rdb_compression]. *)
Definition rdbSaveRawString (compression : bool) (rdb : sink) (s : list Z) : option (sink * Z) :=
  let len := zlen s in
  let buf := if len <=? 11 then rdbTryIntegerEncoding s else [] in
  if zlen buf >? 0 then Some (or_fail (rdbWriteRaw rdb buf) (λ rdb _, (rdb, zlen buf)))
  else
    '(rdb, n) ← (if compression && (len >? 20) then rdbSaveLzfStringObject rdb s else Some (rdb, 0));
    if n =? -1 then Some (rdb, -1)
    else if n >? 0 then Some (rdb, n)
    else Some (or_fail (rdbSaveLen rdb len) (λ rdb n,
                 if len >? 0 then or_fail (rdbWriteRaw rdb s) (λ rdb _, (rdb, n + len)) else (rdb, n))).

Definition rdbSaveLongLongAsStringObject (rdb : sink) (value : Z) : option (sink * Z) :=
  let enc := rdbEncodeInteger value in
  if zlen enc >? 0 then Some (rdbWriteRaw rdb enc)
  else
    '(buf, enclen) ← ll2string (fresh 32) 32 value;
    if negb (enclen <? 32) then None
    else
      data ← load buf 0 enclen;
      Some (or_fail (rdbSaveLen rdb enclen) (λ rdb n0, or_fail (rdbWriteRaw rdb data) (λ rdb n1, (rdb, n0 + n1)))).

(** String objects: an integer in the pointer, or a string. *)
Inductive string_obj := ObjInt (v : Z) | ObjString (s : list Z).
Definition rdbSaveStringObject (compression : bool) (rdb : sink) (obj : string_obj) : option (sink * Z) :=
  match obj with
  | ObjInt v => rdbSaveLongLongAsStringObject rdb v
  | ObjString s => rdbSaveRawString compression rdb s
  end.
End write.

(** ** Reading *)

Inductive load_flags := RDB_LOAD_NONE | RDB_LOAD_ENC | RDB_LOAD_PLAIN | RDB_LOAD_SDS.
(** What is returned: a block, an sds or an object, with its content. *)
Inductive loaded := LoadedPlain (s : list Z) | LoadedSds (s : list Z) | LoadedObj (o : string_obj).

(** What becomes of a call: it returns, the process exits after the report of an
    error, or an assertion fails. *)
Inductive load_outcome (A : Type) := Returned (x : A) | Exited | Aborted.
Arguments Returned {A}.
Arguments Exited {A}.
Arguments Aborted {A}.

(** [isRestoreContext()], [rdbCheckMode], and whether [rdbFileBeingLoaded], if
    there is one, is a FIFO. *)
Record report_context := ReportContext {
  isRestoreContext : bool;
  rdbCheckMode : bool;
  rdbFileBeingLoaded : option bool;
}.
(** Whether the report of an error returns; if not, the process exits (so does
    the checker of files). *)
Definition rdbReportError (ctx : report_context) (corruption_error : bool) : bool :=
  if isRestoreContext ctx then true
  else if rdbCheckMode ctx then false
  else match rdbFileBeingLoaded ctx with
       | Some fifo => fifo
       | None => negb corruption_error
       end.

Section read.
Context {io : Type} `{Backend io} (ctx : report_context).

(** [rdbReportCorruptRDB(...); return v;] *)
Definition corrupt {A} (r : rio io) (v : A) : rio io * load_outcome A := (r, if rdbReportError ctx true then Returned v else Exited).
Definition and_then {A B} (m : rio io * load_outcome A) (k : rio io → A → option (rio io * load_outcome B)) : option (rio io * load_outcome B) :=
  match m with
  | (r, Returned x) => k r x
  | (r, Exited) => Some (r, Exited)
  | (r, Aborted) => Some (r, Aborted)
  end.

Definition rdbLoadType (r : rio io) : rio io * Z :=
  let '(r, res) := rioRead r 1 in (r, match res with Some (b :: _) => b | _ => -1 end).
Definition rdbLoadMillisecondTime (r : rio io) : rio io * Z :=
  let '(r, res) := rioRead r 8 in (r, match res with Some bs => s64 (le_val bs) | None => LLONG_MAX end).

(** [*isencoded] and [*lenptr], [None] when -1 is returned. *)
Definition rdbLoadLenByRef (r : rio io) : rio io * load_outcome (option (bool * Z)) :=
  let '(r, res) := rioRead r 1 in
  match res with
  | Some (b0 :: _) =>
      let type := Z.shiftr (Z.land b0 0xC0) 6 in
      if type =? RDB_ENCVAL then (r, Returned (Some (true, Z.land b0 0x3F)))
      else if type =? RDB_6BITLEN then (r, Returned (Some (false, Z.land b0 0x3F)))
      else if type =? RDB_14BITLEN then
        let '(r, res) := rioRead r 1 in
        match res with
        | Some (b1 :: _) => (r, Returned (Some (false, Z.lor (Z.shiftl (Z.land b0 0x3F) 8) b1)))
        | _ => (r, Returned None)
        end
      else if b0 =? RDB_32BITLEN then
        let '(r, res) := rioRead r 4 in (r, Returned ((λ bs, (false, be_val bs)) <$> res))
      else if b0 =? RDB_64BITLEN then
        let '(r, res) := rioRead r 8 in (r, Returned ((λ bs, (false, be_val bs)) <$> res))
      else corrupt r None
  | _ => (r, Returned None)
  end.
(** [*isencoded] and the result. *)
Definition rdbLoadLen (r : rio io) : rio io * load_outcome (bool * Z) :=
  let '(r, res) := rdbLoadLenByRef r in
  (r, match res with
      | Returned (Some x) => Returned x
      | Returned None => Returned (false, RDB_LENERR)
      | Exited => Exited
      | Aborted => Aborted
      end).

(** Memory, and whether [ztrymalloc] of a size succeeds; [zmalloc] ends the
    process when it fails. *)
Context `{Allocator} (try_alloc : Z → bool).

(** [sdstrynewlen]: whether there is memory, after the assertion on the size. *)
Definition try_sds (initlen : Z) : load_outcome bool :=
  let type := Sds.sdsReqType initlen in
  let type := if (type =? Sds.SDS_TYPE_5) && (initlen =? 0) then Sds.SDS_TYPE_8 else type in
  let hdrlen := Sds.sdsHdrSize type in
  if u64 (initlen + hdrlen + 1) >? initlen then Returned (try_alloc (u64 (hdrlen + initlen + 1))) else Aborted.
Definition OBJ_ENCODING_EMBSTR_SIZE_LIMIT : Z := 44.
Definition tryCreateStringObject (len : Z) : load_outcome bool :=
  if len <=? OBJ_ENCODING_EMBSTR_SIZE_LIMIT then Returned true else try_sds len.

Definition ll_string (val : Z) : option (list Z) :=
  '(buf, len) ← ll2string (fresh (Z.to_nat LONG_STR_SIZE)) LONG_STR_SIZE val; load buf 0 len.
(** Shared and private integer objects are not distinguished. *)
Definition rdbLoadIntegerObject (r : rio io) (enctype : Z) (flags : load_flags) : option (rio io * load_outcome (option loaded)) :=
  let '(r, res) :=
    if enctype =? RDB_ENC_INT8 then let '(r, res) := rioRead r 1 in (r, Returned ((λ enc, s8 (le_or enc)) <$> res))
    else if enctype =? RDB_ENC_INT16 then let '(r, res) := rioRead r 2 in (r, Returned ((λ enc, s16 (le_or enc)) <$> res))
    else if enctype =? RDB_ENC_INT32 then let '(r, res) := rioRead r 4 in (r, Returned ((λ enc, s32 (le_or enc)) <$> res))
    else corrupt r None in
  and_then (r, res) (λ r res,
    match res with
    | None => Some (r, Returned None)
    | Some val =>
        match flags with
        | RDB_LOAD_PLAIN => s ← ll_string val; Some (r, Returned (Some (LoadedPlain s)))
        | RDB_LOAD_SDS => s ← ll_string val; Some (r, Returned (Some (LoadedSds s)))
        | RDB_LOAD_ENC => Some (r, Returned (Some (LoadedObj (ObjInt val))))
        | RDB_LOAD_NONE => s ← ll_string val; Some (r, Returned (Some (LoadedObj (ObjString s))))
        end
    end).

Definition as_loaded (flags : load_flags) (s : list Z) : loaded :=
  match flags with RDB_LOAD_PLAIN => LoadedPlain s | RDB_LOAD_SDS => LoadedSds s | _ => LoadedObj (ObjString s) end.

Definition rdbLoadLzfStringObject (r : rio io) (flags : load_flags) : option (rio io * load_outcome (option loaded)) :=
  and_then (rdbLoadLen r) (λ r '(_, clen),
    if clen =? RDB_LENERR then Some (r, Returned None)
    else
      and_then (rdbLoadLen r) (λ r '(_, len),
        if len =? RDB_LENERR then Some (r, Returned None)
        else if negb (try_alloc clen) then Some (r, Returned None)
        else
          and_then (r, match flags with RDB_LOAD_PLAIN => Returned (try_alloc len) | _ => try_sds len end) (λ r val,
            if negb val then Some (r, Returned None)
            else
              let '(r, res) := rioRead r clen in
              match res with
              | None => Some (r, Returned None)
              | Some c =>
                  '(n, val) ← lzf_decompress c (fresh (Z.to_nat len));
                  let n := match n with inr n => n | inl _ => 0 end in
                  if negb (n =? len) then Some (corrupt r None) else Some (r, Returned (Some (as_loaded flags val)))
              end))).

Definition rdbGenericLoadStringObject (r : rio io) (flags : load_flags) : option (rio io * load_outcome (option loaded)) :=
  and_then (rdbLoadLen r) (λ r '(isencoded, len),
    if len =? RDB_LENERR then Some (r, Returned None)
    else if (isencoded : bool) then
      if (len =? RDB_ENC_INT8) || (len =? RDB_ENC_INT16) || (len =? RDB_ENC_INT32) then rdbLoadIntegerObject r len flags
      else if len =? RDB_ENC_LZF then rdbLoadLzfStringObject r flags
      else Some (corrupt r None)
    else
      and_then (r, match flags with RDB_LOAD_PLAIN => Returned (try_alloc len) | RDB_LOAD_SDS => try_sds len | _ => tryCreateStringObject len end) (λ r buf,
        if negb buf then Some (r, Returned None)
        else if negb (len =? 0) then
          let '(r, res) := rioRead r len in Some (r, Returned (as_loaded flags <$> res))
        else Some (r, Returned (Some (as_loaded flags []))))).
Definition rdbLoadStringObject (r : rio io) : option (rio io * load_outcome (option loaded)) := rdbGenericLoadStringObject r RDB_LOAD_NONE.
Definition rdbLoadEncodedStringObject (r : rio io) : option (rio io * load_outcome (option loaded)) := rdbGenericLoadStringObject r RDB_LOAD_ENC.
End read.
End Rdb.
