(* ===== verification/RdbRound.v ===== *)
(** * rdb.c: strings survive a save and a load

    Saving a string writes one of its encodings, whatever backend the stream
    has; loading any of the encodings gives the string back.  Loading arbitrary
    bytes stays within the buffers, and ends the process in two known ways only. *)

From S2P Require Import Prelude Util Bits Lzf LzfFormat LzfRound Sds SdsOk Rio Rdb.
Import Util Lzf LzfFormat LzfRound Rio Rdb.

Module RdbRound.

(** ** The format *)

Definition len_bytes (len : Z) : list Z :=
  if len <? 64 then [len]
  else if len <? 16384 then [64 + len / 256; len mod 256]
  else if len <=? UINT32_MAX then RDB_32BITLEN :: be_bytes 4 len
  else RDB_64BITLEN :: be_bytes 8 len.

(** The encodings of a string. *)
Inductive string_bytes (s : list Z) : list Z → Prop :=
  | sb_int v : sfits 64 v → s = sdec v → rdbEncodeInteger v ≠ [] → string_bytes s (rdbEncodeInteger v)
  | sb_lzf stream : restores stream s → zlen stream < zlen s → string_bytes s (0xC3 :: len_bytes (zlen stream) ++ len_bytes (zlen s) ++ stream)
  | sb_raw : string_bytes s (len_bytes (zlen s) ++ s).

Lemma be_round n v : 0 ≤ v < 2 ^ (8 * Z.of_nat n) → be_val (be_bytes n v) = v.
Proof. intros Hv. unfold be_val, be_bytes. rewrite reverse_involutive, le_val_bytes. by apply Z.mod_small. Qed.
Lemma length_be_bytes n v : length (be_bytes n v) = n.
Proof. unfold be_bytes. by rewrite length_reverse, length_le_bytes. Qed.

(** ** Writing *)

Section saving.
Context {io : Type} `{BackendLaws io}.

Definition sink_ok (rdb : option (rio io)) : Prop := match rdb with Some r => rio_ok r | None => True end.
Definition no_write_errors : Prop := ∀ r buf, rio_ok (io := io) r → r_write_error r = false → snd (rioWrite r buf) = true.
(** The function wrote [bs] and returned [cnt], or it failed because of an I/O
    error and returned -1; without a stream it returned [cnt]. *)
Definition wrote (rdb : option (rio io)) (res : option (rio io) * Z) (bs : list Z) (cnt : Z) : Prop :=
  match rdb, fst res with
  | None, None => snd res = cnt
  | Some w, Some w' =>
      rio_ok w' ∧
      (snd res = cnt ∧ written (r_io w') = written (r_io w) ++ bs ∧ r_write_error w' = false ∨ snd res = -1 ∧ r_write_error w' = true) ∧
      (no_write_errors → r_write_error w = false → snd res ≠ -1)
  | _, _ => False
  end.

Lemma wrote_raw rdb p : sink_ok rdb → wrote rdb (rdbWriteRaw rdb p) p (zlen p).
Proof.
  intros Hok. destruct rdb as [r|]; [|done]. unfold rdbWriteRaw. pose proof (rioWrite_spec r p Hok) as Hw. destruct (rioWrite r p) as [r' b] eqn:E. destruct Hw as [Hr' Hw].
  split_and!; [done| |]; cbn [fst snd].
  - destruct b; [left|right]; naive_solver.
  - intros Hn He. specialize (Hn r p Hok He). rewrite E in Hn. cbn [snd] in Hn. subst b. lia.
Qed.
Lemma wrote_then rdb res bs1 n1 k bs2 n2 : 0 ≤ n1 → 0 ≤ n2 → wrote rdb res bs1 n1 → (∀ rdb', sink_ok rdb' → wrote rdb' (k rdb' n1) bs2 n2) → wrote rdb (or_fail res k) (bs1 ++ bs2) n2.
Proof.
  intros Hn1 Hn2 Hw Hk. destruct res as [rdb1 n]. unfold wrote in Hw. cbn [fst snd] in Hw. unfold or_fail. destruct rdb as [w|], rdb1 as [w1|]; try done.
  - destruct Hw as (Hok & Hcase & Hrel). destruct Hcase as [(-> & Hwr & He)|[-> He]].
    + rewrite (proj2 (Z.eqb_neq _ _)) by lia. specialize (Hk (Some w1) Hok). unfold wrote in *. destruct (fst (k (Some w1) n1)) as [w2|]; [|done]. destruct Hk as (Hok2 & Hcase2 & Hrel2). split_and!; [done| |auto].
      destruct Hcase2 as [(? & Hw2 & ?)|?]; [left|by right]. split_and!; [done| |done]. by rewrite Hw2, Hwr, app_assoc.
    + cbn [Z.eqb]. split_and!; [done|by right|]. intros Hr Hw0. by destruct (Hrel Hr Hw0).
  - subst n. rewrite (proj2 (Z.eqb_neq _ _)) by lia. apply (Hk None I).
Qed.
(** A write whose count is replaced. *)
Lemma wrote_count rdb res bs n (g : Z → Z) m : 0 ≤ n → m = g n → 0 ≤ m → wrote rdb res bs n → wrote rdb (or_fail res (λ rdb n, (rdb, g n))) bs m.
Proof.
  intros Hn Em Hm Hw. destruct res as [rdb1 k]. unfold wrote in *. cbn [fst snd or_fail] in *. destruct rdb as [w|], rdb1 as [w1|]; try done.
  - destruct Hw as (Hok & [(-> & Hwr & He)|[-> He]] & Hrel).
    + rewrite (proj2 (Z.eqb_neq _ _)) by lia. cbn [fst snd]. rewrite <- Em. split_and!; [done|by left|lia].
    + cbn. split_and!; [done|by right|done].
  - subst k. rewrite (proj2 (Z.eqb_neq _ _)) by lia. done.
Qed.

Lemma len_small len : 0 ≤ len < 64 → Z.lor (Z.land len 0xff) (Z.shiftl RDB_6BITLEN 6) = len.
Proof. intros Hl. change (Z.shiftl RDB_6BITLEN 6) with 0. rewrite Z.lor_0_r. change 0xff with (Z.ones 8). rewrite Z.land_ones by lia. apply Z.mod_small. lia. Qed.
Lemma len_14 len : 0 ≤ len < 16384 → Z.lor (Z.land (Z.shiftr len 8) 0xff) (Z.shiftl RDB_14BITLEN 6) = 64 + len / 256.
Proof.
  intros Hl. change 0xff with (Z.ones 8). rewrite Z.land_ones, Z.shiftr_div_pow2 by lia. change (2 ^ 8) with 256. rewrite Z.mod_small by dlia.
  change (Z.shiftl RDB_14BITLEN 6) with (Z.shiftl 1 6). rewrite lor_shiftl_add by dlia. lia.
Qed.
Lemma land_ff x : Z.land x 0xff = x mod 256.
Proof. change 0xff with (Z.ones 8). by rewrite Z.land_ones by lia. Qed.

Lemma saveLen_wrote rdb len : sink_ok rdb → 0 ≤ len → wrote rdb (rdbSaveLen rdb len) (len_bytes len) (zlen (len_bytes len)).
Proof.
  intros Hok Hl. unfold rdbSaveLen, len_bytes. change (Z.shiftl 1 6) with 64. change (Z.shiftl 1 14) with 16384.
  destruct (Z.ltb_spec len 64); [rewrite len_small by lia; by eapply (wrote_count _ _ _ _ (λ _, _)); [..|apply wrote_raw]|].
  destruct (Z.ltb_spec len 16384); [rewrite len_14, land_ff by lia; by eapply (wrote_count _ _ _ _ (λ _, _)); [..|apply wrote_raw]|].
  destruct (Z.leb_spec len UINT32_MAX); cbn [length]; rewrite length_be_bytes.
  - apply (wrote_then rdb _ [RDB_32BITLEN] 1 _ (be_bytes 4 len) 5); [lia|lia|by apply wrote_raw|]. intros rdb' Hok'. eapply (wrote_count _ _ _ _ (λ _, _)); [..|by apply wrote_raw]; lia.
  - apply (wrote_then rdb _ [RDB_64BITLEN] 1 _ (be_bytes 8 len) 9); [lia|lia|by apply wrote_raw|]. intros rdb' Hok'. eapply (wrote_count _ _ _ _ (λ _, _)); [..|by apply wrote_raw]; lia.
Qed.

Context `{!Allocator} (garbage : Z → Z).
Context (Hgarbage : ∀ i, garbage i < 2 ^ 64 - 8192).

Lemma lzfBlob_wrote rdb (stream s : list Z) : sink_ok rdb →
  let bs := 0xC3 :: len_bytes (zlen stream) ++ len_bytes (zlen s) ++ stream in wrote rdb (rdbSaveLzfBlob rdb stream (zlen s)) bs (zlen bs).
Proof.
  intros Hok bs. unfold rdbSaveLzfBlob. change (Z.lor (Z.shiftl RDB_ENCVAL 6) RDB_ENC_LZF) with 0xC3.
  apply (wrote_then rdb _ [0xC3] 1 _ (len_bytes (zlen stream) ++ len_bytes (zlen s) ++ stream) (zlen bs)); [lia|lia|by apply wrote_raw|]. intros rdb1 O1.
  eapply wrote_then; [|lia|apply saveLen_wrote; [done|lia]|]; [lia|]. intros rdb2 O2. eapply wrote_then; [|lia|apply saveLen_wrote; [done|lia]|]; [lia|]. intros rdb3 O3.
  assert (E : zlen bs = 1 + zlen (len_bytes (zlen stream)) + zlen (len_bytes (zlen s)) + zlen stream) by (unfold bs; cbn [length]; rewrite !length_app; lia). rewrite E.
  eapply (wrote_count _ _ _ _ (λ n3, _ + n3)); [|done|lia|by apply wrote_raw]. lia.
Qed.
(** Every string is written in one of its encodings. *)
Lemma saveRaw_wrote compression rdb s : sink_ok rdb → Forall is_byte s → zlen s < 2 ^ 63 →
  ∃ res bs, rdbSaveRawString garbage compression rdb s = Some res ∧ string_bytes s bs ∧ wrote rdb res bs (zlen bs).
Proof using Hgarbage.
  intros Hok Hs Hl. unfold rdbSaveRawString. set (buf := if zlen s <=? 11 then rdbTryIntegerEncoding s else []).
  destruct (Z.gtb_spec (zlen buf) 0) as [Hb|Hb].
  { assert (∃ v, string2ll s = Some v ∧ buf = rdbEncodeInteger v) as (v & Ev & Eb).
    { unfold buf, rdbTryIntegerEncoding in *. destruct (_ <=? _); [|cbn in Hb; lia]. destruct (string2ll s) as [v|]; [by exists v|cbn in Hb; lia]. }
    apply string2ll_sound in Ev as [Hv Es]. eexists _, buf. split; [done|]. split; [rewrite Eb; constructor; [done|done|]; intros E0; rewrite Eb, E0 in Hb; cbn in Hb; lia|].
    eapply (wrote_count _ _ _ _ (λ _, _)); [..|by apply wrote_raw]; lia. }
  clear Hb. assert (Hraw : ∃ res bs, Some (or_fail (rdbSaveLen rdb (zlen s)) (λ rdb n, if zlen s >? 0 then or_fail (rdbWriteRaw rdb s) (λ rdb _, (rdb, n + zlen s)) else (rdb, n))) = Some res ∧ string_bytes s bs ∧ wrote rdb res bs (zlen bs)).
  { eexists _, _. split; [done|]. split; [apply sb_raw|]. rewrite length_app. destruct (Z.gtb_spec (zlen s) 0).
    - eapply wrote_then; [|lia|apply saveLen_wrote; [done|lia]|]; [lia|]. intros rdb' Hok'. eapply (wrote_count _ _ _ _ (λ _, _)); [..|by apply wrote_raw]; lia.
    - destruct s; [|cbn [length] in *; lia]. rewrite app_nil_r. eapply (wrote_count _ _ _ _ (λ n, n)); [..|apply saveLen_wrote; [done|lia]]; cbn [length]; lia. }
  destruct (compression && (zlen s >? 20)) eqn:Ec; [|by cbn [mbind option_bind Z.eqb Z.gtb Z.compare]]. apply andb_true_iff in Ec as [_ Ec]. unfold rdbSaveLzfStringObject.
  destruct (Z.leb_spec (zlen s) 4); [lia|]. destruct (compress_restores garbage s (fresh (Z.to_nat (zlen s - 4)))) as (n & out & -> & Hlo & Hn & _ & Hres); [done|lia|done|]. rewrite length_fresh in *. cbn [mbind option_bind].
  destruct (Z.eqb_spec n 0) as [->|Hne]; [by cbn [mbind option_bind Z.eqb Z.gtb Z.compare]|]. unfold load. rewrite decide_True by lia. cbn [mbind option_bind]. change (drop (Z.to_nat 0) out) with out.
  set (stream := take (Z.to_nat n) out). assert (Hst : zlen stream = n) by (unfold stream; rewrite length_take; lia). pose proof (lzfBlob_wrote rdb stream s Hok) as Hw. cbv zeta in Hw.
  destruct (rdbSaveLzfBlob rdb stream (zlen s)) as [rdb' m]. eexists (rdb', m), _. split; [|split; [apply (sb_lzf s stream); [by apply Hres|lia]|exact Hw]].
  unfold wrote in Hw. cbn [fst snd] in Hw. set (cnt := zlen (_ :: _)) in Hw. assert (Hcnt : 0 < cnt) by (unfold cnt; cbn [length]; lia). assert (Hm : m = -1 ∨ m = cnt) by (destruct rdb, rdb'; naive_solver).
  destruct Hm as [->| ->]; [done|]. rewrite (proj2 (Z.eqb_neq _ _)) by lia. by rewrite (proj2 (Z.gtb_gt _ _)) by lia.
Qed.
(** Integers in the pointer of an object are written as their decimal notation
    would be. *)
Lemma saveLongLong_wrote rdb v : sink_ok rdb → sfits 64 v →
  ∃ res bs, rdbSaveLongLongAsStringObject rdb v = Some res ∧ string_bytes (sdec v) bs ∧ wrote rdb res bs (zlen bs).
Proof.
  intros Hok Hv. unfold rdbSaveLongLongAsStringObject. destruct (Z.gtb_spec (zlen (rdbEncodeInteger v)) 0) as [Hb|Hb].
  { eexists _, _. split; [done|]. split; [|by apply wrote_raw]. constructor; [done|done|]. intros E. rewrite E in Hb. cbn in Hb. lia. }
  pose proof (sdec_pos_length v Hv). rewrite ll2string_spec by (rewrite ?length_fresh; done || lia). cbn [mbind option_bind]. destruct (Z.ltb_spec (zlen (sdec v)) 32); [|lia]. cbn [negb].
  rewrite (load_head (sdec v)) by done. cbn [mbind option_bind]. eexists _, _. split; [done|]. split; [apply sb_raw|]. rewrite length_app.
  eapply wrote_then; [|lia|apply saveLen_wrote; [done|lia]|]; [lia|]. intros rdb' Hok'. eapply (wrote_count _ _ _ _ (λ n1, _ + n1)); [..|by apply wrote_raw]; lia.
Qed.
End saving.

(** ** Reading *)

Section loading.
Context {io : Type} `{BackendLaws io} `{!ReliableBackend io}.

(** A stream with [rest] ahead. *)
Definition reads (r : rio io) (rest : list Z) : Prop := rio_ok r ∧ r_read_error r = false ∧ pending (r_io r) = rest ∧ zlen rest < 2 ^ 64.

Lemma read_exact r bs rest n : reads r (bs ++ rest) → n = zlen bs → ∃ r', rioRead r n = (r', Some bs) ∧ reads r' rest.
Proof.
  intros (Hok & He & Hp & Hl) ->. rewrite length_app in Hl. destruct (rioRead_some r (zlen bs) Hok He) as [bs' Hs]; [rewrite Hp, length_app; lia..|]. pose proof (rioRead_spec r (zlen bs) Hok ltac:(lia)) as Hr.
  destruct (rioRead r (zlen bs)) as [r' res]. cbn [snd] in Hs. subst res. destruct Hr as (Hok' & Hl' & Hp' & He'). rewrite Hp in Hp'. apply app_inj_1 in Hp' as [<- Hp']; [|lia]. exists r'. split; [done|]. split_and!; [done..|lia].
Qed.

Lemma len_first_byte b : is_byte b → Z.shiftr (Z.land b 0xC0) 6 = b / 64 ∧ Z.land b 0x3F = b mod 64.
Proof.
  intros Hb. assert (E : (Z.shiftr (Z.land b 0xC0) 6 =? b / 64) && (Z.land b 0x3F =? b mod 64) = true); [|lia].
  apply (byte_forall (λ b, (Z.shiftr (Z.land b 0xC0) 6 =? b / 64) && (Z.land b 0x3F =? b mod 64))); [vm_compute; reflexivity|done].
Qed.
Context (ctx : report_context).
Lemma loadLen_spec r len rest : 0 ≤ len < 2 ^ 64 → reads r (len_bytes len ++ rest) → ∃ r', rdbLoadLenByRef ctx r = (r', Returned (Some (false, len))) ∧ reads r' rest.
Proof.
  intros Hl Hr. unfold len_bytes in Hr. unfold rdbLoadLenByRef. destruct (Z.ltb_spec len 64); [|destruct (Z.ltb_spec len 16384); [|destruct (Z.leb_spec len UINT32_MAX)]].
  - destruct (read_exact r [len] rest 1 Hr ltac:(done)) as (r' & -> & Hr'). destruct (len_first_byte len ltac:(unfold is_byte; lia)) as [-> ->]. rewrite Z.div_small, Z.mod_small by lia. by exists r'.
  - destruct (read_exact r [64 + len / 256] (len mod 256 :: rest) 1 Hr ltac:(done)) as (r' & -> & Hr'). destruct (len_first_byte (64 + len / 256) ltac:(unfold is_byte; dlia)) as [-> ->].
    destruct (read_exact r' [len mod 256] rest 1 Hr' ltac:(done)) as (r2 & -> & Hr2). replace ((64 + len / 256) / 64) with 1 by dlia. cbn [Z.eqb Pos.eqb RDB_ENCVAL RDB_6BITLEN RDB_14BITLEN]. exists r2. split; [|done]. do 4 f_equal.
    rewrite Z.lor_comm, lor_shiftl_add by (dlia || apply Z.mod_pos_bound; lia). dlia.
  - destruct (read_exact r [RDB_32BITLEN] (be_bytes 4 len ++ rest) 1 Hr ltac:(done)) as (r' & -> & Hr'). destruct (read_exact r' (be_bytes 4 len) rest 4 Hr') as (r2 & Er & Hr2); [by rewrite length_be_bytes|].
    exists r2. split; [|done]. cbn. rewrite Er. cbn. rewrite be_round by (unfold UINT32_MAX in *; cbn; lia). done.
  - destruct (read_exact r [RDB_64BITLEN] (be_bytes 8 len ++ rest) 1 Hr ltac:(done)) as (r' & -> & Hr'). destruct (read_exact r' (be_bytes 8 len) rest 8 Hr') as (r2 & Er & Hr2); [by rewrite length_be_bytes|].
    exists r2. split; [|done]. cbn. rewrite Er. cbn. rewrite be_round by done. done.
Qed.
Lemma rdbLoadLen_spec r len rest : 0 ≤ len < 2 ^ 64 → reads r (len_bytes len ++ rest) → ∃ r', rdbLoadLen ctx r = (r', Returned (false, len)) ∧ reads r' rest.
Proof. intros Hl Hr. destruct (loadLen_spec r len rest Hl Hr) as (r' & E & Hr'). exists r'. unfold rdbLoadLen. by rewrite E. Qed.

Context `{!Allocator} (try_alloc : Z → bool).

(** The string a loaded value stands for. *)
Definition content (v : loaded) : list Z :=
  match v with LoadedPlain s => s | LoadedSds s => s | LoadedObj (ObjString s) => s | LoadedObj (ObjInt n) => sdec n end.
(** The kind of value the caller asked for; only RDB_LOAD_ENC gives integer
    objects. *)
Definition kind_ok (flags : load_flags) (v : loaded) : Prop :=
  match flags, v with
  | RDB_LOAD_PLAIN, LoadedPlain _ | RDB_LOAD_SDS, LoadedSds _ | RDB_LOAD_NONE, LoadedObj (ObjString _) | RDB_LOAD_ENC, LoadedObj _ => True
  | _, _ => False
  end.
Lemma as_loaded_ok flags s : content (as_loaded flags s) = s ∧ kind_ok flags (as_loaded flags s).
Proof. by destruct flags. Qed.
Lemma ll_string_spec v : sfits 64 v → ll_string v = Some (sdec v).
Proof.
  intros Hv. unfold ll_string. pose proof (sdec_pos_length v Hv). rewrite ll2string_spec by (rewrite ?length_fresh; unfold LONG_STR_SIZE; done || lia). cbn [mbind option_bind]. by rewrite (load_head (sdec v)).
Qed.
Definition loads (flags : load_flags) (s rest : list Z) (res : option (rio io * load_outcome (option loaded))) : Prop :=
  ∃ r v, res = Some (r, Returned (Some v)) ∧ content v = s ∧ kind_ok flags v ∧ reads r rest.

Lemma encode_shape v : rdbEncodeInteger v ≠ [] →
  ∃ n k, rdbEncodeInteger v = k :: le_bytes n v ∧ sfits (8 * Z.of_nat n) v ∧ (k = 0xC0 ∧ n = 1%nat ∨ k = 0xC1 ∧ n = 2%nat ∨ k = 0xC2 ∧ n = 4%nat).
Proof.
  unfold rdbEncodeInteger. rewrite !land_ff, !Z.shiftr_div_pow2 by lia. change (- Z.shiftl 1 7) with (-128). change (- Z.shiftl 1 15) with (-32768). change (- Z.shiftl 1 31) with (-2147483648).
  change (Z.shiftl 1 7 - 1) with 127. change (Z.shiftl 1 15 - 1) with 32767. change (Z.shiftl 1 31 - 1) with 2147483647. intros Hne.
  destruct (_ && _) eqn:E1 in Hne |- *; [|destruct (_ && _) eqn:E2 in Hne |- *; [|destruct (_ && _) eqn:E3 in Hne |- *; [|done]]].
  - exists 1%nat, 0xC0. split; [done|]. split; [|by left]. unfold sfits. change (2 ^ (8 * Z.of_nat 1 - 1)) with 128. lia.
  - exists 2%nat, 0xC1. split; [done|]. split; [|by right; left]. unfold sfits. change (2 ^ (8 * Z.of_nat 2 - 1)) with 32768. lia.
  - exists 4%nat, 0xC2. split; [|split; [|by right; right]].
    + cbn [le_bytes]. rewrite !Z.div_div by lia. done.
    + unfold sfits. change (2 ^ (8 * Z.of_nat 4 - 1)) with 2147483648. lia.
Qed.
Lemma int_bytes v n : sfits (8 * Z.of_nat n) v → (0 < n)%nat → wraps (8 * Z.of_nat n) (le_or (le_bytes n v)) = v.
Proof. intros Hv Hn. rewrite le_or_val by apply le_bytes_byte. by apply wraps_le_val. Qed.
(** An allocation for a string that fits. *)
Definition room_for (len : Z) : Prop := ∀ n, 0 ≤ n ≤ len + 18 → try_alloc n = true.
Lemma hdr_size_range len : let type := Sds.sdsReqType len in let type := if (type =? Sds.SDS_TYPE_5) && (len =? 0) then Sds.SDS_TYPE_8 else type in 1 ≤ Sds.sdsHdrSize type ≤ 17.
Proof. cbv zeta. unfold Sds.sdsReqType. repeat case_match; vm_compute; split; done. Qed.
Lemma try_sds_room len : 0 ≤ len < 2 ^ 63 → room_for len → try_sds try_alloc len = Returned true.
Proof.
  intros Hl Hr. unfold try_sds. pose proof (hdr_size_range len) as Hh. cbv zeta in *. set (h := Sds.sdsHdrSize _) in *. clearbody h. rewrite !wrapu_small by lia. destruct (Z.gtb_spec (len + h + 1) len); [|lia]. by rewrite Hr by lia.
Qed.
Lemma create_room len : 0 ≤ len < 2 ^ 63 → room_for len → tryCreateStringObject try_alloc len = Returned true.
Proof. intros Hl Hr. unfold tryCreateStringObject. destruct (_ <=? _); [done|by apply try_sds_room]. Qed.
Lemma loadInteger_spec r v n k flags rest : sfits 64 v → sfits (8 * Z.of_nat n) v → k = 0 ∧ n = 1%nat ∨ k = 1 ∧ n = 2%nat ∨ k = 2 ∧ n = 4%nat →
  reads r (le_bytes n v ++ rest) → loads flags (sdec v) rest (rdbLoadIntegerObject ctx r k flags).
Proof.
  intros Hv Hn Hk Hr. assert (Hn0 : (0 < n)%nat) by lia. destruct (read_exact r (le_bytes n v) rest (Z.of_nat n) Hr) as (r' & Er & Hr'); [by rewrite length_le_bytes|]. pose proof (int_bytes v n Hn Hn0) as Ev.
  assert (E : rdbLoadIntegerObject ctx r k flags =
    match flags with
    | RDB_LOAD_PLAIN => s ← ll_string v; Some (r', Returned (Some (LoadedPlain s)))
    | RDB_LOAD_SDS => s ← ll_string v; Some (r', Returned (Some (LoadedSds s)))
    | RDB_LOAD_ENC => Some (r', Returned (Some (LoadedObj (ObjInt v))))
    | RDB_LOAD_NONE => s ← ll_string v; Some (r', Returned (Some (LoadedObj (ObjString s))))
    end).
  { unfold rdbLoadIntegerObject. destruct Hk as [[-> ->]|[[-> ->]|[-> ->]]]; cbn [Z.eqb Pos.eqb RDB_ENC_INT8 RDB_ENC_INT16 RDB_ENC_INT32].
    - change 1 with (Z.of_nat 1) at 1. rewrite Er. cbn [fmap option_fmap option_map]. change (s8 (le_or (le_bytes 1 v))) with (wraps (8 * Z.of_nat 1) (le_or (le_bytes 1 v))). rewrite Ev. by destruct flags.
    - change 2 with (Z.of_nat 2) at 1. rewrite Er. cbn [fmap option_fmap option_map]. change (s16 (le_or (le_bytes 2 v))) with (wraps (8 * Z.of_nat 2) (le_or (le_bytes 2 v))). rewrite Ev. by destruct flags.
    - change 4 with (Z.of_nat 4) at 1. rewrite Er. cbn [fmap option_fmap option_map]. change (s32 (le_or (le_bytes 4 v))) with (wraps (8 * Z.of_nat 4) (le_or (le_bytes 4 v))). rewrite Ev. by destruct flags. }
  rewrite E, !ll_string_spec by done. cbn [mbind option_bind]. destruct flags; eexists _, _; (split; [done|]); split_and!; done.
Qed.
Lemma loadLzf_spec r stream s flags rest : restores stream s → zlen stream < 2 ^ 63 → zlen s < 2 ^ 63 → try_alloc (zlen stream) = true → room_for (zlen s) →
  reads r (len_bytes (zlen stream) ++ len_bytes (zlen s) ++ stream ++ rest) → loads flags s rest (rdbLoadLzfStringObject ctx try_alloc r flags).
Proof.
  intros Hst Hl1 Hl2 Ha1 Ha2 Hr. unfold rdbLoadLzfStringObject. destruct (rdbLoadLen_spec r (zlen stream) _ ltac:(lia) Hr) as (r1 & -> & Hr1). cbn [and_then]. destruct (Z.eqb_spec (zlen stream) RDB_LENERR); [unfold RDB_LENERR, UINT64_MAX in *; lia|].
  destruct (rdbLoadLen_spec r1 (zlen s) _ ltac:(lia) Hr1) as (r2 & -> & Hr2). cbn [and_then]. destruct (Z.eqb_spec (zlen s) RDB_LENERR); [unfold RDB_LENERR, UINT64_MAX in *; lia|]. rewrite Ha1. assert (match flags with RDB_LOAD_PLAIN => Returned (try_alloc (zlen s)) | _ => try_sds try_alloc (zlen s) end = Returned true) as -> by (rewrite try_sds_room, Ha2 by (done || lia); by destruct flags). cbn [and_then negb].
  destruct (read_exact r2 stream rest (zlen stream) Hr2 ltac:(done)) as (r3 & -> & Hr3). rewrite (Hst (fresh (Z.to_nat (zlen s)))) by (rewrite length_fresh; lia). cbn [mbind option_bind]. rewrite Z.eqb_refl. cbn [negb].
  rewrite drop_ge, app_nil_r by (rewrite length_fresh; lia). eexists _, _. split; [done|]. by destruct (as_loaded_ok flags s).
Qed.
Lemma loadEnc_spec r k rest : 0 ≤ k < 64 → reads r (0xC0 + k :: rest) → ∃ r', rdbLoadLen ctx r = (r', Returned (true, k)) ∧ reads r' rest.
Proof.
  intros Hk Hr. unfold rdbLoadLen, rdbLoadLenByRef. destruct (read_exact r [0xC0 + k] rest 1 Hr ltac:(done)) as (r' & -> & Hr'). destruct (len_first_byte (0xC0 + k) ltac:(unfold is_byte; lia)) as [-> ->].
  replace ((0xC0 + k) / 64) with 3 by dlia. replace ((0xC0 + k) mod 64) with k by dlia. by exists r'.
Qed.
(** Every encoding of a string loads as the string. *)
Lemma load_spec r s bs flags rest : Forall is_byte s → zlen s < 2 ^ 63 → string_bytes s bs → room_for (zlen s) →
  reads r (bs ++ rest) → loads flags s rest (rdbGenericLoadStringObject ctx try_alloc r flags).
Proof.
  intros Hby Hl Hs Ha Hr. unfold rdbGenericLoadStringObject. destruct Hs as [v Hv -> Hne|stream Hst Hls|].
  - destruct (encode_shape v Hne) as (n & k & E & Hn & Hk). rewrite E in Hr. destruct (loadEnc_spec r (k - 0xC0) (le_bytes n v ++ rest)) as (r' & -> & Hr'); [lia|by replace (0xC0 + (k - 0xC0)) with k by lia|]. cbn [and_then].
    destruct (Z.eqb_spec (k - 0xC0) RDB_LENERR); [unfold RDB_LENERR, UINT64_MAX in *; lia|]. assert (Ek : (k - 0xC0 =? RDB_ENC_INT8) || (k - 0xC0 =? RDB_ENC_INT16) || (k - 0xC0 =? RDB_ENC_INT32) = true) by (unfold RDB_ENC_INT8, RDB_ENC_INT16, RDB_ENC_INT32; lia).
    rewrite Ek. eapply loadInteger_spec; [done|exact Hn|lia|done].
  - destruct (loadEnc_spec r 3 (len_bytes (zlen stream) ++ len_bytes (zlen s) ++ stream ++ rest)) as (r' & -> & Hr'); [lia|cbn [app] in Hr; by rewrite <- !app_assoc in Hr|]. cbn [and_then Z.eqb Pos.eqb orb RDB_LENERR RDB_ENC_INT8 RDB_ENC_INT16 RDB_ENC_INT32 RDB_ENC_LZF].
    change (3 =? RDB_LENERR) with false. cbn iota. apply (loadLzf_spec r' stream); [done|lia|done|apply Ha; lia|done|done].
  - rewrite <- app_assoc in Hr. destruct (rdbLoadLen_spec r (zlen s) _ ltac:(lia) Hr) as (r1 & -> & Hr1). cbn [and_then]. destruct (Z.eqb_spec (zlen s) RDB_LENERR); [unfold RDB_LENERR, UINT64_MAX in *; lia|].
    assert (match flags with RDB_LOAD_PLAIN => Returned (try_alloc (zlen s)) | RDB_LOAD_SDS => try_sds try_alloc (zlen s) | _ => tryCreateStringObject try_alloc (zlen s) end = Returned true) as -> by (rewrite try_sds_room, create_room, Ha by (done || lia); by destruct flags). cbn [and_then negb].
    destruct (Z.eqb_spec (zlen s) 0) as [E0|Hne]; cbn [negb].
    + destruct s; [|cbn [length] in E0; lia]. eexists _, _. split; [done|]. by destruct (as_loaded_ok flags []).
    + destruct (read_exact r1 s rest (zlen s) Hr1 ltac:(done)) as (r2 & -> & Hr2). eexists _, _. split; [done|]. by destruct (as_loaded_ok flags s).
Qed.
(** The length of a string that no allocation can have. *)
Definition too_long (len : Z) : Prop := 2 ^ 64 - 18 ≤ len < 2 ^ 64 - 1.
Lemma load_aborts r len flags rest : too_long len → reads r (RDB_64BITLEN :: be_bytes 8 len ++ rest) → flags ≠ RDB_LOAD_PLAIN → ∃ r', rdbGenericLoadStringObject ctx try_alloc r flags = Some (r', Aborted).
Proof.
  intros Hl Hr Hf. unfold too_long in Hl. assert (E : RDB_64BITLEN :: be_bytes 8 len = len_bytes len).
  { unfold len_bytes, UINT32_MAX. by destruct (Z.ltb_spec len 64), (Z.ltb_spec len 16384), (Z.leb_spec len (2 ^ 32 - 1)); try lia. }
  change (RDB_64BITLEN :: be_bytes 8 len ++ rest) with ((RDB_64BITLEN :: be_bytes 8 len) ++ rest) in Hr. rewrite E in Hr. destruct (rdbLoadLen_spec r len rest ltac:(lia) Hr) as (r' & El & _). exists r'. unfold rdbGenericLoadStringObject. rewrite El. cbn [and_then].
  destruct (Z.eqb_spec len RDB_LENERR); [unfold RDB_LENERR, UINT64_MAX in *; lia|]. assert (Et : try_sds try_alloc len = Aborted).
  { unfold try_sds, Sds.sdsReqType. change (Z.shiftl 1 5) with (2 ^ 5). change (Z.shiftl 1 8) with (2 ^ 8). change (Z.shiftl 1 16) with (2 ^ 16). change (Z.shiftl 1 32) with (2 ^ 32).
    destruct (Z.ltb_spec len (2 ^ 5)), (Z.ltb_spec len (2 ^ 8)), (Z.ltb_spec len (2 ^ 16)), (Z.ltb_spec len (2 ^ 32)); try lia. change ((Sds.SDS_TYPE_64 =? Sds.SDS_TYPE_5) && (len =? 0)) with false. cbv iota zeta. change (Sds.sdsHdrSize Sds.SDS_TYPE_64) with 17. unfold wrapu.
    rewrite <- (Z.mod_unique (len + 17 + 1) (2 ^ 64) 1 (len + 18 - 2 ^ 64)) by lia. by destruct (Z.gtb_spec (len + 18 - 2 ^ 64) len); [lia|]. }
  unfold tryCreateStringObject, OBJ_ENCODING_EMBSTR_SIZE_LIMIT. destruct (Z.leb_spec len 44); [lia|]. rewrite Et. by destruct flags.
Qed.
End loading.

(** ** Loading arbitrary bytes *)

Section untrusted.
Context {io : Type} `{BackendLaws io}.

Definition byte_stream (r : rio io) : Prop := rio_ok r ∧ Forall is_byte (pending (r_io r)).
(** [bs] was read from [r], [r'] is what is left. *)
Definition after (r r' : rio io) (bs : list Z) : Prop := byte_stream r' ∧ Forall is_byte bs ∧ pending (r_io r) = bs ++ pending (r_io r').
Lemma after_trans r1 r2 r3 a b : after r1 r2 a → after r2 r3 b → after r1 r3 (a ++ b).
Proof. intros (_ & Ha & Ea) (H3 & Hb & Eb). split_and!; [done|by apply Forall_app|]. by rewrite Ea, Eb, app_assoc. Qed.

Lemma read_safe r n : byte_stream r → 0 ≤ n → let '(r', res) := rioRead r n in ∀ bs, res = Some bs → zlen bs = n ∧ after r r' bs.
Proof.
  intros [Hok Hb] Hn. pose proof (rioRead_spec r n Hok Hn) as Hr. destruct (rioRead r n) as [r' res]. intros bs ->. destruct Hr as (Hok' & Hl & Hp & _). split; [done|]. rewrite Hp in Hb. apply Forall_app in Hb as [Hb1 Hb2]. by split_and!.
Qed.
Lemma be_val_range bs : Forall is_byte bs → 0 ≤ be_val bs < 2 ^ (8 * zlen bs).
Proof. intros Hb. unfold be_val. rewrite <- length_reverse. apply le_val_range. by apply Forall_reverse. Qed.
Lemma be_bytes_val n bs : Forall is_byte bs → length bs = n → be_bytes n (be_val bs) = bs.
Proof. intros Hb Hl. unfold be_bytes, be_val. rewrite le_bytes_val'; [by rewrite reverse_involutive|by apply Forall_reverse|by rewrite length_reverse]. Qed.

Context (ctx : report_context).
(** What a length was read from: large lengths take nine bytes. *)
Definition len_read (r r' : rio io) (len : Z) : Prop := 0 ≤ len < 2 ^ 64 ∧ ∃ bs, after r r' bs ∧ (2 ^ 32 ≤ len → bs = RDB_64BITLEN :: be_bytes 8 len).
Lemma len_read_small r r' bs len : after r r' bs → 0 ≤ len < 2 ^ 32 → len_read r r' len.
Proof. intros Ha Hl. split; [lia|]. exists bs. split; [done|lia]. Qed.
Lemma loadLen_safe r : byte_stream r → let '(r', res) := rdbLoadLenByRef ctx r in
  match res with Returned (Some (e, len)) => len_read r r' len | Returned None => True | Exited => rdbReportError ctx true = false | Aborted => False end.
Proof.
  intros Hr. unfold rdbLoadLenByRef. pose proof (read_safe r 1 Hr ltac:(lia)) as H1. destruct (rioRead r 1) as [r1 [[|b0 t0]|]]; try done. destruct (H1 _ eq_refl) as [Hl1 A1]. clear H1. pose proof A1 as (Hr1 & Hb0 & _). apply Forall_cons in Hb0 as [Hb0 _].
  destruct t0; [|cbn [length] in Hl1; lia]. destruct (len_first_byte b0 Hb0) as [-> ->]. assert (Hm : 0 ≤ b0 mod 64 < 64) by (apply Z.mod_pos_bound; lia). destruct (b0 / 64 =? RDB_ENCVAL); [eapply len_read_small; [done|lia]|]. destruct (b0 / 64 =? RDB_6BITLEN); [eapply len_read_small; [done|lia]|].
  destruct (b0 / 64 =? RDB_14BITLEN); [|destruct (b0 =? RDB_32BITLEN); [|destruct (Z.eqb_spec b0 RDB_64BITLEN) as [->|_]; [|unfold corrupt; by destruct (rdbReportError ctx true)]]].
  - pose proof (read_safe r1 1 Hr1 ltac:(lia)) as H2. destruct (rioRead r1 1) as [r2 [[|b1 t1]|]]; try done. destruct (H2 _ eq_refl) as [Hl2 A2]. pose proof A2 as (_ & Hb1 & _). apply Forall_cons in Hb1 as [Hb1 _]. eapply len_read_small; [eauto using after_trans|].
    rewrite Z.lor_comm, lor_shiftl_add by done. unfold is_byte in Hb1. lia.
  - pose proof (read_safe r1 4 Hr1 ltac:(lia)) as H2. destruct (rioRead r1 4) as [r2 [bs|]]; [|done]. destruct (H2 _ eq_refl) as [Hl2 A2]. cbn [fmap option_fmap option_map]. eapply len_read_small; [eauto using after_trans|]. pose proof A2 as (_ & Hb & _). pose proof (be_val_range bs Hb) as Hv. rewrite Hl2 in Hv. lia.
  - pose proof (read_safe r1 8 Hr1 ltac:(lia)) as H2. destruct (rioRead r1 8) as [r2 [bs|]]; [|done]. destruct (H2 _ eq_refl) as [Hl2 A2]. cbn [fmap option_fmap option_map]. pose proof A2 as (_ & Hb & _). pose proof (be_val_range bs Hb) as Hv. rewrite Hl2 in Hv. split; [lia|]. eexists. split; [by eapply after_trans|]. intros _. cbn [app]. by rewrite be_bytes_val by (done || lia).
Qed.
Lemma rdbLoadLen_safe r : byte_stream r → let '(r', res) := rdbLoadLen ctx r in
  match res with Returned (e, len) => len ≠ RDB_LENERR → len_read r r' len | Exited => rdbReportError ctx true = false | Aborted => False end.
Proof. intros Hr. unfold rdbLoadLen. pose proof (loadLen_safe r Hr) as H1. by destruct (rdbLoadLenByRef ctx r) as [r' [[[e len]|]| |]]. Qed.

Context `{!Allocator} (try_alloc : Z → bool).

(** A load that did not access memory out of bounds.  A value has the right kind,
    and the bytes it was read from are gone from the stream.  The process exits
    only if the report of a corrupt file does not return, and an assertion fails
    only for a length close to 2^64 that was just read, by itself or as the length
    of a compressed string, if the value is not a plain block. *)
Definition safe_load (r : rio io) (flags : load_flags) (res : option (rio io * load_outcome (option loaded))) : Prop :=
  ∃ r' out, res = Some (r', out) ∧
    match out with
    | Returned None => True
    | Returned (Some x) => kind_ok flags x ∧ ∃ bs, after r r' bs
    | Exited => rdbReportError ctx true = false
    | Aborted => flags ≠ RDB_LOAD_PLAIN ∧ ∃ bs len, too_long len ∧ after r r' (bs ++ RDB_64BITLEN :: be_bytes 8 len)
    end.
Lemma safe_null r r' flags : safe_load r flags (Some (r', Returned None)).
Proof. by exists r', (Returned None). Qed.
Lemma safe_corrupt r r' flags : safe_load r flags (Some (corrupt ctx r' None)).
Proof. unfold corrupt. exists r'. destruct (rdbReportError ctx true) eqn:E; eexists; split; done. Qed.
Lemma safe_exit r r' flags : rdbReportError ctx true = false → safe_load r flags (Some (r', Exited)).
Proof. intros E. by exists r', Exited. Qed.
Lemma safe_after r r1 flags bs res : after r r1 bs → safe_load r1 flags res → safe_load r flags res.
Proof.
  intros Ha (r' & out & -> & Ho). exists r', out. split; [done|]. destruct out as [[x|]| |]; [|done|done|].
  - destruct Ho as [Hk [bs' Ha']]. split; [done|]. eauto using after_trans.
  - destruct Ho as [Hf (b & len & Hl & Ha')]. split; [done|]. exists (bs ++ b), len. split; [done|]. rewrite <- app_assoc. by eapply after_trans.
Qed.
Lemma try_sds_cases len : 0 ≤ len < 2 ^ 64 - 1 → (∃ b, try_sds try_alloc len = Returned b) ∨ try_sds try_alloc len = Aborted ∧ too_long len.
Proof.
  intros Hl. unfold try_sds, too_long. pose proof (hdr_size_range len) as Hh. cbv zeta in *. set (h := Sds.sdsHdrSize _) in *. clearbody h. destruct (u64 (len + h + 1) >? len) eqn:E; [left; eauto|]. right. split; [done|].
  destruct (Z.lt_ge_cases (len + h + 1) (2 ^ 64)); [|lia]. rewrite wrapu_small in E by lia. lia.
Qed.
(** Continuing after a length and an allocation. *)
Lemma safe_alloc r r' len flags m (k : rio io → bool → option (rio io * load_outcome (option loaded))) : len_read r r' len → len ≠ RDB_LENERR →
  m = Returned (try_alloc len) ∨ m = Returned true ∨ flags ≠ RDB_LOAD_PLAIN ∧ m = try_sds try_alloc len → (∀ b, safe_load r flags (k r' b)) → safe_load r flags (and_then (r', m) k).
Proof.
  intros [Hl (bs & Ha & Hbs)] Hne Hm Hk. destruct Hm as [->|[->|[Hf ->]]]; [apply Hk|apply Hk|]. unfold RDB_LENERR, UINT64_MAX in Hne. destruct (try_sds_cases len ltac:(lia)) as [[b ->]|[-> Htl]]; [apply Hk|]. cbn [and_then].
  exists r', Aborted. split; [done|]. split; [done|]. exists [], len. split; [done|]. cbn [app]. rewrite <- Hbs; [done|]. unfold too_long in Htl. lia.
Qed.
Lemma wraps_sfits w z : 0 < w ≤ 64 → sfits 64 (wraps w z).
Proof.
  intros Hw. pose proof (wraps_range w z ltac:(lia)) as Hr. unfold sfits in *. assert (2 ^ (w - 1) ≤ 2 ^ (64 - 1)) by (apply Z.pow_le_mono_r; lia). lia.
Qed.
Lemma loadInteger_safe r k flags : byte_stream r → safe_load r flags (rdbLoadIntegerObject ctx r k flags).
Proof.
  intros Hr. unfold rdbLoadIntegerObject. set (cont := λ (r : rio io) (res : option Z), match res with None => _ | Some _ => _ end).
  assert (Hall : ∀ n w, 0 ≤ n → 0 < w ≤ 64 → safe_load r flags (let '(r, res) := (let '(r, res) := rioRead r n in (r, Returned ((λ enc, wraps w (le_or enc)) <$> res))) in and_then (r, res) cont)).
  { intros n w Hn Hw. pose proof (read_safe r n Hr Hn) as S1. destruct (rioRead r n) as [r1 [bs|]]; cbn [fmap option_fmap option_map and_then]; [|apply safe_null]. destruct (S1 _ eq_refl) as [_ A]. unfold cont. rewrite !ll_string_spec by (by apply wraps_sfits). cbn [mbind option_bind].
    destruct flags; eexists r1, _; (split; [done|]); (split; [done|eauto]). }
  destruct (k =? RDB_ENC_INT8); [by apply (Hall 1 8)|]. destruct (k =? RDB_ENC_INT16); [by apply (Hall 2 16)|]. destruct (k =? RDB_ENC_INT32); [by apply (Hall 4 32)|].
  unfold corrupt. destruct (rdbReportError ctx true) eqn:E; cbn [and_then]; [apply safe_null|by apply safe_exit].
Qed.
Lemma then_returned {A B} (r : rio io) (x : A) (k : rio io → A → option (rio io * load_outcome B)) : and_then (r, Returned x) k = k r x.
Proof using Type. done. Qed.
Lemma loadLzf_safe r flags : byte_stream r → safe_load r flags (rdbLoadLzfStringObject ctx try_alloc r flags).
Proof.
  intros Hr. unfold rdbLoadLzfStringObject. pose proof (rdbLoadLen_safe r Hr) as S1. destruct (rdbLoadLen ctx r) as [r1 [[e1 clen]| |]]; [|by apply safe_exit|done]. rewrite then_returned. cbv beta iota. destruct (Z.eqb_spec clen RDB_LENERR); [apply safe_null|]. destruct (S1 ltac:(done)) as [Hc (b1 & A1 & _)]. pose proof A1 as (Hr1 & _).
  eapply safe_after; [exact A1|]. pose proof (rdbLoadLen_safe r1 Hr1) as S2. destruct (rdbLoadLen ctx r1) as [r2 [[e2 len]| |]]; [|by apply safe_exit|done]. rewrite then_returned. cbv beta iota. destruct (Z.eqb_spec len RDB_LENERR); [apply safe_null|]. pose proof (S2 ltac:(done)) as Hlr. pose proof Hlr as [Hl (b2 & A2 & _)]. pose proof A2 as (Hr2 & _).
  destruct (try_alloc clen); [|apply safe_null]. cbn [negb]. eapply safe_alloc; [exact Hlr|done|destruct flags; auto|]. intros [|]; cbn [negb]; [|apply safe_null].
  pose proof (read_safe r2 clen Hr2 ltac:(lia)) as S3. destruct (rioRead r2 clen) as [r3 [c|]]; [|apply safe_null]. destruct (S3 _ eq_refl) as [_ A3].
  pose proof A3 as (_ & Hby & _). destruct (decompress_decodes c (fresh (Z.to_nat len)) Hby) as (res & out & -> & _). cbn [mbind option_bind]. destruct (negb _); [apply safe_corrupt|]. eexists r3, _. split; [done|].
  split; [apply as_loaded_ok|]. eauto using after_trans.
Qed.
Lemma load_safe r flags : byte_stream r → safe_load r flags (rdbGenericLoadStringObject ctx try_alloc r flags).
Proof.
  intros Hr. unfold rdbGenericLoadStringObject. pose proof (rdbLoadLen_safe r Hr) as S1. destruct (rdbLoadLen ctx r) as [r1 [[e len]| |]]; [|by apply safe_exit|done]. rewrite then_returned. cbv beta iota. destruct (Z.eqb_spec len RDB_LENERR); [apply safe_null|]. pose proof (S1 ltac:(done)) as Hlr. pose proof Hlr as [Hl (b1 & A1 & _)]. pose proof A1 as (Hr1 & _). destruct e.
  - destruct (_ || _); [eapply safe_after; [exact A1|by apply loadInteger_safe]|]. destruct (_ =? _); [eapply safe_after; [exact A1|by apply loadLzf_safe]|apply safe_corrupt].
  - eapply safe_alloc; [exact Hlr|done|unfold tryCreateStringObject; destruct flags, (len <=? OBJ_ENCODING_EMBSTR_SIZE_LIMIT); auto|]. intros [|]; cbn [negb]; [|apply safe_null]. destruct (Z.eqb_spec len 0) as [->|Hne]; cbn [negb].
    + eexists r1, _. split; [done|]. split; [apply as_loaded_ok|eauto].
    + pose proof (read_safe r1 len Hr1 ltac:(lia)) as S3. destruct (rioRead r1 len) as [r3 [c|]]; [|apply safe_null]. destruct (S3 _ eq_refl) as [_ A3]. eexists r3, _. split; [done|]. split; [apply as_loaded_ok|]. eauto using after_trans.
Qed.
End untrusted.

(** ** The properties *)

Definition obj_ok (obj : string_obj) : Prop := match obj with ObjInt v => sfits 64 v | ObjString s => Forall is_byte s ∧ zlen s < 2 ^ 63 end.
Lemma sdec_ok v : sfits 64 v → Forall is_byte (sdec v) ∧ zlen (sdec v) < 2 ^ 63.
Proof. intros Hv. pose proof (sdec_pos_length v Hv). split; [apply sdec_bytes|lia]. Qed.

(** [sdstrynewlen] of the model of strings stops where [try_sds] aborts, and
    returns a string or NULL as [try_sds] says. *)
Lemma try_sds_newlen `{Al : Allocator} try_alloc len :
  0 ≤ len →
  match try_sds try_alloc len with
  | Returned room => len ≤ SdsOk.MAX → ∃ res, Sds.sdstrynewlen Sds.SDS_NOINIT len room = Some res ∧ (is_Some res ↔ room = true)
  | Exited => False
  | Aborted => ∀ room, Sds.sdstrynewlen Sds.SDS_NOINIT len room = None
  end.
Proof.
  intros Hl. destruct (try_sds try_alloc len) as [room| |] eqn:E.
  - intros Hm. pose proof (SdsOk.newlen_spec Sds.SDS_NOINIT len true room ltac:(lia) ltac:(done)) as Hn. cbn [andb] in Hn. unfold Sds.sdstrynewlen.
    destruct room; cbn [negb] in Hn; [destruct Hn as (s & str & -> & _)|rewrite Hn]; eexists; (split; [done|]); by split; [intros []|].
  - unfold try_sds in E. cbv zeta in E. by destruct (_ >? _).
  - intros room. unfold try_sds in E. unfold Sds.sdstrynewlen, Sds._sdsnewlen. cbv zeta in *. by destruct (_ >? _).
Qed.

(** C22: A string object that is saved to any stream is loaded back from any
    stream: [rdbSaveStringObject] of an integer or string object, compressed or
    not, whatever memory holds, writes some bytes and returns their number (the
    same number without a stream), or returns -1 after an I/O error only; and
    [rdbGenericLoadStringObject] of these bytes, followed by anything, on a
    backend without I/O errors and with memory for the string and its header,
    consumes exactly these bytes and returns a value of the kind the caller asked
    for with the same content. *)
Theorem rdb_string_roundtrip {io io' : Type} `{BackendLaws io} `{ReliableBackend io'} `{AL : Allocator} garbage ctx try_alloc compression rdb obj :
  (∀ i, garbage i < 2 ^ 64 - 8192) → (∀ n, 0 ≤ n ≤ zlen (content (LoadedObj obj)) + 18 → try_alloc n = true) → sink_ok (io := io) rdb → obj_ok obj →
  ∃ res bs, rdbSaveStringObject garbage compression rdb obj = Some res ∧ wrote rdb res bs (zlen bs) ∧
    ∀ (r : rio io') rest flags, reads r (bs ++ rest) → loads flags (content (LoadedObj obj)) rest (rdbGenericLoadStringObject ctx try_alloc r flags).
Proof.
  intros Hg Ha Hok Ho. destruct obj as [v|s]; cbn [obj_ok rdbSaveStringObject content] in *.
  - destruct (saveLongLong_wrote rdb v Hok Ho) as (res & bs & E & Hs & Hw). exists res, bs. split_and!; [done..|]. intros r rest flags Hr. destruct (sdec_ok v Ho). by eapply load_spec.
  - destruct Ho as [Hb Hl]. destruct (saveRaw_wrote garbage Hg compression rdb s Hok Hb Hl) as (res & bs & E & Hs & Hw). exists res, bs. split_and!; [done..|]. intros r rest flags Hr. by eapply load_spec.
Qed.

(** C14: Loading a string from an untrusted stream, on a backend that may fail at
    any read, with an allocator that may refuse any size, never accesses memory
    out of bounds.  The load returns NULL, or a value of the kind asked for, and
    then the stream has advanced by the bytes of the value.  Otherwise the process
    exits, which happens only where the report of a corrupt file does not return
    (not for RESTORE), or an assertion fails: this happens only when the value is
    not a plain block and a length from 2^64-18 on was read last, and it does
    happen when the stream starts with such a length. *)
Theorem rdb_load_safe {io : Type} `{BackendLaws io} `{AL : Allocator} ctx try_alloc (r : rio io) flags :
  rio_ok r → Forall is_byte (pending (r_io r)) →
  safe_load ctx r flags (rdbGenericLoadStringObject ctx try_alloc r flags) ∧
  (∀ `{!ReliableBackend io} len rest, too_long len → reads r (RDB_64BITLEN :: be_bytes 8 len ++ rest) → flags ≠ RDB_LOAD_PLAIN →
    ∃ r', rdbGenericLoadStringObject ctx try_alloc r flags = Some (r', Aborted)).
Proof. intros Hok Hb. split; [by apply load_safe|]. intros Hrel len rest Hl Hr Hf. by eapply load_aborts. Qed.

(** A text of 44 bytes that compresses, in a memory buffer. *)
Definition sample : list Z := bytes_of "the quick, the quick, the quick, the quick!!".
Definition sample_file : list Z := [195; 19; 44; 11; 116; 104; 101; 32; 113; 117; 105; 99; 107; 44; 32; 116; 224; 21; 10; 1; 33; 33].
Definition saved (b : list Z) : option (rio buffer) * Z := (Some (Rio (Buffer b (zlen b)) None 0 false false (zlen b) 0), zlen b).
(** A diskless load. *)
Definition sample_context : report_context := ReportContext false false None.
Lemma rdb_sample_ok : obj_ok (ObjString sample).
Proof. split; [|done]. repeat (apply Forall_cons_2; [done|]). by apply Forall_nil_2. Qed.
Lemma sample_sink : sink_ok (Some (rioInitWithBuffer [])).
Proof. split; [|done]. cbn. unfold buffer_ok. cbn. lia. Qed.
Lemma sample_garbage (i : Z) : 0 < 2 ^ 64 - 8192.
Proof. lia. Qed.
Lemma sample_alloc (n : Z) : 0 ≤ n ≤ zlen sample + 18 → true = true.
Proof. done. Qed.
Lemma sample_reads b : zlen b < 2 ^ 64 → reads (rioInitWithBuffer b) (b ++ []).
Proof. intros Hl. rewrite app_nil_r. split_and!; try done. split; [|done]. cbn. unfold buffer_ok. cbn. lia. Qed.
Lemma rdb_string_roundtrip_witness :
  rdbSaveStringObject (H0 := exact_allocator) (λ _, 0) true (Some (rioInitWithBuffer [])) (ObjString sample) = Some (saved sample_file) ∧
  loads RDB_LOAD_SDS sample [] (rdbGenericLoadStringObject (H0 := exact_allocator) sample_context (λ _, true) (rioInitWithBuffer sample_file) RDB_LOAD_SDS).
Proof.
  assert (Es : rdbSaveStringObject (H0 := exact_allocator) (λ _, 0) true (Some (rioInitWithBuffer [])) (ObjString sample) = Some (saved sample_file)) by (vm_compute; reflexivity).
  split; [exact Es|].
  destruct (rdb_string_roundtrip (io := buffer) (io' := buffer) (AL := exact_allocator) (λ _, 0) sample_context (λ _, true) true (Some (rioInitWithBuffer [])) (ObjString sample) sample_garbage sample_alloc sample_sink rdb_sample_ok) as (res & bs & E & Hw & Hr).
  rewrite Es in E. injection E as <-. destruct Hw as (_ & [(_ & Hb & _)|[? _]] & _); [|done]. cbn in Hb. rewrite Hb. apply (Hr (rioInitWithBuffer bs) [] RDB_LOAD_SDS). apply sample_reads. rewrite <- Hb. done.
Defined.
(** An LZF header whose stream is cut off, and the length 2^64-2. *)
Definition long_file : list Z := [0x81; 255; 255; 255; 255; 255; 255; 255; 254].
Lemma rdb_load_safe_witness :
  safe_load sample_context (rioInitWithBuffer [195; 19; 44; 11; 116]) RDB_LOAD_NONE (rdbGenericLoadStringObject (H0 := exact_allocator) sample_context (λ _, true) (rioInitWithBuffer [195; 19; 44; 11; 116]) RDB_LOAD_NONE) ∧
  ∃ r', rdbGenericLoadStringObject (H0 := exact_allocator) sample_context (λ _, true) (rioInitWithBuffer long_file) RDB_LOAD_ENC = Some (r', Aborted).
Proof.
  split.
  - apply (rdb_load_safe (AL := exact_allocator)).
    + split; [|done]. cbn. unfold buffer_ok. cbn. lia.
    + repeat (apply Forall_cons_2; [done|]). by apply Forall_nil_2.
  - apply (proj2 (rdb_load_safe (AL := exact_allocator) sample_context (λ _, true) (rioInitWithBuffer long_file) RDB_LOAD_ENC ltac:(split; [cbn; unfold buffer_ok; cbn; lia|done]) ltac:(repeat (apply Forall_cons_2; [done|]); by apply Forall_nil_2)) _ (2 ^ 64 - 2) []); [unfold too_long; lia| |done].
    apply (sample_reads long_file). done.
Defined.
End RdbRound.
