(* ===== verification/Adlist.v ===== *)
(** * adlist.c: the generic doubly linked list

    Nodes live in a heap shared by all lists; a pointer is [None] for NULL.  The
    outer option of a function is [None] where the code would use a NULL or freed
    pointer.  The methods of a list are parameters: [dup] may fail, calls of
    [free] are recorded. *)

From S2P Require Import Prelude.

Module Adlist.
Section adlist.
(** The values, compared as pointers. *)
Context {V : Type} `{!EqDecision V}.

Abbreviation ptr := (option positive).

Record listNode := ListNode { n_prev : ptr; n_next : ptr; n_value : V }.
Record list_t := AList {
  l_head : ptr;
  l_tail : ptr;
  l_dup : option (V → option V);
  l_free : bool;
  l_match : option (V → V → bool);
  l_len : Z;
}.
Inductive direction := AL_START_HEAD | AL_START_TAIL.
Record listIter := ListIter { i_next : ptr; i_direction : direction }.

(** The nodes and the values that were passed to [free]. *)
Record mem := Mem { m_heap : gmap positive listNode; m_freed : list V }.

Definition node_at (m : mem) (p : ptr) : option listNode := p ← p; m_heap m !! p.
Definition put_node (m : mem) (p : ptr) (n : listNode) : option mem :=
  p ← p; _ ← m_heap m !! p; Some (Mem (<[p := n]> (m_heap m)) (m_freed m)).
Definition set_prev (m : mem) (p x : ptr) : option mem := n ← node_at m p; put_node m p (ListNode x (n_next n) (n_value n)).
Definition set_next (m : mem) (p x : ptr) : option mem := n ← node_at m p; put_node m p (ListNode (n_prev n) x (n_value n)).
(** [zmalloc] of a node with its value; the links are written by the caller. *)
Definition new_node (m : mem) (v : V) : mem * positive :=
  let p := base.fresh (dom (m_heap m)) in (Mem (<[p := ListNode None None v]> (m_heap m)) (m_freed m), p).
Definition zfree_node (m : mem) (p : ptr) : option mem := p ← p; _ ← m_heap m !! p; Some (Mem (delete p (m_heap m)) (m_freed m)).
Definition call_free (m : mem) (l : list_t) (v : V) : mem := if l_free l then Mem (m_heap m) (m_freed m ++ [v]) else m.

Definition with_ends (l : list_t) (head tail : ptr) (len : Z) : list_t := AList head tail (l_dup l) (l_free l) (l_match l) len.
Definition listCreate : list_t := AList None None None false None 0.
Definition listSetDupMethod (l : list_t) (f : option (V → option V)) : list_t := AList (l_head l) (l_tail l) f (l_free l) (l_match l) (l_len l).
Definition listSetFreeMethod (l : list_t) (f : bool) : list_t := AList (l_head l) (l_tail l) (l_dup l) f (l_match l) (l_len l).
Definition listSetMatchMethod (l : list_t) (f : option (V → V → bool)) : list_t := AList (l_head l) (l_tail l) (l_dup l) (l_free l) f (l_len l).

Fixpoint empty_loop (n : nat) (m : mem) (l : list_t) (current : ptr) : option mem :=
  match n with
  | O => Some m
  | S n =>
      c ← node_at m current;
      let m := call_free m l (n_value c) in
      m ← zfree_node m current;
      empty_loop n m l (n_next c)
  end.
Definition listEmpty (m : mem) (l : list_t) : option (mem * list_t) :=
  m ← empty_loop (Z.to_nat (l_len l)) m l (l_head l); Some (m, with_ends l None None 0).
(** The list structure itself is not in the heap. *)
Definition listRelease (m : mem) (l : list_t) : option mem := '(m, _) ← listEmpty m l; Some m.

Definition listLinkNodeHead (m : mem) (l : list_t) (node : positive) : option (mem * list_t) :=
  if l_len l =? 0 then
    m ← set_prev m (Some node) None;
    m ← set_next m (Some node) None;
    Some (m, with_ends l (Some node) (Some node) (u64 (l_len l + 1)))
  else
    m ← set_prev m (Some node) None;
    m ← set_next m (Some node) (l_head l);
    m ← set_prev m (l_head l) (Some node);
    Some (m, with_ends l (Some node) (l_tail l) (u64 (l_len l + 1))).
Definition listAddNodeHead (m : mem) (l : list_t) (v : V) : option (mem * list_t) :=
  let '(m, node) := new_node m v in listLinkNodeHead m l node.
Definition listLinkNodeTail (m : mem) (l : list_t) (node : positive) : option (mem * list_t) :=
  if l_len l =? 0 then
    m ← set_prev m (Some node) None;
    m ← set_next m (Some node) None;
    Some (m, with_ends l (Some node) (Some node) (u64 (l_len l + 1)))
  else
    m ← set_prev m (Some node) (l_tail l);
    m ← set_next m (Some node) None;
    m ← set_next m (l_tail l) (Some node);
    Some (m, with_ends l (l_head l) (Some node) (u64 (l_len l + 1))).
Definition listAddNodeTail (m : mem) (l : list_t) (v : V) : option (mem * list_t) :=
  let '(m, node) := new_node m v in listLinkNodeTail m l node.

Definition listInsertNode (m : mem) (l : list_t) (old_node : ptr) (v : V) (after : bool) : option (mem * list_t) :=
  let '(m, node) := new_node m v in
  old ← node_at m old_node;
  m ← put_node m (Some node) (if after then ListNode old_node (n_next old) v else ListNode (n_prev old) old_node v);
  let l := if after then (if decide (l_tail l = old_node) then with_ends l (l_head l) (Some node) (l_len l) else l)
           else (if decide (l_head l = old_node) then with_ends l (Some node) (l_tail l) (l_len l) else l) in
  n ← node_at m (Some node);
  m ← (match n_prev n with Some _ => set_next m (n_prev n) (Some node) | None => Some m end);
  m ← (match n_next n with Some _ => set_prev m (n_next n) (Some node) | None => Some m end);
  Some (m, with_ends l (l_head l) (l_tail l) (u64 (l_len l + 1))).

Definition listUnlinkNode (m : mem) (l : list_t) (node : ptr) : option (mem * list_t) :=
  n ← node_at m node;
  '(m, l) ← (match n_prev n with
             | Some p => m ← set_next m (Some p) (n_next n); Some (m, l)
             | None => Some (m, with_ends l (n_next n) (l_tail l) (l_len l))
             end);
  '(m, l) ← (match n_next n with
             | Some q => m ← set_prev m (Some q) (n_prev n); Some (m, l)
             | None => Some (m, with_ends l (l_head l) (n_prev n) (l_len l))
             end);
  m ← set_next m node None;
  m ← set_prev m node None;
  Some (m, with_ends l (l_head l) (l_tail l) (u64 (l_len l - 1))).
Definition listDelNode (m : mem) (l : list_t) (node : ptr) : option (mem * list_t) :=
  '(m, l) ← listUnlinkNode m l node;
  n ← node_at m node;
  m ← zfree_node (call_free m l (n_value n)) node;
  Some (m, l).

(** ** Iteration *)

Definition listGetIterator (l : list_t) (d : direction) : listIter :=
  ListIter (match d with AL_START_HEAD => l_head l | AL_START_TAIL => l_tail l end) d.
Definition listRewind (l : list_t) : listIter := ListIter (l_head l) AL_START_HEAD.
Definition listRewindTail (l : list_t) : listIter := ListIter (l_tail l) AL_START_TAIL.
Definition listNext (m : mem) (iter : listIter) : option (listIter * ptr) :=
  match i_next iter with
  | None => Some (iter, None)
  | Some p =>
      n ← node_at m (Some p);
      Some (ListIter (match i_direction iter with AL_START_HEAD => n_next n | AL_START_TAIL => n_prev n end) (i_direction iter), Some p)
  end.

(** The inner option is the return value of [listDup]. *)
Fixpoint dup_loop (fuel : nat) (m : mem) (copy : list_t) (iter : listIter) : option (mem * option list_t) :=
  '(iter, node) ← listNext m iter;
  match (node : ptr) with
  | None => Some (m, Some copy)
  | Some _ =>
      match fuel with
      | O => None
      | S fuel =>
          n ← node_at m node;
          match (match l_dup copy with Some dup => dup (n_value n) | None => Some (n_value n) end) with
          | None => m ← listRelease m copy; Some (m, None)
          | Some value => '(m, copy) ← listAddNodeTail m copy value; dup_loop fuel m copy iter
          end
      end
  end.
Definition listDup (m : mem) (orig : list_t) : option (mem * option list_t) :=
  dup_loop (Z.to_nat (l_len orig)) m (listSetMatchMethod (listSetFreeMethod (listSetDupMethod listCreate (l_dup orig)) (l_free orig)) (l_match orig)) (listRewind orig).

Fixpoint search_key_loop (fuel : nat) (m : mem) (l : list_t) (iter : listIter) (key : V) : option ptr :=
  '(iter, node) ← listNext m iter;
  match (node : ptr) with
  | None => Some None
  | Some _ =>
      match fuel with
      | O => None
      | S fuel =>
          n ← node_at m node;
          if match l_match l with Some f => f (n_value n) key | None => bool_decide (key = n_value n) end then Some node
          else search_key_loop fuel m l iter key
      end
  end.
Definition listSearchKey (m : mem) (l : list_t) (key : V) : option ptr := search_key_loop (Z.to_nat (l_len l)) m l (listRewind l) key.

Fixpoint index_loop (fuel : nat) (m : mem) (back : bool) (n : ptr) : option ptr :=
  match fuel, n with
  | O, _ => Some n
  | S _, None => Some None
  | S fuel, Some _ => x ← node_at m n; index_loop fuel m back (if back then n_prev x else n_next x)
  end.
(** [index] steps at most; the negation is on signed integers, as if it
    wrapped. *)
Definition listIndex (m : mem) (l : list_t) (index : Z) : option ptr :=
  if index <? 0 then index_loop (Z.to_nat (s64 (s64 (- index) - 1))) m true (l_tail l) else index_loop (Z.to_nat index) m false (l_head l).

(** ** Moving nodes *)

Definition listRotateTailToHead (m : mem) (l : list_t) : option (mem * list_t) :=
  if l_len l <=? 1 then Some (m, l)
  else
    let tail := l_tail l in
    t ← node_at m tail;
    m ← set_next m (n_prev t) None;
    m ← set_prev m (l_head l) tail;
    m ← set_prev m tail None;
    m ← set_next m tail (l_head l);
    Some (m, with_ends l tail (n_prev t) (l_len l)).
Definition listRotateHeadToTail (m : mem) (l : list_t) : option (mem * list_t) :=
  if l_len l <=? 1 then Some (m, l)
  else
    let head := l_head l in
    t ← node_at m head;
    m ← set_prev m (n_next t) None;
    m ← set_next m (l_tail l) head;
    m ← set_next m head None;
    m ← set_prev m head (l_tail l);
    Some (m, with_ends l (n_next t) head (l_len l)).
Definition listJoin (m : mem) (l o : list_t) : option (mem * list_t * list_t) :=
  if l_len o =? 0 then Some (m, l, o)
  else
    m ← set_prev m (l_head o) (l_tail l);
    '(m, l) ← (match l_tail l with
               | Some _ => m ← set_next m (l_tail l) (l_head o); Some (m, l)
               | None => Some (m, with_ends l (l_head o) (l_tail l) (l_len l))
               end);
    Some (m, with_ends l (l_head l) (l_tail o) (u64 (l_len l + l_len o)), with_ends o None None 0).
(** A node that is not in a list yet. *)
Definition listInitNode (m : mem) (node : ptr) (v : V) : option mem := put_node m node (ListNode None None v).
End adlist.
Arguments listNode : clear implicits.
Arguments list_t : clear implicits.
Arguments mem : clear implicits.
End Adlist.
