(* ===== verification/AdlistOk.v ===== *)
(** * adlist.c: what each operation does

    A list holds a sequence of nodes of the heap, linked in both directions.
    Every operation that changes a list gives the list of the new sequence and
    touches no other node. *)

From S2P Require Import Prelude Adlist.
Import Adlist.

Module AdlistOk.
Section ok.
Context {V : Type} `{!EqDecision V}.
Abbreviation ptr := (option positive).
Abbreviation heap := (gmap positive (listNode V)).
Abbreviation item := (positive * V)%type.

(** ** Segments *)

Definition hd_ptr (l : list item) (nx : ptr) : ptr := match l with [] => nx | (p, _) :: _ => Some p end.
Fixpoint last_ptr (l : list item) (pv : ptr) : ptr := match l with [] => pv | (p, _) :: l => last_ptr l (Some p) end.
(** The nodes of [l] in [h], between the neighbours [pv] and [nx]. *)
Fixpoint seg (h : heap) (pv : ptr) (l : list item) (nx : ptr) : Prop :=
  match l with
  | [] => True
  | (p, v) :: l => h !! p = Some (ListNode pv (hd_ptr l nx) v) ∧ seg h (Some p) l nx
  end.
Definition upd_next (p x : ptr) (h : heap) : heap := match p with Some p => alter (λ n, ListNode (n_prev n) x (n_value n)) p h | None => h end.
Definition upd_prev (p x : ptr) (h : heap) : heap := match p with Some p => alter (λ n, ListNode x (n_next n) (n_value n)) p h | None => h end.

Lemma hd_app a b nx : hd_ptr (a ++ b) nx = hd_ptr a (hd_ptr b nx).
Proof. by destruct a as [|[]]. Qed.
Lemma last_app a b pv : last_ptr (a ++ b) pv = last_ptr b (last_ptr a pv).
Proof. revert pv. induction a as [|[p v] a IH]; intros pv; [done|]. apply IH. Qed.
Lemma seg_app h pv a b nx : seg h pv (a ++ b) nx ↔ seg h pv a (hd_ptr b nx) ∧ seg h (last_ptr a pv) b nx.
Proof.
  revert pv. induction a as [|[p v] a IH]; intros pv; cbn [app seg last_ptr]; [naive_solver|]. rewrite IH, hd_app. naive_solver.
Qed.
Lemma seg_frame h h' pv l nx : (∀ p, p ∈ l.*1 → h' !! p = h !! p) → seg h pv l nx → seg h' pv l nx.
Proof.
  revert pv. induction l as [|[p v] l IH]; intros pv Hf; cbn [seg]; [done|]. intros [E Hs]. split; [rewrite Hf; [done|left]|]. apply IH; [|done]. intros q Hq. apply Hf. by right.
Qed.
Lemma seg_elem h pv l nx p : seg h pv l nx → p ∈ l.*1 → is_Some (h !! p).
Proof. revert pv. induction l as [|[q v] l IH]; intros pv; cbn [seg fmap list_fmap fst]; [by intros _ ?%not_elem_of_nil|]. intros [E Hs] [->|Hp]%elem_of_cons; [by eexists|by eapply IH]. Qed.
Lemma hd_elem l p : hd_ptr l None = Some p → p ∈ l.*1.
Proof. destruct l as [|[q v] l]; cbn; [done|]. intros [= ->]. left. Qed.
Lemma last_elem l pv p : last_ptr l pv = Some p → p ∈ l.*1 ∨ pv = Some p.
Proof. revert pv. induction l as [|[q v] l IH]; intros pv; cbn [last_ptr fmap list_fmap fst]; [by right|]. intros [Hp|Hp]%IH; [left; by right|]. injection Hp as ->. left. left. Qed.
Lemma upd_other p x h q : p ≠ Some q → upd_next p x h !! q = h !! q ∧ upd_prev p x h !! q = h !! q.
Proof. intros Hne. destruct p as [p|]; [|done]. unfold upd_next, upd_prev. rewrite !lookup_alter_ne by congruence. done. Qed.

Lemma seg_prev h pv l nx pv' : NoDup (l.*1) → seg h pv l nx → seg (upd_prev (hd_ptr l None) pv' h) pv' l nx.
Proof.
  destruct l as [|[p v] l]; [done|]. cbn [fmap list_fmap fst seg hd_ptr]. intros [Hn Hd]%NoDup_cons [E Hs]. split; [unfold upd_prev; by rewrite lookup_alter_eq, E|].
  eapply seg_frame; [|exact Hs]. intros q Hq. apply upd_other. intros [= ->]. done.
Qed.
Lemma seg_next h pv l nx nx' : NoDup (l.*1) → seg h pv l nx → seg (upd_next (last_ptr l None) nx' h) pv l nx'.
Proof.
  revert pv. induction l as [|[p v] l IH] using rev_ind; intros pv; [done|]. rewrite fmap_app, last_app, !seg_app. intros Hd [Ha [E _]]. apply NoDup_app in Hd as (Hd & Hx & _). cbn [last_ptr hd_ptr seg] in *.
  split; [|split; [|done]].
  - eapply seg_frame; [|exact Ha]. intros q Hq. apply upd_other. intros [= ->]. apply (Hx q Hq). by left.
  - unfold upd_next. by rewrite lookup_alter_eq, E.
Qed.
(** Two segments become neighbours. *)
Lemma seg_join h pv a b nx n0 p0 : NoDup ((a ++ b).*1) → seg h pv a n0 → seg h p0 b nx →
  seg (upd_prev (hd_ptr b None) (last_ptr a pv) (upd_next (last_ptr a None) (hd_ptr b nx) h)) pv (a ++ b) nx.
Proof.
  rewrite fmap_app. intros (Ha & Hx & Hb)%NoDup_app Hsa Hsb. apply seg_app. split.
  - eapply seg_frame; [|eapply seg_next; [done|exact Hsa]]. intros q Hq. apply upd_other. intros E%hd_elem. by apply (Hx q).
  - apply (seg_prev _ p0); [done|]. eapply seg_frame; [|exact Hsb]. intros q Hq. apply upd_other. intros [E|E]%last_elem; [|done]. by apply (Hx q).
Qed.
(** A node is put between two segments. *)
Lemma seg_link h a b x v : NoDup ((a ++ b).*1) → x ∉ (a ++ b).*1 → seg h None (a ++ b) None → h !! x = Some (ListNode (last_ptr a None) (hd_ptr b None) v) →
  seg (upd_prev (hd_ptr b None) (Some x) (upd_next (last_ptr a None) (Some x) h)) None (a ++ (x, v) :: b) None.
Proof.
  rewrite fmap_app. intros (Ha & Hx & Hb)%NoDup_app Hnx [Hsa Hsb]%seg_app E. apply not_elem_of_app in Hnx as [Hna Hnb]. apply seg_app. cbn [seg hd_ptr]. split_and!.
  - eapply seg_frame; [|eapply seg_next; [done|exact Hsa]]. intros q Hq. apply upd_other. intros Eq%hd_elem. by apply (Hx q).
  - destruct (upd_other (hd_ptr b None) (Some x) (upd_next (last_ptr a None) (Some x) h) x) as [_ ->]; [by intros Eq%hd_elem|].
    destruct (upd_other (last_ptr a None) (Some x) h x) as [-> _]; [by intros [Eq|Eq]%last_elem|done].
  - eapply seg_prev; [done|]. eapply seg_frame; [|exact Hsb]. intros q Hq. apply upd_other. intros [Eq|Eq]%last_elem; [|done]. by apply (Hx q).
Qed.

(** ** Memory *)

Abbreviation memory := (mem V).
Lemma set_next_spec (m : memory) p x : is_Some (m_heap m !! p) → set_next m (Some p) x = Some (Mem (upd_next (Some p) x (m_heap m)) (m_freed m)).
Proof.
  intros [n E]. unfold set_next, node_at, put_node. cbn [mbind option_bind]. rewrite E. cbn [mbind option_bind]. do 2 f_equal. unfold upd_next. apply map_eq. intros q. destruct (decide (q = p)) as [->|Hne].
  - by rewrite lookup_insert_eq, lookup_alter_eq, E.
  - by rewrite lookup_insert_ne, lookup_alter_ne.
Qed.
Lemma set_prev_spec (m : memory) p x : is_Some (m_heap m !! p) → set_prev m (Some p) x = Some (Mem (upd_prev (Some p) x (m_heap m)) (m_freed m)).
Proof.
  intros [n E]. unfold set_prev, node_at, put_node. cbn [mbind option_bind]. rewrite E. cbn [mbind option_bind]. do 2 f_equal. unfold upd_prev. apply map_eq. intros q. destruct (decide (q = p)) as [->|Hne].
  - by rewrite lookup_insert_eq, lookup_alter_eq, E.
  - by rewrite lookup_insert_ne, lookup_alter_ne.
Qed.
Lemma upd_is_some p x h q : is_Some (h !! q) → is_Some (upd_next p x h !! q) ∧ is_Some (upd_prev p x h !! q).
Proof. intros [n E]. destruct p as [p|]; [|split; by eexists]. unfold upd_next, upd_prev. destruct (decide (p = q)) as [->|]; [rewrite !lookup_alter_eq, E|rewrite !lookup_alter_ne, E by done]; split; by eexists. Qed.

Abbreviation alist := (list_t V).
(** The list [L] holds the nodes [l]. *)
Record rep (h : heap) (L : alist) (l : list item) : Prop := Rep {
  rep_seg : seg h None l None;
  rep_nodup : NoDup (l.*1);
  rep_head : l_head L = hd_ptr l None;
  rep_tail : l_tail L = last_ptr l None;
  rep_len : l_len L = zlen l;
  rep_max : zlen l < 2 ^ 64;
}.
Definition same_methods (L L' : alist) : Prop := l_dup L' = l_dup L ∧ l_free L' = l_free L ∧ l_match L' = l_match L.
(** Only the nodes of the list were touched: those that left it are freed, new
    ones were free. *)
Definition local (h h' : heap) (l l' : list item) : Prop :=
  (∀ q, q ∉ l'.*1 → q ∈ l.*1 → h' !! q = None) ∧ (∀ q, q ∉ l'.*1 → q ∉ l.*1 → h' !! q = h !! q) ∧ (∀ q, q ∈ l'.*1 → q ∉ l.*1 → h !! q = None).

(** The operation succeeds, the list holds [l'] then and [fr] has been freed. *)
Definition goes (m : memory) (L : alist) (l l' : list item) (fr : list V) (res : option (memory * alist)) : Prop :=
  ∃ m' L', res = Some (m', L') ∧ rep (m_heap m') L' l' ∧ same_methods L L' ∧ local (m_heap m) (m_heap m') l l' ∧ m_freed m' = m_freed m ++ fr.

Lemma local_same h h' l l' : l'.*1 ≡ₚ l.*1 → (∀ q, q ∉ l.*1 → h' !! q = h !! q) → local h h' l l'.
Proof. intros Hp Hf. split_and!; intros q; rewrite Hp; [done| |done]. intros Hq _. by apply Hf. Qed.
(** ** Insertion *)

Lemma fresh_node h l pv nx x : seg h pv l nx → h !! x = None → x ∉ l.*1.
Proof. intros Hs Hx Hin. destruct (seg_elem _ _ _ _ _ Hs Hin) as [n E]. congruence. Qed.
Lemma perm_mid (a b : list item) y : (a ++ y :: b).*1 ≡ₚ y.1 :: (a ++ b).*1.
Proof. rewrite !fmap_app. cbn [fmap list_fmap]. by rewrite Permutation_middle. Qed.
(** The heap with the new node linked between [a] and [b]. *)
Lemma link_rep h h1 a b x v : seg h None (a ++ b) None → NoDup ((a ++ b).*1) → h !! x = None → h1 !! x = Some (ListNode (last_ptr a None) (hd_ptr b None) v) → (∀ q, q ≠ x → h1 !! q = h !! q) →
  let h2 := upd_prev (hd_ptr b None) (Some x) (upd_next (last_ptr a None) (Some x) h1) in
  seg h2 None (a ++ (x, v) :: b) None ∧ NoDup ((a ++ (x, v) :: b).*1) ∧ local h h2 (a ++ b) (a ++ (x, v) :: b).
Proof.
  intros Hs Hd Hx E Hf h2. pose proof (fresh_node _ _ _ _ _ Hs Hx) as Hn. assert (Hs1 : seg h1 None (a ++ b) None) by (eapply seg_frame; [|exact Hs]; intros q Hq; apply Hf; by intros ->). unfold local. split_and!.
  - by apply seg_link.
  - rewrite perm_mid. by constructor.
  - intros q. rewrite perm_mid. intros Hq. apply not_elem_of_cons in Hq as [_ Hq]. done.
  - intros q. rewrite perm_mid. intros [Hne Hq]%not_elem_of_cons _. cbn [fst] in Hne. rewrite fmap_app in Hq. apply not_elem_of_app in Hq as [Ha Hb]. unfold h2.
    destruct (upd_other (hd_ptr b None) (Some x) (upd_next (last_ptr a None) (Some x) h1) q) as [_ ->]; [by intros Eq%hd_elem|]. destruct (upd_other (last_ptr a None) (Some x) h1 q) as [-> _]; [by intros [Eq|Eq]%last_elem|]. by apply Hf.
  - intros q. rewrite perm_mid. intros [->|Hq]%elem_of_cons Hq'; done.
Qed.
Lemma fresh_free (m : memory) v : let '(m1, x) := new_node m v in m_heap m !! x = None ∧ m_heap m1 = <[x := ListNode None None v]> (m_heap m) ∧ m_freed m1 = m_freed m.
Proof. cbn. split_and!; [|done..]. apply not_elem_of_dom. apply is_fresh. Qed.
Lemma zlen_mid (a b : list item) y : zlen (a ++ y :: b) = zlen (a ++ b) + 1.
Proof. rewrite !length_app. cbn [length]. lia. Qed.

(** The new ends of the list. *)
Lemma goes_link m L a b x v m' L' : rep (m_heap m) L (a ++ b) → zlen (a ++ b) < 2 ^ 64 - 1 → m_heap m !! x = None →
  (∃ h1, h1 !! x = Some (ListNode (last_ptr a None) (hd_ptr b None) v) ∧ (∀ q, q ≠ x → h1 !! q = m_heap m !! q) ∧ m_heap m' = upd_prev (hd_ptr b None) (Some x) (upd_next (last_ptr a None) (Some x) h1)) →
  m_freed m' = m_freed m → same_methods L L' → l_head L' = hd_ptr a (Some x) → l_tail L' = last_ptr b (Some x) → l_len L' = u64 (l_len L + 1) →
  goes m L (a ++ b) (a ++ (x, v) :: b) [] (Some (m', L')).
Proof.
  intros [Hs Hd _ _ Hl _] Hmax Hx (h1 & E & Hf & Eh) Efr Hsm E1 E2 E3. destruct (link_rep (m_heap m) h1 a b x v Hs Hd Hx E Hf) as (Hs' & Hd' & Hloc). rewrite <- Eh in *. eexists m', L'. split; [done|].
  split; [|split_and!; [done..|by rewrite app_nil_r]]. split; [done|done| | |rewrite E3, Hl, wrapu_small, zlen_mid by lia; lia|rewrite zlen_mid; lia].
  - by rewrite hd_app.
  - by rewrite last_app.
Qed.

Lemma add_head_spec m L l v : rep (m_heap m) L l → zlen l < 2 ^ 64 - 1 → ∃ x, m_heap m !! x = None ∧ goes m L l ((x, v) :: l) [] (listAddNodeHead m L v).
Proof.
  intros Hr Hmax. pose proof Hr as [Hs Hd Hh Ht Hl _]. unfold listAddNodeHead. pose proof (fresh_free m v) as Hfr. destruct (new_node m v) as [m1 x]. destruct Hfr as (Hx & E1 & Ef). exists x. split; [done|]. unfold listLinkNodeHead.
  rewrite set_prev_spec by (rewrite E1, lookup_insert_eq; by eexists). cbn [mbind option_bind m_heap m_freed].
  assert (Hx1 : upd_prev (Some x) None (m_heap m1) !! x = Some (ListNode None None v)) by (unfold upd_prev; by rewrite lookup_alter_eq, E1, lookup_insert_eq).
  assert (Hother : ∀ nx q, q ≠ x → upd_next (Some x) nx (upd_prev (Some x) None (m_heap m1)) !! q = m_heap m !! q) by (intros nx q Hq; unfold upd_next, upd_prev; by rewrite !lookup_alter_ne, E1, lookup_insert_ne by done).
  assert (Hself : ∀ nx, upd_next (Some x) nx (upd_prev (Some x) None (m_heap m1)) !! x = Some (ListNode None nx v)) by (intros nx; unfold upd_next; by rewrite lookup_alter_eq, Hx1).
  destruct (Z.eqb_spec (l_len L) 0) as [E0|Hne].
  - destruct l; [|cbn [length] in Hl; lia]. rewrite set_next_spec by (cbn [m_heap]; by rewrite Hx1). cbn [mbind option_bind m_heap m_freed]. apply (goes_link m L [] []); [done|done|done| |done..]. eexists. split; [apply Hself|]. split; [apply Hother|done].
  - destruct l as [|[p w] l]; [cbn [length] in Hl; lia|]. rewrite set_next_spec by (cbn [m_heap]; by rewrite Hx1). cbn [mbind option_bind m_heap m_freed]. rewrite Hh. cbn [hd_ptr].
    assert (Hpx : p ≠ x) by (intros ->; destruct Hs as [Es _]; congruence). rewrite set_prev_spec by (cbn [m_heap]; rewrite Hother by done; by eapply seg_elem; [exact Hs|left]). cbn [mbind option_bind m_heap m_freed].
    apply (goes_link m L [] ((p, w) :: l)); [done|done|done| |done..]. eexists. split; [apply Hself|]. split; [apply Hother|done].
Qed.
Lemma add_tail_spec m L l v : rep (m_heap m) L l → zlen l < 2 ^ 64 - 1 → ∃ x, m_heap m !! x = None ∧ goes m L l (l ++ [(x, v)]) [] (listAddNodeTail m L v).
Proof.
  intros Hr Hmax. pose proof Hr as [Hs Hd Hh Ht Hl _]. unfold listAddNodeTail. pose proof (fresh_free m v) as Hfr. destruct (new_node m v) as [m1 x]. destruct Hfr as (Hx & E1 & Ef). exists x. split; [done|]. unfold listLinkNodeTail.
  assert (Hx1 : ∀ pv, upd_prev (Some x) pv (m_heap m1) !! x = Some (ListNode pv None v)) by (intros pv; unfold upd_prev; by rewrite lookup_alter_eq, E1, lookup_insert_eq).
  assert (Hother : ∀ pv q, q ≠ x → upd_next (Some x) None (upd_prev (Some x) pv (m_heap m1)) !! q = m_heap m !! q) by (intros pv q Hq; unfold upd_next, upd_prev; by rewrite !lookup_alter_ne, E1, lookup_insert_ne by done).
  assert (Hself : ∀ pv, upd_next (Some x) None (upd_prev (Some x) pv (m_heap m1)) !! x = Some (ListNode pv None v)) by (intros pv; unfold upd_next; by rewrite lookup_alter_eq, Hx1).
  rewrite <- (app_nil_r l) at 1. destruct (Z.eqb_spec (l_len L) 0) as [E0|Hne].
  - destruct l; [|cbn [length] in Hl; lia]. rewrite set_prev_spec by (rewrite E1, lookup_insert_eq; by eexists). cbn [mbind option_bind m_heap m_freed]. rewrite set_next_spec by (cbn [m_heap]; by rewrite Hx1). cbn [mbind option_bind m_heap m_freed].
    apply (goes_link m L [] []); [done|done|done| |done..]. eexists. split; [apply Hself|]. split; [apply Hother|done].
  - rewrite set_prev_spec by (rewrite E1, lookup_insert_eq; by eexists). cbn [mbind option_bind m_heap m_freed]. rewrite set_next_spec by (cbn [m_heap]; by rewrite Hx1). cbn [mbind option_bind m_heap m_freed].
    destruct (last_ptr l None) as [p|] eqn:El; [|destruct l as [|y l _] using rev_ind; [cbn [length] in Hl; lia|destruct y; by rewrite last_app in El]]. rewrite Ht. assert (Hp : p ∈ l.*1) by (by apply last_elem in El as [?|?]).
    assert (Hpx : p ≠ x) by (intros ->; destruct (seg_elem _ _ _ _ _ Hs Hp); congruence). rewrite set_next_spec by (cbn [m_heap]; rewrite Hother by done; by eapply seg_elem). cbn [mbind option_bind m_heap m_freed].
    apply (goes_link m L l []); [by rewrite app_nil_r|by rewrite app_nil_r|done| |done|done| |done|done].
    + rewrite El. eexists. split; [apply Hself|]. split; [apply Hother|done].
    + cbn [l_head with_ends]. rewrite Hh. destruct l as [|[]]; [cbn in Hl; lia|done].
Qed.
Lemma hd_none l : hd_ptr l None = None → l = [].
Proof. by destruct l as [|[]]. Qed.
Lemma last_some l q : ∃ z, last_ptr l (Some q) = Some z.
Proof. revert q. induction l as [|[p v] l IH]; intros q; [by eexists|]. apply IH. Qed.
Lemma last_none l : last_ptr l None = None → l = [].
Proof. destruct l as [|y l _] using rev_ind; [done|]. destruct y. by rewrite last_app. Qed.
(** The last pointer is that of one node only. *)
Lemma last_eq a y b : NoDup ((a ++ y :: b).*1) → last_ptr (a ++ y :: b) None = Some y.1 → b = [].
Proof.
  rewrite last_app. destruct y as [p v]. cbn [last_ptr fst]. intros Hd E. destruct b as [|z b _] using rev_ind; [done|]. destruct z as [q w]. rewrite last_app in E. injection E as ->. exfalso. rewrite fmap_app in Hd. apply NoDup_app in Hd as (_ & _ & Hd).
  cbn [fmap list_fmap fst] in Hd. apply NoDup_cons in Hd as [Hn _]. apply Hn. rewrite fmap_app. apply elem_of_app. right. by left.
Qed.
Lemma hd_eq a y b : NoDup ((a ++ y :: b).*1) → hd_ptr (a ++ y :: b) None = Some y.1 → a = [].
Proof.
  destruct a as [|[q w] a]; [done|]. cbn [app hd_ptr fmap list_fmap fst]. intros [Hn _]%NoDup_cons [= ->]. exfalso. apply Hn. rewrite fmap_app. apply elem_of_app. right. by left.
Qed.

Lemma al_insert_spec m L a p w b v (after : bool) : rep (m_heap m) L (a ++ (p, w) :: b) → zlen (a ++ (p, w) :: b) < 2 ^ 64 - 1 →
  ∃ x, m_heap m !! x = None ∧ goes m L (a ++ (p, w) :: b) (if after then a ++ (p, w) :: (x, v) :: b else a ++ (x, v) :: (p, w) :: b) [] (listInsertNode m L (Some p) v after).
Proof.
  intros Hr Hmax. pose proof Hr as [Hs Hd Hh Ht Hl _]. unfold listInsertNode. pose proof (fresh_free m v) as Hfr. destruct (new_node m v) as [m1 x]. destruct Hfr as (Hx & E1 & Ef). exists x. split; [done|].
  assert (Hxn : x ∉ (a ++ (p, w) :: b).*1) by (by eapply fresh_node). assert (Ep : m_heap m !! p = Some (ListNode (last_ptr a None) (hd_ptr b None) w)) by (apply seg_app in Hs as [_ [Ep _]]; done).
  assert (Hpx : p ≠ x) by (intros ->; congruence). unfold node_at, put_node. cbn [mbind option_bind]. rewrite E1, (lookup_insert_ne _ x p) by done. rewrite Ep. cbn [mbind option_bind n_next n_prev]. rewrite lookup_insert_eq. cbn [mbind option_bind m_heap]. rewrite insert_insert_eq.
  set (nd := if after then ListNode (Some p) (hd_ptr b None) v else ListNode (last_ptr a None) (Some p) v). set (h1 := <[x:=nd]> (m_heap m)).
  set (a' := if after then a ++ [(p, w)] else a). set (b' := if after then b else (p, w) :: b). assert (Eab : a ++ (p, w) :: b = a' ++ b') by (unfold a', b'; destruct after; [by rewrite <- app_assoc|done]).
  assert (Enode : nd = ListNode (last_ptr a' None) (hd_ptr b' None) v) by (unfold nd, a', b'; destruct after; [by rewrite last_app|done]).
  assert (Hhx : h1 !! x = Some nd) by apply lookup_insert_eq. rewrite Hhx. cbn [mbind option_bind]. assert (Hoth : ∀ q, q ≠ x → h1 !! q = m_heap m !! q) by (intros q Hq; unfold h1; by rewrite lookup_insert_ne).
  assert (En : (match n_prev nd with Some _ => set_next (Mem h1 (m_freed m1)) (n_prev nd) (Some x) | None => Some (Mem h1 (m_freed m1)) end) = Some (Mem (upd_next (last_ptr a' None) (Some x) h1) (m_freed m1))).
  { rewrite Enode. cbn [n_prev]. destruct (last_ptr a' None) as [q|] eqn:Eq; [|done]. apply (set_next_spec (Mem h1 (m_freed m1))). cbn [m_heap]. assert (Hq : q ∈ (a ++ (p, w) :: b).*1) by (apply last_elem in Eq as [Eq|]; [|done]; rewrite Eab, fmap_app; apply elem_of_app; by left). rewrite Hoth by (by intros ->). by eapply seg_elem. }
  rewrite En. cbn [mbind option_bind].
  assert (En2 : (match n_next nd with Some _ => set_prev (Mem (upd_next (last_ptr a' None) (Some x) h1) (m_freed m1)) (n_next nd) (Some x) | None => Some (Mem (upd_next (last_ptr a' None) (Some x) h1) (m_freed m1)) end) =
    Some (Mem (upd_prev (hd_ptr b' None) (Some x) (upd_next (last_ptr a' None) (Some x) h1)) (m_freed m1))).
  { rewrite Enode. cbn [n_next]. destruct (hd_ptr b' None) as [q|] eqn:Eq; [|done]. apply (set_prev_spec (Mem _ (m_freed m1))). cbn [m_heap]. apply upd_is_some. assert (Hq : q ∈ (a ++ (p, w) :: b).*1) by (apply hd_elem in Eq; rewrite Eab, fmap_app; apply elem_of_app; by right). rewrite Hoth by (by intros ->). by eapply seg_elem. }
  rewrite En2. cbn [mbind option_bind]. replace (if after then a ++ (p, w) :: (x, v) :: b else a ++ (x, v) :: (p, w) :: b) with (a' ++ (x, v) :: b') by (unfold a', b'; destruct after; [by rewrite <- app_assoc|done]). rewrite Eab in *.
  apply goes_link; [done|done|done| |done| | | |].
  - exists h1. split_and!; [unfold h1; rewrite lookup_insert_eq; by rewrite Enode|done|done].
  - by destruct after; case_decide.
  - cbn [l_head with_ends]. unfold a'. destruct after; [case_decide; cbn [l_head with_ends]; rewrite Hh; unfold a', b'; by rewrite <- app_assoc, !hd_app|]. case_decide as Ed; cbn [l_head with_ends]; rewrite Hh in *; unfold a', b' in *.
    + by rewrite (hd_eq a (p, w) b) by done.
    + rewrite hd_app in *. destruct a as [|[]]; [done|done].
  - cbn [l_tail with_ends]. unfold b'. destruct after.
    + case_decide as Ed; cbn [l_tail with_ends]; rewrite Ht in *; unfold a', b' in *; rewrite <- app_assoc in *; cbn [app] in *.
      * by rewrite (last_eq a (p, w) b) by done.
      * rewrite last_app in *. cbn [last_ptr] in *. by destruct b as [|[]].
    + case_decide; cbn [l_tail with_ends]; rewrite Ht; unfold a', b'; by rewrite last_app.
  - by destruct after; case_decide.
Qed.
(** ** Deletion *)

Lemma mem_eta (m : memory) : Mem (m_heap m) (m_freed m) = m.
Proof. by destruct m. Qed.
(** [set_next] and [set_prev] through a pointer that may be NULL. *)
Lemma upd_next_opt (m : memory) (pv : ptr) x : (∀ p, pv = Some p → is_Some (m_heap m !! p)) →
  match pv with Some p => set_next m (Some p) x | None => Some m end = Some (Mem (upd_next pv x (m_heap m)) (m_freed m)).
Proof. intros H. destruct pv as [p|]; [by apply set_next_spec, H|]. by destruct m. Qed.
Lemma upd_prev_opt (m : memory) (nx : ptr) x : (∀ p, nx = Some p → is_Some (m_heap m !! p)) →
  match nx with Some p => set_prev m (Some p) x | None => Some m end = Some (Mem (upd_prev nx x (m_heap m)) (m_freed m)).
Proof. intros H. destruct nx as [p|]; [by apply set_prev_spec, H|]. by destruct m. Qed.

Lemma del_spec m L a p v b : rep (m_heap m) L (a ++ (p, v) :: b) → goes m L (a ++ (p, v) :: b) (a ++ b) (if l_free L then [v] else []) (listDelNode m L (Some p)).
Proof.
  intros Hr. pose proof Hr as [Hs Hd Hh Ht Hl Hmx]. unfold listDelNode, listUnlinkNode. pose proof Hs as [Hsa [Ep Hsb]]%seg_app. rewrite zlen_mid in Hl, Hmx. rewrite perm_mid in Hd. apply NoDup_cons in Hd as [Hpn Hd]. cbn [fst] in Hpn.
  assert (Hin : ∀ q, q ∈ (a ++ b).*1 → is_Some (m_heap m !! q)) by (intros q Hq; eapply seg_elem; [exact Hs|]; rewrite perm_mid; by right).
  assert (Hpa : ∀ q, last_ptr a None = Some q → q ∈ (a ++ b).*1) by (intros q [E|E]%last_elem; [rewrite fmap_app; apply elem_of_app; by left|done]).
  assert (Hpb : ∀ q, hd_ptr b None = Some q → q ∈ (a ++ b).*1) by (intros q E%hd_elem; rewrite fmap_app; apply elem_of_app; by right).
  change (node_at m (Some p)) with (m_heap m !! p). rewrite Ep. cbn [mbind option_bind n_prev n_next].
  set (pv := last_ptr a None) in *. set (nx := hd_ptr b None) in *. set (h1 := upd_next pv nx (m_heap m)). set (h2 := upd_prev nx pv h1).
  assert (E1 : match pv with Some q => m0 ← set_next m (Some q) nx; Some (m0, L) | None => Some (m, with_ends L nx (l_tail L) (l_len L)) end = Some (Mem h1 (m_freed m), match pv with Some _ => L | None => with_ends L nx (l_tail L) (l_len L) end)).
  { pose proof (upd_next_opt m pv nx ltac:(auto)) as E. unfold h1. destruct pv; [by rewrite E|]. cbn [upd_next]. by rewrite mem_eta. }
  rewrite E1. cbn [mbind option_bind]. set (L1 := match pv with Some _ => L | None => _ end).
  assert (E2 : match nx with Some q => m0 ← set_prev (Mem h1 (m_freed m)) (Some q) pv; Some (m0, L1) | None => Some (Mem h1 (m_freed m), with_ends L1 (l_head L1) pv (l_len L1)) end = Some (Mem h2 (m_freed m), match nx with Some _ => L1 | None => with_ends L1 (l_head L1) pv (l_len L1) end)).
  { pose proof (upd_prev_opt (Mem h1 (m_freed m)) nx pv) as E. cbn [m_heap m_freed] in E. fold h2 in E. destruct nx; [|done]. by rewrite E by (intros q Hq; apply upd_is_some; auto). }
  rewrite E2. cbn [mbind option_bind]. set (L2 := match nx with Some _ => L1 | None => _ end).
  assert (Eh2 : h2 !! p = Some (ListNode pv nx v)).
  { unfold h2, h1. destruct (upd_other nx pv (upd_next pv nx (m_heap m)) p) as [_ ->]; [intros E; by apply Hpn, Hpb|]. destruct (upd_other pv nx (m_heap m) p) as [-> _]; [intros E; by apply Hpn, Hpa|done]. }
  rewrite (set_next_spec (Mem h2 (m_freed m))) by (by eexists). cbn [mbind option_bind m_heap m_freed]. rewrite (set_prev_spec (Mem (upd_next (Some p) None h2) (m_freed m))) by (cbn [m_heap]; apply upd_is_some; by eexists). cbn [mbind option_bind m_heap m_freed].
  set (h3 := upd_prev (Some p) None (upd_next (Some p) None h2)). assert (Eh3 : h3 !! p = Some (ListNode None None v)) by (unfold h3, upd_prev, upd_next; by rewrite !lookup_alter_eq, Eh2).
  unfold node_at. cbn [mbind option_bind m_heap]. rewrite Eh3. cbn [mbind option_bind n_value].
  assert (Em : ∀ L' : alist, call_free (Mem h3 (m_freed m)) L' v = Mem h3 (m_freed m ++ (if l_free L' then [v] else []))) by (intros L'; unfold call_free; destruct (l_free L'); [done|by rewrite app_nil_r]). rewrite Em. unfold zfree_node. cbn [mbind option_bind m_heap m_freed]. rewrite Eh3. cbn [mbind option_bind].
  assert (Hm2 : same_methods L L2) by (unfold L2, L1; destruct nx, pv; done). eexists _, _. split; [done|]. cbn [m_heap m_freed with_ends l_free]. split; [|split_and!; [done| |by destruct Hm2 as (_ & -> & _)]].
  - assert (Hdel : ∀ q, q ≠ p → delete p h3 !! q = h2 !! q) by (intros q Hq; unfold h3, upd_prev, upd_next; by rewrite lookup_delete_ne, !lookup_alter_ne by done).
    split; [|done| | |cbn [l_len with_ends]; unfold L2, L1; destruct nx, pv; cbn [l_len with_ends]; rewrite Hl, wrapu_small by lia; lia|lia].
    + eapply seg_frame; [|apply (seg_join (m_heap m) None a b None (Some p) (Some p)); [done|done|exact Hsb]]. intros q Hq. rewrite Hdel by (by intros ->). done.
    + cbn [l_head with_ends]. unfold L2, L1. rewrite hd_app in *. subst pv nx. destruct a as [|[q w] a]; [cbn [last_ptr]; by destruct (hd_ptr b None)|]. cbn [last_ptr hd_ptr] in *. destruct (last_some a q) as [z El]. rewrite El. destruct (hd_ptr b None); cbn [l_head with_ends]; by rewrite Hh.
    + cbn [l_tail with_ends]. unfold L2, L1. rewrite last_app in *. cbn [last_ptr] in *. subst pv nx. destruct b as [|[q w] b]; [cbn [hd_ptr]; done|]. cbn [last_ptr hd_ptr] in *. destruct (last_ptr a None); cbn [l_tail with_ends]; by rewrite Ht.
  - unfold local. split_and!.
    + intros q Hq. rewrite perm_mid. intros [->|?]%elem_of_cons; [by rewrite lookup_delete_eq|done].
    + intros q Hq. rewrite perm_mid. intros [Hne _]%not_elem_of_cons. cbn [fst] in Hne. unfold h3. rewrite lookup_delete_ne by done. unfold upd_prev at 1, upd_next at 1. rewrite !lookup_alter_ne by done. unfold h2, h1.
      destruct (upd_other nx pv (upd_next pv nx (m_heap m)) q) as [_ ->]; [intros E; by apply Hq, Hpb|]. destruct (upd_other pv nx (m_heap m) q) as [-> _]; [intros E; by apply Hq, Hpa|done].
    + intros q Hq. rewrite perm_mid. intros [_ ?]%not_elem_of_cons. done.
Qed.
Lemma empty_loop_spec (L : alist) l m pv : seg (m_heap m) pv l None → NoDup (l.*1) →
  ∃ m', empty_loop (length l) m L (hd_ptr l None) = Some m' ∧ m_freed m' = m_freed m ++ (if l_free L then l.*2 else []) ∧
    (∀ q, q ∈ l.*1 → m_heap m' !! q = None) ∧ (∀ q, q ∉ l.*1 → m_heap m' !! q = m_heap m !! q).
Proof.
  revert m pv. induction l as [|[p v] l IH]; intros m pv; cbn [seg length empty_loop fmap list_fmap fst snd hd_ptr].
  { intros _ _. exists m. split_and!; [done|by destruct (l_free L); rewrite app_nil_r|by intros q ?%not_elem_of_nil|done]. }
  intros [Ep Hs] [Hn Hd]%NoDup_cons. change (node_at m (Some p)) with (m_heap m !! p). rewrite Ep. cbn [mbind option_bind n_value n_next]. unfold zfree_node. cbn [mbind option_bind].
  set (fr := if l_free L then [v] else []). assert (Em : call_free m L v = Mem (m_heap m) (m_freed m ++ fr)) by (unfold call_free, fr; destruct (l_free L); [done|by rewrite app_nil_r, mem_eta]). rewrite Em. cbn [m_heap m_freed]. rewrite Ep. cbn [mbind option_bind].
  destruct (IH (Mem (delete p (m_heap m)) (m_freed m ++ fr)) (Some p)) as (m' & E & Efr & Hin & Hout); [|done|].
  { cbn [m_heap]. eapply seg_frame; [|exact Hs]. intros q Hq. rewrite lookup_delete_ne; [done|]. by intros ->. }
  exists m'. split_and!; [done| | |].
  - rewrite Efr. cbn [m_freed]. rewrite <- app_assoc. f_equal. unfold fr. by destruct (l_free L).
  - intros q [->|Hq]%elem_of_cons; [|by apply Hin]. rewrite Hout by done. cbn [m_heap]. by rewrite lookup_delete_eq.
  - intros q [Hne Hq]%not_elem_of_cons. rewrite Hout by done. cbn [m_heap]. by rewrite lookup_delete_ne.
Qed.
Lemma empty_spec m L l : rep (m_heap m) L l → goes m L l [] (if l_free L then l.*2 else []) (listEmpty m L).
Proof.
  intros [Hs Hd Hh Ht Hl Hmx]. unfold listEmpty. rewrite Hl, Nat2Z.id, Hh. destruct (empty_loop_spec L l m None Hs Hd) as (m' & -> & Efr & Hin & Hout). cbn [mbind option_bind]. eexists m', _. split; [done|]. split_and!; [by split; try constructor; cbn|done| |done].
  split_and!; [by intros q _ Hq; apply Hin|by intros q _ Hq; apply Hout|by intros q ?%not_elem_of_nil].
Qed.

(** ** Moving nodes *)

Lemma rotate_perm (a : list item) y : (y :: a).*1 ≡ₚ (a ++ [y]).*1.
Proof. by rewrite Permutation_cons_append. Qed.
Lemma rotate_tail_spec m L a y : rep (m_heap m) L (a ++ [y]) → goes m L (a ++ [y]) (y :: a) [] (listRotateTailToHead m L).
Proof.
  intros Hr. pose proof Hr as [Hs Hd Hh Ht Hl Hmx]. destruct y as [t v]. unfold listRotateTailToHead. rewrite length_app in Hl, Hmx. cbn [length] in Hl, Hmx. destruct (Z.leb_spec (l_len L) 1) as [Hle|Hgt].
  { destruct a; [|cbn [length] in *; lia]. exists m, L. split_and!; [done|done|done|by apply local_same|by rewrite app_nil_r]. }
  apply seg_app in Hs as [Hsa [Et _]]. cbn [hd_ptr] in Et. rewrite fmap_app in Hd. apply NoDup_app in Hd as (Hda & Hx & _). assert (Hta : t ∉ a.*1) by (intros Hin; apply (Hx t Hin); by left).
  rewrite last_app in Ht. cbn [last_ptr] in Ht. rewrite Ht. change (node_at m (Some t)) with (m_heap m !! t). rewrite Et. cbn [mbind option_bind n_prev].
  destruct a as [|[p w] a0]; [cbn [length] in Hl; lia|]. set (a := (p, w) :: a0) in *. destruct (last_some a0 p) as [z Ez]. assert (Ela : last_ptr a None = Some z) by done. rewrite Ela.
  assert (Hza : z ∈ a.*1) by (by apply last_elem in Ela as [?|?]). assert (Hpa : p ∈ a.*1) by (by left). assert (Ehd : l_head L = Some p) by done. rewrite Ehd.
  rewrite set_next_spec by (by eapply seg_elem). cbn [mbind option_bind m_heap m_freed]. set (h1 := upd_next (Some z) None (m_heap m)). rewrite (set_prev_spec (Mem h1 (m_freed m))) by (cbn [m_heap]; apply upd_is_some; by eapply seg_elem). cbn [mbind option_bind m_heap m_freed].
  set (h2 := upd_prev (Some p) (Some t) h1). assert (Et2 : h2 !! t = Some (ListNode (Some z) None v)).
  { unfold h2, h1. destruct (upd_other (Some p) (Some t) (upd_next (Some z) None (m_heap m)) t) as [_ ->]; [congruence|]. destruct (upd_other (Some z) None (m_heap m) t) as [-> _]; [congruence|]. by rewrite Et, Ela. }
  rewrite (set_prev_spec (Mem h2 (m_freed m))) by (by eexists). cbn [mbind option_bind m_heap m_freed]. rewrite (set_next_spec (Mem (upd_prev (Some t) None h2) (m_freed m))) by (cbn [m_heap]; apply upd_is_some; by eexists). cbn [mbind option_bind m_heap m_freed].
  set (h3 := upd_next (Some t) (Some p) (upd_prev (Some t) None h2)). assert (Hoth : ∀ q, q ≠ t → h3 !! q = h2 !! q) by (intros q Hq; unfold h3, upd_next, upd_prev; by rewrite !lookup_alter_ne by done).
  eexists _, _. split; [done|]. cbn [m_heap m_freed]. split; [|split_and!; [done| |by rewrite app_nil_r]].
  - split; [|rewrite rotate_perm, fmap_app; apply NoDup_app; split_and!; [done| |by apply NoDup_singleton]; intros q Hq; by intros ->%list_elem_of_singleton|done| |cbn [l_len with_ends length]; lia|cbn [length]; lia].
    + split; [unfold h3, upd_next, upd_prev; by rewrite !lookup_alter_eq, Et2|]. eapply seg_frame; [|apply (seg_prev h1 None a None (Some t)); [done|]]. { intros q Hq. apply Hoth. by intros ->. }
      pose proof (seg_next (m_heap m) None a (Some t) None Hda Hsa) as Hn. by rewrite Ela in Hn.
    + cbn [l_tail with_ends]. unfold a. cbn [last_ptr]. by rewrite Ez.
  - apply local_same; [apply rotate_perm|]. rewrite fmap_app. intros q [Hq Hqt]%not_elem_of_app. assert (q ≠ t) by (intros ->; apply Hqt; by left). rewrite Hoth by done. unfold h2, h1.
    destruct (upd_other (Some p) (Some t) (upd_next (Some z) None (m_heap m)) q) as [_ ->]; [congruence|]. destruct (upd_other (Some z) None (m_heap m) q) as [-> _]; [congruence|done].
Qed.
Lemma rotate_head_spec m L y b : rep (m_heap m) L (y :: b) → goes m L (y :: b) (b ++ [y]) [] (listRotateHeadToTail m L).
Proof.
  intros Hr. pose proof Hr as [Hs Hd Hh Ht Hl Hmx]. destruct y as [t v]. unfold listRotateHeadToTail. cbn [length] in Hl, Hmx. destruct (Z.leb_spec (l_len L) 1) as [Hle|Hgt].
  { destruct b; [|cbn [length] in *; lia]. exists m, L. split_and!; [done|done|done|by apply local_same|by rewrite app_nil_r]. }
  destruct Hs as [Et Hsb]. cbn [fmap list_fmap fst] in Hd. apply NoDup_cons in Hd as [Htb Hdb].
  destruct b as [|[p w] b0]; [cbn [length] in Hl; lia|]. set (b := (p, w) :: b0) in *. cbn [hd_ptr] in Hh, Et. rewrite Hh. change (node_at m (Some t)) with (m_heap m !! t). rewrite Et. cbn [mbind option_bind n_next].
  destruct (last_some b0 p) as [z Ez]. assert (Elb : last_ptr b None = Some z) by done. assert (Hzb : z ∈ b.*1) by (by apply last_elem in Elb as [?|?]). assert (Hpb : p ∈ b.*1) by (by left). assert (Etl : l_tail L = Some z) by (by rewrite Ht). rewrite Etl. cbn [hd_ptr b].
  rewrite set_prev_spec by (by eapply seg_elem). cbn [mbind option_bind m_heap m_freed]. set (h1 := upd_prev (Some p) None (m_heap m)). rewrite (set_next_spec (Mem h1 (m_freed m))) by (cbn [m_heap]; apply upd_is_some; by eapply seg_elem). cbn [mbind option_bind m_heap m_freed].
  set (h2 := upd_next (Some z) (Some t) h1). assert (Et2 : h2 !! t = Some (ListNode None (Some p) v)).
  { unfold h2, h1. destruct (upd_other (Some z) (Some t) (upd_prev (Some p) None (m_heap m)) t) as [-> _]; [congruence|]. destruct (upd_other (Some p) None (m_heap m) t) as [_ ->]; [congruence|]. by rewrite Et. }
  rewrite (set_next_spec (Mem h2 (m_freed m))) by (by eexists). cbn [mbind option_bind m_heap m_freed]. rewrite (set_prev_spec (Mem (upd_next (Some t) None h2) (m_freed m))) by (cbn [m_heap]; apply upd_is_some; by eexists). cbn [mbind option_bind m_heap m_freed].
  set (h3 := upd_prev (Some t) (Some z) (upd_next (Some t) None h2)). assert (Hoth : ∀ q, q ≠ t → h3 !! q = h2 !! q) by (intros q Hq; unfold h3, upd_next, upd_prev; by rewrite !lookup_alter_ne by done).
  eexists _, _. split; [done|]. cbn [m_heap m_freed]. split; [|split_and!; [done| |by rewrite app_nil_r]].
  - split; [|rewrite <- rotate_perm; by constructor| | |cbn [l_len with_ends]; rewrite length_app; cbn [length]; lia|rewrite length_app; cbn [length]; lia].
    + apply seg_app. split; [|split; [|done]].
      * eapply seg_frame; [|eapply (seg_next h1 None b None (Some t)); [done|]]. { intros q Hq. rewrite Hoth by (by intros ->). unfold h2. by rewrite Elb. } apply (seg_prev (m_heap m) (Some t) b None None Hdb Hsb).
      * cbn [hd_ptr]. rewrite Elb. unfold h3, upd_next, upd_prev. by rewrite !lookup_alter_eq, Et2.
    + done.
    + cbn [l_tail with_ends]. rewrite last_app. done.
  - apply local_same; [by rewrite <- rotate_perm|]. cbn [fmap list_fmap fst]. intros q [Hqt Hq]%not_elem_of_cons. rewrite Hoth by done. unfold h2, h1.
    destruct (upd_other (Some z) (Some t) (upd_prev (Some p) None (m_heap m)) q) as [-> _]; [congruence|]. destruct (upd_other (Some p) None (m_heap m) q) as [_ ->]; [congruence|done].
Qed.
(** Both lists are in the heap. *)
Lemma join_spec m (L O : alist) l o : rep (m_heap m) L l → rep (m_heap m) O o → NoDup ((l ++ o).*1) → zlen (l ++ o) < 2 ^ 64 →
  ∃ m' L', listJoin m L O = Some (m', L', with_ends O None None 0) ∧ rep (m_heap m') L' (l ++ o) ∧ same_methods L L' ∧ local (m_heap m) (m_heap m') (l ++ o) (l ++ o) ∧ m_freed m' = m_freed m.
Proof.
  intros [Hs Hd Hh Ht Hl _] [Hso Hdo Hho Hto Hlo _] Hnd Hmx. unfold listJoin. destruct (Z.eqb_spec (l_len O) 0) as [E0|Hne].
  { destruct o; [|cbn [length] in Hlo; lia]. exists m, L. assert (EO : O = with_ends O None None 0) by (destruct O; cbn in *; by subst). rewrite <- EO. rewrite app_nil_r in *. split_and!; [done|done|done|by apply local_same|done]. }
  destruct o as [|[p w] o0]; [cbn [length] in Hlo; lia|]. set (o := (p, w) :: o0) in *. assert (Eho : l_head O = Some p) by done. rewrite Eho. assert (Hp : is_Some (m_heap m !! p)) by (eapply seg_elem; [exact Hso|by left]).
  rewrite set_prev_spec by done. cbn [mbind option_bind m_heap m_freed]. rewrite Ht. set (h1 := upd_prev (Some p) (last_ptr l None) (m_heap m)). set (h2 := upd_next (last_ptr l None) (Some p) h1).
  assert (Hla : ∀ q, last_ptr l None = Some q → q ∈ l.*1) by (by intros q [?|?]%last_elem). assert (Hpl : p ∉ l.*1) by (rewrite fmap_app in Hnd; apply NoDup_app in Hnd as (_ & Hx & _); intros Hin; apply (Hx p Hin); by left).
  assert (Eh : h2 = upd_prev (hd_ptr o None) (last_ptr l None) (upd_next (last_ptr l None) (hd_ptr o None) (m_heap m))).
  { unfold h2, h1. cbn [hd_ptr o]. destruct (last_ptr l None) as [q|] eqn:El; [|done]. unfold upd_next, upd_prev. apply alter_alter_ne. intros ->. by apply Hpl, Hla. }
  assert (E : match last_ptr l None with Some _ => m0 ← set_next (Mem h1 (m_freed m)) (last_ptr l None) (Some p); Some (m0, L) | None => Some (Mem h1 (m_freed m), with_ends L (Some p) (last_ptr l None) (l_len L)) end =
    Some (Mem h2 (m_freed m), match last_ptr l None with Some _ => L | None => with_ends L (Some p) (last_ptr l None) (l_len L) end)).
  { unfold h2. destruct (last_ptr l None) as [q|] eqn:El; [|done]. rewrite (set_next_spec (Mem h1 (m_freed m))); [done|]. cbn [m_heap]. apply upd_is_some. eapply seg_elem; [exact Hs|auto]. }
  rewrite E. cbn [mbind option_bind]. rewrite length_app in Hmx. eexists _, _. split; [done|]. cbn [m_heap m_freed]. split_and!; [|by destruct (last_ptr l None)| |done].
  - split; [|done| | |cbn [l_len with_ends]; rewrite length_app; destruct (last_ptr l None); cbn [l_len with_ends]; rewrite Hl, Hlo, wrapu_small by lia; lia|rewrite length_app; lia].
    + rewrite Eh. by apply (seg_join (m_heap m) None l o None None None).
    + cbn [l_head with_ends]. rewrite hd_app. destruct l as [|[q u] l]; [done|]. cbn [last_ptr]. destruct (last_some l q) as [z ->]. by rewrite Hh.
    + cbn [l_tail with_ends]. rewrite Hto, last_app. by unfold o.
  - apply local_same; [done|]. rewrite fmap_app. intros q [Hq Hqo]%not_elem_of_app. rewrite Eh. destruct (upd_other (hd_ptr o None) (last_ptr l None) (upd_next (last_ptr l None) (hd_ptr o None) (m_heap m)) q) as [_ ->]; [by intros ?%hd_elem|].
    destruct (upd_other (last_ptr l None) (hd_ptr o None) (m_heap m) q) as [-> _]; [|done]. intros Eq. by apply Hq, Hla.
Qed.
End ok.
End AdlistOk.
