(* ===== verification/AdlistRun.v ===== *)
(** * adlist.c: programs over two lists refine programs over two sequences

    The iterator, the searches and the copy, then sequences of commands on two
    lists that share a heap: no node is lost, used after it was freed, or shared. *)

From S2P Require Import Prelude Adlist AdlistOk.
Import Adlist AdlistOk.

Module AdlistRun.
Section run.
Context {V : Type} `{!EqDecision V}.
Abbreviation ptr := (option positive).
Abbreviation item := (positive * V)%type.
Abbreviation memory := (mem V).
Abbreviation alist := (list_t V).
Implicit Type (m : memory) (L : alist) (l : list item).

(** ** Both directions *)

Definition dir {A} (d : direction) (l : list A) : list A := match d with AL_START_HEAD => l | AL_START_TAIL => reverse l end.
Definition link (d : direction) (n : listNode V) : ptr := match d with AL_START_HEAD => n_next n | AL_START_TAIL => n_prev n end.

Lemma last_reverse (l : list item) : last_ptr l None = hd_ptr (reverse l) None.
Proof. destruct l as [|[p v] l _] using rev_ind; [done|]. by rewrite last_app, reverse_snoc. Qed.
Lemma dir_first h L l d : rep h L l → listGetIterator L d = ListIter (hd_ptr (dir d l) None) d.
Proof. intros Hr. unfold listGetIterator. f_equal. destruct d; [apply Hr|]. rewrite (rep_tail _ _ _ Hr). apply last_reverse. Qed.
Lemma dir_split d (l : list item) x p v y : dir d l = x ++ (p, v) :: y →
  ∃ a b, l = a ++ (p, v) :: b ∧ dir d (a ++ b) = x ++ y ∧ hd_ptr y None = match d with AL_START_HEAD => hd_ptr b None | AL_START_TAIL => last_ptr a None end.
Proof.
  destruct d; cbn [dir]; [by exists x, y|]. intros E. exists (reverse y), (reverse x). split_and!.
  - rewrite <- (reverse_involutive l), E, reverse_app, reverse_cons, <- app_assoc. done.
  - by rewrite reverse_app, !reverse_involutive.
  - by rewrite last_reverse, reverse_involutive.
Qed.
Lemma dir_step h L l d x p v y : rep h L l → dir d l = x ++ (p, v) :: y → ∃ n, h !! p = Some n ∧ n_value n = v ∧ link d n = hd_ptr y None.
Proof. intros [Hs _ _ _ _ _] (a & b & -> & _ & ->)%dir_split. apply seg_app in Hs as [_ [E _]]. eexists. split_and!; [exact E|done|]. by destruct d. Qed.
Lemma next_spec m L l d x y : rep (m_heap m) L l → dir d l = x ++ y → listNext m (ListIter (hd_ptr y None) d) = Some (ListIter (hd_ptr (tail y) None) d, hd_ptr y None).
Proof.
  intros Hr E. destruct y as [|[p v] y]; [done|]. destruct (dir_step _ _ _ _ _ _ _ _ Hr E) as (n & En & _ & El). unfold listNext. cbn [i_next hd_ptr i_direction tail]. change (node_at m (Some p)) with (m_heap m !! p). rewrite En. cbn [mbind option_bind].
  unfold link in El. destruct d; by rewrite El.
Qed.
Lemma node_spec m L l d x p v y : rep (m_heap m) L l → dir d l = x ++ (p, v) :: y → ∃ n, node_at m (Some p) = Some n ∧ n_value n = v ∧ link d n = hd_ptr y None.
Proof. exact (dir_step (m_heap m) L l d x p v y). Qed.
Lemma dir_next {A} (l : list A) z (x : list A) (y : list A) d : dir d l = x ++ z :: y → dir d l = (x ++ [z]) ++ y.
Proof. by rewrite <- app_assoc. Qed.
Lemma dir_length {A} d (l : list A) : length (dir d l) = length l.
Proof. destruct d; [done|]. apply length_reverse. Qed.
Lemma dir_fmap {A B} (f : A → B) d (l : list A) : f <$> dir d l = dir d (f <$> l).
Proof. destruct d; [done|]. apply fmap_reverse. Qed.

(** ** Index and search *)

(** The position meant by an index in a list of [n] elements. *)
Definition at_index (n i : Z) : option nat :=
  let k := if i <? 0 then n + i else i in if (0 <=? k) && (k <? n) then Some (Z.to_nat k) else None.

Lemma index_loop_spec m L l d x y k : rep (m_heap m) L l → dir d l = x ++ y →
  index_loop k m (match d with AL_START_HEAD => false | AL_START_TAIL => true end) (hd_ptr y None) = Some (fst <$> y !! k).
Proof.
  intros Hr. revert x y. induction k as [|k IH]; intros x y E; destruct y as [|[p v] y]; cbn [index_loop hd_ptr]; [done..|]. destruct (node_spec _ _ _ _ _ _ _ _ Hr E) as (n & -> & _ & El). cbn [mbind option_bind]. apply dir_next, IH in E.
  unfold link in El. destruct d; by rewrite El, E.
Qed.
Lemma index_spec m L l i : rep (m_heap m) L l → - 2 ^ 63 < i < 2 ^ 63 → listIndex m L i = Some (k ← at_index (zlen l) i; fst <$> l !! k).
Proof.
  intros Hr Hi. unfold listIndex, at_index. pose proof (dir_first _ _ _ AL_START_HEAD Hr) as [= Eh]. pose proof (dir_first _ _ _ AL_START_TAIL Hr) as [= Et]. destruct (Z.ltb_spec i 0) as [Hn|Hp].
  - rewrite Et, (index_loop_spec m L l AL_START_TAIL []) by done. f_equal. assert (Ew : wraps 64 (wraps 64 (- i) - 1) = - i - 1) by (rewrite (wraps_small 64 (- i)) by (unfold sfits; lia); apply wraps_small; unfold sfits; lia). rewrite Ew. cbn [dir].
    destruct (Z.leb_spec 0 (zlen l + i)); destruct (Z.ltb_spec (zlen l + i) (zlen l)); cbn [andb mbind option_bind]; [|lia|rewrite lookup_ge_None_2; [done|rewrite length_reverse; lia]|lia].
    rewrite reverse_lookup by lia. do 2 f_equal. lia.
  - rewrite Eh, (index_loop_spec m L l AL_START_HEAD []) by done. cbn [dir]. destruct (Z.leb_spec 0 i); [|lia]. destruct (Z.ltb_spec i (zlen l)); cbn [andb mbind option_bind]; [done|]. rewrite lookup_ge_None_2; [done|lia].
Qed.

Definition matches (f : option (V → V → bool)) (key v : V) : bool := match f with Some f => f v key | None => bool_decide (key = v) end.
Lemma al_search_loop_spec m L l x y key fuel : rep (m_heap m) L l → l = x ++ y → (length y ≤ fuel)%nat →
  search_key_loop fuel m L (ListIter (hd_ptr y None) AL_START_HEAD) key = Some ('(_, it) ← list_find (λ it, matches (l_match L) key it.2 = true) y; Some it.1).
Proof.
  intros Hr. revert x y. induction fuel as [|fuel IH]; intros x y E Hf; cbn [search_key_loop]; rewrite (next_spec m L l AL_START_HEAD x y Hr E); cbn [mbind option_bind]; (destruct y as [|[p v] y]; cbn [hd_ptr length tail] in *; [done|]); [lia|].
  destruct (node_spec m L l AL_START_HEAD x p v y Hr E) as (n & -> & Ev & _). cbn [mbind option_bind list_find snd]. fold (matches (l_match L) key (n_value n)). rewrite Ev. case_decide as Em.
  - by rewrite Em.
  - apply not_true_is_false in Em. rewrite Em. rewrite (IH (x ++ [(p, v)]) y) by (by rewrite <- ?app_assoc; lia || done). destruct (list_find _ y) as [[k it]|]; done.
Qed.
Lemma al_search_spec m L l key : rep (m_heap m) L l → listSearchKey m L key = Some ('(_, it) ← list_find (λ it, matches (l_match L) key it.2 = true) l; Some it.1).
Proof.
  intros Hr. unfold listSearchKey. pose proof (dir_first _ _ _ AL_START_HEAD Hr) as E. change (listRewind L) with (listGetIterator L AL_START_HEAD). rewrite E. apply (al_search_loop_spec m L l []); [done|done|]. rewrite (rep_len _ _ _ Hr). lia.
Qed.

(** ** The iterator, deleting on the way *)

(** The loop the comment of [listNext] allows: every node in turn, deleting the
    one that was returned when [f] holds.  It answers the values seen. *)
Fixpoint walk_list (fuel : nat) (m : memory) (L : alist) (iter : listIter) (f : V → bool) : option (memory * alist * list V) :=
  '(iter, node) ← listNext m iter;
  match (node : ptr) with
  | None => Some (m, L, [])
  | Some _ =>
      match fuel with
      | O => None
      | S fuel =>
          n ← node_at m node;
          '(m, L) ← (if f (n_value n) then listDelNode m L node else Some (m, L));
          '(m, L, vs) ← walk_list fuel m L iter f;
          Some (m, L, n_value n :: vs)
      end
  end.

Lemma local_trans h h1 h2 (l l1 l2 : list item) : local h h1 l l1 → local h1 h2 l1 l2 → local h h2 l l2.
Proof.
  intros (A1 & A2 & A3) (B1 & B2 & B3). split_and!; intros q Hq Hl; destruct (decide (q ∈ l1.*1)) as [Hi|Hi].
  - by apply B1.
  - rewrite B2 by done. by apply A1.
  - rewrite B1 by done. symmetry. by apply A3.
  - rewrite B2 by done. by apply A2.
  - by apply A3.
  - rewrite <- A2 by done. by apply B3.
Qed.
Lemma local_refl h (l : list item) : local h h l l.
Proof. by apply local_same. Qed.
Lemma methods_trans (L L1 L2 : alist) : same_methods L L1 → same_methods L1 L2 → same_methods L L2.
Proof. unfold same_methods. naive_solver congruence. Qed.
Lemma goes_refl m L l : rep (m_heap m) L l → goes m L l l [] (Some (m, L)).
Proof. intros Hr. exists m, L. split_and!; [done|done|done|apply local_refl|by rewrite app_nil_r]. Qed.
Lemma goes_trans m L l m1 L1 l1 l2 fr1 fr2 r : goes m L l l1 fr1 (Some (m1, L1)) → goes m1 L1 l1 l2 fr2 r → goes m L l l2 (fr1 ++ fr2) r.
Proof.
  intros (? & ? & [= <- <-] & _ & M1 & H1 & F1) (m2 & L2 & -> & R2 & M2 & H2 & F2). exists m2, L2. split_and!; [done|done|by eapply methods_trans|by eapply local_trans|by rewrite F2, F1, app_assoc].
Qed.

Definition kept (f : V → bool) (l : list V) : list V := filter (λ v, f v = false) l.
Definition dropped (f : V → bool) (l : list V) : list V := filter (λ v, f v = true) l.

Lemma al_walk_spec f d fuel m L l x y : rep (m_heap m) L l → dir d l = x ++ y → (length y ≤ fuel)%nat →
  ∃ m' L' l', walk_list fuel m L (ListIter (hd_ptr y None) d) f = Some (m', L', y.*2) ∧ (dir d l').*2 = x.*2 ++ kept f (y.*2) ∧
    goes m L l l' (if l_free L then dropped f (y.*2) else []) (Some (m', L')).
Proof.
  revert m L l x y. induction fuel as [|fuel IH]; intros m L l x y Hr E Hf; cbn [walk_list]; rewrite (next_spec m L l d x y Hr E); cbn [mbind option_bind]; (destruct y as [|[p v] y]; cbn [hd_ptr length tail] in *;
    [exists m, L, l; split_and!; [done|by rewrite E, fmap_app|destruct (l_free L); by apply goes_refl]|]); [lia|].
  destruct (node_spec m L l d x p v y Hr E) as (n & -> & Ev & _). cbn [mbind option_bind]. rewrite Ev. destruct (f v) eqn:Efv; unfold kept, dropped; cbn [fmap list_fmap snd]; fold (y.*2).
  - apply dir_split in E as (a & b & -> & E & _). pose proof (del_spec m L a p v b Hr) as Hg. pose proof Hg as (m1 & L1 & E1 & R1 & (_ & Efr & _) & _). rewrite E1 in Hg. rewrite E1. cbn [mbind option_bind].
    destruct (IH m1 L1 (a ++ b) x y) as (m2 & L2 & l2 & -> & Hv & Hg2); [done|done|lia|]. exists m2, L2, l2. rewrite filter_cons_False, filter_cons_True by congruence. split_and!; [done|done|]. eapply goes_trans in Hg2; [|exact Hg]. rewrite Efr in Hg2. by destruct (l_free L).
  - cbn [mbind option_bind]. destruct (IH m L l (x ++ [(p, v)]) y) as (m2 & L2 & l2 & -> & Hv & Hg2); [done|by apply dir_next|lia|]. exists m2, L2, l2. rewrite filter_cons_True, filter_cons_False by congruence. split_and!; [done| |done].
    rewrite Hv, fmap_app, <- app_assoc. done.
Qed.

(** ** A copy beside other lists *)

(** What [local] leaves of a list of other nodes. *)
Lemma frame_rep h h' l l' L2 l2 : local h h' l l' → rep h L2 l2 → (∀ q, q ∈ l2.*1 → q ∉ l.*1) → rep h' L2 l2 ∧ (∀ q, q ∈ l2.*1 → q ∉ l'.*1).
Proof.
  intros (A1 & A2 & A3) [Hs Hd Hh Ht Hl Hm] Hx. assert (Hn : ∀ q, q ∈ l2.*1 → q ∉ l'.*1) by (intros q Hq Hi; destruct (seg_elem _ _ _ _ _ Hs Hq) as [n E]; rewrite A3 in E by auto; done). split; [|done].
  split; [|done..]. eapply seg_frame; [|exact Hs]. intros q Hq. apply A2; auto.
Qed.

(** The values [dup] makes, up to the first that fails. *)
Definition dup_value (dup : option (V → option V)) (v : V) : option V := match dup with Some dup => dup v | None => Some v end.
Fixpoint dup_all (dup : option (V → option V)) (l : list V) : list V * bool :=
  match l with
  | [] => ([], true)
  | v :: l => match dup_value dup v with None => ([], false) | Some w => let '(r, ok) := dup_all dup l in (w :: r, ok) end
  end.

Lemma dup_loop_spec L l fuel m x y (C : alist) c : rep (m_heap m) L l → l = x ++ y → rep (m_heap m) C c → (∀ q, q ∈ l.*1 → q ∉ c.*1) → zlen c + zlen y < 2 ^ 64 → (length y ≤ fuel)%nat →
  let '(vs, ok) := dup_all (l_dup C) (y.*2) in
  ∃ m' c', m_freed m' = m_freed m ++ (if ok then [] else if l_free C then c.*2 ++ vs else []) ∧ local (m_heap m) (m_heap m') c c' ∧
    if ok then ∃ C', dup_loop fuel m C (ListIter (hd_ptr y None) AL_START_HEAD) = Some (m', Some C') ∧ rep (m_heap m') C' c' ∧ same_methods C C' ∧ c'.*2 = c.*2 ++ vs
    else dup_loop fuel m C (ListIter (hd_ptr y None) AL_START_HEAD) = Some (m', None) ∧ c' = [].
Proof.
  revert m x y C c. induction fuel as [|fuel IH]; intros m x y C c Hr E Hc Hx Hz Hf; cbn [dup_loop]; rewrite (next_spec m L l AL_START_HEAD x y Hr E); cbn [mbind option_bind]; (destruct y as [|[p v] y]; cbn [hd_ptr length tail fmap list_fmap snd dup_all] in *;
    [exists m, c; rewrite app_nil_r; split_and!; [done|apply local_refl|]; exists C; split_and!; [done|done|done|by rewrite app_nil_r]|]); [lia|]. fold (y.*2).
  destruct (node_spec m L l AL_START_HEAD x p v y Hr E) as (n & -> & Ev & _). cbn [mbind option_bind]. rewrite Ev. fold (dup_value (l_dup C) v). destruct (dup_value (l_dup C) v) as [w|].
  - destruct (add_tail_spec m C c w Hc ltac:(lia)) as (nx & Hnx & Hg). destruct Hg as (m1 & C1 & -> & R1 & M1 & H1 & F1). cbn [mbind option_bind]. destruct (frame_rep _ _ _ _ _ _ H1 Hr Hx) as [Hr1 Hx1].
    specialize (IH m1 (x ++ [(p, v)]) y C1 (c ++ [(nx, w)]) Hr1). rewrite app_nil_r in F1. pose proof M1 as (Md & Mf & _). rewrite Md, Mf, F1 in IH. destruct (dup_all (l_dup C) (y.*2)) as [vs ok].
    destruct IH as (m2 & c2 & F2 & H2 & Hok); [by rewrite <- app_assoc|done|done|rewrite length_app; cbn [length]; lia|lia|]. exists m2, c2. rewrite fmap_app, <- app_assoc in F2, Hok. split_and!; [done|by eapply local_trans|]. destruct ok; [|done].
    destruct Hok as (C2 & ? & ? & ? & ?). exists C2. split_and!; [done|done|by eapply methods_trans|done].
  - unfold listRelease. destruct (empty_spec m C c Hc) as (m1 & C1 & -> & _ & _ & H1 & F1). cbn [mbind option_bind]. exists m1, []. rewrite app_nil_r. split_and!; done.
Qed.
Lemma dup_spec m L l : rep (m_heap m) L l →
  let '(vs, ok) := dup_all (l_dup L) (l.*2) in
  ∃ m' c, m_freed m' = m_freed m ++ (if ok then [] else if l_free L then vs else []) ∧ local (m_heap m) (m_heap m') [] c ∧
    if ok then ∃ C, listDup m L = Some (m', Some C) ∧ rep (m_heap m') C c ∧ same_methods L C ∧ c.*2 = vs
    else listDup m L = Some (m', None) ∧ c = [].
Proof.
  intros Hr. unfold listDup. change (listRewind L) with (listGetIterator L AL_START_HEAD). rewrite (dir_first _ _ _ AL_START_HEAD Hr). set (C := listSetMatchMethod _ _). pose proof (rep_max _ _ _ Hr).
  apply (dup_loop_spec L l (Z.to_nat (l_len L)) m [] l C []); [done|done|by split; try constructor|set_solver|cbn [length]; lia|rewrite (rep_len _ _ _ Hr); lia].
Qed.

(** ** Commands on two lists *)

Record methods := Methods { f_dup : option (V → option V); f_free : bool; f_match : option (V → V → bool) }.
(** They act on the first list; [Swap] exchanges the two. *)
Inductive command :=
  | SetMethods (f : methods)
  | AddHead (v : V) | AddTail (v : V) | Insert (i : Z) (v : V) (after : bool)
  | Del (i : Z) | DelKey (key : V) | Index (i : Z) | Search (key : V)
  | Walk (d : direction) (f : V → bool)
  | RotateTailToHead | RotateHeadToTail | Empty
  | Swap | Join | Dup.
Inductive answer := Done | Value (v : option V) | Values (vs : list V) | Copied (ok : bool).

Record state := State { s_mem : memory; s_one : alist; s_two : alist }.
Definition on_one (s : state) (res : option (memory * alist)) (a : answer) : option (state * answer) := '(m, L) ← res; Some (State m L (s_two s), a).
(** The node that was looked for, if there is one, and the answer is its value. *)
Definition on_node (s : state) (look : option ptr) (op : ptr → option (memory * alist)) : option (state * answer) :=
  p ← look;
  match p with
  | None => Some (s, Value None)
  | Some _ => n ← node_at (s_mem s) p; on_one s (op p) (Value (Some (n_value n)))
  end.
Definition exec (s : state) (c : command) : option (state * answer) :=
  let m := s_mem s in let L := s_one s in
  match c with
  | SetMethods f => Some (State m (listSetMatchMethod (listSetFreeMethod (listSetDupMethod L (f_dup f)) (f_free f)) (f_match f)) (s_two s), Done)
  | AddHead v => on_one s (listAddNodeHead m L v) Done
  | AddTail v => on_one s (listAddNodeTail m L v) Done
  | Insert i v after => on_node s (listIndex m L i) (λ p, listInsertNode m L p v after)
  | Del i => on_node s (listIndex m L i) (listDelNode m L)
  | DelKey key => on_node s (listSearchKey m L key) (listDelNode m L)
  | Index i => on_node s (listIndex m L i) (λ _, Some (m, L))
  | Search key => on_node s (listSearchKey m L key) (λ _, Some (m, L))
  | Walk d f => '(m, L, vs) ← walk_list (Z.to_nat (l_len L)) m L (listGetIterator L d) f; Some (State m L (s_two s), Values vs)
  | RotateTailToHead => on_one s (listRotateTailToHead m L) Done
  | RotateHeadToTail => on_one s (listRotateHeadToTail m L) Done
  | Empty => on_one s (listEmpty m L) Done
  | Swap => Some (State m (s_two s) L, Done)
  | Join => '(m, L, other) ← listJoin m L (s_two s); Some (State m L other, Done)
  | Dup =>
      '(m, copy) ← listDup m L;
      match copy with
      | None => Some (State m L (s_two s), Copied false)
      | Some C => m ← listRelease m (s_two s); Some (State m L C, Copied true)
      end
  end.
Fixpoint exec_all (s : state) (cs : list command) : option (state * list answer) :=
  match cs with
  | [] => Some (s, [])
  | c :: cs => '(s, a) ← exec s c; '(s, l) ← exec_all s cs; Some (s, a :: l)
  end.
Definition start : state := State (Mem ∅ []) listCreate listCreate.

(** ** The same on sequences *)

Record spec := Spec { a_one : list V; a_f1 : methods; a_two : list V; a_f2 : methods; a_freed : list V }.
Definition with_one (a : spec) (l fr : list V) : spec := Spec l (a_f1 a) (a_two a) (a_f2 a) (a_freed a ++ (if f_free (a_f1 a) then fr else [])).
(** The counts are 64-bit, and the index is negated. *)
Definition fits (n : Z) : bool := n <? 2 ^ 64.
Definition index_fits (i : Z) : bool := (- 2 ^ 63 <? i) && (i <? 2 ^ 63).
Definition spec_node (a : spec) (k : option nat) (f : nat → V → spec) : spec * answer :=
  match k with None => (a, Value None) | Some k => match a_one a !! k with None => (a, Value None) | Some v => (f k v, Value (Some v)) end end.
Definition spec_exec (a : spec) (c : command) : option (spec * answer) :=
  let l := a_one a in
  let found key := fst <$> list_find (λ v, matches (f_match (a_f1 a)) key v = true) l in
  match c with
  | SetMethods f => Some (Spec l f (a_two a) (a_f2 a) (a_freed a), Done)
  | AddHead v => if fits (zlen l + 1) then Some (with_one a (v :: l) [], Done) else None
  | AddTail v => if fits (zlen l + 1) then Some (with_one a (l ++ [v]) [], Done) else None
  | Insert i v after =>
      if fits (zlen l + 1) && index_fits i then
        Some (spec_node a (at_index (zlen l) i) (λ k _, let k := if (after : bool) then S k else k in with_one a (take k l ++ v :: drop k l) []))
      else None
  | Del i => if index_fits i then Some (spec_node a (at_index (zlen l) i) (λ k v, with_one a (take k l ++ drop (S k) l) [v])) else None
  | DelKey key => Some (spec_node a (found key) (λ k v, with_one a (take k l ++ drop (S k) l) [v]))
  | Index i => if index_fits i then Some (spec_node a (at_index (zlen l) i) (λ _ _, a)) else None
  | Search key => Some (spec_node a (found key) (λ _ _, a))
  | Walk d f => Some (with_one a (kept f l) (dropped f (dir d l)), Values (dir d l))
  | RotateTailToHead => Some (with_one a (match reverse l with [] => [] | v :: r => v :: reverse r end) [], Done)
  | RotateHeadToTail => Some (with_one a (match l with [] => [] | v :: r => r ++ [v] end) [], Done)
  | Empty => Some (with_one a [] l, Done)
  | Swap => Some (Spec (a_two a) (a_f2 a) l (a_f1 a) (a_freed a), Done)
  | Join => if fits (zlen l + zlen (a_two a)) then Some (Spec (l ++ a_two a) (a_f1 a) [] (a_f2 a) (a_freed a), Done) else None
  | Dup =>
      let '(vs, ok) := dup_all (f_dup (a_f1 a)) l in
      if ok then Some (Spec l (a_f1 a) vs (a_f1 a) (a_freed a ++ (if f_free (a_f2 a) then a_two a else [])), Copied true)
      else Some (with_one a l vs, Copied false)
  end.
Fixpoint spec_all (a : spec) (cs : list command) : option (spec * list answer) :=
  match cs with
  | [] => Some (a, [])
  | c :: cs => '(a, x) ← spec_exec a c; '(a, l) ← spec_all a cs; Some (a, x :: l)
  end.
Definition spec_start : spec := Spec [] (Methods None false None) [] (Methods None false None) [].

(** ** The refinement *)

Definition has_methods (L : alist) (f : methods) : Prop := l_dup L = f_dup f ∧ l_free L = f_free f ∧ l_match L = f_match f.
(** The lists hold the nodes [l1] and [l2], which are all the nodes there are. *)
Record holds (s : state) (a : spec) (l1 l2 : list item) : Prop := Holds {
  ho_one : rep (m_heap (s_mem s)) (s_one s) l1;
  ho_two : rep (m_heap (s_mem s)) (s_two s) l2;
  ho_apart : ∀ q, q ∈ l2.*1 → q ∉ l1.*1;
  ho_all : ∀ q, is_Some (m_heap (s_mem s) !! q) → q ∈ l1.*1 ∨ q ∈ l2.*1;
  ho_values : a_one a = l1.*2 ∧ a_two a = l2.*2;
  ho_methods : has_methods (s_one s) (a_f1 a) ∧ has_methods (s_two s) (a_f2 a);
  ho_freed : m_freed (s_mem s) = a_freed a;
}.
Definition state_ok (s : state) (a : spec) : Prop := ∃ l1 l2, holds s a l1 l2.

Lemma has_same L L' f : has_methods L f → same_methods L L' → has_methods L' f.
Proof. unfold has_methods, same_methods. intros (<- & <- & <-) (-> & -> & ->). done. Qed.
Lemma local_all h h' l l' (P : positive → Prop) : local h h' l l' → (∀ q, is_Some (h !! q) → q ∈ l.*1 ∨ P q) → ∀ q, is_Some (h' !! q) → q ∈ l'.*1 ∨ P q.
Proof.
  intros (A1 & A2 & A3) Hall q [n E]. destruct (decide (q ∈ l'.*1)); [by left|]. right. destruct (decide (q ∈ l.*1)); [rewrite A1 in E by done; done|]. rewrite A2 in E by done. destruct (Hall q); [by eexists|done..].
Qed.
(** A change of the first list. *)
Lemma holds_one s a l1 l2 m' L' l1' fr : holds s a l1 l2 → goes (s_mem s) (s_one s) l1 l1' fr (Some (m', L')) →
  holds (State m' L' (s_two s)) (Spec (l1'.*2) (a_f1 a) (a_two a) (a_f2 a) (a_freed a ++ fr)) l1' l2.
Proof.
  intros [R1 R2 Hap Hall [_ Ev] [M1 M2] Hf] (? & ? & [= <- <-] & R1' & HM & Hloc & HF). destruct (frame_rep _ _ _ _ _ _ Hloc R2 Hap) as [R2' Hap'].
  split; cbn; [done|done|done|by eapply local_all|done|split; [by eapply has_same|done]|by rewrite HF, Hf].
Qed.
Lemma on_one_ok s a l1 l2 l1' fr vs res x : holds s a l1 l2 → goes (s_mem s) (s_one s) l1 l1' (if l_free (s_one s) then fr else []) res → l1'.*2 = vs →
  ∃ s', on_one s res x = Some (s', x) ∧ state_ok s' (with_one a vs fr).
Proof.
  intros Hh Hg <-. pose proof Hg as (m' & L' & -> & _). eexists. split; [done|]. pose proof (holds_one _ _ _ _ _ _ _ _ Hh Hg) as H'. destruct Hh as [_ _ _ _ _ [(_ & Ef & _) _] _]. rewrite Ef in H'. by eexists _, _.
Qed.
Lemma goes_nil m L l l' res : goes m L l l' [] res → goes m L l l' (if l_free L then [] else []) res.
Proof. by destruct (l_free L). Qed.

Lemma at_split {A} (l : list A) k x : l !! k = Some x → l = take k l ++ x :: drop (S k) l.
Proof. intros E. by rewrite (take_drop_middle _ _ _ E). Qed.
(** A command on the node at position [k]. *)
Lemma on_node_ok s a l1 l2 (k : option nat) op f : holds s a l1 l2 →
  (∀ i p v, l1 !! i = Some (p, v) → ∃ s', on_one s (op (Some p)) (Value (Some v)) = Some (s', Value (Some v)) ∧ state_ok s' (f i v)) →
  ∃ s', on_node s (Some (i ← k; fst <$> l1 !! i)) op = Some (s', (spec_node a k f).2) ∧ state_ok s' (spec_node a k f).1.
Proof.
  intros Hh Hop. unfold on_node, spec_node. destruct Hh as [R1 R2 Hap Hall [E1 E2] HM HF] eqn:?. cbn [mbind option_bind]. destruct k as [i|]; [|eexists; split; [done|by eexists _, _]]. cbn [mbind option_bind]. rewrite E1, list_lookup_fmap.
  destruct (l1 !! i) as [[p v]|] eqn:Ei; cbn [fmap option_fmap option_map fst snd]; [|eexists; split; [done|by eexists _, _]].
  destruct (node_spec (s_mem s) (s_one s) l1 AL_START_HEAD (take i l1) p v (drop (S i) l1) R1 (at_split _ _ _ Ei)) as (n & -> & Ev & _). cbn [mbind option_bind]. rewrite Ev. by apply Hop.
Qed.
(** The node found is the one at the position found in the values. *)
Lemma found_spec mt key (l : list item) :
  ('(_, it) ← list_find (λ it, matches mt key it.2 = true) l; Some it.1) = (i ← fst <$> list_find (λ v, matches mt key v = true) (l.*2); fst <$> l !! i).
Proof.
  rewrite list_find_fmap. unfold compose. destruct (list_find _ l) as [[i it]|] eqn:E; [|done]. cbn. apply list_find_Some in E as (-> & _). done.
Qed.

Section step.
Context (s : state) (a : spec) (l1 l2 : list item) (Hh : holds s a l1 l2).
Lemma values_len : zlen (a_one a) = zlen l1.
Proof. destruct Hh as [_ _ _ _ [-> _] _ _]. by rewrite length_fmap. Qed.
Lemma one_values : a_one a = l1.*2.
Proof. apply Hh. Qed.
Lemma add_head_ok v : fits (zlen (a_one a) + 1) = true → ∃ s', exec s (AddHead v) = Some (s', Done) ∧ state_ok s' (with_one a (v :: a_one a) []).
Proof.
  unfold fits. rewrite values_len. intros Hf%Z.ltb_lt. destruct (add_head_spec (s_mem s) (s_one s) l1 v (ho_one _ _ _ _ Hh) ltac:(lia)) as (x & _ & Hg). apply goes_nil in Hg. eapply on_one_ok; [done|done|]. cbn. by rewrite one_values.
Qed.
Lemma add_tail_ok v : fits (zlen (a_one a) + 1) = true → ∃ s', exec s (AddTail v) = Some (s', Done) ∧ state_ok s' (with_one a (a_one a ++ [v]) []).
Proof.
  unfold fits. rewrite values_len. intros Hf%Z.ltb_lt. destruct (add_tail_spec (s_mem s) (s_one s) l1 v (ho_one _ _ _ _ Hh) ltac:(lia)) as (x & _ & Hg). apply goes_nil in Hg. eapply on_one_ok; [done|done|]. by rewrite fmap_app, one_values.
Qed.
Lemma insert_at_ok i p w v after : fits (zlen (a_one a) + 1) = true → l1 !! i = Some (p, w) → let k := if (after : bool) then S i else i in
  ∃ s', on_one s (listInsertNode (s_mem s) (s_one s) (Some p) v after) (Value (Some w)) = Some (s', Value (Some w)) ∧ state_ok s' (with_one a (take k (a_one a) ++ v :: drop k (a_one a)) []).
Proof.
  unfold fits. rewrite values_len, one_values. intros Hf%Z.ltb_lt Ei. pose proof (ho_one _ _ _ _ Hh) as R1. pose proof (at_split _ _ _ Ei) as El. rewrite El in R1. destruct (al_insert_spec (s_mem s) (s_one s) (take i l1) p w (drop (S i) l1) v after R1) as (x & _ & Hg); [rewrite <- El; lia|].
  rewrite <- El in Hg. apply goes_nil in Hg. eapply on_one_ok; [done|done|]. rewrite <- fmap_take, <- fmap_drop. destruct after; rewrite fmap_app; cbn [fmap list_fmap snd].
  - rewrite (take_S_r _ _ _ Ei), fmap_app, <- app_assoc. done.
  - rewrite (drop_S _ _ _ Ei). done.
Qed.
Lemma del_at_ok i p v : l1 !! i = Some (p, v) →
  ∃ s', on_one s (listDelNode (s_mem s) (s_one s) (Some p)) (Value (Some v)) = Some (s', Value (Some v)) ∧ state_ok s' (with_one a (take i (a_one a) ++ drop (S i) (a_one a)) [v]).
Proof.
  rewrite one_values. intros Ei. pose proof (ho_one _ _ _ _ Hh) as R1. pose proof (at_split _ _ _ Ei) as El. rewrite El in R1. pose proof (del_spec (s_mem s) (s_one s) (take i l1) p v (drop (S i) l1) R1) as Hg. rewrite <- El in Hg.
  eapply on_one_ok; [done|done|]. by rewrite fmap_app, fmap_take, fmap_drop.
Qed.
Lemma look_ok (x : V) : ∃ s', on_one s (Some (s_mem s, s_one s)) (Value (Some x)) = Some (s', Value (Some x)) ∧ state_ok s' a.
Proof. eexists. split; [done|]. exists l1, l2. by destruct s. Qed.
Lemma walk_ok d f : ∃ s', exec s (Walk d f) = Some (s', Values (dir d (a_one a))) ∧ state_ok s' (with_one a (kept f (a_one a)) (dropped f (dir d (a_one a)))).
Proof.
  pose proof (ho_one _ _ _ _ Hh) as R1. cbn [exec]. rewrite (dir_first _ _ _ d R1), one_values. destruct (al_walk_spec f d (Z.to_nat (l_len (s_one s))) (s_mem s) (s_one s) l1 [] (dir d l1) R1 eq_refl) as (m' & L' & l' & -> & Hv & Hg); [rewrite dir_length, (rep_len _ _ _ R1); lia|].
  cbn [mbind option_bind]. rewrite !dir_fmap in *. cbn [fmap list_fmap app] in Hv. eexists. split; [done|]. destruct (on_one_ok _ _ _ _ _ _ (kept f (l1.*2)) _ Done Hh Hg) as (s' & E & Hok); [|by injection E as <-].
  destruct d; cbn [dir] in Hv; [done|]. apply (f_equal reverse) in Hv. rewrite reverse_involutive in Hv. rewrite Hv. unfold kept. by rewrite filter_reverse, reverse_involutive.
Qed.
Lemma rotate_ok : (∃ s', exec s RotateTailToHead = Some (s', Done) ∧ state_ok s' (with_one a (match reverse (a_one a) with [] => [] | v :: r => v :: reverse r end) [])) ∧
  (∃ s', exec s RotateHeadToTail = Some (s', Done) ∧ state_ok s' (with_one a (match a_one a with [] => [] | v :: r => r ++ [v] end) [])).
Proof.
  pose proof (ho_one _ _ _ _ Hh) as R1. rewrite one_values. split; cbn [exec].
  - assert (l1 = [] ∨ ∃ l y, l1 = l ++ [y]) as [El|(l & [p v] & El)] by (clear; destruct l1 as [|y l _] using rev_ind; [by left|right; eauto]).
    + eapply (on_one_ok _ _ _ _ [] []); [done| |by subst]. apply goes_nil. unfold listRotateTailToHead. rewrite (rep_len _ _ _ R1), El in *. by apply goes_refl.
    + rewrite El in R1. pose proof (rotate_tail_spec _ _ _ _ R1) as Hg. rewrite <- El in Hg. eapply on_one_ok; [done|by apply goes_nil|]. rewrite El, fmap_app. cbn [fmap list_fmap snd]. by rewrite reverse_snoc, reverse_involutive.
  - destruct l1 as [|[p v] l] eqn:El; rewrite <- El in Hh.
    + eapply (on_one_ok _ _ _ _ [] []); [done| |done]. apply goes_nil. unfold listRotateHeadToTail. rewrite (rep_len _ _ _ R1), El in *. by apply goes_refl.
    + pose proof (rotate_head_spec _ _ _ _ R1) as Hg. rewrite <- El in Hg. eapply on_one_ok; [done|by apply goes_nil|]. by rewrite fmap_app.
Qed.
Lemma al_empty_ok : ∃ s', exec s Empty = Some (s', Done) ∧ state_ok s' (with_one a [] (a_one a)).
Proof. rewrite one_values. eapply on_one_ok; [done|apply empty_spec, Hh|done]. Qed.
Lemma join_ok : fits (zlen (a_one a) + zlen (a_two a)) = true → ∃ s', exec s Join = Some (s', Done) ∧ state_ok s' (Spec (a_one a ++ a_two a) (a_f1 a) [] (a_f2 a) (a_freed a)).
Proof.
  destruct Hh as [R1 R2 Hap Hall [E1 E2] [M1 M2] HF]. unfold fits. rewrite E1, E2, !length_fmap. intros Hf%Z.ltb_lt.
  destruct (join_spec (s_mem s) (s_one s) (s_two s) l1 l2 R1 R2) as (m' & L' & E & R' & HM & Hloc & HF'); [|rewrite length_app; lia|].
  { rewrite fmap_app. apply NoDup_app. split_and!; [apply R1| |apply R2]. intros q H1 H2. by apply (Hap q). }
  cbn [exec]. rewrite E. cbn [mbind option_bind]. eexists. split; [done|]. exists (l1 ++ l2), []. split; cbn; [done|by split; try constructor|by intros q ?%not_elem_of_nil| |by rewrite fmap_app|split; [by eapply has_same|done]|by rewrite HF'].
  apply (local_all _ _ (l1 ++ l2) (l1 ++ l2) (λ q, q ∈ []) Hloc). intros q Hq. left. rewrite fmap_app. apply elem_of_app. auto.
Qed.
Lemma dup_fail_ok vs : dup_all (f_dup (a_f1 a)) (a_one a) = (vs, false) → ∃ s', exec s Dup = Some (s', Copied false) ∧ state_ok s' (with_one a (a_one a) vs).
Proof.
  destruct Hh as [R1 R2 Hap Hall [E1 E2] [M1 M2] HF]. rewrite E1. pose proof M1 as (<- & Mf & Mm). intros Ed. pose proof (dup_spec _ _ _ R1) as Hd. rewrite Ed in Hd. destruct Hd as (m' & c & HF' & Hloc & E & ->).
  cbn [exec]. rewrite E. cbn [mbind option_bind]. eexists. split; [done|]. destruct (frame_rep _ _ _ _ _ _ Hloc R1) as [R1' _]; [set_solver|]. destruct (frame_rep _ _ _ _ _ _ Hloc R2) as [R2' _]; [set_solver|].
  exists l1, l2. split; cbn; [done|done|done| |done|done|by rewrite HF', HF, Mf].
  intros q Hq. destruct (local_all _ _ _ _ (λ q, q ∈ l1.*1 ∨ q ∈ l2.*1) Hloc ltac:(auto) q Hq) as [?%not_elem_of_nil|]; done.
Qed.
Lemma dup_ok vs : dup_all (f_dup (a_f1 a)) (a_one a) = (vs, true) →
  ∃ s', exec s Dup = Some (s', Copied true) ∧ state_ok s' (Spec (a_one a) (a_f1 a) vs (a_f1 a) (a_freed a ++ (if f_free (a_f2 a) then a_two a else []))).
Proof.
  destruct Hh as [R1 R2 Hap Hall [E1 E2] [M1 M2] HF]. rewrite E1, E2. pose proof M1 as (<- & Mf & Mm). intros Ed. pose proof (dup_spec _ _ _ R1) as Hd. rewrite Ed in Hd. destruct Hd as (m' & c & HF' & Hloc & C & E & Rc & MC & Ec).
  cbn [exec]. rewrite E. cbn [mbind option_bind]. destruct (frame_rep _ _ _ _ _ _ Hloc R1) as [R1' X1]; [set_solver|]. destruct (frame_rep _ _ _ _ _ _ Hloc R2) as [R2' X2]; [set_solver|].
  unfold listRelease. destruct (empty_spec _ _ _ R2') as (m2 & L2 & -> & _ & _ & Hl2 & HF2). cbn [mbind option_bind]. eexists. split; [done|].
  destruct (frame_rep _ _ _ _ _ _ Hl2 R1') as [R1'' _]; [intros q H1 H2; by apply (Hap q)|]. destruct (frame_rep _ _ _ _ _ _ Hl2 Rc) as [Rc' _]; [intros q H1 H2; by apply (X2 q)|].
  exists l1, c. split; cbn; [done|done|intros q H1 H2; by apply (X1 q)| |done|split; [done|by eapply has_same]|].
  - intros q Hq. pose proof (local_all _ _ _ _ (λ q, q ∈ l1.*1 ∨ q ∈ l2.*1) Hloc ltac:(auto)) as H1. pose proof (local_all _ _ _ _ (λ q, q ∈ l1.*1 ∨ q ∈ c.*1) Hl2) as H2. destruct (H2 ltac:(naive_solver) q Hq) as [?%not_elem_of_nil|]; [done|done].
  - rewrite HF2, HF', app_nil_r, HF. by destruct M2 as (_ & -> & _).
Qed.
Lemma swap_ok : state_ok (State (s_mem s) (s_two s) (s_one s)) (Spec (a_two a) (a_f2 a) (a_one a) (a_f1 a) (a_freed a)).
Proof. destruct Hh as [R1 R2 Hap Hall [E1 E2] [M1 M2] HF]. exists l2, l1. split; cbn; [done|done|intros q H1 H2; by apply (Hap q)|naive_solver|done|done|done]. Qed.
Lemma index_look i : index_fits i = true → listIndex (s_mem s) (s_one s) i = Some (k ← at_index (zlen (a_one a)) i; fst <$> l1 !! k).
Proof. intros [? ?]%andb_prop. rewrite values_len. apply index_spec; [apply Hh|]. lia. Qed.
Lemma search_look key : listSearchKey (s_mem s) (s_one s) key = Some (k ← fst <$> list_find (λ v, matches (f_match (a_f1 a)) key v = true) (a_one a); fst <$> l1 !! k).
Proof. rewrite (al_search_spec _ _ l1) by apply Hh. rewrite one_values. destruct Hh as [_ _ _ _ _ [(_ & _ & ->) _] _]. by rewrite found_spec. Qed.
End step.

Lemma pair_eta {A B} (x : A * B) y z : Some x = Some (y, z) → x.1 = y ∧ x.2 = z.
Proof. by intros [= ->]. Qed.
Lemma al_exec_ok s a c a' x : state_ok s a → spec_exec a c = Some (a', x) → ∃ s', exec s c = Some (s', x) ∧ state_ok s' a'.
Proof.
  intros (l1 & l2 & Hh) E. destruct c; cbn [spec_exec exec] in *.
  - injection E as <- <-. eexists. split; [done|]. exists l1, l2. destruct Hh as [[] ? ? ? ? [_ ?] ?]. by split.
  - destruct (fits _) eqn:Ef; [|done]. injection E as <- <-. by eapply add_head_ok.
  - destruct (fits _) eqn:Ef; [|done]. injection E as <- <-. by eapply add_tail_ok.
  - destruct (fits _) eqn:Ef, (index_fits i) eqn:Ei; try done. apply pair_eta in E as [<- <-]. rewrite (index_look _ _ _ _ Hh) by done. eapply on_node_ok; [done|]. intros k p w Ek. by eapply insert_at_ok.
  - destruct (index_fits i) eqn:Ei; [|done]. apply pair_eta in E as [<- <-]. rewrite (index_look _ _ _ _ Hh) by done. eapply on_node_ok; [done|]. intros k p w Ek. by eapply del_at_ok.
  - apply pair_eta in E as [<- <-]. rewrite (search_look _ _ _ _ Hh). eapply on_node_ok; [done|]. intros k p w Ek. by eapply del_at_ok.
  - destruct (index_fits i) eqn:Ei; [|done]. apply pair_eta in E as [<- <-]. rewrite (index_look _ _ _ _ Hh) by done. eapply on_node_ok; [done|]. intros k p w Ek. by eapply look_ok.
  - apply pair_eta in E as [<- <-]. rewrite (search_look _ _ _ _ Hh). eapply on_node_ok; [done|]. intros k p w Ek. by eapply look_ok.
  - injection E as <- <-. by eapply walk_ok.
  - injection E as <- <-. by eapply rotate_ok.
  - injection E as <- <-. by eapply rotate_ok.
  - injection E as <- <-. by eapply al_empty_ok.
  - injection E as <- <-. eexists. split; [done|]. by eapply swap_ok.
  - destruct (fits _) eqn:Ef; [|done]. injection E as <- <-. by eapply join_ok.
  - destruct (dup_all _ _) as [vs ok] eqn:Ed. destruct ok; injection E as <- <-; [by eapply dup_ok|by eapply dup_fail_ok].
Qed.
Lemma exec_all_ok cs : ∀ s a a' xs, state_ok s a → spec_all a cs = Some (a', xs) → ∃ s', exec_all s cs = Some (s', xs) ∧ state_ok s' a'.
Proof.
  induction cs as [|c cs IH]; intros s a a' xs Hok E; cbn [spec_all exec_all] in *; [injection E as <- <-; by eexists|].
  apply bind_Some in E as ([a1 x] & Ea & E). apply bind_Some in E as ([a2 l] & El & [= <- <-]). destruct (al_exec_ok _ _ _ _ _ Hok Ea) as (s1 & -> & Hok1). destruct (IH _ _ _ _ Hok1 El) as (s2 & E2 & Hok2). cbn [mbind option_bind]. rewrite E2. by eexists.
Qed.
Lemma start_ok : state_ok start spec_start.
Proof. exists [], []. split; cbn; [by split; try constructor|by split; try constructor|by intros q ?%not_elem_of_nil|intros q [n E]; by rewrite lookup_empty in E|done|done|done]. Qed.

(** C33: programs over two lists, from [listCreate].  As long as the lengths and
    indices fit their types, no command uses a NULL or freed pointer; answers,
    contents of both lists and values passed to [free] are those of the same
    program over sequences, when nodes are deleted under an iterator and when a
    copy fails half way too; and the heap holds the nodes of the two lists, each
    in one of them, and nothing else. *)
Theorem adlist_run_refines cs a xs :
  spec_all spec_start cs = Some (a, xs) → ∃ s, exec_all start cs = Some (s, xs) ∧ state_ok s a.
Proof. apply exec_all_ok, start_ok. Qed.
End run.
Arguments command : clear implicits.

(** Values are integers; -1 cannot be copied, keys match modulo 10. *)
Definition ex_methods : methods (V:=Z) := Methods (Some (λ v, if v =? -1 then None else Some (v + 100))) true (Some (λ v k, v mod 10 =? k mod 10)).
Definition ex_commands : list (command Z) :=
  [SetMethods ex_methods; AddTail 1; AddHead 2; AddTail 3; Insert (-1) 4 true; Insert 0 5 false; DelKey 13; Dup; RotateTailToHead; RotateHeadToTail; RotateHeadToTail;
   Walk AL_START_TAIL Z.even; AddHead (-1); Swap; Join; Search 5; Index (-5); Swap; Empty; Swap; AddTail 7; Del 9; Dup; Walk AL_START_HEAD (λ _, true)].
Lemma adlist_run_witness :
  ∃ s, exec_all start ex_commands =
    Some (s, [Done; Done; Done; Done; Value (Some 3); Value (Some 2); Value (Some 3); Copied true; Done; Done; Done;
              Values [5; 4; 1; 2]; Done; Done; Done; Value (Some 105); Value (Some 101); Done; Done; Done; Done; Value None; Copied false; Values [105; 102; 101; 104; -1; 1; 5; 7]]) ∧
    m_heap (s_mem s) = ∅.
Proof.
  edestruct (adlist_run_refines ex_commands) as (s & E & l1 & l2 & [_ _ _ Hall [E1 E2] _ _]); [vm_compute; reflexivity|]. exists s. split; [exact E|]. apply map_eq. intros q. rewrite lookup_empty. apply eq_None_not_Some. intros Hq.
  destruct l1; [|discriminate E1]. destruct l2; [|discriminate E2]. destruct (Hall q Hq) as [?%not_elem_of_nil|?%not_elem_of_nil]; done.
Defined.
End AdlistRun.
