(* ===== verification/SdsRun.v ===== *)
(** * sds.c: programs over strings

    The operations that change the content, then sequences of operations, which
    refine the same operations on lists of bytes; and what goes wrong in
    [sdsResize] with jemalloc. *)

From S2P Require Import Prelude Sds SdsOk.
Import Sds SdsOk.

Module SdsRun.
Section run.
Context `{Al : Allocator}.
Implicit Type (s : sds_t) (str : list Z).

(** ** The end of an operation *)

Lemma end_len_zero s t len a x w y : raw s t len a (x ++ w :: y) → zlen x ≤ a → ∃ s', (s ← sdssetlen s (zlen x); write_at s (zlen x) [0]) = Some s' ∧ rep s' x.
Proof.
  intros Hr Hx. destruct (setlen_spec _ _ _ _ _ Hr (zlen x)) as (s1 & -> & H1); [lia|]. cbn [mbind option_bind]. destruct (put_spec _ _ _ _ _ H1 (zlen x) [0] x [w] y) as (s2 & -> & H2); [done..|]. exists s2. split; [done|]. by eexists _, _, _.
Qed.
Lemma end_zero_len s t len a x w y : raw s t len a (x ++ w :: y) → zlen x ≤ a → ∃ s', (s ← write_at s (zlen x) [0]; sdssetlen s (zlen x)) = Some s' ∧ rep s' x.
Proof.
  intros Hr Hx. destruct (put_spec _ _ _ _ _ Hr (zlen x) [0] x [w] y) as (s1 & -> & H1); [done..|]. cbn [mbind option_bind]. destruct (setlen_spec _ _ _ _ _ H1 (zlen x)) as (s2 & -> & H2); [lia|]. exists s2. split; [done|]. by eexists _, _, _.
Qed.
Lemma rep_len s str : rep s str → sdslen s = Some (zlen str).
Proof. intros (t & a & rest & Hr). by eapply sdslen_spec. Qed.
Lemma rep_content s str : rep s str → ∃ rest, content s = str ++ 0 :: rest.
Proof.
  intros (t & a & rest & [[Ht Eo Eb HL HA] _ _ _ _]). exists rest. unfold content. destruct (type_facts t Ht) as (_ & _ & _ & _ & Eh & _). rewrite Eb, Eo, !app_assoc, <- (app_assoc _ str), drop_app_length' by llia. done.
Qed.
Lemma rep_load s str : rep s str → load (content s) 0 (zlen str) = Some str.
Proof. intros [rest ->]%rep_content. by apply load_head. Qed.
Lemma split_cons (l : list Z) n : 0 ≤ n < zlen l → ∃ x w y, l = x ++ w :: y ∧ zlen x = n.
Proof. intros Hn. destruct (sds_split_at l n) as (x & y & -> & Hx); [lia|]. destruct y as [|w y]; [llia|]. by exists x, w, y. Qed.

(** ** Appending and copying *)

Lemma room_spec s str n greedy : rep s str → 0 ≤ n → zlen str + n ≤ MAX → ∃ s' t a rest, _sdsMakeRoomFor s n greedy = Some s' ∧ raw s' t (zlen str) a (str ++ 0 :: rest) ∧ zlen str + n ≤ a.
Proof.
  intros (t & a & rest & Hr) Hn Hmax. change (str ++ 0 :: rest) with (str ++ [0] ++ rest) in Hr. rewrite app_assoc in Hr. destruct (makeroom_spec _ _ _ _ _ _ n greedy Hr) as (s' & t' & a' & y' & E & H' & Ha); [llia|done|done|]. exists s', t', a', y'. rewrite <- app_assoc in H'. done.
Qed.
Lemma makeroom_ok s str n greedy : rep s str → 0 ≤ n → zlen str + n ≤ MAX → ∃ s' av, _sdsMakeRoomFor s n greedy = Some s' ∧ rep s' str ∧ sdsavail s' = Some av ∧ n ≤ av.
Proof. intros Hr Hn Hmax. destruct (room_spec s str n greedy Hr Hn Hmax) as (s' & t & a & rest & E & H' & Ha). exists s', (a - zlen str). split_and!; [done|by eexists _, _, _|by eapply sdsavail_spec|lia]. Qed.
Lemma catlen_spec s str t n bs : rep s str → load t 0 n = Some bs → zlen str + n ≤ MAX → ∃ s', sdscatlen s t n = Some s' ∧ rep s' (str ++ bs).
Proof.
  intros Hr Ebs Hmax. pose proof (load_Some _ _ _ _ Ebs) as (_ & _ & _ & _ & Hn). unfold sdscatlen, sdsMakeRoomFor. rewrite (rep_len _ _ Hr). cbn [mbind option_bind]. destruct (room_spec s str n true Hr) as (s1 & t1 & a1 & rest & -> & H1 & Ha); [lia|done|]. cbn [mbind option_bind]. rewrite Ebs. cbn [mbind option_bind].
  pose proof (raw_room _ _ _ _ _ H1) as Hroom. destruct (split_cons (0 :: rest) n) as (old & w & y & Eold & Hold); [llia|]. rewrite Eold in *. destruct (put_spec _ _ _ _ _ H1 (zlen str) bs str old (w :: y)) as (s2 & -> & H2); [done|done|lia|]. cbn [mbind option_bind].
  unfold MAX in Hmax. rewrite wrapu_small by lia. rewrite app_assoc in H2. assert (zlen str + n = zlen (str ++ bs)) as -> by llia. eapply end_len_zero; [exact H2|llia].
Qed.
Lemma cpylen_spec s str t n bs : rep s str → load t 0 n = Some bs → n ≤ MAX → ∃ s', sdscpylen s t n = Some s' ∧ rep s' bs.
Proof.
  intros (t0 & a & rest & Hr) Ebs Hmax. pose proof (load_Some _ _ _ _ Ebs) as (_ & _ & _ & _ & Hn). unfold sdscpylen, sdsMakeRoomFor. rewrite (sdsalloc_spec _ _ _ _ _ Hr). cbn [mbind option_bind].
  assert (∃ s1 t1 a1 pay, (if a <? n then curlen ← sdslen s; _sdsMakeRoomFor s (u64 (n - curlen)) true else Some s) = Some s1 ∧ raw s1 t1 (zlen str) a1 pay ∧ n ≤ a1) as (s1 & t1 & a1 & pay & -> & H1 & Ha1).
  { destruct (Z.ltb_spec a n); [|by eexists _, _, _, _]. rewrite (sdslen_spec _ _ _ _ _ Hr). cbn [mbind option_bind]. pose proof (raw_len _ _ _ _ _ Hr). unfold MAX in *. rewrite wrapu_small by lia. destruct (room_spec s str (n - zlen str) true) as (s1 & t1 & a1 & r1 & -> & H1 & Ha); [by eexists _, _, _|lia|unfold MAX; lia|]. eexists _, _, _, _. split_and!; [done|done|lia]. }
  cbn [mbind option_bind]. rewrite Ebs. cbn [mbind option_bind]. pose proof (raw_room _ _ _ _ _ H1) as Hroom. destruct (split_cons pay n) as (old & w & y & -> & Hold); [lia|]. destruct (put_spec _ _ _ _ _ H1 0 bs [] old (w :: y)) as (s2 & -> & H2); [done|done|lia|]. cbn [mbind option_bind]. cbn [app] in H2.
  rewrite Hn in *. eapply end_zero_len; [exact H2|lia].
Qed.
Lemma growzero_spec s str n : rep s str → n ≤ MAX → ∃ s', sdsgrowzero s n = Some s' ∧ rep s' (str ++ replicate (Z.to_nat (n - zlen str)) 0).
Proof.
  intros Hr Hmax. unfold sdsgrowzero, sdsMakeRoomFor. rewrite (rep_len _ _ Hr). cbn [mbind option_bind]. destruct (Z.leb_spec n (zlen str)).
  { exists s. split; [done|]. replace (Z.to_nat (n - zlen str)) with 0%nat by lia. by rewrite app_nil_r. }
  destruct (room_spec s str (n - zlen str) true Hr) as (s1 & t1 & a1 & rest & -> & H1 & Ha); [lia|lia|]. cbn [mbind option_bind]. pose proof (raw_room _ _ _ _ _ H1) as Hroom. set (k := Z.to_nat (n - zlen str)). destruct (sds_split_at (0 :: rest) (n - zlen str + 1)) as (old & y & Eold & Hold); [llia|]. rewrite Eold in H1, Hroom.
  replace (Z.to_nat (n - zlen str + 1)) with (k + 1)%nat by lia. rewrite replicate_add. destruct (put_spec _ _ _ _ _ H1 (zlen str) (replicate k 0 ++ replicate 1 0) str old y) as (s2 & -> & H2); [done|done|llia|]. cbn [mbind option_bind]. destruct (setlen_spec _ _ _ _ _ H2 n) as (s3 & -> & H3); [lia|]. exists s3. split; [done|].
  assert (n = zlen (str ++ replicate k 0)) as En by llia. rewrite En in H3. eexists _, _, y. rewrite <- app_assoc. exact (eq_ind _ (λ l, raw s3 t1 _ _ (str ++ l)) H3 _ (eq_sym (app_assoc _ _ _))).
Qed.
Lemma new_spec t n bs : load t 0 n = Some bs → n ≤ MAX → ∃ s, sdsnewlen (Init t) n = Some s ∧ rep s bs.
Proof.
  intros Ebs Hmax. pose proof (load_Some _ _ _ _ Ebs) as (l & r & -> & Hl & Hn). pose proof (newlen_spec (Init (l ++ bs ++ r)) n false true) as Hs. cbn [andb negb] in Hs. destruct Hs as (s & str & E & Hr & _ & Eb); [lia|intros t [= <-]; llia|]. exists s. unfold sdsnewlen. rewrite E. split; [done|]. congruence.
Qed.
Lemma sds_dup_spec s str : rep s str → zlen str ≤ MAX → ∃ s', sdsdup s = Some s' ∧ rep s' str.
Proof. intros Hr Hmax. unfold sdsdup. rewrite (rep_len _ _ Hr). cbn [mbind option_bind]. by apply new_spec; [apply rep_load|]. Qed.
Lemma clear_spec s str : rep s str → ∃ s', sdsclear s = Some s' ∧ rep s' [].
Proof.
  intros (t & a & rest & Hr). unfold sdsclear. destruct (split_cons (str ++ 0 :: rest) 0) as (x & w & y & E & Hx); [llia|]. destruct x; [|llia]. rewrite E in Hr. pose proof (raw_len _ _ _ _ _ Hr). apply (end_len_zero s t (zlen str) a [] w y); [done|cbn [length]; lia].
Qed.
(** The string up to the first zero. *)
Fixpoint until_zero (l : list Z) : list Z := match l with [] => [] | c :: l => if c =? 0 then [] else c :: until_zero l end.
Lemma strlen_spec l r n : strlen_loop (l ++ 0 :: r) n = Some (n + zlen (until_zero l)).
Proof. revert n. induction l as [|c l IH]; intros n; cbn [app strlen_loop until_zero Z.eqb]; [f_equal; cbn [length]; lia|]. destruct (c =? 0); [f_equal; cbn [length]; lia|]. rewrite IH. f_equal. cbn [length]. lia. Qed.
Lemma until_zero_split l : ∃ w y, ∀ r, l ++ 0 :: r = until_zero l ++ 0 :: (w ++ y ++ r) ∧ length (w ++ y ++ r) = (length l - length (until_zero l) + length r)%nat.
Proof.
  induction l as [|c l (w & y & IH)]; [by exists [], []|]. cbn [until_zero]. destruct (Z.eqb_spec c 0) as [->|].
  - exists l, [0]. intros r. split; [done|cbn [app length]; llia].
  - exists w, y. intros r. destruct (IH r) as [E Hl]. cbn [app]. rewrite E. split; [done|]. cbn [length]. lia.
Qed.
Lemma updatelen_spec s str : rep s str → ∃ s', sdsupdatelen s = Some s' ∧ rep s' (until_zero str).
Proof.
  intros (t & a & rest & Hr). destruct (rep_content s str) as [rest' Ec]; [by eexists _, _, _|]. unfold sdsupdatelen, strlen. unfold content in Ec. rewrite decide_True, Ec, strlen_spec; [|pose proof (hdr_bounds t (raw_type _ _ _ _ _ Hr)); destruct Hr as [[_ -> _ _ _] _ _ _ _]; lia].
  cbn [mbind option_bind]. rewrite Z.add_0_l. destruct (until_zero_split str) as (w & y & Hs). destruct (Hs rest) as [E Hl]. apply (f_equal length) in E as El. rewrite E in Hr. pose proof (raw_len _ _ _ _ _ Hr). destruct (setlen_spec _ _ _ _ _ Hr (zlen (until_zero str))) as (s' & -> & H'); [llia|]. exists s'. split; [done|]. by eexists _, _, _.
Qed.

(** ** Trimming *)

Lemma shape_move s t L A f x b c : shape s t L A f (x ++ b ++ c) → ∃ blk x', memmove (s_blk s) (s_off s) (s_off s + zlen x) (zlen b) = Some blk ∧ shape (Sds blk (s_off s)) t L A f (b ++ x' ++ c) ∧ length x' = length x.
Proof.
  intros [Ht Eo Eb HL HA]. destruct (type_facts t Ht) as (_ & _ & _ & _ & Eh & _). rewrite Eb, Eo. rewrite (app_assoc A), (app_assoc L). destruct (memmove_left (L ++ A ++ [f]) x b c (sdsHdrSize t) (sdsHdrSize t + zlen x) (zlen b)) as (x' & -> & Hx); [llia|llia|done|]. eexists _, x'. split; [done|]. split; [|done]. split; cbn; [done|done|by rewrite <- !app_assoc|done|done].
Qed.
(** What [sdstrim] and [sdssubstr] do: keep the part [b], or leave it in place. *)
Lemma sds_cut_spec s x b c (move : bool) : rep s (x ++ b ++ c) → (move = false → x = [] ∨ b = []) →
  ∃ s', (s ← (if move then blk ← memmove (s_blk s) (s_off s) (s_off s + zlen x) (zlen b); Some (Sds blk (s_off s)) else Some s); s ← write_at s (zlen b) [0]; sdssetlen s (zlen b)) = Some s' ∧ rep s' b.
Proof.
  intros (t & a & rest & Hr) Hm. pose proof Hr as [Hs Hl Hmx Hro H5]. assert (Ea : (x ++ b ++ c) ++ 0 :: rest = x ++ b ++ (c ++ 0 :: rest)) by (by rewrite <- !app_assoc). rewrite Ea in Hs, Hro. destruct move.
  - destruct (shape_move _ _ _ _ _ _ _ _ Hs) as (blk & x' & -> & Hs' & Hx'). cbn [mbind option_bind]. destruct (split_cons (x' ++ c ++ 0 :: rest) 0) as (e & w & y & Ew & He); [llia|]. destruct e; [|llia]. cbn [app] in Ew. rewrite Ew in Hs'. apply (f_equal length) in Ew. apply (end_zero_len _ t (zlen (x ++ b ++ c)) a b w y); [|llia].
    split; [done|done|done|llia|done].
  - cbn [mbind option_bind]. destruct (Hm eq_refl) as [-> | ->].
    + destruct (split_cons (c ++ 0 :: rest) 0) as (e & w & y & Ew & He); [llia|]. destruct e; [|llia]. cbn [app] in *. apply (end_zero_len _ t (zlen (b ++ c)) a b w y); [|llia]. by rewrite <- app_assoc, Ew in Hr.
    + destruct (split_cons ((x ++ c) ++ 0 :: rest) 0) as (e & w & y & Ew & He); [llia|]. destruct e; [|llia]. cbn [app] in *. rewrite Ew in Hr. apply (end_zero_len _ t (zlen (x ++ c)) a [] w y); [done|cbn [length]; llia].
Qed.
Definition substr (str : list Z) (start len : Z) : list Z := if start >=? zlen str then [] else take (Z.to_nat len) (drop (Z.to_nat start) str).
Lemma substr_spec s str start len : rep s str → 0 ≤ start → 0 ≤ len → ∃ s', sdssubstr s start len = Some s' ∧ rep s' (substr str start len).
Proof.
  intros Hr Hs Hl. unfold sdssubstr, substr. rewrite (rep_len _ _ Hr). cbn [mbind option_bind]. rewrite Z.geb_leb. destruct (Z.leb_spec (zlen str) start).
  - cbn [Z.sub]. destruct (Z.gtb_spec 0 (zlen str - 0)); [lia|]. apply (sds_cut_spec s [] [] str false); [done|by left].
  - set (b := take _ _). assert (Eb : (if len >? zlen str - start then zlen str - start else len) = zlen b) by (unfold b; zcase; llia). rewrite Eb. set (x := take (Z.to_nat start) str). assert (Estr : str = x ++ b ++ drop (Z.to_nat len) (drop (Z.to_nat start) str)) by (unfold x, b; by rewrite !take_drop).
    assert (Hx : start = zlen x) by (unfold x; llia). rewrite Hx. rewrite Estr in Hr. destruct (Z.eqb_spec (zlen b) 0) as [E0|Hne].
    + assert (b = []) as Eb0 by (destruct b; [done|cbn in E0; lia]). apply (sds_cut_spec s x b _ false Hr). by right.
    + apply (sds_cut_spec s x b _ true Hr). done.
Qed.
(** Positions count from the end when negative; a start before the string is as
    good as one behind it. *)
Definition range (str : list Z) (start end_ : Z) : list Z :=
  let at_ i := if i <? 0 then zlen str + i else i in
  if (at_ start <? 0) || (at_ start >? at_ end_) then [] else substr str (at_ start) (at_ end_ - at_ start + 1).
Lemma range_spec s str start end_ : rep s str → zlen str ≤ MAX → - MAX ≤ start < MAX → - MAX ≤ end_ < MAX → ∃ s', sdsrange s start end_ = Some s' ∧ rep s' (range str start end_).
Proof.
  unfold MAX. intros Hr Hmax Hs He. unfold sdsrange, range. rewrite (rep_len _ _ Hr). cbn [mbind option_bind]. destruct (Z.eqb_spec (zlen str) 0) as [E0|Hne].
  { exists s. split; [done|]. destruct str; [|cbn in E0; lia]. cbn [length]. unfold substr. destruct (_ || _); [done|]. destruct (_ >=? _); [done|]. by rewrite drop_nil, take_nil. }
  rewrite !(wraps_small 64 (zlen str + _)) by (unfold sfits; lia). set (st := if start <? 0 then _ else _). set (en := if end_ <? 0 then _ else _). assert (- 2 ^ 62 ≤ st ≤ 2 ^ 62 ∧ - 2 ^ 62 ≤ en ≤ 2 ^ 62) as [Hs1 He1] by (unfold st, en; zcase; lia).
  destruct (Z.gtb_spec st en) as [Hgt|Hle].
  - rewrite orb_true_r. replace [] with (substr str (u64 st) 0) by (unfold substr; by destruct (_ >=? _)). apply substr_spec; [done|apply wrapu_range; lia|done].
  - rewrite orb_false_r. destruct (Z.ltb_spec st 0) as [Hneg|Hpos].
    + assert (u64 st = 2 ^ 64 + st) as -> by (unfold wrapu; rewrite <- (Z.mod_add st 1), Z.mod_small by lia; lia). match goal with |- context [sdssubstr s _ ?n] => destruct (substr_spec s str (2 ^ 64 + st) n Hr) as (s' & E & H') end; [lia|apply wrapu_range; lia|]. exists s'. split; [done|]. unfold substr in H'. destruct (Z.geb_spec (2 ^ 64 + st) (zlen str)); [done|lia].
    + rewrite (wraps_small 64 (en - st)) by (unfold sfits; lia). rewrite (wraps_small 64 (en - st + 1)) by (unfold sfits; lia). rewrite !wrapu_small by lia. apply substr_spec; [done|lia|lia].
Qed.

Lemma sds_rep_get s p c r : rep s (p ++ c :: r) → load8 (s_blk s) (s_off s + zlen p) = Some c.
Proof.
  intros (t & a & rest & [[Ht Eo Eb HL HA] _ _ _ _]). destruct (type_facts t Ht) as (_ & _ & _ & _ & Eh & _). set (L := le_bytes _ _) in *. set (A := le_bytes _ a) in *. set (f := flag_byte _ _) in *.
  assert (E : s_blk s = (L ++ A ++ [f] ++ p) ++ c :: (r ++ 0 :: rest)) by (rewrite Eb; by rewrite <- !app_assoc). rewrite E, Eo. apply load8_app. llia.
Qed.
Fixpoint drop_while (f : Z → bool) (l : list Z) : list Z := match l with [] => [] | c :: r => if f c then drop_while f r else l end.
Definition rtrim (f : Z → bool) (l : list Z) : list Z := reverse (drop_while f (reverse l)).
Definition trim (cset : list Z) (str : list Z) : list Z := rtrim (in_cset cset) (drop_while (in_cset cset) str).

Lemma trim_left_spec s cset str p q fuel : rep s str → str = p ++ q → (length q ≤ fuel)%nat → trim_left fuel s cset (zlen p) (zlen str - 1) = Some (zlen str - zlen (drop_while (in_cset cset) q)).
Proof.
  intros Hr. revert p q. induction fuel as [|fuel IH]; intros p q E Hf; cbn [trim_left]; (destruct q as [|c q]; [cbn [length drop_while]; destruct (Z.leb_spec (zlen p) (zlen str - 1)) as [Hle|]; [rewrite E in Hle; llia|f_equal; rewrite E; llia]|]); [cbn in Hf; lia|].
  destruct (Z.leb_spec (zlen p) (zlen str - 1)) as [_|Hgt]; [|rewrite E in Hgt; llia]. pose proof Hr as Hr'. rewrite E in Hr'. rewrite (sds_rep_get _ _ _ _ Hr'). cbn [mbind option_bind drop_while]. destruct (in_cset cset c); [|f_equal; rewrite E; llia]. specialize (IH (p ++ [c]) q). replace (zlen p + 1) with (zlen (p ++ [c])) by llia. apply IH; [by rewrite <- app_assoc|cbn in Hf; lia].
Qed.
Lemma rtrim_snoc f q d : rtrim f (q ++ [d]) = if f d then rtrim f q else q ++ [d].
Proof. unfold rtrim. rewrite reverse_snoc. cbn [drop_while]. destruct (f d); [done|]. by rewrite reverse_cons, reverse_involutive. Qed.
Lemma trim_right_spec s cset str p c q r fuel : rep s str → str = p ++ (c :: q) ++ r → in_cset cset c = false → (length q ≤ fuel)%nat →
  trim_right fuel s cset (zlen p) (zlen (p ++ c :: q) - 1) = Some (zlen p + zlen (rtrim (in_cset cset) (c :: q)) - 1).
Proof.
  intros Hr. revert q r. induction fuel as [|fuel IH]; intros q r E Hc Hf; cbn [trim_right]; destruct q as [|d q _] using rev_ind.
  1, 3: destruct (Z.gtb_spec (zlen (p ++ [c]) - 1) (zlen p)); [llia|]; change [c] with ([] ++ [c]) at 2; rewrite rtrim_snoc, Hc; f_equal; llia.
  - rewrite length_app in Hf. cbn in Hf. lia.
  - destruct (Z.gtb_spec (zlen (p ++ c :: q ++ [d]) - 1) (zlen p)) as [_|]; [|llia]. rewrite length_app in Hf. cbn [length] in Hf. assert (E' : str = (p ++ c :: q) ++ d :: r) by (rewrite E; cbn [app]; by rewrite <- !app_assoc). pose proof Hr as Hr'. rewrite E' in Hr'. replace (zlen (p ++ c :: q ++ [d]) - 1) with (zlen (p ++ c :: q)) by llia. rewrite (sds_rep_get _ _ _ _ Hr'). cbn [mbind option_bind].
    rewrite app_comm_cons, rtrim_snoc. destruct (in_cset cset d); [|f_equal; llia]. apply (IH q (d :: r)); [rewrite E'; by rewrite <- !app_assoc|done|lia].
Qed.
Lemma drop_while_spec f l : ∃ p, l = p ++ drop_while f l ∧ match drop_while f l with [] => True | c :: _ => f c = false end.
Proof. induction l as [|c l (p & E & IH)]; [by exists []|]. cbn [drop_while]. destruct (f c) eqn:Ef; [|by exists []]. exists (c :: p). split; [by rewrite E at 1|done]. Qed.
Lemma trim_spec s str cset : rep s str → ∃ s', sdstrim s cset = Some s' ∧ rep s' (trim cset str).
Proof.
  intros Hr. unfold sdstrim, trim. rewrite (rep_len _ _ Hr). cbn [mbind option_bind]. rewrite (trim_left_spec s cset str [] str) by (done || lia). cbn [mbind option_bind]. destruct (drop_while_spec (in_cset cset) str) as (p & E & Hhd). set (q := drop_while _ str) in *. replace (zlen str - zlen q) with (zlen p) by (rewrite E; llia).
  assert (∃ b c, q = b ++ c ∧ b = rtrim (in_cset cset) q ∧ trim_right (Z.to_nat (zlen str)) s cset (zlen p) (zlen str - 1) = Some (zlen p + zlen b - 1)) as (b & c & Eq & Eb & ->).
  { destruct q as [|c q'] eqn:Eqq; [exists [], []; split_and!; [done|done|]; rewrite app_nil_r in E; rewrite E, Nat2Z.id; destruct (length p); cbn [trim_right]; zcase; try lia; f_equal; cbn [length]; lia|].
    pose proof (trim_right_spec s cset str p c q' [] (Z.to_nat (zlen str)) Hr) as Ht. rewrite E, app_nil_r in Ht. rewrite E, Ht by (done || llia). assert (∃ c', c :: q' = rtrim (in_cset cset) (c :: q') ++ c') as [c' Ec]; [|by eexists _, c'].
    unfold rtrim. destruct (drop_while_spec (in_cset cset) (reverse (c :: q'))) as (pp & Ep & _). exists (reverse pp). rewrite <- reverse_app, <- Ep. by rewrite reverse_involutive. }
  cbn [mbind option_bind]. replace (zlen p + zlen b - 1 - zlen p + 1) with (zlen b) by lia. rewrite Eq in E. rewrite E in Hr. rewrite <- Eb. destruct (Z.eqb_spec (zlen p) 0) as [E0|]; [apply (sds_cut_spec s p b c false Hr); left; by destruct p|by apply (sds_cut_spec s p b c true Hr)].
Qed.

(** ** Characters and lengths *)

Lemma rep_put s p c r d : rep s (p ++ c :: r) → ∃ s', write_at s (zlen p) [d] = Some s' ∧ rep s' (p ++ d :: r).
Proof.
  intros (t & a & rest & Hr). destruct (put_spec _ _ _ _ _ Hr (zlen p) [d] p [c] (r ++ 0 :: rest)) as (s' & E & H'); [by rewrite <- app_assoc|done|done|]. exists s'. split; [done|]. exists t, a, rest. rewrite <- app_assoc. assert (zlen (p ++ d :: r) = zlen (p ++ c :: r)) as -> by llia. exact H'.
Qed.
Lemma map_spec f s p q : rep s (p ++ q) → ∃ s', map_loop (length q) s f (zlen p) = Some s' ∧ rep s' (p ++ (f <$> q)).
Proof.
  revert s p. induction q as [|c q IH]; intros s p Hr; cbn [length map_loop]; [by exists s|]. rewrite (sds_rep_get _ _ _ _ Hr). cbn [mbind option_bind]. destruct (rep_put _ _ _ _ (f c) Hr) as (s1 & -> & H1). cbn [mbind option_bind]. change (p ++ f c :: q) with (p ++ [f c] ++ q) in H1. rewrite app_assoc in H1. destruct (IH s1 (p ++ [f c]) H1) as (s2 & E2 & H2). exists s2. rewrite <- app_assoc in H2. replace (zlen p + 1) with (zlen (p ++ [f c])) by llia. done.
Qed.
Lemma incr_eq s t len a pay k : raw s t len a pay → 0 ≤ len + k ≤ a → k ≠ 0 ∨ t ≠ SDS_TYPE_5 → sdsIncrLen s k = (s ← sdssetlen s (len + k); write_at s (len + k) [0]).
Proof.
  intros Hr Hk Hne. pose proof (raw_type _ _ _ _ _ Hr) as Ht. pose proof Hr as [_ Hl Hm _ H5]. unfold sdsIncrLen, sdssetlen. rewrite (flags_spec _ _ _ _ _ Hr). cbn [mbind option_bind]. rewrite flag_type by done. destruct (type_facts t Ht) as (_ & -> & _ & _ & _ & Ef & Hm64 & Emx). unfold flag_byte. destruct (Z.eqb_spec t SDS_TYPE_5) as [E5|Hn5].
  - specialize (H5 E5). assert (k < 0) by (destruct Hne; [lia|done]). rewrite flag_len, wrapu_small by (rewrite E5 in Hm; change (sdsTypeMaxSize SDS_TYPE_5) with 31 in Hm; lia). unfold assert. destruct (Z.gtb_spec k 0); [lia|]. destruct (Z.ltb_spec k 0); [|lia]. destruct (Z.geb_spec len (- k)); [|lia]. cbn [andb orb mbind option_bind]. by destruct (set_sds_flags _ _).
  - destruct (hdr_fields _ _ _ _ _ Hr Hn5) as [-> ->]. cbn [mbind option_bind]. specialize (Emx Hn5). rewrite Emx in Hm. rewrite <- Ef, (wrapu_small (8 * Z.of_nat (width t)) (len + k)) by lia. unfold assert. replace (_ || _) with true; [cbn [mbind option_bind]; by destruct (set_hdr_len _ _ _)|]. symmetry.
    assert (H32 : t ≠ SDS_TYPE_64 → a < 2 ^ 32) by (intros Hn64; pose proof (max_mono t 3) as Hmo; change (sdsTypeMaxSize 3) with (2 ^ 32 - 1) in Hmo; unfold SDS_TYPE_64 in Hn64; lia). assert (a < 2 ^ 64) by lia. destruct (Z.geb_spec k 0), (Z.ltb_spec k 0); try lia; cbn [andb orb]; rewrite ?orb_false_r; destruct (Z.eqb_spec t SDS_TYPE_64) as [|H64]; try specialize (H32 H64); try destruct (Z.eqb_spec t SDS_TYPE_32); rewrite ?wrapu_small by lia; apply Z.geb_le; lia.
Qed.
Lemma sds_incr_spec s t a str bs w y : raw s t (zlen str) a (str ++ bs ++ w :: y) → bs ≠ [] → zlen str + zlen bs ≤ a → ∃ s', sdsIncrLen s (zlen bs) = Some s' ∧ rep s' (str ++ bs).
Proof.
  intros Hr Hne Ha. assert (0 < zlen bs) by (destruct bs; [done|cbn [length]; lia]). rewrite (incr_eq _ _ _ _ _ _ Hr) by lia. rewrite app_assoc in Hr. assert (zlen str + zlen bs = zlen (str ++ bs)) as -> by llia. eapply end_len_zero; [exact Hr|llia].
Qed.
Lemma decr_spec s str n : rep s str → 0 < n ≤ zlen str → ∃ s', sdsIncrLen s (- n) = Some s' ∧ rep s' (take (Z.to_nat (zlen str - n)) str).
Proof.
  intros (t & a & rest & Hr) Hn. pose proof (raw_len _ _ _ _ _ Hr). rewrite (incr_eq _ _ _ _ _ _ Hr) by lia. set (x := take _ str). assert (Hx : zlen str + - n = zlen x) by (unfold x; llia). destruct (split_cons (str ++ 0 :: rest) (zlen x)) as (x' & w & y & E & Hx'); [llia|]. assert (x' = x) as -> by (unfold x; rewrite <- (take_app_le str (0 :: rest)) by lia; rewrite E, take_app_length'; [done|lia]). rewrite E in Hr. rewrite Hx. eapply end_len_zero; [exact Hr|lia].
Qed.

(** ** Programs *)

Context (USE_JEMALLOC : bool).
(** [Write] is the way to read into a string that the comment of [sdsIncrLen]
    shows. *)
Inductive command :=
  | Cat (bs : list Z) | Cpy (bs : list Z) | GrowZero (n : Z) | Clear | SubStr (start len : Z) | Range (start end_ : Z) | Trim (cset : list Z)
  | MakeRoom (n : Z) (greedy : bool) | Resize (n : Z) (would_regrow : bool) | RemoveFreeSpace (would_regrow : bool)
  | Write (bs : list Z) | RTrim (n : Z) | ToLower | ToUpper | MapChars (from_to : list (Z * Z)) | UpdateLen | Dup.
Definition exec (s : sds_t) (c : command) : option sds_t :=
  match c with
  | Cat bs => sdscatlen s bs (zlen bs)
  | Cpy bs => sdscpylen s bs (zlen bs)
  | GrowZero n => sdsgrowzero s n
  | Clear => sdsclear s
  | SubStr start len => sdssubstr s start len
  | Range start end_ => sdsrange s start end_
  | Trim cset => sdstrim s cset
  | MakeRoom n greedy => s ← _sdsMakeRoomFor s n greedy; avail ← sdsavail s; _ ← assert (avail >=? n); Some s
  | Resize n would_regrow => sdsResize USE_JEMALLOC s n would_regrow
  | RemoveFreeSpace would_regrow => sdsRemoveFreeSpace USE_JEMALLOC s would_regrow
  | Write bs => len ← sdslen s; s ← sdsMakeRoomFor s (zlen bs); s ← write_at s len bs; sdsIncrLen s (zlen bs)
  | RTrim n => sdsIncrLen s (- n)
  | ToLower => sdstolower s
  | ToUpper => sdstoupper s
  | MapChars from_to => sdsmapchars s from_to
  | UpdateLen => sdsupdatelen s
  | Dup => sdsdup s
  end.
(** After each command the length and the bytes are read. *)
Definition read (s : sds_t) : option (list Z) := len ← sdslen s; load (s_blk s) (s_off s) len.
Fixpoint exec_all (s : sds_t) (cs : list command) : option (sds_t * list (list Z)) :=
  match cs with
  | [] => Some (s, [])
  | c :: cs => s ← exec s c; a ← read s; '(s, l) ← exec_all s cs; Some (s, a :: l)
  end.
Definition program (bs : list Z) (cs : list command) : option (sds_t * list (list Z)) := s ← sdsnewlen (Init bs) (zlen bs); exec_all s cs.

(** The same on lists of bytes; [None] where the command is out of its contract. *)
Definition when (b : bool) (str : list Z) : option (list Z) := if b then Some str else None.
Definition spec_exec (str : list Z) (c : command) : option (list Z) :=
  match c with
  | Cat bs => when (zlen str + zlen bs <=? MAX) (str ++ bs)
  | Cpy bs => when (zlen bs <=? MAX) bs
  | GrowZero n => when (n <=? MAX) (str ++ replicate (Z.to_nat (n - zlen str)) 0)
  | Clear => Some []
  | SubStr start len => when ((0 <=? start) && (0 <=? len)) (substr str start len)
  | Range start end_ => when ((- MAX <=? start) && (start <? MAX) && (- MAX <=? end_) && (end_ <? MAX)) (range str start end_)
  | Trim cset => Some (trim cset str)
  | MakeRoom n _ => when ((0 <=? n) && (zlen str + n <=? MAX)) str
  | Resize n _ => when ((0 <=? n) && (if USE_JEMALLOC then n <=? zlen str else n <=? MAX)) (take (Z.to_nat n) str)
  | RemoveFreeSpace _ => Some str
  | Write bs => when (negb (zlen bs =? 0) && (zlen str + zlen bs <=? MAX)) (str ++ bs)
  | RTrim n => when ((0 <? n) && (n <=? zlen str)) (take (Z.to_nat (zlen str - n)) str)
  | ToLower => Some (tolower <$> str)
  | ToUpper => Some (toupper <$> str)
  | MapChars from_to => Some (map_char from_to <$> str)
  | UpdateLen => Some (until_zero str)
  | Dup => Some str
  end.
Fixpoint spec_all (str : list Z) (cs : list command) : option (list Z * list (list Z)) :=
  match cs with
  | [] => Some (str, [])
  | c :: cs => str ← spec_exec str c; '(str', l) ← spec_all str cs; Some (str', str :: l)
  end.
Definition spec_program (bs : list Z) (cs : list command) : option (list Z * list (list Z)) := bs ← when (zlen bs <=? MAX) bs; spec_all bs cs.

Lemma load_self (l : list Z) : load l 0 (zlen l) = Some l.
Proof. rewrite <- (app_nil_r l) at 1. by apply load_head. Qed.
Lemma map_ok f s str : rep s str → ∃ s', (len ← sdslen s; map_loop (Z.to_nat len) s f 0) = Some s' ∧ rep s' (f <$> str).
Proof. intros Hr. rewrite (rep_len _ _ Hr). cbn [mbind option_bind]. rewrite Nat2Z.id. apply (map_spec f s []). done. Qed.
Lemma shrink_ok s str n regrow : rep s str → zlen str ≤ MAX → 0 ≤ n → (if USE_JEMALLOC then n ≤ zlen str else n ≤ MAX) → ∃ s', sdsResize USE_JEMALLOC s n regrow = Some s' ∧ rep s' (take (Z.to_nat n) str).
Proof.
  intros Hr Hmax Hn Hs. apply sds_resize_spec; [done|destruct USE_JEMALLOC; lia|]. unfold resize_safe. destruct USE_JEMALLOC; [|done]. destruct Hr as (t & a & rest & Hr). rewrite (sdsalloc_spec _ _ _ _ _ Hr), (flags_spec _ _ _ _ _ Hr). pose proof (raw_len _ _ _ _ _ Hr). cbn [negb orb]. destruct (Z.leb_spec n a); [done|lia].
Qed.
Lemma write_ok s str bs : rep s str → bs ≠ [] → zlen str + zlen bs ≤ MAX → ∃ s', exec s (Write bs) = Some s' ∧ rep s' (str ++ bs).
Proof.
  intros Hr Hne Hmax. cbn [exec]. rewrite (rep_len _ _ Hr). cbn [mbind option_bind]. unfold sdsMakeRoomFor. destruct (room_spec s str (zlen bs) true Hr) as (s1 & t1 & a1 & rest & -> & H1 & Ha); [lia|done|]. cbn [mbind option_bind].
  pose proof (raw_room _ _ _ _ _ H1) as Hroom. destruct (split_cons (0 :: rest) (zlen bs)) as (old & w & y & Eold & Hold); [llia|]. rewrite Eold in *. destruct (put_spec _ _ _ _ _ H1 (zlen str) bs str old (w :: y)) as (s2 & -> & H2); [done|done|lia|]. cbn [mbind option_bind]. by eapply sds_incr_spec.
Qed.
Lemma until_zero_le l : (length (until_zero l) ≤ length l)%nat.
Proof. induction l as [|c l IH]; cbn; [lia|]. destruct (c =? 0); cbn; lia. Qed.
Lemma trim_le cset l : (length (trim cset l) ≤ length l)%nat.
Proof.
  assert (Hd : ∀ f l, (length (drop_while f l) ≤ length l)%nat) by (intros f; induction l0 as [|c l0 IH]; cbn; [lia|]; destruct (f c); cbn; lia). unfold trim, rtrim. rewrite length_reverse. etransitivity; [apply Hd|]. rewrite length_reverse. apply Hd.
Qed.
Lemma substr_le str a b : (length (substr str a b) ≤ length str)%nat.
Proof. unfold substr. destruct (_ >=? _); cbn; [lia|]. llia. Qed.
Lemma when_Some b str str' : when b str = Some str' → b = true ∧ str = str'.
Proof. unfold when. destruct b; [|done]. by intros [= ->]. Qed.

Lemma exec_spec s str c str' : rep s str → zlen str ≤ MAX → spec_exec str c = Some str' → ∃ s', exec s c = Some s' ∧ rep s' str' ∧ zlen str' ≤ MAX.
Proof.
  intros Hr Hmax E. destruct c; cbn [spec_exec] in E; try (apply when_Some in E as [Hw <-]); try (injection E as <-).
  - destruct (catlen_spec s str bs (zlen bs) bs Hr (load_self bs)) as (s' & ? & ?); [lia|]. exists s'. split_and!; [done|done|llia].
  - destruct (cpylen_spec s str bs (zlen bs) bs Hr (load_self bs)) as (s' & ? & ?); [lia|]. exists s'. split_and!; [done|done|lia].
  - destruct (growzero_spec s str n Hr) as (s' & ? & ?); [lia|]. exists s'. split_and!; [done|done|llia].
  - destruct (clear_spec s str Hr) as (s' & ? & ?). exists s'. split_and!; [done|done|done].
  - destruct (substr_spec s str start len Hr) as (s' & ? & ?); [lia|lia|]. exists s'. split_and!; [done|done|]. pose proof (substr_le str start len). lia.
  - destruct (range_spec s str start end_ Hr Hmax) as (s' & ? & ?); [lia|lia|]. exists s'. split_and!; [done|done|]. unfold range. destruct (_ || _); [done|]. match goal with |- context [substr str ?a ?b] => pose proof (substr_le str a b) end. lia.
  - destruct (trim_spec s str cset Hr) as (s' & ? & ?). exists s'. split_and!; [done|done|]. pose proof (trim_le cset str). lia.
  - destruct (makeroom_ok s str n greedy Hr) as (s' & av & E & H' & Ea & Hav); [lia|lia|]. exists s'. cbn [exec]. rewrite E. cbn [mbind option_bind]. rewrite Ea. cbn [mbind option_bind]. unfold assert. destruct (Z.geb_spec av n); [|lia]. done.
  - destruct (shrink_ok s str n would_regrow Hr Hmax) as (s' & ? & ?); [lia|destruct USE_JEMALLOC; lia|]. exists s'. split_and!; [done|done|llia].
  - cbn [exec]. unfold sdsRemoveFreeSpace. rewrite (rep_len _ _ Hr). cbn [mbind option_bind]. destruct (shrink_ok s str (zlen str) would_regrow Hr Hmax) as (s' & E & H'); [lia|destruct USE_JEMALLOC; lia|]. exists s'. rewrite take_ge in H' by lia. done.
  - destruct (write_ok s str bs Hr) as (s' & ? & ?); [by intros ->|lia|]. exists s'. split_and!; [done|done|llia].
  - destruct (decr_spec s str n Hr) as (s' & ? & ?); [lia|]. exists s'. split_and!; [done|done|llia].
  - destruct (map_ok tolower s str Hr) as (s' & ? & ?). exists s'. split_and!; [done|done|llia].
  - destruct (map_ok toupper s str Hr) as (s' & ? & ?). exists s'. split_and!; [done|done|llia].
  - destruct (map_ok (map_char from_to) s str Hr) as (s' & ? & ?). exists s'. split_and!; [done|done|llia].
  - destruct (updatelen_spec s str Hr) as (s' & ? & ?). exists s'. split_and!; [done|done|]. pose proof (until_zero_le str). lia.
  - destruct (sds_dup_spec s str Hr Hmax) as (s' & ? & ?). by exists s'.
Qed.
Lemma read_spec s str : rep s str → read s = Some str.
Proof.
  intros Hr. unfold read. rewrite (rep_len _ _ Hr). cbn [mbind option_bind]. destruct Hr as (t & a & rest & [[Ht Eo Eb HL HA] _ _ _ _]). destruct (type_facts t Ht) as (_ & _ & _ & _ & Eh & _). rewrite Eb, Eo, (app_assoc (le_bytes _ a)), (app_assoc (le_bytes _ (zlen str))), load_app by llia. done.
Qed.
Lemma exec_all_spec cs : ∀ s str str' l, rep s str → zlen str ≤ MAX → spec_all str cs = Some (str', l) → ∃ s', exec_all s cs = Some (s', l) ∧ rep s' str'.
Proof.
  induction cs as [|c cs IH]; intros s str str' l Hr Hmax E; cbn [spec_all exec_all] in *; [injection E as <- <-; by exists s|]. apply bind_Some in E as (str1 & E1 & E). apply bind_Some in E as ([str2 l2] & E2 & [= <- <-]). destruct (exec_spec s str c str1 Hr Hmax E1) as (s1 & -> & H1 & Hm1). cbn [mbind option_bind]. rewrite (read_spec _ _ H1). cbn [mbind option_bind].
  destruct (IH s1 str1 str2 l2 H1 Hm1 E2) as (s2 & -> & H2). by exists s2.
Qed.

(** C24: programs over a dynamic string.  From [sdsnewlen] on, any sequence of
    appending, copying, cutting, growing and shrinking, as long as lengths stay
    below 2^62, keeps the bytes of the block a valid header, the string and its
    terminator, whatever sizes the allocator gives; no access leaves the block, no
    assertion fails, what is read after each command is what the same commands
    make of a list of bytes, and room that was asked for is there. *)
Theorem sds_run_refines bs cs str l :
  spec_program bs cs = Some (str, l) → ∃ s, program bs cs = Some (s, l) ∧ rep s str.
Proof.
  intros (bs' & [Hb%Z.leb_le <-]%when_Some & E)%bind_Some. unfold program. destruct (new_spec bs (zlen bs) bs (load_self bs) Hb) as (s & -> & Hr). cbn [mbind option_bind]. by eapply exec_all_spec.
Qed.

(** ** Growing with jemalloc *)

Lemma type8 s str : rep s str → flags s = Some SDS_TYPE_8 → ∃ a rest, raw s SDS_TYPE_8 (zlen str) a (str ++ 0 :: rest).
Proof.
  intros (t & a & rest & Hr) E. rewrite (flags_spec _ _ _ _ _ Hr) in E. injection E as E. assert (t = SDS_TYPE_8) as -> by (unfold flag_byte in E; destruct (Z.eqb_spec t SDS_TYPE_5); unfold SDS_TYPE_8 in *; [lia|done]). by exists a, rest.
Qed.
(** The capacity is written into 8 bits. *)
Lemma resize_truncates s str size regrow : rep s str → flags s = Some SDS_TYPE_8 → 256 ≤ size < 2 ^ 16 → Z.of_nat (usable (Z.to_nat (5 + size + 1))) = zlen (s_blk s) →
  ∃ s' rest, sdsResize true s size regrow = Some s' ∧ shape s' SDS_TYPE_8 [zlen str] [size mod 256] SDS_TYPE_8 (str ++ 0 :: rest) ∧ zlen (s_blk s') = zlen (s_blk s) ∧ zlen str < 256.
Proof.
  intros Hrep Hf Hsz Hus. destruct (type8 s str Hrep Hf) as (a & rest & Hr). unfold sdsResize. rewrite Hf. cbn [mbind option_bind]. change (Z.land SDS_TYPE_8 SDS_TYPE_MASK) with SDS_TYPE_8. rewrite (sdslen_spec _ _ _ _ _ Hr), (sdsalloc_spec _ _ _ _ _ Hr). cbn [mbind option_bind]. pose proof Hr as [Hs Hl Hm _ _]. change (sdsTypeMaxSize SDS_TYPE_8) with 255 in Hm. destruct (Z.eqb_spec a size); [lia|]. destruct (Z.ltb_spec size (zlen str)); [lia|].
  assert (sdsReqType size = SDS_TYPE_16) as -> by (unfold sdsReqType; rewrite !Z.shiftl_mul_pow2 by lia; zcase; try lia; done). change (SDS_TYPE_16 =? SDS_TYPE_5) with false. rewrite andb_false_r. change (sdsHdrSize SDS_TYPE_16) with 5. change ((SDS_TYPE_8 =? SDS_TYPE_16) || ((SDS_TYPE_16 <? SDS_TYPE_8) && (SDS_TYPE_16 >? SDS_TYPE_8))) with false. cbn [andb]. rewrite (wrapu_small 64 (5 + size + 1)), Hus, Z.eqb_refl by lia. cbn [negb mbind option_bind].
  destruct (shape_put _ _ _ _ _ _ Hs (zlen str) [0] str [0] rest) as (s1 & -> & H1); [done..|]. cbn [mbind option_bind]. destruct (shape_setlen _ _ _ _ _ _ H1 (zlen str)) as (s2 & -> & H2); [done|change (sdsTypeMaxSize SDS_TYPE_8) with 255; lia|done|]. cbn [mbind option_bind]. destruct (shape_setalloc _ _ _ _ _ _ H2 size) as (s3 & -> & H3); [done|]. exists s3, rest. change (width SDS_TYPE_8) with 1%nat in H3. change (flag_byte SDS_TYPE_8 (zlen str)) with SDS_TYPE_8 in H3. cbn [le_bytes] in H3. rewrite (Z.mod_small (zlen str)) in H3 by lia.
  split_and!; [done|exact H3| |lia]. destruct H3 as [_ _ -> _ _], Hs as [_ _ -> Hla Hlb]. change (width SDS_TYPE_8) with 1%nat in *. llia.
Qed.
(** C9: heap overflow in [sdsResize] with jemalloc.  A string with an 8-bit header
    grows to a size that needs a wider header but not a larger block.  The block is
    left as it is and the new capacity is truncated to 8 bits.  When that is less
    than the length, the string still reads as before but claims almost 2^64 bytes
    of free space, and appending more than the block can hold writes behind its end. *)
Theorem sds_resize_overflow s str size regrow bs :
  rep s str → flags s = Some SDS_TYPE_8 → 256 ≤ size < 2 ^ 16 → size mod 256 < zlen str →
  Z.of_nat (usable (Z.to_nat (5 + size + 1))) = zlen (s_blk s) → zlen (s_blk s) < 3 + zlen str + zlen bs ≤ 2 ^ 62 →
  ∃ s', sdsResize true s size regrow = Some s' ∧ read s' = Some str ∧ sdsavail s' = Some (2 ^ 64 + size mod 256 - zlen str) ∧ sdscatlen s' bs (zlen bs) = None.
Proof.
  intros Hr Hf Hsz Hlt Hus Hbs. destruct (resize_truncates s str size regrow Hr Hf Hsz Hus) as (s' & rest & E & Hs & Hlen & Hl). exists s'. pose proof Hs as [_ Eo Eb _ _]. change (sdsHdrSize SDS_TYPE_8) with 3 in Eo. split; [done|].
  assert (Hlen' : hdr_len SDS_TYPE_8 s' = Some (zlen str)) by (unfold hdr_len; rewrite Eo, Eb; change (3 - sdsHdrSize SDS_TYPE_8) with 0; rewrite load_head by done; cbn; f_equal; lia).
  assert (Hal : hdr_alloc SDS_TYPE_8 s' = Some (size mod 256)) by (unfold hdr_alloc; rewrite Eo, Eb; change (3 - sdsHdrSize SDS_TYPE_8 + field_size SDS_TYPE_8) with 1; rewrite load_app by done; cbn [mbind option_bind le_val]; f_equal; lia).
  assert (El : sdslen s' = Some (zlen str)) by (unfold sdslen; by rewrite (shape_flags _ _ _ _ _ _ Hs)). assert (Ea : sdsavail s' = Some (2 ^ 64 + size mod 256 - zlen str)).
  { unfold sdsavail. rewrite (shape_flags _ _ _ _ _ _ Hs). cbn [mbind option_bind]. change (Z.land SDS_TYPE_8 SDS_TYPE_MASK) with SDS_TYPE_8. change ((SDS_TYPE_8 =? SDS_TYPE_5) || (SDS_TYPE_8 >? SDS_TYPE_64)) with false. cbn match. rewrite Hal. cbn [mbind option_bind]. rewrite Hlen'. cbn [mbind option_bind]. f_equal. change (SDS_TYPE_8 =? SDS_TYPE_32) with false. cbn match.
    pose proof (Z.mod_pos_bound size 256). unfold wrapu. rewrite <- (Z.mod_add _ 1), Z.mod_small by lia. lia. }
  split_and!; [unfold read; rewrite El, Eo, Eb; cbn [mbind option_bind]; apply (load_app ([zlen str] ++ [size mod 256] ++ [SDS_TYPE_8])); done|done|]. unfold sdscatlen, sdsMakeRoomFor, _sdsMakeRoomFor. rewrite El. cbn [mbind option_bind]. rewrite Ea, (shape_flags _ _ _ _ _ _ Hs). cbn [mbind option_bind]. pose proof (Z.mod_pos_bound size 256). destruct (Z.geb_spec (2 ^ 64 + size mod 256 - zlen str) (zlen bs)); [|lia]. cbn [mbind option_bind]. rewrite load_self. cbn [mbind option_bind].
  unfold write_at, store. rewrite decide_False by (rewrite Eo; lia). done.
Qed.
End run.

(** The size classes of jemalloc: multiples of 16 up to 128, then four in each
    power of two. *)
Definition je_class (n : Z) : Z :=
  if n <=? 8 then 8 else if n <=? 128 then (n + 15) / 16 * 16 else let d := 2 ^ (Z.log2 (n - 1) - 2) in (n + d - 1) / d * d.
Lemma je_class_ge n : 0 ≤ n → n ≤ je_class n.
Proof.
  intros Hn. unfold je_class. zcase; [lia|dlia|]. set (d := 2 ^ _). assert (0 < d) by (apply Z.pow_pos_nonneg; [lia|]; assert (7 ≤ Z.log2 (n - 1)) by (change 7 with (Z.log2 128); apply Z.log2_le_mono; lia); lia). pose proof (Z.div_mod (n + d - 1) d). pose proof (Z.mod_pos_bound (n + d - 1) d). nia.
Qed.
Definition jemalloc : Allocator.
Proof. refine {| usable n := Z.to_nat (je_class (Z.of_nat n)); junk := λ i, Z.of_nat i mod 256 |}. abstract (intros n; pose proof (je_class_ge (Z.of_nat n)); lia). Defined.

(** Without [would_regrow] the smaller header of type 5 is counted, but the old one
    stays: the capacity of 30 does not fit behind it in a block of 32. *)
Example resize_type5_overflow :
  let s := s ← sdsempty (Al := jemalloc); sdsMakeRoomForNonGreedy (Al := jemalloc) s 28 in
  (s ← s; s ← sdsResize (Al := jemalloc) true s 30 false; sdsalloc s) = Some 30 ∧
  (s ← s; s ← sdsResize (Al := jemalloc) true s 30 false; sdscatlen (Al := jemalloc) s (replicate 30 97) 30) = None.
Proof. by vm_compute. Qed.
(** An increment of 0 is refused by type 5 only. *)
Example incr_zero_aborts :
  (s ← sdsnewlen (Al := jemalloc) (Init [97]) 1; sdsIncrLen s 0) = None ∧ (s ← sdsnewlen (Al := jemalloc) (Init (replicate 40 97)) 40; sdsIncrLen s 0 ≫= read) = Some (replicate 40 97).
Proof. by vm_compute. Qed.
(** Zero bytes are trimmed whatever the set is. *)
Example trim_zero : (s ← sdsnewlen (Al := jemalloc) (Init [0; 97; 0]) 3; sdstrim s [120] ≫= read) = Some [97].
Proof. by vm_compute. Qed.

Definition ex_commands : list command :=
  [Cat (replicate 40 66); MakeRoom 300 true; Write [104; 105; 0; 106]; Range 38 (-1); Trim [66]; Cat [32; 32]; Trim [32]; ToUpper; MapChars [(72, 74); (74, 72)]; Resize 3 false; Dup; UpdateLen; GrowZero 300; RTrim 295; RemoveFreeSpace false; Cpy [1; 2; 3]; SubStr 1 9; Clear].
Lemma sds_run_witness :
  ∃ s, program (Al := jemalloc) true [97; 98] ex_commands = Some (s,
    [[97; 98] ++ replicate 40 66; [97; 98] ++ replicate 40 66; [97; 98] ++ replicate 40 66 ++ [104; 105; 0; 106]; replicate 4 66 ++ [104; 105; 0; 106]; [104; 105; 0; 106]; [104; 105; 0; 106; 32; 32]; [104; 105; 0; 106]; [72; 73; 0; 74]; [74; 73; 0; 72];
     [74; 73; 0]; [74; 73; 0]; [74; 73]; [74; 73] ++ replicate 298 0; [74; 73; 0; 0; 0]; [74; 73; 0; 0; 0]; [1; 2; 3]; [2; 3]; []]) ∧ rep s [].
Proof. apply (sds_run_refines (Al := jemalloc) true). vm_compute. reflexivity. Defined.

(** 255 bytes are in a block of 320, as 280 would be. *)
Definition ex_long : sds_t := default (Sds [] 0) (sdsnewlen (Al := jemalloc) (Init (replicate 255 97)) 255).
Lemma sds_resize_overflow_witness :
  ∃ s, sdsResize (Al := jemalloc) true ex_long 280 true = Some s ∧ read s = Some (replicate 255 97) ∧ sdsavail s = Some (2 ^ 64 - 231) ∧ sdscatlen (Al := jemalloc) s (replicate 100 98) 100 = None.
Proof.
  apply (sds_resize_overflow (Al := jemalloc) ex_long (replicate 255 97) 280 true (replicate 100 98)); [|vm_compute; reflexivity|lia|done|vm_compute; reflexivity|split; [vm_compute; reflexivity|vm_compute; discriminate]].
  destruct (new_spec (Al := jemalloc) (replicate 255 97) 255 (replicate 255 97)) as (s & E & Hr); [vm_compute; reflexivity|vm_compute; discriminate|]. unfold ex_long. by rewrite E.
Defined.
End SdsRun.
