(* ===== verification/SdsText.v ===== *)
(** * sds.c: quoting, splitting and joining

    [sdscatrepr] and [sdssplitargs], which redis-cli and the configuration file
    use to write and read arguments, [sdssplitlen] and [sdsjoinsds].  A pointer
    into a text is the rest of the text from there; characters are those of the C
    locale. *)

From S2P Require Import Prelude Sds SdsOk SdsRun.
Import Sds SdsOk SdsRun.

Module SdsText.

Definition isprint (c : Z) : bool := (32 <=? c) && (c <=? 126).
Definition isspace (c : Z) : bool := (c =? 32) || ((9 <=? c) && (c <=? 13)).
Definition is_hex_digit (c : Z) : bool := ((48 <=? c) && (c <=? 57)) || ((97 <=? c) && (c <=? 102)) || ((65 <=? c) && (c <=? 70)).
Definition hex_digit_to_int (c : Z) : Z :=
  if (48 <=? c) && (c <=? 57) then c - 48 else if (97 <=? c) && (c <=? 102) then c - 87 else if (65 <=? c) && (c <=? 70) then c - 55 else 0.
(** A digit of printf's [%x]. *)
Definition hex_char (d : Z) : Z := if d <? 10 then 48 + d else 87 + d.

Section text.
Context `{Al : Allocator}.
Implicit Type (s : sds_t).

(** ** Writing *)

(** The text for one character; sdscatprintf appends what vsnprintf makes of
    ["\\%c"] and ["\\x%02x"]. *)
Definition repr_char (c : Z) : list Z :=
  if (c =? 92) || (c =? 34) then [92; c]
  else if c =? 10 then [92; 110]
  else if c =? 13 then [92; 114]
  else if c =? 9 then [92; 116]
  else if c =? 7 then [92; 97]
  else if c =? 8 then [92; 98]
  else if isprint c then [c]
  else [92; 120; hex_char (Z.shiftr c 4); hex_char (Z.land c 15)].
Fixpoint repr_loop s (p : list Z) : option sds_t :=
  match p with [] => Some s | c :: p => s ← sdscatlen s (repr_char c) (zlen (repr_char c)); repr_loop s p end.
Definition sdscatrepr s (p : list Z) (len : Z) : option sds_t :=
  s ← sdsMakeRoomFor s (u64 (len + 2));
  s ← sdscatlen s [34] 1;
  bs ← load p 0 len;
  s ← repr_loop s bs;
  sdscatlen s [34] 1.
Definition needs_repr (c : Z) : bool :=
  (c =? 92) || (c =? 34) || (c =? 10) || (c =? 13) || (c =? 9) || (c =? 7) || (c =? 8) || negb (isprint c) || isspace c.
Fixpoint needs_loop (p : list Z) : bool := match p with [] => false | c :: p => if needs_repr c then true else needs_loop p end.
Definition sdsneedsrepr s : option bool := len ← sdslen s; bs ← load (s_blk s) (s_off s) len; Some (needs_loop bs).

(** ** Reading *)

Definition deref (p : list Z) : option Z := head p.
Fixpoint skip_blanks (p : list Z) : option (list Z) :=
  match p with [] => None | c :: q => if negb (c =? 0) && isspace c then skip_blanks q else Some p end.
(** [\xHH] at [p], without reading behind what does not match. *)
Definition hex_escape (p : list Z) : option (option Z) :=
  c ← deref p;
  if negb (c =? 92) then Some None
  else
    c1 ← deref (drop 1 p);
    if negb (c1 =? 120) then Some None
    else
      c2 ← deref (drop 2 p);
      if negb (is_hex_digit c2) then Some None
      else c3 ← deref (drop 3 p); if negb (is_hex_digit c3) then Some None else Some (Some (hex_digit_to_int c2 * 16 + hex_digit_to_int c3)).
Definition unescape (c : Z) : Z :=
  if c =? 110 then 10 else if c =? 114 then 13 else if c =? 116 then 9 else if c =? 98 then 8 else if c =? 97 then 7 else c.
(** One turn of the loop: the pointer, the token, the flags [inq], [insq] and
    [done]; [None] inside is [goto err]. *)
Definition turn : Type := option (list Z * sds_t * bool * bool * bool).
Definition append (p : list Z) (current : sds_t) (c : Z) (inq insq : bool) : option turn := current ← sdscatlen current [c] 1; Some (Some (p, current, inq, insq, false)).
Definition close_quote (p : list Z) (current : sds_t) (inq insq : bool) : option turn :=
  n ← deref (drop 1 p); if negb (n =? 0) && negb (isspace n) then Some None else Some (Some (p, current, inq, insq, true)).
Definition quoted_turn (p : list Z) (current : sds_t) : option turn :=
  h ← hex_escape p;
  match h with
  | Some byte => append (drop 3 p) current byte true false
  | None =>
      c ← deref p;
      esc ← (if c =? 92 then c1 ← deref (drop 1 p); Some (negb (c1 =? 0)) else Some false);
      if esc : bool then c1 ← deref (drop 1 p); append (drop 1 p) current (unescape c1) true false
      else if c =? 34 then close_quote p current true false
      else if c =? 0 then Some None
      else append p current c true false
  end.
Definition single_turn (p : list Z) (current : sds_t) : option turn :=
  c ← deref p;
  esc ← (if c =? 92 then c1 ← deref (drop 1 p); Some (c1 =? 39) else Some false);
  if esc : bool then append (drop 1 p) current 39 false true
  else if c =? 39 then close_quote p current false true
  else if c =? 0 then Some None
  else append p current c false true.
Definition plain_turn (p : list Z) (current : sds_t) : option turn :=
  c ← deref p;
  if (c =? 32) || (c =? 10) || (c =? 13) || (c =? 9) || (c =? 0) then Some (Some (p, current, false, false, true))
  else if c =? 34 then Some (Some (p, current, true, false, false))
  else if c =? 39 then Some (Some (p, current, false, true, false))
  else append p current c false false.
Fixpoint get_token (fuel : nat) (p : list Z) (current : sds_t) (inq insq : bool) : option (option (list Z * sds_t)) :=
  match fuel with
  | O => None
  | S fuel =>
      t ← (if inq then quoted_turn p current else if insq then single_turn p current else plain_turn p current);
      match t with
      | None => Some None
      | Some (p, current, inq, insq, done) =>
          c ← deref p;
          let p := if c =? 0 then p else drop 1 p in
          if done : bool then Some (Some (p, current)) else get_token fuel p current inq insq
      end
  end.
Fixpoint args_loop (fuel : nat) (p : list Z) (vector : list sds_t) : option (option (list sds_t)) :=
  p ← skip_blanks p;
  c ← deref p;
  if c =? 0 then Some (Some vector)
  else
    match fuel with
    | O => None
    | S fuel =>
        current ← sdsempty;
        t ← get_token (length p) p current false false;
        match t with None => Some None | Some (p, current) => args_loop fuel p (vector ++ [current]) end
    end.
(** NULL, after an error, is an inner [None]. *)
Definition sdssplitargs (line : list Z) : option (option (list sds_t)) := args_loop (length line) line [].

(** ** Splitting and joining *)

(** [memcmp(s+j,sep,seplen) == 0], or the single character. *)
Fixpoint split_loop (fuel : nat) (str sep : list Z) (j start : Z) (tokens : list sds_t) : option (list sds_t * Z) :=
  match fuel with
  | O => None
  | S fuel =>
      if j <? zlen str - (zlen sep - 1) then
        bs ← load str j (zlen sep);
        if bool_decide (bs = sep) then
          token ← sdsnewlen (Init (drop (Z.to_nat start) str)) (j - start);
          split_loop fuel str sep (j + zlen sep - 1 + 1) (j + zlen sep) (tokens ++ [token])
        else split_loop fuel str sep (j + 1) start tokens
      else Some (tokens, start)
  end.
(** The array of tokens grows as needed.  NULL is an inner [None]. *)
Definition sdssplitlen (str sep : list Z) : option (option (list sds_t)) :=
  if (zlen sep <? 1) || (zlen str <=? 0) then Some None
  else
    '(tokens, start) ← split_loop (S (length str)) str sep 0 0 [];
    token ← sdsnewlen (Init (drop (Z.to_nat start) str)) (zlen str - start);
    Some (Some (tokens ++ [token])).
Fixpoint join_loop (join : sds_t) (argv : list sds_t) (sep : list Z) : option sds_t :=
  match argv with
  | [] => Some join
  | a :: argv =>
      join ← sdscatsds join a;
      join ← (match argv with [] => Some join | _ => sdscatlen join sep (zlen sep) end);
      join_loop join argv sep
  end.
Definition sdsjoinsds (argv : list sds_t) (sep : list Z) : option sds_t := join ← sdsempty; join_loop join argv sep.

(** ** What is written *)

Definition repr (str : list Z) : list Z := concat (repr_char <$> str).
Definition quote (str : list Z) : list Z := [34] ++ repr str ++ [34].
Lemma repr_cons c str : repr (c :: str) = repr_char c ++ repr str.
Proof. done. Qed.

Lemma sds_empty_spec : ∃ s, sdsempty = Some s ∧ rep s [].
Proof. by apply (new_spec [] 0 []). Qed.
Lemma cat_spec s str bs : rep s str → zlen str + zlen bs ≤ MAX → ∃ s', sdscatlen s bs (zlen bs) = Some s' ∧ rep s' (str ++ bs).
Proof. intros Hr Hm. by apply (catlen_spec s str bs (zlen bs) bs); [|apply load_self|]. Qed.
Lemma repr_length c : 1 ≤ zlen (repr_char c) ≤ 4.
Proof. unfold repr_char. repeat match goal with |- context [if ?b then _ else _] => destruct b end; cbn [length]; lia. Qed.
Lemma repr_loop_spec p : ∀ s str, rep s str → zlen str + 4 * zlen p ≤ MAX → ∃ s', repr_loop s p = Some s' ∧ rep s' (str ++ repr p).
Proof.
  induction p as [|c p IH]; intros s str Hr Hm; cbn [repr_loop]; rewrite ?repr_cons; [exists s; by rewrite app_nil_r|]. cbn [length] in Hm. pose proof (repr_length c). destruct (cat_spec s str (repr_char c) Hr) as (s1 & -> & H1); [lia|]. cbn [mbind option_bind]. destruct (IH s1 _ H1) as (s2 & E2 & H2); [llia|]. exists s2. by rewrite <- app_assoc in H2.
Qed.
Lemma concat_repr_le (p : list Z) : zlen (repr p) ≤ 4 * zlen p.
Proof. induction p as [|c p IH]; rewrite ?repr_cons; cbn [length]; [done|]. pose proof (repr_length c). rewrite length_app. lia. Qed.
Lemma catrepr_spec s str p : rep s str → zlen str + 4 * zlen p + 2 ≤ MAX → ∃ s', sdscatrepr s p (zlen p) = Some s' ∧ rep s' (str ++ quote p).
Proof.
  intros Hr Hm. unfold sdscatrepr, quote. unfold MAX in Hm. rewrite wrapu_small by lia. destruct (makeroom_ok s str (zlen p + 2) true Hr) as (s0 & av & E0 & H0 & _); [lia|unfold MAX; lia|]. unfold sdsMakeRoomFor. rewrite E0. cbn [mbind option_bind]. destruct (cat_spec s0 str [34] H0) as (s1 & E1 & H1); [unfold MAX; cbn; lia|]. change (zlen [34]) with 1 in E1. rewrite E1, load_self. cbn [mbind option_bind].
  destruct (repr_loop_spec p s1 _ H1) as (s2 & -> & H2); [unfold MAX; llia|]. cbn [mbind option_bind]. pose proof (concat_repr_le p). destruct (cat_spec s2 _ [34] H2) as (s3 & E3 & H3); [unfold MAX; llia|]. exists s3. rewrite <- !app_assoc in H3. done.
Qed.

(** ** It is read back *)

Lemma hex_char_spec c : is_byte c → is_hex_digit (hex_char (Z.shiftr c 4)) && is_hex_digit (hex_char (Z.land c 15)) && (hex_digit_to_int (hex_char (Z.shiftr c 4)) * 16 + hex_digit_to_int (hex_char (Z.land c 15)) =? c) && negb (hex_char (Z.land c 15) =? 0) = true.
Proof. apply (byte_forall (λ c, is_hex_digit (hex_char (Z.shiftr c 4)) && is_hex_digit (hex_char (Z.land c 15)) && (hex_digit_to_int (hex_char (Z.shiftr c 4)) * 16 + hex_digit_to_int (hex_char (Z.land c 15)) =? c) && negb (hex_char (Z.land c 15) =? 0))). vm_compute. reflexivity. Qed.
(** One turn reads one character. *)
Lemma turn_repr c r cur : is_byte c → ∃ d, d ≠ 0 ∧ quoted_turn (repr_char c ++ r) cur = append (d :: r) cur c true false.
Proof.
  intros Hc. unfold repr_char. destruct (Z.eqb_spec c 92) as [->|H92]; [by exists 92|]. destruct (Z.eqb_spec c 34) as [->|H34]; [by exists 34|]. cbn [orb].
  destruct (Z.eqb_spec c 10) as [->|H10]; [by exists 110|]. destruct (Z.eqb_spec c 13) as [->|H13]; [by exists 114|]. destruct (Z.eqb_spec c 9) as [->|H9]; [by exists 116|]. destruct (Z.eqb_spec c 7) as [->|H7]; [by exists 97|]. destruct (Z.eqb_spec c 8) as [->|H8]; [by exists 98|].
  destruct (isprint c) eqn:Ep.
  - exists c. assert (c ≠ 0) by (intros ->; done). split; [done|]. unfold quoted_turn, hex_escape. cbn [app deref head mbind option_bind]. rewrite (proj2 (Z.eqb_neq c 92) H92). cbn [negb mbind option_bind]. rewrite (proj2 (Z.eqb_neq c 34) H34), (proj2 (Z.eqb_neq c 0)) by done. done.
  - pose proof (hex_char_spec c Hc) as [[[H1 H2]%andb_prop H3%Z.eqb_eq]%andb_prop H4]%andb_prop. set (h := hex_char (Z.shiftr c 4)) in *. set (l := hex_char (Z.land c 15)) in *. exists l. split; [by apply Z.eqb_neq, negb_true_iff|]. unfold quoted_turn, hex_escape. cbn [app deref head mbind option_bind drop Z.eqb Pos.eqb negb]. rewrite H1. cbn [negb]. cbn [mbind option_bind]. rewrite H2. cbn [negb mbind option_bind]. by rewrite H3.
Qed.
Definition ends (r : list Z) : Prop := ∃ n, head r = Some n ∧ (n = 0 ∨ isspace n = true).
Lemma append_spec p cur acc c inq insq : rep cur acc → zlen acc + 1 ≤ MAX → ∃ cur', append p cur c inq insq = Some (Some (p, cur', inq, insq, false)) ∧ rep cur' (acc ++ [c]).
Proof. intros Hr Hm. unfold append. destruct (cat_spec cur acc [c] Hr) as (cur' & E & H'); [cbn; lia|]. change (zlen [c]) with 1 in E. rewrite E. by exists cur'. Qed.
Lemma get_quoted str : ∀ fuel cur acc r, rep cur acc → Forall is_byte str → zlen acc + zlen str ≤ MAX → (length str < fuel)%nat → ends r →
  ∃ cur', get_token fuel (repr str ++ 34 :: r) cur true false = Some (Some (r, cur')) ∧ rep cur' (acc ++ str).
Proof.
  induction str as [|c str IH]; intros fuel cur acc r Hr Hb Hm Hf He; (destruct fuel as [|fuel]; [lia|]).
  - exists cur. rewrite app_nil_r. split; [|done]. cbn [repr fmap list_fmap concat app get_token]. unfold quoted_turn. cbn. unfold close_quote. destruct He as (n & Hn & Hsp). destruct r as [|n' r]; [done|]. injection Hn as ->. cbn. destruct Hsp as [-> | ->]; [done|]. by rewrite andb_false_r.
  - apply Forall_cons in Hb as [Hc Hb]. cbn [length] in *. rewrite repr_cons, <- app_assoc. cbn [get_token]. destruct (turn_repr c (repr str ++ 34 :: r) cur Hc) as (d & Hd & E). rewrite E. destruct (append_spec (d :: repr str ++ 34 :: r) cur acc c true false Hr) as (cur1 & E1 & H1); [lia|]. rewrite E1. cbn [mbind option_bind deref head]. rewrite (proj2 (Z.eqb_neq d 0) Hd). cbn [drop].
    destruct (IH fuel cur1 (acc ++ [c]) r H1 Hb) as (cur2 & E2 & H2); [llia|lia|done|]. exists cur2. rewrite <- app_assoc in H2. done.
Qed.
Lemma quote_length str : (length str + 2 ≤ length (quote str))%nat.
Proof. unfold quote. rewrite !length_app. cbn [length]. induction str as [|c str IH]; [cbn; lia|]. pose proof (repr_length c). rewrite repr_cons, length_app. cbn [length]. lia. Qed.
(** A line of quoted arguments. *)
Definition line_of (strs : list (list Z)) : list Z := concat ((λ str, quote str ++ [32]) <$> strs).
Lemma args_quoted strs : ∀ fuel vec rest, Forall (Forall is_byte) strs → Forall (λ str, zlen str ≤ MAX) strs → (length strs ≤ fuel)%nat →
  ∃ toks, args_loop fuel (line_of strs ++ 0 :: rest) vec = Some (Some (vec ++ toks)) ∧ Forall2 rep toks strs.
Proof.
  induction strs as [|str strs IH]; intros fuel vec rest Hb Hm Hf.
  { exists []. rewrite app_nil_r. split; [by destruct fuel|constructor]. }
  destruct fuel as [|fuel]; [cbn in Hf; lia|]. apply Forall_cons in Hb as [Hb1 Hb]. apply Forall_cons in Hm as [Hm1 Hm]. change (line_of (str :: strs)) with ((quote str ++ [32]) ++ line_of strs). rewrite <- !app_assoc. set (tl := line_of strs ++ 0 :: rest). cbn [args_loop]. destruct sds_empty_spec as (s0 & E0 & H0).
  set (p := quote str ++ [32] ++ tl) in *. assert (Ep : p = 34 :: repr str ++ 34 :: 32 :: tl) by (unfold p, quote; by rewrite <- !app_assoc). pose proof (quote_length str) as Hq.
  assert (length str + 2 ≤ length p)%nat as Hp by (unfold p; rewrite length_app; lia). rewrite Ep in *. cbn [skip_blanks Z.eqb negb andb]. change (isspace 34) with false. cbn match. cbn [Z.eqb mbind option_bind deref head]. rewrite E0. cbn [mbind option_bind].
  destruct (length (34 :: _)) as [|n] eqn:En; [lia|]. cbn [get_token]. unfold plain_turn. cbn [deref head mbind option_bind Z.eqb Pos.eqb orb drop]. rewrite drop_0. destruct (get_quoted str n s0 [] (32 :: tl) H0 Hb1) as (s1 & -> & H1); [done|lia|by exists 32; split; [|right]|]. cbn [mbind option_bind].
  destruct (IH fuel (vec ++ [s1]) rest Hb Hm) as (toks & E & Ht); [cbn in Hf; lia|]. exists (s1 :: toks). split; [|by constructor]. rewrite <- app_assoc in E. etransitivity; [|exact E]. fold tl. destruct fuel; done.
Qed.

(** ** Any line *)

Lemma deref_total (p : list Z) : 0 ∈ p → ∃ c, deref p = Some c.
Proof. destruct p as [|c p]; [by intros ?%not_elem_of_nil|]. by exists c. Qed.
Lemma after_nonzero p c : 0 ∈ p → deref p = Some c → c ≠ 0 → 0 ∈ drop 1 p ∧ S (length (drop 1 p)) = length p.
Proof. destruct p as [|d p]; [done|]. intros Hin [= ->] Hc. cbn [drop]. rewrite drop_0. split; [|done]. by apply elem_of_cons in Hin as [?|?]. Qed.
(** What a turn does to the pointer and the token. *)
Definition turn_ok (p acc : list Z) (t : turn) : Prop :=
  match t with
  | None => True
  | Some (q, cur, _, _, done) => ∃ acc', rep cur acc' ∧ zlen acc' ≤ zlen acc + 1 ∧ 0 ∈ q ∧ (length q ≤ length p)%nat ∧ (head q = Some 0 → done = true ∧ q = p)
  end.
Lemma append_ok p q cur acc c d inq insq : rep cur acc → zlen acc + 1 ≤ MAX → 0 ∈ q → (length q ≤ length p)%nat → deref q = Some d → d ≠ 0 → ∃ t, append q cur c inq insq = Some t ∧ turn_ok p acc t.
Proof. intros Hr Hm Hq Hl Hd Hne. destruct (append_spec q cur acc c inq insq Hr Hm) as (cur' & -> & H'). eexists. split; [done|]. exists (acc ++ [c]). split_and!; [done|llia|done|done|]. unfold deref in Hd. congruence. Qed.
Lemma close_ok p cur acc inq insq c : rep cur acc → 0 ∈ p → deref p = Some c → c ≠ 0 → ∃ t, close_quote p cur inq insq = Some t ∧ turn_ok p acc t.
Proof.
  intros Hr Hp Hc Hne. destruct (after_nonzero p c Hp Hc Hne) as [H1 _]. destruct (deref_total _ H1) as [n En]. unfold close_quote. rewrite En. cbn [mbind option_bind]. destruct (_ && _); eexists; (split; [done|]); [done|]. exists acc. split_and!; [done|lia|done|done|]. unfold deref in Hc. congruence.
Qed.
Lemma hex_total p : 0 ∈ p → ∃ h, hex_escape p = Some h ∧ (is_Some h → ∃ d, deref (drop 3 p) = Some d ∧ d ≠ 0 ∧ 0 ∈ drop 3 p).
Proof.
  intros H0. unfold hex_escape. destruct (deref_total p H0) as [c Ec]. rewrite Ec. cbn [mbind option_bind]. destruct (Z.eqb_spec c 92) as [->|]; cbn [negb]; [|by exists None; split; [|intros []]]. destruct (after_nonzero p 92 H0 Ec ltac:(done)) as [H1 _]. destruct (deref_total _ H1) as [c1 E1]. rewrite E1. cbn [mbind option_bind].
  destruct (Z.eqb_spec c1 120) as [->|]; cbn [negb]; [|by exists None; split; [|intros []]]. destruct (after_nonzero _ 120 H1 E1 ltac:(done)) as [H2 _]. rewrite drop_drop in H2. destruct (deref_total _ H2) as [c2 E2]. change (1 + 1)%nat with 2%nat in *. rewrite E2. cbn [mbind option_bind]. destruct (is_hex_digit c2) eqn:Eh2; cbn [negb]; [|by exists None; split; [|intros []]].
  destruct (after_nonzero _ c2 H2 E2) as [H3 _]; [by intros ->|]. rewrite drop_drop in H3. change (2 + 1)%nat with 3%nat in *. destruct (deref_total _ H3) as [c3 E3]. rewrite E3. cbn [mbind option_bind]. destruct (is_hex_digit c3) eqn:Eh3; cbn [negb]; [|by exists None; split; [|intros []]]. eexists. split; [done|]. intros _. exists c3. split_and!; [done|by intros ->|done].
Qed.
Lemma turn_total p cur acc inq insq : 0 ∈ p → rep cur acc → zlen acc + 1 ≤ MAX →
  ∃ t, (if inq : bool then quoted_turn p cur else if insq : bool then single_turn p cur else plain_turn p cur) = Some t ∧ turn_ok p acc t.
Proof.
  intros H0 Hr Hm. destruct (deref_total p H0) as [c Ec]. assert (Hself : ∀ c' i j, c ≠ 0 → ∃ t, append p cur c' i j = Some t ∧ turn_ok p acc t) by (intros c' i j Hne; by eapply append_ok).
  assert (Hnext : ∀ c' i j c1, c = 92 → deref (drop 1 p) = Some c1 → c1 ≠ 0 → ∃ t, append (drop 1 p) cur c' i j = Some t ∧ turn_ok p acc t) by (intros c' i j c1 -> E1 Hne; destruct (after_nonzero p 92 H0 Ec ltac:(done)) as [H1 Hl]; eapply append_ok; [done|done|done|lia|done|done]).
  destruct inq; [|destruct insq].
  - unfold quoted_turn. destruct (hex_total p H0) as (h & -> & Hh). cbn [mbind option_bind]. destruct h as [b|]; [destruct (Hh ltac:(done)) as (d & Ed & Hd & H3); eapply append_ok; [done|done|done|rewrite length_drop; lia|done|done]|]. rewrite Ec. cbn [mbind option_bind]. destruct (Z.eqb_spec c 92) as [->|H92].
    + destruct (after_nonzero p 92 H0 Ec ltac:(done)) as [H1 _]. destruct (deref_total _ H1) as [c1 E1]. rewrite E1. cbn [mbind option_bind]. destruct (Z.eqb_spec c1 0); cbn [negb]; [by apply Hself|by eapply Hnext].
    + cbn [mbind option_bind]. destruct (Z.eqb_spec c 34) as [->|]; [by eapply close_ok|]. destruct (Z.eqb_spec c 0); [by eexists|by apply Hself].
  - unfold single_turn. rewrite Ec. cbn [mbind option_bind]. destruct (Z.eqb_spec c 92) as [->|H92].
    + destruct (after_nonzero p 92 H0 Ec ltac:(done)) as [H1 _]. destruct (deref_total _ H1) as [c1 E1]. rewrite E1. cbn [mbind option_bind]. destruct (Z.eqb_spec c1 39) as [->|]; [by eapply Hnext|by apply Hself].
    + cbn [mbind option_bind]. destruct (Z.eqb_spec c 39) as [->|]; [by eapply close_ok|]. destruct (Z.eqb_spec c 0); [by eexists|by apply Hself].
  - unfold plain_turn. rewrite Ec. cbn [mbind option_bind]. assert (Hstay : ∀ i j (dn : bool), (c = 0 → dn = true) → ∃ t, Some (Some (p, cur, i, j, dn)) = Some t ∧ turn_ok p acc t) by (intros i j dn Hdn; eexists; split; [done|]; exists acc; split_and!; [done|lia|done|done|]; unfold deref in Ec; rewrite Ec; intros [= ->]; auto).
    destruct (_ || _) eqn:Eb; [by apply Hstay|]. assert (c ≠ 0) by (intros ->; done). destruct (c =? 34); [by apply Hstay|]. destruct (c =? 39); [by apply Hstay|by apply Hself].
Qed.
Lemma get_token_total fuel : ∀ p cur acc inq insq, 0 ∈ p → rep cur acc → zlen acc + zlen p ≤ MAX → (length p ≤ fuel)%nat →
  ∃ r, get_token fuel p cur inq insq = Some r ∧ match r with None => True | Some (q, cur') => 0 ∈ q ∧ (length q ≤ length p)%nat ∧ (head p ≠ Some 0 → (length q < length p)%nat) end.
Proof.
  induction fuel as [|fuel IH]; intros p cur acc inq insq H0 Hr Hm Hf; [destruct p; [by apply not_elem_of_nil in H0|cbn in Hf; lia]|]. cbn [get_token]. assert (1 ≤ zlen p) by (destruct p; [by apply not_elem_of_nil in H0|cbn [length]; lia]). destruct (turn_total p cur acc inq insq H0 Hr ltac:(lia)) as (t & Et & Ht). unfold turn in *. rewrite Et. cbn [mbind option_bind]. destruct t as [[[[[q cur'] i] j] dn]|]; [|by exists None].
  destruct Ht as (acc' & Hr' & Hl' & Hq & Hlq & Hz). destruct (deref_total q Hq) as [c Ec]. rewrite Ec. cbn [mbind option_bind]. destruct (Z.eqb_spec c 0) as [->|Hne].
  - destruct (Hz Ec) as [-> ->]. eexists. split; [done|]. split_and!; [done|done|by intros []].
  - destruct (after_nonzero q c Hq Ec Hne) as [Hd Hdl]. destruct dn; [eexists; split; [done|]; split_and!; [done|lia|lia]|]. destruct (IH (drop 1 q) cur' acc' i j Hd Hr') as (r & Er & Hres); [lia|lia|]. exists r. split; [done|]. destruct r as [[q' cur'']|]; [|done]. destruct Hres as (? & ? & _). split_and!; [done|lia|lia].
Qed.
Lemma skip_total p : 0 ∈ p → ∃ q, skip_blanks p = Some q ∧ 0 ∈ q ∧ (length q ≤ length p)%nat.
Proof.
  induction p as [|c p IH]; [by intros ?%not_elem_of_nil|]. intros H0. cbn [skip_blanks]. destruct (Z.eqb_spec c 0) as [->|]; cbn [negb andb]; [by eexists|]. destruct (isspace c); [|by eexists]. apply elem_of_cons in H0 as [?|H0]; [done|]. destruct (IH H0) as (q & ? & ? & ?). exists q. split_and!; [done|done|cbn [length]; lia].
Qed.
Lemma args_total fuel : ∀ p vec, 0 ∈ p → zlen p ≤ MAX → (length p ≤ fuel)%nat → is_Some (args_loop fuel p vec).
Proof.
  induction fuel as [|fuel IH]; intros p vec H0 Hm Hf; [destruct p; [by apply not_elem_of_nil in H0|cbn in Hf; lia]|]. cbn [args_loop]. destruct (skip_total p H0) as (q & -> & Hq & Hl). cbn [mbind option_bind]. destruct (deref_total q Hq) as [c Ec]. rewrite Ec. cbn [mbind option_bind]. destruct (Z.eqb_spec c 0); [by eexists|].
  destruct sds_empty_spec as (s0 & -> & Hs0). cbn [mbind option_bind]. destruct (get_token_total (length q) q s0 [] false false Hq Hs0) as (r & -> & Hr); [cbn [length]; lia|done|]. cbn [mbind option_bind]. destruct r as [[q' cur]|]; [|by eexists]. destruct Hr as (Hq' & _ & Hlt). apply IH; [done| |]; (assert (length q' < length q)%nat by (apply Hlt; unfold deref in Ec; congruence); lia).
Qed.

(** Quoting each string and a space behind it. *)
Fixpoint quote_all s (strs : list (list Z)) : option sds_t :=
  match strs with [] => Some s | str :: strs => s ← sdscatrepr s str (zlen str); s ← sdscatlen s [32] 1; quote_all s strs end.
Definition room_for (strs : list (list Z)) : Z := foldr (λ str n, 4 * zlen str + 3 + n) 0 strs.
Lemma room_pos strs : 0 ≤ room_for strs.
Proof. induction strs as [|str strs IH]; cbn [room_for foldr]; [lia|]. unfold room_for in IH. lia. Qed.
Lemma quote_len str : zlen (quote str) ≤ 4 * zlen str + 2.
Proof. unfold quote. pose proof (concat_repr_le str). llia. Qed.
Lemma quote_all_spec strs : ∀ s acc, rep s acc → zlen acc + room_for strs ≤ MAX → ∃ s', quote_all s strs = Some s' ∧ rep s' (acc ++ line_of strs).
Proof.
  induction strs as [|str strs IH]; intros s acc Hr Hm; cbn [quote_all]; [exists s; by rewrite app_nil_r|]. cbn [room_for foldr] in Hm. fold (room_for strs) in Hm. pose proof (room_pos strs). pose proof (quote_len str). destruct (catrepr_spec s acc str Hr) as (s1 & -> & H1); [lia|]. cbn [mbind option_bind].
  destruct (cat_spec s1 _ [32] H1) as (s2 & E2 & H2); [llia|]. change (zlen [32]) with 1 in E2. rewrite E2. cbn [mbind option_bind]. destruct (IH s2 _ H2) as (s3 & E3 & H3); [llia|]. exists s3. split; [done|]. rewrite <- !app_assoc in H3. change (line_of (str :: strs)) with ((quote str ++ [32]) ++ line_of strs). by rewrite <- !app_assoc.
Qed.
Lemma line_length strs : (length strs ≤ length (line_of strs))%nat.
Proof. induction strs as [|str strs IH]; [done|]. change (line_of (str :: strs)) with ((quote str ++ [32]) ++ line_of strs). rewrite length_app, length_app. cbn [length]. lia. Qed.

(** C23: arguments survive quoting.  Strings of any bytes that [sdscatrepr] has
    written into a line are what [sdssplitargs] reads from the line; and on any
    terminated line [sdssplitargs] returns, without reading behind the terminator. *)
Theorem sds_repr_roundtrip :
  (∀ strs, Forall (Forall is_byte) strs → room_for strs ≤ MAX →
    ∃ s line tokens, sdsempty = Some s ∧ quote_all s strs = Some line ∧ sdssplitargs (content line) = Some (Some tokens) ∧ Forall2 rep tokens strs) ∧
  (∀ line, 0 ∈ line → zlen line ≤ MAX → is_Some (sdssplitargs line)).
Proof.
  split; [|intros line H0 Hm; by apply args_total]. intros strs Hb Hm. destruct sds_empty_spec as (s & E & Hs). destruct (quote_all_spec strs s [] Hs) as (line & El & Hl); [cbn [length]; lia|]. destruct (rep_content line _ Hl) as [rest Ec]. cbn [app] in Ec. destruct (args_quoted strs (length (line_of strs ++ 0 :: rest)) [] rest Hb) as (toks & Et & Ht).
  - clear -Hm. induction strs as [|str strs IH]; constructor; cbn [room_for foldr] in Hm; fold (room_for strs) in Hm; pose proof (room_pos strs); [lia|apply IH; lia].
  - pose proof (line_length strs). rewrite length_app. lia.
  - exists s, line, toks. split_and!; [done|done|unfold sdssplitargs; rewrite Ec; exact Et|done].
Qed.

(** ** Splitting is the inverse of joining *)

Fixpoint joined (sep : list Z) (strs : list (list Z)) : list Z :=
  match strs with [] => [] | [str] => str | str :: strs => str ++ sep ++ joined sep strs end.
Definition before (sep : list Z) (strs : list (list Z)) : list Z := concat ((λ str, str ++ sep) <$> strs).
Lemma joined_snoc sep strs last : joined sep (strs ++ [last]) = before sep strs ++ last.
Proof. induction strs as [|str strs IH]; [done|]. cbn [app]. change (before sep (str :: strs)) with ((str ++ sep) ++ before sep strs). rewrite <- !app_assoc, <- IH. by destruct strs. Qed.
Lemma before_snoc sep strs str : before sep (strs ++ [str]) = before sep strs ++ str ++ sep.
Proof. unfold before. rewrite fmap_app, concat_app. cbn. by rewrite app_nil_r. Qed.
(** The separator does not occur in a token. *)
Definition clean (sep tok : list Z) : Prop := ∀ a b, tok ≠ a ++ sep ++ b.

Section split.
Context (str sep : list Z) (Hsep : sep ≠ []) (Hmax : zlen str ≤ MAX).
Definition at_ (i : Z) : Prop := load str i (zlen sep) = Some sep.
Lemma token_spec start j : 0 ≤ start ≤ j → j ≤ zlen str → (∀ i, start ≤ i → i + zlen sep ≤ j → ¬ at_ i) →
  ∃ s tok, sdsnewlen (Init (drop (Z.to_nat start) str)) (j - start) = Some s ∧ rep s tok ∧ clean sep tok ∧ take (Z.to_nat j) str = take (Z.to_nat start) str ++ tok.
Proof.
  intros Hs Hj Hno. destruct (load_total (drop (Z.to_nat start) str) 0 (j - start)) as [tok Et]; [lia|lia|llia|]. destruct (new_spec _ _ tok Et) as (s & Es & Hr); [lia|]. exists s, tok. pose proof (load_Some _ _ _ _ Et) as (x & r & Er & Hx & Hl). destruct x; [|cbn in Hx; lia]. cbn [app] in Er.
  assert (Estr : str = take (Z.to_nat start) str ++ tok ++ r) by (rewrite <- Er; by rewrite take_drop). split_and!; [done|done| |].
  - intros a b ->. apply (Hno (start + zlen a)); [lia|llia|]. unfold at_. rewrite Estr, <- !app_assoc, (app_assoc _ a). apply load_app; [llia|done].
  - rewrite Estr at 1. rewrite app_assoc, take_app_length'; [done|llia].
Qed.
Lemma split_loop_spec fuel : ∀ j start tokens strs, 0 ≤ start ≤ j → j ≤ zlen str → (∀ i, start ≤ i < j → ¬ at_ i) → zlen str - j < Z.of_nat fuel → Forall2 rep tokens strs → Forall (clean sep) strs → take (Z.to_nat start) str = before sep strs →
  ∃ tokens' strs' start', split_loop fuel str sep j start tokens = Some (tokens', start') ∧ 0 ≤ start' ≤ zlen str ∧ (∀ i, start' ≤ i → i + zlen sep ≤ zlen str → ¬ at_ i) ∧
    Forall2 rep tokens' strs' ∧ Forall (clean sep) strs' ∧ take (Z.to_nat start') str = before sep strs'.
Proof.
  assert (0 < zlen sep) as Hl by (destruct sep; [done|cbn [length]; lia]). induction fuel as [|fuel IH]; intros j start tokens strs Hs Hj Hno Hf Ht Hc Hb; [lia|]. cbn [split_loop]. destruct (Z.ltb_spec j (zlen str - (zlen sep - 1))) as [Hlt|Hge].
  - destruct (load_total str j (zlen sep)) as [bs Ebs]; [lia..|]. rewrite Ebs. cbn [mbind option_bind]. case_bool_decide as Eq.
    + subst bs. destruct (token_spec start j Hs Hj) as (s & tok & -> & Hr & Hcl & Etk); [intros i ? ?; apply Hno; lia|]. cbn [mbind option_bind]. replace (j + zlen sep - 1 + 1) with (j + zlen sep) by lia. apply (IH _ _ _ (strs ++ [tok])); [lia|lia|lia|lia|apply Forall2_app; [done|by constructor]|apply Forall_app; split; [done|by constructor]|].
      rewrite before_snoc, <- Hb, app_assoc, <- Etk. pose proof (load_Some _ _ _ _ Ebs) as (x & r & -> & -> & _). rewrite Nat2Z.id, take_app_length, app_assoc, take_app_length' by llia. done.
    + apply (IH _ _ _ strs); [lia|lia| |lia|done|done|done]. intros i Hi. destruct (decide (i = j)) as [->|]; [unfold at_; rewrite Ebs; congruence|apply Hno; lia].
  - exists tokens, strs, start. split_and!; [done|lia|lia| |done|done|done]. intros i Hi1 Hi2. apply Hno. lia.
Qed.
End split.
Lemma splitlen_spec str sep : sep ≠ [] → str ≠ [] → zlen str ≤ MAX → ∃ tokens strs, sdssplitlen str sep = Some (Some tokens) ∧ Forall2 rep tokens strs ∧ Forall (clean sep) strs ∧ joined sep strs = str.
Proof.
  intros Hsep Hstr Hm. unfold sdssplitlen. assert (0 < zlen sep) by (destruct sep; [done|cbn [length]; lia]). assert (0 < zlen str) by (destruct str; [done|cbn [length]; lia]). destruct (Z.ltb_spec (zlen sep) 1); [lia|]. destruct (Z.leb_spec (zlen str) 0); [lia|]. cbn [orb].
  destruct (split_loop_spec str sep Hsep Hm (S (length str)) 0 0 [] []) as (toks & strs & start & -> & Hst & Hno & Ht & Hc & Hb); [lia|lia|lia|lia|constructor|constructor|done|]. cbn [mbind option_bind]. destruct (token_spec str sep Hm start (zlen str)) as (s & tok & -> & Hr & Hcl & Etk); [lia|lia|done|]. cbn [mbind option_bind]. exists (toks ++ [s]), (strs ++ [tok]).
  split_and!; [done|apply Forall2_app; [done|by constructor]|apply Forall_app; split; [done|by constructor]|]. rewrite joined_snoc, <- Hb, <- Etk, take_ge by lia. done.
Qed.
Lemma sds_join_spec argv : ∀ strs join acc sep, Forall2 rep argv strs → rep join acc → zlen acc + zlen (joined sep strs) ≤ MAX → ∃ s, join_loop join argv sep = Some s ∧ rep s (acc ++ joined sep strs).
Proof.
  induction argv as [|a argv IH]; intros strs join acc sep Ht Hr Hm; inversion Ht as [|? str ? strs' Ha Hts]; subst; cbn [join_loop]; [exists join; by rewrite app_nil_r|].
  assert (Hj : joined sep (str :: strs') = str ++ match strs' with [] => [] | _ => sep ++ joined sep strs' end) by (destruct strs'; cbn [joined]; [by rewrite app_nil_r|done]). rewrite Hj in *. unfold sdscatsds. rewrite (rep_len _ _ Ha). cbn [mbind option_bind]. destruct (catlen_spec join acc (content a) (zlen str) str Hr) as (s1 & -> & H1); [by apply rep_load|llia|]. cbn [mbind option_bind].
  inversion Hts as [|a' str' argv' strs'' Ha' Hts']; subst.
  - cbn [mbind option_bind join_loop]. exists s1. by rewrite app_nil_r.
  - destruct (cat_spec s1 _ sep H1) as (s2 & -> & H2); [llia|]. cbn [mbind option_bind]. destruct (IH (str' :: strs'') s2 _ sep Hts H2) as (s3 & E3 & H3); [llia|]. exists s3. rewrite <- !app_assoc in H3. done.
Qed.
(** Joining the tokens gives the string back, and no token has the separator in it. *)
Lemma sds_split_join str sep : sep ≠ [] → str ≠ [] → zlen str ≤ MAX →
  ∃ tokens strs s, sdssplitlen str sep = Some (Some tokens) ∧ Forall2 rep tokens strs ∧ Forall (clean sep) strs ∧ sdsjoinsds tokens sep = Some s ∧ rep s str.
Proof.
  intros Hsep Hstr Hm. destruct (splitlen_spec str sep Hsep Hstr Hm) as (toks & strs & E & Ht & Hc & Hj). unfold sdsjoinsds. destruct sds_empty_spec as (s0 & E0 & H0). destruct (sds_join_spec toks strs s0 [] sep Ht H0) as (s & Es & Hs); [rewrite Hj; cbn [length]; lia|]. exists toks, strs, s. rewrite Hj in Hs. split_and!; [done|done|done| |done]. rewrite E0. done.
Qed.
End text.

Lemma sds_repr_witness :
  Forall (Forall is_byte) [[0; 255; 10]; []; [34; 92; 97]] ∧
  (∃ s line tokens, sdsempty (Al := jemalloc) = Some s ∧ quote_all (Al := jemalloc) s [[0; 255; 10]; []; [34; 92; 97]] = Some line ∧ sdssplitargs (Al := jemalloc) (content line) = Some (Some tokens) ∧ Forall2 rep tokens [[0; 255; 10]; []; [34; 92; 97]]) ∧
  is_Some (sdssplitargs (Al := jemalloc) [97; 32; 34; 98; 0]).
Proof.
  assert (Forall (Forall is_byte) [[0; 255; 10]; []; [34; 92; 97]]) as Hb by (repeat constructor; done). split; [exact Hb|]. destruct (sds_repr_roundtrip (Al := jemalloc)) as [Hq Hl]. split; [by apply Hq|]. apply Hl; [set_solver|done].
Defined.
End SdsText.
