(* ===== verification/SdsFmt.v ===== *)
(** * sds.c: sdscatfmt

    The formatted append that does not go through printf: it writes into the free
    space of the string, makes more when there is none, and terminates at the end.
    The arguments of the call are a list; taking one that is not there, or of
    another type, is [None]. *)

From S2P Require Import Prelude Util Sds SdsOk SdsRun.
Import Util Sds SdsOk SdsRun.

Module SdsFmt.
Section fmt.
Context `{Al : Allocator}.
Implicit Type (s : sds_t).

(** A C string is the bytes from its pointer on. *)
Inductive fmt_arg := ArgCString (t : list Z) | ArgSds (t : sds_t) | ArgInt (n : Z) | ArgUInt (n : Z).
(** Appending [l] bytes at [i], more room being made if needed. *)
Definition fmt_copy s (i : Z) (bs : list Z) (l : Z) : option (sds_t * Z) :=
  avail ← sdsavail s;
  s ← (if avail <? l then sdsMakeRoomFor s l else Some s);
  bs ← load bs 0 l;
  s ← write_at s i bs;
  s ← sdsinclen s l;
  Some (s, i + l).
Definition fmt_char s (i c : Z) : option (sds_t * Z) := s ← write_at s i [c]; s ← sdsinclen s 1; Some (s, i + 1).
(** The text of an argument for a conversion, with its length: [None] is the case of an
    unknown conversion. *)
Definition fmt_text (next : Z) (args : list fmt_arg) : option (option (list Z * Z * list fmt_arg)) :=
  if (next =? 115) || (next =? 83) then
    match args with
    | ArgCString t :: args => if next =? 115 then l ← strlen t 0; Some (Some (t, l, args)) else None
    | ArgSds t :: args => if next =? 83 then l ← sdslen t; Some (Some (content t, l, args)) else None
    | _ => None
    end
  else if (next =? 105) || (next =? 73) then
    match args with
    | ArgInt n :: args => '(buf, l) ← ll2string (fresh (Z.to_nat LONG_STR_SIZE)) LONG_STR_SIZE (if next =? 105 then s32 n else s64 n); Some (Some (buf, l, args))
    | _ => None
    end
  else if (next =? 117) || (next =? 85) then
    match args with
    | ArgUInt n :: args => '(buf, l) ← ull2string (fresh (Z.to_nat LONG_STR_SIZE)) LONG_STR_SIZE (if next =? 117 then u32 n else u64 n); Some (Some (buf, l, args))
    | _ => None
    end
  else Some None.
Fixpoint fmt_loop (f : list Z) (args : list fmt_arg) s (i : Z) : option (sds_t * Z) :=
  match f with
  | [] => None
  | c :: f' =>
      if c =? 0 then Some (s, i)
      else
        avail ← sdsavail s;
        s ← (if avail =? 0 then sdsMakeRoomFor s 1 else Some s);
        if c =? 37 then
          match f' with
          | [] => None
          | next :: f'' =>
              if next =? 0 then fmt_loop f' args s i
              else
                t ← fmt_text next args;
                match t with
                | Some (bs, l, args) => '(s, i) ← fmt_copy s i bs l; fmt_loop f'' args s i
                | None => '(s, i) ← fmt_char s i next; fmt_loop f'' args s i
                end
          end
        else '(s, i) ← fmt_char s i c; fmt_loop f' args s i
  end.
Definition sdscatfmt s (fmt : list Z) (args : list fmt_arg) : option sds_t :=
  initlen ← sdslen s;
  n ← strlen fmt 0;
  s ← sdsMakeRoomFor s (u64 (n * 2));
  '(s, i) ← fmt_loop fmt args s initlen;
  write_at s i [0].

(** ** What it means *)

(** An argument and its text. *)
Definition arg_ok (next : Z) (a : fmt_arg) (text : list Z) : Prop :=
  match a with
  | ArgCString t => next = 115 ∧ ∃ rest, t = text ++ 0 :: rest ∧ 0 ∉ text
  | ArgSds t => next = 83 ∧ rep t text
  | ArgInt n => (next = 105 ∧ sfits 32 n ∨ next = 73 ∧ sfits 64 n) ∧ text = sdec n
  | ArgUInt n => (next = 117 ∧ ufits 32 n ∨ next = 85 ∧ ufits 64 n) ∧ text = dec n
  end.
Definition is_conv (next : Z) : bool := bool_decide (next ∈ [115; 83; 105; 73; 117; 85]).
(** [out] is the expansion of the format (without its terminator). *)
Inductive expands : list Z → list fmt_arg → list Z → Prop :=
  | expands_nil args : expands [] args []
  | expands_percent args : expands [37] args []
  | expands_arg next f a args text out : is_conv next = true → arg_ok next a text → expands f args out → expands (37 :: next :: f) (a :: args) (text ++ out)
  | expands_other next f args out : is_conv next = false → next ≠ 0 → expands f args out → expands (37 :: next :: f) args (next :: out)
  | expands_char c f args out : c ≠ 37 → c ≠ 0 → expands f args out → expands (c :: f) args (c :: out).

(** The string while it is written: no terminator yet. *)
Definition open_rep s (str : list Z) : Prop := ∃ t a w y, raw s t (zlen str) a (str ++ w :: y).
Lemma inclen_spec s t len a pay n : raw s t len a pay → t ≠ SDS_TYPE_5 → 0 ≤ n → len + n ≤ a → ∃ s', sdsinclen s n = Some s' ∧ raw s' t (len + n) a pay.
Proof.
  intros Hr Hne Hn Ha. pose proof (raw_type _ _ _ _ _ Hr) as Ht. unfold sdsinclen. rewrite (flags_spec _ _ _ _ _ Hr). cbn [mbind option_bind]. rewrite flag_type by done. destruct (type_facts t Ht) as (_ & -> & _). rewrite (proj2 (Z.eqb_neq _ _) Hne). destruct (hdr_fields _ _ _ _ _ Hr Hne) as [-> _]. cbn [mbind option_bind].
  destruct Hr as [Hs Hl Hm Hro H5]. destruct (shape_set_len _ _ _ _ _ _ Hs (len + n)) as (s' & -> & Hs'). exists s'. split; [done|]. split; [|lia|done|done|done]. unfold flag_byte in *. by rewrite (proj2 (Z.eqb_neq _ _) Hne) in *.
Qed.
Lemma open_room s t a str w y n : raw s t (zlen str) a (str ++ w :: y) → 0 ≤ n → zlen str + n ≤ MAX → ∃ s' t' a' y', sdsMakeRoomFor s n = Some s' ∧ raw s' t' (zlen str) a' (str ++ w :: y') ∧ zlen str + n ≤ a'.
Proof.
  intros Hr Hn Hm. change (str ++ w :: y) with (str ++ [w] ++ y) in Hr. rewrite app_assoc in Hr. destruct (makeroom_spec _ _ _ _ _ _ n true Hr) as (s' & t' & a' & y' & E & H' & Ha); [llia|done|done|]. exists s', t', a', y'. rewrite <- app_assoc in H'. done.
Qed.
Lemma write_open s t a str w y bs : raw s t (zlen str) a (str ++ w :: y) → t ≠ SDS_TYPE_5 → zlen str + zlen bs ≤ a → ∃ s' w' y', (s ← write_at s (zlen str) bs; sdsinclen s (zlen bs)) = Some s' ∧ raw s' t (zlen (str ++ bs)) a ((str ++ bs) ++ w' :: y').
Proof.
  intros Hr Hne Ha. pose proof (raw_room _ _ _ _ _ Hr) as Hroom. destruct (split_cons (w :: y) (zlen bs)) as (old & w' & y' & Eold & Hold); [llia|]. rewrite Eold in Hr. destruct (put_spec _ _ _ _ _ Hr (zlen str) bs str old (w' :: y')) as (s1 & -> & H1); [done|done|lia|]. cbn [mbind option_bind]. destruct (inclen_spec _ _ _ _ _ (zlen bs) H1 Hne) as (s2 & -> & H2); [lia|lia|].
  exists s2, w', y'. split; [done|]. rewrite <- app_assoc. by replace (zlen (str ++ bs)) with (zlen str + zlen bs) by llia.
Qed.
(** A string with free space. *)
Definition roomy s (str : list Z) (n : Z) : Prop := ∃ t a w y, raw s t (zlen str) a (str ++ w :: y) ∧ t ≠ SDS_TYPE_5 ∧ zlen str + n ≤ a.
Lemma copy_ok s str bs t l : roomy s str 0 → load t 0 l = Some bs → zlen str + l ≤ MAX → ∃ s', fmt_copy s (zlen str) t l = Some (s', zlen (str ++ bs)) ∧ roomy s' (str ++ bs) 0.
Proof.
  intros (ty & a & w & y & Hr & Hne & Ha) Ebs Hm. pose proof (load_Some _ _ _ _ Ebs) as (_ & _ & _ & _ & Hl). unfold fmt_copy. rewrite (sdsavail_spec _ _ _ _ _ Hr). cbn [mbind option_bind].
  assert (∃ s1, (if a - zlen str <? l then sdsMakeRoomFor s l else Some s) = Some s1 ∧ roomy s1 str l) as (s1 & -> & t1 & a1 & w1 & y1 & H1 & Hn1 & Ha1).
  { destruct (Z.ltb_spec (a - zlen str) l); [|exists s; split; [done|]; exists ty, a, w, y; split_and!; [done|done|lia]]. destruct (open_room s ty a str w y l Hr) as (s1 & t1 & a1 & y1 & -> & H1 & Ha1); [lia|done|]. exists s1. split; [done|]. exists t1, a1, w, y1. split_and!; [done| |done]. intros E. pose proof (raw_5 _ _ _ _ _ H1 E). pose proof (raw_len _ _ _ _ _ Hr). lia. }
  cbn [mbind option_bind]. rewrite Ebs. cbn [mbind option_bind]. rewrite Hl in *. destruct (write_open s1 t1 a1 str w1 y1 bs H1 Hn1 Ha1) as (s2 & w2 & y2 & E2 & H2). apply bind_Some in E2 as (sx & -> & E2). cbn [mbind option_bind]. rewrite E2. cbn [mbind option_bind]. exists s2. split; [do 2 f_equal; llia|]. exists t1, a1, w2, y2. split_and!; [done|done|llia].
Qed.
Lemma char_ok s str c : roomy s str 1 → ∃ s', fmt_char s (zlen str) c = Some (s', zlen (str ++ [c])) ∧ roomy s' (str ++ [c]) 0.
Proof.
  intros (ty & a & w & y & Hr & Hne & Ha). unfold fmt_char. destruct (write_open s ty a str w y [c] Hr Hne Ha) as (s2 & w2 & y2 & E2 & H2). apply bind_Some in E2 as (sx & -> & E2). cbn [mbind option_bind]. change (zlen [c]) with 1 in E2. rewrite E2. cbn [mbind option_bind]. exists s2. split; [do 2 f_equal; llia|]. exists ty, a, w2, y2. split_and!; [done|done|llia].
Qed.
(** Room for a character, whatever the type was. *)
Lemma one_more s str : open_rep s str → zlen str + 1 ≤ MAX → ∃ s', (avail ← sdsavail s; if avail =? 0 then sdsMakeRoomFor s 1 else Some s) = Some s' ∧ roomy s' str 1.
Proof.
  intros (t & a & w & y & Hr) Hm. rewrite (sdsavail_spec _ _ _ _ _ Hr). cbn [mbind option_bind]. pose proof (raw_len _ _ _ _ _ Hr). destruct (Z.eqb_spec (a - zlen str) 0) as [E0|Hne].
  - destruct (open_room s t a str w y 1 Hr) as (s1 & t1 & a1 & y1 & -> & H1 & Ha1); [lia|done|]. exists s1. split; [done|]. exists t1, a1, w, y1. split_and!; [done| |done]. intros E. pose proof (raw_5 _ _ _ _ _ H1 E). lia.
  - exists s. split; [done|]. exists t, a, w, y. split_and!; [done| |lia]. intros E. pose proof (raw_5 _ _ _ _ _ Hr E). lia.
Qed.

Lemma until_zero_id l : 0 ∉ l → until_zero l = l.
Proof. induction l as [|c l IH]; [done|]. intros [Hc Hl]%not_elem_of_cons. cbn [until_zero]. rewrite (proj2 (Z.eqb_neq c 0)) by done. by rewrite IH. Qed.
Lemma strlen_text t r : 0 ∉ t → strlen (t ++ 0 :: r) 0 = Some (zlen t).
Proof. intros Ht. unfold strlen. rewrite decide_True by lia. cbn [Z.to_nat]. rewrite drop_0, strlen_spec, until_zero_id by done. done. Qed.
Lemma text_spec next a text args : arg_ok next a text → ∃ bs l, fmt_text next (a :: args) = Some (Some (bs, l, args)) ∧ load bs 0 l = Some text.
Proof.
  destruct a as [t|t|n|n]; cbn [arg_ok].
  - intros (-> & rest & -> & Ht). eexists _, _. split; [|by apply load_head]. unfold fmt_text. change ((115 =? 115) || (115 =? 83)) with true. change (115 =? 115) with true. cbn match. by rewrite strlen_text.
  - intros (-> & Hr). eexists _, _. split; [|by apply rep_load]. unfold fmt_text. change ((83 =? 115) || (83 =? 83)) with true. change (83 =? 83) with true. cbn match. by rewrite (rep_len _ _ Hr).
  - intros [Hn ->]. assert (sfits 64 n) as H64 by (destruct Hn as [[_ Hn]|[_ Hn]]; [unfold sfits in *; lia|done]). pose proof (sdec_pos_length n H64). exists (sdec n ++ 0 :: drop (S (length (sdec n))) (fresh (Z.to_nat LONG_STR_SIZE))), (zlen (sdec n)). split; [|by apply load_head].
    unfold fmt_text. destruct Hn as [[-> Hn]|[-> Hn]]; (match goal with |- context [if ?b then s32 n else s64 n] => replace (if b then s32 n else s64 n) with n by (cbn [Z.eqb Pos.eqb]; symmetry; by apply wraps_small) end); cbn match; (rewrite ll2string_spec; [done|done|rewrite length_fresh; unfold LONG_STR_SIZE; lia]).
  - intros [Hn ->]. assert (ufits 64 n) as H64 by (destruct Hn as [[_ Hn]|[_ Hn]]; [unfold ufits in *; lia|done]). unfold ufits in *. pose proof (dec_pos_length n ltac:(lia)). exists (dec n ++ 0 :: drop (S (length (dec n))) (fresh (Z.to_nat LONG_STR_SIZE))), (zlen (dec n)). split; [|by apply load_head].
    unfold fmt_text. destruct Hn as [[-> Hn]|[-> Hn]]; (match goal with |- context [if ?b then u32 n else u64 n] => replace (if b then u32 n else u64 n) with n by (cbn [Z.eqb Pos.eqb]; symmetry; by apply wrapu_small) end); cbn match; (rewrite ull2string_spec; [done|done|rewrite length_fresh; unfold LONG_STR_SIZE; lia]).
Qed.
Lemma other_spec next args : is_conv next = false → fmt_text next args = Some None.
Proof.
  unfold is_conv. intros Hn%bool_decide_eq_false. unfold fmt_text. assert (∀ k, k ∈ [115; 83; 105; 73; 117; 85] → (next =? k) = false) as Hk by (intros k Hk; apply Z.eqb_neq; by intros ->). rewrite !Hk by (rewrite !elem_of_cons; tauto). done.
Qed.
Lemma roomy_open s str n : roomy s str n → open_rep s str.
Proof. intros (t & a & w & y & Hr & _). by exists t, a, w, y. Qed.
Lemma roomy_less s str : roomy s str 1 → roomy s str 0.
Proof. intros (t & a & w & y & Hr & Hn & Ha). exists t, a, w, y. split_and!; [done|done|lia]. Qed.
Lemma loop_spec f args out : expands f args out → ∀ s str rest, open_rep s str → zlen str + zlen out + 1 ≤ MAX → ∃ s', fmt_loop (f ++ 0 :: rest) args s (zlen str) = Some (s', zlen (str ++ out)) ∧ open_rep s' (str ++ out).
Proof.
  induction 1 as [args|args|next f a args text out Hc Ha He IH|next f args out Hc Hz He IH|c f args out Hc Hz He IH]; intros s str rest Ho Hm; cbn [app fmt_loop]; [exists s; by rewrite app_nil_r| | | |].
  all: destruct (one_more s str Ho ltac:(lia)) as (s1 & (av & -> & E1)%bind_Some & H1); cbn [mbind option_bind].
  - rewrite E1. cbn. exists s1. rewrite app_nil_r. split; [done|by eapply roomy_open].
  - assert (next ≠ 0) by (intros ->; done). destruct (text_spec next a text args Ha) as (bs & l & Et & El). pose proof (load_Some _ _ _ _ El) as (_ & _ & _ & _ & Hl). rewrite length_app in Hm. destruct (copy_ok s1 str text bs l (roomy_less _ _ H1) El) as (s2 & E2 & H2); [lia|]. cbn. rewrite E1. cbn [mbind option_bind]. rewrite (proj2 (Z.eqb_neq next 0)) by done. rewrite Et. cbn [mbind option_bind]. rewrite E2. cbn [mbind option_bind].
    destruct (IH s2 (str ++ text) rest) as (s3 & E3 & H3); [by eapply roomy_open|llia|]. exists s3. rewrite <- app_assoc in E3, H3. done.
  - destruct (char_ok s1 str next H1) as (s2 & E2 & H2). cbn. rewrite E1. cbn [mbind option_bind]. rewrite (proj2 (Z.eqb_neq next 0)), other_spec by done. cbn [mbind option_bind]. rewrite E2. cbn [mbind option_bind]. destruct (IH s2 (str ++ [next]) rest) as (s3 & E3 & H3); [by eapply roomy_open|llia|]. exists s3. rewrite <- app_assoc in E3, H3. done.
  - destruct (char_ok s1 str c H1) as (s2 & E2 & H2). rewrite (proj2 (Z.eqb_neq c 0)), E1 by done. cbn [mbind option_bind]. rewrite (proj2 (Z.eqb_neq c 37)), E2 by done. cbn [mbind option_bind]. destruct (IH s2 (str ++ [c]) rest) as (s3 & E3 & H3); [by eapply roomy_open|llia|]. exists s3. rewrite <- app_assoc in E3, H3. done.
Qed.
Lemma expands_nonzero f args out : expands f args out → 0 ∉ f.
Proof. induction 1; rewrite ?not_elem_of_cons; split_and?; try done; try (by intros ?%not_elem_of_nil). intros <-. done. Qed.
(** The expansion of the format is appended, whatever room there was. *)
Lemma catfmt_correct s str fmt args out rest : rep s str → expands fmt args out → zlen str + 2 * zlen fmt + zlen out + 1 ≤ MAX → ∃ s', sdscatfmt s (fmt ++ 0 :: rest) args = Some s' ∧ rep s' (str ++ out).
Proof.
  intros Hr He Hm. unfold sdscatfmt. rewrite (rep_len _ _ Hr), strlen_text by (by eapply expands_nonzero). cbn [mbind option_bind]. unfold MAX in Hm. rewrite wrapu_small by lia. destruct Hr as (t & a & r & Hr). destruct (open_room s t a str 0 r (zlen fmt * 2) Hr) as (s1 & t1 & a1 & y1 & -> & H1 & _); [lia|unfold MAX; lia|]. cbn [mbind option_bind].
  destruct (loop_spec fmt args out He s1 str rest) as (s2 & -> & t2 & a2 & w2 & y2 & H2); [by exists t1, a1, 0, y1|unfold MAX; lia|]. cbn [mbind option_bind]. destruct (put_spec _ _ _ _ _ H2 (zlen (str ++ out)) [0] (str ++ out) [w2] y2) as (s3 & -> & H3); [done..|]. exists s3. split; [done|]. by eexists _, _, _.
Qed.
End fmt.

Example catfmt_ex :
  let s := default (Sds [] 0) (sdsnewlen (Al := jemalloc) (Init [97]) 1) in
  (s' ← sdscatfmt (Al := jemalloc) s (bytes_of "%s=%I%%;%u%" ++ [0]) [ArgCString (bytes_of "key" ++ [0]); ArgInt (-9223372036854775808); ArgUInt 7]; read s') = Some (bytes_of "akey=-9223372036854775808%;7").
Proof. vm_compute. reflexivity. Qed.
End SdsFmt.
