(* ===== verification/Crc64.v ===== *)
(** * crc64.c, crcspeed.c: the checksum of RDB files

    The bitwise definition, the tables that are computed from it when the server
    starts, and the routine that takes eight bytes at a time with them, which
    streams call on every chunk.  The routine is proved equal to the definition,
    wherever the buffer starts, and a stream to have the checksum of its bytes. *)

From S2P Require Import Prelude Rio.
Import Rio.

Module Crc64.

(** ** The definition *)

Definition POLY : Z := 0xad93d23594c935a9.
Fixpoint reflect_loop (n : nat) (data ret : Z) : Z :=
  match n with
  | O => ret
  | S n => let data := Z.shiftr data 1 in reflect_loop n data (Z.lor (u64 (Z.shiftl ret 1)) (Z.land data 1))
  end.
Definition crc_reflect (data : Z) (data_len : nat) : Z := reflect_loop (data_len - 1) data (Z.land data 1).
(** [for (i = 0x01; i & 0xff; i <<= 1)], eight times. *)
Fixpoint crc64_bits (n : nat) (c i crc : Z) : Z :=
  match n with
  | O => crc
  | S n =>
      let bit := Z.land crc 0x8000000000000000 in
      let bit := if negb (Z.land c i =? 0) then (if bit =? 0 then 1 else 0) else bit in
      let crc := u64 (Z.shiftl crc 1) in
      let crc := if negb (bit =? 0) then Z.lxor crc POLY else crc in
      crc64_bits n c (Z.shiftl i 1) crc
  end.
Fixpoint crc64_bytes (data : list Z) (crc : Z) : Z :=
  match data with [] => crc | c :: data => crc64_bytes data (Z.land (crc64_bits 8 c 1 crc) 0xffffffffffffffff) end.
Definition _crc64 (crc : Z) (data : list Z) : Z := Z.lxor (crc_reflect (Z.land (crc64_bytes data crc) 0xffffffffffffffff) 64) 0.

(** ** The tables *)

Definition crc_table : Type := list (list Z).
Definition table_at (table : crc_table) (k : nat) (n : Z) : option Z := row ← table !! k; row !! Z.to_nat n.
(** [table[k][n]] for [k] steps from [table[0][n]]. *)
Fixpoint nested (first : list Z) (k : nat) (crc : Z) : option Z :=
  match k with
  | O => Some crc
  | S k => t ← first !! Z.to_nat (Z.land crc 0xff); nested first k (Z.lxor t (Z.shiftr crc 8))
  end.
Definition crcspeed64little_init (crcfn : Z → list Z → Z) : option crc_table :=
  let first := (λ n, crcfn 0 [n]) <$> seqZ 0 256 in
  mapM (λ k, mapM (nested first k) first) (seq 0 8).

(** ** Eight bytes at a time *)

Definition one_byte (table : crc_table) (crc c : Z) : option Z := t ← table_at table 0 (Z.land (Z.lxor crc c) 0xff); Some (Z.lxor t (Z.shiftr crc 8)).
(** [addr] is the address of the next byte. *)
Fixpoint align_loop (table : crc_table) (crc addr : Z) (next : list Z) : option (Z * list Z) :=
  match next with
  | [] => Some (crc, [])
  | c :: rest => if negb (Z.land addr 7 =? 0) then crc ← one_byte table crc c; align_loop table crc (addr + 1) rest else Some (crc, next)
  end.
Definition eight_bytes (table : crc_table) (crc : Z) : option Z :=
  t7 ← table_at table 7 (Z.land crc 0xff);
  t6 ← table_at table 6 (Z.land (Z.shiftr crc 8) 0xff);
  t5 ← table_at table 5 (Z.land (Z.shiftr crc 16) 0xff);
  t4 ← table_at table 4 (Z.land (Z.shiftr crc 24) 0xff);
  t3 ← table_at table 3 (Z.land (Z.shiftr crc 32) 0xff);
  t2 ← table_at table 2 (Z.land (Z.shiftr crc 40) 0xff);
  t1 ← table_at table 1 (Z.land (Z.shiftr crc 48) 0xff);
  t0 ← table_at table 0 (Z.shiftr crc 56);
  Some (Z.lxor (Z.lxor (Z.lxor (Z.lxor (Z.lxor (Z.lxor (Z.lxor t7 t6) t5) t4) t3) t2) t1) t0).
Fixpoint middle_loop (fuel : nat) (table : crc_table) (crc : Z) (next : list Z) : option (Z * list Z) :=
  if zlen next >=? 8 then
    match fuel with
    | O => None
    | S fuel => w ← load next 0 8; crc ← eight_bytes table (Z.lxor crc (le_val w)); middle_loop fuel table crc (drop 8 next)
    end
  else Some (crc, next).
Fixpoint rest_loop (table : crc_table) (crc : Z) (next : list Z) : option Z :=
  match next with [] => Some crc | c :: next => crc ← one_byte table crc c; rest_loop table crc next end.
Definition crcspeed64little (table : crc_table) (crc addr : Z) (buf : list Z) : option Z :=
  '(crc, next) ← align_loop table crc addr buf;
  '(crc, next) ← middle_loop (length next) table crc next;
  rest_loop table crc next.
(** The machine is little endian. *)
Definition crc64_table : option crc_table := crcspeed64little_init _crc64.
Definition crc64 (crc addr : Z) (s : list Z) : option Z := table ← crc64_table; crcspeed64little table crc addr s.

(** The checksum method of streams; the address of the buffer does not matter. *)
Definition rioGenericUpdateChecksum (cksum : Z) (buf : list Z) : Z := default 0 (crc64 cksum 0 buf).

(** A text of the test in crc64.c. *)
Example crc64_test : _crc64 0 (bytes_of "123456789") = 0xe9c6d914c4b8d9ca ∧ crc64 0 5 (bytes_of "123456789") = Some 0xe9c6d914c4b8d9ca.
Proof. by vm_compute. Qed.

(** ** Bits *)

#[local] Ltac xor_bits := apply Z.bits_inj'; intros ?i _; rewrite ?Z.lxor_spec, ?Z.bits_0; repeat match goal with |- context [Z.testbit ?a ?i] => destruct (Z.testbit a i) end; reflexivity.

Lemma u64_testbit x i : 0 ≤ i → Z.testbit (u64 x) i = (i <? 64) && Z.testbit x i.
Proof. intros Hi. unfold wrapu. destruct (Z.ltb_spec i 64); [by rewrite Z.mod_pow2_bits_low by lia|by rewrite Z.mod_pow2_bits_high by lia]. Qed.
Lemma bits_ext x y w : 0 ≤ w → 0 ≤ x < 2 ^ w → 0 ≤ y < 2 ^ w → (∀ i, 0 ≤ i < w → Z.testbit x i = Z.testbit y i) → x = y.
Proof.
  intros Hw Hx Hy Hb. apply Z.bits_inj'. intros i Hi. destruct (Z.ltb_spec i w); [apply Hb; lia|]. rewrite <- (Z.mod_small x (2 ^ w)), <- (Z.mod_small y (2 ^ w)) by done. by rewrite !Z.mod_pow2_bits_high by lia.
Qed.
Lemma land1_range x : 0 ≤ Z.land x 1 < 2.
Proof. change (Z.land x 1) with (Z.land x (2 ^ 1 - 1)). rewrite land_low by lia. apply Z.mod_pos_bound. lia. Qed.
Lemma reflect_loop_spec n : ∀ data ret k, 0 ≤ k → k + Z.of_nat n ≤ 64 → 0 ≤ ret < 2 ^ k →
  0 ≤ reflect_loop n data ret < 2 ^ (k + Z.of_nat n) ∧ ∀ i, 0 ≤ i → Z.testbit (reflect_loop n data ret) i = if i <? Z.of_nat n then Z.testbit data (Z.of_nat n - i) else Z.testbit ret (i - Z.of_nat n).
Proof.
  induction n as [|n IH]; intros data ret k Hk Hn Hr; cbn [reflect_loop].
  { split; [by rewrite Z.add_0_r|]. intros i Hi. destruct (Z.ltb_spec i (Z.of_nat 0)); [lia|]. f_equal. lia. }
  assert (Hsm : 0 ≤ Z.shiftl ret 1 < 2 ^ (k + 1)) by (rewrite Z.shiftl_mul_pow2, Z.pow_add_r by lia; lia). assert (2 ^ (k + 1) ≤ 2 ^ 64) by (apply Z.pow_le_mono_r; lia). rewrite (wrapu_small 64 (Z.shiftl ret 1)) by lia.
  assert (Hl1 : ∀ x, 0 ≤ Z.land x 1 < 2 ^ (k + 1)) by (intros x; pose proof (land1_range x); assert (2 ^ 1 ≤ 2 ^ (k + 1)) by (apply Z.pow_le_mono_r; lia); lia).
  destruct (IH (Z.shiftr data 1) (Z.lor (Z.shiftl ret 1) (Z.land (Z.shiftr data 1) 1)) (k + 1)) as [Hran Hbit]; [lia|lia|apply lor_range; [lia|done|apply Hl1]|]. split; [by replace (k + Z.of_nat (S n)) with (k + 1 + Z.of_nat n) by lia|].
  intros i Hi. rewrite Hbit by done. destruct (Z.ltb_spec i (Z.of_nat n)), (Z.ltb_spec i (Z.of_nat (S n))); try lia.
  - rewrite Z.shiftr_spec by lia. f_equal. lia.
  - assert (i = Z.of_nat n) as -> by lia. rewrite Z.sub_diag, Z.lor_spec, Z.land_spec, Z.shiftl_spec_low, Z.shiftr_spec by lia. cbn [orb]. rewrite andb_true_r. f_equal. lia.
  - rewrite Z.lor_spec, Z.land_spec, Z.shiftl_spec by lia. assert (Z.testbit 1 (i - Z.of_nat n) = false) as -> by (apply Z.bits_above_log2; [lia|change (Z.log2 1) with 0; lia]). rewrite andb_false_r, orb_false_r. f_equal. lia.
Qed.
Lemma reflect_spec x : 0 ≤ crc_reflect x 64 < 2 ^ 64 ∧ ∀ i, 0 ≤ i < 64 → Z.testbit (crc_reflect x 64) i = Z.testbit x (63 - i).
Proof.
  unfold crc_reflect. change (64 - 1)%nat with 63%nat. destruct (reflect_loop_spec 63 x (Z.land x 1) 1) as [Hr Hb]; [lia|lia|apply land1_range|]. split; [done|]. intros i Hi. rewrite Hb by lia. destruct (Z.ltb_spec i (Z.of_nat 63)); [f_equal; lia|].
  assert (i = 63) as -> by lia. rewrite Z.land_spec. by rewrite andb_true_r.
Qed.

(** ** From the left shifts of the definition to right shifts *)

#[local] Opaque crc_reflect.

Definition RPOLY : Z := crc_reflect POLY 64.
(** One bit, the next one of the message already added. *)
Definition rz (r : Z) : Z := Z.lxor (Z.shiftr r 1) (if Z.odd r then RPOLY else 0).
Definition left_bit (crc : Z) (b : bool) : Z := Z.lxor (u64 (Z.shiftl crc 1)) (if xorb (Z.testbit crc 63) b then POLY else 0).

Lemma top_bit crc : 0 ≤ crc < 2 ^ 64 → (Z.land crc 0x8000000000000000 =? 0) = negb (Z.testbit crc 63).
Proof.
  intros Hc. change 0x8000000000000000 with (2 ^ 63). destruct (Z.testbit crc 63) eqn:E; cbn [negb].
  - apply Z.eqb_neq. intros E0. apply (f_equal (λ x, Z.testbit x 63)) in E0. by rewrite Z.land_spec, E, Z.pow2_bits_true, Z.bits_0 in E0 by lia.
  - apply Z.eqb_eq. apply Z.bits_inj'. intros i Hi. rewrite Z.land_spec, Z.bits_0. destruct (decide (i = 63)) as [->|]; [by rewrite E|]. by rewrite Z.pow2_bits_false, andb_false_r by lia.
Qed.
Lemma bit_of c i : 0 ≤ i → negb (Z.land c (2 ^ i) =? 0) = Z.testbit c i.
Proof.
  intros Hi. destruct (Z.testbit c i) eqn:E.
  - apply negb_true_iff, Z.eqb_neq. intros E0. apply (f_equal (λ x, Z.testbit x i)) in E0. by rewrite Z.land_spec, E, Z.pow2_bits_true, Z.bits_0 in E0 by lia.
  - apply negb_false_iff, Z.eqb_eq. apply Z.bits_inj'. intros j Hj. rewrite Z.land_spec, Z.bits_0. destruct (decide (j = i)) as [->|]; [by rewrite E|]. by rewrite Z.pow2_bits_false, andb_false_r by lia.
Qed.
Lemma bits_step n c i crc : 0 ≤ i → 0 ≤ crc < 2 ^ 64 → crc64_bits (S n) c (2 ^ i) crc = crc64_bits n c (2 ^ (i + 1)) (left_bit crc (Z.testbit c i)).
Proof.
  intros Hi Hc. cbn [crc64_bits]. rewrite bit_of, (top_bit crc Hc) by done. unfold left_bit. f_equal; [rewrite Z.shiftl_mul_pow2, <- Z.pow_add_r by lia; done|]. pose proof (top_bit crc Hc) as Ht. destruct (Z.testbit c i), (Z.testbit crc 63); cbn [negb xorb Z.eqb]; rewrite ?Ht; cbn [negb]; by rewrite ?Z.lxor_0_r.
Qed.
Lemma left_range crc b : 0 ≤ left_bit crc b < 2 ^ 64.
Proof. unfold left_bit. apply lxor_range; [lia|apply wrapu_range; lia|]. by destruct (xorb _ _). Qed.
(** The reflection of a step to the left is a step to the right. *)
Lemma reflect_left crc b : 0 ≤ crc < 2 ^ 64 → crc_reflect (left_bit crc b) 64 = rz (Z.lxor (crc_reflect crc 64) (Z.b2z b)).
Proof.
  intros Hc. destruct (reflect_spec crc) as [Hr Hrb]. destruct (reflect_spec (left_bit crc b)) as [Hl Hlb]. unfold rz. assert (Hb : 0 ≤ Z.b2z b < 2 ^ 64) by (by destruct b). pose proof (lxor_range 64 _ _ ltac:(lia) Hr Hb) as Hx. set (r := crc_reflect crc 64) in *.
  assert (Hodd : Z.odd (Z.lxor r (Z.b2z b)) = xorb (Z.testbit crc 63) b) by (rewrite <- Z.bit0_odd, Z.lxor_spec, Hrb by lia; f_equal; by destruct b). rewrite Hodd. apply (bits_ext _ _ 64); [lia|done| |].
  - apply lxor_range; [lia|rewrite Z.shiftr_div_pow2 by lia; split; [apply Z.div_pos; lia|apply Z.div_lt_upper_bound; lia]|]. destruct (xorb _ _); [exact (proj1 (reflect_spec POLY))|done].
  - intros i Hi. rewrite Hlb by done. unfold left_bit. rewrite !Z.lxor_spec, u64_testbit, Z.shiftr_spec, Z.lxor_spec by lia. destruct (Z.ltb_spec (63 - i) 64); [|lia]. cbn [andb]. rewrite Z.shiftl_spec by lia. f_equal; [|destruct (xorb _ _); [symmetry; by apply reflect_spec|by rewrite !Z.bits_0]].
    assert (Z.testbit (Z.b2z b) (i + 1) = false) as -> by (destruct b; cbn; [apply Z.bits_above_log2; [lia|change (Z.log2 1) with 0; lia]|apply Z.bits_0]). rewrite xorb_false_r. destruct (decide (i = 63)) as [->|]; [|rewrite Hrb by lia; f_equal; lia].
    change (63 + 1) with 64. rewrite Z.testbit_neg_r by lia. symmetry. rewrite <- (Z.mod_small r (2 ^ 64)) by done. by rewrite Z.mod_pow2_bits_high by lia.
Qed.

(** ** Everything is linear *)

Fixpoint iter (f : Z → Z) (n : nat) (x : Z) : Z := match n with O => x | S n => iter f n (f x) end.
Lemma iter_S f n x : iter f (S n) x = iter f n (f x).
Proof. done. Qed.
Definition linear (f : Z → Z) : Prop := ∀ x y, f (Z.lxor x y) = Z.lxor (f x) (f y).
Lemma rz_linear : linear rz.
Proof.
  intros x y. unfold rz. rewrite Z.shiftr_lxor, <- !Z.bit0_odd, Z.lxor_spec. destruct (Z.testbit x 0), (Z.testbit y 0); cbn [xorb]; xor_bits.
Qed.
Lemma iter_linear f n : linear f → linear (iter f n).
Proof. intros Hf. induction n as [|n IH]; intros x y; cbn [iter]; [done|]. by rewrite Hf, IH. Qed.
Lemma rz_double y : rz (Z.shiftl y 1) = y.
Proof. unfold rz. rewrite Z.shiftl_mul_pow2 by lia. rewrite Z.odd_mul. cbn. rewrite andb_false_r, Z.lxor_0_r. change (y * 2) with (y * 2 ^ 1). rewrite <- Z.shiftl_mul_pow2, Z.shiftr_shiftl_l by lia. apply Z.shiftl_0_r. Qed.
Lemma iter_rz_shift n y : iter rz n (Z.shiftl y (Z.of_nat n)) = y.
Proof. revert y. induction n as [|n IH]; intros y; cbn [iter]; [apply Z.shiftl_0_r|]. replace (Z.of_nat (S n)) with (Z.of_nat n + 1) by lia. rewrite <- Z.shiftl_shiftl, rz_double by lia. apply IH. Qed.
Lemma rz_range r : 0 ≤ r < 2 ^ 64 → 0 ≤ rz r < 2 ^ 64.
Proof. intros Hr. unfold rz. apply lxor_range; [lia|rewrite Z.shiftr_div_pow2 by lia; split; [apply Z.div_pos; lia|apply Z.div_lt_upper_bound; lia]|]. destruct (Z.odd r); [exact (proj1 (reflect_spec POLY))|done]. Qed.
Lemma iter_range f n x : (∀ x, 0 ≤ x < 2 ^ 64 → 0 ≤ f x < 2 ^ 64) → 0 ≤ x < 2 ^ 64 → 0 ≤ iter f n x < 2 ^ 64.
Proof. intros Hf. revert x. induction n as [|n IH]; intros x Hx; cbn [iter]; [done|]. by apply IH, Hf. Qed.

(** Eight bits: a zero byte of the message. *)
Definition zb : Z → Z := iter rz 8.
Lemma zb_linear : linear zb.
Proof. apply iter_linear, rz_linear. Qed.
Lemma zb_range x : 0 ≤ x < 2 ^ 64 → 0 ≤ zb x < 2 ^ 64.
Proof. apply iter_range, rz_range. Qed.
Lemma split8 x : x = Z.lxor (Z.land x 255) (Z.shiftl (Z.shiftr x 8) 8).
Proof.
  apply Z.bits_inj'. intros i Hi. change 255 with (Z.ones 8). rewrite Z.lxor_spec, Z.land_spec, Z.testbit_ones, Z.shiftl_spec by lia. destruct (Z.leb_spec 0 i); [|lia]. cbn [andb]. destruct (Z.ltb_spec i 8); [by rewrite andb_true_r, (Z.testbit_neg_r _ (i - 8)), xorb_false_r by lia|]. rewrite andb_false_r, Z.shiftr_spec by lia. cbn [xorb]. f_equal. lia.
Qed.
Lemma zb_shift y : zb (Z.shiftl y 8) = y.
Proof. apply (iter_rz_shift 8). Qed.
Lemma zb_split x : zb x = Z.lxor (zb (Z.land x 255)) (Z.shiftr x 8).
Proof. rewrite (split8 x) at 1. rewrite zb_linear, zb_shift. reflexivity. Qed.

#[local] Opaque zb.

(** ** The definition, a byte at a time *)

Definition by_byte (r c : Z) : Z := zb (Z.lxor r c).
Lemma by_byte_zb r c : by_byte r c = zb (Z.lxor r c).
Proof. reflexivity. Qed.
Lemma by_byte_eq r c : by_byte r c = iter rz 8 (Z.lxor r c).
Proof. Transparent zb. reflexivity. Qed.
#[local] Opaque zb by_byte.
Lemma shiftr_split c i : 0 ≤ i → Z.shiftr c i = Z.lxor (Z.b2z (Z.testbit c i)) (Z.shiftl (Z.shiftr c (i + 1)) 1).
Proof.
  intros Hi. apply Z.bits_inj'. intros j Hj. rewrite Z.lxor_spec, Z.shiftl_spec, Z.shiftr_spec by lia. destruct (decide (j = 0)) as [->|]; [rewrite (Z.testbit_neg_r _ (0 - 1)), xorb_false_r, Z.add_0_l by lia; by destruct (Z.testbit c i)|]. rewrite Z.shiftr_spec by lia. assert (Z.testbit (Z.b2z (Z.testbit c i)) j = false) as -> by (destruct (Z.testbit c i); cbn [Z.b2z]; [apply Z.bits_above_log2; [lia|change (Z.log2 1) with 0; lia]|apply Z.bits_0]). cbn [xorb]. f_equal. lia.
Qed.
Lemma bits_spec n : ∀ c i crc, 0 ≤ i → 0 ≤ c < 2 ^ (i + Z.of_nat n) → 0 ≤ crc < 2 ^ 64 →
  0 ≤ crc64_bits n c (2 ^ i) crc < 2 ^ 64 ∧ crc_reflect (crc64_bits n c (2 ^ i) crc) 64 = iter rz n (Z.lxor (crc_reflect crc 64) (Z.shiftr c i)).
Proof.
  induction n as [|n IH]; intros c i crc Hi Hc Hcrc.
  { cbn [crc64_bits iter]. split; [done|]. rewrite Z.add_0_r in Hc. rewrite Z.shiftr_div_pow2, Z.div_small, Z.lxor_0_r by lia. done. }
  rewrite bits_step by done. destruct (IH c (i + 1) (left_bit crc (Z.testbit c i))) as [Hr E]; [lia|by replace (i + 1 + Z.of_nat n) with (i + Z.of_nat (S n)) by lia|apply left_range|]. split; [done|]. rewrite E, reflect_left, iter_S by done. f_equal.
  rewrite (shiftr_split c i) by done.
  rewrite <- Z.lxor_assoc, (rz_linear (Z.lxor _ _)), rz_double. done.
Qed.
Lemma land_u64 x : 0 ≤ x < 2 ^ 64 → Z.land x 0xffffffffffffffff = x.
Proof. intros Hx. change 0xffffffffffffffff with (2 ^ 64 - 1). rewrite land_low, Z.mod_small by lia. done. Qed.
Lemma bytes_spec data : ∀ crc, Forall is_byte data → 0 ≤ crc < 2 ^ 64 → 0 ≤ crc64_bytes data crc < 2 ^ 64 ∧ crc_reflect (crc64_bytes data crc) 64 = foldl by_byte (crc_reflect crc 64) data.
Proof.
  induction data as [|c data IH]; intros crc Hb Hc; cbn [crc64_bytes foldl]; [done|]. apply Forall_cons in Hb as [Hby Hb]. destruct (bits_spec 8 c 0 crc) as [Hr E]; [lia|exact Hby|done|]. change (2 ^ 0) with 1 in *. rewrite land_u64 by done. destruct (IH _ Hb Hr) as [? E2]. split; [done|]. rewrite E2, E, Z.shiftr_0_r. rewrite <- by_byte_eq. reflexivity.
Qed.
Lemma crc64_spec crc data : Forall is_byte data → 0 ≤ crc < 2 ^ 64 → _crc64 crc data = foldl by_byte (crc_reflect crc 64) data.
Proof. intros Hb Hc. destruct (bytes_spec data crc Hb Hc) as [Hr E]. unfold _crc64. by rewrite Z.lxor_0_r, land_u64, E. Qed.
Lemma single_byte n : is_byte n → _crc64 0 [n] = zb n.
Proof. intros Hn. rewrite crc64_spec by (done || by constructor). cbn [foldl]. rewrite by_byte_zb. assert (crc_reflect 0 64 = 0) as -> by (vm_compute; reflexivity). by rewrite Z.lxor_0_l. Qed.

(** ** The tables hold the images of the bytes *)

Lemma mapM_total {A B} (f : A → option B) (g : A → B) l : (∀ x, x ∈ l → f x = Some (g x)) → mapM f l = Some (g <$> l).
Proof. induction l as [|x l IH]; intros Hf; [done|]. cbn [mapM]. rewrite Hf by left. cbn [mbind option_bind]. rewrite IH; [done|]. intros y Hy. apply Hf. by right. Qed.
Lemma first_lookup n : 0 ≤ n < 256 → ((λ n, _crc64 0 [n]) <$> seqZ 0 256) !! Z.to_nat n = Some (zb n).
Proof. intros Hn. rewrite list_lookup_fmap, lookup_seqZ_lt by lia. cbn [fmap option_fmap option_map]. rewrite Z.add_0_l, Z2Nat.id, single_byte by (unfold is_byte; lia). done. Qed.
Lemma land_byte x : 0 ≤ Z.land x 255 < 256.
Proof. change 255 with (2 ^ 8 - 1). rewrite land_low by lia. apply Z.mod_pos_bound. lia. Qed.
Lemma nested_spec k x : nested ((λ n, _crc64 0 [n]) <$> seqZ 0 256) k x = Some (iter zb k x).
Proof. revert x. induction k as [|k IH]; intros x; [done|]. cbn [nested]. rewrite iter_S, first_lookup by apply land_byte. cbn [mbind option_bind]. rewrite IH, <- zb_split. reflexivity. Qed.
Lemma table_spec : ∃ table, crc64_table = Some table ∧ ∀ k n, (k < 8)%nat → 0 ≤ n < 256 → table_at table k n = Some (iter zb k (zb n)).
Proof.
  unfold crc64_table, crcspeed64little_init. rewrite (mapM_total _ (λ k, (iter zb k) <$> ((λ n, _crc64 0 [n]) <$> seqZ 0 256))) by (intros k _; apply mapM_total; intros x _; apply nested_spec). exists ((λ k, iter zb k <$> ((λ n, _crc64 0 [n]) <$> seqZ 0 256)) <$> seq 0 8). split; [reflexivity|]. intros k n Hk Hn. unfold table_at. rewrite (list_lookup_fmap (λ k, iter zb k <$> ((λ n, _crc64 0 [n]) <$> seqZ 0 256)) (seq 0 8) k), lookup_seq_lt by done. change ((iter zb k <$> ((λ n, _crc64 0 [n]) <$> seqZ 0 256)) !! Z.to_nat n = Some (iter zb k (zb n))). rewrite list_lookup_fmap, first_lookup by done. reflexivity.
Qed.

(** ** The routine *)

Section routine.
Context (table : crc_table) (Ht : ∀ k n, (k < 8)%nat → 0 ≤ n < 256 → table_at table k n = Some (iter zb k (zb n))).
Lemma one_byte_spec crc c : is_byte c → one_byte table crc c = Some (by_byte crc c).
Proof.
  intros Hc. unfold one_byte. rewrite by_byte_zb. rewrite Ht by (lia || apply land_byte). cbn [mbind option_bind iter]. rewrite (zb_split (Z.lxor crc c)), Z.shiftr_lxor, (Z.shiftr_div_pow2 c) by lia. unfold is_byte in Hc. rewrite (Z.div_small c) by (change (2 ^ 8) with 256; lia). by rewrite Z.lxor_0_r.
Qed.
Lemma iter_zb_split n x : iter zb (S n) x = Z.lxor (iter zb n (zb (Z.land x 255))) (iter zb n (Z.shiftr x 8)).
Proof. rewrite iter_S. rewrite zb_split at 1. apply (iter_linear zb n zb_linear). Qed.
Lemma eight_spec x : 0 ≤ x < 2 ^ 64 → eight_bytes table x = Some (iter zb 8 x).
Proof.
  intros Hx. unfold eight_bytes. assert (0 ≤ Z.shiftr x 56 < 256) by (rewrite Z.shiftr_div_pow2 by lia; split; [apply Z.div_pos; lia|apply Z.div_lt_upper_bound; lia]). rewrite !Ht by (lia || apply land_byte). cbn [mbind option_bind]. f_equal.
  rewrite (iter_zb_split 7 x). rewrite (iter_zb_split 6 (Z.shiftr x 8)), (Z.shiftr_shiftr x 8 8) by lia. change (8 + 8) with 16. rewrite (iter_zb_split 5 (Z.shiftr x 16)), (Z.shiftr_shiftr x 16 8) by lia. change (16 + 8) with 24. rewrite (iter_zb_split 4 (Z.shiftr x 24)), (Z.shiftr_shiftr x 24 8) by lia. change (24 + 8) with 32. rewrite (iter_zb_split 3 (Z.shiftr x 32)), (Z.shiftr_shiftr x 32 8) by lia. change (32 + 8) with 40. rewrite (iter_zb_split 2 (Z.shiftr x 40)), (Z.shiftr_shiftr x 40 8) by lia. change (40 + 8) with 48. rewrite (iter_zb_split 1 (Z.shiftr x 48)), (Z.shiftr_shiftr x 48 8) by lia. change (48 + 8) with 56.
  rewrite (iter_S zb 0 (Z.shiftr x 56)), !Z.lxor_assoc. reflexivity.
Qed.
Lemma word_spec ds : ∀ r, Forall is_byte ds → iter zb (length ds) (Z.lxor r (le_val ds)) = foldl by_byte r ds.
Proof.
  induction ds as [|d ds IH]; intros r Hb; cbn [length le_val foldl]; [apply Z.lxor_0_r|]. apply Forall_cons in Hb as [Hd Hb]. rewrite <- IH, iter_S by done. f_equal. rewrite by_byte_zb. unfold is_byte in Hd. assert (d + 256 * le_val ds = Z.lxor d (Z.shiftl (le_val ds) 8)) as ->.
  { rewrite <- Z.add_nocarry_lxor; [rewrite Z.shiftl_mul_pow2 by lia; lia|]. apply Z.bits_inj'. intros i Hi. rewrite Z.land_spec, Z.bits_0. destruct (Z.ltb_spec i 8); [by rewrite Z.shiftl_spec_low, andb_false_r by lia|]. rewrite <- (Z.mod_small d (2 ^ 8)) by lia. by rewrite Z.mod_pow2_bits_high by lia. }
  rewrite <- Z.lxor_assoc, zb_linear, zb_shift. reflexivity.
Qed.
Lemma by_byte_range r c : 0 ≤ r < 2 ^ 64 → is_byte c → 0 ≤ by_byte r c < 2 ^ 64.
Proof. intros Hr Hc. rewrite by_byte_zb. apply zb_range, lxor_range; [lia|done|unfold is_byte in Hc; lia]. Qed.
Lemma foldl_range ds : ∀ r, Forall is_byte ds → 0 ≤ r < 2 ^ 64 → 0 ≤ foldl by_byte r ds < 2 ^ 64.
Proof. induction ds as [|d ds IH]; intros r Hb Hr; cbn [foldl]; [done|]. apply Forall_cons in Hb as [Hd Hb]. apply IH; [done|]. by apply by_byte_range. Qed.

Lemma rest_spec next : ∀ crc, Forall is_byte next → rest_loop table crc next = Some (foldl by_byte crc next).
Proof. induction next as [|c next IH]; intros crc Hb; cbn [rest_loop foldl]; [done|]. apply Forall_cons in Hb as [Hc Hb]. rewrite one_byte_spec by done. by apply IH. Qed.
Lemma align_spec next : ∀ crc addr, Forall is_byte next → ∃ a b, next = a ++ b ∧ align_loop table crc addr next = Some (foldl by_byte crc a, b).
Proof.
  induction next as [|c next IH]; intros crc addr Hb; cbn [align_loop]; [by exists [], []|]. apply Forall_cons in Hb as [Hc Hb]. destruct (negb _); [|by exists [], (c :: next)]. rewrite one_byte_spec by done. cbn [mbind option_bind]. destruct (IH (by_byte crc c) (addr + 1) Hb) as (a & b & -> & E). by exists (c :: a), b.
Qed.
Lemma middle_spec fuel : ∀ crc next, Forall is_byte next → 0 ≤ crc < 2 ^ 64 → (length next ≤ fuel)%nat → ∃ a b, next = a ++ b ∧ middle_loop fuel table crc next = Some (foldl by_byte crc a, b).
Proof.
  induction fuel as [|fuel IH]; intros crc next Hb Hc Hf; cbn [middle_loop]; (destruct (Z.geb_spec (zlen next) 8); [|by exists [], next]); [lia|].
  destruct (load_total next 0 8) as [w Ew]; [lia..|]. rewrite Ew. cbn [mbind option_bind]. pose proof (load_Some _ _ _ _ Ew) as (x & r & -> & Hx & Hw). destruct x; [|cbn in Hx; lia]. cbn [app] in *. apply Forall_app in Hb as [Hbw Hbr]. rewrite drop_app_length' by lia. pose proof (le_val_range w Hbw) as Hlv. rewrite <- Hw in Hlv. rewrite eight_spec by (apply lxor_range; [lia|done|exact Hlv]). cbn [mbind option_bind].
  assert (8%nat = length w) as -> by lia. rewrite word_spec by done. destruct (IH (foldl by_byte crc w) r Hbr) as (a & b & -> & E); [by apply foldl_range|rewrite length_app in Hf; lia|]. exists (w ++ a), b. rewrite <- app_assoc, foldl_app. done.
Qed.
Lemma speed_spec crc addr buf : Forall is_byte buf → 0 ≤ crc < 2 ^ 64 → crcspeed64little table crc addr buf = Some (foldl by_byte crc buf).
Proof.
  intros Hb Hc. unfold crcspeed64little. destruct (align_spec buf crc addr Hb) as (a & b & -> & ->). cbn [mbind option_bind]. apply Forall_app in Hb as [Ha Hb]. destruct (middle_spec (length b) (foldl by_byte crc a) b Hb) as (c & d & -> & ->); [by apply foldl_range|done|]. cbn [mbind option_bind]. apply Forall_app in Hb as [_ Hd]. rewrite rest_spec by done. by rewrite !foldl_app.
Qed.
End routine.

Lemma crc64_total crc addr data : Forall is_byte data → 0 ≤ crc < 2 ^ 64 → crc64 crc addr data = Some (foldl by_byte crc data).
Proof. intros Hb Hc. destruct table_spec as (table & E & Ht). unfold crc64. rewrite E. cbn [mbind option_bind]. by apply (speed_spec table Ht). Qed.
#[local] Opaque crc64.
Lemma update_spec crc data : Forall is_byte data → 0 ≤ crc < 2 ^ 64 → rioGenericUpdateChecksum crc data = foldl by_byte crc data.
Proof. intros Hb Hc. unfold rioGenericUpdateChecksum. by rewrite crc64_total. Qed.

(** ** Streams *)

Section streams.
Context {io : Type} `{Backend io}.
Definition summed (r : rio io) : Prop := r_update_cksum r = Some rioGenericUpdateChecksum ∧ 0 ≤ r_cksum r < 2 ^ 64.
Lemma chunk_summed r x n bs : summed r → Forall is_byte bs → let r' := advance (add_cksum r bs) x n in summed r' ∧ r_cksum r' = foldl by_byte (r_cksum r) bs.
Proof. intros [Hu Hc] Hb. unfold summed, advance, add_cksum. cbn [r_update_cksum r_cksum]. rewrite Hu, update_spec by done. split; [|done]. split; [done|]. by apply foldl_range. Qed.
Lemma write_summed fuel : ∀ r buf r', summed r → Forall is_byte buf → write_loop fuel r buf = (r', true) → r_cksum r' = foldl by_byte (r_cksum r) buf.
Proof.
  induction fuel as [|fuel IH]; intros r buf r' Hs Hb E; cbn [write_loop] in E; (destruct (Z.eqb_spec (zlen buf) 0) as [E0|Hne0]; [injection E as <-; by destruct buf|]); [done|].
  set (n := Z.to_nat (chunk r (zlen buf))) in *. rewrite <- (take_drop n buf) in Hb. apply Forall_app in Hb as [Ht Hd]. destruct (bk_write _ _) as [x|]; [|done]. destruct (chunk_summed r x (chunk r (zlen buf)) (take n buf) Hs Ht) as [Hs' Hc']. apply IH in E; [|done|done]. rewrite E, Hc', <- foldl_app, take_drop. done.
Qed.
Lemma read_summed fuel : ∀ r len buf r' out, summed r → read_loop fuel r len buf = (r', Some out) → Forall is_byte out → ∃ bs, out = buf ++ bs ∧ r_cksum r' = foldl by_byte (r_cksum r) bs.
Proof.
  induction fuel as [|fuel IH]; intros r len buf r' out Hs E Hb; cbn [read_loop] in E; (destruct (Z.eqb_spec len 0) as [E0|]; [injection E as <- <-; exists []; by rewrite app_nil_r|]); [done|].
  destruct (bk_read _ _) as [[bs x]|]; [|done]. set (r1 := advance _ _ _) in E. assert (Hsum : ∃ bs', out = (buf ++ bs) ++ bs') by (clear -E; revert E; generalize (len - chunk r len), r1, (buf ++ bs); induction fuel as [|fuel IH]; intros l0 r0 b0 E; cbn [read_loop] in E; (destruct (l0 =? 0); [injection E as _ <-; exists []; by rewrite app_nil_r|]); [done|]; destruct (bk_read _ _) as [[b x1]|]; [|done]; apply IH in E as (b' & ->); exists (b ++ b'); by rewrite !app_assoc).
  destruct Hsum as (bs0 & Eout). pose proof Hb as Hb'. rewrite Eout in Hb'. apply Forall_app in Hb' as [Hb1 _]. apply Forall_app in Hb1 as [_ Hbs]. destruct (chunk_summed r x (chunk r len) bs Hs Hbs) as [Hs' Hc']. destruct (IH r1 (len - chunk r len) (buf ++ bs) r' out Hs' E Hb) as (bs2 & Eo & Hc2). exists (bs ++ bs2). split; [by rewrite app_assoc|]. rewrite Hc2, foldl_app. f_equal. exact Hc'.
Qed.
End streams.

(** C19: the checksum of RDB files.  Computing the tables and taking eight bytes at
    a time gives the bit-by-bit CRC, for every length and alignment of the buffer
    (the register of the bitwise definition is reflected); a message may be passed
    in pieces; and a stream that writes or reads in chunks has the checksum of all
    its bytes. *)
Theorem crc64_correct :
  (∀ crc addr data, 0 ≤ crc < 2 ^ 64 → Forall is_byte data → crc64 (crc_reflect crc 64) addr data = Some (_crc64 crc data)) ∧
  (∀ crc addr a addr' b, 0 ≤ crc < 2 ^ 64 → Forall is_byte (a ++ b) → (crc64 crc addr a ≫= λ crc, crc64 crc addr' b) = crc64 crc addr (a ++ b)) ∧
  (∀ io `{Backend io} (r r' : rio io) addr, r_update_cksum r = Some rioGenericUpdateChecksum → 0 ≤ r_cksum r < 2 ^ 64 →
    (∀ buf, Forall is_byte buf → rioWrite r buf = (r', true) → crc64 (r_cksum r) addr buf = Some (r_cksum r')) ∧
    (∀ len bs, Forall is_byte bs → rioRead r len = (r', Some bs) → crc64 (r_cksum r) addr bs = Some (r_cksum r'))).
Proof.
  split_and!.
  - intros crc addr data Hc Hb. rewrite crc64_total; [|done|apply reflect_spec]. by rewrite crc64_spec.
  - intros crc addr a addr' b Hc Hb. pose proof (crc64_total crc addr (a ++ b) Hb Hc) as E. apply Forall_app in Hb as [Ha Hb]. pose proof (crc64_total crc addr a Ha Hc) as E1. pose proof (crc64_total _ addr' b Hb (foldl_range a crc Ha Hc)) as E2. rewrite E1, E, foldl_app. exact E2.
  - intros io HB r r' addr Hu Hc. split.
    + intros buf Hb E. unfold rioWrite in E. destruct (r_write_error r); [discriminate E|]. rewrite (crc64_total _ addr buf Hb Hc). f_equal. symmetry. exact (write_summed _ r buf r' (conj Hu Hc) Hb E).
    + intros len bs Hb E. unfold rioRead in E. destruct (r_read_error r); [discriminate E|]. rewrite (crc64_total _ addr bs Hb Hc). f_equal. destruct (read_summed _ r len [] r' bs (conj Hu Hc) E Hb) as (bs' & Eb & Ec). rewrite Ec, Eb. reflexivity.
Qed.

Lemma crc64_witness :
  crc64 0 5 (bytes_of "123456789") = Some 0xe9c6d914c4b8d9ca ∧
  crc64 0 2 (bytes_of "123456789") = Some (r_cksum (fst (rioWrite (Rio (Buffer [] 0) (Some rioGenericUpdateChecksum) 0 false false 0 4) (bytes_of "123456789")))) ∧
  (crc64 0 3 (bytes_of "1234") ≫= λ crc, crc64 crc 7 (bytes_of "56789")) = crc64 0 3 (bytes_of "123456789").
Proof.
  destruct crc64_correct as (H1 & H2 & H3). split_and!.
  - assert (E1 : crc_reflect 0 64 = 0) by (vm_compute; reflexivity). assert (E2 : _crc64 0 (bytes_of "123456789") = 0xe9c6d914c4b8d9ca) by (vm_compute; reflexivity).
    pose proof (H1 0 5 (bytes_of "123456789") ltac:(lia) ltac:(repeat constructor; done)) as E. rewrite E1, E2 in E. exact E.
  - pose proof (surjective_pairing (rioWrite (Rio (Buffer [] 0) (Some rioGenericUpdateChecksum) 0 false false 0 4) (bytes_of "123456789"))) as E. assert (snd (rioWrite (Rio (Buffer [] 0) (Some rioGenericUpdateChecksum) 0 false false 0 4) (bytes_of "123456789")) = true) as Ew by (vm_compute; reflexivity). rewrite Ew in E.
    refine (proj1 (H3 buffer _ _ _ 2 _ _) (bytes_of "123456789") _ E); [done|cbn [r_cksum]; lia|repeat constructor; done].
  - apply (H2 0 3 (bytes_of "1234") 7 (bytes_of "56789")); [lia|repeat constructor; done].
Defined.
End Crc64.
